(* ===== verification/_CoqProject ===== *)
-Q . S2P
Prelude.v
MachineInt.v
Engine.v
GasConst.v
Mat.v
Instruction.v
InstructionFacts.v
Rvc.v
Encode.v
GasSim.v
GasCost.v
Predecode.v
Mem.v
Interp.v
InterpFacts.v
InterpSafety.v
InterpResume.v
InterpFlow.v
InterpProtect.v
AluFacts.v
BTreeMap.v
Program.v
Local.v
OrdMap.v
Merkle.v
Ssz.v
SszFacts.v
SszContainer.v
Radix.v
RadixFacts.v
CapData.v
CapSlot.v
CapImage.v
CapImageFacts.v
Cap.v
CapFacts.v
Cache.v
CacheFacts.v
CachedCap.v
Task.v
TaskFacts.v
Frame.v
CallLoop.v
StackInv.v
CallLoopFacts.v
CallReturn.v
CallOps.v
Elf.v
Link.v
LinkBits.v
LinkAlign.v
LinkFacts.v
LinkReloc.v
LinkElf.v
Mmu.v
Paging.v
PagingFacts.v
PagingMap.v
Fault.v
FaultFacts.v
FaultParity.v
Flat.v
FlatFacts.v
Asm.v
X86.v
AsmFacts.v
Codegen.v
CodegenGas.v
CodegenBlocks.v
