(* ===== verification/Prelude.v ===== *)
(** * JAR execution engine: a verification library

    The program executes RISC-V guest code (RV64E with compressed, bit-manipulation
    and custom-0 instructions) deterministically and meters it in gas. A linked
    program is a blob or an image; an engine decodes it, runs it against a paged
    memory and stops it when its gas is spent. On the x86 engine an in-kernel
    call loop lets programs hold capabilities, call each other, yield to their
    callers and be scheduled on lanes. State that outlives a run is kept in a
    content-addressed store whose hashes are roots of SSZ trees.

    This library translates that program function by function into Rocq
    (executable definitions over [Z], lists, finite and ordered maps) and proves
    what each part promises. Machine integers are [Z] with their wrap-around
    written out ([wrap], [sext]); a Rust panic is [Abort] of [Res]; errors are
    values of the source's own error types in [Result]. Unchecked arithmetic is
    modelled as in release builds, where it wraps. Debug assertions on page offsets
    ([put_page], [write_page], [from_sparse_pages] of [cap/data.rs]) and on page
    tables ([PageTable::new], [install_borrowed_pdpt]) are panics ([debug_assert]);
    the other debug assertions are left out, as in release builds, and those of the
    assembler's buffer set a flag. Binary searches are those of the standard
    library, by [OrdMap.binary_search_by].

    ** Parts, files and the code they model

    Foundations. [Prelude]: control effects, notations, generic list lemmas.
    [MachineInt]: widths, bit operations, little-endian bytes. [BTreeMap],
    [OrdMap]: ordered maps as sorted association lists, with [OrdKey] as the
    class of key orders, and the binary search of slices.

    Engine core, [src/nub/nub-exec/src]. [Engine]: [regs.rs], [gas.rs], [exit.rs],
    [ecall.rs]. [GasConst]: [gas_const.rs]. [Mat]: page charging, [mat.rs].
    [Instruction], [InstructionFacts], [Rvc]: the decoder and the decompressor,
    [instruction.rs], with the bit tables of the compressed encoding as a
    reference. [GasSim], [GasCost]: the pipeline model, [gas_sim.rs],
    [gas_cost.rs]. [Predecode]: [predecode.rs]. [Mem]: the memory interface as a
    class with laws and its implementation, [mem.rs]. [Interp]: the interpreter,
    [interp.rs]; [InterpFacts], [InterpSafety], [InterpResume], [InterpFlow],
    [InterpProtect], [AluFacts] hold its theorems.

    Programs. [Encode]: instruction encoders, [src/rust/javm-fuzz/src/encode.rs].
    [Program]: blob format and codec, [src/nub/nub-program/src]. [Local]: the
    in-process backend, [src/nub/nub-arch-local/src].

    Linker, [src/nub/nub-linker/src]. [Elf]: the ELF reader, [elf.rs], one
    definition per block of [parse_linked_elf]; hash maps are ordered maps whose
    traversal order is an arbitrary permutation. [Link]: [link.rs], one definition
    per stage of [link_elf] and per pass of [align_branch_targets]. [LinkBits]:
    displacement fields and their re-encoding. [LinkAlign]: what each pass of the
    alignment computes. [LinkFacts], [LinkReloc], [LinkElf] hold the theorems on
    aligned code, on address pairs and on whole programs.

    Serialisation, [src/rust/ssz/src] and [src/rust/ssz-derive/src]. [Merkle]:
    packing and trees. [Ssz], [SszFacts]: the codecs as records of operations and
    their round-trip law. [SszContainer]: the code the derive macro emits, as
    functions of a field list. [Radix], [RadixFacts]: the authenticated map.

    Capabilities, [src/rust/javm-cap/src]. [CapData]: pages, slabs and the
    copy-on-write overlay. [CapSlot]: keys and paths. [CapImage],
    [CapImageFacts]: images, their builder and the deblob. [Cap], [CapFacts]:
    the cap graph, cnodes, kernel handles. [Cache], [CacheFacts]: the directory
    of blobs and instances. [CachedCap]: resident caps of the x86 guest.

    Kernel. [Task], [TaskFacts]: stack entries, gas bank, polling and the
    scheduler, [src/nub/nub-arch-x86/src/task.rs], with the personality trait as
    the class [GuestPersonality]. [Frame]: frames of the capability personality;
    [CallLoop]: its hooks and operations, [src/rust/javm-guest-x86/src/call_loop.rs],
    ending in the instance [Javm] of that class. [StackInv], [CallLoopFacts],
    [CallReturn], [CallOps] hold its theorems.

    Address spaces of the x86 guest. [Mmu]: the processor's page walk, as a
    specification. [Paging]: page tables, [src/nub/nub-arch-x86/src/paging.rs],
    over a heap of tables and the frames the allocator will return; [PagingFacts],
    [PagingMap]: well-formed tables and what mapping, toggling and installing do
    to translations. [Fault]: the page-fault handler with lazy materialisation and
    copy on write, [jit_run.rs], over the class [FrameMem] of [personality.rs];
    [FaultFacts]: its invariant; [FaultParity]: an access with its faults against
    the interpreter's accounting. [Flat]: the flat personality,
    [src/nub/nub-flat-guest-x86/src], and the runtime of a frame,
    [build_frame_runtime] and [enter_frame] of [jit_run.rs]; [FlatFacts]: a frame
    from its construction on.

    Recompiler, [src/nub/nub-recompiler-x86/src]. [Asm]: the assembler, [asm.rs],
    byte for byte. [Codegen]: the pass from guest bytes to native code with its
    dispatch and trap tables, [codegen.rs], in the state-and-panic monad [Cg].
    [X86]: the instructions it emits, as a specification of the processor;
    [AsmFacts]: the emitters encode them. [CodegenGas], [CodegenBlocks]: gas blocks
    and their costs against [Predecode].

    ** How the parts interact

    [Interp] is proved against the class [Memory], which [Mem] implements, and
    against any ecall handler. [Local] composes [Program], [Predecode], [Mem] and
    [Interp]. The codecs of [CapImage] are instances of the derive law of
    [SszContainer]; cap hashes use [Merkle] and [Radix]. [Task] is proved for any
    personality; [CallLoop] supplies one, reads caps through [Cache] and
    [CachedCap], and reaches ring 3 only through the class [Machine]. [Fault] is
    proved for any frame memory with the laws [FrameMemLaws]; [Flat] supplies one
    and builds its frames with [Paging]; [FlatFacts] joins them to [Local] and
    [Interp]. [Codegen] shares [Instruction]'s decoder helpers and the gas tables of
    [GasCost] with [Predecode], and emits through [Asm].

    ** What the theorems show

    Interpreter: it terminates without a panic, running out of gas is a pause
    that can be resumed exactly, the ledger is exact, control moves only between
    instructions of the linear decoding, and pages that are not writable keep
    their bytes. Decoding: encoders and decoder are inverse, the decompressor
    agrees with the bit tables, the predecoder tiles the code and reports the
    offset its error rule says. Gas model: the fast path equals the simulator; the
    price of a block of less than [2 ^ 24] instructions is the pipeline's on
    unbounded integers, and bounded. Programs: blobs round-trip, lowering builds
    the declared address space, and running a valid blob whose page counts do not
    overflow is total. Linker: injecting block boundaries keeps the control flow,
    every target the linker collects starts a gas block of the emitted code, pairs
    of [auipc] and [lui] still name their targets, endpoints are exactly those of
    the descriptors, and accepted code has none of the listed opcodes and
    registers. Recompiler: it expands compressed instructions as the interpreter
    does, and meters the same blocks at the same cost where fence words are
    fences. Serialisation: images round-trip; radix proofs are complete, sound and
    roots are binding. Caps: data caps refine byte arrays with dirty marks, cnodes
    refine finite maps, the builder loses nothing, data slots of accepted images
    materialise and their instance memory does exactly when the mappings hold
    their sources, handles read back only under their own kind. Directory:
    settling publishes a graph that can be followed, sweeps end and collect
    exactly what is dead, live handles resolve. Kernel: the gas bank refines one
    balance per scope; the scheduler is fair and tasks do not observe each other;
    the call stack keeps its reservations; calls and returns round-trip; yields
    reach the nearest owner that catches them and change nothing else; exhaustion
    consults every meter from the retry point; kernel operations keep pinned and
    reserved slots. Address spaces: mapping a page changes the translation of that
    page alone in every address space; the fault handler is total, declines,
    repairs or exits exactly when it should, keeps code and shared pages
    unwritable and every writable page private; from the first entry of a frame
    on, any sequence of accesses of compiled code is allowed, refused and charged
    as the interpreter's load and store arms do, for data below 4 GiB and code
    that leaves a page free below it. Lemmas named for a flaw state where the code
    departs from its documentation or from the other engine.

    ** Parameters

    The digest ([Digest], SHA-256 in the code) and the kernel hash ([KernelHash],
    Blake2b) are classes without laws; where a theorem needs collision freedom it
    is assumed of the strings actually hashed. [Machine] stands for page tables,
    the recompiled code and the processor: any behaviour between two exits is
    allowed. [KernelLayout] holds the kernel's address constants; frames come from
    a list that stands for the allocator; the processor reports the lowest byte of
    an access it cannot translate. [VecPolicy] holds the capacities the allocator
    gives a growing buffer, which the recompiler's growth checks read; [X86] is a
    specification of the processor after its manual. Each theorem with such a
    hypothesis has a concrete instance.

    ** Fuel and bounds

    [Interp.loop] takes [gas * (n + 1) + 1] rounds for [n] instructions, because
    every block entry costs gas and a block has at most [n] instructions; the
    bound is part of the theorem. [radix_node] and [prove_walk] recurse on the
    bits left in the key. [sweep_loop] gets one round more than there are
    instances, plus one to find nothing; it is proved enough. [run_to_completion]
    and [schedule] are loops that a guest can keep going, so their fuel is a
    count of polls, and the theorems say how many polls suffice.

    ** Not modelled

    The effect of whole compiled programs is not proved: [AsmFacts] stops at single
    emitters, and the instruction-level flaws of the recompiler that modelling
    showed stand in the way. Ring transitions, interrupt and segment setup, the
    compile cache and the virtual machine host (the rest of
    [nub-arch-x86], [nub-arch-guestbin], [nub-host-kvm], [nub-host-common]): they
    need a model of the processor and the operating system. Sparse lists
    ([ssz/src/sparse.rs]) and the host handle of the flat kernel ([nub-flat]) are
    not translated. Archive forms (rkyv), formatting, locks and allocation
    alignment are left out of the parts that are. Fuzzing, benchmarks, build
    helpers and repository tools have no engine state. *)

From Stdlib Require Export ZArith Lia Bool.
From stdpp Require Export base list numbers.

#[global] Open Scope Z_scope.

(** ** Rust control effects

    A Rust expression that can panic ([unwrap], [expect], an index out of
    range) is modelled by a value of [Res]: [Ret v] is normal completion and
    [Abort] is a Rust panic. It is not a guest-visible error: those are values
    of the source's own result types. *)
Inductive Res (A : Type) : Type :=
  | Ret (a : A)
  | Abort.
Arguments Ret {A} a.
Arguments Abort {A}.

Definition res_bind {A B : Type} (c : Res A) (f : A -> Res B) : Res B :=
  match c with Ret a => f a | Abort => Abort end.

(** [Option::expect] / [unwrap] / an indexing expression. *)
Definition expect {A : Type} (o : option A) : Res A :=
  match o with Some a => Ret a | None => Abort end.

(** Rust's [Result<A, E>]. *)
Inductive Result (A E : Type) : Type :=
  | Ok (a : A)
  | Err (e : E).
Arguments Ok {A E} a.
Arguments Err {A E} e.

Definition expect_ok {A E : Type} (r : Result A E) : Res A :=
  match r with Ok a => Ret a | Err _ => Abort end.

Declare Scope rust_scope.
Delimit Scope rust_scope with rust.
Notation "'let!' x := c 'in' e" := (res_bind c (fun x => e))
  (at level 10, x pattern, c at level 100, e at level 200) : rust_scope.
#[global] Open Scope rust_scope.

(** The [?] operator on [Result]. *)
Definition result_bind {A B E : Type} (c : Result A E) (f : A -> Result B E) : Result B E :=
  match c with Ok a => f a | Err e => Err e end.

Notation "'let?' x := c 'in' e" := (result_bind c (fun x => e))
  (at level 10, x pattern, c at level 100, e at level 200) : rust_scope.

Lemma result_bind_Ok {A B E : Type} (c : Result A E) (f : A -> Result B E) (b : B) :
  result_bind c f = Ok b <-> exists a, c = Ok a /\ f a = Ok b.
Proof. destruct c; simpl; naive_solver. Qed.

(** [debug_assert!]. *)
Definition debug_assert (b : bool) : Res unit := if b then Ret tt else Abort.

Lemma debug_assert_true b : b = true -> debug_assert b = Ret tt.
Proof. by intros ->. Qed.

Lemma debug_assert_false b : b = false -> debug_assert b = Abort.
Proof. by intros ->. Qed.

Lemma res_bind_Ret {A B : Type} (c : Res A) (f : A -> Res B) (b : B) :
  res_bind c f = Ret b <-> exists a, c = Ret a /\ f a = Ret b.
Proof. destruct c; simpl; naive_solver. Qed.

Lemma expect_Ret {A : Type} (o : option A) (a : A) : expect o = Ret a <-> o = Some a.
Proof. destruct o; simpl; naive_solver. Qed.

(** ** Arithmetic automation *)

(** [lia] after replacing quotients and remainders by constants with their
    defining equations. *)
Ltac dlia := Z.to_euclidean_division_equations; lia.
Ltac dnia := Z.to_euclidean_division_equations; nia.
