(* ===== verification/MachineInt.v ===== *)
(** * Fixed-width integers and byte sequences

    Rust's [u8]..[u64] and [i8]..[i128] values are [Z]s kept in range; every
    operation that can leave the range says how it comes back ([wrap], the
    [wrapping_*] family, [saturating_*]). A cast [as uN] is [wrap N], a cast
    [as iN] is [sext N]: both reduce modulo [2^N] and pick the representative. *)

From S2P Require Import Prelude.

Definition wrap (w x : Z) : Z := x mod 2 ^ w.

Definition sext (w x : Z) : Z :=
  let m := x mod 2 ^ w in
  if m <? 2 ^ (w - 1) then m else m - 2 ^ w.

Definition is_u (w x : Z) : Prop := 0 <= x < 2 ^ w.
Definition is_i (w x : Z) : Prop := - 2 ^ (w - 1) <= x < 2 ^ (w - 1).

Definition wrapping_add (w a b : Z) : Z := wrap w (a + b).
Definition wrapping_sub (w a b : Z) : Z := wrap w (a - b).
Definition wrapping_mul (w a b : Z) : Z := wrap w (a * b).

(** [x.wrapping_shl(s)] and [x.wrapping_shr(s)] mask the amount to the width. *)
Definition wrapping_shl (w a s : Z) : Z := wrap w (Z.shiftl a (s mod w)).
Definition wrapping_shr (w a s : Z) : Z := Z.shiftr a (s mod w).

(** [!x] on an unsigned [w]-bit value. *)
Definition not_u (w a : Z) : Z := wrap w (Z.lnot a).

Definition checked_sub (a b : Z) : option Z := if b <=? a then Some (a - b) else None.
Definition checked_add (w a b : Z) : option Z :=
  if a + b <? 2 ^ w then Some (a + b) else None.
Definition saturating_sub (a b : Z) : Z := Z.max 0 (a - b).
Definition saturating_add (w a b : Z) : Z := Z.min (a + b) (2 ^ w - 1).
Definition saturating_mul (w a b : Z) : Z := Z.min (a * b) (2 ^ w - 1).
Definition div_ceil (a b : Z) : Z := (a + b - 1) / b.
Definition next_multiple_of (a b : Z) : Z := div_ceil a b * b.

Definition rotate_left (w a s : Z) : Z :=
  wrap w (Z.lor (Z.shiftl a (s mod w)) (Z.shiftr a ((w - s mod w) mod w))).
Definition rotate_right (w a s : Z) : Z :=
  wrap w (Z.lor (Z.shiftr a (s mod w)) (Z.shiftl a ((w - s mod w) mod w))).

Definition leading_zeros (w a : Z) : Z := if a =? 0 then w else w - 1 - Z.log2 a.

Fixpoint pos_trailing_zeros (p : positive) : Z :=
  match p with xO p' => 1 + pos_trailing_zeros p' | _ => 0 end.
Definition trailing_zeros (w a : Z) : Z :=
  match a with Z0 => w | Zpos p | Zneg p => pos_trailing_zeros p end.

Fixpoint pos_count_ones (p : positive) : Z :=
  match p with xH => 1 | xO p' => pos_count_ones p' | xI p' => 1 + pos_count_ones p' end.
Definition count_ones (a : Z) : Z :=
  match a with Zpos p => pos_count_ones p | _ => 0 end.

(** [bool as u64] *)
Definition b2z (b : bool) : Z := if b then 1 else 0.

(** ** Little-endian byte sequences: [from_le_bytes] and [to_le_bytes] *)
Fixpoint from_le_bytes (bs : list Z) : Z :=
  match bs with [] => 0 | b :: bs' => b + 256 * from_le_bytes bs' end.

Fixpoint to_le_bytes (n : nat) (v : Z) : list Z :=
  match n with O => [] | S n' => v mod 256 :: to_le_bytes n' (v / 256) end.

Definition swap_bytes (n : nat) (v : Z) : Z := from_le_bytes (rev (to_le_bytes n v)).


(** ** Range lemmas *)

Lemma wrap_range w x : 0 <= w -> is_u w (wrap w x).
Proof. intros. apply Z.mod_pos_bound. lia. Qed.

Lemma wrap_add_l w x y : wrap w (wrap w x + y) = wrap w (x + y).
Proof. unfold wrap. apply Zplus_mod_idemp_l. Qed.

Lemma wrap_sub_l w x y : wrap w (wrap w x - y) = wrap w (x - y).
Proof. unfold wrap. apply Zminus_mod_idemp_l. Qed.

Lemma wrap_small w x : is_u w x -> wrap w x = x.
Proof. apply Z.mod_small. Qed.

Lemma sext_range w x : 1 <= w -> is_i w (sext w x).
Proof.
  intros Hw. unfold sext, is_i.
  assert (2 ^ w = 2 * 2 ^ (w - 1)) as E.
  { rewrite <- Z.pow_succ_r by lia. f_equal. lia. }
  pose proof (Z.mod_pos_bound x (2 ^ w)).
  assert (0 < 2 ^ (w - 1)) by lia.
  destruct (Z.ltb_spec (x mod 2 ^ w) (2 ^ (w - 1))); lia.
Qed.

Lemma sext_mod w x : 1 <= w -> sext w x mod 2 ^ w = x mod 2 ^ w.
Proof.
  intros Hw. unfold sext. destruct (_ <? _).
  - apply Z.mod_mod. lia.
  - rewrite Zminus_mod, Z_mod_same_full, Z.sub_0_r, !Z.mod_mod by lia. done.
Qed.

Lemma sext_id w x : 1 <= w -> is_i w x -> sext w x = x.
Proof.
  intros Hw [Hl Hh]. unfold sext.
  assert (2 ^ w = 2 * 2 ^ (w - 1)) as E.
  { rewrite <- Z.pow_succ_r by lia. f_equal. lia. }
  destruct (Z.le_gt_cases 0 x).
  - rewrite Z.mod_small by lia. destruct (Z.ltb_spec x (2 ^ (w - 1))); lia.
  - replace (x mod 2 ^ w) with (x + 2 ^ w).
    + destruct (Z.ltb_spec (x + 2 ^ w) (2 ^ (w - 1))); lia.
    + apply Z.mod_unique_pos with (-1); lia.
Qed.

Lemma wrap_sext w x : 1 <= w -> wrap w (sext w x) = wrap w x.
Proof. apply sext_mod. Qed.

Lemma sext_wrap w x : 1 <= w -> sext w (wrap w x) = sext w x.
Proof. intros. unfold sext, wrap. rewrite Z.mod_mod by lia. done. Qed.

(** ** Bits of disjoint fields *)

(** An or of a multiple of [2^k] and a [k]-bit value is their sum. *)
Lemma lor_disjoint k a b :
  0 <= k -> a mod 2 ^ k = 0 -> 0 <= b < 2 ^ k -> Z.lor a b = a + b.
Proof.
  intros Hk Ha Hb. assert (Z.land a b = 0) as E.
  { apply Z.bits_inj'. intros i Hi. rewrite Z.land_spec, Z.bits_0.
    destruct (Z.lt_ge_cases i k).
    - rewrite <- (Z.mod_pow2_bits_low a k i), Ha, Z.bits_0 by lia. done.
    - rewrite <- (Z.mod_small b (2 ^ k)), Z.mod_pow2_bits_high by lia. apply andb_false_r. }
  by rewrite <- Z.lxor_lor, <- Z.add_nocarry_lxor.
Qed.

Lemma land_ones' a k : 0 <= k -> Z.land a (2 ^ k - 1) = a mod 2 ^ k.
Proof. intros. rewrite <- Z.land_ones, Z.ones_equiv by lia. done. Qed.

(** ** Bitwise operations stay in range *)

Lemma is_u_land_ones w x : 0 <= w -> is_u w x <-> Z.land x (Z.ones w) = x.
Proof.
  intros Hw. rewrite Z.land_ones by done. split.
  - apply Z.mod_small.
  - intros <-. by apply wrap_range.
Qed.

Lemma lor_range w a b : 0 <= w -> is_u w a -> is_u w b -> is_u w (Z.lor a b).
Proof.
  intros Hw. rewrite !is_u_land_ones by done. intros Ha Hb. by rewrite Z.land_lor_distr_l, Ha, Hb.
Qed.

Lemma lxor_range w a b : 0 <= w -> is_u w a -> is_u w b -> is_u w (Z.lxor a b).
Proof.
  intros Hw. rewrite !is_u_land_ones by done. intros Ha Hb.
  assert (Z.land (Z.lxor a b) (Z.ones w) = Z.lxor (Z.land a (Z.ones w)) (Z.land b (Z.ones w))) as ->.
  { apply Z.bits_inj'. intros i Hi. rewrite !Z.land_spec, !Z.lxor_spec, !Z.land_spec.
    by destruct (Z.testbit a i), (Z.testbit b i), (Z.testbit (Z.ones w) i). }
  by rewrite Ha, Hb.
Qed.

Lemma land_range w a b : 0 <= w -> is_u w a -> is_u w (Z.land a b).
Proof.
  intros Hw. rewrite !is_u_land_ones by done. intros Ha.
  by rewrite <- Z.land_assoc, (Z.land_comm b), Z.land_assoc, Ha.
Qed.

Lemma shiftr_range w a k : is_u w a -> 0 <= k -> is_u w (Z.shiftr a k).
Proof.
  unfold is_u. intros Ha Hk. rewrite Z.shiftr_div_pow2 by done. assert (0 < 2 ^ k) by lia. split.
  - apply Z.div_pos; lia.
  - apply Z.le_lt_trans with a; [|lia]. apply Z.div_le_upper_bound; nia.
Qed.

Lemma leading_zeros_range w a : 0 < w -> is_u w a -> 0 <= leading_zeros w a <= w.
Proof.
  intros Hw Ha. unfold leading_zeros, is_u in *. destruct (Z.eqb_spec a 0); [lia|].
  assert (Z.log2 a < w) by (apply Z.log2_lt_pow2; lia). pose proof (Z.log2_nonneg a). lia.
Qed.

Lemma pos_trailing_zeros_le p : 0 <= pos_trailing_zeros p <= Z.log2 (Zpos p).
Proof.
  induction p as [p IH|p IH|]; cbn [pos_trailing_zeros]; try (cbn; lia).
  change (Zpos p~0) with (2 * Zpos p). rewrite Z.log2_double by lia. lia.
Qed.

Lemma trailing_zeros_range w a : 0 < w -> is_u w a -> 0 <= trailing_zeros w a <= w.
Proof.
  unfold is_u. intros Hw Ha. destruct a as [|p|p]; cbn [trailing_zeros]; [lia| |lia].
  pose proof (pos_trailing_zeros_le p).
  assert (Z.log2 (Zpos p) < w) by (apply Z.log2_lt_pow2; lia). lia.
Qed.

Lemma pos_count_ones_le p : 1 <= pos_count_ones p <= Z.log2 (Zpos p) + 1.
Proof.
  induction p as [p IH|p IH|]; cbn [pos_count_ones].
  - change (Zpos p~1) with (2 * Zpos p + 1). rewrite Z.log2_succ_double by lia. lia.
  - change (Zpos p~0) with (2 * Zpos p). rewrite Z.log2_double by lia. lia.
  - cbn. lia.
Qed.

Lemma count_ones_range w a : 0 < w -> is_u w a -> 0 <= count_ones a <= w.
Proof.
  unfold is_u. intros Hw Ha. destruct a as [|p|p]; cbn [count_ones]; [lia| |lia].
  pose proof (pos_count_ones_le p).
  assert (Z.log2 (Zpos p) < w) by (apply Z.log2_lt_pow2; lia). lia.
Qed.

(** ** Exhaustive checks over all [n]-bit words *)

Fixpoint all_words (n : nat) (acc : Z) (f : Z -> bool) : bool :=
  match n with
  | O => f acc
  | S n' => all_words n' (2 * acc) f && all_words n' (2 * acc + 1) f
  end.

Lemma all_words_sub n acc f x :
  all_words n acc f = true ->
  acc * 2 ^ Z.of_nat n <= x < (acc + 1) * 2 ^ Z.of_nat n -> f x = true.
Proof.
  revert acc. induction n as [|n IH]; intros acc.
  - cbn. intros H Hx. by replace x with acc by lia.
  - cbn [all_words]. rewrite andb_true_iff, Nat2Z.inj_succ, Z.pow_succ_r by lia.
    intros [H0 H1] Hx. destruct (Z.lt_ge_cases x ((2 * acc + 1) * 2 ^ Z.of_nat n)).
    + apply (IH (2 * acc)); [done|lia].
    + apply (IH (2 * acc + 1)); [done|lia].
Qed.

Lemma all_words_spec n f x : all_words n 0 f = true -> is_u (Z.of_nat n) x -> f x = true.
Proof. intros H Hx. eapply all_words_sub; [done|]. unfold is_u in Hx. lia. Qed.

(** ** Byte sequences *)

Lemma from_le_bytes_range bs :
  Forall (is_u 8) bs -> is_u (8 * Z.of_nat (length bs)) (from_le_bytes bs).
Proof.
  unfold is_u. induction 1 as [|b bs Hb _ IH]; simpl length; cbn [from_le_bytes].
  - simpl. lia.
  - replace (8 * Z.of_nat (S (length bs))) with (8 + 8 * Z.of_nat (length bs)) by lia.
    rewrite Z.pow_add_r by lia. change (2 ^ 8) with 256 in *. nia.
Qed.

Lemma length_to_le_bytes n v : length (to_le_bytes n v) = n.
Proof. revert v. induction n; simpl; auto. Qed.

Lemma to_le_bytes_bytes n v : Forall (is_u 8) (to_le_bytes n v).
Proof.
  revert v. induction n; simpl; constructor; auto.
  apply (Z.mod_pos_bound v 256). lia.
Qed.

Lemma from_to_le_bytes n v :
  from_le_bytes (to_le_bytes n v) = wrap (8 * Z.of_nat n) v.
Proof.
  unfold wrap. revert v. induction n as [|n IH]; intros v; cbn [from_le_bytes to_le_bytes].
  - by rewrite Z.mod_1_r.
  - rewrite IH. replace (8 * Z.of_nat (S n)) with (8 + 8 * Z.of_nat n) by lia.
    rewrite Z.pow_add_r, Z.rem_mul_r by lia. done.
Qed.

Lemma to_from_le_bytes bs :
  Forall (is_u 8) bs -> to_le_bytes (length bs) (from_le_bytes bs) = bs.
Proof.
  unfold is_u. induction 1 as [|b bs Hb _ IH]; cbn [length from_le_bytes to_le_bytes]; [done|].
  change (2 ^ 8) with 256 in Hb.
  replace ((b + 256 * from_le_bytes bs) mod 256) with b by dlia.
  replace ((b + 256 * from_le_bytes bs) / 256) with (from_le_bytes bs) by dlia.
  by rewrite IH.
Qed.

Lemma swap_bytes_range n v : is_u (8 * Z.of_nat n) (swap_bytes n v).
Proof.
  unfold swap_bytes. rewrite <- (length_to_le_bytes n v) at 1. rewrite <- length_rev.
  apply from_le_bytes_range, Forall_rev, to_le_bytes_bytes.
Qed.

(** ** Copying into a slice *)

(** [l[a .. a + |bs|].copy_from_slice(bs)], in range. *)
Definition splice (l : list Z) (a : nat) (bs : list Z) : list Z :=
  take a l ++ bs ++ drop (a + length bs) l.

Lemma length_splice l a bs :
  (a + length bs <= length l)%nat -> length (splice l a bs) = length l.
Proof. intros. unfold splice. rewrite !length_app, length_take, length_drop. lia. Qed.

Lemma splice_lookup l a bs i :
  (a + length bs <= length l)%nat ->
  splice l a bs !! i =
    if bool_decide (a <= i < a + length bs)%nat then bs !! (i - a)%nat else l !! i.
Proof.
  intros H. unfold splice. case_bool_decide as Hi.
  - rewrite lookup_app_r by (rewrite length_take; lia). rewrite length_take, Nat.min_l by lia.
    apply lookup_app_l. lia.
  - destruct (Nat.lt_ge_cases i a).
    + rewrite lookup_app_l by (rewrite length_take; lia). by apply lookup_take_lt.
    + rewrite !lookup_app_r by (rewrite ?length_take; lia). rewrite length_take, Nat.min_l by lia.
      rewrite lookup_drop. f_equal. lia.
Qed.

Lemma splice_bytes l a bs :
  Forall (is_u 8) l -> Forall (is_u 8) bs -> Forall (is_u 8) (splice l a bs).
Proof. intros. unfold splice. by auto using Forall_app_2, Forall_take, Forall_drop. Qed.

Lemma take_drop_splice l a bs :
  (a + length bs <= length l)%nat -> take (length bs) (drop a (splice l a bs)) = bs.
Proof.
  intros H. unfold splice. rewrite drop_app_ge by (rewrite length_take; lia).
  rewrite length_take, Nat.min_l, Nat.sub_diag, drop_0 by lia. by rewrite take_app_length.
Qed.
