(* ===== verification/Engine.v ===== *)
(** * Registers, gas counter and exit reasons

    Models [nub/nub-exec/src/regs.rs], [gas.rs], [exit.rs] and the enums of
    [ecall.rs]. The register file is the 15 general-purpose slots and the
    program counter; RV register [x0] has no slot and [x16..x31] do not exist. *)

From S2P Require Import Prelude MachineInt.

(** ** regs.rs *)

Definition REG_COUNT : nat := 15.

Inductive RegClass :=
  | RegZero
  | RegGpr (slot : Z)
  | RegReserved.

Definition reg_class (x : Z) : RegClass :=
  match Z.land x 31 with
  | 0 => RegZero
  | 1 => RegGpr 0
  | 2 => RegGpr 1
  | 3 => RegGpr 13
  | 4 => RegGpr 14
  | n => if (5 <=? n) && (n <=? 15) then RegGpr (n - 3) else RegReserved
  end.

Definition reg_slot_or_ff (x : Z) : Z :=
  match reg_class x with RegGpr s => s | _ => 0xFF end.

Definition reg_is_reserved (x : Z) : bool :=
  match reg_class x with RegReserved => true | _ => false end.

Definition reg_is_spilled (x : Z) : bool :=
  match reg_class x with RegGpr 13 | RegGpr 14 => true | _ => false end.

(** The table the while loop fills: entry [x] is [reg_slot_or_ff(x)]. *)
Definition REG_SLOT_LUT : list Z :=
  map (fun x => reg_slot_or_ff (Z.of_nat x)) (seq 0 32).

Record Regs := mkRegs { r_gpr : list Z; r_pc : Z }.

Definition regs_new : Regs := mkRegs (replicate REG_COUNT 0) 0.

(** [Regs::read]: out of range reads as zero. *)
Definition regs_read (r : Regs) (i : nat) : Z := default 0 (r_gpr r !! i).

(** [Regs::write]: out of range is a no-op. *)
Definition regs_write (r : Regs) (i : nat) (v : Z) : Regs :=
  mkRegs (<[i := v]> (r_gpr r)) (r_pc r).

(** [regs.pc = v] *)
Definition set_pc (r : Regs) (v : Z) : Regs := mkRegs (r_gpr r) v.

(** The Rust type of the register file: [[u64; 15]] and a [u64]. *)
Definition regs_ok (r : Regs) : Prop :=
  length (r_gpr r) = REG_COUNT /\ Forall (is_u 64) (r_gpr r) /\ is_u 64 (r_pc r).

(** ** gas.rs *)

Inductive OutOfGas := out_of_gas.

Record GasCounter := mkGas { remaining : Z }.

Definition gas_new (initial : Z) : GasCounter := mkGas initial.

Definition charge (g : GasCounter) (cost : Z) : GasCounter * Result unit OutOfGas :=
  match checked_sub (remaining g) cost with
  | Some new => (mkGas new, Ok tt)
  | None => (mkGas 0, Err out_of_gas)
  end.

Definition gas_set (g : GasCounter) (value : Z) : GasCounter := mkGas value.

(** [gas.charge(cost).expect(..)] *)
Definition charge_expect (g : GasCounter) (cost : Z) : Res GasCounter :=
  let '(g', r) := charge g cost in
  let! _ := expect_ok r in Ret g'.

(** ** exit.rs and ecall.rs *)

Inductive ExitReason :=
  | ExitHalt
  | ExitTrap
  | ExitPanic
  | ExitOutOfGas
  | ExitPageFault (addr : Z)
  | ExitHostCall (imm : Z)
  | ExitEcall.

Inductive EcallKind :=
  | Ecall
  | EcalliKind (imm : Z).

Inductive EcallResult :=
  | Continue
  | Exit (reason : ExitReason).

#[export] Instance RegClass_eq_dec : EqDecision RegClass.
Proof. solve_decision. Defined.
#[export] Instance ExitReason_eq_dec : EqDecision ExitReason.
Proof. solve_decision. Defined.

(** ** Facts *)

Lemma reg_class_mod x : reg_class x = reg_class (x mod 32).
Proof.
  unfold reg_class. change 31 with (2 ^ 5 - 1).
  rewrite !land_ones' by lia. rewrite Z.mod_mod by lia. done.
Qed.

(** Case analysis on a 5-bit register field. *)
Lemma reg_field_cases (P : Z -> Prop) :
  (forall n : nat, (n < 32)%nat -> P (Z.of_nat n)) -> forall x, 0 <= x < 32 -> P x.
Proof. intros H x Hx. rewrite <- (Z2Nat.id x) by lia. apply H. lia. Qed.

(** A boolean property of a bounded natural checked by evaluation. *)
Lemma forallb_seq (f : nat -> bool) n : forallb f (seq 0 n) = true -> forall i, (i < n)%nat -> f i = true.
Proof.
  intros H i Hi. rewrite forallb_forall in H. apply H, in_seq. lia.
Qed.

Lemma reg_slot_spec x :
  0 <= x < 32 ->
  (0 <= reg_slot_or_ff x < 15 /\ 1 <= x <= 15) \/ (reg_slot_or_ff x = 0xFF /\ (x = 0 \/ 16 <= x)).
Proof.
  revert x. apply reg_field_cases. intros n Hn.
  do 32 (destruct n as [|n]; [vm_compute; intuition congruence|]). lia.
Qed.

Lemma REG_SLOT_LUT_lookup x :
  0 <= x < 32 -> REG_SLOT_LUT !! Z.to_nat x = Some (reg_slot_or_ff x).
Proof.
  intros Hx. unfold REG_SLOT_LUT. rewrite list_lookup_fmap, lookup_seq_lt by lia.
  simpl. by rewrite Z2Nat.id by lia.
Qed.

(** Distinct GPRs have distinct slots. *)
Lemma reg_slot_inj x y :
  0 <= x < 32 -> 0 <= y < 32 -> reg_slot_or_ff x <> 0xFF ->
  reg_slot_or_ff x = reg_slot_or_ff y -> x = y.
Proof.
  intros Hx Hy Hs E.
  assert (forallb (fun a => forallb (fun b =>
     implb (negb (reg_slot_or_ff (Z.of_nat a) =? 0xFF) &&
            (reg_slot_or_ff (Z.of_nat a) =? reg_slot_or_ff (Z.of_nat b))) (a =? b)%nat)
     (seq 0 32)) (seq 0 32) = true) as H by (vm_compute; reflexivity).
  apply (forallb_seq _ _) with (i := Z.to_nat x) in H; [|lia].
  apply (forallb_seq _ _) with (i := Z.to_nat y) in H; [|lia].
  rewrite !Z2Nat.id in H by lia. rewrite <- E, Z.eqb_refl, andb_true_r in H.
  destruct (Z.eqb_spec (reg_slot_or_ff x) 255); [done|]. simpl in H.
  apply Nat.eqb_eq in H. lia.
Qed.

Lemma reg_is_reserved_spec x : 0 <= x < 32 -> reg_is_reserved x = (16 <=? x).
Proof.
  revert x. apply reg_field_cases. intros n Hn.
  do 32 (destruct n as [|n]; [reflexivity|]). lia.
Qed.

Lemma reg_is_spilled_spec x :
  0 <= x < 32 -> reg_is_spilled x = ((reg_slot_or_ff x =? 13) || (reg_slot_or_ff x =? 14)).
Proof.
  revert x. apply reg_field_cases. intros n Hn.
  do 32 (destruct n as [|n]; [reflexivity|]). lia.
Qed.

Lemma charge_ok g c :
  c <= remaining g -> charge g c = (mkGas (remaining g - c), Ok tt).
Proof. intros. unfold charge, checked_sub. destruct (Z.leb_spec c (remaining g)); [done|lia]. Qed.

Lemma charge_expect_ok g c :
  c <= remaining g -> charge_expect g c = Ret (mkGas (remaining g - c)).
Proof. intros. unfold charge_expect. by rewrite charge_ok. Qed.

Lemma charge_expect_inv g c g' :
  charge_expect g c = Ret g' -> c <= remaining g /\ g' = mkGas (remaining g - c).
Proof.
  unfold charge_expect, charge, checked_sub.
  destruct (Z.leb_spec c (remaining g)); simpl; naive_solver.
Qed.

Lemma regs_new_ok : regs_ok regs_new.
Proof.
  split; [done|]. split; [|unfold is_u; simpl; lia].
  apply Forall_replicate. unfold is_u; simpl; lia.
Qed.

Lemma regs_write_ok r i v : regs_ok r -> is_u 64 v -> regs_ok (regs_write r i v).
Proof.
  intros (Hl & Hf & Hp) Hv. split; [|split]; simpl; auto.
  - by rewrite length_insert.
  - by apply Forall_insert.
Qed.

Lemma set_pc_ok r v : regs_ok r -> is_u 64 v -> regs_ok (set_pc r v).
Proof. intros (Hl & Hf & Hp) Hv. repeat split; simpl; auto; apply Hv. Qed.

Lemma regs_read_range r i : regs_ok r -> is_u 64 (regs_read r i).
Proof.
  intros (_ & Hf & _). unfold regs_read. destruct (r_gpr r !! i) eqn:E; simpl.
  - by apply (Forall_lookup_1 _ _ _ _ Hf E).
  - unfold is_u; simpl; lia.
Qed.
