(* ===== verification/GasConst.v ===== *)
(** * Gas constants and the closed-form charges

    Models [nub/nub-exec/src/gas_const.rs] (and [PAGE_SIZE] of [mem.rs]). *)

From S2P Require Import Prelude MachineInt.

Definition PAGE_SIZE : Z := Z.shiftl 1 12.

Definition MEM_CYCLES_BASE : Z := 25.
Definition PAGE_IN_COST : Z := 64.
Definition COW_COST : Z := 256.
Definition COMPILE_COST_PER_PAGE : Z := 512.
Definition MAX_PAGES_PER_ACCESS : Z := 2.
Definition CALL_FRAME_COST : Z := 1024.
Definition HOST_CALL_FLOOR : Z := 100.
Definition MGMT_OP_COST : Z := 100.

Definition ecall_dynamic_cost (is_ecalli : bool) : Z :=
  if is_ecalli then HOST_CALL_FLOOR else MGMT_OP_COST.

Definition call_frame_cost (code_len ro_units : Z) : Z :=
  let code_pages := div_ceil code_len PAGE_SIZE in
  saturating_add 64
    (saturating_add 64 CALL_FRAME_COST (saturating_mul 64 code_pages COMPILE_COST_PER_PAGE))
    (saturating_mul 64 ro_units PAGE_IN_COST).

Definition compute_scale (accessible_pages : Z) : Z :=
  if accessible_pages <=? 2048 then 1
  else if accessible_pages <=? 8192 then 2
  else if accessible_pages <=? 65536 then 3
  else 4.

Definition mem_cycles_for (accessible_pages : Z) : Z :=
  saturating_mul 8 MEM_CYCLES_BASE (compute_scale accessible_pages).

Definition accessible_pages (mem_size data_base : Z) : Z :=
  saturating_sub mem_size data_base / PAGE_SIZE.

(** ** The saturations never bind on 32-bit inputs *)

Lemma mem_cycles_for_exact n : mem_cycles_for n = 25 * compute_scale n.
Proof.
  unfold mem_cycles_for, saturating_mul, compute_scale, MEM_CYCLES_BASE.
  repeat case_match; reflexivity.
Qed.

Lemma mem_cycles_for_range n : 25 <= mem_cycles_for n <= 100.
Proof. rewrite mem_cycles_for_exact. unfold compute_scale. repeat case_match; lia. Qed.

Lemma compute_scale_mono m n : m <= n -> compute_scale m <= compute_scale n.
Proof.
  intros. unfold compute_scale.
  destruct (Z.leb_spec m 2048), (Z.leb_spec n 2048), (Z.leb_spec m 8192),
    (Z.leb_spec n 8192), (Z.leb_spec m 65536), (Z.leb_spec n 65536); lia.
Qed.

Lemma call_frame_cost_exact code_len ro_units :
  is_u 32 code_len -> is_u 32 ro_units ->
  call_frame_cost code_len ro_units =
    1024 + 512 * div_ceil code_len 4096 + 64 * ro_units.
Proof.
  unfold is_u, call_frame_cost, saturating_add, saturating_mul, div_ceil, CALL_FRAME_COST,
    COMPILE_COST_PER_PAGE, PAGE_IN_COST. change PAGE_SIZE with 4096. intros. dlia.
Qed.

(** A CALL into more code, or more read-only units, never costs less. *)
Lemma call_frame_cost_mono c1 c2 u1 u2 :
  is_u 32 c1 -> is_u 32 c2 -> is_u 32 u1 -> is_u 32 u2 ->
  c1 <= c2 -> u1 <= u2 -> call_frame_cost c1 u1 <= call_frame_cost c2 u2.
Proof.
  intros. rewrite !call_frame_cost_exact by done. unfold div_ceil. dlia.
Qed.
