(* ===== verification/Mat.v ===== *)
(** * Page materialization state machine

    Models [nub/nub-exec/src/mat.rs]: the category-3 charge for touching a
    page, the pages one access touches, and the read-only unit naming. *)

From S2P Require Import Prelude MachineInt GasConst.

Definition CLUSTER_SHIFT : Z := 21.

Definition cluster_of (addr : Z) : Z := Z.shiftr addr CLUSTER_SHIFT.

Definition unit_base (addr cap_start : Z) : Z :=
  let cluster_lo := wrap 32 (Z.shiftl (cluster_of addr) CLUSTER_SHIFT) in
  Z.max cluster_lo cap_start.

Inductive PageKind := PinnedCapRo | UnpinnedCapCow | EphemeralZero.

Definition PageKind_as_u8 (k : PageKind) : Z :=
  match k with PinnedCapRo => 0 | UnpinnedCapCow => 1 | EphemeralZero => 2 end.

Definition PageKind_from_u8 (v : Z) : option PageKind :=
  match v with
  | 0 => Some PinnedCapRo
  | 1 => Some UnpinnedCapCow
  | 2 => Some EphemeralZero
  | _ => None
  end.

Inductive PageState := NotPresent | PresentRo | PresentRw.

Definition PageState_as_u8 (s : PageState) : Z :=
  match s with NotPresent => 0 | PresentRo => 1 | PresentRw => 2 end.

Definition PageState_from_u8 (v : Z) : PageState :=
  match v with 1 => PresentRo | 2 => PresentRw | _ => NotPresent end.

Inductive HardFault := hard_fault.

#[export] Instance PageKind_eq_dec : EqDecision PageKind.
Proof. solve_decision. Defined.
#[export] Instance PageState_eq_dec : EqDecision PageState.
Proof. solve_decision. Defined.

Definition charge_for (state : PageState) (kind : PageKind) (is_write : bool)
    : Result (Z * PageState) HardFault :=
  if is_write && bool_decide (kind = PinnedCapRo) then Err hard_fault
  else Ok (match state, is_write with
           | NotPresent, false => (0, PresentRo)
           | NotPresent, true => (COW_COST, PresentRw)
           | PresentRo, true => (COW_COST, PresentRw)
           | PresentRo, false => (0, PresentRo)
           | PresentRw, _ => (0, PresentRw)
           end).

(** [PageSet]: an array of two page addresses and a length. *)
Record PageSet := mkPageSet { ps_pages : list Z; ps_len : nat }.

Definition as_slice (s : PageSet) : list Z := take (ps_len s) (ps_pages s).

Definition access_pages (addr width : Z) : PageSet :=
  let mask := PAGE_SIZE - 1 in
  let base := Z.land addr (not_u 32 mask) in
  let off := Z.land addr mask in
  if PAGE_SIZE <? off + width
  then mkPageSet [base; wrapping_add 32 base PAGE_SIZE] 2
  else mkPageSet [base; 0] 1.

(** The page containing an address: [addr & !0xFFF]. *)
Definition page_of (addr : Z) : Z := Z.land addr (not_u 32 0xFFF).

(** [MatRange] of [nub/nub-arch-x86/src/jit_run.rs]: a range of guest addresses
    whose pages have one kind. *)
Record MatRange : Type := mkMatRange { mr_start : Z; mr_end : Z; mr_kind : Z }.

(** ** One page's history *)

(** The total charge and final state of a sequence of touches ([true] is a
    write) of one page, each touch driven by [charge_for]. *)
Fixpoint touch_history (state : PageState) (kind : PageKind) (ws : list bool)
    : Result (Z * PageState) HardFault :=
  match ws with
  | [] => Ok (0, state)
  | w :: ws' =>
      match charge_for state kind w with
      | Err e => Err e
      | Ok (c, state') =>
          match touch_history state' kind ws' with
          | Err e => Err e
          | Ok (t, final) => Ok (c + t, final)
          end
      end
  end.

Definition any_write (ws : list bool) : bool := existsb id ws.

(** ** Lemmas *)

Lemma PageState_u8_roundtrip s : PageState_from_u8 (PageState_as_u8 s) = s.
Proof. by destruct s. Qed.

Lemma PageKind_u8_roundtrip k : PageKind_from_u8 (PageKind_as_u8 k) = Some k.
Proof. by destruct k. Qed.

Lemma touch_history_rw kind ws :
  kind <> PinnedCapRo -> touch_history PresentRw kind ws = Ok (0, PresentRw).
Proof.
  intros Hk. induction ws as [|w ws IH]; simpl; [done|].
  unfold charge_for. rewrite bool_decide_false, andb_false_r by done. by rewrite IH.
Qed.

Lemma page_of_arith a : is_u 32 a -> page_of a = a - a mod 4096.
Proof.
  unfold is_u, page_of. intros Ha.
  change (not_u 32 0xFFF) with 4294963200.
  apply Z.bits_inj'. intros i Hi. rewrite Z.land_spec.
  replace (a - a mod 4096) with (Z.shiftl (Z.shiftr a 12) 12).
  2: { rewrite Z.shiftl_mul_pow2, Z.shiftr_div_pow2 by lia. change (2 ^ 12) with 4096. dlia. }
  rewrite Z.shiftl_spec by lia.
  replace 4294963200 with (Z.shiftl (Z.ones 20) 12) by reflexivity.
  rewrite Z.shiftl_spec by lia.
  destruct (Z.lt_ge_cases i 12).
  - rewrite !(Z.testbit_neg_r _ (i - 12)) by lia. apply andb_false_r.
  - rewrite Z.shiftr_spec by lia. replace (i - 12 + 12) with i by lia.
    destruct (Z.lt_ge_cases i 32).
    + rewrite Z.ones_spec_low by lia. apply andb_true_r.
    + rewrite <- (Z.mod_small a (2 ^ 32)) by lia.
      rewrite Z.mod_pow2_bits_high by lia. done.
Qed.

(** The page set in arithmetic form. *)
Lemma access_pages_arith a w :
  is_u 32 a -> 1 <= w <= 8 ->
  as_slice (access_pages a w) =
    if 4096 <? a mod 4096 + w
    then [a - a mod 4096; (a - a mod 4096 + 4096) mod 2 ^ 32]
    else [a - a mod 4096].
Proof.
  intros Ha Hw. unfold access_pages. change PAGE_SIZE with 4096.
  change (4096 - 1) with (2 ^ 12 - 1). rewrite land_ones' by lia.
  change (2 ^ 12 - 1) with 0xFFF. change (2 ^ 12) with 4096.
  pose proof (page_of_arith a Ha) as E. unfold page_of in E. rewrite E.
  destruct (_ <? _); reflexivity.
Qed.

Lemma unit_base_arith a s :
  is_u 32 a -> unit_base a s = Z.max (a - a mod 2 ^ 21) s.
Proof.
  unfold is_u, unit_base, cluster_of, CLUSTER_SHIFT, wrap. intros.
  rewrite Z.shiftl_mul_pow2, Z.shiftr_div_pow2 by lia.
  change (2 ^ 21) with 2097152. change (2 ^ 32) with 4294967296 in *. f_equal. dlia.
Qed.

(** ** Properties *)

(** Over any sequence of reads and writes of one page that is not pinned,
    copy-on-write is charged exactly once, at the first write of a page that
    was not yet writable; reads are free; no touch faults. The final state is
    writable exactly when the page was, or a write happened. *)
Theorem touch_history_charges_cow_once state kind ws :
  kind <> PinnedCapRo ->
  touch_history state kind ws =
    Ok (if any_write ws && bool_decide (state <> PresentRw) then COW_COST else 0,
        if any_write ws || bool_decide (state = PresentRw) then PresentRw
        else if bool_decide (ws = []) then state else PresentRo).
Proof.
  intros Hk. revert state. induction ws as [|w ws IH]; intros state.
  - by destruct state.
  - simpl. unfold charge_for. rewrite (bool_decide_false (kind = _)), andb_false_r by done.
    destruct state, w; rewrite ?touch_history_rw, ?IH by done; try done.
    all: cbn; unfold any_write; destruct (existsb id ws), ws; done.
Qed.

Lemma touch_history_charges_cow_once_witness :
  touch_history NotPresent UnpinnedCapCow [false; true; true; false] = Ok (256, PresentRw).
Proof. rewrite (touch_history_charges_cow_once NotPresent UnpinnedCapCow); [reflexivity|discriminate]. Defined.

(** The page set of a [width]-byte access (1 to 8 bytes) is exactly the set
    of pages holding its bytes, address wrap-around included, and has at most
    [MAX_PAGES_PER_ACCESS] elements. *)
Theorem access_pages_exact addr width :
  is_u 32 addr -> 1 <= width <= 8 ->
  (forall p, p ∈ as_slice (access_pages addr width) <->
             exists k, 0 <= k < width /\ p = page_of (wrapping_add 32 addr k)) /\
  Z.of_nat (length (as_slice (access_pages addr width))) <= MAX_PAGES_PER_ACCESS.
Proof.
  intros Ha Hw. rewrite access_pages_arith by done. split.
  2: { unfold MAX_PAGES_PER_ACCESS. destruct (_ <? _); simpl; lia. }
  intros p.
  assert (forall k, 0 <= k < width ->
    page_of (wrapping_add 32 addr k) =
      if addr mod 4096 + k <? 4096 then addr - addr mod 4096
      else (addr - addr mod 4096 + 4096) mod 2 ^ 32) as Hp.
  { intros k Hk. rewrite page_of_arith by (apply wrap_range; lia).
    unfold is_u, wrapping_add, wrap in *. change (2 ^ 32) with 4294967296 in *.
    destruct (Z.ltb_spec (addr mod 4096 + k) 4096); dlia. }
  destruct (Z.ltb_spec 4096 (addr mod 4096 + width)) as [Hs|Hs].
  - rewrite elem_of_cons, list_elem_of_singleton. split.
    + intros [->| ->]; [exists 0|exists (width - 1)]; (split; [lia|]); rewrite Hp by lia.
      * destruct (Z.ltb_spec (addr mod 4096 + 0) 4096); [done|dlia].
      * destruct (Z.ltb_spec (addr mod 4096 + (width - 1)) 4096); [lia|done].
    + intros (k & Hk & ->). rewrite Hp by lia. destruct (_ <? _); auto.
  - rewrite list_elem_of_singleton. split.
    + intros ->. exists 0. split; [lia|]. rewrite Hp by lia.
      destruct (Z.ltb_spec (addr mod 4096 + 0) 4096); [done|dlia].
    + intros (k & Hk & ->). rewrite Hp by lia.
      destruct (Z.ltb_spec (addr mod 4096 + k) 4096); [done|lia].
Qed.

Lemma access_pages_exact_witness :
  0x2000 ∈ as_slice (access_pages 0x1FFC 8).
Proof.
  apply (access_pages_exact 0x1FFC 8); [unfold is_u; lia|lia|].
  exists 4. split; [lia|reflexivity].
Defined.

(** For disjoint capabilities [s1, e1) and [s2, e2), two addresses inside
    them have the same unit base exactly when they lie in the same capability
    and the same 2 MiB cluster: [unit_base] names one (capability, cluster)
    pair. *)
Theorem unit_base_names_cap_and_cluster a1 a2 s1 e1 s2 e2 :
  is_u 32 a1 -> is_u 32 a2 -> s1 <= a1 < e1 -> s2 <= a2 < e2 ->
  (s1 = s2 \/ e1 <= s2 \/ e2 <= s1) ->
  unit_base a1 s1 = unit_base a2 s2 <-> s1 = s2 /\ cluster_of a1 = cluster_of a2.
Proof.
  intros H1 H2 Ha1 Ha2 Hd. rewrite !unit_base_arith by done.
  unfold cluster_of, CLUSTER_SHIFT. rewrite !Z.shiftr_div_pow2 by lia.
  change (2 ^ 21) with 2097152. split.
  - intros E. assert (s1 = s2) by dlia. split; [done|]. subst. dlia.
  - intros [-> E]. f_equal. dlia.
Qed.

Lemma unit_base_names_cap_and_cluster_witness :
  unit_base 0x10203000 0x10200000 = unit_base 0x103FF000 0x10200000.
Proof.
  apply (unit_base_names_cap_and_cluster 0x10203000 0x103FF000
           0x10200000 0x10400000 0x10200000 0x10400000).
  all: unfold is_u; try lia. split; reflexivity.
Defined.
