(* ===== verification/Instruction.v ===== *)
(** * Instruction decoder

    Models [nub/nub-exec/src/instruction.rs]: the 32-bit decoder, the RVC
    decompressor, the length rule and the two raw-word register predicates the
    recompiler uses. Register fields and shift amounts are non-negative [Z]s,
    immediates are the sign-extended [i32] values, [raw] is the wire word. *)

From S2P Require Import Prelude MachineInt Engine.

Inductive Inst :=
  | Lb (rd rs1 imm : Z)
  | Lh (rd rs1 imm : Z)
  | Lw (rd rs1 imm : Z)
  | Ld (rd rs1 imm : Z)
  | Lbu (rd rs1 imm : Z)
  | Lhu (rd rs1 imm : Z)
  | Lwu (rd rs1 imm : Z)
  | Sb (rs1 rs2 imm : Z)
  | Sh (rs1 rs2 imm : Z)
  | Sw (rs1 rs2 imm : Z)
  | Sd (rs1 rs2 imm : Z)
  | Addi (rd rs1 imm : Z)
  | Slti (rd rs1 imm : Z)
  | Sltiu (rd rs1 imm : Z)
  | Andi (rd rs1 imm : Z)
  | Ori (rd rs1 imm : Z)
  | Xori (rd rs1 imm : Z)
  | Slli (rd rs1 shamt : Z)
  | Srli (rd rs1 shamt : Z)
  | Srai (rd rs1 shamt : Z)
  | Addiw (rd rs1 imm : Z)
  | Slliw (rd rs1 shamt : Z)
  | Srliw (rd rs1 shamt : Z)
  | Sraiw (rd rs1 shamt : Z)
  | Add (rd rs1 rs2 : Z)
  | Sub (rd rs1 rs2 : Z)
  | Sll (rd rs1 rs2 : Z)
  | Srl (rd rs1 rs2 : Z)
  | Sra (rd rs1 rs2 : Z)
  | Slt (rd rs1 rs2 : Z)
  | Sltu (rd rs1 rs2 : Z)
  | Xor (rd rs1 rs2 : Z)
  | Or (rd rs1 rs2 : Z)
  | And (rd rs1 rs2 : Z)
  | Addw (rd rs1 rs2 : Z)
  | Subw (rd rs1 rs2 : Z)
  | Sllw (rd rs1 rs2 : Z)
  | Srlw (rd rs1 rs2 : Z)
  | Sraw (rd rs1 rs2 : Z)
  | Mul (rd rs1 rs2 : Z)
  | Mulh (rd rs1 rs2 : Z)
  | Mulhsu (rd rs1 rs2 : Z)
  | Mulhu (rd rs1 rs2 : Z)
  | Div (rd rs1 rs2 : Z)
  | Divu (rd rs1 rs2 : Z)
  | Rem (rd rs1 rs2 : Z)
  | Remu (rd rs1 rs2 : Z)
  | Mulw (rd rs1 rs2 : Z)
  | Divw (rd rs1 rs2 : Z)
  | Divuw (rd rs1 rs2 : Z)
  | Remw (rd rs1 rs2 : Z)
  | Remuw (rd rs1 rs2 : Z)
  | Clz (rd rs1 : Z)
  | Clzw (rd rs1 : Z)
  | Ctz (rd rs1 : Z)
  | Ctzw (rd rs1 : Z)
  | Cpop (rd rs1 : Z)
  | Cpopw (rd rs1 : Z)
  | SextB (rd rs1 : Z)
  | SextH (rd rs1 : Z)
  | ZextH (rd rs1 : Z)
  | Rev8 (rd rs1 : Z)
  | OrcB (rd rs1 : Z)
  | Min (rd rs1 rs2 : Z)
  | Minu (rd rs1 rs2 : Z)
  | Max (rd rs1 rs2 : Z)
  | Maxu (rd rs1 rs2 : Z)
  | Andn (rd rs1 rs2 : Z)
  | Orn (rd rs1 rs2 : Z)
  | Xnor (rd rs1 rs2 : Z)
  | Rol (rd rs1 rs2 : Z)
  | Ror (rd rs1 rs2 : Z)
  | Rolw (rd rs1 rs2 : Z)
  | Rorw (rd rs1 rs2 : Z)
  | Rori (rd rs1 shamt : Z)
  | Roriw (rd rs1 shamt : Z)
  | Sh1add (rd rs1 rs2 : Z)
  | Sh2add (rd rs1 rs2 : Z)
  | Sh3add (rd rs1 rs2 : Z)
  | Sh1adduw (rd rs1 rs2 : Z)
  | Sh2adduw (rd rs1 rs2 : Z)
  | Sh3adduw (rd rs1 rs2 : Z)
  | Adduw (rd rs1 rs2 : Z)
  | Slliuw (rd rs1 shamt : Z)
  | Bclr (rd rs1 rs2 : Z)
  | Bset (rd rs1 rs2 : Z)
  | Binv (rd rs1 rs2 : Z)
  | Bext (rd rs1 rs2 : Z)
  | Bclri (rd rs1 shamt : Z)
  | Bseti (rd rs1 shamt : Z)
  | Binvi (rd rs1 shamt : Z)
  | Bexti (rd rs1 shamt : Z)
  | CzeroEqz (rd rs1 rs2 : Z)
  | CzeroNez (rd rs1 rs2 : Z)
  | Lui (rd imm : Z)
  | Auipc (rd imm : Z)
  | Jal (rd imm : Z)
  | Jalr (rd rs1 imm : Z)
  | Beq (rs1 rs2 imm : Z)
  | Bne (rs1 rs2 imm : Z)
  | Blt (rs1 rs2 imm : Z)
  | Bge (rs1 rs2 imm : Z)
  | Bltu (rs1 rs2 imm : Z)
  | Bgeu (rs1 rs2 imm : Z)
  | Fence
  | FenceI
  | Trap
  | EcallJar
  | Ecalli (imm : Z)
  | Fallthrough
  | Reserved (raw : Z).

Definition uses_reserved_reg (i : Inst) : bool :=
  let r := reg_is_reserved in
  match i with
  | Add rd rs1 rs2 | Sub rd rs1 rs2 | Sll rd rs1 rs2 | Srl rd rs1 rs2 | Sra rd rs1 rs2
  | Slt rd rs1 rs2 | Sltu rd rs1 rs2 | Xor rd rs1 rs2 | Or rd rs1 rs2 | And rd rs1 rs2
  | Addw rd rs1 rs2 | Subw rd rs1 rs2 | Sllw rd rs1 rs2 | Srlw rd rs1 rs2 | Sraw rd rs1 rs2
  | Mul rd rs1 rs2 | Mulh rd rs1 rs2 | Mulhsu rd rs1 rs2 | Mulhu rd rs1 rs2 | Div rd rs1 rs2
  | Divu rd rs1 rs2 | Rem rd rs1 rs2 | Remu rd rs1 rs2 | Mulw rd rs1 rs2 | Divw rd rs1 rs2
  | Divuw rd rs1 rs2 | Remw rd rs1 rs2 | Remuw rd rs1 rs2 | Min rd rs1 rs2 | Minu rd rs1 rs2
  | Max rd rs1 rs2 | Maxu rd rs1 rs2 | Andn rd rs1 rs2 | Orn rd rs1 rs2 | Xnor rd rs1 rs2
  | Rol rd rs1 rs2 | Ror rd rs1 rs2 | Rolw rd rs1 rs2 | Rorw rd rs1 rs2 | Sh1add rd rs1 rs2
  | Sh2add rd rs1 rs2 | Sh3add rd rs1 rs2 | Sh1adduw rd rs1 rs2 | Sh2adduw rd rs1 rs2
  | Sh3adduw rd rs1 rs2 | Adduw rd rs1 rs2 | Bclr rd rs1 rs2 | Bset rd rs1 rs2 | Binv rd rs1 rs2
  | Bext rd rs1 rs2 | CzeroEqz rd rs1 rs2 | CzeroNez rd rs1 rs2 =>
      r rd || r rs1 || r rs2
  | Lb rd rs1 _ | Lh rd rs1 _ | Lw rd rs1 _ | Ld rd rs1 _ | Lbu rd rs1 _ | Lhu rd rs1 _
  | Lwu rd rs1 _ | Addi rd rs1 _ | Slti rd rs1 _ | Sltiu rd rs1 _ | Andi rd rs1 _ | Ori rd rs1 _
  | Xori rd rs1 _ | Slli rd rs1 _ | Srli rd rs1 _ | Srai rd rs1 _ | Addiw rd rs1 _
  | Slliw rd rs1 _ | Srliw rd rs1 _ | Sraiw rd rs1 _ | Clz rd rs1 | Clzw rd rs1 | Ctz rd rs1
  | Ctzw rd rs1 | Cpop rd rs1 | Cpopw rd rs1 | SextB rd rs1 | SextH rd rs1 | ZextH rd rs1
  | Rev8 rd rs1 | OrcB rd rs1 | Rori rd rs1 _ | Roriw rd rs1 _ | Slliuw rd rs1 _ | Bclri rd rs1 _
  | Bseti rd rs1 _ | Binvi rd rs1 _ | Bexti rd rs1 _ | Jalr rd rs1 _ =>
      r rd || r rs1
  | Sb rs1 rs2 _ | Sh rs1 rs2 _ | Sw rs1 rs2 _ | Sd rs1 rs2 _ | Beq rs1 rs2 _ | Bne rs1 rs2 _
  | Blt rs1 rs2 _ | Bge rs1 rs2 _ | Bltu rs1 rs2 _ | Bgeu rs1 rs2 _ =>
      r rs1 || r rs2
  | Lui rd _ | Auipc rd _ | Jal rd _ =>
      r rd
  | Fence | FenceI | Trap | EcallJar | Ecalli _ | Fallthrough | Reserved _ =>
      false
  end.

(** ** Raw-word register predicates (recompiler side) *)

Definition word_reg_class_hits (w : Z) (pred : Z -> bool) : bool :=
  let rd := Z.land (Z.shiftr w 7) 0x1F in
  let rs1 := Z.land (Z.shiftr w 15) 0x1F in
  let rs2 := Z.land (Z.shiftr w 20) 0x1F in
  match Z.land w 0x7F with
  | 0x33 | 0x3B => pred rd || pred rs1 || pred rs2
  | 0x03 | 0x13 | 0x1B | 0x67 => pred rd || pred rs1
  | 0x23 | 0x63 => pred rs1 || pred rs2
  | 0x37 | 0x17 | 0x6F => pred rd
  | _ => false
  end.

Definition word_uses_reserved_reg (w : Z) : bool := word_reg_class_hits w reg_is_reserved.
Definition word_uses_spilled_reg (w : Z) : bool := word_reg_class_hits w reg_is_spilled.

(** ** Major opcodes, bits [6:2] *)

Definition OP_LOAD : Z := 0.
Definition OP_STORE : Z := 8.
Definition OP_BRANCH : Z := 24.
Definition OP_JALR : Z := 25.
Definition OP_CUSTOM_0 : Z := 2.
Definition OP_MISC_MEM : Z := 3.
Definition OP_JAL : Z := 27.
Definition OP_IMM : Z := 4.
Definition OP_OP : Z := 12.
Definition OP_AUIPC : Z := 5.
Definition OP_LUI : Z := 13.
Definition OP_OP_IMM_32 : Z := 6.
Definition OP_OP_32 : Z := 14.

(** ** Immediate extraction *)

(** [((x as i32) << k) >> k] *)
Definition sx32 (x k : Z) : Z := Z.shiftr (sext 32 (Z.shiftl (sext 32 x) k)) k.

Definition imm_i (w : Z) : Z := Z.shiftr (sext 32 w) 20.

Definition imm_s (w : Z) : Z :=
  let hi := Z.land (Z.shiftr w 25) 0x7F in
  let lo := Z.land (Z.shiftr w 7) 0x1F in
  let raw := Z.lor (Z.shiftl hi 5) lo in
  sx32 raw 20.

Definition imm_b (w : Z) : Z :=
  let b12 := Z.land (Z.shiftr w 31) 1 in
  let b11 := Z.land (Z.shiftr w 7) 1 in
  let b10_5 := Z.land (Z.shiftr w 25) 0x3F in
  let b4_1 := Z.land (Z.shiftr w 8) 0xF in
  let raw := Z.lor (Z.lor (Z.lor (Z.shiftl b12 12) (Z.shiftl b11 11)) (Z.shiftl b10_5 5))
                   (Z.shiftl b4_1 1) in
  sx32 raw 19.

Definition imm_j (w : Z) : Z :=
  let b20 := Z.land (Z.shiftr w 31) 1 in
  let b10_1 := Z.land (Z.shiftr w 21) 0x3FF in
  let b11 := Z.land (Z.shiftr w 20) 1 in
  let b19_12 := Z.land (Z.shiftr w 12) 0xFF in
  let raw := Z.lor (Z.lor (Z.lor (Z.shiftl b20 20) (Z.shiftl b19_12 12)) (Z.shiftl b11 11))
                   (Z.shiftl b10_1 1) in
  sx32 raw 11.

Definition rs2_field (w : Z) : Z := Z.land (Z.shiftr w 20) 0x1F.

(** ** 32-bit decode *)

Definition decode_load (w rd rs1 funct3 : Z) : Inst :=
  let imm := imm_i w in
  match funct3 with
  | 0 => Lb rd rs1 imm
  | 1 => Lh rd rs1 imm
  | 2 => Lw rd rs1 imm
  | 3 => Ld rd rs1 imm
  | 4 => Lbu rd rs1 imm
  | 5 => Lhu rd rs1 imm
  | 6 => Lwu rd rs1 imm
  | _ => Reserved w
  end.

Definition decode_store (w rs1 rs2 funct3 : Z) : Inst :=
  let imm := imm_s w in
  match funct3 with
  | 0 => Sb rs1 rs2 imm
  | 1 => Sh rs1 rs2 imm
  | 2 => Sw rs1 rs2 imm
  | 3 => Sd rs1 rs2 imm
  | _ => Reserved w
  end.

Definition decode_op_imm (w rd rs1 funct3 : Z) : Inst :=
  let imm := imm_i w in
  let shamt := Z.land (Z.shiftr w 20) 0x3F in
  let shtype := Z.land (Z.shiftr w 26) 0x3F in
  match funct3 with
  | 0 => Addi rd rs1 imm
  | 2 => Slti rd rs1 imm
  | 3 => Sltiu rd rs1 imm
  | 4 => Xori rd rs1 imm
  | 6 => Ori rd rs1 imm
  | 7 => Andi rd rs1 imm
  | 1 =>
      match shtype with
      | 0x00 => Slli rd rs1 shamt
      | 0x12 => Bclri rd rs1 shamt
      | 0x0A => Bseti rd rs1 shamt
      | 0x1A => Binvi rd rs1 shamt
      | 0x18 =>
          match rs2_field w with
          | 0 => Clz rd rs1
          | 1 => Ctz rd rs1
          | 2 => Cpop rd rs1
          | 4 => SextB rd rs1
          | 5 => SextH rd rs1
          | _ => Reserved w
          end
      | _ => Reserved w
      end
  | 5 =>
      match shtype with
      | 0x00 => Srli rd rs1 shamt
      | 0x10 => Srai rd rs1 shamt
      | 0x12 => Bexti rd rs1 shamt
      | 0x18 => Rori rd rs1 shamt
      | 0x0A => match rs2_field w with 0x07 => OrcB rd rs1 | _ => Reserved w end
      | 0x1A => match rs2_field w with 0x18 => Rev8 rd rs1 | _ => Reserved w end
      | _ => Reserved w
      end
  | _ => Reserved w
  end.

Definition decode_op_imm_32 (w rd rs1 funct3 : Z) : Inst :=
  let imm := imm_i w in
  let shamt5 := Z.land (Z.shiftr w 20) 0x1F in
  let funct7 := Z.land (Z.shiftr w 25) 0x7F in
  match funct3 with
  | 0 => Addiw rd rs1 imm
  | 1 =>
      match funct7 with
      | 0x00 => Slliw rd rs1 shamt5
      | 0x04 => Slliuw rd rs1 (Z.land (Z.shiftr w 20) 0x3F)
      | 0x30 =>
          match rs2_field w with
          | 0 => Clzw rd rs1
          | 1 => Ctzw rd rs1
          | 2 => Cpopw rd rs1
          | _ => Reserved w
          end
      | _ => Reserved w
      end
  | 5 =>
      match funct7 with
      | 0x00 => Srliw rd rs1 shamt5
      | 0x20 => Sraiw rd rs1 shamt5
      | 0x30 => Roriw rd rs1 shamt5
      | _ => Reserved w
      end
  | _ => Reserved w
  end.

Definition decode_op (rd rs1 rs2 funct3 funct7 w : Z) : Inst :=
  match funct7, funct3 with
  | 0x00, 0 => Add rd rs1 rs2
  | 0x20, 0 => Sub rd rs1 rs2
  | 0x00, 1 => Sll rd rs1 rs2
  | 0x00, 2 => Slt rd rs1 rs2
  | 0x00, 3 => Sltu rd rs1 rs2
  | 0x00, 4 => Xor rd rs1 rs2
  | 0x00, 5 => Srl rd rs1 rs2
  | 0x20, 5 => Sra rd rs1 rs2
  | 0x00, 6 => Or rd rs1 rs2
  | 0x00, 7 => And rd rs1 rs2
  | 0x01, 0 => Mul rd rs1 rs2
  | 0x01, 1 => Mulh rd rs1 rs2
  | 0x01, 2 => Mulhsu rd rs1 rs2
  | 0x01, 3 => Mulhu rd rs1 rs2
  | 0x01, 4 => Div rd rs1 rs2
  | 0x01, 5 => Divu rd rs1 rs2
  | 0x01, 6 => Rem rd rs1 rs2
  | 0x01, 7 => Remu rd rs1 rs2
  | 0x20, 7 => Andn rd rs1 rs2
  | 0x20, 6 => Orn rd rs1 rs2
  | 0x20, 4 => Xnor rd rs1 rs2
  | 0x05, 4 => Min rd rs1 rs2
  | 0x05, 5 => Minu rd rs1 rs2
  | 0x05, 6 => Max rd rs1 rs2
  | 0x05, 7 => Maxu rd rs1 rs2
  | 0x30, 1 => Rol rd rs1 rs2
  | 0x30, 5 => Ror rd rs1 rs2
  | 0x10, 2 => Sh1add rd rs1 rs2
  | 0x10, 4 => Sh2add rd rs1 rs2
  | 0x10, 6 => Sh3add rd rs1 rs2
  | 0x24, 1 => Bclr rd rs1 rs2
  | 0x14, 1 => Bset rd rs1 rs2
  | 0x34, 1 => Binv rd rs1 rs2
  | 0x24, 5 => Bext rd rs1 rs2
  | 0x07, 5 => CzeroEqz rd rs1 rs2
  | 0x07, 7 => CzeroNez rd rs1 rs2
  | 0x04, 4 => if rs2 =? 0 then ZextH rd rs1 else Reserved w
  | _, _ => Reserved w
  end.

Definition decode_op_32 (rd rs1 rs2 funct3 funct7 w : Z) : Inst :=
  match funct7, funct3 with
  | 0x00, 0 => Addw rd rs1 rs2
  | 0x20, 0 => Subw rd rs1 rs2
  | 0x00, 1 => Sllw rd rs1 rs2
  | 0x00, 5 => Srlw rd rs1 rs2
  | 0x20, 5 => Sraw rd rs1 rs2
  | 0x01, 0 => Mulw rd rs1 rs2
  | 0x01, 4 => Divw rd rs1 rs2
  | 0x01, 5 => Divuw rd rs1 rs2
  | 0x01, 6 => Remw rd rs1 rs2
  | 0x01, 7 => Remuw rd rs1 rs2
  | 0x30, 1 => Rolw rd rs1 rs2
  | 0x30, 5 => Rorw rd rs1 rs2
  | 0x04, 0 => Adduw rd rs1 rs2
  | 0x10, 2 => Sh1adduw rd rs1 rs2
  | 0x10, 4 => Sh2adduw rd rs1 rs2
  | 0x10, 6 => Sh3adduw rd rs1 rs2
  | _, _ => Reserved w
  end.

Definition decode_branch (rs1 rs2 funct3 imm w : Z) : Inst :=
  match funct3 with
  | 0 => Beq rs1 rs2 imm
  | 1 => Bne rs1 rs2 imm
  | 4 => Blt rs1 rs2 imm
  | 5 => Bge rs1 rs2 imm
  | 6 => Bltu rs1 rs2 imm
  | 7 => Bgeu rs1 rs2 imm
  | _ => Reserved w
  end.

Definition decode_misc_mem (funct3 : Z) : Inst :=
  match funct3 with
  | 0 => Fence
  | 1 => FenceI
  | _ => Reserved 0
  end.

Definition decode_custom_0 (w funct3 : Z) : Inst :=
  match funct3 with
  | 0 => Trap
  | 1 => EcallJar
  | 2 => Ecalli (imm_i w)
  | 4 => Fallthrough
  | _ => Reserved w
  end.

(** The SYSTEM and custom-1 arms of the source, and its wildcard, all give
    [Reserved { raw: w }]. *)
Definition decode_32 (w : Z) : Inst :=
  let major := Z.land (Z.shiftr w 2) 0x1F in
  if negb (Z.land w 3 =? 3) then Reserved w else
  let rd := Z.land (Z.shiftr w 7) 0x1F in
  let rs1 := Z.land (Z.shiftr w 15) 0x1F in
  let rs2 := Z.land (Z.shiftr w 20) 0x1F in
  let funct3 := Z.land (Z.shiftr w 12) 0x07 in
  let funct7 := Z.land (Z.shiftr w 25) 0x7F in
  if major =? OP_LOAD then decode_load w rd rs1 funct3
  else if major =? OP_STORE then decode_store w rs1 rs2 funct3
  else if major =? OP_IMM then decode_op_imm w rd rs1 funct3
  else if major =? OP_OP_IMM_32 then decode_op_imm_32 w rd rs1 funct3
  else if major =? OP_OP then decode_op rd rs1 rs2 funct3 funct7 w
  else if major =? OP_OP_32 then decode_op_32 rd rs1 rs2 funct3 funct7 w
  else if major =? OP_LUI then Lui rd (sext 32 (Z.land w 0xFFFFF000))
  else if major =? OP_AUIPC then Auipc rd (sext 32 (Z.land w 0xFFFFF000))
  else if major =? OP_JAL then Jal rd (imm_j w)
  else if (major =? OP_JALR) && (funct3 =? 0) then Jalr rd rs1 (imm_i w)
  else if major =? OP_BRANCH then decode_branch rs1 rs2 funct3 (imm_b w) w
  else if major =? OP_MISC_MEM then decode_misc_mem funct3
  else if major =? OP_CUSTOM_0 then decode_custom_0 w funct3
  else Reserved w.

(** ** RVC decompression *)

(** Operands are [u16] halfwords; no shift below leaves 16 bits. *)
Definition creg (r : Z) : Z := r + 8.

Definition decode_ci_imm6 (h : Z) : Z :=
  let imm := Z.lor (Z.shiftl (Z.land (Z.shiftr h 12) 1) 5) (Z.land (Z.shiftr h 2) 0x1F) in
  sx32 imm 26.

Definition decode_cj_imm (h : Z) : Z :=
  let b11 := Z.land (Z.shiftr h 12) 1 in
  let b4 := Z.land (Z.shiftr h 11) 1 in
  let b9_8 := Z.land (Z.shiftr h 9) 0x3 in
  let b10 := Z.land (Z.shiftr h 8) 1 in
  let b6 := Z.land (Z.shiftr h 7) 1 in
  let b7 := Z.land (Z.shiftr h 6) 1 in
  let b3_1 := Z.land (Z.shiftr h 3) 0x7 in
  let b5 := Z.land (Z.shiftr h 2) 1 in
  let imm := Z.lor (Z.lor (Z.lor (Z.lor (Z.lor (Z.lor (Z.lor
               (Z.shiftl b11 11) (Z.shiftl b10 10)) (Z.shiftl b9_8 8)) (Z.shiftl b7 7))
               (Z.shiftl b6 6)) (Z.shiftl b5 5)) (Z.shiftl b4 4)) (Z.shiftl b3_1 1) in
  sx32 imm 20.

Definition decode_cb_imm (h : Z) : Z :=
  let b8 := Z.land (Z.shiftr h 12) 1 in
  let b4_3 := Z.land (Z.shiftr h 10) 0x3 in
  let b7_6 := Z.land (Z.shiftr h 5) 0x3 in
  let b2_1 := Z.land (Z.shiftr h 3) 0x3 in
  let b5 := Z.land (Z.shiftr h 2) 1 in
  let imm := Z.lor (Z.lor (Z.lor (Z.lor (Z.shiftl b8 8) (Z.shiftl b7_6 6)) (Z.shiftl b5 5))
               (Z.shiftl b4_3 3)) (Z.shiftl b2_1 1) in
  sx32 imm 23.

(** In the [0b000] arm the source first computes an unused [imm] and then
    recomputes the immediate as [n]; only [n] matters. *)
Definition decompress_q0 (h f3 : Z) : Inst :=
  let rs1c := creg (Z.land (Z.shiftr h 7) 7) in
  let rdrs2c := creg (Z.land (Z.shiftr h 2) 7) in
  match f3 with
  | 0 =>
      let n := Z.lor (Z.lor (Z.lor (Z.shiftl (Z.land (Z.shiftr h 11) 0x3) 4)
                 (Z.shiftl (Z.land (Z.shiftr h 7) 0xF) 6))
                 (Z.shiftl (Z.land (Z.shiftr h 6) 0x1) 2))
                 (Z.shiftl (Z.land (Z.shiftr h 5) 0x1) 3) in
      if n =? 0 then Reserved h else Addi rdrs2c 2 n
  | 2 =>
      let imm := Z.lor (Z.lor (Z.shiftl (Z.land (Z.shiftr h 10) 0x7) 3)
                   (Z.shiftl (Z.land (Z.shiftr h 6) 0x1) 2))
                   (Z.shiftl (Z.land (Z.shiftr h 5) 0x1) 6) in
      Lw rdrs2c rs1c imm
  | 3 =>
      let imm := Z.lor (Z.shiftl (Z.land (Z.shiftr h 10) 0x7) 3)
                   (Z.shiftl (Z.land (Z.shiftr h 5) 0x3) 6) in
      Ld rdrs2c rs1c imm
  | 6 =>
      let imm := Z.lor (Z.lor (Z.shiftl (Z.land (Z.shiftr h 10) 0x7) 3)
                   (Z.shiftl (Z.land (Z.shiftr h 6) 0x1) 2))
                   (Z.shiftl (Z.land (Z.shiftr h 5) 0x1) 6) in
      Sw rs1c rdrs2c imm
  | 7 =>
      let imm := Z.lor (Z.shiftl (Z.land (Z.shiftr h 10) 0x7) 3)
                   (Z.shiftl (Z.land (Z.shiftr h 5) 0x3) 6) in
      Sd rs1c rdrs2c imm
  | _ => Reserved h
  end.

Definition decompress_q1_misc_alu (h : Z) : Inst :=
  let f6_10 := Z.land (Z.shiftr h 10) 3 in
  let rdrs1c := creg (Z.land (Z.shiftr h 7) 7) in
  match f6_10 with
  | 0 | 1 =>
      let shamt := Z.lor (Z.shiftl (Z.land (Z.shiftr h 12) 1) 5) (Z.land (Z.shiftr h 2) 0x1F) in
      if f6_10 =? 0 then Srli rdrs1c rdrs1c shamt else Srai rdrs1c rdrs1c shamt
  | 2 => Andi rdrs1c rdrs1c (decode_ci_imm6 h)
  | 3 =>
      let rs2c := creg (Z.land (Z.shiftr h 2) 7) in
      let bit12 := Z.land (Z.shiftr h 12) 1 in
      let f2 := Z.land (Z.shiftr h 5) 3 in
      match bit12, f2 with
      | 0, 0 => Sub rdrs1c rdrs1c rs2c
      | 0, 1 => Xor rdrs1c rdrs1c rs2c
      | 0, 2 => Or rdrs1c rdrs1c rs2c
      | 0, 3 => And rdrs1c rdrs1c rs2c
      | 1, 0 => Subw rdrs1c rdrs1c rs2c
      | 1, 1 => Addw rdrs1c rdrs1c rs2c
      | _, _ => Reserved h
      end
  | _ => Reserved h
  end.

Definition decompress_q1 (h f3 : Z) : Inst :=
  match f3 with
  | 0 =>
      let rd := Z.land (Z.shiftr h 7) 0x1F in
      let imm := decode_ci_imm6 h in
      if rd =? 0 then Addi 0 0 0 else Addi rd rd imm
  | 1 =>
      let rd := Z.land (Z.shiftr h 7) 0x1F in
      if rd =? 0 then Reserved h else Addiw rd rd (decode_ci_imm6 h)
  | 2 =>
      let rd := Z.land (Z.shiftr h 7) 0x1F in
      if rd =? 0 then Reserved h else Addi rd 0 (decode_ci_imm6 h)
  | 3 =>
      let rd := Z.land (Z.shiftr h 7) 0x1F in
      if rd =? 2 then
        let imm := Z.lor (Z.lor (Z.lor (Z.lor (Z.shiftl (Z.land (Z.shiftr h 12) 1) 9)
                     (Z.shiftl (Z.land (Z.shiftr h 6) 1) 4))
                     (Z.shiftl (Z.land (Z.shiftr h 5) 1) 6))
                     (Z.shiftl (Z.land (Z.shiftr h 3) 0x3) 7))
                     (Z.shiftl (Z.land (Z.shiftr h 2) 1) 5) in
        let sx := sx32 imm 22 in
        if sx =? 0 then Reserved h else Addi 2 2 sx
      else if rd =? 0 then Reserved h
      else
        let imm := Z.lor (Z.shiftl (Z.land (Z.shiftr h 12) 1) 17)
                     (Z.shiftl (Z.land (Z.shiftr h 2) 0x1F) 12) in
        let sx := sx32 imm 14 in
        if sx =? 0 then Reserved (Z.land h 0xFFFF) else Lui rd sx
  | 4 => decompress_q1_misc_alu h
  | 5 => Jal 0 (decode_cj_imm h)
  | 6 | 7 =>
      let rs1 := creg (Z.land (Z.shiftr h 7) 7) in
      let imm := decode_cb_imm h in
      if f3 =? 6 then Beq rs1 0 imm else Bne rs1 0 imm
  | _ => Reserved h
  end.

Definition decompress_q2 (h f3 : Z) : Inst :=
  let rdrs1 := Z.land (Z.shiftr h 7) 0x1F in
  let rs2 := Z.land (Z.shiftr h 2) 0x1F in
  match f3 with
  | 0 =>
      if rdrs1 =? 0 then Reserved h else
      let shamt := Z.lor (Z.shiftl (Z.land (Z.shiftr h 12) 1) 5) (Z.land (Z.shiftr h 2) 0x1F) in
      Slli rdrs1 rdrs1 shamt
  | 2 =>
      if rdrs1 =? 0 then Reserved h else
      let imm := Z.lor (Z.lor (Z.shiftl (Z.land (Z.shiftr h 12) 1) 5)
                   (Z.shiftl (Z.land (Z.shiftr h 4) 0x7) 2))
                   (Z.shiftl (Z.land (Z.shiftr h 2) 0x3) 6) in
      Lw rdrs1 2 imm
  | 3 =>
      if rdrs1 =? 0 then Reserved h else
      let imm := Z.lor (Z.lor (Z.shiftl (Z.land (Z.shiftr h 12) 1) 5)
                   (Z.shiftl (Z.land (Z.shiftr h 5) 0x3) 3))
                   (Z.shiftl (Z.land (Z.shiftr h 2) 0x7) 6) in
      Ld rdrs1 2 imm
  | 4 =>
      let bit12 := Z.land (Z.shiftr h 12) 1 in
      if (bit12 =? 0) && (rs2 =? 0) && negb (rdrs1 =? 0) then Jalr 0 rdrs1 0
      else if (bit12 =? 0) && negb (rdrs1 =? 0) && negb (rs2 =? 0) then Add rdrs1 0 rs2
      else if (bit12 =? 1) && (rdrs1 =? 0) && (rs2 =? 0) then Reserved h
      else if (bit12 =? 1) && (rs2 =? 0) && negb (rdrs1 =? 0) then Jalr 1 rdrs1 0
      else if (bit12 =? 1) && negb (rdrs1 =? 0) && negb (rs2 =? 0) then Add rdrs1 rdrs1 rs2
      else Reserved h
  | 6 =>
      let imm := Z.lor (Z.shiftl (Z.land (Z.shiftr h 9) 0xF) 2)
                   (Z.shiftl (Z.land (Z.shiftr h 7) 0x3) 6) in
      Sw 2 rs2 imm
  | 7 =>
      let imm := Z.lor (Z.shiftl (Z.land (Z.shiftr h 10) 0x7) 3)
                   (Z.shiftl (Z.land (Z.shiftr h 7) 0x7) 6) in
      Sd 2 rs2 imm
  | _ => Reserved h
  end.

Definition decompress (h : Z) : Inst :=
  let op := Z.land h 3 in
  let f3 := Z.land (Z.shiftr h 13) 7 in
  match op with
  | 0 => decompress_q0 h f3
  | 1 => decompress_q1 h f3
  | 2 => decompress_q2 h f3
  | _ => Reserved h
  end.

(** ** Entry point *)

Definition reserve_if_reserved_reg (inst : Inst) (raw : Z) : Inst :=
  if uses_reserved_reg inst then Reserved raw else inst.

(** [decode]: the instruction at the head of the byte slice and its length. *)
Definition decode (bytes : list Z) : option (Inst * Z) :=
  match bytes with
  | b0 :: b1 :: rest =>
      let lo16 := from_le_bytes [b0; b1] in
      if negb (Z.land lo16 3 =? 3) then
        Some (reserve_if_reserved_reg (decompress lo16) lo16, 2)
      else
        match rest with
        | b2 :: b3 :: _ =>
            let w := from_le_bytes [b0; b1; b2; b3] in
            Some (reserve_if_reserved_reg (decode_32 w) w, 4)
        | _ => None
        end
  | _ => None
  end.

(** The tests of the source file, evaluated. *)
Example decode_add : decode (to_le_bytes 4 0x00C58533) = Some (Add 10 11 12, 4).
Proof. reflexivity. Qed.
Example decode_addi_negative : decode (to_le_bytes 4 0xFFC58513) = Some (Addi 10 11 (-4), 4).
Proof. reflexivity. Qed.
Example decode_beq : decode (to_le_bytes 4 0x00B50463) = Some (Beq 10 11 8, 4).
Proof. reflexivity. Qed.
Example decode_jal : decode (to_le_bytes 4 0x00C000EF) = Some (Jal 1 12, 4).
Proof. reflexivity. Qed.
Example decode_lui : decode (to_le_bytes 4 0x123452B7) = Some (Lui 5 0x12345000, 4).
Proof. reflexivity. Qed.
Example decode_c_li : decode (to_le_bytes 2 0x557D) = Some (Addi 10 0 (-1), 2).
Proof. reflexivity. Qed.
Example decode_c_j : decode (to_le_bytes 2 0xA011) = Some (Jal 0 4, 2).
Proof. reflexivity. Qed.
Example decode_c_jalr : decode (to_le_bytes 2 0x9082) = Some (Jalr 1 1 0, 2).
Proof. reflexivity. Qed.

(** [decode] is a prefix code. It fails exactly on a slice too short for
    the length its two low bits announce; otherwise it consumes 2 or 4 bytes of
    the slice, and what it returns depends on those bytes alone. *)
Theorem decode_prefix_code bs :
  match decode bs with
  | None => (length bs < 2)%nat \/ ((length bs < 4)%nat /\ Z.land (from_le_bytes (take 2 bs)) 3 = 3)
  | Some (i, l) =>
      (l = 2 \/ l = 4) /\ l <= Z.of_nat (length bs) /\
      forall tl, decode (take (Z.to_nat l) bs ++ tl) = Some (i, l)
  end.
Proof.
  destruct bs as [|b0 [|b1 rest]]; cbn [decode]; [left; cbn; lia..|].
  change (take 2 (b0 :: b1 :: rest)) with [b0; b1].
  destruct (Z.eqb_spec (Z.land (from_le_bytes [b0; b1]) 3) 3) as [E|E]; cbn [negb].
  - destruct rest as [|b2 [|b3 rest]]; [right; cbn; split; [lia|done]..|].
    split; [by right|]. split; [cbn; lia|]. intros tl.
    change (take (Z.to_nat 4) _ ++ tl) with (b0 :: b1 :: b2 :: b3 :: tl).
    cbn [decode]. by rewrite E.
  - split; [by left|]. split; [cbn; lia|]. intros tl.
    change (take (Z.to_nat 2) _ ++ tl) with (b0 :: b1 :: tl).
    cbn [decode]. destruct (Z.eqb_spec (Z.land (from_le_bytes [b0; b1]) 3) 3); done.
Qed.
