(* ===== verification/InstructionFacts.v ===== *)
(** * Facts about the decoder

    Length rule, well-formedness of what it produces, and the agreement of the
    raw-word register predicates with the decoded instruction. *)

From S2P Require Import Prelude MachineInt Engine Instruction.

(** ** The registers an instruction names, in source order *)

Definition reg_fields (i : Inst) : list Z :=
  match i with
  | Lb rd rs1 _ | Lh rd rs1 _ | Lw rd rs1 _ | Ld rd rs1 _ | Lbu rd rs1 _ | Lhu rd rs1 _
  | Lwu rd rs1 _ | Addi rd rs1 _ | Slti rd rs1 _ | Sltiu rd rs1 _ | Andi rd rs1 _
  | Ori rd rs1 _ | Xori rd rs1 _ | Slli rd rs1 _ | Srli rd rs1 _ | Srai rd rs1 _
  | Addiw rd rs1 _ | Slliw rd rs1 _ | Srliw rd rs1 _ | Sraiw rd rs1 _ | Clz rd rs1
  | Clzw rd rs1 | Ctz rd rs1 | Ctzw rd rs1 | Cpop rd rs1 | Cpopw rd rs1 | SextB rd rs1
  | SextH rd rs1 | ZextH rd rs1 | Rev8 rd rs1 | OrcB rd rs1 | Rori rd rs1 _ | Roriw rd rs1 _
  | Slliuw rd rs1 _ | Bclri rd rs1 _ | Bseti rd rs1 _ | Binvi rd rs1 _ | Bexti rd rs1 _
  | Jalr rd rs1 _ => [rd; rs1]
  | Sb rs1 rs2 _ | Sh rs1 rs2 _ | Sw rs1 rs2 _ | Sd rs1 rs2 _ | Beq rs1 rs2 _ | Bne rs1 rs2 _
  | Blt rs1 rs2 _ | Bge rs1 rs2 _ | Bltu rs1 rs2 _ | Bgeu rs1 rs2 _ => [rs1; rs2]
  | Add rd rs1 rs2 | Sub rd rs1 rs2 | Sll rd rs1 rs2 | Srl rd rs1 rs2 | Sra rd rs1 rs2
  | Slt rd rs1 rs2 | Sltu rd rs1 rs2 | Xor rd rs1 rs2 | Or rd rs1 rs2 | And rd rs1 rs2
  | Addw rd rs1 rs2 | Subw rd rs1 rs2 | Sllw rd rs1 rs2 | Srlw rd rs1 rs2 | Sraw rd rs1 rs2
  | Mul rd rs1 rs2 | Mulh rd rs1 rs2 | Mulhsu rd rs1 rs2 | Mulhu rd rs1 rs2 | Div rd rs1 rs2
  | Divu rd rs1 rs2 | Rem rd rs1 rs2 | Remu rd rs1 rs2 | Mulw rd rs1 rs2 | Divw rd rs1 rs2
  | Divuw rd rs1 rs2 | Remw rd rs1 rs2 | Remuw rd rs1 rs2 | Min rd rs1 rs2 | Minu rd rs1 rs2
  | Max rd rs1 rs2 | Maxu rd rs1 rs2 | Andn rd rs1 rs2 | Orn rd rs1 rs2 | Xnor rd rs1 rs2
  | Rol rd rs1 rs2 | Ror rd rs1 rs2 | Rolw rd rs1 rs2 | Rorw rd rs1 rs2 | Sh1add rd rs1 rs2
  | Sh2add rd rs1 rs2 | Sh3add rd rs1 rs2 | Sh1adduw rd rs1 rs2 | Sh2adduw rd rs1 rs2
  | Sh3adduw rd rs1 rs2 | Adduw rd rs1 rs2 | Bclr rd rs1 rs2 | Bset rd rs1 rs2
  | Binv rd rs1 rs2 | Bext rd rs1 rs2 | CzeroEqz rd rs1 rs2 | CzeroNez rd rs1 rs2 => [rd; rs1; rs2]
  | Lui rd _ | Auipc rd _ | Jal rd _ => [rd]
  | Fence | FenceI | Trap | EcallJar | Ecalli _ | Fallthrough | Reserved _ => []
  end.

(** ** Ranges of the immediates: 12-bit signed, 13-bit even, 21-bit even,
    a multiple of 4096 in [i32], and 5- or 6-bit shift amounts. [Slliuw] is in
    the 5-bit group: the decoder matches the whole [funct7]. *)

Definition in_i (w x : Z) : bool := (- 2 ^ (w - 1) <=? x) && (x <? 2 ^ (w - 1)).

Definition imm_wf (i : Inst) : bool :=
  match i with
  | Lb _ _ imm | Lh _ _ imm | Lw _ _ imm | Ld _ _ imm | Lbu _ _ imm | Lhu _ _ imm | Lwu _ _ imm
  | Sb _ _ imm | Sh _ _ imm | Sw _ _ imm | Sd _ _ imm | Addi _ _ imm | Slti _ _ imm
  | Sltiu _ _ imm | Andi _ _ imm | Ori _ _ imm | Xori _ _ imm | Addiw _ _ imm | Jalr _ _ imm
  | Ecalli imm => in_i 12 imm
  | Beq _ _ imm | Bne _ _ imm | Blt _ _ imm | Bge _ _ imm | Bltu _ _ imm | Bgeu _ _ imm => in_i 13 imm && (imm mod 2 =? 0)
  | Jal _ imm => in_i 21 imm && (imm mod 2 =? 0)
  | Lui _ imm | Auipc _ imm => in_i 32 imm && (imm mod 4096 =? 0)
  | Slli _ _ shamt | Srli _ _ shamt | Srai _ _ shamt | Rori _ _ shamt | Bclri _ _ shamt
  | Bseti _ _ shamt | Binvi _ _ shamt | Bexti _ _ shamt => (0 <=? shamt) && (shamt <? 64)
  | Slliw _ _ shamt | Srliw _ _ shamt | Sraiw _ _ shamt | Roriw _ _ shamt | Slliuw _ _ shamt => (0 <=? shamt) && (shamt <? 32)
  | _ => true
  end.

Definition is_Reserved (i : Inst) : bool :=
  match i with Reserved _ => true | _ => false end.

(** Every register is one of [x0..x15] and every immediate fits its field. *)
Definition inst_wf (i : Inst) : bool :=
  forallb (fun r => (0 <=? r) && (r <? 16)) (reg_fields i) && imm_wf i.

(** ** Sign extension by a pair of shifts *)

Lemma sext_shiftl w k y : 0 <= k < w -> sext w (Z.shiftl y k) = 2 ^ k * sext (w - k) y.
Proof.
  intros Hk. rewrite Z.shiftl_mul_pow2 by lia. unfold sext.
  assert (2 ^ w = 2 ^ (w - k) * 2 ^ k) as E by (rewrite <- Z.pow_add_r by lia; f_equal; lia).
  assert (2 ^ (w - 1) = 2 ^ (w - k - 1) * 2 ^ k) as E'
    by (rewrite <- Z.pow_add_r by lia; f_equal; lia).
  assert (0 < 2 ^ k) by lia.
  rewrite E, E', Z.mul_mod_distr_r by lia.
  destruct (Z.ltb_spec (y mod 2 ^ (w - k)) (2 ^ (w - k - 1)));
    destruct (Z.ltb_spec (y mod 2 ^ (w - k) * 2 ^ k) (2 ^ (w - k - 1) * 2 ^ k)); nia.
Qed.

Lemma sext_sext w v x : 1 <= v <= w -> sext v (sext w x) = sext v x.
Proof.
  intros Hv. rewrite <- (sext_wrap v (sext w x)), <- (sext_wrap v x) by lia. f_equal.
  unfold wrap. assert (2 ^ w = 2 ^ v * 2 ^ (w - v)) as E
    by (rewrite <- Z.pow_add_r by lia; f_equal; lia).
  assert (0 < 2 ^ v) by lia. assert (0 < 2 ^ (w - v)) by lia.
  pose proof (sext_mod w x ltac:(lia)) as M. rewrite E in M.
  rewrite <- (Z.mod_mod_divide (sext w x) (2 ^ v * 2 ^ (w - v))), M, Z.mod_mod_divide;
    auto using Z.divide_factor_l.
Qed.

Lemma sx32_sext x k : 0 <= k < 32 -> sx32 x k = sext (32 - k) x.
Proof.
  intros Hk. unfold sx32. rewrite sext_shiftl, sext_sext by lia.
  rewrite Z.shiftr_div_pow2, Z.mul_comm, Z.div_mul by lia. done.
Qed.

(** ** The registers each 32-bit format names *)

(** Case analysis on every [match] of a decoder arm. *)
Ltac arms := repeat (case_match; try subst); try (left; reflexivity); right; try reflexivity.

Definition names (i : Inst) (rs : list Z) : Prop := is_Reserved i = true \/ reg_fields i = rs.

Lemma decode_load_names w rd rs1 f3 : names (decode_load w rd rs1 f3) [rd; rs1].
Proof. unfold names, decode_load. arms. Qed.

Lemma decode_store_names w rs1 rs2 f3 : names (decode_store w rs1 rs2 f3) [rs1; rs2].
Proof. unfold names, decode_store. arms. Qed.

Lemma decode_op_imm_names w rd rs1 f3 : names (decode_op_imm w rd rs1 f3) [rd; rs1].
Proof. unfold names, decode_op_imm. arms. Qed.

Lemma decode_op_imm_32_names w rd rs1 f3 : names (decode_op_imm_32 w rd rs1 f3) [rd; rs1].
Proof. unfold names, decode_op_imm_32. arms. Qed.

Lemma decode_op_names rd rs1 rs2 f3 f7 w :
  names (decode_op rd rs1 rs2 f3 f7 w) [rd; rs1; rs2] \/
  rs2 = 0 /\ decode_op rd rs1 rs2 f3 f7 w = ZextH rd rs1.
Proof.
  unfold names, decode_op.
  repeat (case_match; try subst); try (left; left; reflexivity); try (left; right; reflexivity).
  right. split; [by apply Z.eqb_eq | done].
Qed.

Lemma decode_op_32_names rd rs1 rs2 f3 f7 w :
  names (decode_op_32 rd rs1 rs2 f3 f7 w) [rd; rs1; rs2].
Proof. unfold names, decode_op_32. arms. Qed.

Lemma decode_branch_names rs1 rs2 f3 imm w :
  names (decode_branch rs1 rs2 f3 imm w) [rs1; rs2].
Proof. unfold names, decode_branch. arms. Qed.

Lemma decode_misc_mem_names f3 : names (decode_misc_mem f3) [].
Proof. unfold names, decode_misc_mem. arms. Qed.

Lemma decode_custom_0_names w f3 : names (decode_custom_0 w f3) [].
Proof. unfold names, decode_custom_0. arms. Qed.

(** The seven low bits of a 32-bit encoding are its major opcode and [11]. *)
Lemma opcode_of_major w m :
  Z.land w 3 = 3 -> Z.land (Z.shiftr w 2) 0x1F = m -> Z.land w 0x7F = 4 * m + 3.
Proof.
  change 3 with (2 ^ 2 - 1) at 1. change 0x1F with (2 ^ 5 - 1). change 0x7F with (2 ^ 7 - 1).
  rewrite !land_ones', Z.shiftr_div_pow2 by lia. intros. dlia.
Qed.

(** [uses_reserved_reg] is the reserved class over the named registers. *)
Lemma uses_reserved_reg_fields i : uses_reserved_reg i = existsb reg_is_reserved (reg_fields i).
Proof. destruct i; cbn; rewrite ?orb_false_r, ?orb_assoc; reflexivity. Qed.

(** The register fields of a word's format, in the order of [reg_fields]. *)
Definition word_regs (w : Z) : list Z :=
  let rd := Z.land (Z.shiftr w 7) 0x1F in
  let rs1 := Z.land (Z.shiftr w 15) 0x1F in
  let rs2 := Z.land (Z.shiftr w 20) 0x1F in
  match Z.land w 0x7F with
  | 0x33 | 0x3B => [rd; rs1; rs2]
  | 0x03 | 0x13 | 0x1B | 0x67 => [rd; rs1]
  | 0x23 | 0x63 => [rs1; rs2]
  | 0x37 | 0x17 | 0x6F => [rd]
  | _ => []
  end.

(** A decoded word names the registers of its format; [zext.h], which fixes
    [rs2 = x0], leaves that one out. *)
Lemma decode_32_names w :
  names (decode_32 w) (word_regs w) \/ word_regs w = reg_fields (decode_32 w) ++ [0].
Proof.
  unfold decode_32, word_regs.
  destruct (Z.eqb_spec (Z.land w 3) 3) as [Hl|]; cbn [negb]; [|by do 2 left].
  repeat match goal with
  | |- context [Z.land (Z.shiftr w 2) 31 =? ?op] =>
      destruct (Z.eqb_spec (Z.land (Z.shiftr w 2) 31) op) as [Hm|_];
      [rewrite (opcode_of_major w _ Hl Hm), ?Hm; cbn [andb]|]
  end; cbn [andb]; try (left; auto using decode_load_names, decode_store_names, decode_op_imm_names,
    decode_op_imm_32_names, decode_op_32_names, decode_branch_names, decode_misc_mem_names,
    decode_custom_0_names; fail).
  - destruct (decode_op_names (Z.land (Z.shiftr w 7) 31) (Z.land (Z.shiftr w 15) 31) (Z.land (Z.shiftr w 20) 31) (Z.land (Z.shiftr w 12) 7) (Z.land (Z.shiftr w 25) 127) w) as [?|[H1 H2]].
    + by left.
    + right. rewrite H2, H1. reflexivity.
  - left. by right.
  - left. by right.
  - left. by right.
  - left. case_match; [by right|by left].
  - left. by left.
Qed.

Lemma word_regs_range w : Forall (is_u 5) (word_regs w).
Proof.
  assert (forall x, is_u 5 (Z.land x 0x1F)) as R.
  { intros x. change 0x1F with (2 ^ 5 - 1). rewrite land_ones' by lia. by apply wrap_range. }
  unfold word_regs. repeat case_match; repeat constructor; apply R.
Qed.

Lemma word_reg_class_hits_regs w pred : word_reg_class_hits w pred = existsb pred (word_regs w).
Proof.
  unfold word_reg_class_hits, word_regs.
  repeat case_match; cbn [existsb]; by rewrite ?orb_false_r, ?orb_assoc.
Qed.

(** A register class without [x0] is hit by a field of the word exactly when
    the decoded instruction names a register of the class. *)
Lemma word_reg_class_hits_spec w pred :
  pred 0 = false -> is_Reserved (decode_32 w) = false ->
  word_reg_class_hits w pred = existsb pred (reg_fields (decode_32 w)).
Proof.
  intros H0 Hr. rewrite word_reg_class_hits_regs.
  destruct (decode_32_names w) as [[H|H]|H]; [congruence|by rewrite H|].
  rewrite H, existsb_app. cbn. by rewrite H0, !orb_false_r.
Qed.

(** ** Ranges of decoded immediates *)

Lemma in_i_sext w x : 1 <= w -> in_i w (sext w x) = true.
Proof. intros Hw. pose proof (sext_range w x Hw) as [? ?]. unfold in_i. lia. Qed.

Lemma imm_i_wf w : in_i 12 (imm_i w) = true.
Proof.
  unfold imm_i, in_i. rewrite Z.shiftr_div_pow2 by lia.
  pose proof (sext_range 32 w ltac:(lia)) as [? ?]. change (- 2 ^ (32 - 1)) with (-2147483648) in *.
  change (2 ^ (32 - 1)) with 2147483648 in *. change (2 ^ 20) with 1048576.
  change (2 ^ (12 - 1)) with 2048. dlia.
Qed.

Lemma imm_s_wf w : in_i 12 (imm_s w) = true.
Proof. unfold imm_s. rewrite sx32_sext by lia. by apply in_i_sext. Qed.

(** Sign extension keeps the parity. *)
Lemma sext_even w x : 1 < w -> x mod 2 = 0 -> sext w x mod 2 = 0.
Proof.
  intros Hw Hx. unfold sext. assert (2 ^ w = 2 * 2 ^ (w - 1)) as E.
  { rewrite <- Z.pow_succ_r by lia. f_equal. lia. }
  assert (x mod 2 ^ w mod 2 = 0) as M.
  { rewrite E, Z.mod_mod_divide; [done|]. apply Z.divide_factor_l. }
  destruct (_ <? _); [done|]. rewrite Zminus_mod, M, E, Z.mul_comm, Z_mod_mult. done.
Qed.

Lemma lor_even a b : a mod 2 = 0 -> b mod 2 = 0 -> Z.lor a b mod 2 = 0.
Proof. rewrite <- !Z.bit0_mod, Z.lor_spec. by do 2 destruct (Z.testbit _ 0). Qed.

Lemma shiftl_even a k : 0 < k -> Z.shiftl a k mod 2 = 0.
Proof. intros. by rewrite <- Z.bit0_mod, Z.shiftl_spec_low. Qed.

Lemma imm_b_wf w : in_i 13 (imm_b w) && (imm_b w mod 2 =? 0) = true.
Proof.
  unfold imm_b. rewrite sx32_sext by lia. change (32 - 19) with 13.
  rewrite in_i_sext, sext_even by (first [lia | repeat apply lor_even; by apply shiftl_even]).
  done.
Qed.

Lemma imm_j_wf w : in_i 21 (imm_j w) && (imm_j w mod 2 =? 0) = true.
Proof.
  unfold imm_j. rewrite sx32_sext by lia. change (32 - 11) with 21.
  rewrite in_i_sext, sext_even by (first [lia | repeat apply lor_even; by apply shiftl_even]).
  done.
Qed.

Lemma land_hi20 w : Z.land w 0xFFFFF000 = Z.shiftl (Z.land (Z.shiftr w 12) 0xFFFFF) 12.
Proof.
  change 0xFFFFF000 with (Z.shiftl 0xFFFFF 12).
  apply Z.bits_inj'. intros n Hn. rewrite Z.land_spec, !Z.shiftl_spec, Z.land_spec by lia.
  destruct (Z.lt_ge_cases n 12).
  - rewrite !Z.testbit_neg_r with (n := n - 12) by lia. by rewrite !andb_false_r.
  - rewrite Z.shiftr_spec by lia. do 2 f_equal. lia.
Qed.

Lemma imm_u_wf w :
  let imm := sext 32 (Z.land w 0xFFFFF000) in in_i 32 imm && (imm mod 4096 =? 0) = true.
Proof.
  cbv zeta. rewrite in_i_sext, land_hi20, sext_shiftl by lia.
  change (2 ^ 12) with 4096. rewrite Z.mul_comm, Z_mod_mult. done.
Qed.

Lemma land_0x3F_range x : (0 <=? Z.land x 0x3F) && (Z.land x 0x3F <? 64) = true.
Proof. change 0x3F with (2 ^ 6 - 1). rewrite land_ones' by lia. change (2 ^ 6) with 64. dlia. Qed.

Lemma land_0x1F_range x : (0 <=? Z.land x 0x1F) && (Z.land x 0x1F <? 32) = true.
Proof. change 0x1F with (2 ^ 5 - 1). rewrite land_ones' by lia. change (2 ^ 5) with 32. dlia. Qed.

(** With [funct7 = 0000100] bit 25 is clear, so the six-bit shift amount of
    [slli.uw] is below 32. *)
Lemma slliuw_shamt_range w :
  Z.land (Z.shiftr w 25) 0x7F = 4 ->
  (0 <=? Z.land (Z.shiftr w 20) 0x3F) && (Z.land (Z.shiftr w 20) 0x3F <? 32) = true.
Proof.
  change 0x3F with (2 ^ 6 - 1). change 0x7F with (2 ^ 7 - 1).
  rewrite !land_ones', !Z.shiftr_div_pow2 by lia.
  change (2 ^ 25) with (2 ^ 20 * 32). rewrite <- Z.div_div by lia.
  generalize (w / 2 ^ 20). intros x. change (2 ^ 7) with 128. change (2 ^ 6) with 64. intros. dlia.
Qed.

Create HintDb immwf.
#[local] Hint Resolve imm_i_wf imm_s_wf imm_b_wf imm_j_wf imm_u_wf land_0x3F_range
  land_0x1F_range slliuw_shamt_range : immwf.

Lemma decode_32_imm_wf w : imm_wf (decode_32 w) = true.
Proof.
  unfold decode_32, decode_load, decode_store, decode_branch, decode_misc_mem, decode_custom_0.
  repeat match goal with
  | |- context [if ?b then _ else _] => destruct b
  end; try (by cbn; auto with immwf).
  all: try (repeat case_match; cbn; auto with immwf; fail).
  - unfold decode_op_imm. repeat case_match; cbn; auto with immwf.
  - unfold decode_op_imm_32. repeat case_match; cbn; auto with immwf.
  - unfold decode_op. repeat case_match; reflexivity.
  - unfold decode_op_32. repeat case_match; reflexivity.
Qed.

(** All 65536 halfwords: the registers are five-bit fields and the immediates
    of the expansion fit the 32-bit formats. *)
Lemma decompress_wf h :
  is_u 16 h ->
  forallb (fun r => (0 <=? r) && (r <? 32)) (reg_fields (decompress h)) &&
  imm_wf (decompress h) = true.
Proof.
  apply (all_words_spec 16 (fun h =>
    forallb (fun r => (0 <=? r) && (r <? 32)) (reg_fields (decompress h)) &&
    imm_wf (decompress h))). vm_compute. reflexivity.
Qed.

(** ** [decode] *)

Lemma reserve_wf i raw :
  forallb (fun r => (0 <=? r) && (r <? 32)) (reg_fields i) = true -> imm_wf i = true ->
  inst_wf (reserve_if_reserved_reg i raw) = true.
Proof.
  intros Hr Hi. unfold reserve_if_reserved_reg. rewrite uses_reserved_reg_fields.
  destruct (existsb _ _) eqn:E; [done|]. unfold inst_wf. rewrite Hi, andb_true_r.
  apply forallb_forall. intros r Hin. rewrite forallb_forall in Hr. specialize (Hr r Hin).
  apply not_true_iff_false in E. rewrite existsb_exists in E.
  destruct (reg_is_reserved r) eqn:Er; [destruct E; eauto|].
  rewrite reg_is_reserved_spec in Er by lia. lia.
Qed.

Lemma decode_32_regs w :
  forallb (fun r => (0 <=? r) && (r <? 32)) (reg_fields (decode_32 w)) = true.
Proof.
  apply forallb_forall. intros r Hr.
  assert (In r (word_regs w)) as Hin.
  { destruct (decode_32_names w) as [[H|H]|H].
    - destruct (decode_32 w); try done.
    - congruence.
    - rewrite H. apply in_or_app. by left. }
  pose proof (word_regs_range w) as F. rewrite Forall_forall in F.
  specialize (F r Hin). unfold is_u in F. lia.
Qed.

(** The two ways a halfword starts an instruction, and what is consumed. *)
Lemma decode_cases bs :
  match decode bs with
  | None => (length bs < 2)%nat \/ ((length bs < 4)%nat /\ Z.land (from_le_bytes (take 2 bs)) 3 = 3)
  | Some (i, 2) =>
      (2 <= length bs)%nat /\ Z.land (from_le_bytes (take 2 bs)) 3 <> 3 /\
      i = reserve_if_reserved_reg (decompress (from_le_bytes (take 2 bs))) (from_le_bytes (take 2 bs))
  | Some (i, l) =>
      l = 4 /\ (4 <= length bs)%nat /\ Z.land (from_le_bytes (take 2 bs)) 3 = 3 /\
      i = reserve_if_reserved_reg (decode_32 (from_le_bytes (take 4 bs))) (from_le_bytes (take 4 bs))
  end.
Proof.
  destruct bs as [|b0 [|b1 rest]]; cbn [decode]; [left; cbn; lia..|].
  change (take 2 (b0 :: b1 :: rest)) with [b0; b1].
  destruct (Z.eqb_spec (Z.land (from_le_bytes [b0; b1]) 3) 3); cbn [negb].
  - destruct rest as [|b2 [|b3 rest]]; [right; cbn; split; [lia|done]..|].
    change (take 4 _) with [b0; b1; b2; b3]. repeat split; [cbn; lia|done].
  - repeat split; [cbn; lia|done].
Qed.

Lemma take_le_range n bs :
  Forall (is_u 8) bs -> (n <= length bs)%nat -> is_u (8 * Z.of_nat n) (from_le_bytes (take n bs)).
Proof.
  intros H Hn. pose proof (from_le_bytes_range (take n bs)) as R.
  rewrite length_take, Nat.min_l in R by done. apply R. by apply Forall_take.
Qed.

(** [decode] only produces well-formed instructions. *)
Lemma decode_inst_wf bs i l :
  Forall (is_u 8) bs -> decode bs = Some (i, l) -> inst_wf i = true.
Proof.
  intros Hb E. pose proof (decode_cases bs) as C. rewrite E in C.
  assert (2 <= length bs)%nat as Hl by (repeat case_match; lia).
  assert (inst_wf (reserve_if_reserved_reg (decompress (from_le_bytes (take 2 bs)))
    (from_le_bytes (take 2 bs))) = true) as H16.
  { pose proof (decompress_wf _ (take_le_range 2 bs Hb Hl)) as W.
    apply andb_true_iff in W as [? ?]. by apply reserve_wf. }
  assert (inst_wf (reserve_if_reserved_reg (decode_32 (from_le_bytes (take 4 bs)))
    (from_le_bytes (take 4 bs))) = true) as H32.
  { apply reserve_wf; [apply decode_32_regs|apply decode_32_imm_wf]. }
  repeat case_match; intuition (subst; done).
Qed.

(** Whatever bytes [decode] is given, the instruction it returns names only
    [x0..x15] and its immediate or shift amount is in the range of its format
    (signed 12 bits; even signed 13 or 21 bits for branches and jumps; a
    multiple of 4096 in [i32] for [lui]/[auipc]; shift amounts below the
    operand width). *)
Theorem decode_well_formed bs i l :
  Forall (is_u 8) bs -> decode bs = Some (i, l) ->
  Forall (fun r => 0 <= r < 16) (reg_fields i) /\ imm_wf i = true.
Proof.
  intros Hb E. pose proof (decode_inst_wf _ _ _ Hb E) as W. unfold inst_wf in W.
  apply andb_true_iff in W as [W ?]. split; [|done].
  rewrite Forall_forall. rewrite forallb_forall in W. intros r Hr. specialize (W r Hr). lia.
Qed.

Lemma decode_well_formed_witness :
  decode [0x33; 0x85; 0xC5; 0x00] = Some (Add 10 11 12, 4) /\
  Forall (fun r => 0 <= r < 16) (reg_fields (Add 10 11 12)) /\ imm_wf (Add 10 11 12) = true.
Proof.
  split; [reflexivity|].
  apply (decode_well_formed [0x33; 0x85; 0xC5; 0x00] (Add 10 11 12) 4); [|reflexivity].
  repeat constructor; cbn; lia.
Defined.

(** ** Agreement with the recompiler's raw-word filter *)

(** An arm that refuses a word keeps the word. *)
Definition keeps (i : Inst) (w : Z) : Prop := forall raw, i = Reserved raw -> raw = w.

Ltac keeps_arms := unfold keeps; intros raw; repeat case_match; try discriminate; by intros [= ->].

Lemma decode_load_keeps w rd rs1 f3 : keeps (decode_load w rd rs1 f3) w.
Proof. unfold decode_load. keeps_arms. Qed.
Lemma decode_store_keeps w rs1 rs2 f3 : keeps (decode_store w rs1 rs2 f3) w.
Proof. unfold decode_store. keeps_arms. Qed.
Lemma decode_op_imm_keeps w rd rs1 f3 : keeps (decode_op_imm w rd rs1 f3) w.
Proof. unfold decode_op_imm. keeps_arms. Qed.
Lemma decode_op_imm_32_keeps w rd rs1 f3 : keeps (decode_op_imm_32 w rd rs1 f3) w.
Proof. unfold decode_op_imm_32. keeps_arms. Qed.
Lemma decode_op_keeps rd rs1 rs2 f3 f7 w : keeps (decode_op rd rs1 rs2 f3 f7 w) w.
Proof. unfold decode_op. keeps_arms. Qed.
Lemma decode_op_32_keeps rd rs1 rs2 f3 f7 w : keeps (decode_op_32 rd rs1 rs2 f3 f7 w) w.
Proof. unfold decode_op_32. keeps_arms. Qed.
Lemma decode_branch_keeps rs1 rs2 f3 imm w : keeps (decode_branch rs1 rs2 f3 imm w) w.
Proof. unfold decode_branch. keeps_arms. Qed.
Lemma decode_custom_0_keeps w f3 : keeps (decode_custom_0 w f3) w.
Proof. unfold decode_custom_0. keeps_arms. Qed.

(** Only MISC-MEM, which names no register, forgets the word ([raw: 0]). *)
Lemma decode_32_Reserved_raw w raw :
  decode_32 w = Reserved raw -> raw = w \/ word_regs w = [].
Proof.
  unfold decode_32, word_regs.
  destruct (Z.eqb_spec (Z.land w 3) 3) as [Hl|]; cbn [negb]; [|intros [= ->]; by left].
  repeat match goal with
  | |- context [Z.land (Z.shiftr w 2) 31 =? ?op] =>
      destruct (Z.eqb_spec (Z.land (Z.shiftr w 2) 31) op) as [Hm|_];
      [rewrite (opcode_of_major w _ Hl Hm), ?Hm; cbn [andb]|]
  end; cbn [andb]; intros H; try discriminate H.
  all: first [left; injection H as ->; reflexivity | right; reflexivity | left; revert H].
  - apply decode_load_keeps.
  - apply decode_store_keeps.
  - apply decode_op_imm_keeps.
  - apply decode_op_imm_32_keeps.
  - apply decode_op_keeps.
  - apply decode_op_32_keeps.
  - case_match; [discriminate|]. by intros [= ->].
  - apply decode_branch_keeps.
Qed.

(** Refusing after decoding is refusing by the raw word. *)
Lemma reserve_word w :
  reserve_if_reserved_reg (decode_32 w) w = if word_uses_reserved_reg w then Reserved w else decode_32 w.
Proof.
  unfold reserve_if_reserved_reg. destruct (is_Reserved (decode_32 w)) eqn:Er.
  - destruct (decode_32 w) eqn:E; try done. cbn [uses_reserved_reg].
    destruct (decode_32_Reserved_raw w raw E) as [->|H]; [by destruct (word_uses_reserved_reg w)|].
    unfold word_uses_reserved_reg. by rewrite word_reg_class_hits_regs, H.
  - rewrite uses_reserved_reg_fields. unfold word_uses_reserved_reg.
    by rewrite word_reg_class_hits_spec.
Qed.

(** The interpreter and the recompiler refuse the same 32-bit encodings.
    On every word, decoding for the interpreter is: refuse the word when the
    raw-word predicate the recompiler tests says so, and otherwise decode it;
    and the raw-word predicates agree with the registers the decoded
    instruction names, for the reserved and for the spilled class. *)
Theorem word_filter_agrees w :
  is_u 32 w -> Z.land w 3 = 3 ->
  decode (to_le_bytes 4 w) = Some (if word_uses_reserved_reg w then Reserved w else decode_32 w, 4) /\
  (is_Reserved (decode_32 w) = false ->
   word_uses_reserved_reg w = uses_reserved_reg (decode_32 w) /\
   word_uses_spilled_reg w = existsb reg_is_spilled (reg_fields (decode_32 w))).
Proof.
  intros Hw H3. split.
  2: { intros Hr. rewrite uses_reserved_reg_fields.
       split; by apply word_reg_class_hits_spec. }
  assert (decode (to_le_bytes 4 w) = Some (reserve_if_reserved_reg (decode_32 w) w, 4)) as ->.
  { pose proof (from_to_le_bytes 4 w) as E. cbn [to_le_bytes] in *. cbn [decode].
    rewrite E. change (8 * Z.of_nat 4) with 32. rewrite wrap_small by done.
    cbn [from_le_bytes]. change 3 with (2 ^ 2 - 1) in *. rewrite land_ones' in * by lia.
    change (2 ^ 2) with 4 in *.
    destruct (Z.eqb_spec ((w mod 256 + 256 * (w / 256 mod 256 + 256 * 0)) mod 4) (4 - 1)); [done|dlia]. }
  by rewrite reserve_word.
Qed.


Lemma word_filter_agrees_witness :
  word_uses_reserved_reg 0x00C58833 = true /\
  decode (to_le_bytes 4 0x00C58833) = Some (Reserved 0x00C58833, 4).
Proof.
  split; [reflexivity|].
  destruct (word_filter_agrees 0x00C58833 ltac:(unfold is_u; lia) eq_refl) as [H _]. exact H.
Defined.
