(* ===== verification/Rvc.v ===== *)
(** * Compressed instructions against the ISA's tables

    The decompressor of [instruction.rs] gathers immediates with masks and
    shifts. Here is a second definition, written from the bit layout tables of
    the RISC-V compressed-instruction chapter: every operand is the list of the
    halfword's bits that make it up, most significant first. The two agree on
    all 65,536 halfwords. *)

From S2P Require Import Prelude MachineInt Instruction InstructionFacts.

(** The number whose bits, most significant first, are these bits of [h]. *)
Definition fld (h : Z) (bits : list Z) : Z := fold_left (fun acc k => 2 * acc + b2z (Z.testbit h k)) bits 0.

(** [x8..x15] from three bits. *)
Definition reg3 (h : Z) (bits : list Z) : Z := 8 + fld h bits.

Definition rd_full (h : Z) : Z := fld h [11; 10; 9; 8; 7].
Definition rs2_full (h : Z) : Z := fld h [6; 5; 4; 3; 2].
Definition rs1_c (h : Z) : Z := reg3 h [9; 8; 7].
Definition rs2_c (h : Z) : Z := reg3 h [4; 3; 2].
Definition imm6 (h : Z) : Z := sext 6 (fld h [12; 6; 5; 4; 3; 2]).
Definition shamt6 (h : Z) : Z := fld h [12; 6; 5; 4; 3; 2].

Definition some_if (b : bool) (i : Inst) : option Inst := if b then Some i else None.

(** Quadrant 0: stack-address, loads and stores through [x8..x15]. *)
Definition rvc_q0 (h f3 : Z) : option Inst :=
  let w_off := 4 * fld h [5; 12; 11; 10; 6] in
  let d_off := 8 * fld h [6; 5; 12; 11; 10] in
  let sp_off := 4 * fld h [10; 9; 8; 7; 12; 11; 5; 6] in
  match f3 with
  | 0 => some_if (negb (sp_off =? 0)) (Addi (rs2_c h) 2 sp_off)
  | 2 => Some (Lw (rs2_c h) (rs1_c h) w_off)
  | 3 => Some (Ld (rs2_c h) (rs1_c h) d_off)
  | 6 => Some (Sw (rs1_c h) (rs2_c h) w_off)
  | 7 => Some (Sd (rs1_c h) (rs2_c h) d_off)
  | _ => None
  end.

(** The register-register group of quadrant 1, by bits 12, 6 and 5. *)
Definition rvc_alu (h : Z) : option Inst :=
  let rd := rs1_c h in
  let rs2 := rs2_c h in
  match fld h [11; 10], fld h [12; 6; 5] with
  | 0, _ => Some (Srli rd rd (shamt6 h))
  | 1, _ => Some (Srai rd rd (shamt6 h))
  | 2, _ => Some (Andi rd rd (imm6 h))
  | 3, 0 => Some (Sub rd rd rs2)
  | 3, 1 => Some (Xor rd rd rs2)
  | 3, 2 => Some (Or rd rd rs2)
  | 3, 3 => Some (And rd rd rs2)
  | 3, 4 => Some (Subw rd rd rs2)
  | 3, 5 => Some (Addw rd rd rs2)
  | _, _ => None
  end.

(** Quadrant 1. The encodings with destination [x0] are hints; this machine
    accepts only the [c.nop] family among them. *)
Definition rvc_q1 (h f3 : Z) : option Inst :=
  let rd := rd_full h in
  let sp_imm := 16 * sext 6 (fld h [12; 4; 3; 5; 2; 6]) in
  let j_off := 2 * sext 11 (fld h [12; 8; 10; 9; 6; 7; 2; 11; 5; 4; 3]) in
  let b_off := 2 * sext 8 (fld h [12; 6; 5; 2; 11; 10; 4; 3]) in
  match f3 with
  | 0 => Some (if rd =? 0 then Addi 0 0 0 else Addi rd rd (imm6 h))
  | 1 => some_if (negb (rd =? 0)) (Addiw rd rd (imm6 h))
  | 2 => some_if (negb (rd =? 0)) (Addi rd 0 (imm6 h))
  | 3 => if rd =? 2 then some_if (negb (sp_imm =? 0)) (Addi 2 2 sp_imm)
         else some_if (negb (rd =? 0) && negb (imm6 h =? 0)) (Lui rd (4096 * imm6 h))
  | 4 => rvc_alu h
  | 5 => Some (Jal 0 j_off)
  | 6 => Some (Beq (rs1_c h) 0 b_off)
  | 7 => Some (Bne (rs1_c h) 0 b_off)
  | _ => None
  end.

(** Quadrant 2: shifts, stack-relative accesses, register jumps and moves. *)
Definition rvc_q2 (h f3 : Z) : option Inst :=
  let rd := rd_full h in
  let rs2 := rs2_full h in
  let nz x := negb (x =? 0) in
  match f3 with
  | 0 => some_if (nz rd) (Slli rd rd (shamt6 h))
  | 2 => some_if (nz rd) (Lw rd 2 (4 * fld h [3; 2; 12; 6; 5; 4]))
  | 3 => some_if (nz rd) (Ld rd 2 (8 * fld h [4; 3; 2; 12; 6; 5]))
  | 4 =>
      if negb (nz rd) then None
      else match Z.testbit h 12, nz rs2 with
           | false, false => Some (Jalr 0 rd 0)
           | false, true => Some (Add rd 0 rs2)
           | true, false => Some (Jalr 1 rd 0)
           | true, true => Some (Add rd rd rs2)
           end
  | 6 => Some (Sw 2 rs2 (4 * fld h [8; 7; 12; 11; 10; 9]))
  | 7 => Some (Sd 2 rs2 (8 * fld h [9; 8; 7; 12; 11; 10]))
  | _ => None
  end.

Definition rvc_table (h : Z) : option Inst :=
  match fld h [1; 0] with
  | 0 => rvc_q0 h (fld h [15; 14; 13])
  | 1 => rvc_q1 h (fld h [15; 14; 13])
  | 2 => rvc_q2 h (fld h [15; 14; 13])
  | _ => None
  end.

(** ** The exhaustive comparison *)

(** Equality of the instructions compressed encodings can expand to. *)
Definition rvc_eqb (i j : Inst) : bool :=
  match i, j with
  | Addi a b c, Addi a' b' c' | Addiw a b c, Addiw a' b' c' | Andi a b c, Andi a' b' c'
  | Slli a b c, Slli a' b' c' | Srli a b c, Srli a' b' c' | Srai a b c, Srai a' b' c'
  | Lw a b c, Lw a' b' c' | Ld a b c, Ld a' b' c' | Sw a b c, Sw a' b' c' | Sd a b c, Sd a' b' c'
  | Add a b c, Add a' b' c' | Sub a b c, Sub a' b' c' | Xor a b c, Xor a' b' c' | Or a b c, Or a' b' c'
  | And a b c, And a' b' c' | Addw a b c, Addw a' b' c' | Subw a b c, Subw a' b' c'
  | Beq a b c, Beq a' b' c' | Bne a b c, Bne a' b' c' | Jalr a b c, Jalr a' b' c' =>
      (a =? a') && (b =? b') && (c =? c')
  | Lui a b, Lui a' b' | Jal a b, Jal a' b' => (a =? a') && (b =? b')
  | _, _ => false
  end.

Lemma rvc_eqb_eq i j : rvc_eqb i j = true -> i = j.
Proof.
  destruct i; cbn [rvc_eqb]; try discriminate; destruct j; try discriminate;
    rewrite !andb_true_iff, !Z.eqb_eq; naive_solver.
Qed.

Definition rvc_agrees (h : Z) : bool :=
  match rvc_table h with
  | Some i => rvc_eqb (decompress h) i
  | None => is_Reserved (decompress h)
  end.

Lemma rvc_agrees_all : all_words 16 0 rvc_agrees = true.
Proof. vm_compute. reflexivity. Qed.

(** On every halfword the decompressor expands to the instruction, registers
    and immediate the ISA's bit tables give, and answers [Reserved] exactly for
    the halfwords the tables leave out. *)
Theorem decompress_matches_table h :
  is_u 16 h ->
  match rvc_table h with
  | Some i => decompress h = i /\ is_Reserved (decompress h) = false
  | None => is_Reserved (decompress h) = true
  end.
Proof.
  intros Hh. pose proof (all_words_spec 16 rvc_agrees h rvc_agrees_all Hh) as A. unfold rvc_agrees in A.
  destruct (rvc_table h) as [i|]; [|done]. pose proof (rvc_eqb_eq _ _ A) as E. split; [done|].
  rewrite E in A |- *. by destruct i.
Qed.

(** [c.j -2] *)
Lemma decompress_matches_table_witness : decompress 0xBFFD = Jal 0 (-2).
Proof.
  assert (is_u 16 0xBFFD) as Hh by (unfold is_u; lia).
  exact (proj1 (decompress_matches_table 0xBFFD Hh)).
Defined.
