(* ===== verification/Encode.v ===== *)
(** * The fuzzer's instruction encoders

    Models [rust/javm-fuzz/src/encode.rs]: the format encoders, the [OPS] table
    and [encode_op]. The main result is the round trip with the decoder for
    every row of the table and every operand in range. *)

From Stdlib Require Import String.
From S2P Require Import Prelude MachineInt Engine Instruction InstructionFacts.

Open Scope string_scope.
Open Scope Z_scope.

(** ** Format encoders *)

(** Every operand is a [u32] after its cast; the words stay below [2^32] as
    long as the fields do ([wrap 32] is what [<<] on [u32] does otherwise). *)
Definition r (opcode funct7 funct3 rd rs1 rs2 : Z) : Z :=
  Z.lor (Z.lor (Z.lor (Z.lor (Z.lor
    (wrap 32 (Z.shiftl funct7 25)) (wrap 32 (Z.shiftl rs2 20))) (wrap 32 (Z.shiftl rs1 15)))
    (wrap 32 (Z.shiftl funct3 12))) (wrap 32 (Z.shiftl rd 7))) opcode.

Definition i (opcode funct3 rd rs1 imm : Z) : Z :=
  Z.lor (Z.lor (Z.lor (Z.lor
    (wrap 32 (Z.shiftl (Z.land (wrap 32 imm) 0xFFF) 20)) (wrap 32 (Z.shiftl rs1 15)))
    (wrap 32 (Z.shiftl funct3 12))) (wrap 32 (Z.shiftl rd 7))) opcode.

Definition s (opcode funct3 rs1 rs2 imm : Z) : Z :=
  let u := wrap 32 imm in
  Z.lor (Z.lor (Z.lor (Z.lor (Z.lor
    (wrap 32 (Z.shiftl (Z.land (Z.shiftr u 5) 0x7F) 25)) (wrap 32 (Z.shiftl rs2 20)))
    (wrap 32 (Z.shiftl rs1 15))) (wrap 32 (Z.shiftl funct3 12)))
    (wrap 32 (Z.shiftl (Z.land u 0x1F) 7))) opcode.

Definition b_ (opcode funct3 rs1 rs2 imm : Z) : Z :=
  let u := wrap 32 imm in
  Z.lor (Z.lor (Z.lor (Z.lor (Z.lor (Z.lor (Z.lor
    (wrap 32 (Z.shiftl (Z.land (Z.shiftr u 12) 1) 31))
    (wrap 32 (Z.shiftl (Z.land (Z.shiftr u 5) 0x3F) 25))) (wrap 32 (Z.shiftl rs2 20)))
    (wrap 32 (Z.shiftl rs1 15))) (wrap 32 (Z.shiftl funct3 12)))
    (wrap 32 (Z.shiftl (Z.land (Z.shiftr u 1) 0xF) 8)))
    (wrap 32 (Z.shiftl (Z.land (Z.shiftr u 11) 1) 7))) opcode.

Definition u_ (opcode rd imm20 : Z) : Z :=
  Z.lor (Z.lor (wrap 32 (Z.shiftl (Z.land imm20 0xFFFFF) 12)) (wrap 32 (Z.shiftl rd 7))) opcode.

Definition i_shift64 (opcode funct3 funct6 rd rs1 shamt : Z) : Z :=
  let imm := Z.lor (Z.shiftl (Z.land funct6 0x3F) 6) (Z.land shamt 0x3F) in
  i opcode funct3 rd rs1 imm.

Definition i_shift32 (opcode funct3 funct7 rd rs1 shamt : Z) : Z :=
  let imm := Z.lor (Z.shiftl (Z.land funct7 0x7F) 5) (Z.land shamt 0x1F) in
  i opcode funct3 rd rs1 imm.

(** ** The operation table *)

Definition OP : Z := 0x33.
Definition OP_IMM : Z := 0x13.
Definition OP_IMM_32 : Z := 0x1B.
Definition OP_32 : Z := 0x3B.
Definition LOAD : Z := 0x03.
Definition STORE : Z := 0x23.
Definition BRANCH : Z := 0x63.
Definition LUI : Z := 0x37.
Definition AUIPC : Z := 0x17.

Inductive Fmt := FmtR | FmtI | FmtIShift | FmtIShift32 | FmtStore | FmtBranch | FmtU | FmtUnary.

Record OpSpec := op { name : string; fmt : Fmt; opcode : Z; funct3 : Z; aux : Z }.

Definition touches_memory_or_control (spec : OpSpec) : bool :=
  (opcode spec =? LOAD) || match fmt spec with FmtStore | FmtBranch => true | _ => false end.

Definition OPS : list OpSpec := [
  op "add" FmtR OP 0 0x00;
  op "sub" FmtR OP 0 0x20;
  op "sll" FmtR OP 1 0x00;
  op "slt" FmtR OP 2 0x00;
  op "sltu" FmtR OP 3 0x00;
  op "xor" FmtR OP 4 0x00;
  op "srl" FmtR OP 5 0x00;
  op "sra" FmtR OP 5 0x20;
  op "or" FmtR OP 6 0x00;
  op "and" FmtR OP 7 0x00;
  op "mul" FmtR OP 0 0x01;
  op "mulh" FmtR OP 1 0x01;
  op "mulhsu" FmtR OP 2 0x01;
  op "mulhu" FmtR OP 3 0x01;
  op "div" FmtR OP 4 0x01;
  op "divu" FmtR OP 5 0x01;
  op "rem" FmtR OP 6 0x01;
  op "remu" FmtR OP 7 0x01;
  op "min" FmtR OP 4 0x05;
  op "minu" FmtR OP 5 0x05;
  op "max" FmtR OP 6 0x05;
  op "maxu" FmtR OP 7 0x05;
  op "andn" FmtR OP 7 0x20;
  op "orn" FmtR OP 6 0x20;
  op "xnor" FmtR OP 4 0x20;
  op "rol" FmtR OP 1 0x30;
  op "ror" FmtR OP 5 0x30;
  op "sh1add" FmtR OP 2 0x10;
  op "sh2add" FmtR OP 4 0x10;
  op "sh3add" FmtR OP 6 0x10;
  op "bclr" FmtR OP 1 0x24;
  op "bext" FmtR OP 5 0x24;
  op "binv" FmtR OP 1 0x34;
  op "bset" FmtR OP 1 0x14;
  op "czero.eqz" FmtR OP 5 0x07;
  op "czero.nez" FmtR OP 7 0x07;
  op "addw" FmtR OP_32 0 0x00;
  op "subw" FmtR OP_32 0 0x20;
  op "sllw" FmtR OP_32 1 0x00;
  op "srlw" FmtR OP_32 5 0x00;
  op "sraw" FmtR OP_32 5 0x20;
  op "mulw" FmtR OP_32 0 0x01;
  op "divw" FmtR OP_32 4 0x01;
  op "divuw" FmtR OP_32 5 0x01;
  op "remw" FmtR OP_32 6 0x01;
  op "remuw" FmtR OP_32 7 0x01;
  op "adduw" FmtR OP_32 0 0x04;
  op "sh1add.uw" FmtR OP_32 2 0x10;
  op "sh2add.uw" FmtR OP_32 4 0x10;
  op "sh3add.uw" FmtR OP_32 6 0x10;
  op "rolw" FmtR OP_32 1 0x30;
  op "rorw" FmtR OP_32 5 0x30;
  op "addi" FmtI OP_IMM 0 0;
  op "slti" FmtI OP_IMM 2 0;
  op "sltiu" FmtI OP_IMM 3 0;
  op "xori" FmtI OP_IMM 4 0;
  op "ori" FmtI OP_IMM 6 0;
  op "andi" FmtI OP_IMM 7 0;
  op "addiw" FmtI OP_IMM_32 0 0;
  op "slli" FmtIShift OP_IMM 1 0x00;
  op "srli" FmtIShift OP_IMM 5 0x00;
  op "srai" FmtIShift OP_IMM 5 0x10;
  op "rori" FmtIShift OP_IMM 5 0x18;
  op "bclri" FmtIShift OP_IMM 1 0x12;
  op "bexti" FmtIShift OP_IMM 5 0x12;
  op "bseti" FmtIShift OP_IMM 1 0x0A;
  op "binvi" FmtIShift OP_IMM 1 0x1A;
  op "slliw" FmtIShift32 OP_IMM_32 1 0x00;
  op "srliw" FmtIShift32 OP_IMM_32 5 0x00;
  op "sraiw" FmtIShift32 OP_IMM_32 5 0x20;
  op "roriw" FmtIShift32 OP_IMM_32 5 0x30;
  op "clz" FmtUnary OP_IMM 1 0x600;
  op "ctz" FmtUnary OP_IMM 1 0x601;
  op "cpop" FmtUnary OP_IMM 1 0x602;
  op "sext.b" FmtUnary OP_IMM 1 0x604;
  op "sext.h" FmtUnary OP_IMM 1 0x605;
  op "orc.b" FmtUnary OP_IMM 5 0x287;
  op "rev8" FmtUnary OP_IMM 5 0x6B8;
  op "clzw" FmtUnary OP_IMM_32 1 0x600;
  op "ctzw" FmtUnary OP_IMM_32 1 0x601;
  op "cpopw" FmtUnary OP_IMM_32 1 0x602;
  op "lb" FmtI LOAD 0 0;
  op "lh" FmtI LOAD 1 0;
  op "lw" FmtI LOAD 2 0;
  op "ld" FmtI LOAD 3 0;
  op "lbu" FmtI LOAD 4 0;
  op "lhu" FmtI LOAD 5 0;
  op "lwu" FmtI LOAD 6 0;
  op "sb" FmtStore STORE 0 0;
  op "sh" FmtStore STORE 1 0;
  op "sw" FmtStore STORE 2 0;
  op "sd" FmtStore STORE 3 0;
  op "lui" FmtU LUI 0 0;
  op "auipc" FmtU AUIPC 0 0;
  op "beq" FmtBranch BRANCH 0 0;
  op "bne" FmtBranch BRANCH 1 0;
  op "blt" FmtBranch BRANCH 4 0;
  op "bge" FmtBranch BRANCH 5 0;
  op "bltu" FmtBranch BRANCH 6 0;
  op "bgeu" FmtBranch BRANCH 7 0].

Definition encode_op (spec : OpSpec) (rd rs1 rs2 imm : Z) : Z :=
  match fmt spec with
  | FmtR => r (opcode spec) (aux spec) (funct3 spec) rd rs1 rs2
  | FmtI => i (opcode spec) (funct3 spec) rd rs1 imm
  | FmtIShift =>
      i_shift64 (opcode spec) (funct3 spec) (aux spec) rd rs1 (Z.land (wrap 32 imm) 0x3F)
  | FmtIShift32 =>
      i_shift32 (opcode spec) (funct3 spec) (aux spec) rd rs1 (Z.land (wrap 32 imm) 0x1F)
  | FmtStore => s (opcode spec) (funct3 spec) rs1 rs2 imm
  | FmtBranch => b_ (opcode spec) (funct3 spec) rs1 rs2 imm
  | FmtU => u_ (opcode spec) rd (wrap 32 imm)
  | FmtUnary => i (opcode spec) (funct3 spec) rd rs1 (aux spec)
  end.

(** [enc]: words to a little-endian byte stream. *)
Definition enc (words : list Z) : list Z := flat_map (to_le_bytes 4) words.

(** Named helpers used by the constant materialiser and the signature. *)
Definition HALT : Z := 0x0000200B.
Definition addi (rd rs1 imm : Z) : Z := i OP_IMM 0 rd rs1 imm.
Definition slli (rd rs1 shamt : Z) : Z := i_shift64 OP_IMM 1 0x00 rd rs1 shamt.
Definition sd (rs1 rs2 imm : Z) : Z := s STORE 3 rs1 rs2 imm.

(** [li64]: eleven-bit chunks, most significant first. *)
Definition li64 (rd value : Z) : list Z :=
  let chunk sh := Z.land (Z.shiftr value sh) 0x7FF in
  addi rd 0 (Z.land (Z.shiftr value 55) 0x1FF) ::
  flat_map (fun sh => [slli rd rd 11; addi rd rd (chunk sh)]) [44; 33; 22; 11; 0].

Definition SIG_XREGS : list Z := [1; 2; 5; 6; 7; 8; 9; 10; 11; 12; 13; 14; 15].
Definition SIG_BASE_REG : Z := 3.

Definition signature_epilogue (sig_base : Z) : list Z :=
  li64 SIG_BASE_REG sig_base ++
  imap (fun k xr => sd SIG_BASE_REG xr (Z.of_nat k * 8)) SIG_XREGS.

(** ** What each row means *)

(** The instruction a row of [OPS] stands for, by its mnemonic. *)
Definition inst_of : list (string * (Z -> Z -> Z -> Z -> Inst)) := [
  ("add", fun rd rs1 rs2 _ => Add rd rs1 rs2);
  ("sub", fun rd rs1 rs2 _ => Sub rd rs1 rs2);
  ("sll", fun rd rs1 rs2 _ => Sll rd rs1 rs2);
  ("slt", fun rd rs1 rs2 _ => Slt rd rs1 rs2);
  ("sltu", fun rd rs1 rs2 _ => Sltu rd rs1 rs2);
  ("xor", fun rd rs1 rs2 _ => Xor rd rs1 rs2);
  ("srl", fun rd rs1 rs2 _ => Srl rd rs1 rs2);
  ("sra", fun rd rs1 rs2 _ => Sra rd rs1 rs2);
  ("or", fun rd rs1 rs2 _ => Or rd rs1 rs2);
  ("and", fun rd rs1 rs2 _ => And rd rs1 rs2);
  ("mul", fun rd rs1 rs2 _ => Mul rd rs1 rs2);
  ("mulh", fun rd rs1 rs2 _ => Mulh rd rs1 rs2);
  ("mulhsu", fun rd rs1 rs2 _ => Mulhsu rd rs1 rs2);
  ("mulhu", fun rd rs1 rs2 _ => Mulhu rd rs1 rs2);
  ("div", fun rd rs1 rs2 _ => Div rd rs1 rs2);
  ("divu", fun rd rs1 rs2 _ => Divu rd rs1 rs2);
  ("rem", fun rd rs1 rs2 _ => Rem rd rs1 rs2);
  ("remu", fun rd rs1 rs2 _ => Remu rd rs1 rs2);
  ("min", fun rd rs1 rs2 _ => Min rd rs1 rs2);
  ("minu", fun rd rs1 rs2 _ => Minu rd rs1 rs2);
  ("max", fun rd rs1 rs2 _ => Max rd rs1 rs2);
  ("maxu", fun rd rs1 rs2 _ => Maxu rd rs1 rs2);
  ("andn", fun rd rs1 rs2 _ => Andn rd rs1 rs2);
  ("orn", fun rd rs1 rs2 _ => Orn rd rs1 rs2);
  ("xnor", fun rd rs1 rs2 _ => Xnor rd rs1 rs2);
  ("rol", fun rd rs1 rs2 _ => Rol rd rs1 rs2);
  ("ror", fun rd rs1 rs2 _ => Ror rd rs1 rs2);
  ("sh1add", fun rd rs1 rs2 _ => Sh1add rd rs1 rs2);
  ("sh2add", fun rd rs1 rs2 _ => Sh2add rd rs1 rs2);
  ("sh3add", fun rd rs1 rs2 _ => Sh3add rd rs1 rs2);
  ("bclr", fun rd rs1 rs2 _ => Bclr rd rs1 rs2);
  ("bext", fun rd rs1 rs2 _ => Bext rd rs1 rs2);
  ("binv", fun rd rs1 rs2 _ => Binv rd rs1 rs2);
  ("bset", fun rd rs1 rs2 _ => Bset rd rs1 rs2);
  ("czero.eqz", fun rd rs1 rs2 _ => CzeroEqz rd rs1 rs2);
  ("czero.nez", fun rd rs1 rs2 _ => CzeroNez rd rs1 rs2);
  ("addw", fun rd rs1 rs2 _ => Addw rd rs1 rs2);
  ("subw", fun rd rs1 rs2 _ => Subw rd rs1 rs2);
  ("sllw", fun rd rs1 rs2 _ => Sllw rd rs1 rs2);
  ("srlw", fun rd rs1 rs2 _ => Srlw rd rs1 rs2);
  ("sraw", fun rd rs1 rs2 _ => Sraw rd rs1 rs2);
  ("mulw", fun rd rs1 rs2 _ => Mulw rd rs1 rs2);
  ("divw", fun rd rs1 rs2 _ => Divw rd rs1 rs2);
  ("divuw", fun rd rs1 rs2 _ => Divuw rd rs1 rs2);
  ("remw", fun rd rs1 rs2 _ => Remw rd rs1 rs2);
  ("remuw", fun rd rs1 rs2 _ => Remuw rd rs1 rs2);
  ("adduw", fun rd rs1 rs2 _ => Adduw rd rs1 rs2);
  ("sh1add.uw", fun rd rs1 rs2 _ => Sh1adduw rd rs1 rs2);
  ("sh2add.uw", fun rd rs1 rs2 _ => Sh2adduw rd rs1 rs2);
  ("sh3add.uw", fun rd rs1 rs2 _ => Sh3adduw rd rs1 rs2);
  ("rolw", fun rd rs1 rs2 _ => Rolw rd rs1 rs2);
  ("rorw", fun rd rs1 rs2 _ => Rorw rd rs1 rs2);
  ("addi", fun rd rs1 _ imm => Addi rd rs1 imm);
  ("slti", fun rd rs1 _ imm => Slti rd rs1 imm);
  ("sltiu", fun rd rs1 _ imm => Sltiu rd rs1 imm);
  ("xori", fun rd rs1 _ imm => Xori rd rs1 imm);
  ("ori", fun rd rs1 _ imm => Ori rd rs1 imm);
  ("andi", fun rd rs1 _ imm => Andi rd rs1 imm);
  ("addiw", fun rd rs1 _ imm => Addiw rd rs1 imm);
  ("slli", fun rd rs1 _ imm => Slli rd rs1 imm);
  ("srli", fun rd rs1 _ imm => Srli rd rs1 imm);
  ("srai", fun rd rs1 _ imm => Srai rd rs1 imm);
  ("rori", fun rd rs1 _ imm => Rori rd rs1 imm);
  ("bclri", fun rd rs1 _ imm => Bclri rd rs1 imm);
  ("bexti", fun rd rs1 _ imm => Bexti rd rs1 imm);
  ("bseti", fun rd rs1 _ imm => Bseti rd rs1 imm);
  ("binvi", fun rd rs1 _ imm => Binvi rd rs1 imm);
  ("slliw", fun rd rs1 _ imm => Slliw rd rs1 imm);
  ("srliw", fun rd rs1 _ imm => Srliw rd rs1 imm);
  ("sraiw", fun rd rs1 _ imm => Sraiw rd rs1 imm);
  ("roriw", fun rd rs1 _ imm => Roriw rd rs1 imm);
  ("clz", fun rd rs1 _ _ => Clz rd rs1);
  ("ctz", fun rd rs1 _ _ => Ctz rd rs1);
  ("cpop", fun rd rs1 _ _ => Cpop rd rs1);
  ("sext.b", fun rd rs1 _ _ => SextB rd rs1);
  ("sext.h", fun rd rs1 _ _ => SextH rd rs1);
  ("orc.b", fun rd rs1 _ _ => OrcB rd rs1);
  ("rev8", fun rd rs1 _ _ => Rev8 rd rs1);
  ("clzw", fun rd rs1 _ _ => Clzw rd rs1);
  ("ctzw", fun rd rs1 _ _ => Ctzw rd rs1);
  ("cpopw", fun rd rs1 _ _ => Cpopw rd rs1);
  ("lb", fun rd rs1 _ imm => Lb rd rs1 imm);
  ("lh", fun rd rs1 _ imm => Lh rd rs1 imm);
  ("lw", fun rd rs1 _ imm => Lw rd rs1 imm);
  ("ld", fun rd rs1 _ imm => Ld rd rs1 imm);
  ("lbu", fun rd rs1 _ imm => Lbu rd rs1 imm);
  ("lhu", fun rd rs1 _ imm => Lhu rd rs1 imm);
  ("lwu", fun rd rs1 _ imm => Lwu rd rs1 imm);
  ("sb", fun _ rs1 rs2 imm => Sb rs1 rs2 imm);
  ("sh", fun _ rs1 rs2 imm => Sh rs1 rs2 imm);
  ("sw", fun _ rs1 rs2 imm => Sw rs1 rs2 imm);
  ("sd", fun _ rs1 rs2 imm => Sd rs1 rs2 imm);
  ("lui", fun rd _ _ imm => Lui rd (imm * 4096));
  ("auipc", fun rd _ _ imm => Auipc rd (imm * 4096));
  ("beq", fun _ rs1 rs2 imm => Beq rs1 rs2 imm);
  ("bne", fun _ rs1 rs2 imm => Bne rs1 rs2 imm);
  ("blt", fun _ rs1 rs2 imm => Blt rs1 rs2 imm);
  ("bge", fun _ rs1 rs2 imm => Bge rs1 rs2 imm);
  ("bltu", fun _ rs1 rs2 imm => Bltu rs1 rs2 imm);
  ("bgeu", fun _ rs1 rs2 imm => Bgeu rs1 rs2 imm)].

(** The values of [imm] each format can carry: for [FmtU] the upper twenty
    bits, as a signed value; unused by [FmtR] and [FmtUnary]. *)
Definition imm_fits (f : Fmt) (imm : Z) : Prop :=
  match f with
  | FmtI | FmtStore => - 2048 <= imm < 2048
  | FmtIShift => 0 <= imm < 64
  | FmtIShift32 => 0 <= imm < 32
  | FmtBranch => - 4096 <= imm < 4096 /\ imm mod 2 = 0
  | FmtU => - 524288 <= imm < 524288
  | FmtR | FmtUnary => True
  end.

(** ** Words as sums of their fields *)

Definition word (opc a f3 b t : Z) : Z := opc + 128 * a + 4096 * f3 + 32768 * b + 1048576 * t.

Lemma wrap_shiftl x k : 0 <= k -> 0 <= x -> x * 2 ^ k < 2 ^ 32 -> wrap 32 (Z.shiftl x k) = x * 2 ^ k.
Proof. intros. rewrite Z.shiftl_mul_pow2 by lia. apply wrap_small. unfold is_u. lia. Qed.

Ltac pows := repeat match goal with
  | |- context [2 ^ Zpos ?k] => let v := eval vm_compute in (2 ^ Zpos k) in change (2 ^ Zpos k) with v
  | H : context [2 ^ Zpos ?k] |- _ =>
      let v := eval vm_compute in (2 ^ Zpos k) in change (2 ^ Zpos k) with v in H
  end.

(** [x & (2^k - 1)] as a remainder, for the masks of the encoders. *)
Ltac masks := repeat match goal with
  | |- context [Z.land ?x (Zpos ?m)] =>
      let k := eval vm_compute in (Z.log2 (Zpos m + 1)) in
      change (Z.land x (Zpos m)) with (Z.land x (2 ^ k - 1)); rewrite (land_ones' x k) by lia
  end.

(** Turns the innermost [Z.lor], whose left operand is a multiple of [2^k],
    into a sum. *)
Ltac lor_at k := match goal with
  | |- context [Z.lor ?x ?y] =>
      lazymatch x with context [Z.lor _ _] => fail | _ => idtac end;
      rewrite (lor_disjoint k x y) by (pows; dlia)
  end.

Section Words.
  Context (opc a f3 b : Z).
  Context (Hopc : 0 <= opc < 128) (Ha : 0 <= a < 32) (Hf3 : 0 <= f3 < 8) (Hb : 0 <= b < 32).

Lemma r_word f7 c :
  0 <= c < 32 -> 0 <= f7 < 128 -> r opc f7 f3 a b c = word opc a f3 b (32 * f7 + c).
Proof using Hopc Ha Hf3 Hb.
  intros. unfold r, word. rewrite !wrap_shiftl by (pows; lia).
  lor_at 25. lor_at 20. lor_at 15. lor_at 12. lor_at 7. pows. lia.
Qed.

Lemma i_word imm : i opc f3 a b imm = word opc a f3 b (imm mod 4096).
Proof using Hopc Ha Hf3 Hb.
  unfold i, word. masks. rewrite !wrap_shiftl by (pows; dlia).
  lor_at 20. lor_at 15. lor_at 12. lor_at 7. unfold wrap. pows. dlia.
Qed.

Lemma s_word c imm :
  0 <= c < 32 ->
  s opc f3 b c imm = word opc (imm mod 32) f3 b (32 * (imm / 32 mod 128) + c).
Proof using Hopc Hf3 Hb.
  clear Ha. intros. unfold s, word. cbv zeta. masks. rewrite Z.shiftr_div_pow2 by lia.
  rewrite !wrap_shiftl by (pows; dlia).
  lor_at 25. lor_at 20. lor_at 15. lor_at 12. lor_at 7. unfold wrap. pows. dlia.
Qed.

Lemma b_word c imm :
  0 <= c < 32 ->
  b_ opc f3 b c imm =
  word opc (2 * (imm / 2 mod 16) + imm / 2048 mod 2) f3 b
    (2048 * (imm / 4096 mod 2) + 32 * (imm / 32 mod 64) + c).
Proof using Hopc Hf3 Hb.
  clear Ha. intros. unfold b_, word. cbv zeta. masks. rewrite !Z.shiftr_div_pow2 by lia.
  rewrite !wrap_shiftl by (pows; dlia).
  lor_at 31. lor_at 25. lor_at 20. lor_at 15. lor_at 12. lor_at 8. lor_at 7. unfold wrap. pows. dlia.
Qed.

Lemma u_word imm : u_ opc a imm = opc + 128 * a + 4096 * (imm mod 1048576).
Proof using Hopc Ha.
  clear Hf3 Hb. unfold u_. masks. rewrite !wrap_shiftl by (pows; dlia).
  lor_at 12. lor_at 7. pows. lia.
Qed.

(** ** The fields the decoder extracts from such a word *)

  Context (t : Z) (Ht : 0 <= t < 4096).
  #[local] Abbreviation w := (word opc a f3 b t).

#[local] Ltac field := unfold word; masks; rewrite ?Z.shiftr_div_pow2 by lia; pows; dlia.

Lemma word_u32 : is_u 32 w.
Proof using Hopc Ha Hf3 Hb Ht. unfold is_u, word. pows. lia. Qed.

Lemma word_len : Z.land w 3 = opc mod 4.
Proof using Hopc Ha Hf3 Hb Ht. field. Qed.

Lemma word_major : Z.land (Z.shiftr w 2) 0x1F = opc / 4.
Proof using Hopc Ha Hf3 Hb Ht. field. Qed.

Lemma word_rd : Z.land (Z.shiftr w 7) 0x1F = a.
Proof using Hopc Ha Hf3 Hb Ht. field. Qed.

Lemma word_f3 : Z.land (Z.shiftr w 12) 0x7 = f3.
Proof using Hopc Ha Hf3 Hb Ht. field. Qed.

Lemma word_rs1 : Z.land (Z.shiftr w 15) 0x1F = b.
Proof using Hopc Ha Hf3 Hb Ht. field. Qed.

Lemma word_rs2 : Z.land (Z.shiftr w 20) 0x1F = t mod 32.
Proof using Hopc Ha Hf3 Hb Ht. field. Qed.

Lemma word_shamt : Z.land (Z.shiftr w 20) 0x3F = t mod 64.
Proof using Hopc Ha Hf3 Hb Ht. field. Qed.

Lemma word_f7 : Z.land (Z.shiftr w 25) 0x7F = t / 32.
Proof using Hopc Ha Hf3 Hb Ht. field. Qed.

Lemma word_f6 : Z.land (Z.shiftr w 26) 0x3F = t / 64.
Proof using Hopc Ha Hf3 Hb Ht. field. Qed.

Lemma word_imm_i : imm_i w = sext 12 t.
Proof using Hopc Ha Hf3 Hb Ht.
  unfold imm_i, sext, word. rewrite Z.shiftr_div_pow2 by lia. pows.
  change (2 ^ (32 - 1)) with 2147483648. change (2 ^ (12 - 1)) with 2048.
  destruct (Z.ltb_spec ((opc + 128 * a + 4096 * f3 + 32768 * b + 1048576 * t) mod 4294967296) 2147483648);
  destruct (Z.ltb_spec (t mod 4096) 2048); dlia.
Qed.

Lemma word_imm_s : imm_s w = sext 12 (32 * (t / 32) + a).
Proof using Hopc Ha Hf3 Hb Ht.
  unfold imm_s. rewrite word_f7, word_rd, sx32_sext by lia. cbv zeta.
  rewrite Z.shiftl_mul_pow2 by lia. lor_at 5. f_equal. pows. lia.
Qed.

Lemma word_imm_b :
  imm_b w =
  sext 13 (4096 * (t / 2048) + 2048 * (a mod 2) + 32 * (t / 32 mod 64) + 2 * (a / 2)).
Proof using Hopc Ha Hf3 Hb Ht.
  unfold imm_b. rewrite sx32_sext by lia. cbv zeta. change (32 - 19) with 13. f_equal.
  replace (Z.land (Z.shiftr w 31) 1) with (t / 2048) by field.
  replace (Z.land (Z.shiftr w 7) 1) with (a mod 2) by field.
  replace (Z.land (Z.shiftr w 25) 63) with (t / 32 mod 64) by field.
  replace (Z.land (Z.shiftr w 8) 15) with (a / 2) by field.
  rewrite !Z.shiftl_mul_pow2 by lia. lor_at 12. lor_at 11. lor_at 5. pows. lia.
Qed.
End Words.


(** ** Decoding each format *)

Section Decoded.
  Context (f3 rd rs1 : Z).
  Context (Hf3 : 0 <= f3 < 8) (Hrd : 0 <= rd < 32) (Hrs1 : 0 <= rs1 < 32).

Lemma decode_r_OP f7 rs2 :
  0 <= rs2 < 32 -> 0 <= f7 < 128 ->
  decode_32 (r OP f7 f3 rd rs1 rs2) = decode_op rd rs1 rs2 f3 f7 (r OP f7 f3 rd rs1 rs2).
Proof using Hf3 Hrd Hrs1.
  intros. unfold OP, decode_32. rewrite r_word by lia.
  rewrite word_len, word_major, word_rd, word_rs1, word_rs2, word_f3, word_f7 by lia.
  replace ((32 * f7 + rs2) mod 32) with rs2 by dlia.
  replace ((32 * f7 + rs2) / 32) with f7 by dlia. reflexivity.
Qed.

Lemma decode_r_OP_32 f7 rs2 :
  0 <= rs2 < 32 -> 0 <= f7 < 128 ->
  decode_32 (r OP_32 f7 f3 rd rs1 rs2) = decode_op_32 rd rs1 rs2 f3 f7 (r OP_32 f7 f3 rd rs1 rs2).
Proof using Hf3 Hrd Hrs1.
  intros. unfold OP_32, decode_32. rewrite r_word by lia.
  rewrite word_len, word_major, word_rd, word_rs1, word_rs2, word_f3, word_f7 by lia.
  replace ((32 * f7 + rs2) mod 32) with rs2 by dlia.
  replace ((32 * f7 + rs2) / 32) with f7 by dlia. reflexivity.
Qed.

(** An I-type word is decoded from its opcode, and its immediate fields are the
    bits of [imm]. *)
Lemma decode_i_fields opc imm :
  0 <= opc < 128 -> let w := i opc f3 rd rs1 imm in
  imm_i w = sext 12 imm /\ rs2_field w = imm mod 32 /\
  Z.land (Z.shiftr w 20) 0x1F = imm mod 32 /\
  Z.land (Z.shiftr w 20) 0x3F = imm mod 64 /\
  Z.land (Z.shiftr w 25) 0x7F = imm / 32 mod 128 /\
  Z.land (Z.shiftr w 26) 0x3F = imm / 64 mod 64.
Proof using Hf3 Hrd Hrs1.
  intros. unfold w, rs2_field. rewrite i_word by lia.
  assert (0 <= imm mod 4096 < 4096) by dlia.
  rewrite word_imm_i, word_rs2, word_shamt, word_f7, word_f6 by lia.
  split; [apply (sext_wrap 12 imm); lia|]. repeat split; dlia.
Qed.

Ltac i_type := intros; unfold LOAD, OP_IMM, OP_IMM_32, decode_32; rewrite i_word by lia;
  rewrite word_len, word_major, word_rd, word_rs1, word_f3 by dlia; reflexivity.

Lemma decode_i_LOAD imm :
  decode_32 (i LOAD f3 rd rs1 imm) = decode_load (i LOAD f3 rd rs1 imm) rd rs1 f3.
Proof using Hf3 Hrd Hrs1. i_type. Qed.

Lemma decode_i_OP_IMM imm :
  decode_32 (i OP_IMM f3 rd rs1 imm) = decode_op_imm (i OP_IMM f3 rd rs1 imm) rd rs1 f3.
Proof using Hf3 Hrd Hrs1. i_type. Qed.

Lemma decode_i_OP_IMM_32 imm :
  decode_32 (i OP_IMM_32 f3 rd rs1 imm) = decode_op_imm_32 (i OP_IMM_32 f3 rd rs1 imm) rd rs1 f3.
Proof using Hf3 Hrd Hrs1. i_type. Qed.

Lemma decode_s_STORE rs2 imm :
  0 <= rs2 < 32 -> - 2048 <= imm < 2048 ->
  decode_32 (s STORE f3 rs1 rs2 imm) = decode_store (s STORE f3 rs1 rs2 imm) rs1 rs2 f3 /\
  imm_s (s STORE f3 rs1 rs2 imm) = imm.
Proof using Hf3 Hrs1.
  clear Hrd. intros. unfold STORE, decode_32. rewrite s_word by lia. split.
  - rewrite word_len, word_major, word_rs1, word_rs2, word_f3 by dlia.
    replace ((32 * (imm / 32 mod 128) + rs2) mod 32) with rs2 by dlia. reflexivity.
  - rewrite word_imm_s by dlia.
    replace (32 * ((32 * (imm / 32 mod 128) + rs2) / 32) + imm mod 32) with (imm mod 2 ^ 12)
      by (pows; dlia).
    change (imm mod 2 ^ 12) with (wrap 12 imm). rewrite sext_wrap, sext_id; [done|lia| |lia].
    unfold is_i. cbn. lia.
Qed.

Lemma decode_b_BRANCH rs2 imm :
  0 <= rs2 < 32 -> - 4096 <= imm < 4096 -> imm mod 2 = 0 ->
  decode_32 (b_ BRANCH f3 rs1 rs2 imm) = decode_branch rs1 rs2 f3 imm (b_ BRANCH f3 rs1 rs2 imm).
Proof using Hf3 Hrs1.
  clear Hrd. intros. unfold BRANCH, decode_32. rewrite b_word by lia.
  rewrite word_len, word_major, word_rs1, word_rs2, word_f3, word_imm_b by dlia.
  match goal with |- context [sext 13 ?e] => replace (sext 13 e) with imm end.
  - replace ((_ + rs2) mod 32) with rs2 by dlia. reflexivity.
  - match goal with |- _ = sext 13 ?e => replace e with (wrap 13 imm) by (unfold wrap; pows; dlia) end.
    rewrite sext_wrap, sext_id; [done|lia| |lia]. unfold is_i. cbn. lia.
Qed.
End Decoded.

Lemma decode_u opc rd imm :
  opc = LUI \/ opc = AUIPC -> 0 <= rd < 32 -> - 524288 <= imm < 524288 ->
  decode_32 (u_ opc rd (wrap 32 imm)) =
  if opc =? LUI then Lui rd (imm * 4096) else Auipc rd (imm * 4096).
Proof.
  intros Hopc Hrd Himm. rewrite u_word by (unfold LUI, AUIPC in *; lia). unfold decode_32.
  rewrite land_hi20. masks. rewrite !Z.shiftr_div_pow2 by lia. unfold wrap. pows.
  assert (0 <= opc < 128) by (unfold LUI, AUIPC in *; lia).
  replace (imm mod 4294967296 mod 1048576) with (imm mod 1048576) by dlia.
  assert (0 <= imm mod 1048576 < 1048576) as Hm by dlia. revert Hm.
  change (imm mod 1048576) with (wrap 20 imm).
  assert (forall m, 0 <= m < 1048576 -> let w := opc + 128 * rd + 4096 * m in
    w mod 4 = opc mod 4 /\ w / 4 mod 32 = opc / 4 /\ w / 128 mod 32 = rd /\
    w / 4096 mod 1048576 = m) as F by (intros; unfold w; repeat split; dlia).
  intros Hm. destruct (F _ Hm) as (-> & -> & -> & ->). clear F.
  rewrite sext_shiftl by lia.
  rewrite (sext_wrap 20), (sext_id 20) by (unfold is_i; cbn; lia).
  change (2 ^ 12) with 4096. rewrite (Z.mul_comm 4096 imm). destruct Hopc as [-> | ->]. all: reflexivity.
Qed.

Fixpoint assoc {A} (k : string) (l : list (string * A)) : option A :=
  match l with [] => None | (k', v) :: l' => if String.eqb k k' then Some v else assoc k l' end.

(** Fields of the immediates the shift encoders build. *)
Lemma shift_imm_fields k f sh :
  k = 5 \/ k = 6 -> 0 <= f < 2 ^ (12 - k) -> 0 <= sh < 2 ^ k ->
  Z.lor (Z.shiftl f k) sh = f * 2 ^ k + sh.
Proof.
  intros Hk Hf Hsh. rewrite Z.shiftl_mul_pow2 by lia.
  apply (lor_disjoint k); [lia|apply Z_mod_mult|lia].
Qed.

Lemma i_shift64_i opc f3 f6 rd rs1 imm :
  0 <= f6 < 64 -> 0 <= imm < 64 ->
  i_shift64 opc f3 f6 rd rs1 (Z.land (wrap 32 imm) 0x3F) = i opc f3 rd rs1 (64 * f6 + imm).
Proof.
  intros. unfold i_shift64. rewrite wrap_small by (unfold is_u; pows; lia). masks. pows.
  rewrite !Z.mod_small by dlia. rewrite shift_imm_fields by (cbn; lia). f_equal. pows. lia.
Qed.

Lemma i_shift32_i opc f3 f7 rd rs1 imm :
  0 <= f7 < 128 -> 0 <= imm < 32 ->
  i_shift32 opc f3 f7 rd rs1 (Z.land (wrap 32 imm) 0x1F) = i opc f3 rd rs1 (32 * f7 + imm).
Proof.
  intros. unfold i_shift32. rewrite wrap_small by (unfold is_u; pows; lia). masks. pows.
  rewrite !Z.mod_small by dlia. rewrite shift_imm_fields by (cbn; lia). f_equal. pows. lia.
Qed.


(** Decodes an I-type row: the fields of its immediate are computed first. *)
Ltac row_i :=
  rewrite ?i_shift64_i, ?i_shift32_i by lia;
  rewrite ?decode_i_LOAD, ?decode_i_OP_IMM, ?decode_i_OP_IMM_32 by lia;
  match goal with
  | |- context [i ?opc ?f3 ?rd ?rs1 ?imm] =>
      let F := fresh in
      assert (F := decode_i_fields f3 rd rs1 ltac:(lia) ltac:(lia) ltac:(lia) opc imm
                     ltac:(unfold OP_IMM, OP_IMM_32, LOAD; lia)); cbv zeta in F;
      destruct F as (F1 & F2 & F3 & F4 & F5 & F6);
      unfold decode_load, decode_op_imm, decode_op_imm_32;
      rewrite ?F1, ?F2, ?F3, ?F4, ?F5, ?F6
  end;
  first [ reflexivity
        | rewrite sext_id by (unfold is_i; cbn; lia); reflexivity
        | repeat match goal with
          | |- context [(?c + ?x) mod 64] => replace ((c + x) mod 64) with x by dlia
          | |- context [(?c + ?x) mod 32] => replace ((c + x) mod 32) with x by dlia
          | |- context [(64 * ?c + ?x) / 64 mod 64] => replace ((64 * c + x) / 64 mod 64) with c by dlia
          | |- context [(32 * ?c + ?x) / 32 mod 128] =>
              replace ((32 * c + x) / 32 mod 128) with c by dlia
          end; reflexivity ].

(** Every row of [OPS] decodes to the instruction it stands for. *)
Lemma encode_decode_row spec f rd rs1 rs2 imm :
  In spec OPS -> assoc (name spec) inst_of = Some f ->
  0 <= rd < 32 -> 0 <= rs1 < 32 -> 0 <= rs2 < 32 -> imm_fits (fmt spec) imm ->
  decode_32 (encode_op spec rd rs1 rs2 imm) = f rd rs1 rs2 imm.
Proof.
  intros Hin Hf Hrd Hrs1 Hrs2 Himm.
  repeat (destruct Hin as [<-|Hin];
    [lazy -[Z.mul] in Hf; injection Hf as <-; unfold encode_op;
     cbn [fmt opcode funct3 aux imm_fits] in *|]).
  all: try (rewrite decode_r_OP by lia; reflexivity).
  all: try (rewrite decode_r_OP_32 by lia; reflexivity).
  all: try (rewrite decode_b_BRANCH by lia; reflexivity).
  all: try (rewrite decode_u by auto; reflexivity).
  all: try (match goal with |- decode_32 (s STORE ?f3 _ _ _) = _ =>
      destruct (decode_s_STORE f3 rs1 ltac:(lia) Hrs1 rs2 imm Hrs2 Himm) as [-> E] end;
    unfold decode_store; rewrite E; reflexivity).
  all: try row_i.
  destruct Hin.
Qed.

Lemma OPS_ranges spec :
  In spec OPS -> 0 <= opcode spec < 128 /\ 0 <= funct3 spec < 8 /\
    match fmt spec with
    | FmtR | FmtIShift32 => 0 <= aux spec < 128
    | FmtIShift => 0 <= aux spec < 64
    | _ => True
    end.
Proof.
  intros H. repeat (destruct H as [<-|H]; [cbn; cbv [OP OP_IMM OP_IMM_32 OP_32 LOAD STORE BRANCH LUI AUIPC]; lia|]).
  destruct H.
Qed.

Lemma encode_op_u32 spec rd rs1 rs2 imm :
  In spec OPS -> 0 <= rd < 32 -> 0 <= rs1 < 32 -> 0 <= rs2 < 32 -> imm_fits (fmt spec) imm ->
  is_u 32 (encode_op spec rd rs1 rs2 imm).
Proof.
  intros Hin ? ? ? Hf. destruct (OPS_ranges spec Hin) as (? & ? & Haux).
  unfold encode_op. destruct (fmt spec); cbn [imm_fits] in *.
  1: rewrite r_word by lia; apply word_u32; lia.
  1, 7: rewrite i_word by lia; apply word_u32; dlia.
  1, 2: rewrite ?i_shift64_i, ?i_shift32_i, i_word by lia; apply word_u32; dlia.
  - rewrite s_word by lia. apply word_u32; dlia.
  - rewrite b_word by lia. apply word_u32; dlia.
  - rewrite u_word by lia. unfold is_u. pows. dlia.
Qed.

(** A 32-bit word that is not refused decodes to itself from its bytes. *)
Lemma decode_enc w ws :
  is_u 32 w -> is_Reserved (decode_32 w) = false -> uses_reserved_reg (decode_32 w) = false ->
  decode (enc (w :: ws)) = Some (decode_32 w, 4).
Proof.
  intros Hw Hr Hu. cbn [enc flat_map to_le_bytes app]. unfold decode.
  pose proof (from_to_le_bytes 4 w) as E. cbn [to_le_bytes] in E. rewrite E.
  change (8 * Z.of_nat 4) with 32. rewrite (wrap_small 32) by done.
  assert (Z.land w 3 = 3) as H3.
  { revert Hr. unfold decode_32. by destruct (Z.eqb_spec (Z.land w 3) 3). }
  assert (Z.land (from_le_bytes [w mod 256; w / 256 mod 256]) 3 = 3) as ->.
  { revert H3. cbn [from_le_bytes]. masks. pows. intros. dlia. }
  cbn. unfold reserve_if_reserved_reg. by rewrite Hu.
Qed.

Lemma inst_of_regs spec f rd rs1 rs2 imm :
  In spec OPS -> assoc (name spec) inst_of = Some f ->
  0 <= rd < 16 -> 0 <= rs1 < 16 -> 0 <= rs2 < 16 ->
  is_Reserved (f rd rs1 rs2 imm) = false /\ uses_reserved_reg (f rd rs1 rs2 imm) = false.
Proof.
  intros Hin Hf Hrd Hrs1 Hrs2.
  assert (forall x, 0 <= x < 16 -> reg_is_reserved x = false) as R.
  { intros x Hx. rewrite reg_is_reserved_spec by lia. lia. }
  repeat (destruct Hin as [<-|Hin];
    [lazy -[Z.mul] in Hf; injection Hf as <-; cbn; rewrite ?(R rd), ?(R rs1), ?(R rs2) by lia; done|]).
  destruct Hin.
Qed.

(** C36: encode/decode round trip. For every row of [OPS], every register
    [x0..x15] and every immediate the row's format can carry, the bytes the
    encoder emits decode, with whatever follows them, to exactly the instruction
    the mnemonic names with exactly those operands, and four bytes are used. *)
Theorem encode_op_roundtrip spec rd rs1 rs2 imm ws :
  In spec OPS -> 0 <= rd < 16 -> 0 <= rs1 < 16 -> 0 <= rs2 < 16 -> imm_fits (fmt spec) imm ->
  exists f, assoc (name spec) inst_of = Some f /\
    decode (enc (encode_op spec rd rs1 rs2 imm :: ws)) = Some (f rd rs1 rs2 imm, 4).
Proof.
  intros Hin ? ? ? Hi.
  assert (exists f, assoc (name spec) inst_of = Some f) as [f Hf].
  { clear - Hin. repeat (destruct Hin as [<-|Hin]; [eexists; lazy -[Z.mul]; reflexivity|]). destruct Hin. }
  exists f. split; [done|].
  destruct (inst_of_regs spec f rd rs1 rs2 imm) as [Hr Hu]; try done.
  pose proof (encode_decode_row spec f rd rs1 rs2 imm Hin Hf ltac:(lia) ltac:(lia) ltac:(lia) Hi) as E.
  rewrite <- E in *. apply decode_enc; [|done..]. apply encode_op_u32; (done || lia).
Qed.

Lemma encode_op_roundtrip_witness :
  exists f, assoc "beq" inst_of = Some f /\
    decode (enc [encode_op (op "beq" FmtBranch BRANCH 0 0) 0 10 11 (-8)]) = Some (f 0 10 11 (-8), 4).
Proof.
  apply (encode_op_roundtrip (op "beq" FmtBranch BRANCH 0 0) 0 10 11 (-8) []); try lia.
  - cbv [OPS In]. tauto.
  - cbn. split; [lia|reflexivity].
Defined.

(** [slli.uw] has a six-bit shift amount and the selector [funct6 = 000010]
    in the ISA; the decoder compares all of [funct7], so the encodings with a
    shift amount of 32 or more are refused while those below 32 decode. *)
Theorem slliuw_upper_half_reserved rd rs1 shamt :
  0 <= rd < 16 -> 0 <= rs1 < 16 -> 0 <= shamt < 64 ->
  decode_32 (i_shift64 OP_IMM_32 1 0x02 rd rs1 shamt) =
  if shamt <? 32 then Slliuw rd rs1 shamt
  else Reserved (i_shift64 OP_IMM_32 1 0x02 rd rs1 shamt).
Proof.
  intros ? ? Hs.
  replace (i_shift64 OP_IMM_32 1 2 rd rs1 shamt) with (i OP_IMM_32 1 rd rs1 (64 * 2 + shamt)).
  - rewrite decode_i_OP_IMM_32 by lia. unfold decode_op_imm_32.
    destruct (decode_i_fields 1 rd rs1 ltac:(lia) ltac:(lia) ltac:(lia) OP_IMM_32 (64 * 2 + shamt)
      ltac:(unfold OP_IMM_32; lia)) as (_ & F2 & _ & F4 & F5 & _).
    rewrite F4, F5. destruct (Z.ltb_spec shamt 32).
    + replace ((64 * 2 + shamt) / 32 mod 128) with 4 by dlia.
      by replace ((64 * 2 + shamt) mod 64) with shamt by dlia.
    + by replace ((64 * 2 + shamt) / 32 mod 128) with 5 by dlia.
  - rewrite <- i_shift64_i by lia. f_equal. rewrite wrap_small by (unfold is_u; pows; lia).
    masks. pows. apply Z.mod_small. lia.
Qed.

Lemma slliuw_upper_half_reserved_witness :
  decode_32 (i_shift64 OP_IMM_32 1 0x02 10 11 40) = Reserved (i_shift64 OP_IMM_32 1 0x02 10 11 40).
Proof. apply (slliuw_upper_half_reserved 10 11 40); lia. Defined.
