(* ===== verification/GasSim.v ===== *)
(** * Single-pass pipeline gas simulator

    Models [nub/nub-exec/src/gas_sim.rs]. The simulator keeps, per register
    slot, the cycle its value is ready, the decode cycle and the slots used in
    it, and the latest completion. [u32] additions wrap (the release profile);
    the bounds below say when they do not. *)

From S2P Require Import Prelude MachineInt.

(** [FastCost] of [gas_cost.rs], the input of [feed]. *)
Record FastCost := mkFastCost {
  fc_cycles : Z; fc_decode_slots : Z; fc_exec_unit : Z;
  fc_src_mask : Z; fc_dst_mask : Z; fc_is_terminator : bool; fc_is_move_reg : bool }.

Record GasSimulator := mkSim {
  reg_done : list Z; cycle : Z; decode_used : Z; max_done : Z }.

Definition sim_new : GasSimulator := mkSim (replicate 15 0) 0 0 0.

(** The decode step shared by both entry points: a new cycle starts only when
    all four slots of the current one are consumed. *)
Definition decode_step (s : GasSimulator) (slots : Z) : GasSimulator :=
  if 4 <=? decode_used s
  then mkSim (reg_done s) (wrapping_add 32 (cycle s) 1) slots (max_done s)
  else mkSim (reg_done s) (cycle s) (wrapping_add 8 (decode_used s) slots) (max_done s).

(** [start.max(self.reg_done[r])] behind the [r < 15] test. *)
Definition dep (s : GasSimulator) (start r : Z) : Z :=
  if r <? 15 then Z.max start (nth (Z.to_nat r) (reg_done s) 0) else start.

(** [self.reg_done[r] = done] behind the [r < 15] test. *)
Definition set_done (rd : list Z) (r done : Z) : list Z :=
  if r <? 15 then <[Z.to_nat r := done]> rd else rd.

Definition feed_direct (s : GasSimulator) (cycles decode_slots src1 src2 dst : Z) : GasSimulator :=
  let s := decode_step s decode_slots in
  let start := dep s (dep s (cycle s) src1) src2 in
  let done := wrapping_add 32 start cycles in
  mkSim (set_done (reg_done s) dst done) (cycle s) (decode_used s) (Z.max (max_done s) done).

(** [while mask != 0 { r = mask.trailing_zeros(); mask &= mask - 1; body(r) }]
    on a [u16]: at most sixteen iterations. *)
Fixpoint for_bits {A} (fuel : nat) (mask : Z) (body : A -> Z -> A) (a : A) : A :=
  match fuel with
  | O => a
  | S fuel' =>
      if mask =? 0 then a
      else for_bits fuel' (Z.land mask (mask - 1)) body (body a (trailing_zeros 16 mask))
  end.

Definition feed (s : GasSimulator) (cost : FastCost) : GasSimulator :=
  let s := decode_step s (fc_decode_slots cost) in
  if fc_is_move_reg cost then
    let src_reg := trailing_zeros 16 (fc_src_mask cost) in
    let dst_reg := trailing_zeros 16 (fc_dst_mask cost) in
    if (src_reg <? 15) && (dst_reg <? 15)
    then mkSim (set_done (reg_done s) dst_reg (nth (Z.to_nat src_reg) (reg_done s) 0))
           (cycle s) (decode_used s) (max_done s)
    else s
  else
    let start := for_bits 16 (fc_src_mask cost) (dep s) (cycle s) in
    let done := wrapping_add 32 start (fc_cycles cost) in
    let rd := for_bits 16 (fc_dst_mask cost) (fun rd r => set_done rd r done) (reg_done s) in
    mkSim rd (cycle s) (decode_used s) (Z.max (max_done s) done).

Definition flush_and_get_cost (s : GasSimulator) : Z :=
  if 3 <? max_done s then max_done s - 3 else 1.

Definition sim_reset (s : GasSimulator) : GasSimulator := sim_new.

(** ** The bit loops *)

(** The bits the loop visits, in order. *)
Definition bits_of (mask : Z) : list Z := for_bits 16 mask (fun l r => l ++ [r]) [].

Lemma for_bits_app fuel mask acc :
  for_bits fuel mask (fun l r => l ++ [r]) acc = acc ++ for_bits fuel mask (fun l r => l ++ [r]) [].
Proof.
  revert mask acc. induction fuel as [|n IH]; intros mask acc; cbn.
  - by rewrite app_nil_r.
  - destruct (mask =? 0); [by rewrite app_nil_r|].
    rewrite IH, (IH _ [_]), app_assoc. done.
Qed.

Lemma for_bits_fold {A} (body : A -> Z -> A) mask a :
  for_bits 16 mask body a = fold_left body (bits_of mask) a.
Proof.
  unfold bits_of. generalize 16%nat as n. intros n. revert mask a.
  induction n as [|n IH]; intros mask a; cbn; [done|].
  destruct (mask =? 0); [done|]. rewrite IH, (for_bits_app _ _ [_]). done.
Qed.

(** Mask of up to two register slots, [0xFF] standing for none. *)
Definition slot_bit (r : Z) : Z := if r <? 15 then Z.shiftl 1 r else 0.
Definition slot_mask (r1 r2 : Z) : Z := Z.lor (slot_bit r1) (slot_bit r2).

Definition is_slot (r : Z) : Prop := 0 <= r < 15 \/ r = 0xFF.

Definition all_slots : list Z := 0xFF :: map Z.of_nat (seq 0 15).

Lemma is_slot_in r : is_slot r -> In r all_slots.
Proof.
  intros [H| ->]; [right|by left]. apply in_map_iff. exists (Z.to_nat r).
  split; [lia|]. apply in_seq. lia.
Qed.

(** The loop over a two-register mask visits each register once, lowest first. *)
Definition expected_bits (r1 r2 : Z) : list Z :=
  if r1 =? 0xFF then (if r2 =? 0xFF then [] else [r2])
  else if r2 =? 0xFF then [r1]
  else if r1 =? r2 then [r1]
  else [Z.min r1 r2; Z.max r1 r2].

Lemma bits_of_slot_mask_check :
  forallb (fun r1 => forallb (fun r2 =>
    bool_decide (bits_of (slot_mask r1 r2) = expected_bits r1 r2)) all_slots) all_slots = true.
Proof. vm_compute. reflexivity. Qed.

Lemma bits_of_slot_mask r1 r2 :
  is_slot r1 -> is_slot r2 -> bits_of (slot_mask r1 r2) = expected_bits r1 r2.
Proof.
  intros H1%is_slot_in H2%is_slot_in. pose proof bits_of_slot_mask_check as H.
  rewrite forallb_forall in H. specialize (H r1 H1). cbv beta in H. rewrite forallb_forall in H.
  specialize (H r2 H2). exact (proj1 (bool_decide_eq_true _) H).
Qed.

(** ** The two entry points agree *)

Lemma for_bits_dep s start r1 r2 :
  is_slot r1 -> is_slot r2 ->
  for_bits 16 (slot_mask r1 r2) (dep s) start = dep s (dep s start r1) r2.
Proof.
  intros H1 H2. rewrite for_bits_fold, bits_of_slot_mask by done. unfold expected_bits.
  assert (dep s start 0xFF = start) as E by done.
  assert (forall x, dep s x 0xFF = x) as E' by done.
  destruct (Z.eqb_spec r1 0xFF) as [->|]; [by destruct (Z.eqb_spec r2 0xFF) as [->|]|].
  destruct (Z.eqb_spec r2 0xFF) as [->|]; [done|].
  destruct (Z.eqb_spec r1 r2) as [->|]; cbn [fold_left]; unfold dep.
  - destruct (r2 <? 15); lia.
  - destruct H1 as [H1|], H2 as [H2|]; try lia.
    destruct (Z.min_spec r1 r2) as [[? ->]|[? ->]], (Z.max_spec r1 r2) as [[? ->]|[? ->]]; try lia.
    all: destruct (Z.ltb_spec r1 15), (Z.ltb_spec r2 15); lia.
Qed.

Lemma for_bits_set_done rd r done :
  is_slot r ->
  for_bits 16 (slot_mask r 0xFF) (fun rd r => set_done rd r done) rd = set_done rd r done.
Proof.
  intros H. rewrite for_bits_fold, bits_of_slot_mask by (done || by right). unfold expected_bits.
  destruct (Z.eqb_spec r 0xFF) as [->|]; done.
Qed.

(** The fast path is the full simulator. For an instruction that is not a
    register move, with at most two source slots and one destination slot
    ([0xFF] for none), feeding the slots directly leaves the simulator in
    exactly the state that feeding the equivalent bit-mask cost does. *)
Theorem feed_direct_is_feed s cycles slots eu src1 src2 dst term :
  is_slot src1 -> is_slot src2 -> is_slot dst ->
  feed s (mkFastCost cycles slots eu (slot_mask src1 src2) (slot_mask dst 0xFF) term false) =
  feed_direct s cycles slots src1 src2 dst.
Proof.
  intros. unfold feed, feed_direct. cbn [fc_is_move_reg fc_src_mask fc_dst_mask fc_cycles fc_decode_slots].
  cbv zeta. rewrite for_bits_dep, for_bits_set_done by done. done.
Qed.

Lemma feed_direct_is_feed_witness :
  feed sim_new (mkFastCost 3 2 1 (slot_mask 4 13) (slot_mask 7 0xFF) false false) =
  feed_direct sim_new 3 2 4 13 7.
Proof. apply (feed_direct_is_feed sim_new 3 2 1 4 13 7 false); left; lia. Defined.

(** ** Bounds *)

(** The simulator after [k] instructions of at most [255] cycles and one to
    four decode slots: everything is at most [256 * k] cycles, and four
    instructions at most share a decode cycle. *)
Record sim_bounds (k : Z) (s : GasSimulator) : Prop := {
  sb_len : length (reg_done s) = 15%nat;
  sb_regs : Forall (fun d => 0 <= d <= 256 * k) (reg_done s);
  sb_cycle : 0 <= cycle s <= k;
  sb_used : 0 <= decode_used s <= 7;
  sb_max : 0 <= max_done s <= 256 * k;
  sb_pack : k <= 4 * cycle s + Z.min 4 (decode_used s);
  sb_late : 0 < k -> cycle s + 1 <= max_done s }.

Lemma sim_new_bounds : sim_bounds 0 sim_new.
Proof. split; cbn; try lia. repeat (constructor; [lia|]). constructor. Qed.

Lemma dep_range k s start r :
  sim_bounds k s -> start <= dep s start r <= Z.max start (256 * k).
Proof.
  intros B. unfold dep. destruct (Z.ltb_spec r 15); [|lia].
  assert (forall i, nth i (reg_done s) 0 <= 256 * k) as N.
  { intros i. destruct (nth_in_or_default i (reg_done s) 0) as [Hin| ->].
    - pose proof (sb_regs k s B) as F. rewrite Forall_forall in F.
      specialize (F _ Hin). lia.
    - pose proof (sb_max k s B). lia. }
  specialize (N (Z.to_nat r)). lia.
Qed.

Lemma decode_step_bounds k s slots :
  sim_bounds k s -> k < 2 ^ 32 - 1 -> 1 <= slots <= 4 ->
  let s' := decode_step s slots in
  reg_done s' = reg_done s /\ max_done s' = max_done s /\
  cycle s <= cycle s' <= k + 1 /\ 0 <= decode_used s' <= 7 /\
  k + 1 <= 4 * cycle s' + Z.min 4 (decode_used s').
Proof.
  intros B Hk Hs. destruct B. unfold decode_step, wrapping_add.
  destruct (Z.leb_spec 4 (decode_used s)); cbn [reg_done cycle decode_used max_done].
  - rewrite wrap_small by (unfold is_u; lia). repeat split; lia.
  - rewrite wrap_small by (unfold is_u; lia). repeat split; lia.
Qed.

Lemma set_done_bounds b rd r done :
  Forall (fun d => 0 <= d <= b) rd -> 0 <= done <= b ->
  Forall (fun d => 0 <= d <= b) (set_done rd r done).
Proof. intros. unfold set_done. destruct (r <? 15); [|done]. by apply Forall_insert. Qed.

Lemma feed_direct_bounds k s cycles slots src1 src2 dst :
  sim_bounds k s -> 256 * (k + 1) < 2 ^ 32 -> 1 <= cycles <= 255 -> 1 <= slots <= 4 ->
  sim_bounds (k + 1) (feed_direct s cycles slots src1 src2 dst).
Proof.
  intros B Hk Hc Hs.
  destruct (decode_step_bounds k s slots B) as (Er & Em & Hcy & Hu & Hp); [destruct B; lia|lia|].
  unfold feed_direct. cbv zeta. set (s' := decode_step s slots) in *.
  assert (forall start r, start <= dep s' start r <= Z.max start (256 * k)) as D.
  { intros start r. unfold dep. rewrite Er. apply (dep_range k s start r B). }
  pose proof (D (cycle s') src1) as D1. pose proof (D (dep s' (cycle s') src1) src2) as D2.
  unfold wrapping_add. rewrite wrap_small by (destruct B; unfold is_u; lia).
  destruct B. split; cbn [reg_done cycle decode_used max_done]; try lia.
  - unfold set_done. destruct (dst <? 15); rewrite ?length_insert, Er; done.
  - apply set_done_bounds; [|lia]. rewrite Er. eapply Forall_impl; [|exact sb_regs0]. cbn. lia.
Qed.

(** ** The pipeline on unbounded integers *)

Definition decode_step_exact (s : GasSimulator) (slots : Z) : GasSimulator :=
  if 4 <=? decode_used s
  then mkSim (reg_done s) (cycle s + 1) slots (max_done s)
  else mkSim (reg_done s) (cycle s) (decode_used s + slots) (max_done s).

Definition feed_exact (s : GasSimulator) (cycles decode_slots src1 src2 dst : Z) : GasSimulator :=
  let s := decode_step_exact s decode_slots in
  let start := dep s (dep s (cycle s) src1) src2 in
  let done := start + cycles in
  mkSim (set_done (reg_done s) dst done) (cycle s) (decode_used s) (Z.max (max_done s) done).

(** Within the bounds no addition of a feed wraps. *)
Lemma feed_direct_exact k s cycles slots src1 src2 dst :
  sim_bounds k s -> 256 * (k + 1) < 2 ^ 32 -> 1 <= cycles <= 255 -> 1 <= slots <= 4 ->
  feed_direct s cycles slots src1 src2 dst = feed_exact s cycles slots src1 src2 dst.
Proof.
  intros B Hk Hc Hs.
  destruct (decode_step_bounds k s slots B) as (Er & Em & Hcy & Hu & Hp); [destruct B; lia|lia|].
  assert (decode_step s slots = decode_step_exact s slots) as E.
  { unfold decode_step, decode_step_exact, wrapping_add. destruct B.
    destruct (4 <=? decode_used s); rewrite wrap_small by (unfold is_u; lia); done. }
  unfold feed_direct, feed_exact. cbv zeta. rewrite <- E. set (s' := decode_step s slots) in *.
  assert (forall start r, start <= dep s' start r <= Z.max start (256 * k)) as D.
  { intros start r. unfold dep. rewrite Er. apply (dep_range k s start r B). }
  pose proof (D (cycle s') src1) as D1. pose proof (D (dep s' (cycle s') src1) src2) as D2.
  unfold wrapping_add. by rewrite wrap_small by (destruct B; unfold is_u; lia).
Qed.

Lemma flush_bounds k s :
  sim_bounds k s -> 0 < k ->
  1 <= flush_and_get_cost s <= 256 * k /\ k - 12 <= 4 * flush_and_get_cost s.
Proof.
  intros [] Hk. unfold flush_and_get_cost. destruct (Z.ltb_spec 3 (max_done s)); lia.
Qed.
