(* ===== verification/GasCost.v ===== *)
(** * Per-block gas costs

    Models [nub/nub-exec/src/gas_cost.rs]: the kinds, the cost table, the
    per-instruction metadata, the feed of one instruction into the simulator,
    and the cost and reserve of a basic block. The two record types of
    [predecode.rs] these functions take are declared here. *)

From S2P Require Import Prelude MachineInt Engine GasConst Instruction InstructionFacts GasSim.

(** ** Types shared with the predecoder *)

Record RvGasMeta := mkMeta { kind : Z; src1_slot : Z; src2_slot : Z; dst_slot : Z }.

Record RvPreDecodedInst := mkPre {
  inst : Inst; pc : Z; next_pc : Z; is_gas_block_start : bool; gas_meta : RvGasMeta }.

(** ** The cost table *)

Definition EU_NONE : Z := 0.
Definition EU_ALU : Z := 1.
Definition EU_LOAD : Z := 2.
Definition EU_STORE : Z := 3.
Definition EU_MUL : Z := 4.
Definition EU_DIV : Z := 5.

Definition DEFAULT_MEM_CYCLES : Z := 25.

Definition RVF_TERM : Z := 1.
Definition RVF_OVERLAP_DST_SRC : Z := 2.
Definition RVF_OVERLAP_RS1_RD : Z := 4.

Record RvGasCostEntry := mkEntry {
  e_cycles : Z; e_decode_slots : Z; e_exec_unit : Z; e_src_pat : Z; e_dst_pat : Z;
  e_flags : Z; e_overlap_slots : Z }.

Definition rgc (cycles decode_slots exec_unit src_pat dst_pat flags : Z) : RvGasCostEntry :=
  mkEntry cycles decode_slots exec_unit src_pat dst_pat flags 0.

Definition rgc_ov (cycles overlap_if overlap_no exec_unit src_pat dst_pat flags : Z) : RvGasCostEntry :=
  mkEntry cycles 0 exec_unit src_pat dst_pat flags
    (Z.lor overlap_if (wrap 8 (Z.shiftl overlap_no 4))).

Definition RV_KIND_RESERVED : Z := 0.
Definition RV_KIND_TRAP : Z := 1.
Definition RV_KIND_FALLTHROUGH : Z := 2.
Definition RV_KIND_ECALL_JAR : Z := 3.
Definition RV_KIND_ECALLI : Z := 4.
Definition RV_KIND_JALR : Z := 5.
Definition RV_KIND_FENCE : Z := 6.
Definition RV_KIND_JAL : Z := 7.
Definition RV_KIND_BRANCH : Z := 8.
Definition RV_KIND_LOAD : Z := 9.
Definition RV_KIND_STORE : Z := 10.
Definition RV_KIND_LUI : Z := 11.
Definition RV_KIND_ADDI : Z := 12.
Definition RV_KIND_ADDIW : Z := 13.
Definition RV_KIND_ADD : Z := 14.
Definition RV_KIND_SLL : Z := 15.
Definition RV_KIND_SLT : Z := 16.
Definition RV_KIND_ADDW : Z := 17.
Definition RV_KIND_SLLW : Z := 18.
Definition RV_KIND_MUL : Z := 19.
Definition RV_KIND_MULW : Z := 20.
Definition RV_KIND_MULH : Z := 21.
Definition RV_KIND_MULHSU : Z := 22.
Definition RV_KIND_DIV : Z := 23.
Definition RV_KIND_ZBB_U1 : Z := 24.
Definition RV_KIND_ZBB_CTZ : Z := 25.
Definition RV_KIND_ZBB_MINMAX : Z := 26.
Definition RV_KIND_ZBB_INV : Z := 27.
Definition RV_KIND_ZBB_XNOR : Z := 28.
Definition RV_KIND_ZBB_ROT : Z := 29.
Definition RV_KIND_ZBB_RORI : Z := 30.
Definition RV_KIND_ZBB_ROTW : Z := 31.
Definition RV_KIND_ZBB_RORIW : Z := 32.
Definition RV_KIND_ZBA : Z := 33.
Definition RV_KIND_ZBA_IMM : Z := 34.
Definition RV_KIND_ZBS : Z := 35.
Definition RV_KIND_ZBS_IMM : Z := 36.
Definition RV_KIND_ZICOND : Z := 37.

Definition RV_LUT_LEN : nat := 64.

(** The rows the initialiser writes, in order, over the default row. *)
Definition RV_GAS_COST_LUT : list RvGasCostEntry :=
  let d := rgc 2 1 EU_NONE 0 0 RVF_TERM in
  fold_left (fun t '(k, e) => <[Z.to_nat k := e]> t) [
    (RV_KIND_RESERVED, rgc 2 1 EU_NONE 0 0 RVF_TERM);
    (RV_KIND_TRAP, rgc 2 1 EU_NONE 0 0 RVF_TERM);
    (RV_KIND_FALLTHROUGH, rgc 2 1 EU_NONE 0 0 RVF_TERM);
    (RV_KIND_ECALL_JAR, rgc 100 4 EU_ALU 0 0 RVF_TERM);
    (RV_KIND_ECALLI, rgc 100 4 EU_ALU 0 0 RVF_TERM);
    (RV_KIND_JALR, rgc 22 1 EU_ALU 1 0 RVF_TERM);
    (RV_KIND_FENCE, rgc 1 1 EU_NONE 0 0 0);
    (RV_KIND_JAL, rgc 15 1 EU_ALU 0 1 RVF_TERM);
    (RV_KIND_BRANCH, rgc 20 1 EU_ALU 2 0 RVF_TERM);
    (RV_KIND_LOAD, rgc 25 1 EU_LOAD 1 1 0);
    (RV_KIND_STORE, rgc 25 1 EU_STORE 2 0 0);
    (RV_KIND_LUI, rgc 1 2 EU_NONE 0 1 0);
    (RV_KIND_ADDI, rgc_ov 1 1 2 EU_ALU 1 1 RVF_OVERLAP_DST_SRC);
    (RV_KIND_ADDIW, rgc_ov 2 2 3 EU_ALU 1 1 RVF_OVERLAP_DST_SRC);
    (RV_KIND_ADD, rgc_ov 1 1 2 EU_ALU 2 1 RVF_OVERLAP_DST_SRC);
    (RV_KIND_SLL, rgc_ov 1 2 3 EU_ALU 2 1 RVF_OVERLAP_RS1_RD);
    (RV_KIND_SLT, rgc 3 3 EU_ALU 2 1 0);
    (RV_KIND_ADDW, rgc_ov 2 2 3 EU_ALU 2 1 RVF_OVERLAP_DST_SRC);
    (RV_KIND_SLLW, rgc_ov 2 3 4 EU_ALU 2 1 RVF_OVERLAP_RS1_RD);
    (RV_KIND_MUL, rgc_ov 3 1 2 EU_MUL 2 1 RVF_OVERLAP_DST_SRC);
    (RV_KIND_MULW, rgc_ov 4 2 3 EU_MUL 2 1 RVF_OVERLAP_DST_SRC);
    (RV_KIND_MULH, rgc 4 4 EU_MUL 2 1 0);
    (RV_KIND_MULHSU, rgc 6 4 EU_MUL 2 1 0);
    (RV_KIND_DIV, rgc 60 4 EU_DIV 2 1 0);
    (RV_KIND_ZBB_U1, rgc 1 1 EU_ALU 1 1 0);
    (RV_KIND_ZBB_CTZ, rgc 2 1 EU_ALU 1 1 0);
    (RV_KIND_ZBB_MINMAX, rgc_ov 3 2 3 EU_ALU 2 1 RVF_OVERLAP_DST_SRC);
    (RV_KIND_ZBB_INV, rgc 2 3 EU_ALU 2 1 0);
    (RV_KIND_ZBB_XNOR, rgc_ov 2 2 3 EU_ALU 2 1 RVF_OVERLAP_DST_SRC);
    (RV_KIND_ZBB_ROT, rgc_ov 1 2 3 EU_ALU 2 1 RVF_OVERLAP_RS1_RD);
    (RV_KIND_ZBB_RORI, rgc_ov 1 1 2 EU_ALU 1 1 RVF_OVERLAP_DST_SRC);
    (RV_KIND_ZBB_ROTW, rgc_ov 2 3 4 EU_ALU 2 1 RVF_OVERLAP_RS1_RD);
    (RV_KIND_ZBB_RORIW, rgc_ov 2 2 3 EU_ALU 1 1 RVF_OVERLAP_DST_SRC);
    (RV_KIND_ZBA, rgc_ov 1 1 2 EU_ALU 2 1 RVF_OVERLAP_DST_SRC);
    (RV_KIND_ZBA_IMM, rgc_ov 1 1 2 EU_ALU 1 1 RVF_OVERLAP_DST_SRC);
    (RV_KIND_ZBS, rgc_ov 1 1 2 EU_ALU 2 1 RVF_OVERLAP_DST_SRC);
    (RV_KIND_ZBS_IMM, rgc_ov 1 1 2 EU_ALU 1 1 RVF_OVERLAP_DST_SRC);
    (RV_KIND_ZICOND, rgc 2 2 EU_ALU 2 1 0)]
    (replicate RV_LUT_LEN d).

(** [RV_GAS_COST_LUT[kind as usize]]; every kind is below [RV_LUT_LEN]. *)
Definition lut (k : Z) : RvGasCostEntry :=
  nth (Z.to_nat k) RV_GAS_COST_LUT (rgc 0 0 0 0 0 0).

Definition rv_slot_u8 (r : Z) : Z := reg_slot_or_ff r.

Definition is_spilled_slot (slot : Z) : bool := (slot =? 13) || (slot =? 14).

Definition rv_op_metadata (i : Inst) : Z * Z * Z * Z :=
  match i with
  | Trap => (RV_KIND_TRAP, 0, 0, 0)
  | Fallthrough => (RV_KIND_FALLTHROUGH, 0, 0, 0)
  | EcallJar => (RV_KIND_ECALL_JAR, 0, 0, 0)
  | Ecalli _ => (RV_KIND_ECALLI, 0, 0, 0)
  | Fence | FenceI => (RV_KIND_FENCE, 0, 0, 0)
  | Reserved _ => (RV_KIND_RESERVED, 0, 0, 0)
  | Jal rd _ => (RV_KIND_JAL, 0, 0, rd)
  | Jalr _ rs1 _ => (RV_KIND_JALR, rs1, 0, 0)
  | Beq rs1 rs2 _ | Bne rs1 rs2 _ | Blt rs1 rs2 _ | Bge rs1 rs2 _ | Bltu rs1 rs2 _
  | Bgeu rs1 rs2 _ => (RV_KIND_BRANCH, rs1, rs2, 0)
  | Lb rd rs1 _ | Lh rd rs1 _ | Lw rd rs1 _ | Ld rd rs1 _ | Lbu rd rs1 _ | Lhu rd rs1 _
  | Lwu rd rs1 _ => (RV_KIND_LOAD, rs1, 0, rd)
  | Sb rs1 rs2 _ | Sh rs1 rs2 _ | Sw rs1 rs2 _ | Sd rs1 rs2 _ => (RV_KIND_STORE, rs1, rs2, 0)
  | Lui rd _ => (RV_KIND_LUI, 0, 0, rd)
  | Auipc rd _ => (RV_KIND_LUI, 0, 0, rd)
  | Addi rd rs1 _ | Andi rd rs1 _ | Ori rd rs1 _ | Xori rd rs1 _ | Sltiu rd rs1 _
  | Slti rd rs1 _ | Slli rd rs1 _ | Srli rd rs1 _ | Srai rd rs1 _ => (RV_KIND_ADDI, rs1, 0, rd)
  | Addiw rd rs1 _ | Slliw rd rs1 _ | Srliw rd rs1 _ | Sraiw rd rs1 _ => (RV_KIND_ADDIW, rs1, 0, rd)
  | Add rd rs1 rs2 | Sub rd rs1 rs2 | And rd rs1 rs2 | Or rd rs1 rs2 | Xor rd rs1 rs2 => (RV_KIND_ADD, rs1, rs2, rd)
  | Sll rd rs1 rs2 | Srl rd rs1 rs2 | Sra rd rs1 rs2 => (RV_KIND_SLL, rs1, rs2, rd)
  | Slt rd rs1 rs2 | Sltu rd rs1 rs2 => (RV_KIND_SLT, rs1, rs2, rd)
  | Addw rd rs1 rs2 | Subw rd rs1 rs2 => (RV_KIND_ADDW, rs1, rs2, rd)
  | Sllw rd rs1 rs2 | Srlw rd rs1 rs2 | Sraw rd rs1 rs2 => (RV_KIND_SLLW, rs1, rs2, rd)
  | Mul rd rs1 rs2 => (RV_KIND_MUL, rs1, rs2, rd)
  | Mulw rd rs1 rs2 => (RV_KIND_MULW, rs1, rs2, rd)
  | Mulh rd rs1 rs2 | Mulhu rd rs1 rs2 => (RV_KIND_MULH, rs1, rs2, rd)
  | Mulhsu rd rs1 rs2 => (RV_KIND_MULHSU, rs1, rs2, rd)
  | Div rd rs1 rs2 | Divu rd rs1 rs2 | Rem rd rs1 rs2 | Remu rd rs1 rs2 | Divw rd rs1 rs2
  | Divuw rd rs1 rs2 | Remw rd rs1 rs2 | Remuw rd rs1 rs2 => (RV_KIND_DIV, rs1, rs2, rd)
  | Clz rd rs1 | Clzw rd rs1 | Cpop rd rs1 | Cpopw rd rs1 | SextB rd rs1 | SextH rd rs1
  | ZextH rd rs1 | Rev8 rd rs1 | OrcB rd rs1 => (RV_KIND_ZBB_U1, rs1, 0, rd)
  | Ctz rd rs1 | Ctzw rd rs1 => (RV_KIND_ZBB_CTZ, rs1, 0, rd)
  | Min rd rs1 rs2 | Minu rd rs1 rs2 | Max rd rs1 rs2 | Maxu rd rs1 rs2 => (RV_KIND_ZBB_MINMAX, rs1, rs2, rd)
  | Andn rd rs1 rs2 | Orn rd rs1 rs2 => (RV_KIND_ZBB_INV, rs1, rs2, rd)
  | Xnor rd rs1 rs2 => (RV_KIND_ZBB_XNOR, rs1, rs2, rd)
  | Rol rd rs1 rs2 | Ror rd rs1 rs2 => (RV_KIND_ZBB_ROT, rs1, rs2, rd)
  | Rori rd rs1 _ => (RV_KIND_ZBB_RORI, rs1, 0, rd)
  | Rolw rd rs1 rs2 | Rorw rd rs1 rs2 => (RV_KIND_ZBB_ROTW, rs1, rs2, rd)
  | Roriw rd rs1 _ => (RV_KIND_ZBB_RORIW, rs1, 0, rd)
  | Sh1add rd rs1 rs2 | Sh2add rd rs1 rs2 | Sh3add rd rs1 rs2 | Sh1adduw rd rs1 rs2
  | Sh2adduw rd rs1 rs2 | Sh3adduw rd rs1 rs2 | Adduw rd rs1 rs2 => (RV_KIND_ZBA, rs1, rs2, rd)
  | Slliuw rd rs1 _ => (RV_KIND_ZBA_IMM, rs1, 0, rd)
  | Bclr rd rs1 rs2 | Bset rd rs1 rs2 | Binv rd rs1 rs2 | Bext rd rs1 rs2 => (RV_KIND_ZBS, rs1, rs2, rd)
  | Bclri rd rs1 _ | Bseti rd rs1 _ | Binvi rd rs1 _ | Bexti rd rs1 _ => (RV_KIND_ZBS_IMM, rs1, 0, rd)
  | CzeroEqz rd rs1 rs2 | CzeroNez rd rs1 rs2 => (RV_KIND_ZICOND, rs1, rs2, rd)
  end.

Definition rv_gas_meta (i : Inst) : RvGasMeta :=
  let '(kind, rs1, rs2, rd) := rv_op_metadata i in
  let entry := lut kind in
  let src1 := if 1 <=? e_src_pat entry then rv_slot_u8 rs1 else 0xFF in
  let src2 := if e_src_pat entry =? 2 then rv_slot_u8 rs2 else 0xFF in
  let dst := if e_dst_pat entry =? 1 then rv_slot_u8 rd else 0xFF in
  mkMeta kind src1 src2 dst.

(** ** Feeding one instruction *)

Definition rv_feed_gas_kind (kind src1 src2 dst : Z) (gas_sim : GasSimulator) (mem_cycles : Z)
    : GasSimulator * bool :=
  let entry := lut kind in
  let cycles :=
    if (e_exec_unit entry =? EU_LOAD) || (e_exec_unit entry =? EU_STORE)
    then mem_cycles else e_cycles entry in
  let spill_ops :=
    b2z (is_spilled_slot src1) + b2z (is_spilled_slot src2) + b2z (is_spilled_slot dst) in
  let cycles := saturating_add 8 cycles (saturating_mul 8 mem_cycles spill_ops) in
  let decode_slots :=
    if negb (Z.land (e_flags entry) RVF_OVERLAP_DST_SRC =? 0) then
      let overlap := negb (dst =? 0xFF) && ((dst =? src1) || (dst =? src2)) in
      if overlap then Z.land (e_overlap_slots entry) 0x0F else Z.shiftr (e_overlap_slots entry) 4
    else if negb (Z.land (e_flags entry) RVF_OVERLAP_RS1_RD =? 0) then
      let overlap := negb (dst =? 0xFF) && negb (src1 =? 0xFF) && (dst =? src1) in
      if overlap then Z.land (e_overlap_slots entry) 0x0F else Z.shiftr (e_overlap_slots entry) 4
    else e_decode_slots entry in
  (feed_direct gas_sim cycles decode_slots src1 src2 dst,
   negb (Z.land (e_flags entry) RVF_TERM =? 0)).

Definition rv_feed_gas_direct (meta : RvGasMeta) (gas_sim : GasSimulator) (mem_cycles : Z)
    : GasSimulator * bool :=
  rv_feed_gas_kind (kind meta) (src1_slot meta) (src2_slot meta) (dst_slot meta) gas_sim mem_cycles.

(** ** Blocks *)

(** [while end < insts.len() && !insts[end].is_gas_block_start { end += 1 }],
    on the tail of [insts] that starts at [end]. *)
Fixpoint scan_end (tail : list RvPreDecodedInst) (e : nat) : nat :=
  match tail with
  | [] => e
  | x :: tail' => if is_gas_block_start x then e else scan_end tail' (S e)
  end.

Definition block_end (insts : list RvPreDecodedInst) (block_start : nat) : nat :=
  scan_end (drop (S block_start) insts) (S block_start).

(** [&insts[block_start..end]] *)
Definition block_of (insts : list RvPreDecodedInst) (block_start : nat) : list RvPreDecodedInst :=
  take (block_end insts block_start - block_start) (drop block_start insts).

Definition rv_gas_cost_for_block (insts : list RvPreDecodedInst) (block_start : nat) (mem_cycles : Z) : Z :=
  let sim := fold_left (fun sim i => fst (rv_feed_gas_direct (gas_meta i) sim mem_cycles))
               (block_of insts block_start) sim_new in
  flush_and_get_cost sim.

Inductive MemClass := MemNone | MemLoad | MemStore.

Definition rv_kind_mem_class (kind : Z) : MemClass :=
  let eu := e_exec_unit (lut kind) in
  if eu =? EU_LOAD then MemLoad else if eu =? EU_STORE then MemStore else MemNone.

Definition rv_kind_reserve (kind : Z) : Z :=
  let r := match rv_kind_mem_class kind with
           | MemLoad => 0
           | MemStore => saturating_mul 64 COW_COST MAX_PAGES_PER_ACCESS
           | MemNone => 0
           end in
  Z.min r (2 ^ 32 - 1).

Definition rv_block_reserve_for_block (insts : list RvPreDecodedInst) (block_start : nat) : Z :=
  let reserve := fold_left (fun r i => saturating_add 64 r (rv_kind_reserve (kind (gas_meta i))))
                   (block_of insts block_start) 0 in
  Z.min reserve (2 ^ 32 - 1).

(** ** Table facts *)

(** Every kind of an instruction has a row with latency in [1..255] and one to
    four decode slots on both sides of the overlap rule. *)
Definition row_ok (e : RvGasCostEntry) : bool :=
  (1 <=? e_cycles e) && (e_cycles e <=? 255) &&
  (if (Z.land (e_flags e) RVF_OVERLAP_DST_SRC =? 0) && (Z.land (e_flags e) RVF_OVERLAP_RS1_RD =? 0)
   then (1 <=? e_decode_slots e) && (e_decode_slots e <=? 4)
   else (1 <=? Z.land (e_overlap_slots e) 0x0F) && (Z.land (e_overlap_slots e) 0x0F <=? 4) &&
        (1 <=? Z.shiftr (e_overlap_slots e) 4) && (Z.shiftr (e_overlap_slots e) 4 <=? 4)).

Lemma lut_row_ok k : 0 <= k < 64 -> row_ok (lut k) = true.
Proof.
  intros Hk. assert (forallb row_ok RV_GAS_COST_LUT = true) as H by (vm_compute; reflexivity).
  rewrite forallb_forall in H. apply H. unfold lut. apply nth_In.
  change (length RV_GAS_COST_LUT) with 64%nat. lia.
Qed.

Lemma rv_gas_meta_kind i : 0 <= kind (rv_gas_meta i) < 38.
Proof. destruct i; vm_compute; split; congruence. Qed.

Definition is_mem_store (i : Inst) : bool :=
  match i with Sb _ _ _ | Sh _ _ _ | Sw _ _ _ | Sd _ _ _ => true | _ => false end.

Lemma rv_kind_reserve_inst i :
  rv_kind_reserve (kind (rv_gas_meta i)) = if is_mem_store i then 512 else 0.
Proof. destruct i; reflexivity. Qed.

(** ** One feed, bounded *)

(** The latency and the decode slots a feed passes to the simulator. *)
Definition feed_cycles (m : RvGasMeta) (mem_cycles : Z) : Z :=
  let entry := lut (kind m) in
  saturating_add 8
    (if (e_exec_unit entry =? EU_LOAD) || (e_exec_unit entry =? EU_STORE) then mem_cycles else e_cycles entry)
    (saturating_mul 8 mem_cycles
       (b2z (is_spilled_slot (src1_slot m)) + b2z (is_spilled_slot (src2_slot m)) + b2z (is_spilled_slot (dst_slot m)))).

Definition feed_slots (m : RvGasMeta) : Z :=
  let entry := lut (kind m) in
  let '(src1, src2, dst) := (src1_slot m, src2_slot m, dst_slot m) in
  if negb (Z.land (e_flags entry) RVF_OVERLAP_DST_SRC =? 0) then
    if negb (dst =? 0xFF) && ((dst =? src1) || (dst =? src2))
    then Z.land (e_overlap_slots entry) 0x0F else Z.shiftr (e_overlap_slots entry) 4
  else if negb (Z.land (e_flags entry) RVF_OVERLAP_RS1_RD =? 0) then
    if negb (dst =? 0xFF) && negb (src1 =? 0xFF) && (dst =? src1)
    then Z.land (e_overlap_slots entry) 0x0F else Z.shiftr (e_overlap_slots entry) 4
  else e_decode_slots entry.

Lemma rv_feed_eq m sim mem_cycles :
  fst (rv_feed_gas_direct m sim mem_cycles) =
  feed_direct sim (feed_cycles m mem_cycles) (feed_slots m) (src1_slot m) (src2_slot m) (dst_slot m).
Proof. reflexivity. Qed.

Lemma feed_ranges m mem_cycles :
  1 <= mem_cycles <= 255 -> 0 <= kind m < 64 ->
  1 <= feed_cycles m mem_cycles <= 255 /\ 1 <= feed_slots m <= 4.
Proof.
  intros Hm Hkind. pose proof (lut_row_ok (kind m) Hkind) as R. unfold row_ok in R.
  rewrite !andb_true_iff in R. destruct R as [[R1 R2] R3]. split.
  - unfold feed_cycles, saturating_add, saturating_mul. cbv zeta.
    assert (forall b, 0 <= b2z b <= 1) as Hb by (intros []; cbn; lia).
    pose proof (Hb (is_spilled_slot (src1_slot m))). pose proof (Hb (is_spilled_slot (src2_slot m))).
    pose proof (Hb (is_spilled_slot (dst_slot m))). change (2 ^ 8 - 1) with 255.
    destruct (_ || _); nia.
  - unfold feed_slots. cbv zeta.
    destruct (Z.land (e_flags (lut (kind m))) RVF_OVERLAP_DST_SRC =? 0);
      destruct (Z.land (e_flags (lut (kind m))) RVF_OVERLAP_RS1_RD =? 0); cbn [negb andb] in *;
      repeat case_match; lia.
Qed.

Lemma rv_feed_bounds k m sim mem_cycles :
  sim_bounds k sim -> 256 * (k + 1) < 2 ^ 32 -> 1 <= mem_cycles <= 255 -> 0 <= kind m < 64 ->
  sim_bounds (k + 1) (fst (rv_feed_gas_direct m sim mem_cycles)).
Proof.
  intros B Hk Hm Hkind. destruct (feed_ranges m mem_cycles Hm Hkind). rewrite rv_feed_eq.
  by apply feed_direct_bounds.
Qed.

(** ** Shape of a block *)

(** The instructions before the next block start. *)
Fixpoint run_prefix (tail : list RvPreDecodedInst) : list RvPreDecodedInst :=
  match tail with
  | [] => []
  | x :: tail' => if is_gas_block_start x then [] else x :: run_prefix tail'
  end.

Lemma scan_end_length tail e : scan_end tail e = (e + length (run_prefix tail))%nat.
Proof.
  revert e. induction tail as [|x tail IH]; intros e; cbn; [lia|].
  destruct (is_gas_block_start x); cbn; [lia|]. rewrite IH. lia.
Qed.

Lemma take_run_prefix tail : take (length (run_prefix tail)) tail = run_prefix tail.
Proof.
  induction tail as [|x tail IH]; [done|]. cbn. destruct (is_gas_block_start x); cbn; by rewrite ?IH.
Qed.

Lemma block_of_spec insts b :
  block_of insts b = match drop b insts with [] => [] | x :: tl => x :: run_prefix tl end.
Proof.
  unfold block_of, block_end. rewrite scan_end_length.
  replace (S b + length (run_prefix (drop (S b) insts)) - b)%nat
    with (S (length (run_prefix (drop (S b) insts)))) by lia.
  replace (drop (S b) insts) with (drop 1 (drop b insts)) by (rewrite drop_drop; f_equal; lia).
  destruct (drop b insts) as [|x tl]; [done|]. cbn [drop]. rewrite drop_0. cbn [take].
  by rewrite take_run_prefix.
Qed.

(** Stepping inside a block leaves the rest of the block ahead. *)
Lemma block_of_step insts b x y :
  insts !! b = Some x -> insts !! (S b) = Some y -> is_gas_block_start y = false ->
  block_of insts b = x :: block_of insts (S b).
Proof.
  intros Hx Hy Hs. rewrite !block_of_spec.
  rewrite (drop_S insts x b Hx), (drop_S insts y (S b) Hy). cbn. by rewrite Hs.
Qed.

Lemma block_of_head insts b x :
  insts !! b = Some x -> exists tl, block_of insts b = x :: tl.
Proof. intros Hx. rewrite block_of_spec, (drop_S insts x b Hx). eauto. Qed.

Lemma block_of_incl insts b : Forall (fun x => In x insts) (block_of insts b).
Proof.
  rewrite Forall_forall. intros x Hx. unfold block_of in Hx.
  rewrite <- (take_drop b insts). apply in_or_app. right.
  rewrite <- (take_drop (block_end insts b - b) (drop b insts)). apply in_or_app. by left.
Qed.

(** The metadata is what the predecoder caches. *)
Definition meta_ok (insts : list RvPreDecodedInst) : Prop :=
  Forall (fun x => gas_meta x = rv_gas_meta (inst x)) insts.

Lemma meta_ok_block insts b : meta_ok insts -> meta_ok (block_of insts b).
Proof.
  unfold meta_ok. rewrite !Forall_forall. intros H x Hx. apply H.
  pose proof (block_of_incl insts b) as F. rewrite Forall_forall in F. auto.
Qed.

(** The pipeline on unbounded integers, fed a list of instructions. *)
Definition feed_all_exact (l : list RvPreDecodedInst) (sim : GasSimulator) (mem_cycles : Z) : GasSimulator :=
  fold_left (fun sim i => let m := gas_meta i in
               feed_exact sim (feed_cycles m mem_cycles) (feed_slots m) (src1_slot m) (src2_slot m) (dst_slot m)) l sim.

Lemma feed_block_bounds k l sim mem_cycles :
  sim_bounds k sim -> meta_ok l -> 1 <= mem_cycles <= 255 ->
  256 * (k + Z.of_nat (length l)) < 2 ^ 32 ->
  let sim' := fold_left (fun sim i => fst (rv_feed_gas_direct (gas_meta i) sim mem_cycles)) l sim in
  sim_bounds (k + Z.of_nat (length l)) sim' /\ sim' = feed_all_exact l sim mem_cycles.
Proof.
  revert k sim. induction l as [|x l IH]; intros k sim B M Hm Hk.
  - cbn in *. by rewrite Z.add_0_r.
  - inversion M as [|? ? Mx Ml]; subst. cbn [fold_left length] in *.
    replace (k + Z.of_nat (S (length l))) with (k + 1 + Z.of_nat (length l)) in * by lia.
    assert (0 <= kind (gas_meta x) < 64) as Hkind by (rewrite Mx; pose proof (rv_gas_meta_kind (inst x)); lia).
    destruct (feed_ranges (gas_meta x) mem_cycles Hm Hkind).
    destruct (IH (k + 1) (fst (rv_feed_gas_direct (gas_meta x) sim mem_cycles))) as [I1 I2]; [|done|done|done|].
    { apply rv_feed_bounds; (done || lia). }
    split; [done|]. rewrite I2. unfold feed_all_exact. cbn [fold_left]. f_equal.
    rewrite rv_feed_eq. apply (feed_direct_exact k); (done || lia).
Qed.

(** C39: gas tracks work. The cost of a block of [n < 2^24] instructions is the
    cost of the pipeline on unbounded integers (no [u32] or [u8] of the
    simulator wraps); it is at least 1, at most 256 per instruction, and at
    least [(n - 12) / 4]: no such block gets execution for free and none is
    charged more than the worst-case latency of its instructions. *)
Theorem block_cost_bounds insts b mem_cycles :
  meta_ok insts -> (b < length insts)%nat -> 1 <= mem_cycles <= 255 ->
  let n := Z.of_nat (length (block_of insts b)) in
  n < 2 ^ 24 ->
  let cost := rv_gas_cost_for_block insts b mem_cycles in
  cost = flush_and_get_cost (feed_all_exact (block_of insts b) sim_new mem_cycles) /\
  1 <= cost <= 256 * n /\ n - 12 <= 4 * cost.
Proof.
  intros M Hb Hm n Hn cost. unfold cost, rv_gas_cost_for_block. cbv zeta.
  destruct (feed_block_bounds 0 (block_of insts b) sim_new mem_cycles) as [B E];
    [apply sim_new_bounds|by apply meta_ok_block|done|unfold n in Hn; lia|]. cbv zeta in E.
  split; [by rewrite <- E|]. apply flush_bounds; [exact B|].
  destruct (lookup_lt_is_Some_2 insts b Hb) as [x Hx].
  destruct (block_of_head insts b x Hx) as [tl Et]. unfold n. rewrite Et. cbn. lia.
Qed.

(** A two-instruction block, for the examples. *)
Definition sample_block : list RvPreDecodedInst :=
  [mkPre (Sd 2 10 0) 0 4 true (rv_gas_meta (Sd 2 10 0));
   mkPre Fallthrough 4 8 false (rv_gas_meta Fallthrough)].

Lemma block_cost_bounds_witness :
  rv_gas_cost_for_block sample_block 0 25 = 22 /\
  1 <= rv_gas_cost_for_block sample_block 0 25 <= 256 * 2.
Proof.
  split; [reflexivity|].
  apply (block_cost_bounds sample_block 0 25).
  - repeat constructor.
  - cbn. lia.
  - lia.
  - cbn. lia.
Defined.

(** *** Longer blocks *)

(** [n] loads, each of the address the one before loaded. *)
Definition load_chain (n : nat) : list RvPreDecodedInst :=
  replicate n (mkPre (Ld 5 5 0) 0 4 false (rv_gas_meta (Ld 5 5 0))).

Lemma load_chain_block n : block_of (load_chain (S n)) 0 = load_chain (S n).
Proof.
  rewrite block_of_spec. cbn [load_chain drop replicate]. f_equal. induction n as [|n IH]; [done|].
  cbn [replicate run_prefix is_gas_block_start]. by f_equal.
Qed.

Lemma load_chain_exact n sim :
  length (reg_done sim) = 15%nat -> nth 2 (reg_done sim) 0 <= max_done sim ->
  nth 2 (reg_done sim) 0 + 100 * Z.of_nat n <= max_done (feed_all_exact (load_chain n) sim 100).
Proof.
  revert sim. induction n as [|n IH]; intros sim Hl Hm; [cbn; lia|].
  set (d := decode_step_exact sim 1). set (t := Z.max (cycle d) (nth 2 (reg_done sim) 0) + 100).
  assert (reg_done d = reg_done sim) as Er by (unfold d, decode_step_exact; by destruct (_ <=? _)).
  change (feed_all_exact (load_chain (S n)) sim 100)
    with (feed_all_exact (load_chain n)
            (mkSim (<[2%nat := Z.max (cycle d) (nth 2 (reg_done d) 0) + 100]> (reg_done d)) (cycle d) (decode_used d)
               (Z.max (max_done d) (Z.max (cycle d) (nth 2 (reg_done d) 0) + 100))) 100).
  rewrite Er. fold t. assert (nth 2 (<[2%nat := t]> (reg_done sim)) 0 = t) as Et
    by (by rewrite nth_lookup, list_lookup_insert_eq by lia).
  etrans; [|apply IH; cbn [reg_done max_done]; rewrite ?length_insert, ?Et; (done || lia)].
  cbn [reg_done]. rewrite Et. lia.
Qed.

(** Past the bound the latencies wrap: a block of dependent loads that takes
    [2 ^ 32] cycles is charged less. *)
Lemma load_chain_undercharged n :
  2 ^ 32 + 3 <= 100 * Z.of_nat (S n) ->
  rv_gas_cost_for_block (load_chain (S n)) 0 100 < 2 ^ 32 <=
  flush_and_get_cost (feed_all_exact (block_of (load_chain (S n)) 0) sim_new 100).
Proof.
  intros Hn. split.
  - unfold rv_gas_cost_for_block. cbv zeta. generalize (block_of (load_chain (S n)) 0). intros l.
    assert (0 <= max_done sim_new < 2 ^ 32) as H by (cbn; lia). revert H. generalize sim_new.
    induction l as [|x l IH]; intros sim H.
    + cbn [fold_left]. unfold flush_and_get_cost. destruct (3 <? max_done sim); lia.
    + cbn [fold_left]. apply IH. rewrite rv_feed_eq. unfold feed_direct. cbv zeta. cbn [max_done].
      unfold wrapping_add, wrap. unfold decode_step. destruct (_ <=? _); cbn [max_done]; dlia.
  - rewrite load_chain_block. pose proof (load_chain_exact (S n) sim_new ltac:(done) ltac:(cbn; lia)) as E.
    change (nth 2 (reg_done sim_new) 0) with 0 in E. unfold flush_and_get_cost.
    destruct (Z.ltb_spec 3 (max_done (feed_all_exact (load_chain (S n)) sim_new 100))); lia.
Qed.

(** ** The reserve *)

Definition stores (l : list RvPreDecodedInst) : Z :=
  Z.of_nat (length (List.filter (fun x => is_mem_store (inst x)) l)).

Lemma stores_cons x l : stores (x :: l) = (if is_mem_store (inst x) then 1 else 0) + stores l.
Proof. unfold stores. cbn. destruct (is_mem_store (inst x)); cbn [length]; lia. Qed.

Lemma stores_nonneg l : 0 <= stores l.
Proof. unfold stores. lia. Qed.

Lemma reserve_fold l r :
  meta_ok l -> 0 <= r < 2 ^ 64 ->
  fold_left (fun r i => saturating_add 64 r (rv_kind_reserve (kind (gas_meta i)))) l r =
  Z.min (r + 512 * stores l) (2 ^ 64 - 1).
Proof.
  revert r. induction l as [|x l IH]; intros r M Hr.
  - unfold stores. cbn [fold_left List.filter length]. lia.
  - inversion M as [|? ? Mx Ml]; subst. cbn [fold_left].
    rewrite Mx, rv_kind_reserve_inst, stores_cons. pose proof (stores_nonneg l).
    unfold saturating_add. destruct (is_mem_store (inst x)); rewrite IH by (done || lia); lia.
Qed.

Lemma block_reserve_spec insts b :
  meta_ok insts ->
  rv_block_reserve_for_block insts b = Z.min (512 * stores (block_of insts b)) (2 ^ 32 - 1).
Proof.
  intros M. unfold rv_block_reserve_for_block. cbv zeta.
  rewrite reserve_fold by (first [by apply meta_ok_block | lia]). lia.
Qed.

(** The reserve a block is gated on is the cost of a copy-on-write of both
    pages of every store in it, 512 gas per store and nothing for any other
    instruction, clamped to [u32::MAX]. *)
Theorem block_reserve_counts_stores insts b :
  meta_ok insts ->
  rv_block_reserve_for_block insts b =
  Z.min (COW_COST * MAX_PAGES_PER_ACCESS * stores (block_of insts b)) (2 ^ 32 - 1).
Proof. intros M. by rewrite block_reserve_spec. Qed.

Lemma block_reserve_counts_stores_witness :
  rv_block_reserve_for_block sample_block 0 = 512.
Proof.
  rewrite (block_reserve_counts_stores sample_block 0); [reflexivity|]. repeat constructor.
Defined.
