(* ===== verification/Predecode.v ===== *)
(** * Predecoder

    Models [nub/nub-exec/src/predecode.rs]: the linear decode of a code section,
    the marking of gas-block starts and the per-block costs and reserves. *)

From S2P Require Import Prelude MachineInt Engine GasConst Instruction InstructionFacts GasSim GasCost.

Record Predecode := mkPredecode {
  insts : list RvPreDecodedInst;
  block_costs : list Z;
  block_reserves : list Z;
  decode_error_at : option Z }.

Definition is_ecall_block (i : Inst) : bool :=
  match i with EcallJar | Ecalli _ => true | _ => false end.

Definition is_terminator (i : Inst) : bool :=
  match i with
  | Jal _ _ | Jalr _ _ _
  | Beq _ _ _ | Bne _ _ _ | Blt _ _ _ | Bge _ _ _ | Bltu _ _ _ | Bgeu _ _ _
  | Trap | EcallJar | Ecalli _ | Fallthrough | Reserved _ => true
  | _ => false
  end.

(** ** Pass 1: decode every instruction *)

(** One round per instruction; each advances [pc] by at least two bytes, so a
    code section below [2^32] bytes needs fewer rounds than it has bytes. *)
Fixpoint decode_all (fuel : nat) (code : list Z) (pc : Z) (err : option Z)
    : list RvPreDecodedInst * option Z :=
  match fuel with
  | O => ([], err)
  | S fuel' =>
      if pc <? Z.of_nat (length code) then
        match decode (drop (Z.to_nat pc) code) with
        | None => ([], Some (wrap 32 pc))
        | Some (inst, len) =>
            let err := if is_Reserved inst && bool_decide (err = None) then Some (wrap 32 pc) else err in
            let next_pc := wrap 32 (pc + len) in
            let '(rest, err) := decode_all fuel' code next_pc err in
            (mkPre inst (wrap 32 pc) next_pc false (rv_gas_meta inst) :: rest, err)
        end
      else ([], err)
  end.

(** ** Pass 2: mark gas-block starts *)

Definition set_start (x : RvPreDecodedInst) (b : bool) : RvPreDecodedInst :=
  mkPre (inst x) (pc x) (next_pc x) b (gas_meta x).

(** [prev] is the instruction before the head of [l], none at the very start. *)
Fixpoint mark_starts (prev : option Inst) (l : list RvPreDecodedInst) : list RvPreDecodedInst :=
  match l with
  | [] => []
  | x :: l' =>
      let start := match prev with None => true | Some p => is_terminator p end in
      set_start x (start || is_ecall_block (inst x) || is_gas_block_start x)
        :: mark_starts (Some (inst x)) l'
  end.

(** ** Pass 3: costs and reserves *)

Definition block_cost_at (insts : list RvPreDecodedInst) (mem_cycles : Z) (i : nat)
    (x : RvPreDecodedInst) : Z * Z :=
  if is_gas_block_start x then
    if is_ecall_block (inst x) then (0, 0)
    else (rv_gas_cost_for_block insts i mem_cycles, rv_block_reserve_for_block insts i)
  else (0, 0).

Definition compute_block_costs (insts : list RvPreDecodedInst) (mem_cycles : Z) : list Z * list Z :=
  let l := imap (block_cost_at insts mem_cycles) insts in (map fst l, map snd l).

Definition predecode_rv_with_mem_cycles (code : list Z) (mem_cycles : Z) : Predecode :=
  let '(insts, err) := decode_all (length code) code 0 None in
  let insts := mark_starts None insts in
  let '(costs, reserves) := compute_block_costs insts mem_cycles in
  mkPredecode insts costs reserves err.

Definition predecode (code : list Z) : Predecode :=
  predecode_rv_with_mem_cycles code DEFAULT_MEM_CYCLES.

(** ** Pass 1 tiles the code *)

(** [l] is the instruction sequence of [code] from [at] up to [stop]: each
    entry is what [decode] finds at its [pc], and the next one starts where it
    ends. *)
Fixpoint tiles (code : list Z) (at_ : Z) (l : list RvPreDecodedInst) (stop : Z) : Prop :=
  match l with
  | [] => at_ = stop
  | x :: l' =>
      pc x = at_ /\ at_ < next_pc x <= Z.of_nat (length code) /\
      decode (drop (Z.to_nat at_) code) = Some (inst x, next_pc x - at_) /\
      gas_meta x = rv_gas_meta (inst x) /\ tiles code (next_pc x) l' stop
  end.

Lemma decode_len code at_ i l :
  0 <= at_ -> decode (drop (Z.to_nat at_) code) = Some (i, l) ->
  (l = 2 \/ l = 4) /\ at_ + l <= Z.of_nat (length code).
Proof.
  intros Ha E. pose proof (decode_cases (drop (Z.to_nat at_) code)) as C. rewrite E, length_drop in C.
  assert (l = 2 /\ (2 <= length code - Z.to_nat at_)%nat \/
          l = 4 /\ (4 <= length code - Z.to_nat at_)%nat) as [[-> ?]|[-> ?]].
  { repeat case_match; intuition lia. }
  all: split; [auto|lia].
Qed.

(** Where pass 1 stopped, and what it reports. *)
Lemma decode_all_spec fuel code at_ err l e :
  Z.of_nat (length code) < 2 ^ 32 -> 0 <= at_ <= Z.of_nat (length code) ->
  Z.of_nat (length code) - at_ <= Z.of_nat fuel ->
  decode_all fuel code at_ err = (l, e) ->
  exists stop, tiles code at_ l stop /\ stop <= Z.of_nat (length code) /\
    (stop < Z.of_nat (length code) ->
       decode (drop (Z.to_nat stop) code) = None /\ e = Some stop) /\
    (stop = Z.of_nat (length code) ->
       e = match err with
           | Some _ => err
           | None => option_map pc (List.find (fun x => is_Reserved (inst x)) l)
           end).
Proof.
  intros Hlen. revert at_ err l e. induction fuel as [|fuel IH]; intros at_ err l e Hat Hf H.
  { injection H as <- <-. exists at_. cbn. repeat split; (lia || by destruct err). }
  cbn [decode_all] in H. destruct (Z.ltb_spec at_ (Z.of_nat (length code))) as [Hlt|Hge].
  2: { injection H as <- <-. exists at_. cbn. repeat split; (lia || by destruct err). }
  destruct (decode (drop (Z.to_nat at_) code)) as [[i len]|] eqn:Ed.
  2: { injection H as <- <-. exists at_. rewrite wrap_small by (unfold is_u; lia).
       cbn. repeat split; (done || lia). }
  destruct (decode_len code at_ i len (proj1 Hat) Ed) as [Hl Hfit].
  rewrite !(wrap_small 32) in H by (unfold is_u; lia).
  set (err1 := if is_Reserved i && bool_decide (err = None) then Some at_ else err) in H.
  destruct (decode_all fuel code (at_ + len) err1) as [rest e'] eqn:Er. injection H as <- <-.
  destruct (IH (at_ + len) err1 rest e' ltac:(lia) ltac:(lia) Er) as (stop & T & Hs & Hbad & Hok).
  exists stop. split.
  { cbn [tiles pc next_pc inst gas_meta]. repeat split; try lia; [|done].
    rewrite Ed. do 2 f_equal. lia. }
  split; [done|]. split; [done|]. intros Hstop. rewrite (Hok Hstop). unfold err1.
  destruct err as [e0|]; [by rewrite andb_false_r|].
  cbn [List.find inst]. destruct (is_Reserved i); done.
Qed.

(** ** Pass 2 *)

Lemma mark_starts_tiles code prev at_ l stop :
  tiles code at_ l stop -> tiles code at_ (mark_starts prev l) stop.
Proof.
  revert prev at_. induction l as [|x l IH]; intros prev at_; [done|].
  cbn [mark_starts tiles set_start pc next_pc inst gas_meta].
  intros (? & ? & ? & ? & ?). repeat split; try done; try lia. by apply IH.
Qed.

Lemma mark_starts_reserved prev l :
  option_map pc (List.find (fun x => is_Reserved (inst x)) (mark_starts prev l)) =
  option_map pc (List.find (fun x => is_Reserved (inst x)) l).
Proof.
  revert prev. induction l as [|x l IH]; intros prev; [done|].
  cbn [mark_starts List.find set_start inst pc]. by destruct (is_Reserved (inst x)).
Qed.

Lemma decode_all_unmarked fuel code at_ err :
  Forall (fun x => is_gas_block_start x = false) (fst (decode_all fuel code at_ err)).
Proof.
  revert at_ err. induction fuel as [|fuel IH]; intros at_ err; cbn [decode_all]; [constructor|].
  destruct (at_ <? _); [|constructor]. destruct (decode _) as [[i len]|]; [|constructor].
  specialize (IH (wrap 32 (at_ + len))
    (if is_Reserved i && bool_decide (err = None) then Some (wrap 32 at_) else err)).
  destruct (decode_all fuel code _ _) as [rest e]. by constructor.
Qed.

(** Is the instruction at [i] the first one, or after a terminator? *)
Definition after_terminator (l : list RvPreDecodedInst) (i : nat) : bool :=
  match i with
  | O => true
  | S j => match l !! j with Some p => is_terminator (inst p) | None => false end
  end.

Lemma mark_starts_lookup prev l i x :
  Forall (fun x => is_gas_block_start x = false) l ->
  mark_starts prev l !! i = Some x ->
  is_gas_block_start x =
    (match i, prev with O, Some p => is_terminator p | _, _ => after_terminator (mark_starts prev l) i end)
    || is_ecall_block (inst x).
Proof.
  revert prev i. induction l as [|y l IH]; intros prev i F; [done|].
  inversion F as [|? ? Fy Fl]; subst. destruct i as [|i]; cbn [mark_starts].
  - intros [= <-]. cbn [is_gas_block_start set_start inst]. rewrite Fy, orb_false_r.
    by destruct prev.
  - cbn [lookup list_lookup]. intros H. rewrite (IH (Some (inst y)) i Fl H).
    f_equal. destruct i; cbn; by destruct prev.
Qed.

Lemma tiles_meta code at_ l stop : tiles code at_ l stop -> meta_ok l.
Proof.
  revert at_. induction l as [|x l IH]; intros at_ H; [constructor|].
  destruct H as (? & ? & ? & ? & ?). constructor; [done|]. by eapply IH.
Qed.

(** ** What the interpreter relies on *)

Record predecode_ok (code : list Z) (mem_cycles : Z) (p : Predecode) : Prop := {
  po_stop : exists stop, tiles code 0 (insts p) stop /\ stop <= Z.of_nat (length code);
  po_start : forall i x, insts p !! i = Some x ->
    is_gas_block_start x = after_terminator (insts p) i || is_ecall_block (inst x);
  po_costs : block_costs p = map fst (imap (block_cost_at (insts p) mem_cycles) (insts p));
  po_reserves : block_reserves p = map snd (imap (block_cost_at (insts p) mem_cycles) (insts p)) }.

Lemma predecode_is_ok code mem_cycles :
  Z.of_nat (length code) < 2 ^ 32 ->
  predecode_ok code mem_cycles (predecode_rv_with_mem_cycles code mem_cycles).
Proof.
  intros Hlen. unfold predecode_rv_with_mem_cycles.
  pose proof (decode_all_unmarked (length code) code 0 None) as U.
  destruct (decode_all (length code) code 0 None) as [l e] eqn:E. cbn [fst] in U.
  destruct (decode_all_spec (length code) code 0 None l e Hlen ltac:(lia) ltac:(lia) E) as (stop & T & ? & _).
  cbn [compute_block_costs]. split; cbn [insts block_costs block_reserves].
  - exists stop. split; [by apply mark_starts_tiles|done].
  - intros i x Hx. rewrite (mark_starts_lookup None l i x U Hx). by destruct i.
  - done.
  - done.
Qed.

Section PredecodeOk.
  Context (code : list Z) (mem_cycles : Z) (p : Predecode) (OK : predecode_ok code mem_cycles p).

Lemma po_meta : meta_ok (insts p).
Proof using OK. destruct (po_stop _ _ _ OK) as (stop & T & _). by eapply tiles_meta. Qed.

Lemma block_costs_lookup i :
  block_costs p !! i = (fun x => fst (block_cost_at (insts p) mem_cycles i x)) <$> (insts p !! i).
Proof using OK.
  rewrite (po_costs _ _ _ OK).
  change (map fst ?l) with (fst <$> l). rewrite list_lookup_fmap, list_lookup_imap.
  by destruct (insts p !! i).
Qed.

Lemma block_reserves_lookup i :
  block_reserves p !! i = (fun x => snd (block_cost_at (insts p) mem_cycles i x)) <$> (insts p !! i).
Proof using OK.
  rewrite (po_reserves _ _ _ OK).
  change (map snd ?l) with (snd <$> l). rewrite list_lookup_fmap, list_lookup_imap.
  by destruct (insts p !! i).
Qed.
End PredecodeOk.

Lemma flush_pos s : 1 <= flush_and_get_cost s.
Proof. unfold flush_and_get_cost. destruct (Z.ltb_spec 3 (max_done s)); lia. Qed.

(** ** Properties of the pass *)

(** C37: the predecoded instructions tile the code section. Starting at offset
    0, each is what the decoder finds at its [pc], the next starts exactly at
    its [next_pc], and the walk ends either at the end of the section or where
    too few bytes are left for the decoder. [decode_error_at] is exactly: the
    offset of that truncated tail when there is one, even if a reserved encoding
    came before it; otherwise the offset of the first reserved instruction, and
    none when no instruction is reserved. *)
Theorem predecode_tiles_code code mem_cycles :
  Z.of_nat (length code) < 2 ^ 32 ->
  let p := predecode_rv_with_mem_cycles code mem_cycles in
  exists stop, tiles code 0 (insts p) stop /\
    (stop = Z.of_nat (length code) /\
     decode_error_at p = option_map pc (List.find (fun x => is_Reserved (inst x)) (insts p)) \/
     stop < Z.of_nat (length code) /\ decode (drop (Z.to_nat stop) code) = None /\
     decode_error_at p = Some stop).
Proof.
  intros Hlen p. unfold p, predecode_rv_with_mem_cycles.
  destruct (decode_all (length code) code 0 None) as [l e] eqn:E.
  destruct (decode_all_spec (length code) code 0 None l e Hlen ltac:(lia) ltac:(lia) E)
    as (stop & T & Hs & Hbad & Hend).
  cbn [compute_block_costs insts decode_error_at]. exists stop.
  split; [by apply mark_starts_tiles|].
  destruct (Z.lt_total stop (Z.of_nat (length code))) as [H|[H|H]]; [right|left|lia].
  - by destruct (Hbad H).
  - split; [done|]. by rewrite mark_starts_reserved, (Hend H).
Qed.

(** [li x5, 7; sd x5, 0(x2); ecalli 0], then a lone byte. *)
Definition sample_code : list Z :=
  [0x93; 0x02; 0x70; 0x00; 0x23; 0x30; 0x51; 0x00; 0x0B; 0x20; 0x00; 0x00; 0x13].

Lemma predecode_tiles_code_witness :
  let p := predecode sample_code in
  length (insts p) = 3%nat /\
  exists stop, tiles sample_code 0 (insts p) stop /\
    (stop = 13 /\ decode_error_at p = option_map pc (List.find (fun x => is_Reserved (inst x)) (insts p)) \/
     stop < 13 /\ decode (drop (Z.to_nat stop) sample_code) = None /\
     decode_error_at p = Some stop).
Proof.
  split; [reflexivity|]. apply (predecode_tiles_code sample_code DEFAULT_MEM_CYCLES).
  cbn. lia.
Defined.

(** Block starts are exactly offset 0, the instruction after a terminator,
    and every [ecall.jar]/[ecalli]; and the static cost of a block start is 0
    (the "skip the static gate" marker) exactly for the ecall blocks. *)
Theorem predecode_block_starts code mem_cycles i x :
  Z.of_nat (length code) < 2 ^ 32 ->
  let p := predecode_rv_with_mem_cycles code mem_cycles in
  insts p !! i = Some x ->
  is_gas_block_start x = after_terminator (insts p) i || is_ecall_block (inst x) /\
  (is_gas_block_start x = true ->
   exists c, block_costs p !! i = Some c /\ 0 <= c /\ (c = 0 <-> is_ecall_block (inst x) = true)).
Proof.
  intros Hlen p Hx. pose proof (predecode_is_ok code mem_cycles Hlen) as OK.
  split; [by apply (po_start _ _ _ OK)|]. intros Hs.
  rewrite (block_costs_lookup _ _ _ OK). fold p. rewrite Hx. cbn [fmap option_fmap option_map].
  eexists. split; [reflexivity|]. unfold block_cost_at. rewrite Hs.
  destruct (is_ecall_block (inst x)); cbn [fst]; [split; [lia|done]|].
  pose proof (flush_pos (fold_left
    (fun sim i => fst (rv_feed_gas_direct (gas_meta i) sim mem_cycles)) (block_of (insts p) i) sim_new)) as F.
  change (1 <= rv_gas_cost_for_block (insts p) i mem_cycles) in F. split; [lia|]. split; [lia|done].
Qed.

Lemma predecode_block_starts_witness :
  let p := predecode sample_code in
  exists x, insts p !! 2%nat = Some x /\
  is_gas_block_start x = after_terminator (insts p) 2 || is_ecall_block (inst x) /\
  (is_gas_block_start x = true ->
   exists c, block_costs p !! 2%nat = Some c /\ 0 <= c /\ (c = 0 <-> is_ecall_block (inst x) = true)).
Proof.
  eexists. split; [reflexivity|].
  apply (predecode_block_starts sample_code DEFAULT_MEM_CYCLES 2); [cbn; lia|reflexivity].
Defined.

Lemma tiles_stop_unique code at_ l s1 s2 : tiles code at_ l s1 -> tiles code at_ l s2 -> s1 = s2.
Proof.
  revert at_. induction l as [|x l IH]; intros at_; cbn; [congruence|].
  intros (? & ? & ? & ? & ?) (? & ? & ? & ? & ?). eauto.
Qed.

Lemma find_none_forall {A} (f : A -> bool) l :
  List.find f l = None <-> Forall (fun x => f x = false) l.
Proof.
  split; [intros H; rewrite Forall_forall; by apply find_none|].
  induction 1 as [|x l Hx _ IH]; [done|]. cbn. by rewrite Hx.
Qed.

(** [predecode] reports no error exactly when the whole section decodes and
    no instruction of it is reserved; and when the whole section decodes, the
    offset it reports is that of the first reserved instruction. *)
Theorem predecode_error_exact code mem_cycles :
  Z.of_nat (length code) < 2 ^ 32 ->
  let p := predecode_rv_with_mem_cycles code mem_cycles in
  (decode_error_at p = None <->
   tiles code 0 (insts p) (Z.of_nat (length code)) /\
   Forall (fun x => is_Reserved (inst x) = false) (insts p)) /\
  (tiles code 0 (insts p) (Z.of_nat (length code)) ->
   decode_error_at p = option_map pc (List.find (fun x => is_Reserved (inst x)) (insts p))).
Proof.
  intros Hlen p. unfold p, predecode_rv_with_mem_cycles.
  destruct (decode_all (length code) code 0 None) as [l e] eqn:E.
  destruct (decode_all_spec (length code) code 0 None l e Hlen ltac:(lia) ltac:(lia) E)
    as (stop & T & Hs & Hbad & Hok).
  cbn [compute_block_costs insts decode_error_at].
  pose proof (mark_starts_tiles code None 0 l stop T) as T'.
  rewrite <- find_none_forall, mark_starts_reserved.
  assert (tiles code 0 (mark_starts None l) (Z.of_nat (length code)) -> stop = Z.of_nat (length code))
    as U by (by apply tiles_stop_unique).
  split; [split|].
  - intros ->. destruct (Z.lt_total stop (Z.of_nat (length code))) as [H|[H|H]]; [|subst|lia].
    + by destruct (Hbad H).
    + split; [done|]. specialize (Hok eq_refl). cbn [option_map] in Hok.
      pose proof (mark_starts_reserved None l) as R. rewrite <- Hok in R.
      by destruct (List.find _ (mark_starts None l)).
  - intros [T2 F]. rewrite (Hok (U T2)), <- (mark_starts_reserved None l), F. done.
  - intros T2. exact (Hok (U T2)).
Qed.

Lemma predecode_error_exact_witness :
  let p := predecode [0x01; 0x00; 0x00; 0x00] in
  (decode_error_at p = None <->
   tiles [0x01; 0x00; 0x00; 0x00] 0 (insts p) 4 /\
   Forall (fun x => is_Reserved (inst x) = false) (insts p)) /\
  decode_error_at p = Some 2.
Proof.
  destruct (predecode_error_exact [0x01; 0x00; 0x00; 0x00] DEFAULT_MEM_CYCLES) as [H _]; [cbn; lia|].
  split; [exact H|reflexivity].
Defined.

(** The recompiler and the interpreter end blocks at the same instructions:
    an instruction is a terminator for the predecoder exactly when feeding it
    to the gas simulator reports one. *)
Theorem terminators_agree i sim mem_cycles :
  snd (rv_feed_gas_direct (rv_gas_meta i) sim mem_cycles) = is_terminator i.
Proof. unfold rv_feed_gas_direct, rv_feed_gas_kind. cbn [snd]. destruct i; reflexivity. Qed.

(** A truncated tail hides an earlier reserved instruction. The offset
    reported is documented as that of the first illegal encoding; here the
    halfword at 0 is reserved and the reported offset is 2, where one byte is
    left. *)
Theorem decode_error_at_not_first :
  decode_error_at (predecode [0x00; 0x00; 0x13]) = Some 2 /\
  (inst <$> insts (predecode [0x00; 0x00; 0x13])) = [Reserved 0].
Proof. split; reflexivity. Qed.
