(* ===== verification/Mem.v ===== *)
(** * Guest memory

    Models [nub/nub-exec/src/mem.rs]: the [Memory] trait as a class of
    operations, the flat-buffer implementation [CopyingMemory], and the laws an
    implementation promises to the interpreter. A byte is a [Z] in [0, 256);
    [usize] is 64-bit. *)

From S2P Require Import Prelude MachineInt Engine GasConst Mat.

Definition perm_NONE : Z := 0.
Definition perm_RO : Z := 1.
Definition perm_RW : Z := 2.

Inductive Access := ReadOnly | ReadWrite.

Inductive MemAccess :=
  | MemOk
  | PageFault (addr : Z)
  | WriteProtected (addr : Z).

Inductive TouchFault := touch_fault.

Inductive MapError :=
  | UnalignedStart (start : Z)
  | UnalignedSize (size : Z)
  | Overflow.

(** ** The trait *)

Class Memory (M : Type) := {
  read_u8 : M -> Z -> option Z;
  read_u16_le : M -> Z -> option Z;
  read_u32_le : M -> Z -> option Z;
  read_u64_le : M -> Z -> option Z;
  write_u8 : M -> Z -> Z -> M * bool;
  write_u16_le : M -> Z -> Z -> M * bool;
  write_u32_le : M -> Z -> Z -> M * bool;
  write_u64_le : M -> Z -> Z -> M * bool;
  map_region : M -> Z -> Z -> Access -> option (list Z) -> Res (M * Result unit MapError);
  perm_of : M -> Z -> Z;
  mem_read : M -> Z -> Z -> Result (list Z) MemAccess;
  mem_write : M -> Z -> list Z -> M * Result unit MemAccess;
  touch_read : M -> Z -> Z -> GasCounter -> Res (M * GasCounter * Result unit TouchFault);
  touch_write : M -> Z -> Z -> GasCounter -> Res (M * GasCounter * Result unit TouchFault) }.

(** ** CopyingMemory *)

Record CopyingMemory := mkMem {
  base : Z;
  flat_mem : list Z;
  perms : list Z;
  mat_state : list Z;
  code_base : Z;
  code_top : Z;
  heap_base : Z;
  heap_top : Z;
  max_heap_pages : Z }.

Definition with_flat (m : CopyingMemory) (f : list Z) : CopyingMemory :=
  mkMem (base m) f (perms m) (mat_state m) (code_base m) (code_top m)
    (heap_base m) (heap_top m) (max_heap_pages m).
Definition with_perms (m : CopyingMemory) (p : list Z) : CopyingMemory :=
  mkMem (base m) (flat_mem m) p (mat_state m) (code_base m) (code_top m)
    (heap_base m) (heap_top m) (max_heap_pages m).
Definition with_mat (m : CopyingMemory) (s : list Z) : CopyingMemory :=
  mkMem (base m) (flat_mem m) (perms m) s (code_base m) (code_top m)
    (heap_base m) (heap_top m) (max_heap_pages m).

Definition flat_len (m : CopyingMemory) : Z := Z.of_nat (length (flat_mem m)).

Definition mem_new : CopyingMemory := mkMem 0 [] [] [] 0 0 0 0 0.

Definition with_pages (n_pages default_perm : Z) : CopyingMemory :=
  let bytes := n_pages * PAGE_SIZE in
  mkMem 0 (replicate (Z.to_nat bytes) 0) (replicate (Z.to_nat n_pages) default_perm)
    (replicate (Z.to_nat n_pages) (PageState_as_u8 NotPresent)) 0 0 0 0 0.

Definition off (m : CopyingMemory) (addr : Z) : Z := wrapping_sub 32 addr (base m).

Definition set_code_region (m : CopyingMemory) (cb code_len : Z) : CopyingMemory :=
  let rounded := wrap 32 (next_multiple_of code_len PAGE_SIZE) in
  mkMem (base m) (flat_mem m) (perms m) (mat_state m) cb (saturating_add 32 cb rounded)
    (heap_base m) (heap_top m) (max_heap_pages m).

Definition is_code_page (m : CopyingMemory) (page_addr : Z) : bool :=
  (code_base m <? code_top m) && (code_base m <=? page_addr) && (page_addr <? code_top m).

Definition cm_perm_of (m : CopyingMemory) (addr : Z) : Z :=
  let page := off m addr / PAGE_SIZE in
  default perm_NONE (perms m !! Z.to_nat page).

Definition page_index (m : CopyingMemory) (page_addr : Z) : option nat :=
  let o := off m page_addr in
  if o <? flat_len m then Some (Z.to_nat (o / PAGE_SIZE)) else None.

(** *** First-touch accounting *)

Definition touch_code (m : CopyingMemory) (pages : list Z) (is_write : bool) : Result unit TouchFault :=
  if is_write then Err touch_fault
  else if forallb (is_code_page m) pages then Ok tt else Err touch_fault.

(** First loop of [touch_data]: [Ret true] when every page is accessible. *)
Fixpoint accessible_all (m : CopyingMemory) (pages : list Z) (is_write : bool) : Res bool :=
  match pages with
  | [] => Ret true
  | p :: pages' =>
      match page_index m p with
      | Some i =>
          let! pm := expect (perms m !! i) in
          if (pm =? perm_NONE) || (is_write && negb (pm =? perm_RW)) then Ret false
          else accessible_all m pages' is_write
      | None => Ret false
      end
  end.

(** Second loop: the total charge and the advanced page states. *)
Fixpoint materialize_all (m : CopyingMemory) (pages : list Z) (is_write : bool) (total : Z)
    : Res (CopyingMemory * Z) :=
  match pages with
  | [] => Ret (m, total)
  | p :: pages' =>
      let! i := expect (page_index m p) in
      let! pm := expect (perms m !! i) in
      if negb (pm =? perm_RO) then
        let! st := expect (mat_state m !! i) in
        let! (charge, next) := expect_ok (charge_for (PageState_from_u8 st) UnpinnedCapCow is_write) in
        materialize_all (with_mat m (<[i := PageState_as_u8 next]> (mat_state m))) pages' is_write
          (total + charge)
      else materialize_all m pages' is_write total
  end.

Definition touch_data (m : CopyingMemory) (pages : list Z) (is_write : bool) (gas : GasCounter)
    : Res (CopyingMemory * GasCounter * Result unit TouchFault) :=
  let! ok := accessible_all m pages is_write in
  if negb ok then Ret (m, gas, Err touch_fault)
  else
    let! (m, total) := materialize_all m pages is_write 0 in
    let! gas := charge_expect gas total in
    Ret (m, gas, Ok tt).

Definition touch (m : CopyingMemory) (addr width : Z) (is_write : bool) (gas : GasCounter)
    : Res (CopyingMemory * GasCounter * Result unit TouchFault) :=
  let pages := as_slice (access_pages addr width) in
  let! p0 := expect (head pages) in
  let! declared :=
    match page_index m p0 with
    | Some i => let! pm := expect (perms m !! i) in Ret (negb (pm =? perm_NONE))
    | None => Ret false
    end in
  if declared then touch_data m pages is_write gas
  else if is_code_page m p0 then Ret (m, gas, touch_code m pages is_write)
  else Ret (m, gas, Ok tt).

Definition cm_touch_read (m : CopyingMemory) (addr width : Z) (gas : GasCounter) :=
  touch m addr width false gas.
Definition cm_touch_write (m : CopyingMemory) (addr width : Z) (gas : GasCounter) :=
  touch m addr width true gas.

(** *** Width-typed accesses *)

(** The bounds test and the unaligned little-endian load of [n] bytes. *)
Definition read_le (m : CopyingMemory) (n : nat) (addr : Z) : option Z :=
  let a := off m addr in
  if a + Z.of_nat n <=? flat_len m
  then Some (from_le_bytes (take n (drop (Z.to_nat a) (flat_mem m)))) else None.

Definition cm_read_u8 (m : CopyingMemory) (addr : Z) : option Z := read_le m 1 addr.
Definition cm_read_u16_le (m : CopyingMemory) (addr : Z) : option Z := read_le m 2 addr.
Definition cm_read_u32_le (m : CopyingMemory) (addr : Z) : option Z := read_le m 4 addr.
Definition cm_read_u64_le (m : CopyingMemory) (addr : Z) : option Z := read_le m 8 addr.

Definition write_le (m : CopyingMemory) (n : nat) (addr v : Z) : CopyingMemory * bool :=
  let a := off m addr in
  if a + Z.of_nat n <=? flat_len m
  then (with_flat m (splice (flat_mem m) (Z.to_nat a) (to_le_bytes n v)), true) else (m, false).

Definition cm_write_u8 (m : CopyingMemory) (addr v : Z) := write_le m 1 addr v.
Definition cm_write_u16_le (m : CopyingMemory) (addr v : Z) := write_le m 2 addr v.
Definition cm_write_u32_le (m : CopyingMemory) (addr v : Z) := write_le m 4 addr v.
Definition cm_write_u64_le (m : CopyingMemory) (addr v : Z) := write_le m 8 addr v.

(** *** Regions and the slow path *)

(** [v.resize(n, x)] for [n] at least the length. *)
Definition grow (l : list Z) (n : nat) (x : Z) : list Z := l ++ replicate (n - length l) x.

(** [for p in first..=last { perms[p] = v }] *)
Fixpoint set_range (l : list Z) (first : nat) (count : nat) (v : Z) : Res (list Z) :=
  match count with
  | O => Ret l
  | S count' =>
      let! _ := expect (l !! first) in
      set_range (<[first := v]> l) (S first) count' v
  end.

Definition grow_to (m : CopyingMemory) (rel_end : Z) : CopyingMemory :=
  if flat_len m <? rel_end then
    let needed_pages := Z.to_nat (div_ceil rel_end PAGE_SIZE) in
    let m := with_flat m (grow (flat_mem m) (Z.to_nat rel_end) 0) in
    let m := if (length (perms m) <? needed_pages)%nat
             then with_perms m (grow (perms m) needed_pages perm_NONE) else m in
    if (length (mat_state m) <? needed_pages)%nat
    then with_mat m (grow (mat_state m) needed_pages (PageState_as_u8 NotPresent)) else m
  else m.

Definition cm_map_region (m : CopyingMemory) (start size : Z) (access : Access) (init : option (list Z))
    : Res (CopyingMemory * Result unit MapError) :=
  if negb (start mod PAGE_SIZE =? 0) then Ret (m, Err (UnalignedStart start))
  else if negb (size mod PAGE_SIZE =? 0) then Ret (m, Err (UnalignedSize size))
  else if start <? base m then Ret (m, Err (UnalignedStart start))
  else
    let rel_start := start - base m in
    match checked_add 64 rel_start size with
    | None => Ret (m, Err Overflow)
    | Some rel_end =>
        let m := grow_to m rel_end in
        let perm_byte := match access with ReadOnly => perm_RO | ReadWrite => perm_RW end in
        let first_page := rel_start / PAGE_SIZE in
        let last_page := saturating_sub (rel_end / PAGE_SIZE) 1 in
        let! m :=
          if 0 <? size then
            let! p := set_range (perms m) (Z.to_nat first_page)
                        (Z.to_nat (last_page - first_page + 1)) perm_byte in
            Ret (with_perms m p)
          else Ret m in
        match init with
        | Some bytes =>
            let n := Z.min (Z.of_nat (length bytes)) size in
            if rel_start + n <=? flat_len m
            then Ret (with_flat m (splice (flat_mem m) (Z.to_nat rel_start) (take (Z.to_nat n) bytes)), Ok tt)
            else Abort
        | None => Ret (m, Ok tt)
        end
    end.

Definition cm_read (m : CopyingMemory) (addr len : Z) : Result (list Z) MemAccess :=
  let a := off m addr in
  match checked_add 64 a len with
  | None => Err (PageFault (page_of addr))
  | Some e =>
      if flat_len m <? e then Err (PageFault (page_of addr))
      else Ok (take (Z.to_nat len) (drop (Z.to_nat a) (flat_mem m)))
  end.

(** First page of [p, p + 1, ...], [count] of them, that is not writable;
    [perms.get(p)] past the end reads [NONE]. *)
Fixpoint first_unwritable (perms : list Z) (p : nat) (count : nat) : option nat :=
  match count with
  | O => None
  | S count' =>
      if default perm_NONE (perms !! p) =? perm_RW then first_unwritable perms (S p) count'
      else Some p
  end.

(** The page loop cannot pass the end of [perms], so it is cut there. *)
Definition cm_write (m : CopyingMemory) (addr : Z) (data : list Z) : CopyingMemory * Result unit MemAccess :=
  let a := off m addr in
  match checked_add 64 a (Z.of_nat (length data)) with
  | None => (m, Err (PageFault (page_of addr)))
  | Some e =>
      if flat_len m <? e then (m, Err (PageFault (page_of addr)))
      else
        let start_page := a / PAGE_SIZE in
        let last_page := wrapping_sub 64 e 1 / PAGE_SIZE in
        let count := Z.min (last_page - start_page + 1) (Z.of_nat (S (length (perms m)))) in
        match first_unwritable (perms m) (Z.to_nat start_page) (Z.to_nat count) with
        | Some p => (m, Err (WriteProtected (wrap 32 (Z.of_nat p * PAGE_SIZE))))
        | None => (with_flat m (splice (flat_mem m) (Z.to_nat a) data), Ok tt)
        end
  end.

#[export] Instance CopyingMemory_Memory : Memory CopyingMemory := {
  read_u8 := cm_read_u8; read_u16_le := cm_read_u16_le;
  read_u32_le := cm_read_u32_le; read_u64_le := cm_read_u64_le;
  write_u8 := cm_write_u8; write_u16_le := cm_write_u16_le;
  write_u32_le := cm_write_u32_le; write_u64_le := cm_write_u64_le;
  map_region := cm_map_region; perm_of := cm_perm_of;
  mem_read := cm_read; mem_write := cm_write;
  touch_read := cm_touch_read; touch_write := cm_touch_write }.

(** ** What a memory promises to the interpreter *)

(** [cow_left] is the copy-on-write gas the memory can still charge: a write
    touch of [width] bytes charges some [c] that depends only on the memory and
    the access, at most two copies, and takes [c] out of [cow_left]. *)
Class MemoryLaws (M : Type) `{Memory M} := {
  mem_inv : M -> Prop;
  cow_left : M -> Z;
  cow_left_range m : mem_inv m -> 0 <= cow_left m <= 2 ^ 28;
  read_u8_range m a v : mem_inv m -> read_u8 m a = Some v -> is_u 8 v;
  read_u16_range m a v : mem_inv m -> read_u16_le m a = Some v -> is_u 16 v;
  read_u32_range m a v : mem_inv m -> read_u32_le m a = Some v -> is_u 32 v;
  read_u64_range m a v : mem_inv m -> read_u64_le m a = Some v -> is_u 64 v;
  write_u8_inv m a v m' b : mem_inv m -> write_u8 m a v = (m', b) ->
    mem_inv m' /\ cow_left m' = cow_left m;
  write_u16_inv m a v m' b : mem_inv m -> write_u16_le m a v = (m', b) ->
    mem_inv m' /\ cow_left m' = cow_left m;
  write_u32_inv m a v m' b : mem_inv m -> write_u32_le m a v = (m', b) ->
    mem_inv m' /\ cow_left m' = cow_left m;
  write_u64_inv m a v m' b : mem_inv m -> write_u64_le m a v = (m', b) ->
    mem_inv m' /\ cow_left m' = cow_left m;
  touch_read_law m a w : mem_inv m -> is_u 32 a -> 1 <= w <= 8 ->
    exists m' r, mem_inv m' /\ cow_left m' = cow_left m /\
      forall g, 0 <= remaining g -> touch_read m a w g = Ret (m', g, r);
  touch_write_law m a w : mem_inv m -> is_u 32 a -> 1 <= w <= 8 ->
    exists c m' r, mem_inv m' /\ 0 <= c <= COW_COST * MAX_PAGES_PER_ACCESS /\
      c + cow_left m' = cow_left m /\
      forall g, c <= remaining g -> touch_write m a w g = Ret (m', mkGas (remaining g - c), r) }.

(** ** The flat buffer keeps the promise *)

(** Pages not yet writable-present in a [mat_state] vector. *)
Definition uncopied (s : list Z) : Z :=
  Z.of_nat (length (List.filter (fun st => negb (st =? PageState_as_u8 PresentRw)) s)).

(** [perms] and [mat_state] cover every page of the buffer, which fits the
    32-bit guest space. *)
Record mem_ok (m : CopyingMemory) : Prop := {
  mo_base : is_u 32 (base m);
  mo_bytes : Forall (is_u 8) (flat_mem m);
  mo_perms : flat_len m <= PAGE_SIZE * Z.of_nat (length (perms m));
  mo_mat : length (mat_state m) = length (perms m);
  mo_fits : Z.of_nat (length (perms m)) <= 2 ^ 20 }.

Lemma uncopied_cons x s :
  uncopied (x :: s) = (if x =? PageState_as_u8 PresentRw then 0 else 1) + uncopied s.
Proof. unfold uncopied. cbn [List.filter]. destruct (x =? _); cbn [negb length]; lia. Qed.

Lemma uncopied_range s : 0 <= uncopied s <= Z.of_nat (length s).
Proof.
  induction s as [|x s IH]; [done|]. rewrite uncopied_cons. cbn [length]. destruct (x =? _); lia.
Qed.

Lemma uncopied_insert s i st x :
  s !! i = Some st ->
  uncopied (<[i := x]> s) + (if st =? PageState_as_u8 PresentRw then 0 else 1) =
  uncopied s + (if x =? PageState_as_u8 PresentRw then 0 else 1).
Proof.
  revert i. induction s as [|y s IH]; intros [|i] H; try done.
  - injection H as ->. cbn [insert list_insert]. rewrite !uncopied_cons. lia.
  - change (<[S i := x]> (y :: s)) with (y :: <[i := x]> s).
    rewrite !uncopied_cons. specialize (IH i H). lia.
Qed.

Lemma PageState_from_u8_eqb st :
  PageState_from_u8 st = if st =? 1 then PresentRo else if st =? 2 then PresentRw else NotPresent.
Proof. destruct st as [|[p|[p|p|]|]|p]; reflexivity. Qed.

(** One page of the second loop: the charge is what [uncopied] loses. *)
Lemma charge_for_uncopied s i st w c next :
  s !! i = Some st ->
  charge_for (PageState_from_u8 st) UnpinnedCapCow w = Ok (c, next) ->
  0 <= c <= COW_COST /\ (w = false -> c = 0) /\
  c + COW_COST * uncopied (<[i := PageState_as_u8 next]> s) = COW_COST * uncopied s.
Proof.
  intros Hs H. pose proof (uncopied_insert s i st (PageState_as_u8 next) Hs) as U.
  unfold charge_for in H. rewrite andb_comm, PageState_from_u8_eqb in H.
  change (PageState_as_u8 PresentRw) with 2 in U. unfold COW_COST in *. cbn [bool_decide decide_rel andb] in H.
  destruct (Z.eqb_spec st 1), (Z.eqb_spec st 2), w; injection H as <- <-; subst;
    cbn [PageState_as_u8 Z.eqb Pos.eqb] in *; lia.
Qed.

(** A page address inside the buffer has a permission and a state. *)
Lemma page_index_covered m p i :
  mem_ok m -> page_index m p = Some i ->
  exists pm st, perms m !! i = Some pm /\ mat_state m !! i = Some st.
Proof.
  intros OK. unfold page_index. destruct (Z.ltb_spec (off m p) (flat_len m)) as [Hl|]; [|done].
  intros [= <-]. pose proof (mo_perms m OK). pose proof (mo_mat m OK) as E.
  assert (0 <= off m p) by (apply wrap_range; lia).
  unfold PAGE_SIZE in *. change (Z.shiftl 1 12) with 4096 in *.
  assert (Z.to_nat (off m p / 4096) < length (perms m))%nat as Hi by dlia.
  destruct (lookup_lt_is_Some_2 (perms m) _ Hi) as [pm Hpm].
  rewrite <- E in Hi. destruct (lookup_lt_is_Some_2 (mat_state m) _ Hi) as [st Hst]. eauto.
Qed.

Lemma accessible_all_total m pages w : mem_ok m -> exists b, accessible_all m pages w = Ret b.
Proof.
  intros OK. induction pages as [|p pages [b IH]]; cbn; [eauto|].
  destruct (page_index m p) as [i|] eqn:E; [|eauto].
  destruct (page_index_covered m p i OK E) as (pm & _ & -> & _). cbn. destruct (_ || _); eauto.
Qed.

Lemma accessible_all_true m pages w :
  accessible_all m pages w = Ret true ->
  Forall (fun p => exists i pm, page_index m p = Some i /\ perms m !! i = Some pm /\
    pm <> perm_NONE /\ (w = true -> pm = perm_RW)) pages.
Proof.
  induction pages as [|p pages IH]; cbn; [constructor|].
  destruct (page_index m p) as [i|] eqn:E; [|done].
  destruct (perms m !! i) as [pm|] eqn:Ep; [|done]. cbn.
  destruct (Z.eqb_spec pm perm_NONE); [done|]. cbn.
  destruct (w && negb (pm =? perm_RW)) eqn:Ew; [done|]. intros H. constructor; [|auto].
  exists i, pm. repeat split; auto. intros ->. destruct (Z.eqb_spec pm perm_RW); done.
Qed.

(** The second loop always completes, whatever pages it visits, and what it
    charges is what [uncopied] loses. *)
Lemma materialize_all_spec m pages w total :
  mem_ok m -> Forall (fun p => page_index m p <> None) pages ->
  exists c s, materialize_all m pages w total = Ret (with_mat m s, total + c) /\
    length s = length (mat_state m) /\
    0 <= c <= COW_COST * Z.of_nat (length pages) /\ (w = false -> c = 0) /\
    c + COW_COST * uncopied s = COW_COST * uncopied (mat_state m).
Proof.
  revert m total. induction pages as [|p pages IH]; intros m total OK F; cbn [materialize_all length].
  { exists 0, (mat_state m). rewrite Z.add_0_r. unfold COW_COST. destruct m. repeat split; lia. }
  inversion F as [|? ? Hp F']; subst. destruct (page_index m p) as [i|] eqn:Ei; [|done].
  destruct (page_index_covered m p i OK Ei) as (pm & st & Epm & Est).
  cbn [expect res_bind]. rewrite Epm. cbn [expect res_bind]. destruct (negb (pm =? perm_RO)).
  2: { destruct (IH m total OK F') as (c & s & E & ? & ? & ? & ?). exists c, s. rewrite E.
       unfold COW_COST in *. repeat split; (done || lia). }
  rewrite Est. cbn [expect res_bind].
  destruct (charge_for (PageState_from_u8 st) UnpinnedCapCow w) as [[c1 next]|e] eqn:Ec.
  2: { unfold charge_for in Ec. by rewrite andb_comm in Ec. }
  destruct (charge_for_uncopied _ _ _ _ _ _ Est Ec) as (? & Hc0 & U).
  cbn [expect_ok res_bind]. set (s1 := <[i := PageState_as_u8 next]> (mat_state m)) in *.
  assert (length s1 = length (mat_state m)) as L by (unfold s1; apply length_insert).
  assert (mem_ok (with_mat m s1)) as OK1.
  { destruct OK. split; cbn [with_mat base flat_mem perms mat_state]; try done. by rewrite L. }
  destruct (IH (with_mat m s1) (total + c1) OK1 F') as (c & s & E & L2 & ? & Hc1 & U2).
  exists (c1 + c), s. rewrite E. cbn [with_mat mat_state] in *. unfold COW_COST in *.
  repeat split; try lia; [by rewrite Z.add_assoc|]. intros Hw. rewrite Hc0, Hc1 by done. done.
Qed.

Lemma as_slice_shape a w :
  exists p0 ps, as_slice (access_pages a w) = p0 :: ps /\ (length ps <= 1)%nat.
Proof. unfold access_pages. destruct (_ <? _); cbn; eauto. Qed.

Lemma with_mat_ok m s : mem_ok m -> length s = length (mat_state m) -> mem_ok (with_mat m s).
Proof.
  intros [] L. split; cbn [with_mat base flat_mem perms mat_state]; try done. by rewrite L.
Qed.

(** A touch, whatever the gas: nothing changes but page states, the charge is
    what [uncopied] loses, and a failed touch charges and changes nothing. *)
Lemma touch_spec m a w is_write :
  mem_ok m ->
  exists c s r, length s = length (mat_state m) /\
    0 <= c <= COW_COST * MAX_PAGES_PER_ACCESS /\ (is_write = false -> c = 0) /\
    c + COW_COST * uncopied s = COW_COST * uncopied (mat_state m) /\
    (r = Err touch_fault -> s = mat_state m) /\
    forall g, c <= remaining g ->
      touch m a w is_write g = Ret (with_mat m s, mkGas (remaining g - c), r).
Proof.
  intros OK. destruct (as_slice_shape a w) as (p0 & ps & E & Lp).
  assert (forall r (Q : forall g, touch m a w is_write g = Ret (m, g, r)),
    exists c s r, length s = length (mat_state m) /\
    0 <= c <= COW_COST * MAX_PAGES_PER_ACCESS /\ (is_write = false -> c = 0) /\
    c + COW_COST * uncopied s = COW_COST * uncopied (mat_state m) /\
    (r = Err touch_fault -> s = mat_state m) /\
    forall g, c <= remaining g ->
      touch m a w is_write g = Ret (with_mat m s, mkGas (remaining g - c), r)) as Hsame.
  { intros r Q. exists 0, (mat_state m), r. unfold COW_COST, MAX_PAGES_PER_ACCESS.
    repeat split; try lia. intros [g] _. rewrite Q, Z.sub_0_r. by destruct m. }
  unfold touch in *. rewrite E in *. cbn [head expect res_bind] in *.
  destruct (page_index m p0) as [i|] eqn:Ei.
  2: { cbn [res_bind] in *. destruct (is_code_page m p0); eauto. }
  destruct (page_index_covered m p0 i OK Ei) as (pm & _ & Epm & _).
  rewrite Epm in *. cbn [expect res_bind] in *. destruct (negb (pm =? perm_NONE)).
  2: { destruct (is_code_page m p0); eauto. }
  unfold touch_data in *. destruct (accessible_all_total m (p0 :: ps) is_write OK) as [b Eb].
  rewrite Eb in *. cbn [res_bind] in *. destruct b; cbn [negb] in *; [|eauto].
  destruct (materialize_all_spec m (p0 :: ps) is_write 0 OK) as (c & s & Em & ? & ? & ? & ?).
  { eapply Forall_impl; [|exact (accessible_all_true _ _ _ Eb)]. cbn. intros ? (? & ? & -> & _). done. }
  exists c, s, (Ok tt). rewrite Em. cbn [res_bind length] in *. unfold COW_COST, MAX_PAGES_PER_ACCESS in *.
  repeat split; try lia; try done. intros g Hg. rewrite charge_expect_ok by lia. cbn. done.
Qed.


(** ** Width-typed accesses *)

Lemma off_range m a : 0 <= off m a < 2 ^ 32.
Proof. apply wrap_range. lia. Qed.

Lemma read_le_range m n a v :
  mem_ok m -> read_le m n a = Some v -> is_u (8 * Z.of_nat n) v.
Proof.
  intros OK. unfold read_le. cbv zeta. destruct (Z.leb_spec (off m a + Z.of_nat n) (flat_len m)) as [H|];
    [|done]. intros [= <-]. pose proof (off_range m a) as R. unfold flat_len in *.
  pose proof (from_le_bytes_range (take n (drop (Z.to_nat (off m a)) (flat_mem m)))) as F.
  rewrite length_take, length_drop, Nat.min_l in F by lia. apply F.
  by apply Forall_take, Forall_drop, (mo_bytes m OK).
Qed.

Lemma write_le_inv m n a v m' b :
  mem_ok m -> write_le m n a v = (m', b) -> mem_ok m' /\ mat_state m' = mat_state m.
Proof.
  intros OK. unfold write_le. cbv zeta. destruct (Z.leb_spec (off m a + Z.of_nat n) (flat_len m)) as [H|];
    intros [= <- <-]; [|done]. pose proof (off_range m a) as R. split; [|done].
  destruct OK. split; cbn [with_flat base flat_mem perms mat_state]; try done.
  - apply splice_bytes; [done|]. apply to_le_bytes_bytes.
  - unfold flat_len in *. cbn [with_flat flat_mem].
    rewrite length_splice by (rewrite length_to_le_bytes; lia). done.
Qed.

(** The flat buffer is a lawful memory. *)
#[export] Instance CopyingMemory_laws : MemoryLaws CopyingMemory.
Proof.
  refine {| mem_inv := mem_ok; cow_left m := COW_COST * uncopied (mat_state m) |}.
  - intros m OK. pose proof (uncopied_range (mat_state m)). pose proof (mo_mat m OK).
    pose proof (mo_fits m OK). unfold COW_COST. lia.
  - intros m a v OK H. exact (read_le_range m 1 a v OK H).
  - intros m a v OK H. exact (read_le_range m 2 a v OK H).
  - intros m a v OK H. exact (read_le_range m 4 a v OK H).
  - intros m a v OK H. exact (read_le_range m 8 a v OK H).
  - intros m a v m' b OK H. by destruct (write_le_inv m 1 a v m' b OK H) as [? ->].
  - intros m a v m' b OK H. by destruct (write_le_inv m 2 a v m' b OK H) as [? ->].
  - intros m a v m' b OK H. by destruct (write_le_inv m 4 a v m' b OK H) as [? ->].
  - intros m a v m' b OK H. by destruct (write_le_inv m 8 a v m' b OK H) as [? ->].
  - intros m a w OK _ _. destruct (touch_spec m a w false OK) as (c & s & r & L & _ & C0 & U & _ & T).
    rewrite (C0 eq_refl) in *. exists (with_mat m s), r. split; [by apply with_mat_ok|].
    cbn [with_mat mat_state]. split; [lia|]. intros [g] Hg. unfold touch_read. cbn [CopyingMemory_Memory].
    unfold cm_touch_read. by rewrite T, Z.sub_0_r.
  - intros m a w OK _ _. destruct (touch_spec m a w true OK) as (c & s & r & L & C & _ & U & _ & T).
    exists c, (with_mat m s), r. split; [by apply with_mat_ok|]. auto.
Defined.

(** ** Properties of the buffer *)

Lemma take_1_drop (l : list Z) k :
  take 1 (drop k l) = match l !! k with Some b => [b] | None => [] end.
Proof. revert k. induction l as [|x l IH]; intros [|k]; cbn; auto. Qed.

(** A store is exact. When a write of [n] bytes succeeds, reading them back
    gives the value truncated to [n] bytes, every single byte outside the
    written range reads as before, permissions and page states are untouched,
    and the write succeeds exactly when the range is inside the buffer. *)
Theorem write_le_exact m n addr v m' ok :
  mem_ok m -> write_le m n addr v = (m', ok) ->
  (ok = true <-> off m addr + Z.of_nat n <= flat_len m) /\
  (ok = false -> m' = m) /\
  (ok = true ->
   read_le m' n addr = Some (wrap (8 * Z.of_nat n) v) /\
   (forall x, ~ (off m addr <= off m x < off m addr + Z.of_nat n) -> read_le m' 1 x = read_le m 1 x) /\
   perms m' = perms m /\ mat_state m' = mat_state m).
Proof.
  intros OK. unfold write_le. cbv zeta. pose proof (off_range m addr) as R.
  destruct (Z.leb_spec (off m addr + Z.of_nat n) (flat_len m)) as [H|H]; intros [= <- <-].
  2: { repeat split; (done || lia). }
  set (bs := to_le_bytes n v).
  assert (length bs = n) as Lb by apply length_to_le_bytes.
  assert (Z.to_nat (off m addr) + length bs <= length (flat_mem m))%nat as Hfit
    by (unfold flat_len in H; lia).
  split; [split; [intros _; done|done]|]. split; [done|]. intros _.
  assert (flat_len (with_flat m (splice (flat_mem m) (Z.to_nat (off m addr)) bs)) = flat_len m) as Lf.
  { unfold flat_len. cbn [with_flat flat_mem]. by rewrite length_splice. }
  split; [|split; [|done]].
  - unfold read_le. cbv zeta. rewrite Lf. cbn [with_flat flat_mem off base].
    change (off (with_flat m _) addr) with (off m addr).
    destruct (Z.leb_spec (off m addr + Z.of_nat n) (flat_len m)); [|lia].
    rewrite <- Lb at 1. rewrite take_drop_splice by done. unfold bs. by rewrite from_to_le_bytes.
  - intros x Hx. unfold read_le. cbv zeta. rewrite Lf. change (off (with_flat m _) x) with (off m x).
    pose proof (off_range m x). cbn [with_flat flat_mem].
    destruct (Z.leb_spec (off m x + Z.of_nat 1) (flat_len m)) as [Hi|]; [|done].
    rewrite !take_1_drop, splice_lookup by done. rewrite bool_decide_false; [done|]. lia.
Qed.

(** A page of data at [0x10000000], for the examples. *)
Definition sample_mem : CopyingMemory :=
  mkMem 0x10000000 (replicate 16 0) [perm_RW] [0] 0 0 0 0 0.

Lemma sample_mem_ok : mem_ok sample_mem.
Proof.
  split; [by cbn| |by vm_compute|done|by vm_compute].
  apply Forall_replicate. unfold is_u. lia.
Qed.

Lemma write_le_exact_witness :
  read_le (fst (write_le sample_mem 4 0x10000004 0xDEADBEEF)) 4 0x10000004 = Some 0xDEADBEEF.
Proof.
  destruct (write_le_exact sample_mem 4 0x10000004 0xDEADBEEF
    (fst (write_le sample_mem 4 0x10000004 0xDEADBEEF)) true sample_mem_ok eq_refl) as (_ & _ & H).
  apply H. reflexivity.
Defined.

(** A first touch is all-or-nothing and charges exactly the copies it
    makes. It never panics when two copies are affordable; it changes no byte
    and no permission; the gas it takes is [COW_COST] for each page that became
    writable-present; a refused touch takes no gas and changes nothing; and a
    read touch is free. *)
Theorem touch_all_or_nothing m addr width is_write g :
  mem_ok m -> COW_COST * MAX_PAGES_PER_ACCESS <= remaining g ->
  exists m' g' r, touch m addr width is_write g = Ret (m', g', r) /\
    mem_ok m' /\ flat_mem m' = flat_mem m /\ perms m' = perms m /\
    remaining g = remaining g' + COW_COST * (uncopied (mat_state m) - uncopied (mat_state m')) /\
    remaining g - COW_COST * MAX_PAGES_PER_ACCESS <= remaining g' <= remaining g /\
    (r = Err touch_fault -> m' = m /\ g' = g) /\
    (is_write = false -> g' = g).
Proof.
  intros OK Hg. destruct (touch_spec m addr width is_write OK) as (c & s & r & L & C & C0 & U & E & T).
  exists (with_mat m s), (mkGas (remaining g - c)), r.
  split; [apply T; lia|]. split; [by apply with_mat_ok|]. cbn [with_mat flat_mem perms mat_state remaining].
  assert (c = 0 -> mkGas (remaining g - c) = g) as G.
  { intros ->. rewrite Z.sub_0_r. by destruct g. }
  repeat split; try done; try lia.
  - rewrite (E H). by destruct m.
  - apply G. rewrite (E H) in U. lia.
  - intros H. apply G. auto.
Qed.

Lemma touch_all_or_nothing_witness :
  remaining (mkGas 1000) = 1000 /\
  exists m' g' r, touch sample_mem 0x10000008 8 true (mkGas 1000) = Ret (m', g', r) /\
    mem_ok m' /\ flat_mem m' = flat_mem sample_mem /\ perms m' = perms sample_mem /\
    remaining (mkGas 1000) = remaining g' + COW_COST * (uncopied (mat_state sample_mem) - uncopied (mat_state m')) /\
    remaining (mkGas 1000) - COW_COST * MAX_PAGES_PER_ACCESS <= remaining g' <= remaining (mkGas 1000) /\
    (r = Err touch_fault -> m' = sample_mem /\ g' = mkGas 1000) /\
    (true = false -> g' = mkGas 1000).
Proof.
  split; [reflexivity|].
  apply (touch_all_or_nothing sample_mem 0x10000008 8 true (mkGas 1000) sample_mem_ok). by vm_compute.
Defined.

(** ** Mapping a region *)

Lemma length_grow l n x : length (grow l n x) = Nat.max (length l) n.
Proof. unfold grow. rewrite length_app, length_replicate. lia. Qed.

Lemma grow_lookup l n x i :
  grow l n x !! i =
    if bool_decide (i < length l)%nat then l !! i
    else if bool_decide (i < n)%nat then Some x else None.
Proof.
  unfold grow. case_bool_decide as H1.
  - by apply lookup_app_l.
  - rewrite lookup_app_r by lia. case_bool_decide as H2.
    + apply lookup_replicate_2. lia.
    + apply lookup_ge_None_2. rewrite length_replicate. lia.
Qed.

Lemma set_range_spec l first count v :
  (first + count <= length l)%nat ->
  exists l', set_range l first count v = Ret l' /\ length l' = length l /\
    forall i, l' !! i = if bool_decide (first <= i < first + count)%nat then Some v else l !! i.
Proof.
  revert l first. induction count as [|count IH]; intros l first H; cbn [set_range].
  - exists l. repeat split. intros i. rewrite bool_decide_false; [done|lia].
  - destruct (lookup_lt_is_Some_2 l first ltac:(lia)) as [x ->]. cbn [expect res_bind].
    destruct (IH (<[first := v]> l) (S first)) as (l' & E & Ll & P); [rewrite length_insert; lia|].
    exists l'. rewrite E, Ll, length_insert. repeat split. intros i. rewrite P.
    destruct (Nat.eq_dec i first) as [->|].
    + rewrite bool_decide_false, bool_decide_true by lia. by apply list_lookup_insert_eq; lia.
    + rewrite list_lookup_insert_ne by done.
      destruct (decide (S first <= i < S first + count)%nat).
      * rewrite !bool_decide_true by lia. done.
      * rewrite !bool_decide_false by lia. done.
Qed.

Lemma grow_noop l n x : (n <= length l)%nat -> grow l n x = l.
Proof. intros. unfold grow. replace (n - length l)%nat with O by lia. apply app_nil_r. Qed.

Lemma grow_bytes l n : Forall (is_u 8) l -> Forall (is_u 8) (grow l n 0).
Proof.
  intros. unfold grow. apply Forall_app_2; [done|]. apply Forall_replicate. unfold is_u. lia.
Qed.

(** Growing is the same three extensions whether or not the buffer is short. *)
Lemma grow_to_spec m e :
  mem_ok m -> 0 <= e ->
  let pages := Z.to_nat (div_ceil e PAGE_SIZE) in
  grow_to m e =
  mkMem (base m) (grow (flat_mem m) (Z.to_nat e) 0) (grow (perms m) pages perm_NONE)
    (grow (mat_state m) pages (PageState_as_u8 NotPresent)) (code_base m) (code_top m)
    (heap_base m) (heap_top m) (max_heap_pages m).
Proof.
  intros OK He pages. unfold grow_to. fold pages.
  destruct (Z.ltb_spec (flat_len m) e) as [H|H].
  - cbn [with_flat perms mat_state].
    destruct (Nat.ltb_spec (length (perms m)) pages), (Nat.ltb_spec (length (mat_state m)) pages);
      cbn [with_flat with_perms with_mat base flat_mem perms mat_state code_base code_top heap_base
        heap_top max_heap_pages length];
      destruct (Nat.ltb_spec (length (mat_state m)) pages); try lia;
      cbn [with_flat with_perms with_mat base flat_mem perms mat_state code_base code_top heap_base
        heap_top max_heap_pages]; rewrite ?(grow_noop (perms m)), ?(grow_noop (mat_state m)) by lia; done.
  - assert (pages <= length (perms m))%nat.
    { pose proof (mo_perms m OK). unfold pages, div_ceil, PAGE_SIZE in *.
      change (Z.shiftl 1 12) with 4096 in *. dlia. }
    pose proof (mo_mat m OK).
    rewrite !grow_noop by (unfold flat_len in H; lia). by destruct m.
Qed.

Section MapRegion.
  Context (m : CopyingMemory) (start size : Z) (access : Access) (init : option (list Z)).
  Context (OK : mem_ok m) (Hbase : base m mod PAGE_SIZE = 0).
  Context (Hstart : start mod PAGE_SIZE = 0) (Hsize : size mod PAGE_SIZE = 0).
  Context (Hlo : base m <= start) (Hpos : 0 <= size) (Hhi : start + size <= base m + 2 ^ 32).
  Context (Hinit : forall bs, init = Some bs -> Forall (is_u 8) bs).

  #[local] Abbreviation rel := (start - base m).
  #[local] Abbreviation perm_byte := (match access with ReadOnly => perm_RO | ReadWrite => perm_RW end).

(** The bytes the region is initialised with, cut to its size. *)
Definition init_bytes : list Z :=
  match init with Some bs => take (Z.to_nat (Z.min (Z.of_nat (length bs)) size)) bs | None => [] end.

Lemma map_region_result :
  exists p, length p = Nat.max (length (perms m)) (Z.to_nat ((rel + size) / PAGE_SIZE)) /\
    (forall i, p !! i = if bool_decide (Z.to_nat (rel / PAGE_SIZE) <= i < Z.to_nat ((rel + size) / PAGE_SIZE))%nat
       then Some perm_byte else grow (perms m) (Z.to_nat ((rel + size) / PAGE_SIZE)) perm_NONE !! i) /\
    cm_map_region m start size access init =
    Ret (mkMem (base m)
           (splice (grow (flat_mem m) (Z.to_nat (rel + size)) 0) (Z.to_nat rel) init_bytes) p
           (grow (mat_state m) (Z.to_nat ((rel + size) / PAGE_SIZE)) (PageState_as_u8 NotPresent))
           (code_base m) (code_top m) (heap_base m) (heap_top m) (max_heap_pages m), Ok tt).
Proof using OK Hbase Hstart Hsize Hlo Hpos Hhi.
  clear Hinit. unfold cm_map_region. rewrite Hstart, Hsize. cbn [Z.eqb negb].
  destruct (Z.ltb_spec start (base m)); [lia|]. unfold checked_add.
  assert (is_u 32 (base m)) as Hb by (by destruct OK). unfold is_u in Hb.
  destruct (Z.ltb_spec (rel + size) (2 ^ 64)); [|lia].
  rewrite grow_to_spec by (done || lia). cbn [perms].
  unfold PAGE_SIZE in *. change (Z.shiftl 1 12) with 4096 in *.
  replace (div_ceil (rel + size) 4096) with ((rel + size) / 4096) by (unfold div_ceil; dlia).
  set (pages := Z.to_nat ((rel + size) / 4096)).
  assert (pages = Z.to_nat (rel / 4096) + Z.to_nat (size / 4096))%nat as Hp by (unfold pages; dlia).
  assert (exists p, length p = Nat.max (length (perms m)) pages /\
    (forall i, p !! i = if bool_decide (Z.to_nat (rel / 4096) <= i < pages)%nat
       then Some perm_byte else grow (perms m) pages perm_NONE !! i) /\
    forall b f s cb ct hb ht mh,
    (if 0 <? size then
       let! p := set_range (grow (perms m) pages perm_NONE) (Z.to_nat (rel / 4096))
         (Z.to_nat (saturating_sub ((rel + size) / 4096) 1 - rel / 4096 + 1)) perm_byte in
       Ret (with_perms (mkMem b f (grow (perms m) pages perm_NONE) s cb ct hb ht mh) p)
     else Ret (mkMem b f (grow (perms m) pages perm_NONE) s cb ct hb ht mh)) =
    Ret (mkMem b f p s cb ct hb ht mh)) as (p & Lp & Pp & Ep).
  { destruct (Z.ltb_spec 0 size) as [Hs|Hs].
    - destruct (set_range_spec (grow (perms m) pages perm_NONE) (Z.to_nat (rel / 4096))
        (Z.to_nat (size / 4096)) perm_byte) as (p & E & L & P).
      { rewrite length_grow. lia. }
      exists p. rewrite L, length_grow. split; [done|]. rewrite <- Hp in P. split; [done|].
      intros. replace (saturating_sub ((rel + size) / 4096) 1 - rel / 4096 + 1) with (size / 4096)
        by (unfold saturating_sub; dlia). by rewrite E.
    - exists (grow (perms m) pages perm_NONE). rewrite length_grow. split; [done|]. split; [|done].
      intros i. assert (size / 4096 = 0) as Z0 by dlia. rewrite Z0 in Hp.
      rewrite bool_decide_false by lia. done. }
  exists p. split; [done|]. split; [done|]. rewrite Ep. cbn [res_bind flat_len flat_mem with_flat].
  unfold init_bytes. destruct init as [bs|]; [|].
  - unfold flat_len. cbn [flat_mem]. rewrite length_grow.
    destruct (Z.leb_spec (rel + Z.min (Z.of_nat (length bs)) size)
      (Z.of_nat (Nat.max (length (flat_mem m)) (Z.to_nat (rel + size))))); [done|lia].
  - unfold splice. cbn [length app]. rewrite Nat.add_0_r, take_drop. done.
Qed.
End MapRegion.

(** Permission of an address, from the page vector. *)
Lemma perm_of_page m x :
  base m mod PAGE_SIZE = 0 -> is_u 32 (base m) -> base m <= x < base m + 2 ^ 32 ->
  cm_perm_of m x = default perm_NONE (perms m !! Z.to_nat ((x - base m) / PAGE_SIZE)).
Proof.
  intros ? ? Hx. unfold cm_perm_of, off, wrapping_sub. rewrite wrap_small; [done|]. unfold is_u. lia.
Qed.

Lemma default_grow l n i : default perm_NONE (grow l n perm_NONE !! i) = default perm_NONE (l !! i).
Proof.
  rewrite grow_lookup. case_bool_decide; [done|].
  rewrite (lookup_ge_None_2 l) by lia. by case_bool_decide.
Qed.

Lemma length_init_bytes size init :
  0 <= size -> Z.of_nat (length (init_bytes size init)) <= size.
Proof. intros. unfold init_bytes. destruct init; cbn [length]; [rewrite length_take|]; lia. Qed.

(** Mapping a page-aligned region inside the guest space succeeds without
    panicking and does exactly what it says. The memory stays well formed;
    every address of the region gets the region's permission and no other
    address changes permission; the initial bytes (cut to the region) are
    copied to its start and every other byte, in or out of the region, keeps
    its value, bytes the buffer did not have before reading as zero. *)
Theorem map_region_exact m start size access init :
  mem_ok m -> base m mod PAGE_SIZE = 0 ->
  start mod PAGE_SIZE = 0 -> size mod PAGE_SIZE = 0 ->
  base m <= start -> 0 <= size -> start + size <= base m + 2 ^ 32 ->
  (forall bs, init = Some bs -> Forall (is_u 8) bs) ->
  exists m', cm_map_region m start size access init = Ret (m', Ok tt) /\ mem_ok m' /\ base m' = base m /\
    (forall x, base m <= x < base m + 2 ^ 32 ->
       cm_perm_of m' x =
       if (start <=? x) && (x <? start + size)
       then match access with ReadOnly => perm_RO | ReadWrite => perm_RW end
       else cm_perm_of m x) /\
    (forall k, (k < length (flat_mem m'))%nat ->
       flat_mem m' !! k =
       let j := (k - Z.to_nat (start - base m))%nat in
       if bool_decide (Z.to_nat (start - base m) <= k)%nat &&
          bool_decide (j < length (init_bytes size init))%nat
       then init_bytes size init !! j
       else Some (default 0 (flat_mem m !! k))).
Proof.
  intros OK Hb Hs Hz Hlo Hpos Hhi Hinit.
  destruct (map_region_result m start size access init OK Hb Hs Hz Hlo Hpos Hhi) as (p & Lp & Pp & E).
  pose proof (mo_base m OK) as Bu. pose proof (length_init_bytes size init Hpos) as Li.
  assert (Z.to_nat (start - base m) + length (init_bytes size init) <=
    length (grow (flat_mem m) (Z.to_nat (start - base m + size)) 0))%nat as Hfit by (rewrite length_grow; lia).
  eexists. split; [exact E|]. unfold PAGE_SIZE in *. change (Z.shiftl 1 12) with 4096 in *.
  split; [|split; [done|split]].
  - destruct OK. unfold PAGE_SIZE in *. change (Z.shiftl 1 12) with 4096 in *.
    split; cbn [base flat_mem perms mat_state]; unfold flat_len in *; cbn [flat_mem].
    + done.
    + apply splice_bytes; [by apply grow_bytes|]. unfold init_bytes.
      destruct init; [|constructor]. by apply Forall_take, Hinit.
    + unfold PAGE_SIZE. change (Z.shiftl 1 12) with 4096.
      rewrite length_splice, length_grow, Lp by done. dlia.
    + rewrite length_grow, Lp. lia.
    + rewrite Lp. dlia.
  - intros x Hx. rewrite !perm_of_page by (done || by cbn [base]). cbn [perms base].
    unfold PAGE_SIZE. change (Z.shiftl 1 12) with 4096. rewrite Pp.
    destruct (Z.leb_spec start x), (Z.ltb_spec x (start + size)); cbn [andb].
    1: rewrite bool_decide_true by dlia; done.
    all: rewrite bool_decide_false by dlia; apply default_grow.
  - cbn [flat_mem]. intros k Hk. cbv zeta. rewrite length_splice, length_grow in Hk by done.
    rewrite splice_lookup by done.
    destruct (bool_decide_reflect (Z.to_nat (start - base m) <= k)%nat); cbn [andb];
      destruct (bool_decide_reflect (k - Z.to_nat (start - base m) < length (init_bytes size init))%nat).
    1: rewrite bool_decide_true by lia; done.
    all: rewrite bool_decide_false by lia; rewrite grow_lookup; case_bool_decide as Hl.
    all: try (destruct (lookup_lt_is_Some_2 _ _ Hl) as [? ->]; done).
    all: rewrite (lookup_ge_None_2 (flat_mem m)), bool_decide_true by lia; done.
Qed.

Lemma map_region_exact_witness :
  exists m', cm_map_region sample_mem 0x10001000 4096 ReadOnly (Some [7]) = Ret (m', Ok tt) /\
    cm_perm_of m' 0x10001FFF = perm_RO /\ cm_perm_of m' 0x10000000 = perm_RW.
Proof.
  destruct (map_region_exact sample_mem 0x10001000 4096 ReadOnly (Some [7]) sample_mem_ok)
    as (m' & E & _ & _ & P & _); try reflexivity; try (cbn; lia).
  - intros bs [= <-]. repeat constructor; unfold is_u; lia.
  - exists m'. split; [exact E|]. split; rewrite P by (cbn; lia); reflexivity.
Defined.
