(* ===== verification/Interp.v ===== *)
(** * Interpreter

    Models [nub/nub-exec/src/interp.rs] and the [EcallHandler] trait of
    [ecall.rs]. [exec] is the [match] on the instruction, [step] one round of
    the loop, [loop] the loop (with fuel), [run] the entry check and the loop.
    The register-to-register arms are split by the source's section comments;
    each returns the destination and the value written. *)

From S2P Require Import Prelude MachineInt Engine GasConst Instruction InstructionFacts GasSim.
From S2P Require Import GasCost Predecode Mat Mem.

(** ** Registers and addresses *)

Definition reg_read (regs : Regs) (x : Z) : Z :=
  let s := nth (Z.to_nat (Z.land x 31)) REG_SLOT_LUT 0xFF in
  if s =? 0xFF then 0 else default 0 (r_gpr regs !! Z.to_nat s).

Definition reg_write (regs : Regs) (x v : Z) : Regs :=
  let s := nth (Z.to_nat (Z.land x 31)) REG_SLOT_LUT 0xFF in
  if s =? 0xFF then regs else mkRegs (<[Z.to_nat s := v]> (r_gpr regs)) (r_pc regs).

Definition compute_addr (regs : Regs) (rs1 imm : Z) : Z :=
  wrapping_add 32 (wrap 32 (reg_read regs rs1)) (wrap 32 imm).

(** [v as iN as i64 as u64] *)
Definition sx (w v : Z) : Z := wrap 64 (sext w v).

(** ** Register-to-register arms *)

Section Alu.
  Context (R : Z -> Z).

Definition alu_imm (i : Inst) : option (Z * Z) :=
  match i with
  | Addi rd rs1 imm => Some (rd, wrapping_add 64 (R rs1) (wrap 64 imm))
  | Slti rd rs1 imm => Some (rd, b2z (sext 64 (R rs1) <? imm))
  | Sltiu rd rs1 imm => Some (rd, b2z (R rs1 <? wrap 64 imm))
  | Andi rd rs1 imm => Some (rd, Z.land (R rs1) (wrap 64 imm))
  | Ori rd rs1 imm => Some (rd, Z.lor (R rs1) (wrap 64 imm))
  | Xori rd rs1 imm => Some (rd, Z.lxor (R rs1) (wrap 64 imm))
  | Slli rd rs1 shamt => Some (rd, wrapping_shl 64 (R rs1) (Z.land shamt 63))
  | Srli rd rs1 shamt => Some (rd, wrapping_shr 64 (R rs1) (Z.land shamt 63))
  | Srai rd rs1 shamt => Some (rd, wrap 64 (wrapping_shr 64 (sext 64 (R rs1)) (Z.land shamt 63)))
  | _ => None
  end.

Definition alu_imm_32 (i : Inst) : option (Z * Z) :=
  match i with
  | Addiw rd rs1 imm => Some (rd, wrap 64 (sext 32 (sext 32 (R rs1) + imm)))
  | Slliw rd rs1 shamt => Some (rd, sx 32 (wrapping_shl 32 (wrap 32 (R rs1)) (Z.land shamt 31)))
  | Srliw rd rs1 shamt => Some (rd, sx 32 (wrapping_shr 32 (wrap 32 (R rs1)) (Z.land shamt 31)))
  | Sraiw rd rs1 shamt => Some (rd, wrap 64 (wrapping_shr 32 (sext 32 (R rs1)) (Z.land shamt 31)))
  | _ => None
  end.

Definition alu_reg (i : Inst) : option (Z * Z) :=
  match i with
  | Add rd rs1 rs2 => Some (rd, wrapping_add 64 (R rs1) (R rs2))
  | Sub rd rs1 rs2 => Some (rd, wrapping_sub 64 (R rs1) (R rs2))
  | Sll rd rs1 rs2 => Some (rd, wrapping_shl 64 (R rs1) (Z.land (wrap 32 (R rs2)) 63))
  | Srl rd rs1 rs2 => Some (rd, wrapping_shr 64 (R rs1) (Z.land (wrap 32 (R rs2)) 63))
  | Sra rd rs1 rs2 =>
      Some (rd, wrap 64 (wrapping_shr 64 (sext 64 (R rs1)) (Z.land (wrap 32 (R rs2)) 63)))
  | Slt rd rs1 rs2 => Some (rd, b2z (sext 64 (R rs1) <? sext 64 (R rs2)))
  | Sltu rd rs1 rs2 => Some (rd, b2z (R rs1 <? R rs2))
  | Xor rd rs1 rs2 => Some (rd, Z.lxor (R rs1) (R rs2))
  | Or rd rs1 rs2 => Some (rd, Z.lor (R rs1) (R rs2))
  | And rd rs1 rs2 => Some (rd, Z.land (R rs1) (R rs2))
  | _ => None
  end.

Definition alu_reg_32 (i : Inst) : option (Z * Z) :=
  match i with
  | Addw rd rs1 rs2 => Some (rd, wrap 64 (sext 32 (sext 32 (R rs1) + sext 32 (R rs2))))
  | Subw rd rs1 rs2 => Some (rd, wrap 64 (sext 32 (sext 32 (R rs1) - sext 32 (R rs2))))
  | Sllw rd rs1 rs2 =>
      Some (rd, sx 32 (wrapping_shl 32 (wrap 32 (R rs1)) (Z.land (wrap 32 (R rs2)) 31)))
  | Srlw rd rs1 rs2 =>
      Some (rd, sx 32 (wrapping_shr 32 (wrap 32 (R rs1)) (Z.land (wrap 32 (R rs2)) 31)))
  | Sraw rd rs1 rs2 =>
      Some (rd, wrap 64 (wrapping_shr 32 (sext 32 (R rs1)) (Z.land (wrap 32 (R rs2)) 31)))
  | _ => None
  end.

(** [/] and [%] on signed integers truncate toward zero. *)
Definition m_ext (i : Inst) : option (Z * Z) :=
  match i with
  | Mul rd rs1 rs2 => Some (rd, wrapping_mul 64 (R rs1) (R rs2))
  | Mulh rd rs1 rs2 => Some (rd, wrap 64 (Z.shiftr (sext 64 (R rs1) * sext 64 (R rs2)) 64))
  | Mulhsu rd rs1 rs2 => Some (rd, wrap 64 (Z.shiftr (sext 64 (R rs1) * R rs2) 64))
  | Mulhu rd rs1 rs2 => Some (rd, wrap 64 (Z.shiftr (R rs1 * R rs2) 64))
  | Div rd rs1 rs2 =>
      let a := sext 64 (R rs1) in
      let b := sext 64 (R rs2) in
      Some (rd, if b =? 0 then 2 ^ 64 - 1
                else if (a =? - 2 ^ 63) && (b =? -1) then wrap 64 a
                else wrap 64 (Z.quot a b))
  | Divu rd rs1 rs2 =>
      let a := R rs1 in let b := R rs2 in
      Some (rd, if b =? 0 then 2 ^ 64 - 1 else a / b)
  | Rem rd rs1 rs2 =>
      let a := sext 64 (R rs1) in
      let b := sext 64 (R rs2) in
      Some (rd, if b =? 0 then wrap 64 a
                else if (a =? - 2 ^ 63) && (b =? -1) then 0
                else wrap 64 (Z.rem a b))
  | Remu rd rs1 rs2 =>
      let a := R rs1 in let b := R rs2 in
      Some (rd, if b =? 0 then a else a mod b)
  | Mulw rd rs1 rs2 => Some (rd, wrap 64 (sext 32 (sext 32 (R rs1) * sext 32 (R rs2))))
  | Divw rd rs1 rs2 =>
      let a := sext 32 (R rs1) in
      let b := sext 32 (R rs2) in
      Some (rd, wrap 64 (if b =? 0 then -1
                         else if (a =? - 2 ^ 31) && (b =? -1) then a
                         else Z.quot a b))
  | Divuw rd rs1 rs2 =>
      let a := wrap 32 (R rs1) in let b := wrap 32 (R rs2) in
      Some (rd, sx 32 (if b =? 0 then 2 ^ 32 - 1 else a / b))
  | Remw rd rs1 rs2 =>
      let a := sext 32 (R rs1) in
      let b := sext 32 (R rs2) in
      Some (rd, wrap 64 (if b =? 0 then a
                         else if (a =? - 2 ^ 31) && (b =? -1) then 0
                         else Z.rem a b))
  | Remuw rd rs1 rs2 =>
      let a := wrap 32 (R rs1) in let b := wrap 32 (R rs2) in
      Some (rd, sx 32 (if b =? 0 then a else a mod b))
  | _ => None
  end.

(** The byte loop of [orc.b]. *)
Definition orc_b (v : Z) : Z :=
  fold_left (fun out i =>
    let b := Z.land (Z.shiftr v (i * 8)) 0xFF in
    if negb (b =? 0) then Z.lor out (wrap 64 (Z.shiftl 0xFF (i * 8))) else out)
    [0; 1; 2; 3; 4; 5; 6; 7] 0.

Definition zbb (i : Inst) : option (Z * Z) :=
  match i with
  | Clz rd rs1 => Some (rd, leading_zeros 64 (R rs1))
  | Clzw rd rs1 => Some (rd, leading_zeros 32 (wrap 32 (R rs1)))
  | Ctz rd rs1 => Some (rd, if R rs1 =? 0 then 64 else trailing_zeros 64 (R rs1))
  | Ctzw rd rs1 =>
      Some (rd, if wrap 32 (R rs1) =? 0 then 32 else trailing_zeros 32 (wrap 32 (R rs1)))
  | Cpop rd rs1 => Some (rd, count_ones (R rs1))
  | Cpopw rd rs1 => Some (rd, count_ones (wrap 32 (R rs1)))
  | SextB rd rs1 => Some (rd, sx 8 (R rs1))
  | SextH rd rs1 => Some (rd, sx 16 (R rs1))
  | ZextH rd rs1 => Some (rd, Z.land (R rs1) 0xFFFF)
  | Rev8 rd rs1 => Some (rd, swap_bytes 8 (R rs1))
  | OrcB rd rs1 => Some (rd, orc_b (R rs1))
  | Min rd rs1 rs2 => Some (rd, wrap 64 (Z.min (sext 64 (R rs1)) (sext 64 (R rs2))))
  | Minu rd rs1 rs2 => Some (rd, Z.min (R rs1) (R rs2))
  | Max rd rs1 rs2 => Some (rd, wrap 64 (Z.max (sext 64 (R rs1)) (sext 64 (R rs2))))
  | Maxu rd rs1 rs2 => Some (rd, Z.max (R rs1) (R rs2))
  | Andn rd rs1 rs2 => Some (rd, Z.land (R rs1) (not_u 64 (R rs2)))
  | Orn rd rs1 rs2 => Some (rd, Z.lor (R rs1) (not_u 64 (R rs2)))
  | Xnor rd rs1 rs2 => Some (rd, not_u 64 (Z.lxor (R rs1) (R rs2)))
  | Rol rd rs1 rs2 => Some (rd, rotate_left 64 (R rs1) (Z.land (wrap 32 (R rs2)) 63))
  | Ror rd rs1 rs2 => Some (rd, rotate_right 64 (R rs1) (Z.land (wrap 32 (R rs2)) 63))
  | Rolw rd rs1 rs2 =>
      Some (rd, sx 32 (rotate_left 32 (wrap 32 (R rs1)) (Z.land (wrap 32 (R rs2)) 31)))
  | Rorw rd rs1 rs2 =>
      Some (rd, sx 32 (rotate_right 32 (wrap 32 (R rs1)) (Z.land (wrap 32 (R rs2)) 31)))
  | Rori rd rs1 shamt => Some (rd, rotate_right 64 (R rs1) (Z.land shamt 63))
  | Roriw rd rs1 shamt => Some (rd, sx 32 (rotate_right 32 (wrap 32 (R rs1)) (Z.land shamt 31)))
  | _ => None
  end.

Definition zba (i : Inst) : option (Z * Z) :=
  match i with
  | Sh1add rd rs1 rs2 => Some (rd, wrapping_add 64 (wrapping_shl 64 (R rs1) 1) (R rs2))
  | Sh2add rd rs1 rs2 => Some (rd, wrapping_add 64 (wrapping_shl 64 (R rs1) 2) (R rs2))
  | Sh3add rd rs1 rs2 => Some (rd, wrapping_add 64 (wrapping_shl 64 (R rs1) 3) (R rs2))
  | Sh1adduw rd rs1 rs2 => Some (rd, wrapping_add 64 (wrapping_shl 64 (wrap 32 (R rs1)) 1) (R rs2))
  | Sh2adduw rd rs1 rs2 => Some (rd, wrapping_add 64 (wrapping_shl 64 (wrap 32 (R rs1)) 2) (R rs2))
  | Sh3adduw rd rs1 rs2 => Some (rd, wrapping_add 64 (wrapping_shl 64 (wrap 32 (R rs1)) 3) (R rs2))
  | Adduw rd rs1 rs2 => Some (rd, wrapping_add 64 (wrap 32 (R rs1)) (R rs2))
  | Slliuw rd rs1 shamt => Some (rd, wrapping_shl 64 (wrap 32 (R rs1)) (Z.land shamt 63))
  | _ => None
  end.

Definition zbs (i : Inst) : option (Z * Z) :=
  match i with
  | Bclr rd rs1 rs2 => Some (rd, Z.land (R rs1) (not_u 64 (Z.shiftl 1 (Z.land (R rs2) 63))))
  | Bset rd rs1 rs2 => Some (rd, Z.lor (R rs1) (Z.shiftl 1 (Z.land (R rs2) 63)))
  | Binv rd rs1 rs2 => Some (rd, Z.lxor (R rs1) (Z.shiftl 1 (Z.land (R rs2) 63)))
  | Bext rd rs1 rs2 => Some (rd, Z.land (Z.shiftr (R rs1) (Z.land (R rs2) 63)) 1)
  | Bclri rd rs1 shamt => Some (rd, Z.land (R rs1) (not_u 64 (Z.shiftl 1 (Z.land shamt 63))))
  | Bseti rd rs1 shamt => Some (rd, Z.lor (R rs1) (Z.shiftl 1 (Z.land shamt 63)))
  | Binvi rd rs1 shamt => Some (rd, Z.lxor (R rs1) (Z.shiftl 1 (Z.land shamt 63)))
  | Bexti rd rs1 shamt => Some (rd, Z.land (Z.shiftr (R rs1) (Z.land shamt 63)) 1)
  | _ => None
  end.

Definition zicond (i : Inst) : option (Z * Z) :=
  match i with
  | CzeroEqz rd rs1 rs2 => Some (rd, if R rs2 =? 0 then 0 else R rs1)
  | CzeroNez rd rs1 rs2 => Some (rd, if negb (R rs2 =? 0) then 0 else R rs1)
  | _ => None
  end.

Definition upper (code_base pc : Z) (i : Inst) : option (Z * Z) :=
  match i with
  | Lui rd imm => Some (rd, wrap 64 imm)
  | Auipc rd imm =>
      Some (rd, sx 32 (wrapping_add 32 (wrapping_add 32 code_base pc) (wrap 32 imm)))
  | _ => None
  end.

(** First arm that applies, in the source's order. *)
Definition alu (code_base pc : Z) (i : Inst) : option (Z * Z) :=
  let or_else (a b : option (Z * Z)) := match a with Some _ => a | None => b end in
  or_else (alu_imm i) (or_else (alu_imm_32 i) (or_else (alu_reg i) (or_else (alu_reg_32 i)
    (or_else (m_ext i) (or_else (zbb i) (or_else (zba i) (or_else (zbs i)
    (or_else (zicond i) (upper code_base pc i))))))))).
End Alu.

(** ** Lookup of a code offset *)

(** [slice::binary_search_by]: the branch-free loop of the standard library
    keeps [base] and halves [size] until one candidate is left. *)
Fixpoint search_loop (fuel : nat) (l : list RvPreDecodedInst) (target : Z) (base size : nat) : nat :=
  match fuel with
  | O => base
  | S fuel' =>
      if (1 <? size)%nat then
        let half := (size / 2)%nat in
        let mid := (base + half)%nat in
        let greater := match l !! mid with Some x => target <? pc x | None => true end in
        search_loop fuel' l target (if greater then base else mid) (size - half)%nat
      else base
  end.

Definition find_idx_for_pc (l : list RvPreDecodedInst) (target : Z) : option nat :=
  match l with
  | [] => None
  | _ =>
      let b := search_loop (length l) l target 0 (length l) in
      match l !! b with
      | Some x => if pc x =? target then Some b else None
      | None => None
      end
  end.

(** ** Loads and stores *)

Definition read_code (code : list Z) (code_base addr : Z) (width : Z) : option Z :=
  match checked_sub addr code_base with
  | None => None
  | Some off =>
      let end_ := off + width in
      let rounded := wrap 32 (next_multiple_of (wrap 32 (Z.of_nat (length code))) PAGE_SIZE) in
      if rounded <? end_ then None
      else
        let buf := map (fun k => default 0 (code !! Z.to_nat (off + Z.of_nat k)))
                     (seq 0 (Z.to_nat width)) in
        Some (from_le_bytes buf)
  end.

Definition or_code {M} (rd : M -> Z -> option Z) (width : Z) (mem : M) (code : list Z)
    (code_base addr : Z) : option Z :=
  match rd mem addr with
  | Some v => Some v
  | None => option_map (wrap (8 * width)) (read_code code code_base addr width)
  end.

Section Loads.
  Context {M : Type} `{Memory M}.
Definition load_u8 : M -> list Z -> Z -> Z -> option Z := or_code read_u8 1.
Definition load_u16 : M -> list Z -> Z -> Z -> option Z := or_code read_u16_le 2.
Definition load_u32 : M -> list Z -> Z -> Z -> option Z := or_code read_u32_le 4.
Definition load_u64 : M -> list Z -> Z -> Z -> option Z := or_code read_u64_le 8.

Definition store_writable (mem : M) (addr width : Z) : bool :=
  (perm_of mem addr =? perm_RW) && (perm_of mem (wrapping_add 32 addr (width - 1)) =? perm_RW).
End Loads.

(** ** The handler and the machine state *)

Class EcallHandler (H M : Type) :=
  handle : H -> EcallKind -> Regs -> M -> H * Regs * M * EcallResult.

(** [PanickingHandler] of [ecall.rs]. *)
Inductive PanickingHandler := panicking_handler.
#[export] Instance PanickingHandler_handle M : EcallHandler PanickingHandler M :=
  fun h _ regs mem => (h, regs, mem, Exit ExitPanic).

Record State (H M : Type) := mkState {
  st_regs : Regs; st_mem : M; st_gas : GasCounter; st_handler : H }.
Arguments mkState {H M} _ _ _ _.
Arguments st_regs {H M} _.
Arguments st_mem {H M} _.
Arguments st_gas {H M} _.
Arguments st_handler {H M} _.

(** What one instruction does to control: leave [run], jump to an index, or go
    on to the sequentially next instruction. *)
Inductive Ctl := Stop (r : ExitReason) | Goto (i : nat) | Next.

Section Exec.
  Context {H M : Type} `{Memory M} `{EcallHandler H M}.
  Context (predecode : Predecode) (code : list Z) (code_base : Z).

  #[local] Abbreviation State := (State H M).

Definition set_regs (st : State) (r : Regs) : State :=
  mkState r (st_mem st) (st_gas st) (st_handler st).

Definition page_fault (st : State) (pc addr : Z) : State * Ctl :=
  (set_regs st (set_pc (st_regs st) pc), Stop (ExitPageFault (Z.land addr (not_u 32 0xFFF)))).

(** The seven load arms: touch, load, cast, write. *)
Definition exec_load (st : State) (pc width : Z) (load : M -> list Z -> Z -> Z -> option Z)
    (cast : Z -> Z) (rd rs1 imm : Z) : Res (State * Ctl) :=
  let addr := compute_addr (st_regs st) rs1 imm in
  let! (mem, gas, r) := touch_read (st_mem st) addr width (st_gas st) in
  let st := mkState (st_regs st) mem gas (st_handler st) in
  match r with
  | Err _ => Ret (page_fault st pc addr)
  | Ok _ =>
      match load mem code code_base addr with
      | Some v => Ret (set_regs st (reg_write (st_regs st) rd (cast v)), Next)
      | None => Ret (page_fault st pc addr)
      end
  end.

(** The four store arms: touch, permission test, write. *)
Definition exec_store (st : State) (pc width : Z) (write : M -> Z -> Z -> M * bool)
    (rs1 rs2 imm : Z) : Res (State * Ctl) :=
  let addr := compute_addr (st_regs st) rs1 imm in
  let! (mem, gas, r) := touch_write (st_mem st) addr width (st_gas st) in
  let st := mkState (st_regs st) mem gas (st_handler st) in
  match r with
  | Err _ => Ret (page_fault st pc addr)
  | Ok _ =>
      if negb (store_writable mem addr width) then Ret (page_fault st pc addr)
      else
        let '(mem, ok) := write mem addr (wrap (8 * width) (reg_read (st_regs st) rs2)) in
        let st := mkState (st_regs st) mem gas (st_handler st) in
        if ok then Ret (st, Next) else Ret (page_fault st pc addr)
  end.

(** A jump is accepted only to a block start. *)
Definition jump_to (st : State) (pc target : Z) : State * Ctl :=
  match find_idx_for_pc (insts predecode) target with
  | Some i =>
      match insts predecode !! i with
      | Some x =>
          if is_gas_block_start x then (st, Goto i)
          else (set_regs st (set_pc (st_regs st) pc), Stop ExitPanic)
      | None => (set_regs st (set_pc (st_regs st) pc), Stop ExitPanic)
      end
  | None => (set_regs st (set_pc (st_regs st) pc), Stop ExitPanic)
  end.

(** [(pc as i64).wrapping_add(imm as i64) as u32] *)
Definition rel_target (pc imm : Z) : Z := wrap 32 (sext 64 (pc + imm)).

Definition branch_taken (R : Z -> Z) (i : Inst) : option (bool * Z) :=
  match i with
  | Beq rs1 rs2 imm => Some (R rs1 =? R rs2, imm)
  | Bne rs1 rs2 imm => Some (negb (R rs1 =? R rs2), imm)
  | Blt rs1 rs2 imm => Some (sext 64 (R rs1) <? sext 64 (R rs2), imm)
  | Bge rs1 rs2 imm => Some (sext 64 (R rs2) <=? sext 64 (R rs1), imm)
  | Bltu rs1 rs2 imm => Some (R rs1 <? R rs2, imm)
  | Bgeu rs1 rs2 imm => Some (R rs2 <=? R rs1, imm)
  | _ => None
  end.

Definition exec_ecall (st : State) (pc next_pc : Z) (is_ecalli : bool) (kind : EcallKind)
    : Res (State * Ctl) :=
  let cost := ecall_dynamic_cost is_ecalli in
  if remaining (st_gas st) <? cost then
    Ret (set_regs st (set_pc (st_regs st) pc), Stop ExitOutOfGas)
  else
    let! gas := charge_expect (st_gas st) cost in
    let '(h, regs, mem, res) :=
      handle (st_handler st) kind (set_pc (st_regs st) next_pc) (st_mem st) in
    let st := mkState regs mem gas h in
    match res with
    | Continue =>
        match find_idx_for_pc (insts predecode) next_pc with
        | Some i => Ret (st, Goto i)
        | None => Ret (st, Stop ExitPanic)
        end
    | Exit r => Ret (st, Stop r)
    end.

(** The [match] on the instruction. *)
Definition exec (st : State) (pc next_pc : Z) (i : Inst) : Res (State * Ctl) :=
  let regs := st_regs st in
  match i with
  | Lb rd rs1 imm => exec_load st pc 1 load_u8 (sx 8) rd rs1 imm
  | Lh rd rs1 imm => exec_load st pc 2 load_u16 (sx 16) rd rs1 imm
  | Lw rd rs1 imm => exec_load st pc 4 load_u32 (sx 32) rd rs1 imm
  | Ld rd rs1 imm => exec_load st pc 8 load_u64 id rd rs1 imm
  | Lbu rd rs1 imm => exec_load st pc 1 load_u8 id rd rs1 imm
  | Lhu rd rs1 imm => exec_load st pc 2 load_u16 id rd rs1 imm
  | Lwu rd rs1 imm => exec_load st pc 4 load_u32 id rd rs1 imm
  | Sb rs1 rs2 imm => exec_store st pc 1 write_u8 rs1 rs2 imm
  | Sh rs1 rs2 imm => exec_store st pc 2 write_u16_le rs1 rs2 imm
  | Sw rs1 rs2 imm => exec_store st pc 4 write_u32_le rs1 rs2 imm
  | Sd rs1 rs2 imm => exec_store st pc 8 write_u64_le rs1 rs2 imm
  | Jal rd imm =>
      let st := if negb (rd =? 0)
                then set_regs st (reg_write regs rd (wrapping_add 32 code_base next_pc)) else st in
      Ret (jump_to st pc (rel_target pc imm))
  | Jalr rd rs1 imm =>
      let target_va := wrapping_add 32 (wrap 32 (reg_read regs rs1)) (wrap 32 imm) in
      let st := if negb (rd =? 0)
                then set_regs st (reg_write regs rd (wrapping_add 32 code_base next_pc)) else st in
      Ret (jump_to st pc (wrapping_sub 32 target_va code_base))
  | Beq _ _ _ | Bne _ _ _ | Blt _ _ _ | Bge _ _ _ | Bltu _ _ _ | Bgeu _ _ _ =>
      match branch_taken (reg_read regs) i with
      | Some (true, imm) => Ret (jump_to st pc (rel_target pc imm))
      | _ => Ret (st, Next)
      end
  | Fence | FenceI => Ret (st, Next)
  | Trap => Ret (set_regs st (set_pc regs pc), Stop ExitTrap)
  | EcallJar => exec_ecall st pc next_pc false Ecall
  | Ecalli imm => exec_ecall st pc next_pc true (EcalliKind (wrap 32 imm))
  | Fallthrough => Ret (st, Next)
  | Reserved _ => Ret (set_regs st (set_pc regs pc), Stop ExitPanic)
  | _ =>
      match alu (reg_read regs) code_base pc i with
      | Some (rd, v) => Ret (set_regs st (reg_write regs rd v), Next)
      | None => Abort
      end
  end.

(** The block-entry gate: [Ret (st, true)] when the block may run. *)
Definition gate (st : State) (idx : nat) (x : RvPreDecodedInst) : Res (State * bool) :=
  if is_gas_block_start x then
    let! cost := expect (block_costs predecode !! idx) in
    if negb (cost =? 0) then
      let! reserve := expect (block_reserves predecode !! idx) in
      if remaining (st_gas st) <? cost + reserve then
        Ret (set_regs st (set_pc (st_regs st) (pc x)), false)
      else
        let! gas := charge_expect (st_gas st) cost in
        Ret (mkState (st_regs st) (st_mem st) gas (st_handler st), true)
    else Ret (st, true)
  else Ret (st, true).

(** One round of the loop at index [idx]. *)
Definition step (st : State) (idx : nat) : Res (State * (ExitReason + nat)) :=
  let! x := expect (insts predecode !! idx) in
  let! (st, enter) := gate st idx x in
  if negb enter then Ret (st, inl ExitOutOfGas)
  else
    let! (st, ctl) := exec st (pc x) (next_pc x) (inst x) in
    match ctl with
    | Stop r => Ret (st, inl r)
    | Goto i => Ret (st, inr i)
    | Next =>
        let idx := S idx in
        if (length (insts predecode) <=? idx)%nat
        then Ret (set_regs st (set_pc (st_regs st) (next_pc x)), inl ExitPanic)
        else Ret (st, inr idx)
    end.

(** [None]: out of fuel. *)
Fixpoint loop (fuel : nat) (st : State) (idx : nat) : option (Res (State * ExitReason)) :=
  match fuel with
  | O => None
  | S fuel' =>
      match step st idx with
      | Abort => Some Abort
      | Ret (st, inl r) => Some (Ret (st, r))
      | Ret (st, inr idx) => loop fuel' st idx
      end
  end.

Definition run (fuel : nat) (st : State) : option (Res (State * ExitReason)) :=
  if (length (insts predecode) =? 0)%nat then Some (Ret (st, ExitPanic))
  else
    match find_idx_for_pc (insts predecode) (wrap 32 (r_pc (st_regs st))) with
    | Some i =>
        match insts predecode !! i with
        | Some x => if is_gas_block_start x then loop fuel st i else Some (Ret (st, ExitPanic))
        | None => Some Abort
        end
    | None => Some (Ret (st, ExitPanic))
    end.
End Exec.

(** ** Programs *)

Record Program := mkProgram { p_code : list Z; p_predecode : Predecode; p_code_base : Z }.

Definition program_new (code : list Z) (code_base : Z) : Program :=
  mkProgram code (predecode code) code_base.

Definition run_program {H M : Type} `{Memory M} `{EcallHandler H M} (program : Program) (fuel : nat)
    (st : State H M) : option (Res (State H M * ExitReason)) :=
  run (p_predecode program) (p_code program) (p_code_base program) fuel st.
