(* ===== verification/InterpFacts.v ===== *)
(** * Facts about the interpreter's building blocks

    Register access, the range of every computed value, and the correctness of
    the binary search that maps code offsets to instruction indices. *)

From S2P Require Import Prelude MachineInt Engine GasConst Instruction InstructionFacts GasSim.
From S2P Require Import GasCost Predecode Mat Mem Interp.

(** ** Registers *)

Lemma slot_of x :
  0 <= x < 32 -> nth (Z.to_nat (Z.land x 31)) REG_SLOT_LUT 0xFF = reg_slot_or_ff x.
Proof.
  revert x. apply reg_field_cases. intros n Hn.
  do 32 (destruct n as [|n]; [reflexivity|]). lia.
Qed.

Lemma slot_mask x : Z.land x 31 = x mod 32.
Proof. change 31 with (2 ^ 5 - 1). by rewrite land_ones'. Qed.

Lemma slot_cases x :
  let s := nth (Z.to_nat (Z.land x 31)) REG_SLOT_LUT 0xFF in 0 <= s < 15 \/ s = 0xFF.
Proof.
  cbv zeta. rewrite slot_mask. assert (0 <= x mod 32 < 32) as Hx by dlia.
  rewrite <- (Z.mod_small (x mod 32) 32), <- slot_mask, slot_of by done.
  destruct (reg_slot_spec (x mod 32) Hx) as [[? _]|[? _]]; auto.
Qed.

Lemma reg_write_ok regs x v : regs_ok regs -> is_u 64 v -> regs_ok (reg_write regs x v).
Proof.
  intros OK Hv. unfold reg_write. cbv zeta. destruct (_ =? _); [done|].
  exact (regs_write_ok regs _ v OK Hv).
Qed.

Lemma reg_read_range regs x : regs_ok regs -> is_u 64 (reg_read regs x).
Proof.
  intros OK. unfold reg_read. cbv zeta. destruct (_ =? _); [unfold is_u; lia|].
  exact (regs_read_range regs _ OK).
Qed.

(** Writes are read back; [x0] stays zero; other registers are untouched. *)
Lemma reg_read_write regs x y v :
  regs_ok regs -> 0 <= x < 16 -> 0 <= y < 16 ->
  reg_read (reg_write regs x v) y = if (x =? y) && negb (x =? 0) then v else reg_read regs y.
Proof.
  intros (Hl & _ & _) Hx Hy. unfold reg_read, reg_write. cbv zeta. rewrite !slot_of by lia.
  destruct (reg_slot_spec x ltac:(lia)) as [[Sx ?]|[Sx ?]],
           (reg_slot_spec y ltac:(lia)) as [[Sy ?]|[Sy ?]].
  2, 4: rewrite Sy; cbn [Z.eqb Pos.eqb]; destruct (Z.eqb_spec x y); [|done];
        destruct (Z.eqb_spec x 0); (done || lia).
  - destruct (Z.eqb_spec (reg_slot_or_ff x) 0xFF), (Z.eqb_spec (reg_slot_or_ff y) 0xFF); try lia.
    cbn [r_gpr]. destruct (Z.eqb_spec x y) as [->|Hne]; cbn [andb].
    + destruct (Z.eqb_spec y 0); [lia|]. rewrite list_lookup_insert_eq; [done|].
      rewrite Hl. unfold REG_COUNT. lia.
    + rewrite list_lookup_insert_ne; [done|]. intros E. apply Hne.
      apply reg_slot_inj; try lia.
  - rewrite Sx. cbn [Z.eqb Pos.eqb]. destruct (Z.eqb_spec x y); [lia|done].
Qed.

(** ** Every computed value is a 64-bit word *)

Lemma u64_wrap x : is_u 64 (wrap 64 x).
Proof. by apply wrap_range. Qed.

Lemma u64_small x : 0 <= x <= 64 -> is_u 64 x.
Proof. unfold is_u. lia. Qed.

Lemma u64_b2z b : is_u 64 (b2z b).
Proof. destruct b; unfold is_u; cbn; lia. Qed.

Lemma u64_shiftl_1 k : is_u 64 (Z.shiftl 1 (Z.land k 63)).
Proof.
  change 63 with (2 ^ 6 - 1). rewrite land_ones', Z.shiftl_1_l by lia. unfold is_u.
  assert (0 <= k mod 2 ^ 6 < 64) by (apply Z.mod_pos_bound; lia).
  split; [lia|]. apply Z.pow_lt_mono_r; lia.
Qed.

Lemma land63_nonneg k : 0 <= Z.land k 63.
Proof. apply Z.land_nonneg. lia. Qed.

Lemma orc_b_range v : is_u 64 (orc_b v).
Proof.
  unfold orc_b. cbn [fold_left].
  repeat match goal with
  | |- is_u 64 (if ?b then _ else _) => destruct b
  | |- is_u 64 (Z.lor _ _) => apply lor_range; [lia| |by apply wrap_range]
  end; unfold is_u; lia.
Qed.

Create HintDb u64.
#[export] Hint Resolve u64_wrap u64_b2z u64_shiftl_1 orc_b_range land63_nonneg : u64.
#[export] Hint Extern 1 (is_u 64 (wrapping_add 64 _ _)) => apply u64_wrap : u64.
#[export] Hint Extern 1 (is_u 64 (wrapping_sub 64 _ _)) => apply u64_wrap : u64.
#[export] Hint Extern 1 (is_u 64 (wrapping_mul 64 _ _)) => apply u64_wrap : u64.
#[export] Hint Extern 1 (is_u 64 (wrapping_shl 64 _ _)) => apply u64_wrap : u64.
#[export] Hint Extern 1 (is_u 64 (not_u 64 _)) => apply u64_wrap : u64.
#[export] Hint Extern 1 (is_u 64 (rotate_left 64 _ _)) => apply u64_wrap : u64.
#[export] Hint Extern 1 (is_u 64 (rotate_right 64 _ _)) => apply u64_wrap : u64.
#[export] Hint Extern 1 (is_u 64 (sx _ _)) => apply u64_wrap : u64.
#[export] Hint Extern 2 (is_u 64 (Z.lor _ _)) => apply lor_range; [lia|..] : u64.
#[export] Hint Extern 2 (is_u 64 (Z.lxor _ _)) => apply lxor_range; [lia|..] : u64.


Section AluRange.
  Context (R : Z -> Z) (HR : forall x, is_u 64 (R x)).
  #[local] Hint Resolve HR : u64.

Lemma u64_shr k n : is_u 64 (wrapping_shr 64 (R k) n).
Proof using HR. apply shiftr_range; [done|]. apply Z.mod_pos_bound. lia. Qed.

Lemma u64_div a b : is_u 64 a -> is_u 64 b -> b <> 0 -> is_u 64 (a / b).
Proof using.
  unfold is_u. intros Ha Hb H0. split; [apply Z.div_pos; lia|].
  apply Z.le_lt_trans with a; [|lia]. apply Z.div_le_upper_bound; nia.
Qed.

Lemma u64_mod a b : is_u 64 a -> is_u 64 b -> b <> 0 -> is_u 64 (a mod b).
Proof using. unfold is_u. intros Ha Hb H0. pose proof (Z.mod_pos_bound a b). lia. Qed.

Lemma u32_wrap k : is_u 32 (wrap 32 (R k)).
Proof using. by apply wrap_range. Qed.

Lemma alu_range cb pc i rd v : alu R cb pc i = Some (rd, v) -> is_u 64 v.
Proof using HR.
  destruct i; cbn [alu alu_imm alu_imm_32 alu_reg alu_reg_32 m_ext zbb zba zbs zicond upper];
    intros E; try discriminate E; injection E as <- <-; try (auto with u64; fail).
  all: try apply u64_shr.
  all: try (apply land_range; [lia|]; auto using shiftr_range with u64; fail).
  all: try (apply (swap_bytes_range 8)).
  all: try (apply u64_small; first [apply (leading_zeros_range 64) | apply (count_ones_range 64)]; (lia || apply HR); fail).
  all: try (apply u64_small; pose proof (leading_zeros_range 32 _ ltac:(lia) (u32_wrap rs1)); lia).
  all: try (apply u64_small; pose proof (count_ones_range 32 _ ltac:(lia) (u32_wrap rs1)); lia).
  all: try (pose proof (HR rs1); pose proof (HR rs2); unfold is_u in *; lia).
  all: repeat match goal with |- is_u 64 (if ?b then _ else _) => destruct b eqn:? end; auto with u64.
  all: try (unfold is_u; lia).
  - apply u64_div; (auto || lia).
  - apply u64_mod; (auto || lia).
  - apply u64_small. apply (trailing_zeros_range 64); (lia || apply HR).
  - apply u64_small. pose proof (trailing_zeros_range 32 _ ltac:(lia) (u32_wrap rs1)). lia.
Qed.

(** Instructions handled by the register-to-register arms. *)
Definition is_alu (i : Inst) : bool :=
  match i with
  | Lb _ _ _ | Lh _ _ _ | Lw _ _ _ | Ld _ _ _ | Lbu _ _ _ | Lhu _ _ _ | Lwu _ _ _
  | Sb _ _ _ | Sh _ _ _ | Sw _ _ _ | Sd _ _ _ | Jal _ _ | Jalr _ _ _
  | Beq _ _ _ | Bne _ _ _ | Blt _ _ _ | Bge _ _ _ | Bltu _ _ _ | Bgeu _ _ _
  | Fence | FenceI | Trap | EcallJar | Ecalli _ | Fallthrough | Reserved _ => false
  | _ => true
  end.

Lemma alu_total cb pc i : is_alu i = true -> exists rd v, alu R cb pc i = Some (rd, v).
Proof using. destruct i; try discriminate; intros _; cbn; eauto. Qed.
End AluRange.

(** ** Binary search *)

Definition sorted_pc (l : list RvPreDecodedInst) : Prop :=
  forall i j x y, l !! i = Some x -> l !! j = Some y -> (i < j)%nat -> pc x < pc y.

Lemma find_idx_sound l target i :
  find_idx_for_pc l target = Some i -> exists x, l !! i = Some x /\ pc x = target.
Proof.
  unfold find_idx_for_pc. destruct l as [|x l]; [done|].
  destruct ((x :: l) !! _) as [y|] eqn:E; [|done].
  destruct (Z.eqb_spec (pc y) target); [|done]. intros [= <-]. eauto.
Qed.

Lemma search_loop_spec l target k x fuel base size :
  sorted_pc l -> l !! k = Some x -> pc x = target ->
  (size <= S fuel)%nat -> (base <= k < base + size)%nat -> (base + size <= length l)%nat ->
  search_loop fuel l target base size = k.
Proof.
  intros Srt Hk Hx. revert base size. induction fuel as [|fuel IH]; intros base size Hf Hr Hl;
    cbn [search_loop]; [lia|].
  destruct (Nat.ltb_spec 1 size) as [H1|H1]; [|lia]. set (half := (size / 2)%nat).
  assert (1 <= half < size /\ half <= size - half)%nat as Hh.
  { pose proof (Nat.div_mod_eq size 2). pose proof (Nat.mod_upper_bound size 2). unfold half. lia. }
  destruct (lookup_lt_is_Some_2 l (base + half) ltac:(lia)) as [y Hy]. rewrite Hy.
  destruct (Z.ltb_spec target (pc y)) as [Hg|Hg].
  - apply IH; try lia. destruct (Nat.lt_ge_cases k (base + half)) as [?|Hge]; [lia|].
    destruct (Nat.eq_dec k (base + half)%nat) as [Heq|]; [rewrite Heq in Hk; naive_solver lia|].
    pose proof (Srt (base + half)%nat k y x Hy Hk ltac:(lia)). lia.
  - apply IH; try lia. destruct (Nat.lt_ge_cases k (base + half)) as [Hlt|?]; [|lia].
    pose proof (Srt k (base + half)%nat x y Hk Hy Hlt). lia.
Qed.

Lemma find_idx_complete l i x :
  sorted_pc l -> l !! i = Some x -> find_idx_for_pc l (pc x) = Some i.
Proof.
  intros Srt Hi. pose proof (lookup_lt_Some _ _ _ Hi) as Hl. unfold find_idx_for_pc.
  destruct l as [|y l]; [done|].
  rewrite (search_loop_spec (y :: l) (pc x) i x) by (done || lia). by rewrite Hi, Z.eqb_refl.
Qed.

Lemma tiles_lower code at_ l stop i x : tiles code at_ l stop -> l !! i = Some x -> at_ <= pc x.
Proof.
  revert at_ i. induction l as [|y l IH]; intros at_ i; [done|].
  intros (? & ? & _ & _ & T). destruct i as [|i]; cbn.
  - intros [= ->]. lia.
  - intros Hi. specialize (IH _ _ T Hi). lia.
Qed.

Lemma tiles_sorted code at_ l stop : tiles code at_ l stop -> sorted_pc l.
Proof.
  revert at_. induction l as [|z l IH]; intros at_; [done|].
  intros (? & ? & _ & _ & T) i j x y. destruct i as [|i], j as [|j]; cbn; intros Hx Hy Hij; try lia.
  - injection Hx as ->. pose proof (tiles_lower _ _ _ _ _ _ T Hy). lia.
  - exact (IH _ T i j x y Hx Hy ltac:(lia)).
Qed.

(** Consecutive entries are contiguous, and nothing else starts at [next_pc]. *)
Lemma tiles_next code at_ l stop i x y :
  tiles code at_ l stop -> l !! i = Some x -> l !! S i = Some y -> pc y = next_pc x.
Proof.
  revert at_ i. induction l as [|z l IH]; intros at_ i; [done|].
  intros (? & ? & _ & _ & T). destruct i as [|i]; cbn.
  - intros [= ->]. destruct l as [|w l]; cbn; [done|]. intros [= ->]. by destruct T.
  - apply (IH _ _ T).
Qed.

Lemma tiles_entry code at_ l stop i x :
  tiles code at_ l stop -> 0 <= at_ -> l !! i = Some x ->
  0 <= pc x < next_pc x /\ next_pc x <= Z.of_nat (length code) /\
  decode (drop (Z.to_nat (pc x)) code) = Some (inst x, next_pc x - pc x).
Proof.
  revert at_ i. induction l as [|z l IH]; intros at_ i; [done|].
  intros (E & ? & D & _ & T) Ha. destruct i as [|i]; cbn.
  - intros [= ->]. rewrite E. repeat split; (done || lia).
  - apply (IH _ _ T). lia.
Qed.

Lemma find_next code l stop i x j :
  tiles code 0 l stop -> l !! i = Some x -> find_idx_for_pc l (next_pc x) = Some j -> j = S i.
Proof.
  intros T Hi Hj. destruct (find_idx_sound _ _ _ Hj) as (y & Hy & E).
  pose proof (tiles_sorted _ _ _ _ T) as Srt. pose proof (tiles_entry _ _ _ _ _ _ T ltac:(lia) Hi).
  destruct (Nat.lt_total j (S i)) as [Hlt|[?|Hgt]]; [|done|].
  - assert (pc y <= pc x); [|lia]. destruct (Nat.eq_dec j i) as [->|]; [naive_solver lia|].
    pose proof (Srt j i y x Hy Hi ltac:(lia)). lia.
  - pose proof (lookup_lt_Some _ _ _ Hy).
    destruct (lookup_lt_is_Some_2 l (S i) ltac:(lia)) as [z Hz].
    pose proof (tiles_next _ _ _ _ _ _ _ T Hi Hz). pose proof (Srt (S i) j z y Hz Hy Hgt). lia.
Qed.

(** Instruction [i] of [l] starts at [target]. *)
Definition starts_instruction (l : list RvPreDecodedInst) (target : Z) (i : nat) : Prop :=
  exists x, l !! i = Some x /\ pc x = target.

(** The interpreter's branch-target lookup is exact. On the instructions
    of any predecoded code section, the binary search finds index [i] for an
    offset precisely when instruction [i] starts at that offset. *)
Theorem find_idx_for_pc_exact code mem_cycles target i :
  Z.of_nat (length code) < 2 ^ 32 ->
  let l := insts (predecode_rv_with_mem_cycles code mem_cycles) in
  find_idx_for_pc l target = Some i <-> starts_instruction l target i.
Proof.
  intros Hlen l. split; [apply find_idx_sound|]. intros (x & Hx & <-).
  apply find_idx_complete; [|done].
  destruct (po_stop _ _ _ (predecode_is_ok code mem_cycles Hlen)) as (stop & T & _).
  by eapply tiles_sorted.
Qed.

Lemma find_idx_for_pc_exact_witness :
  find_idx_for_pc (insts (predecode sample_code)) 8 = Some 2%nat.
Proof.
  apply (find_idx_for_pc_exact sample_code DEFAULT_MEM_CYCLES 8 2); [cbn; lia|].
  eexists. split; reflexivity.
Defined.
