(* ===== verification/InterpSafety.v ===== *)
(** * Safety of the interpreter

    Whatever the program, the guest state and the handler do, a run of the
    interpreter never panics (no [expect] fails, no index is out of range),
    never increases gas, keeps registers and memory well formed and terminates.
    Proved against the laws of the memory and of the handler, not against a
    particular implementation. *)

From S2P Require Import Prelude MachineInt Engine GasConst Instruction InstructionFacts GasSim.
From S2P Require Import GasCost Predecode Mat Mem Interp InterpFacts.

(** What the integration layer's handler promises: it leaves the registers and
    the memory well formed. *)
Class HandlerLaws (H M : Type) `{MemoryLaws M} `{EcallHandler H M} :=
  handle_ok : forall h k r m h' r' m' res,
    regs_ok r -> mem_inv m -> handle h k r m = (h', r', m', res) -> regs_ok r' /\ mem_inv m'.

#[export] Instance PanickingHandler_laws M `{MemoryLaws M} : HandlerLaws PanickingHandler M.
Proof. intros h k r m h' r' m' res Hr Hm E. unfold handle, PanickingHandler_handle in E. by simplify_eq. Qed.

Section Safety.
  Context {M : Type} {MM : Memory M} {ML : MemoryLaws M}.
  Context {H : Type} {EH : EcallHandler H M} {HL : HandlerLaws H M}.
  Context (p : Predecode) (code : list Z) (mem_cycles code_base : Z).
  Context (Hlen : Z.of_nat (length code) < 2 ^ 32) (POK : predecode_ok code mem_cycles p).

  #[local] Abbreviation State := (State H M).
  #[local] Abbreviation exec := (exec p code code_base).
  #[local] Abbreviation step := (step p code code_base).
  #[local] Abbreviation loop := (loop p code code_base).
  #[local] Abbreviation run := (run p code code_base).

Definition st_ok (st : State) : Prop :=
  regs_ok (st_regs st) /\ mem_inv (st_mem st) /\ 0 <= remaining (st_gas st).

(** ** Single instructions *)

Lemma compute_addr_range (regs : Regs) rs1 imm : is_u 32 (compute_addr regs rs1 imm).
Proof. by apply wrap_range. Qed.

Lemma set_pc_st_ok (st : State) v :
  st_ok st -> is_u 64 v -> st_ok (set_regs st (set_pc (st_regs st) v)).
Proof. intros (? & ? & ?) Hv. split; [by apply set_pc_ok|done]. Qed.

Lemma write_st_ok (st : State) rd v :
  st_ok st -> is_u 64 v -> st_ok (set_regs st (reg_write (st_regs st) rd v)).
Proof. intros (? & ? & ?) Hv. split; [by apply reg_write_ok|done]. Qed.

Lemma or_code_range (rd : M -> Z -> option Z) w m cb a v :
  mem_inv m -> 0 <= w -> (forall m a v, mem_inv m -> rd m a = Some v -> is_u (8 * w) v) ->
  or_code rd w m code cb a = Some v -> is_u (8 * w) v.
Proof.
  intros Hm Hw Hrd. unfold or_code. destruct (rd m a) as [u|] eqn:E.
  - intros [= <-]. eauto.
  - destruct (read_code _ _ _ _); [|done]. intros [= <-]. apply wrap_range. lia.
Qed.

Lemma is_u_le w w' v : 0 <= w <= w' -> is_u w v -> is_u w' v.
Proof. unfold is_u. intros Hw Hv. pose proof (Z.pow_le_mono_r 2 w w' ltac:(lia) ltac:(lia)). lia. Qed.

(** Control leaves an instruction that is not a jump or an ecall by going on or
    by a page fault. *)
Definition next_or_fault (c : Ctl) : Prop := c = Next \/ exists a, c = Stop (ExitPageFault a).

Lemma exec_load_ok (st : State) pc w load cast rd rs1 imm :
  st_ok st -> 1 <= w <= 8 -> is_u 64 pc ->
  (forall m a v, mem_inv m -> load m code code_base a = Some v -> is_u 64 (cast v)) ->
  exists st' ctl, exec_load code code_base st pc w load cast rd rs1 imm = Ret (st', ctl) /\
    st_ok st' /\ st_gas st' = st_gas st /\ cow_left (st_mem st') = cow_left (st_mem st) /\
    next_or_fault ctl.
Proof.
  intros (Hr & Hm & Hg) Hw Hpc Hload. unfold exec_load. set (a := compute_addr _ _ _).
  destruct (touch_read_law (st_mem st) a w Hm (compute_addr_range _ _ _) Hw)
    as (m' & r & Hm' & Hcow & T).
  rewrite T by done. cbn [res_bind]. set (st1 := mkState _ m' _ _).
  assert (st_ok st1) as OK1 by done.
  destruct r as [[]|[]].
  - destruct (load m' code code_base a) as [v|] eqn:El.
    + eexists _, _. split; [reflexivity|]. split; [apply write_st_ok; eauto|]. unfold next_or_fault; auto.
    + eexists _, _. split; [reflexivity|]. split; [by apply set_pc_st_ok|]. unfold next_or_fault; eauto.
  - eexists _, _. split; [reflexivity|]. split; [by apply set_pc_st_ok|]. unfold next_or_fault; eauto.
Qed.

Lemma exec_store_ok (st : State) pc w write rs1 rs2 imm :
  st_ok st -> 1 <= w <= 8 -> is_u 64 pc ->
  (forall m a v m' b, mem_inv m -> write m a v = (m', b) -> mem_inv m' /\ cow_left m' = cow_left m) ->
  Z.min 512 (cow_left (st_mem st)) <= remaining (st_gas st) ->
  exists st' ctl c, exec_store st pc w write rs1 rs2 imm = Ret (st', ctl) /\
    st_ok st' /\ 0 <= c <= 512 /\ remaining (st_gas st') = remaining (st_gas st) - c /\
    c + cow_left (st_mem st') = cow_left (st_mem st) /\ next_or_fault ctl.
Proof.
  intros (Hr & Hm & Hg) Hw Hpc Hwrite Hres. unfold exec_store. set (a := compute_addr _ _ _).
  destruct (touch_write_law (st_mem st) a w Hm (compute_addr_range _ _ _) Hw)
    as (c & m' & r & Hm' & Hc & Hcow & T).
  change (COW_COST * MAX_PAGES_PER_ACCESS) with 512 in Hc.
  pose proof (cow_left_range m' Hm').
  rewrite T by lia. cbn [res_bind]. set (st1 := mkState _ m' _ _).
  assert (st_ok st1) as OK1 by (repeat split; (apply Hr || done || cbn; lia)).
  assert (forall st', st_ok st' -> st_gas st' = st_gas st1 -> cow_left (st_mem st') = cow_left m' ->
    forall ctl, next_or_fault ctl -> exists st'' ctl' c, Ret (st', ctl) = Ret (st'', ctl') /\
    st_ok st'' /\ 0 <= c <= 512 /\ remaining (st_gas st'') = remaining (st_gas st) - c /\
    c + cow_left (st_mem st'') = cow_left (st_mem st) /\ next_or_fault ctl') as Done.
  { intros st' OK' Eg Ec ctl Hctl. exists st', ctl, c. rewrite Eg, Ec. repeat split; (apply OK' || done || lia). }
  assert (next_or_fault (snd (page_fault st1 pc a))) as Hpf by (right; eauto).
  destruct r as [[]|[]]; [|by apply Done; [apply set_pc_st_ok|..]].
  destruct (negb (store_writable m' a w)); [by apply Done; [apply set_pc_st_ok|..]|].
  destruct (write m' a _) as [m'' b] eqn:Ew.
  destruct (Hwrite _ _ _ _ _ Hm' Ew) as [Hm'' Ec]. set (st2 := mkState _ m'' _ _).
  assert (st_ok st2) as OK2 by (destruct OK1 as (? & ? & ?); done).
  destruct b; apply Done; try done; [by left|by apply set_pc_st_ok].
Qed.

(** ** Jumps and ecalls *)

Definition starts_at (i : nat) : Prop := exists x, insts p !! i = Some x /\ is_gas_block_start x = true.

Lemma jump_to_ok (st : State) pc target :
  st_ok st -> is_u 64 pc ->
  exists st' ctl, jump_to p st pc target = (st', ctl) /\ st_ok st' /\
    st_gas st' = st_gas st /\ st_mem st' = st_mem st /\
    (ctl = Stop ExitPanic \/ exists i, ctl = Goto i /\ starts_at i).
Proof.
  intros OK Hpc. unfold jump_to.
  destruct (find_idx_for_pc (insts p) target) as [i|].
  2: { eexists _, _. split; [reflexivity|]. split; [by apply set_pc_st_ok|]. auto. }
  destruct (insts p !! i) as [x|] eqn:Ei.
  2: { eexists _, _. split; [reflexivity|]. split; [by apply set_pc_st_ok|]. auto. }
  destruct (is_gas_block_start x) eqn:Es.
  - eexists _, _. split; [reflexivity|]. unfold starts_at. repeat split; try apply OK. eauto 10.
  - eexists _, _. split; [reflexivity|]. split; [by apply set_pc_st_ok|]. auto.
Qed.

Lemma entry_pc idx x : insts p !! idx = Some x -> is_u 64 (pc x) /\ is_u 64 (next_pc x) /\ is_u 32 (pc x).
Proof.
  intros Hx. destruct (po_stop _ _ _ POK) as (stop & T & _).
  destruct (tiles_entry code 0 (insts p) stop idx x T ltac:(lia) Hx) as (? & ? & _). unfold is_u. lia.
Qed.

Lemma exec_ecall_ok (st : State) idx x is_ecalli kind :
  st_ok st -> insts p !! idx = Some x -> is_ecall_block (inst x) = true ->
  exists st' ctl, exec_ecall p st (pc x) (next_pc x) is_ecalli kind = Ret (st', ctl) /\ st_ok st' /\
    remaining (st_gas st') <= remaining (st_gas st) /\ ctl <> Next /\
    (forall i, ctl = Goto i -> starts_at i /\ remaining (st_gas st') < remaining (st_gas st)).
Proof.
  intros (Hr & Hm & Hg) Hx He. destruct (entry_pc idx x Hx) as (Hpc & Hnpc & _). unfold exec_ecall.
  assert (0 < ecall_dynamic_cost is_ecalli) as Hc by (by destruct is_ecalli).
  destruct (Z.ltb_spec (remaining (st_gas st)) (ecall_dynamic_cost is_ecalli)).
  { eexists _, _. split; [reflexivity|]. split; [by apply set_pc_st_ok|].
    split; [cbn; lia|]. split; [done|]. by intros i [=]. }
  rewrite charge_expect_ok by lia. cbn [res_bind].
  destruct (handle _ _ _ _) as [[[h regs] mem] res] eqn:Eh.
  apply handle_ok in Eh as [Hr' Hm']; [|by apply set_pc_ok|done].
  assert (st_ok (mkState regs mem (mkGas (remaining (st_gas st) - ecall_dynamic_cost is_ecalli)) h)) as OK'
    by (repeat split; (apply Hr' || done || cbn; lia)).
  destruct res as [|r].
  - destruct (find_idx_for_pc (insts p) (next_pc x)) as [j|] eqn:Ej.
    + eexists _, _. split; [reflexivity|]. split; [done|]. split; [cbn; lia|]. split; [done|].
      intros i [= <-]. split; [|cbn; lia].
      destruct (po_stop _ _ _ POK) as (stop & T & _).
      pose proof (find_next _ _ _ _ _ _ T Hx Ej) as ->. destruct (find_idx_sound _ _ _ Ej) as (y & Hy & _).
      exists y. split; [done|]. rewrite (po_start _ _ _ POK (S idx) y Hy). cbn [after_terminator].
      rewrite Hx. destruct (inst x); try discriminate He; done.
    + eexists _, _. split; [reflexivity|]. split; [done|]. split; [cbn; lia|]. split; [done|]. by intros i [=].
  - eexists _, _. split; [reflexivity|]. split; [done|]. split; [cbn; lia|]. split; [done|]. by intros i [=].
Qed.

(** ** The whole dispatch *)

(** Gas an instruction may take mid-block. *)
Definition budget (i : Inst) : Z := if is_mem_store i then 512 else 0.

(** An instruction that is not an ecall completes; what it takes from gas it
    takes from [cow_left], within its budget; and it only jumps to block starts. *)
Definition plain_ok (st : State) (i : Inst) (r : Res (State * Ctl)) : Prop :=
  exists st' ctl c, r = Ret (st', ctl) /\ st_ok st' /\ 0 <= c <= budget i /\
    remaining (st_gas st') = remaining (st_gas st) - c /\
    c + cow_left (st_mem st') = cow_left (st_mem st) /\
    (forall j, ctl = Goto j -> starts_at j).

Lemma plain_same (st st' : State) i ctl :
  st_ok st' -> st_gas st' = st_gas st -> cow_left (st_mem st') = cow_left (st_mem st) ->
  (forall j, ctl = Goto j -> starts_at j) -> plain_ok st i (Ret (st', ctl)).
Proof.
  intros OK Eg Ec Hj. exists st', ctl, 0. unfold budget. rewrite Eg, Ec.
  repeat split; try apply OK; try done; try lia. destruct (is_mem_store i); lia.
Qed.

Lemma plain_load (st : State) i r :
  (exists st' ctl, r = Ret (st', ctl) /\ st_ok st' /\ st_gas st' = st_gas st /\
     cow_left (st_mem st') = cow_left (st_mem st) /\ next_or_fault ctl) -> plain_ok st i r.
Proof.
  intros (st' & ctl & -> & OK & Eg & Ec & Hn). apply plain_same; try done.
  intros j ->. by destruct Hn as [|[? ?]].
Qed.

Lemma plain_jump (st st0 : State) i pc target :
  st_ok st0 -> is_u 64 pc -> st_gas st0 = st_gas st -> st_mem st0 = st_mem st ->
  plain_ok st i (Ret (jump_to p st0 pc target)).
Proof.
  intros OK Hpc Eg Em. destruct (jump_to_ok st0 pc target OK Hpc) as (st' & ctl & -> & OK' & Eg' & Em' & Hc).
  apply plain_same; [done|congruence|congruence|]. intros j ->.
  by destruct Hc as [|(? & [= ->] & ?)].
Qed.

Lemma plain_store (st : State) i r :
  is_mem_store i = true ->
  (exists st' ctl c, r = Ret (st', ctl) /\ st_ok st' /\ 0 <= c <= 512 /\
     remaining (st_gas st') = remaining (st_gas st) - c /\
     c + cow_left (st_mem st') = cow_left (st_mem st) /\ next_or_fault ctl) -> plain_ok st i r.
Proof.
  intros Hi (st' & ctl & c & -> & OK & Hc & Eg & Ec & Hn). exists st', ctl, c.
  unfold budget. rewrite Hi. repeat split; try apply OK; try done; try lia.
  intros j ->. by destruct Hn as [|[? ?]].
Qed.

Lemma load_range_8 m a v : mem_inv m -> load_u8 m code code_base a = Some v -> is_u 8 v.
Proof. intros Hm. apply (or_code_range read_u8 1); [done|lia|apply read_u8_range]. Qed.
Lemma load_range_16 m a v : mem_inv m -> load_u16 m code code_base a = Some v -> is_u 16 v.
Proof. intros Hm. apply (or_code_range read_u16_le 2); [done|lia|apply read_u16_range]. Qed.
Lemma load_range_32 m a v : mem_inv m -> load_u32 m code code_base a = Some v -> is_u 32 v.
Proof. intros Hm. apply (or_code_range read_u32_le 4); [done|lia|apply read_u32_range]. Qed.
Lemma load_range_64 m a v : mem_inv m -> load_u64 m code code_base a = Some v -> is_u 64 v.
Proof. intros Hm. apply (or_code_range read_u64_le 8); [done|lia|apply read_u64_range]. Qed.

Lemma link_st_ok (st : State) rd v :
  st_ok st -> let st' := if negb (rd =? 0) then set_regs st (reg_write (st_regs st) rd (wrapping_add 32 code_base v)) else st in
  st_ok st' /\ st_gas st' = st_gas st /\ st_mem st' = st_mem st.
Proof.
  intros OK. destruct (negb (rd =? 0)); cbv zeta; [|done]. split; [|done].
  apply write_st_ok; [done|]. apply (is_u_le 32); [lia|]. by apply wrap_range.
Qed.

(** Register-to-register instructions. *)
Lemma exec_alu_ok (st : State) pc npc i :
  st_ok st -> is_alu i = true -> plain_ok st i (exec st pc npc i).
Proof.
  intros OK Hi. destruct (alu_total (reg_read (st_regs st)) code_base pc i Hi) as (rd & v & E).
  assert (exec st pc npc i = Ret (set_regs st (reg_write (st_regs st) rd v), Next)) as ->.
  { unfold Interp.exec. rewrite E. by destruct i. }
  apply plain_same; try done. apply write_st_ok; [done|].
  eapply alu_range; [|exact E]. intros x. apply reg_read_range, OK.
Qed.

Lemma exec_plain (st : State) idx x :
  st_ok st -> insts p !! idx = Some x -> is_ecall_block (inst x) = false ->
  Z.min (budget (inst x)) (cow_left (st_mem st)) <= remaining (st_gas st) ->
  plain_ok st (inst x) (exec st (pc x) (next_pc x) (inst x)).
Proof.
  intros OK Hx He Hb. destruct (entry_pc idx x Hx) as (Hpc & _ & _).
  destruct (is_alu (inst x)) eqn:Ha; [by apply exec_alu_ok|].
  destruct (inst x); try discriminate Ha; try discriminate He; cbn [Interp.exec]; cbn [budget is_mem_store] in Hb.
  1-7: apply plain_load, exec_load_ok; try done; try lia; intros m a v Hm Hl;
    first [apply u64_wrap | eapply load_range_64; eassumption | eapply (is_u_le 8); [lia|eapply load_range_8; eassumption] | eapply (is_u_le 16); [lia|eapply load_range_16; eassumption]
      | eapply (is_u_le 32); [lia|eapply load_range_32; eassumption]].
  1: apply plain_store, exec_store_ok; try done; try lia; apply write_u8_inv.
  1: apply plain_store, exec_store_ok; try done; try lia; apply write_u16_inv.
  1: apply plain_store, exec_store_ok; try done; try lia; apply write_u32_inv.
  1: apply plain_store, exec_store_ok; try done; try lia; apply write_u64_inv.
  1-2: match goal with |- plain_ok _ _ (Ret (jump_to _ (if negb (?rd =? 0) then _ else _) _ _)) => destruct (link_st_ok st rd (next_pc x) OK) as (? & ? & ?); by apply plain_jump end.
  1-6: cbn [branch_taken]; match goal with |- plain_ok _ _ (if ?b then _ else _) => destruct b end; [by apply plain_jump|by apply plain_same].
  all: apply plain_same; try done.
  all: by apply set_pc_st_ok.
Qed.

(** ** The block-entry gate *)

(** Mid-block, gas covers the worst case of the stores still ahead, or every
    copy the memory can still charge. *)
Definition covered (st : State) (idx : nat) : Prop :=
  Z.min (512 * stores (block_of (insts p) idx)) (cow_left (st_mem st)) <= remaining (st_gas st).

(** Invariant at the head of the loop. *)
Definition head_ok (st : State) (idx : nat) : Prop :=
  exists x, insts p !! idx = Some x /\ st_ok st /\ (is_gas_block_start x = false -> covered st idx).

Lemma ecall_is_start idx x :
  insts p !! idx = Some x -> is_ecall_block (inst x) = true -> is_gas_block_start x = true.
Proof. intros Hx He. rewrite (po_start _ _ _ POK idx x Hx), He. apply orb_true_r. Qed.

Lemma costs_at idx x :
  insts p !! idx = Some x -> is_gas_block_start x = true -> is_ecall_block (inst x) = false ->
  exists cost, block_costs p !! idx = Some cost /\ 1 <= cost /\
    block_reserves p !! idx = Some (Z.min (512 * stores (block_of (insts p) idx)) (2 ^ 32 - 1)).
Proof.
  intros Hx Hs He. exists (rv_gas_cost_for_block (insts p) idx mem_cycles).
  rewrite (block_costs_lookup _ _ _ POK), (block_reserves_lookup _ _ _ POK), Hx.
  cbn [fmap option_fmap option_map]. unfold block_cost_at. rewrite Hs, He. cbn [fst snd].
  split; [done|]. split; [apply flush_pos|]. by rewrite (block_reserve_spec _ _ (po_meta _ _ _ POK)).
Qed.

Lemma ecall_costs_at idx x :
  insts p !! idx = Some x -> is_ecall_block (inst x) = true -> block_costs p !! idx = Some 0.
Proof.
  intros Hx He. rewrite (block_costs_lookup _ _ _ POK), Hx. cbn [fmap option_fmap option_map].
  unfold block_cost_at. by rewrite (ecall_is_start idx x Hx He), He.
Qed.

(** The gate completes; a refused block costs nothing; an entered one is
    covered, and has paid unless it is an ecall block or already running. *)
Lemma gate_ok (st : State) idx x :
  insts p !! idx = Some x -> head_ok st idx ->
  exists st1 enter, gate p st idx x = Ret (st1, enter) /\ st_ok st1 /\ st_mem st1 = st_mem st /\
    remaining (st_gas st1) <= remaining (st_gas st) /\
    (enter = true -> is_ecall_block (inst x) = false ->
       covered st1 idx /\
       (is_gas_block_start x = true -> remaining (st_gas st1) < remaining (st_gas st))).
Proof.
  intros Hx (x' & Hx' & OK & Hcov). rewrite Hx in Hx'. injection Hx' as <-.
  destruct (entry_pc idx x Hx) as (Hpc & _). unfold gate.
  destruct (is_gas_block_start x) eqn:Hs.
  2: { exists st, true. split_and!; try done; try lia. intros _ _. split; [auto|done]. }
  destruct (is_ecall_block (inst x)) eqn:He.
  { rewrite (ecall_costs_at idx x Hx He). cbn [expect res_bind Z.eqb negb]. exists st, true.
    split_and!; try done; lia. }
  destruct (costs_at idx x Hx Hs He) as (cost & Ec & Hc & Er).
  rewrite Ec, Er. cbn [expect res_bind]. destruct (Z.eqb_spec cost 0); [lia|]. cbn [negb].
  pose proof (cow_left_range (st_mem st) (proj1 (proj2 OK))) as Hcow.
  pose proof (stores_nonneg (block_of (insts p) idx)).
  destruct (Z.ltb_spec (remaining (st_gas st))
    (cost + Z.min (512 * stores (block_of (insts p) idx)) (2 ^ 32 - 1))).
  - eexists _, false. split; [reflexivity|]. split; [by apply set_pc_st_ok|]. split_and!; (done || cbn; lia).
  - rewrite charge_expect_ok by lia. cbn [res_bind]. eexists _, true. split; [reflexivity|].
    destruct OK as (? & ? & ?). unfold covered. cbn [st_mem st_gas remaining].
    split_and!; try done; try (cbn; lia).
    unfold st_ok. split_and!; (done || cbn; lia).
Qed.

(** ** One round *)

Definition measure (st : State) (idx : nat) : Z :=
  remaining (st_gas st) * (Z.of_nat (length (insts p)) + 1) +
  match insts p !! idx with
  | Some x => if is_gas_block_start x then 0 else Z.of_nat (length (insts p)) - Z.of_nat idx
  | None => 0
  end.

Lemma measure_start (st : State) j :
  starts_at j -> measure st j = remaining (st_gas st) * (Z.of_nat (length (insts p)) + 1).
Proof. intros (x & Hx & Hs). unfold measure. rewrite Hx, Hs. lia. Qed.

Lemma measure_upper (st : State) j :
  measure st j <= remaining (st_gas st) * (Z.of_nat (length (insts p)) + 1) + Z.of_nat (length (insts p)).
Proof. unfold measure. destruct (insts p !! j) as [x|]; [destruct (is_gas_block_start x)|]; lia. Qed.

Lemma head_at_start (st : State) j : st_ok st -> starts_at j -> head_ok st j.
Proof. intros OK (x & Hx & Hs). exists x. repeat split; try done; try apply OK. congruence. Qed.

(** Falling through keeps the coverage and lowers the measure. *)
Lemma next_ok (st1 st2 : State) idx x y c :
  insts p !! idx = Some x -> insts p !! S idx = Some y -> st_ok st2 ->
  covered st1 idx -> 0 <= c <= budget (inst x) ->
  remaining (st_gas st2) = remaining (st_gas st1) - c ->
  c + cow_left (st_mem st2) = cow_left (st_mem st1) -> head_ok st2 (S idx).
Proof.
  intros Hx Hy OK Hcov Hc Hg Hw. exists y. repeat split; try done; try apply OK.
  intros Hs. unfold covered in *. rewrite (block_of_step _ _ _ _ Hx Hy Hs), stores_cons in Hcov.
  pose proof (stores_nonneg (block_of (insts p) (S idx))). unfold budget in Hc.
  destruct (is_mem_store (inst x)); lia.
Qed.

(** An instruction that paid at the block start, or runs inside the block,
    lowers the measure wherever it goes. *)
Lemma plain_measure (st st2 : State) idx x j :
  insts p !! idx = Some x -> 0 <= remaining (st_gas st2) <= remaining (st_gas st) ->
  (is_gas_block_start x = true -> remaining (st_gas st2) < remaining (st_gas st)) ->
  starts_at j \/ j = S idx -> measure st2 j < measure st idx.
Proof.
  intros Hx Hg Hpaid Hj. pose proof (lookup_lt_Some _ _ _ Hx) as Hlt.
  destruct (is_gas_block_start x) eqn:Hs.
  - rewrite (measure_start st idx); [|by exists x]. pose proof (measure_upper st2 j).
    specialize (Hpaid eq_refl). nia.
  - assert (measure st idx = remaining (st_gas st) * (Z.of_nat (length (insts p)) + 1) +
      (Z.of_nat (length (insts p)) - Z.of_nat idx)) as -> by (unfold measure; by rewrite Hx, Hs).
    destruct Hj as [Hj| ->]; [rewrite (measure_start st2 j Hj); nia|].
    unfold measure. destruct (insts p !! S idx) as [y|]; [destruct (is_gas_block_start y)|]; nia.
Qed.

(** What a round establishes. *)
Definition round_ok (st : State) (idx : nat) (r : Res (State * (ExitReason + nat))) : Prop :=
  exists st' o, r = Ret (st', o) /\ st_ok st' /\ remaining (st_gas st') <= remaining (st_gas st) /\
    match o with inl _ => True | inr j => head_ok st' j /\ measure st' j < measure st idx end.

(** The part of a round after the gate let the block in. *)
Definition after_gate (st1 : State) (idx : nat) (x : RvPreDecodedInst) : Res (State * (ExitReason + nat)) :=
  let! (st, ctl) := exec st1 (pc x) (next_pc x) (inst x) in
  match ctl with
  | Stop r => Ret (st, inl r)
  | Goto i => Ret (st, inr i)
  | Next =>
      if (length (insts p) <=? S idx)%nat
      then Ret (set_regs st (set_pc (st_regs st) (next_pc x)), inl ExitPanic)
      else Ret (st, inr (S idx))
  end.

Lemma round_ecall (st st1 : State) idx x :
  insts p !! idx = Some x -> is_ecall_block (inst x) = true -> st_ok st1 ->
  remaining (st_gas st1) <= remaining (st_gas st) -> round_ok st idx (after_gate st1 idx x).
Proof.
  intros Hx He OK1 Hg1.
  assert (exists st2 ctl, exec st1 (pc x) (next_pc x) (inst x) = Ret (st2, ctl) /\ st_ok st2 /\
    remaining (st_gas st2) <= remaining (st_gas st1) /\ ctl <> Next /\
    (forall i, ctl = Goto i -> starts_at i /\ remaining (st_gas st2) < remaining (st_gas st1)))
    as (st2 & ctl & Ee & OK2 & Hg2 & Hn & Hj).
  { destruct (inst x) eqn:Ei; try discriminate He; cbn [Interp.exec]; eapply exec_ecall_ok;
      eauto; by rewrite Ei. }
  unfold after_gate. rewrite Ee. cbn [res_bind].
  destruct ctl as [r|j|]; [|destruct (Hj j eq_refl) as [Hs Hl]|done].
  - eexists _, (inl _). split_and!; (done || lia).
  - eexists _, (inr _). split_and!; [done|done|lia|by apply head_at_start|].
    rewrite (measure_start _ _ Hs), (measure_start st idx); [nia|].
    exists x. split; [done|]. by apply (ecall_is_start idx).
Qed.

(** Coverage of the block pays for its first instruction. *)
Lemma covered_budget (st : State) idx x :
  insts p !! idx = Some x -> st_ok st -> covered st idx ->
  Z.min (budget (inst x)) (cow_left (st_mem st)) <= remaining (st_gas st).
Proof.
  unfold covered. intros Hx OK Hcov. destruct (block_of_head _ _ _ Hx) as [tl Eb].
  rewrite Eb, stores_cons in Hcov. pose proof (stores_nonneg tl). unfold budget.
  pose proof (cow_left_range (st_mem st) (proj1 (proj2 OK))).
  destruct (is_mem_store (inst x)); lia.
Qed.

Lemma round_plain (st st1 : State) idx x :
  insts p !! idx = Some x -> is_ecall_block (inst x) = false -> st_ok st1 ->
  remaining (st_gas st1) <= remaining (st_gas st) -> covered st1 idx ->
  (is_gas_block_start x = true -> remaining (st_gas st1) < remaining (st_gas st)) ->
  round_ok st idx (after_gate st1 idx x).
Proof.
  intros Hx He OK1 Hg1 Hcov1 Hpaid.
  destruct (exec_plain st1 idx x OK1 Hx He) as (st2 & ctl & c & Ee & OK2 & Hc & Hg2 & Hw & Hj);
    [by apply (covered_budget st1 idx)|].
  pose proof (proj2 (proj2 OK2)) as Hpos.
  assert (forall j, starts_at j \/ j = S idx -> measure st2 j < measure st idx) as Hmeas.
  { intros j. apply (plain_measure st st2 idx x j Hx); [lia|]. intros Hs. specialize (Hpaid Hs). lia. }
  unfold after_gate. rewrite Ee. cbn [res_bind]. destruct ctl as [r|j|].
  - eexists _, (inl _). split_and!; (done || lia).
  - eexists _, (inr _). split_and!; [done|done|lia|apply head_at_start; auto|auto].
  - destruct (Nat.leb_spec (length (insts p)) (S idx)) as [Hend|Hmore].
    + eexists _, (inl _). split; [reflexivity|]. split; [|cbn; split; [lia|done]].
      apply set_pc_st_ok; [done|]. by destruct (entry_pc idx x Hx) as (_ & ? & _).
    + destruct (lookup_lt_is_Some_2 (insts p) (S idx) Hmore) as [y Hy].
      eexists _, (inr _). split_and!; [done|done|lia|by eapply next_ok|auto].
Qed.

Lemma step_ok (st : State) idx : head_ok st idx -> round_ok st idx (step st idx).
Proof.
  intros Hh. destruct (Hh) as (x & Hx & OK & _).
  destruct (gate_ok st idx x Hx Hh) as (st1 & enter & Eg & OK1 & Em1 & Hg1 & Hen).
  unfold Interp.step. rewrite Hx. cbn [expect res_bind]. rewrite Eg. cbn [res_bind].
  destruct enter; cbn [negb]; [|by eexists _, (inl _)].
  change (round_ok st idx (after_gate st1 idx x)).
  destruct (is_ecall_block (inst x)) eqn:He; [by apply round_ecall|].
  destruct (Hen eq_refl eq_refl). by apply round_plain.
Qed.

(** ** The loop and the run *)

Lemma loop_ok fuel (st : State) idx :
  head_ok st idx -> measure st idx < Z.of_nat fuel ->
  exists st' r, loop fuel st idx = Some (Ret (st', r)) /\ st_ok st' /\
    remaining (st_gas st') <= remaining (st_gas st).
Proof.
  revert st idx. induction fuel as [|fuel IH]; intros st idx Hh Hm.
  - exfalso. destruct Hh as (x & Hx & (_ & _ & ?) & _). pose proof (lookup_lt_Some _ _ _ Hx).
    unfold measure in Hm. rewrite Hx in Hm. destruct (is_gas_block_start x); nia.
  - cbn [Interp.loop]. destruct (step_ok st idx Hh) as (st1 & o & -> & OK1 & Hg1 & Ho).
    destruct o as [r|j]; [eauto|]. destruct Ho as [Hh1 Hm1].
    destruct (IH st1 j Hh1 ltac:(lia)) as (st' & r & -> & ? & ?). eexists _, _. split_and!; (done || lia).
Qed.

Lemma run_ok fuel (st : State) :
  st_ok st -> remaining (st_gas st) * (Z.of_nat (length (insts p)) + 1) < Z.of_nat fuel ->
  exists st' r, run fuel st = Some (Ret (st', r)) /\ st_ok st' /\
    remaining (st_gas st') <= remaining (st_gas st).
Proof.
  intros OK Hf. unfold Interp.run. destruct (_ =? _)%nat; [by eexists _, _|].
  destruct (find_idx_for_pc (insts p) _) as [i|] eqn:Ei; [|by eexists _, _].
  destruct (find_idx_sound _ _ _ Ei) as (x & Hx & _). rewrite Hx.
  destruct (is_gas_block_start x) eqn:Hs; [|by eexists _, _].
  assert (starts_at i) as Hst by (by exists x).
  apply loop_ok; [by apply head_at_start|]. by rewrite (measure_start st i Hst).
Qed.
End Safety.

(** C1: the interpreter is total and never panics. For every code section below
    4 GiB, every well-formed machine state, every lawful memory and handler,
    [run] returns an exit reason after at most [gas * (n + 1) + 1] rounds ([n]
    the number of instructions): no [expect] fires (in particular no
    first-touch charge ever finds too little gas), no index is out of range,
    the final registers and memory are well formed and gas has not grown. *)
Theorem run_total_and_safe {M} {MM : Memory M} {ML : MemoryLaws M} {H} {EH : EcallHandler H M}
    {HL : HandlerLaws H M}
    code mem_cycles code_base (st : State H M) fuel :
  Z.of_nat (length code) < 2 ^ 32 -> st_ok st ->
  let p := predecode_rv_with_mem_cycles code mem_cycles in
  remaining (st_gas st) * (Z.of_nat (length (insts p)) + 1) < Z.of_nat fuel ->
  exists st' r, run p code code_base fuel st = Some (Ret (st', r)) /\ st_ok st' /\
    0 <= remaining (st_gas st') <= remaining (st_gas st).
Proof.
  intros Hlen OK p Hf.
  destruct (run_ok p code mem_cycles code_base Hlen (predecode_is_ok code mem_cycles Hlen) fuel st OK Hf)
    as (st' & r & E & OK' & Hg).
  exists st', r. split; [done|]. split; [done|]. split; [|done]. by destruct OK' as (_ & _ & ?).
Qed.

(** A machine with one data page, for the examples. *)
Definition sample_state : State PanickingHandler CopyingMemory :=
  mkState (mkRegs (<[1%nat := 0x10000000]> (replicate 15 0)) 0) sample_mem (mkGas 1000) panicking_handler.

Lemma sample_state_ok : st_ok sample_state.
Proof.
  split; [|split; [exact sample_mem_ok|cbn; lia]].
  split; [done|]. split; [|unfold is_u; cbn; lia].
  repeat (constructor; [unfold is_u; lia|]). constructor.
Qed.

Lemma run_total_and_safe_witness :
  let p := predecode sample_code in
  exists st' r, run p sample_code 0x400000 4001 sample_state = Some (Ret (st', r)) /\ st_ok st' /\
    0 <= remaining (st_gas st') <= 1000.
Proof.
  apply (run_total_and_safe sample_code DEFAULT_MEM_CYCLES 0x400000 sample_state 4001).
  - cbn. lia.
  - exact sample_state_ok.
  - vm_compute. reflexivity.
Defined.

(** The same run, evaluated: the block is charged, the store copies the page,
    the ecall is charged and the handler panics. *)
Example sample_run :
  option_map (fun r => match r with
    | Ret (st, e) => (e, remaining (st_gas st), take 8 (flat_mem (st_mem st))) | Abort => (ExitHalt, 0, []) end)
    (run (predecode sample_code) sample_code 0x400000 10 sample_state) =
  Some (ExitPanic, 621, [7; 0; 0; 0; 0; 0; 0; 0]).
Proof. vm_compute. reflexivity. Qed.
