(* ===== verification/InterpResume.v ===== *)
(** * Pausing and resuming

    An out-of-gas exit leaves the machine at a block start with nothing of the
    un-entered block done, so topping gas up and resuming is the same as having
    had the gas from the start. Proved by a simulation between the two runs,
    whose states differ in gas by a constant and in the stale program counter. *)

From S2P Require Import Prelude MachineInt Engine GasConst Instruction InstructionFacts GasSim.
From S2P Require Import GasCost Predecode Mat Mem Interp InterpFacts InterpSafety.

Section Resume.
  Context {M : Type} {MM : Memory M} {ML : MemoryLaws M}.
  Context {H : Type} {EH : EcallHandler H M} {HL : HandlerLaws H M}.
  Context (p : Predecode) (code : list Z) (mem_cycles code_base : Z).
  Context (Hlen : Z.of_nat (length code) < 2 ^ 32) (POK : predecode_ok code mem_cycles p).

  #[local] Abbreviation State := (State H M).
  #[local] Abbreviation exec := (exec p code code_base).
  #[local] Abbreviation step := (step p code code_base).
  #[local] Abbreviation loop := (loop p code code_base).
  #[local] Abbreviation run := (run p code code_base).

(** The same machine with [d] more gas and another stale program counter. *)
Definition shift (d v : Z) (st : State) : State :=
  mkState (set_pc (st_regs st) v) (st_mem st) (mkGas (remaining (st_gas st) + d)) (st_handler st).

Definition add_gas (d : Z) (st : State) : State := shift d (r_pc (st_regs st)) st.

(** Results correspond: equal up to the extra gas when the machine stops, and
    up to the stale program counter while it goes on. *)
Definition matches (d : Z) (stops : bool) (st1 st2 : State) : Prop :=
  if stops then st2 = add_gas d st1 else exists v, st2 = shift d v st1.

Lemma reg_write_set_pc r v x u : reg_write (set_pc r v) x u = set_pc (reg_write r x u) v.
Proof. unfold reg_write. cbv zeta. by destruct (_ =? _). Qed.

Definition stops_of (c : Ctl) : bool := match c with Stop _ => true | _ => false end.

Lemma page_fault_shift d v (st : State) pc a :
  page_fault (shift d v st) pc a =
  (add_gas d (fst (page_fault st pc a)), snd (page_fault st pc a)).
Proof. done. Qed.

Lemma exec_load_shift d v (st : State) pc w load cast rd rs1 imm st' ctl :
  st_ok st -> 0 <= d -> 1 <= w <= 8 ->
  exec_load code code_base st pc w load cast rd rs1 imm = Ret (st', ctl) ->
  exists st2, exec_load code code_base (shift d v st) pc w load cast rd rs1 imm = Ret (st2, ctl) /\
    matches d (stops_of ctl) st' st2.
Proof.
  intros (Hr & Hm & Hg) Hd Hw. unfold exec_load. cbv zeta.
  change (compute_addr (st_regs (shift d v st)) rs1 imm) with (compute_addr (st_regs st) rs1 imm).
  set (a := compute_addr _ _ _).
  destruct (touch_read_law (st_mem st) a w Hm (compute_addr_range _ _ _) Hw) as (m' & r & _ & _ & T).
  cbn [shift st_mem st_gas st_regs st_handler]. rewrite !T by (done || cbn; lia). cbn [res_bind].
  destruct r as [[]|[]]; [destruct (load m' code code_base a) as [u|]|]; intros [= <- <-].
  - eexists. split; [reflexivity|]. exists v. unfold shift, set_regs.
    cbn [st_regs st_mem st_gas st_handler]. by rewrite reg_write_set_pc.
  - eexists. split; reflexivity.
  - eexists. split; reflexivity.
Qed.

Lemma exec_store_shift d v (st : State) pc w write rs1 rs2 imm st' ctl :
  st_ok st -> 0 <= d -> 1 <= w <= 8 ->
  Z.min 512 (cow_left (st_mem st)) <= remaining (st_gas st) ->
  exec_store st pc w write rs1 rs2 imm = Ret (st', ctl) ->
  exists st2, exec_store (shift d v st) pc w write rs1 rs2 imm = Ret (st2, ctl) /\
    matches d (stops_of ctl) st' st2.
Proof.
  intros (Hr & Hm & Hg) Hd Hw Hres. unfold exec_store. cbv zeta.
  change (compute_addr (st_regs (shift d v st)) rs1 imm) with (compute_addr (st_regs st) rs1 imm).
  set (a := compute_addr _ _ _).
  destruct (touch_write_law (st_mem st) a w Hm (compute_addr_range _ _ _) Hw)
    as (c & m' & r & Hm' & Hc & Hcow & T).
  change (COW_COST * MAX_PAGES_PER_ACCESS) with 512 in Hc. pose proof (cow_left_range m' Hm').
  cbn [shift st_mem st_gas st_regs st_handler]. rewrite !T by (cbn; lia). cbn [res_bind remaining].
  replace (remaining (st_gas st) + d - c) with (remaining (st_gas st) - c + d) by lia.
  change (reg_read (set_pc (st_regs st) v) rs2) with (reg_read (st_regs st) rs2).
  destruct r as [[]|[]]; [|intros [= <- <-]; eexists; split; reflexivity].
  destruct (negb (store_writable m' a w)); [intros [= <- <-]; eexists; split; reflexivity|].
  destruct (write m' a _) as [m'' []]; intros [= <- <-]; eexists; (split; [reflexivity|]).
  - by exists v.
  - done.
Qed.

Lemma jump_to_shift d v (st : State) pc target :
  let '(st', ctl) := jump_to p st pc target in
  exists st2, jump_to p (shift d v st) pc target = (st2, ctl) /\ matches d (stops_of ctl) st' st2.
Proof.
  unfold jump_to. destruct (find_idx_for_pc (insts p) target) as [i|]; [|by eexists].
  destruct (insts p !! i) as [x|]; [|by eexists].
  destruct (is_gas_block_start x); eexists; (split; [reflexivity|]); [by exists v|done].
Qed.

Lemma exec_alu_shift d v (st : State) pc npc i st' ctl :
  is_alu i = true -> exec st pc npc i = Ret (st', ctl) ->
  exists st2, exec (shift d v st) pc npc i = Ret (st2, ctl) /\ matches d (stops_of ctl) st' st2.
Proof.
  intros Hi. destruct (alu_total (reg_read (st_regs st)) code_base pc i Hi) as (rd & u & E).
  assert (forall s, reg_read (st_regs s) = reg_read (st_regs st) ->
    exec s pc npc i = Ret (set_regs s (reg_write (st_regs s) rd u), Next)) as X.
  { intros s Es. unfold Interp.exec. rewrite Es, E. by destruct i. }
  rewrite !X by done. intros [= <- <-]. eexists. split; [reflexivity|]. exists v.
  unfold shift, set_regs. cbn [st_regs st_mem st_gas st_handler]. by rewrite reg_write_set_pc.
Qed.

Lemma link_shift d v (st : State) (b : bool) rd u :
  (if b then set_regs (shift d v st) (reg_write (st_regs (shift d v st)) rd u) else shift d v st) =
  shift d v (if b then set_regs st (reg_write (st_regs st) rd u) else st).
Proof.
  destruct b; [|done]. unfold shift, set_regs. cbn [st_regs st_mem st_gas st_handler].
  by rewrite reg_write_set_pc.
Qed.

(** A jump out of an instruction. *)
Lemma jump_shift d v (st0 : State) pc target st' ctl :
  Ret (jump_to p st0 pc target) = Ret (st', ctl) ->
  exists st2, Ret (jump_to p (shift d v st0) pc target) = Ret (st2, ctl) /\
    matches d (stops_of ctl) st' st2.
Proof.
  intros E. pose proof (jump_to_shift d v st0 pc target) as J.
  destruct (jump_to p st0 pc target) as [s c]. injection E as <- <-.
  destruct J as (st2 & -> & ?). eauto.
Qed.

Lemma exec_plain_shift d v (st : State) pc npc i st' ctl :
  st_ok st -> 0 <= d -> is_ecall_block i = false ->
  Z.min (budget i) (cow_left (st_mem st)) <= remaining (st_gas st) ->
  exec st pc npc i = Ret (st', ctl) ->
  exists st2, exec (shift d v st) pc npc i = Ret (st2, ctl) /\ matches d (stops_of ctl) st' st2.
Proof.
  intros OK Hd He Hb. destruct (is_alu i) eqn:Ha; [by apply exec_alu_shift|].
  destruct i; try discriminate Ha; try discriminate He; cbn [Interp.exec]; cbn [budget is_mem_store] in Hb.
  1-7: apply exec_load_shift; (done || lia).
  1-4: apply exec_store_shift; (done || lia).
  1-2: cbv zeta; rewrite link_shift; apply jump_shift.
  1-6: change (reg_read (st_regs (shift d v st))) with (reg_read (st_regs st)); cbn [branch_taken];
    match goal with |- (if ?b then _ else _) = _ -> _ => destruct b end; [apply jump_shift|].
  all: intros [= <- <-]; eexists; (split; [reflexivity|]); first [by exists v | done].
Qed.

Lemma exec_ecall_shift d v (st : State) pc npc is_ecalli kind st' ctl :
  0 <= d -> exec_ecall p st pc npc is_ecalli kind = Ret (st', ctl) ->
  (ecall_dynamic_cost is_ecalli <= remaining (st_gas st) /\
   exists st2, exec_ecall p (shift d v st) pc npc is_ecalli kind = Ret (st2, ctl) /\ st2 = add_gas d st') \/
  (st' = set_regs st (set_pc (st_regs st) pc) /\ ctl = Stop ExitOutOfGas /\
   (d = 0 -> exec_ecall p (shift d v st) pc npc is_ecalli kind = Ret (st', ctl))).
Proof.
  intros Hd. unfold exec_ecall. cbn [shift st_gas st_regs st_mem st_handler remaining].
  destruct (Z.ltb_spec (remaining (st_gas st)) (ecall_dynamic_cost is_ecalli)) as [Hlt|Hge].
  - intros [= <- <-]. right. split; [done|]. split; [done|]. intros ->. rewrite Z.add_0_r.
    destruct (Z.ltb_spec (remaining (st_gas st)) (ecall_dynamic_cost is_ecalli)); [|lia].
    unfold shift, set_regs. cbn [st_regs st_mem st_gas st_handler]. rewrite Z.add_0_r.
    destruct st as [? ? [g] ?]. done.
  - intros E. left. split; [done|].
    destruct (Z.ltb_spec (remaining (st_gas st) + d) (ecall_dynamic_cost is_ecalli)); [lia|].
    rewrite charge_expect_ok in E |- * by (cbn; lia). cbn [res_bind] in *.
    change (set_pc (set_pc (st_regs st) v) npc) with (set_pc (st_regs st) npc).
    destruct (handle _ _ _ _) as [[[h regs] mem] res]. cbn [remaining].
    replace (remaining (st_gas st) + d - ecall_dynamic_cost is_ecalli)
      with (remaining (st_gas st) - ecall_dynamic_cost is_ecalli + d) by lia.
    destruct res as [|r]; [destruct (find_idx_for_pc (insts p) npc)|]; injection E as <- <-;
      eexists; (split; [reflexivity|]); unfold add_gas, shift; cbn [st_regs st_mem st_gas st_handler];
      by destruct regs.
Qed.

(** ** One round *)

(** Either both machines do the same, or the first one ran out of gas before
    doing anything. *)
Definition round_matches (d : Z) (st st' : State) (idx : nat) (o : ExitReason + nat)
    (r2 : Res (State * (ExitReason + nat))) : Prop :=
  (exists st2, r2 = Ret (st2, o) /\ matches d (match o with inl _ => true | inr _ => false end) st' st2) \/
  (o = inl ExitOutOfGas /\ starts_at p idx /\
   (exists x, insts p !! idx = Some x /\ st' = set_regs st (set_pc (st_regs st) (pc x))) /\
   (d = 0 -> r2 = Ret (st', o))).

Lemma gate_shift d v (st st1 : State) idx x enter :
  0 <= d -> gate p st idx x = Ret (st1, enter) ->
  (enter = true /\ gate p (shift d v st) idx x = Ret (shift d v st1, true)) \/
  (enter = false /\ is_gas_block_start x = true /\ st1 = set_regs st (set_pc (st_regs st) (pc x)) /\
   (d = 0 -> gate p (shift d v st) idx x = Ret (st1, false))).
Proof.
  intros Hd. unfold gate. destruct (is_gas_block_start x); [|intros [= <- <-]; by left].
  destruct (block_costs p !! idx) as [cost|]; [|done]. cbn [expect res_bind].
  destruct (negb (cost =? 0)); [|intros [= <- <-]; by left].
  destruct (block_reserves p !! idx) as [reserve|]; [|done]. cbn [expect res_bind].
  cbn [shift st_gas remaining].
  destruct (Z.ltb_spec (remaining (st_gas st)) (cost + reserve)) as [Hlt|Hge].
  - intros [= <- <-]. right. split_and!; try done. intros ->. rewrite Z.add_0_r.
    destruct (Z.ltb_spec (remaining (st_gas st)) (cost + reserve)); [|lia].
    unfold shift, set_regs. cbn [st_regs st_mem st_gas st_handler]. rewrite Z.add_0_r.
    by destruct st as [? ? [g] ?].
  - intros E. left. destruct (Z.ltb_spec (remaining (st_gas st) + d) (cost + reserve)); [lia|].
    destruct (charge_expect (st_gas st) cost) as [g|] eqn:Ec; [|done].
    apply charge_expect_inv in Ec as [Hc ->]. cbn [res_bind] in E. injection E as <- <-.
    rewrite charge_expect_ok by (cbn; lia). cbn [res_bind remaining st_gas]. split; [done|].
    unfold shift. cbn [st_regs st_mem st_gas st_handler remaining].
    by replace (remaining (st_gas st) + d - cost) with (remaining (st_gas st) - cost + d) by lia.
Qed.

(** An ecall block is let in for nothing: it pays in its own arm. *)
Lemma gate_ecall (st : State) idx x :
  insts p !! idx = Some x -> is_ecall_block (inst x) = true -> gate p st idx x = Ret (st, true).
Proof.
  intros Hx He. unfold gate. destruct (is_gas_block_start x); [|done].
  by rewrite (ecall_costs_at p code mem_cycles POK idx x Hx He).
Qed.

Lemma after_gate_shift d v (st1 st' : State) idx x o :
  insts p !! idx = Some x -> st_ok st1 -> 0 <= d ->
  (is_ecall_block (inst x) = false -> covered p st1 idx) ->
  after_gate p code code_base st1 idx x = Ret (st', o) ->
  (exists st2, after_gate p code code_base (shift d v st1) idx x = Ret (st2, o) /\
     matches d (match o with inl _ => true | inr _ => false end) st' st2) \/
  (is_ecall_block (inst x) = true /\ o = inl ExitOutOfGas /\
   st' = set_regs st1 (set_pc (st_regs st1) (pc x)) /\
   (d = 0 -> after_gate p code code_base (shift d v st1) idx x = Ret (st', o))).
Proof.
  intros Hx OK1 Hd Hcov E. unfold after_gate in *.
  destruct (exec st1 (pc x) (next_pc x) (inst x)) as [[s ctl]|] eqn:Ee; [|done].
  cbn [res_bind] in E.
  assert ((exists s2, exec (shift d v st1) (pc x) (next_pc x) (inst x) = Ret (s2, ctl) /\
            matches d (stops_of ctl) s s2) \/
    (s = set_regs st1 (set_pc (st_regs st1) (pc x)) /\ ctl = Stop ExitOutOfGas /\
     is_ecall_block (inst x) = true /\
     (d = 0 -> exec (shift d v st1) (pc x) (next_pc x) (inst x) = Ret (s, ctl)))) as C.
  { destruct (is_ecall_block (inst x)) eqn:He.
    - destruct (inst x); try discriminate He; cbn [Interp.exec] in *;
        destruct (exec_ecall_shift d v _ _ _ _ _ _ _ Hd Ee) as [(_ & s2 & E2 & ->)|(? & ? & ?)]; auto.
      all: left; eexists; split; [exact E2|]; destruct ctl; cbn; eauto.
    - left. apply exec_plain_shift; try done.
      eapply covered_budget; eauto. }
  destruct C as [(s2 & E2 & Hm)|(-> & -> & He & H0)].
  - left. rewrite E2. cbn [res_bind]. destruct ctl as [r|j|]; cbn [stops_of matches] in Hm.
    + injection E as <- <-. eauto.
    + injection E as <- <-. eauto.
    + destruct Hm as [u ->]. destruct (_ <=? _)%nat; injection E as <- <-; eexists; (split; [reflexivity|]).
      * done.
      * by exists u.
  - injection E as <- <-. right. split_and!; try done. intros D. by rewrite (H0 D).
Qed.

Lemma step_shift d v (st st' : State) idx o :
  head_ok p st idx -> 0 <= d -> step st idx = Ret (st', o) ->
  round_matches d st st' idx o (step (shift d v st) idx).
Proof.
  intros Hh Hd E. destruct (Hh) as (x & Hx & OK & _).
  destruct (gate_ok p code mem_cycles Hlen POK st idx x Hx Hh) as (st1 & enter & Eg & OK1 & _ & _ & Hen).
  unfold Interp.step in *. rewrite Hx in *. cbn [expect res_bind] in *. rewrite Eg in E. cbn [res_bind] in E.
  destruct (gate_shift d v _ _ _ _ _ Hd Eg) as [[-> E2]|(-> & Hs & -> & E2)]; cbn [negb] in E.
  - rewrite E2. cbn [res_bind negb].
    destruct (after_gate_shift d v st1 st' idx x o Hx OK1 Hd) as [?|(He & -> & -> & ?)];
      [intros He; by apply Hen|exact E|by left|].
    rewrite (gate_ecall st idx x Hx He) in Eg. injection Eg as <-. right. split_and!; try done.
    + exists x. split; [done|]. by apply (ecall_is_start p code mem_cycles POK idx).
    + by exists x.
  - injection E as <- <-. right. split_and!; [done|by exists x|by exists x|].
    intros D. by rewrite (E2 D).
Qed.

(** ** Where an out-of-gas exit comes from *)

  Context (quiet : forall (h : H) k regs (mem : M), snd (handle h k regs mem) <> Exit ExitOutOfGas).

Lemma jump_to_quiet (st st' : State) pc target : jump_to p st pc target <> (st', Stop ExitOutOfGas).
Proof.
  unfold jump_to. destruct (find_idx_for_pc _ _) as [i|]; [|done].
  destruct (insts p !! i) as [y|]; [|done]. by destruct (is_gas_block_start y).
Qed.

Lemma exec_plain_quiet (st st' : State) pc npc i :
  is_ecall_block i = false -> exec st pc npc i <> Ret (st', Stop ExitOutOfGas).
Proof.
  intros He E. pose proof (jump_to_quiet) as J.
  destruct i; try discriminate He; cbn [Interp.exec alu] in E; cbv zeta in E; try discriminate E.
  all: try (injection E as E; by apply J in E).
  all: try (cbn [branch_taken] in E; match type of E with (if ?b then _ else _) = _ => destruct b end;
    [injection E as E; by apply J in E|done]).
  all: unfold exec_load, exec_store, page_fault in E; cbv zeta in E.
  all: match type of E with res_bind ?t _ = _ => destruct t as [[[m g] r]|] end; [|done].
  all: cbn [res_bind] in E; by repeat (case_match; try discriminate E).
Qed.

Lemma exec_quiet (st st' : State) pc npc i :
  exec st pc npc i = Ret (st', Stop ExitOutOfGas) ->
  is_ecall_block i = true /\ st' = set_regs st (set_pc (st_regs st) pc).
Proof.
  intros E. destruct (is_ecall_block i) eqn:He; [|by apply exec_plain_quiet in E].
  split; [done|]. destruct i; try discriminate He; cbn [Interp.exec] in E; unfold exec_ecall in E.
  all: destruct (_ <? _); [by injection E as <-|].
  all: destruct (charge_expect _ _) as [g|]; [|done]; cbn [res_bind] in E.
  all: destruct (handle _ _ _ _) as [[[h regs] mem] res] eqn:Eh; apply (f_equal snd) in Eh.
  all: destruct res as [|r]; [by destruct (find_idx_for_pc _ _)|injection E as <- ->; by apply quiet in Eh].
Qed.

(** An out-of-gas round happens at a block start and only moves the program
    counter there. *)
Lemma step_oog (st st' : State) idx :
  head_ok p st idx -> step st idx = Ret (st', inl ExitOutOfGas) ->
  exists x, insts p !! idx = Some x /\ is_gas_block_start x = true /\
    st' = set_regs st (set_pc (st_regs st) (pc x)).
Proof.
  intros Hh E. destruct (Hh) as (x & Hx & _). exists x. split; [done|].
  unfold Interp.step in E. rewrite Hx in E. cbn [expect res_bind] in E.
  destruct (gate p st idx x) as [[st1 enter]|] eqn:Eg; [|done]. cbn [res_bind] in E.
  destruct (gate_shift 0 0 _ _ _ _ _ (Z.le_refl 0) Eg) as [[-> _]|(-> & ? & -> & _)]; cbn [negb] in E;
    [|by injection E as <-].
  destruct (exec st1 _ _ _) as [[s ctl]|] eqn:Ee; [|done]. cbn [res_bind] in E.
  destruct ctl as [r|j|]; [|done|by destruct (_ <=? _)%nat]. injection E as <- ->.
  apply exec_quiet in Ee as [He ->]. rewrite (gate_ecall st idx x Hx He) in Eg. injection Eg as <-.
  split; [|done]. by apply (ecall_is_start p code mem_cycles POK idx).
Qed.

(** ** The loop *)

Lemma shift_zero (st : State) : shift 0 (r_pc (st_regs st)) st = st.
Proof. destruct st as [[r v] m [g] h]. unfold shift. cbn. by rewrite Z.add_0_r. Qed.

Lemma loop_mono fuel k (st : State) idx r : loop fuel st idx = Some r -> loop (fuel + k) st idx = Some r.
Proof.
  revert st idx. induction fuel as [|fuel IH]; intros st idx; [done|]. cbn [Interp.loop Nat.add].
  destruct (step st idx) as [[s [e|j]]|]; [done| |done]. apply IH.
Qed.

(** The program counter the machine was paused with does not matter. *)
Lemma loop_stale_pc fuel v (st st' : State) idx r :
  head_ok p st idx -> loop fuel st idx = Some (Ret (st', r)) ->
  loop fuel (shift 0 v st) idx = Some (Ret (st', r)).
Proof.
  revert v st idx. induction fuel as [|fuel IH]; intros v st idx Hh; [done|]. cbn [Interp.loop].
  destruct (step_ok p code mem_cycles code_base Hlen POK st idx Hh) as (s & o & Es & _ & _ & Ho).
  rewrite Es. destruct (step_shift 0 v st s idx o Hh (Z.le_refl 0) Es) as [(s2 & -> & Hm)|(-> & _ & _ & ->)];
    [|done..]. destruct o as [e|j]; cbn [matches] in Hm.
  - unfold add_gas in Hm. by rewrite shift_zero in Hm; subst.
  - destruct Hm as [u ->]. apply IH. apply Ho.
Qed.

(** The run with more gas reaches the pause point, at a block start. *)
Lemma loop_reaches d fuel v (st st' : State) idx :
  head_ok p st idx -> 0 <= d -> loop fuel st idx = Some (Ret (st', ExitOutOfGas)) ->
  exists n j x, insts p !! j = Some x /\ is_gas_block_start x = true /\ st_ok st' /\
    r_pc (st_regs st') = pc x /\
    exists u, forall k, loop (n + k) (shift d v st) idx = loop k (shift d u st') j.
Proof.
  revert v st idx. induction fuel as [|fuel IH]; intros v st idx Hh Hd; [done|]. cbn [Interp.loop].
  destruct (step_ok p code mem_cycles code_base Hlen POK st idx Hh) as (s & o & Es & OKs & _ & Ho).
  rewrite Es. destruct o as [e|j].
  - intros [= -> ->]. destruct (step_oog st st' idx Hh Es) as (x & Hx & Hs & ->).
    exists 0%nat, idx, x. split_and!; try done. by exists v.
  - intros El. destruct Ho as [Hh' _].
    destruct (step_shift d v st s idx _ Hh Hd Es) as [(s2 & E2 & u & ->)|(? & _)]; [|done].
    destruct (IH u s j Hh' Hd El) as (n & i & x & ? & ? & ? & ? & w & Hw).
    exists (S n), i, x. split_and!; try done. exists w. intros k. cbn [Nat.add Interp.loop]. by rewrite E2.
Qed.

(** ** Runs *)

Definition enough_fuel (st : State) (fuel : nat) : Prop :=
  remaining (st_gas st) * (Z.of_nat (length (insts p)) + 1) < Z.of_nat fuel.

Lemma run_at_start fuel (st : State) i x :
  insts p !! i = Some x -> is_gas_block_start x = true -> wrap 32 (r_pc (st_regs st)) = pc x ->
  run fuel st = loop fuel st i.
Proof.
  intros Hx Hs Hpc. pose proof (lookup_lt_Some _ _ _ Hx) as Hlt. unfold Interp.run.
  destruct (Nat.eqb_spec (length (insts p)) 0); [lia|]. rewrite Hpc.
  destruct (po_stop _ _ _ POK) as (stop & T & _).
  rewrite (find_idx_complete _ i x) by (done || by eapply tiles_sorted). by rewrite Hx, Hs.
Qed.

(** Only the loop runs out of gas. *)
Lemma run_oog fuel (st st' : State) :
  run fuel st = Some (Ret (st', ExitOutOfGas)) ->
  exists i x, insts p !! i = Some x /\ is_gas_block_start x = true /\ wrap 32 (r_pc (st_regs st)) = pc x /\
    loop fuel st i = Some (Ret (st', ExitOutOfGas)).
Proof.
  unfold Interp.run. intros E. destruct (_ =? _)%nat; [done|].
  destruct (find_idx_for_pc _ _) as [i|] eqn:Ei; [|done].
  destruct (find_idx_sound _ _ _ Ei) as (x & Hx & Hpc). rewrite Hx in E.
  destruct (is_gas_block_start x) eqn:Hs; [|done]. exists i, x. split_and!; done.
Qed.

Lemma loop_agree f1 f2 (st : State) idx r1 r2 :
  loop f1 st idx = Some r1 -> loop f2 st idx = Some r2 -> r1 = r2.
Proof.
  intros E1 E2. apply (loop_mono _ f2) in E1. apply (loop_mono _ f1) in E2.
  rewrite Nat.add_comm in E2. congruence.
Qed.

Lemma add_gas_ok d (st : State) : 0 <= d -> st_ok st -> st_ok (add_gas d st).
Proof.
  intros Hd (Hr & ? & ?). split; [|split; [done|cbn; lia]]. apply set_pc_ok; [done|apply Hr].
Qed.

Lemma run_resumes d (st st' : State) fuel f1 f2 :
  st_ok st -> 0 <= d -> run fuel st = Some (Ret (st', ExitOutOfGas)) ->
  enough_fuel (add_gas d st) f1 -> enough_fuel (add_gas d st') f2 ->
  run f1 (add_gas d st) = run f2 (add_gas d st').
Proof.
  intros OK Hd E F1 F2. destruct (run_oog _ _ _ E) as (i & x & Hx & Hs & Hpc & El).
  assert (head_ok p st i) as Hh by (apply head_at_start; [done|by exists x]).
  destruct (loop_reaches d fuel (r_pc (st_regs st)) st st' i Hh Hd El)
    as (n & j & y & Hy & Hsy & OK' & Hpy & u & Hu).
  destruct (run_ok p code mem_cycles code_base Hlen POK f1 _ (add_gas_ok d st Hd OK) F1) as (a & ra & Ea & _).
  destruct (run_ok p code mem_cycles code_base Hlen POK f2 _ (add_gas_ok d st' Hd OK') F2) as (b & rb & Eb & _).
  rewrite (run_at_start f1 (add_gas d st) i x Hx Hs Hpc) in Ea |- *.
  assert (wrap 32 (r_pc (st_regs (add_gas d st'))) = pc y) as Hwy.
  { destruct (entry_pc p code mem_cycles Hlen POK j y Hy) as (_ & _ & Hr).
    cbn. rewrite Hpy. by apply wrap_small. }
  rewrite (run_at_start f2 (add_gas d st') j y Hy Hsy Hwy) in Eb |- *. rewrite Ea, Eb.
  apply (loop_stale_pc _ u) in Eb; [|apply head_at_start; [by apply add_gas_ok|by exists y]].
  f_equal. apply (loop_agree f1 (n + f2) (add_gas d st) i); [done|]. unfold add_gas at 1. rewrite Hu, <- Eb.
  f_equal. unfold add_gas, shift. cbn [st_regs st_mem st_gas st_handler remaining]. by rewrite Z.add_0_r.
Qed.
End Resume.

(** C3: an out-of-gas exit is a pause. Whenever [run] stops with [OutOfGas] in
    [st'], adding [d] gas to [st'] and running again gives exactly the result
    (final registers, memory, gas, handler state and exit reason) of a run that
    had the [d] extra gas from the start, for every lawful memory and every
    handler that does not itself answer [OutOfGas]. So a refused block, or a
    refused ecall, leaves no partial effect behind and charges nothing. *)
Theorem run_resume {M} {MM : Memory M} {ML : MemoryLaws M} {H} {EH : EcallHandler H M}
    {HL : HandlerLaws H M} code mem_cycles code_base (st st' : State H M) d fuel f1 f2 :
  Z.of_nat (length code) < 2 ^ 32 -> st_ok st -> 0 <= d ->
  (forall (h : H) k regs (mem : M), snd (handle h k regs mem) <> Exit ExitOutOfGas) ->
  let p := predecode_rv_with_mem_cycles code mem_cycles in
  run p code code_base fuel st = Some (Ret (st', ExitOutOfGas)) ->
  enough_fuel p (add_gas d st) f1 -> enough_fuel p (add_gas d st') f2 ->
  run p code code_base f1 (add_gas d st) = run p code code_base f2 (add_gas d st').
Proof.
  intros Hlen OK Hd Hq p E F1 F2.
  by apply (run_resumes p code mem_cycles code_base Hlen (predecode_is_ok code mem_cycles Hlen) Hq
    d st st' fuel f1 f2).
Qed.

(** [addi x10, x10, 1; ecalli 0] on a machine that can pay for the first block but
    not for the ecalli, and the state it pauses in. *)
Definition pause_code : list Z := [0x13; 0x05; 0x15; 0x00; 0x0B; 0x20; 0x00; 0x00].

Definition poor_state : State PanickingHandler CopyingMemory :=
  mkState (st_regs sample_state) sample_mem (mkGas 50) panicking_handler.

Definition paused_state : State PanickingHandler CopyingMemory :=
  mkState (mkRegs (<[7%nat := 1]> (r_gpr (st_regs sample_state))) 4) sample_mem (mkGas 49) panicking_handler.

Lemma run_resume_witness :
  run (predecode pause_code) pause_code 0x400000 151 poor_state = Some (Ret (paused_state, ExitOutOfGas)) /\
  run (predecode pause_code) pause_code 0x400000 1651 (add_gas 500 poor_state) =
  run (predecode pause_code) pause_code 0x400000 1650 (add_gas 500 paused_state).
Proof.
  split; [vm_compute; reflexivity|].
  apply (run_resume pause_code DEFAULT_MEM_CYCLES 0x400000 poor_state paused_state 500 151).
  - cbn. lia.
  - destruct sample_state_ok as (? & ? & _). split; [done|]. split; [done|cbn; lia].
  - lia.
  - done.
  - vm_compute. reflexivity.
  - vm_compute. reflexivity.
  - vm_compute. reflexivity.
Defined.
