(* ===== verification/InterpFlow.v ===== *)
(** * Control flow and gas accounting

    Where the interpreter can go, as an invariant of the states it visits, and
    an exact ledger of where the gas of a run went. *)

From S2P Require Import Prelude MachineInt Engine GasConst Instruction InstructionFacts GasSim.
From S2P Require Import GasCost Predecode Mat Mem Interp InterpFacts InterpSafety InterpResume.

Section Flow.
  Context {M : Type} {MM : Memory M} {ML : MemoryLaws M}.
  Context {H : Type} {EH : EcallHandler H M} {HL : HandlerLaws H M}.
  Context (p : Predecode) (code : list Z) (mem_cycles code_base : Z).
  Context (Hlen : Z.of_nat (length code) < 2 ^ 32) (POK : predecode_ok code mem_cycles p).

  #[local] Abbreviation State := (State H M).
  #[local] Abbreviation exec := (exec p code code_base).
  #[local] Abbreviation step := (step p code code_base).
  #[local] Abbreviation loop := (loop p code code_base).
  #[local] Abbreviation run := (run p code code_base).

(** Which of the two ecall instructions. *)
Definition is_ecalli (i : Inst) : bool := match i with Ecalli _ => true | _ => false end.

Lemma exec_ecall_arm (st : State) pc npc i :
  is_ecall_block i = true -> exists k, exec st pc npc i = exec_ecall p st pc npc (is_ecalli i) k.
Proof. destruct i; try discriminate; intros _; by eexists. Qed.

(** ** Visited states *)

(** [visits st i st' j]: a run that is at the head of the loop in [st] with
    index [i] is later there in [st'] with index [j]. *)
Inductive visits (st : State) (i : nat) : State -> nat -> Prop :=
  | visits_refl : visits st i st i
  | visits_step st1 j st2 k :
      visits st i st1 j -> step st1 j = Ret (st2, inr k) -> visits st i st2 k.

Lemma visits_head_ok st i st' j : head_ok p st i -> visits st i st' j -> head_ok p st' j.
Proof.
  intros Hh V. induction V as [|st1 j st2 k V IH E]; [done|].
  destruct (step_ok p code mem_cycles code_base Hlen POK st1 j IH) as (s & o & Es & _ & _ & Ho).
  rewrite E in Es. injection Es as <- <-. apply Ho.
Qed.

(** An instruction that goes on to another one goes to the next, or to a block
    start; after a terminator the next one is a block start as well. *)
Lemma step_target st j x st2 k :
  head_ok p st j -> insts p !! j = Some x -> step st j = Ret (st2, inr k) ->
  starts_at p k \/ (k = S j /\ is_terminator (inst x) = false).
Proof.
  intros Hh Hx E. destruct (Hh) as (x' & Hx' & OK & _). rewrite Hx in Hx'. injection Hx' as <-.
  destruct (gate_ok p code mem_cycles Hlen POK st j x Hx Hh) as (st1 & enter & Eg & OK1 & _ & _ & Hen).
  destruct (step_ok p code mem_cycles code_base Hlen POK st j Hh) as (s & o & Es & _ & _ & Ho).
  rewrite E in Es. injection Es as <- <-. destruct Ho as [(y & Hy & _) _].
  unfold Interp.step in E. rewrite Hx in E. cbn [expect res_bind] in E. rewrite Eg in E. cbn [res_bind] in E.
  destruct enter; cbn [negb] in E; [|done].
  destruct (exec st1 (pc x) (next_pc x) (inst x)) as [[s ctl]|] eqn:Ee; [|done]. cbn [res_bind] in E.
  destruct ctl as [r|i|]; [done| |].
  - injection E as <- ->. left. destruct (is_ecall_block (inst x)) eqn:He.
    + destruct (exec_ecall_arm st1 (pc x) (next_pc x) _ He) as [kind Ek]. rewrite Ek in Ee.
      destruct (exec_ecall_ok p code mem_cycles Hlen POK st1 j x (is_ecalli (inst x)) kind OK1 Hx He)
        as (s' & ctl' & E' & _ & _ & _ & Hj). rewrite Ee in E'. injection E' as <- <-. by apply Hj.
    + destruct (exec_plain p code mem_cycles code_base Hlen POK st1 j x OK1 Hx He) as (s' & ctl' & c & E' & _ & _ & _ & _ & Hj).
      { eapply covered_budget; eauto. by apply Hen. }
      rewrite Ee in E'. injection E' as <- <-. by apply Hj.
  - destruct (_ <=? _)%nat; [done|]. injection E as <- <-.
    destruct (is_terminator (inst x)) eqn:Et; [|by right]. left. exists y. split; [done|].
    rewrite (po_start _ _ _ POK (S j) y Hy). cbn [after_terminator]. by rewrite Hx, Et.
Qed.

(** ** The gas ledger *)

(** What entering the block at an index costs. *)
Definition price (idx : nat) : Z :=
  match insts p !! idx with
  | Some x => if is_ecall_block (inst x) then ecall_dynamic_cost (is_ecalli (inst x))
              else default 0 (block_costs p !! idx)
  | None => 0
  end.

(** Whether a round at [idx] enters (and pays for) a block: an ecall needs its
    price, any other block its price and its reserve. *)
Definition enters (st : State) (idx : nat) : bool :=
  match insts p !! idx with
  | Some x => is_gas_block_start x &&
      (price idx + (if is_ecall_block (inst x) then 0 else default 0 (block_reserves p !! idx))
       <=? remaining (st_gas st))
  | None => false
  end.

(** The blocks a run enters, in order. *)
Fixpoint entered (fuel : nat) (st : State) (idx : nat) : list nat :=
  match fuel with
  | O => []
  | S fuel' =>
      (if enters st idx then [idx] else []) ++
      match step st idx with
      | Ret (st', inr j) => entered fuel' st' j
      | _ => []
      end
  end.

Definition total_price (l : list nat) : Z := fold_right (fun i acc => price i + acc) 0 l.

  Context (Hcow : forall (h : H) k regs (mem : M) h' regs' mem' res,
    handle h k regs mem = (h', regs', mem', res) -> cow_left mem' = cow_left mem).

Lemma exec_ecall_gas (st : State) pc npc b k st' ctl :
  exec_ecall p st pc npc b k = Ret (st', ctl) ->
  remaining (st_gas st) = remaining (st_gas st') +
    (if ecall_dynamic_cost b <=? remaining (st_gas st) then ecall_dynamic_cost b else 0) /\
  cow_left (st_mem st') = cow_left (st_mem st).
Proof.
  unfold exec_ecall. intros E.
  destruct (Z.ltb_spec (remaining (st_gas st)) (ecall_dynamic_cost b)),
    (Z.leb_spec (ecall_dynamic_cost b) (remaining (st_gas st))); try lia.
  { injection E as <- _. cbn. split; [lia|done]. }
  rewrite charge_expect_ok in E by lia. cbn [res_bind] in E.
  destruct (handle _ _ _ _) as [[[h regs] mem] res] eqn:Eh. apply Hcow in Eh.
  destruct res; [destruct (find_idx_for_pc _ _)|]; injection E as <- _; cbn; (split; [lia|done]).
Qed.

Lemma gate_gas (st st1 : State) idx x enter :
  insts p !! idx = Some x -> is_ecall_block (inst x) = false -> gate p st idx x = Ret (st1, enter) ->
  st_mem st1 = st_mem st /\
  remaining (st_gas st) = remaining (st_gas st1) + (if enters st idx then price idx else 0).
Proof.
  intros Hx He. unfold gate, enters, price. rewrite Hx, He.
  destruct (is_gas_block_start x) eqn:Hs; [|intros [= <- _]; cbn [andb]; split; [done|lia]].
  destruct (costs_at p code mem_cycles POK idx x Hx Hs He) as (cost & -> & Hc & ->).
  cbn [expect res_bind from_option id andb]. destruct (Z.eqb_spec cost 0); [lia|]. cbn [negb].
  set (reserve := Z.min _ _).
  destruct (Z.ltb_spec (remaining (st_gas st)) (cost + reserve)),
    (Z.leb_spec (cost + reserve) (remaining (st_gas st))); try lia.
  - intros [= <- _]. cbn [set_regs st_mem st_gas]. split; [done|lia].
  - destruct (charge_expect _ _) as [g|] eqn:Ec; [|done]. apply charge_expect_inv in Ec as [_ ->].
    intros [= <- _]. cbn [st_mem st_gas remaining]. split; [done|lia].
Qed.

Lemma step_gas (st st' : State) idx o :
  head_ok p st idx -> step st idx = Ret (st', o) ->
  remaining (st_gas st) = remaining (st_gas st') + (if enters st idx then price idx else 0) +
    (cow_left (st_mem st) - cow_left (st_mem st')).
Proof.
  intros Hh E. destruct (Hh) as (x & Hx & OK & _).
  destruct (gate_ok p code mem_cycles Hlen POK st idx x Hx Hh) as (st1 & enter & Eg & OK1 & _ & _ & Hen).
  unfold Interp.step in E. rewrite Hx in E. cbn [expect res_bind] in E.
  rewrite Eg in E. cbn [res_bind] in E. destruct (is_ecall_block (inst x)) eqn:He.
  - unfold enters, price. rewrite Hx, He.
    rewrite (gate_ecall p code mem_cycles POK st idx x Hx He) in Eg. injection Eg as <- <-. cbn [negb] in E.
    rewrite (ecall_is_start p code mem_cycles POK idx x Hx He), Z.add_0_r. cbn [andb].
    destruct (exec_ecall_arm st (pc x) (next_pc x) _ He) as [kind Ek]. rewrite Ek in E.
    destruct (exec_ecall _ _ _ _ _ _) as [[s ctl]|] eqn:Ee; [|done]. cbn [res_bind] in E.
    apply exec_ecall_gas in Ee as [G C].
    destruct ctl; [..|destruct (_ <=? _)%nat]; injection E as <- _; cbn; lia.
  - destruct (gate_gas _ _ _ _ _ Hx He Eg) as [Em G]. destruct enter; cbn [negb] in E.
    2: { injection E as <- _. rewrite Em. lia. }
    destruct (exec_plain p code mem_cycles code_base Hlen POK st1 idx x OK1 Hx He)
      as (s & ctl & c & Ee & _ & _ & Hg & Hw & _).
    { eapply covered_budget; eauto. by apply Hen. }
    rewrite Ee in E. cbn [res_bind] in E. rewrite Em in Hw.
    destruct ctl; [..|destruct (_ <=? _)%nat]; injection E as <- _; cbn; lia.
Qed.

Lemma loop_gas fuel (st st' : State) idx r :
  head_ok p st idx -> loop fuel st idx = Some (Ret (st', r)) ->
  remaining (st_gas st) = remaining (st_gas st') + total_price (entered fuel st idx) +
    (cow_left (st_mem st) - cow_left (st_mem st')).
Proof.
  revert st idx. induction fuel as [|fuel IH]; intros st idx Hh; [done|]. cbn [Interp.loop entered].
  destruct (step_ok p code mem_cycles code_base Hlen POK st idx Hh) as (s & o & Es & _ & _ & Ho).
  rewrite Es. pose proof (step_gas st s idx o Hh Es) as G. destruct o as [e|j].
  - intros [= <- _]. destruct (enters st idx); cbn; lia.
  - intros El. apply IH in El; [|apply Ho]. destruct (enters st idx); cbn [app total_price fold_right] in *;
      fold (total_price (entered fuel s j)); lia.
Qed.
End Flow.

(** C16: control-flow integrity. From a block start, every state the interpreter
    visits is well formed and sits on an instruction of the linear decoding of
    the code; and the next instruction it moves to is either a block start,
    where the gas gate runs again, or the textual successor of an instruction
    that is not a terminator. No branch, indirect jump, return from an ecall or
    fall-through past a terminator reaches the middle of a gas block. *)
Theorem control_flow_integrity {M} {MM : Memory M} {ML : MemoryLaws M} {H} {EH : EcallHandler H M}
    {HL : HandlerLaws H M} code mem_cycles code_base (st st' : State H M) i j :
  Z.of_nat (length code) < 2 ^ 32 -> st_ok st ->
  let p := predecode_rv_with_mem_cycles code mem_cycles in
  starts_at p i -> visits p code code_base st i st' j ->
  st_ok st' /\ exists x, insts p !! j = Some x /\
    decode (drop (Z.to_nat (pc x)) code) = Some (inst x, next_pc x - pc x) /\
    forall st2 k, step p code code_base st' j = Ret (st2, inr k) ->
      starts_at p k \/ (k = S j /\ is_terminator (inst x) = false).
Proof.
  intros Hlen OK p Hs V. pose proof (predecode_is_ok code mem_cycles Hlen) as POK.
  assert (head_ok p st' j) as Hh.
  { eapply (visits_head_ok p code mem_cycles code_base Hlen POK); [|exact V]. by apply head_at_start. }
  destruct (Hh) as (x & Hx & OK' & _). split; [done|]. exists x. split; [done|]. split.
  - destruct (po_stop _ _ _ POK) as (stop & T & _). by apply (tiles_entry _ _ _ _ _ _ T (Z.le_refl 0) Hx).
  - intros st2 k E. by eapply (step_target p code mem_cycles code_base Hlen POK).
Qed.

(** C5: gas accounting is exact. When the loop, started at a block start, stops
    with any exit reason, the gas it used is the sum of the prices of the blocks
    it entered (the static cost of an ordinary block, the dynamic cost of an
    ecall) plus the copy-on-write charges of the pages it copied, and nothing
    else: a refused block, a fault or a panic costs nothing beyond that. *)
Theorem gas_ledger_exact {M} {MM : Memory M} {ML : MemoryLaws M} {H} {EH : EcallHandler H M}
    {HL : HandlerLaws H M} code mem_cycles code_base (st st' : State H M) i r fuel :
  Z.of_nat (length code) < 2 ^ 32 -> st_ok st ->
  (forall (h : H) k regs (mem : M) h' regs' mem' res,
     handle h k regs mem = (h', regs', mem', res) -> cow_left mem' = cow_left mem) ->
  let p := predecode_rv_with_mem_cycles code mem_cycles in
  starts_at p i -> loop p code code_base fuel st i = Some (Ret (st', r)) ->
  remaining (st_gas st) - remaining (st_gas st') =
  total_price p (entered p code code_base fuel st i) + (cow_left (st_mem st) - cow_left (st_mem st')).
Proof.
  intros Hlen OK Hcow p Hs El. pose proof (predecode_is_ok code mem_cycles Hlen) as POK.
  pose proof (loop_gas p code mem_cycles code_base Hlen POK Hcow fuel st st' i r) as G.
  rewrite G; [lia|by apply head_at_start|done].
Qed.

(** ** Examples *)

Lemma poor_state_ok : st_ok poor_state.
Proof. destruct sample_state_ok as (? & ? & _). split; [done|]. split; [done|cbn; lia]. Qed.

(** [poor_state] after its first instruction. *)
Definition second_state : State PanickingHandler CopyingMemory :=
  mkState (mkRegs (<[7%nat := 1]> (r_gpr (st_regs sample_state))) 0) sample_mem (mkGas 49) panicking_handler.

Lemma control_flow_integrity_witness :
  step (predecode pause_code) pause_code 0x400000 poor_state 0 = Ret (second_state, inr 1%nat) /\
  st_ok second_state.
Proof.
  assert (step (predecode pause_code) pause_code 0x400000 poor_state 0 = Ret (second_state, inr 1%nat)) as E
    by (vm_compute; reflexivity).
  split; [exact E|].
  apply (control_flow_integrity pause_code DEFAULT_MEM_CYCLES 0x400000 poor_state second_state 0 1).
  - cbn. lia.
  - exact poor_state_ok.
  - eexists. split; vm_compute; reflexivity.
  - eapply visits_step; [apply visits_refl|exact E].
Defined.

Lemma panicking_cow (h : PanickingHandler) k regs (mem : CopyingMemory) h' regs' mem' res :
  handle h k regs mem = (h', regs', mem', res) -> cow_left mem' = cow_left mem.
Proof. unfold handle, PanickingHandler_handle. intros E. by simplify_eq. Qed.

(** [sample_state] after its run. *)
Definition panicked_state : State PanickingHandler CopyingMemory :=
  match loop (predecode sample_code) sample_code 0x400000 10 sample_state 0 with
  | Some (Ret (st, _)) => st
  | _ => sample_state
  end.

Lemma gas_ledger_exact_witness :
  entered (predecode sample_code) sample_code 0x400000 10 sample_state 0 = [0; 2]%nat /\
  remaining (st_gas sample_state) - remaining (st_gas panicked_state) =
  total_price (predecode sample_code) (entered (predecode sample_code) sample_code 0x400000 10 sample_state 0) +
  (cow_left (st_mem sample_state) - cow_left (st_mem panicked_state)).
Proof.
  split; [vm_compute; reflexivity|].
  apply (gas_ledger_exact sample_code DEFAULT_MEM_CYCLES 0x400000 sample_state panicked_state 0 ExitPanic 10).
  - cbn. lia.
  - exact sample_state_ok.
  - exact panicking_cow.
  - eexists. split; vm_compute; reflexivity.
  - vm_compute. reflexivity.
Defined.
