(* ===== verification/InterpProtect.v ===== *)
(** * Write protection

    Guest code cannot change a byte of a page that is not mapped read-write,
    nor any permission, whatever the code, the predecode, the registers and the
    gas. Stated of [CopyingMemory] under the interpreter of [Interp]. *)

From S2P Require Import Prelude MachineInt Engine GasConst Mat Instruction GasCost Predecode Mem Interp.

(** Permission of the page that holds buffer offset [k]. *)
Definition page_perm (m : CopyingMemory) (k : Z) : Z :=
  default perm_NONE (perms m !! Z.to_nat (k / PAGE_SIZE)).

(** The buffer keeps its place, its size, its permissions and every byte that
    is not on a read-write page. *)
Record keeps (m m' : CopyingMemory) : Prop := {
  k_base : base m' = base m;
  k_perms : perms m' = perms m;
  k_len : length (flat_mem m') = length (flat_mem m);
  k_bytes : forall k, 0 <= k -> page_perm m k <> perm_RW ->
    flat_mem m' !! Z.to_nat k = flat_mem m !! Z.to_nat k }.

#[export] Instance keeps_preorder : PreOrder keeps.
Proof.
  split.
  - intros m. by split.
  - intros m1 m2 m3 [B1 P1 L1 K1] [B2 P2 L2 K2]. split; try congruence.
    intros k Hk Hp. rewrite K2, K1; try done. unfold page_perm in *. by rewrite P1.
Qed.

Lemma keeps_flat_len m m' : keeps m m' -> flat_len m' = flat_len m.
Proof. intros [_ _ L _]. unfold flat_len. by rewrite L. Qed.

(** ** First touch *)

Lemma materialize_all_mat m pages w total m' total' :
  materialize_all m pages w total = Ret (m', total') -> exists s, m' = with_mat m s.
Proof.
  revert m total. induction pages as [|p pages IH]; intros m total; cbn [materialize_all].
  { intros [= <- <-]. exists (mat_state m). by destruct m. }
  destruct (page_index m p) as [i|]; [|done]. cbn [expect res_bind].
  destruct (perms m !! i) as [pm|]; [|done]. cbn [expect res_bind].
  destruct (negb (pm =? perm_RO)); [|apply IH]. destruct (mat_state m !! i) as [s|]; [|done].
  cbn [expect res_bind]. destruct (charge_for _ _ _) as [[c next]|]; [|done]. cbn [expect_ok res_bind].
  intros E. apply IH in E as [s' ->]. by exists s'.
Qed.

Lemma touch_keeps m a w is_write g m' g' r :
  touch m a w is_write g = Ret (m', g', r) -> keeps m m'.
Proof.
  unfold touch. destruct (head _) as [p0|]; [|done]. cbn [expect res_bind].
  destruct (match page_index m p0 with Some i => _ | None => _ end) as [d|]; [|done]. cbn [res_bind].
  destruct d; [|destruct (is_code_page m p0); by intros [= <- _ _]].
  unfold touch_data. destruct (accessible_all _ _ _) as [ok|]; [|done]. cbn [res_bind].
  destruct ok; cbn [negb]; [|by intros [= <- _ _]].
  destruct (materialize_all _ _ _ _) as [[m1 total]|] eqn:Em; [|done]. cbn [res_bind].
  destruct (charge_expect _ _); [|done]. cbn [res_bind]. intros [= <- _ _].
  apply materialize_all_mat in Em as [s ->]. by split.
Qed.

(** ** Stores *)

(** A store of at most a page whose first and last bytes are on read-write
    pages touches no other page. *)
Lemma write_le_keeps m n addr v m' ok :
  flat_len m <= 2 ^ 32 -> (1 <= n <= 8)%nat -> store_writable m addr (Z.of_nat n) = true ->
  write_le m n addr v = (m', ok) -> keeps m m'.
Proof.
  intros Hf Hn Hw. unfold write_le. cbv zeta. pose proof (off_range m addr) as R.
  destruct (Z.leb_spec (off m addr + Z.of_nat n) (flat_len m)) as [H|]; intros [= <- <-]; [|reflexivity].
  unfold store_writable in Hw. apply andb_prop in Hw as [W1 W2]. apply Z.eqb_eq in W1, W2.
  cbn [perm_of CopyingMemory_Memory] in W1, W2. unfold cm_perm_of in W1, W2.
  assert (off m (wrapping_add 32 addr (Z.of_nat n - 1)) = off m addr + (Z.of_nat n - 1)) as E2.
  { unfold off, wrapping_add, wrapping_sub in *. rewrite wrap_sub_l.
    replace (addr + (Z.of_nat n - 1) - base m) with (addr - base m + (Z.of_nat n - 1)) by lia.
    rewrite <- wrap_add_l. apply wrap_small. unfold is_u. lia. }
  rewrite E2 in W2. assert (length (to_le_bytes n v) = n) as Lb by apply length_to_le_bytes.
  split; [done|done| |].
  - cbn [with_flat flat_mem]. apply length_splice. rewrite Lb. unfold flat_len in H. lia.
  - intros k Hk Hp. cbn [with_flat flat_mem]. rewrite splice_lookup by (rewrite Lb; unfold flat_len in H; lia).
    rewrite bool_decide_false; [done|]. rewrite Lb. intros Hin. apply Hp. unfold page_perm.
    change PAGE_SIZE with 4096 in *.
    assert (k / 4096 = off m addr / 4096 \/ k / 4096 = (off m addr + (Z.of_nat n - 1)) / 4096) as [->| ->] by dlia;
      done.
Qed.

(** ** The interpreter *)

Section Protect.
  Context {H : Type} {EH : EcallHandler H CopyingMemory}.
  Context (p : Predecode) (code : list Z) (code_base : Z).
  Context (Hhandler : forall (h : H) k regs mem h' regs' mem' res,
    handle h k regs mem = (h', regs', mem', res) -> keeps mem mem').

  #[local] Abbreviation State := (State H CopyingMemory).

Lemma exec_load_keeps (st : State) pc w load cast rd rs1 imm st' ctl :
  exec_load code code_base st pc w load cast rd rs1 imm = Ret (st', ctl) ->
  keeps (st_mem st) (st_mem st').
Proof.
  unfold exec_load. cbv zeta. destruct (touch_read _ _ _ _) as [[[m g] r]|] eqn:T; [|done]. cbn [res_bind].
  apply touch_keeps in T. destruct r; [case_match|]; by intros [= <- _].
Qed.

Lemma exec_store_keeps (st : State) pc n write rs1 rs2 imm st' ctl :
  flat_len (st_mem st) <= 2 ^ 32 -> (1 <= n <= 8)%nat ->
  (forall m a v, write m a v = write_le m n a v) ->
  exec_store st pc (Z.of_nat n) write rs1 rs2 imm = Ret (st', ctl) -> keeps (st_mem st) (st_mem st').
Proof.
  intros Hf Hn Hw. unfold exec_store. cbv zeta.
  destruct (touch_write _ _ _ _) as [[[m g] r]|] eqn:T; [|done]. cbn [res_bind].
  apply touch_keeps in T. destruct r; [|by intros [= <- _]].
  destruct (store_writable m _ _) eqn:Es; cbn [negb]; [|by intros [= <- _]]. rewrite Hw.
  destruct (write_le m n _ _) as [m' ok] eqn:Ew.
  assert (keeps m m') as K by (eapply write_le_keeps; [by rewrite (keeps_flat_len _ _ T)|done..]).
  destruct ok; intros [= <- _]; cbn; by etransitivity.
Qed.

Lemma jump_to_mem (st : State) pc target : st_mem (fst (jump_to p st pc target)) = st_mem st.
Proof.
  unfold jump_to. destruct (find_idx_for_pc _ _) as [i|]; [|done].
  destruct (insts p !! i) as [x|]; [|done]. by destruct (is_gas_block_start x).
Qed.

Lemma jump_keeps (st0 st : State) pc target st' ctl :
  st_mem st0 = st_mem st -> Ret (jump_to p st0 pc target) = Ret (st', ctl) -> keeps (st_mem st) (st_mem st').
Proof.
  intros E [= Ej]. pose proof (jump_to_mem st0 pc target) as M. rewrite Ej in M. cbn in M. by rewrite M, E.
Qed.

Lemma exec_ecall_keeps (st : State) pc npc b k st' ctl :
  exec_ecall p st pc npc b k = Ret (st', ctl) -> keeps (st_mem st) (st_mem st').
Proof.
  unfold exec_ecall. destruct (_ <? _); [by intros [= <- _]|].
  destruct (charge_expect _ _); [|done]. cbn [res_bind].
  destruct (handle _ _ _ _) as [[[h regs] mem] res] eqn:E. apply Hhandler in E.
  destruct res; [destruct (find_idx_for_pc _ _)|]; by intros [= <- _].
Qed.

Lemma exec_keeps (st : State) pc npc i st' ctl :
  flat_len (st_mem st) <= 2 ^ 32 ->
  exec p code code_base st pc npc i = Ret (st', ctl) -> keeps (st_mem st) (st_mem st').
Proof.
  intros Hf. destruct i; cbn [exec]; cbv zeta;
    try (by apply exec_load_keeps); try (by apply exec_ecall_keeps);
    try (apply jump_keeps; by destruct (negb _));
    try (by intros [= <- _]);
    try (destruct (alu _ _ _ _) as [[? ?]|]; [by intros [= <- _]|done]).
  1: apply (exec_store_keeps st pc 1); (done || lia).
  1: apply (exec_store_keeps st pc 2); (done || lia).
  1: apply (exec_store_keeps st pc 4); (done || lia).
  1: apply (exec_store_keeps st pc 8); (done || lia).
  all: destruct (branch_taken _ _) as [[[] ?]|]; [by apply jump_keeps| |]; by intros [= <- _].
Qed.

Lemma step_keeps (st : State) idx st' o :
  flat_len (st_mem st) <= 2 ^ 32 ->
  step p code code_base st idx = Ret (st', o) -> keeps (st_mem st) (st_mem st').
Proof.
  intros Hf. unfold step. destruct (insts p !! idx) as [x|]; [|done]. cbn [expect res_bind].
  destruct (gate p st idx x) as [[st1 enter]|] eqn:G; [|done]. cbn [res_bind].
  assert (st_mem st1 = st_mem st) as M.
  { unfold gate in G. destruct (is_gas_block_start x); [|by injection G as <- _].
    destruct (block_costs p !! idx) as [c|]; [|done]. cbn [expect res_bind] in G.
    destruct (negb (c =? 0)); [|by injection G as <- _].
    destruct (block_reserves p !! idx); [|done]. cbn [expect res_bind] in G.
    destruct (_ <? _); [by injection G as <- _|]. destruct (charge_expect _ _); [|done].
    by injection G as <- _. }
  destruct enter; cbn [negb]; [|intros [= <- _]; by rewrite M].
  destruct (exec _ _ _ _ _ _ _) as [[st2 ctl]|] eqn:E; [|done]. cbn [res_bind].
  apply exec_keeps in E; [|by rewrite M]. rewrite M in E.
  destruct ctl; [by intros [= <- _]..|]. destruct (_ <=? _)%nat; by intros [= <- _].
Qed.

Lemma loop_keeps fuel (st : State) idx st' r :
  flat_len (st_mem st) <= 2 ^ 32 ->
  loop p code code_base fuel st idx = Some (Ret (st', r)) -> keeps (st_mem st) (st_mem st').
Proof.
  revert st idx. induction fuel as [|fuel IH]; intros st idx Hf; [done|]. cbn [loop].
  destruct (step p code code_base st idx) as [[st1 [e|j]]|] eqn:E; [| |done].
  - intros [= <- _]. by eapply step_keeps.
  - apply step_keeps in E; [|done]. intros El. apply IH in El; [by etransitivity|].
    by rewrite (keeps_flat_len _ _ E).
Qed.

Lemma run_keeps fuel (st : State) st' r :
  flat_len (st_mem st) <= 2 ^ 32 ->
  run p code code_base fuel st = Some (Ret (st', r)) -> keeps (st_mem st) (st_mem st').
Proof.
  intros Hf. unfold run. destruct (_ =? _)%nat; [by intros [= <- _]|].
  destruct (find_idx_for_pc _ _) as [i|]; [|by intros [= <- _]].
  destruct (insts p !! i) as [x|]; [|done].
  destruct (is_gas_block_start x); [|by intros [= <- _]]. by apply loop_keeps.
Qed.
End Protect.

(** C25: guest code cannot write to a page it was not given write access to. Over
    any run, of any code under any predecode, from any registers and gas, the
    base, the size and the permissions of the buffer stay the same and so does
    every byte on a page that is not read-write, provided the ecall handler
    itself respects this. A store that straddles into such a page changes
    nothing at all. *)
Theorem run_write_protects {H} {EH : EcallHandler H CopyingMemory} p code code_base fuel
    (st st' : State H CopyingMemory) r :
  (forall (h : H) k regs mem h' regs' mem' res,
     handle h k regs mem = (h', regs', mem', res) -> keeps mem mem') ->
  flat_len (st_mem st) <= 2 ^ 32 ->
  run p code code_base fuel st = Some (Ret (st', r)) -> keeps (st_mem st) (st_mem st').
Proof. intros Hh Hf. by apply run_keeps. Qed.

(** The sample code stores to a page that is read-only here, and faults. *)
Definition ro_state : State PanickingHandler CopyingMemory :=
  mkState (mkRegs (<[1%nat := 0x10000000]> (replicate 15 0)) 0)
    (mkMem 0x10000000 (replicate 16 7) [perm_RO] [0] 0 0 0 0 0) (mkGas 1000) panicking_handler.

Definition faulted_state : State PanickingHandler CopyingMemory :=
  mkState (mkRegs (<[1%nat := 0x10000000]> (<[2%nat := 7]> (replicate 15 0))) 4)
    (st_mem ro_state) (mkGas 977) panicking_handler.

Lemma panicking_keeps (h : PanickingHandler) k regs (mem : CopyingMemory) h' regs' mem' res :
  handle h k regs mem = (h', regs', mem', res) -> keeps mem mem'.
Proof. unfold handle, PanickingHandler_handle. intros E. simplify_eq. reflexivity. Qed.

Lemma run_write_protects_witness :
  run (predecode sample_code) sample_code 0x400000 10 ro_state =
    Some (Ret (faulted_state, ExitPageFault 0x10000000)) /\
  keeps (st_mem ro_state) (st_mem faulted_state).
Proof.
  assert (run (predecode sample_code) sample_code 0x400000 10 ro_state =
    Some (Ret (faulted_state, ExitPageFault 0x10000000))) as E by (vm_compute; reflexivity).
  split; [exact E|].
  apply (run_write_protects (predecode sample_code) sample_code 0x400000 10 ro_state faulted_state
    (ExitPageFault 0x10000000)).
  - exact panicking_keeps.
  - vm_compute. discriminate.
  - exact E.
Defined.
