(* ===== verification/AluFacts.v ===== *)
(** * What the register-to-register instructions compute

    The arms of the interpreter's dispatch compared with the integers they are
    meant to represent: multiplication and division against exact integer
    arithmetic, shifts, rotations and single-bit instructions against a
    definition bit by bit, and the constant materialiser of the fuzzer's
    encoder against the constant. *)

From S2P Require Import Prelude MachineInt Engine Instruction InstructionFacts Encode.
From S2P Require Import GasCost Predecode Mem Interp InterpFacts.

(** The value an instruction writes to its destination, if it has one. *)
Definition result (R : Z -> Z) (i : Inst) : option Z := option_map snd (alu R 0 0 i).

(** ** Multiplication *)

Lemma sext_of_wrap w x : 1 <= w -> is_i w x -> sext w (wrap w x) = x.
Proof. intros. rewrite sext_wrap by done. by apply sext_id. Qed.

Lemma sext_is_i w x : 1 <= w -> is_i w (sext w x).
Proof. apply sext_range. Qed.

Lemma wrap_mul_cong w a b c d :
  wrap w a = wrap w c -> wrap w b = wrap w d -> wrap w (a * b) = wrap w (c * d).
Proof. unfold wrap. intros E1 E2. by rewrite Zmult_mod, E1, E2, <- Zmult_mod. Qed.

(** The high half and the low half of a product are the product. *)
Lemma halves w x : 0 <= w -> Z.shiftr x w * 2 ^ w + wrap w x = x.
Proof.
  intros. unfold wrap. rewrite Z.shiftr_div_pow2 by done.
  pose proof (Z.div_mod x (2 ^ w) ltac:(pose proof (Z.pow_pos_nonneg 2 w); lia)). lia.
Qed.

Lemma shiftr_bounds x lo hi : lo * 2 ^ 64 <= x < hi * 2 ^ 64 -> lo <= Z.shiftr x 64 < hi.
Proof.
  intros [? ?]. rewrite Z.shiftr_div_pow2 by done. split; [by apply Z.div_le_lower_bound; lia|].
  apply Z.div_lt_upper_bound; lia.
Qed.

(** The four multiplications are exact. The high-half instructions followed
    by [mul] give the full 128-bit product: signed by signed, signed by
    unsigned and unsigned by unsigned. *)
Theorem mul_halves_exact R rd a b :
  (forall x, is_u 64 (R x)) ->
  let lo := default 0 (result R (Mul rd a b)) in
  sext 64 (default 0 (result R (Mulh rd a b))) * 2 ^ 64 + lo = sext 64 (R a) * sext 64 (R b) /\
  sext 64 (default 0 (result R (Mulhsu rd a b))) * 2 ^ 64 + lo = sext 64 (R a) * R b /\
  default 0 (result R (Mulhu rd a b)) * 2 ^ 64 + lo = R a * R b.
Proof.
  intros HR. pose proof (HR a) as Ha. pose proof (HR b) as Hb.
  cbn [result alu alu_imm alu_imm_32 alu_reg alu_reg_32 m_ext option_map snd from_option id].
  pose proof (sext_range 64 (R a) ltac:(lia)) as Sa. pose proof (sext_range 64 (R b) ltac:(lia)) as Sb.
  unfold wrapping_mul, is_u, is_i in *. cbv zeta.
  assert (forall x, wrap 64 (sext 64 x) = wrap 64 x) as C by (intros; by apply wrap_sext).
  split; [|split].
  - rewrite sext_of_wrap by (lia || apply shiftr_bounds; nia).
    rewrite (wrap_mul_cong 64 (R a) (R b) (sext 64 (R a)) (sext 64 (R b))) by (symmetry; apply C).
    by apply halves.
  - rewrite sext_of_wrap by (lia || apply shiftr_bounds; nia).
    rewrite (wrap_mul_cong 64 (R a) (R b) (sext 64 (R a)) (R b)) by (done || symmetry; apply C).
    by apply halves.
  - rewrite wrap_small by (apply shiftr_bounds; nia). by apply halves.
Qed.

(** ** Division *)

(** Signed [w]-bit division: truncation toward zero, with the two special cases
    of the ISA. *)
Definition div_spec (w x y q r : Z) : Prop :=
  if y =? 0 then q = -1 /\ r = x
  else if (x =? - 2 ^ (w - 1)) && (y =? -1) then q = x /\ r = 0
  else x = y * q + r /\ Z.abs r < Z.abs y /\ 0 <= x * r.

Definition divu_spec (w x y q r : Z) : Prop :=
  if y =? 0 then q = 2 ^ w - 1 /\ r = x else x = y * q + r /\ 0 <= r < y.

Lemma quot_rem_spec x y :
  y <> 0 -> x = y * Z.quot x y + Z.rem x y /\ Z.abs (Z.rem x y) < Z.abs y /\ 0 <= x * Z.rem x y.
Proof.
  intros Hy. split; [apply Z.quot_rem'|]. split; [by apply Z.rem_bound_abs|].
  rewrite Z.mul_comm. by apply Z.rem_sign_mul.
Qed.

(** Away from the overflow, a signed quotient and remainder fit the width. *)
Lemma quot_rem_range w x y :
  1 <= w -> is_i w x -> is_i w y -> y <> 0 -> (x =? - 2 ^ (w - 1)) && (y =? -1) = false ->
  is_i w (Z.quot x y) /\ is_i w (Z.rem x y).
Proof.
  intros Hw Hx Hy H0 Ho. destruct (quot_rem_spec x y H0) as (E & Hr & Hs).
  pose proof (Z.pow_pos_nonneg 2 (w - 1)) as Hp. unfold is_i in *.
  pose proof (Z.mul_quot_le (Z.abs x) (Z.abs y) ltac:(lia) ltac:(lia)) as Hq.
  rewrite Z.quot_abs in Hq by done.
  set (q := Z.quot x y) in *. set (r := Z.rem x y) in *. set (m := 2 ^ (w - 1)) in *.
  destruct (Z.eqb_spec x (- m)), (Z.eqb_spec y (-1)); try discriminate Ho; split; nia.
Qed.

Lemma pow_pred w : 1 <= w -> 2 ^ w = 2 * 2 ^ (w - 1).
Proof. intros. rewrite <- Z.pow_succ_r by lia. f_equal. lia. Qed.

(** The signed pattern shared by the 64-bit and the 32-bit forms. *)
Lemma signed_div w x y :
  1 <= w <= 64 -> is_i w x -> is_i w y ->
  div_spec w x y
    (sext 64 (wrap 64 (if y =? 0 then -1 else if (x =? - 2 ^ (w - 1)) && (y =? -1) then x else Z.quot x y)))
    (sext 64 (wrap 64 (if y =? 0 then x else if (x =? - 2 ^ (w - 1)) && (y =? -1) then 0 else Z.rem x y))).
Proof.
  intros Hw Hx Hy. unfold div_spec.
  assert (forall v, is_i w v -> sext 64 (wrap 64 v) = v) as S.
  { intros v Hv. apply sext_of_wrap; [lia|]. unfold is_i in *.
    pose proof (Z.pow_le_mono_r 2 (w - 1) (64 - 1) ltac:(lia) ltac:(lia)). lia. }
  pose proof (Z.pow_pos_nonneg 2 (w - 1) ltac:(lia) ltac:(lia)) as Hp.
  destruct (Z.eqb_spec y 0) as [->|H0].
  - split; apply S; [unfold is_i; lia|done].
  - destruct ((x =? - 2 ^ (w - 1)) && (y =? -1)) eqn:Ho.
    + split; apply S; [done|unfold is_i; lia].
    + destruct (quot_rem_range w x y ltac:(lia) Hx Hy H0 Ho) as [Hq Hr]. rewrite !S by done.
      by apply quot_rem_spec.
Qed.

Lemma unsigned_div w x y :
  0 <= w -> is_u w x -> is_u w y ->
  divu_spec w x y (if y =? 0 then 2 ^ w - 1 else x / y) (if y =? 0 then x else x mod y) /\
  is_u w (if y =? 0 then 2 ^ w - 1 else x / y) /\ is_u w (if y =? 0 then x else x mod y).
Proof.
  intros Hw Hx Hy. unfold divu_spec, is_u in *. destruct (Z.eqb_spec y 0) as [->|H0]; [lia|].
  pose proof (Z.div_mod x y H0). pose proof (Z.mod_pos_bound x y ltac:(lia)).
  pose proof (Z.div_pos x y ltac:(lia) ltac:(lia)). assert (x / y <= x) by nia. lia.
Qed.

Lemma wrap_sx v : is_u 32 v -> wrap 32 (sx 32 v) = v.
Proof.
  intros Hv. unfold sx. change (wrap 32 (wrap 64 ?x)) with ((x mod 2 ^ 64) mod 2 ^ 32).
  rewrite Z.mod_mod_divide by (by exists (2 ^ 32)).
  change ((sext 32 v) mod 2 ^ 32) with (wrap 32 (sext 32 v)). rewrite wrap_sext by lia. by apply wrap_small.
Qed.

(** Division and remainder are exact. For the 64-bit and the 32-bit forms,
    signed and unsigned: dividing by zero gives the all-ones quotient and the
    dividend as remainder; the signed overflow gives the dividend and zero;
    otherwise dividend = divisor * quotient + remainder with the remainder
    smaller than the divisor and, in the signed case, of the dividend's sign. *)
Theorem div_rem_exact R rd a b :
  (forall x, is_u 64 (R x)) ->
  let v i := default 0 (result R i) in
  div_spec 64 (sext 64 (R a)) (sext 64 (R b)) (sext 64 (v (Div rd a b))) (sext 64 (v (Rem rd a b))) /\
  divu_spec 64 (R a) (R b) (v (Divu rd a b)) (v (Remu rd a b)) /\
  div_spec 32 (sext 32 (R a)) (sext 32 (R b)) (sext 64 (v (Divw rd a b))) (sext 64 (v (Remw rd a b))) /\
  divu_spec 32 (wrap 32 (R a)) (wrap 32 (R b)) (wrap 32 (v (Divuw rd a b))) (wrap 32 (v (Remuw rd a b))).
Proof.
  intros HR. cbn [result alu alu_imm alu_imm_32 alu_reg alu_reg_32 m_ext option_map snd from_option id].
  split; [|split; [|split]].
  - pose proof (signed_div 64 (sext 64 (R a)) (sext 64 (R b)) ltac:(lia)) as D.
    change (2 ^ (64 - 1)) with (2 ^ 63) in D.
    destruct (sext 64 (R b) =? 0); [|destruct ((sext 64 (R a) =? - 2 ^ 63) && _)];
      by apply D; apply sext_range.
  - by apply unsigned_div; [lia|..].
  - apply (signed_div 32); [lia|by apply sext_range..].
  - destruct (unsigned_div 32 (wrap 32 (R a)) (wrap 32 (R b))) as (D & Hq & Hr);
      [lia|by apply wrap_range..|]. by rewrite !wrap_sx.
Qed.

(** ** Bits *)

Lemma testbit_wrap w x n : 0 <= n < w -> Z.testbit (wrap w x) n = Z.testbit x n.
Proof. intros. unfold wrap. apply Z.mod_pow2_bits_low. lia. Qed.

Lemma testbit_wrap_all w x n : 0 <= w -> Z.testbit (wrap w x) n = (n <? w) && Z.testbit x n.
Proof.
  intros Hw. destruct (Z.lt_ge_cases n 0); [rewrite !Z.testbit_neg_r by lia; by rewrite andb_false_r|].
  destruct (Z.ltb_spec n w); [apply testbit_wrap; lia|]. unfold wrap. apply Z.mod_pow2_bits_high. lia.
Qed.

Lemma testbit_high w x n : is_u w x -> 0 <= w <= n -> Z.testbit x n = false.
Proof. intros Hx Hn. rewrite <- (wrap_small w x Hx). unfold wrap. apply Z.mod_pow2_bits_high. lia. Qed.

Lemma testbit_sext w x n : 1 <= w -> 0 <= n -> Z.testbit (sext w x) n = Z.testbit x (Z.min n (w - 1)).
Proof.
  intros Hw Hn. destruct (Z.lt_ge_cases n w).
  - rewrite Z.min_l by lia. rewrite <- (Z.mod_pow2_bits_low (sext w x) w) by lia.
    rewrite sext_mod by lia. apply Z.mod_pow2_bits_low. lia.
  - rewrite Z.min_r by lia. pose proof (sext_range w x Hw) as S. unfold is_i in S.
    rewrite <- (Z.mod_pow2_bits_low x w (w - 1)) by lia. rewrite <- sext_mod by lia.
    rewrite Z.mod_pow2_bits_low by lia. set (y := sext w x) in *.
    rewrite (Z.testbit_eqb y n), (Z.testbit_eqb y (w - 1)) by lia.
    assert (forall k, w - 1 <= k -> y / 2 ^ k = if y <? 0 then -1 else 0) as D.
    { intros k Hk. pose proof (Z.pow_le_mono_r 2 (w - 1) k ltac:(lia) Hk).
      destruct (Z.ltb_spec y 0); symmetry; [apply Z.div_unique_pos with (y + 2 ^ k); lia|].
      apply Z.div_unique_pos with y; lia. }
    by rewrite !D by lia.
Qed.

Lemma testbit_sx w x n : 1 <= w -> 0 <= n < 64 -> Z.testbit (sx w x) n = Z.testbit x (Z.min n (w - 1)).
Proof. intros. unfold sx. rewrite testbit_wrap by lia. apply testbit_sext; lia. Qed.

Lemma testbit_shl w x s n :
  0 <= s < w -> 0 <= n < w -> Z.testbit (wrapping_shl w x s) n = negb (n <? s) && Z.testbit x (n - s).
Proof.
  intros. unfold wrapping_shl. rewrite testbit_wrap, Z.mod_small, Z.shiftl_spec by lia.
  destruct (Z.ltb_spec n s); [|done]. apply Z.testbit_neg_r. lia.
Qed.

Lemma testbit_shr w x s n :
  0 <= s < w -> 0 <= n -> Z.testbit (wrapping_shr w x s) n = Z.testbit x (n + s).
Proof. intros. unfold wrapping_shr. rewrite Z.mod_small by lia. by apply Z.shiftr_spec. Qed.

Lemma testbit_not w x n : 0 <= n < w -> Z.testbit (not_u w x) n = negb (Z.testbit x n).
Proof. intros. unfold not_u. rewrite testbit_wrap by lia. apply Z.lnot_spec. lia. Qed.

Lemma mod_cases a w : - w <= a < 2 * w -> 0 < w ->
  a mod w = if a <? 0 then a + w else if a <? w then a else a - w.
Proof.
  intros. destruct (Z.ltb_spec a 0); [|destruct (Z.ltb_spec a w)]; symmetry.
  - apply Z.mod_unique_pos with (-1); lia.
  - apply Z.mod_unique_pos with 0; lia.
  - apply Z.mod_unique_pos with 1; lia.
Qed.

Lemma testbit_rol w x s n :
  is_u w x -> 0 <= s < w -> 0 <= n < w -> Z.testbit (rotate_left w x s) n = Z.testbit x ((n - s) mod w).
Proof.
  intros Hx Hs Hn. unfold rotate_left. rewrite testbit_wrap, Z.lor_spec, (Z.mod_small s) by lia.
  rewrite (mod_cases (n - s)), (mod_cases (w - s)) by lia.
  destruct (Z.ltb_spec (w - s) 0); [lia|].
  rewrite Z.shiftl_spec by lia. destruct (Z.ltb_spec (w - s) w).
  - rewrite Z.shiftr_spec by lia. destruct (Z.ltb_spec (n - s) 0).
    + rewrite Z.testbit_neg_r by lia. cbn [orb]. f_equal. lia.
    + rewrite (testbit_high w x (n + (w - s))) by (done || lia). rewrite orb_false_r.
      by destruct (Z.ltb_spec (n - s) w); [|lia].
  - assert (s = 0) as -> by lia. rewrite !Z.sub_0_r, Z.sub_diag, Z.shiftr_0_r, orb_diag.
    destruct (Z.ltb_spec n 0), (Z.ltb_spec n w); (done || lia).
Qed.

Lemma testbit_ror w x s n :
  is_u w x -> 0 <= s < w -> 0 <= n < w -> Z.testbit (rotate_right w x s) n = Z.testbit x ((n + s) mod w).
Proof.
  intros Hx Hs Hn. unfold rotate_right. rewrite testbit_wrap, Z.lor_spec, (Z.mod_small s) by lia.
  rewrite (mod_cases (n + s)), (mod_cases (w - s)) by lia.
  destruct (Z.ltb_spec (w - s) 0); [lia|]. destruct (Z.ltb_spec (n + s) 0); [lia|].
  rewrite Z.shiftr_spec by lia. destruct (Z.ltb_spec (w - s) w).
  - rewrite Z.shiftl_spec by lia. destruct (Z.ltb_spec (n + s) w).
    + rewrite (Z.testbit_neg_r x (n - (w - s))) by lia. apply orb_false_r.
    + rewrite (testbit_high w x (n + s)) by (done || lia). cbn [orb]. f_equal. lia.
  - assert (s = 0) as -> by lia. rewrite Z.add_0_r, Z.sub_0_r, Z.sub_diag, Z.shiftl_0_r, orb_diag.
    by destruct (Z.ltb_spec n w); [|lia].
Qed.

(** The shift amount the register forms use. *)
Lemma amount_64 x : is_u 64 x -> Z.land (wrap 32 x) 63 = x mod 64.
Proof.
  intros. change 63 with (2 ^ 6 - 1). rewrite land_ones' by lia. unfold wrap.
  rewrite Z.mod_mod_divide; [done|]. by exists (2 ^ 26).
Qed.

Lemma amount_32 x : is_u 64 x -> Z.land (wrap 32 x) 31 = x mod 32.
Proof.
  intros. change 31 with (2 ^ 5 - 1). rewrite land_ones' by lia. unfold wrap.
  rewrite Z.mod_mod_divide; [done|]. by exists (2 ^ 27).
Qed.

Lemma land_63 x : Z.land x 63 = x mod 64.
Proof. change 63 with (2 ^ 6 - 1). by rewrite land_ones' by lia. Qed.
Lemma land_31 x : Z.land x 31 = x mod 32.
Proof. change 31 with (2 ^ 5 - 1). by rewrite land_ones' by lia. Qed.

Lemma testbit_cons b r n :
  is_u 8 b -> 0 <= n ->
  Z.testbit (b + 256 * r) n = if n <? 8 then Z.testbit b n else Z.testbit r (n - 8).
Proof.
  intros Hb Hn. unfold is_u in Hb. destruct (Z.ltb_spec n 8).
  - rewrite <- (Z.mod_pow2_bits_low (b + 256 * r) 8) by lia. change (2 ^ 8) with 256.
    replace ((b + 256 * r) mod 256) with b by dlia. done.
  - replace n with (n - 8 + 8) at 1 by lia. rewrite <- Z.shiftr_spec by lia.
    rewrite Z.shiftr_div_pow2 by lia. change (2 ^ 8) with 256.
    replace ((b + 256 * r) / 256) with r by dlia. done.
Qed.

Lemma testbit_from_le bs n :
  Forall (is_u 8) bs -> 0 <= n ->
  Z.testbit (from_le_bytes bs) n = Z.testbit (default 0 (bs !! Z.to_nat (n / 8))) (n mod 8).
Proof.
  intros F. revert n. induction F as [|b bs Hb F IH]; intros n Hn; cbn [from_le_bytes].
  - rewrite lookup_nil. cbn. by rewrite !Z.bits_0.
  - rewrite testbit_cons by done. destruct (Z.ltb_spec n 8).
    + rewrite Z.div_small, Z.mod_small by lia. done.
    + rewrite IH by lia. replace (n / 8) with ((n - 8) / 8 + 1) by dlia.
      replace (n mod 8) with ((n - 8) mod 8) by dlia.
      rewrite Z2Nat.inj_add by dlia. change (Z.to_nat 1) with 1%nat. by rewrite Nat.add_1_r.
Qed.

Lemma to_le_bytes_lookup n v k :
  (k < n)%nat -> to_le_bytes n v !! k = Some (v / 256 ^ Z.of_nat k mod 256).
Proof.
  revert v k. induction n as [|n IH]; intros v k Hk; [lia|]. destruct k as [|k]; cbn [to_le_bytes].
  - cbn. by rewrite Z.div_1_r.
  - change (to_le_bytes n (v / 256) !! k = Some ((v / 256 ^ Z.of_nat (S k)) mod 256)).
    rewrite IH by lia. rewrite Z.div_div by lia. do 3 f_equal. rewrite <- Z.pow_succ_r by lia. f_equal. lia.
Qed.

Lemma testbit_swap v n :
  0 <= n < 64 -> Z.testbit (swap_bytes 8 v) n = Z.testbit v (8 * (7 - n / 8) + n mod 8).
Proof.
  intros Hn. unfold swap_bytes. rewrite testbit_from_le; [|apply Forall_rev, to_le_bytes_bytes|lia].
  assert (n / 8 < 8 /\ 0 <= n / 8 /\ 0 <= n mod 8 < 8) as (? & ? & ?) by dlia.
  rewrite rev_alt. change (rev_append (to_le_bytes 8 v) []) with (reverse (to_le_bytes 8 v)).
  rewrite reverse_lookup by (rewrite length_to_le_bytes; lia).
  rewrite length_to_le_bytes, to_le_bytes_lookup by lia. cbn [from_option id].
  replace (Z.of_nat (8 - S (Z.to_nat (n / 8)))) with (7 - n / 8) by lia.
  change 256 with (2 ^ 8) at 2. rewrite Z.mod_pow2_bits_low by lia. change 256 with (2 ^ 8).
  rewrite <- Z.pow_mul_r by lia. rewrite <- Z.shiftr_div_pow2, Z.shiftr_spec by lia. f_equal. lia.
Qed.

(** Bit [n] of what an instruction computes, from the bits of its operands. The
    [w] forms compute 32 bits and copy bit 31 upward. *)
Definition bit_spec (R : Z -> Z) (i : Inst) (n : Z) : option bool :=
  let b r k := Z.testbit (R r) k in
  let amt r := R r mod 64 in
  let amtw r := R r mod 32 in
  let m := Z.min n 31 in
  match i with
  | And _ x y => Some (b x n && b y n)
  | Or _ x y => Some (b x n || b y n)
  | Xor _ x y => Some (xorb (b x n) (b y n))
  | Andn _ x y => Some (b x n && negb (b y n))
  | Orn _ x y => Some (b x n || negb (b y n))
  | Xnor _ x y => Some (negb (xorb (b x n) (b y n)))
  | Sll _ x y => Some (negb (n <? amt y) && b x (n - amt y))
  | Slli _ x s => Some (negb (n <? s mod 64) && b x (n - s mod 64))
  | Srl _ x y => Some (b x (n + amt y))
  | Srli _ x s => Some (b x (n + s mod 64))
  | Sra _ x y => Some (b x (Z.min (n + amt y) 63))
  | Srai _ x s => Some (b x (Z.min (n + s mod 64) 63))
  | Sllw _ x y => Some (negb (m <? amtw y) && b x (m - amtw y))
  | Slliw _ x s => Some (negb (m <? s mod 32) && b x (m - s mod 32))
  | Srlw _ x y => Some ((m + amtw y <? 32) && b x (m + amtw y))
  | Srliw _ x s => Some ((m + s mod 32 <? 32) && b x (m + s mod 32))
  | Sraw _ x y => Some (b x (Z.min (n + amtw y) 31))
  | Sraiw _ x s => Some (b x (Z.min (n + s mod 32) 31))
  | Rol _ x y => Some (b x ((n - amt y) mod 64))
  | Ror _ x y => Some (b x ((n + amt y) mod 64))
  | Rori _ x s => Some (b x ((n + s mod 64) mod 64))
  | Rolw _ x y => Some (b x ((m - amtw y) mod 32))
  | Rorw _ x y => Some (b x ((m + amtw y) mod 32))
  | Roriw _ x s => Some (b x ((m + s mod 32) mod 32))
  | Rev8 _ x => Some (b x (8 * (7 - n / 8) + n mod 8))
  | SextB _ x => Some (b x (Z.min n 7))
  | SextH _ x => Some (b x (Z.min n 15))
  | ZextH _ x => Some ((n <? 16) && b x n)
  | Bset _ x y => Some ((n =? amt y) || b x n)
  | Bclr _ x y => Some (negb (n =? amt y) && b x n)
  | Binv _ x y => Some (xorb (n =? amt y) (b x n))
  | Bext _ x y => Some ((n =? 0) && b x (amt y))
  | Bseti _ x s => Some ((n =? s mod 64) || b x n)
  | Bclri _ x s => Some (negb (n =? s mod 64) && b x n)
  | Binvi _ x s => Some (xorb (n =? s mod 64) (b x n))
  | Bexti _ x s => Some ((n =? 0) && b x (s mod 64))
  | _ => None
  end.

Lemma testbit_one k n : 0 <= k -> 0 <= n -> Z.testbit (Z.shiftl 1 k) n = (n =? k).
Proof.
  intros. rewrite Z.shiftl_spec by lia. destruct (Z.eqb_spec n k) as [->|].
  - by rewrite Z.sub_diag.
  - destruct (Z.lt_ge_cases n k); [by rewrite Z.testbit_neg_r by lia|].
    rewrite Z.testbit_eqb by lia. rewrite Z.div_small; [done|]. split; [lia|].
    apply Z.pow_gt_1; lia.
Qed.

Lemma testbit_lsb x n : 0 <= n -> Z.testbit (Z.land x 1) n = (n =? 0) && Z.testbit x n.
Proof.
  intros. rewrite Z.land_spec. change 1 with (Z.shiftl 1 0) at 1. rewrite testbit_one by lia. apply andb_comm.
Qed.

(** Bounds of the masked shift amounts in the goal. *)
Ltac amount_bounds :=
  repeat match goal with
  | |- context [?x mod 64] =>
      lazymatch goal with Hb : 0 <= x mod 64 < 64 |- _ => fail | _ =>
        pose proof (Z.mod_pos_bound x 64 eq_refl) end
  | |- context [?x mod 32] =>
      lazymatch goal with Hb : 0 <= x mod 32 < 32 |- _ => fail | _ =>
        pose proof (Z.mod_pos_bound x 32 eq_refl) end
  end.

(** Push [Z.testbit] down to the operands. *)
Ltac bits_down HR :=
  cbn [snd]; rewrite ?amount_64, ?amount_32, ?land_63, ?land_31 by apply HR; amount_bounds;
  repeat first
    [ rewrite testbit_sx by lia
    | rewrite testbit_shl by lia
    | rewrite testbit_shr by lia
    | rewrite testbit_rol by first [apply HR | by apply wrap_range | lia]
    | rewrite testbit_ror by first [apply HR | by apply wrap_range | lia]
    | rewrite testbit_not by lia
    | rewrite testbit_one by lia
    | rewrite testbit_lsb by lia
    | rewrite testbit_swap by lia
    | rewrite Z.shiftr_spec by lia
    | rewrite testbit_sext by lia
    | rewrite Z.land_spec | rewrite Z.lor_spec | rewrite Z.lxor_spec
    | rewrite testbit_wrap by lia ].

(** The bitwise, shift, rotate, byte-reverse, extension and single-bit
    instructions, in their register, immediate and 32-bit forms, compute
    bit by bit what the bit-level reference says. *)
Theorem bit_instructions_exact R i n bit :
  (forall x, is_u 64 (R x)) -> 0 <= n < 64 -> bit_spec R i n = Some bit ->
  exists v, result R i = Some v /\ Z.testbit v n = bit.
Proof.
  intros HR Hn. assert (0 <= Z.min n 31 < 32) as Hm by lia.
  destruct i; cbn [bit_spec]; try discriminate; intros [= <-]; eexists; (split; [reflexivity|]);
    bits_down HR; try done.
  all: change (32 - 1) with 31; amount_bounds; rewrite ?testbit_wrap_all by lia.
  all: try apply andb_comm; try apply orb_comm; try apply xorb_comm.
  all: try (by destruct (Z.eqb_spec n 0) as [->|]).
  all: try (match goal with |- context [?a <? 32] => destruct (Z.ltb_spec a 32); [done|lia] end).
  change 65535 with (Z.ones 16). rewrite Z.testbit_ones_nonneg by lia. apply andb_comm.
Qed.

(** ** Materialising a constant *)

(** Run words as straight-line register-to-register code. *)
Fixpoint run_words (words : list Z) (regs : Regs) : option Regs :=
  match words with
  | [] => Some regs
  | w :: words' =>
      match alu (reg_read regs) 0 0 (decode_32 w) with
      | Some (rd, v) => run_words words' (reg_write regs rd v)
      | None => None
      end
  end.

Lemma decode_addi rd rs1 imm :
  0 <= rd < 32 -> 0 <= rs1 < 32 -> -2048 <= imm < 2048 -> decode_32 (addi rd rs1 imm) = Addi rd rs1 imm.
Proof.
  intros. unfold addi. rewrite decode_i_OP_IMM by lia. cbn [decode_op_imm].
  destruct (decode_i_fields 0 rd rs1 ltac:(lia) ltac:(lia) ltac:(lia) Encode.OP_IMM imm ltac:(done)) as (-> & _).
  rewrite sext_id; [done|lia|]. unfold is_i. cbn. lia.
Qed.

Lemma decode_slli rd rs1 :
  0 <= rd < 32 -> 0 <= rs1 < 32 -> decode_32 (slli rd rs1 11) = Slli rd rs1 11.
Proof.
  intros. unfold slli, i_shift64. cbv zeta. rewrite decode_i_OP_IMM by lia. unfold decode_op_imm.
  destruct (decode_i_fields 1 rd rs1 ltac:(lia) ltac:(lia) ltac:(lia) Encode.OP_IMM
    (Z.lor (Z.shiftl (Z.land 0 0x3F) 6) (Z.land 11 0x3F)) ltac:(done)) as (_ & _ & _ & -> & _ & ->).
  reflexivity.
Qed.

(** [regs'] is [regs] with the [rd] register holding [v]. *)
Definition holds (regs regs' : Regs) (rd v : Z) : Prop :=
  regs_ok regs' /\ reg_read regs' rd = v /\
  forall x, 0 <= x < 16 -> x <> rd -> reg_read regs' x = reg_read regs x.

Lemma holds_write regs regs1 rd v v' :
  1 <= rd < 16 -> holds regs regs1 rd v -> is_u 64 v' -> holds regs (reg_write regs1 rd v') rd v'.
Proof.
  intros Hrd (OK & _ & Ho) Hv. split; [by apply reg_write_ok|]. split.
  - rewrite reg_read_write by (done || lia). rewrite Z.eqb_refl. by destruct (Z.eqb_spec rd 0); [lia|].
  - intros x Hx Hne. rewrite reg_read_write by (done || lia).
    destruct (Z.eqb_spec rd x); [lia|]. cbn [andb]. by apply Ho.
Qed.

(** One round: shift by a chunk, add the next chunk. *)
Lemma li64_round regs regs1 rd v c :
  1 <= rd < 16 -> holds regs regs1 rd v -> is_u 53 v -> 0 <= c < 2048 ->
  exists regs2, (forall words, run_words ([slli rd rd 11; addi rd rd c] ++ words) regs1 = run_words words regs2) /\
    holds regs regs2 rd (2048 * v + c).
Proof.
  intros Hrd Hh Hv Hc. cbn [app run_words]. rewrite decode_slli by lia.
  destruct (Hh) as (OK & Hr & _). unfold is_u in Hv.
  assert (alu (reg_read regs1) 0 0 (Slli rd rd 11) = Some (rd, 2048 * v)) as ->.
  { cbn [alu alu_imm]. rewrite Hr. change (Z.land 11 63) with 11. unfold wrapping_shl.
    change (11 mod 64) with 11. rewrite Z.shiftl_mul_pow2 by lia. change (2 ^ 11) with 2048.
    rewrite wrap_small by (unfold is_u; lia). do 2 f_equal. lia. }
  assert (holds regs (reg_write regs1 rd (2048 * v)) rd (2048 * v)) as Hh2
    by (apply (holds_write regs regs1 rd v); (done || unfold is_u; lia)).
  rewrite decode_addi by lia. destruct (Hh2) as (OK2 & Hr2 & _).
  assert (alu (reg_read (reg_write regs1 rd (2048 * v))) 0 0 (Addi rd rd c) = Some (rd, 2048 * v + c)) as ->.
  { cbn [alu alu_imm]. rewrite Hr2. unfold wrapping_add.
    rewrite (wrap_small 64 c), wrap_small by (unfold is_u; lia). done. }
  eexists. split; [reflexivity|]. apply (holds_write regs _ rd (2048 * v)); (done || unfold is_u; lia).
Qed.

Lemma chunk_eq value k : Z.land (Z.shiftr value k) 0x7FF = Z.shiftr value k mod 2048.
Proof. change 0x7FF with (2 ^ 11 - 1). by rewrite land_ones' by lia. Qed.

Lemma shiftr_chunk value k :
  0 <= k -> 2048 * Z.shiftr value (k + 11) + Z.shiftr value k mod 2048 = Z.shiftr value k.
Proof.
  intros. rewrite <- Z.shiftr_shiftr by lia. rewrite (Z.shiftr_div_pow2 (Z.shiftr value k) 11) by lia.
  change (2 ^ 11) with 2048. pose proof (Z.div_mod (Z.shiftr value k) 2048). lia.
Qed.

Lemma li64_chunk regs regs1 rd value k :
  1 <= rd < 16 -> is_u 64 value -> 0 <= k -> holds regs regs1 rd (Z.shiftr value (k + 11)) ->
  exists regs2,
    (forall words, run_words ([slli rd rd 11; addi rd rd (Z.land (Z.shiftr value k) 0x7FF)] ++ words) regs1 =
      run_words words regs2) /\ holds regs regs2 rd (Z.shiftr value k).
Proof.
  intros Hrd Hv Hk Hh. rewrite chunk_eq.
  destruct (li64_round regs regs1 rd _ (Z.shiftr value k mod 2048) Hrd Hh) as (regs2 & E & H2);
    [|apply Z.mod_pos_bound; lia|rewrite shiftr_chunk in H2 by done; eauto].
  unfold is_u in *. rewrite Z.add_comm, <- Z.shiftr_shiftr by lia.
  pose proof (shiftr_range 53 (Z.shiftr value 11) k) as R. apply R; [|done].
  rewrite Z.shiftr_div_pow2 by lia. change (2 ^ 11) with 2048. unfold is_u.
  split; [apply Z.div_pos; lia|]. apply Z.div_lt_upper_bound; [lia|]. change (2048 * 2 ^ 53) with (2 ^ 64). lia.
Qed.

(** The eleven words [li64 rd value] emits, run from any register file,
    leave exactly [value] in [rd] and every other register unchanged. *)
Theorem li64_materialises rd value regs :
  1 <= rd < 16 -> is_u 64 value -> regs_ok regs ->
  exists regs', run_words (li64 rd value) regs = Some regs' /\ holds regs regs' rd value.
Proof.
  intros Hrd Hv OK. unfold li64. cbv zeta. cbn [flat_map].
  assert (Z.land (Z.shiftr value 55) 0x1FF = Z.shiftr value 55 /\ 0 <= Z.shiftr value 55 < 512) as [-> Hc].
  { change 0x1FF with (2 ^ 9 - 1). rewrite land_ones' by lia. rewrite Z.shiftr_div_pow2 by lia.
    unfold is_u in Hv. assert (0 <= value / 2 ^ 55 < 512) as Hd
      by (split; [apply Z.div_pos; lia|apply Z.div_lt_upper_bound; lia]).
    rewrite Z.mod_small by (change (2 ^ 9) with 512; lia). done. }
  set (rest := [slli rd rd 11; _] ++ _). cbn [run_words]. rewrite decode_addi by lia.
  assert (alu (reg_read regs) 0 0 (Addi rd 0 (Z.shiftr value 55)) = Some (rd, Z.shiftr value 55)) as ->.
  { cbn [alu alu_imm]. change (reg_read regs 0) with 0. unfold wrapping_add.
    rewrite Z.add_0_l, !wrap_small by (rewrite ?wrap_small; unfold is_u; lia). done. }
  assert (holds regs (reg_write regs rd (Z.shiftr value 55)) rd (Z.shiftr value (44 + 11))) as H0.
  { apply (holds_write regs regs rd (reg_read regs rd)); [done|done|unfold is_u; change (44 + 11) with 55; lia]. }
  unfold rest. clear rest.
  destruct (li64_chunk _ _ _ _ 44 Hrd Hv ltac:(lia) H0) as (r1 & -> & H1).
  destruct (li64_chunk _ _ _ _ 33 Hrd Hv ltac:(lia) H1) as (r2 & -> & H2).
  destruct (li64_chunk _ _ _ _ 22 Hrd Hv ltac:(lia) H2) as (r3 & -> & H3).
  destruct (li64_chunk _ _ _ _ 11 Hrd Hv ltac:(lia) H3) as (r4 & -> & H4).
  destruct (li64_chunk _ _ _ _ 0 Hrd Hv ltac:(lia) H4) as (r5 & -> & H5).
  rewrite Z.shiftr_0_r in H5. by exists r5.
Qed.

(** ** Examples *)

(** [x1] holds -5, [x2] holds 7. *)
Definition sample_R (x : Z) : Z := if x =? 1 then 2 ^ 64 - 5 else if x =? 2 then 7 else 0.

Lemma sample_R_range x : is_u 64 (sample_R x).
Proof. unfold sample_R, is_u. destruct (x =? 1), (x =? 2); lia. Qed.

Lemma mul_halves_exact_witness :
  sext 64 (default 0 (result sample_R (Mulh 3 1 2))) * 2 ^ 64 + default 0 (result sample_R (Mul 3 1 2)) = -35.
Proof.
  destruct (mul_halves_exact sample_R 3 1 2 sample_R_range) as (E & _).
  rewrite E. vm_compute. reflexivity.
Defined.

Lemma div_rem_exact_witness :
  result sample_R (Div 3 2 1) = Some (2 ^ 64 - 1) /\ result sample_R (Rem 3 2 1) = Some 2 /\
  div_spec 64 7 (-5) (-1) 2.
Proof.
  split; [vm_compute; reflexivity|]. split; [vm_compute; reflexivity|].
  exact (proj1 (div_rem_exact sample_R 3 2 1 sample_R_range)).
Defined.

Lemma bit_instructions_exact_witness :
  exists v, result sample_R (Ror 3 1 2) = Some v /\ Z.testbit v 59 = false.
Proof.
  apply (bit_instructions_exact sample_R (Ror 3 1 2) 59 false sample_R_range); [lia|].
  vm_compute. reflexivity.
Defined.

Lemma li64_materialises_witness :
  exists regs', run_words (li64 7 0xDEADBEEFCAFEF00D) regs_new = Some regs' /\
    holds regs_new regs' 7 0xDEADBEEFCAFEF00D.
Proof.
  apply (li64_materialises 7 0xDEADBEEFCAFEF00D regs_new); [lia|done|exact regs_new_ok].
Defined.
