(* ===== verification/BTreeMap.v ===== *)
(** * Ordered maps

    The part of [alloc::collections::BTreeMap] the program blob uses, on integer
    keys: an association list kept in strictly increasing key order, which is
    the order the map iterates in. [insert] reports the value it replaces. *)

From S2P Require Import Prelude.
From Stdlib Require Import Sorted.

Definition BTreeMap (V : Type) : Type := list (Z * V).

Section BTreeMap.
  Context {V : Type}.

Fixpoint bt_insert (k : Z) (v : V) (m : BTreeMap V) : BTreeMap V * option V :=
  match m with
  | [] => ([(k, v)], None)
  | (k', v') :: m' =>
      if k <? k' then ((k, v) :: m, None)
      else if k =? k' then ((k, v) :: m', Some v')
      else let '(m'', old) := bt_insert k v m' in ((k', v') :: m'', old)
  end.

Fixpoint bt_get (k : Z) (m : BTreeMap V) : option V :=
  match m with
  | [] => None
  | (k', v') :: m' => if k =? k' then Some v' else bt_get k m'
  end.

Definition bt_ok (m : BTreeMap V) : Prop := StronglySorted Z.lt (map fst m).

Lemma keys_Forall (P : Z -> Prop) (m : BTreeMap V) :
  Forall P (map fst m) <-> Forall (fun kv => P (fst kv)) m.
Proof. apply Forall_map. Qed.

Lemma bt_ok_inv k v m : bt_ok ((k, v) :: m) -> bt_ok m /\ Forall (fun kv => k < fst kv) m.
Proof.
  intros S. inversion S as [|? ? S' F]; subst. split; [done|].
  by apply keys_Forall.
Qed.

Lemma bt_insert_entries (P : Z * V -> Prop) k v m :
  P (k, v) -> Forall P m -> Forall P (fst (bt_insert k v m)).
Proof.
  intros Hk. induction m as [|[k' v'] m IH]; intros F; cbn [bt_insert].
  - by repeat constructor.
  - inversion F; subst. destruct (k <? k'); [by repeat constructor|].
    destruct (k =? k'); [by constructor|]. destruct (bt_insert k v m) as [m'' o]. constructor; auto.
Qed.

Lemma bt_insert_ok k v m : bt_ok m -> bt_ok (fst (bt_insert k v m)).
Proof.
  unfold bt_ok. induction m as [|[k' v'] m IH]; intros S; cbn [bt_insert]; [by repeat constructor|].
  destruct (bt_ok_inv _ _ _ S) as [S' F].
  destruct (Z.ltb_spec k k').
  { cbn. constructor; [done|]. constructor; [done|]. apply keys_Forall.
    eapply Forall_impl; [|exact F]. cbn. intros ? ?. by eapply Z.lt_trans. }
  destruct (Z.eqb_spec k k') as [->|].
  { cbn. constructor; [done|]. by apply keys_Forall. }
  assert (k' < k) as Hlt by lia. pose proof (bt_insert_entries (fun kv => k' < fst kv) k v m Hlt F) as K.
  specialize (IH S'). destruct (bt_insert k v m) as [m'' o]. cbn in *.
  constructor; [done|]. by apply keys_Forall.
Qed.

(** The replaced value is the one the map had. *)
Lemma bt_insert_old k v m : bt_ok m -> snd (bt_insert k v m) = bt_get k m.
Proof.
  induction m as [|[k' v'] m IH]; intros S; cbn [bt_insert bt_get]; [done|].
  destruct (bt_ok_inv _ _ _ S) as [S' F].
  assert (k < k' -> bt_get k m = None) as Hnone.
  { intros Hk. clear - F Hk. induction F as [|[k2 v2] m H F IH]; [done|]. cbn in *.
    destruct (Z.eqb_spec k k2); [lia|done]. }
  destruct (Z.ltb_spec k k'), (Z.eqb_spec k k'); try lia; cbn; auto.
  - symmetry. auto.
  - destruct (bt_insert k v m). by apply IH.
Qed.

(** Lookup after insertion. *)
Lemma bt_get_insert k v m j :
  bt_get j (fst (bt_insert k v m)) = if j =? k then Some v else bt_get j m.
Proof.
  induction m as [|[k' v'] m IH]; cbn [bt_insert bt_get fst]; [done|].
  destruct (Z.ltb_spec k k'); [done|]. destruct (Z.eqb_spec k k') as [->|].
  - cbn. by destruct (j =? k').
  - destruct (bt_insert k v m) as [m'' o]. cbn in *. rewrite IH.
    destruct (Z.eqb_spec j k'), (Z.eqb_spec j k); congruence.
Qed.

Lemma bt_get_In k (m : BTreeMap V) v : bt_get k m = Some v -> In (k, v) m.
Proof.
  induction m as [|[k' v'] m IH]; cbn [bt_get]; [done|].
  destruct (Z.eqb_spec k k') as [->|]; [intros [= ->]; by left|]. intros E. right. auto.
Qed.

(** A key above every other goes last. *)
Lemma bt_insert_last k v m :
  Forall (fun kv => fst kv < k) m -> bt_insert k v m = (m ++ [(k, v)], None).
Proof.
  induction 1 as [|[k' v'] m Hk _ IH]; [done|]. cbn in *.
  destruct (Z.ltb_spec k k'); [lia|]. destruct (Z.eqb_spec k k'); [lia|]. by rewrite IH.
Qed.

Lemma bt_ok_app m k v l :
  bt_ok (m ++ (k, v) :: l) -> Forall (fun kv => fst kv < k) m.
Proof.
  induction m as [|[k' v'] m IH]; intros S; [done|].
  destruct (bt_ok_inv _ _ _ S) as [S' F]. constructor; [|auto].
  apply Forall_app in F as [_ F]. by inversion F.
Qed.
End BTreeMap.
