(* ===== verification/Program.v ===== *)
(** * Program blobs

    Models [nub/nub-program/src]: the address-space constants ([abi.rs]), the
    blob and its region geometry ([blob.rs]) and the binary encoding
    ([codec.rs]). Unchecked [u32]/[u64] additions wrap, as they do in release
    builds; a slice out of range is an [Abort]. *)

From S2P Require Import Prelude MachineInt BTreeMap.
From Stdlib Require Import Sorted.

(** ** abi.rs *)

Definition CODE_BASE : Z := 0x00400000.
Definition DATA_BASE : Z := 0x10000000.
Definition MAX_CODE_SIZE : Z := DATA_BASE - CODE_BASE.
Definition ABI_PAGE_SIZE : Z := 4096.
Definition SP_REG : Z := 1.
Definition ADDRESS_SPACE_END : Z := Z.shiftl 1 32.

(** ** blob.rs *)

Inductive RegionKind := Stack | Ro | Rw | Heap.

#[export] Instance RegionKind_eq_dec : EqDecision RegionKind.
Proof. solve_decision. Defined.

Definition is_read_only (k : RegionKind) : bool := match k with Ro => true | _ => false end.

Record Region := mkRegion { kind : RegionKind; base_page : Z; page_count : Z }.

Definition region_start (r : Region) : Z := base_page r * ABI_PAGE_SIZE.
Definition region_size (r : Region) : Z := page_count r * ABI_PAGE_SIZE.

Record Regions := mkRegions { stack_pages : Z; ro_pages : Z; rw_pages : Z; heap_pages : Z }.

(** The [filter_map] closure of [iter], whose captured [next_page] is threaded. *)
Fixpoint place (next_page : Z) (l : list (RegionKind * Z)) : list Region :=
  match l with
  | [] => []
  | (k, n) :: l' =>
      if n =? 0 then place next_page l'
      else mkRegion k next_page n :: place (wrapping_add 32 next_page n) l'
  end.

Definition regions_iter (r : Regions) : list Region :=
  place (DATA_BASE / ABI_PAGE_SIZE)
    [(Stack, stack_pages r); (Ro, ro_pages r); (Rw, rw_pages r); (Heap, heap_pages r)].

Definition regions_get (r : Regions) (k : RegionKind) : option Region :=
  List.find (fun x => bool_decide (kind x = k)) (regions_iter r).

Definition stack_top (r : Regions) : Z :=
  DATA_BASE / ABI_PAGE_SIZE * ABI_PAGE_SIZE + stack_pages r * ABI_PAGE_SIZE.

Definition total_pages (r : Regions) : Z :=
  wrapping_add 32 (wrapping_add 32 (wrapping_add 32 (stack_pages r) (ro_pages r)) (rw_pages r)) (heap_pages r).

Definition data_extent (r : Regions) : Z := total_pages r * ABI_PAGE_SIZE.
Definition data_end (r : Regions) : Z := DATA_BASE + data_extent r.

Record Endpoint := mkEndpoint {
  entry_pc : Z;
  arg_registers : Z;
  arg_meta : Z;
  initial_regs : BTreeMap Z }.

Record ProgramBlob := mkBlob {
  code : list Z;
  regions : Regions;
  ro_data : list Z;
  rw_data : list Z;
  endpoints : BTreeMap Endpoint }.

Inductive InvalidProgram :=
  | CodeTooLarge (len : Z)
  | DataOutOfRange (end_ : Z)
  | RegionLengthMismatch (kind : RegionKind) (expected actual : Z)
  | NoEndpoints.

Definition vlen {A : Type} (l : list A) : Z := Z.of_nat (length l).

(** The loop of [validate] over the two backed regions. *)
Fixpoint check_lengths (l : list (RegionKind * list Z * Z)) : Result unit InvalidProgram :=
  match l with
  | [] => Ok tt
  | (k, data, pages) :: l' =>
      let expected := pages * ABI_PAGE_SIZE in
      if negb (vlen data =? expected) then Err (RegionLengthMismatch k expected (vlen data))
      else check_lengths l'
  end.

Definition validate (b : ProgramBlob) : Result unit InvalidProgram :=
  if MAX_CODE_SIZE <? vlen (code b) then Err (CodeTooLarge (vlen (code b)))
  else if ADDRESS_SPACE_END <? data_end (regions b) then Err (DataOutOfRange (data_end (regions b)))
  else
    let? _ := check_lengths [(Ro, ro_data b, ro_pages (regions b)); (Rw, rw_data b, rw_pages (regions b))] in
    match endpoints b with
    | [] => Err NoEndpoints
    | _ => Ok tt
    end.

(** [Vec::resize]: truncates as well as extends. *)
Definition resize (l : list Z) (n x : Z) : list Z :=
  take (Z.to_nat n) l ++ replicate (Z.to_nat n - length l) x.

Definition blob_new (code : list Z) (regions : Regions) (ro_data rw_data : list Z)
    (endpoints : BTreeMap Endpoint) : Result ProgramBlob InvalidProgram :=
  let ro_data := resize ro_data (ro_pages regions * ABI_PAGE_SIZE) 0 in
  let rw_data := resize rw_data (rw_pages regions * ABI_PAGE_SIZE) 0 in
  let blob := mkBlob code regions ro_data rw_data endpoints in
  let? _ := validate blob in
  Ok blob.

Definition region_data (b : ProgramBlob) (k : RegionKind) : option (list Z) :=
  match k with
  | Ro => Some (ro_data b)
  | Rw => Some (rw_data b)
  | Stack | Heap => None
  end.

(** The loop of [memory_image]. *)
Fixpoint fill_image (b : ProgramBlob) (image : list Z) (rs : list Region) : Res (list Z) :=
  match rs with
  | [] => Ret image
  | r :: rs' =>
      match region_data b (kind r) with
      | None => fill_image b image rs'
      | Some data =>
          let off := wrapping_sub 64 (region_start r) DATA_BASE in
          if off + vlen data <=? vlen image
          then fill_image b (splice image (Z.to_nat off) data) rs'
          else Abort
      end
  end.

Definition memory_image (b : ProgramBlob) : Res (list Z) :=
  fill_image b (replicate (Z.to_nat (data_extent (regions b))) 0) (regions_iter (regions b)).

(** ** codec.rs *)

Definition MAGIC : list Z := [0x4E; 0x55; 0x42; 0x50].
Definition VERSION : Z := 1.

Inductive DecodeError :=
  | BadMagic
  | UnsupportedVersion (v : Z)
  | ReservedFlags (v : Z)
  | Truncated (need have : Z)
  | DuplicateEndpoint (k : Z)
  | RegionOverflow (len capacity : Z)
  | TrailingBytes (n : Z)
  | Invalid (e : InvalidProgram).

(** One past the last non-zero byte. *)
Fixpoint trimmed_len (data : list Z) : nat :=
  match data with
  | [] => 0
  | b :: data' =>
      match trimmed_len data' with
      | O => if b =? 0 then 0 else 1
      | S n => S (S n)
      end
  end.

Record Reader := mkReader { buf : list Z; pos : Z }.

#[local] Abbreviation Read A := (Result (A * Reader) DecodeError).

Definition r_take (r : Reader) (n : Z) : Read (list Z) :=
  match checked_add 64 (pos r) n with
  | None => Err (Truncated (2 ^ 64 - 1) (vlen (buf r)))
  | Some end_ =>
      if vlen (buf r) <? end_ then Err (Truncated end_ (vlen (buf r)))
      else Ok (take (Z.to_nat n) (drop (Z.to_nat (pos r)) (buf r)), mkReader (buf r) end_)
  end.

(** [from_le_bytes] of an [n]-byte field; [u8] is the one-byte case. *)
Definition r_uint (n : nat) (r : Reader) : Read Z :=
  let? (bs, r) := r_take r (Z.of_nat n) in Ok (from_le_bytes bs, r).

Definition r_u8 := r_uint 1.
Definition r_u16 := r_uint 2.
Definition r_u32 := r_uint 4.
Definition r_u64 := r_uint 8.

Definition enc_reg (kv : Z * Z) : list Z :=
  [fst kv] ++ replicate 7 0 ++ to_le_bytes 8 (snd kv).

Definition enc_endpoint (kv : Z * Endpoint) : list Z :=
  let '(key, ep) := kv in
  [key; arg_registers ep; arg_meta ep; wrap 8 (vlen (initial_regs ep))] ++
  to_le_bytes 8 (entry_pc ep) ++ concat (map enc_reg (initial_regs ep)).

Definition to_bytes (b : ProgramBlob) : list Z :=
  let ro_len := trimmed_len (ro_data b) in
  let rw_len := trimmed_len (rw_data b) in
  MAGIC ++ to_le_bytes 2 VERSION ++ to_le_bytes 2 0 ++
  concat (map (to_le_bytes 4) [stack_pages (regions b); ro_pages (regions b); rw_pages (regions b);
                               heap_pages (regions b)]) ++
  concat (map (to_le_bytes 4) [vlen (code b); Z.of_nat ro_len; Z.of_nat rw_len; vlen (endpoints b)]) ++
  concat (map enc_endpoint (endpoints b)) ++
  code b ++ take ro_len (ro_data b) ++ take rw_len (rw_data b).

Fixpoint read_regs (count : nat) (m : BTreeMap Z) (r : Reader) : Read (BTreeMap Z) :=
  match count with
  | O => Ok (m, r)
  | S count' =>
      let? (idx, r) := r_u8 r in
      let? (_, r) := r_take r 7 in
      let? (v, r) := r_u64 r in
      read_regs count' (fst (bt_insert idx v m)) r
  end.

Fixpoint read_endpoints (count : nat) (m : BTreeMap Endpoint) (r : Reader) : Read (BTreeMap Endpoint) :=
  match count with
  | O => Ok (m, r)
  | S count' =>
      let? (key, r) := r_u8 r in
      let? (arg_registers, r) := r_u8 r in
      let? (arg_meta, r) := r_u8 r in
      let? (reg_count, r) := r_u8 r in
      let? (entry_pc, r) := r_u64 r in
      let? (initial_regs, r) := read_regs (Z.to_nat reg_count) [] r in
      let '(m, old) := bt_insert key (mkEndpoint entry_pc arg_registers arg_meta initial_regs) m in
      match old with
      | Some _ => Err (DuplicateEndpoint key)
      | None => read_endpoints count' m r
      end
  end.

Definition read_region (r : Reader) (len pages : Z) : Read (list Z) :=
  let capacity := pages * ABI_PAGE_SIZE in
  if capacity <? len then Err (RegionOverflow len capacity)
  else
    let? (data, r) := r_take r len in
    Ok (resize data capacity 0, r).

(** [from_bytes] up to the trailing-bytes test. *)
Definition read_blob (r : Reader) : Read ProgramBlob :=
  let? (magic, r) := r_take r 4 in
  if negb (bool_decide (magic = MAGIC)) then Err BadMagic else
  let? (version, r) := r_u16 r in
  if negb (version =? VERSION) then Err (UnsupportedVersion version) else
  let? (flags, r) := r_u16 r in
  if negb (flags =? 0) then Err (ReservedFlags flags) else
  let? (stack_pages, r) := r_u32 r in
  let? (ro_pages, r) := r_u32 r in
  let? (rw_pages, r) := r_u32 r in
  let? (heap_pages, r) := r_u32 r in
  let? (code_len, r) := r_u32 r in
  let? (ro_len, r) := r_u32 r in
  let? (rw_len, r) := r_u32 r in
  let? (endpoint_count, r) := r_u32 r in
  let? (endpoints, r) := read_endpoints (Z.to_nat endpoint_count) [] r in
  let? (code, r) := r_take r code_len in
  let? (ro_data, r) := read_region r ro_len ro_pages in
  let? (rw_data, r) := read_region r rw_len rw_pages in
  Ok (mkBlob code (mkRegions stack_pages ro_pages rw_pages heap_pages) ro_data rw_data endpoints, r).

Definition from_bytes (bytes : list Z) : Result ProgramBlob DecodeError :=
  let? (blob, r) := read_blob (mkReader bytes 0) in
  if negb (pos r =? vlen bytes) then Err (TrailingBytes (vlen bytes - pos r))
  else
    match validate blob with
    | Err e => Err (Invalid e)
    | Ok _ => Ok blob
    end.

(** ** Well-formed values

    The ranges the Rust types give: bytes, [u8] keys in increasing order,
    [u32] page counts. *)

Record regions_wf (r : Regions) : Prop := {
  rw_stack : is_u 32 (stack_pages r);
  rw_ro : is_u 32 (ro_pages r);
  rw_rw : is_u 32 (rw_pages r);
  rw_heap : is_u 32 (heap_pages r) }.

Record endpoint_wf (e : Endpoint) : Prop := {
  ew_pc : is_u 64 (entry_pc e);
  ew_args : is_u 8 (arg_registers e);
  ew_meta : is_u 8 (arg_meta e);
  ew_sorted : bt_ok (initial_regs e);
  ew_regs : Forall (fun kv => is_u 8 (fst kv) /\ is_u 64 (snd kv)) (initial_regs e) }.

Record blob_wf (b : ProgramBlob) : Prop := {
  bw_code : Forall (is_u 8) (code b);
  bw_regions : regions_wf (regions b);
  bw_ro : Forall (is_u 8) (ro_data b);
  bw_rw : Forall (is_u 8) (rw_data b);
  bw_sorted : bt_ok (endpoints b);
  bw_eps : Forall (fun kv => is_u 8 (fst kv) /\ endpoint_wf (snd kv)) (endpoints b) }.

(** The exact number of pages, which [total_pages] reduces modulo [2 ^ 32]. *)
Definition page_sum (r : Regions) : Z := stack_pages r + ro_pages r + rw_pages r + heap_pages r.

Lemma vlen_app {A} (l k : list A) : vlen (l ++ k) = vlen l + vlen k.
Proof. unfold vlen. rewrite length_app. lia. Qed.

Lemma vlen_nonneg {A} (l : list A) : 0 <= vlen l.
Proof. unfold vlen. lia. Qed.

(** Strictly increasing [u8] keys: at most 256 entries. *)
Lemma bt_length {V} lo (m : BTreeMap V) :
  bt_ok m -> Forall (fun kv => lo <= fst kv < 256) m -> vlen m <= Z.max 0 (256 - lo).
Proof.
  revert lo. induction m as [|[k v] m IH]; intros lo S F; [unfold vlen; cbn [length]; lia|].
  destruct (bt_ok_inv _ _ _ S) as [S' K]. inversion F as [|? ? Hk F']; subst. cbn in Hk.
  specialize (IH (k + 1) S'). unfold vlen in *. cbn [length]. enough (Z.of_nat (length m) <= Z.max 0 (256 - (k + 1))) by lia.
  apply IH. apply Forall_forall. intros kv Hin.
  pose proof (proj1 (Forall_forall _ _) K kv Hin). pose proof (proj1 (Forall_forall _ _) F' kv Hin). cbn in *. lia.
Qed.

(** ** Reading back what was written *)

(** The reader between the bytes already consumed and those still to come. *)
Definition reader_at (pre post : list Z) : Reader := mkReader (pre ++ post) (vlen pre).

Definition fits (pre post : list Z) : Prop := vlen pre + vlen post < 2 ^ 64.

Lemma fits_step pre x post : fits pre (x ++ post) -> fits (pre ++ x) post.
Proof. unfold fits. rewrite !vlen_app. lia. Qed.

Lemma take_at pre x post :
  fits pre (x ++ post) -> r_take (reader_at pre (x ++ post)) (vlen x) = Ok (x, reader_at (pre ++ x) post).
Proof.
  unfold fits, r_take, checked_add, reader_at. cbn [pos buf]. rewrite !vlen_app. intros Hf.
  pose proof (vlen_nonneg x). pose proof (vlen_nonneg post). pose proof (vlen_nonneg pre).
  destruct (Z.ltb_spec (vlen pre + vlen x) (2 ^ 64)); [|lia].
  destruct (Z.ltb_spec (vlen pre + (vlen x + vlen post)) (vlen pre + vlen x)); [lia|].
  unfold vlen at 1 2. rewrite !Nat2Z.id, drop_app_length, take_app_length, <- app_assoc. done.
Qed.

Lemma uint_at n v pre post :
  is_u (8 * Z.of_nat n) v -> fits pre (to_le_bytes n v ++ post) ->
  r_uint n (reader_at pre (to_le_bytes n v ++ post)) = Ok (v, reader_at (pre ++ to_le_bytes n v) post).
Proof.
  intros Hv Hf. unfold r_uint. pose proof (take_at pre (to_le_bytes n v) post Hf) as E.
  assert (vlen (to_le_bytes n v) = Z.of_nat n) as L by (unfold vlen; by rewrite length_to_le_bytes).
  rewrite L in E. rewrite E. cbn [result_bind]. by rewrite from_to_le_bytes, wrap_small.
Qed.

Lemma u8_at v pre post :
  fits pre (v :: post) -> r_u8 (reader_at pre (v :: post)) = Ok (v, reader_at (pre ++ [v]) post).
Proof.
  intros Hf. unfold r_u8, r_uint. pose proof (take_at pre [v] post Hf) as E.
  change (vlen [v]) with (Z.of_nat 1) in E. change ([v] ++ post) with (v :: post) in E.
  rewrite E. cbn [result_bind from_le_bytes]. by rewrite Z.mul_0_r, Z.add_0_r.
Qed.

Lemma vlen_cons {A} (x : A) l : vlen (x :: l) = 1 + vlen l.
Proof. unfold vlen. cbn [length]. lia. Qed.

Lemma vlen_nil {A} : vlen (@nil A) = 0.
Proof. done. Qed.

Lemma vlen_to_le_bytes n v : vlen (to_le_bytes n v) = Z.of_nat n.
Proof. unfold vlen. by rewrite length_to_le_bytes. Qed.

Create Rewrite HintDb vlen.
#[export] Hint Rewrite @vlen_cons @vlen_app @vlen_nil vlen_to_le_bytes : vlen.

Ltac solve_fits := unfold fits in *; autorewrite with vlen in *; lia.

(** Read one field and go on with the rest. *)
Ltac read_field :=
  first [ rewrite u8_at by solve_fits
        | unfold r_u16, r_u32, r_u64; rewrite uint_at by (done || solve_fits)
        | rewrite take_at by solve_fits ]; cbn [result_bind].

Lemma read_regs_step n m k v pre post :
  is_u 64 v -> fits pre (enc_reg (k, v) ++ post) ->
  read_regs (S n) m (reader_at pre (enc_reg (k, v) ++ post)) =
  read_regs n (fst (bt_insert k v m)) (reader_at (pre ++ enc_reg (k, v)) post).
Proof.
  intros Hv Hf. cbn [read_regs]. unfold enc_reg in *. cbn [fst snd] in *.
  rewrite <- !app_assoc in *. cbn [app] in *.
  read_field. change 7 with (vlen (replicate 7 0)). read_field. read_field.
  by rewrite <- !app_assoc.
Qed.

Lemma read_regs_at l m pre post :
  bt_ok (m ++ l) -> Forall (fun kv => is_u 8 (fst kv) /\ is_u 64 (snd kv)) l ->
  fits pre (concat (map enc_reg l) ++ post) ->
  read_regs (length l) m (reader_at pre (concat (map enc_reg l) ++ post)) =
  Ok (m ++ l, reader_at (pre ++ concat (map enc_reg l)) post).
Proof.
  revert m pre. induction l as [|[k v] l IH]; intros m pre S F Hf; cbn [map concat] in *.
  { cbn. by rewrite !app_nil_r. }
  inversion F as [|? ? [Hk Hv] F']; subst. cbn [length]. rewrite <- !app_assoc in *.
  rewrite read_regs_step by done. rewrite bt_insert_last by (by eapply bt_ok_app). cbn [fst].
  change ((k, v) :: l) with ([(k, v)] ++ l). rewrite !app_assoc. apply fits_step in Hf.
  apply IH; [|done|done]. by rewrite <- app_assoc.
Qed.

Lemma read_endpoints_step n m k e pre post :
  is_u 8 k -> endpoint_wf e -> vlen (initial_regs e) <= 255 ->
  Forall (fun kv => fst kv < k) m -> fits pre (enc_endpoint (k, e) ++ post) ->
  read_endpoints (S n) m (reader_at pre (enc_endpoint (k, e) ++ post)) =
  read_endpoints n (m ++ [(k, e)]) (reader_at (pre ++ enc_endpoint (k, e)) post).
Proof.
  intros Hk [Hpc Ha Hm Hs Hr] Hl Hlast Hf. cbn [read_endpoints]. unfold enc_endpoint in *.
  rewrite <- !app_assoc in *. cbn [app] in *. pose proof (vlen_nonneg (initial_regs e)).
  do 5 read_field. rewrite wrap_small by (unfold is_u; lia).
  unfold vlen at 1. rewrite Nat2Z.id, read_regs_at; [|done|done|solve_fits]. cbn [result_bind app].
  rewrite bt_insert_last by done. rewrite <- !app_assoc. by destruct e.
Qed.

Lemma read_endpoints_at l m pre post :
  bt_ok (m ++ l) ->
  Forall (fun kv => is_u 8 (fst kv) /\ endpoint_wf (snd kv) /\ vlen (initial_regs (snd kv)) <= 255) l ->
  fits pre (concat (map enc_endpoint l) ++ post) ->
  read_endpoints (length l) m (reader_at pre (concat (map enc_endpoint l) ++ post)) =
  Ok (m ++ l, reader_at (pre ++ concat (map enc_endpoint l)) post).
Proof.
  revert m pre. induction l as [|[k e] l IH]; intros m pre S F Hf; cbn [map concat] in *.
  { cbn. by rewrite !app_nil_r. }
  inversion F as [|? ? (Hk & He & Hl) F']; subst. cbn [length fst snd] in *. rewrite <- !app_assoc in *.
  rewrite read_endpoints_step by (done || by eapply bt_ok_app).
  change ((k, e) :: l) with ([(k, e)] ++ l). rewrite !app_assoc. apply fits_step in Hf.
  apply IH; [|done|done]. by rewrite <- app_assoc.
Qed.

(** ** Trimming and extending *)

Lemma trimmed_len_le d : (trimmed_len d <= length d)%nat.
Proof.
  induction d as [|b d IH]; cbn [trimmed_len length]; [lia|].
  destruct (trimmed_len d); [destruct (b =? 0)|]; lia.
Qed.

(** What [trimmed_len] cuts off is zeros. *)
Lemma trim_extend d : take (trimmed_len d) d ++ replicate (length d - trimmed_len d) 0 = d.
Proof.
  induction d as [|b d IH]; [done|]. cbn [trimmed_len length].
  destruct (trimmed_len d) as [|n] eqn:E.
  - rewrite take_0, Nat.sub_0_r in IH. cbn [app] in IH.
    destruct (Z.eqb_spec b 0) as [->|]; cbn [take Nat.sub app replicate]; by rewrite ?Nat.sub_0_r, IH.
  - cbn [take Nat.sub app]. f_equal. exact IH.
Qed.

Lemma read_region_at d pages pre post :
  vlen d = pages * ABI_PAGE_SIZE -> fits pre (take (trimmed_len d) d ++ post) ->
  read_region (reader_at pre (take (trimmed_len d) d ++ post)) (Z.of_nat (trimmed_len d)) pages =
  Ok (d, reader_at (pre ++ take (trimmed_len d) d) post).
Proof.
  intros Hd Hf. unfold read_region. cbv zeta. rewrite <- Hd. pose proof (trimmed_len_le d) as L.
  destruct (Z.ltb_spec (vlen d) (Z.of_nat (trimmed_len d))); [unfold vlen in *; lia|].
  assert (vlen (take (trimmed_len d) d) = Z.of_nat (trimmed_len d)) as E
    by (unfold vlen; rewrite length_take; lia).
  rewrite <- E at 1. read_field. unfold resize, vlen. rewrite Nat2Z.id, length_take, Nat.min_l by done.
  rewrite (take_ge (take _ _)) by (rewrite length_take; lia). by rewrite trim_extend.
Qed.

(** ** Validation *)

Lemma validate_ok b :
  validate b = Ok tt <->
  vlen (code b) <= MAX_CODE_SIZE /\ data_end (regions b) <= ADDRESS_SPACE_END /\
  vlen (ro_data b) = ro_pages (regions b) * ABI_PAGE_SIZE /\
  vlen (rw_data b) = rw_pages (regions b) * ABI_PAGE_SIZE /\ endpoints b <> [].
Proof.
  unfold validate, check_lengths. cbv zeta.
  destruct (Z.ltb_spec MAX_CODE_SIZE (vlen (code b))); [split; [done|lia]|].
  destruct (Z.ltb_spec ADDRESS_SPACE_END (data_end (regions b))); [split; [done|lia]|].
  destruct (Z.eqb_spec (vlen (ro_data b)) (ro_pages (regions b) * ABI_PAGE_SIZE)); cbn [negb result_bind];
    [|naive_solver].
  destruct (Z.eqb_spec (vlen (rw_data b)) (rw_pages (regions b) * ABI_PAGE_SIZE)); cbn [negb result_bind];
    [|naive_solver].
  destruct (endpoints b); naive_solver.
Qed.

Lemma total_pages_exact r : regions_wf r -> page_sum r < 2 ^ 32 -> total_pages r = page_sum r.
Proof.
  intros [] Hs. unfold total_pages, wrapping_add, page_sum, is_u in *.
  rewrite (wrap_small 32 (stack_pages r + ro_pages r)) by (unfold is_u; lia).
  rewrite (wrap_small 32 (_ + rw_pages r)) by (unfold is_u; lia). apply wrap_small. unfold is_u. lia.
Qed.

(** A valid blob whose page counts do not wrap fits the data window. *)
Lemma valid_pages b :
  blob_wf b -> page_sum (regions b) < 2 ^ 32 -> validate b = Ok tt -> page_sum (regions b) <= 0xF0000.
Proof.
  intros W Hs V. apply validate_ok in V as (_ & V & _). unfold data_end, data_extent in V.
  rewrite total_pages_exact in V by (done || apply W). unfold DATA_BASE, ABI_PAGE_SIZE, ADDRESS_SPACE_END in V.
  change (Z.shiftl 1 32) with (2 ^ 32) in V. lia.
Qed.

Lemma concat_length {A} (f : A -> list Z) c l :
  Forall (fun x => vlen (f x) <= c) l -> vlen (concat (map f l)) <= c * vlen l.
Proof. induction 1; cbn [map concat]; autorewrite with vlen; [lia|]. lia. Qed.

Lemma enc_endpoint_length kv :
  endpoint_wf (snd kv) -> vlen (enc_endpoint kv) <= 12 + 16 * 256.
Proof.
  destruct kv as [k e]. cbn [snd]. intros [_ _ _ Hs Hr]. unfold enc_endpoint.
  pose proof (concat_length enc_reg 16 (initial_regs e)) as C.
  pose proof (bt_length 0 (initial_regs e) Hs) as L.
  assert (vlen (initial_regs e) <= 256).
  { apply L. eapply Forall_impl; [|exact Hr]. intros ? [? _]. done. }
  assert (vlen (concat (map enc_reg (initial_regs e))) <= 16 * vlen (initial_regs e)).
  { apply C. apply Forall_forall. intros [i v] _. unfold enc_reg, vlen. cbn [fst snd].
    rewrite !length_app, length_replicate, length_to_le_bytes. cbn [length]. lia. }
  autorewrite with vlen. lia.
Qed.

Lemma to_bytes_fits b :
  blob_wf b -> page_sum (regions b) < 2 ^ 32 -> validate b = Ok tt -> fits [] (to_bytes b).
Proof.
  intros W Hs V. pose proof (valid_pages b W Hs V) as Hp. apply validate_ok in V as (Hc & _ & Hro & Hrw & _).
  destruct W as [_ [] _ _ Hsorted He]. unfold fits, to_bytes. cbv zeta. cbn [map concat].
  assert (vlen (endpoints b) <= 256) as Hn.
  { apply (bt_length 0 _ Hsorted). eapply Forall_impl; [|exact He]. intros ? [? _]. done. }
  assert (vlen (concat (map enc_endpoint (endpoints b))) <= (12 + 16 * 256) * vlen (endpoints b)) as Hl.
  { apply concat_length. eapply Forall_impl; [|exact He]. intros kv [_ ?]. by apply enc_endpoint_length. }
  assert (forall n (d : list Z), vlen (take n d) <= vlen d) as Ht by (intros; unfold vlen; rewrite length_take; lia).
  pose proof (Ht (trimmed_len (ro_data b)) (ro_data b)). pose proof (Ht (trimmed_len (rw_data b)) (rw_data b)).
  autorewrite with vlen. change (vlen MAGIC) with 4.
  unfold MAX_CODE_SIZE, DATA_BASE, CODE_BASE, ABI_PAGE_SIZE, page_sum, is_u in *. lia.
Qed.

(** Reading a whole encoded blob, field by field. *)
Lemma read_blob_at b :
  blob_wf b -> validate b = Ok tt -> page_sum (regions b) < 2 ^ 32 ->
  Forall (fun kv => vlen (initial_regs (snd kv)) <= 255) (endpoints b) ->
  read_blob (mkReader (to_bytes b) 0) = Ok (b, mkReader (to_bytes b) (vlen (to_bytes b))).
Proof.
  intros W V Hs H255. pose proof (to_bytes_fits b W Hs V) as Hf. change (mkReader (to_bytes b) 0) with (reader_at [] (to_bytes b)).
  assert (mkReader (to_bytes b) (vlen (to_bytes b)) = reader_at (to_bytes b) []) as ->
    by (unfold reader_at; by rewrite app_nil_r).
  pose proof (valid_pages b W Hs V) as Hp. apply validate_ok in V as (Hc & _ & Hro & Hrw & _).
  assert (vlen (endpoints b) <= 256) as Hn.
  { apply (bt_length 0 _ (bw_sorted b W)). eapply Forall_impl; [|exact (bw_eps b W)]. intros ? [? _]. done. }
  pose proof (trimmed_len_le (ro_data b)). pose proof (trimmed_len_le (rw_data b)).
  destruct W as [_ [] _ _ Hsorted He].
  assert (is_u 16 VERSION /\ is_u 16 0) as [? ?] by (unfold is_u, VERSION; lia).
  assert (is_u 32 (vlen (code b)) /\ is_u 32 (Z.of_nat (trimmed_len (ro_data b))) /\
    is_u 32 (Z.of_nat (trimmed_len (rw_data b))) /\ is_u 32 (vlen (endpoints b))) as (? & ? & ? & ?).
  { unfold MAX_CODE_SIZE, DATA_BASE, CODE_BASE, ABI_PAGE_SIZE, page_sum, is_u, vlen in *. lia. }
  unfold to_bytes in *. cbv zeta in *. cbn [map concat] in *. rewrite <- !app_assoc in *. cbn [app] in Hf |- *.
  unfold read_blob. change 4 with (vlen MAGIC). read_field. rewrite bool_decide_true by done. cbn [negb].
  read_field. rewrite Z.eqb_refl. cbn [negb]. read_field. cbn [Z.eqb negb]. do 8 read_field.
  unfold vlen at 1. rewrite Nat2Z.id, read_endpoints_at; [|done| |solve_fits].
  2: { apply Forall_forall. intros kv Hin. rewrite Forall_forall in He, H255.
       destruct (He kv Hin). specialize (H255 kv Hin). done. }
  cbn [result_bind app]. read_field. rewrite read_region_at by (done || solve_fits). cbn [result_bind].
  rewrite <- (app_nil_r (take (trimmed_len (rw_data b)) (rw_data b))).
  rewrite read_region_at by (done || solve_fits). cbn [result_bind].
  rewrite app_nil_r, <- !app_assoc. by destruct b as [? [] ? ? ?].
Qed.

(** C38: encoding then decoding a program blob gives the blob back, for every
    valid blob whose endpoints each override at most 255 registers and whose
    page counts do not overflow [u32] when added up. Trimming the trailing
    zeros of the two data regions loses nothing. *)
Theorem from_bytes_to_bytes b :
  blob_wf b -> validate b = Ok tt -> page_sum (regions b) < 2 ^ 32 ->
  Forall (fun kv => vlen (initial_regs (snd kv)) <= 255) (endpoints b) ->
  from_bytes (to_bytes b) = Ok b.
Proof.
  intros W V Hs H255. unfold from_bytes. rewrite read_blob_at by done. cbn [result_bind pos].
  by rewrite Z.eqb_refl, V.
Qed.

(** ** A small logic of readers

    [reads f P]: whenever [f] succeeds it stays inside the same buffer, its
    result satisfies [P], and it does the same thing on any extension of the
    buffer. *)

Definition reader_ok (r : Reader) : Prop := Forall (is_u 8) (buf r) /\ 0 <= pos r.

Definition extend (s : list Z) (r : Reader) : Reader := mkReader (buf r ++ s) (pos r).

Definition reads {A} (f : Reader -> Read A) (P : A -> Prop) : Prop :=
  forall r a r', reader_ok r -> f r = Ok (a, r') ->
    reader_ok r' /\ buf r' = buf r /\ P a /\ forall s, f (extend s r) = Ok (a, extend s r').

Lemma reads_ret {A} (a : A) (P : A -> Prop) : P a -> reads (fun r => Ok (a, r)) P.
Proof. intros HP r b r' OK [= <- <-]. done. Qed.

Lemma reads_bind {A B} (f : Reader -> Read A) (g : A -> Reader -> Read B) (P : A -> Prop) (Q : B -> Prop) :
  reads f P -> (forall a, P a -> reads (g a) Q) ->
  reads (fun r => let? (a, r) := f r in g a r) Q.
Proof.
  intros Hf Hg r b r' OK E. destruct (f r) as [[a r1]|] eqn:Ef; [|done]. cbn [result_bind] in E.
  destruct (Hf _ _ _ OK Ef) as (OK1 & B1 & Pa & X1).
  destruct (Hg a Pa _ _ _ OK1 E) as (OK2 & B2 & Qb & X2).
  split_and!; [done|congruence|done|]. intros s. rewrite X1. cbn [result_bind]. apply X2.
Qed.

Lemma reads_guard {A} (c : bool) e (f : Reader -> Read A) (P : A -> Prop) :
  (c = false -> reads f P) -> reads (fun r => if c then Err e else f r) P.
Proof. intros Hf r a r' OK E. destruct c; [done|]. by apply Hf. Qed.

Lemma reads_take n : 0 <= n -> reads (fun r => r_take r n) (fun x => vlen x = n /\ Forall (is_u 8) x).
Proof.
  intros Hn r x r' [F Hp]. unfold r_take, checked_add.
  destruct (Z.ltb_spec (pos r + n) (2 ^ 64)); [|done].
  destruct (Z.ltb_spec (vlen (buf r)) (pos r + n)) as [|Hl]; [done|]. intros [= <- <-].
  cbn [buf pos extend]. split; [split; [done|cbn; lia]|]. split; [done|]. split.
  - split; [|by apply Forall_take, Forall_drop]. unfold vlen in *. rewrite length_take, length_drop. lia.
  - intros s. pose proof (vlen_nonneg s). rewrite vlen_app.
    destruct (Z.ltb_spec (pos r + n) (2 ^ 64)); [|lia].
    destruct (Z.ltb_spec (vlen (buf r) + vlen s) (pos r + n)); [lia|].
    unfold vlen in *. rewrite drop_app_le, take_app_le by (rewrite ?length_drop; lia). done.
Qed.

Lemma reads_weaken {A} (f : Reader -> Read A) (P Q : A -> Prop) :
  (forall a, P a -> Q a) -> reads f P -> reads f Q.
Proof. intros HPQ Hf r a r' OK E. destruct (Hf _ _ _ OK E) as (? & ? & ? & ?). auto. Qed.

Lemma reads_uint n : reads (r_uint n) (is_u (8 * Z.of_nat n)).
Proof.
  unfold r_uint. eapply reads_bind; [apply reads_take; lia|]. intros x [Hl F]. apply reads_ret.
  replace n with (length x) by (unfold vlen in Hl; lia). by apply from_le_bytes_range.
Qed.

Lemma reads_u8 : reads r_u8 (is_u 8).
Proof. apply (reads_uint 1). Qed.
Lemma reads_u16 : reads r_u16 (is_u 16).
Proof. apply (reads_uint 2). Qed.
Lemma reads_u32 : reads r_u32 (is_u 32).
Proof. apply (reads_uint 4). Qed.
Lemma reads_u64 : reads r_u64 (is_u 64).
Proof. apply (reads_uint 8). Qed.

Create HintDb reads.
#[export] Hint Resolve reads_u8 reads_u16 reads_u32 reads_u64 : reads.

Ltac reads_step := eapply reads_bind; [eauto with reads|]; intros.

Lemma reads_regs count m :
  bt_ok m -> Forall (fun kv => is_u 8 (fst kv) /\ is_u 64 (snd kv)) m ->
  reads (read_regs count m) (fun m' => bt_ok m' /\ Forall (fun kv => is_u 8 (fst kv) /\ is_u 64 (snd kv)) m').
Proof.
  revert m. induction count as [|count IH]; intros m S F; cbn [read_regs]; [by apply reads_ret|].
  reads_step. eapply reads_bind; [apply reads_take; lia|]. intros _ _. reads_step.
  apply IH; [by apply bt_insert_ok|]. by apply bt_insert_entries.
Qed.

Lemma reads_endpoints count m :
  bt_ok m -> Forall (fun kv => is_u 8 (fst kv) /\ endpoint_wf (snd kv)) m ->
  reads (read_endpoints count m)
    (fun m' => bt_ok m' /\ Forall (fun kv => is_u 8 (fst kv) /\ endpoint_wf (snd kv)) m').
Proof.
  revert m. induction count as [|count IH]; intros m S F; cbn [read_endpoints]; [by apply reads_ret|].
  do 5 reads_step. eapply reads_bind; [apply reads_regs; repeat constructor|]. intros regs [Sr Fr].
  match goal with |- context [bt_insert ?k ?e m] =>
    pose proof (bt_insert_ok k e m S) as S';
    pose proof (bt_insert_entries (fun kv => is_u 8 (fst kv) /\ endpoint_wf (snd kv)) k e m) as F';
    destruct (bt_insert k e m) as [m' [old|]] end; [by intros ? ? ?|].
  apply IH; [done|]. by apply F'.
Qed.

Lemma reads_region len pages :
  0 <= len -> reads (fun r => read_region r len pages) (Forall (is_u 8)).
Proof.
  intros Hl. apply (reads_guard (_ <? _)). intros _. eapply reads_bind; [by apply reads_take|].
  intros x [_ F]. apply reads_ret. unfold resize. apply Forall_app_2; [by apply Forall_take|].
  apply Forall_replicate. unfold is_u. lia.
Qed.

Lemma reads_blob : reads read_blob blob_wf.
Proof.
  unfold read_blob. eapply reads_bind; [apply reads_take; lia|]. intros magic _. apply reads_guard. intros _.
  reads_step. apply reads_guard. intros _. reads_step. apply reads_guard. intros _. do 8 reads_step.
  eapply reads_bind; [apply reads_endpoints; repeat constructor|]. intros eps [Se Fe].
  unfold is_u in *. eapply reads_bind; [apply reads_take; lia|]. intros code [_ Fc].
  eapply reads_bind; [apply reads_region; lia|]. intros ro Fro.
  eapply reads_bind; [apply reads_region; lia|]. intros rw Frw.
  apply reads_ret. done.
Qed.

(** ** The memory image *)

Lemma splice_nil l a : splice l a [] = l.
Proof. unfold splice. rewrite Nat.add_0_r. cbn [app]. apply take_drop. Qed.

Lemma place_skip b image next k n l :
  0 <= next -> 0 <= n -> next + n < 2 ^ 32 -> region_data b k = None ->
  fill_image b image (place next ((k, n) :: l)) = fill_image b image (place (next + n) l).
Proof.
  intros H0 Hn Hlt Hk. cbn [place]. destruct (Z.eqb_spec n 0) as [->|]; [by rewrite Z.add_0_r|].
  cbn [fill_image kind]. rewrite Hk. unfold wrapping_add. by rewrite wrap_small by (unfold is_u; lia).
Qed.

Lemma place_fill b image next k n l data :
  0x10000 <= next -> 0 <= n -> next + n < 2 ^ 32 ->
  region_data b k = Some data -> vlen data = n * ABI_PAGE_SIZE ->
  next * ABI_PAGE_SIZE - DATA_BASE + vlen data <= vlen image ->
  fill_image b image (place next ((k, n) :: l)) =
  fill_image b (splice image (Z.to_nat (next * ABI_PAGE_SIZE - DATA_BASE)) data) (place (next + n) l).
Proof.
  intros H0 Hn Hlt Hk Hd Hi. unfold DATA_BASE, ABI_PAGE_SIZE in *. cbn [place]. destruct (Z.eqb_spec n 0) as [->|].
  - assert (data = []) as -> by (apply length_zero_iff_nil; unfold vlen in Hd; lia).
    by rewrite splice_nil, Z.add_0_r.
  - cbn [fill_image kind]. rewrite Hk. unfold wrapping_add, wrapping_sub, region_start.
    cbn [base_page]. unfold ABI_PAGE_SIZE, DATA_BASE.
    rewrite !wrap_small by (unfold is_u; lia).
    destruct (Z.leb_spec (next * 4096 - 0x10000000 + vlen data) (vlen image)); [done|lia].
Qed.

Lemma splice_zeros x k a bs :
  length x = a -> (length bs <= k)%nat ->
  splice (x ++ replicate k 0) a bs = x ++ bs ++ replicate (k - length bs) 0.
Proof.
  intros <- Hk. unfold splice. rewrite take_app_length, drop_app_ge by lia.
  rewrite drop_replicate. do 3 f_equal. lia.
Qed.

Lemma memory_image_spec b :
  blob_wf b -> validate b = Ok tt -> page_sum (regions b) < 2 ^ 32 ->
  memory_image b =
  Ret (replicate (Z.to_nat (stack_pages (regions b) * ABI_PAGE_SIZE)) 0 ++ ro_data b ++ rw_data b ++
       replicate (Z.to_nat (heap_pages (regions b) * ABI_PAGE_SIZE)) 0).
Proof.
  intros W V Hs. pose proof (valid_pages b W Hs V) as Hp.
  apply validate_ok in V as (_ & _ & Hro & Hrw & _). destruct W as [_ R _ _ _ _].
  unfold memory_image, regions_iter, data_extent. rewrite total_pages_exact by done.
  destruct R. unfold is_u, page_sum in *. change (DATA_BASE / ABI_PAGE_SIZE) with 0x10000.
  set (s := stack_pages (regions b)) in *. set (h := heap_pages (regions b)) in *.
  set (o := ro_pages (regions b)) in *. set (w := rw_pages (regions b)) in *.
  assert (replicate (Z.to_nat ((s + o + w + h) * ABI_PAGE_SIZE)) 0 =
    replicate (Z.to_nat (s * ABI_PAGE_SIZE)) 0 ++
    replicate (length (ro_data b) + length (rw_data b) + Z.to_nat (h * ABI_PAGE_SIZE)) 0) as ->.
  { rewrite <- replicate_add. f_equal. unfold vlen, ABI_PAGE_SIZE in *. lia. }
  rewrite place_skip by (done || lia).
  rewrite (place_fill _ _ _ _ _ _ (ro_data b)) by (done || unfold vlen, DATA_BASE, ABI_PAGE_SIZE in *;
    rewrite ?length_app, ?length_replicate; lia).
  rewrite splice_zeros by (rewrite ?length_replicate; unfold DATA_BASE, ABI_PAGE_SIZE; lia).
  rewrite app_assoc. rewrite (place_fill _ _ _ _ _ _ (rw_data b)) by (done || unfold vlen, DATA_BASE, ABI_PAGE_SIZE in *;
    rewrite ?length_app, ?length_replicate; lia).
  rewrite splice_zeros by (rewrite ?length_app, ?length_replicate; unfold vlen, DATA_BASE, ABI_PAGE_SIZE in *; lia).
  rewrite place_skip by (done || lia). cbn [place fill_image]. rewrite <- !app_assoc.
  do 5 f_equal. lia.
Qed.

(** The memory image of a valid blob whose page counts do not overflow is
    exactly the four regions in address order: zeros for the stack, the
    read-only bytes, the read-write bytes, zeros for the heap. Building it
    never panics. *)
Theorem memory_image_exact b :
  blob_wf b -> validate b = Ok tt -> page_sum (regions b) < 2 ^ 32 ->
  memory_image b =
  Ret (replicate (Z.to_nat (stack_pages (regions b) * ABI_PAGE_SIZE)) 0 ++ ro_data b ++ rw_data b ++
       replicate (Z.to_nat (heap_pages (regions b) * ABI_PAGE_SIZE)) 0).
Proof. apply memory_image_spec. Qed.

(** ** What decoding accepts *)

Lemma reader_start bytes : Forall (is_u 8) bytes -> reader_ok (mkReader bytes 0).
Proof. by split. Qed.

(** Whatever the bytes, a blob that decodes is well typed (ordered [u8]
    maps, bytes in range) and passes [validate]. *)
Theorem from_bytes_sound bytes b :
  Forall (is_u 8) bytes -> from_bytes bytes = Ok b -> blob_wf b /\ validate b = Ok tt.
Proof.
  unfold from_bytes. intros F. destruct (read_blob (mkReader bytes 0)) as [[b' r]|] eqn:E; [|done].
  cbn [result_bind]. destruct (negb _); [done|]. destruct (validate b') as [[]|] eqn:V; [|done].
  intros [= <-]. split; [|done]. by destruct (reads_blob _ _ _ (reader_start _ F) E) as (_ & _ & W & _).
Qed.

(** The encoding is self-delimiting. If some bytes decode, then the same
    bytes with anything appended are refused with the exact number of trailing
    bytes; so no proper prefix of a decodable file decodes either, and a
    truncated or concatenated write is always noticed. *)
Theorem from_bytes_prefix_free bytes b s :
  Forall (is_u 8) bytes -> from_bytes bytes = Ok b -> s <> [] ->
  from_bytes (bytes ++ s) = Err (TrailingBytes (vlen s)).
Proof.
  unfold from_bytes. intros F E Hs.
  destruct (read_blob (mkReader bytes 0)) as [[b' r]|] eqn:Er; [|done]. cbn [result_bind] in E.
  destruct (Z.eqb_spec (pos r) (vlen bytes)) as [Hp|]; [|done].
  destruct (reads_blob _ _ _ (reader_start _ F) Er) as (_ & _ & _ & X). specialize (X s).
  unfold extend in X. cbn [buf pos] in X. rewrite X. cbn [result_bind pos]. rewrite Hp, vlen_app.
  destruct s as [|x s]; [done|]. rewrite vlen_cons. pose proof (vlen_nonneg s).
  destruct (Z.eqb_spec (vlen bytes) (vlen bytes + (1 + vlen s))); [lia|]. cbn [negb]. do 2 f_equal. lia.
Qed.

(** ** Examples *)

(** A program with a stack, one page of read-only data and two endpoints. *)
Definition sample_blob : ProgramBlob :=
  mkBlob [0x93; 0x02; 0x70; 0x00] (mkRegions 1 1 0 2) (resize [0xAB; 0; 0xCD] 4096 0) []
    [(0, mkEndpoint 0 1 2 [(1, 0x10001000); (7, 5)]); (255, mkEndpoint 2 0 0 [])].

Lemma sample_blob_wf : blob_wf sample_blob.
Proof.
  split; cbn [sample_blob code regions ro_data rw_data endpoints].
  - by repeat constructor.
  - by split.
  - unfold resize. apply Forall_app_2; [by repeat constructor|]. by apply Forall_replicate.
  - constructor.
  - repeat constructor.
  - repeat constructor; cbn; done.
Qed.

Lemma from_bytes_to_bytes_witness :
  length (to_bytes sample_blob) = 103%nat /\ from_bytes (to_bytes sample_blob) = Ok sample_blob.
Proof.
  split; [vm_compute; reflexivity|]. apply (from_bytes_to_bytes sample_blob).
  - exact sample_blob_wf.
  - vm_compute. reflexivity.
  - vm_compute. reflexivity.
  - repeat constructor; vm_compute; discriminate.
Defined.

Lemma from_bytes_sound_witness :
  Forall (is_u 8) (to_bytes sample_blob) /\ blob_wf sample_blob /\ validate sample_blob = Ok tt.
Proof.
  assert (Forall (is_u 8) (to_bytes sample_blob)) as F by (vm_compute; by repeat constructor).
  split; [exact F|]. apply (from_bytes_sound (to_bytes sample_blob) sample_blob F). vm_compute. reflexivity.
Defined.

Lemma from_bytes_prefix_free_witness :
  from_bytes (to_bytes sample_blob ++ [0; 0; 7]) = Err (TrailingBytes 3).
Proof.
  apply (from_bytes_prefix_free (to_bytes sample_blob) sample_blob [0; 0; 7]).
  - vm_compute. by repeat constructor.
  - vm_compute. reflexivity.
  - discriminate.
Defined.

Lemma memory_image_exact_witness :
  memory_image sample_blob =
  Ret (replicate (Z.to_nat (stack_pages (regions sample_blob) * ABI_PAGE_SIZE)) 0 ++
       ro_data sample_blob ++ rw_data sample_blob ++
       replicate (Z.to_nat (heap_pages (regions sample_blob) * ABI_PAGE_SIZE)) 0).
Proof.
  apply (memory_image_exact sample_blob sample_blob_wf); vm_compute; reflexivity.
Defined.

(** ** Where the encoding and the validation fall short *)

(** One endpoint overriding all 256 registers an index byte can name. *)
Definition full_blob : ProgramBlob :=
  mkBlob [] (mkRegions 1 0 0 0) [] []
    [(0, mkEndpoint 0 0 0 (map (fun i => (Z.of_nat i, 0)) (seq 0 256)))].

Lemma zero_regs_ok a n :
  bt_ok (map (fun i => (Z.of_nat i, 0)) (seq a n)) /\
  Forall (fun kv => Z.of_nat a <= fst kv < Z.of_nat (a + n) /\ snd kv = 0) (map (fun i => (Z.of_nat i, 0)) (seq a n)).
Proof.
  unfold bt_ok. revert a. induction n as [|n IH]; intros a; cbn [seq map]; [repeat constructor|].
  destruct (IH (S a)) as [S F]. split.
  - constructor; [done|]. apply keys_Forall. eapply Forall_impl; [|exact F]. cbn [fst]. lia.
  - constructor; [cbn [fst snd]; lia|]. eapply Forall_impl; [|exact F]. cbn [fst snd]. lia.
Qed.

(** The 255-register limit of the round trip is needed. A well-typed blob
    that [validate] accepts, with an endpoint overriding 256 registers, encodes
    its register count as 0 and does not decode. *)
Theorem to_bytes_loses_256_registers :
  blob_wf full_blob /\ validate full_blob = Ok tt /\
  from_bytes (to_bytes full_blob) = Err (TrailingBytes 4096).
Proof.
  split; [|split; vm_compute; reflexivity]. split; cbn [full_blob code regions ro_data rw_data endpoints].
  - constructor.
  - by split.
  - constructor.
  - constructor.
  - repeat constructor.
  - constructor; [|constructor]. split; [done|]. split; try done; cbn [snd initial_regs].
    + apply zero_regs_ok.
    + eapply Forall_impl; [|apply zero_regs_ok]. intros [k v]. unfold is_u. cbn [fst snd]. lia.
Qed.

(** Page counts whose [u32] sum wraps around to one page. *)
Definition wrapping_blob : ProgramBlob :=
  mkBlob [] (mkRegions (2 ^ 32 - 1) 0 0 2) [] [] [(0, mkEndpoint 0 0 0 [])].

(** Without overflow checks [validate] accepts a blob whose regions do not
    fit the 4 GiB guest space: [total_pages] adds in [u32] and wraps. *)
Theorem validate_page_count_wraps :
  blob_wf wrapping_blob /\ validate wrapping_blob = Ok tt /\
  total_pages (regions wrapping_blob) = 1 /\
  ADDRESS_SPACE_END < DATA_BASE + page_sum (regions wrapping_blob) * ABI_PAGE_SIZE.
Proof.
  split; [|split; [|split]; vm_compute; reflexivity].
  split; cbn [wrapping_blob code regions ro_data rw_data endpoints]; try constructor; try done.
  - by repeat constructor.
  - repeat constructor; cbn; done.
Qed.
