(* ===== verification/Local.v ===== *)
(** * The in-process backend

    Models [nub/nub-arch-local/src]: lowering a program blob to a program
    specification ([program.rs]), building its address space and predecoding
    its code, and one invocation of the interpreter ([lib.rs]), with
    [InvocationResult] of [nub/nub-arch-x86-abi/src/lib.rs]. *)

From S2P Require Import Prelude MachineInt Engine GasConst Mat Instruction GasCost Predecode Mem Interp.
From S2P Require Import InstructionFacts GasSim InterpFacts InterpSafety InterpProtect.
From S2P Require Import BTreeMap Program.

Definition SCRATCHPAD_HEAD_LEN : nat := 128.

Record InvocationResult := mkInvocationResult {
  exit_reason : Z;
  exit_arg : Z;
  return_value : Z;
  gas_remaining : Z;
  scratchpad_head : list Z }.

(** ** lib.rs: specifications and instances *)

Record RoOverlay := mkRoOverlay { ov_start : Z; ov_image_off : Z; ov_len : Z }.

Record ProgramSpec := mkProgramSpec {
  spec_code_base : Z;
  spec_code : list Z;
  spec_data_base : Z;
  spec_mem_image : list Z;
  spec_ro_overlays : list RoOverlay;
  spec_declared_mem_size : Z;
  spec_regs : Regs }.

Record ProgramInstance := mkInstance {
  inst_mem : CopyingMemory;
  inst_predecode : Predecode;
  inst_code : list Z;
  inst_code_base : Z;
  inst_data_base : Z;
  inst_regs : Regs }.

Definition page_round_up_u64 (n : Z) : Z := div_ceil n PAGE_SIZE * PAGE_SIZE.

(** [map_region(..).expect(..)] *)
Definition map_expect (m : CopyingMemory) (start size : Z) (access : Access) (init : option (list Z))
    : Res CopyingMemory :=
  let! (m, r) := cm_map_region m start size access init in
  let! _ := expect_ok r in Ret m.

Definition overlay (m : CopyingMemory) (start : Z) (data : list Z) (access : Access) : Res CopyingMemory :=
  match data with
  | [] => Ret m
  | _ => map_expect m start (page_round_up_u64 (vlen data)) access (Some data)
  end.

(** [&v[from .. from + len]] *)
Definition slice (v : list Z) (from len : Z) : Res (list Z) :=
  if from + len <=? vlen v then Ret (take (Z.to_nat len) (drop (Z.to_nat from) v)) else Abort.

Fixpoint lay_overlays (m : CopyingMemory) (image : list Z) (os : list RoOverlay) : Res CopyingMemory :=
  match os with
  | [] => Ret m
  | o :: os' =>
      let! data := slice image (ov_image_off o) (ov_len o) in
      let! m := overlay m (ov_start o) data ReadOnly in
      lay_overlays m image os'
  end.

(** [CopyingMemory::new()] with its [base] field set. *)
Definition mem_at (b : Z) : CopyingMemory := mkMem b [] [] [] 0 0 0 0 0.

(** [if !spec.mem_image.is_empty() { mem.map_region(..).expect(..) }] *)
Definition map_image (m : CopyingMemory) (data_base : Z) (image : list Z) : Res CopyingMemory :=
  match image with
  | [] => Ret m
  | _ => map_expect m data_base (vlen image) ReadWrite (Some image)
  end.

Definition instance_new (spec : ProgramSpec) : Res ProgramInstance :=
  let m := mem_at (spec_data_base spec) in
  let! m := map_image m (spec_data_base spec) (spec_mem_image spec) in
  let! m := lay_overlays m (spec_mem_image spec) (spec_ro_overlays spec) in
  let m := set_code_region m (spec_code_base spec) (wrap 32 (vlen (spec_code spec))) in
  let mem_cycles :=
    mem_cycles_for (accessible_pages (spec_declared_mem_size spec) (spec_data_base spec)) in
  Ret (mkInstance m (predecode_rv_with_mem_cycles (spec_code spec) mem_cycles) (spec_code spec)
         (spec_code_base spec) (spec_data_base spec) (spec_regs spec)).

Definition exit_code (r : ExitReason) : Z * Z :=
  match r with
  | ExitHalt => (0, 0)
  | ExitPanic => (1, 0)
  | ExitOutOfGas => (2, 0)
  | ExitPageFault addr => (3, addr)
  | ExitHostCall imm => (4, imm)
  | ExitEcall => (6, 0)
  | ExitTrap => (7, 0)
  end.

Definition head_bytes (m : CopyingMemory) (data_base : Z) : list Z :=
  map (fun i => default 0 (cm_read_u8 m (wrapping_add 32 data_base (Z.of_nat i)))) (seq 0 SCRATCHPAD_HEAD_LEN).

Section Invoke.
  Context {H : Type} `{EcallHandler H CopyingMemory}.

(** One [invoke]; [None] when the interpreter runs out of fuel. *)
Definition invoke (fuel : nat) (inst : ProgramInstance) (handler : H) (initial_gas : Z)
    : option (Res (ProgramInstance * H * InvocationResult)) :=
  let st := mkState (inst_regs inst) (inst_mem inst) (mkGas initial_gas) handler in
  match run (inst_predecode inst) (inst_code inst) (inst_code_base inst) fuel st with
  | None => None
  | Some r => Some (
      let! (st, exit) := r in
      let '(reason, arg) := exit_code exit in
      let! ret := expect (r_gpr (st_regs st) !! 7%nat) in
      Ret (mkInstance (st_mem st) (inst_predecode inst) (inst_code inst) (inst_code_base inst)
             (inst_data_base inst) (inst_regs inst), st_handler st,
           mkInvocationResult reason arg ret (remaining (st_gas st))
             (head_bytes (st_mem st) (inst_data_base inst))))
  end.

Definition set_entry_pc (inst : ProgramInstance) (pc : Z) : ProgramInstance :=
  mkInstance (inst_mem inst) (inst_predecode inst) (inst_code inst) (inst_code_base inst)
    (inst_data_base inst) (set_pc (inst_regs inst) pc).

Definition run_program (fuel : nat) (spec : ProgramSpec) (handler : H) (initial_gas : Z)
    : option (Res InvocationResult) :=
  match instance_new spec with
  | Abort => Some Abort
  | Ret inst =>
      match invoke fuel inst handler initial_gas with
      | None => None
      | Some r => Some (let! (_, _, res) := r in Ret res)
      end
  end.
End Invoke.

(** Every [ecall] and [ecalli] ends the run with its exit reason. *)
Inductive ExitingEcallHandler := exiting_handler.

#[export] Instance ExitingEcallHandler_handle M : EcallHandler ExitingEcallHandler M :=
  fun h kind regs mem =>
    match kind with
    | EcalliKind imm => (h, regs, mem, Exit (ExitHostCall imm))
    | Ecall => (h, regs, mem, Exit ExitEcall)
    end.

(** ** program.rs *)

Inductive PrepareError := NoSuchEndpoint (i : Z).

Record PreparedProgram := mkPrepared {
  pp_code : list Z;
  pp_mem_image : list Z;
  pp_ro_overlays : list RoOverlay;
  pp_declared_mem_size : Z;
  pp_regs : Regs }.

(** [if let Some(slot) = regs.gpr.get_mut(idx as usize) { *slot = value }] *)
Definition seed_regs (regs : Regs) (l : BTreeMap Z) : Regs :=
  fold_left (fun regs kv => regs_write regs (Z.to_nat (fst kv)) (snd kv)) l regs.

(** [regs.gpr[7 + i] = *v], which the four-element [args] keeps in range. *)
Definition seed_args (regs : Regs) (args : list Z) : Regs :=
  mkRegs (splice (r_gpr regs) 7 args) (r_pc regs).

Definition ro_overlay_of (r : Region) : RoOverlay :=
  mkRoOverlay (wrap 32 (region_start r)) (wrapping_sub 64 (region_start r) DATA_BASE) (region_size r).

Definition prepare (blob : ProgramBlob) (endpoint : Z) (args : list Z)
    : Res (Result PreparedProgram PrepareError) :=
  match bt_get endpoint (endpoints blob) with
  | None => Ret (Err (NoSuchEndpoint endpoint))
  | Some ep =>
      let! mem_image := memory_image blob in
      let ro_overlays :=
        map ro_overlay_of (List.filter (fun r => is_read_only (kind r)) (regions_iter (regions blob))) in
      let regs := seed_regs (set_pc regs_new (entry_pc ep)) (initial_regs ep) in
      let regs := seed_args regs args in
      Ret (Ok (mkPrepared (code blob) mem_image ro_overlays
                 (wrapping_add 32 DATA_BASE (wrap 32 (data_extent (regions blob)))) regs))
  end.

Definition spec_of (p : PreparedProgram) : ProgramSpec :=
  mkProgramSpec CODE_BASE (pp_code p) DATA_BASE (pp_mem_image p) (pp_ro_overlays p)
    (pp_declared_mem_size p) (pp_regs p).

Definition run_blob (fuel : nat) (blob : ProgramBlob) (endpoint : Z) (args : list Z) (initial_gas : Z)
    : option (Res (Result InvocationResult PrepareError)) :=
  match prepare blob endpoint args with
  | Abort => Some Abort
  | Ret (Err e) => Some (Ret (Err e))
  | Ret (Ok prepared) =>
      match run_program fuel (spec_of prepared) exiting_handler initial_gas with
      | None => None
      | Some r => Some (let! res := r in Ret (Ok res))
      end
  end.

(** ** Preparing a blob *)

Lemma ro_regions r :
  regions_wf r -> page_sum r <= 0xF0000 ->
  List.filter (fun x => is_read_only (kind x)) (regions_iter r) =
  if ro_pages r =? 0 then [] else [mkRegion Ro (0x10000 + stack_pages r) (ro_pages r)].
Proof.
  intros [] Hs. unfold regions_iter, page_sum, is_u in *. change (DATA_BASE / ABI_PAGE_SIZE) with 0x10000.
  cbn [place]. unfold wrapping_add.
  rewrite (wrap_small 32 (0x10000 + stack_pages r)) by (unfold is_u; lia).
  destruct (Z.eqb_spec (stack_pages r) 0) as [E|]; destruct (ro_pages r =? 0), (rw_pages r =? 0),
    (heap_pages r =? 0); cbn [List.filter kind is_read_only]; rewrite ?E, ?Z.add_0_r; done.
Qed.

Lemma regs_write_all_ok l r :
  regs_ok r -> Forall (fun kv => is_u 8 (fst kv) /\ is_u 64 (snd kv)) l -> regs_ok (seed_regs r l).
Proof.
  unfold seed_regs. revert r. induction l as [|[i v] l IH]; intros r Hr F; [done|].
  inversion F as [|? ? [_ Hv] F']; subst. cbn [fold_left]. apply IH; [|done]. by apply regs_write_ok.
Qed.

Lemma seed_args_ok r args :
  regs_ok r -> length args = 4%nat -> Forall (is_u 64) args -> regs_ok (seed_args r args).
Proof.
  intros (Hl & Hf & Hp) La Fa. unfold seed_args. split; [|split; [|done]]; cbn [r_gpr].
  - rewrite length_splice; rewrite ?Hl, ?La; [done|]. unfold REG_COUNT. lia.
  - unfold splice. by auto using Forall_app_2, Forall_take, Forall_drop.
Qed.

(** ** Mapping the image *)

Lemma page_size_eq : PAGE_SIZE = ABI_PAGE_SIZE.
Proof. done. Qed.

Lemma mem_at_ok b : is_u 32 b -> mem_ok (mem_at b).
Proof. intros Hb. by split. Qed.

Lemma list_replicate_eq {A} (l : list A) n x :
  length l = n -> (forall i, (i < n)%nat -> l !! i = Some x) -> l = replicate n x.
Proof.
  intros L P. apply list_eq. intros i. destruct (Nat.lt_ge_cases i n).
  - rewrite P by done. symmetry. by apply lookup_replicate_2.
  - rewrite !lookup_ge_None_2; [done|rewrite length_replicate; lia|lia].
Qed.

(** The flat data memory: every page mapped read-write but [o] read-only pages
    after the first [s], no page materialised. *)
Definition data_memory (b : Z) (image : list Z) (s o t : Z) : CopyingMemory :=
  mkMem b image
    (replicate (Z.to_nat s) perm_RW ++ replicate (Z.to_nat o) perm_RO ++ replicate (Z.to_nat t) perm_RW)
    (replicate (Z.to_nat (s + o + t)) 0) 0 0 0 0 0.

Lemma init_bytes_all bs : init_bytes (vlen bs) (Some bs) = bs.
Proof. unfold init_bytes, vlen. rewrite Z.min_id, Nat2Z.id. by apply take_ge. Qed.

(** Copying a slice of the image over itself changes nothing. *)
Lemma splice_same l a n : (a + n <= length l)%nat -> splice l a (take n (drop a l)) = l.
Proof.
  intros Hn. unfold splice. rewrite length_take, length_drop, Nat.min_l by lia.
  rewrite <- drop_drop, take_drop. apply take_drop.
Qed.

Lemma map_base b image n :
  is_u 32 b -> b mod 4096 = 0 -> 0 <= n <= 2 ^ 20 -> vlen image = n * 4096 ->
  map_expect (mem_at b) b (vlen image) ReadWrite (Some image) = Ret (data_memory b image 0 0 n).
Proof.
  intros Hb Ha Hn L. change 4096 with PAGE_SIZE in Ha, L.
  destruct (map_region_result (mem_at b) b (vlen image) ReadWrite (Some image) (mem_at_ok b Hb) Ha Ha)
    as (p & Lp & Pp & E).
  - rewrite L. apply Z.mod_mul. done.
  - cbn. lia.
  - apply vlen_nonneg.
  - cbn [mem_at base]. rewrite L. change PAGE_SIZE with 4096. lia.
  - unfold map_expect. rewrite E. cbn [res_bind expect_ok]. unfold data_memory.
    cbn [mem_at base perms flat_mem mat_state Mem.code_base code_top heap_base heap_top max_heap_pages] in *.
    rewrite Z.sub_diag in *. rewrite Z.add_0_l in *.
    replace (vlen image / PAGE_SIZE) with n in * by (rewrite L; symmetry; by apply Z.div_mul).
    do 2 f_equal.
    + rewrite init_bytes_all. unfold splice. cbn [take app]. rewrite drop_ge; [apply app_nil_r|].
      rewrite length_grow. unfold vlen. cbn [length]. lia.
    + cbn [Z.to_nat replicate app]. apply list_replicate_eq; [cbn [length] in Lp; lia|]. intros i Hi. rewrite Pp.
      change (0 / PAGE_SIZE) with 0. by rewrite bool_decide_true by lia.
    + unfold grow. cbn [length app PageState_as_u8]. by rewrite Nat.sub_0_r.
Qed.

Lemma data_memory_perms b image s o t :
  0 <= s -> 0 <= o -> 0 <= t -> length (perms (data_memory b image s o t)) = Z.to_nat (s + o + t).
Proof.
  intros. cbn [data_memory perms]. rewrite !length_app, !length_replicate. lia.
Qed.

Lemma data_memory_ok b image s o t :
  is_u 32 b -> Forall (is_u 8) image -> 0 <= s -> 0 <= o -> 0 <= t -> vlen image = (s + o + t) * 4096 ->
  s + o + t <= 2 ^ 20 -> mem_ok (data_memory b image s o t).
Proof.
  intros Hb F ? ? ? L Hn. pose proof (data_memory_perms b image s o t ltac:(done) ltac:(done) ltac:(done)) as Lp.
  split; [done|done| | |].
  - rewrite Lp. unfold flat_len. cbn [data_memory flat_mem]. fold (vlen image). change PAGE_SIZE with 4096. lia.
  - rewrite Lp. cbn [data_memory mat_state]. apply length_replicate.
  - rewrite Lp. lia.
Qed.

Lemma data_memory_lookup b image s o t i :
  0 <= s -> 0 <= o -> 0 <= t ->
  perms (data_memory b image s o t) !! i =
    if bool_decide (i < Z.to_nat (s + o + t))%nat
    then Some (if bool_decide (Z.to_nat s <= i < Z.to_nat (s + o))%nat then perm_RO else perm_RW)
    else None.
Proof.
  intros. case_bool_decide as Hi; [|apply lookup_ge_None_2; rewrite data_memory_perms by done; lia].
  cbn [data_memory perms]. destruct (Nat.lt_ge_cases i (Z.to_nat s)).
  { rewrite lookup_app_l, lookup_replicate_2 by (rewrite ?length_replicate; lia).
    by rewrite bool_decide_false by lia. }
  rewrite lookup_app_r, length_replicate by (rewrite length_replicate; lia).
  destruct (Nat.lt_ge_cases i (Z.to_nat (s + o))).
  - rewrite lookup_app_l, lookup_replicate_2 by (rewrite ?length_replicate; lia).
    by rewrite bool_decide_true by lia.
  - rewrite lookup_app_r, length_replicate, lookup_replicate_2 by (rewrite ?length_replicate; lia).
    by rewrite bool_decide_false by lia.
Qed.

Lemma map_overlay b image s o t :
  is_u 32 b -> b mod 4096 = 0 -> Forall (is_u 8) image -> 0 <= s -> 0 <= o -> 0 <= t ->
  vlen image = (s + o + t) * 4096 -> s + o + t <= 2 ^ 20 ->
  map_expect (data_memory b image 0 0 (s + o + t)) (b + s * 4096) (o * 4096) ReadOnly
    (Some (take (Z.to_nat (o * 4096)) (drop (Z.to_nat (s * 4096)) image))) =
  Ret (data_memory b image s o t).
Proof.
  intros Hb Ha F Hs Ho Ht L Hn. assert (mem_ok (data_memory b image 0 0 (s + o + t))) as OK
    by (apply data_memory_ok; (done || lia)).
  pose proof (data_memory_perms b image 0 0 (s + o + t) ltac:(done) ltac:(done) ltac:(lia)) as L0.
  change 4096 with PAGE_SIZE in Ha.
  destruct (map_region_result _ (b + s * 4096) (o * 4096) ReadOnly
    (Some (take (Z.to_nat (o * 4096)) (drop (Z.to_nat (s * 4096)) image))) OK Ha) as (p & Lp & Pp & E).
  1-2: change PAGE_SIZE with 4096 in *; dlia.
  1,3: cbn [data_memory base]; lia. lia.
  unfold map_expect. rewrite E. cbn [res_bind expect_ok]. rewrite L0 in Lp.
  replace (b + s * 4096 - base (data_memory b image 0 0 (s + o + t))) with (s * 4096) in * by (cbn; lia).
  change PAGE_SIZE with 4096 in *. rewrite Z.div_mul in * by done.
  replace ((s * 4096 + o * 4096) / 4096) with (s + o) in * by dlia.
  assert (p = perms (data_memory b image s o t)) as ->.
  { apply list_eq. intros i. rewrite Pp, data_memory_lookup by done.
    rewrite grow_noop by (rewrite L0; lia). rewrite data_memory_lookup by lia.
    repeat case_bool_decide; (done || lia). }
  assert (vlen (take (Z.to_nat (o * 4096)) (drop (Z.to_nat (s * 4096)) image)) = o * 4096) as Lt.
  { unfold vlen in *. rewrite length_take, length_drop. lia. }
  rewrite <- Lt at 2. rewrite init_bytes_all.
  cbn [data_memory base perms flat_mem mat_state Mem.code_base code_top heap_base heap_top max_heap_pages].
  rewrite !grow_noop by (rewrite ?length_replicate; unfold vlen in L; lia).
  rewrite splice_same by (unfold vlen in L; lia). by rewrite !Z.add_0_l.
Qed.

Lemma overlay_nonempty m start data access :
  data <> [] -> overlay m start data access = map_expect m start (page_round_up_u64 (vlen data)) access (Some data).
Proof. by destruct data. Qed.

(** ** The address space of a prepared blob *)

Section Prepared.
  Context (blob : ProgramBlob) (W : blob_wf blob) (V : validate blob = Ok tt).
  Context (Hsum : page_sum (regions blob) < 2 ^ 32).

  #[local] Abbreviation rs := (regions blob).

(** The four regions in address order. *)
Definition image_of : list Z :=
  replicate (Z.to_nat (stack_pages rs * ABI_PAGE_SIZE)) 0 ++ ro_data blob ++ rw_data blob ++
  replicate (Z.to_nat (heap_pages rs * ABI_PAGE_SIZE)) 0.

Lemma image_of_length : vlen image_of = page_sum rs * 4096.
Proof.
  pose proof (proj1 (validate_ok blob) V) as (_ & _ & Hro & Hrw & _). destruct (bw_regions blob W).
  unfold image_of, page_sum, ABI_PAGE_SIZE, is_u in *. autorewrite with vlen.
  unfold vlen in *. rewrite !length_replicate. lia.
Qed.

Lemma image_of_bytes : Forall (is_u 8) image_of.
Proof.
  destruct W. unfold image_of.
  repeat (apply Forall_app_2; [first [done|apply Forall_replicate; unfold is_u; lia]|]).
  apply Forall_replicate. unfold is_u. lia.
Qed.

Lemma pages_bound : page_sum rs <= 0xF0000.
Proof. by apply valid_pages. Qed.

Lemma map_image_spec :
  map_image (mem_at DATA_BASE) DATA_BASE image_of = Ret (data_memory DATA_BASE image_of 0 0 (page_sum rs)).
Proof.
  pose proof image_of_length as L. pose proof pages_bound. destruct (bw_regions blob W).
  unfold map_image. destruct image_of as [|x image] eqn:E.
  - assert (page_sum rs = 0) as -> by (rewrite vlen_nil in L; lia). done.
  - apply map_base; [done|done|unfold page_sum, is_u in *; lia|done].
Qed.

(** The memory [ProgramInstance::new] builds, before the code region is set. *)
Lemma lay_overlays_spec :
  lay_overlays (data_memory DATA_BASE image_of 0 0 (page_sum rs)) image_of
    (map ro_overlay_of (List.filter (fun r => is_read_only (kind r)) (regions_iter rs))) =
  Ret (data_memory DATA_BASE image_of (stack_pages rs) (ro_pages rs) (rw_pages rs + heap_pages rs)).
Proof.
  pose proof pages_bound as Hp. rewrite ro_regions by (done || apply W).
  pose proof image_of_length as L. destruct (bw_regions blob W). unfold is_u in *.
  assert (page_sum rs = stack_pages rs + ro_pages rs + (rw_pages rs + heap_pages rs)) as Es
    by (unfold page_sum; lia). rewrite Es in *.
  destruct (Z.eqb_spec (ro_pages rs) 0) as [->|Hro].
  { cbn [map lay_overlays]. unfold data_memory. change (Z.to_nat 0) with 0%nat. cbn [replicate app].
    do 2 f_equal. rewrite <- replicate_add. f_equal. lia. }
  cbn [map lay_overlays]. unfold ro_overlay_of, region_start, region_size. cbn [base_page page_count ov_start ov_image_off ov_len].
  unfold wrapping_sub, slice. change ABI_PAGE_SIZE with 4096. change DATA_BASE with (0x10000 * 4096) at 1 2.
  rewrite !wrap_small by (unfold is_u; lia).
  destruct (Z.leb_spec ((0x10000 + stack_pages rs) * 4096 - 0x10000 * 4096 + ro_pages rs * 4096) (vlen image_of));
    [|lia].
  replace ((0x10000 + stack_pages rs) * 4096 - 0x10000 * 4096) with (stack_pages rs * 4096) by lia.
  cbn [res_bind]. set (d := take _ (drop _ image_of)).
  assert (vlen d = ro_pages rs * 4096) as Ld
    by (unfold d, vlen in *; rewrite length_take, length_drop; lia).
  rewrite overlay_nonempty by (intros E; rewrite E, vlen_nil in Ld; lia).
  rewrite Ld. unfold page_round_up_u64. change PAGE_SIZE with 4096.
  replace (div_ceil (ro_pages rs * 4096) 4096 * 4096) with (ro_pages rs * 4096) by (unfold div_ceil; dlia).
  replace ((0x10000 + stack_pages rs) * 4096) with (DATA_BASE + stack_pages rs * 4096) by (unfold DATA_BASE; lia).
  unfold d. rewrite map_overlay; try done; try lia. apply image_of_bytes.
Qed.

(** ** The prepared program and its instance *)

Definition declared_size : Z := wrapping_add 32 DATA_BASE (wrap 32 (data_extent rs)).

Definition prepared_memory : CopyingMemory :=
  set_code_region
    (data_memory DATA_BASE image_of (stack_pages rs) (ro_pages rs) (rw_pages rs + heap_pages rs))
    CODE_BASE (wrap 32 (vlen (code blob))).

Lemma prepared_memory_ok : mem_ok prepared_memory.
Proof using W V Hsum.
  pose proof pages_bound. pose proof image_of_length as L. destruct (bw_regions blob W).
  unfold page_sum, is_u in *.
  destruct (data_memory_ok DATA_BASE image_of (stack_pages rs) (ro_pages rs) (rw_pages rs + heap_pages rs));
    [done|apply image_of_bytes|lia..|]. by split.
Qed.

Lemma code_fits : vlen (code blob) < 2 ^ 32.
Proof using V. pose proof (proj1 (validate_ok blob) V) as (Hc & _). unfold MAX_CODE_SIZE, DATA_BASE, CODE_BASE in Hc. lia. Qed.

  Context (endpoint : Z) (ep : Endpoint) (Hep : bt_get endpoint (endpoints blob) = Some ep).
  Context (args : list Z) (Hargs : length args = 4%nat) (Fargs : Forall (is_u 64) args).

Definition entry_regs : Regs :=
  seed_args (seed_regs (set_pc regs_new (Program.entry_pc ep)) (initial_regs ep)) args.

Definition prepared_instance : ProgramInstance :=
  mkInstance prepared_memory
    (predecode_rv_with_mem_cycles (code blob) (mem_cycles_for (accessible_pages declared_size DATA_BASE)))
    (code blob) CODE_BASE DATA_BASE entry_regs.

Lemma ep_wf : endpoint_wf ep.
Proof.
  pose proof (bw_eps blob W) as F. rewrite Forall_forall in F.
  apply (F (endpoint, ep)). by apply bt_get_In.
Qed.

Lemma entry_regs_ok : regs_ok entry_regs.
Proof.
  apply seed_args_ok; [|done|done]. destruct ep_wf. apply regs_write_all_ok; [|done].
  by apply set_pc_ok; [apply regs_new_ok|].
Qed.

Lemma prepare_spec :
  exists p, prepare blob endpoint args = Ret (Ok p) /\ instance_new (spec_of p) = Ret prepared_instance.
Proof.
  unfold prepare. rewrite Hep, memory_image_spec by done. fold image_of. cbn [res_bind].
  eexists. split; [reflexivity|]. unfold instance_new, spec_of.
  cbn [spec_code_base spec_code spec_data_base spec_mem_image spec_ro_overlays spec_declared_mem_size
       spec_regs pp_code pp_mem_image pp_ro_overlays pp_declared_mem_size pp_regs].
  rewrite map_image_spec. cbn [res_bind]. rewrite lay_overlays_spec. done.
Qed.

End Prepared.

(** ** Invocations *)

Definition instance_ok (inst : ProgramInstance) : Prop :=
  mem_ok (inst_mem inst) /\ regs_ok (inst_regs inst) /\ vlen (inst_code inst) < 2 ^ 32 /\
  exists mem_cycles, inst_predecode inst = predecode_rv_with_mem_cycles (inst_code inst) mem_cycles.

Lemma tiles_count code at_ l stop : tiles code at_ l stop -> at_ + vlen l <= stop.
Proof.
  revert at_. induction l as [|x l IH]; intros at_; cbn [tiles]; [intros <-; rewrite vlen_nil; lia|].
  intros (? & ? & _ & _ & T). rewrite vlen_cons. specialize (IH _ T). lia.
Qed.

Lemma insts_count code mem_cycles :
  vlen code < 2 ^ 32 -> vlen (insts (predecode_rv_with_mem_cycles code mem_cycles)) <= vlen code.
Proof.
  intros Hl. destruct (po_stop _ _ _ (predecode_is_ok code mem_cycles Hl)) as (stop & T & Hs).
  apply tiles_count in T. unfold vlen in *. lia.
Qed.

Lemma head_bytes_ok m b : mem_ok m -> length (head_bytes m b) = 128%nat /\ Forall (is_u 8) (head_bytes m b).
Proof.
  intros OK. unfold head_bytes. split; [by rewrite length_map, length_seq|].
  apply Forall_forall. intros v [i [<- _]]%in_map_iff.
  destruct (cm_read_u8 m _) as [u|] eqn:E; [|unfold is_u; cbn; lia]. exact (read_le_range m 1 _ u OK E).
Qed.

Section InvokeOk.
  Context {H : Type} {EH : EcallHandler H CopyingMemory} {HL : HandlerLaws H CopyingMemory}.

Lemma invoke_ok fuel inst (h : H) gas :
  instance_ok inst -> 0 <= gas -> gas * (vlen (inst_code inst) + 1) < Z.of_nat fuel ->
  exists inst' h' res, invoke fuel inst h gas = Some (Ret (inst', h', res)) /\ instance_ok inst' /\
    inst_code inst' = inst_code inst /\ inst_regs inst' = inst_regs inst /\
    0 <= gas_remaining res <= gas /\ is_u 64 (return_value res) /\
    length (scratchpad_head res) = 128%nat /\ Forall (is_u 8) (scratchpad_head res).
Proof.
  intros (Hm & Hr & Hl & mc & Hp) Hg Hf. unfold invoke. rewrite Hp.
  set (st := mkState (inst_regs inst) (inst_mem inst) (mkGas gas) h).
  destruct (run_ok _ _ mc (inst_code_base inst) Hl (predecode_is_ok (inst_code inst) mc Hl) fuel st)
    as (st' & r & -> & (Hr' & Hm' & Hg') & Hle).
  { done. }
  { cbn. pose proof (insts_count (inst_code inst) mc Hl) as C. unfold vlen in *. nia. }
  cbn [res_bind]. destruct (exit_code r) as [reason arg].
  destruct Hr' as (L & F & Hpc). destruct (lookup_lt_is_Some_2 (r_gpr (st_regs st')) 7) as [v Ev];
    [rewrite L; unfold REG_COUNT; lia|].
  rewrite Ev. cbn [expect res_bind]. eexists _, _, _. split; [reflexivity|].
  cbn [inst_mem inst_code inst_regs inst_predecode gas_remaining return_value scratchpad_head].
  pose proof (head_bytes_ok (st_mem st') (inst_data_base inst) Hm') as [? ?].
  assert (is_u 64 v) by (eapply Forall_lookup_1; [exact F|exact Ev]).
  split; [|done]. split; [done|]. split; [done|]. split; [done|]. by exists mc.
Qed.
End InvokeOk.

#[export] Instance ExitingEcallHandler_laws M `{MemoryLaws M} : HandlerLaws ExitingEcallHandler M.
Proof.
  intros h k r m h' r' m' res Hr Hm E. unfold handle, ExitingEcallHandler_handle in E.
  destruct k; by simplify_eq.
Qed.

Lemma exiting_keeps (h : ExitingEcallHandler) k regs (mem : CopyingMemory) h' regs' mem' res :
  handle h k regs mem = (h', regs', mem', res) -> keeps mem mem'.
Proof. unfold handle, ExitingEcallHandler_handle. intros E. destruct k; simplify_eq; reflexivity. Qed.

(** What is assumed of a blob and of the arguments of a run: a well-typed valid
    blob whose page counts do not overflow, and four [u64] arguments. *)
Record runnable (blob : ProgramBlob) (args : list Z) : Prop := {
  ra_wf : blob_wf blob;
  ra_valid : validate blob = Ok tt;
  ra_sum : page_sum (regions blob) < 2 ^ 32;
  ra_args : length args = 4%nat;
  ra_u64 : Forall (is_u 64) args }.

Lemma runnable_prepare blob endpoint ep args :
  runnable blob args -> bt_get endpoint (endpoints blob) = Some ep ->
  exists p, prepare blob endpoint args = Ret (Ok p) /\
    instance_new (spec_of p) = Ret (prepared_instance blob ep args) /\
    instance_ok (prepared_instance blob ep args).
Proof.
  intros [W V S La Fa] Hep. destruct (prepare_spec blob W V S endpoint ep Hep args) as (p & E & Ei).
  exists p. split; [done|]. split; [done|]. split; [by apply prepared_memory_ok|].
  split; [by eapply entry_regs_ok|]. split; [by apply code_fits|].
  by exists (mem_cycles_for (accessible_pages (declared_size blob) DATA_BASE)).
Qed.

(** ** The address space *)

(** The guest addresses of the read-only region. *)
Definition in_ro (r : Regions) (x : Z) : bool :=
  (DATA_BASE + stack_pages r * 4096 <=? x) && (x <? DATA_BASE + (stack_pages r + ro_pages r) * 4096).

Lemma prepared_perm blob x :
  blob_wf blob -> validate blob = Ok tt -> page_sum (regions blob) < 2 ^ 32 -> is_u 32 x ->
  cm_perm_of (prepared_memory blob) x =
    if (DATA_BASE <=? x) && (x <? DATA_BASE + page_sum (regions blob) * 4096)
    then if in_ro (regions blob) x then perm_RO else perm_RW
    else perm_NONE.
Proof.
  intros W V S Hx. pose proof (valid_pages blob W S V) as Hp. destruct (bw_regions blob W).
  unfold cm_perm_of. change (perms (prepared_memory blob)) with
    (perms (data_memory DATA_BASE (image_of blob) (stack_pages (regions blob)) (ro_pages (regions blob))
      (rw_pages (regions blob) + heap_pages (regions blob)))).
  rewrite data_memory_lookup by (unfold is_u in *; lia).
  unfold off, wrapping_sub. change (base (prepared_memory blob)) with DATA_BASE.
  unfold in_ro, page_sum, is_u, DATA_BASE in *. change PAGE_SIZE with 4096.
  destruct (Z.leb_spec 0x10000000 x); cbn [andb].
  - rewrite wrap_small by (unfold is_u; lia).
    destruct (Z.ltb_spec x (0x10000000 + (stack_pages (regions blob) + ro_pages (regions blob) +
      rw_pages (regions blob) + heap_pages (regions blob)) * 4096)).
    + rewrite bool_decide_true by dlia. cbn [default].
      destruct (Z.leb_spec (0x10000000 + stack_pages (regions blob) * 4096) x),
        (Z.ltb_spec x (0x10000000 + (stack_pages (regions blob) + ro_pages (regions blob)) * 4096));
        cbn [andb]; case_bool_decide; (done || dlia).
    + rewrite bool_decide_false by dlia. done.
  - replace (x - 0x10000000) with (x + 0xF0000000 + -1 * 2 ^ 32) by lia.
    unfold wrap. rewrite Z_mod_plus_full, Z.mod_small by lia. rewrite bool_decide_false by dlia. done.
Qed.

Lemma uncopied_zeros n : uncopied (replicate n 0) = Z.of_nat n.
Proof. induction n as [|n IH]; [done|]. cbn [replicate]. rewrite uncopied_cons, IH. cbn [Z.eqb PageState_as_u8]. lia. Qed.

Lemma seed_regs_pc r l : r_pc (seed_regs r l) = r_pc r.
Proof.
  unfold seed_regs. revert r. induction l as [|[i v] l IH]; intros r; [done|]. cbn [fold_left]. by rewrite IH.
Qed.

(** Lowering a valid blob builds exactly the address space its geometry
    describes, without panicking: the buffer starts at [DATA_BASE] and holds the
    stack, read-only, read-write and heap regions back to back; a guest address
    is read-only in the read-only region, read-write in the other three and
    unmapped everywhere else; no page has been copied yet; and the registers
    are well formed with the entry point as program counter. *)
Theorem prepared_address_space blob endpoint ep args :
  runnable blob args -> bt_get endpoint (endpoints blob) = Some ep ->
  exists p inst, prepare blob endpoint args = Ret (Ok p) /\ instance_new (spec_of p) = Ret inst /\
    let m := inst_mem inst in
    mem_ok m /\ base m = DATA_BASE /\ Mem.code_base m = CODE_BASE /\
    flat_mem m = replicate (Z.to_nat (stack_pages (regions blob) * ABI_PAGE_SIZE)) 0 ++ ro_data blob ++
      rw_data blob ++ replicate (Z.to_nat (heap_pages (regions blob) * ABI_PAGE_SIZE)) 0 /\
    uncopied (mat_state m) = page_sum (regions blob) /\
    regs_ok (inst_regs inst) /\ r_pc (inst_regs inst) = Program.entry_pc ep /\
    forall x, is_u 32 x ->
      cm_perm_of m x =
        if (DATA_BASE <=? x) && (x <? DATA_BASE + page_sum (regions blob) * 4096)
        then if in_ro (regions blob) x then perm_RO else perm_RW
        else perm_NONE.
Proof.
  intros R Hep. destruct (runnable_prepare blob endpoint ep args R Hep) as (p & Ep & Ei & Hm & Hr & _).
  exists p, (prepared_instance blob ep args). split; [done|]. split; [done|]. cbv zeta.
  destruct R as [W V S _ _].
  split; [done|]. split; [done|]. split; [done|]. split; [done|]. split; [|split; [done|]].
  - cbn. rewrite uncopied_zeros. unfold page_sum. destruct (bw_regions blob W). unfold is_u in *. lia.
  - split; [|intros x Hx; by apply prepared_perm]. cbn. apply seed_regs_pc.
Qed.

(** ** Running a blob *)

(** C31: running a blob is total. For every runnable blob (a valid blob, of bytes,
    whose region sizes really add up to less than [2 ^ 32] pages, which the wrapping
    sum [validate] compares does not ensure), every declared endpoint and every gas budget, [run_blob] terminates (after at most
    [gas * (code length + 1) + 1] rounds), does not panic, and reports a [u64]
    return value, at most the initial gas and a full scratchpad head of bytes;
    an undeclared endpoint is reported as such and nothing is run. *)
Theorem run_blob_total blob endpoint args gas fuel :
  runnable blob args -> is_u 64 gas -> gas * (vlen (code blob) + 1) < Z.of_nat fuel ->
  match bt_get endpoint (endpoints blob) with
  | None => run_blob fuel blob endpoint args gas = Some (Ret (Err (NoSuchEndpoint endpoint)))
  | Some _ =>
      exists res, run_blob fuel blob endpoint args gas = Some (Ret (Ok res)) /\
        0 <= gas_remaining res <= gas /\ is_u 64 (return_value res) /\
        length (scratchpad_head res) = SCRATCHPAD_HEAD_LEN /\ Forall (is_u 8) (scratchpad_head res)
  end.
Proof.
  intros R Hg Hf. unfold run_blob. destruct (bt_get endpoint (endpoints blob)) as [ep|] eqn:Hep.
  - destruct (runnable_prepare blob endpoint ep args R Hep) as (p & -> & Ei & OK).
    unfold run_program. rewrite Ei.
    destruct (invoke_ok fuel (prepared_instance blob ep args) exiting_handler gas OK) as
      (inst' & h' & res & -> & _ & _ & _ & Hrem & Hret & Hlen & Hby); [apply Hg|done|].
    exists res. done.
  - unfold prepare. by rewrite Hep.
Qed.

(** The read-only bytes inside a memory laid out for [blob]. *)
Definition ro_window (blob : ProgramBlob) (m : CopyingMemory) : list Z :=
  take (length (ro_data blob)) (drop (Z.to_nat (stack_pages (regions blob) * ABI_PAGE_SIZE)) (flat_mem m)).

Lemma ro_window_image blob : ro_window blob (prepared_memory blob) = ro_data blob.
Proof.
  unfold ro_window. change (flat_mem (prepared_memory blob)) with (image_of blob). unfold image_of.
  rewrite drop_app_ge, length_replicate, Nat.sub_diag, drop_0 by (rewrite length_replicate; lia).
  apply take_app_length.
Qed.

Lemma take_drop_lookup {A} (l l' : list A) a n :
  (forall i, (a <= i < a + n)%nat -> l !! i = l' !! i) -> take n (drop a l) = take n (drop a l').
Proof.
  intros P. apply list_eq. intros i. destruct (Nat.lt_ge_cases i n).
  - rewrite !lookup_take_lt, !lookup_drop by done. apply P. lia.
  - by rewrite !lookup_take_ge.
Qed.

Lemma keeps_ro_window blob m m' :
  blob_wf blob -> validate blob = Ok tt -> page_sum (regions blob) < 2 ^ 32 ->
  perms m = perms (prepared_memory blob) -> keeps m m' -> ro_window blob m' = ro_window blob m.
Proof.
  intros W V S Hp K. apply take_drop_lookup. intros i Hi. rewrite <- (Nat2Z.id i).
  apply (k_bytes _ _ K); [lia|]. unfold page_perm. rewrite Hp.
  apply validate_ok in V as (_ & _ & Hro & _). destruct (bw_regions blob W).
  change (perms (prepared_memory blob)) with
    (perms (data_memory DATA_BASE (image_of blob) (stack_pages (regions blob)) (ro_pages (regions blob))
      (rw_pages (regions blob) + heap_pages (regions blob)))).
  unfold vlen, ABI_PAGE_SIZE, is_u in *. change PAGE_SIZE with 4096.
  rewrite data_memory_lookup by lia. rewrite !bool_decide_true by dlia. done.
Qed.

(** The read-only region of a program never changes. Whatever the guest code
    does in an invocation of a freshly lowered blob, and however the invocation
    ends, the read-only region of the resulting instance's memory still holds
    the blob's read-only data. *)
Theorem invoke_keeps_ro_data blob endpoint args p inst fuel gas inst' h res :
  runnable blob args -> prepare blob endpoint args = Ret (Ok p) -> instance_new (spec_of p) = Ret inst ->
  invoke fuel inst exiting_handler gas = Some (Ret (inst', h, res)) ->
  ro_window blob (inst_mem inst') = ro_data blob.
Proof.
  intros R Ep Ei E. destruct (bt_get endpoint (endpoints blob)) as [ep|] eqn:Hep;
    [|unfold prepare in Ep; by rewrite Hep in Ep].
  destruct (runnable_prepare blob endpoint ep args R Hep) as (p' & Ep' & Ei' & (Hm & _)).
  assert (p' = p) as -> by congruence. assert (inst = prepared_instance blob ep args) as -> by congruence.
  unfold invoke in E. destruct (run _ _ _ _ _) as [[[st' r]|]|] eqn:Er; [|done..]. cbn [res_bind] in E.
  apply run_keeps in Er; [|exact exiting_keeps|]; cbn [st_mem] in *.
  - destruct (exit_code r) as [? ?]. destruct (expect _) as [v|]; [|done]. cbn [res_bind] in E.
    injection E as <- _. destruct R as [W V S _ _]. cbn [inst_mem].
    rewrite (keeps_ro_window blob (prepared_memory blob)) by done. apply ro_window_image.
  - destruct Hm as [_ _ Hp _ Hf]. change PAGE_SIZE with 4096 in Hp. lia.
Qed.

(** ** Examples *)

(** [add x10, x10, x11; ecalli 5] with a stack page and a page of read-only
    data. *)
Definition adder_blob : ProgramBlob :=
  mkBlob [0x33; 0x05; 0xB5; 0x00; 0x0B; 0x20; 0x50; 0x00] (mkRegions 1 1 0 0) (resize [0xAB] 4096 0) []
    [(0, mkEndpoint 0 2 0 [(1, 0x10001000)])].

Lemma adder_runnable : runnable adder_blob [3; 4; 0; 0].
Proof.
  split; [|vm_compute; reflexivity|vm_compute; reflexivity|done|by repeat constructor].
  split; cbn [adder_blob code regions ro_data rw_data endpoints].
  - by repeat constructor.
  - by split.
  - unfold resize. apply Forall_app_2; [by repeat constructor|]. by apply Forall_replicate.
  - constructor.
  - repeat constructor.
  - repeat constructor; cbn; done.
Qed.

(** The guest adds its arguments and makes host call 5. *)
Example adder_run :
  match run_blob 10 adder_blob 0 [3; 4; 0; 0] 1000 with
  | Some (Ret (Ok res)) => (exit_reason res, exit_arg res, return_value res, gas_remaining res)
  | _ => (0, 0, 0, 0)
  end = (4, 5, 7, 899).
Proof. vm_compute. reflexivity. Qed.

Lemma run_blob_total_witness :
  exists res, run_blob 1801 adder_blob 0 [3; 4; 0; 0] 200 = Some (Ret (Ok res)) /\
    0 <= gas_remaining res <= 200 /\ is_u 64 (return_value res) /\
    length (scratchpad_head res) = SCRATCHPAD_HEAD_LEN /\ Forall (is_u 8) (scratchpad_head res).
Proof.
  apply (run_blob_total adder_blob 0 [3; 4; 0; 0] 200 1801 adder_runnable); [done|vm_compute; reflexivity].
Defined.

Definition adder_endpoint : Endpoint := mkEndpoint 0 2 0 [(1, 0x10001000)].

Lemma prepared_address_space_witness :
  exists p inst, prepare adder_blob 0 [3; 4; 0; 0] = Ret (Ok p) /\ instance_new (spec_of p) = Ret inst /\
    cm_perm_of (inst_mem inst) 0x10000000 = perm_RW /\ cm_perm_of (inst_mem inst) 0x10001FFF = perm_RO /\
    cm_perm_of (inst_mem inst) 0x10002000 = perm_NONE /\ cm_perm_of (inst_mem inst) 0 = perm_NONE.
Proof.
  destruct (prepared_address_space adder_blob 0 adder_endpoint [3; 4; 0; 0] adder_runnable eq_refl)
    as (p & inst & Ep & Ei & _ & _ & _ & _ & _ & _ & _ & P).
  exists p, inst. split; [exact Ep|]. split; [exact Ei|]. clear Ep Ei. rewrite !P by done.
  split_and!; vm_compute; reflexivity.
Defined.

Lemma invoke_keeps_ro_data_witness :
  exists inst' h' res,
    invoke 1801 (prepared_instance adder_blob adder_endpoint [3; 4; 0; 0]) exiting_handler 200 =
      Some (Ret (inst', h', res)) /\
    ro_window adder_blob (inst_mem inst') = ro_data adder_blob.
Proof.
  destruct (runnable_prepare adder_blob 0 adder_endpoint [3; 4; 0; 0] adder_runnable eq_refl) as (p & Ep & Ei & OK).
  destruct (invoke_ok 1801 (prepared_instance adder_blob adder_endpoint [3; 4; 0; 0]) exiting_handler 200 OK)
    as (inst' & h' & res & E & _); [lia|vm_compute; reflexivity|].
  exists inst', h', res. split; [exact E|].
  exact (invoke_keeps_ro_data adder_blob 0 [3; 4; 0; 0] p _ 1801 200 inst' h' res adder_runnable Ep Ei E).
Defined.

(** The bound on the page counts is needed: [2 ^ 32 - 1] stack pages and one data
    page add up to no page at all, so [validate] accepts the blob, and copying the
    data page into the empty image panics. *)
Definition overflowing_blob : ProgramBlob :=
  mkBlob [] (mkRegions (2 ^ 32 - 1) 0 1 0) [] (replicate 4096 1) [(0, mkEndpoint 0 0 0 [])].

Lemma overflowing_blob_panics fuel gas :
  validate overflowing_blob = Ok tt /\ total_pages (regions overflowing_blob) = 0 /\
  run_blob fuel overflowing_blob 0 [0; 0; 0; 0] gas = Some Abort.
Proof.
  split; [by vm_compute|]. split; [by vm_compute|]. unfold run_blob.
  assert (prepare overflowing_blob 0 [0; 0; 0; 0] = Abort) as -> by (vm_compute; reflexivity). done.
Qed.

(** ** The top of the address space *)

(** A stack that fills the whole data window, up to 4 GiB. *)
Definition full_window_blob : ProgramBlob :=
  mkBlob [] (mkRegions 0xF0000 0 0 0) [] [] [(0, mkEndpoint 0 0 0 [])].

Lemma full_window_wf : blob_wf full_window_blob.
Proof.
  split; cbn [full_window_blob code regions ro_data rw_data endpoints]; try constructor; try done.
  - by repeat constructor.
  - repeat constructor; cbn; done.
Qed.

(** A blob that uses the data window up to exactly 4 GiB is valid, but the
    declared memory size the lowering computes for it wraps around to zero, so
    its loads and stores are charged at the lowest latency tier (25) instead
    of the highest (100). *)
Theorem full_window_picks_lowest_tier :
  validate full_window_blob = Ok tt /\ data_end (regions full_window_blob) = ADDRESS_SPACE_END /\
  exists p, prepare full_window_blob 0 [0; 0; 0; 0] = Ret (Ok p) /\
    pp_declared_mem_size p = 0 /\
    mem_cycles_for (accessible_pages (pp_declared_mem_size p) DATA_BASE) = 25 /\
    mem_cycles_for (page_sum (regions full_window_blob)) = 100.
Proof.
  split; [vm_compute; reflexivity|]. split; [vm_compute; reflexivity|].
  unfold prepare. cbn [full_window_blob endpoints bt_get Z.eqb]. fold full_window_blob.
  rewrite memory_image_spec by (exact full_window_wf || vm_compute; reflexivity). cbn [res_bind].
  eexists. split; [reflexivity|]. cbn [pp_declared_mem_size]. split_and!; vm_compute; reflexivity.
Qed.
