(* ===== verification/OrdMap.v ===== *)
(** * Maps kept in key order

    [alloc::collections::BTreeMap] and the sorted vectors searched by
    [binary_search_by] ([CNodeSlots], [RadixMap], [SparseList]): an association
    list in strictly increasing key order. The order is a class, with instances
    for integers and for byte strings compared lexicographically. On such a list
    a binary search and the linear one below find the same position. Vectors that
    are searched as vectors use the standard library's loop, [binary_search_by]. *)

From S2P Require Import Prelude.
From Stdlib Require Import Sorted.

(** [Ord]: a total order whose [Equal] is equality. *)
Class OrdKey (K : Type) : Type := {
  cmp : K -> K -> comparison;
  cmp_eq : forall a b, cmp a b = Eq <-> a = b;
  cmp_antisym : forall a b, cmp b a = CompOpp (cmp a b);
  cmp_trans : forall a b c, cmp a b = Lt -> cmp b c = Lt -> cmp a c = Lt;
}.

Definition key_lt {K : Type} `{OrdKey K} (a b : K) : Prop := cmp a b = Lt.

(** ** [slice::binary_search_by] *)

(** The branch-free loop of the standard library keeps [base] and halves [size]
    until one candidate is left; [f] compares an element with what is sought. *)
Fixpoint search_by_loop {A : Type} (fuel : nat) (f : A -> comparison) (l : list A) (base size : nat) : nat :=
  match fuel with
  | O => base
  | S fuel' =>
      if (1 <? size)%nat then
        let half := (size / 2)%nat in
        let mid := (base + half)%nat in
        let greater := match l !! mid with Some x => match f x with Gt => true | _ => false end | None => true end in
        search_by_loop fuel' f l (if greater then base else mid) (size - half)%nat
      else base
  end.

Definition binary_search_by {A : Type} (f : A -> comparison) (l : list A) : Result nat nat :=
  match l with
  | [] => Err O
  | _ =>
      let base := search_by_loop (length l) f l 0 (length l) in
      match l !! base with
      | Some x => match f x with Eq => Ok base | Lt => Err (S base) | Gt => Err base end
      | None => Err base
      end
  end.

Definition is_ok {A E : Type} (r : Result A E) : bool := match r with Ok _ => true | Err _ => false end.

(** [slice::binary_search(key).is_ok()] *)
Definition binary_contains {K : Type} `{OrdKey K} (key : K) (l : list K) : bool :=
  is_ok (binary_search_by (fun k => cmp k key) l).

(** At most one element compares equal, and the ones before it compare less. *)
Definition ordered_by {A : Type} (f : A -> comparison) (l : list A) : Prop :=
  forall i j a b, l !! i = Some a -> l !! j = Some b -> (i < j)%nat -> f a = Lt \/ f b = Gt.

Lemma search_by_loop_spec {A : Type} (f : A -> comparison) l k x fuel base size :
  ordered_by f l -> l !! k = Some x -> f x = Eq ->
  (size <= S fuel)%nat -> (base <= k < base + size)%nat -> (base + size <= length l)%nat ->
  search_by_loop fuel f l base size = k.
Proof.
  intros Srt Hk Hx. revert base size. induction fuel as [|fuel IH]; intros base size Hf Hr Hl; cbn [search_by_loop]; [lia|].
  destruct (Nat.ltb_spec 1 size) as [H1|H1]; [|lia]. set (half := (size / 2)%nat).
  assert (1 <= half < size /\ half <= size - half)%nat as Hh.
  { pose proof (Nat.div_mod_eq size 2). pose proof (Nat.mod_upper_bound size 2). unfold half. lia. }
  destruct (lookup_lt_is_Some_2 l (base + half) ltac:(lia)) as [y Hy]. rewrite Hy.
  destruct (Nat.lt_trichotomy k (base + half)) as [C|[C|C]].
  - destruct (Srt k _ x y Hk Hy C) as [E|E]; [congruence|]. rewrite E. apply IH; lia.
  - rewrite <- C, Hk in Hy. injection Hy as <-. rewrite Hx. apply IH; lia.
  - destruct (Srt _ k y x Hy Hk C) as [E|E]; [rewrite E|congruence]. apply IH; lia.
Qed.

(** What the search finds is equal, ordered or not. *)
Lemma binary_search_by_Ok {A : Type} (f : A -> comparison) l i :
  binary_search_by f l = Ok i -> exists x, l !! i = Some x /\ f x = Eq.
Proof.
  unfold binary_search_by. destruct l as [|y l]; [done|]. destruct (_ !! _) as [x|] eqn:El; [|done].
  destruct (f x) eqn:Ef; try done. intros [= <-]. by exists x.
Qed.

(** What the search returns on an ordered vector. *)
Lemma binary_search_by_spec {A : Type} (f : A -> comparison) l :
  ordered_by f l ->
  match binary_search_by f l with
  | Ok i => exists x, l !! i = Some x /\ f x = Eq
  | Err _ => forall i x, l !! i = Some x -> f x <> Eq
  end.
Proof.
  intros Srt. destruct (binary_search_by f l) as [i|p] eqn:E; unfold binary_search_by in E.
  - destruct l as [|y l]; [done|]. destruct (_ !! _) as [x|] eqn:El; [|done]. destruct (f x) eqn:Ef; try done. injection E as <-. by exists x.
  - intros k x Hk Hx. destruct l as [|y l]; [done|]. pose proof (lookup_lt_Some _ _ _ Hk) as Hl.
    rewrite (search_by_loop_spec f (y :: l) k x) in E by (done || lia). by rewrite Hk, Hx in E.
Qed.

Lemma sorted_ordered {K : Type} `{OrdKey K} (key : K) (l : list K) :
  StronglySorted key_lt l -> ordered_by (fun k => cmp k key) l.
Proof.
  intros S i j a b Ea Eb L. assert (cmp a b = Lt) as C.
  { revert i j Ea Eb L. induction S as [|x l S IH F]; intros [|i] [|j] Ea Eb L; try done; try lia.
    - injection Ea as ->. rewrite List.Forall_forall in F. apply F. by eapply list_elem_of_In, list_elem_of_lookup_2.
    - apply (IH i j Ea Eb). lia. }
  destruct (cmp a key) eqn:Ca; [right|by left|right].
  - apply cmp_eq in Ca as ->. by rewrite cmp_antisym, C.
  - rewrite cmp_antisym in Ca. destruct (cmp key a) eqn:Ck; try done. rewrite cmp_antisym, (cmp_trans _ _ _ Ck C). done.
Qed.

Lemma binary_contains_spec {K : Type} `{OrdKey K} (key : K) (l : list K) :
  StronglySorted key_lt l -> binary_contains key l = true <-> In key l.
Proof.
  intros S. pose proof (binary_search_by_spec _ _ (sorted_ordered key l S)) as B. unfold binary_contains.
  destruct (binary_search_by _ l) as [i|p]; cbn [is_ok].
  - destruct B as (x & Ex & C). apply cmp_eq in C as ->. split; [|done]. intros _. by eapply list_elem_of_In, list_elem_of_lookup_2.
  - split; [done|]. intros I. apply list_elem_of_In, list_elem_of_lookup_1 in I as [i Ei].
    destruct (B i key Ei). by apply cmp_eq.
Qed.

Definition OrdMap (K V : Type) : Type := list (K * V).

Section OrdMap.
  Context {K V : Type} `{OrdKey K}.

Fixpoint om_get (k : K) (m : OrdMap K V) : option V :=
  match m with
  | [] => None
  | (k', v) :: m' =>
      match cmp k k' with Lt => None | Eq => Some v | Gt => om_get k m' end
  end.

(** Insertion also gives the value it replaces. *)
Fixpoint om_insert (k : K) (v : V) (m : OrdMap K V) : OrdMap K V * option V :=
  match m with
  | [] => ([(k, v)], None)
  | (k', v') :: m' =>
      match cmp k k' with
      | Lt => ((k, v) :: m, None)
      | Eq => ((k', v) :: m', Some v')
      | Gt => let '(m'', old) := om_insert k v m' in ((k', v') :: m'', old)
      end
  end.

(** Removal also gives the value removed. *)
Fixpoint om_remove (k : K) (m : OrdMap K V) : OrdMap K V * option V :=
  match m with
  | [] => ([], None)
  | (k', v') :: m' =>
      match cmp k k' with
      | Lt => (m, None)
      | Eq => (m', Some v')
      | Gt => let '(m'', old) := om_remove k m' in ((k', v') :: m'', old)
      end
  end.

Definition om_ok (m : OrdMap K V) : Prop := StronglySorted key_lt (map fst m).

(** The entries of a list, inserted one after the other. *)
Definition om_of_list (l : list (K * V)) : OrdMap K V :=
  fold_left (fun m kv => fst (om_insert (fst kv) (snd kv) m)) l [].

(** ** Order *)

Lemma cmp_refl k : cmp k k = Eq.
Proof. by apply cmp_eq. Qed.

Lemma cmp_gt a b : cmp a b = Gt <-> cmp b a = Lt.
Proof. rewrite (cmp_antisym a b). by destruct (cmp a b). Qed.

Lemma key_lt_irrefl k : ~ key_lt k k.
Proof. unfold key_lt. by rewrite cmp_refl. Qed.

#[export] Instance key_eq_dec : EqDecision K.
Proof.
  intros a b. unfold Decision. destruct (cmp a b) eqn:E.
  - left. by apply cmp_eq.
  - right. intros ->. by rewrite cmp_refl in E.
  - right. intros ->. by rewrite cmp_refl in E.
Defined.

Lemma om_ok_nil : om_ok [].
Proof. constructor. Qed.

Lemma om_ok_cons k v m :
  om_ok ((k, v) :: m) <-> om_ok m /\ Forall (fun kv => key_lt k (fst kv)) m.
Proof.
  unfold om_ok. cbn. split.
  - intros S. inversion S as [|? ? ? F]; subst. split; [done|]. apply Forall_map. exact F.
  - intros [S F]. constructor; [done|]. by apply Forall_map.
Qed.

Lemma om_ok_app m1 m2 :
  om_ok (m1 ++ m2) <->
  om_ok m1 /\ om_ok m2 /\ Forall (fun a => Forall (fun b => key_lt (fst a) (fst b)) m2) m1.
Proof.
  induction m1 as [|[k v] m1 IH]; cbn [app].
  - split; [intros; split_and!; [apply om_ok_nil|done|constructor]|naive_solver].
  - rewrite !om_ok_cons, IH, Forall_app, List.Forall_cons_iff. cbn. tauto.
Qed.

Lemma om_get_below k m : Forall (fun kv => key_lt k (fst kv)) m -> om_get k m = None.
Proof. destruct 1 as [|[k' v] m Hk _]; [done|]. cbn in *. by rewrite Hk. Qed.

Lemma key_lt_Forall_trans k k' m :
  key_lt k k' -> Forall (fun kv : K * V => key_lt k' (fst kv)) m ->
  Forall (fun kv => key_lt k (fst kv)) m.
Proof. intros Hk. apply Forall_impl. intros [k2 v2]. cbn. by apply cmp_trans. Qed.

Lemma om_get_above k m : Forall (fun kv => key_lt (fst kv) k) m -> om_get k m = None.
Proof.
  induction 1 as [|[k' v] m Hk _ IH]; [done|]. cbn in *. apply cmp_gt in Hk. by rewrite Hk.
Qed.

(** ** Lookup after an update *)

Lemma om_get_insert k v m j :
  om_ok m -> om_get j (fst (om_insert k v m)) = if decide (j = k) then Some v else om_get j m.
Proof.
  induction m as [|[k' v'] m IH]; intros Hok; cbn [om_insert om_get fst].
  - case_decide as E; [subst; by rewrite cmp_refl|].
    destruct (cmp j k) eqn:C; [by apply cmp_eq in C|done..].
  - apply om_ok_cons in Hok as [Hok F]. destruct (cmp k k') eqn:Ck.
    + apply cmp_eq in Ck as ->. cbn. case_decide as E; [subst; by rewrite cmp_refl|].
      destruct (cmp j k') eqn:C; [by apply cmp_eq in C|done..].
    + cbn. case_decide as E; [subst; by rewrite cmp_refl|].
      destruct (cmp j k) eqn:C; [by apply cmp_eq in C| |done].
      by rewrite (cmp_trans _ _ _ C Ck).
    + specialize (IH Hok). destruct (om_insert k v m) as [m'' old]. cbn in *.
      destruct (cmp j k') eqn:C; [|..|exact IH].
      * apply cmp_eq in C as ->. case_decide; [subst; by rewrite cmp_refl in Ck|done].
      * case_decide; [|done]. subst. congruence.
Qed.

(** What was just inserted is found, in order or not. *)
Lemma om_get_inserted k v m : om_get k (fst (om_insert k v m)) = Some v.
Proof.
  induction m as [|[k' v'] m IH]; cbn [om_insert om_get fst]; [by rewrite cmp_refl|]. destruct (cmp k k') eqn:C.
  - cbn [fst om_get]. by rewrite C.
  - cbn [fst om_get]. by rewrite cmp_refl.
  - destruct (om_insert k v m) as [m'' old]. cbn [fst om_get] in *. by rewrite C.
Qed.

Lemma om_get_remove k m j :
  om_ok m -> om_get j (fst (om_remove k m)) = if decide (j = k) then None else om_get j m.
Proof.
  induction m as [|[k' v'] m IH]; intros Hok; cbn [om_remove om_get fst]; [by case_decide|].
  apply om_ok_cons in Hok as [Hok F]. destruct (cmp k k') eqn:Ck.
  - apply cmp_eq in Ck as ->. cbn. case_decide as E.
    + subst. by apply om_get_below.
    + destruct (cmp j k') eqn:C; [by apply cmp_eq in C| |done].
      apply om_get_below. by eapply key_lt_Forall_trans.
  - cbn. case_decide; [subst; by rewrite Ck|done].
  - specialize (IH Hok). destruct (om_remove k m) as [m'' old]. cbn in *.
    destruct (cmp j k') eqn:C; [|..|exact IH].
    + apply cmp_eq in C as ->. case_decide; [subst; by rewrite cmp_refl in Ck|done].
    + by case_decide.
Qed.

Lemma om_insert_old k v m : om_ok m -> snd (om_insert k v m) = om_get k m.
Proof.
  induction m as [|[k' v'] m IH]; intros Hok; cbn [om_insert om_get]; [done|].
  apply om_ok_cons in Hok as [Hok _]. destruct (cmp k k'); [done..|].
  specialize (IH Hok). by destruct (om_insert k v m).
Qed.

Lemma om_remove_old k m : snd (om_remove k m) = om_get k m.
Proof.
  induction m as [|[k' v'] m IH]; cbn [om_remove om_get]; [done|].
  destruct (cmp k k'); [done..|]. by destruct (om_remove k m).
Qed.

(** ** The order is kept *)

Lemma om_insert_Forall (P : K * V -> Prop) k v m :
  (forall k', k' = k -> P (k', v)) -> Forall P m -> Forall P (fst (om_insert k v m)).
Proof.
  intros Hk. induction m as [|[k' v'] m IH]; intros F; cbn [om_insert].
  - cbn. auto.
  - inversion F; subst. destruct (cmp k k') eqn:C; cbn.
    + constructor; [|done]. apply Hk. symmetry. by apply cmp_eq.
    + auto.
    + destruct (om_insert k v m). cbn in *. auto.
Qed.

Lemma om_remove_Forall (P : K * V -> Prop) k m :
  Forall P m -> Forall P (fst (om_remove k m)).
Proof.
  induction m as [|[k' v'] m IH]; intros F; cbn [om_remove]; [done|].
  inversion F; subst. destruct (cmp k k'); cbn; [done..|].
  destruct (om_remove k m). cbn in *. auto.
Qed.

Lemma om_insert_ok k v m : om_ok m -> om_ok (fst (om_insert k v m)).
Proof.
  induction m as [|[k' v'] m IH]; intros Hok; cbn [om_insert].
  - apply om_ok_cons. split; [done|constructor].
  - pose proof Hok as Hok'. apply om_ok_cons in Hok' as [Hm F].
    destruct (cmp k k') eqn:C; cbn.
    + by apply om_ok_cons.
    + apply om_ok_cons. split; [done|]. constructor; [done|]. by eapply key_lt_Forall_trans.
    + specialize (IH Hm).
      pose proof (om_insert_Forall (fun kv => key_lt k' (fst kv)) k v m) as G.
      destruct (om_insert k v m) as [m'' old]. cbn in *. apply om_ok_cons. split; [done|].
      apply G; [|done]. intros ? ->. by apply cmp_gt.
Qed.

Lemma om_remove_ok k m : om_ok m -> om_ok (fst (om_remove k m)).
Proof.
  induction m as [|[k' v'] m IH]; intros Hok; cbn [om_remove]; [done|].
  pose proof Hok as Hok'. apply om_ok_cons in Hok' as [Hm F].
  destruct (cmp k k'); cbn; [done..|]. specialize (IH Hm).
  pose proof (om_remove_Forall (fun kv => key_lt k' (fst kv)) k m F) as G.
  destruct (om_remove k m). cbn in *. by apply om_ok_cons.
Qed.

Lemma om_of_list_ok l : om_ok (om_of_list l).
Proof.
  unfold om_of_list. assert (om_ok (@nil (K * V))) as H0 by apply om_ok_nil. revert H0.
  generalize (@nil (K * V)). induction l as [|kv l IH]; intros m Hm; [done|]. cbn.
  by apply IH, om_insert_ok.
Qed.

(** Entries already in order are inserted at the end. *)
Lemma om_insert_last k v m :
  Forall (fun kv => key_lt (fst kv) k) m -> om_insert k v m = (m ++ [(k, v)], None).
Proof.
  induction 1 as [|[k' v'] m Hk _ IH]; [done|]. cbn in *.
  apply cmp_gt in Hk. by rewrite Hk, IH.
Qed.

Lemma om_of_list_sorted l : om_ok l -> om_of_list l = l.
Proof.
  intros Hl. unfold om_of_list.
  enough (forall m, om_ok (m ++ l) ->
    fold_left (fun m kv => fst (om_insert (fst kv) (snd kv) m)) l m = m ++ l) as G by by apply G.
  clear Hl. induction l as [|[k v] l IH]; intros m Hm; cbn; [by rewrite app_nil_r|].
  apply om_ok_app in Hm as Hm'. destruct Hm' as (_ & _ & F).
  rewrite om_insert_last; cbn.
  - replace (m ++ (k, v) :: l) with ((m ++ [(k, v)]) ++ l) in Hm |- * by (by rewrite <- app_assoc).
    by apply IH.
  - eapply Forall_impl; [|exact F]. intros a Fa. by inversion Fa.
Qed.

(** ** Extensionality *)

Lemma om_get_In k v m : om_get k m = Some v -> In (k, v) m.
Proof.
  induction m as [|[k' v'] m IH]; cbn; [done|]. destruct (cmp k k') eqn:C; [|done|auto].
  apply cmp_eq in C as ->. naive_solver.
Qed.

Lemma om_In_get k v m : om_ok m -> In (k, v) m -> om_get k m = Some v.
Proof.
  induction m as [|[k' v'] m IH]; intros Hok; cbn; [done|].
  apply om_ok_cons in Hok as [Hm F]. intros [[= -> ->]|Hin]; [by rewrite cmp_refl|].
  pose proof (proj1 (List.Forall_forall _ _) F _ Hin) as Hlt. cbn in Hlt.
  apply cmp_gt in Hlt. rewrite Hlt. auto.
Qed.

Lemma om_get_is_Some k m : om_ok m -> is_Some (om_get k m) <-> In k (map fst m).
Proof.
  intros Hok. split.
  - intros [v Hv]. apply om_get_In in Hv. by apply (in_map fst) in Hv.
  - rewrite in_map_iff. intros ([k' v] & <- & Hin). eexists. by apply om_In_get.
Qed.

Lemma om_In_insert k v m kv : In kv (fst (om_insert k v m)) -> kv = (k, v) \/ In kv m.
Proof.
  induction m as [|[k' v'] m IH]; cbn; [naive_solver|]. destruct (cmp k k') eqn:C; cbn.
  - apply cmp_eq in C as ->. naive_solver.
  - naive_solver.
  - destruct (om_insert k v m) as [m'' old]. cbn in *. naive_solver.
Qed.

Lemma om_In_remove k m kv : In kv (fst (om_remove k m)) -> In kv m.
Proof.
  induction m as [|[k' v'] m IH]; cbn; [done|]. destruct (cmp k k'); cbn; [naive_solver..|].
  destruct (om_remove k m) as [m'' old]. cbn in *. naive_solver.
Qed.

Lemma om_ext m1 m2 :
  om_ok m1 -> om_ok m2 -> (forall k, om_get k m1 = om_get k m2) -> m1 = m2.
Proof.
  revert m2. induction m1 as [|[k1 v1] m1 IH]; intros [|[k2 v2] m2] H1 H2 Hg; [done|..].
  - specialize (Hg k2). cbn in Hg. by rewrite cmp_refl in Hg.
  - specialize (Hg k1). cbn in Hg. by rewrite cmp_refl in Hg.
  - pose proof H1 as H1'. pose proof H2 as H2'.
    apply om_ok_cons in H1' as [O1 F1]. apply om_ok_cons in H2' as [O2 F2].
    assert (k1 = k2) as ->.
    { pose proof (Hg k1) as G1. pose proof (Hg k2) as G2. cbn in G1, G2.
      rewrite cmp_refl in G1, G2. destruct (cmp k1 k2) eqn:C; [by apply cmp_eq in C|done|].
      apply cmp_gt in C. by rewrite C in G2. }
    assert (v1 = v2) as -> by (specialize (Hg k2); cbn in Hg; rewrite cmp_refl in Hg; congruence).
    f_equal. apply IH; [done..|]. intros k. specialize (Hg k). cbn in Hg.
    destruct (cmp k k2) eqn:C; [|..|done].
    + apply cmp_eq in C as ->. by rewrite !om_get_below.
    + by rewrite !om_get_below by (by eapply key_lt_Forall_trans).
Qed.

(** Taking out what was put in. *)
Lemma om_remove_insert k v m :
  om_ok m -> om_get k m = None -> fst (om_remove k (fst (om_insert k v m))) = m.
Proof.
  intros Hok Hn. pose proof (om_insert_ok k v m Hok) as Hi. apply om_ext; [by apply om_remove_ok|done|].
  intros j. rewrite om_get_remove, om_get_insert by done. case_decide; [congruence|done].
Qed.

End OrdMap.

(** ** Instances *)

#[export] Instance ord_Z : OrdKey Z.
Proof.
  refine {| cmp := Z.compare |}.
  - apply Z.compare_eq_iff.
  - intros. apply Z.compare_antisym.
  - intros a b c. rewrite !Z.compare_lt_iff. lia.
Defined.

(** [&[u8]] compared lexicographically, byte by byte. *)
Fixpoint cmp_bytes (a b : list Z) : comparison :=
  match a, b with
  | [], [] => Eq
  | [], _ :: _ => Lt
  | _ :: _, [] => Gt
  | x :: a', y :: b' =>
      match Z.compare x y with Eq => cmp_bytes a' b' | c => c end
  end.

#[export] Instance ord_bytes : OrdKey (list Z).
Proof.
  refine {| cmp := cmp_bytes |}.
  - intros a. induction a as [|x a IH]; intros [|y b]; cbn; [done..|].
    destruct (Z.compare_spec x y) as [->|Hxy|Hxy].
    + rewrite IH. naive_solver.
    + split; [done|]. intros [= -> _]. lia.
    + split; [done|]. intros [= -> _]. lia.
  - intros a. induction a as [|x a IH]; intros [|y b]; cbn; [done..|].
    rewrite (Z.compare_antisym x y). destruct (Z.compare x y); cbn; auto.
  - intros a. induction a as [|x a IH]; intros [|y b] [|z c]; cbn; try done.
    destruct (Z.compare_spec x y), (Z.compare_spec y z), (Z.compare_spec x z); subst;
      try done; try lia. by apply IH.
Defined.
