(* ===== verification/Merkle.v ===== *)
(** * SSZ merkleization

    [src/rust/ssz/src/merkle.rs]: chunk packing, the bottom-up [merkleize] that
    only touches the chunks present, the length and selector mix-ins and the
    zero hashes. The digest is a parameter of the source (a generic
    [digest::Digest] with a 32-byte output), and a class here.

    The reference the routine is compared with is [subtree]: the root of the
    complete binary tree over the zero-padded leaves, by plain recursion. *)

From S2P Require Import Prelude MachineInt.

(** [Digest<OutputSize = U32>]: any function from byte strings to 32-byte
    strings. The type bound is all the code relies on. *)
Class Digest : Type := {
  digest : list Z -> list Z;
  digest_length : forall x, length (digest x) = 32%nat;
}.

(** A [[u8; 32]]. *)
Definition Chunk : Type := list Z.
Definition zero_chunk : Chunk := replicate 32 0.
Definition BYTES_PER_CHUNK : Z := 32.

(** [let mut chunk = [0u8; 32]; chunk[..n].copy_from_slice(bs)] for [n <= 32]. *)
Definition pad_chunk (bs : list Z) : Chunk := bs ++ replicate (32 - length bs) 0.

Fixpoint pack_loop (n : nat) (bytes : list Z) : list Chunk :=
  match n with
  | O => []
  | S n' => pad_chunk (take 32 bytes) :: pack_loop n' (drop 32 bytes)
  end.

Definition pack_bytes (bytes : list Z) : list Chunk :=
  match bytes with
  | [] => []
  | _ => pack_loop (Z.to_nat (div_ceil (Z.of_nat (length bytes)) BYTES_PER_CHUNK)) bytes
  end.

(** [ceil(log2(max(1, n)))] of a [u64]. *)
Definition ceil_log2 (n : Z) : Z :=
  if n <=? 1 then 0 else 64 - leading_zeros 64 (n - 1).

(** [usize::next_power_of_two], which wraps to zero above [2^63]. *)
Definition next_power_of_two (n : Z) : Z :=
  if n <=? 1 then 1 else wrap 64 (2 ^ (64 - leading_zeros 64 (n - 1))).

Section Merkle.
  Context {D : Digest}.

Definition hash_pair (left right : Chunk) : Chunk := digest (left ++ right).

(** [zero_hash(d) = hash(zero_hash(d-1), zero_hash(d-1))]. *)
Fixpoint zero_hash (depth : nat) : Chunk :=
  match depth with
  | O => zero_chunk
  | S d => let z := zero_hash d in hash_pair z z
  end.

(** The zero-hash table of one call: [depth] entries, each the hash of the one
    before with itself. *)
Fixpoint zero_h_table (depth : nat) (cur_zero : Chunk) : list Chunk :=
  match depth with
  | O => []
  | S d => cur_zero :: zero_h_table d (hash_pair cur_zero cur_zero)
  end.

(** One level of the reduction: pairs of neighbours, a missing right sibling
    drawn from the zero-hash table. *)
Fixpoint merkle_level (zero_h : Chunk) (level : list Chunk) : list Chunk :=
  match level with
  | [] => []
  | [l] => [hash_pair l zero_h]
  | l :: r :: rest => hash_pair l r :: merkle_level zero_h rest
  end.

Definition merkleize (chunks : list Chunk) (limit : Z) : Chunk :=
  let target := Z.max (Z.max limit (Z.of_nat (length chunks))) 1 in
  let padded_len := next_power_of_two target in
  let depth := Z.to_nat (trailing_zeros 64 padded_len) in
  if padded_len =? 1 then default zero_chunk (chunks !! 0%nat)
  else match chunks with
       | [] => zero_hash depth
       | _ =>
           let level := fold_left (fun level z => merkle_level z level)
                                  (zero_h_table depth zero_chunk) chunks in
           default zero_chunk (level !! 0%nat)
       end.

Definition mix_in_length (root : Chunk) (len : Z) : Chunk :=
  hash_pair root (pad_chunk (to_le_bytes 8 len)).

Definition mix_in_selector (root : Chunk) (selector : Z) : Chunk :=
  hash_pair root (pad_chunk [selector]).

(** [union.rs]: the root of an [Option]-style union. *)
Definition option_selector_hash (payload_root : Chunk) (selector : Z) : Chunk :=
  mix_in_selector payload_root selector.

(** ** The reference tree *)

(** The root of the complete tree with [d] levels above its leaves whose
    leftmost leaf is [2^d * i]. *)
Fixpoint subtree (d : nat) (leaf : Z -> Chunk) (i : Z) : Chunk :=
  match d with
  | O => leaf i
  | S d' => hash_pair (subtree d' leaf (2 * i)) (subtree d' leaf (2 * i + 1))
  end.

(** The leaves of a chunk list padded with zero chunks without end. *)
Definition padded (chunks : list Chunk) (i : Z) : Chunk :=
  default zero_chunk (chunks !! Z.to_nat i).

Lemma subtree_ext d leaf leaf' i :
  (forall j, 2 ^ Z.of_nat d * i <= j < 2 ^ Z.of_nat d * (i + 1) -> leaf j = leaf' j) ->
  subtree d leaf i = subtree d leaf' i.
Proof.
  revert i. induction d as [|d IH]; intros i H; cbn [subtree].
  - apply H. lia.
  - rewrite Nat2Z.inj_succ, Z.pow_succ_r in H by lia.
    f_equal; apply IH; intros j Hj; apply H; nia.
Qed.

Lemma subtree_zero d leaf i :
  (forall j, 2 ^ Z.of_nat d * i <= j < 2 ^ Z.of_nat d * (i + 1) -> leaf j = zero_chunk) ->
  subtree d leaf i = zero_hash d.
Proof.
  revert i. induction d as [|d IH]; intros i H; cbn [subtree zero_hash].
  - apply H. lia.
  - rewrite Nat2Z.inj_succ, Z.pow_succ_r in H by lia.
    f_equal; apply IH; intros j Hj; apply H; nia.
Qed.

(** ** Shape of the reduction *)

Lemma zero_h_table_from depth k :
  zero_h_table depth (zero_hash k) = map zero_hash (seq k depth).
Proof.
  revert k. induction depth as [|d IH]; intros k; [done|]. cbn [zero_h_table seq map].
  f_equal. apply (IH (S k)).
Qed.

Lemma merkle_level_lookup z level (i : nat) :
  merkle_level z level !! i =
    l ← level !! (2 * i)%nat; Some (hash_pair l (default z (level !! (2 * i + 1)%nat))).
Proof.
  revert i. induction level as [level IH] using (well_founded_induction (Wf_nat.well_founded_ltof _ length)).
  intros i. destruct level as [|l [|r rest]]; cbn [merkle_level].
  - by rewrite lookup_nil.
  - destruct i as [|i]; [done|]. by replace (2 * S i)%nat with (S (2 * i + 1)) by lia.
  - destruct i as [|i]; [done|]. cbn [lookup list_lookup].
    rewrite IH by (unfold Wf_nat.ltof; cbn; lia).
    replace (2 * S i)%nat with (S (S (2 * i))) by lia.
    by replace (S (S (2 * i)) + 1)%nat with (S (S (2 * i + 1))) by lia.
Qed.

(** A level of the reduction holds the roots of the subtrees that have a chunk
    in them, from the left. *)
Definition level_ok (leaf : Z -> Chunk) (k : nat) (level : list Chunk) : Prop :=
  level <> [] /\
  forall i, 0 <= i -> subtree k leaf i = default (zero_hash k) (level !! Z.to_nat i).

Lemma merkle_level_ok leaf k level :
  level_ok leaf k level -> level_ok leaf (S k) (merkle_level (zero_hash k) level).
Proof.
  intros [Hne H]. split.
  { destruct level as [|? [|]]; [done|discriminate..]. }
  intros i Hi. cbn [subtree]. rewrite merkle_level_lookup, !H by lia.
  replace (Z.to_nat (2 * i)) with (2 * Z.to_nat i)%nat by lia.
  replace (Z.to_nat (2 * i + 1)) with (2 * Z.to_nat i + 1)%nat by lia.
  destruct (level !! (2 * Z.to_nat i)%nat) eqn:E; [done|]. cbn.
  apply lookup_ge_None in E. by rewrite (lookup_ge_None_2 level) by lia.
Qed.

Lemma merkle_levels_ok leaf k n level :
  level_ok leaf k level ->
  level_ok leaf (k + n) (fold_left (fun level z => merkle_level z level)
                                   (map zero_hash (seq k n)) level).
Proof.
  revert k level. induction n as [|n IH]; intros k level H; [by rewrite Nat.add_0_r|].
  cbn [seq map fold_left]. rewrite Nat.add_succ_r. apply (IH (S k)). by apply merkle_level_ok.
Qed.

(** ** Depth *)

Lemma clz_log2_up n : 1 < n <= 2 ^ 63 -> 64 - leading_zeros 64 (n - 1) = Z.log2_up n.
Proof.
  intros H. unfold leading_zeros. destruct (Z.eqb_spec (n - 1) 0); [lia|].
  rewrite Z.log2_up_eqn by lia. replace (Z.pred n) with (n - 1) by lia. lia.
Qed.

Lemma log2_up_bound n : n <= 2 ^ 63 -> 0 <= Z.log2_up n <= 63.
Proof.
  intros H. split; [apply Z.log2_up_nonneg|].
  change 63 with (Z.log2_up (2 ^ 63)). by apply Z.log2_up_le_mono.
Qed.

Lemma next_power_of_two_eq n : 1 <= n <= 2 ^ 63 -> next_power_of_two n = 2 ^ Z.log2_up n.
Proof.
  intros H. unfold next_power_of_two. destruct (Z.leb_spec n 1).
  - by replace n with 1 by lia.
  - rewrite clz_log2_up by lia. pose proof (log2_up_bound n). apply wrap_small. split.
    + apply Z.pow_nonneg. lia.
    + apply Z.pow_lt_mono_r; lia.
Qed.

Lemma ceil_log2_eq n : 0 <= n <= 2 ^ 63 -> ceil_log2 n = Z.log2_up n.
Proof.
  intros H. unfold ceil_log2. destruct (Z.leb_spec n 1).
  - by rewrite Z.log2_up_eqn0.
  - apply clz_log2_up. lia.
Qed.

Lemma trailing_zeros_pow2 k : 0 <= k < 64 -> trailing_zeros 64 (2 ^ k) = k.
Proof.
  intros H. assert (forall n, pos_trailing_zeros (2 ^ n)%positive = Zpos n) as P.
  { intros n. induction n as [|n IH] using Pos.peano_ind; [done|].
    rewrite Pos.pow_succ_r. change (1 + pos_trailing_zeros (2 ^ n)%positive = Zpos (Pos.succ n)). lia. }
  destruct k as [|p|p]; [done| |lia]. rewrite <- Pos2Z.inj_pow. cbn [trailing_zeros]. apply P.
Qed.

(** The number of levels [merkleize] builds. *)
Definition tree_depth (chunks : list Chunk) (limit : Z) : nat :=
  Z.to_nat (Z.log2_up (Z.max (Z.max limit (Z.of_nat (length chunks))) 1)).

Lemma merkleize_subtree chunks limit :
  limit <= 2 ^ 63 -> Z.of_nat (length chunks) <= 2 ^ 63 ->
  merkleize chunks limit = subtree (tree_depth chunks limit) (padded chunks) 0.
Proof.
  intros Hl Hc. unfold merkleize, tree_depth. set (t := Z.max _ 1).
  assert (1 <= t <= 2 ^ 63) as Ht by (unfold t; lia).
  rewrite next_power_of_two_eq by done. pose proof (log2_up_bound t) as Hb.
  rewrite trailing_zeros_pow2 by lia.
  destruct (Z.eqb_spec (2 ^ Z.log2_up t) 1) as [E|E].
  - destruct (Z.eq_dec (Z.log2_up t) 0) as [->|]; [done|].
    assert (2 ^ 1 <= 2 ^ Z.log2_up t) by (apply Z.pow_le_mono_r; lia). lia.
  - set (d := Z.to_nat (Z.log2_up t)). destruct chunks as [|c cs] eqn:Ecs.
    { symmetry. apply subtree_zero. intros j _. unfold padded. by rewrite lookup_nil. }
    rewrite <- Ecs. pose proof (zero_h_table_from d 0) as T. cbn [zero_hash] in T. rewrite T.
    assert (level_ok (padded chunks) 0 chunks) as H0.
    { split; [by subst|]. done. }
    destruct (merkle_levels_ok _ _ d _ H0) as [Hne H]. cbn [Nat.add] in Hne, H.
    rewrite (H 0) by lia. cbn [Z.to_nat]. by destruct (fold_left _ _ _).
Qed.

Lemma length_hash_pair l r : length (hash_pair l r) = 32%nat.
Proof. apply digest_length. Qed.

Lemma length_subtree d leaf i :
  (forall j, length (leaf j) = 32%nat) -> length (subtree d leaf i) = 32%nat.
Proof. intros H. destruct d; cbn; [apply H|apply length_hash_pair]. Qed.

(** ** Binding

    A 32-byte digest cannot be injective, so binding is stated relative to
    the byte strings that are actually hashed. *)

Definition collision_free (hashed : list Z -> Prop) : Prop :=
  forall a b, hashed a -> hashed b -> digest a = digest b -> a = b.

(** The strings hashed in a tree. *)
Fixpoint tree_hashes (d : nat) (leaf : Z -> Chunk) (i : Z) (x : list Z) : Prop :=
  match d with
  | O => False
  | S d' =>
      x = subtree d' leaf (2 * i) ++ subtree d' leaf (2 * i + 1) \/
      tree_hashes d' leaf (2 * i) x \/ tree_hashes d' leaf (2 * i + 1) x
  end.

Lemma chunk_app_inj (a b c d : list Z) :
  length a = length c -> a ++ b = c ++ d -> a = c /\ b = d.
Proof. intros H E. by apply app_inj_1. Qed.

Lemma subtree_binds d leaf leaf' i :
  (forall j, length (leaf j) = 32%nat) -> (forall j, length (leaf' j) = 32%nat) ->
  collision_free (fun x => tree_hashes d leaf i x \/ tree_hashes d leaf' i x) ->
  subtree d leaf i = subtree d leaf' i ->
  forall j, 2 ^ Z.of_nat d * i <= j < 2 ^ Z.of_nat d * (i + 1) -> leaf j = leaf' j.
Proof.
  intros L L'. revert i. induction d as [|d IH]; intros i CF E j Hj; cbn [subtree tree_hashes] in *.
  - by replace j with i by lia.
  - assert (subtree d leaf (2 * i) ++ subtree d leaf (2 * i + 1) =
            subtree d leaf' (2 * i) ++ subtree d leaf' (2 * i + 1)) as Hs by (apply CF; auto).
    apply chunk_app_inj in Hs as [El Er]; [|by rewrite !length_subtree].
    rewrite Nat2Z.inj_succ, Z.pow_succ_r in Hj by lia.
    destruct (Z.lt_ge_cases j (2 ^ Z.of_nat d * (2 * i + 1))).
    + apply (IH (2 * i)); [|done|nia]. intros a b Ha Hb. apply CF; tauto.
    + apply (IH (2 * i + 1)); [|done|nia]. intros a b Ha Hb. apply CF; tauto.
Qed.

Lemma padded_length (chunks : list Chunk) j :
  Forall (fun c => length c = 32%nat) chunks -> length (padded chunks j) = 32%nat.
Proof.
  intros H. unfold padded. destruct (chunks !! Z.to_nat j) eqn:E; [exact (Forall_lookup_1 _ _ _ _ H E)|done].
Qed.

Lemma padded_inj (c1 c2 : list Chunk) :
  length c1 = length c2 ->
  (forall j, 0 <= j < Z.of_nat (length c1) -> padded c1 j = padded c2 j) -> c1 = c2.
Proof.
  intros Hl H. apply list_eq_same_length with (n := length c1); [done|done|].
  intros i x y Hi Hx Hy. specialize (H (Z.of_nat i)). unfold padded in H.
  rewrite Nat2Z.id, Hx, Hy in H. apply H. lia.
Qed.

(** The strings hashed for a list root: the tree's, and the length's. *)
Definition list_hashes (chunks : list Chunk) (limit : Z) (x : list Z) : Prop :=
  tree_hashes (tree_depth chunks limit) (padded chunks) 0 x \/
  x = merkleize chunks limit ++ pad_chunk (to_le_bytes 8 (Z.of_nat (length chunks))).

Lemma length_merkleize (chunks : list Chunk) limit :
  limit <= 2 ^ 63 -> Z.of_nat (length chunks) <= 2 ^ 63 ->
  Forall (fun c => length c = 32%nat) chunks -> length (merkleize chunks limit) = 32%nat.
Proof.
  intros Hl Hc HF. rewrite merkleize_subtree by done. apply length_subtree. intros j. by apply padded_length.
Qed.

Lemma mix_in_length_binds (c1 c2 : list Chunk) limit :
  limit <= 2 ^ 63 -> Z.of_nat (length c1) <= limit -> Z.of_nat (length c2) <= limit ->
  Forall (fun c => length c = 32%nat) c1 -> Forall (fun c => length c = 32%nat) c2 ->
  collision_free (fun x => list_hashes c1 limit x \/ list_hashes c2 limit x) ->
  mix_in_length (merkleize c1 limit) (Z.of_nat (length c1)) =
  mix_in_length (merkleize c2 limit) (Z.of_nat (length c2)) -> c1 = c2.
Proof.
  intros Hl H1 H2 F1 F2 CF E. unfold mix_in_length, hash_pair in E. unfold list_hashes in CF.
  apply CF in E; [|auto..]. apply chunk_app_inj in E as [E El]; [|rewrite !length_merkleize by (done || lia); done].
  apply chunk_app_inj in El as [El _]; [|by rewrite !length_to_le_bytes].
  apply (f_equal from_le_bytes) in El. rewrite !from_to_le_bytes, !wrap_small in El by (unfold is_u; lia).
  apply Nat2Z.inj in El. rewrite !merkleize_subtree in E by lia.
  assert (tree_depth c1 limit = tree_depth c2 limit) as Hd by (unfold tree_depth; by rewrite El).
  apply padded_inj; [done|]. intros j Hj. rewrite Hd in *.
  eapply (subtree_binds (tree_depth c2 limit)); [intros; by apply padded_length..| |exact E|].
  - intros a b Ha Hb. apply CF; tauto.
  - unfold tree_depth. rewrite Z2Nat.id by apply Z.log2_up_nonneg.
    pose proof (Z.log2_log2_up_spec (Z.max (Z.max limit (Z.of_nat (length c2))) 1)). lia.
Qed.

End Merkle.

#[global] Opaque zero_chunk.

(** A digest to instantiate the interface: the sum of the bytes. *)
Definition sum_digest : Digest := {|
  digest := fun x => to_le_bytes 32 (fold_right Z.add 0 x);
  digest_length := fun x => length_to_le_bytes 32 _;
|}.
