(* ===== verification/Ssz.v ===== *)
(** * SSZ codec

    [src/rust/ssz]: the [Encode], [Decode] and [HashTreeRoot] traits and their
    implementations for integers, booleans, byte and word arrays, options,
    pairs, vectors, lists, ordered maps, [MissingOr] and bit strings.

    A trait implementation is a record of its functions (a dictionary), so an
    implementation for [Vec<T>] is a function of the one for [T]. [ssz_append]
    gives the bytes it appends, which never depend on what the buffer holds
    already: every offset it writes counts from the start of the value. Both
    encoding (offsets that overflow, a value with no wire form) and decoding
    (a slice out of range) can panic, so both are in [Res]. *)

From S2P Require Import Prelude MachineInt OrdMap Merkle.

Definition BYTES_PER_LENGTH_OFFSET : Z := 4.

(** [usize] length of a slice. *)
Definition zlen {A : Type} (l : list A) : Z := Z.of_nat (length l).

Inductive DecodeError : Type :=
  | UnexpectedEof (expected actual : Z)
  | TrailingBytes (expected actual : Z)
  | InvalidOffset (offset len fixed : Z)
  | OffsetsNotMonotonic (prev curr : Z)
  | BoundExceeded (len bound : Z)
  | LengthMismatch (expected actual : Z)
  | InvalidSelector (v : Z)
  | InvalidBool (v : Z)
  | MissingBitlistSentinel
  | ExcessBits
  | NotSorted
  | ZeroNonZero
  | CustomError.

Record Encode (T : Type) : Type := mkEncode {
  is_ssz_fixed_len : bool;
  ssz_fixed_len : Z;
  is_basic_type : bool;
  ssz_bytes_len : T -> Res Z;
  ssz_append : T -> Res (list Z);
}.
Arguments mkEncode {T}.
Arguments is_ssz_fixed_len {T} _.
Arguments ssz_fixed_len {T} _.
Arguments is_basic_type {T} _.
Arguments ssz_bytes_len {T} _ _.
Arguments ssz_append {T} _ _.

Record Decode (T : Type) : Type := mkDecode {
  dec_is_fixed : bool;
  dec_fixed_len : Z;
  from_ssz_bytes : list Z -> Res (Result T DecodeError);
}.
Arguments mkDecode {T}.
Arguments dec_is_fixed {T} _.
Arguments dec_fixed_len {T} _.
Arguments from_ssz_bytes {T} _ _.

Definition HashTreeRoot (T : Type) : Type := T -> Res Chunk.

(** ** Slices and loops *)

(** [&bytes[a..b]]: panics unless [a <= b <= len]. *)
Definition slice (bytes : list Z) (a b : Z) : Res (list Z) :=
  if (0 <=? a) && (a <=? b) && (b <=? zlen bytes)
  then Ret (take (Z.to_nat (b - a)) (drop (Z.to_nat a) bytes)) else Abort.

(** [x?] where the callee may also panic. *)
Definition try_bind {A B E : Type} (c : Res (Result A E)) (f : A -> Res (Result B E)) :
  Res (Result B E) :=
  let! r := c in match r with Ok a => f a | Err e => Ret (Err e) end.

Notation "'let*' x := c 'in' e" := (try_bind c (fun x => e))
  (at level 10, x pattern, c at level 100, e at level 200) : rust_scope.

(** A loop over a list, each step a fallible call. *)
Fixpoint res_mapM {A B : Type} (f : A -> Res B) (l : list A) : Res (list B) :=
  match l with
  | [] => Ret []
  | a :: l' => let! b := f a in let! bs := res_mapM f l' in Ret (b :: bs)
  end.

Fixpoint try_mapM {A B E : Type} (f : A -> Res (Result B E)) (l : list A) :
  Res (Result (list B) E) :=
  match l with
  | [] => Ret (Ok [])
  | a :: l' => let* b := f a in let* bs := try_mapM f l' in Ret (Ok (b :: bs))
  end.

(** [0, 1, .., n-1] as [usize] values. *)
Definition zrange (n : Z) : list Z := map Z.of_nat (seq 0 (Z.to_nat n)).

Fixpoint sumZ (l : list Z) : Z := match l with [] => 0 | x :: l' => x + sumZ l' end.

(** [lib.rs]: bounds-checked reads. *)
Definition read_slice (bytes : list Z) (offset len : Z) : Res (Result (list Z) DecodeError) :=
  let eof := UnexpectedEof len (saturating_sub (zlen bytes) offset) in
  match checked_add 64 offset len with
  | None => Ret (Err eof)
  | Some e =>
      if zlen bytes <? e then Ret (Err eof)
      else let! s := slice bytes offset e in Ret (Ok s)
  end.

Definition read_offset (bytes : list Z) (off : Z) : Res (Result Z DecodeError) :=
  let* s := read_slice bytes off BYTES_PER_LENGTH_OFFSET in
  Ret (Ok (from_le_bytes s)).

(** ** Integers, booleans, arrays *)

(** [impl_uint!(uN, size)]. *)
Definition enc_uint (size : nat) : Encode Z := {|
  is_ssz_fixed_len := true;
  ssz_fixed_len := Z.of_nat size;
  is_basic_type := true;
  ssz_bytes_len := fun _ => Ret (Z.of_nat size);
  ssz_append := fun v => Ret (to_le_bytes size v);
|}.

Definition dec_uint (size : nat) : Decode Z := {|
  dec_is_fixed := true;
  dec_fixed_len := Z.of_nat size;
  from_ssz_bytes := fun bytes =>
    if zlen bytes =? Z.of_nat size then Ret (Ok (from_le_bytes bytes))
    else Ret (Err (UnexpectedEof (Z.of_nat size) (zlen bytes)));
|}.

Definition htr_uint (size : nat) : HashTreeRoot Z :=
  fun v => Ret (pad_chunk (to_le_bytes size v)).

Definition enc_bool : Encode bool := {|
  is_ssz_fixed_len := true;
  ssz_fixed_len := 1;
  is_basic_type := true;
  ssz_bytes_len := fun _ => Ret 1;
  ssz_append := fun b => Ret [b2z b];
|}.

Definition dec_bool : Decode bool := {|
  dec_is_fixed := true;
  dec_fixed_len := 1;
  from_ssz_bytes := fun bytes =>
    match bytes with
    | [v] => if v =? 0 then Ret (Ok false)
             else if v =? 1 then Ret (Ok true) else Ret (Err (InvalidBool v))
    | _ => Ret (Err (UnexpectedEof 1 (zlen bytes)))
    end;
|}.

Definition htr_bool : HashTreeRoot bool := fun b => Ret (pad_chunk [b2z b]).

(** [NonZeroU32], as its value. *)
Definition enc_nonzero_u32 : Encode Z := {|
  is_ssz_fixed_len := true;
  ssz_fixed_len := 4;
  is_basic_type := false;
  ssz_bytes_len := fun _ => Ret 4;
  ssz_append := fun v => Ret (to_le_bytes 4 v);
|}.

Definition dec_nonzero_u32 : Decode Z := {|
  dec_is_fixed := true;
  dec_fixed_len := 4;
  from_ssz_bytes := fun bytes =>
    let* raw := from_ssz_bytes (dec_uint 4) bytes in
    if raw =? 0 then Ret (Err ZeroNonZero) else Ret (Ok raw);
|}.

Definition htr_nonzero_u32 : HashTreeRoot Z := fun v => Ret (pad_chunk (to_le_bytes 4 v)).

(** [[u8; N]]; [U256] has the same wire form with [N = 32]. *)
Definition enc_array (n : Z) : Encode (list Z) := {|
  is_ssz_fixed_len := true;
  ssz_fixed_len := n;
  is_basic_type := false;
  ssz_bytes_len := fun _ => Ret n;
  ssz_append := fun bs => Ret bs;
|}.

Definition dec_array (n : Z) : Decode (list Z) := {|
  dec_is_fixed := true;
  dec_fixed_len := n;
  from_ssz_bytes := fun bytes =>
    if zlen bytes =? n then Ret (Ok bytes) else Ret (Err (UnexpectedEof n (zlen bytes)));
|}.

(** [[u64; N]]. *)
Definition enc_words (n : Z) : Encode (list Z) := {|
  is_ssz_fixed_len := true;
  ssz_fixed_len := n * 8;
  is_basic_type := false;
  ssz_bytes_len := fun _ => Ret (n * 8);
  ssz_append := fun ws => Ret (concat (map (to_le_bytes 8) ws));
|}.

Definition dec_words (n : Z) : Decode (list Z) := {|
  dec_is_fixed := true;
  dec_fixed_len := n * 8;
  from_ssz_bytes := fun bytes =>
    if zlen bytes =? n * 8 then
      let! ws := res_mapM (fun i => let! s := slice bytes (i * 8) (i * 8 + 8) in
                                    Ret (from_le_bytes s)) (zrange n) in
      Ret (Ok ws)
    else Ret (Err (UnexpectedEof (n * 8) (zlen bytes)));
|}.

Section HashArrays.
  Context {D : Digest}.

Definition htr_array (n : Z) : HashTreeRoot (list Z) := fun bs =>
  Ret (merkleize (pack_bytes bs) (Z.max (div_ceil n 32) 1)).

Definition htr_words (n : Z) : HashTreeRoot (list Z) := fun ws =>
  Ret (merkleize (pack_bytes (concat (map (to_le_bytes 8) ws))) (Z.max (div_ceil (n * 8) 32) 1)).
End HashArrays.

(** ** [Option<T>] *)

Definition enc_option {T : Type} (E : Encode T) : Encode (option T) := {|
  is_ssz_fixed_len := false;
  ssz_fixed_len := BYTES_PER_LENGTH_OFFSET;
  is_basic_type := false;
  ssz_bytes_len := fun o =>
    match o with None => Ret 1 | Some t => let! n := ssz_bytes_len E t in Ret (1 + n) end;
  ssz_append := fun o =>
    match o with None => Ret [0] | Some t => let! bs := ssz_append E t in Ret (1 :: bs) end;
|}.

Definition dec_option {T : Type} (Dc : Decode T) : Decode (option T) := {|
  dec_is_fixed := false;
  dec_fixed_len := BYTES_PER_LENGTH_OFFSET;
  from_ssz_bytes := fun bytes =>
    let* s := read_slice bytes 0 1 in
    let selector_byte := default 0 (s !! 0%nat) in
    if selector_byte =? 0 then
      if zlen bytes =? 1 then Ret (Ok None) else Ret (Err (TrailingBytes 1 (zlen bytes)))
    else if selector_byte =? 1 then
      let* inner := from_ssz_bytes Dc (drop 1 bytes) in Ret (Ok (Some inner))
    else Ret (Err (InvalidSelector selector_byte));
|}.

Definition htr_option {D : Digest} {T : Type} (H : HashTreeRoot T) : HashTreeRoot (option T) :=
  fun o => match o with
           | None => Ret (option_selector_hash zero_chunk 0)
           | Some t => let! r := H t in Ret (option_selector_hash r 1)
           end.

(** ** [MissingOr<T>]: a value or its precomputed root *)

Inductive MissingOr (T : Type) : Type :=
  | Materialized (t : T)
  | Missing (h : Chunk).
Arguments Materialized {T} t.
Arguments Missing {T} h.

Definition enc_missing_or {T : Type} (E : Encode T) : Encode (MissingOr T) := {|
  is_ssz_fixed_len := false;
  ssz_fixed_len := BYTES_PER_LENGTH_OFFSET;
  is_basic_type := false;
  ssz_bytes_len := fun m =>
    match m with
    | Materialized t => let! n := ssz_bytes_len E t in Ret (1 + n)
    | Missing _ => Ret (1 + 32)
    end;
  ssz_append := fun m =>
    match m with
    | Materialized t => let! bs := ssz_append E t in Ret (0 :: bs)
    | Missing h => Ret (1 :: h)
    end;
|}.

Definition dec_missing_or {T : Type} (Dc : Decode T) : Decode (MissingOr T) := {|
  dec_is_fixed := false;
  dec_fixed_len := BYTES_PER_LENGTH_OFFSET;
  from_ssz_bytes := fun bytes =>
    let* s := read_slice bytes 0 1 in
    let tag := default 0 (s !! 0%nat) in
    if tag =? 0 then
      let* t := from_ssz_bytes Dc (drop 1 bytes) in Ret (Ok (Materialized t))
    else if tag =? 1 then
      if zlen bytes =? 33 then Ret (Ok (Missing (drop 1 bytes)))
      else Ret (Err (TrailingBytes 33 (zlen bytes)))
    else Ret (Err (InvalidSelector tag));
|}.

(** No selector is mixed in: a root substitutes for the value. *)
Definition htr_missing_or {T : Type} (H : HashTreeRoot T) : HashTreeRoot (MissingOr T) :=
  fun m => match m with Materialized t => H t | Missing h => Ret h end.

(** ** Pairs: a two-field container *)

(** The bytes a field takes in the fixed region. *)
Definition slot_len {T : Type} (E : Encode T) : Z :=
  if is_ssz_fixed_len E then ssz_fixed_len E else BYTES_PER_LENGTH_OFFSET.
Definition dec_slot_len {T : Type} (Dc : Decode T) : Z :=
  if dec_is_fixed Dc then dec_fixed_len Dc else BYTES_PER_LENGTH_OFFSET.

(** [running.checked_add(n as u32).expect("ssz offset overflow")]. *)
Definition bump_offset (running n : Z) : Res Z := expect (checked_add 32 running (wrap 32 n)).

(** [buf[..n].copy_from_slice(&tmp)]: panics unless the lengths agree. *)
Definition copy_exact (n : Z) (tmp : list Z) : Res (list Z) :=
  if zlen tmp =? n then Ret tmp else Abort.

Definition encode_container_pair {A B : Type} (EA : Encode A) (EB : Encode B) (a : A) (b : B) :
  Res (list Z) :=
  let fixed_region_size := slot_len EA + slot_len EB in
  let running := wrap 32 fixed_region_size in
  let! pa := ssz_append EA a in
  let! (fa, va, running) :=
    (if is_ssz_fixed_len EA then let! f := copy_exact (slot_len EA) pa in Ret (f, [], running)
     else let! next := bump_offset running (zlen pa) in Ret (to_le_bytes 4 running, pa, next)) in
  let! pb := ssz_append EB b in
  let! (fb, vb) :=
    (if is_ssz_fixed_len EB then let! f := copy_exact (slot_len EB) pb in Ret (f, [])
     else Ret (to_le_bytes 4 running, pb)) in
  Ret (fa ++ fb ++ va ++ vb).

Definition pair_len {A B : Type} (EA : Encode A) (EB : Encode B) (a : A) (b : B) : Res Z :=
  let! la := (if is_ssz_fixed_len EA then Ret 0 else ssz_bytes_len EA a) in
  let! lb := (if is_ssz_fixed_len EB then Ret 0 else ssz_bytes_len EB b) in
  Ret (slot_len EA + slot_len EB + la + lb).

Definition enc_pair {A B : Type} (EA : Encode A) (EB : Encode B) : Encode (A * B) :=
  let fixed := is_ssz_fixed_len EA && is_ssz_fixed_len EB in {|
  is_ssz_fixed_len := fixed;
  ssz_fixed_len := if fixed then ssz_fixed_len EA + ssz_fixed_len EB else BYTES_PER_LENGTH_OFFSET;
  is_basic_type := false;
  ssz_bytes_len := fun ab =>
    if fixed then Ret (ssz_fixed_len EA + ssz_fixed_len EB) else pair_len EA EB (fst ab) (snd ab);
  ssz_append := fun ab =>
    if fixed then
      let! pa := ssz_append EA (fst ab) in let! pb := ssz_append EB (snd ab) in Ret (pa ++ pb)
    else encode_container_pair EA EB (fst ab) (snd ab);
|}.

Definition decode_container_pair {A B : Type} (DA : Decode A) (DB : Decode B) (bytes : list Z) :
  Res (Result (A * B) DecodeError) :=
  let a_fixed := dec_slot_len DA in
  let b_fixed := dec_slot_len DB in
  let fixed_region_size := a_fixed + b_fixed in
  let len := zlen bytes in
  if len <? fixed_region_size then Ret (Err (UnexpectedEof fixed_region_size len)) else
  let* a_var_off := (if dec_is_fixed DA then Ret (Ok None)
                     else let* o := read_offset bytes 0 in Ret (Ok (Some o))) in
  let* b_var_off := (if dec_is_fixed DB then Ret (Ok None)
                     else let* o := read_offset bytes a_fixed in Ret (Ok (Some o))) in
  let low := fun o => match o with Some off => off <? fixed_region_size | None => false end in
  if low a_var_off then Ret (Err (InvalidOffset (default 0 a_var_off) len fixed_region_size)) else
  if low b_var_off then Ret (Err (InvalidOffset (default 0 b_var_off) len fixed_region_size)) else
  let* _ := match a_var_off, b_var_off with
            | Some a, Some b =>
                if b <? a then Ret (Err (OffsetsNotMonotonic a b)) else Ret (Ok tt)
            | _, _ => Ret (Ok tt)
            end in
  let* a_val := match a_var_off with
                | None => let! s := slice bytes 0 a_fixed in from_ssz_bytes DA s
                | Some start =>
                    let e := default len b_var_off in
                    if (len <? e) || (e <? start)
                    then Ret (Err (InvalidOffset start len fixed_region_size))
                    else let! s := slice bytes start e in from_ssz_bytes DA s
                end in
  let* b_val := match b_var_off with
                | None => let! s := slice bytes a_fixed (a_fixed + b_fixed) in from_ssz_bytes DB s
                | Some start =>
                    if len <? start then Ret (Err (InvalidOffset start len fixed_region_size))
                    else let! s := slice bytes start len in from_ssz_bytes DB s
                end in
  Ret (Ok (a_val, b_val)).

Definition dec_pair {A B : Type} (DA : Decode A) (DB : Decode B) : Decode (A * B) :=
  let fixed := dec_is_fixed DA && dec_is_fixed DB in
  let af := dec_fixed_len DA in
  let bf := dec_fixed_len DB in {|
  dec_is_fixed := fixed;
  dec_fixed_len := if fixed then af + bf else BYTES_PER_LENGTH_OFFSET;
  from_ssz_bytes := fun bytes =>
    if fixed then
      if zlen bytes =? af + bf then
        let! sa := slice bytes 0 af in
        let* a := from_ssz_bytes DA sa in
        let! sb := slice bytes af (zlen bytes) in
        let* b := from_ssz_bytes DB sb in
        Ret (Ok (a, b))
      else Ret (Err (UnexpectedEof (af + bf) (zlen bytes)))
    else decode_container_pair DA DB bytes;
|}.

(** ** Collections *)

(** The offset table of a list of payloads. *)
Fixpoint offset_table (running : Z) (payloads : list (list Z)) : Res (list Z) :=
  match payloads with
  | [] => Ret []
  | p :: ps =>
      let! next := bump_offset running (zlen p) in
      let! rest := offset_table next ps in
      Ret (to_le_bytes 4 running ++ rest)
  end.

(** [list.rs]: offset table, then payloads. *)
Definition encode_var_list_payloads (payloads : list (list Z)) : Res (list Z) :=
  let header := zlen payloads * BYTES_PER_LENGTH_OFFSET in
  let! table := offset_table (wrap 32 header) payloads in
  Ret (table ++ concat payloads).

(** The payload shared by [Vec], [SmallVec], [List] and [FixedVector]. *)
Definition encode_items {T : Type} (E : Encode T) (items : list T) : Res (list Z) :=
  let! payloads := res_mapM (ssz_append E) items in
  if is_ssz_fixed_len E then Ret (concat payloads) else encode_var_list_payloads payloads.

Definition items_len {T : Type} (E : Encode T) (items : list T) : Res Z :=
  if is_ssz_fixed_len E then Ret (ssz_fixed_len E * zlen items)
  else let! lens := res_mapM (ssz_bytes_len E) items in
       Ret (zlen items * BYTES_PER_LENGTH_OFFSET + sumZ lens).

(** The offsets after the first, each checked against the one before. *)
Fixpoint read_offsets (bytes : list Z) (first prev i : Z) (n : nat) :
  Res (Result (list Z) DecodeError) :=
  match n with
  | O => Ret (Ok [])
  | S n' =>
      let* off := read_offset bytes (i * BYTES_PER_LENGTH_OFFSET) in
      if off <? prev then Ret (Err (OffsetsNotMonotonic prev off))
      else if zlen bytes <? off then Ret (Err (InvalidOffset off (zlen bytes) first))
      else let* rest := read_offsets bytes first off (i + 1) n' in Ret (Ok (off :: rest))
  end.

(** Consecutive windows of an offset list, decoded in order. *)
Fixpoint decode_windows {T : Type} (dec : list Z -> Res (Result T DecodeError))
  (bytes : list Z) (offsets : list Z) : Res (Result (list T) DecodeError) :=
  match offsets with
  | a :: ((b :: _) as rest) =>
      let! s := slice bytes a b in
      let* t := dec s in
      let* ts := decode_windows dec bytes rest in
      Ret (Ok (t :: ts))
  | _ => Ret (Ok [])
  end.

(** [vector.rs]: the decoder of a collection of variable-length elements. *)
Definition decode_var_collection {T : Type} (Dc : Decode T) (bytes : list Z)
  (expected_len : option Z) : Res (Result (list T) DecodeError) :=
  match bytes with
  | [] => match expected_len with
          | None => Ret (Ok [])
          | Some n => if n =? 0 then Ret (Ok []) else Ret (Err (LengthMismatch n 0))
          end
  | _ =>
      let* first := read_offset bytes 0 in
      if negb (first mod BYTES_PER_LENGTH_OFFSET =? 0) || (zlen bytes <? first)
      then Ret (Err (InvalidOffset first (zlen bytes) 0)) else
      let n := first / BYTES_PER_LENGTH_OFFSET in
      let* _ := match expected_len with
                | Some e => if n =? e then Ret (Ok tt) else Ret (Err (LengthMismatch e n))
                | None => Ret (Ok tt)
                end in
      let* rest := read_offsets bytes first first 1 (Z.to_nat (n - 1)) in
      if n =? 0 then Ret (Ok [])
      else decode_windows (from_ssz_bytes Dc) bytes (first :: rest ++ [zlen bytes])
  end.

(** [n] elements of [elem] bytes each. *)
Definition decode_fixed_items {T : Type} (Dc : Decode T) (bytes : list Z) (n elem : Z) :
  Res (Result (list T) DecodeError) :=
  try_mapM (fun i => let! s := slice bytes (i * elem) (i * elem + elem) in from_ssz_bytes Dc s)
           (zrange n).

(** [decode_list]: also the body of the [Vec] and [SmallVec] decoders, with
    their implicit bound. *)
Definition decode_list {T : Type} (Dc : Decode T) (bytes : list Z) (cap : Z) :
  Res (Result (list T) DecodeError) :=
  if dec_is_fixed Dc then
    let elem := dec_fixed_len Dc in
    if elem =? 0 then Ret (Err CustomError)
    else if negb (zlen bytes mod elem =? 0)
    then Ret (Err (LengthMismatch (div_ceil (zlen bytes) elem * elem) (zlen bytes)))
    else
      let n := zlen bytes / elem in
      if cap <? n then Ret (Err (BoundExceeded n cap)) else decode_fixed_items Dc bytes n elem
  else
    let* out := decode_var_collection Dc bytes None in
    if cap <? zlen out then Ret (Err (BoundExceeded (zlen out) cap)) else Ret (Ok out).

Definition decode_fixed_vector {T : Type} (Dc : Decode T) (bytes : list Z) (n : Z) :
  Res (Result (list T) DecodeError) :=
  if dec_is_fixed Dc then
    let elem := dec_fixed_len Dc in
    let expected := saturating_mul 64 elem n in
    if zlen bytes =? expected then decode_fixed_items Dc bytes n elem
    else Ret (Err (LengthMismatch expected (zlen bytes)))
  else decode_var_collection Dc bytes (Some n).

Definition MAX_VEC_LEN : Z := 2 ^ 32.
Definition MAX_BTREE_LEN : Z := 2 ^ 32.

(** [Vec<T>], [SmallVec<A>] and [List<T, N>] have the same wire form. *)
Definition enc_vec {T : Type} (E : Encode T) : Encode (list T) := {|
  is_ssz_fixed_len := false;
  ssz_fixed_len := BYTES_PER_LENGTH_OFFSET;
  is_basic_type := false;
  ssz_bytes_len := items_len E;
  ssz_append := encode_items E;
|}.

Definition dec_list {T : Type} (Dc : Decode T) (cap : Z) : Decode (list T) := {|
  dec_is_fixed := false;
  dec_fixed_len := BYTES_PER_LENGTH_OFFSET;
  from_ssz_bytes := fun bytes => decode_list Dc bytes cap;
|}.

Definition dec_vec {T : Type} (Dc : Decode T) : Decode (list T) := dec_list Dc MAX_VEC_LEN.

Definition enc_fixed_vector {T : Type} (E : Encode T) (n : Z) : Encode (list T) :=
  let fixed := is_ssz_fixed_len E in {|
  is_ssz_fixed_len := fixed;
  ssz_fixed_len := if fixed then ssz_fixed_len E * n else BYTES_PER_LENGTH_OFFSET;
  is_basic_type := false;
  ssz_bytes_len := fun items =>
    if fixed then Ret (ssz_fixed_len E * n)
    else let! lens := res_mapM (ssz_bytes_len E) items in
         Ret (n * BYTES_PER_LENGTH_OFFSET + sumZ lens);
  ssz_append := encode_items E;
|}.

Definition dec_fixed_vector {T : Type} (Dc : Decode T) (n : Z) : Decode (list T) :=
  let fixed := dec_is_fixed Dc in {|
  dec_is_fixed := fixed;
  dec_fixed_len := if fixed then dec_fixed_len Dc * n else BYTES_PER_LENGTH_OFFSET;
  from_ssz_bytes := fun bytes => decode_fixed_vector Dc bytes n;
|}.

(** [List::from_vec] / [from_slice] and [List::push]. *)
Definition list_from_vec {T : Type} (cap : Z) (v : list T) : Result (list T) DecodeError :=
  if cap <? zlen v then Err (BoundExceeded (zlen v) cap) else Ok v.

Definition list_push {T : Type} (cap : Z) (l : list T) (t : T) : Result (list T) DecodeError :=
  if cap <=? zlen l then Err (BoundExceeded (zlen l + 1) cap) else Ok (l ++ [t]).

(** [FixedVector::from_vec] / [from_slice]. *)
Definition fixed_vector_from_vec {T : Type} (n : Z) (v : list T) : Result (list T) DecodeError :=
  if zlen v =? n then Ok v else Err (LengthMismatch n (zlen v)).

Section HashCollections.
  Context {D : Digest}.

(** The root of a list's elements: basic elements are packed, others are
    hashed one by one. *)
Definition items_root {T : Type} (E : Encode T) (H : HashTreeRoot T) (cap : Z) (items : list T) :
  Res Chunk :=
  if is_basic_type E then
    let! payloads := res_mapM (ssz_append E) items in
    let cap_bytes := saturating_mul 64 cap (ssz_fixed_len E) in
    Ret (merkleize (pack_bytes (concat payloads)) (Z.max (div_ceil cap_bytes 32) 1))
  else
    let! roots := res_mapM H items in
    Ret (merkleize roots (Z.max cap 1)).

Definition htr_list {T : Type} (E : Encode T) (H : HashTreeRoot T) (cap : Z) :
  HashTreeRoot (list T) := fun items =>
  let! inner_root := items_root E H cap items in
  Ret (mix_in_length inner_root (zlen items)).

Definition htr_vec {T : Type} (E : Encode T) (H : HashTreeRoot T) : HashTreeRoot (list T) :=
  htr_list E H MAX_VEC_LEN.

Definition htr_fixed_vector {T : Type} (E : Encode T) (H : HashTreeRoot T) (n : Z) :
  HashTreeRoot (list T) := items_root E H n.

Definition htr_pair {A B : Type} (HA : HashTreeRoot A) (HB : HashTreeRoot B) :
  HashTreeRoot (A * B) := fun ab =>
  let! ra := HA (fst ab) in let! rb := HB (snd ab) in Ret (merkleize [ra; rb] 2).

Definition htr_btreemap {K V : Type} (HK : HashTreeRoot K) (HV : HashTreeRoot V) :
  HashTreeRoot (OrdMap K V) := fun m =>
  let! roots := res_mapM (htr_pair HK HV) m in
  Ret (mix_in_length (merkleize roots (Z.max MAX_BTREE_LEN 1)) (zlen m)).
End HashCollections.

(** ** [BTreeMap<K, V>]: a list of pairs in key order *)

Definition enc_btreemap {K V : Type} (EK : Encode K) (EV : Encode V) : Encode (OrdMap K V) := {|
  is_ssz_fixed_len := false;
  ssz_fixed_len := BYTES_PER_LENGTH_OFFSET;
  is_basic_type := false;
  ssz_bytes_len := fun m =>
    if is_ssz_fixed_len (enc_pair EK EV) then Ret (ssz_fixed_len (enc_pair EK EV) * zlen m)
    else let! lens := res_mapM (fun kv => pair_len EK EV (fst kv) (snd kv)) m in
         Ret (zlen m * BYTES_PER_LENGTH_OFFSET + sumZ lens);
  ssz_append := fun m =>
    if is_ssz_fixed_len (enc_pair EK EV) then
      let! payloads := res_mapM (fun kv => let! k := ssz_append EK (fst kv) in
                                           let! v := ssz_append EV (snd kv) in Ret (k ++ v)) m in
      Ret (concat payloads)
    else
      let! payloads := res_mapM (fun kv => encode_container_pair EK EV (fst kv) (snd kv)) m in
      encode_var_list_payloads payloads;
|}.

(** Keys strictly ascending. *)
Fixpoint keys_ascend {K V : Type} `{OrdKey K} (prev : option K) (l : list (K * V)) : bool :=
  match l with
  | [] => true
  | (k, _) :: l' =>
      match prev with
      | Some p => match cmp k p with Gt => keys_ascend (Some k) l' | _ => false end
      | None => keys_ascend (Some k) l'
      end
  end.

Definition dec_btreemap {K V : Type} `{OrdKey K} (DK : Decode K) (DV : Decode V) :
  Decode (OrdMap K V) := {|
  dec_is_fixed := false;
  dec_fixed_len := BYTES_PER_LENGTH_OFFSET;
  from_ssz_bytes := fun bytes =>
    let DP := dec_pair DK DV in
    let* entries :=
      (if dec_is_fixed DP then
         let elem := dec_fixed_len DP in
         if elem =? 0 then Ret (Err CustomError)
         else if negb (zlen bytes mod elem =? 0)
         then Ret (Err (LengthMismatch (div_ceil (zlen bytes) elem * elem) (zlen bytes)))
         else decode_fixed_items DP bytes (zlen bytes / elem) elem
       else decode_var_collection DP bytes None) in
    if keys_ascend None entries then Ret (Ok (om_of_list entries)) else Ret (Err NotSorted);
|}.

(** ** Bit strings *)

Definition bitvec_bytes (n : Z) : Z := div_ceil n 8.

Definition validate_trailing_zero_bits (bytes : list Z) (n : Z) : Result unit DecodeError :=
  if n =? 0 then
    if existsb (fun b => negb (b =? 0)) bytes then Err ExcessBits else Ok tt
  else
    let last_byte_bits := n mod 8 in
    if last_byte_bits =? 0 then Ok tt
    else
      let mask := not_u 8 (Z.shiftl 1 last_byte_bits - 1) in
      if Z.land (List.last bytes 0) mask =? 0 then Ok tt else Err ExcessBits.

(** [Bitvector<N>], as its packed bytes. *)
Definition bitvector_default (n : Z) : list Z := replicate (Z.to_nat (bitvec_bytes n)) 0.

Definition bitvector_from_slice (n : Z) (bytes : list Z) : Result (list Z) DecodeError :=
  let needed := bitvec_bytes n in
  if zlen bytes =? needed then
    let? _ := validate_trailing_zero_bits bytes n in Ok bytes
  else Err (UnexpectedEof needed (zlen bytes)).

Definition bit_of (bytes : list Z) (i : Z) : bool :=
  Z.land (Z.shiftr (default 0 (bytes !! Z.to_nat (i / 8))) (i mod 8)) 1 =? 1.

(** [get] and [set] assert the index in range. *)
Definition bitvector_get (n : Z) (bytes : list Z) (i : Z) : Res bool :=
  if i <? n then Ret (bit_of bytes i) else Abort.

Definition bitvector_set (n : Z) (bytes : list Z) (i : Z) (v : bool) : Res (list Z) :=
  if i <? n then
    let mask := Z.shiftl 1 (i mod 8) in
    Ret (alter (fun b => if v then Z.lor b mask else Z.land b (not_u 8 mask))
               (Z.to_nat (i / 8)) bytes)
  else Abort.

Definition enc_bitvector (n : Z) : Encode (list Z) := {|
  is_ssz_fixed_len := true;
  ssz_fixed_len := bitvec_bytes n;
  is_basic_type := false;
  ssz_bytes_len := fun _ => Ret (bitvec_bytes n);
  ssz_append := fun bytes => Ret bytes;
|}.

Definition dec_bitvector (n : Z) : Decode (list Z) := {|
  dec_is_fixed := true;
  dec_fixed_len := bitvec_bytes n;
  from_ssz_bytes := fun bytes => Ret (bitvector_from_slice n bytes);
|}.

(** [Bitlist<N>]. *)
Record Bitlist : Type := mkBitlist { bl_bytes : list Z; bl_bit_len : Z }.

Definition set_bit (bytes : list Z) (i : Z) : list Z :=
  alter (fun b => Z.lor b (Z.shiftl 1 (i mod 8))) (Z.to_nat (i / 8)) bytes.

(** Set, in a zeroed buffer, the bits of the positions given. *)
Definition set_bits (bytes : list Z) (is_ : list Z) : list Z := fold_left set_bit is_ bytes.

Definition bitlist_from_bits (cap : Z) (bits : list bool) : Result Bitlist DecodeError :=
  if cap <? zlen bits then Err (BoundExceeded (zlen bits) cap)
  else
    let zeros := replicate (Z.to_nat (div_ceil (zlen bits) 8)) 0 in
    Ok {| bl_bytes := set_bits zeros
            (List.filter (fun i => default false (bits !! Z.to_nat i)) (zrange (zlen bits)));
          bl_bit_len := zlen bits |}.

Definition bitlist_get (b : Bitlist) (i : Z) : option bool :=
  if bl_bit_len b <=? i then None else Some (bit_of (bl_bytes b) i).

Definition wire_byte_len (b : Bitlist) : Z := div_ceil (bl_bit_len b + 1) 8.

Definition enc_bitlist : Encode Bitlist := {|
  is_ssz_fixed_len := false;
  ssz_fixed_len := BYTES_PER_LENGTH_OFFSET;
  is_basic_type := false;
  ssz_bytes_len := fun b => Ret (wire_byte_len b);
  ssz_append := fun b =>
    let zeros := replicate (Z.to_nat (wire_byte_len b)) 0 in
    Ret (set_bits zeros
           (List.filter (bit_of (bl_bytes b)) (zrange (bl_bit_len b)) ++ [bl_bit_len b]));
|}.

Definition dec_bitlist (cap : Z) : Decode Bitlist := {|
  dec_is_fixed := false;
  dec_fixed_len := BYTES_PER_LENGTH_OFFSET;
  from_ssz_bytes := fun bytes =>
    match bytes with
    | [] => Ret (Err MissingBitlistSentinel)
    | _ =>
        let last := List.last bytes 0 in
        if last =? 0 then Ret (Err MissingBitlistSentinel) else
        let sentinel_bit_in_byte := 7 - leading_zeros 8 last in
        let bit_len := (zlen bytes - 1) * 8 + sentinel_bit_in_byte in
        if cap <? bit_len then Ret (Err (BoundExceeded bit_len cap)) else
        let keep_mask := wrapping_sub 8 (Z.shiftl 1 sentinel_bit_in_byte) 1 in
        let data := removelast bytes ++ [Z.land last keep_mask] in
        Ret (Ok {| bl_bytes := take (Z.to_nat (div_ceil bit_len 8)) data;
                   bl_bit_len := bit_len |})
    end;
|}.

Section HashBits.
  Context {D : Digest}.

Definition htr_bitvector (n : Z) : HashTreeRoot (list Z) := fun bytes =>
  Ret (merkleize (pack_bytes bytes) (Z.max (div_ceil (bitvec_bytes n) 32) 1)).

Definition htr_bitlist (cap : Z) : HashTreeRoot Bitlist := fun b =>
  let chunk_limit := Z.max (div_ceil (div_ceil cap 8) 32) 1 in
  Ret (mix_in_length (merkleize (pack_bytes (bl_bytes b)) chunk_limit) (bl_bit_len b)).
End HashBits.
