(* ===== verification/SszFacts.v ===== *)
(** * SSZ round trips

    The law a type's encoder and decoder satisfy together ([codec_ok]): the
    announced length is the length written, and decoding what was written gives
    the value back, as long as the encoding is shorter than the 4 GiB that
    32-bit offsets reach. The law is proved for each implementation from the
    law of its components. *)

From S2P Require Import Prelude MachineInt OrdMap Merkle Ssz.

Record codec_ok {T : Type} (valid : T -> Prop) (E : Encode T) (Dc : Decode T) : Prop := {
  ck_fixed : dec_is_fixed Dc = is_ssz_fixed_len E;
  ck_len : dec_fixed_len Dc = ssz_fixed_len E;
  ck_size x : valid x ->
    exists n, ssz_bytes_len E x = Ret n /\ 0 <= n /\
              (is_ssz_fixed_len E = true -> n = ssz_fixed_len E);
  ck_rt x n : valid x -> ssz_bytes_len E x = Ret n -> n < 2 ^ 32 ->
    exists bs, ssz_append E x = Ret bs /\ zlen bs = n /\ Forall (is_u 8) bs /\
               from_ssz_bytes Dc bs = Ret (Ok x);
}.

(** ** Slices *)

Lemma zlen_app {A : Type} (a b : list A) : zlen (a ++ b) = zlen a + zlen b.
Proof. unfold zlen. rewrite length_app. lia. Qed.

Lemma zlen_cons {A : Type} (x : A) (a : list A) : zlen (x :: a) = 1 + zlen a.
Proof. unfold zlen. cbn [length]. lia. Qed.

Lemma zlen_nil {A : Type} : zlen (@nil A) = 0.
Proof. done. Qed.

Lemma zlen_nonneg {A : Type} (a : list A) : 0 <= zlen a.
Proof. unfold zlen. lia. Qed.

Lemma zlen_le_bytes n v : zlen (to_le_bytes n v) = Z.of_nat n.
Proof. unfold zlen. by rewrite length_to_le_bytes. Qed.

Lemma slice_app (a s b : list Z) i j :
  i = zlen a -> j = i + zlen s -> slice (a ++ s ++ b) i j = Ret s.
Proof.
  intros -> ->. unfold slice. rewrite !zlen_app.
  pose proof (zlen_nonneg a). pose proof (zlen_nonneg s). pose proof (zlen_nonneg b).
  destruct (Z.leb_spec 0 (zlen a)); [|lia].
  destruct (Z.leb_spec (zlen a) (zlen a + zlen s)); [|lia].
  destruct (Z.leb_spec (zlen a + zlen s) (zlen a + (zlen s + zlen b))); [|lia]. cbn [andb].
  replace (Z.to_nat (zlen a)) with (length a) by (unfold zlen; lia).
  replace (Z.to_nat (zlen a + zlen s - zlen a)) with (length s) by (unfold zlen; lia).
  by rewrite drop_app_length, take_app_length.
Qed.

Lemma slice_prefix (s b : list Z) j : j = zlen s -> slice (s ++ b) 0 j = Ret s.
Proof. intros ->. by apply (slice_app []). Qed.

Lemma slice_suffix (a s : list Z) i j :
  i = zlen a -> j = zlen (a ++ s) -> slice (a ++ s) i j = Ret s.
Proof.
  intros -> ->. pose proof (slice_app a s [] (zlen a) (zlen (a ++ s)) eq_refl) as H.
  rewrite app_nil_r, zlen_app in H. rewrite zlen_app. by apply H.
Qed.

Lemma slice_all (s : list Z) j : j = zlen s -> slice s 0 j = Ret s.
Proof. intros ->. pose proof (slice_prefix s [] (zlen s) eq_refl) as H. by rewrite app_nil_r in H. Qed.

Lemma read_slice_app (a s b : list Z) i n :
  i = zlen a -> n = zlen s -> i + n < 2 ^ 64 -> read_slice (a ++ s ++ b) i n = Ret (Ok s).
Proof.
  intros -> -> Hb. unfold read_slice, checked_add.
  destruct (Z.ltb_spec (zlen a + zlen s) (2 ^ 64)); [|lia].
  rewrite !zlen_app. pose proof (zlen_nonneg b).
  destruct (Z.ltb_spec (zlen a + (zlen s + zlen b)) (zlen a + zlen s)); [lia|].
  by rewrite slice_app.
Qed.

Lemma read_offset_app (a b : list Z) i o :
  i = zlen a -> i < 2 ^ 32 -> is_u 32 o ->
  read_offset (a ++ to_le_bytes 4 o ++ b) i = Ret (Ok o).
Proof.
  intros Hi Hb Ho. unfold read_offset.
  rewrite read_slice_app by (rewrite ?zlen_le_bytes; unfold BYTES_PER_LENGTH_OFFSET; lia).
  cbn [try_bind res_bind]. rewrite from_to_le_bytes. by rewrite wrap_small.
Qed.

Lemma read_first (b : Z) (bs : list Z) : read_slice (b :: bs) 0 1 = Ret (Ok [b]).
Proof. apply (read_slice_app [] [b] bs); [done..|]. cbn. lia. Qed.

(** ** Integers, booleans, arrays *)

(** [n] bytes hold a [w]-bit value. *)
Lemma enc_uint_ok (size : nat) :
  codec_ok (is_u (8 * Z.of_nat size)) (enc_uint size) (dec_uint size).
Proof.
  split; [done..| |].
  - intros x Hx. exists (Z.of_nat size). cbn. split_and!; [done|lia|done].
  - intros x n Hx [= <-] _. exists (to_le_bytes size x). cbn.
    rewrite zlen_le_bytes, Z.eqb_refl, from_to_le_bytes, wrap_small by done.
    split_and!; [done..|apply to_le_bytes_bytes|done].
Qed.

Lemma enc_bool_ok : codec_ok (fun _ => True) enc_bool dec_bool.
Proof.
  split; [done..| |].
  - intros x _. exists 1. by cbn.
  - intros x n _ [= <-] _. exists [b2z x]. cbn. split_and!; [done..| |].
    + repeat constructor; destruct x; cbn; lia.
    + by destruct x.
Qed.

Lemma enc_nonzero_u32_ok :
  codec_ok (fun v => is_u 32 v /\ v <> 0) enc_nonzero_u32 dec_nonzero_u32.
Proof.
  split; [done..| |].
  - intros x _. exists 4. by cbn.
  - intros x n [Hx Hz] [= <-] _. exists (to_le_bytes 4 x). cbn [ssz_append enc_nonzero_u32].
    split_and!; [done|by rewrite zlen_le_bytes|apply to_le_bytes_bytes|].
    unfold dec_nonzero_u32. cbn [from_ssz_bytes dec_uint]. rewrite zlen_le_bytes.
    rewrite Z.eqb_refl. cbn [try_bind res_bind]. rewrite from_to_le_bytes, wrap_small by done. by destruct (Z.eqb_spec x 0).
Qed.

Lemma enc_array_ok n :
  codec_ok (fun bs => zlen bs = n /\ Forall (is_u 8) bs) (enc_array n) (dec_array n).
Proof.
  split; [done..| |].
  - intros x [<- _]. exists (zlen x). cbn. split_and!; [done|apply zlen_nonneg|done].
  - intros x m [<- Hb] [= <-] _. exists x. cbn. by rewrite Z.eqb_refl.
Qed.

(** ** Fixed-size pieces laid one after the other *)

Lemma zlen_concat_const (ps : list (list Z)) e :
  Forall (fun p => zlen p = e) ps -> zlen (concat ps) = e * zlen ps.
Proof.
  induction 1 as [|p ps Hp _ IH]; [unfold zlen; cbn [length concat]; lia|]. cbn [concat]. rewrite zlen_app, zlen_cons. lia.
Qed.

(** Slicing a concatenation of equal pieces gives the pieces, in order. *)
Lemma slice_piece pre p (ps : list (list Z)) e (k : nat) :
  zlen pre = Z.of_nat k * e -> zlen p = e ->
  slice (pre ++ concat (p :: ps)) (Z.of_nat k * e) (Z.of_nat k * e + e) = Ret p.
Proof. intros H <-. cbn [concat]. by apply slice_app. Qed.

Lemma pieces_from {T Er : Type} (dec : list Z -> Res (Result T Er)) (ps : list (list Z)) e xs :
  Forall (fun p => zlen p = e) ps ->
  Forall2 (fun p x => dec p = Ret (Ok x)) ps xs ->
  forall (k : nat) pre, zlen pre = Z.of_nat k * e ->
  try_mapM (fun i => let! s := slice (pre ++ concat ps) (i * e) (i * e + e) in dec s)
           (map Z.of_nat (seq k (length ps))) = Ret (Ok xs).
Proof.
  intros He H2. induction H2 as [|p x ps xs Hp H2 IH]; intros k pre Hk; [done|].
  inversion He as [|? ? Hpe He']; subst. cbn [length seq map try_mapM].
  rewrite slice_piece by done. cbn [res_bind]. rewrite Hp. cbn [try_bind res_bind].
  cbn [concat]. rewrite app_assoc. rewrite (IH He' (S k) (pre ++ p)); [done|].
  rewrite zlen_app. lia.
Qed.

Lemma pieces_all {T Er : Type} (dec : list Z -> Res (Result T Er)) (ps : list (list Z)) e xs :
  Forall (fun p => zlen p = e) ps ->
  Forall2 (fun p x => dec p = Ret (Ok x)) ps xs ->
  try_mapM (fun i => let! s := slice (concat ps) (i * e) (i * e + e) in dec s)
           (zrange (zlen ps)) = Ret (Ok xs).
Proof.
  intros He H2. unfold zrange, zlen. rewrite Nat2Z.id.
  by apply (pieces_from dec ps e xs He H2 0%nat []).
Qed.

Lemma concat_bytes (ps : list (list Z)) :
  Forall (Forall (is_u 8)) ps -> Forall (is_u 8) (concat ps).
Proof. induction 1; cbn; [constructor|]. by apply Forall_app. Qed.

Lemma words_from ws :
  Forall (is_u 64) ws ->
  forall (k : nat) pre, zlen pre = Z.of_nat k * 8 ->
  res_mapM (fun i => let! s := slice (pre ++ concat (map (to_le_bytes 8) ws)) (i * 8) (i * 8 + 8) in
                     Ret (from_le_bytes s))
           (map Z.of_nat (seq k (length ws))) = Ret ws.
Proof.
  induction 1 as [|w ws Hw _ IH]; intros k pre Hk; [done|].
  cbn [length seq map res_mapM]. rewrite slice_piece by (done || by rewrite zlen_le_bytes).
  cbn [res_bind]. rewrite from_to_le_bytes, wrap_small by done.
  cbn [concat]. rewrite app_assoc. rewrite (IH (S k) (pre ++ to_le_bytes 8 w)); [done|].
  rewrite zlen_app, zlen_le_bytes. lia.
Qed.

Lemma enc_words_ok n :
  codec_ok (fun ws => zlen ws = n /\ Forall (is_u 64) ws) (enc_words n) (dec_words n).
Proof.
  split; [done..| |].
  - intros x [<- _]. exists (zlen x * 8). cbn. pose proof (zlen_nonneg x). split_and!; [done|lia|done].
  - intros x m [<- Hw] [= <-] _. exists (concat (map (to_le_bytes 8) x)). cbn [ssz_append enc_words].
    assert (zlen (concat (map (to_le_bytes 8) x)) = zlen x * 8) as Hl.
    { rewrite (zlen_concat_const _ 8); [unfold zlen; rewrite length_map; lia|].
      apply Forall_map, Forall_true. intros. apply (zlen_le_bytes 8). }
    split_and!; [done..| |].
    + apply concat_bytes, Forall_map, Forall_true. intros. apply to_le_bytes_bytes.
    + unfold dec_words. cbn [from_ssz_bytes]. rewrite Hl, Z.eqb_refl.
      unfold zrange, zlen. rewrite Nat2Z.id.
      pose proof (words_from x Hw 0%nat [] eq_refl) as W. cbn [app] in W. by rewrite W.
Qed.

(** ** Options and [MissingOr] *)

Definition opt_valid {T : Type} (P : T -> Prop) (o : option T) : Prop :=
  match o with Some t => P t | None => True end.

Lemma enc_option_ok {T : Type} (P : T -> Prop) (E : Encode T) (Dc : Decode T) :
  codec_ok P E Dc -> codec_ok (opt_valid P) (enc_option E) (dec_option Dc).
Proof.
  intros [_ _ Hs Hrt]. split; [done..| |].
  - intros [t|] Hv; [|exists 1; by cbn]. destruct (Hs t Hv) as (n & Hn & H0 & _).
    exists (1 + n). cbn. rewrite Hn. cbn. split_and!; [done|lia|done].
  - intros [t|] n Hv Hn Hlt; cbn in Hn.
    + apply res_bind_Ret in Hn as (m & Hm & [= <-]).
      destruct (Hrt t m Hv Hm) as (bs & Ha & Hl & Hb & Hd); [lia|].
      exists (1 :: bs). cbn. rewrite Ha. cbn. rewrite zlen_cons, Hl.
      split_and!; [done..| |].
      * constructor; [|done]. unfold is_u. lia.
      * rewrite read_first. cbn [try_bind res_bind lookup list_lookup default from_option id].
        cbn [Z.eqb]. rewrite drop_0, Hd. done.
    + injection Hn as <-. exists [0]. cbn. split_and!; [done..| |done].
      repeat constructor; unfold is_u; lia.
Qed.

Definition missing_valid {T : Type} (P : T -> Prop) (m : MissingOr T) : Prop :=
  match m with Materialized t => P t | Missing h => zlen h = 32 /\ Forall (is_u 8) h end.

Lemma enc_missing_or_ok {T : Type} (P : T -> Prop) (E : Encode T) (Dc : Decode T) :
  codec_ok P E Dc -> codec_ok (missing_valid P) (enc_missing_or E) (dec_missing_or Dc).
Proof.
  intros [_ _ Hs Hrt]. split; [done..| |].
  - intros [t|h] Hv; [|exists 33; by cbn]. destruct (Hs t Hv) as (n & Hn & H0 & _).
    exists (1 + n). cbn. rewrite Hn. cbn. split_and!; [done|lia|done].
  - intros [t|h] n Hv Hn Hlt; cbn in Hn.
    + apply res_bind_Ret in Hn as (m & Hm & [= <-]).
      destruct (Hrt t m Hv Hm) as (bs & Ha & Hl & Hb & Hd); [lia|].
      exists (0 :: bs). cbn. rewrite Ha. cbn. rewrite zlen_cons, Hl.
      split_and!; [done..| |].
      * constructor; [|done]. unfold is_u. lia.
      * rewrite read_first. cbn [try_bind res_bind lookup list_lookup default from_option id].
        cbn [Z.eqb]. rewrite drop_0, Hd. done.
    + destruct Hv as [Hl Hb]. injection Hn as <-. exists (1 :: h). cbn.
      rewrite zlen_cons, Hl. split_and!; [done..| |].
      * constructor; [|done]. unfold is_u. lia.
      * rewrite read_first. cbn [try_bind res_bind lookup list_lookup default from_option id].
        by rewrite drop_0.
Qed.

(** ** Collections of variable-length elements *)

(** Where each payload starts, the first at [r]. *)
Fixpoint starts (r : Z) (ps : list (list Z)) : list Z :=
  match ps with [] => [] | p :: ps' => r :: starts (r + zlen p) ps' end.

Lemma length_starts r ps : length (starts r ps) = length ps.
Proof. revert r. induction ps; intros r; cbn; auto. Qed.

Lemma zlen_concat_cons (p : list Z) ps : zlen (concat (p :: ps)) = zlen p + zlen (concat ps).
Proof. apply zlen_app. Qed.

Lemma bump_offset_ok r n : 0 <= r -> 0 <= n -> r + n < 2 ^ 32 -> bump_offset r n = Ret (r + n).
Proof.
  intros Hr Hn Hb. unfold bump_offset, checked_add. rewrite wrap_small by (unfold is_u; lia).
  by destruct (Z.ltb_spec (r + n) (2 ^ 32)); [|lia].
Qed.

Lemma offset_table_ok r ps :
  0 <= r -> r + zlen (concat ps) < 2 ^ 32 ->
  offset_table r ps = Ret (concat (map (to_le_bytes 4) (starts r ps))).
Proof.
  revert r. induction ps as [|p ps IH]; intros r Hr Hb; [done|].
  rewrite zlen_concat_cons in Hb. pose proof (zlen_nonneg p). pose proof (zlen_nonneg (concat ps)).
  cbn [offset_table]. rewrite bump_offset_ok by lia. cbn [res_bind].
  by rewrite IH by lia.
Qed.

Lemma starts_bounds r ps i o :
  starts r ps !! i = Some o -> r <= o <= r + zlen (concat ps).
Proof.
  revert r i. induction ps as [|p ps IH]; intros r i H; [done|].
  rewrite zlen_concat_cons. pose proof (zlen_nonneg p). pose proof (zlen_nonneg (concat ps)).
  destruct i as [|i]; cbn in H; [injection H as <-; lia|]. apply IH in H. lia.
Qed.

Lemma starts_mono r ps i o1 o2 :
  starts r ps !! i = Some o1 -> starts r ps !! S i = Some o2 -> o1 <= o2.
Proof.
  revert r i. induction ps as [|p ps IH]; intros r i H1 H2; [done|].
  pose proof (zlen_nonneg p). destruct i as [|i]; cbn in H1, H2.
  - injection H1 as <-. apply starts_bounds in H2. lia.
  - by eapply IH.
Qed.

(** Reading entry [i] of a table of offsets. *)
Lemma read_offset_table offs rest (i : nat) o :
  Forall (is_u 32) offs -> Z.of_nat (length offs) * 4 < 2 ^ 32 -> offs !! i = Some o ->
  read_offset (concat (map (to_le_bytes 4) offs) ++ rest) (Z.of_nat i * 4) = Ret (Ok o).
Proof.
  intros Ho Hlen Hi. pose proof (lookup_lt_Some _ _ _ Hi) as Hlt.
  rewrite <- (take_drop_middle offs i o Hi), map_app, concat_app. cbn [map concat].
  rewrite <- !app_assoc. apply read_offset_app.
  - rewrite (zlen_concat_const _ 4).
    + unfold zlen. rewrite length_map, length_take. lia.
    + apply Forall_map, Forall_true. intros. apply (zlen_le_bytes 4).
  - lia.
  - by eapply Forall_lookup_1.
Qed.

Lemma read_offsets_ok bytes first offs :
  (forall i o, offs !! i = Some o -> read_offset bytes (Z.of_nat i * 4) = Ret (Ok o)) ->
  (forall i o, offs !! i = Some o -> o <= zlen bytes) ->
  (forall i o1 o2, offs !! i = Some o1 -> offs !! S i = Some o2 -> o1 <= o2) ->
  forall n k prev, (S k + n)%nat = length offs -> offs !! k = Some prev ->
  read_offsets bytes first prev (Z.of_nat (S k)) n = Ret (Ok (drop (S k) offs)).
Proof.
  intros Hr Hb Hm. induction n as [|n IH]; intros k prev Hn Hk; cbn [read_offsets].
  - by rewrite drop_ge by lia.
  - destruct (lookup_lt_is_Some_2 offs (S k)) as [o Ho]; [lia|].
    unfold BYTES_PER_LENGTH_OFFSET. rewrite (Hr _ _ Ho). cbn [try_bind res_bind].
    pose proof (Hb _ _ Ho). pose proof (Hm _ _ _ Hk Ho).
    destruct (Z.ltb_spec o prev); [lia|]. destruct (Z.ltb_spec (zlen bytes) o); [lia|].
    replace (Z.of_nat (S k) + 1) with (Z.of_nat (S (S k))) by lia.
    rewrite (IH (S k) o) by (lia || done). cbn [try_bind res_bind].
    by rewrite (drop_S _ _ _ Ho).
Qed.

Lemma decode_windows_ok {T : Type} (dec : list Z -> Res (Result T DecodeError)) ps xs :
  Forall2 (fun p x => dec p = Ret (Ok x)) ps xs ->
  forall pre, decode_windows dec (pre ++ concat ps)
                (starts (zlen pre) ps ++ [zlen (pre ++ concat ps)]) = Ret (Ok xs).
Proof.
  induction 1 as [|p x ps xs Hp H2 IH]; intros pre; [done|].
  specialize (IH (pre ++ p)). rewrite <- app_assoc in IH. cbn [concat starts app].
  rewrite zlen_app in IH.
  assert (forall o os, decode_windows dec (pre ++ p ++ concat ps) (zlen pre :: (o :: os)) =
    (let! s := slice (pre ++ p ++ concat ps) (zlen pre) o in
     let* t := dec s in
     let* ts := decode_windows dec (pre ++ p ++ concat ps) (o :: os) in Ret (Ok (t :: ts)))) as U
    by done.
  destruct ps as [|p' ps'].
  - cbn [starts app] in *. rewrite U.
    rewrite slice_app by (done || (cbn [concat]; rewrite !zlen_app; unfold zlen; cbn; lia)).
    cbn [res_bind]. rewrite Hp. cbn [try_bind res_bind]. by rewrite IH.
  - cbn [starts app] in *. rewrite U, slice_app by done.
    cbn [res_bind]. rewrite Hp. cbn [try_bind res_bind]. by rewrite IH.
Qed.

(** A list of payloads behind its offset table decodes piece by piece. *)
Lemma var_list_decodes {T : Type} (Dc : Decode T) ps xs exp :
  Forall2 (fun p x => from_ssz_bytes Dc p = Ret (Ok x)) ps xs ->
  zlen ps * 4 + zlen (concat ps) < 2 ^ 32 ->
  match exp with Some n => n = zlen ps | None => True end ->
  exists bs, encode_var_list_payloads ps = Ret bs /\
    zlen bs = zlen ps * 4 + zlen (concat ps) /\
    (Forall (Forall (is_u 8)) ps -> Forall (is_u 8) bs) /\
    decode_var_collection Dc bs exp = Ret (Ok xs).
Proof.
  intros H2 Hb Hexp. pose proof (zlen_nonneg (concat ps)). pose proof (zlen_nonneg ps).
  unfold encode_var_list_payloads, BYTES_PER_LENGTH_OFFSET.
  rewrite wrap_small by (unfold is_u; lia). rewrite offset_table_ok by lia. cbn [res_bind].
  set (offs := starts (zlen ps * 4) ps). set (table := concat (map (to_le_bytes 4) offs)).
  assert (zlen table = zlen ps * 4) as Ht.
  { unfold table. rewrite (zlen_concat_const _ 4).
    - unfold offs, zlen. rewrite length_map, length_starts. lia.
    - apply Forall_map, Forall_true. intros. apply (zlen_le_bytes 4). }
  exists (table ++ concat ps). split_and!; [done|by rewrite zlen_app, Ht| |].
  { intros Hbytes. apply Forall_app. split; [|by apply concat_bytes].
    apply concat_bytes, Forall_map, Forall_true. intros. apply to_le_bytes_bytes. }
  destruct (decide (ps = [])) as [->|Hne].
  { inversion H2; subst. cbn. by destruct exp as [n|]; [subst|]. }
  assert (0 < zlen ps) by (destruct ps; [done|]; rewrite zlen_cons; pose proof (zlen_nonneg ps); lia).
  assert (forall i o, offs !! i = Some o -> read_offset (table ++ concat ps) (Z.of_nat i * 4) = Ret (Ok o)) as Hr.
  { intros i o Ho. apply read_offset_table; [|unfold offs; rewrite length_starts; unfold zlen in *; lia|done].
    apply Forall_lookup_2. intros j o' Ho'. apply starts_bounds in Ho'. unfold is_u. lia. }
  assert (offs !! 0%nat = Some (zlen ps * 4)) as Hz
    by (unfold offs; by destruct ps).
  unfold decode_var_collection. destruct (table ++ concat ps) as [|b bs] eqn:Eb.
  { apply (f_equal zlen) in Eb. rewrite zlen_app in Eb. change (zlen []) with 0 in Eb. lia. }
  rewrite <- Eb in *. pose proof (Hr _ _ Hz) as Hr0. change (Z.of_nat 0 * 4) with 0 in Hr0. rewrite Hr0.
  cbn [try_bind res_bind]. rewrite Z.mod_mul by done. cbn [Z.eqb negb orb].
  rewrite zlen_app, Ht. destruct (Z.ltb_spec (zlen ps * 4 + zlen (concat ps)) (zlen ps * 4)); [lia|].
  unfold BYTES_PER_LENGTH_OFFSET. rewrite Z.div_mul by done.
  replace (match exp with Some e => _ | None => _ end) with (@Ret (Result unit DecodeError) (Ok tt))
    by (destruct exp; [subst; by rewrite Z.eqb_refl|done]).
  cbn [try_bind res_bind].
  rewrite (read_offsets_ok _ _ offs Hr) with (k := 0%nat); cycle 1.
  { intros i o Ho. apply starts_bounds in Ho. rewrite zlen_app, Ht. lia. }
  { intros i o1 o2. apply starts_mono. }
  { unfold offs. rewrite length_starts. unfold zlen in *. lia. }
  { done. }
  cbn [try_bind res_bind]. destruct (Z.eqb_spec (zlen ps) 0); [lia|].
  pose proof (decode_windows_ok (from_ssz_bytes Dc) ps xs H2 table) as W.
  rewrite Ht, zlen_app, Ht in W. fold offs in W.
  replace offs with (zlen ps * 4 :: drop 1 offs) in W; [exact W|].
  by rewrite <- (drop_S offs _ 0 Hz), drop_0.
Qed.

(** ** Encoding the elements of a collection *)

Lemma res_mapM_Forall2 {A B : Type} (f : A -> Res B) l bs :
  res_mapM f l = Ret bs <-> Forall2 (fun a b => f a = Ret b) l bs.
Proof.
  revert bs. induction l as [|a l IH]; intros bs; cbn.
  - split; [intros [= <-]; constructor|by inversion 1].
  - rewrite res_bind_Ret. split.
    + intros (b & Hb & H). apply res_bind_Ret in H as (bs' & Hbs & [= <-]).
      constructor; [done|]. by apply IH.
    + inversion 1 as [|? b ? bs' Hb Hbs]; subst. exists b. split; [done|].
      apply res_bind_Ret. exists bs'. by rewrite IH.
Qed.

Lemma items_sizes {T : Type} (P : T -> Prop) (E : Encode T) (Dc : Decode T) xs :
  codec_ok P E Dc -> Forall P xs ->
  exists ns, res_mapM (ssz_bytes_len E) xs = Ret ns /\ Forall (fun n => 0 <= n) ns /\
             (is_ssz_fixed_len E = true -> Forall (fun n => n = ssz_fixed_len E) ns).
Proof.
  intros [_ _ Hs _]. induction 1 as [|x xs Hx _ (ns & Hn & H0 & Hf)]; [exists []; auto|].
  destruct (Hs x Hx) as (n & Hn1 & H01 & Hf1). exists (n :: ns). cbn. rewrite Hn1, Hn. cbn. auto.
Qed.

Lemma items_payloads {T : Type} (P : T -> Prop) (E : Encode T) (Dc : Decode T) xs ns :
  codec_ok P E Dc -> Forall P xs -> res_mapM (ssz_bytes_len E) xs = Ret ns ->
  Forall (fun n => 0 <= n) ns -> sumZ ns < 2 ^ 32 ->
  exists ps, res_mapM (ssz_append E) xs = Ret ps /\ map zlen ps = ns /\
             Forall (Forall (is_u 8)) ps /\
             Forall2 (fun p x => from_ssz_bytes Dc p = Ret (Ok x)) ps xs.
Proof.
  intros [_ _ _ Hrt] HP. revert ns. induction HP as [|x xs Hx _ IH]; intros ns Hn H0 Hb.
  - injection Hn as <-. exists []. by cbn.
  - cbn in Hn. apply res_bind_Ret in Hn as (n & Hn & H). apply res_bind_Ret in H as (ns' & Hns & [= <-]).
    inversion H0 as [|? ? Hn0 H0']; subst. cbn in Hb.
    assert (0 <= sumZ ns') by (clear - H0'; induction H0'; cbn; lia).
    destruct (IH ns' Hns H0') as (ps & Hps & Hl & Hbs & H2); [lia|].
    destruct (Hrt x n Hx Hn) as (p & Hp & Hlp & Hbp & Hdp); [lia|].
    exists (p :: ps). cbn. rewrite Hp, Hps. cbn. rewrite Hlp, Hl. auto.
Qed.

Lemma zlen_concat_sum (ps : list (list Z)) : zlen (concat ps) = sumZ (map zlen ps).
Proof. induction ps as [|p ps IH]; [done|]. rewrite zlen_concat_cons, IH. done. Qed.

Lemma sumZ_const ns c : Forall (fun n => n = c) ns -> sumZ ns = c * zlen ns.
Proof.
  induction 1 as [|n ns -> _ IH]; [rewrite (@zlen_nil Z); cbn [sumZ]; lia|].
  rewrite zlen_cons. cbn [sumZ]. lia.
Qed.

Lemma sumZ_nonneg ns : Forall (fun n => 0 <= n) ns -> 0 <= sumZ ns.
Proof. induction 1; cbn; lia. Qed.

Lemma zlen_map {A B : Type} (f : A -> B) l : zlen (map f l) = zlen l.
Proof. unfold zlen. by rewrite length_map. Qed.

Lemma Forall2_zlen {A B : Type} (R : A -> B -> Prop) l k : Forall2 R l k -> zlen l = zlen k.
Proof. intros H. unfold zlen. by rewrite (Forall2_length H). Qed.

Lemma map_zlen_const (ps : list (list Z)) c :
  Forall (fun n => n = c) (map zlen ps) -> Forall (fun p => zlen p = c) ps.
Proof. apply Forall_map. Qed.

(** The facts about the elements that every collection needs: the total size,
    and the payloads with what they decode to. *)
Lemma items_ok {T : Type} (P : T -> Prop) (E : Encode T) (Dc : Decode T) xs :
  codec_ok P E Dc -> Forall P xs ->
  exists ns, res_mapM (ssz_bytes_len E) xs = Ret ns /\ 0 <= sumZ ns /\ zlen ns = zlen xs /\
    (is_ssz_fixed_len E = true -> sumZ ns = ssz_fixed_len E * zlen xs) /\
    (sumZ ns < 2 ^ 32 ->
     exists ps, res_mapM (ssz_append E) xs = Ret ps /\ zlen ps = zlen xs /\
       zlen (concat ps) = sumZ ns /\ Forall (Forall (is_u 8)) ps /\
       (is_ssz_fixed_len E = true -> Forall (fun p => zlen p = ssz_fixed_len E) ps) /\
       Forall2 (fun p x => from_ssz_bytes Dc p = Ret (Ok x)) ps xs).
Proof.
  intros C HP. destruct (items_sizes P E Dc xs C HP) as (ns & Hn & H0 & Hf).
  assert (zlen ns = zlen xs) as Hl by (apply res_mapM_Forall2, Forall2_zlen in Hn; done).
  exists ns. split_and!; [done|by apply sumZ_nonneg|done| |].
  - intros F. rewrite <- Hl. by apply sumZ_const, Hf.
  - intros Hb. destruct (items_payloads P E Dc xs ns C HP Hn H0 Hb) as (ps & Hps & Hm & Hbs & H2).
    exists ps. split_and!; [done|by apply Forall2_zlen in H2|by rewrite zlen_concat_sum, Hm|done| |done].
    intros F. apply map_zlen_const. rewrite Hm. by apply Hf.
Qed.

(** [Vec], [SmallVec] and [List]: the bound is on the number of elements, and
    fixed-size elements must take some room. *)
Lemma enc_list_ok {T : Type} (P : T -> Prop) (E : Encode T) (Dc : Decode T) cap :
  codec_ok P E Dc -> (is_ssz_fixed_len E = true -> 0 < ssz_fixed_len E) ->
  codec_ok (fun xs => Forall P xs /\ zlen xs <= cap) (enc_vec E) (dec_list Dc cap).
Proof.
  intros C Hpos. split; [done..| |].
  - intros xs [HP _]. destruct (items_ok P E Dc xs C HP) as (ns & Hn & H0 & _ & Hf & _).
    pose proof (zlen_nonneg xs). cbn. unfold items_len, BYTES_PER_LENGTH_OFFSET.
    destruct (is_ssz_fixed_len E) eqn:F.
    + eexists. split_and!; [done| |done]. specialize (Hpos eq_refl). nia.
    + rewrite Hn. eexists. split_and!; [done|lia|done].
  - intros xs n [HP Hcap] Hn Hb.
    destruct (items_ok P E Dc xs C HP) as (ns & Hns & H0 & Hl & Hf & Hps).
    cbn in Hn |- *. unfold items_len, encode_items, decode_list in *.
    rewrite (ck_fixed _ _ _ C), (ck_len _ _ _ C). pose proof (zlen_nonneg xs).
    destruct (is_ssz_fixed_len E) eqn:F.
    + specialize (Hf eq_refl). specialize (Hpos eq_refl). injection Hn as <-. rewrite <- Hf in Hb.
      destruct (Hps Hb) as (ps & Ha & Hlp & Hc & Hbs & Hfp & H2).
      rewrite Ha. exists (concat ps). cbn [res_bind].
      rewrite Hc, Hf. split_and!; [done|done|by apply concat_bytes|].
      destruct (Z.eqb_spec (ssz_fixed_len E) 0); [lia|].
      rewrite Z.mul_comm, Z.mod_mul by lia. cbn [Z.eqb negb]. rewrite Z.div_mul by lia.
      destruct (Z.ltb_spec cap (zlen xs)); [lia|].
      unfold decode_fixed_items. rewrite <- Hlp. by apply pieces_all, H2; auto.
    + rewrite Hns in Hn. injection Hn as <-. unfold BYTES_PER_LENGTH_OFFSET in *.
      destruct Hps as (ps & Ha & Hlp & Hc & Hbs & _ & H2); [lia|]. rewrite Ha. cbn [res_bind].
      destruct (var_list_decodes Dc ps xs None H2) as (bs & He & Hlb & Hbb & Hd); [lia|done|].
      exists bs. rewrite Hlb, Hlp, Hc, Hd. split_and!; [done..|by apply Hbb|]. cbn [try_bind res_bind].
      by destruct (Z.ltb_spec cap (zlen xs)); [lia|].
Qed.

Lemma enc_vec_ok {T : Type} (P : T -> Prop) (E : Encode T) (Dc : Decode T) :
  codec_ok P E Dc -> (is_ssz_fixed_len E = true -> 0 < ssz_fixed_len E) ->
  codec_ok (fun xs => Forall P xs /\ zlen xs <= MAX_VEC_LEN) (enc_vec E) (dec_vec Dc).
Proof. apply enc_list_ok. Qed.

Lemma enc_fixed_vector_ok {T : Type} (P : T -> Prop) (E : Encode T) (Dc : Decode T) n :
  codec_ok P E Dc -> 0 <= ssz_fixed_len E -> 0 <= n ->
  codec_ok (fun xs => Forall P xs /\ zlen xs = n) (enc_fixed_vector E n) (dec_fixed_vector Dc n).
Proof.
  intros C H0 Hn0. split; cbn.
  - apply C.
  - by rewrite (ck_fixed _ _ _ C), (ck_len _ _ _ C).
  - intros xs [HP Hl]. destruct (items_ok P E Dc xs C HP) as (ns & Hn & Hs & _ & _ & _).
    destruct (is_ssz_fixed_len E); [eexists; split_and!; [done|nia|done]|].
    rewrite Hn. eexists. unfold BYTES_PER_LENGTH_OFFSET. split_and!; [done|lia|done].
  - intros xs m [HP <-] Hm Hb. destruct (items_ok P E Dc xs C HP) as (ns & Hns & Hs & Hl & Hf & Hps).
    unfold encode_items, decode_fixed_vector. rewrite (ck_fixed _ _ _ C), (ck_len _ _ _ C).
    destruct (is_ssz_fixed_len E) eqn:F.
    + specialize (Hf eq_refl). injection Hm as <-. rewrite <- Hf in Hb.
      destruct (Hps Hb) as (ps & Ha & Hlp & Hc & Hbs & Hfp & H2). rewrite Ha.
      exists (concat ps). cbn [res_bind]. rewrite Hc, Hf. unfold saturating_mul.
      rewrite Z.min_l by lia. rewrite Z.eqb_refl.
      split_and!; [done..|by apply concat_bytes|].
      unfold decode_fixed_items. rewrite <- Hlp. by apply pieces_all, H2; auto.
    + rewrite Hns in Hm. injection Hm as <-. unfold BYTES_PER_LENGTH_OFFSET in *.
      destruct Hps as (ps & Ha & Hlp & Hc & Hbs & _ & H2); [lia|]. rewrite Ha. cbn [res_bind].
      destruct (var_list_decodes Dc ps xs (Some (zlen xs)) H2) as (bs & He & Hlb & Hbb & Hd); [lia|done|].
      exists bs. rewrite Hlb, Hlp, Hc, Hd. split_and!; [done..|by apply Hbb|done].
Qed.

Lemma read_offset_head (b : list Z) o :
  is_u 32 o -> read_offset (to_le_bytes 4 o ++ b) 0 = Ret (Ok o).
Proof. intros Ho. by apply (read_offset_app []). Qed.

(** ** Pairs *)

Section Pair.
  Context {A B : Type} (P : A -> Prop) (Q : B -> Prop).
  Context (EA : Encode A) (DA : Decode A) (EB : Encode B) (DB : Decode B).
  Context (CA : codec_ok P EA DA) (CB : codec_ok Q EB DB).
  Context (HA : 0 <= ssz_fixed_len EA) (HB : 0 <= ssz_fixed_len EB).

(** What the components' laws give for one pair of a known size. *)
Definition pair_parts (a : A) (b : B) (pa pb : list Z) : Prop :=
  ssz_append EA a = Ret pa /\ ssz_append EB b = Ret pb /\
  Forall (is_u 8) pa /\ Forall (is_u 8) pb /\
  from_ssz_bytes DA pa = Ret (Ok a) /\ from_ssz_bytes DB pb = Ret (Ok b) /\
  (is_ssz_fixed_len EA = true -> zlen pa = ssz_fixed_len EA) /\
  (is_ssz_fixed_len EB = true -> zlen pb = ssz_fixed_len EB).

Lemma pair_parts_intro a b na nb :
  P a -> Q b -> ssz_bytes_len EA a = Ret na -> ssz_bytes_len EB b = Ret nb ->
  na < 2 ^ 32 -> nb < 2 ^ 32 ->
  exists pa pb, pair_parts a b pa pb /\ zlen pa = na /\ zlen pb = nb.
Proof using CA CB.
  intros HP HQ Ha Hb La Lb.
  destruct (ck_rt _ _ _ CA a na HP Ha La) as (pa & ? & ? & ? & ?).
  destruct (ck_rt _ _ _ CB b nb HQ Hb Lb) as (pb & ? & ? & ? & ?).
  destruct (ck_size _ _ _ CA a HP) as (na' & E1 & _ & Fa). rewrite Ha in E1. injection E1 as <-.
  destruct (ck_size _ _ _ CB b HQ) as (nb' & E2 & _ & Fb). rewrite Hb in E2. injection E2 as <-.
  exists pa, pb. split_and!; [|done..]. split_and!; try done; intros ?; subst; auto.
Qed.

Ltac pair_start :=
  unfold decode_container_pair, dec_slot_len, slot_len, BYTES_PER_LENGTH_OFFSET in *;
  rewrite ?(ck_fixed _ _ _ CA), ?(ck_fixed _ _ _ CB), ?(ck_len _ _ _ CA), ?(ck_len _ _ _ CB).

Lemma pair_fixed_var a b pa pb :
  pair_parts a b pa pb -> is_ssz_fixed_len EA = true -> is_ssz_fixed_len EB = false ->
  ssz_fixed_len EA + 4 + zlen pb < 2 ^ 32 ->
  let bs := pa ++ to_le_bytes 4 (ssz_fixed_len EA + 4) ++ pb in
  encode_container_pair EA EB a b = Ret bs /\
  decode_container_pair DA DB bs = Ret (Ok (a, b)).
Proof using CA CB HA.
  intros (Ha & Hb & _ & _ & Da & Db & La & _) FA FB Hlt bs. specialize (La FA).
  pose proof (zlen_nonneg pb). split.
  - unfold encode_container_pair, slot_len, BYTES_PER_LENGTH_OFFSET. rewrite FA, FB, Ha. cbn [res_bind].
    unfold copy_exact. rewrite La, Z.eqb_refl. cbn [res_bind]. rewrite Hb. cbn [res_bind].
    rewrite wrap_small by (unfold is_u; lia). done.
  - pair_start. rewrite FA, FB. unfold bs. rewrite !zlen_app, zlen_le_bytes, La.
    destruct (Z.ltb_spec (ssz_fixed_len EA + (Z.of_nat 4 + zlen pb)) (ssz_fixed_len EA + 4)); [lia|].
    cbn [try_bind res_bind]. rewrite read_offset_app by (lia || (unfold is_u; lia)).
    cbn [try_bind res_bind]. rewrite Z.ltb_irrefl. cbn [default from_option id].
    rewrite slice_prefix by done. cbn [res_bind]. rewrite Da. cbn [try_bind res_bind].
    destruct (Z.ltb_spec (ssz_fixed_len EA + (Z.of_nat 4 + zlen pb)) (ssz_fixed_len EA + 4)); [lia|].
    rewrite app_assoc, slice_suffix by (rewrite !zlen_app, zlen_le_bytes; lia).
    cbn [res_bind]. by rewrite Db.
Qed.

Lemma pair_var_fixed a b pa pb :
  pair_parts a b pa pb -> is_ssz_fixed_len EA = false -> is_ssz_fixed_len EB = true ->
  4 + ssz_fixed_len EB + zlen pa < 2 ^ 32 ->
  let bs := to_le_bytes 4 (4 + ssz_fixed_len EB) ++ pb ++ pa in
  encode_container_pair EA EB a b = Ret bs /\
  decode_container_pair DA DB bs = Ret (Ok (a, b)).
Proof using CA CB HB.
  intros (Ha & Hb & _ & _ & Da & Db & _ & Lb) FA FB Hlt bs. specialize (Lb FB).
  pose proof (zlen_nonneg pa). split.
  - unfold encode_container_pair, slot_len, BYTES_PER_LENGTH_OFFSET. rewrite FA, FB, Ha. cbn [res_bind].
    rewrite wrap_small by (unfold is_u; lia). rewrite bump_offset_ok by lia. cbn [res_bind].
    rewrite Hb. cbn [res_bind]. unfold copy_exact. rewrite Lb, Z.eqb_refl. cbn [res_bind].
    by rewrite app_nil_r.
  - pair_start. rewrite FA, FB. unfold bs. rewrite !zlen_app, zlen_le_bytes, Lb.
    destruct (Z.ltb_spec (Z.of_nat 4 + (ssz_fixed_len EB + zlen pa)) (4 + ssz_fixed_len EB)); [lia|].
    rewrite read_offset_head by (unfold is_u; lia).
    cbn [try_bind res_bind]. rewrite Z.ltb_irrefl. cbn [default from_option id try_bind res_bind].
    rewrite Z.ltb_irrefl. destruct (Z.ltb_spec (Z.of_nat 4 + (ssz_fixed_len EB + zlen pa)) (4 + ssz_fixed_len EB)); [lia|].
    cbn [orb]. rewrite app_assoc.
    rewrite slice_suffix by (rewrite !zlen_app, zlen_le_bytes; lia).
    cbn [res_bind]. rewrite Da. cbn [try_bind res_bind]. rewrite <- app_assoc.
    rewrite slice_app by (rewrite ?zlen_le_bytes; lia). cbn [res_bind]. by rewrite Db.
Qed.

Lemma pair_var_var a b pa pb :
  pair_parts a b pa pb -> is_ssz_fixed_len EA = false -> is_ssz_fixed_len EB = false ->
  8 + zlen pa + zlen pb < 2 ^ 32 ->
  let bs := to_le_bytes 4 8 ++ to_le_bytes 4 (8 + zlen pa) ++ pa ++ pb in
  encode_container_pair EA EB a b = Ret bs /\
  decode_container_pair DA DB bs = Ret (Ok (a, b)).
Proof using CA CB.
  intros (Ha & Hb & _ & _ & Da & Db & _ & _) FA FB Hlt bs.
  pose proof (zlen_nonneg pa). pose proof (zlen_nonneg pb). split.
  - unfold encode_container_pair, slot_len, BYTES_PER_LENGTH_OFFSET. rewrite FA, FB, Ha. cbn [res_bind].
    rewrite wrap_small by (unfold is_u; lia). change (4 + 4) with 8.
    rewrite bump_offset_ok by lia. cbn [res_bind]. by rewrite Hb.
  - pair_start. rewrite FA, FB. unfold bs. rewrite !zlen_app, !zlen_le_bytes. change (4 + 4) with 8.
    set (len := Z.of_nat 4 + _). assert (len = 8 + zlen pa + zlen pb) as Hl by (unfold len; lia).
    clearbody len. destruct (Z.ltb_spec len 8); [lia|].
    rewrite read_offset_head by (unfold is_u; lia).
    cbn [try_bind res_bind].
    rewrite read_offset_app by (rewrite ?zlen_le_bytes; done || lia || (unfold is_u; lia)).
    cbn [try_bind res_bind default from_option id]. rewrite Z.ltb_irrefl.
    destruct (Z.ltb_spec (8 + zlen pa) 8); [lia|]. cbn [try_bind res_bind].
    destruct (Z.ltb_spec len (8 + zlen pa)); [lia|]. cbn [orb].
    rewrite (app_assoc (to_le_bytes 4 8)), slice_app by (rewrite ?zlen_app, ?zlen_le_bytes; lia).
    cbn [res_bind]. rewrite Da. cbn [try_bind res_bind]. rewrite (app_assoc _ pa).
    rewrite slice_suffix by (rewrite !zlen_app, !zlen_le_bytes; lia). cbn [res_bind]. by rewrite Db.
Qed.

Lemma enc_pair_ok :
  codec_ok (fun ab => P (fst ab) /\ Q (snd ab)) (enc_pair EA EB) (dec_pair DA DB).
Proof using CA CB HA HB.
  split; cbn.
  - by rewrite (ck_fixed _ _ _ CA), (ck_fixed _ _ _ CB).
  - by rewrite (ck_fixed _ _ _ CA), (ck_fixed _ _ _ CB), (ck_len _ _ _ CA), (ck_len _ _ _ CB).
  - intros [a b] [HP HQ]. destruct (ck_size _ _ _ CA a HP) as (na & Ha & Ha0 & FA).
    destruct (ck_size _ _ _ CB b HQ) as (nb & Hb & Hb0 & FB). cbn [fst snd].
    unfold pair_len, slot_len, BYTES_PER_LENGTH_OFFSET. rewrite Ha, Hb.
    destruct (is_ssz_fixed_len EA), (is_ssz_fixed_len EB); cbn [andb res_bind];
      eexists; split_and!; (reflexivity || lia || done).
  - intros [a b] n [HP HQ] Hn Hlt. cbn [fst snd] in *.
    destruct (ck_size _ _ _ CA a HP) as (na & Ha & Ha0 & FA).
    destruct (ck_size _ _ _ CB b HQ) as (nb & Hb & Hb0 & FB).
    unfold pair_len, slot_len, BYTES_PER_LENGTH_OFFSET in Hn. rewrite Ha, Hb in Hn.
    assert (na < 2 ^ 32 /\ nb < 2 ^ 32) as [La Lb].
    { destruct (is_ssz_fixed_len EA), (is_ssz_fixed_len EB); cbn in Hn; injection Hn as <-;
        rewrite ?FA, ?FB by done; lia. }
    destruct (pair_parts_intro a b na nb HP HQ Ha Hb La Lb) as (pa & pb & Hp & Za & Zb).
    pose proof Hp as (Hpa & Hpb & Ba & Bb & Da & Db & _ & _).
    pose proof (pair_fixed_var a b pa pb Hp) as C1. pose proof (pair_var_fixed a b pa pb Hp) as C2.
    pose proof (pair_var_var a b pa pb Hp) as C3.
    rewrite (ck_fixed _ _ _ CA), (ck_fixed _ _ _ CB), (ck_len _ _ _ CA), (ck_len _ _ _ CB).
    destruct (is_ssz_fixed_len EA), (is_ssz_fixed_len EB); cbn [andb res_bind] in *; injection Hn as <-.
    + rewrite Hpa, Hpb. cbn [res_bind]. exists (pa ++ pb). rewrite zlen_app, Za, Zb, FA, FB, Z.eqb_refl by done.
      split_and!; [done..|by apply Forall_app|].
      rewrite slice_prefix by (rewrite Za, FA by done; done). cbn [res_bind]. rewrite Da. cbn [try_bind res_bind].
      rewrite slice_suffix by (rewrite ?zlen_app, Za, ?Zb, ?FA, ?FB by done; done).
      cbn [res_bind]. by rewrite Db.
    + destruct C1 as [-> C1]; [done..|lia|]. eexists. split_and!; [done| | |exact C1].
      * rewrite !zlen_app, zlen_le_bytes, Za, Zb, FA by done. lia.
      * repeat apply Forall_app_2; auto using to_le_bytes_bytes.
    + destruct C2 as [-> C2]; [done..|lia|]. eexists. split_and!; [done| | |exact C2].
      * rewrite !zlen_app, zlen_le_bytes, Za, Zb, FB by done. lia.
      * repeat apply Forall_app_2; auto using to_le_bytes_bytes.
    + destruct C3 as [-> C3]; [done..|lia|]. eexists. split_and!; [done| | |exact C3].
      * rewrite !zlen_app, !zlen_le_bytes, Za, Zb. lia.
      * repeat apply Forall_app_2; auto using to_le_bytes_bytes.
Qed.
End Pair.

(** ** Maps *)

Section Map.
  Context {K V : Type} `{HK : OrdKey K} (P : K -> Prop) (Q : V -> Prop).
  Context (EK : Encode K) (DK : Decode K) (EV : Encode V) (DV : Decode V).
  Context (CK : codec_ok P EK DK) (CV : codec_ok Q EV DV).
  Context (HPos : 0 < ssz_fixed_len EK) (HVpos : 0 <= ssz_fixed_len EV).

(** A map is written exactly as the list of its entries. *)
Lemma enc_btreemap_as_vec m :
  ssz_bytes_len (enc_btreemap EK EV) m = ssz_bytes_len (enc_vec (enc_pair EK EV)) m /\
  ssz_append (enc_btreemap EK EV) m = ssz_append (enc_vec (enc_pair EK EV)) m.
Proof.
  cbn. unfold items_len, encode_items. cbn.
  destruct (is_ssz_fixed_len EK && is_ssz_fixed_len EV); done.
Qed.

Lemma keys_ascend_ok (m : OrdMap K V) : om_ok m -> keys_ascend (K:=K) (V:=V) None m = true.
Proof.
  assert (forall (m : OrdMap K V) p, om_ok m -> Forall (fun kv => key_lt p (fst kv)) m ->
          keys_ascend (K:=K) (V:=V) (Some p) m = true) as Hgen.
  { clear m. intros m. induction m as [|[k v] m IH]; intros p Hm Hp; [done|]. cbn.
    apply om_ok_cons in Hm as [Hm Hk]. apply Forall_cons_iff in Hp as [Hpk Hp].
    cbn in Hpk. unfold key_lt in Hpk. rewrite cmp_antisym, Hpk. cbn. by apply IH. }
  destruct m as [|[k v] m]; intros Hm; [done|]. cbn. apply om_ok_cons in Hm as [Hm Hk].
  by apply Hgen.
Qed.

(** Reading a map is reading the list of its entries, then the order test. *)
Lemma dec_btreemap_of_list cap bs entries :
  decode_list (dec_pair DK DV) bs cap = Ret (Ok entries) -> om_ok entries ->
  from_ssz_bytes (dec_btreemap DK DV) bs = Ret (Ok entries).
Proof.
  intros Hd Hm. unfold decode_list in Hd.
  change (from_ssz_bytes (dec_btreemap DK DV) bs) with
    (let DP := dec_pair DK DV in
     let* entries :=
      (if dec_is_fixed DP then
         let elem := dec_fixed_len DP in
         if elem =? 0 then Ret (Err CustomError)
         else if negb (zlen bs mod elem =? 0)
         then Ret (Err (LengthMismatch (div_ceil (zlen bs) elem * elem) (zlen bs)))
         else decode_fixed_items DP bs (zlen bs / elem) elem
       else decode_var_collection DP bs None) in
     if keys_ascend None entries then Ret (Ok (om_of_list entries)) else Ret (Err NotSorted)).
  cbv zeta in *. pose proof (keys_ascend_ok entries Hm) as Hk.
  pose proof (om_of_list_sorted entries Hm) as Ho.
  destruct (dec_is_fixed (dec_pair DK DV)).
  - destruct (dec_fixed_len (dec_pair DK DV) =? 0); [done|].
    destruct (negb _); [done|]. destruct (cap <? _); [done|].
    rewrite Hd. cbn [try_bind res_bind]. by rewrite Hk, Ho.
  - destruct (decode_var_collection (dec_pair DK DV) bs None) as [[es|]|]; cbn [try_bind res_bind] in *;
      [|done..].
    destruct (cap <? zlen es); [done|]. injection Hd as ->. by rewrite Hk, Ho.
Qed.

Lemma enc_btreemap_ok :
  codec_ok (fun m => om_ok m /\ Forall (fun kv => P (fst kv) /\ Q (snd kv)) m)
    (enc_btreemap EK EV) (dec_btreemap DK DV).
Proof using CK CV HPos HVpos.
  pose proof (fun cap => enc_list_ok _ _ _ cap
    (enc_pair_ok P Q EK DK EV DV CK CV ltac:(lia) HVpos)) as C.
  assert (is_ssz_fixed_len (enc_pair EK EV) = true -> 0 < ssz_fixed_len (enc_pair EK EV)) as Hp.
  { cbn. intros ->. lia. }
  split; [done..| |].
  - intros m [Hm HF]. rewrite (proj1 (enc_btreemap_as_vec m)).
    destruct (ck_size _ _ _ (C (zlen m) Hp) m) as (n & ? & ? & ?); [by split|]. by exists n.
  - intros m n [Hm HF]. rewrite (proj1 (enc_btreemap_as_vec m)), (proj2 (enc_btreemap_as_vec m)).
    intros Hn Hlt. destruct (ck_rt _ _ _ (C (zlen m) Hp) m n) as (bs & ? & ? & ? & Hd); [by split|done..|].
    exists bs. split_and!; [done..|]. by apply dec_btreemap_of_list with (cap := zlen m).
Qed.
End Map.
