(* ===== verification/SszContainer.v ===== *)
(** The code [ssz-derive] generates for structs, modelled over a
    heterogeneous list of fields: the container layout of
    [src/rust/ssz-derive/src/container.rs] (fixed fields inline, variable
    fields behind a four-byte offset, payloads after the fixed region), its
    decoder in two passes, the tagged form of enums, and the law that a
    derived codec is a round trip when the codecs of its fields are. *)

From Stdlib Require Import ZArith Lia List Bool.
From stdpp Require Import base list numbers tactics.
From S2P Require Import Prelude MachineInt Merkle Ssz SszFacts.
Open Scope Z_scope.

(** The fields of a struct, in declaration order, with the codec of each;
    a struct's value is the nested pair of its fields. *)
Inductive fields : Type -> Type :=
| FNil : fields unit
| FCons {A B : Type} (E : Encode A) (Dc : Decode A) (fs : fields B) : fields (A * B).

(** ** Encoding *)

Fixpoint fields_fixed {T : Type} (fs : fields T) : bool :=
  match fs with
  | FNil => true
  | FCons E _ r => is_ssz_fixed_len E && fields_fixed r
  end.

(** [__fixed_size]: the inline size of each field. *)
Fixpoint fields_size {T : Type} (fs : fields T) : Z :=
  match fs with
  | FNil => 0
  | FCons E _ r => slot_len E + fields_size r
  end.

(** The variable terms of [container_bytes_len_expr]. *)
Fixpoint var_total {T : Type} (fs : fields T) : T -> Res Z :=
  match fs with
  | FNil => fun _ => Ret 0
  | FCons E _ r => fun v =>
      let! n := (if is_ssz_fixed_len E then Ret 0 else ssz_bytes_len E (fst v)) in
      let! m := var_total r (snd v) in Ret (n + m)
  end.

Definition container_bytes_len {T : Type} (fs : fields T) (v : T) : Res Z :=
  let! vars := var_total fs v in Ret (fields_size fs + vars).

(** Every field encoded into its own buffer, with whether it is inline. *)
Fixpoint pre_encode {T : Type} (fs : fields T) : T -> Res (list (bool * list Z)) :=
  match fs with
  | FNil => fun _ => Ret []
  | FCons E _ r => fun v =>
      let! b := ssz_append E (fst v) in
      let! bs := pre_encode r (snd v) in Ret ((is_ssz_fixed_len E, b) :: bs)
  end.

(** The fixed region: the cursor is written as a [u32], silently wrapped. *)
Fixpoint write_fixed (var_cursor : Z) (tmps : list (bool * list Z)) : list Z :=
  match tmps with
  | [] => []
  | (true, b) :: r => b ++ write_fixed var_cursor r
  | (false, b) :: r => to_le_bytes 4 (wrap 32 var_cursor) ++ write_fixed (var_cursor + zlen b) r
  end.

Fixpoint write_var (tmps : list (bool * list Z)) : list Z :=
  match tmps with
  | [] => []
  | (true, _) :: r => write_var r
  | (false, b) :: r => b ++ write_var r
  end.

Definition container_encode {T : Type} (fs : fields T) (v : T) : Res (list Z) :=
  let! tmps := pre_encode fs v in
  Ret (write_fixed (fields_size fs) tmps ++ write_var tmps).

(** ** Decoding *)

(** The locals [__val_i] and [__off_i]. *)
Fixpoint partials {T : Type} (fs : fields T) : Type :=
  match fs with
  | FNil => unit
  | @FCons A _ _ _ r => ((option A * option Z) * partials r)%type
  end.

Fixpoint dec_fields_size {T : Type} (fs : fields T) : Z :=
  match fs with
  | FNil => 0
  | FCons _ Dc r => dec_slot_len Dc + dec_fields_size r
  end.

Fixpoint dec_fields_fixed {T : Type} (fs : fields T) : bool :=
  match fs with
  | FNil => true
  | FCons _ Dc r => dec_is_fixed Dc && dec_fields_fixed r
  end.

(** Pass 1 walks the fixed region. *)
Fixpoint pass1 {T : Type} (fs : fields T) (bytes : list Z) (cursor : Z) :
  Res (Result (partials fs) DecodeError) :=
  match fs with
  | FNil => Ret (Ok tt)
  | FCons _ Dc r =>
      let sz := if dec_is_fixed Dc then dec_fixed_len Dc else 4 in
      if zlen bytes <? cursor + sz then Ret (Err (UnexpectedEof (cursor + sz) (zlen bytes))) else
      let! s := slice bytes cursor (cursor + sz) in
      let* p := (if dec_is_fixed Dc
                 then let* a := from_ssz_bytes Dc s in Ret (Ok (Some a, None))
                 else Ret (Ok (None, Some (from_le_bytes s)))) in
      let* ps := pass1 r bytes (cursor + sz) in
      Ret (Ok (p, ps))
  end.

(** [__var_positions], the offsets of the variable fields. *)
Fixpoint var_positions {T : Type} (fs : fields T) : partials fs -> Res (list Z) :=
  match fs with
  | FNil => fun _ => Ret []
  | FCons _ Dc r => fun p =>
      let! os := var_positions r (snd p) in
      if dec_is_fixed Dc then Ret os
      else match snd (fst p) with Some o => Ret (o :: os) | None => Abort end
  end.

(** The scan of [windows(2)]: the first pair that descends. *)
Fixpoint first_descent (os : list Z) : option (Z * Z) :=
  match os with
  | o1 :: ((o2 :: _) as r) => if o2 <? o1 then Some (o1, o2) else first_descent r
  | _ => None
  end.

(** Pass 2 reads the variable fields; [os] is what is left of
    [__var_positions], so a field's window ends at the offset after its own,
    or at the end of the input. *)
Fixpoint pass2 {T : Type} (fs : fields T) (bytes : list Z) :
  partials fs -> list Z -> Res (Result T DecodeError) :=
  match fs with
  | FNil => fun _ _ => Ret (Ok tt)
  | @FCons A B _ Dc r => fun p os =>
      if dec_is_fixed Dc then
        match fst (fst p) with
        | None => Abort
        | Some a => let* v := pass2 r bytes (snd p) os in Ret (Ok (a, v))
        end
      else
        match os with
        | [] => Abort
        | start :: os' =>
            let e := match os' with o :: _ => o | [] => zlen bytes end in
            if e <? start then Ret (Err (OffsetsNotMonotonic start e)) else
            let! s := slice bytes start e in
            let* a := from_ssz_bytes Dc s in
            let* v := pass2 r bytes (snd p) os' in Ret (Ok (a, v))
        end
  end.

(** [container_decode_body]. *)
Definition container_decode {T : Type} (fs : fields T) (bytes : list Z) : Res (Result T DecodeError) :=
  let fixed_size := dec_fields_size fs in
  let* ps := pass1 fs bytes 0 in
  let! os := var_positions fs ps in
  match first_descent os with
  | Some (prev, curr) => Ret (Err (OffsetsNotMonotonic prev curr))
  | None =>
      match os with
      | first :: _ =>
          if first =? fixed_size then pass2 fs bytes ps os
          else Ret (Err (InvalidOffset first (zlen bytes) fixed_size))
      | [] =>
          if zlen bytes =? fixed_size then pass2 fs bytes ps os
          else Ret (Err (TrailingBytes fixed_size (zlen bytes)))
      end
  end.

(** ** Derived codecs *)

(** [encode_struct] / [decode_struct]: [to] lists a struct's fields and [mk]
    builds it from them; the structs that derive the codec all have fields. *)
Definition enc_struct {S T : Type} (fs : fields T) (to : S -> T) : Encode S := {|
  is_ssz_fixed_len := fields_fixed fs;
  ssz_fixed_len := fields_size fs;
  is_basic_type := false;
  ssz_bytes_len := fun s => container_bytes_len fs (to s);
  ssz_append := fun s => container_encode fs (to s);
|}.

Definition dec_struct {S T : Type} (fs : fields T) (mk : T -> S) : Decode S := {|
  dec_is_fixed := dec_fields_fixed fs;
  dec_fixed_len := dec_fields_size fs;
  from_ssz_bytes := fun bytes => let* v := container_decode fs bytes in Ret (Ok (mk v));
|}.

(** [#[ssz(transparent)]]: the codec of the one field. *)
Definition enc_transparent {S T : Type} (E : Encode T) (to : S -> T) : Encode S := {|
  is_ssz_fixed_len := is_ssz_fixed_len E;
  ssz_fixed_len := ssz_fixed_len E;
  is_basic_type := is_basic_type E;
  ssz_bytes_len := fun s => ssz_bytes_len E (to s);
  ssz_append := fun s => ssz_append E (to s);
|}.

Definition dec_transparent {S T : Type} (Dc : Decode T) (mk : T -> S) : Decode S := {|
  dec_is_fixed := dec_is_fixed Dc;
  dec_fixed_len := dec_fixed_len Dc;
  from_ssz_bytes := fun bytes => let* v := from_ssz_bytes Dc bytes in Ret (Ok (mk v));
|}.

(** A variant's body: its selector, the length and bytes of its payload. *)
Record Variant (S : Type) : Type := mkVariant {
  v_selector : Z;
  v_len : S -> option (Res Z);
  v_payload : S -> option (Res (list Z));
  v_decode : list Z -> Res (Result S DecodeError);
}.
Arguments mkVariant {S}. Arguments v_selector {S}. Arguments v_len {S}.
Arguments v_payload {S}. Arguments v_decode {S}.

(** A unit variant, and a variant with named fields (an anonymous container). *)
Definition unit_variant {S : Type} (sel : Z) (is_it : S -> bool) (it : S) : Variant S := {|
  v_selector := sel;
  v_len := fun s => if is_it s then Some (Ret 0) else None;
  v_payload := fun s => if is_it s then Some (Ret []) else None;
  v_decode := fun payload =>
    if zlen payload =? 0 then Ret (Ok it) else Ret (Err (TrailingBytes 1 (zlen payload + 1)));
|}.

Definition named_variant {S T : Type} (sel : Z) (fs : fields T) (to : S -> option T) (mk : T -> S) :
  Variant S := {|
  v_selector := sel;
  v_len := fun s => container_bytes_len fs <$> to s;
  v_payload := fun s => container_encode fs <$> to s;
  v_decode := fun payload => let* v := container_decode fs payload in Ret (Ok (mk v));
|}.

(** The arm that matches a value. *)
Fixpoint enum_arm {S X : Type} (proj : Variant S -> S -> option (Res X)) (vs : list (Variant S)) (s : S) :
  option (Z * Res X) :=
  match vs with
  | [] => None
  | v :: vs' => match proj v s with Some x => Some (v_selector v, x) | None => enum_arm proj vs' s end
  end.

Definition enc_enum {S : Type} (vs : list (Variant S)) : Encode S := {|
  is_ssz_fixed_len := false;
  ssz_fixed_len := BYTES_PER_LENGTH_OFFSET;
  is_basic_type := false;
  ssz_bytes_len := fun s =>
    match enum_arm v_len vs s with Some (_, r) => let! n := r in Ret (1 + n) | None => Abort end;
  ssz_append := fun s =>
    match enum_arm v_payload vs s with Some (sel, r) => let! b := r in Ret (sel :: b) | None => Abort end;
|}.

Definition dec_enum {S : Type} (vs : list (Variant S)) : Decode S := {|
  dec_is_fixed := false;
  dec_fixed_len := BYTES_PER_LENGTH_OFFSET;
  from_ssz_bytes := fun bytes =>
    match bytes with
    | [] => Ret (Err (UnexpectedEof 1 0))
    | sel :: payload =>
        match List.find (fun v => v_selector v =? sel) vs with
        | Some v => v_decode v payload
        | None => Ret (Err (InvalidSelector sel))
        end
    end;
|}.

(** [container_hash_root_expr]. *)
Definition container_root {D : Digest} (roots : list (Res Chunk)) : Res Chunk :=
  match roots with
  | [] => Ret zero_chunk
  | _ => let! rs := res_mapM (fun r => r) roots in Ret (merkleize rs (zlen roots))
  end.

(** ** The container law *)

(** The codecs of the fields are round trips on valid values. *)
Inductive fields_ok : forall {T : Type}, fields T -> (T -> Prop) -> Prop :=
| fo_nil : fields_ok FNil (fun _ => True)
| fo_cons {A B : Type} (P : A -> Prop) (Q : B -> Prop) E Dc (fs : fields B) :
    codec_ok P E Dc -> 0 <= ssz_fixed_len E -> fields_ok fs Q ->
    fields_ok (FCons E Dc fs) (fun v => P (fst v) /\ Q (snd v)).

(** The buffers [tmps] are encodings of the fields of [v]. *)
Inductive fields_rep : forall {T : Type}, fields T -> T -> list (bool * list Z) -> Prop :=
| fr_nil : fields_rep FNil tt []
| fr_cons {A B : Type} E Dc (fs : fields B) (a : A) (v : B) b tmps :
    dec_is_fixed Dc = is_ssz_fixed_len E -> dec_fixed_len Dc = ssz_fixed_len E ->
    (is_ssz_fixed_len E = true -> zlen b = ssz_fixed_len E) ->
    Forall (is_u 8) b -> from_ssz_bytes Dc b = Ret (Ok a) -> fields_rep fs v tmps ->
    fields_rep (FCons E Dc fs) (a, v) ((is_ssz_fixed_len E, b) :: tmps).

(** The offsets of the variable buffers, the first one placed at [c]. *)
Fixpoint offsets_of (c : Z) (tmps : list (bool * list Z)) : list Z :=
  match tmps with
  | [] => []
  | (true, _) :: r => offsets_of c r
  | (false, b) :: r => c :: offsets_of (c + zlen b) r
  end.

(** The locals of pass 1 hold the fixed fields of [v]. *)
Fixpoint ps_fits {T : Type} (fs : fields T) : T -> partials fs -> Prop :=
  match fs with
  | FNil => fun _ _ => True
  | FCons _ Dc r => fun v p =>
      (dec_is_fixed Dc = true -> fst (fst p) = Some (fst v)) /\ ps_fits r (snd v) (snd p)
  end.

Lemma offsets_of_head c tmps :
  match offsets_of c tmps with o :: _ => o | [] => c + zlen (write_var tmps) end = c.
Proof.
  revert c. induction tmps as [|[[|] b] r IH]; intros c; cbn; [rewrite zlen_nil; lia|apply IH|done].
Qed.

Lemma offsets_of_ascend c tmps : first_descent (offsets_of c tmps) = None.
Proof.
  revert c. induction tmps as [|[[|] b] r IH]; intros c; cbn; [done|apply IH|].
  specialize (IH (c + zlen b)). pose proof (offsets_of_head (c + zlen b) r) as Hh.
  pose proof (zlen_nonneg b). destruct (offsets_of (c + zlen b) r) as [|o os]; [done|].
  destruct (Z.ltb_spec o c); [lia|done].
Qed.

Lemma zlen_write_fixed {T : Type} (fs : fields T) v tmps c :
  fields_rep fs v tmps -> zlen (write_fixed c tmps) = fields_size fs.
Proof.
  intros H. revert c. induction H as [|A B E Dc fs a v b tmps Hf Hl Hz Hb Hd _ IH]; intros c; [done|].
  cbn [write_fixed fields_size]. unfold slot_len, BYTES_PER_LENGTH_OFFSET.
  destruct (is_ssz_fixed_len E);
    rewrite zlen_app, IH; [rewrite Hz by done; done|by rewrite zlen_le_bytes].
Qed.

Lemma dec_fields_agree {T : Type} (fs : fields T) P :
  fields_ok fs P -> dec_fields_fixed fs = fields_fixed fs /\ dec_fields_size fs = fields_size fs.
Proof.
  induction 1 as [|A B P Q E Dc fs C H0 _ [IH1 IH2]]; [done|]. cbn. unfold dec_slot_len, slot_len.
  by rewrite IH1, IH2, (ck_fixed _ _ _ C), (ck_len _ _ _ C).
Qed.

(** Pass 1 over a written fixed region. *)
Lemma pass1_written {T : Type} (fs : fields T) v tmps :
  fields_rep fs v tmps -> forall pre rest c, 0 <= c -> c + zlen (write_var tmps) < 2 ^ 32 ->
  exists ps, pass1 fs (pre ++ write_fixed c tmps ++ rest) (zlen pre) = Ret (Ok ps) /\
    var_positions fs ps = Ret (offsets_of c tmps) /\ ps_fits fs v ps.
Proof.
  induction 1 as [|A B E Dc fs a v b tmps Hf Hl Hz Hb Hd _ IH]; intros pre rest c Hc Hlt.
  { by exists tt. }
  cbn [pass1 write_fixed offsets_of write_var var_positions ps_fits] in *. rewrite Hf, Hl in *.
  pose proof (zlen_nonneg (write_var tmps)).
  destruct (is_ssz_fixed_len E); cbn [fst snd].
  - specialize (Hz eq_refl). rewrite <- app_assoc, <- Hz, !zlen_app.
    pose proof (zlen_nonneg (write_fixed c tmps)). pose proof (zlen_nonneg rest).
    destruct (Z.ltb_spec (zlen pre + (zlen b + (zlen (write_fixed c tmps) + zlen rest)))
                (zlen pre + zlen b)); [lia|].
    rewrite slice_app by done. cbn [res_bind]. rewrite Hd. cbn [try_bind res_bind].
    destruct (IH (pre ++ b) rest c Hc Hlt) as (ps & Hp & Hv & Hs).
    rewrite <- app_assoc, zlen_app in Hp. rewrite Hp. cbn [try_bind res_bind].
    exists ((Some a, None), ps). cbn. rewrite Hv. split_and!; done.
  - rewrite zlen_app in Hlt. pose proof (zlen_nonneg b). rewrite <- app_assoc, !zlen_app, zlen_le_bytes.
    set (w := write_fixed (c + zlen b) tmps) in *.
    pose proof (zlen_nonneg w). pose proof (zlen_nonneg rest).
    destruct (Z.ltb_spec (zlen pre + (Z.of_nat 4 + (zlen w + zlen rest))) (zlen pre + 4)); [lia|].
    rewrite slice_app by (rewrite ?zlen_le_bytes; lia). cbn [try_bind res_bind].
    rewrite from_to_le_bytes, !wrap_small by (rewrite ?wrap_small; unfold is_u; lia).
    destruct (IH (pre ++ to_le_bytes 4 c) rest (c + zlen b)) as (ps & Hp & Hv & Hs); [lia..|].
    rewrite <- app_assoc, zlen_app, zlen_le_bytes in Hp. change (Z.of_nat 4) with 4 in Hp.
    fold w in Hp. rewrite Hp. cbn [try_bind res_bind].
    exists ((None, Some c), ps). cbn. rewrite Hv. split_and!; done.
Qed.

(** Pass 2 over written payloads. *)
Lemma pass2_written {T : Type} (fs : fields T) v tmps :
  fields_rep fs v tmps -> forall ps pre, ps_fits fs v ps ->
  pass2 fs (pre ++ write_var tmps) ps (offsets_of (zlen pre) tmps) = Ret (Ok v).
Proof.
  induction 1 as [|A B E Dc fs a v b tmps Hf Hl Hz Hb Hd _ IH]; intros ps pre Hs; [done|].
  cbn [pass2 offsets_of write_var ps_fits] in *. rewrite Hf in *.
  destruct Hs as [Ha Hs]. destruct (is_ssz_fixed_len E).
  - rewrite Ha by done. cbn [fst snd]. by rewrite IH.
  - specialize (IH (snd ps) (pre ++ b) Hs). rewrite zlen_app, <- app_assoc in IH.
    pose proof (offsets_of_head (zlen pre + zlen b) tmps) as Hh.
    set (e := match offsets_of (zlen pre + zlen b) tmps with o :: _ => o | [] => _ end).
    assert (e = zlen pre + zlen b) as ->.
    { unfold e. destruct (offsets_of _ tmps); [rewrite !zlen_app; lia|done]. }
    pose proof (zlen_nonneg b). destruct (Z.ltb_spec (zlen pre + zlen b) (zlen pre)); [lia|].
    rewrite slice_app by done. cbn [res_bind]. rewrite Hd. cbn [try_bind res_bind]. by rewrite IH.
Qed.

(** What a valid value's fields encode to. *)
Lemma fields_encode {T : Type} (fs : fields T) P :
  fields_ok fs P -> forall v, P v ->
  0 <= fields_size fs /\
  exists n, var_total fs v = Ret n /\ 0 <= n /\ (fields_fixed fs = true -> n = 0) /\
    (fields_size fs + n < 2 ^ 32 ->
     exists tmps, pre_encode fs v = Ret tmps /\ fields_rep fs v tmps /\ zlen (write_var tmps) = n).
Proof.
  induction 1 as [|A B P Q E Dc fs C H0 Hfs IH]; intros v HP.
  { destruct v. split; [done|]. exists 0. split_and!; try done. intros _. exists [].
    split_and!; [done|constructor|done]. }
  destruct v as [a v], HP as [HPa HPv]. cbn [fst snd] in *.
  destruct (IH v HPv) as (Hs0 & m & Hm & Hm0 & Hmf & Hrt).
  destruct (ck_size _ _ _ C a HPa) as (k & Hk & Hk0 & Hkf).
  pose proof (ck_rt _ _ _ C a k HPa Hk) as Rt.
  cbn [fields_size var_total fields_fixed pre_encode fst snd]. rewrite Hm.
  unfold slot_len, BYTES_PER_LENGTH_OFFSET.
  split; [destruct (is_ssz_fixed_len E); lia|].
  exists ((if is_ssz_fixed_len E then 0 else k) + m). split_and!.
  - destruct (is_ssz_fixed_len E); [done|by rewrite Hk].
  - destruct (is_ssz_fixed_len E); lia.
  - intros [F1 F2]%andb_prop. rewrite F1, Hmf by done. done.
  - intros Hlt. destruct Rt as (b & Hb & Hbz & Hu & Hd).
    { destruct (is_ssz_fixed_len E); [rewrite Hkf by done|]; lia. }
    destruct Hrt as (tmps & Ht & Hr & Hz). { destruct (is_ssz_fixed_len E); lia. }
    exists ((is_ssz_fixed_len E, b) :: tmps). rewrite Hb, Ht. split_and!; [done| |].
    + constructor; try done; [apply C|apply C|]. intros F. by rewrite Hbz, Hkf.
    + cbn [write_var]. destruct (is_ssz_fixed_len E); [done|]. rewrite zlen_app. lia.
Qed.

Lemma fields_rep_bytes {T : Type} (fs : fields T) v tmps :
  fields_rep fs v tmps -> forall c, Forall (is_u 8) (write_fixed c tmps) /\ Forall (is_u 8) (write_var tmps).
Proof.
  induction 1 as [|A B E Dc fs a v b tmps Hf Hl Hz Hb Hd _ IH]; intros c; [by split; constructor|].
  cbn [write_fixed write_var]. destruct (is_ssz_fixed_len E).
  - destruct (IH c). split; [by apply Forall_app|done].
  - destruct (IH (c + zlen b)). split; apply Forall_app; auto using to_le_bytes_bytes.
Qed.

(** A derived container is read back as it was written. *)
Lemma container_roundtrip {T : Type} (fs : fields T) P v n :
  fields_ok fs P -> P v -> container_bytes_len fs v = Ret n -> n < 2 ^ 32 ->
  exists bs, container_encode fs v = Ret bs /\ zlen bs = n /\ Forall (is_u 8) bs /\
             container_decode fs bs = Ret (Ok v).
Proof.
  intros Hok HP Hn Hlt. destruct (fields_encode fs P Hok v HP) as (Hs & m & Hm & Hm0 & _ & Hrt).
  unfold container_bytes_len in Hn. rewrite Hm in Hn. injection Hn as <-.
  destruct (Hrt Hlt) as (tmps & Ht & Hr & Hz).
  destruct (fields_rep_bytes fs v tmps Hr (fields_size fs)) as [B1 B2].
  pose proof (zlen_write_fixed fs v tmps (fields_size fs) Hr) as Hw.
  exists (write_fixed (fields_size fs) tmps ++ write_var tmps). unfold container_encode. rewrite Ht.
  split_and!; [done|rewrite zlen_app; lia|by apply Forall_app|].
  destruct (pass1_written fs v tmps Hr [] (write_var tmps) (fields_size fs)) as (ps & Hp & Hv & Hf); [lia..|].
  unfold container_decode. cbn [app] in Hp. rewrite zlen_nil in Hp. rewrite Hp. cbn [try_bind res_bind].
  rewrite Hv. cbn [res_bind]. rewrite offsets_of_ascend, (proj2 (dec_fields_agree fs P Hok)).
  pose proof (pass2_written fs v tmps Hr ps (write_fixed (fields_size fs) tmps) Hf) as H2.
  pose proof (offsets_of_head (fields_size fs) tmps) as Hh. rewrite Hw in H2.
  destruct (offsets_of (fields_size fs) tmps) as [|o os].
  - rewrite zlen_app, Hw. replace (_ + zlen (write_var tmps) =? _) with true by lia. done.
  - subst o. by rewrite Z.eqb_refl.
Qed.

Lemma enc_struct_ok {S T : Type} (fs : fields T) P (to : S -> T) (mk : T -> S) :
  fields_ok fs P -> (forall s, mk (to s) = s) ->
  codec_ok (fun s => P (to s)) (enc_struct fs to) (dec_struct fs mk).
Proof.
  intros Hok Hmk. destruct (dec_fields_agree fs P Hok) as [A1 A2].
  split; [done|done| |]; cbn.
  - intros s HP. destruct (fields_encode fs P Hok (to s) HP) as (Hs & m & Hm & Hm0 & Hf & _).
    unfold container_bytes_len. rewrite Hm. eexists. split_and!; [done|lia|].
    intros F. rewrite Hf by done. lia.
  - intros s n HP Hn Hlt. destruct (container_roundtrip fs P (to s) n Hok HP Hn Hlt) as (bs & ? & ? & ? & Hd).
    exists bs. split_and!; [done..|]. rewrite Hd. cbn. by rewrite Hmk.
Qed.

Lemma enc_transparent_ok {S T : Type} P (E : Encode T) (Dc : Decode T) (to : S -> T) (mk : T -> S) :
  codec_ok P E Dc -> (forall s, mk (to s) = s) ->
  codec_ok (fun s => P (to s)) (enc_transparent E to) (dec_transparent Dc mk).
Proof.
  intros C Hmk. split; [apply C|apply C| |]; cbn.
  - intros s HP. by apply (ck_size _ _ _ C).
  - intros s n HP Hn Hlt. destruct (ck_rt _ _ _ C (to s) n HP Hn Hlt) as (bs & ? & ? & ? & Hd).
    exists bs. split_and!; [done..|]. rewrite Hd. cbn. by rewrite Hmk.
Qed.

(** ** Enums *)

(** A variant claims the same values in both of its arms, and reads back the
    payload it writes. *)
Definition variant_ok {S : Type} (P : S -> Prop) (v : Variant S) : Prop :=
  is_u 8 (v_selector v) /\
  (forall s, v_len v s = None <-> v_payload v s = None) /\
  forall s r, P s -> v_len v s = Some r ->
    exists n, r = Ret n /\ 0 <= n /\
      (1 + n < 2 ^ 32 -> exists bs, v_payload v s = Some (Ret bs) /\ zlen bs = n /\
                           Forall (is_u 8) bs /\ v_decode v bs = Ret (Ok s)).

Lemma unit_variant_ok {S : Type} (P : S -> Prop) sel is_it it :
  is_u 8 sel -> (forall s, is_it s = true -> s = it) -> variant_ok P (unit_variant sel is_it it).
Proof.
  intros Hs Hit. split_and!; [done|intros s; cbn; by destruct (is_it s)|].
  intros s r _. cbn. destruct (is_it s) eqn:Hi; [|done]. intros [= <-].
  exists 0. split_and!; [done..|]. intros _. exists []. rewrite (Hit s Hi). by split_and!; [..|constructor|].
Qed.

Lemma named_variant_ok {S T : Type} (P : S -> Prop) (Q : T -> Prop) sel (fs : fields T) to mk :
  is_u 8 sel -> fields_ok fs Q -> (forall s t, to s = Some t -> mk t = s /\ (P s -> Q t)) ->
  variant_ok P (named_variant sel fs to mk).
Proof.
  intros Hs Hok Hto. split_and!; [done|intros s; cbn; by destruct (to s)|].
  intros s r HP. cbn. destruct (to s) as [t|] eqn:Ht; [|done]. intros [= <-].
  destruct (Hto s t Ht) as [Hmk HQ]. specialize (HQ HP).
  destruct (fields_encode fs Q Hok t HQ) as (Hs0 & m & Hm & Hm0 & _).
  assert (container_bytes_len fs t = Ret (fields_size fs + m)) as Hn
    by (unfold container_bytes_len; by rewrite Hm).
  exists (fields_size fs + m). split_and!; [done|lia|]. intros Hlt.
  destruct (container_roundtrip fs Q t _ Hok HQ Hn) as (bs & He & Hz & Hb & Hd); [lia|].
  exists bs. cbn. rewrite He, Hd. cbn. by rewrite Hmk.
Qed.

(** The arms of a value agree on its variant, which its selector finds. *)
Lemma enum_arm_find {S : Type} (P : S -> Prop) (vs : list (Variant S)) s :
  NoDup (map v_selector vs) -> Forall (variant_ok P) vs -> (exists v, In v vs /\ v_len v s <> None) ->
  exists v r, In v vs /\ v_len v s = Some r /\ enum_arm v_len vs s = Some (v_selector v, r) /\
    enum_arm v_payload vs s = (fun b => (v_selector v, b)) <$> v_payload v s /\
    List.find (fun w => v_selector w =? v_selector v) vs = Some v.
Proof.
  intros Hnd Hok Hex. induction vs as [|v vs IH]; [by destruct Hex as (? & [] & _)|].
  apply Forall_cons_iff in Hok as [(Hs & Hn & Hrt) Hok]. apply list.NoDup_cons in Hnd as [Hni Hnd].
  cbn [enum_arm List.find]. destruct (v_len v s) as [r|] eqn:Hl.
  - exists v, r. destruct (v_payload v s) as [b|] eqn:Hb.
    + split_and!; try done; [by left|]. by rewrite Z.eqb_refl.
    + by rewrite (proj2 (Hn s) Hb) in Hl.
  - rewrite (proj1 (Hn s) Hl). destruct Hex as (w & [<-|Hw] & Hwl); [done|].
    destruct IH as (u & r & Hu & Hul & H1 & H2 & H3); [done..|by exists w|].
    exists u, r. split_and!; try done; [by right|].
    destruct (Z.eqb_spec (v_selector v) (v_selector u)) as [Heq|]; [|done].
    destruct Hni. rewrite Heq. apply list_elem_of_In, in_map. done.
Qed.

Lemma enc_enum_ok {S : Type} (P : S -> Prop) (vs : list (Variant S)) :
  NoDup (map v_selector vs) -> Forall (variant_ok P) vs ->
  (forall s, P s -> exists v, In v vs /\ v_len v s <> None) ->
  codec_ok P (enc_enum vs) (dec_enum vs).
Proof.
  intros Hnd Hok Hex. split; [done..| |]; cbn.
  - intros s HP. destruct (enum_arm_find P vs s Hnd Hok (Hex s HP)) as (v & r & Hv & Hl & -> & _).
    pose proof (proj1 (Forall_forall _ _) Hok v Hv) as (_ & _ & Hrt).
    destruct (Hrt s r HP Hl) as (n & -> & Hn0 & _). cbn. exists (1 + n). split_and!; [done|lia|done].
  - intros s n HP Hn Hlt.
    destruct (enum_arm_find P vs s Hnd Hok (Hex s HP)) as (v & r & Hv & Hl & Ha & Hp & Hf).
    rewrite Ha in Hn. pose proof (proj1 (Forall_forall _ _) Hok v Hv) as (Hs & _ & Hrt).
    destruct (Hrt s r HP Hl) as (m & -> & Hm0 & Hm). injection Hn as <-.
    destruct (Hm Hlt) as (bs & Hb & Hz & Hu & Hd). rewrite Hp, Hb. cbn.
    exists (v_selector v :: bs). split_and!; [done| |by constructor|by rewrite Hf].
    unfold zlen in *. cbn [length]. lia.
Qed.
