(* ===== verification/RadixFacts.v ===== *)
(** Theorems about radix maps. The reference tree [rnode] splits the set of
    entries on each bit with a filter; the code's recursion on sorted slices
    computes it. Proof completeness, soundness and binding are proved against
    the reference. *)

From Stdlib Require Import ZArith Lia List Bool.
From stdpp Require Import base list numbers tactics.
From S2P Require Import Prelude MachineInt OrdMap Merkle Ssz SszFacts Radix.
Open Scope Z_scope.

(** ** Keys as bit strings *)

Definition kbit (key : list Z) (i : nat) : bool :=
  Z.testbit (default 0 (key !! (i / 8)%nat)) (7 - Z.of_nat (i mod 8)).

Lemma bit_kbit key i : bit key i = Z.b2z (kbit key i).
Proof.
  unfold bit, kbit. set (x := default 0 _). change 1 with (Z.ones 1) at 1.
  rewrite Z.land_ones by lia.
  rewrite <- Z.bit0_mod, Z.shiftr_spec by lia. done.
Qed.

Lemma bit_zero key i : (bit key i =? 0) = negb (kbit key i).
Proof. rewrite bit_kbit. by destruct (kbit key i). Qed.

Lemma kbit_cons x key i : (8 <= i)%nat -> kbit (x :: key) i = kbit key (i - 8).
Proof.
  intros Hi. unfold kbit. set (j := (i - 8)%nat). replace i with (1 * 8 + j)%nat by lia.
  rewrite Nat.div_add_l by lia. rewrite (Nat.add_comm (1 * 8) j), Nat.Div0.mod_add. done.
Qed.

Lemma kbit_head x key i : (i < 8)%nat -> kbit (x :: key) i = Z.testbit x (7 - Z.of_nat i).
Proof. intros Hi. unfold kbit. rewrite Nat.div_small, Nat.mod_small by lia. done. Qed.

Lemma byte_bits_above x n : 0 <= x < 256 -> 8 <= n -> Z.testbit x n = false.
Proof.
  intros Hx Hn. destruct (Z.eq_dec x 0) as [->|]; [apply Z.bits_0|].
  apply Z.bits_above_log2; [lia|]. apply Z.log2_lt_pow2; [lia|].
  pose proof (Z.pow_le_mono_r 2 8 n). lia.
Qed.

(** Bytes that agree on their high bits are ordered by the next one. *)
Lemma byte_order x y d :
  0 <= x < 256 -> 0 <= y < 256 -> (d < 8)%nat ->
  (forall i, (i < d)%nat -> Z.testbit x (7 - Z.of_nat i) = Z.testbit y (7 - Z.of_nat i)) ->
  Z.testbit x (7 - Z.of_nat d) = true -> Z.testbit y (7 - Z.of_nat d) = false -> y < x.
Proof.
  intros Hx Hy Hd Hhi H1 H0. set (p := 7 - Z.of_nat d) in *.
  assert (Z.shiftr x (p + 1) = Z.shiftr y (p + 1)) as E.
  { apply Z.bits_inj'. intros n Hn. rewrite !Z.shiftr_spec by lia.
    destruct (Z.lt_ge_cases (n + (p + 1)) 8).
    - replace (n + (p + 1)) with (7 - Z.of_nat (Z.to_nat (7 - (n + (p + 1))))) by lia.
      apply Hhi. lia.
    - by rewrite !byte_bits_above by lia. }
  rewrite !Z.shiftr_div_pow2, Z.pow_add_r in E by lia. change (2 ^ 1) with 2 in E.
  rewrite <- !Z.div_div in E by lia.
  rewrite Z.testbit_odd, Z.shiftr_div_pow2 in H1, H0 by lia.
  rewrite Zodd_mod in H1. rewrite Zodd_mod in H0.
  assert (y / 2 ^ p < x / 2 ^ p) as Hlt.
  { apply Z.eqb_eq in H1. apply Z.eqb_neq in H0. dlia. }
  destruct (Z.lt_ge_cases y x) as [|Hge]; [done|]. pose proof (Z.div_le_mono x y (2 ^ p)). lia.
Qed.

(** The byte order is the bit order: past a shared prefix, the larger key
    cannot have the smaller bit. *)
Lemma key_order a b d :
  length a = length b -> Forall (is_u 8) a -> Forall (is_u 8) b -> cmp_bytes a b = Lt ->
  (forall i, (i < d)%nat -> kbit a i = kbit b i) -> kbit a d = true -> kbit b d = true.
Proof.
  revert b d. induction a as [|x a IH]; intros [|y b] d Hl Ha Hb Hc Hag H1; try done.
  apply Forall_cons_iff in Ha as [Hx Ha], Hb as [Hy Hb]. unfold is_u in Hx, Hy. cbn in Hc.
  assert (forall i, (i < d)%nat -> (i < 8)%nat ->
            Z.testbit x (7 - Z.of_nat i) = Z.testbit y (7 - Z.of_nat i)) as Hhi.
  { intros i Hi Hi8. specialize (Hag i Hi). by rewrite !kbit_head in Hag. }
  destruct (decide (d < 8)%nat) as [Hd|Hd].
  - rewrite kbit_head in H1 |- * by done. destruct (Z.compare_spec x y) as [->|Hxy|]; [done| |done].
    destruct (Z.testbit y (7 - Z.of_nat d)) eqn:H0; [done|].
    pose proof (byte_order x y d Hx Hy Hd (fun i Hi => Hhi i Hi ltac:(lia)) H1 H0). lia.
  - rewrite kbit_cons in H1 |- * by lia.
    assert (x = y) as <-.
    { apply Z.bits_inj'. intros n Hn. destruct (Z.lt_ge_cases n 8).
      - replace n with (7 - Z.of_nat (Z.to_nat (7 - n))) by lia. apply Hhi; lia.
      - rewrite !byte_bits_above by (done || lia). done. }
    rewrite Z.compare_refl in Hc. apply (IH b (d - 8)%nat); try done; [cbn in Hl; lia|].
    intros i Hi. specialize (Hag (i + 8)%nat). rewrite !kbit_cons, Nat.add_sub in Hag by lia. apply Hag. lia.
Qed.

(** Keys that agree on every bit are equal. *)
Lemma key_bits_eq a b :
  length a = length b -> Forall (is_u 8) a -> Forall (is_u 8) b ->
  (forall i, (i < 8 * length a)%nat -> kbit a i = kbit b i) -> a = b.
Proof.
  revert b. induction a as [|x a IH]; intros [|y b] Hl Ha Hb Hag; try done.
  apply Forall_cons_iff in Ha as [Hx Ha], Hb as [Hy Hb]. unfold is_u in Hx, Hy. cbn [length] in *. f_equal.
  - apply Z.bits_inj'. intros n Hn. destruct (Z.lt_ge_cases n 8).
    + specialize (Hag (Z.to_nat (7 - n))). rewrite !kbit_head in Hag by lia.
      replace (7 - Z.of_nat (Z.to_nat (7 - n))) with n in Hag by lia. apply Hag. lia.
    + rewrite !byte_bits_above by (done || lia). done.
  - apply IH; [lia|done..|]. intros i Hi. specialize (Hag (i + 8)%nat).
    rewrite !kbit_cons, Nat.add_sub in Hag by lia. apply Hag. lia.
Qed.

(** ** The reference tree *)

(** A map from keys to value roots, all keys [kb] bytes long. *)
Definition rentries : Type := list (list Z * Chunk).

Definition rmap_ok (kb : nat) (s : rentries) : Prop :=
  om_ok s /\
  Forall (fun e : list Z * Chunk => length (fst e) = kb /\ Forall (is_u 8) (fst e) /\ length (snd e) = 32%nat) s.

(** All keys of [s] agree on their first [d] bits. *)
Definition shares {A : Type} (d : nat) (s : list (list Z * A)) : Prop :=
  forall e e' i, In e s -> In e' s -> (i < d)%nat -> kbit (fst e) i = kbit (fst e') i.

Definition side {A : Type} (b : bool) (d : nat) (s : list (list Z * A)) : list (list Z * A) :=
  List.filter (fun e => eqb (kbit (fst e) d) b) s.

Section Reference.
  Context {D : Digest}.

Fixpoint rnode (n d : nat) (s : rentries) : Chunk :=
  match s with
  | [] => EMPTY
  | [(k, r)] => leaf_hash k r
  | (k, r) :: _ =>
      match n with
      | O => leaf_hash k r
      | S n' => branch_hash (rnode n' (S d) (side false d s)) (rnode n' (S d) (side true d s))
      end
  end.
End Reference.

Lemma om_ok_filter {A : Type} (p : list Z * A -> bool) (s : list (list Z * A)) :
  om_ok s -> om_ok (List.filter p s).
Proof.
  induction s as [|[k v] s IH]; intros Ho; [done|]. apply om_ok_cons in Ho as [Ho Hlt]. cbn.
  destruct (p (k, v)); [|by apply IH]. apply om_ok_cons. split; [by apply IH|].
  apply List.Forall_forall. intros e He. apply filter_In in He as [He _].
  by apply (proj1 (List.Forall_forall _ _) Hlt).
Qed.

Lemma Forall_filter_ {A : Type} (P : A -> Prop) p (s : list A) : Forall P s -> Forall P (List.filter p s).
Proof.
  intros HF. apply List.Forall_forall. intros e He. apply filter_In in He as [He _].
  by apply (proj1 (List.Forall_forall _ _) HF).
Qed.

Lemma shares_side {A : Type} b d (s : list (list Z * A)) : shares d s -> shares (S d) (side b d s).
Proof.
  intros Hs e e' i He He' Hi. apply filter_In in He as [He Hb], He' as [He' Hb'].
  destruct (decide (i = d)) as [->|]; [|apply Hs; [done..|lia]].
  apply eqb_prop in Hb, Hb'. congruence.
Qed.

(** On a sorted slice that shares its first [d] bits, the partition point
    separates the two sides. *)
Lemma partition_sides {A : Type} kb d (s : list (list Z * A)) :
  om_ok s -> Forall (fun e => length (fst e) = kb /\ Forall (is_u 8) (fst e)) s -> shares d s ->
  let mid := partition_point (fun e => bit (fst e) d =? 0) s in
  take mid s = side false d s /\ drop mid s = side true d s.
Proof.
  intros Ho HF Hs. cbn. induction s as [|[k v] s IH]; [done|]. cbn [partition_point fst].
  apply om_ok_cons in Ho as [Ho Hlt]. apply Forall_cons_iff in HF as [[Hl Hb] HF]. cbn [fst] in *.
  unfold side. cbn [List.filter fst]. rewrite bit_zero. destruct (kbit k d) eqn:Ek; cbn [negb eqb].
  - rewrite take_0, drop_0. assert (forall e, In e s -> kbit (fst e) d = true) as Hall.
    { intros e He. pose proof (proj1 (List.Forall_forall _ _) Hlt e He) as Hc.
      pose proof (proj1 (List.Forall_forall _ _) HF e He) as [Hl' Hb'].
      apply (key_order k (fst e) d); try done; [congruence|].
      intros i Hi. apply (Hs (k, v) e i); [by left|by right|done]. }
    split.
    + symmetry. destruct (List.filter _ s) as [|e r] eqn:E; [done|].
      assert (In e (e :: r)) as Hin by (by left). rewrite <- E in Hin. apply filter_In in Hin as [Hin He].
      by rewrite (Hall e Hin) in He.
    + f_equal. symmetry. clear -Hall. induction s as [|e s IH]; [done|]. cbn.
      rewrite (Hall e) by (by left). cbn. f_equal. apply IH. intros; apply Hall. by right.
  - cbn [take drop]. destruct IH as [I1 I2]; [done..| |].
    + intros e e' i He He' Hi. apply Hs; [by right|by right|done].
    + unfold side in I1, I2. by rewrite I1, I2.
Qed.

(** The value roots of a map. *)
Definition entry_roots {V : Type} (H : HashTreeRoot V) (s : list (list Z * MissingOr V)) : Res rentries :=
  res_mapM (fun e => let! r := htr_missing_or H (snd e) in Ret (fst e, r)) s.

Lemma entry_roots_side {V : Type} (H : HashTreeRoot V) b d s rs :
  entry_roots H s = Ret rs -> entry_roots H (side b d s) = Ret (side b d rs).
Proof.
  unfold entry_roots, side. revert rs. induction s as [|[k v] s IH]; intros rs; cbn [res_mapM].
  - by intros [= <-].
  - cbn [fst snd]. destruct (htr_missing_or H v) as [r|] eqn:Er; [|done]. cbn [res_bind].
    destruct (res_mapM _ s) as [rs'|]; [|done]. cbn [res_bind]. intros [= <-].
    specialize (IH rs' eq_refl). cbn [List.filter fst]. destruct (eqb (kbit k d) b); [|done].
    cbn [res_mapM fst snd]. rewrite Er. cbn [res_bind]. by rewrite IH.
Qed.

Lemma entry_roots_keys {V : Type} (H : HashTreeRoot V) s rs :
  entry_roots H s = Ret rs -> map fst rs = map fst s.
Proof.
  unfold entry_roots. revert rs. induction s as [|[k v] s IH]; intros rs; cbn [res_mapM]; [by intros [= <-]|].
  cbn [fst snd]. destruct (htr_missing_or H v) as [r|]; [|done]. cbn [res_bind].
  destruct (res_mapM _ s) as [rs'|]; [|done]. intros [= <-]. cbn. f_equal. by apply IH.
Qed.

(** The code computes the reference tree. *)
Lemma radix_node_ref {D : Digest} {V : Type} (H : HashTreeRoot V) kb n d s rs :
  entry_roots H s = Ret rs -> om_ok s ->
  Forall (fun e => length (fst e) = kb /\ Forall (is_u 8) (fst e)) s -> shares d s ->
  radix_node H n d s = Ret (rnode n d rs).
Proof.
  revert d s rs. induction n as [|n IH]; intros d s rs Hr Ho HF Hs.
  - destruct s as [|[k v] [|e s]]; cbn in Hr |- *.
    + by injection Hr as <-.
    + destruct (htr_missing_or H v); [|done]. by injection Hr as <-.
    + destruct (htr_missing_or H v); [|done]. cbn in Hr. destruct (htr_missing_or H (snd e)); [|done].
      cbn in Hr. destruct (res_mapM _ s); [|done]. by injection Hr as <-.
  - assert (forall b, radix_node H n (S d) (side b d s) = Ret (rnode n (S d) (side b d rs))) as I.
    { intros b. apply IH; [by apply entry_roots_side|by apply om_ok_filter|by apply Forall_filter_|by apply shares_side]. }
    destruct (partition_sides kb d s Ho HF Hs) as [E1 E2].
    destruct s as [|[k v] [|e s]]; cbn in Hr.
    + by injection Hr as <-.
    + cbn. destruct (htr_missing_or H v); [|done]. by injection Hr as <-.
    + cbn [radix_node]. rewrite E1, E2, (I false). cbn [res_bind]. rewrite (I true). cbn [res_bind].
      destruct (htr_missing_or H v); [|done]. cbn in Hr. destruct (htr_missing_or H (snd e)); [|done].
      cbn in Hr. destruct (res_mapM _ s); [|done]. by injection Hr as <-.
Qed.

(** ** Paths *)

Section Paths.
  Context {D : Digest}.

Definition join (q : list Z) (d : nat) (cur sib : Chunk) : Chunk :=
  if kbit q d then branch_hash sib cur else branch_hash cur sib.

(** The node at depth [d], [k] levels above the terminal. *)
Fixpoint path_node (q : list Z) (sibs : list (nat * Chunk)) (d k : nat) (cur : Chunk) : Chunk :=
  match k with
  | O => cur
  | S k' => join q d (path_node q sibs (S d) k' cur) (sibling_at sibs d)
  end.

Lemma fold_path_node q sibs d k cur :
  fold_path q sibs (d + k) cur = fold_path q sibs d (path_node q sibs d k cur).
Proof.
  revert d. induction k as [|k IH]; intros d; [by rewrite Nat.add_0_r|].
  replace (d + S k)%nat with (S d + k)%nat by lia. rewrite IH. cbn [fold_path path_node].
  rewrite bit_zero. unfold join. by destruct (kbit q d).
Qed.

Lemma path_node_skip q sibs l h d k cur :
  (l < d)%nat -> path_node q ((l, h) :: sibs) d k cur = path_node q sibs d k cur.
Proof.
  revert d. induction k as [|k IH]; intros d Hl; [done|]. cbn [path_node]. rewrite IH by lia. f_equal.
  unfold sibling_at. cbn [List.find fst]. destruct (Nat.eqb_spec l d); [lia|done].
Qed.

Lemma sibling_at_none sibs d : Forall (fun lh => (d < fst lh)%nat) sibs -> sibling_at sibs d = EMPTY.
Proof.
  intros HF. unfold sibling_at. induction HF as [|[l h] r Hl _ IH]; [done|]. cbn in *.
  destruct (Nat.eqb_spec l d); [lia|done].
Qed.

Lemma sibling_at_first sibs d h : sibling_at ((d, h) :: sibs) d = h.
Proof. unfold sibling_at. cbn. by rewrite Nat.eqb_refl. Qed.
End Paths.

Lemma om_get_filter {A : Type} (p : list Z * A -> bool) (s : list (list Z * A)) q :
  om_ok s -> (forall v, p (q, v) = true) -> om_get q (List.filter p s) = om_get q s.
Proof.
  intros Ho Hp. destruct (om_get q s) as [v|] eqn:E.
  - apply om_get_In in E. apply om_In_get; [by apply om_ok_filter|]. apply filter_In. split; [done|apply Hp].
  - destruct (om_get q (List.filter p s)) as [v|] eqn:E'; [|done].
    apply om_get_In, filter_In in E' as [E' _]. apply om_In_get in E'; [congruence|done].
Qed.

Lemma shared_prefix_ge a b d :
  length a = length b -> Forall (is_u 8) a -> Forall (is_u 8) b -> (d <= 8 * length a)%nat ->
  (forall i, (i < d)%nat -> kbit a i = kbit b i) -> (d <= shared_prefix_bits a b)%nat.
Proof.
  revert b d. induction a as [|x a IH]; intros [|y b] d Hl Ha Hb Hd Hag; try done.
  apply Forall_cons_iff in Ha as [Hx Ha], Hb as [Hy Hb]. unfold is_u in Hx, Hy. cbn [shared_prefix_bits length] in *.
  destruct (Z.eqb_spec (Z.lxor x y) 0) as [E|E].
  - assert (d - 8 <= shared_prefix_bits a b)%nat; [|lia]. apply IH; [lia|done..|lia|].
    intros i Hi. specialize (Hag (i + 8)%nat). rewrite !kbit_cons, Nat.add_sub in Hag by lia. apply Hag. lia.
  - assert (0 <= Z.lxor x y) by (apply Z.lxor_nonneg; lia). unfold leading_zeros.
    destruct (Z.eqb_spec (Z.lxor x y) 0); [done|].
    assert (Z.log2 (Z.lxor x y) < 8) as Hlog.
    { destruct (Z.lt_ge_cases (Z.log2 (Z.lxor x y)) 8) as [|Hge]; [done|].
      assert (Z.testbit (Z.lxor x y) (Z.log2 (Z.lxor x y)) = true) as Hb' by (apply Z.bit_log2; lia).
      rewrite Z.lxor_spec, !byte_bits_above in Hb' by (done || lia). done. }
    pose proof (Z.log2_nonneg (Z.lxor x y)). set (g := Z.log2 (Z.lxor x y)) in *.
    destruct (decide (d <= Z.to_nat (7 - g))%nat) as [|Hgt]; [lia|].
    specialize (Hag (Z.to_nat (7 - g))). rewrite !kbit_head in Hag by lia.
    replace (7 - Z.of_nat (Z.to_nat (7 - g))) with g in Hag by lia.
    assert (Z.testbit (Z.lxor x y) g = true) as Hb' by (apply Z.bit_log2; lia).
    rewrite Z.lxor_spec, Hag, xorb_nilpotent in Hb' by lia. done.
Qed.

(** ** Completeness *)

Section Complete.
  Context {D : Digest} {V : Type} (H : HashTreeRoot V) (kb : nat).

Definition keys_ok {A : Type} (s : list (list Z * A)) : Prop :=
  Forall (fun e => length (fst e) = kb /\ Forall (is_u 8) (fst e)) s.

Definition agrees {A : Type} (d : nat) (s : list (list Z * A)) (q : list Z) : Prop :=
  forall e i, In e s -> (i < d)%nat -> kbit (fst e) i = kbit q i.

Lemma agrees_shares {A : Type} d (s : list (list Z * A)) q : agrees d s q -> shares d s.
Proof. intros Ha e e' i He He' Hi. by rewrite (Ha e), (Ha e'). Qed.

Lemma agrees_side {A : Type} d (s : list (list Z * A)) q :
  agrees d s q -> agrees (S d) (side (kbit q d) d s) q.
Proof.
  intros Ha e i He Hi. apply filter_In in He as [He Hb]. apply eqb_prop in Hb.
  destruct (decide (i = d)) as [->|]; [done|]. apply Ha; [done|lia].
Qed.

(** What one call of [prove_walk] owes its caller. *)
Definition walk_ok (n d : nat) (s : list (list Z * MissingOr V)) (q : list Z) (rs : rentries) : Prop :=
  exists t k sibs, prove_walk H n d s q = Ret (t, (d + k)%nat, sibs) /\ (k <= n)%nat /\
    (forall prev, (forall p, prev = Some p -> (p < d)%nat) -> levels_ok (d + k) prev sibs = true) /\
    Forall (fun lh => (d <= fst lh)%nat) sibs /\
    exists h verdict, terminal_node H q (d + k) t = Ret (Some (h, verdict)) /\
      path_node q sibs d k h = rnode n d rs /\
      match om_get q s with Some v => t = TermLeaf v /\ verdict = Present | None => verdict = Absent end.

(** The terminal cases: the first entry is the only candidate. *)
Lemma walk_first n d k v s q r rs :
  htr_missing_or H v = Ret r -> length k = kb -> Forall (is_u 8) k -> length q = kb -> Forall (is_u 8) q ->
  (d <= 8 * kb)%nat -> (forall i, (i < d)%nat -> kbit k i = kbit q i) ->
  (k = q \/ s = []) -> om_ok ((k, v) :: s) ->
  prove_walk H n d ((k, v) :: s) q =
    (if bool_decide (k = q) then Ret (TermLeaf v, d, []) else Ret (TermDiverging k r, d, [])) ->
  rnode n d ((k, r) :: rs) = leaf_hash k r ->
  walk_ok n d ((k, v) :: s) q ((k, r) :: rs).
Proof.
  intros Hr Hlk Hbk Hlq Hbq Hd Hag Hor Ho Hw Hn. unfold walk_ok. rewrite Hw, Hn.
  case_bool_decide as E.
  - exists (TermLeaf v), 0%nat, []. rewrite Nat.add_0_r. split_and!; [done|lia|done|constructor|].
    exists (leaf_hash q r), Present. cbn [terminal_node]. rewrite Hr. subst k.
    split_and!; [done|done|]. cbn [om_get]. by rewrite cmp_refl.
  - destruct Hor as [|Hs]; [done|subst s].
    exists (TermDiverging k r), 0%nat, []. rewrite Nat.add_0_r. split_and!; [done|lia|done|constructor|].
    exists (leaf_hash k r), Absent. cbn [terminal_node]. rewrite bool_decide_false by done.
    pose proof (shared_prefix_ge k q d ltac:(congruence) Hbk Hbq ltac:(lia) Hag) as Hsp.
    destruct (Nat.ltb_spec (shared_prefix_bits k q) d); [lia|]. split_and!; [done|done|]. cbn [om_get].
    destruct (cmp q k) eqn:Ec; [|done|done]. apply cmp_eq in Ec. congruence.
Qed.

(** Both sides of a branch, in the order of the query's bit. *)
Lemma join_sides q d s (f : rentries -> Chunk) :
  join q d (f (side (kbit q d) d s)) (f (side (negb (kbit q d)) d s)) =
  branch_hash (f (side false d s)) (f (side true d s)).
Proof. unfold join. by destruct (kbit q d). Qed.

Lemma walk_step n d e1 e2 s q rs :
  let s' := e1 :: e2 :: s in
  entry_roots H s' = Ret rs -> om_ok s' -> keys_ok s' -> shares d s' ->
  walk_ok n (S d) (side (kbit q d) d s') q (side (kbit q d) d rs) -> walk_ok (S n) d s' q rs.
Proof.
  intros s' Hr Ho HF Hs (t & k & sibs & Hw & Hk & Hlv & Hge & h & verdict & Ht & Hp & Hm).
  destruct (partition_sides kb d s' Ho HF Hs) as [E1 E2].
  assert (radix_node H n (S d) (side (negb (kbit q d)) d s') =
          Ret (rnode n (S d) (side (negb (kbit q d)) d rs))) as Hsib.
  { apply (radix_node_ref H kb); [by apply entry_roots_side|by apply om_ok_filter|by apply Forall_filter_|by apply shares_side]. }
  set (sib := rnode n (S d) (side (negb (kbit q d)) d rs)) in *.
  set (sibs' := if bool_decide (sib = EMPTY) then sibs else (d, sib) :: sibs).
  assert (prove_walk H (S n) d s' q = Ret (t, (S d + k)%nat, sibs')) as Hw'.
  { destruct e1 as [k1 v1]. unfold s' in *. cbn [prove_walk]. rewrite E1, E2, bit_zero.
    destruct (kbit q d); cbn [negb] in *; rewrite Hsib; cbn [res_bind]; rewrite Hw; done. }
  assert (sibling_at sibs' d = sib) as Hat.
  { unfold sibs'. case_bool_decide as E; [|apply sibling_at_first]. rewrite E. by apply sibling_at_none. }
  assert (forall k h, path_node q sibs' (S d) k h = path_node q sibs (S d) k h) as Hpn.
  { intros. unfold sibs'. case_bool_decide; [done|]. apply path_node_skip. lia. }
  exists t, (S k), sibs'. replace (d + S k)%nat with (S d + k)%nat by lia. split_and!; [done|lia| | |].
  - intros prev Hprev. unfold sibs'. case_bool_decide; [apply Hlv; intros p E; specialize (Hprev p E); lia|].
    cbn [levels_ok]. replace (d <? S d + k)%nat with true by (symmetry; apply Nat.ltb_lt; lia).
    replace (match prev with Some p => (p <? d)%nat | None => true end) with true
      by (symmetry; destruct prev as [p|]; [apply Nat.ltb_lt; by apply Hprev|done]).
    cbn [andb]. apply Hlv. intros p [= <-]. lia.
  - unfold sibs'. case_bool_decide; [|constructor; [done|]];
      (apply Forall_impl with (2 := Hge); intros; lia).
  - exists h, verdict. split_and!; [done| |].
    + cbn [path_node]. rewrite Hpn, Hat, Hp. unfold sib. rewrite (join_sides q d rs (rnode n (S d))).
      pose proof (entry_roots_keys H s' rs Hr) as Hkeys. destruct rs as [|[k1 r1] [|[k2 r2] rs]]; done.
    + rewrite <- (om_get_filter (fun e => eqb (kbit (fst e) d) (kbit q d)) s' q Ho); [exact Hm|].
      intros v. cbn. apply eqb_reflx.
Qed.

Lemma walk_complete n d s q rs :
  entry_roots H s = Ret rs -> om_ok s -> keys_ok s -> agrees d s q -> (d + n = 8 * kb)%nat ->
  length q = kb -> Forall (is_u 8) q -> walk_ok n d s q rs.
Proof.
  revert d s rs. induction n as [|n IH]; intros d s rs Hr Ho HF Ha Hd Hl Hb;
    pose proof (agrees_shares d s q Ha) as Hs.
  all: destruct s as [|[k v] s]; [injection Hr as <-; exists TermEmpty, 0%nat, []; rewrite Nat.add_0_r;
       split_and!; [by (destruct n || idtac)|lia|done|constructor|exists EMPTY, Absent; by split_and!]|].
  all: pose proof (Forall_inv HF) as [Hlk Hbk]; cbn [fst] in Hlk, Hbk;
       assert (forall i, (i < d)%nat -> kbit k i = kbit q i) as Hag by (intros i Hi; apply (Ha (k, v)); [by left|done]);
       pose proof Hr as Hr'; unfold entry_roots in Hr'; cbn [res_mapM fst snd] in Hr';
       destruct (htr_missing_or H v) as [r|] eqn:Er; [|done]; cbn [res_bind] in Hr';
       destruct (res_mapM _ s) as [rs'|] eqn:Ers in Hr'; [|done]; cbn [res_bind] in Hr'; injection Hr' as <-.
  - assert (k = q) as Ekq.
    { apply key_bits_eq; [congruence|done..|]. intros i Hi. apply Hag. lia. }
    apply walk_first; try done; [lia|by left| |by destruct rs'].
    cbn [prove_walk]. rewrite Er. by destruct s.
  - destruct s as [|e2 s].
    + injection Ers as <-. apply walk_first; try done; [lia|by right|]. cbn [prove_walk]. by rewrite Er.
    + apply walk_step; [exact Hr|done..|]. apply IH; [by apply entry_roots_side|by apply om_ok_filter| | |lia|done|done].
      * by apply Forall_filter_.
      * by apply agrees_side.
Qed.
End Complete.

(** ** Soundness *)

Section Sound.
  Context {D : Digest} (kb : nat).

(** The strings hashed in a tree, and those hashed along a path. *)
Fixpoint node_hashes (n d : nat) (s : rentries) (x : list Z) : Prop :=
  match s with
  | [] => False
  | [(k, r)] => x = LEAF_TAG :: k ++ r
  | (k, r) :: _ =>
      match n with
      | O => x = LEAF_TAG :: k ++ r
      | S n' =>
          x = BRANCH_TAG :: rnode n' (S d) (side false d s) ++ rnode n' (S d) (side true d s) \/
          node_hashes n' (S d) (side false d s) x \/ node_hashes n' (S d) (side true d s) x
      end
  end.

Fixpoint path_hashes (q : list Z) (sibs : list (nat * Chunk)) (d k : nat) (cur : Chunk) (x : list Z) : Prop :=
  match k with
  | O => False
  | S k' =>
      let sub := path_node q sibs (S d) k' cur in
      x = BRANCH_TAG :: (if kbit q d then sibling_at sibs d ++ sub else sub ++ sibling_at sibs d) \/
      path_hashes q sibs (S d) k' cur x
  end.

(** The digest behaves on the strings hashed: no collision, and no string
    hashes to the empty marker. *)
Definition digest_sound (hashed : list Z -> Prop) : Prop :=
  collision_free hashed /\ forall x, hashed x -> digest x <> EMPTY.

Lemma digest_sound_sub (P Q : list Z -> Prop) : digest_sound P -> (forall x, Q x -> P x) -> digest_sound Q.
Proof. intros [CF NZ] Hs. split; [intros a b Ha Hb; apply CF; auto|intros x Hx; apply NZ; auto]. Qed.

Lemma length_EMPTY : length EMPTY = 32%nat.
Proof. by rewrite <- (length_replicate 32 0). Qed.

Lemma length_rnode n d s : length (rnode n d s) = 32%nat.
Proof.
  destruct n; destruct s as [|[k r] [|e s]]; apply length_EMPTY || apply digest_length.
Qed.

Lemma length_path_node q sibs d k h : length h = 32%nat -> length (path_node q sibs d k h) = 32%nat.
Proof. intros Hh. destruct k; [done|]. cbn. unfold join. destruct (kbit q d); apply digest_length. Qed.

Lemma rmap_ok_side b d s : rmap_ok kb s -> rmap_ok kb (side b d s).
Proof. intros [Ho HF]. split; [by apply om_ok_filter|by apply Forall_filter_]. Qed.

Lemma rmap_keys s : rmap_ok kb s -> keys_ok kb s.
Proof. intros [_ HF]. apply Forall_impl with (2 := HF). tauto. Qed.

(** Distinct keys part before their bits run out. *)
Lemma full_depth_single s d e1 e2 r :
  rmap_ok kb s -> shares d s -> (8 * kb <= d)%nat -> s = e1 :: e2 :: r -> False.
Proof.
  intros [Ho HF] Hs Hd ->. pose proof (Forall_inv HF) as (L1 & B1 & _).
  pose proof (Forall_inv (Forall_inv_tail HF)) as (L2 & B2 & _).
  assert (fst e1 = fst e2) as E.
  { apply key_bits_eq; [by rewrite L1, L2|done..|]. intros i Hi. apply Hs; [by left|by right; left|lia]. }
  destruct e1 as [k1 v1], e2 as [k2 v2]. cbn in E. subst k2. apply om_ok_cons in Ho as [_ Hlt].
  pose proof (Forall_inv Hlt) as Hk. cbn in Hk. unfold key_lt in Hk. by rewrite cmp_refl in Hk.
Qed.

(** A branch on a path is a branch of the tree. *)
Lemma branch_step n d k s q sibs h :
  rmap_ok kb s -> length h = 32%nat -> Forall (fun lh : nat * Chunk => length (snd lh) = 32%nat) sibs ->
  digest_sound (fun x => node_hashes (S n) d s x \/ path_hashes q sibs d (S k) h x) ->
  rnode (S n) d s = path_node q sibs d (S k) h ->
  (exists e1 e2 r, s = e1 :: e2 :: r) /\
  rnode n (S d) (side (kbit q d) d s) = path_node q sibs (S d) k h.
Proof.
  intros Hok Hh Hsb [CF NZ] E. cbn [path_node path_hashes] in *. set (sub := path_node q sibs (S d) k h) in *.
  set (pre := BRANCH_TAG :: (if kbit q d then sibling_at sibs d ++ sub else sub ++ sibling_at sibs d)) in *.
  assert (join q d sub (sibling_at sibs d) = digest pre) as Hj by (unfold join, pre; by destruct (kbit q d)).
  rewrite Hj in E. destruct s as [|[k1 r1] [|e2 r]].
  - symmetry in E. destruct (NZ pre); [by right; left|done].
  - apply CF in E; [done|by left|by right; left].
  - split; [by eexists _, _, _|]. apply CF in E; [|by left; left|by right; left].
    injection E as E. assert (length (sibling_at sibs d) = 32%nat) as Hls.
    { unfold sibling_at. destruct (List.find _ sibs) as [[l hh]|] eqn:Ef; [|apply length_EMPTY].
      apply find_some in Ef as [Ef _]. by apply (proj1 (List.Forall_forall _ _) Hsb _ Ef). }
    assert (length sub = 32%nat) by (by apply length_path_node).
    destruct (kbit q d); apply chunk_app_inj in E as [E1 E2]; [exact E2|by rewrite length_rnode|exact E1|by rewrite length_rnode].
Qed.

Lemma path_descend k n d s q sibs h :
  rmap_ok kb s -> agrees d s q -> (k <= n)%nat -> length h = 32%nat ->
  Forall (fun lh : nat * Chunk => length (snd lh) = 32%nat) sibs ->
  digest_sound (fun x => node_hashes n d s x \/ path_hashes q sibs d k h x) ->
  rnode n d s = path_node q sibs d k h ->
  exists s', rmap_ok kb s' /\ agrees (d + k) s' q /\ om_get q s' = om_get q s /\
    (forall x, node_hashes (n - k) (d + k) s' x -> node_hashes n d s x) /\ rnode (n - k) (d + k) s' = h.
Proof.
  revert n d s. induction k as [|k IH]; intros n d s Hok Ha Hk Hh Hsb HD E.
  { exists s. rewrite Nat.add_0_r, Nat.sub_0_r. by split_and!. }
  destruct n as [|n]; [lia|].
  destruct (branch_step n d k s q sibs h Hok Hh Hsb HD E) as [(e1 & e2 & r & Es) Hsub].
  assert (forall x, node_hashes n (S d) (side (kbit q d) d s) x -> node_hashes (S n) d s x) as Hin.
  { intros x Hx. rewrite Es in *. destruct e1 as [k1 r1]. cbn [node_hashes].
    destruct (kbit q d); auto. }
  destruct (IH n (S d) (side (kbit q d) d s)) as (s' & H1 & H2 & H3 & H4 & H5);
    [by apply rmap_ok_side|by apply agrees_side|lia|done|done| |done|].
  { eapply digest_sound_sub; [exact HD|]. intros x [Hx|Hx]; [left; by apply Hin|right]. cbn. by right. }
  exists s'. replace (d + S k)%nat with (S d + k)%nat by lia. split_and!; [done|done| | |done].
  - rewrite H3. apply om_get_filter; [apply Hok|]. intros v. cbn. apply eqb_reflx.
  - intros x Hx. apply Hin, H4, Hx.
Qed.

(** The terminal of a path that meets the tree. *)
Lemma terminal_leaf n d s r k :
  rmap_ok kb s -> shares d s -> (d + n = 8 * kb)%nat -> length k = kb -> length r = 32%nat ->
  digest_sound (fun x => node_hashes n d s x \/ x = LEAF_TAG :: k ++ r) ->
  rnode n d s = leaf_hash k r -> s = [(k, r)].
Proof.
  intros Hok Hs Hd Hk Hr [CF NZ] E. destruct s as [|[k1 r1] [|e2 s]].
  - destruct (NZ (LEAF_TAG :: k ++ r)); [by right|destruct n; by symmetry].
  - assert (rnode n d [(k1, r1)] = leaf_hash k1 r1) as E1 by (by destruct n). rewrite E1 in E.
    apply CF in E; [|left; by destruct n|by right]. injection E as E.
    pose proof (Forall_inv (proj2 Hok)) as (L1 & _ & _). cbn in L1.
    apply chunk_app_inj in E as [-> ->]; [done|congruence].
  - destruct n as [|n]; [destruct (full_depth_single _ d (k1, r1) e2 s Hok Hs); [lia|done]|].
    cbn [rnode] in E. apply CF in E; [done|by left; left|by right].
Qed.

Lemma terminal_empty n d s : digest_sound (node_hashes n d s) -> rnode n d s = EMPTY -> s = [].
Proof.
  intros [_ NZ] E. destruct s as [|[k1 r1] [|e2 s]]; [done| |].
  - destruct (NZ (LEAF_TAG :: k1 ++ r1)); [by destruct n|by destruct n].
  - destruct n as [|n]; [destruct (NZ (LEAF_TAG :: k1 ++ r1)); done|].
    cbn [rnode] in E. destruct (NZ _ (or_introl eq_refl) E).
Qed.
End Sound.

(** ** The contract of a radix map *)

Section Contract.
  Context {D : Digest} {V : Type} (H : HashTreeRoot V) (kb : nat).

(** A map with [kb]-byte keys whose value roots are [rs]. *)
Record radix_ok (m : RadixMap (V := V)) (rs : rentries) : Prop := {
  ro_sorted : om_ok m;
  ro_keys : keys_ok kb m;
  ro_roots : entry_roots H m = Ret rs;
  ro_lengths : Forall (fun e : list Z * Chunk => length (snd e) = 32%nat) rs;
}.

Lemma radix_ok_rmap m rs : radix_ok m rs -> rmap_ok kb rs.
Proof.
  intros [Ho Hk Hr Hl]. pose proof (entry_roots_keys H m rs Hr) as E. split.
  - unfold om_ok in *. by rewrite E.
  - apply List.Forall_forall. intros [k r] He.
    assert (In k (map fst m)) as Hin by (rewrite <- E; by apply (in_map fst) in He).
    apply in_map_iff in Hin as ([k' v] & <- & Hin).
    pose proof (proj1 (List.Forall_forall _ _) Hk _ Hin) as [? ?].
    pose proof (proj1 (List.Forall_forall _ _) Hl _ He). done.
Qed.

Lemma shares_zero {A : Type} (s : list (list Z * A)) : shares 0 s.
Proof. intros e e' i _ _ Hi. lia. Qed.

Lemma agrees_zero {A : Type} (s : list (list Z * A)) q : agrees 0 s q.
Proof. intros e i _ Hi. lia. Qed.

Lemma htr_radix_ref m rs : radix_ok m rs -> htr_radix_map H kb m = Ret (rnode (kb * 8) 0 rs).
Proof. intros [Ho Hk Hr _]. apply (radix_node_ref H kb); [done..|apply shares_zero]. Qed.

Lemma entry_roots_get m rs q :
  entry_roots H m = Ret rs ->
  match om_get q m with
  | Some v => exists r, htr_missing_or H v = Ret r /\ om_get q rs = Some r
  | None => om_get q rs = None
  end.
Proof.
  unfold entry_roots. revert rs. induction m as [|[k v] m IH]; intros rs; cbn [res_mapM]; [by intros [= <-]|].
  cbn [fst snd]. destruct (htr_missing_or H v) as [r|] eqn:Er; [|done]. cbn [res_bind].
  destruct (res_mapM _ m) as [rs'|]; [|done]. intros [= <-]. cbn [om_get].
  destruct (cmp q k); [by exists r|done|by apply IH].
Qed.

(** C27: proofs are complete. For every key, present or absent, the map
    produces a proof, the verifier accepts it against the map's root with the
    right verdict, and a membership proof carries the stored value. *)
Theorem radix_proof_complete m rs q :
  radix_ok m rs -> length q = kb -> Forall (is_u 8) q ->
  exists root proof, htr_radix_map H kb m = Ret root /\ prove H kb m q = Ret proof /\
    verify H kb root q proof =
      Ret (Some (match radix_get m q with Some _ => Present | None => Absent end)) /\
    forall v, radix_get m q = Some v -> rp_terminal proof = TermLeaf v.
Proof.
  intros Hok Hl Hb. pose proof (htr_radix_ref m rs Hok) as Hroot. destruct Hok as [Ho Hk Hr _].
  destruct (walk_complete H kb (kb * 8) 0 m q rs Hr Ho Hk (agrees_zero m q) ltac:(lia) Hl Hb)
    as (t & k & sibs & Hw & Hkn & Hlv & _ & h & verdict & Ht & Hp & Hm). cbn [Nat.add] in *.
  exists (rnode (kb * 8) 0 rs), (mkRadixProof k sibs t). unfold prove, radix_get. rewrite Hw.
  split_and!; [done|done| |].
  - unfold verify. cbn [rp_term_depth rp_siblings rp_terminal].
    destruct (Nat.ltb_spec (kb * 8) k); [lia|]. rewrite Hlv by done. cbn [negb]. rewrite Ht. cbn [res_bind].
    pose proof (fold_path_node q sibs 0 k h) as F. cbn [Nat.add fold_path] in F. rewrite F, Hp.
    rewrite bool_decide_true by done. destruct (om_get q m); [by destruct Hm as [_ ->]|by rewrite Hm].
  - intros v E. cbn [rp_terminal]. rewrite E in Hm. apply Hm.
Qed.

(** The strings hashed to check a proof. *)
Definition proof_hashes (q : list Z) (proof : RadixProof V) (x : list Z) : Prop :=
  (exists h vd, terminal_node H q (rp_term_depth proof) (rp_terminal proof) = Ret (Some (h, vd)) /\
                path_hashes q (rp_siblings proof) 0 (rp_term_depth proof) h x) \/
  match rp_terminal proof with
  | TermLeaf v => exists r, htr_missing_or H v = Ret r /\ x = LEAF_TAG :: q ++ r
  | TermEmpty => False
  | TermDiverging k r => x = LEAF_TAG :: k ++ r
  end.

(** A proof of the right shape: hashes of 32 bytes, keys of [kb]. *)
Definition proof_shape (proof : RadixProof V) : Prop :=
  Forall (fun lh : nat * Chunk => length (snd lh) = 32%nat) (rp_siblings proof) /\
  match rp_terminal proof with
  | TermLeaf v => exists r, htr_missing_or H v = Ret r /\ length r = 32%nat
  | TermEmpty => True
  | TermDiverging k r => length k = kb /\ length r = 32%nat
  end.

(** What acceptance gives: the tree node the terminal stands for. *)
Lemma verify_node m rs q proof root verdict :
  radix_ok m rs -> length q = kb -> proof_shape proof -> htr_radix_map H kb m = Ret root ->
  verify H kb root q proof = Ret (Some verdict) ->
  digest_sound (fun x => node_hashes (kb * 8) 0 rs x \/ proof_hashes q proof x) ->
  exists h s n d, terminal_node H q (rp_term_depth proof) (rp_terminal proof) = Ret (Some (h, verdict)) /\
    rmap_ok kb s /\ agrees d s q /\ om_get q s = om_get q rs /\ (d + n = 8 * kb)%nat /\
    digest_sound (fun x => node_hashes n d s x \/ proof_hashes q proof x) /\ rnode n d s = h.
Proof.
  intros Hok Hl [Hsb Ht] Hroot Hv HD. rewrite (htr_radix_ref m rs Hok) in Hroot. injection Hroot as <-.
  unfold verify in Hv. set (td := rp_term_depth proof) in *. destruct (Nat.ltb_spec (kb * 8) td); [done|].
  destruct (levels_ok _ _ _); [|done]. cbn [negb] in Hv.
  destruct (terminal_node H q td (rp_terminal proof)) as [[[h vd]|]|] eqn:Et; [|done..].
  cbn [res_bind] in Hv. case_bool_decide as E; [|done]. injection Hv as ->.
  pose proof (fold_path_node q (rp_siblings proof) 0 td h) as F. cbn [Nat.add fold_path] in F. rewrite F in E.
  assert (length h = 32%nat) as Hh.
  { destruct (rp_terminal proof) as [v| |k r]; cbn [terminal_node] in Et.
    - destruct (htr_missing_or H v); [|done]. injection Et as <- _. apply digest_length.
    - injection Et as <- _. apply length_EMPTY.
    - destruct (bool_decide _); [done|]. destruct (shared_prefix_bits k q <? _)%nat; [done|]. injection Et as <- _. apply digest_length. }
  destruct (path_descend kb td (kb * 8) 0 rs q (rp_siblings proof) h) as (s & H1 & H2 & H3 & H4 & H5);
    [by eapply radix_ok_rmap|apply agrees_zero|done|done|done| |done|].
  { eapply digest_sound_sub; [exact HD|]. intros x [Hx|Hx]; [by left|right; left]. by exists h, verdict. }
  exists h, s, (kb * 8 - td)%nat, td. split_and!; [done|done|done|done|lia| |done].
  eapply digest_sound_sub; [exact HD|]. intros x [Hx|Hx]; [left; by apply H4|by right].
Qed.

(** C6: accepted proofs are sound. Against the root of a map, a proof that
    verifies as present carries a value with the root of the value stored
    under the key, and a proof that verifies as absent is for a key the map
    does not have; provided the digest neither collides on the strings hashed
    in the map and in the proof nor maps one of them to zero. *)
Theorem radix_proof_sound m rs q proof root verdict :
  radix_ok m rs -> length q = kb -> Forall (is_u 8) q -> proof_shape proof ->
  htr_radix_map H kb m = Ret root -> verify H kb root q proof = Ret (Some verdict) ->
  digest_sound (fun x => node_hashes (kb * 8) 0 rs x \/ proof_hashes q proof x) ->
  match verdict with
  | Present => exists v v' r, rp_terminal proof = TermLeaf v /\ radix_get m q = Some v' /\
                              htr_missing_or H v = Ret r /\ htr_missing_or H v' = Ret r
  | Absent => radix_get m q = None
  end.
Proof.
  intros Hok Hl Hb Hsh Hroot Hv HD.
  destruct (verify_node m rs q proof root verdict Hok Hl Hsh Hroot Hv HD)
    as (h & s & n & d & Et & H1 & H2 & H3 & Hd & HD' & H5).
  pose proof (entry_roots_get m rs q (ro_roots _ _ Hok)) as Hget. unfold radix_get.
  destruct Hsh as [_ Hsh]. unfold proof_hashes in HD'. pose proof (agrees_shares d s q H2) as Hs.
  destruct (rp_terminal proof) as [v| |k r].
  - destruct Hsh as (r & Hr & Hlr). cbn in Et. rewrite Hr in Et. injection Et as <- <-.
    assert (s = [(q, r)]) as ->.
    { eapply (terminal_leaf kb n d s r q); try done. eapply digest_sound_sub; [exact HD'|].
      intros x [Hx| ->]; [by left|right; right; by exists r]. }
    cbn [om_get] in H3. rewrite cmp_refl in H3. destruct (om_get q m) as [v'|]; [|congruence].
    destruct Hget as (r' & Hr' & Hg). exists v, v', r. split_and!; [done..|]. congruence.
  - cbn in Et. injection Et as <- <-.
    assert (s = []) as ->.
    { eapply terminal_empty; [|exact H5]. eapply digest_sound_sub; [exact HD'|]. intros x Hx; by left. }
    destruct (om_get q m) as [v'|]; [|done]. destruct Hget as (r' & _ & Hg). by rewrite Hg in H3.
  - destruct Hsh as [Hlk Hlr]. cbn [terminal_node] in Et. case_bool_decide as Ek; [done|]. destruct (shared_prefix_bits k q <? _)%nat; [done|].
    injection Et as <- <-. assert (s = [(k, r)]) as ->.
    { eapply (terminal_leaf kb n d s r k); try done. eapply digest_sound_sub; [exact HD'|].
      intros x [Hx| ->]; [by left|right; by right]. }
    destruct (om_get q m) as [v'|]; [|done]. destruct Hget as (r' & _ & Hg). rewrite Hg in H3. cbn [om_get] in H3.
    destruct (cmp q k) eqn:Ec; [|done|done]. apply cmp_eq in Ec. congruence.
Qed.
End Contract.

(** ** Binding *)

Section Binding.
  Context {D : Digest}.

Lemma sides_eq kb d s1 s2 :
  rmap_ok kb s1 -> rmap_ok kb s2 -> shares d s1 -> shares d s2 ->
  side false d s1 = side false d s2 -> side true d s1 = side true d s2 -> s1 = s2.
Proof.
  intros H1 H2 S1 S2 E0 E1.
  destruct (partition_sides kb d s1 (proj1 H1) (rmap_keys kb s1 H1) S1) as [A B].
  destruct (partition_sides kb d s2 (proj1 H2) (rmap_keys kb s2 H2) S2) as [A' B'].
  rewrite <- (take_drop (partition_point (fun e => bit (fst e) d =? 0) s1) s1), A, B.
  rewrite <- (take_drop (partition_point (fun e => bit (fst e) d =? 0) s2) s2), A', B'. congruence.
Qed.

(** A tree with the root of an empty or one-entry tree is that tree. *)
Lemma rnode_small kb n d s t :
  rmap_ok kb s -> rmap_ok kb t -> shares d s -> (d + n = 8 * kb)%nat -> (length t <= 1)%nat ->
  digest_sound (fun x => node_hashes n d s x \/ node_hashes n d t x) ->
  rnode n d s = rnode n d t -> s = t.
Proof.
  intros Hs Ht Sh Hd Hlen HD E. destruct t as [|[k r] [|e t]]; [| |cbn in Hlen; lia].
  - eapply terminal_empty; [eapply digest_sound_sub; [exact HD|]; intros x Hx; by left|].
    rewrite E. by destruct n.
  - pose proof (Forall_inv (proj2 Ht)) as (L & _ & R). cbn [fst snd] in L, R.
    apply (terminal_leaf kb n d s r k Hs Sh Hd L R); [|rewrite E; by destruct n].
    eapply digest_sound_sub; [exact HD|]. intros x [Hx| ->]; [by left|right; by destruct n].
Qed.

Lemma rnode_binds kb n d s1 s2 :
  rmap_ok kb s1 -> rmap_ok kb s2 -> shares d s1 -> shares d s2 -> (d + n = 8 * kb)%nat ->
  digest_sound (fun x => node_hashes n d s1 x \/ node_hashes n d s2 x) ->
  rnode n d s1 = rnode n d s2 -> s1 = s2.
Proof.
  revert d s1 s2. induction n as [|n IH]; intros d s1 s2 H1 H2 S1 S2 Hd HD E.
  - apply (rnode_small kb 0 d s1 s2); try done.
    destruct s2 as [|e1 [|e2 t]]; cbn; [lia..|]. by destruct (full_depth_single kb _ d e1 e2 t H2 S2); [lia|].
  - destruct (decide (length s2 <= 1)%nat); [by apply (rnode_small kb (S n) d s1 s2)|].
    destruct (decide (length s1 <= 1)%nat).
    { symmetry. apply (rnode_small kb (S n) d s2 s1); try done.
      eapply digest_sound_sub; [exact HD|]. intros x [Hx|Hx]; auto. }
    assert (forall s, ~ (length s <= 1)%nat ->
              rnode (S n) d s = branch_hash (rnode n (S d) (side false d s)) (rnode n (S d) (side true d s)) /\
              forall x, x = BRANCH_TAG :: rnode n (S d) (side false d s) ++ rnode n (S d) (side true d s) \/
                        node_hashes n (S d) (side false d s) x \/ node_hashes n (S d) (side true d s) x ->
                        node_hashes (S n) d s x) as Hbig.
    { intros [|[k r] [|e t]] Hl; [cbn in Hl; lia..|]. by split. }
    destruct (Hbig s1) as [B1 N1], (Hbig s2) as [B2 N2]; [done..|]. rewrite B1, B2 in E.
    apply (proj1 HD) in E; [|left; apply N1; by left|right; apply N2; by left]. injection E as E.
    apply chunk_app_inj in E as [E0 E1]; [|by rewrite !length_rnode].
    apply (sides_eq kb d); try done;
      (eapply (IH (S d)); [by apply rmap_ok_side..|by apply shares_side|by apply shares_side|lia| |eassumption];
       eapply digest_sound_sub; [exact HD|]; intros x [Hx|Hx]; [left; apply N1|right; apply N2]; auto).
Qed.
End Binding.

Section BindingClaim.
  Context {D : Digest} {V : Type} (H : HashTreeRoot V) (kb : nat).

(** The root binds the map. Two maps with the same root have the same keys
    and the same value roots, provided the digest neither collides on the
    strings hashed in them nor maps one of them to zero. *)
Theorem radix_root_binds (m1 m2 : RadixMap (V := V)) rs1 rs2 root :
  radix_ok H kb m1 rs1 -> radix_ok H kb m2 rs2 ->
  htr_radix_map H kb m1 = Ret root -> htr_radix_map H kb m2 = Ret root ->
  digest_sound (fun x => node_hashes (kb * 8) 0 rs1 x \/ node_hashes (kb * 8) 0 rs2 x) ->
  rs1 = rs2.
Proof.
  intros H1 H2 R1 R2 HD. rewrite (htr_radix_ref H kb m1 rs1 H1) in R1. rewrite (htr_radix_ref H kb m2 rs2 H2) in R2.
  apply (rnode_binds kb (kb * 8) 0); [by eapply radix_ok_rmap|by eapply radix_ok_rmap|apply shares_zero..|lia|done|].
  congruence.
Qed.
End BindingClaim.

(** ** Instances and a limit *)

(** A digest that maps every string to zero. *)
Definition zero_digest : Digest := {|
  digest := fun _ => zero_chunk;
  digest_length := fun _ => length_EMPTY;
|}.

(** Collision resistance alone does not bind. A one-entry map and the empty
    map share a root under a digest that has no collision on the strings
    hashed in the two, because the empty subtree is the constant zero. *)
Theorem radix_empty_needs_nonzero :
  let m : RadixMap (V := Z) := [([7], Materialized 5)] in
  let rs := [([7], pad_chunk (to_le_bytes 8 5))] in
  @htr_radix_map zero_digest Z (htr_uint 8) 1 m = @htr_radix_map zero_digest Z (htr_uint 8) 1 [] /\
  @collision_free zero_digest (fun x => @node_hashes zero_digest 8 0 rs x \/ @node_hashes zero_digest 8 0 [] x).
Proof.
  split; [reflexivity|]. intros a b [Ha|[]] [Hb|[]] _. cbn in Ha, Hb. congruence.
Qed.

#[local] Existing Instance sum_digest.

Definition sample_map : RadixMap (V := Z) := [([7], Materialized 5); ([135], Materialized 6)].
Definition sample_roots : rentries :=
  [([7], pad_chunk (to_le_bytes 8 5)); ([135], pad_chunk (to_le_bytes 8 6))].

Lemma sample_map_ok : radix_ok (htr_uint 8) 1 sample_map sample_roots.
Proof.
  split; [repeat constructor| |reflexivity|repeat constructor].
  repeat constructor; unfold is_u; cbn; lia.
Qed.

Lemma radix_proof_complete_witness :
  exists root proof, htr_radix_map (htr_uint 8) 1 sample_map = Ret root /\
    prove (htr_uint 8) 1 sample_map [64] = Ret proof /\
    verify (htr_uint 8) 1 root [64] proof = Ret (Some Absent).
Proof.
  destruct (radix_proof_complete (htr_uint 8) 1 sample_map sample_roots [64] sample_map_ok)
    as (root & proof & H1 & H2 & H3 & _); [reflexivity|repeat constructor; unfold is_u; lia|].
  exists root, proof. split; [exact H1|]. split; [exact H2|exact H3].
Defined.

(** A map of one entry, and the same map with the value elided. *)
Definition one_map : RadixMap (V := Z) := [([7], Materialized 5)].
Definition one_elided : RadixMap (V := Z) := [([7], Missing (pad_chunk (to_le_bytes 8 5)))].
Definition one_roots : rentries := [([7], pad_chunk (to_le_bytes 8 5))].

Lemma one_map_ok : radix_ok (htr_uint 8) 1 one_map one_roots /\ radix_ok (htr_uint 8) 1 one_elided one_roots.
Proof.
  split; (split; [repeat constructor| |reflexivity|repeat constructor]);
    repeat constructor; unfold is_u; cbn; lia.
Qed.

Lemma one_digest_sound (P : list Z -> Prop) :
  (forall x, P x -> x = LEAF_TAG :: 7 :: pad_chunk (to_le_bytes 8 5)) -> digest_sound P.
Proof.
  intros HP. split; [by intros a b ->%HP ->%HP|]. intros x ->%HP. vm_compute. congruence.
Qed.

Lemma radix_proof_sound_witness : radix_get one_map [9] = None.
Proof.
  apply (radix_proof_sound (htr_uint 8) 1 one_map one_roots [9]
           (mkRadixProof 0 [] (TermDiverging [7] (pad_chunk (to_le_bytes 8 5))))
           (leaf_hash [7] (pad_chunk (to_le_bytes 8 5))) Absent).
  - apply one_map_ok.
  - reflexivity.
  - repeat constructor; unfold is_u; lia.
  - split; [constructor|split; reflexivity].
  - reflexivity.
  - vm_compute. reflexivity.
  - apply one_digest_sound. intros x [Hx|[(h & vd & _ & [])|Hx]]; exact Hx.
Defined.

Lemma radix_root_binds_witness : one_roots = one_roots.
Proof.
  apply (radix_root_binds (htr_uint 8) 1 one_map one_elided one_roots one_roots
           (leaf_hash [7] (pad_chunk (to_le_bytes 8 5)))).
  - apply one_map_ok.
  - apply one_map_ok.
  - reflexivity.
  - reflexivity.
  - apply one_digest_sound. intros x [Hx|Hx]; exact Hx.
Defined.

(** ** The wire form *)

Section WireFacts.
  Context {V : Type} (P : V -> Prop) (E : Encode V) (Dc : Decode V) (kb : nat).
  Context (C : codec_ok P E Dc) (Hkb : Z.of_nat kb < 2 ^ 31).

Definition radix_valid (m : RadixMap (V := V)) : Prop :=
  om_ok m /\ keys_ok kb m /\ Forall (fun e => missing_valid P (snd e)) m.

Lemma entry_roundtrip e n :
  length (fst e) = kb -> Forall (is_u 8) (fst e) -> missing_valid P (snd e) ->
  ssz_bytes_len (enc_missing_or E) (snd e) = Ret n -> n < 2 ^ 32 ->
  exists p, encode_entry E kb e = Ret p /\ zlen p = Z.of_nat kb + 4 + n /\ Forall (is_u 8) p /\
            from_ssz_bytes (dec_entry Dc kb) p = Ret (Ok e).
Proof using C Hkb.
  intros Hl Hb HP Hn Hlt. destruct (ck_rt _ _ _ (enc_missing_or_ok P E Dc C) (snd e) n HP Hn Hlt) as (v & Hv & Hz & Hu & Hd).
  destruct e as [k mv]. cbn [fst snd] in *. unfold encode_entry, BYTES_PER_LENGTH_OFFSET. cbn [fst snd]. rewrite Hv. cbn [res_bind].
  rewrite wrap_small by (unfold is_u; lia). set (off := to_le_bytes 4 (Z.of_nat kb + 4)).
  assert (zlen k = Z.of_nat kb) as Hk by (unfold zlen; lia). assert (zlen off = 4) as Ho by (unfold off; by rewrite zlen_le_bytes).
  pose proof (zlen_nonneg v). exists (k ++ off ++ v). split_and!; [done|rewrite !zlen_app; lia| |].
  { repeat apply Forall_app_2; auto. apply to_le_bytes_bytes. }
  cbn [dec_entry from_ssz_bytes]. unfold BYTES_PER_LENGTH_OFFSET. rewrite !zlen_app.
  destruct (Z.ltb_spec (zlen k + (zlen off + zlen v)) (Z.of_nat kb + 4)); [lia|].
  rewrite slice_prefix by done. cbn [res_bind]. rewrite slice_app by lia. cbn [res_bind].
  unfold off at 1. rewrite from_to_le_bytes, wrap_small by (unfold is_u; lia). rewrite Z.eqb_refl. cbn [negb].
  rewrite app_assoc, slice_suffix by (rewrite ?zlen_app; lia). cbn [res_bind]. by rewrite Hd.
Qed.

Lemma entries_roundtrip m :
  radix_valid m ->
  exists lens, res_mapM (fun e => ssz_bytes_len (enc_missing_or E) (snd e)) m = Ret lens /\ 0 <= sumZ lens /\
    (sumZ lens < 2 ^ 32 -> exists ps, res_mapM (encode_entry E kb) m = Ret ps /\ zlen ps = zlen m /\
       zlen (concat ps) = zlen m * (Z.of_nat kb + 4) + sumZ lens /\ Forall (Forall (is_u 8)) ps /\
       Forall2 (fun p e => from_ssz_bytes (dec_entry Dc kb) p = Ret (Ok e)) ps m).
Proof using C Hkb.
  intros (_ & Hk & HF). induction m as [|e m IH].
  { exists []. split_and!; [done|done|]. intros _. exists []. by split_and!. }
  apply Forall_cons_iff in Hk as [[Hl Hb] Hk], HF as [HP HF]. destruct (IH Hk HF) as (lens & El & H0 & Hrt).
  destruct (ck_size _ _ _ (enc_missing_or_ok P E Dc C) (snd e) HP) as (n & Hn & Hn0 & _).
  exists (n :: lens). cbn [res_mapM sumZ]. rewrite Hn, El. cbn [res_bind]. split_and!; [done|lia|]. intros Hlt.
  destruct (entry_roundtrip e n Hl Hb HP Hn) as (p & Ep & Hz & Hu & Hd); [lia|].
  destruct Hrt as (ps & Eps & Hz1 & Hz2 & Hu2 & Hd2); [lia|].
  exists (p :: ps). rewrite Ep, Eps. cbn [res_bind concat]. rewrite zlen_app, Hz, Hz2. unfold zlen in *. cbn [length].
  split_and!; [done|lia|lia|by constructor|by constructor].
Qed.

(** The wire form of a radix map is read back. *)
Lemma enc_radix_map_ok : codec_ok radix_valid (enc_radix_map E kb) (dec_radix_map Dc kb).
Proof using C Hkb.
  split; [done..| |]; cbn [enc_radix_map dec_radix_map ssz_bytes_len ssz_append from_ssz_bytes is_ssz_fixed_len];
    unfold BYTES_PER_LENGTH_OFFSET.
  - intros m Hm. destruct (entries_roundtrip m Hm) as (lens & -> & H0 & _). pose proof (zlen_nonneg m).
    cbn. eexists. split_and!; [done|nia|done].
  - intros m n Hm Hn Hlt. destruct (entries_roundtrip m Hm) as (lens & El & H0 & Hrt). rewrite El in Hn.
    injection Hn as <-. pose proof (zlen_nonneg m).
    destruct Hrt as (ps & Eps & Hz1 & Hz2 & Hu & Hd); [nia|].
    destruct (var_list_decodes (dec_entry Dc kb) ps m None Hd) as (bs & Eb & Hzb & Hub & Hdb); [rewrite Hz1, Hz2; nia|done|].
    unfold encode_entries_list. rewrite Eps. cbn [res_bind]. rewrite Eb. cbn [res_bind].
    eexists. split_and!; [done|rewrite zlen_app, zlen_le_bytes, Hzb, Hz1, Hz2; lia| |].
    + apply Forall_app. split; [apply to_le_bytes_bytes|auto].
    + rewrite zlen_app, zlen_le_bytes. pose proof (zlen_nonneg bs).
      destruct (Z.ltb_spec (Z.of_nat 4 + zlen bs) 4); [lia|].
      rewrite slice_prefix by (by rewrite zlen_le_bytes). cbn [res_bind].
      rewrite from_to_le_bytes, wrap_small by (unfold is_u; lia). cbn [Z.eqb Pos.eqb negb].
      rewrite slice_suffix by (rewrite ?zlen_app, ?zlen_le_bytes; lia). cbn [res_bind]. rewrite Hdb. cbn [try_bind res_bind].
      destruct Hm as (Ho & _). by rewrite keys_ascend_ok.
Qed.
End WireFacts.
