(* ===== verification/CapData.v ===== *)
(** Data capabilities: [src/rust/javm-cap/src/cap/page.rs] and
    [src/rust/javm-cap/src/cap/data.rs]. A data cap is an immutable dense
    slab of pages with a copy-on-write overlay. The theorems say that the
    slab's layout is canonical (a function of its size and bytes), that the
    contiguous and the sparse constructor build the same slab, and that
    backing writes, copy-on-write and [flush] together implement a byte
    array. The debug assertions on page offsets ([put_page], [write_page],
    [from_sparse_pages]) are panics of the model. *)

From Stdlib Require Import ZArith Lia List Bool.
From stdpp Require Import base list numbers tactics.
From S2P Require Import Prelude MachineInt OrdMap Merkle Ssz SszFacts.
Open Scope Z_scope.

(** ** Pages *)

Definition CAP_PAGE_SIZE : Z := 4096.
Definition page_len : nat := Z.to_nat CAP_PAGE_SIZE.
#[global] Opaque page_len.

Definition CapHash : Type := Chunk.

Record PageBytes : Type := mkPageBytes { pb_hash : CapHash; pb_bytes : list Z }.

Inductive PageSlot : Type :=
| PsEmpty
| PsLoaded (page : PageBytes)
| PsMissing (h : CapHash).

(** The first [PAGE_SIZE] bytes of [content], zero-padded to a page. *)
Definition pad_page (content : list Z) : list Z :=
  take page_len content ++ replicate (page_len - length content) 0.

Definition all_zero (bs : list Z) : bool := forallb (fun b => b =? 0) bs.

Section Digest.
  Context {D : Digest}.

(** The root of the padded page as [ByteVector[PAGE_SIZE]]. *)
Definition page_content_hash (bytes : list Z) : CapHash :=
  merkleize (pack_bytes (pad_page bytes)) (Z.max (div_ceil CAP_PAGE_SIZE 32) 1).

Definition from_content (content : list Z) : PageBytes :=
  mkPageBytes (page_content_hash content) (pad_page content).

Definition from_page_copy_unhashed (src : list Z) : PageBytes :=
  mkPageBytes zero_chunk (pad_page src).

(** The [Clone] / [Deserialize] of a page: the bytes moved to an aligned
    slab of at least a page. *)
Definition realigned (hash : CapHash) (src : list Z) : PageBytes :=
  let len := Z.max (next_multiple_of (Z.max (zlen src) CAP_PAGE_SIZE) CAP_PAGE_SIZE) CAP_PAGE_SIZE in
  mkPageBytes hash (src ++ replicate (Z.to_nat len - length src) 0).

Definition page_slot_root (s : PageSlot) : Chunk :=
  match s with PsEmpty => zero_chunk | PsLoaded pr => pb_hash pr | PsMissing h => h end.

(** The slot a page of [content] is stored as: the zero page is elided. *)
Definition slot_of_content (content : list Z) : PageSlot :=
  if all_zero content then PsEmpty else PsLoaded (from_content content).

(** ** The slab *)

Record PageSlab : Type := mkPageSlab { slab_size : Z; slab_pages : list PageSlot }.

Definition slab_empty : PageSlab := mkPageSlab 0 [].
Definition slab_page_count (s : PageSlab) : nat := Z.to_nat (slab_size s / CAP_PAGE_SIZE).
Definition slab_page (s : PageSlab) (i : nat) : PageSlot := default PsEmpty (slab_pages s !! i).

(** [while matches!(pages.last(), Some(Empty)) { pages.pop(); }] *)
Fixpoint trim (l : list PageSlot) : list PageSlot :=
  match l with
  | [] => []
  | x :: r => match trim r, x with [], PsEmpty => [] | t, _ => x :: t end
  end.

(** [Vec::resize] with [Empty], then the store. *)
Definition set_page (pages : list PageSlot) (p : nat) (s : PageSlot) : list PageSlot :=
  <[p := s]> (if (length pages <=? p)%nat then pages ++ replicate (S p - length pages) PsEmpty else pages).

Definition put_page_idx (s : PageSlab) (p : nat) (content : list Z) : PageSlab :=
  mkPageSlab (slab_size s) (trim (set_page (slab_pages s) p (slot_of_content content))).

Fixpoint last_nonempty (i : nat) (l : list PageSlot) (acc : option nat) : option nat :=
  match l with
  | [] => acc
  | PsEmpty :: r => last_nonempty (S i) r acc
  | _ :: r => last_nonempty (S i) r (Some i)
  end.

Definition size_for (target_size : Z) : Z :=
  Z.max (wrap 64 (next_multiple_of target_size CAP_PAGE_SIZE)) CAP_PAGE_SIZE.

(** Page [p] of contiguous content. *)
Definition content_page (content : list Z) (p : nat) : list Z :=
  take page_len (drop (p * page_len) content).

Definition slab_from_bytes_sized (content : list Z) (target_size : Z) : PageSlab :=
  let size := size_for (Z.max target_size (zlen content)) in
  let total_pages := Z.to_nat (size / CAP_PAGE_SIZE) in
  let pages := map (fun p => slot_of_content (content_page content p)) (seq 0 total_pages) in
  mkPageSlab size
    match last_nonempty 0 pages None with Some l => take (S l) pages | None => [] end.

(** The loop of [from_sparse_pages]; a page index past the extent trips its
    assertion. *)
Fixpoint put_pages (s : PageSlab) (pages : list (Z * list Z)) : Res PageSlab :=
  match pages with
  | [] => Ret s
  | (i, content) :: r =>
      let! _ := debug_assert (i <? Z.of_nat (slab_page_count s)) in
      put_pages (put_page_idx s (Z.to_nat i) content) r
  end.

Definition slab_from_sparse_pages (size : Z) (pages : list (Z * list Z)) : Res PageSlab :=
  put_pages (mkPageSlab (size_for size) []) pages.

Definition slab_root (s : PageSlab) : Chunk :=
  let page_count := slab_page_count s in
  merkleize (map (fun i => page_slot_root (slab_page s i)) (seq 0 page_count))
    (Z.max (Z.of_nat page_count) 1).

(** ** The cap *)

Record DataCap : Type := mkDataCap { dc_backing : PageSlab; dc_overlay : OrdMap Z PageSlot }.

Definition data_empty : DataCap := mkDataCap slab_empty [].
Definition content_len (d : DataCap) : Z := slab_size (dc_backing d).
Definition page_count (d : DataCap) : nat := slab_page_count (dc_backing d).

(** The cap root is defined on a flushed cap only. *)
Definition data_root (d : DataCap) : Res Chunk :=
  match dc_overlay d with
  | [] => let! size_root := htr_uint 8 (slab_size (dc_backing d)) in
          Ret (merkleize [size_root; slab_root (dc_backing d)] 2)
  | _ => Abort
  end.

Definition is_dirty (d : DataCap) (i : nat) : bool :=
  match om_get (wrap 32 (Z.of_nat i)) (dc_overlay d) with
  | Some (PsLoaded _) | Some (PsMissing _) => true
  | _ => false
  end.

(** The effective page: the overlay's, else the backing's. *)
Definition page_slot (d : DataCap) (i : nat) : PageSlot :=
  match om_get (wrap 32 (Z.of_nat i)) (dc_overlay d) with
  | Some (PsLoaded p) => PsLoaded p
  | Some (PsMissing h) => PsMissing h
  | _ => slab_page (dc_backing d) i
  end.

Inductive PageResolution : Type :=
| PrZero
| PrBytes (bytes : list Z)
| PrMissing (h : CapHash).

Definition page_at (d : DataCap) (off : Z) : PageResolution :=
  match page_slot d (Z.to_nat (off / CAP_PAGE_SIZE)) with
  | PsLoaded pr => PrBytes (pb_bytes pr)
  | PsMissing h => PrMissing h
  | PsEmpty => PrZero
  end.

(** One round of [copy_into]: the bytes of the page at [off], [n] of them. *)
Definition copy_chunk (d : DataCap) (off n : Z) : Res (list Z) :=
  let page_off := off mod CAP_PAGE_SIZE in
  match page_at d off with
  | PrBytes bytes =>
      let avail := Z.max 0 (zlen bytes - page_off) in
      let m := Z.min avail n in
      let! s := slice bytes page_off (page_off + m) in
      Ret (s ++ replicate (Z.to_nat (n - m)) 0)
  | PrZero => Ret (replicate (Z.to_nat n) 0)
  | PrMissing _ => Abort
  end.

(** The loop of [copy_into]; every round copies at least one byte, so [len]
    rounds are enough. *)
Fixpoint copy_loop (fuel : nat) (d : DataCap) (off len : Z) : Res (list Z) :=
  if len <=? 0 then Ret [] else
  match fuel with
  | O => Abort
  | S fuel' =>
      let take_ := Z.min (CAP_PAGE_SIZE - off mod CAP_PAGE_SIZE) len in
      let! a := copy_chunk d off take_ in
      let! b := copy_loop fuel' d (off + take_) (len - take_) in
      Ret (a ++ b)
  end.

Definition copy_into (d : DataCap) (start len : Z) : Res (list Z) :=
  copy_loop (Z.to_nat len) d start len.

Definition put_page (d : DataCap) (off : Z) (content : list Z) : Res DataCap :=
  let! _ := debug_assert (off <? content_len d) in
  Ret (mkDataCap (put_page_idx (dc_backing d) (Z.to_nat (off / CAP_PAGE_SIZE)) content) (dc_overlay d)).

Definition write_page (d : DataCap) (off : Z) (content : list Z) : Res DataCap :=
  let! _ := debug_assert (off <? content_len d) in
  Ret (mkDataCap (dc_backing d)
         (fst (om_insert (wrap 32 (off / CAP_PAGE_SIZE)) (PsLoaded (from_content content)) (dc_overlay d)))).

Definition insert_overlay_page (d : DataCap) (p : Z) (slot : PageSlot) : DataCap :=
  mkDataCap (dc_backing d) (fst (om_insert p slot (dc_overlay d))).

(** [place_shared]: clone the effective pages of [src] into the backing. *)
Definition place_shared (d : DataCap) (dst_off : Z) (src : DataCap) : DataCap :=
  let base := Z.to_nat (dst_off / CAP_PAGE_SIZE) in
  let total_pages := page_count d in
  let pages :=
    fold_left (fun pages i =>
                 if (total_pages <=? base + i)%nat then pages
                 else set_page pages (base + i) (page_slot src i))
      (seq 0 (page_count src)) (slab_pages (dc_backing d)) in
  mkDataCap (mkPageSlab (slab_size (dc_backing d)) (trim pages)) (dc_overlay d).

Fixpoint fold_overlay (s : PageSlab) (overlay : list (Z * PageSlot)) : Res PageSlab :=
  match overlay with
  | [] => Ret s
  | (p, PsLoaded pr) :: r => fold_overlay (put_page_idx s (Z.to_nat p) (pb_bytes pr)) r
  | (_, PsEmpty) :: r => fold_overlay s r
  | (_, PsMissing _) :: _ => Abort
  end.

Definition flush (d : DataCap) : Res DataCap :=
  match dc_overlay d with
  | [] => Ret d
  | ov => let! s := fold_overlay (dc_backing d) ov in Ret (mkDataCap s [])
  end.

Definition data_from_bytes_sized (content : list Z) (target_size : Z) : DataCap :=
  mkDataCap (slab_from_bytes_sized content target_size) [].
Definition data_from_bytes (content : list Z) : DataCap := data_from_bytes_sized content (zlen content).
Definition data_from_sparse_pages (size : Z) (pages : list (Z * list Z)) : Res DataCap :=
  let! s := slab_from_sparse_pages size pages in Ret (mkDataCap s []).
End Digest.

(** ** Canonical form *)

(** The bytes a slot stands for. *)
Definition page_content (s : PageSlot) : list Z :=
  match s with PsEmpty => replicate page_len 0 | PsLoaded pr => pb_bytes pr | PsMissing _ => [] end.

Lemma length_pad_page c : length (pad_page c) = page_len.
Proof. unfold pad_page. rewrite length_app, length_take, length_replicate. lia. Qed.

Lemma pad_page_full c : length c = page_len -> pad_page c = c.
Proof. intros H. unfold pad_page. by rewrite H, Nat.sub_diag, <- H, firstn_all, app_nil_r. Qed.

Lemma pad_page_idem c : pad_page (pad_page c) = pad_page c.
Proof. apply pad_page_full, length_pad_page. Qed.

Lemma pad_page_bytes c : Forall (is_u 8) c -> Forall (is_u 8) (pad_page c).
Proof.
  intros H. unfold pad_page. apply Forall_app. split; [by apply Forall_take|].
  apply Forall_replicate. unfold is_u. lia.
Qed.

Lemma all_zero_replicate c : all_zero c = true <-> c = replicate (length c) 0.
Proof.
  induction c as [|x c IH]; [done|]. cbn. rewrite andb_true_iff, IH, Z.eqb_eq. split.
  - intros [-> E]. by rewrite <- E.
  - intros [= -> E]. by split.
Qed.

Lemma all_zero_pad c : (length c <= page_len)%nat -> all_zero (pad_page c) = all_zero c.
Proof.
  intros H. unfold pad_page. rewrite take_ge by lia. unfold all_zero. rewrite forallb_app.
  replace (forallb _ (replicate _ 0)) with true; [apply andb_true_r|].
  symmetry. apply forallb_forall. intros x Hx. apply list_elem_of_In, elem_of_replicate in Hx as [-> _]. done.
Qed.

Lemma trim_lookup l i : default PsEmpty (trim l !! i) = default PsEmpty (l !! i).
Proof.
  revert i. induction l as [|x r IH]; intros i; [done|]. cbn.
  destruct (trim r) as [|y t] eqn:Ht.
  - destruct x, i; cbn; rewrite ?lookup_nil; try done; by rewrite <- IH, lookup_nil.
  - destruct i; [done|]. cbn. by rewrite <- IH.
Qed.

Lemma trim_ext l1 l2 :
  (forall i, default PsEmpty (l1 !! i) = default PsEmpty (l2 !! i)) -> trim l1 = trim l2.
Proof.
  assert (forall l, (forall i, default PsEmpty (l !! i) = PsEmpty) -> trim l = []) as Hnil.
  { induction l as [|x r IH]; [done|]. intros H. cbn. rewrite IH by (intros i; apply (H (S i))).
    specialize (H 0%nat). cbn in H. by subst. }
  revert l2. induction l1 as [|x r IH]; intros l2 H.
  { symmetry. apply Hnil. intros i. by rewrite <- H. }
  destruct l2 as [|y s].
  { apply Hnil. intros i. by rewrite H. }
  cbn. rewrite (IH s) by (intros i; apply (H (S i))).
  specialize (H 0%nat). cbn in H. by subst.
Qed.

Lemma trim_idem l : trim (trim l) = trim l.
Proof. apply trim_ext, trim_lookup. Qed.

Lemma trim_Forall (P : PageSlot -> Prop) l : Forall P l -> Forall P (trim l).
Proof.
  induction 1 as [|x l Hx _ IH]; [constructor|]. cbn. destruct (trim l); destruct x; auto.
Qed.

Lemma trim_app l n : trim (l ++ replicate n PsEmpty) = trim l.
Proof.
  apply trim_ext. intros i. destruct (decide (i < length l)%nat).
  - by rewrite lookup_app_l.
  - rewrite lookup_app_r, (lookup_ge_None_2 l) by lia.
    destruct (decide (i - length l < n)%nat); [by rewrite lookup_replicate_2|].
    by rewrite lookup_ge_None_2 by (rewrite length_replicate; lia).
Qed.

Lemma length_trim l : (length (trim l) <= length l)%nat.
Proof. induction l as [|x r IH]; [done|]. cbn. destruct (trim r); destruct x; cbn in *; lia. Qed.

Lemma set_page_lookup pages p s i :
  default PsEmpty (set_page pages p s !! i) =
  if decide (i = p) then s else default PsEmpty (pages !! i).
Proof.
  unfold set_page. destruct (Nat.leb_spec (length pages) p).
  - case_decide; [subst; rewrite list_lookup_insert_eq; [done|rewrite length_app, length_replicate; lia]|].
    rewrite list_lookup_insert_ne by done. destruct (decide (i < length pages)%nat).
    + by rewrite lookup_app_l.
    + rewrite lookup_app_r, (lookup_ge_None_2 pages) by lia. cbn.
      destruct (decide (i - length pages < S p - length pages)%nat).
      * by rewrite lookup_replicate_2.
      * by rewrite lookup_ge_None_2 by (rewrite length_replicate; lia).
  - case_decide; [subst; by rewrite list_lookup_insert_eq|by rewrite list_lookup_insert_ne].
Qed.

Lemma length_set_page pages p s : length (set_page pages p s) = Nat.max (S p) (length pages).
Proof.
  unfold set_page. rewrite length_insert. destruct (Nat.leb_spec (length pages) p); [|lia].
  rewrite length_app, length_replicate. lia.
Qed.

Lemma set_page_Forall (P : PageSlot -> Prop) pages p s :
  P PsEmpty -> P s -> Forall P pages -> Forall P (set_page pages p s).
Proof.
  intros He Hs H. unfold set_page. apply Forall_insert; [|done].
  destruct (_ <=? _)%nat; [|done]. apply Forall_app. split; [done|by apply Forall_replicate].
Qed.

Section Canonical.
  Context {D : Digest}.

(** A stored page is a full non-zero page with its own hash; [Missing] pages
    are never minted. *)
Definition slot_ok (s : PageSlot) : Prop :=
  match s with
  | PsEmpty => True
  | PsLoaded pr => length (pb_bytes pr) = page_len /\ Forall (is_u 8) (pb_bytes pr) /\
                   all_zero (pb_bytes pr) = false /\ pb_hash pr = page_content_hash (pb_bytes pr)
  | PsMissing _ => False
  end.

(** The slab invariant: a positive page-multiple size, no trailing empty
    page, no page past the extent. *)
Definition slab_ok (s : PageSlab) : Prop :=
  slab_size s mod CAP_PAGE_SIZE = 0 /\ CAP_PAGE_SIZE <= slab_size s /\
  trim (slab_pages s) = slab_pages s /\ Forall slot_ok (slab_pages s) /\
  (length (slab_pages s) <= slab_page_count s)%nat.

Lemma slot_of_content_ok c :
  Forall (is_u 8) c -> (length c <= page_len)%nat -> slot_ok (slot_of_content c).
Proof.
  intros Hb Hl. unfold slot_of_content. destruct (all_zero c) eqn:Hz; [done|]. cbn. split_and!.
  - apply length_pad_page.
  - by apply pad_page_bytes.
  - by rewrite all_zero_pad.
  - unfold page_content_hash. by rewrite pad_page_idem.
Qed.

Lemma slot_of_content_bytes c :
  (length c <= page_len)%nat -> page_content (slot_of_content c) = pad_page c.
Proof.
  intros Hl. unfold slot_of_content. destruct (all_zero c) eqn:Hz; [|done]. cbn.
  apply all_zero_replicate in Hz. unfold pad_page. rewrite take_ge, Hz, length_replicate, <- replicate_add by lia.
  f_equal. lia.
Qed.

(** Equal bytes are stored as equal slots. *)
Lemma slot_ok_inj s1 s2 : slot_ok s1 -> slot_ok s2 -> page_content s1 = page_content s2 -> s1 = s2.
Proof.
  assert (all_zero (replicate page_len 0) = true) as Hz
    by (apply all_zero_replicate; by rewrite length_replicate).
  destruct s1 as [|[h1 b1]|], s2 as [|[h2 b2]|]; cbn [slot_ok page_content pb_bytes pb_hash];
    try (intros []; fail); try (intros _ []; fail).
  - reflexivity.
  - intros _ (_ & _ & Hn & _) E. rewrite <- E, Hz in Hn. done.
  - intros (_ & _ & Hn & _) _ E. rewrite E, Hz in Hn. done.
  - intros (_ & _ & _ & ->) (_ & _ & _ & ->) ->. done.
Qed.

Lemma slab_page_ok s i : slab_ok s -> slot_ok (slab_page s i).
Proof.
  intros (_ & _ & _ & HF & _). unfold slab_page.
  destruct (slab_pages s !! i) eqn:E; [|done]. by eapply Forall_lookup_1 in HF.
Qed.

(** The layout is unique: a slab is a function of its size and bytes. *)
Lemma slab_ext s1 s2 :
  slab_ok s1 -> slab_ok s2 -> slab_size s1 = slab_size s2 ->
  (forall i, (i < slab_page_count s1)%nat ->
             page_content (slab_page s1 i) = page_content (slab_page s2 i)) -> s1 = s2.
Proof.
  intros H1 H2 Hsz Hc. assert (slab_page_count s1 = slab_page_count s2) as Hpc
    by (unfold slab_page_count; by rewrite Hsz).
  destruct s1 as [z1 p1], s2 as [z2 p2]; cbn in *. subst z2. f_equal.
  pose proof (proj1 (proj2 (proj2 H1))) as T1. pose proof (proj1 (proj2 (proj2 H2))) as T2.
  cbn in T1, T2. rewrite <- T1, <- T2. apply trim_ext. intros i.
  destruct (decide (i < slab_page_count (mkPageSlab z1 p1))%nat) as [Hi|Hi].
  - apply slot_ok_inj; [apply (slab_page_ok _ i H1)|apply (slab_page_ok _ i H2)|by apply Hc].
  - pose proof (proj2 (proj2 (proj2 (proj2 H1)))). pose proof (proj2 (proj2 (proj2 (proj2 H2)))).
    cbn in *. by rewrite !lookup_ge_None_2 by lia.
Qed.

Lemma slab_page_put s p c i :
  slab_page (put_page_idx s p c) i = if decide (i = p) then slot_of_content c else slab_page s i.
Proof. unfold slab_page, put_page_idx. cbn. by rewrite trim_lookup, set_page_lookup. Qed.

Lemma put_page_idx_ok s p c :
  slab_ok s -> (p < slab_page_count s)%nat -> Forall (is_u 8) c -> (length c <= page_len)%nat ->
  slab_ok (put_page_idx s p c).
Proof.
  intros (H1 & H2 & H3 & H4 & H5) Hp Hb Hl. unfold put_page_idx, slab_ok, slab_page_count in *. cbn in *.
  split_and!; [done|done|apply trim_idem| |].
  - apply trim_Forall, set_page_Forall; [done|by apply slot_of_content_ok|done].
  - pose proof (length_trim (set_page (slab_pages s) p (slot_of_content c))).
    rewrite length_set_page in *. lia.
Qed.
End Canonical.

(** ** Constructors *)

Lemma trim_prefix l : take (length (trim l)) l = trim l.
Proof. induction l as [|x r IH]; [done|]. cbn. destruct (trim r); destruct x; cbn in *; congruence. Qed.

Lemma last_nonempty_trim l i acc :
  last_nonempty i l acc = match trim l with [] => acc | t => Some (i + length t - 1)%nat end.
Proof.
  revert i acc. induction l as [|x r IH]; intros i acc; [done|]. cbn [last_nonempty trim].
  destruct x; rewrite IH; destruct (trim r); try done; cbn [length]; f_equal; lia.
Qed.

Lemma truncate_trim l :
  match last_nonempty 0 l None with Some k => take (S k) l | None => [] end = trim l.
Proof.
  rewrite last_nonempty_trim. pose proof (trim_prefix l) as Hp. destruct (trim l) as [|x t]; [done|].
  rewrite <- Hp at 2. f_equal. cbn [length]. lia.
Qed.

Section Build.
  Context {D : Digest}.

Lemma size_for_multiple z :
  0 <= z < 2 ^ 63 -> size_for z mod CAP_PAGE_SIZE = 0 /\ CAP_PAGE_SIZE <= size_for z /\ z <= size_for z.
Proof.
  intros Hz. unfold size_for, next_multiple_of, div_ceil, CAP_PAGE_SIZE.
  rewrite wrap_small by (unfold is_u; dlia).
  destruct (Z.max_spec ((z + 4096 - 1) / 4096 * 4096) 4096) as [[? ->]|[? ->]]; [dlia|].
  rewrite Z_mod_mult. dlia.
Qed.

Lemma size_for_fixed z : z mod CAP_PAGE_SIZE = 0 -> CAP_PAGE_SIZE <= z < 2 ^ 63 -> size_for z = z.
Proof.
  unfold size_for, next_multiple_of, div_ceil, CAP_PAGE_SIZE. intros Hm Hz.
  rewrite wrap_small by (unfold is_u; dlia). dlia.
Qed.

Lemma content_page_short c p : (length (content_page c p) <= page_len)%nat.
Proof. unfold content_page. rewrite length_take. lia. Qed.

Lemma content_page_bytes c p : Forall (is_u 8) c -> Forall (is_u 8) (content_page c p).
Proof. intros H. unfold content_page. by apply Forall_take, Forall_drop. Qed.

(** Page [i] of a slab built from contiguous content. *)
Lemma slab_from_bytes_page c t i :
  (i < slab_page_count (slab_from_bytes_sized c t))%nat ->
  slab_page (slab_from_bytes_sized c t) i = slot_of_content (content_page c i).
Proof.
  unfold slab_page, slab_page_count, slab_from_bytes_sized. cbn. intros Hi.
  rewrite truncate_trim, trim_lookup, list_lookup_fmap, lookup_seq_lt by done. done.
Qed.

Lemma slab_from_bytes_ok c t :
  Forall (is_u 8) c -> 0 <= t -> Z.max t (zlen c) < 2 ^ 63 -> slab_ok (slab_from_bytes_sized c t).
Proof.
  intros Hb Ht Hlt. pose proof (zlen_nonneg c).
  destruct (size_for_multiple (Z.max t (zlen c))) as (Hm & Hp & _); [lia|].
  unfold slab_ok, slab_from_bytes_sized, slab_page_count. cbn [slab_size slab_pages].
  rewrite truncate_trim. split_and!; [done|done|apply trim_idem| |].
  - apply trim_Forall, Forall_map, Forall_true. intros p.
    apply slot_of_content_ok; [by apply content_page_bytes|apply content_page_short].
  - etrans; [apply length_trim|]. by rewrite length_map, length_seq.
Qed.

(** Named pages over an extent, as [from_sparse_pages] is given them. *)
Definition sparse_ok (n : nat) (pages : list (Z * list Z)) : Prop :=
  Forall (fun p => 0 <= fst p /\ (Z.to_nat (fst p) < n)%nat /\
                   Forall (is_u 8) (snd p) /\ (length (snd p) <= page_len)%nat) pages.

(** The last page named [i], if any. *)
Fixpoint named_page (i : nat) (pages : list (Z * list Z)) (dflt : PageSlot) : PageSlot :=
  match pages with
  | [] => dflt
  | (p, c) :: r => named_page i r (if decide (i = Z.to_nat p) then slot_of_content c else dflt)
  end.

Lemma sparse_fold s pages :
  slab_ok s -> sparse_ok (slab_page_count s) pages ->
  exists s', put_pages s pages = Ret s' /\ slab_ok s' /\ slab_size s' = slab_size s /\
  forall i, slab_page s' i = named_page i pages (slab_page s i).
Proof.
  revert s. induction pages as [|[p c] r IH]; intros s Hs Hp; [by exists s|].
  apply Forall_cons_iff in Hp as [(H0 & Hlt & Hb & Hl) Hr]. cbn [fst snd] in *.
  destruct (IH (put_page_idx s (Z.to_nat p) c)) as (s' & E & I1 & I2 & I3);
    [by apply put_page_idx_ok|done|].
  exists s'. cbn [put_pages]. rewrite debug_assert_true by lia. cbn [res_bind].
  split_and!; [done..|]. intros i. by rewrite I3, slab_page_put.
Qed.

Lemma slab_from_sparse_ok size pages :
  0 <= size < 2 ^ 63 -> sparse_ok (Z.to_nat (size_for size / CAP_PAGE_SIZE)) pages ->
  exists s, slab_from_sparse_pages size pages = Ret s /\ slab_ok s /\ slab_size s = size_for size /\
  forall i, slab_page s i = named_page i pages PsEmpty.
Proof.
  intros Hz Hp. apply (sparse_fold (mkPageSlab (size_for size) []) pages); [|done].
  destruct (size_for_multiple size Hz) as (? & ? & _). split_and!; cbn; (done || lia).
Qed.
End Build.

(** ** Copy-on-write *)

Section Cow.
  Context {D : Digest}.

(** An overlay page is a full page of bytes, or an empty slot; its hash may
    be stale and its bytes may all be zero. *)
Definition overlay_slot_ok (n : nat) (kv : Z * PageSlot) : Prop :=
  0 <= fst kv < 2 ^ 32 /\ (Z.to_nat (fst kv) < n)%nat /\
  match snd kv with
  | PsEmpty => True
  | PsLoaded pr => length (pb_bytes pr) = page_len /\ Forall (is_u 8) (pb_bytes pr)
  | PsMissing _ => False
  end.

Definition data_ok (d : DataCap) : Prop :=
  slab_ok (dc_backing d) /\ om_ok (dc_overlay d) /\
  Forall (overlay_slot_ok (page_count d)) (dc_overlay d).

Lemma fold_overlay_spec s ov :
  slab_ok s -> om_ok ov -> Forall (overlay_slot_ok (slab_page_count s)) ov ->
  exists s', fold_overlay s ov = Ret s' /\ slab_ok s' /\ slab_size s' = slab_size s /\
    forall i, Z.of_nat i < 2 ^ 32 ->
      page_content (slab_page s' i) =
      page_content (page_slot (mkDataCap s ov) i).
Proof.
  revert s. induction ov as [|[p sl] r IH]; intros s Hs Hov HF; [by exists s|].
  apply om_ok_cons in Hov as [Hr Hlt]. apply Forall_cons_iff in HF as [(Hp & Hpn & Hsl) HF].
  cbn [fst snd] in *.
  assert (forall i, Z.of_nat i < 2 ^ 32 -> om_get (wrap 32 (Z.of_nat i)) ((p, sl) :: r) =
            if decide (i = Z.to_nat p) then Some sl else om_get (wrap 32 (Z.of_nat i)) r) as Hget.
  { intros i Hi. rewrite wrap_small by (unfold is_u; lia). cbn. unfold cmp, ord_Z.
    case_decide as E; [subst; by rewrite Z2Nat.id, Z.compare_refl by lia|].
    destruct (Z.compare_spec (Z.of_nat i) p); [lia| |done].
    symmetry. apply om_get_below. apply Forall_impl with (2 := Hlt). intros [q ?]. cbn.
    unfold key_lt, cmp, ord_Z. rewrite !Z.compare_lt_iff. lia. }
  destruct sl as [|pr|]; [| |done]; cbn [fold_overlay].
  - destruct (IH s Hs Hr HF) as (s' & -> & Ho & Hz & Hc). exists s'. split_and!; [done..|].
    intros i Hi. rewrite Hc by done. unfold page_slot. cbn [dc_overlay dc_backing]. rewrite Hget by done.
    case_decide as E; [|done]. subst. rewrite wrap_small by (unfold is_u; lia).
    rewrite om_get_below; [done|]. rewrite Z2Nat.id by lia. done.
  - destruct Hsl as [Hl Hb].
    destruct (IH (put_page_idx s (Z.to_nat p) (pb_bytes pr))) as (s' & -> & Ho & Hz & Hc);
      [apply put_page_idx_ok; [done..|lia]|done|done|]. exists s'. split_and!; [done..|].
    intros i Hi. rewrite Hc by done. unfold page_slot. cbn [dc_overlay dc_backing]. rewrite Hget by done.
    rewrite slab_page_put. case_decide as E; [|done]. subst.
    rewrite wrap_small by (unfold is_u; lia). rewrite om_get_below by (rewrite Z2Nat.id by lia; done).
    rewrite slot_of_content_bytes by lia. by apply pad_page_full.
Qed.
End Cow.

Lemma page_len_eq : Z.of_nat page_len = CAP_PAGE_SIZE.
Proof. Transparent page_len. unfold page_len. rewrite Z2Nat.id; [done|by unfold CAP_PAGE_SIZE]. Opaque page_len. Qed.

(** ** Effective bytes *)

Section Effective.
  Context {D : Digest}.

(** The byte the guest sees at offset [off]. *)
Definition byte_at (d : DataCap) (off : Z) : Z :=
  default 0 (page_content (page_slot d (Z.to_nat (off / CAP_PAGE_SIZE)))
               !! Z.to_nat (off mod CAP_PAGE_SIZE)).

Lemma flush_spec d :
  data_ok d ->
  exists d', flush d = Ret d' /\ data_ok d' /\ dc_overlay d' = [] /\ content_len d' = content_len d /\
    forall i, Z.of_nat i < 2 ^ 32 -> page_content (page_slot d' i) = page_content (page_slot d i).
Proof.
  intros (Hs & Ho & HF). destruct d as [s [|kv ov]].
  - eexists. split_and!; try done.
  - destruct (fold_overlay_spec s (kv :: ov) Hs Ho HF) as (s' & E & Hs' & Hz & Hc).
    exists (mkDataCap s' []). unfold flush. cbn [dc_overlay dc_backing].
    rewrite E. split_and!; [done| |done|done|done].
    split_and!; [done|apply om_ok_nil|constructor].
Qed.

Lemma page_slot_full d i : data_ok d -> length (page_content (page_slot d i)) = page_len.
Proof.
  intros (Hs & Ho & HF). unfold page_slot.
  assert (length (page_content (slab_page (dc_backing d) i)) = page_len) as Hb.
  { pose proof (slab_page_ok _ i Hs) as Hp. destruct (slab_page (dc_backing d) i); cbn in *;
      [apply length_replicate|apply Hp|done]. }
  destruct (om_get _ _) as [sl|] eqn:E; [|done]. apply om_get_In in E.
  eapply Forall_forall in HF; [|exact E]. destruct HF as (_ & _ & HF), sl; [done|apply HF|done].
Qed.

Lemma page_slot_present d i h : data_ok d -> page_slot d i <> PsMissing h.
Proof.
  intros (Hs & Ho & HF) Hp. unfold page_slot in Hp. pose proof (slab_page_ok _ i Hs) as Hb.
  destruct (om_get _ _) as [sl|] eqn:E; [|by rewrite Hp in Hb].
  apply om_get_In in E. eapply Forall_forall in HF; [|exact E].
  destruct HF as (_ & _ & HF), sl; [by rewrite Hp in Hb|done|done].
Qed.

Lemma lookup_zrange n i : (i < Z.to_nat n)%nat -> zrange n !! i = Some (Z.of_nat i).
Proof. intros H. unfold zrange. by rewrite list_lookup_fmap, lookup_seq_lt. Qed.

Lemma copy_chunk_exact d off n :
  data_ok d -> 0 <= off -> 0 <= n -> off mod CAP_PAGE_SIZE + n <= CAP_PAGE_SIZE ->
  copy_chunk d off n = Ret (map (fun k => byte_at d (off + k)) (zrange n)).
Proof.
  intros Hd H0 Hn Hle. pose proof (page_slot_full d (Z.to_nat (off / CAP_PAGE_SIZE)) Hd) as Hl.
  pose proof (page_slot_present d (Z.to_nat (off / CAP_PAGE_SIZE))) as Hm. pose proof page_len_eq as HP.
  set (po := off mod CAP_PAGE_SIZE) in *.
  set (s := page_slot d (Z.to_nat (off / CAP_PAGE_SIZE))) in *.
  assert (0 <= po < CAP_PAGE_SIZE) as Hpo by (unfold po, CAP_PAGE_SIZE; dlia).
  transitivity (Ret (take (Z.to_nat n) (drop (Z.to_nat po) (page_content s)))).
  - unfold copy_chunk, page_at. fold s po. destruct s as [|pr|h]; [| |by destruct (Hm h)].
    + cbn. by rewrite drop_replicate, take_replicate, Nat.min_l by lia.
    + cbn in Hl |- *. unfold zlen. rewrite Hl, HP. rewrite Z.max_r, Z.min_r by lia.
      unfold slice, zlen. rewrite Hl, HP.
      destruct (Z.leb_spec 0 po); [|lia]. destruct (Z.leb_spec po (po + n)); [|lia].
      destruct (Z.leb_spec (po + n) CAP_PAGE_SIZE); [|lia]. cbn.
      rewrite Z.sub_diag. cbn. rewrite app_nil_r. do 2 f_equal. lia.
  - f_equal. apply list_eq. intros i. rewrite list_lookup_fmap.
    destruct (decide (i < Z.to_nat n)%nat).
    + rewrite lookup_take_lt, lookup_drop, lookup_zrange by lia. cbn. unfold byte_at.
      replace ((off + Z.of_nat i) / CAP_PAGE_SIZE) with (off / CAP_PAGE_SIZE) by (unfold po, CAP_PAGE_SIZE in *; dlia).
      replace ((off + Z.of_nat i) mod CAP_PAGE_SIZE) with (po + Z.of_nat i) by (unfold po, CAP_PAGE_SIZE in *; dlia).
      fold s. rewrite Z2Nat.inj_add, Nat2Z.id by lia.
      destruct (lookup_lt_is_Some_2 (page_content s) (Z.to_nat po + i)) as [b ->]; [lia|done].
    + rewrite lookup_take_ge, (lookup_ge_None_2 (zrange n)); [done| |lia].
      unfold zrange. rewrite length_map, length_seq. lia.
Qed.

Lemma zrange_app a b : 0 <= a -> 0 <= b -> zrange (a + b) = zrange a ++ map (Z.add a) (zrange b).
Proof.
  intros Ha Hb. unfold zrange. rewrite Z2Nat.inj_add, seq_app, map_app, map_map by lia. f_equal.
  rewrite <- (Nat.add_0_r (0 + Z.to_nat a)), <- fmap_add_seq, map_map. apply map_ext. intros; lia.
Qed.

(** [copy_into] terminates and gives the effective bytes. *)
Lemma copy_loop_exact fuel d off len :
  data_ok d -> 0 <= off -> len <= Z.of_nat fuel -> 0 <= len ->
  copy_loop fuel d off len = Ret (map (fun k => byte_at d (off + k)) (zrange len)).
Proof.
  intros Hd. revert off len. induction fuel as [|fuel IH]; intros off len H0 Hf Hl; cbn [copy_loop].
  - destruct (Z.leb_spec len 0); [|lia]. by replace len with 0 by lia.
  - destruct (Z.leb_spec len 0); [by replace len with 0 by lia|].
    assert (0 <= off mod CAP_PAGE_SIZE < CAP_PAGE_SIZE) as Hm by (unfold CAP_PAGE_SIZE; dlia).
    set (t := Z.min (CAP_PAGE_SIZE - off mod CAP_PAGE_SIZE) len). assert (1 <= t <= len) by lia.
    rewrite copy_chunk_exact by (done || lia). cbn [res_bind]. rewrite IH by lia. cbn [res_bind].
    replace len with (t + (len - t)) at 2 by lia. rewrite zrange_app, map_app, map_map by lia.
    do 2 f_equal. apply map_ext. intros k. f_equal. lia.
Qed.

(** The overlay after a copy-on-write of the page at [off]. *)
Definition overlaid (d : DataCap) (off : Z) (c : list Z) : DataCap :=
  mkDataCap (dc_backing d)
    (fst (om_insert (off / CAP_PAGE_SIZE) (PsLoaded (from_content c)) (dc_overlay d))).

Lemma write_page_eq d off c :
  0 <= off < content_len d -> content_len d <= 2 ^ 44 -> write_page d off c = Ret (overlaid d off c).
Proof.
  intros Hoff Hsz. unfold write_page, overlaid. rewrite debug_assert_true by lia. cbn [res_bind].
  by rewrite wrap_small by (unfold is_u, CAP_PAGE_SIZE; dlia).
Qed.

Lemma overlay_get d off c i :
  om_ok (dc_overlay d) -> 0 <= off -> Z.of_nat i < 2 ^ 32 ->
  om_get (wrap 32 (Z.of_nat i)) (dc_overlay (overlaid d off c)) =
  if decide (i = Z.to_nat (off / CAP_PAGE_SIZE)) then Some (PsLoaded (from_content c))
  else om_get (wrap 32 (Z.of_nat i)) (dc_overlay d).
Proof.
  intros Ho Hoff Hi. cbn [overlaid dc_overlay]. rewrite om_get_insert by done.
  rewrite wrap_small by (unfold is_u; lia).
  destruct (decide (i = Z.to_nat (off / CAP_PAGE_SIZE))) as [->|Hne].
  - rewrite Z2Nat.id by (unfold CAP_PAGE_SIZE; dlia). by rewrite decide_True.
  - rewrite decide_False; [done|]. intros E. apply Hne. rewrite <- E. lia.
Qed.
End Effective.

(** ** The byte-array contract *)

Section Contract.
  Context {D : Digest}.

(** What is done to a cap: pages of the backing while it is built, pages of
    the overlay while it runs, and the fold of the overlay at settle. *)
Inductive DataOp : Type :=
| OpPut (off : Z) (content : list Z)
| OpWrite (off : Z) (content : list Z)
| OpFlush.

Definition data_step (op : DataOp) (d : DataCap) : Res DataCap :=
  match op with
  | OpPut off c => put_page d off c
  | OpWrite off c => write_page d off c
  | OpFlush => flush d
  end.

Fixpoint data_run (ops : list DataOp) (d : DataCap) : Res DataCap :=
  match ops with [] => Ret d | op :: r => let! d' := data_step op d in data_run r d' end.

(** The abstract cap: a byte array, and which of its pages are dirty. *)
Record Arr : Type := mkArr { ar_byte : Z -> Z; ar_dirty : Z -> bool }.

(** The array with the page of [off] replaced. *)
Definition replace_page (off : Z) (c : list Z) (f : Z -> Z) (o : Z) : Z :=
  if o / CAP_PAGE_SIZE =? off / CAP_PAGE_SIZE
  then default 0 (pad_page c !! Z.to_nat (o mod CAP_PAGE_SIZE)) else f o.

(** A copy-on-write replaces a page and makes it dirty; a backing write
    replaces a clean page and is hidden behind a dirty one; a flush makes
    every page clean and changes no byte. *)
Definition array_step (op : DataOp) (a : Arr) : Arr :=
  match op with
  | OpPut off c =>
      if ar_dirty a (off / CAP_PAGE_SIZE) then a
      else mkArr (replace_page off c (ar_byte a)) (ar_dirty a)
  | OpWrite off c =>
      mkArr (replace_page off c (ar_byte a)) (fun p => (p =? off / CAP_PAGE_SIZE) || ar_dirty a p)
  | OpFlush => mkArr (ar_byte a) (fun _ => false)
  end.

Definition array_run (ops : list DataOp) (a : Arr) : Arr :=
  fold_left (fun a op => array_step op a) ops a.

(** The array a cap stands for. *)
Definition view (d : DataCap) : Arr := mkArr (byte_at d) (fun p => is_dirty d (Z.to_nat p)).

Definition op_ok (size : Z) (op : DataOp) : Prop :=
  match op with
  | OpPut off c => 0 <= off < size /\ Forall (is_u 8) c /\ (length c <= page_len)%nat
  | OpWrite off c => 0 <= off < size /\ Forall (is_u 8) c
  | OpFlush => True
  end.

(** Agreement on the offsets a 44-bit cap has. *)
Definition same_view (a b : Arr) : Prop :=
  (forall o, 0 <= o < 2 ^ 44 -> ar_byte a o = ar_byte b o) /\
  (forall p, 0 <= p < 2 ^ 32 -> ar_dirty a p = ar_dirty b p).

Lemma offset_page d off :
  data_ok d -> 0 <= off < content_len d -> content_len d <= 2 ^ 44 ->
  0 <= off / CAP_PAGE_SIZE < 2 ^ 32 /\ (Z.to_nat (off / CAP_PAGE_SIZE) < page_count d)%nat.
Proof.
  intros ((Hm & _) & _) Hoff Hsz. split; [unfold CAP_PAGE_SIZE; dlia|].
  unfold page_count, slab_page_count. apply Z2Nat.inj_lt; unfold CAP_PAGE_SIZE, content_len in *; dlia.
Qed.

Lemma overlaid_ok d off c :
  data_ok d -> 0 <= off < content_len d -> Forall (is_u 8) c -> content_len d <= 2 ^ 44 ->
  data_ok (overlaid d off c).
Proof.
  intros Hd Hoff Hb Hsz. destruct (offset_page d off Hd Hoff Hsz) as [Hp Hn].
  destruct Hd as (Hs & Ho & HF). split_and!; [done|by apply om_insert_ok|].
  apply Forall_forall. intros kv Hkv. apply om_In_insert in Hkv as [->|Hkv].
  - split; [exact Hp|]. split; [exact Hn|]. split; [apply length_pad_page|by apply pad_page_bytes].
  - by eapply Forall_forall in HF.
Qed.

(** The backing after a write of the page at [off]. *)
Definition backed (d : DataCap) (off : Z) (c : list Z) : DataCap :=
  mkDataCap (put_page_idx (dc_backing d) (Z.to_nat (off / CAP_PAGE_SIZE)) c) (dc_overlay d).

Lemma put_page_eq d off c : off < content_len d -> put_page d off c = Ret (backed d off c).
Proof. intros H. unfold put_page. by rewrite debug_assert_true by lia. Qed.

Lemma backed_ok d off c :
  data_ok d -> 0 <= off < content_len d -> Forall (is_u 8) c -> (length c <= page_len)%nat ->
  data_ok (backed d off c).
Proof.
  intros (Hs & Ho & HF) Hoff Hb Hl. split_and!; [|done|done].
  apply put_page_idx_ok; [done| |done|done]. destruct Hs as (Hm & _).
  unfold slab_page_count. apply Z2Nat.inj_lt; unfold CAP_PAGE_SIZE, content_len in *; dlia.
Qed.

Lemma replace_page_byte off c f (s : nat -> PageSlot) o :
  0 <= o -> 0 <= off ->
  default 0 (page_content (s (Z.to_nat (o / CAP_PAGE_SIZE))) !! Z.to_nat (o mod CAP_PAGE_SIZE)) = f o ->
  forall sl, page_content sl = pad_page c ->
  default 0 (page_content (if decide (Z.to_nat (o / CAP_PAGE_SIZE) = Z.to_nat (off / CAP_PAGE_SIZE))
                           then sl else s (Z.to_nat (o / CAP_PAGE_SIZE))) !! Z.to_nat (o mod CAP_PAGE_SIZE)) =
  replace_page off c f o.
Proof.
  intros Ho Hoff Hf sl Hsl. unfold replace_page.
  destruct (Z.eqb_spec (o / CAP_PAGE_SIZE) (off / CAP_PAGE_SIZE)) as [E|E].
  - rewrite decide_True by (by rewrite E). by rewrite Hsl.
  - rewrite decide_False; [done|]. intros E'. apply E. unfold CAP_PAGE_SIZE in *. dlia.
Qed.

Lemma view_write d off c :
  data_ok d -> 0 <= off < content_len d -> content_len d <= 2 ^ 44 ->
  same_view (view (overlaid d off c)) (array_step (OpWrite off c) (view d)).
Proof.
  intros (Hs & Ho & HF) Hoff Hsz. split.
  - intros o Hr. cbn [view ar_byte array_step]. unfold byte_at at 1.
    rewrite <- (replace_page_byte off c (byte_at d) (page_slot d) o) with (sl := PsLoaded (from_content c));
      [|lia|lia|done|done].
    do 3 f_equal. unfold page_slot at 1. rewrite overlay_get by (done || (unfold CAP_PAGE_SIZE; dlia)).
    by case_decide.
  - intros p Hp. cbn. unfold is_dirty. rewrite overlay_get by (done || lia).
    destruct (Z.eqb_spec p (off / CAP_PAGE_SIZE)) as [->|Hne]; [by rewrite decide_True|].
    rewrite decide_False; [done|]. unfold CAP_PAGE_SIZE in *. dlia.
Qed.

Lemma page_slot_dirty d e i :
  dc_overlay d = dc_overlay e -> is_dirty e i = true -> page_slot d i = page_slot e i.
Proof. unfold page_slot, is_dirty. intros ->. by destruct (om_get _ _) as [[]|]. Qed.

Lemma page_slot_clean d i : is_dirty d i = false -> page_slot d i = slab_page (dc_backing d) i.
Proof. unfold page_slot, is_dirty. by destruct (om_get _ _) as [[]|]. Qed.

Lemma view_put d off c :
  data_ok d -> 0 <= off < content_len d -> content_len d <= 2 ^ 44 -> (length c <= page_len)%nat ->
  same_view (view (backed d off c)) (array_step (OpPut off c) (view d)).
Proof.
  intros Hd Hoff Hsz Hl. set (p := Z.to_nat (off / CAP_PAGE_SIZE)). cbn [array_step view ar_dirty]. fold p.
  assert (forall i, page_slot (backed d off c) i =
            if is_dirty d i then page_slot d i
            else if decide (i = p) then slot_of_content c else page_slot d i) as Hi.
  { intros i. destruct (is_dirty d i) eqn:E; [by apply page_slot_dirty|].
    rewrite page_slot_clean, (page_slot_clean d) by exact E. apply slab_page_put. }
  destruct (is_dirty d p) eqn:Hp; (split; [|done]); intros o Ho;
    cbn [view ar_byte]; unfold byte_at at 1; rewrite Hi.
  - destruct (is_dirty d (Z.to_nat (o / CAP_PAGE_SIZE))) eqn:E; [done|].
    rewrite decide_False by congruence. done.
  - rewrite <- (replace_page_byte off c (byte_at d) (page_slot d) o) with (sl := slot_of_content c);
      [|lia|lia|done|by apply slot_of_content_bytes].
    fold p. destruct (is_dirty d (Z.to_nat (o / CAP_PAGE_SIZE))) eqn:E; [|done].
    by rewrite decide_False by congruence.
Qed.

Lemma view_flush d d' :
  dc_overlay d' = [] ->
  (forall i, Z.of_nat i < 2 ^ 32 -> page_content (page_slot d' i) = page_content (page_slot d i)) ->
  same_view (view d') (array_step OpFlush (view d)).
Proof.
  intros Ho Hc. split.
  - intros o Hr. cbn. unfold byte_at. rewrite Hc; [done|]. unfold CAP_PAGE_SIZE. dlia.
  - intros p _. cbn. unfold is_dirty. by rewrite Ho.
Qed.

(** One operation of the cap is one operation of the array. *)
Lemma data_step_refines op d :
  data_ok d -> content_len d <= 2 ^ 44 -> op_ok (content_len d) op ->
  exists d', data_step op d = Ret d' /\ data_ok d' /\ content_len d' = content_len d /\
    same_view (view d') (array_step op (view d)).
Proof.
  intros Hd Hsz Hop. destruct op as [off c|off c|]; cbn [op_ok data_step] in *.
  - destruct Hop as (Hoff & Hb & Hl). rewrite put_page_eq by lia. eexists.
    split_and!; [done|by apply backed_ok|done|by apply view_put].
  - destruct Hop as [Hoff Hb]. rewrite write_page_eq by done. eexists.
    split_and!; [done|by apply overlaid_ok|done|by apply view_write].
  - destruct (flush_spec d Hd) as (d' & E & Hd' & Ho & Hl & Hc). exists d'.
    split_and!; [done..|by apply view_flush].
Qed.

Lemma array_step_same size op a b :
  size <= 2 ^ 44 -> op_ok size op -> same_view a b -> same_view (array_step op a) (array_step op b).
Proof.
  intros Hsz Hop [Hb Hd]. destruct op as [off c|off c|]; cbn [array_step op_ok] in *.
  - destruct Hop as [Hoff _]. rewrite Hd by (unfold CAP_PAGE_SIZE; dlia).
    destruct (ar_dirty b _); (split; [|done]); intros o Ho; cbn; [by apply Hb|].
    unfold replace_page. destruct (_ =? _); [done|by apply Hb].
  - split; [|by intros p Hp; cbn; rewrite Hd].
    intros o Ho. cbn. unfold replace_page. destruct (_ =? _); [done|by apply Hb].
  - by split.
Qed.

Lemma array_run_same size ops a b :
  size <= 2 ^ 44 -> Forall (op_ok size) ops -> same_view a b ->
  same_view (array_run ops a) (array_run ops b).
Proof.
  intros Hsz HF. revert a b. induction HF as [|op r Hop HF IH]; intros a b H; [done|].
  cbn. apply IH. by apply (array_step_same size).
Qed.

(** Operations refine the array step by step, so sequences do. *)
Lemma data_run_refines ops d :
  data_ok d -> content_len d <= 2 ^ 44 -> Forall (op_ok (content_len d)) ops ->
  exists d', data_run ops d = Ret d' /\ data_ok d' /\ content_len d' = content_len d /\
    same_view (view d') (array_run ops (view d)).
Proof.
  revert d. induction ops as [|op r IH]; intros d Hd Hsz HF; [by exists d|].
  apply Forall_cons_iff in HF as [Hop HF].
  destruct (data_step_refines op d Hd Hsz Hop) as (d1 & E1 & Hd1 & Hl1 & Hv1).
  destruct (IH d1 Hd1) as (d' & E2 & Hd' & Hl & Hv); [lia|by rewrite Hl1|].
  exists d'. cbn [data_run array_run fold_left]. rewrite E1. split_and!; [done|done|by rewrite Hl|].
  apply (array_run_same (content_len d) r) in Hv1; [|done..]. destruct Hv as [V1 V2], Hv1 as [W1 W2]. split.
  - intros o Ho. rewrite V1 by done. by apply W1.
  - intros p Hp. rewrite V2 by done. by apply W2.
Qed.

(** C8: a data cap refines a byte array with dirty marks. Any sequence of
    backing writes, copy-on-writes and flushes inside the extent of a
    well-formed cap succeeds and keeps it well formed; reading any range back
    gives the bytes the same operations leave in the array, where a backing
    write shows unless the page is dirty and a flush shows nothing; the
    dirty pages are the array's; and a write outside the extent trips its
    assertion. *)
Theorem data_refines_array d ops :
  data_ok d -> content_len d <= 2 ^ 44 -> Forall (op_ok (content_len d)) ops ->
  exists d', data_run ops d = Ret d' /\ data_ok d' /\ content_len d' = content_len d /\
    (forall start len, 0 <= start -> 0 <= len -> start + len <= content_len d ->
      copy_into d' start len =
      Ret (map (fun k => ar_byte (array_run ops (view d)) (start + k)) (zrange len))) /\
    (forall p, (p < page_count d)%nat ->
      is_dirty d' p = ar_dirty (array_run ops (view d)) (Z.of_nat p)) /\
    (forall off c, content_len d <= off -> put_page d' off c = Abort /\ write_page d' off c = Abort).
Proof.
  intros Hd Hsz HF. destruct (data_run_refines ops d Hd Hsz HF) as (d' & E & Hd' & Hl & Hb & Hdir).
  exists d'. split_and!; [done..| | |].
  - intros start len Hs Hlen Hle. unfold copy_into.
    rewrite copy_loop_exact by (done || lia). f_equal. apply map_ext_in. intros k Hk.
    apply in_map_iff in Hk as (j & <- & Hj%in_seq). apply Hb. lia.
  - intros p Hp. rewrite <- Hdir; [cbn; by rewrite Nat2Z.id|].
    unfold page_count, slab_page_count, content_len, CAP_PAGE_SIZE in *. dlia.
  - intros off c Hoff. unfold put_page, write_page. by rewrite debug_assert_false by lia.
Qed.

(** [flush] computes the canonical cap: the only clean cap with the same
    size and the same bytes. *)
Theorem flush_canonical d e :
  data_ok d -> content_len d <= 2 ^ 44 -> data_ok e -> dc_overlay e = [] ->
  content_len e = content_len d ->
  (forall o, 0 <= o < content_len d -> byte_at e o = byte_at d o) -> flush d = Ret e.
Proof.
  intros Hd Hsz He Hov Hl Hb. destruct (flush_spec d Hd) as (d' & E & Hd' & Ho' & Hl' & Hc).
  rewrite E. f_equal. destruct d' as [s' o'], e as [se oe]; cbn in *; subst. f_equal.
  apply slab_ext; [apply Hd'|apply He|unfold content_len in *; cbn in *; congruence|].
  intros i Hi.
  assert (slab_size s' = content_len d) as Hz by (unfold content_len in *; cbn in *; congruence).
  assert (Z.of_nat i < content_len d / CAP_PAGE_SIZE) as Hi'
    by (unfold slab_page_count, CAP_PAGE_SIZE in *; rewrite Hz in Hi; dlia).
  assert (Z.of_nat i < 2 ^ 32) as Hi32 by (unfold CAP_PAGE_SIZE in *; dlia).
  pose proof (Hc i Hi32) as Hci. change (page_slot (mkDataCap s' []) i) with (slab_page s' i) in Hci.
  rewrite Hci. apply list_eq_same_length with (n := page_len).
  { apply (page_slot_full (mkDataCap se []) i He). }
  { by apply page_slot_full. }
  intros k x y Hk Hx Hy. pose proof page_len_eq as HP.
  specialize (Hb (Z.of_nat i * CAP_PAGE_SIZE + Z.of_nat k)).
  unfold byte_at in Hb.
  replace ((Z.of_nat i * CAP_PAGE_SIZE + Z.of_nat k) / CAP_PAGE_SIZE) with (Z.of_nat i) in Hb
    by (unfold CAP_PAGE_SIZE in *; dlia).
  replace ((Z.of_nat i * CAP_PAGE_SIZE + Z.of_nat k) mod CAP_PAGE_SIZE) with (Z.of_nat k) in Hb
    by (unfold CAP_PAGE_SIZE in *; dlia).
  rewrite !Nat2Z.id in Hb. change (page_slot (mkDataCap se []) i) with (slab_page se i) in Hb.
  rewrite Hx, Hy in Hb. cbn in Hb. symmetry. apply Hb. unfold CAP_PAGE_SIZE in *. dlia.
Qed.
End Contract.

(** ** Reading a fresh cap *)

Section Fresh.
  Context {D : Digest}.

Lemma pad_page_lookup c i : (i < page_len)%nat -> default 0 (pad_page c !! i) = default 0 (take page_len c !! i).
Proof.
  intros Hi. unfold pad_page. destruct (decide (i < length (take page_len c))%nat) as [Hlt|Hge].
  - by rewrite lookup_app_l.
  - rewrite lookup_app_r, (lookup_ge_None_2 (take _ c)) by lia. rewrite length_take in *.
    rewrite lookup_replicate_2 by lia. done.
Qed.

Lemma fresh_byte c t o :
  Forall (is_u 8) c -> 0 <= t -> Z.max t (zlen c) < 2 ^ 63 ->
  0 <= o < content_len (data_from_bytes_sized c t) ->
  byte_at (data_from_bytes_sized c t) o = default 0 (c !! Z.to_nat o).
Proof.
  intros Hb Ht Hlt Ho. pose proof page_len_eq as HP.
  assert (0 <= o mod CAP_PAGE_SIZE < CAP_PAGE_SIZE) as Hm by (unfold CAP_PAGE_SIZE; dlia).
  unfold byte_at. change (page_slot (data_from_bytes_sized c t)) with (slab_page (slab_from_bytes_sized c t)).
  assert (content_len (data_from_bytes_sized c t) mod CAP_PAGE_SIZE = 0) as Hmod.
  { apply (size_for_multiple (Z.max t (zlen c))). lia. }
  rewrite slab_from_bytes_page.
  2: { unfold slab_page_count. change (slab_size (slab_from_bytes_sized c t)) with (content_len (data_from_bytes_sized c t)).
       unfold CAP_PAGE_SIZE in *. dlia. }
  rewrite slot_of_content_bytes by apply content_page_short. rewrite pad_page_lookup by lia.
  rewrite take_ge by apply content_page_short. unfold content_page.
  rewrite lookup_take_lt by lia. rewrite lookup_drop. do 2 f_equal.
  rewrite <- (Nat2Z.id (_ * _)), Nat2Z.inj_mul, HP, Z2Nat.id by (unfold CAP_PAGE_SIZE; dlia).
  rewrite <- Z2Nat.inj_add by (unfold CAP_PAGE_SIZE; dlia). f_equal. unfold CAP_PAGE_SIZE. dlia.
Qed.

(** A fresh cap reads as its content, zero-filled to its size. *)
Lemma fresh_reads c t :
  Forall (is_u 8) c -> 0 <= t -> Z.max t (zlen c) < 2 ^ 63 ->
  let d := data_from_bytes_sized c t in
  zlen c <= content_len d /\
  copy_into d 0 (content_len d) = Ret (c ++ replicate (Z.to_nat (content_len d) - length c) 0).
Proof.
  intros Hb Ht Hlt d. pose proof (zlen_nonneg c).
  assert (zlen c <= content_len d) as Hle.
  { destruct (size_for_multiple (Z.max t (zlen c))) as (_ & _ & H3); [lia|].
    change (zlen c <= size_for (Z.max t (zlen c))). lia. }
  split; [done|]. unfold copy_into. rewrite copy_loop_exact.
  - f_equal. apply list_eq. intros i. rewrite list_lookup_fmap. unfold zlen in Hle.
    destruct (decide (i < Z.to_nat (content_len d))%nat) as [Hi|Hi].
    + rewrite lookup_zrange by done. cbn [fmap option_fmap option_map].
      unfold d. rewrite fresh_byte by (done || (fold d; lia)). rewrite Z.add_0_l, Nat2Z.id.
      destruct (decide (i < length c)%nat) as [Hc|Hc].
      * rewrite lookup_app_l by done. by destruct (lookup_lt_is_Some_2 c i Hc) as [x ->].
      * rewrite lookup_app_r, (lookup_ge_None_2 c) by lia. fold d. by rewrite lookup_replicate_2 by lia.
    + rewrite (lookup_ge_None_2 (zrange _)), lookup_ge_None_2; [done| |].
      * rewrite length_app, length_replicate. lia.
      * unfold zrange. rewrite length_map, length_seq. lia.
  - split; [by apply slab_from_bytes_ok|split; [apply om_ok_nil|constructor]].
  - lia.
  - lia.
  - lia.
Qed.
End Fresh.

(** ** Instances *)

#[local] Existing Instance sum_digest.

Definition sample_data : DataCap := data_from_bytes_sized [1; 2; 3] 8192.

Lemma sample_data_ok : data_ok sample_data /\ content_len sample_data = 8192.
Proof.
  split; [|by vm_compute]. split; [|split; [apply om_ok_nil|constructor]].
  apply slab_from_bytes_ok; [repeat constructor; unfold is_u; lia|lia|by vm_compute].
Qed.

Definition sample_ops : list DataOp :=
  [OpWrite 4097 [7]; OpPut 4096 [9]; OpFlush; OpPut 8191 [8; 8]; OpWrite 0 []].

Lemma data_refines_array_witness :
  exists d, data_run sample_ops sample_data = Ret d /\
    copy_into d 4095 3 =
    Ret (map (fun k => ar_byte (array_run sample_ops (view sample_data)) (4095 + k)) (zrange 3)) /\
    put_page d 8192 [] = Abort.
Proof.
  destruct (data_refines_array sample_data sample_ops)
    as (d & E & _ & _ & H & _ & Ho); [apply sample_data_ok|rewrite (proj2 sample_data_ok); lia| |].
  - rewrite (proj2 sample_data_ok). pose proof page_len_eq as HP. unfold CAP_PAGE_SIZE in HP.
    repeat constructor; unfold is_u; cbn [length]; lia.
  - exists d. split; [exact E|]. split; [apply H; rewrite ?(proj2 sample_data_ok); lia|].
    apply Ho. rewrite (proj2 sample_data_ok). lia.
Defined.

(** Writing the bytes a page already has is undone by a flush. *)
Lemma flush_rewrite : (let! d := write_page sample_data 0 [1; 2; 3] in flush d) = Ret sample_data.
Proof.
  destruct sample_data_ok as [Hd Hl]. assert (content_len sample_data <= 2 ^ 44) as Hsz by (rewrite Hl; lia).
  rewrite write_page_eq by (rewrite ?Hl; lia). cbn [res_bind].
  apply flush_canonical; [|exact Hsz|exact Hd|reflexivity|reflexivity|].
  - apply overlaid_ok; [exact Hd|rewrite Hl; lia|repeat constructor; unfold is_u; lia|exact Hsz].
  - intros o Ho. change (content_len (overlaid _ _ _)) with (content_len sample_data) in Ho.
    rewrite Hl in Ho. unfold byte_at. unfold page_slot at 2.
    rewrite overlay_get by (apply om_ok_nil || lia || (unfold CAP_PAGE_SIZE; dlia)).
    case_decide as E; [|done]. rewrite E.
    by assert (page_content (page_slot sample_data (Z.to_nat (0 / CAP_PAGE_SIZE))) = pad_page [1; 2; 3]) as ->
      by (vm_compute; reflexivity).
Qed.
