(* ===== verification/CapSlot.v ===== *)
(** Byte-string keys and slot paths, [src/rust/javm-cap/src/slot.rs]: the
    packing of a key into two registers and back, and the paths that walk
    nested cnodes. *)

From Stdlib Require Import ZArith Lia List Bool.
From stdpp Require Import base list numbers tactics.
From S2P Require Import Prelude MachineInt OrdMap Merkle Ssz SszFacts.
Open Scope Z_scope.

Definition MAX_KEY_LEN : Z := 8.
Definition MAX_SOURCE_DEPTH : Z := 8.
Definition NUM_REGS : nat := 13.

(** A [SmallVec<[u8; 8]>]: any byte string. *)
Definition Key : Type := list Z.

Definition key_is_empty (k : Key) : bool := match k with [] => true | _ => false end.
Definition diag_id (k : Key) : Z := default 0 (head k).
Definition key_from_u8 (b : Z) : Key := [b].

(** The key's bytes in one register, zero-padded, and its length in another. *)
Definition key_to_regs (key : Key) : Res (Z * Z) :=
  if zlen key <=? MAX_KEY_LEN
  then Ret (from_le_bytes (key ++ replicate (8 - length key) 0), zlen key)
  else Abort.

Definition key_from_regs (packed len : Z) : Key :=
  take (Z.to_nat (Z.min len MAX_KEY_LEN)) (to_le_bytes 8 packed).

(** The codec of a key is that of [Vec<u8>]. *)
Definition enc_key : Encode Key := enc_vec (enc_uint 1).
Definition dec_key : Decode Key := dec_vec (dec_uint 1).

(** A [SmallVec<[Key; 8]>]. *)
Definition SlotPath : Type := list Key.

Definition enc_slot_path : Encode SlotPath := enc_vec enc_key.
Definition dec_slot_path : Decode SlotPath := dec_vec dec_key.

Definition path_root (key : Key) : SlotPath := [key].

Inductive CapError : Type := SlotOutOfRange (a b : Z).

Definition path_new (steps : list Key) : Result SlotPath CapError :=
  match steps with [] => Err (SlotOutOfRange 0 0) | _ => Ok steps end.

Definition is_root_slot (p : SlotPath) : bool := zlen p =? 1.
Definition target (p : SlotPath) : option Key := list.last p.
Definition prefix (p : SlotPath) : list Key := take (length p - 1) p.

Section Roots.
  Context {D : Digest}.
Definition htr_key : HashTreeRoot Key := htr_vec (enc_uint 1) (htr_uint 1).
Definition htr_slot_path : HashTreeRoot SlotPath := htr_vec enc_key htr_key.
End Roots.

(** ** Facts *)

Definition key_ok (k : Key) : Prop := Forall (is_u 8) k /\ zlen k <= MAX_VEC_LEN.
Definition path_ok (p : SlotPath) : Prop := Forall key_ok p /\ zlen p <= MAX_VEC_LEN.

Lemma enc_key_ok : codec_ok key_ok enc_key dec_key.
Proof. apply (enc_vec_ok (is_u 8)); [apply (enc_uint_ok 1)|done]. Qed.

Lemma enc_slot_path_ok : codec_ok path_ok enc_slot_path dec_slot_path.
Proof. apply (enc_vec_ok key_ok); [apply enc_key_ok|done]. Qed.

Lemma key_pack (k : Key) :
  Forall (is_u 8) k -> zlen k <= MAX_KEY_LEN ->
  is_u 64 (from_le_bytes (k ++ replicate (8 - length k) 0)) /\
  key_from_regs (from_le_bytes (k ++ replicate (8 - length k) 0)) (zlen k) = k.
Proof.
  intros Hk Hl. unfold MAX_KEY_LEN, zlen in *. set (pad := k ++ replicate (8 - length k) 0).
  assert (Forall (is_u 8) pad) as Hp.
  { apply Forall_app. split; [done|]. apply Forall_replicate. unfold is_u. lia. }
  assert (length pad = 8%nat) as Hlen by (unfold pad; rewrite length_app, length_replicate; lia).
  split.
  - pose proof (from_le_bytes_range pad Hp) as B. rewrite Hlen in B. exact B.
  - unfold key_from_regs, MAX_KEY_LEN. rewrite <- Hlen, to_from_le_bytes by done.
    unfold pad. rewrite take_app_le, firstn_all2 by lia. done.
Qed.

(** A key of at most eight bytes survives the trip through two registers,
    and a longer one is refused by a panic rather than truncated. *)
Theorem key_regs_roundtrip (k : Key) :
  Forall (is_u 8) k ->
  match key_to_regs k with
  | Ret (packed, len) => is_u 64 packed /\ is_u 64 len /\ key_from_regs packed len = k
  | Abort => MAX_KEY_LEN < zlen k
  end.
Proof.
  intros Hk. unfold key_to_regs. destruct (Z.leb_spec (zlen k) MAX_KEY_LEN) as [Hl|]; [|done].
  destruct (key_pack k Hk Hl). pose proof (zlen_nonneg k). unfold MAX_KEY_LEN in Hl.
  split_and!; [done|unfold is_u; lia|done].
Qed.

Lemma key_regs_roundtrip_witness :
  Forall (is_u 8) [7; 0; 255] /\ key_from_regs 0xff0007 3 = [7; 0; 255].
Proof.
  assert (Forall (is_u 8) [7; 0; 255]) as H by (repeat constructor; unfold is_u; lia).
  split; [exact H|]. apply (key_regs_roundtrip [7; 0; 255] H).
Defined.

(** A path splits into the cnodes to walk and the slot to address. *)
Lemma path_split (steps : list Key) p :
  path_new steps = Ok p -> exists k, target p = Some k /\ p = prefix p ++ [k].
Proof.
  destruct steps as [|k0 ks]; cbn; [done|]. intros [= <-]. unfold target, prefix.
  destruct (list.last (k0 :: ks)) as [k|] eqn:E; [|by apply last_None in E].
  exists k. split; [done|]. apply last_Some in E as [l ->].
  rewrite length_app. cbn [length]. rewrite Nat.add_sub, take_app_length. done.
Qed.

(** A list of variable-length elements accepts trailing garbage: when the
    first offset is zero the decoder reads an empty list, whatever follows,
    so a key list has many encodings. *)
Theorem key_list_accepts_garbage (g : list Z) :
  from_ssz_bytes (dec_vec dec_key) ([0; 0; 0; 0] ++ g) = Ret (Ok []) /\
  ssz_append (enc_vec enc_key) [] = Ret [].
Proof.
  split; [|reflexivity]. change [0; 0; 0; 0] with (to_le_bytes 4 0).
  cbn [dec_vec dec_list from_ssz_bytes]. unfold decode_list. cbn [dec_key dec_vec dec_list dec_is_fixed].
  unfold decode_var_collection. rewrite read_offset_head by (unfold is_u; lia). cbn [try_bind res_bind].
  pose proof (zlen_nonneg g). rewrite zlen_app, zlen_le_bytes.
  destruct (Z.ltb_spec (Z.of_nat 4 + zlen g) 0); [lia|]. reflexivity.
Qed.
