(* ===== verification/CapImage.v ===== *)
(** Images: the wire form of a program ([src/rust/javm-cap/src/image.rs])
    and its conversion to an image cap
    ([src/rust/javm-cap/src/cap/image.rs]). The codec of an image is the one
    [ssz-derive] generates for it; its data slots are sparse pages over one
    arena of bytes. *)

From Stdlib Require Import ZArith Lia List Bool.
From stdpp Require Import base list numbers tactics.
From S2P Require Import Prelude MachineInt OrdMap Program Merkle Ssz SszFacts SszContainer CapData CapSlot.
Open Scope Z_scope.

(** ** Wire types *)

Record CodeRef : Type := mkCodeRef { cr_arena_off : Z; cr_len : Z }.

Record ArenaPageRef : Type := mkArenaPageRef {
  pr_page_index : Z; pr_arena_off : Z; pr_len : Z;
}.

Record DataDesc : Type := mkDataDesc { dd_size : Z; dd_pages : list ArenaPageRef }.

Inductive PinnedCap : Type :=
| PinnedData (desc : DataDesc)
| PinnedImage (content_hash : list Z).

Record WireEndpoint : Type := mkWireEndpoint {
  we_entry_pc : Z; we_arg_registers : Z; we_arg_cnode_size : Z; we_initial_regs : OrdMap Z Z;
}.

Record MemoryMapping : Type := mkMemoryMapping { mm_start : Z; mm_size : Z; mm_source : SlotPath }.

Record Image : Type := mkImage {
  im_code : CodeRef;
  im_endpoints : OrdMap Key WireEndpoint;
  im_memory_mappings : list MemoryMapping;
  im_pinned_slots : OrdMap Key PinnedCap;
  im_initial_slots : OrdMap Key DataDesc;
  im_yield_receiver_slot : option Key;
  im_gas_slots : list Key;
  im_quota_slots : list Key;
  im_arena : list Z;
}.

(** ** Derived codecs *)

Definition f_code_ref : fields (Z * (Z * unit)) :=
  FCons (enc_uint 4) (dec_uint 4) (FCons (enc_uint 4) (dec_uint 4) FNil).
Definition enc_code_ref : Encode CodeRef :=
  enc_struct f_code_ref (fun c => (cr_arena_off c, (cr_len c, tt))).
Definition dec_code_ref : Decode CodeRef :=
  dec_struct f_code_ref (fun '(a, (b, _)) => mkCodeRef a b).

Definition f_page_ref : fields (Z * (Z * (Z * unit))) :=
  FCons (enc_uint 4) (dec_uint 4) f_code_ref.
Definition enc_page_ref : Encode ArenaPageRef :=
  enc_struct f_page_ref (fun p => (pr_page_index p, (pr_arena_off p, (pr_len p, tt)))).
Definition dec_page_ref : Decode ArenaPageRef :=
  dec_struct f_page_ref (fun '(i, (o, (n, _))) => mkArenaPageRef i o n).

Definition f_data_desc : fields (Z * (list ArenaPageRef * unit)) :=
  FCons (enc_uint 8) (dec_uint 8) (FCons (enc_vec enc_page_ref) (dec_vec dec_page_ref) FNil).
Definition enc_data_desc : Encode DataDesc :=
  enc_struct f_data_desc (fun d => (dd_size d, (dd_pages d, tt))).
Definition dec_data_desc : Decode DataDesc :=
  dec_struct f_data_desc (fun '(s, (p, _)) => mkDataDesc s p).

Definition pinned_variants : list (Variant PinnedCap) :=
  [ named_variant 0 (FCons enc_data_desc dec_data_desc FNil)
      (fun p => match p with PinnedData d => Some (d, tt) | _ => None end)
      (fun '(d, _) => PinnedData d);
    named_variant 1 (FCons (enc_array 32) (dec_array 32) FNil)
      (fun p => match p with PinnedImage h => Some (h, tt) | _ => None end)
      (fun '(h, _) => PinnedImage h) ].
Definition enc_pinned_cap : Encode PinnedCap := enc_enum pinned_variants.
Definition dec_pinned_cap : Decode PinnedCap := dec_enum pinned_variants.

Definition f_endpoint : fields (Z * (Z * (Z * (OrdMap Z Z * unit)))) :=
  FCons (enc_uint 8) (dec_uint 8)
    (FCons (enc_uint 1) (dec_uint 1)
       (FCons (enc_uint 1) (dec_uint 1)
          (FCons (enc_btreemap (enc_uint 1) (enc_uint 8)) (dec_btreemap (dec_uint 1) (dec_uint 8)) FNil))).
Definition enc_endpoint : Encode WireEndpoint :=
  enc_struct f_endpoint
    (fun e => (we_entry_pc e, (we_arg_registers e, (we_arg_cnode_size e, (we_initial_regs e, tt))))).
Definition dec_endpoint : Decode WireEndpoint :=
  dec_struct f_endpoint (fun '(p, (a, (c, (r, _)))) => mkWireEndpoint p a c r).

Definition f_mapping : fields (Z * (Z * (SlotPath * unit))) :=
  FCons (enc_uint 8) (dec_uint 8)
    (FCons (enc_uint 8) (dec_uint 8) (FCons enc_slot_path dec_slot_path FNil)).
Definition enc_mapping : Encode MemoryMapping :=
  enc_struct f_mapping (fun m => (mm_start m, (mm_size m, (mm_source m, tt)))).
Definition dec_mapping : Decode MemoryMapping :=
  dec_struct f_mapping (fun '(s, (z, (p, _))) => mkMemoryMapping s z p).

Definition f_image :=
  FCons enc_code_ref dec_code_ref
  (FCons (enc_btreemap enc_key enc_endpoint) (dec_btreemap dec_key dec_endpoint)
  (FCons (enc_vec enc_mapping) (dec_vec dec_mapping)
  (FCons (enc_btreemap enc_key enc_pinned_cap) (dec_btreemap dec_key dec_pinned_cap)
  (FCons (enc_btreemap enc_key enc_data_desc) (dec_btreemap dec_key dec_data_desc)
  (FCons (enc_option enc_key) (dec_option dec_key)
  (FCons (enc_vec enc_key) (dec_vec dec_key)
  (FCons (enc_vec enc_key) (dec_vec dec_key)
  (FCons (enc_vec (enc_uint 1)) (dec_vec (dec_uint 1)) FNil)))))))).

Definition enc_image : Encode Image :=
  enc_struct f_image
    (fun i => (im_code i, (im_endpoints i, (im_memory_mappings i, (im_pinned_slots i,
              (im_initial_slots i, (im_yield_receiver_slot i, (im_gas_slots i,
              (im_quota_slots i, (im_arena i, tt)))))))))).
Definition dec_image : Decode Image :=
  dec_struct f_image
    (fun '(c, (e, (m, (p, (i, (y, (g, (q, (a, _))))))))) => mkImage c e m p i y g q a).

(** ** Content hashes *)

Section Hash.
  Context {D : Digest}.

Definition htr_code_ref : HashTreeRoot CodeRef := fun c =>
  container_root [htr_uint 4 (cr_arena_off c); htr_uint 4 (cr_len c)].
Definition htr_page_ref : HashTreeRoot ArenaPageRef := fun p =>
  container_root [htr_uint 4 (pr_page_index p); htr_uint 4 (pr_arena_off p); htr_uint 4 (pr_len p)].
Definition htr_data_desc : HashTreeRoot DataDesc := fun d =>
  container_root [htr_uint 8 (dd_size d); htr_vec enc_page_ref htr_page_ref (dd_pages d)].
Definition htr_pinned_cap : HashTreeRoot PinnedCap := fun p =>
  match p with
  | PinnedData d => let! r := container_root [htr_data_desc d] in Ret (mix_in_selector r 0)
  | PinnedImage h => let! r := container_root [htr_array 32 h] in Ret (mix_in_selector r 1)
  end.
Definition htr_endpoint : HashTreeRoot WireEndpoint := fun e =>
  container_root [htr_uint 8 (we_entry_pc e); htr_uint 1 (we_arg_registers e);
                  htr_uint 1 (we_arg_cnode_size e);
                  htr_btreemap (htr_uint 1) (htr_uint 8) (we_initial_regs e)].
Definition htr_mapping : HashTreeRoot MemoryMapping := fun m =>
  container_root [htr_uint 8 (mm_start m); htr_uint 8 (mm_size m); htr_slot_path (mm_source m)].
Definition htr_image : HashTreeRoot Image := fun i =>
  container_root [htr_code_ref (im_code i); htr_btreemap htr_key htr_endpoint (im_endpoints i);
                  htr_vec enc_mapping htr_mapping (im_memory_mappings i);
                  htr_btreemap htr_key htr_pinned_cap (im_pinned_slots i);
                  htr_btreemap htr_key htr_data_desc (im_initial_slots i);
                  htr_option htr_key (im_yield_receiver_slot i);
                  htr_vec enc_key htr_key (im_gas_slots i);
                  htr_vec enc_key htr_key (im_quota_slots i);
                  htr_vec (enc_uint 1) (htr_uint 1) (im_arena i)].

Definition image_content_hash (i : Image) : Res Chunk := htr_image i.

(** [chain_genesis] and [chain_extend], over the chain's own hash. *)
Definition chain_genesis (i : Image) : Res Chunk := image_content_hash i.
Definition chain_extend (hash_pair_ : list Z -> list Z -> Chunk) (prev_chain : Chunk) (new_image : Image) :
  Res Chunk :=
  let! h := image_content_hash new_image in Ret (hash_pair_ prev_chain h).
End Hash.

(** ** Operations on images *)

Definition image_empty : Image := mkImage (mkCodeRef 0 0) [] [] [] [] None [] [] [].

(** [slice::get(a..b)]. *)
Definition get_range (bytes : list Z) (a b : Z) : option (list Z) :=
  match slice bytes a b with Ret s => Some s | Abort => None end.

Definition code_bytes (i : Image) : list Z :=
  let off := cr_arena_off (im_code i) in
  match checked_add 64 off (cr_len (im_code i)) with
  | Some e => default [] (get_range (im_arena i) off e)
  | None => []
  end.

(** The data extent: the end of the highest mapping, as a [u32]. *)
Definition mem_top (ms : list MemoryMapping) : Z :=
  fold_left (fun top m => Z.max top (wrap 32 (wrapping_add 64 (mm_start m) (mm_size m)))) ms 0.
Definition mem_extent (i : Image) : Z :=
  next_multiple_of (Z.max 0 (mem_top (im_memory_mappings i) - DATA_BASE)) CAP_PAGE_SIZE.

Inductive DataDescError : Type :=
| SizeNotPageMultiple (size : Z)
| BadLen (len : Z)
| OutOfRange (off : Z)
| PageIndexOutOfRange (page_index page_count : Z)
| NotCanonical (page_index : Z).

Definition dd_page_count (d : DataDesc) : Z := dd_size d / CAP_PAGE_SIZE.

Fixpoint validate_pages (arena_len pc : Z) (prev : option Z) (prs : list ArenaPageRef) :
  Result unit DataDescError :=
  match prs with
  | [] => Ok tt
  | pr :: r =>
      if (pr_len pr =? 0) || (CAP_PAGE_SIZE <? pr_len pr) then Err (BadLen (pr_len pr)) else
      match checked_add 64 (pr_arena_off pr) (pr_len pr) with
      | None => Err (OutOfRange (pr_arena_off pr))
      | Some e =>
          if arena_len <? e then Err (OutOfRange (pr_arena_off pr)) else
          if pc <=? pr_page_index pr then Err (PageIndexOutOfRange (pr_page_index pr) pc) else
          if match prev with Some p => pr_page_index pr <=? p | None => false end
          then Err (NotCanonical (pr_page_index pr))
          else validate_pages arena_len pc (Some (pr_page_index pr)) r
      end
  end.

Definition validate (d : DataDesc) (arena_len : Z) : Result unit DataDescError :=
  if negb (dd_size d mod CAP_PAGE_SIZE =? 0) then Err (SizeNotPageMultiple (dd_size d))
  else validate_pages arena_len (dd_page_count d) None (dd_pages d).

Section Build.
  Context {D : Digest}.

(** The window of a page reference; slicing outside the arena panics. *)
Definition page_window (arena : list Z) (pr : ArenaPageRef) : Res (Z * list Z) :=
  let! s := slice arena (pr_arena_off pr) (pr_arena_off pr + pr_len pr) in Ret (pr_page_index pr, s).

Definition to_data_cap (d : DataDesc) (arena : list Z) : Res DataCap :=
  let! pages := res_mapM (page_window arena) (dd_pages d) in
  data_from_sparse_pages (dd_size d) pages.

(** The descriptor a mapping draws from, looked up by its target key. *)
Definition mapping_desc (i : Image) (m : MemoryMapping) : option DataDesc :=
  match target (mm_source m) with
  | None => None
  | Some t =>
      match om_get t (im_pinned_slots i) with
      | Some (PinnedData desc) => Some desc
      | _ => om_get t (im_initial_slots i)
      end
  end.

Definition fold_mapping (i : Image) (backing : DataCap) (m : MemoryMapping) : Res DataCap :=
  match mapping_desc i m with
  | None => Ret backing
  | Some desc =>
      let base_off := Z.max 0 (mm_start m - DATA_BASE) in
      fold_left (fun acc pr =>
          let! b := acc in
          let! (_, s) := page_window (im_arena i) pr in
          put_page b (wrapping_add 64 base_off (pr_page_index pr * CAP_PAGE_SIZE)) s)
        (dd_pages desc) (Ret backing)
  end.

Definition instance_mem_backing (i : Image) : Res DataCap :=
  let size := Z.max (mem_extent i) CAP_PAGE_SIZE in
  fold_left (fun acc m => let! b := acc in fold_mapping i b m) (im_memory_mappings i)
    (Ret (data_from_bytes_sized [] size)).

(** ** Packing *)

(** [iter().rposition(|b| b != 0).map_or(1, |i| i + 1)] *)
Fixpoint nonzero_prefix (bs : list Z) : nat :=
  match bs with
  | [] => 0
  | b :: r => match nonzero_prefix r with O => if b =? 0 then O else 1%nat | n => S n end
  end.
Definition stored_len (bs : list Z) : nat := Nat.max 1 (nonzero_prefix bs).

(** The arena, and the windows already stored by page hash. *)
Record Packer : Type := mkPacker { pk_arena : list Z; pk_dedup : OrdMap (list Z) (Z * Z) }.

Definition pack_page (pk : Packer) (p : nat) (pb : PageBytes) : Packer * ArenaPageRef :=
  match om_get (pb_hash pb) (pk_dedup pk) with
  | Some (off, len) => (pk, mkArenaPageRef (wrap 32 (Z.of_nat p)) off len)
  | None =>
      let len := stored_len (pb_bytes pb) in
      let off := wrap 32 (zlen (pk_arena pk)) in
      let len32 := wrap 32 (Z.of_nat len) in
      (mkPacker (pk_arena pk ++ take len (pb_bytes pb))
                (fst (om_insert (pb_hash pb) (off, len32) (pk_dedup pk))),
       mkArenaPageRef (wrap 32 (Z.of_nat p)) off len32)
  end.

Fixpoint pack_pages (pk : Packer) (ps : list (nat * PageSlot)) : Packer * list ArenaPageRef :=
  match ps with
  | [] => (pk, [])
  | (p, PsLoaded pb) :: r =>
      let '(pk1, pr) := pack_page pk p pb in
      let '(pk2, prs) := pack_pages pk1 r in (pk2, pr :: prs)
  | _ :: r => pack_pages pk r
  end.

Definition pack_data (pk : Packer) (content : list Z) (target_size : Z) : Packer * DataDesc :=
  let s := slab_from_bytes_sized content target_size in
  let '(pk', pages) := pack_pages pk (map (fun p => (p, slab_page s p)) (seq 0 (slab_page_count s))) in
  (pk', mkDataDesc (slab_size s) pages).

Inductive PinnedSpec : Type :=
| SpecData (content : list Z) (size : Z)
| SpecImage (content_hash : list Z).

Record ImageBuilder : Type := mkImageBuilder {
  ib_code : list Z;
  ib_endpoints : OrdMap Key WireEndpoint;
  ib_memory_mappings : list MemoryMapping;
  ib_pinned : OrdMap Key PinnedSpec;
  ib_initial : OrdMap Key (list Z * Z);
  ib_yield_receiver_slot : option Key;
  ib_gas_slots : list Key;
  ib_quota_slots : list Key;
}.

Definition builder_new : ImageBuilder := mkImageBuilder [] [] [] [] [] None [] [].
Definition builder_code (b : ImageBuilder) (code : list Z) : ImageBuilder :=
  mkImageBuilder code (ib_endpoints b) (ib_memory_mappings b) (ib_pinned b) (ib_initial b)
    (ib_yield_receiver_slot b) (ib_gas_slots b) (ib_quota_slots b).
Definition builder_endpoint (b : ImageBuilder) (k : Key) (ep : WireEndpoint) : ImageBuilder :=
  mkImageBuilder (ib_code b) (fst (om_insert k ep (ib_endpoints b))) (ib_memory_mappings b)
    (ib_pinned b) (ib_initial b) (ib_yield_receiver_slot b) (ib_gas_slots b) (ib_quota_slots b).
Definition builder_mapping (b : ImageBuilder) (m : MemoryMapping) : ImageBuilder :=
  mkImageBuilder (ib_code b) (ib_endpoints b) (ib_memory_mappings b ++ [m]) (ib_pinned b)
    (ib_initial b) (ib_yield_receiver_slot b) (ib_gas_slots b) (ib_quota_slots b).
Definition builder_pin (b : ImageBuilder) (k : Key) (s : PinnedSpec) : ImageBuilder :=
  mkImageBuilder (ib_code b) (ib_endpoints b) (ib_memory_mappings b) (fst (om_insert k s (ib_pinned b)))
    (ib_initial b) (ib_yield_receiver_slot b) (ib_gas_slots b) (ib_quota_slots b).
Definition pinned_data (b : ImageBuilder) (k : Key) (content : list Z) (size : Z) : ImageBuilder :=
  builder_pin b k (SpecData content size).
Definition pinned_image (b : ImageBuilder) (k : Key) (content_hash : list Z) : ImageBuilder :=
  builder_pin b k (SpecImage content_hash).
Definition initial_data (b : ImageBuilder) (k : Key) (content : list Z) (size : Z) : ImageBuilder :=
  mkImageBuilder (ib_code b) (ib_endpoints b) (ib_memory_mappings b) (ib_pinned b)
    (fst (om_insert k (content, size) (ib_initial b)))
    (ib_yield_receiver_slot b) (ib_gas_slots b) (ib_quota_slots b).

(** The loops of [build] over the pinned and the initial slots. *)
Fixpoint pack_pinned (pk : Packer) (specs : list (Key * PinnedSpec)) : Packer * list (Key * PinnedCap) :=
  match specs with
  | [] => (pk, [])
  | (k, SpecData content size) :: r =>
      let '(pk1, desc) := pack_data pk content size in
      let '(pk2, out) := pack_pinned pk1 r in (pk2, (k, PinnedData desc) :: out)
  | (k, SpecImage h) :: r =>
      let '(pk2, out) := pack_pinned pk r in (pk2, (k, PinnedImage h) :: out)
  end.

Fixpoint pack_initial (pk : Packer) (specs : list (Key * (list Z * Z))) : Packer * list (Key * DataDesc) :=
  match specs with
  | [] => (pk, [])
  | (k, (content, size)) :: r =>
      let '(pk1, desc) := pack_data pk content size in
      let '(pk2, out) := pack_initial pk1 r in (pk2, (k, desc) :: out)
  end.

Definition build (b : ImageBuilder) : Image :=
  let '(pk1, pinned) := pack_pinned (mkPacker [] []) (ib_pinned b) in
  let '(pk2, initial) := pack_initial pk1 (ib_initial b) in
  let arena := pk_arena pk2 in
  let '(code, arena') :=
    match ib_code b with
    | [] => (mkCodeRef 0 0, arena)
    | c => (mkCodeRef (wrap 32 (zlen arena)) (wrap 32 (zlen c)), arena ++ c)
    end in
  mkImage code (ib_endpoints b) (ib_memory_mappings b) (om_of_list pinned) (om_of_list initial)
    (ib_yield_receiver_slot b) (ib_gas_slots b) (ib_quota_slots b) arena'.

Definition with_code (code : list Z) : Image := build (builder_code builder_new code).
End Build.

(** ** Deblobbing: [image_cap] *)

Record EndpointDef : Type := mkEndpointDef {
  ep_entry_pc : Z; ep_stack_top : Z; ep_arg_cnode_slot : Key; ep_arg_cnode_size : Z;
  ep_initial_regs : list Z;
}.

Record ImageSlotEntry : Type := mkImageSlotEntry { se_slot : Key; se_cap_hash : CapHash }.

Record ImageCap : Type := mkImageCap {
  ic_code : list Z;
  ic_endpoints : list (Key * EndpointDef);
  ic_mappings : list MemoryMapping;
  ic_pinned : list ImageSlotEntry;
  ic_initial : list ImageSlotEntry;
  ic_yield_receiver_slot : option Key;
  ic_gas_slots : list Key;
  ic_quota_slots : list Key;
}.

Inductive ImageConvertError : Type :=
| CodeTooLarge (len max : Z)
| CodeRefOutOfRange (off len arena : Z)
| DataDescInvalid (e : DataDescError)
| SourcePathEmpty
| SourcePathTooDeep (steps : Z)
| RegisterIndexOutOfRange (r : Z).

Definition code_mapping (c : ImageCap) : option (Z * list Z) :=
  match ic_code c with [] => None | code => Some (CODE_BASE, code) end.

Definition mapping_is_pinned (c : ImageCap) (start : Z) : bool :=
  existsb (fun m => (wrap 32 (mm_start m) =? start) &&
                    match head (mm_source m) with
                    | Some root => existsb (fun p => bool_decide (se_slot p = root)) (ic_pinned c)
                    | None => false
                    end) (ic_mappings c).

Fixpoint validate_all (arena_len : Z) (ds : list DataDesc) : Result unit ImageConvertError :=
  match ds with
  | [] => Ok tt
  | d :: r => match validate d arena_len with
              | Ok _ => validate_all arena_len r
              | Err e => Err (DataDescInvalid e)
              end
  end.

Definition pinned_descs (i : Image) : list DataDesc :=
  omap (fun kv => match snd kv with PinnedData d => Some d | PinnedImage _ => None end) (im_pinned_slots i).

Fixpoint fill_regs (regs : list Z) (kvs : list (Z * Z)) : Result (list Z) ImageConvertError :=
  match kvs with
  | [] => Ok regs
  | (r, v) :: kvs' =>
      if Z.of_nat NUM_REGS <=? r then Err (RegisterIndexOutOfRange r)
      else fill_regs (<[Z.to_nat r := v]> regs) kvs'
  end.

Fixpoint convert_endpoints (eps : list (Key * WireEndpoint)) :
  Result (list (Key * EndpointDef)) ImageConvertError :=
  match eps with
  | [] => Ok []
  | (k, ep) :: r =>
      let? regs := fill_regs (replicate NUM_REGS 0) (we_initial_regs ep) in
      let? rest := convert_endpoints r in
      Ok ((k, mkEndpointDef (we_entry_pc ep) (default 0 (om_get 1 (we_initial_regs ep)))
                 (key_from_u8 0) (we_arg_cnode_size ep) regs) :: rest)
  end.

Fixpoint convert_mappings (ms : list MemoryMapping) : Result (list MemoryMapping) ImageConvertError :=
  match ms with
  | [] => Ok []
  | m :: r =>
      if zlen (mm_source m) =? 0 then Err SourcePathEmpty else
      if MAX_SOURCE_DEPTH <? zlen (mm_source m) then Err (SourcePathTooDeep (zlen (mm_source m))) else
      let? rest := convert_mappings r in Ok (m :: rest)
  end.

(** [sort_by] on the key: a stable sort. *)
Fixpoint insert_by_key (kh : Key * CapHash) (l : list (Key * CapHash)) : list (Key * CapHash) :=
  match l with
  | [] => [kh]
  | x :: r => match cmp (fst kh) (fst x) with Gt => x :: insert_by_key kh r | _ => kh :: l end
  end.
Definition sort_by_key (l : list (Key * CapHash)) : list (Key * CapHash) :=
  foldr insert_by_key [] l.

Definition build_image_slot_vec (pairs : list (Key * CapHash)) : list ImageSlotEntry :=
  map (fun '(k, h) => mkImageSlotEntry k h) (sort_by_key pairs).

Definition image_cap (i : Image) (pinned_hashes initial_hashes : list (Key * CapHash)) :
  Result ImageCap ImageConvertError :=
  let code_len := cr_len (im_code i) in
  let arena_len := zlen (im_arena i) in
  if MAX_CODE_SIZE <? code_len then Err (CodeTooLarge code_len MAX_CODE_SIZE) else
  if negb match checked_add 64 (cr_arena_off (im_code i)) code_len with
          | Some e => e <=? arena_len | None => false end
  then Err (CodeRefOutOfRange (cr_arena_off (im_code i)) code_len arena_len) else
  let? _ := validate_all arena_len (pinned_descs i) in
  let? _ := validate_all arena_len (map snd (im_initial_slots i)) in
  let? endpoints := convert_endpoints (im_endpoints i) in
  let? mappings := convert_mappings (im_memory_mappings i) in
  Ok (mkImageCap (code_bytes i) endpoints mappings (build_image_slot_vec pinned_hashes)
        (build_image_slot_vec initial_hashes) (im_yield_receiver_slot i) (im_gas_slots i)
        (im_quota_slots i)).
