(* ===== verification/CapImageFacts.v ===== *)
(** Theorems about images: the wire codec is a round trip, the packing of
    data slots loses nothing, and what [image_cap] accepts can be
    materialised without a panic. *)

From Stdlib Require Import ZArith Lia List Bool.
From stdpp Require Import base list numbers tactics.
From S2P Require Import Prelude MachineInt OrdMap Program Merkle Ssz SszFacts SszContainer CapData CapSlot CapImage.
Open Scope Z_scope.

(** ** Well-formed wire values: every field in the range of its Rust type *)

Definition code_ref_ok (c : CodeRef) : Prop := is_u 32 (cr_arena_off c) /\ is_u 32 (cr_len c).
Definition page_ref_ok (p : ArenaPageRef) : Prop :=
  is_u 32 (pr_page_index p) /\ is_u 32 (pr_arena_off p) /\ is_u 32 (pr_len p).
Definition data_desc_ok (d : DataDesc) : Prop :=
  is_u 64 (dd_size d) /\ Forall page_ref_ok (dd_pages d) /\ zlen (dd_pages d) <= MAX_VEC_LEN.
Definition pinned_cap_ok (p : PinnedCap) : Prop :=
  match p with
  | PinnedData d => data_desc_ok d
  | PinnedImage h => zlen h = 32 /\ Forall (is_u 8) h
  end.
Definition regs_ok (m : OrdMap Z Z) : Prop :=
  om_ok m /\ Forall (fun kv => is_u 8 (fst kv) /\ is_u 64 (snd kv)) m.
Definition endpoint_ok (e : WireEndpoint) : Prop :=
  is_u 64 (we_entry_pc e) /\ is_u 8 (we_arg_registers e) /\ is_u 8 (we_arg_cnode_size e) /\
  regs_ok (we_initial_regs e).
Definition mapping_ok (m : MemoryMapping) : Prop :=
  is_u 64 (mm_start m) /\ is_u 64 (mm_size m) /\ path_ok (mm_source m).
Definition slots_ok {V : Type} (P : V -> Prop) (m : OrdMap Key V) : Prop :=
  om_ok m /\ Forall (fun kv => key_ok (fst kv) /\ P (snd kv)) m.
Definition vec_ok {V : Type} (P : V -> Prop) (l : list V) : Prop := Forall P l /\ zlen l <= MAX_VEC_LEN.

Record image_ok (i : Image) : Prop := {
  io_code : code_ref_ok (im_code i);
  io_endpoints : slots_ok endpoint_ok (im_endpoints i);
  io_mappings : vec_ok mapping_ok (im_memory_mappings i);
  io_pinned : slots_ok pinned_cap_ok (im_pinned_slots i);
  io_initial : slots_ok data_desc_ok (im_initial_slots i);
  io_yield : forall k, im_yield_receiver_slot i = Some k -> key_ok k;
  io_gas : vec_ok key_ok (im_gas_slots i);
  io_quota : vec_ok key_ok (im_quota_slots i);
  io_arena : vec_ok (is_u 8) (im_arena i);
}.

Lemma codec_ok_weaken {T : Type} (P Q : T -> Prop) E Dc :
  codec_ok P E Dc -> (forall x, Q x -> P x) -> codec_ok Q E Dc.
Proof. intros [F L S R] H. split; eauto. Qed.

(** Builds the law of a derived struct from the laws of its fields. *)
Ltac struct_codec :=
  eapply codec_ok_weaken;
  [apply enc_struct_ok;
     [repeat (eapply fo_cons; [solve [eauto 6 with codec]|by vm_compute|]); apply fo_nil
     |by intros []]
  |].

Create HintDb codec.
#[export] Hint Resolve enc_uint_ok enc_array_ok enc_key_ok enc_slot_path_ok : codec.

Lemma enc_code_ref_ok : codec_ok code_ref_ok enc_code_ref dec_code_ref.
Proof. unfold enc_code_ref, dec_code_ref, f_code_ref. struct_codec. intros c []. by split_and!. Qed.

Lemma enc_page_ref_ok : codec_ok page_ref_ok enc_page_ref dec_page_ref.
Proof. unfold enc_page_ref, dec_page_ref, f_page_ref, f_code_ref. struct_codec. intros c (? & ? & ?). by split_and!. Qed.

Lemma enc_page_refs_ok : codec_ok (vec_ok page_ref_ok) (enc_vec enc_page_ref) (dec_vec dec_page_ref).
Proof. apply enc_vec_ok; [apply enc_page_ref_ok|by vm_compute]. Qed.
#[export] Hint Resolve enc_code_ref_ok enc_page_refs_ok : codec.

Lemma enc_data_desc_ok : codec_ok data_desc_ok enc_data_desc dec_data_desc.
Proof. unfold enc_data_desc, dec_data_desc, f_data_desc. struct_codec. intros c (? & ? & ?). by split_and!. Qed.
#[export] Hint Resolve enc_data_desc_ok : codec.

Lemma enc_pinned_cap_ok : codec_ok pinned_cap_ok enc_pinned_cap dec_pinned_cap.
Proof.
  apply enc_enum_ok.
  - by apply (bool_decide_unpack _).
  - repeat apply Forall_cons_2; [..|constructor].
    + eapply named_variant_ok; [done| |].
      * eapply fo_cons; [apply enc_data_desc_ok|by vm_compute|apply fo_nil].
      * intros [d|h] t; [|done]. intros [= <-]. by split.
    + eapply named_variant_ok; [done| |].
      * eapply fo_cons; [by apply enc_array_ok|by vm_compute|apply fo_nil].
      * intros [d|h] t; [done|]. intros [= <-]. by split.
  - intros [d|h] _; [exists (nth 0 pinned_variants (unit_variant 0 (fun _ => false) (PinnedImage [])))
                    |exists (nth 1 pinned_variants (unit_variant 0 (fun _ => false) (PinnedImage [])))];
      cbn; auto.
Qed.

Lemma enc_regs_ok :
  codec_ok regs_ok (enc_btreemap (enc_uint 1) (enc_uint 8)) (dec_btreemap (dec_uint 1) (dec_uint 8)).
Proof. apply enc_btreemap_ok; [apply (enc_uint_ok 1)|apply (enc_uint_ok 8)|by vm_compute..]. Qed.
#[export] Hint Resolve enc_pinned_cap_ok enc_regs_ok : codec.

Lemma enc_endpoint_ok : codec_ok endpoint_ok enc_endpoint dec_endpoint.
Proof. unfold enc_endpoint, dec_endpoint, f_endpoint. struct_codec. intros c (? & ? & ? & ?). by split_and!. Qed.

Lemma enc_mapping_ok : codec_ok mapping_ok enc_mapping dec_mapping.
Proof. unfold enc_mapping, dec_mapping, f_mapping. struct_codec. intros c (? & ? & ?). by split_and!. Qed.

Lemma enc_slots_ok {V : Type} (P : V -> Prop) E Dc :
  codec_ok P E Dc -> 0 <= ssz_fixed_len E ->
  codec_ok (slots_ok P) (enc_btreemap enc_key E) (dec_btreemap dec_key Dc).
Proof. intros C H. apply enc_btreemap_ok; [apply enc_key_ok|done|by vm_compute|done]. Qed.

Lemma enc_mappings_ok : codec_ok (vec_ok mapping_ok) (enc_vec enc_mapping) (dec_vec dec_mapping).
Proof. apply enc_vec_ok; [apply enc_mapping_ok|done]. Qed.
Lemma enc_keys_ok : codec_ok (vec_ok key_ok) (enc_vec enc_key) (dec_vec dec_key).
Proof. apply enc_vec_ok; [apply enc_key_ok|done]. Qed.
Lemma enc_arena_ok : codec_ok (vec_ok (is_u 8)) (enc_vec (enc_uint 1)) (dec_vec (dec_uint 1)).
Proof. apply enc_vec_ok; [apply (enc_uint_ok 1)|done]. Qed.

Lemma image_codec : codec_ok image_ok enc_image dec_image.
Proof.
  eapply codec_ok_weaken.
  - apply enc_struct_ok; [|by intros []]. unfold f_image.
    eapply fo_cons; [apply enc_code_ref_ok|by vm_compute|].
    eapply fo_cons; [apply enc_slots_ok; [apply enc_endpoint_ok|by vm_compute]|by vm_compute|].
    eapply fo_cons; [apply enc_mappings_ok|by vm_compute|].
    eapply fo_cons; [apply enc_slots_ok; [apply enc_pinned_cap_ok|by vm_compute]|by vm_compute|].
    eapply fo_cons; [apply enc_slots_ok; [apply enc_data_desc_ok|by vm_compute]|by vm_compute|].
    eapply fo_cons; [apply enc_option_ok, enc_key_ok|by vm_compute|].
    eapply fo_cons; [apply enc_keys_ok|by vm_compute|].
    eapply fo_cons; [apply enc_keys_ok|by vm_compute|].
    eapply fo_cons; [apply enc_arena_ok|by vm_compute|apply fo_nil].
  - intros i []. cbn [fst snd]. split_and!; try done.
    destruct (im_yield_receiver_slot i); cbn; auto.
Qed.

(** ** Packing is lossless *)

Section Pack.
  Context {D : Digest}.

(** The page digests tell apart the pages that are packed. *)
Definition page_hash_inj (known : list Z -> Prop) : Prop :=
  forall a b, known a -> known b -> page_content_hash a = page_content_hash b -> a = b.

(** [off, len] is a window of the arena that holds page [b] up to its
    trailing zeros. *)
Definition window_of (arena : list Z) (off len : Z) (b : list Z) : Prop :=
  0 <= off /\ 1 <= len <= CAP_PAGE_SIZE /\
  exists w, slice arena off (off + len) = Ret w /\ pad_page w = b /\ (length w <= page_len)%nat /\
            Forall (is_u 8) w.

Definition packer_ok (known : list Z -> Prop) (pk : Packer) : Prop :=
  om_ok (pk_dedup pk) /\
  forall h off len, In (h, (off, len)) (pk_dedup pk) ->
    exists b, known b /\ h = page_content_hash b /\ window_of (pk_arena pk) off len b.

Lemma slice_app_l (a b : list Z) i j s : slice a i j = Ret s -> slice (a ++ b) i j = Ret s.
Proof.
  unfold slice. destruct ((0 <=? i) && (i <=? j) && (j <=? zlen a)) eqn:E; [|done].
  intros [= <-]. rewrite zlen_app. pose proof (zlen_nonneg b).
  rewrite !andb_true_iff, !Z.leb_le in E. unfold zlen in E.
  replace ((0 <=? i) && (i <=? j) && (j <=? zlen a + zlen b)) with true by (unfold zlen in *; lia).
  f_equal. rewrite drop_app_le, take_app_le by (rewrite ?length_drop; lia). done.
Qed.

Lemma window_of_app arena ext off len b : window_of arena off len b -> window_of (arena ++ ext) off len b.
Proof.
  intros (H0 & H1 & w & Hw & H2). do 2 (split; [done|]). exists w. split; [by apply slice_app_l|done].
Qed.

Lemma nonzero_prefix_spec bs : bs = take (nonzero_prefix bs) bs ++ replicate (length bs - nonzero_prefix bs) 0
  /\ (nonzero_prefix bs <= length bs)%nat.
Proof.
  induction bs as [|b r [IH1 IH2]]; [done|]. cbn [nonzero_prefix].
  destruct (nonzero_prefix r) as [|n] eqn:E.
  - rewrite take_0, Nat.sub_0_r in IH1. cbn in IH1. destruct (Z.eqb_spec b 0) as [->|].
    + cbn. rewrite IH1 at 1. split; [done|lia].
    + cbn [length take Nat.sub app]. rewrite take_0, Nat.sub_0_r. cbn. rewrite IH1 at 1. split; [done|lia].
  - cbn [length take Nat.sub app]. rewrite <- IH1. split; [done|lia].
Qed.

Lemma stored_len_spec bs :
  length bs = page_len -> (1 <= stored_len bs <= page_len)%nat /\ pad_page (take (stored_len bs) bs) = bs.
Proof.
  intros Hl. pose proof page_len_eq as HP. unfold CAP_PAGE_SIZE in HP.
  destruct (nonzero_prefix_spec bs) as [E Hn]. unfold stored_len.
  set (n := Nat.max 1 (nonzero_prefix bs)). split; [lia|].
  unfold pad_page. rewrite length_take, take_take, Nat.min_r, Hl, Nat.min_l by lia.
  rewrite <- (take_drop n bs) at 2. f_equal.
  rewrite E at 1. rewrite drop_app_ge by (rewrite length_take; lia).
  rewrite length_take, Nat.min_l, drop_replicate by lia. f_equal. lia.
Qed.

(** A window names the slot of its page. *)
Lemma window_slot w b pb :
  slot_ok (PsLoaded pb) -> pb_bytes pb = b -> pad_page w = b -> (length w <= page_len)%nat ->
  slot_of_content w = PsLoaded pb.
Proof.
  intros (Hl & Hb & Hz & Hh) <- Hp Hw. destruct pb as [h bs]; cbn [pb_bytes pb_hash] in *.
  unfold slot_of_content. rewrite <- (all_zero_pad w Hw), Hp, Hz. f_equal. unfold from_content.
  rewrite Hp. f_equal. rewrite Hh. unfold page_content_hash. by rewrite <- Hp, pad_page_idem.
Qed.

Lemma pack_page_ok known pk p pb :
  page_hash_inj known -> packer_ok known pk -> slot_ok (PsLoaded pb) -> known (pb_bytes pb) ->
  is_u 32 (Z.of_nat p) ->
  let '(pk', pr) := pack_page pk p pb in
  zlen (pk_arena pk') < 2 ^ 32 ->
  packer_ok known pk' /\ pr_page_index pr = Z.of_nat p /\
  (exists ext, pk_arena pk' = pk_arena pk ++ ext) /\
  window_of (pk_arena pk') (pr_arena_off pr) (pr_len pr) (pb_bytes pb).
Proof.
  intros Hinj [Ho Hd] Hs Hk Hp. pose proof Hs as (Hl & Hb & _ & Hh). unfold pack_page.
  destruct (om_get (pb_hash pb) (pk_dedup pk)) as [[off len]|] eqn:E.
  - intros _. split_and!; [done|cbn; by rewrite wrap_small|exists []; by rewrite app_nil_r|]. cbn.
    apply om_get_In in E. destruct (Hd _ _ _ E) as (b & Hkb & Hhb & Hw).
    by rewrite (Hinj (pb_bytes pb) b) by (done || congruence).
  - destruct (stored_len_spec (pb_bytes pb) Hl) as [Hn Hpad]. pose proof page_len_eq as HP.
    set (n := stored_len (pb_bytes pb)) in *. cbn [pk_arena pk_dedup]. intros Hlt.
    assert (zlen (take n (pb_bytes pb)) = Z.of_nat n) as Hz by (unfold zlen; rewrite length_take; lia).
    rewrite zlen_app, Hz in Hlt. pose proof (zlen_nonneg (pk_arena pk)). unfold CAP_PAGE_SIZE in HP.
    rewrite !wrap_small by (unfold is_u in *; lia).
    assert (window_of (pk_arena pk ++ take n (pb_bytes pb)) (zlen (pk_arena pk)) (Z.of_nat n) (pb_bytes pb)) as Hw.
    { split_and!; [done|lia|unfold CAP_PAGE_SIZE; lia|]. exists (take n (pb_bytes pb)). split_and!.
      - apply slice_suffix; [done|]. rewrite zlen_app, Hz. lia.
      - done.
      - rewrite length_take. lia.
      - by apply Forall_take. }
    split_and!; [|done|by eexists|done]. split; [by apply om_insert_ok|].
    intros h off len [[= -> -> ->]|Hin]%om_In_insert; [by exists (pb_bytes pb)|].
    destruct (Hd _ _ _ Hin) as (b & ? & ? & ?). exists b. split_and!; [done..|]. by apply window_of_app.
Qed.
End Pack.

Section PackAll.
  Context {D : Digest}.

(** The arena only grows. *)
Definition grows (pk pk' : Packer) : Prop := exists ext, pk_arena pk' = pk_arena pk ++ ext.

Lemma grows_refl pk : grows pk pk.
Proof. exists []. by rewrite app_nil_r. Qed.

Lemma grows_trans pk1 pk2 pk3 : grows pk1 pk2 -> grows pk2 pk3 -> grows pk1 pk3.
Proof. intros [e1 E1] [e2 E2]. exists (e1 ++ e2). by rewrite E2, E1, app_assoc. Qed.

Lemma grows_len pk pk' : grows pk pk' -> zlen (pk_arena pk) <= zlen (pk_arena pk').
Proof. intros [e ->]. rewrite zlen_app. pose proof (zlen_nonneg e). lia. Qed.

Lemma pack_page_grows pk p pb : grows pk (fst (pack_page pk p pb)).
Proof.
  unfold pack_page. destruct (om_get _ _) as [[]|]; [apply grows_refl|]. by eexists.
Qed.

Lemma pack_pages_grows pk ps : grows pk (fst (pack_pages pk ps)).
Proof.
  revert pk. induction ps as [|[p [|pb|h]] r IH]; intros pk; cbn [pack_pages]; try apply IH; [apply grows_refl|].
  pose proof (pack_page_grows pk p pb) as H1. destruct (pack_page pk p pb) as [pk1 pr].
  specialize (IH pk1). destruct (pack_pages pk1 r) as [pk2 prs]. by eapply grows_trans.
Qed.

(** What the references of a packed page list are good for, in any extension
    of the arena. *)
Definition refs_name (f : nat -> PageSlot) (k n : nat) (arena : list Z) (prs : list ArenaPageRef) : Prop :=
  forall ext, exists ws,
    res_mapM (page_window (arena ++ ext)) prs = Ret ws /\ sparse_ok (k + n) ws /\
    (forall i dflt, named_page i ws dflt =
       if decide (k <= i < k + n)%nat then match f i with PsLoaded pb => PsLoaded pb | _ => dflt end
       else dflt) /\
    (forall pc prev, Z.of_nat (k + n) <= pc -> (forall p, prev = Some p -> p < Z.of_nat k) ->
       validate_pages (zlen (arena ++ ext)) pc prev prs = Ok tt).

Lemma refs_name_skip f k n arena prs :
  (forall pb, f k <> PsLoaded pb) -> refs_name f (S k) n arena prs -> refs_name f k (S n) arena prs.
Proof.
  intros Hk H ext. destruct (H ext) as (ws & H1 & H2 & H3 & H4). exists ws.
  replace (k + S n)%nat with (S k + n)%nat by lia. split_and!; [done|done| |].
  - intros i dflt. rewrite H3. destruct (decide (S k <= i < S k + n)%nat), (decide (k <= i < S k + n)%nat);
      try done; try lia. assert (i = k) as -> by lia. by destruct (f k) eqn:E; [|by destruct (Hk page)|].
  - intros pc prev Hpc Hprev. apply H4; [done|]. intros p Hp. specialize (Hprev p Hp). lia.
Qed.

Lemma refs_name_cons f k n arena arena0 pr pb prs :
  f k = PsLoaded pb -> slot_ok (PsLoaded pb) -> pr_page_index pr = Z.of_nat k -> is_u 32 (Z.of_nat k) ->
  window_of arena0 (pr_arena_off pr) (pr_len pr) (pb_bytes pb) ->
  (exists ext, arena = arena0 ++ ext) -> zlen arena < 2 ^ 32 ->
  refs_name f (S k) n arena prs -> refs_name f k (S n) arena (pr :: prs).
Proof.
  intros Hf Hs Hi Hk Hw [ext0 ->] Hlt H ext. destruct (H ext) as (ws & H1 & H2 & H3 & H4).
  pose proof (window_of_app _ ext _ _ _ (window_of_app _ ext0 _ _ _ Hw)) as (Ho & Hn & w & Hsl & Hpad & Hl & Hb).
  replace (k + S n)%nat with (S k + n)%nat by lia.
  exists ((Z.of_nat k, w) :: ws). cbn [res_mapM]. unfold page_window at 1. rewrite Hsl. cbn [res_bind].
  rewrite H1. cbn [res_bind]. rewrite Hi. split_and!; [done| | |].
  - constructor; [|done]. cbn. split_and!; [lia|rewrite Nat2Z.id; lia|done|done].
  - intros i dflt. cbn [named_page]. rewrite Nat2Z.id, H3, (window_slot w (pb_bytes pb) pb) by done.
    destruct (decide (S k <= i < S k + n)%nat), (decide (k <= i < S k + n)%nat); try lia.
    + rewrite (decide_False (P := i = k)) by lia. done.
    + assert (i = k) as -> by lia. by rewrite decide_True, Hf.
    + rewrite (decide_False (P := i = k)) by lia. done.
  - intros pc prev Hpc Hprev. cbn [validate_pages].
    replace ((pr_len pr =? 0) || (CAP_PAGE_SIZE <? pr_len pr)) with false by lia.
    assert (pr_arena_off pr + pr_len pr <= zlen ((arena0 ++ ext0) ++ ext)) as Hle.
    { unfold slice in Hsl. destruct (_ && (_ <=? zlen _)) eqn:E in Hsl; [|done].
      rewrite andb_true_iff, Z.leb_le in E. lia. }
    assert (pr_arena_off pr + pr_len pr < 2 ^ 64) as Hlt64.
    { destruct Hw as (_ & _ & w0 & Hs0 & _). unfold slice in Hs0.
      destruct (_ && (_ <=? zlen arena0)) eqn:E in Hs0; [|done]. rewrite andb_true_iff, Z.leb_le in E.
      rewrite zlen_app in Hlt. pose proof (zlen_nonneg ext0). lia. }
    unfold checked_add. replace (_ <? 2 ^ 64) with true by lia.
    replace (zlen _ <? _) with false by lia. replace (pc <=? pr_page_index pr) with false by lia.
    replace (match prev with Some p => _ | None => _ end) with false.
    + apply H4; [done|]. intros p [= <-]. lia.
    + destruct prev as [p|]; [|done]. specialize (Hprev p eq_refl). lia.
Qed.

Lemma pack_pages_ok known f n k pk :
  page_hash_inj known -> packer_ok known pk -> (forall i, slot_ok (f i)) ->
  (forall i pb, f i = PsLoaded pb -> known (pb_bytes pb)) -> Z.of_nat (k + n) <= 2 ^ 32 ->
  let '(pk', prs) := pack_pages pk (map (fun p => (p, f p)) (seq k n)) in
  zlen (pk_arena pk') < 2 ^ 32 ->
  packer_ok known pk' /\ grows pk pk' /\
  refs_name f k n (pk_arena pk') prs.
Proof.
  intros Hinj Hpk Hf Hkn. revert k pk Hpk. induction n as [|n IH]; intros k pk Hpk Hk.
  - cbn. intros Hlt. split_and!; [done|apply grows_refl|]. intros ext. exists [].
    split_and!; [done|constructor| |done]. intros i dflt. rewrite decide_False by lia. done.
  - cbn [seq map pack_pages]. destruct (f k) as [|pb|h] eqn:Efk.
    + specialize (IH (S k) pk Hpk ltac:(lia)). destruct (pack_pages pk _) as [pk' prs]. intros Hlt.
      destruct (IH Hlt) as (I1 & I2 & I3). split_and!; [done..|]. apply refs_name_skip; [congruence|done].
    + pose proof (pack_page_ok known pk k pb Hinj Hpk) as Hp. rewrite <- Efk in Hp.
      specialize (Hp (Hf k) (Hkn k pb Efk) ltac:(unfold is_u; lia)).
      destruct (pack_page pk k pb) as [pk1 pr] eqn:E1.
      pose proof (fun H => IH (S k) pk1 H ltac:(lia)) as IH'.
      pose proof (pack_pages_grows pk1 (map (fun p => (p, f p)) (seq (S k) n))) as G.
      destruct (pack_pages pk1 _) as [pk' prs]. intros Hlt.
      pose proof (grows_len _ _ G) as Gl. cbn [fst] in G, Gl.
      destruct Hp as (H1 & H2 & [ext1 H3] & H4); [lia|].
      destruct (IH' H1 Hlt) as (I1 & _ & I3). split_and!; [done| |].
      * eapply grows_trans; [|done]. by exists ext1.
      * eapply refs_name_cons; try done; [by rewrite <- Efk|unfold is_u; lia].
    + by specialize (Hf k); rewrite Efk in Hf.
Qed.
End PackAll.

(** ** Data slots *)

Section PackData.
  Context {D : Digest}.

(** Contents that a data cap can have: bytes, over at most [2^32] pages. *)
Definition content_ok (c : list Z) (size : Z) : Prop :=
  Forall (is_u 8) c /\ 0 <= size /\ Z.max size (zlen c) <= 2 ^ 44 - CAP_PAGE_SIZE.

(** The pages packed for a content. *)
Definition content_pages (c : list Z) (size : Z) (b : list Z) : Prop :=
  exists i pb, slab_page (slab_from_bytes_sized c size) i = PsLoaded pb /\ b = pb_bytes pb.

(** A descriptor that materialises to the data cap of the content, in any
    extension of the arena. *)
Definition desc_stores (arena : list Z) (d : DataDesc) (c : list Z) (size : Z) : Prop :=
  forall ext, to_data_cap d (arena ++ ext) = Ret (data_from_bytes_sized c size) /\
              validate d (zlen (arena ++ ext)) = Ok tt.

Lemma slab_from_bytes_size c size :
  content_ok c size ->
  let s := slab_from_bytes_sized c size in
  slab_size s mod CAP_PAGE_SIZE = 0 /\ CAP_PAGE_SIZE <= slab_size s <= 2 ^ 44 /\
  Z.of_nat (slab_page_count s) = slab_size s / CAP_PAGE_SIZE.
Proof.
  intros (_ & Hs & Hle). cbn. unfold slab_page_count, slab_from_bytes_sized. cbn [slab_size].
  set (z := Z.max size (zlen c)) in *. assert (0 <= z) as Hz by lia.
  destruct (size_for_multiple z) as (H1 & H2 & H3); [unfold CAP_PAGE_SIZE in *; lia|].
  assert (size_for z <= 2 ^ 44) as H4.
  { unfold size_for, next_multiple_of, div_ceil, CAP_PAGE_SIZE in *.
    rewrite wrap_small by (unfold is_u; dlia). dlia. }
  split_and!; [done..|]. rewrite Z2Nat.id; [done|]. unfold CAP_PAGE_SIZE in *. dlia.
Qed.

Lemma pack_data_ok known pk c size :
  page_hash_inj known -> packer_ok known pk -> content_ok c size ->
  (forall b, content_pages c size b -> known b) ->
  let '(pk', desc) := pack_data pk c size in
  zlen (pk_arena pk') < 2 ^ 32 ->
  packer_ok known pk' /\ desc_stores (pk_arena pk') desc c size.
Proof.
  intros Hinj Hpk Hc Hkn. unfold pack_data. set (s := slab_from_bytes_sized c size).
  destruct (slab_from_bytes_size c size Hc) as (Hm & [Hp Hle] & Hpc). fold s in Hm, Hp, Hle, Hpc.
  assert (slab_ok s) as Hs.
  { destruct Hc as (Hb & H0 & Hmax). apply slab_from_bytes_ok; [done..|]. unfold CAP_PAGE_SIZE in *. lia. }
  pose proof (pack_pages_ok known (slab_page s) (slab_page_count s) 0 pk Hinj Hpk) as H.
  specialize (H (fun i => slab_page_ok s i Hs)).
  specialize (H ltac:(intros i pb Hi; apply Hkn; by exists i, pb)).
  specialize (H ltac:(cbn [Nat.add]; unfold CAP_PAGE_SIZE in *; dlia)).
  destruct (pack_pages pk _) as [pk' prs]. intros Hlt. destruct (H Hlt) as (H1 & _ & H2).
  split; [done|]. intros ext. destruct (H2 ext) as (ws & E & Hsp & Hnm & Hv). cbn [Nat.add] in *.
  unfold to_data_cap, validate, dd_page_count. cbn [dd_pages dd_size]. rewrite E. cbn [res_bind].
  assert (size_for (slab_size s) = slab_size s) as Hsf by (apply size_for_fixed; [done|unfold CAP_PAGE_SIZE in *; lia]).
  split.
  - unfold data_from_sparse_pages, data_from_bytes_sized. fold s.
    destruct (slab_from_sparse_ok (slab_size s) ws) as (s2 & -> & O & Z_ & N); [unfold CAP_PAGE_SIZE in *; lia| |].
    { rewrite Hsf. exact Hsp. }
    cbn [res_bind]. do 2 f_equal. apply slab_ext; [done|done|by rewrite Z_|]. intros i Hi. rewrite N, Hnm.
    assert (i < slab_page_count s)%nat by (unfold slab_page_count in *; by rewrite Z_, Hsf in Hi).
    rewrite decide_True by lia. pose proof (slab_page_ok s i Hs) as Hi'.
    by destruct (slab_page s i).
  - rewrite Hm, Z.eqb_refl. cbn [negb]. apply Hv; [by rewrite Hpc|done].
Qed.

Lemma pack_data_grows pk c size : grows pk (fst (pack_data pk c size)).
Proof.
  unfold pack_data. pose proof (pack_pages_grows pk
    (map (fun p => (p, slab_page (slab_from_bytes_sized c size) p))
         (seq 0 (slab_page_count (slab_from_bytes_sized c size))))) as G.
  by destruct (pack_pages _ _).
Qed.

Lemma desc_stores_grows pk pk' d c size :
  grows pk pk' -> desc_stores (pk_arena pk) d c size -> desc_stores (pk_arena pk') d c size.
Proof. intros [e E] H ext. rewrite E, <- app_assoc. apply H. Qed.

(** ** All slots of a builder *)

Definition pinned_stored (arena : list Z) (spec : PinnedSpec) (pc : PinnedCap) : Prop :=
  match spec, pc with
  | SpecData c size, PinnedData d => desc_stores arena d c size
  | SpecImage h, PinnedImage h' => h = h'
  | _, _ => False
  end.

Definition keyed {A B : Type} (R : A -> B -> Prop) (x : Key * A) (y : Key * B) : Prop :=
  fst x = fst y /\ R (snd x) (snd y).

Definition spec_ok (known : list Z -> Prop) (spec : PinnedSpec) : Prop :=
  match spec with
  | SpecData c size => content_ok c size /\ forall b, content_pages c size b -> known b
  | SpecImage _ => True
  end.

Lemma pack_pinned_grows pk specs : grows pk (fst (pack_pinned pk specs)).
Proof.
  revert pk. induction specs as [|[k [c size|h]] r IH]; intros pk; cbn [pack_pinned]; [apply grows_refl| |].
  - pose proof (pack_data_grows pk c size) as G. destruct (pack_data pk c size) as [pk1 d].
    specialize (IH pk1). destruct (pack_pinned pk1 r) as [pk2 out]. by eapply grows_trans.
  - specialize (IH pk). by destruct (pack_pinned pk r).
Qed.

Lemma pack_initial_grows pk specs : grows pk (fst (pack_initial pk specs)).
Proof.
  revert pk. induction specs as [|[k [c size]] r IH]; intros pk; cbn [pack_initial]; [apply grows_refl|].
  pose proof (pack_data_grows pk c size) as G. destruct (pack_data pk c size) as [pk1 d].
  specialize (IH pk1). destruct (pack_initial pk1 r) as [pk2 out]. by eapply grows_trans.
Qed.

Lemma pack_pinned_ok known pk specs :
  page_hash_inj known -> packer_ok known pk -> Forall (fun ks => spec_ok known (snd ks)) specs ->
  let '(pk', out) := pack_pinned pk specs in
  zlen (pk_arena pk') < 2 ^ 32 ->
  packer_ok known pk' /\ Forall2 (keyed (pinned_stored (pk_arena pk'))) specs out.
Proof.
  intros Hinj Hpk HF. revert pk Hpk. induction HF as [|[k spec] r Hs _ IH]; intros pk Hpk; cbn [pack_pinned].
  { intros _. by split. }
  destruct spec as [c size|h].
  - destruct Hs as [Hc Hkn]. pose proof (pack_data_ok known pk c size Hinj Hpk Hc Hkn) as Hd.
    destruct (pack_data pk c size) as [pk1 d]. pose proof (pack_pinned_grows pk1 r) as G.
    pose proof (IH pk1) as I. destruct (pack_pinned pk1 r) as [pk2 out]. intros Hlt.
    pose proof (grows_len _ _ G) as Gl. cbn [fst] in G, Gl.
    destruct Hd as [H1 H2]; [lia|]. destruct (I H1 Hlt) as [I1 I2]. split; [done|].
    constructor; [|done]. split; [done|]. by eapply desc_stores_grows.
  - specialize (IH pk Hpk). destruct (pack_pinned pk r) as [pk2 out]. intros Hlt.
    destruct (IH Hlt) as [I1 I2]. split; [done|]. by constructor.
Qed.

Lemma pack_initial_ok known pk specs :
  page_hash_inj known -> packer_ok known pk ->
  Forall (fun ks => spec_ok known (SpecData (fst (snd ks)) (snd (snd ks)))) specs ->
  let '(pk', out) := pack_initial pk specs in
  zlen (pk_arena pk') < 2 ^ 32 ->
  packer_ok known pk' /\
  Forall2 (keyed (fun cs d => desc_stores (pk_arena pk') d (fst cs) (snd cs))) specs out.
Proof.
  intros Hinj Hpk HF. revert pk Hpk. induction HF as [|[k [c size]] r Hs _ IH]; intros pk Hpk; cbn [pack_initial].
  { intros _. by split. }
  destruct Hs as [Hc Hkn]. pose proof (pack_data_ok known pk c size Hinj Hpk Hc Hkn) as Hd.
  destruct (pack_data pk c size) as [pk1 d]. pose proof (pack_initial_grows pk1 r) as G.
  pose proof (IH pk1) as I. destruct (pack_initial pk1 r) as [pk2 out]. intros Hlt.
  pose proof (grows_len _ _ G) as Gl. cbn [fst] in G, Gl.
  destruct Hd as [H1 H2]; [lia|]. destruct (I H1 Hlt) as [I1 I2]. split; [done|].
  constructor; [|done]. split; [done|]. by eapply desc_stores_grows.
Qed.
End PackData.

(** ** The builder and the deblob *)

Section Build.
  Context {D : Digest}.

Lemma keyed_fst {A B : Type} (R : A -> B -> Prop) m1 m2 :
  Forall2 (keyed R) m1 m2 -> map fst m1 = map fst m2.
Proof. induction 1 as [|x y m1 m2 [Hk _] _ IH]; [done|]. cbn. by rewrite Hk, IH. Qed.

Lemma keyed_get {A B : Type} (R : A -> B -> Prop) m1 m2 (k : Key) :
  Forall2 (keyed R) m1 m2 ->
  match om_get k m1, om_get k m2 with
  | Some a, Some b => R a b | None, None => True | _, _ => False
  end.
Proof.
  induction 1 as [|[k1 a] [k2 b] m1 m2 [Hk HR] _ IH]; [done|].
  cbn [fst snd] in Hk, HR. cbn [om_get]. subst k2.
  by destruct (cmp k k1).
Qed.

Lemma keyed_of_list {A B : Type} (R : A -> B -> Prop) (m1 : OrdMap Key A) m2 :
  Forall2 (keyed R) m1 m2 -> om_ok m1 -> om_of_list m2 = m2 /\ om_ok m2.
Proof.
  intros H Ho. assert (om_ok m2) as H2 by (unfold om_ok in *; by rewrite <- (keyed_fst R m1 m2 H)).
  split; [by apply om_of_list_sorted|done].
Qed.

(** The pages a builder packs. *)
Definition builder_pages (b : ImageBuilder) (x : list Z) : Prop :=
  (exists k c size, In (k, SpecData c size) (ib_pinned b) /\ content_pages c size x) \/
  (exists k c size, In (k, (c, size)) (ib_initial b) /\ content_pages c size x).

Record builder_ok (b : ImageBuilder) : Prop := {
  bo_pinned : om_ok (ib_pinned b);
  bo_initial : om_ok (ib_initial b);
  bo_pinned_content : forall k c size, In (k, SpecData c size) (ib_pinned b) -> content_ok c size;
  bo_initial_content : forall k c size, In (k, (c, size)) (ib_initial b) -> content_ok c size;
  bo_arena : zlen (im_arena (build b)) < 2 ^ 32;
}.

(** The image a builder assembles, slot by slot. *)
Lemma build_slots b :
  builder_ok b -> page_hash_inj (builder_pages b) ->
  exists arena, im_arena (build b) = arena ++ ib_code b /\
    im_code (build b) = (if bool_decide (ib_code b = []) then mkCodeRef 0 0
                         else mkCodeRef (zlen arena) (zlen (ib_code b))) /\
    Forall2 (keyed (pinned_stored arena)) (ib_pinned b) (im_pinned_slots (build b)) /\
    Forall2 (keyed (fun cs d => desc_stores arena d (fst cs) (snd cs))) (ib_initial b) (im_initial_slots (build b)).
Proof.
  intros [O1 O2 C1 C2 Ha] Hinj. unfold build in *.
  pose proof (pack_pinned_ok (builder_pages b) (mkPacker [] []) (ib_pinned b) Hinj) as Hp.
  specialize (Hp ltac:(split; [apply om_ok_nil|done])).
  assert (Forall (fun ks => spec_ok (builder_pages b) (snd ks)) (ib_pinned b)) as F1.
  { apply Forall_forall. intros [k [c size|h]] Hin; [|done]. split; [by eapply C1|]. intros x Hx. left. eauto 6. }
  specialize (Hp F1). destruct (pack_pinned _ (ib_pinned b)) as [pk1 pinned].
  pose proof (pack_initial_ok (builder_pages b) pk1 (ib_initial b) Hinj) as Hi.
  pose proof (pack_initial_grows pk1 (ib_initial b)) as G.
  destruct (pack_initial pk1 (ib_initial b)) as [pk2 initial]. cbn [fst] in G.
  set (code := ib_code b) in *. pose proof (grows_len _ _ G) as Gl.
  assert (zlen (pk_arena pk2) + zlen code < 2 ^ 32) as Hlt.
  { destruct code; cbn [im_arena] in Ha; [change (zlen []) with 0; lia|by rewrite zlen_app in Ha]. }
  pose proof (zlen_nonneg code). pose proof (zlen_nonneg (pk_arena pk2)).
  destruct Hp as [P1 P2]; [lia|].
  destruct Hi as [_ I2]; [done| |lia|].
  { apply Forall_forall. intros [k [c size]] Hin. split; [by eapply C2|]. intros x Hx. right. eauto 6. }
  assert (Forall2 (keyed (pinned_stored (pk_arena pk2))) (ib_pinned b) pinned) as P3.
  { eapply Forall2_impl; [|exact P2]. intros [k s] [k' pc] [E R]. split; [done|].
    destruct s, pc; cbn in *; try done. by eapply desc_stores_grows. }
  destruct (keyed_of_list _ _ _ P3 O1) as [E1 _]. destruct (keyed_of_list _ _ _ I2 O2) as [E2 _].
  exists (pk_arena pk2). destruct code as [|x xs]; cbn [im_arena im_code im_pinned_slots im_initial_slots].
  - rewrite E1, E2, app_nil_r. by split_and!.
  - rewrite E1, E2, !wrap_small by (unfold is_u; lia). by split_and!.
Qed.

(** C22: the builder loses nothing. Reading the image it assembles back, the
    code window holds the code, and every data slot, pinned or initial, has
    a descriptor that validates and materialises to exactly the data cap of
    the content given; zero pages, trailing zeros and shared pages are
    invisible. The page digests are assumed to tell the packed pages apart. *)
Theorem build_lossless b :
  builder_ok b -> page_hash_inj (builder_pages b) ->
  let i := build b in
  code_bytes i = ib_code b /\
  (forall k, match om_get k (ib_pinned b), om_get k (im_pinned_slots i) with
             | Some (SpecData c size), Some (PinnedData d) =>
                 validate d (zlen (im_arena i)) = Ok tt /\
                 to_data_cap d (im_arena i) = Ret (data_from_bytes_sized c size)
             | Some (SpecImage h), Some (PinnedImage h') => h = h'
             | None, None => True
             | _, _ => False
             end) /\
  (forall k, match om_get k (ib_initial b), om_get k (im_initial_slots i) with
             | Some (c, size), Some d =>
                 validate d (zlen (im_arena i)) = Ok tt /\
                 to_data_cap d (im_arena i) = Ret (data_from_bytes_sized c size)
             | None, None => True
             | _, _ => False
             end).
Proof.
  intros Hb Hinj. destruct (build_slots b Hb Hinj) as (arena & Ea & Ec & P & I). cbn zeta.
  pose proof (bo_arena b Hb) as Hlt. rewrite Ea, zlen_app in Hlt.
  pose proof (zlen_nonneg arena). pose proof (zlen_nonneg (ib_code b)). split_and!.
  - unfold code_bytes. rewrite Ec, Ea. case_bool_decide as E.
    + rewrite E, app_nil_r. unfold checked_add, get_range. cbn [cr_arena_off cr_len].
      change (0 + 0 <? 2 ^ 64) with true. change (0 + 0) with 0.
      cbv iota. by rewrite (slice_prefix [] arena 0 eq_refl : slice arena 0 0 = _).
    + unfold checked_add, get_range. cbn [cr_arena_off cr_len].
      replace (zlen arena + zlen (ib_code b) <? 2 ^ 64) with true by lia.
      by rewrite slice_suffix by (rewrite ?zlen_app; done).
  - intros k. pose proof (keyed_get _ _ _ k P) as H1. rewrite Ea.
    destruct (om_get k (ib_pinned b)) as [[c size|h]|], (om_get k (im_pinned_slots (build b))) as [[d|h']|];
      try done. destruct (H1 (ib_code b)) as [? ?]. by split.
  - intros k. pose proof (keyed_get _ _ _ k I) as H1. rewrite Ea.
    destruct (om_get k (ib_initial b)) as [[c size]|], (om_get k (im_initial_slots (build b))) as [d|];
      try done. destruct (H1 (ib_code b)) as [? ?]. by split.
Qed.
End Build.

(** ** What the deblob accepts *)

Section Deblob.
  Context {D : Digest}.

(** A page reference whose window is inside the arena and whose page is one
    of [pc]. *)
Definition page_stored (arena : list Z) (pc : Z) (pr : ArenaPageRef) : Prop :=
  exists w, page_window arena pr = Ret (pr_page_index pr, w) /\ 0 <= pr_page_index pr < pc /\
            (length w <= page_len)%nat /\ (Forall (is_u 8) arena -> Forall (is_u 8) w).

Lemma validate_pages_windows arena pc prev prs :
  validate_pages (zlen arena) pc prev prs = Ok tt -> Forall page_ref_ok prs ->
  Forall (page_stored arena pc) prs.
Proof.
  intros H HF. revert prev H. induction HF as [|pr r (Hi & Ho & Hl) _ IH]; intros prev; [by constructor|].
  cbn [validate_pages]. destruct (_ || _) eqn:Hlen; [done|]. unfold checked_add.
  destruct (Z.ltb_spec (pr_arena_off pr + pr_len pr) (2 ^ 64)); [|done].
  destruct (Z.ltb_spec (zlen arena) (pr_arena_off pr + pr_len pr)); [done|].
  destruct (Z.leb_spec pc (pr_page_index pr)); [done|].
  destruct (match prev with Some _ => _ | None => _ end); [done|].
  intros Hrest. constructor; [|by eapply IH]. unfold page_stored, page_window, slice, is_u in *.
  replace ((0 <=? _) && _ && _) with true by lia. eexists. split_and!; [done|lia|lia| |].
  - pose proof page_len_eq. rewrite length_take. lia.
  - intros HA. by apply Forall_take, Forall_drop.
Qed.

Lemma validate_all_ok alen ds : validate_all alen ds = Ok tt -> Forall (fun d => validate d alen = Ok tt) ds.
Proof.
  induction ds as [|d r IH]; [by constructor|]. cbn. destruct (validate d alen) as [[]|] eqn:E; [|done].
  intros H. constructor; auto.
Qed.

(** A validated descriptor slices the arena within its bounds. *)
Lemma validate_windows d arena :
  validate d (zlen arena) = Ok tt -> data_desc_ok d ->
  dd_size d mod CAP_PAGE_SIZE = 0 /\ Forall (page_stored arena (dd_page_count d)) (dd_pages d).
Proof.
  intros H (_ & HF & _). unfold validate in H.
  destruct (Z.eqb_spec (dd_size d mod CAP_PAGE_SIZE) 0); [|done]. cbn in H.
  split; [done|]. by eapply validate_pages_windows.
Qed.

Lemma put_pages_returns s ws :
  Forall (fun w => fst w < Z.of_nat (slab_page_count s)) ws ->
  exists s', put_pages s ws = Ret s' /\ slab_size s' = slab_size s.
Proof.
  revert s. induction ws as [|[p c] r IH]; intros s HF; [by exists s|].
  apply Forall_cons_iff in HF as [Hp HF]. cbn [fst] in Hp. cbn [put_pages].
  rewrite debug_assert_true by lia. cbn [res_bind].
  destruct (IH (put_page_idx s (Z.to_nat p) c)) as (s' & E & Hz); [exact HF|]. by exists s'.
Qed.

Lemma size_for_page_multiple z :
  is_u 64 z -> z mod CAP_PAGE_SIZE = 0 -> size_for z = Z.max z CAP_PAGE_SIZE.
Proof.
  unfold is_u, size_for, next_multiple_of, div_ceil, CAP_PAGE_SIZE. intros Hz Hm.
  rewrite wrap_small by (unfold is_u; dlia). f_equal. dlia.
Qed.

Lemma to_data_cap_returns d arena :
  validate d (zlen arena) = Ok tt -> data_desc_ok d ->
  exists c, to_data_cap d arena = Ret c /\ content_len c = Z.max (dd_size d) CAP_PAGE_SIZE.
Proof.
  intros H Hd. destruct (validate_windows d arena H Hd) as [Hm HF]. destruct Hd as (Hz & _).
  unfold to_data_cap.
  assert (exists ws, res_mapM (page_window arena) (dd_pages d) = Ret ws /\
                     Forall (fun w => fst w < dd_page_count d) ws) as (ws & -> & Hws).
  { clear -HF. induction HF as [|pr r (w & Hw & Hi & _) _ (ws & IH & Hws)]; [by exists []|].
    cbn. rewrite Hw, IH. eexists. split; [done|]. constructor; [apply Hi|done]. }
  cbn [res_bind]. unfold data_from_sparse_pages, slab_from_sparse_pages.
  rewrite size_for_page_multiple by done.
  destruct (put_pages_returns (mkPageSlab (Z.max (dd_size d) CAP_PAGE_SIZE) []) ws) as (s & -> & E).
  - apply Forall_impl with (2 := Hws). intros w Hw. unfold slab_page_count. cbn [slab_size].
    unfold dd_page_count, CAP_PAGE_SIZE, is_u in *. dlia.
  - eexists. split; [done|]. exact E.
Qed.

(** Where the fold of a mapping puts a page of its source. *)
Definition page_dest (m : MemoryMapping) (pr : ArenaPageRef) : Z :=
  wrapping_add 64 (Z.max 0 (mm_start m - DATA_BASE)) (pr_page_index pr * CAP_PAGE_SIZE).

(** Every stored page of the mapping's source falls inside [size] bytes. *)
Definition mapping_fits (i : Image) (size : Z) (m : MemoryMapping) : bool :=
  match mapping_desc i m with
  | Some d => forallb (fun pr => page_dest m pr <? size) (dd_pages d)
  | None => true
  end.

(** The size of the instance memory. *)
Definition image_mem_size (i : Image) : Z := Z.max (mem_extent i) CAP_PAGE_SIZE.

Definition mappings_fit (i : Image) : bool :=
  forallb (mapping_fits i (image_mem_size i)) (im_memory_mappings i).

(** A fold of [Res] steps from a panic is a panic. *)
Lemma fold_Abort {A B : Type} (g : A -> B -> Res A) l :
  fold_left (fun acc x => let! a := acc in g a x) l Abort = Abort.
Proof. by induction l. Qed.

(** What building the memory gives: a well-formed cap of the size it started
    with, or a panic. *)
Definition built (size : Z) (fits : bool) (r : Res DataCap) : Prop :=
  match r with
  | Ret c => fits = true /\ data_ok c /\ content_len c = size
  | Abort => fits = false
  end.

Lemma fold_mapping_built i b m size :
  data_ok b -> content_len b = size -> Forall (is_u 8) (im_arena i) ->
  (forall d, mapping_desc i m = Some d -> exists pc, Forall (page_stored (im_arena i) pc) (dd_pages d)) ->
  built size (mapping_fits i size m) (fold_mapping i b m).
Proof.
  intros Hb Hl Ha H. unfold fold_mapping, mapping_fits.
  destruct (mapping_desc i m) as [d|]; [|done]. destruct (H d eq_refl) as [pc HF]. clear H.
  revert b Hb Hl. induction HF as [|pr r (w & Hw & Hi & Hlen & Hbytes) _ IH]; intros b Hb Hl; [done|].
  cbn [fold_left res_bind forallb]. rewrite Hw. cbn [res_bind]. fold (page_dest m pr).
  destruct (Z.ltb_spec (page_dest m pr) size) as [Hlt|Hge].
  - rewrite put_page_eq by lia. apply IH; [|done]. apply backed_ok; auto.
    split; [|lia]. unfold page_dest, wrapping_add, wrap. dlia.
  - unfold put_page. rewrite debug_assert_false by lia. cbn [res_bind]. by rewrite fold_Abort.
Qed.

Lemma fold_mappings_built i ms b size :
  data_ok b -> content_len b = size -> Forall (is_u 8) (im_arena i) ->
  (forall d m, mapping_desc i m = Some d -> exists pc, Forall (page_stored (im_arena i) pc) (dd_pages d)) ->
  built size (forallb (mapping_fits i size) ms)
    (fold_left (fun acc m => let! b := acc in fold_mapping i b m) ms (Ret b)).
Proof.
  intros Hb Hl Ha H. revert b Hb Hl. induction ms as [|m r IH]; intros b Hb Hl; [done|].
  cbn [fold_left res_bind forallb].
  pose proof (fold_mapping_built i b m size Hb Hl Ha (fun d => H d m)) as Hm.
  destruct (fold_mapping i b m) as [b'|]; cbn in Hm.
  - destruct Hm as (-> & Hb' & Hl'). by apply IH.
  - rewrite Hm, fold_Abort. done.
Qed.

Lemma mem_top_from ms z :
  0 <= z < 2 ^ 32 ->
  z <= fold_left (fun top m => Z.max top (wrap 32 (wrapping_add 64 (mm_start m) (mm_size m)))) ms z < 2 ^ 32.
Proof.
  revert z. induction ms as [|m r IH]; intros z Hz; [cbn; lia|]. cbn [fold_left].
  specialize (IH (Z.max z (wrap 32 (wrapping_add 64 (mm_start m) (mm_size m))))).
  assert (0 <= wrap 32 (wrapping_add 64 (mm_start m) (mm_size m)) < 2 ^ 32) by (unfold wrap; dlia). lia.
Qed.

Lemma image_mem_size_range i :
  CAP_PAGE_SIZE <= image_mem_size i <= 2 ^ 32 /\ image_mem_size i mod CAP_PAGE_SIZE = 0.
Proof.
  pose proof (mem_top_from (im_memory_mappings i) 0 ltac:(lia)) as Ht. fold (mem_top (im_memory_mappings i)) in Ht.
  unfold image_mem_size, mem_extent, next_multiple_of, div_ceil, CAP_PAGE_SIZE, DATA_BASE in *. dlia.
Qed.

(** Mappings that lie in the data window, do not wrap and are as long as
    their source fit. *)
Lemma contained_mappings_fit i :
  (forall m, In m (im_memory_mappings i) ->
     DATA_BASE <= mm_start m /\ 0 <= mm_size m /\ mm_start m + mm_size m < 2 ^ 32) ->
  (forall m d, In m (im_memory_mappings i) -> mapping_desc i m = Some d ->
     dd_size d <= mm_size m /\ exists a, Forall (page_stored a (dd_page_count d)) (dd_pages d)) ->
  mappings_fit i = true.
Proof.
  intros Hm Hd. apply forallb_forall. intros m Hin. unfold mapping_fits.
  destruct (mapping_desc i m) as [d|] eqn:E; [|done].
  destruct (Hd m d Hin E) as (Hs & a & HF). destruct (Hm m Hin) as (H1 & H2 & H3).
  assert (mm_start m + mm_size m <= mem_top (im_memory_mappings i)) as Htop.
  { clear -Hin H1 H2 H3. unfold mem_top. apply in_split in Hin as (l1 & l2 & ->). rewrite fold_left_app. cbn [fold_left].
    destruct (mem_top_from l1 0) as [T1 T2]; [lia|].
    set (t := fold_left _ l1 0) in *. unfold wrapping_add, DATA_BASE in *.
    rewrite (wrap_small 64), (wrap_small 32) by (unfold is_u; lia).
    etrans; [|apply mem_top_from; lia]. lia. }
  apply forallb_forall. intros pr Hpr. eapply Forall_forall in HF as (w & _ & Hi & _); [|exact Hpr].
  apply Z.ltb_lt. unfold page_dest, wrapping_add, image_mem_size, mem_extent, next_multiple_of, div_ceil, dd_page_count in *.
  unfold CAP_PAGE_SIZE, DATA_BASE in *. rewrite wrap_small by (unfold is_u; dlia). dlia.
Qed.

Lemma mapping_desc_in i m d :
  mapping_desc i m = Some d -> In d (pinned_descs i) \/ In d (map snd (im_initial_slots i)).
Proof.
  unfold mapping_desc. destruct (target (mm_source m)) as [t|]; [|done].
  assert (om_get t (im_initial_slots i) = Some d -> In d (map snd (im_initial_slots i))) as Hi.
  { intros H%om_get_In. by apply (in_map snd) in H. }
  destruct (om_get t (im_pinned_slots i)) as [[d'|h]|] eqn:E; [|by auto..].
  intros [= ->]. left. apply om_get_In in E. unfold pinned_descs.
  apply list_elem_of_In, list_elem_of_omap. exists (t, PinnedData d). split; [by apply list_elem_of_In|done].
Qed.

Lemma fill_regs_spec regs kvs out :
  fill_regs regs kvs = Ok out -> om_ok kvs -> Forall (fun kv => 0 <= fst kv) kvs ->
  length out = length regs /\
  ((Z.of_nat NUM_REGS <= Z.of_nat (length regs)) ->
   forall r, 0 <= r -> out !! Z.to_nat r = match om_get r kvs with Some v => Some v | None => regs !! Z.to_nat r end).
Proof.
  revert regs. induction kvs as [|[k v] kvs IH]; intros regs.
  { cbn. intros [= <-] _ _. by split. }
  cbn [fill_regs]. destruct (Z.leb_spec (Z.of_nat NUM_REGS) k); [done|]. intros Hfill Ho HF.
  apply om_ok_cons in Ho as [Ho Hlt]. apply Forall_cons_iff in HF as [Hk HF]. cbn [fst] in Hk.
  destruct (IH _ Hfill Ho HF) as [L E]. rewrite length_insert in L, E. split; [done|].
  intros Hn r Hr. rewrite E by done. cbn [om_get]. unfold cmp, ord_Z.
  destruct (Z.compare_spec r k) as [->|Hrk|Hrk].
  - rewrite om_get_below by done. rewrite list_lookup_insert_eq by lia. done.
  - rewrite om_get_below.
    + rewrite list_lookup_insert_ne by lia. done.
    + apply Forall_impl with (2 := Hlt). intros [q ?]. cbn. unfold key_lt, cmp, ord_Z.
      rewrite !Z.compare_lt_iff. lia.
  - destruct (om_get r kvs); [done|]. rewrite list_lookup_insert_ne by lia. done.
Qed.

(** The converted endpoint of a wire endpoint. *)
Definition endpoint_converted (we : WireEndpoint) (ep : EndpointDef) : Prop :=
  ep_entry_pc ep = we_entry_pc we /\ ep_arg_cnode_size ep = we_arg_cnode_size we /\
  length (ep_initial_regs ep) = NUM_REGS /\
  forall r, 0 <= r < Z.of_nat NUM_REGS ->
    ep_initial_regs ep !! Z.to_nat r = Some (default 0 (om_get r (we_initial_regs we))).

Lemma convert_endpoints_spec eps out :
  convert_endpoints eps = Ok out -> Forall (fun ke => regs_ok (we_initial_regs (snd ke))) eps ->
  Forall2 (keyed endpoint_converted) eps out.
Proof.
  intros H HF. revert out H. induction HF as [|[k we] r [Ho Hr] _ IH]; intros out; cbn [convert_endpoints].
  { intros [= <-]. constructor. }
  cbn [snd] in *. destruct (fill_regs _ _) as [regs|] eqn:E; [|done]. cbn [result_bind].
  destruct (convert_endpoints r) as [rest|]; [|done]. cbn [result_bind]. intros [= <-].
  constructor; [|by apply IH]. split; [done|].
  apply fill_regs_spec in E as [L Q]; [|done|apply Forall_impl with (2 := Hr); intros ? []; unfold is_u in *; lia].
  rewrite length_replicate in L, Q. split_and!; [done..|]. cbn [snd ep_initial_regs]. intros q Hq.
  rewrite Q by lia. rewrite lookup_replicate_2 by lia. by destruct (om_get q _).
Qed.

Lemma convert_mappings_spec ms out :
  convert_mappings ms = Ok out ->
  out = ms /\ Forall (fun m => 1 <= zlen (mm_source m) <= MAX_SOURCE_DEPTH) ms.
Proof.
  revert out. induction ms as [|m r IH]; intros out; cbn [convert_mappings]; [by intros [= <-]|].
  destruct (Z.eqb_spec (zlen (mm_source m)) 0); [done|].
  destruct (Z.ltb_spec MAX_SOURCE_DEPTH (zlen (mm_source m))); [done|].
  destruct (convert_mappings r) as [rest|]; [|done]. cbn [result_bind]. intros [= <-].
  destruct (IH rest eq_refl) as [-> HF]. pose proof (zlen_nonneg (mm_source m)).
  split; [done|]. constructor; [lia|done].
Qed.
End Deblob.

Section DeblobClaims.
  Context {D : Digest}.

(** The tests [image_cap] has passed when it returns. *)
Lemma image_cap_inv i ph ih ic :
  image_cap i ph ih = Ok ic ->
  cr_len (im_code i) <= MAX_CODE_SIZE /\
  cr_arena_off (im_code i) + cr_len (im_code i) <= zlen (im_arena i) /\
  cr_arena_off (im_code i) + cr_len (im_code i) < 2 ^ 64 /\
  validate_all (zlen (im_arena i)) (pinned_descs i) = Ok tt /\
  validate_all (zlen (im_arena i)) (map snd (im_initial_slots i)) = Ok tt /\
  convert_endpoints (im_endpoints i) = Ok (ic_endpoints ic) /\
  convert_mappings (im_memory_mappings i) = Ok (ic_mappings ic) /\ ic_code ic = code_bytes i.
Proof.
  unfold image_cap, checked_add.
  destruct (Z.ltb_spec MAX_CODE_SIZE (cr_len (im_code i))); [done|].
  destruct (Z.ltb_spec (cr_arena_off (im_code i) + cr_len (im_code i)) (2 ^ 64)); [|done].
  destruct (Z.leb_spec (cr_arena_off (im_code i) + cr_len (im_code i)) (zlen (im_arena i))); [|done].
  cbn [negb]. destruct (validate_all _ (pinned_descs i)) as [[]|]; [|done].
  destruct (validate_all _ (map snd (im_initial_slots i))) as [[]|]; [|done].
  destruct (convert_endpoints _) as [eps|]; [|done].
  destruct (convert_mappings _) as [ms|]; [|done]. intros [= <-]. by split_and!.
Qed.

Lemma descs_validated i d :
  image_ok i -> validate_all (zlen (im_arena i)) (pinned_descs i) = Ok tt ->
  validate_all (zlen (im_arena i)) (map snd (im_initial_slots i)) = Ok tt ->
  In d (pinned_descs i) \/ In d (map snd (im_initial_slots i)) ->
  validate d (zlen (im_arena i)) = Ok tt /\ data_desc_ok d.
Proof.
  intros Hok V1%validate_all_ok V2%validate_all_ok [Hp|Hi]; split.
  - by eapply Forall_forall in V1.
  - unfold pinned_descs in Hp. apply list_elem_of_In, list_elem_of_omap in Hp as ([k [d'|]] & Hk & E); [|done].
    injection E as ->. apply list_elem_of_In in Hk. pose proof (proj2 (io_pinned i Hok)) as HF.
    eapply Forall_forall in HF; [|exact Hk]. apply HF.
  - by eapply Forall_forall in V2.
  - apply in_map_iff in Hi as ([k d'] & <- & Hk). pose proof (proj2 (io_initial i Hok)) as HF.
    eapply Forall_forall in HF; [|exact Hk]. apply HF.
Qed.

Lemma code_bytes_len i :
  image_ok i -> cr_arena_off (im_code i) + cr_len (im_code i) <= zlen (im_arena i) ->
  cr_arena_off (im_code i) + cr_len (im_code i) < 2 ^ 64 -> zlen (code_bytes i) = cr_len (im_code i).
Proof.
  intros Hok H1 H2. destruct (io_code i Hok) as [Ho Hl]. unfold code_bytes, checked_add, get_range, slice, is_u in *.
  replace (_ <? 2 ^ 64) with true by lia. replace ((0 <=? _) && _ && _) with true by lia. cbn.
  unfold zlen in *. rewrite length_take, length_drop. lia.
Qed.

Lemma instance_mem_backing_built i :
  Forall (is_u 8) (im_arena i) ->
  (forall d, In d (pinned_descs i) \/ In d (map snd (im_initial_slots i)) ->
     validate d (zlen (im_arena i)) = Ok tt /\ data_desc_ok d) ->
  built (image_mem_size i) (mappings_fit i) (instance_mem_backing i).
Proof.
  intros Ha Hd. destruct (image_mem_size_range i) as [Hr Hm]. unfold CAP_PAGE_SIZE in Hr.
  apply fold_mappings_built; [| |done|].
  - split; [|split; [apply om_ok_nil|constructor]].
    apply slab_from_bytes_ok; [constructor|fold (image_mem_size i); lia|]. fold (image_mem_size i).
    change (zlen (@nil Z)) with 0. lia.
  - change (size_for (Z.max (image_mem_size i) 0) = image_mem_size i). rewrite Z.max_l by lia.
    apply size_for_fixed; [done|]. unfold CAP_PAGE_SIZE. lia.
  - intros d m E%mapping_desc_in. destruct (Hd d E) as [V O]. eexists. by apply validate_windows.
Qed.

(** C30: what the deblob accepts. The code of the cap is the code window and
    fits under [MAX_CODE_SIZE]; every mapping path has one to eight steps;
    every endpoint keeps its entry point and has thirteen registers, the
    unset ones zero; every data slot materialises at its declared size. The
    deblob does not bound the mappings, so the instance memory is built (a
    well-formed cap of the mapped extent) exactly when every stored page
    falls inside that extent, and trips the assertion of [put_page]
    otherwise. *)
Theorem image_cap_sound i ph ih ic :
  image_ok i -> image_cap i ph ih = Ok ic ->
  (ic_code ic = code_bytes i /\ zlen (ic_code ic) = cr_len (im_code i) /\ zlen (ic_code ic) <= MAX_CODE_SIZE) /\
  (ic_mappings ic = im_memory_mappings i /\
   Forall (fun m => 1 <= zlen (mm_source m) <= MAX_SOURCE_DEPTH) (ic_mappings ic)) /\
  Forall2 (keyed endpoint_converted) (im_endpoints i) (ic_endpoints ic) /\
  (forall d, In d (pinned_descs i) \/ In d (map snd (im_initial_slots i)) ->
     exists c, to_data_cap d (im_arena i) = Ret c /\ content_len c = Z.max (dd_size d) CAP_PAGE_SIZE) /\
  match instance_mem_backing i with
  | Ret c => mappings_fit i = true /\ data_ok c /\ content_len c = image_mem_size i
  | Abort => mappings_fit i = false
  end.
Proof.
  intros Hok H. apply image_cap_inv in H as (Hmax & Hin & H64 & V1 & V2 & E1 & E2 & ->).
  apply convert_mappings_spec in E2 as [-> Hms]. pose proof (fun d => descs_validated i d Hok V1 V2) as Hd.
  pose proof (code_bytes_len i Hok Hin H64) as Hl.
  split; [by rewrite Hl|]. split; [done|]. split.
  - apply convert_endpoints_spec; [done|]. apply Forall_impl with (2 := proj2 (io_endpoints i Hok)).
    intros [k e] [_ He]. apply He.
  - split; [|apply instance_mem_backing_built; [apply (io_arena i Hok)|exact Hd]].
    intros d Hi. destruct (Hd d Hi). by apply to_data_cap_returns.
Qed.

(** C33: an image in the range of its Rust types is decoded back from its
    encoding, whenever the encoding is shorter than 4 GiB (offsets are
    32-bit). *)
Theorem image_roundtrip i n :
  image_ok i -> ssz_bytes_len enc_image i = Ret n -> n < 2 ^ 32 ->
  exists bs, ssz_append enc_image i = Ret bs /\ zlen bs = n /\ Forall (is_u 8) bs /\
             from_ssz_bytes dec_image bs = Ret (Ok i).
Proof. intros Hi Hn Hlt. by apply (ck_rt _ _ _ image_codec). Qed.

(** ** Defects *)

(** A 40-byte header whose second offset points past the input: monotonic
    offsets starting at the end of the fixed region, as the decoder checks. *)
Definition bad_image_bytes : list Z :=
  replicate 8 0 ++ to_le_bytes 4 40 ++ concat (replicate 7 (to_le_bytes 4 0x1000)).

(** The image decoder panics on untrusted bytes: the end offset of a
    variable field is checked against the next offset but not against the
    input. *)
Theorem image_decode_panics : from_ssz_bytes dec_image bad_image_bytes = Abort.
Proof. vm_compute. reflexivity. Qed.

(** A data slot of two pages, the second one stored, behind a mapping of one
    page. *)
Definition short_mapping_image : Image :=
  mkImage (mkCodeRef 0 0) [] [mkMemoryMapping DATA_BASE CAP_PAGE_SIZE [[1]]] []
    [([1], mkDataDesc (2 * CAP_PAGE_SIZE) [mkArenaPageRef 1 0 1])] None [] [] [7].

(** Mapping bounds are not part of the deblob: an image whose mapping is
    shorter than its source is accepted, and building its instance memory
    trips the assertion of [put_page]. *)
Theorem image_cap_skips_mapping_bounds :
  (exists ic, image_cap short_mapping_image [] [] = Ok ic) /\
  instance_mem_backing short_mapping_image = Abort.
Proof. split; [eexists; by vm_compute|]. by vm_compute. Qed.
End DeblobClaims.

(** ** Instances *)

#[local] Existing Instance sum_digest.

(** Two slots that share a page, a pinned image and a code region. *)
Definition sample_builder : ImageBuilder :=
  builder_code
    (builder_mapping
       (initial_data (pinned_data (pinned_image builder_new [9] (replicate 32 1)) [1] [5; 0; 6] 100)
          [2] [5; 0; 6] 5000)
       (mkMemoryMapping DATA_BASE CAP_PAGE_SIZE [[1]]))
    [0x73; 0; 0; 0].

Lemma sample_pages c size b :
  (size = 100 \/ size = 5000) -> c = [5; 0; 6] -> content_pages c size b -> b = pad_page [5; 0; 6].
Proof.
  intros Hs -> (i & pb & H & ->). unfold slab_page in H.
  assert (slab_pages (slab_from_bytes_sized [5; 0; 6] size) = [PsLoaded (from_content [5; 0; 6])]) as E
    by (destruct Hs as [->| ->]; by vm_compute).
  rewrite E in H. destruct i; [|done]. by injection H as <-.
Qed.

Lemma sample_content size : size = 100 \/ size = 5000 -> content_ok [5; 0; 6] size.
Proof.
  intros Hs. split_and!; [repeat constructor; unfold is_u; lia|lia|]. destruct Hs as [->| ->]; by vm_compute.
Qed.

Lemma sample_builder_ok : builder_ok sample_builder /\ page_hash_inj (builder_pages sample_builder).
Proof.
  assert (forall b, builder_pages sample_builder b -> b = pad_page [5; 0; 6]) as Hp.
  { intros b [(k & c & size & Hin & Hb)|(k & c & size & Hin & Hb)]; cbn in Hin;
      destruct Hin as [Hin|Hin]; try done; try (destruct Hin; done); injection Hin as <- <- <- || idtac;
      eapply sample_pages; eauto. }
  split; [|by intros a b Ha%Hp Hb%Hp _; rewrite Ha, Hb]. split.
  - repeat constructor.
  - repeat constructor.
  - intros k c size [Hin|[Hin|[]]]; [injection Hin as <- <- <-; apply sample_content; by left|done].
  - intros k c size [Hin|[]]. injection Hin as <- <- <-. apply sample_content. by right.
  - by vm_compute.
Qed.

Lemma sample_built :
  im_initial_slots (build sample_builder) = [([2], mkDataDesc 8192 [mkArenaPageRef 0 0 3])] /\
  im_arena (build sample_builder) = [5; 0; 6; 0x73; 0; 0; 0].
Proof. by vm_compute. Qed.

Lemma build_lossless_witness :
  code_bytes (build sample_builder) = [0x73; 0; 0; 0] /\
  to_data_cap (mkDataDesc 8192 [mkArenaPageRef 0 0 3]) [5; 0; 6; 0x73; 0; 0; 0] =
  Ret (data_from_bytes_sized [5; 0; 6] 5000).
Proof.
  destruct (build_lossless sample_builder (proj1 sample_builder_ok) (proj2 sample_builder_ok)) as (Hc & _ & H).
  split; [exact Hc|]. specialize (H [2]). rewrite (proj1 sample_built), (proj2 sample_built) in H.
  exact (proj2 H).
Defined.

(** An image with every kind of field, in its wire form. *)
Definition sample_image : Image :=
  mkImage (mkCodeRef 3 4) [([0], mkWireEndpoint 0 2 1 [(1, 0x10002000)])]
    [mkMemoryMapping DATA_BASE CAP_PAGE_SIZE [[1]]]
    [([1], PinnedData (mkDataDesc 4096 [mkArenaPageRef 0 0 3])); ([9], PinnedImage (replicate 32 1))]
    [([2], mkDataDesc 8192 [mkArenaPageRef 0 0 3])] (Some [4]) [[5]] [[6]; []]
    [5; 0; 6; 0x73; 0; 0; 0].

Lemma sample_image_ok : image_ok sample_image.
Proof.
  assert (forall k, is_u 8 k -> key_ok [k]) as Hk by (intros k Hk; split; [constructor; [done|constructor]|by vm_compute]).
  assert (data_desc_ok (mkDataDesc 4096 [mkArenaPageRef 0 0 3]) /\
          data_desc_ok (mkDataDesc 8192 [mkArenaPageRef 0 0 3])) as [D1 D2]
    by (split; (split; [done|split; [constructor; [done|constructor]|done]])).
  split.
  - done.
  - split; [repeat constructor|]. constructor; [|constructor]. split; [by apply Hk|].
    do 3 (split; [done|]). split; [repeat constructor|]. constructor; [done|constructor].
  - split; [|done]. constructor; [|constructor]. split_and!; [done..|]. split; [|done].
    constructor; [by apply Hk|constructor].
  - split; [repeat constructor|]. constructor; [by split; [apply Hk|]|]. constructor; [|constructor].
    split; [by apply Hk|]. split; [done|]. by apply Forall_replicate.
  - split; [repeat constructor|]. constructor; [by split; [apply Hk|]|constructor].
  - intros k [= <-]. by apply Hk.
  - split; [|done]. constructor; [by apply Hk|constructor].
  - split; [|done]. constructor; [by apply Hk|]. constructor; [|constructor]. split; [constructor|done].
  - split; [|done]. repeat constructor; unfold is_u; lia.
Qed.

Lemma image_roundtrip_witness :
  exists bs, ssz_append enc_image sample_image = Ret bs /\ zlen bs = 253 /\
             from_ssz_bytes dec_image bs = Ret (Ok sample_image).
Proof.
  destruct (image_roundtrip sample_image 253 sample_image_ok) as (bs & ? & ? & _ & ?);
    [by vm_compute|lia|]. by exists bs.
Defined.

Lemma image_cap_sound_witness :
  exists c, instance_mem_backing sample_image = Ret c /\ data_ok c /\ content_len c = CAP_PAGE_SIZE.
Proof.
  destruct (image_cap sample_image [] []) as [ic|e] eqn:E; [|by vm_compute in E].
  destruct (image_cap_sound sample_image [] [] ic sample_image_ok E) as (_ & _ & _ & _ & H).
  destruct (instance_mem_backing sample_image) as [c|]; [|by vm_compute in H].
  exists c. split; [done|]. split; [apply H|]. destruct H as (_ & _ & ->). by vm_compute.
Defined.
