(* ===== verification/Cap.v ===== *)
(** Capabilities: the four cap kinds, cnodes, instances, content hashes and
    kernel handles. Sources: [src/rust/javm-cap/src/cap/mod.rs],
    [cap/cnode.rs], [cap/instance.rs], [kernel_image.rs], [yield_cap.rs],
    [hash.rs] and the slot reference of [cache.rs]. *)

From Stdlib Require Import ZArith Lia List Bool Strings.Ascii Strings.String.
From stdpp Require Import base list numbers tactics.
From S2P Require Import Prelude MachineInt OrdMap Program Merkle Ssz SszFacts SszContainer Radix CapData CapSlot CapImage.
Open Scope Z_scope.

(** [Hasher] (BLAKE2b-256): used for commitment keys and kernel image labels,
    apart from the Merkle digest. *)
Class KernelHash : Type := {
  khash : list Z -> list Z;
  khash_length : forall x, length (khash x) = 32%nat;
}.

(** ** Slot targets, cnodes and instances, over the owned payload [O] *)

Inductive CapHashOrRef (O : Type) : Type :=
| CHash (h : CapHash)
| COwned (o : O).
Arguments CHash {O} h. Arguments COwned {O} o.

(** [CNodeSlots] is a vector sorted by key; a binary search finds what the
    ordered map finds. *)
Definition CNodeCap (O : Type) : Type := OrdMap Key (MissingOr (CapHashOrRef O)).

Record InstanceCap (O : Type) : Type := mkInstanceCap {
  in_image_hash_chain : CapHash;
  in_image_hash : CapHash;
  in_root_cnode : CapHashOrRef O;
  in_mem : DataCap;
  in_regs : list Z;
  in_pc : Z;
  in_gas_remaining : Z;
}.
Arguments mkInstanceCap {O}. Arguments in_image_hash_chain {O}. Arguments in_image_hash {O}.
Arguments in_root_cnode {O}. Arguments in_mem {O}. Arguments in_regs {O}. Arguments in_pc {O}.
Arguments in_gas_remaining {O}.

Inductive Cap : Type :=
| Cap_Instance (i : InstanceCap Cap)
| Cap_Image (i : ImageCap)
| Cap_Data (d : DataCap)
| Cap_CNode (c : CNodeCap Cap).

(** ** Cnode operations *)

Section CNode.
  Context {O : Type}.

Definition cnode_new : CNodeCap O := [].

(** The materialised target of an entry. *)
Definition materialized (e : option (MissingOr (CapHashOrRef O))) : option (CapHashOrRef O) :=
  match e with Some (Materialized t) => Some t | _ => None end.

Definition peek_key (c : CNodeCap O) (k : Key) : option (CapHashOrRef O) := materialized (om_get k c).
Definition get_key (c : CNodeCap O) (k : Key) : option (CapHashOrRef O) := materialized (om_get k c).

Definition set_key (c : CNodeCap O) (k : Key) (target : option (CapHashOrRef O)) :
  CNodeCap O * option (CapHashOrRef O) :=
  let '(c', old) := match target with
                    | Some t => om_insert k (Materialized t) c
                    | None => om_remove k c
                    end in
  (c', materialized old).

Definition take_key (c : CNodeCap O) (k : Key) : CNodeCap O * option (CapHashOrRef O) := set_key c k None.

(** [set] and [take]: the same, with an error type that is never used. *)
Definition cnode_set (c : CNodeCap O) (k : Key) (target : option (CapHashOrRef O)) :
  Result (CNodeCap O * option (CapHashOrRef O)) CapError := Ok (set_key c k target).
Definition cnode_take (c : CNodeCap O) (k : Key) :
  Result (CNodeCap O * option (CapHashOrRef O)) CapError := cnode_set c k None.

(** ** Instances *)

Definition mem_size (i : InstanceCap O) : Z := wrap 32 (DATA_BASE + content_len (in_mem i)).
Definition instance_mem_extent (i : InstanceCap O) : Z := content_len (in_mem i).
Definition mem_pages (i : InstanceCap O) : Z := content_len (in_mem i) / CAP_PAGE_SIZE.
End CNode.

(** ** Content hashes *)

Section Hash.
  Context {D : Digest} {K : KernelHash}.

(** An inline cap has no hash: the graph must be settled first. *)
Definition htr_target {O : Type} : HashTreeRoot (CapHashOrRef O) := fun t =>
  match t with CHash h => Ret h | COwned _ => Abort end.

Definition commitment_key (k : Key) : list Z := khash k.

Definition htr_cnode {O : Type} : HashTreeRoot (CNodeCap O) := fun c =>
  let commitment :=
    fold_left (fun m kv => fst (radix_insert m (commitment_key (fst kv)) (snd kv))) c radix_new in
  let! r := htr_radix_map htr_target 32 commitment in
  Ret (merkleize [r] 1).

Definition htr_instance {O : Type} : HashTreeRoot (InstanceCap O) := fun i =>
  container_root [htr_array 32 (in_image_hash_chain i); htr_array 32 (in_image_hash i);
                  htr_target (in_root_cnode i); data_root (in_mem i); htr_words (Z.of_nat NUM_REGS) (in_regs i);
                  htr_uint 8 (in_pc i); htr_uint 8 (in_gas_remaining i)].

Definition htr_endpoint_def : HashTreeRoot EndpointDef := fun e =>
  container_root [htr_uint 8 (ep_entry_pc e); htr_uint 8 (ep_stack_top e); htr_key (ep_arg_cnode_slot e);
                  htr_uint 1 (ep_arg_cnode_size e); htr_words (Z.of_nat NUM_REGS) (ep_initial_regs e)].

Definition htr_slot_entry : HashTreeRoot ImageSlotEntry := fun s =>
  container_root [htr_key (se_slot s); htr_array 32 (se_cap_hash s)].

(** Elements of the lists of an image cap are never basic types; the list
    root hashes them one by one. *)
Definition htr_composite_vec {T : Type} (H : HashTreeRoot T) : HashTreeRoot (list T) := fun items =>
  let! roots := res_mapM H items in
  Ret (mix_in_length (merkleize roots (Z.max MAX_VEC_LEN 1)) (zlen items)).

Definition htr_image_cap : HashTreeRoot ImageCap := fun c =>
  container_root [htr_vec (enc_uint 1) (htr_uint 1) (ic_code c);
                  htr_composite_vec (htr_pair htr_key htr_endpoint_def) (ic_endpoints c);
                  htr_composite_vec htr_mapping (ic_mappings c);
                  htr_composite_vec htr_slot_entry (ic_pinned c);
                  htr_composite_vec htr_slot_entry (ic_initial c);
                  htr_option htr_key (ic_yield_receiver_slot c);
                  htr_composite_vec htr_key (ic_gas_slots c);
                  htr_composite_vec htr_key (ic_quota_slots c)].

Definition cap_hash (c : Cap) : Res CapHash :=
  match c with
  | Cap_Instance i => let! r := htr_instance i in Ret (mix_in_selector r 0)
  | Cap_Image i => let! r := htr_image_cap i in Ret (mix_in_selector r 1)
  | Cap_Data d => let! r := data_root d in Ret (mix_in_selector r 2)
  | Cap_CNode n => let! r := htr_cnode n in Ret (mix_in_selector r 3)
  end.
End Hash.

(** ** Kernel images *)

Inductive KernelImage : Type :=
| GasMeter | StorageQuota | Gas | Quota | YieldSender | YieldReceiver | File | HostOpen | HostSave.

#[export] Instance kernel_image_eq_dec : EqDecision KernelImage.
Proof. solve_decision. Defined.

Definition ALL_KERNEL_IMAGES : list KernelImage :=
  [GasMeter; StorageQuota; Gas; Quota; YieldSender; YieldReceiver; File; HostOpen; HostSave].

(** A Rust byte-string literal. *)
Fixpoint bytes_of (s : string) : list Z :=
  match s with EmptyString => [] | String a r => Z.of_nat (nat_of_ascii a) :: bytes_of r end.

Definition kernel_image_label (k : KernelImage) : list Z :=
  bytes_of match k with
  | GasMeter => "kernel:gasmeter"
  | StorageQuota => "kernel:storagequota"
  | Gas => "kernel:gas"
  | Quota => "kernel:quota"
  | YieldSender => "kernel:yieldsender"
  | YieldReceiver => "kernel:yieldreceiver"
  | File => "kernel:file"
  | HostOpen => "kernel:host_open"
  | HostSave => "kernel:host_save"
  end%string.

Section Kernel.
  Context {D : Digest} {K : KernelHash}.

Definition kernel_image_hash (k : KernelImage) : CapHash := khash (kernel_image_label k).

Definition recognize_kernel_image (h : CapHash) : option KernelImage :=
  List.find (fun k => bool_decide (kernel_image_hash k = h)) ALL_KERNEL_IMAGES.

(** ** Unit handles *)

Definition KERNEL_YIELD_NS : Z := 0xCE.
Definition YK_MINT_YIELD : Key := [KERNEL_YIELD_NS; 0x01].
Definition YK_MERGE_YIELD_RECEIVER : Key := [KERNEL_YIELD_NS; 0x02].
Definition YK_SET_GAS_METER : Key := [KERNEL_YIELD_NS; 0x03].
Definition YK_MINT_GAS : Key := [KERNEL_YIELD_NS; 0x04].
Definition YK_SET_STORAGE_QUOTA : Key := [KERNEL_YIELD_NS; 0x05].
Definition YK_MINT_QUOTA : Key := [KERNEL_YIELD_NS; 0x06].
Definition YK_OOG : Key := [KERNEL_YIELD_NS; 0x10].
Definition YK_STORAGE_EXHAUSTED : Key := [KERNEL_YIELD_NS; 0x11].
Definition YK_ATTEST : Key := [KERNEL_YIELD_NS; 0x20].

Definition is_kernel_yield_key (k : Key) : bool :=
  match k with b :: _ => b =? KERNEL_YIELD_NS | [] => false end.

Definition unit_handle {O : Type} (image : KernelImage) (key : Key) : Res (InstanceCap O) :=
  let! (packed, len) := key_to_regs key in
  Ret (mkInstanceCap (kernel_image_hash image) zero_chunk (CHash zero_chunk) data_empty
         (packed :: len :: replicate (NUM_REGS - 2) 0) 0 0).

Definition unit_handle_key {O : Type} (image : KernelImage) (inst : InstanceCap O) : option Key :=
  if bool_decide (recognize_kernel_image (in_image_hash_chain inst) = Some image)
  then Some (key_from_regs (default 0 (in_regs inst !! 0%nat)) (default 0 (in_regs inst !! 1%nat)))
  else None.

Definition yield_sender {O : Type} (k : Key) : Res (InstanceCap O) := unit_handle YieldSender k.
Definition yield_sender_key {O : Type} (i : InstanceCap O) : option Key := unit_handle_key YieldSender i.
Definition gas_handle {O : Type} (k : Key) : Res (InstanceCap O) := unit_handle Gas k.
Definition gas_meter_key {O : Type} (i : InstanceCap O) : option Key := unit_handle_key Gas i.
Definition quota_handle {O : Type} (k : Key) : Res (InstanceCap O) := unit_handle Quota k.
Definition quota_key {O : Type} (i : InstanceCap O) : option Key := unit_handle_key Quota i.

(** [sort] then [dedup] on keys. *)
Definition sorted_set (keys : list Key) : list Key :=
  map fst (om_of_list (map (fun k => (k, tt)) keys)).

(** The catch-set on the wire: a [u16] count, then length-prefixed keys. *)
Definition encode_catch_set (set : list Key) : list Z :=
  to_le_bytes 2 (wrap 16 (zlen set)) ++ concat (map (fun k => wrap 8 (zlen k) :: k) set).

Definition yield_receiver {O : Type} (keys : list Key) : InstanceCap O :=
  mkInstanceCap (kernel_image_hash YieldReceiver) zero_chunk (CHash zero_chunk)
    (data_from_bytes (encode_catch_set (sorted_set keys))) (replicate NUM_REGS 0) 0 0.

(** The read loop; it stops at the first key that does not fit. *)
Fixpoint decode_keys (n : nat) (buf : list Z) : list Key :=
  match n with
  | O => []
  | S n' =>
      match buf with
      | [] => []
      | klen :: r => if zlen r <? klen then [] else take (Z.to_nat klen) r :: decode_keys n' (drop (Z.to_nat klen) r)
      end
  end.

Definition yield_receiver_keys {O : Type} (inst : InstanceCap O) : Res (option (list Key)) :=
  if bool_decide (recognize_kernel_image (in_image_hash_chain inst) = Some YieldReceiver) then
    let len := content_len (in_mem inst) in
    if len <? 2 then Ret (Some []) else
    let! buf := copy_into (in_mem inst) 0 len in
    Ret (Some (decode_keys (Z.to_nat (from_le_bytes (take 2 buf))) (drop 2 buf)))
  else Ret None.

Definition merge_yield_receivers {O : Type} (a b : InstanceCap O) : Res (option (InstanceCap O)) :=
  let! ka := yield_receiver_keys a in
  match ka with
  | None => Ret None
  | Some ka =>
      let! kb := yield_receiver_keys b in
      Ret (match kb with None => None | Some kb => Some (yield_receiver (ka ++ kb)) end)
  end.
End Kernel.
