(* ===== verification/CapFacts.v ===== *)
(** Theorems about capabilities: cnodes are finite maps, kernel handles carry
    their keys, catch-sets survive their encoding.
 *)

From Stdlib Require Import ZArith Lia List Bool Sorted.
From stdpp Require Import base list numbers tactics.
From S2P Require Import Prelude MachineInt OrdMap Program Merkle Ssz SszFacts SszContainer Radix RadixFacts CapData CapSlot CapImage Cap.
Open Scope Z_scope.

(** ** Cnodes refine finite maps *)

Section CNodeMap.
  Context {O : Type}.

Inductive CNodeOp : Type :=
| NodeSet (k : Key) (t : CapHashOrRef O)
| NodeTake (k : Key).

Definition cnode_step (op : CNodeOp) (c : CNodeCap O) : CNodeCap O * option (CapHashOrRef O) :=
  match op with NodeSet k t => set_key c k (Some t) | NodeTake k => take_key c k end.

(** The abstract cnode: a function from keys to targets. *)
Definition amap : Type := Key -> option (CapHashOrRef O).
Definition amap_step (op : CNodeOp) (f : amap) : amap * option (CapHashOrRef O) :=
  match op with
  | NodeSet k t => (fun j => if decide (j = k) then Some t else f j, f k)
  | NodeTake k => (fun j => if decide (j = k) then None else f j, f k)
  end.

Fixpoint cnode_run (ops : list CNodeOp) (c : CNodeCap O) : CNodeCap O * list (option (CapHashOrRef O)) :=
  match ops with
  | [] => (c, [])
  | op :: r => let '(c', x) := cnode_step op c in let '(c'', xs) := cnode_run r c' in (c'', x :: xs)
  end.
Fixpoint amap_run (ops : list CNodeOp) (f : amap) : amap * list (option (CapHashOrRef O)) :=
  match ops with
  | [] => (f, [])
  | op :: r => let '(f', x) := amap_step op f in let '(f'', xs) := amap_run r f' in (f'', x :: xs)
  end.

Lemma cnode_step_refines op c f :
  om_ok c -> (forall k, peek_key c k = f k) ->
  om_ok (fst (cnode_step op c)) /\ snd (cnode_step op c) = snd (amap_step op f) /\
  forall k, peek_key (fst (cnode_step op c)) k = fst (amap_step op f) k.
Proof.
  intros Ho Hf. destruct op as [k t|k]; cbn [cnode_step amap_step fst snd]; unfold take_key, set_key.
  - pose proof (om_insert_ok k (Materialized t) c Ho) as H1. pose proof (om_insert_old k (Materialized t) c Ho) as H2.
    pose proof (fun j => om_get_insert k (Materialized t) c j Ho) as H3.
    destruct (om_insert k _ c) as [c' old]. cbn [fst snd] in *. subst old. split_and!; [done|apply Hf|].
    intros j. unfold peek_key. rewrite H3. case_decide; [done|apply Hf].
  - pose proof (om_remove_ok k c Ho) as H1. pose proof (om_remove_old k c) as H2.
    pose proof (fun j => om_get_remove k c j Ho) as H3.
    destruct (om_remove k c) as [c' old]. cbn [fst snd] in *. subst old. split_and!; [done|apply Hf|].
    intros j. unfold peek_key. rewrite H3. case_decide; [done|apply Hf].
Qed.

(** C23: a cnode refines a finite map. Any sequence of slot writes and takes
    returns the displaced targets the same sequence returns on a plain map
    from keys, leaves a sorted slot table, and every later lookup sees the
    map's contents. *)
Theorem cnode_refines_map ops (c : CNodeCap O) :
  om_ok c ->
  om_ok (fst (cnode_run ops c)) /\
  snd (cnode_run ops c) = snd (amap_run ops (peek_key c)) /\
  forall k, peek_key (fst (cnode_run ops c)) k = fst (amap_run ops (peek_key c)) k.
Proof.
  assert (forall f, om_ok c -> (forall k, peek_key c k = f k) ->
            om_ok (fst (cnode_run ops c)) /\ snd (cnode_run ops c) = snd (amap_run ops f) /\
            forall k, peek_key (fst (cnode_run ops c)) k = fst (amap_run ops f) k) as Hgen; [|auto].
  revert c. induction ops as [|op r IH]; intros c f Ho Hf; [done|]. cbn [cnode_run amap_run].
  destruct (cnode_step_refines op c f Ho Hf) as (H1 & H2 & H3).
  destruct (cnode_step op c) as [c' x], (amap_step op f) as [f' y]. cbn [fst snd] in *. subst y.
  specialize (IH c' f' H1 H3). destruct (cnode_run r c') as [c'' xs], (amap_run r f') as [f'' ys].
  cbn [fst snd] in *. destruct IH as (I1 & I2 & I3). split_and!; [done|congruence|done].
Qed.
End CNodeMap.

Lemma cnode_refines_map_witness :
  snd (cnode_run [NodeSet [1] (CHash []); NodeTake [1]; NodeTake [1]] ([] : CNodeCap Cap)) =
  [None; Some (CHash []); None].
Proof.
  rewrite (proj1 (proj2 (cnode_refines_map [NodeSet [1] (CHash []); NodeTake [1]; NodeTake [1]]
                           ([] : CNodeCap Cap) (om_ok_nil)))).
  reflexivity.
Defined.

(** ** Kernel handles *)

Section Handles.
  Context {D : Digest} {K : KernelHash}.

(** The labels of the nine kernel images hash apart, as the source's own test
    checks. *)
Definition labels_distinct : Prop :=
  forall a b, kernel_image_hash a = kernel_image_hash b -> a = b.

Lemma recognize_label k : labels_distinct -> recognize_kernel_image (kernel_image_hash k) = Some k.
Proof.
  intros Hd. unfold recognize_kernel_image.
  assert (In k ALL_KERNEL_IMAGES) as Hin by (destruct k; cbn; tauto).
  destruct (List.find _ ALL_KERNEL_IMAGES) as [k'|] eqn:E.
  - apply find_some in E as [_ E]. apply bool_decide_eq_true in E. f_equal. by apply Hd.
  - apply find_none with (x := k) in E; [|done]. by rewrite bool_decide_true in E.
Qed.

(** A unit handle names its key and nothing else. A gas, quota or
    yield-sender handle can be minted exactly for keys of at most eight bytes,
    reads back as that key under its own kind, and is refused under any other
    kind; so a quota handle can never be spent as gas. *)
Theorem unit_handle_roundtrip {O : Type} image image' (key : Key) :
  labels_distinct -> Forall (is_u 8) key ->
  match unit_handle (O := O) image key with
  | Ret inst => unit_handle_key image' inst = if decide (image' = image) then Some key else None
  | Abort => MAX_KEY_LEN < zlen key
  end.
Proof.
  intros Hd Hk. unfold unit_handle, key_to_regs.
  destruct (Z.leb_spec (zlen key) MAX_KEY_LEN) as [Hl|]; [|done]. cbn [res_bind].
  unfold unit_handle_key. cbn [in_image_hash_chain in_regs]. rewrite recognize_label by done.
  case_decide as E.
  - subst. rewrite bool_decide_true by done. f_equal. by apply key_pack.
  - by rewrite bool_decide_false by congruence.
Qed.
End Handles.

(** ** Catch-sets *)

Section CatchSet.
  Context {D : Digest} {K : KernelHash}.

(** Keys a catch-set can encode: at most 255 bytes each, fewer than 65536 of
    them. *)
Definition catchable (keys : list Key) : Prop :=
  Forall (fun k => Forall (is_u 8) k /\ zlen k < 256) keys /\ zlen (sorted_set keys) < 65536.

Lemma decode_keys_encoded set rest :
  Forall (fun k : Key => zlen k < 256) set ->
  decode_keys (length set) (concat (map (fun k => wrap 8 (zlen k) :: k) set) ++ rest) = set.
Proof.
  induction 1 as [|k set Hk _ IH]; [done|]. cbn [length decode_keys map concat app].
  pose proof (zlen_nonneg k). rewrite wrap_small by (unfold is_u; lia). rewrite <- app_assoc, zlen_app.
  set (tl := concat _ ++ rest) in *. pose proof (zlen_nonneg tl).
  destruct (Z.ltb_spec (zlen k + zlen tl) (zlen k)); [lia|]. unfold zlen. rewrite Nat2Z.id.
  rewrite take_app_length, drop_app_length. by rewrite IH.
Qed.

Lemma insert_In k j (m : OrdMap Key unit) :
  om_ok m -> In k (map fst (fst (om_insert j tt m))) <-> j = k \/ In k (map fst m).
Proof.
  intros Hm. rewrite <- !om_get_is_Some by (done || by apply om_insert_ok). rewrite om_get_insert by done.
  case_decide as E; [subst; split; [by left|by eexists]|]. split; [by right|]. by intros [|].
Qed.

Lemma sorted_set_In keys k : In k (sorted_set keys) <-> In k keys.
Proof.
  unfold sorted_set, om_of_list.
  assert (forall (l : list Key) (m : OrdMap Key unit), om_ok m ->
            (In k (map fst (fold_left (fun m kv => fst (om_insert (fst kv) (snd kv) m)) (map (fun k => (k, tt)) l) m)) <->
             In k l \/ In k (map fst m))) as Hgen.
  { intros l. induction l as [|j l IH]; intros m Hm; cbn [fold_left map fst snd]; [cbn; tauto|].
    rewrite IH by (by apply om_insert_ok). rewrite insert_In by done. cbn [In]. tauto. }
  rewrite Hgen by apply om_ok_nil. cbn. tauto.
Qed.

Lemma sorted_set_sorted keys : StronglySorted key_lt (sorted_set keys).
Proof. apply om_of_list_ok. Qed.

Lemma sorted_ext (l1 l2 : list Key) :
  StronglySorted key_lt l1 -> StronglySorted key_lt l2 -> (forall k, In k l1 <-> In k l2) -> l1 = l2.
Proof.
  intros H1 H2 Hin.
  assert (forall l : list Key, map fst (map (fun k => (k, tt)) l) = l) as Hm.
  { intros l. rewrite map_map. apply map_id. }
  rewrite <- (Hm l1), <- (Hm l2). f_equal. apply om_ext; unfold om_ok; rewrite ?Hm; try done.
  intros k. assert (is_Some (om_get k (map (fun k => (k, tt)) l1)) <-> is_Some (om_get k (map (fun k => (k, tt)) l2))) as Hs.
  { rewrite !om_get_is_Some by (unfold om_ok; by rewrite Hm). by rewrite !Hm. }
  destruct (om_get k (map _ l1)) as [[]|], (om_get k (map _ l2)) as [[]|]; [done| | |done]; exfalso.
  - by destruct (proj1 Hs (mk_is_Some _ _ eq_refl)).
  - by destruct (proj2 Hs (mk_is_Some _ _ eq_refl)).
Qed.

Lemma sorted_set_absorb ka kb : sorted_set (sorted_set ka ++ sorted_set kb) = sorted_set (ka ++ kb).
Proof.
  apply sorted_ext; [apply sorted_set_sorted..|]. intros k.
  by rewrite !sorted_set_In, !in_app_iff, !sorted_set_In.
Qed.

Lemma sorted_NoDup (l : list Key) : StronglySorted key_lt l -> List.NoDup l.
Proof.
  induction 1 as [|k l _ IH F]; constructor; [|done]. intros Hin.
  by apply (key_lt_irrefl k), (proj1 (List.Forall_forall _ _) F).
Qed.

Lemma catchable_sub ka keys : incl ka keys -> catchable keys -> catchable ka.
Proof.
  intros Hs [HF Hn]. split; [rewrite List.Forall_forall in *; auto|]. unfold zlen in *.
  assert (length (sorted_set ka) <= length (sorted_set keys))%nat; [|lia].
  apply NoDup_incl_length; [apply sorted_NoDup, sorted_set_sorted|].
  intros k. rewrite !sorted_set_In. apply Hs.
Qed.

Lemma encode_catch_set_bytes (set : list Key) :
  Forall (fun k : Key => Forall (is_u 8) k /\ zlen k < 256) set -> zlen set < 65536 ->
  Forall (is_u 8) (encode_catch_set set) /\ 2 <= zlen (encode_catch_set set) <= 2 + 256 * zlen set.
Proof.
  intros HF Hn. unfold encode_catch_set. rewrite zlen_app, zlen_le_bytes.
  assert (Forall (is_u 8) (concat (map (fun k => wrap 8 (zlen k) :: k) set)) /\
          zlen (concat (map (fun k => wrap 8 (zlen k) :: k) set)) <= 256 * zlen set) as [H1 H2].
  { clear Hn. induction HF as [|k set [Hk Hl] _ [IH1 IH2]]; [split; [constructor|done]|]. cbn [map concat].
    rewrite zlen_app, !zlen_cons. split; [|lia]. apply Forall_app. split; [|done].
    apply Forall_cons_iff. split; [apply wrap_range; lia|done]. }
  split; [apply Forall_app; split; [apply to_le_bytes_bytes|done]|].
  pose proof (zlen_nonneg (concat (map (fun k => wrap 8 (zlen k) :: k) set))). lia.
Qed.

Lemma receiver_keys {O : Type} keys :
  labels_distinct -> catchable keys ->
  yield_receiver_keys (yield_receiver (O := O) keys) = Ret (Some (sorted_set keys)).
Proof.
  intros Hd [HF Hn]. unfold yield_receiver_keys, yield_receiver. cbn [in_image_hash_chain in_mem].
  rewrite recognize_label, bool_decide_true by done.
  assert (Forall (fun k : Key => Forall (is_u 8) k /\ zlen k < 256) (sorted_set keys)) as HS.
  { rewrite List.Forall_forall in *. intros k. rewrite sorted_set_In. auto. }
  destruct (encode_catch_set_bytes _ HS Hn) as [Hb Hl].
  pose proof (fresh_reads _ (zlen (encode_catch_set (sorted_set keys))) Hb) as [Hle Hc]; [lia..|].
  fold (data_from_bytes (encode_catch_set (sorted_set keys))) in *. set (d := data_from_bytes _) in *.
  destruct (Z.ltb_spec (content_len d) 2); [lia|].
  rewrite Hc. cbn [res_bind]. do 2 f_equal. clearbody d. unfold encode_catch_set. rewrite <- !app_assoc.
  rewrite (take_app_length' _ _ 2), (drop_app_length' _ _ 2) by (by rewrite length_to_le_bytes).
  pose proof (zlen_nonneg (sorted_set keys)).
  rewrite from_to_le_bytes, !wrap_small by (unfold is_u; try apply wrap_range; lia).
  unfold zlen at 1. rewrite Nat2Z.id. apply decode_keys_encoded.
  revert HS. apply List.Forall_impl. by intros k [].
Qed.

(** C34: merging two yield receivers yields the receiver of the union of their
    catch-sets. Reading the merged handle back gives a strictly ascending list
    with exactly the keys of either operand, whenever the operands' keys fit
    the handle's wire form. *)
Theorem catch_set_union {O : Type} ka kb :
  labels_distinct -> catchable (ka ++ kb) ->
  exists r u, merge_yield_receivers (yield_receiver (O := O) ka) (yield_receiver kb) = Ret (Some r) /\
    yield_receiver_keys r = Ret (Some u) /\ StronglySorted key_lt u /\
    forall k, In k u <-> In k ka \/ In k kb.
Proof.
  intros Hd Hc. unfold merge_yield_receivers.
  rewrite !receiver_keys by (done || (eapply catchable_sub; [|exact Hc]; first [apply incl_appl, incl_refl|apply incl_appr, incl_refl])).
  cbn [res_bind]. do 2 eexists. split; [done|].
  rewrite receiver_keys; [|done|].
  - split; [done|]. rewrite sorted_set_absorb. split; [apply sorted_set_sorted|].
    intros k. by rewrite sorted_set_In, in_app_iff.
  - eapply catchable_sub; [|exact Hc]. intros k. by rewrite !in_app_iff, !sorted_set_In.
Qed.
End CatchSet.

(** ** A kernel hash that tells the labels apart *)

#[local] Existing Instance sum_digest.

Definition label_hash : KernelHash.
Proof.
  refine {| khash := fun bs => take 32 (bs ++ replicate 32 0) |}.
  intros bs. rewrite length_take, length_app, length_replicate. lia.
Defined.

#[local] Existing Instance label_hash.

Lemma label_hash_distinct : labels_distinct.
Proof. intros a b H. destruct a, b; try done; exfalso; revert H; by vm_compute. Qed.

Lemma unit_handle_roundtrip_witness :
  match unit_handle (O := Cap) Gas [7; 8] with
  | Ret inst => unit_handle_key Quota inst = None
  | Abort => False
  end.
Proof.
  assert (Forall (is_u 8) [7; 8]) as Hb by (repeat constructor; by vm_compute).
  pose proof (unit_handle_roundtrip (O := Cap) Gas Quota [7; 8] label_hash_distinct Hb) as H.
  destruct (unit_handle Gas [7; 8]) eqn:E; [exact H|]. revert H. by vm_compute.
Defined.

Lemma catch_set_union_witness :
  exists r u, merge_yield_receivers (yield_receiver (O := Cap) [[2]; [1]]) (yield_receiver [[2]]) = Ret (Some r) /\
    yield_receiver_keys r = Ret (Some u) /\ In [1] u.
Proof.
  destruct (catch_set_union (O := Cap) [[2]; [1]] [[2]]) as (r & u & H1 & H2 & _ & H3).
  - exact label_hash_distinct.
  - split; [|by vm_compute]. repeat constructor; by vm_compute.
  - exists r, u. split; [exact H1|]. split; [exact H2|]. apply H3. cbn. tauto.
Defined.
