(* ===== verification/Cache.v ===== *)
(** The two-tier cap store: content-addressed blobs, reference-counted
    instances, settling an inline cap graph into blobs and the sweep of dead
    instances. Source: [src/rust/javm-cap/src/cache.rs]. *)

From Stdlib Require Import ZArith Lia List Bool.
From stdpp Require Import base list numbers gmap fin_maps tactics.
From S2P Require Import Prelude MachineInt OrdMap Program Merkle Ssz SszFacts SszContainer Radix RadixFacts CapData CapSlot CapImage Cap.
Open Scope Z_scope.

(** ** [ResidentCap]: what a directory stores for a wire cap *)

Class ResidentCap (C : Type) : Type := {
  from_cap : Cap -> C;
  as_cap : C -> Cap;
  into_cap : C -> Cap;
  as_from_cap : forall c, as_cap (from_cap c) = c;
  into_from_cap : forall c, into_cap (from_cap c) = c;
}.

#[export] Instance resident_cap : ResidentCap Cap := {|
  from_cap := fun c => c; as_cap := fun c => c; into_cap := fun c => c;
  as_from_cap := fun _ => eq_refl; into_from_cap := fun _ => eq_refl;
|}.

Inductive CacheError : Type :=
| BlobMissing
| InstanceMissing (id : Z)
| ImageConvertFailed (e : ImageConvertError)
| PageSizeMismatch (expected got : Z)
| SlotOutOfRange.

(** ** The wire form of a slot target *)

(** The codec of [CapHashOrRef]: selector 0 and the hash. An inline cap has no
    wire form. *)
Definition enc_target {O : Type} : Encode (CapHashOrRef O) := {|
  is_ssz_fixed_len := false;
  ssz_fixed_len := BYTES_PER_LENGTH_OFFSET;
  is_basic_type := false;
  ssz_bytes_len := fun t => match t with CHash _ => Ret (1 + 32) | COwned _ => Abort end;
  ssz_append := fun t => match t with CHash h => Ret (0 :: h) | COwned _ => Abort end;
|}.

Definition dec_target {O : Type} : Decode (CapHashOrRef O) := {|
  dec_is_fixed := false;
  dec_fixed_len := BYTES_PER_LENGTH_OFFSET;
  from_ssz_bytes := fun bytes =>
    match bytes with
    | [] => Ret (Err (UnexpectedEof 1 0))
    | v :: h =>
        if v =? 0 then
          if zlen bytes =? 1 + 32 then Ret (Ok (CHash h)) else Ret (Err (UnexpectedEof (1 + 32) (zlen bytes)))
        else Ret (Err (InvalidSelector v))
    end;
|}.

(** ** The directory *)

Section Directory.
  Context {D : Digest} {K : KernelHash} {C : Type} {R : ResidentCap C}.

(** [holders] counts, per id, the live [CapRef]s outside the directory; the
    entry of [instances] holds one more. *)
Record Directory : Type := mkDirectory {
  blobs : gmap (list Z) C;
  instances : gmap Z C;
  holders : gmap Z nat;
  next_ref : Z;
}.

Definition with_hasher : Directory := mkDirectory ∅ ∅ ∅ 1.

Definition blob_count (d : Directory) : nat := size (blobs d).
Definition instance_count (d : Directory) : nat := size (instances d).
Definition contains_blob (d : Directory) (h : CapHash) : bool := bool_decide (is_Some (blobs d !! h)).
Definition get_blob (d : Directory) (h : CapHash) : option C := blobs d !! h.
Definition get_instance (d : Directory) (id : Z) : option C := instances d !! id.
Definition get (d : Directory) (key : CapHashOrRef Cap) : option C :=
  match key with CHash h => get_blob d h | COwned _ => None end.

Definition held (d : Directory) (id : Z) : nat := default 0%nat (holders d !! id).

(** [CapRef::strong_count] of the handle an entry stores. *)
Definition strong_count (d : Directory) (id : Z) : nat :=
  (held d id + if bool_decide (is_Some (instances d !! id)) then 1 else 0)%nat.

(** [Clone] and [Drop] of a [CapRef] held outside the directory. *)
Definition clone_ref (d : Directory) (id : Z) : Directory :=
  mkDirectory (blobs d) (instances d) (<[id := S (held d id)]> (holders d)) (next_ref d).
Definition drop_ref (d : Directory) (id : Z) : Directory :=
  mkDirectory (blobs d) (instances d) (<[id := pred (held d id)]> (holders d)) (next_ref d).

Definition set_instance (d : Directory) (id : Z) (new_arc : C) : Result Directory CacheError :=
  match instances d !! id with
  | Some _ => Ok (mkDirectory (blobs d) (<[id := new_arc]> (instances d)) (holders d) (next_ref d))
  | None => Err (InstanceMissing id)
  end.

(** The first cap published under a hash stays. *)
Definition put_cap_with_hash (d : Directory) (h : CapHash) (cap : Cap) : Directory :=
  match blobs d !! h with
  | Some _ => d
  | None => mkDirectory (<[h := from_cap cap]> (blobs d)) (instances d) (holders d) (next_ref d)
  end.

Definition put_cap (d : Directory) (cap : Cap) : Res (CapHash * Directory) :=
  let! h := cap_hash cap in Ret (h, put_cap_with_hash d h cap).

(** The new handle is returned to the caller, who becomes its one holder. *)
Definition put_instance_arc (d : Directory) (arc : C) : Res (Z * Directory) :=
  let id := next_ref d in
  if id + 1 <? 2 ^ 64 then
    Ret (id, mkDirectory (blobs d) (<[id := arc]> (instances d)) (<[id := 1%nat]> (holders d)) (id + 1))
  else Abort.

Definition put_instance (d : Directory) (cap : Cap) : Res (Z * Directory) := put_instance_arc d (from_cap cap).

Definition promote_blob_to_instance (d : Directory) (h : CapHash) : Res (option (Z * Directory)) :=
  match get_blob d h with
  | None => Ret None
  | Some arc => let! r := put_instance_arc d arc in Ret (Some r)
  end.

(** One pass collects the dead ids, then removes them; passes repeat until one
    finds nothing. *)
Definition dead_ids (d : Directory) : list Z :=
  List.filter (fun id => (strong_count d id =? 1)%nat) (map fst (map_to_list (instances d))).

Definition remove_instance (d : Directory) (id : Z) : Directory :=
  mkDirectory (blobs d) (base.delete id (instances d)) (holders d) (next_ref d).

Fixpoint sweep_loop (fuel : nat) (d : Directory) : option Directory :=
  match fuel with
  | O => None
  | S n =>
      match dead_ids d with
      | [] => Some d
      | dead => sweep_loop n (fold_left remove_instance dead d)
      end
  end.

Definition sweep_instances (d : Directory) : option Directory := sweep_loop (S (S (instance_count d))) d.

(** ** Settling *)

Section Targets.
  Variable settle_owned : Cap -> Directory -> Res (CapHash * Directory).

Definition settle_target (t : CapHashOrRef Cap) (d : Directory) : Res (CapHashOrRef Cap * Directory) :=
  match t with
  | CHash h => Ret (CHash h, d)
  | COwned b => let! (h, d') := settle_owned b d in Ret (CHash h, d')
  end.

Definition settle_entry (mo : MissingOr (CapHashOrRef Cap)) (d : Directory) :
  Res (MissingOr (CapHashOrRef Cap) * Directory) :=
  match mo with
  | Materialized t => let! (t', d') := settle_target t d in Ret (Materialized t', d')
  | Missing h => Ret (Missing h, d)
  end.

Fixpoint settle_slots (slots : CNodeCap Cap) (d : Directory) : Res (CNodeCap Cap * Directory) :=
  match slots with
  | [] => Ret ([], d)
  | (k, mo) :: r =>
      let! (mo', d1) := settle_entry mo d in
      let! (r', d2) := settle_slots r d1 in
      Ret ((k, mo') :: r', d2)
  end.

Definition set_root (i : InstanceCap Cap) (t : CapHashOrRef Cap) : InstanceCap Cap :=
  mkInstanceCap (in_image_hash_chain i) (in_image_hash i) t (in_mem i) (in_regs i) (in_pc i) (in_gas_remaining i).

Definition settle_targets_in (c : Cap) (d : Directory) : Res (Cap * Directory) :=
  match c with
  | Cap_CNode cn => let! (cn', d') := settle_slots cn d in Ret (Cap_CNode cn', d')
  | Cap_Instance i => let! (t, d') := settle_target (in_root_cnode i) d in Ret (Cap_Instance (set_root i t), d')
  | Cap_Data x => Ret (Cap_Data x, d)
  | Cap_Image x => Ret (Cap_Image x, d)
  end.
End Targets.

(** Only a data cap's overlay is folded before hashing. *)
Definition fold_dirty_data (c : Cap) : Res Cap :=
  match c with
  | Cap_Data x => match dc_overlay x with [] => Ret c | _ => let! y := flush x in Ret (Cap_Data y) end
  | _ => Ret c
  end.

Fixpoint settle_owned (cap : Cap) (d : Directory) : Res (CapHash * Directory) :=
  let! (cap1, d1) := settle_targets_in settle_owned cap d in
  let! cap2 := fold_dirty_data cap1 in
  let! h := cap_hash cap2 in
  Ret (h, put_cap_with_hash d1 h cap2).

Definition settle (key : CapHashOrRef Cap) (d : Directory) : Res (CapHash * Directory) :=
  match key with CHash h => Ret (h, d) | COwned b => settle_owned b d end.
End Directory.
Arguments Directory : clear implicits.
