(* ===== verification/CacheFacts.v ===== *)
(** Theorems about the cap store: the blob tier stays content-addressed,
    settling publishes the whole inline graph, and no live handle dangles. *)

From Stdlib Require Import ZArith Lia List Bool.
From stdpp Require Import base list numbers gmap fin_maps tactics.
From S2P Require Import Prelude MachineInt OrdMap Program Merkle Ssz SszFacts SszContainer Radix RadixFacts CapData CapSlot CapImage Cap Cache.
Open Scope Z_scope.

(** ** The wire form of a slot target *)

Lemma target_codec {O : Type} :
  codec_ok (fun t : CapHashOrRef O => match t with CHash h => length h = 32%nat /\ Forall (is_u 8) h | COwned _ => False end)
    enc_target dec_target.
Proof.
  split; [done..| |].
  - intros [h|]; [|done]. intros _. exists 33. by cbn.
  - intros [h|] n; [|done]. intros [Hl Hb] [= <-] _. exists (0 :: h). cbn [ssz_append enc_target from_ssz_bytes dec_target].
    rewrite zlen_cons. unfold zlen. rewrite Hl. cbn. split_and!; [done..| |done].
    apply Forall_cons_iff. split; [by vm_compute|done].
Qed.

(** ** Induction over cap graphs *)

Definition target_all (P : Cap -> Prop) (t : CapHashOrRef Cap) : Prop :=
  match t with CHash _ => True | COwned o => P o end.
Definition entry_all (P : Cap -> Prop) (mo : MissingOr (CapHashOrRef Cap)) : Prop :=
  match mo with Materialized t => target_all P t | Missing _ => True end.

Section CapInd.
  Variable P : Cap -> Prop.
  Hypothesis Hi : forall i, target_all P (in_root_cnode i) -> P (Cap_Instance i).
  Hypothesis Himg : forall i, P (Cap_Image i).
  Hypothesis Hd : forall d, P (Cap_Data d).
  Hypothesis Hc : forall cn : CNodeCap Cap, Forall (fun e => entry_all P (snd e)) cn -> P (Cap_CNode cn).

Fixpoint Cap_graph_ind (c : Cap) : P c :=
  let target (t : CapHashOrRef Cap) : target_all P t :=
    match t with CHash _ => I | COwned o => Cap_graph_ind o end in
  match c with
  | Cap_Instance i => Hi i (target (in_root_cnode i))
  | Cap_Image i => Himg i
  | Cap_Data d => Hd d
  | Cap_CNode cn =>
      Hc cn ((fix go (l : list (Key * MissingOr (CapHashOrRef Cap))) : Forall (fun e => entry_all P (snd e)) l :=
                match l with
                | [] => List.Forall_nil _
                | (k, mo) :: r =>
                    @List.Forall_cons _ (fun e => entry_all P (snd e)) (k, mo) r (match mo as m return entry_all P m with
                                              | Materialized t => target t
                                              | Missing _ => I
                                              end) (go r)
                end) cn)
  end.
End CapInd.

(** ** Hashing succeeds *)

Section Hashing.
  Context {D : Digest} {K : KernelHash}.

Definition returns {A : Type} (r : Res A) : Prop := exists x, r = Ret x.

Lemma returns_bind {A B : Type} (r : Res A) (f : A -> Res B) :
  returns r -> (forall x, r = Ret x -> returns (f x)) -> returns (res_bind r f).
Proof. intros [x ->] H. by apply H. Qed.

Lemma returns_mapM {A B : Type} (f : A -> Res B) l : Forall (fun a => returns (f a)) l -> returns (res_mapM f l).
Proof.
  induction 1 as [|a l [b Hb] _ [bs IH]]; cbn [res_mapM]; [by eexists|]. rewrite Hb. cbn [res_bind].
  rewrite IH. by eexists.
Qed.

Lemma container_root_returns roots : Forall returns roots -> returns (container_root roots).
Proof.
  intros H. unfold container_root. destruct roots; [by eexists|].
  apply returns_bind; [|intros; by eexists]. by apply (returns_mapM (fun r => r)).
Qed.

Lemma radix_node_returns {V : Type} (H : HashTreeRoot V) n d s :
  Forall (fun e => returns (htr_missing_or H (snd e))) s -> returns (radix_node H n d s).
Proof.
  revert d s. induction n as [|n IH]; intros d s HF; (destruct s as [|[k v] [|e s]]; cbn [radix_node]; [by eexists| |]).
  1-3: apply Forall_cons_iff in HF as [[r Hr] _]; cbn [snd] in Hr; rewrite Hr; by eexists.
  set (mid := partition_point _ _).
  apply returns_bind; [apply IH, Forall_take, HF|]. intros. apply returns_bind; [apply IH, Forall_drop, HF|].
  intros. by eexists.
Qed.

Lemma htr_basic_vec_returns (v : list Z) n m : returns (htr_vec (enc_uint n) (htr_uint m) v).
Proof.
  unfold htr_vec, htr_list, items_root. cbn [is_basic_type enc_uint].
  apply returns_bind; [|intros; by eexists]. apply returns_bind; [|intros; by eexists].
  apply returns_mapM, List.Forall_forall. intros x _. by eexists.
Qed.

Lemma htr_composite_vec_returns {T : Type} (H : HashTreeRoot T) l :
  (forall x, returns (H x)) -> returns (htr_composite_vec H l).
Proof.
  intros Hx. apply returns_bind; [|intros; by eexists]. by apply returns_mapM, List.Forall_forall.
Qed.

Lemma htr_vec_returns {T : Type} (E : Encode T) (H : HashTreeRoot T) l :
  is_basic_type E = false -> (forall x, returns (H x)) -> returns (htr_vec E H l).
Proof.
  intros Hb Hx. unfold htr_vec, htr_list, items_root. rewrite Hb.
  apply returns_bind; [|intros; by eexists]. apply returns_bind; [|intros; by eexists].
  by apply returns_mapM, List.Forall_forall.
Qed.

Lemma htr_image_cap_returns c : returns (htr_image_cap c).
Proof.
  assert (forall k, returns (htr_key k)) as Hk by (intros; apply htr_basic_vec_returns).
  assert (forall s, returns (htr_slot_entry s)) as Hs.
  { intros. apply container_root_returns. repeat constructor; [apply Hk|by eexists]. }
  unfold htr_image_cap. apply container_root_returns. repeat apply List.Forall_cons; try apply List.Forall_nil.
  - apply htr_basic_vec_returns.
  - apply htr_composite_vec_returns. intros [k e]. apply returns_bind; [apply Hk|]. intros.
    apply returns_bind; [|intros; by eexists]. apply container_root_returns.
    repeat apply List.Forall_cons; try apply List.Forall_nil; first [apply Hk|by eexists].
  - apply htr_composite_vec_returns. intros m. apply container_root_returns.
    repeat apply List.Forall_cons; try apply List.Forall_nil; try (by eexists). by apply htr_vec_returns.
  - by apply htr_composite_vec_returns.
  - by apply htr_composite_vec_returns.
  - unfold htr_option. destruct (ic_yield_receiver_slot c); [|by eexists].
    apply returns_bind; [apply Hk|]. intros. by eexists.
  - by apply htr_composite_vec_returns.
  - by apply htr_composite_vec_returns.
Qed.

(** Hashing fails on exactly the direct inline targets and the unflushed
    pages. *)
Definition target_hashed (t : CapHashOrRef Cap) : Prop := match t with CHash _ => True | COwned _ => False end.
Definition entry_hashed (mo : MissingOr (CapHashOrRef Cap)) : Prop :=
  match mo with Materialized t => target_hashed t | Missing _ => True end.

Definition hashable (c : Cap) : Prop :=
  match c with
  | Cap_Instance i => target_hashed (in_root_cnode i) /\ dc_overlay (in_mem i) = []
  | Cap_Image _ => True
  | Cap_Data d => dc_overlay d = []
  | Cap_CNode cn => Forall (fun e => entry_hashed (snd e)) cn
  end.

Lemma entry_hashed_returns mo : entry_hashed mo -> returns (htr_missing_or htr_target mo).
Proof. destruct mo as [[h|o]|h]; [by eexists|done|by eexists]. Qed.

Lemma commitment_hashed (cn : CNodeCap Cap) (m : RadixMap) :
  Forall (fun e => entry_hashed (snd e)) cn -> Forall (fun e => entry_hashed (snd e)) m ->
  Forall (fun e => entry_hashed (snd e))
    (fold_left (fun m kv => fst (radix_insert m (commitment_key (fst kv)) (snd kv))) cn m).
Proof.
  intros HF. revert m. induction HF as [|e cn He _ IH]; intros m Hm; [done|]. cbn [fold_left].
  apply IH. by apply om_insert_Forall.
Qed.

Lemma cap_hash_returns c : hashable c -> returns (cap_hash c).
Proof.
  assert (forall d, dc_overlay d = [] -> returns (data_root d)) as Hdata.
  { intros d Hd. unfold data_root. rewrite Hd. by eexists. }
  destruct c as [i|i|d|cn]; cbn [hashable cap_hash]; intros H; (apply returns_bind; [|intros; by eexists]).
  - destruct H as [Ht Hm]. apply container_root_returns.
    repeat apply List.Forall_cons; try apply List.Forall_nil; try (by eexists); [|by apply Hdata].
    destruct (in_root_cnode i); [by eexists|done].
  - apply htr_image_cap_returns.
  - by apply Hdata.
  - apply returns_bind; [|intros; by eexists]. apply radix_node_returns.
    eapply List.Forall_impl; [intros e; apply entry_hashed_returns|]. apply commitment_hashed; [done|constructor].
Qed.
End Hashing.

(** ** The blob tier *)

Section Settle.
  Context {D : Digest} {K : KernelHash} {C : Type} {R : ResidentCap C}.

(** Every blob lies under its own content hash. *)
Definition blobs_ok (b : gmap (list Z) C) : Prop :=
  forall h r, b !! h = Some r -> cap_hash (as_cap r) = Ret h.

(** [d'] is [d] with more blobs. *)
Definition published (d d' : Directory C) : Prop :=
  (blobs_ok (blobs d) -> blobs_ok (blobs d')) /\ blobs d ⊆ blobs d' /\
  instances d' = instances d /\ holders d' = holders d /\ next_ref d' = next_ref d.

Lemma published_refl d : published d d.
Proof. by unfold published. Qed.

Lemma published_trans d1 d2 d3 : published d1 d2 -> published d2 d3 -> published d1 d3.
Proof.
  intros (A1 & A2 & A3 & A4 & A5) (B1 & B2 & B3 & B4 & B5). split; [by auto|].
  split; [by etrans|]. split_and!; congruence.
Qed.

(** [c] was published under [h]. *)
Definition resident (b : gmap (list Z) C) (c : Cap) (h : CapHash) : Prop :=
  cap_hash c = Ret h /\ exists r, b !! h = Some r /\ cap_hash (as_cap r) = Ret h.

Lemma resident_mono b b' c h : b ⊆ b' -> resident b c h -> resident b' c h.
Proof. intros Hs (Hh & r & Hr & Hc). split; [done|]. exists r. split; [|done]. by eapply lookup_weaken. Qed.

Lemma put_published d c h :
  cap_hash c = Ret h ->
  published d (put_cap_with_hash d h c) /\
  (blobs_ok (blobs d) -> resident (blobs (put_cap_with_hash d h c)) c h).
Proof.
  intros Hh. unfold put_cap_with_hash. destruct (blobs d !! h) as [r|] eqn:E.
  - split; [apply published_refl|]. intros Hok. split; [done|]. exists r. auto.
  - split.
    + split; [|split; [by apply insert_subseteq|done]].
      intros Hok h' r. cbn [blobs]. rewrite lookup_insert_Some. intros [[<- <-]|[_ Hr]]; [by rewrite as_from_cap|auto].
    + intros _. split; [done|]. exists (from_cap c). cbn [blobs]. rewrite lookup_insert_eq, as_from_cap. done.
Qed.

(** ** Settled graphs *)

Section Stored.
  Variable st : Cap -> CapHash -> Prop.

Definition stored_target (t : CapHashOrRef Cap) (hr : CapHash) : Prop :=
  match t with CHash h => hr = h | COwned o => st o hr end.

Definition stored_entry (mo mo' : MissingOr (CapHashOrRef Cap)) : Prop :=
  match mo, mo' with
  | Materialized t, Materialized (CHash hr) => stored_target t hr
  | Missing h, Missing h' => h' = h
  | _, _ => False
  end.

Fixpoint stored_slots (l l' : CNodeCap Cap) : Prop :=
  match l, l' with
  | [], [] => True
  | (k, mo) :: r, (k', mo') :: r' => k' = k /\ stored_entry mo mo' /\ stored_slots r r'
  | _, _ => False
  end.
End Stored.

(** The whole graph of [c] is in the blob tier, its root under [h]: each inline
    target is replaced by the hash its own graph is stored under, data is
    flushed, and everything else is kept. *)
Fixpoint stored (b : gmap (list Z) C) (c : Cap) (h : CapHash) : Prop :=
  match c with
  | Cap_Instance i =>
      exists hr, stored_target (stored b) (in_root_cnode i) hr /\ resident b (Cap_Instance (set_root i (CHash hr))) h
  | Cap_Image i => resident b (Cap_Image i) h
  | Cap_Data d => exists d', flush d = Ret d' /\ resident b (Cap_Data d') h
  | Cap_CNode cn => exists cn', stored_slots (stored b) cn cn' /\ resident b (Cap_CNode cn') h
  end.

(** What settling needs: instances with flushed memory, data that can be
    flushed. *)
Definition settleable_target (f : Cap -> bool) (t : CapHashOrRef Cap) : bool :=
  match t with CHash _ => true | COwned o => f o end.
Definition settleable_entry (f : Cap -> bool) (mo : MissingOr (CapHashOrRef Cap)) : bool :=
  match mo with Materialized t => settleable_target f t | Missing _ => true end.

Fixpoint settleable (c : Cap) : bool :=
  match c with
  | Cap_Instance i =>
      settleable_target settleable (in_root_cnode i) && match dc_overlay (in_mem i) with [] => true | _ => false end
  | Cap_Image _ => true
  | Cap_Data d => match flush d with Ret _ => true | Abort => false end
  | Cap_CNode cn => forallb (fun e => settleable_entry settleable (snd e)) cn
  end.

Definition settles (c : Cap) : Prop := forall d,
  settleable c = true ->
  exists h d', settle_owned c d = Ret (h, d') /\ published d d' /\
    (blobs_ok (blobs d) -> stored (blobs d') c h).

Lemma stored_target_mono (s s' : Cap -> CapHash -> Prop) t h :
  target_all (fun c => forall h, s c h -> s' c h) t -> stored_target s t h -> stored_target s' t h.
Proof. destruct t; cbn; auto. Qed.

Lemma stored_slots_mono (s s' : Cap -> CapHash -> Prop) l l' :
  Forall (fun e => entry_all (fun c => forall h, s c h -> s' c h) (snd e)) l ->
  stored_slots s l l' -> stored_slots s' l l'.
Proof.
  intros HF. revert l'. induction HF as [|[k mo] l He _ IH]; intros [|[k' mo'] l']; cbn; [done..|].
  intros (-> & H1 & H2). split_and!; [done| |auto].
  destruct mo as [t|]; [|done]. destruct mo' as [[hr|]|]; [|done..]. cbn in *. by eapply stored_target_mono.
Qed.

Lemma stored_mono b b' c : b ⊆ b' -> forall h, stored b c h -> stored b' c h.
Proof.
  intros Hs. induction c as [i Hi|i|d|cn Hcn] using Cap_graph_ind; intros h; cbn [stored].
  - intros (hr & H1 & H2). exists hr. split; [by eapply stored_target_mono|by eapply resident_mono].
  - by apply resident_mono.
  - intros (d' & H1 & H2). exists d'. split; [done|by eapply resident_mono].
  - intros (cn' & H1 & H2). exists cn'. split; [by eapply stored_slots_mono|by eapply resident_mono].
Qed.

(** ** Settling publishes the graph *)

Lemma settle_owned_eq c (d : Directory C) :
  settle_owned c d =
  (let! (cap1, d1) := settle_targets_in settle_owned c d in
   let! cap2 := fold_dirty_data cap1 in
   let! h := cap_hash cap2 in
   Ret (h, put_cap_with_hash d1 h cap2)).
Proof. by destruct c. Qed.

(** Once the targets are settled, a hashable cap is published. *)
Lemma publish_rest c cap1 cap2 d d1 :
  settle_targets_in settle_owned c d = Ret (cap1, d1) -> fold_dirty_data cap1 = Ret cap2 -> hashable cap2 ->
  published d d1 ->
  exists h d', settle_owned c d = Ret (h, d') /\ published d d' /\ blobs d1 ⊆ blobs d' /\
    (blobs_ok (blobs d) -> resident (blobs d') cap2 h).
Proof.
  intros E1 E2 Hh Hp. destruct (cap_hash_returns cap2 Hh) as [h Ec].
  rewrite settle_owned_eq, E1. cbn [res_bind]. rewrite E2. cbn [res_bind]. rewrite Ec. cbn [res_bind].
  destruct (put_published d1 cap2 h Ec) as [Hp' Hr]. do 2 eexists. split; [done|].
  split; [by eapply published_trans|]. split; [apply Hp'|]. intros Hok. by apply Hr, Hp.
Qed.

Lemma settle_target_ok t d :
  target_all settles t -> settleable_target settleable t = true ->
  exists hr d', settle_target settle_owned t d = Ret (CHash hr, d') /\ published d d' /\
    (blobs_ok (blobs d) -> stored_target (stored (blobs d')) t hr).
Proof.
  destruct t as [h|o]; cbn [target_all settleable_target settle_target stored_target].
  - intros _ _. exists h, d. split; [done|]. split; [apply published_refl|done].
  - intros IH Hs. destruct (IH d Hs) as (h & d' & -> & Hp & Hst). by exists h, d'.
Qed.

Lemma stored_target_published t hr d d' :
  published d d' -> stored_target (stored (blobs d)) t hr -> stored_target (stored (blobs d')) t hr.
Proof.
  intros Hp. apply stored_target_mono. destruct t; [done|]. cbn. intros. eapply stored_mono; [apply Hp|done].
Qed.

Lemma settle_slots_ok cn d :
  Forall (fun e => entry_all settles (snd e)) cn ->
  forallb (fun e => settleable_entry settleable (snd e)) cn = true ->
  exists cn' d', settle_slots settle_owned cn d = Ret (cn', d') /\ published d d' /\
    Forall (fun e => entry_hashed (snd e)) cn' /\
    (blobs_ok (blobs d) -> stored_slots (stored (blobs d')) cn cn').
Proof.
  intros HF. revert d. induction HF as [|[k mo] cn He _ IH]; intros d Hs.
  { exists [], d. split; [done|]. split; [apply published_refl|]. split; [constructor|done]. }
  cbn [forallb snd] in Hs. apply andb_true_iff in Hs as [Hs1 Hs2]. cbn [snd] in He. cbn [settle_slots].
  assert (exists mo' d1, settle_entry settle_owned mo d = Ret (mo', d1) /\ published d d1 /\ entry_hashed mo' /\
            (blobs_ok (blobs d) -> stored_entry (stored (blobs d1)) mo mo')) as (mo' & d1 & -> & Hp1 & Hh & Hst).
  { destruct mo as [t|h]; cbn [settle_entry].
    - destruct (settle_target_ok t d He Hs1) as (hr & d1 & -> & Hp1 & Hst). by exists (Materialized (CHash hr)), d1.
    - exists (Missing h), d. split; [done|]. split; [apply published_refl|done]. }
  cbn [res_bind]. destruct (IH d1 Hs2) as (cn' & d2 & -> & Hp2 & Hh2 & Hst2). cbn [res_bind].
  do 2 eexists. split; [done|]. split; [by eapply published_trans|]. split; [by constructor|].
  intros Hok. cbn [stored_slots]. split; [done|]. split; [|by apply Hst2, Hp1].
  specialize (Hst Hok). destruct mo as [t|], mo' as [[hr|]|]; cbn [stored_entry] in *; try done.
  by eapply stored_target_published.
Qed.

Lemma settle_owned_ok c : settles c.
Proof.
  induction c as [i Hi|i|x|cn Hcn] using Cap_graph_ind; intros d; cbn [settleable]; intros Hs.
  - apply andb_true_iff in Hs as [Hs Hm]. destruct (settle_target_ok _ d Hi Hs) as (hr & d1 & E & Hp & Hst).
    destruct (publish_rest (Cap_Instance i) (Cap_Instance (set_root i (CHash hr)))
                (Cap_Instance (set_root i (CHash hr))) d d1) as (h & d' & E' & Hp' & Hsub & Hr); [|done| |done|].
    + cbn [settle_targets_in]. by rewrite E.
    + split; [done|]. cbn. by destruct (dc_overlay (in_mem i)).
    + exists h, d'. split_and!; [done..|]. intros Hok. exists hr. split; [|auto].
      eapply stored_target_mono; [|by apply Hst]. destruct (in_root_cnode i); [done|]. cbn. by intros; eapply stored_mono.
  - destruct (publish_rest (Cap_Image i) (Cap_Image i) (Cap_Image i) d d) as (h & d' & E' & Hp' & _ & Hr);
      [done..|apply published_refl|]. by exists h, d'.
  - destruct (flush x) as [y|] eqn:Ef; [|done].
    assert (dc_overlay y = []) as Hy.
    { unfold flush in Ef. destruct (dc_overlay x) eqn:Eo; [congruence|].
      destruct (fold_overlay _ _); cbn in Ef; [|done]. by injection Ef as <-. }
    destruct (publish_rest (Cap_Data x) (Cap_Data x) (Cap_Data y) d d) as (h & d' & E' & Hp' & _ & Hr);
      [done| |done|apply published_refl|].
    + unfold fold_dirty_data. unfold flush in *. destruct (dc_overlay x); [congruence|]. by rewrite Ef.
    + exists h, d'. split_and!; [done..|]. intros Hok. exists y. auto.
  - destruct (settle_slots_ok cn d Hcn Hs) as (cn' & d1 & E & Hp & Hh & Hst).
    destruct (publish_rest (Cap_CNode cn) (Cap_CNode cn') (Cap_CNode cn') d d1) as (h & d' & E' & Hp' & Hsub & Hr);
      [|done|done|done|].
    + cbn [settle_targets_in]. by rewrite E.
    + exists h, d'. split_and!; [done..|]. intros Hok. exists cn'. split; [|auto].
      eapply stored_slots_mono; [|by apply Hst]. apply List.Forall_forall. intros [k [[|]|]] _; cbn; try done.
      intros. by eapply stored_mono.
Qed.

(** C7: settling publishes a whole inline cap graph. Whatever the directory
    holds, settling a graph whose instances are flushed and whose data can be
    flushed returns a hash; the blob tier still has every cap under its own
    content hash and loses nothing; and from the returned hash the graph can be
    followed blob by blob down to its leaves. *)
Theorem settle_publishes_graph c (d : Directory C) :
  settleable c = true -> blobs_ok (blobs d) ->
  exists h d', settle (COwned c) d = Ret (h, d') /\
    blobs_ok (blobs d') /\ blobs d ⊆ blobs d' /\ stored (blobs d') c h.
Proof.
  intros Hs Hok. destruct (settle_owned_ok c d Hs) as (h & d' & E & (P1 & P2 & _) & Hst).
  exists h, d'. auto.
Qed.

(** C40: an instance with unflushed memory cannot be settled. Settling flushes
    the pages of a data cap but not those of an instance, and hashing an
    instance with a dirty page panics. *)
Theorem settle_dirty_instance_panics (i : InstanceCap Cap) (d : Directory C) :
  dc_overlay (in_mem i) <> [] -> settle (COwned (Cap_Instance i)) d = Abort.
Proof.
  intros Hd. cbn [settle]. rewrite settle_owned_eq. cbn [settle_targets_in].
  destruct (settle_target settle_owned (in_root_cnode i) d) as [[t d1]|]; [|done]. cbn [res_bind fold_dirty_data cap_hash].
  unfold htr_instance, container_root, data_root. cbn [set_root in_mem].
  destruct (dc_overlay (in_mem i)); [done|]. unfold htr_target. by destruct t.
Qed.
End Settle.

(** ** The instance tier *)

Section Handles.
  Context {D : Digest} {K : KernelHash} {C : Type} {R : ResidentCap C}.
Implicit Types d : Directory C.

Lemma fold_remove_lookup l d id :
  instances (fold_left remove_instance l d) !! id = if bool_decide (id ∈ l) then None else instances d !! id.
Proof.
  revert d. induction l as [|j l IH]; intros d; cbn [fold_left].
  - rewrite bool_decide_false; [done|]. by apply not_elem_of_nil.
  - rewrite IH. cbn [remove_instance instances].
    destruct (decide (j = id)) as [->|Hne].
    + rewrite lookup_delete_eq. rewrite (bool_decide_true (id ∈ id :: l)) by (by left). by case_bool_decide.
    + rewrite lookup_delete_ne by done. rewrite (bool_decide_ext (id ∈ j :: l) (id ∈ l)); [done|]. rewrite elem_of_cons. naive_solver.
Qed.

Lemma fold_remove_frame l d :
  blobs (fold_left remove_instance l d) = blobs d /\ holders (fold_left remove_instance l d) = holders d /\
  next_ref (fold_left remove_instance l d) = next_ref d.
Proof. revert d. induction l as [|j l IH]; intros d; [done|]. cbn [fold_left]. by destruct (IH (remove_instance d j)). Qed.

Lemma dead_ids_In d id : id ∈ dead_ids d <-> is_Some (instances d !! id) /\ held d id = 0%nat.
Proof.
  unfold dead_ids. rewrite list_elem_of_In, filter_In, Nat.eqb_eq, in_map_iff. split.
  - intros [([j c] & <- & Hin) Hc]. apply list_elem_of_In, elem_of_map_to_list in Hin. cbn [fst] in *.
    unfold strong_count in Hc. rewrite bool_decide_true in Hc by (by eexists). split; [by eexists|lia].
  - intros [[c Hc] H0]. split.
    + exists (id, c). split; [done|]. by apply list_elem_of_In, elem_of_map_to_list.
    + unfold strong_count. rewrite bool_decide_true by (by eexists). lia.
Qed.

(** A pass removes exactly the entries nobody outside holds, so the next pass
    finds none. *)
Lemma sweep_loop_exact n d :
  exists d', sweep_loop (S (S n)) d = Some d' /\ blobs d' = blobs d /\ holders d' = holders d /\
    next_ref d' = next_ref d /\
    forall id, instances d' !! id = if (held d id =? 0)%nat then None else instances d !! id.
Proof.
  assert (forall id, (if bool_decide (id ∈ dead_ids d) then None else instances d !! id) =
                     if (held d id =? 0)%nat then None else instances d !! id) as Hd.
  { intros id. pose proof (dead_ids_In d id) as Hin. destruct (Nat.eqb_spec (held d id) 0) as [H0|H0].
    - destruct (instances d !! id) eqn:E; [|by case_bool_decide]. rewrite bool_decide_true; [done|]. by apply Hin.
    - rewrite bool_decide_false; [done|]. rewrite Hin. by intros []. }
  cbn [sweep_loop]. destruct (dead_ids d) as [|x l] eqn:E.
  - exists d. split_and!; [done..|]. intros id. rewrite <- Hd, bool_decide_false; [done|]. by apply not_elem_of_nil.
  - set (d' := fold_left remove_instance (x :: l) d) in *. destruct (fold_remove_frame (x :: l) d) as (F1 & F2 & F3).
    assert (forall id, instances d' !! id = if (held d id =? 0)%nat then None else instances d !! id) as Hl.
    { intros id. unfold d'. rewrite fold_remove_lookup. apply Hd. }
    assert (dead_ids d' = []) as ->.
    { destruct (dead_ids d') as [|y l'] eqn:E'; [done|]. exfalso.
      destruct (proj1 (dead_ids_In d' y)) as [[c Hc] H0]; [rewrite E'; by left|]. rewrite Hl in Hc.
      unfold held in *. fold d' in F2. rewrite F2 in H0. rewrite H0 in Hc. done. }
    exists d'. done.
Qed.

(** C35: the garbage collector terminates and is exact. A sweep always finishes,
    leaves the blobs and every handle alone, removes each instance that no
    handle outside the directory refers to, and keeps all others unchanged. *)
Theorem sweep_collects_exactly_dead d :
  exists d', sweep_instances d = Some d' /\ blobs d' = blobs d /\ holders d' = holders d /\
    forall id, get_instance d' id = if (held d id =? 0)%nat then None else get_instance d id.
Proof.
  destruct (sweep_loop_exact (instance_count d) d) as (d' & H1 & H2 & H3 & _ & H5). by exists d'.
Qed.

(** One use of the directory by its clients. Only a holder can clone, drop or
    write through a handle. *)
Inductive dir_step : Directory C -> Directory C -> Prop :=
| StepPutInstance d arc id d' : put_instance_arc d arc = Ret (id, d') -> dir_step d d'
| StepPromote d h id d' : promote_blob_to_instance d h = Ret (Some (id, d')) -> dir_step d d'
| StepSetInstance d id arc d' : set_instance d id arc = Ok d' -> dir_step d d'
| StepClone d id : (0 < held d id)%nat -> dir_step d (clone_ref d id)
| StepDrop d id : (0 < held d id)%nat -> dir_step d (drop_ref d id)
| StepPut d c h d' : put_cap d c = Ret (h, d') -> dir_step d d'
| StepSettle d t h d' : settle t d = Ret (h, d') -> dir_step d d'
| StepSweep d d' : sweep_instances d = Some d' -> dir_step d d'.

(** Held ids have entries, and were handed out already. *)
Definition handles_ok (d : Directory C) : Prop := forall id,
  ((0 < held d id)%nat -> is_Some (instances d !! id)) /\
  (is_Some (instances d !! id) \/ (0 < held d id)%nat -> id < next_ref d).

Lemma settle_target_published t d t' d' :
  target_all (fun c => forall d h d', settle_owned c d = Ret (h, d') -> published d d') t ->
  settle_target settle_owned t d = Ret (t', d') -> published d d'.
Proof.
  destruct t as [h|o]; cbn [target_all settle_target]; [intros _ [= _ <-]; apply published_refl|].
  intros IH H. destruct (settle_owned o d) as [[h d1]|] eqn:E; [|done]. injection H as _ <-. by eapply IH.
Qed.

Lemma settle_slots_published cn d cn' d' :
  Forall (fun e => entry_all (fun c => forall d h d', settle_owned c d = Ret (h, d') -> published d d') (snd e)) cn ->
  settle_slots settle_owned cn d = Ret (cn', d') -> published d d'.
Proof.
  intros HF. revert d cn' d'. induction HF as [|[k mo] cn He _ IH]; intros d cn' d'; cbn [settle_slots].
  - intros [= _ <-]. apply published_refl.
  - intros H. destruct (settle_entry settle_owned mo d) as [[mo' d1]|] eqn:E1; [|done]. cbn [res_bind] in H.
    destruct (settle_slots settle_owned cn d1) as [[r d2]|] eqn:E2; [|done]. injection H as _ <-.
    eapply published_trans; [|by eapply IH]. destruct mo as [t|h]; cbn [settle_entry] in E1.
    + destruct (settle_target settle_owned t d) as [[t' dt]|] eqn:Et; [|done]. injection E1 as _ <-.
      exact (settle_target_published t d t' dt He Et).
    + injection E1 as _ <-. apply published_refl.
Qed.

Lemma settle_published c : forall d h d', settle_owned c d = Ret (h, d') -> published d d'.
Proof.
  induction c as [i Hi|i|x|cn Hcn] using Cap_graph_ind; intros d h d'; rewrite settle_owned_eq; intros H;
    (destruct (settle_targets_in settle_owned _ d) as [[c1 d1]|] eqn:E; [|done]; cbn [res_bind] in H;
     destruct (fold_dirty_data c1) as [c2|]; [|done]; cbn [res_bind] in H;
     destruct (cap_hash c2) as [hc|] eqn:Ec; [|done]; injection H as <- <-;
     eapply published_trans; [|by apply put_published]; cbn [settle_targets_in] in E).
  - destruct (settle_target settle_owned (in_root_cnode i) d) as [[t dt]|] eqn:Et; [|done]. injection E as _ <-.
    by eapply settle_target_published.
  - injection E as _ <-. apply published_refl.
  - injection E as _ <-. apply published_refl.
  - destruct (settle_slots settle_owned cn d) as [[r dt]|] eqn:Et; [|done]. injection E as _ <-.
    by eapply settle_slots_published.
Qed.

Lemma published_handles d d' : published d d' -> handles_ok d -> handles_ok d'.
Proof.
  intros (_ & _ & Hi & Hh & Hn) H id. unfold held. rewrite Hi, Hh, Hn. apply H.
Qed.

Lemma held_insert b i (hs : gmap Z nat) n j k id :
  held (mkDirectory (C := C) b i (<[j := k]> hs) n) id = if decide (id = j) then k else default 0%nat (hs !! id).
Proof.
  unfold held. cbn [holders]. case_decide; subst; [by rewrite lookup_insert_eq|by rewrite lookup_insert_ne].
Qed.

Lemma put_instance_handles d arc id d' :
  put_instance_arc d arc = Ret (id, d') -> handles_ok d -> handles_ok d'.
Proof.
  unfold put_instance_arc. destruct (_ <? _); [|done]. intros [= <- <-] H j. rewrite held_insert.
  cbn [instances next_ref]. destruct (H j) as [H1 H2]. case_decide as E.
  - subst j. split; [intros _; rewrite lookup_insert_eq; by eexists|intros _; lia].
  - rewrite lookup_insert_ne by done. split; [done|]. intros Hx. specialize (H2 Hx). lia.
Qed.

Lemma dir_step_handles d d' : dir_step d d' -> handles_ok d -> handles_ok d'.
Proof.
  intros Hs H. destruct Hs as [d arc id d' E|d h id d' E|d id arc d' E|d id Hh|d id Hh|d c h d' E|d t h d' E|d d' E].
  - by eapply put_instance_handles.
  - unfold promote_blob_to_instance in E. destruct (get_blob d h) as [arc|]; [|done].
    destruct (put_instance_arc d arc) as [[i x]|] eqn:Ep; [|done]. injection E as <- <-. by eapply put_instance_handles.
  - unfold set_instance in E. destruct (instances d !! id) eqn:Ei; [|done]. injection E as <-. intros j.
    destruct (H j) as [H1 H2]. unfold held in *. cbn [holders instances next_ref].
    destruct (decide (j = id)) as [->|]; [rewrite lookup_insert_eq|by rewrite lookup_insert_ne].
    split; [by eexists|]. intros _. apply H2. left. by rewrite Ei.
  - intros j. unfold clone_ref. rewrite held_insert. cbn [instances next_ref]. case_decide; [subst; destruct (H id); auto|apply H].
  - intros j. unfold drop_ref. rewrite held_insert. cbn [instances next_ref]. case_decide; [subst; destruct (H id); auto|apply H].
  - unfold put_cap in E. destruct (cap_hash c) as [hc|] eqn:Ec; [|done]. injection E as _ <-.
    eapply published_handles; [by apply put_published|done].
  - destruct t as [hh|c]; cbn [settle] in E; [by injection E as _ <-|].
    eapply published_handles; [by eapply settle_published|done].
  - destruct (sweep_loop_exact (instance_count d) d) as (d2 & E2 & _ & Hh & Hn & Hi). unfold sweep_instances in E.
    rewrite E2 in E. injection E as <-. intros j. destruct (H j) as [H1 H2]. unfold held in *. rewrite Hh, Hn, Hi.
    destruct (Nat.eqb_spec (default 0%nat (holders d !! j)) 0) as [->|]; [|done].
    split; [lia|]. intros [Hx|]; [by destruct Hx|lia].
Qed.

(** C28: no live handle dangles. Whatever clients do with the directory, in
    whatever order and however sweeps are interleaved, a handle somebody still
    holds resolves to an instance. *)
Theorem live_handles_resolve d id :
  rtc dir_step with_hasher d -> (0 < held d id)%nat -> is_Some (get_instance d id).
Proof.
  intros Hr. assert (handles_ok d) as H; [|by apply H].
  assert (handles_ok (with_hasher : Directory C)) as H0.
  { intros j. unfold held. cbn [with_hasher holders instances]. rewrite !lookup_empty. cbn.
    split; [lia|]. intros [[]|]; [done|lia]. }
  induction Hr as [|x y z Hxy _ IH]; [done|]. apply IH. by eapply dir_step_handles.
Qed.
End Handles.

(** ** Instances *)

#[local] Existing Instance sum_digest.
#[local] Instance zero_khash : KernelHash := {| khash := fun _ => replicate 32 0; khash_length := fun _ => eq_refl |}.

Definition sample_graph : Cap :=
  Cap_CNode [([1], Materialized (COwned (Cap_Data (data_from_bytes [7])))); ([2], Missing (replicate 32 0))].

Lemma settle_publishes_graph_witness :
  exists h (d' : Directory Cap), settle (COwned sample_graph) with_hasher = Ret (h, d') /\
    stored (blobs d') sample_graph h.
Proof.
  destruct (settle_publishes_graph sample_graph (with_hasher : Directory Cap)) as (h & d' & H1 & _ & _ & H2).
  - by vm_compute.
  - intros h r Hr. cbn [with_hasher blobs] in Hr. by rewrite lookup_empty in Hr.
  - exists h, d'. split; [exact H1|exact H2].
Defined.

Definition dirty_instance : InstanceCap Cap :=
  mkInstanceCap (replicate 32 0) (replicate 32 0) (CHash (replicate 32 0))
    (mkDataCap slab_empty [(0, PsEmpty)]) (replicate NUM_REGS 0) 0 0.

Lemma settle_dirty_instance_panics_witness :
  settle (COwned (Cap_Instance dirty_instance)) (with_hasher : Directory Cap) = Abort.
Proof. apply (settle_dirty_instance_panics dirty_instance). discriminate. Defined.

Lemma live_handles_resolve_witness :
  exists d : Directory Cap, is_Some (get_instance d 1).
Proof.
  exists (mkDirectory ∅ {[1 := sample_graph]} {[1 := 1%nat]} 2).
  apply live_handles_resolve; [|vm_compute; lia].
  eapply rtc_l; [|apply rtc_refl].
  apply (StepPutInstance with_hasher sample_graph 1). reflexivity.
Defined.
