(* ===== verification/CachedCap.v ===== *)
(** Resident caps of the guest kernel: a wire cap with the runtime cache that
    rides with it, and the conversions between the two forms. Sources:
    [src/rust/javm-guest-x86/src/cached_cap.rs] and the conversions of
    [call_loop.rs]. *)

From Stdlib Require Import ZArith Lia List Bool.
From stdpp Require Import base list numbers tactics.
From S2P Require Import Prelude MachineInt OrdMap Program Merkle Ssz SszFacts SszContainer Radix RadixFacts CapData CapSlot CapImage Cap Cache CacheFacts.
Open Scope Z_scope.

(** The page-table runtime and the compiled image are opaque here: [Rt] stands
    for [FrameRuntime], [Ci] for [CompiledImage]. *)
Inductive CachedCap (Rt Ci : Type) : Type :=
| mkCachedCap (cap : Cap) (cache : CapCache Rt Ci)
with CapCache (Rt Ci : Type) : Type :=
| CacheNone
| CacheCNode (cnode : CNodeCap (CachedCap Rt Ci))
| CacheImage (compiled : Ci)
| CacheInstance (runtime : option Rt) (root_cnode : option (CNodeCap (CachedCap Rt Ci))).
Arguments mkCachedCap {Rt Ci} cap cache.
Arguments CacheNone {Rt Ci}. Arguments CacheCNode {Rt Ci} cnode.
Arguments CacheImage {Rt Ci} compiled. Arguments CacheInstance {Rt Ci} runtime root_cnode.

Section CachedCap.
  Context {Rt Ci : Type}.

Definition ResidentCNode : Type := CNodeCap (CachedCap Rt Ci).
Definition ResidentInstance : Type := InstanceCap (CachedCap Rt Ci).
Definition Target : Type := CapHashOrRef (CachedCap Rt Ci).

Definition cc_cap (c : CachedCap Rt Ci) : Cap := match c with mkCachedCap cap _ => cap end.
Definition cc_cache (c : CachedCap Rt Ci) : CapCache Rt Ci := match c with mkCachedCap _ k => k end.

(** [CachedCap::new], [cnode] and the clone, which drops the cache. *)
Definition cached (cap : Cap) : CachedCap Rt Ci := mkCachedCap cap CacheNone.
Definition cached_cnode (cnode : ResidentCNode) : CachedCap Rt Ci :=
  mkCachedCap (Cap_CNode cnode_new) (CacheCNode cnode).
Definition cached_clone (c : CachedCap Rt Ci) : CachedCap Rt Ci := mkCachedCap (cc_cap c) CacheNone.

(** A slot's target under a change of payload. *)
Definition map_target {A B : Type} (f : A -> B) (t : CapHashOrRef A) : CapHashOrRef B :=
  match t with CHash h => CHash h | COwned o => COwned (f o) end.
Definition map_entry {A B : Type} (f : A -> B) (mo : MissingOr (CapHashOrRef A)) : MissingOr (CapHashOrRef B) :=
  match mo with Materialized t => Materialized (map_target f t) | Missing h => Missing h end.

(** The slots rebuilt one insertion at a time. *)
Definition map_cnode {A B : Type} (f : A -> B) (cn : CNodeCap A) : CNodeCap B :=
  om_of_list (map (fun e => (fst e, map_entry f (snd e))) cn).

(** ** Resident to wire *)

Fixpoint to_wire_cap (c : CachedCap Rt Ci) : Cap :=
  match c with
  | mkCachedCap (Cap_CNode w) cache =>
      match cache with
      | CacheCNode cnode => Cap_CNode (map_cnode to_wire_cap cnode)
      | _ => Cap_CNode w
      end
  | mkCachedCap (Cap_Instance inst) cache =>
      match cache with
      | CacheInstance _ (Some root) =>
          Cap_Instance (set_root inst (COwned (Cap_CNode (map_cnode to_wire_cap root))))
      | _ => Cap_Instance inst
      end
  | mkCachedCap cap _ => cap
  end.

Definition target_to_wire : Target -> CapHashOrRef Cap := map_target to_wire_cap.
Definition fold_cnode_to_wire : ResidentCNode -> CNodeCap Cap := map_cnode to_wire_cap.

#[export] Instance resident_cached : ResidentCap (CachedCap Rt Ci).
Proof.
  refine {| from_cap := cached; as_cap := cc_cap; into_cap := to_wire_cap |}; [done|]. by intros [].
Defined.

(** ** Wire to resident *)

(** An inline cnode becomes a resident one, slot by slot; any other inline cap
    is wrapped as it is. *)
Fixpoint wire_cap_to_cached (w : Cap) : CachedCap Rt Ci :=
  match w with
  | Cap_CNode cn => cached_cnode (map_cnode wire_cap_to_cached cn)
  | other => cached other
  end.

Definition wire_target_to_cached : CapHashOrRef Cap -> Target := map_target wire_cap_to_cached.
Definition copy_wire_cnode_into_cached (src : CNodeCap Cap) (dst : ResidentCNode) : ResidentCNode :=
  fold_left (fun m e => fst (om_insert (fst e) (map_entry wire_cap_to_cached (snd e)) m)) src dst.
End CachedCap.
Arguments ResidentCNode : clear implicits. Arguments ResidentInstance : clear implicits.
Arguments Target : clear implicits.

(** ** Facts *)

Section Facts.
  Context {Rt Ci : Type}.

Lemma map_cnode_sorted {A B : Type} (f : A -> B) (cn : CNodeCap A) :
  om_ok cn -> map_cnode f cn = map (fun e => (fst e, map_entry f (snd e))) cn.
Proof. intros Ho. apply om_of_list_sorted. unfold om_ok. by rewrite map_map. Qed.

Lemma map_cnode_ok {A B : Type} (f : A -> B) (cn : CNodeCap A) : om_ok (map_cnode f cn).
Proof. apply om_of_list_ok. Qed.

(** Copying into an empty cnode is the slot-wise conversion. *)
Lemma copy_into_empty cn :
  copy_wire_cnode_into_cached cn ([] : ResidentCNode Rt Ci) = map_cnode wire_cap_to_cached cn.
Proof.
  unfold copy_wire_cnode_into_cached, map_cnode, om_of_list. generalize ([] : ResidentCNode Rt Ci).
  induction cn as [|e cn IH]; intros m; [done|]. cbn [fold_left map fst snd]. apply IH.
Qed.

(** Every inline cnode of the graph has its slots in key order. *)
Fixpoint wire_sorted (c : Cap) : Prop :=
  match c with
  | Cap_CNode cn =>
      om_ok cn /\
      (fix go (l : list (Key * MissingOr (CapHashOrRef Cap))) : Prop :=
         match l with
         | [] => True
         | (_, Materialized (COwned o)) :: r => wire_sorted o /\ go r
         | _ :: r => go r
         end) cn
  | _ => True
  end.

Lemma resident_entry_roundtrip mo :
  entry_all (fun c => wire_sorted c -> to_wire_cap (wire_cap_to_cached (Rt := Rt) (Ci := Ci) c) = c) mo ->
  match mo with Materialized (COwned o) => wire_sorted o | _ => True end ->
  map_entry to_wire_cap (map_entry (wire_cap_to_cached (Rt := Rt) (Ci := Ci)) mo) = mo.
Proof. destruct mo as [[h|o]|h]; cbn; [done| |done]. intros IH Hw. by rewrite IH. Qed.

(** Making a cap resident loses nothing. Turning an inline cap graph into
    its resident form and folding it back gives the same graph, however deep
    cnodes are nested. *)
Theorem resident_roundtrip c :
  wire_sorted c -> to_wire_cap (wire_cap_to_cached (Rt := Rt) (Ci := Ci) c) = c.
Proof.
  induction c as [i _|i|d|cn Hcn] using Cap_graph_ind; [done..|]. intros [Ho Hs].
  cbn [wire_cap_to_cached]. unfold cached_cnode. cbn [to_wire_cap]. f_equal.
  rewrite map_cnode_sorted by apply map_cnode_ok. rewrite map_cnode_sorted by done. rewrite map_map. cbn [fst snd].
  clear Ho. induction Hcn as [|[k mo] cn He _ IH]; [done|]. cbn [map fst snd] in *. f_equal.
  - f_equal. apply resident_entry_roundtrip; [done|]. destruct mo as [[|]|]; [done| |done]. by destruct Hs.
  - apply IH. destruct mo as [[|]|]; [done| |done]. by destruct Hs.
Qed.
End Facts.

Lemma resident_roundtrip_witness :
  to_wire_cap (wire_cap_to_cached (Rt := unit) (Ci := unit)
                 (Cap_CNode [([1], Materialized (COwned (Cap_CNode [([7], Missing [])])))])) =
  Cap_CNode [([1], Materialized (COwned (Cap_CNode [([7], Missing [])])))].
Proof.
  apply resident_roundtrip. cbn. split_and!; [| |done|done]; repeat constructor.
Defined.
