(* ===== verification/Task.v ===== *)
(** The guest kernel's task skeleton: the call stack, the gas bank, one poll of
    a task and the cooperative scheduler, for any personality. Sources:
    [src/nub/nub-arch-x86/src/task.rs] and [personality.rs]. *)

From Stdlib Require Import ZArith Lia List Bool.
From stdpp Require Import base list numbers tactics.
From S2P Require Import Prelude MachineInt OrdMap Ssz.
Open Scope Z_scope.

(** ** Exits and outcomes *)

(** [codegen.rs]: exit codes of the recompiler. *)
Definition EXIT_HALT : Z := 0.
Definition EXIT_PANIC : Z := 1.
Definition EXIT_OOG : Z := 2.
Definition EXIT_PAGE_FAULT : Z := 3.
Definition EXIT_HOST_CALL : Z := 4.
Definition EXIT_ECALL : Z := 6.
Definition EXIT_TRAP : Z := 7.

Definition ERR_TASK_BOOKKEEPING : Z := 74.
Definition HEAD_LEN : nat := 128.

(** What one ring-3 cycle reports. *)
Record ExitInfo : Type := mkExitInfo {
  ei_reason : Z;
  ei_arg : Z;
  ei_gas_remaining : Z;
  ei_regs : list Z;
  ei_pc : Z;
}.

Record LoopOutcome : Type := mkLoopOutcome {
  lo_exit_reason : Z;
  lo_exit_arg : Z;
  lo_return_value : Z;
  lo_gas_remaining : Z;
  lo_scratchpad_head : list Z;
}.

Inductive Flow : Type := Resume | FlowDone (o : LoopOutcome).
Inductive TaskPoll : Type := Pending | PollDone (o : LoopOutcome).

(** ** The call stack *)

Inductive EntryKind (F : Type) : Type := EInstance (frame : F) | EReference.
Arguments EInstance {F} frame. Arguments EReference {F}.

Record StackEntry (F M : Type) : Type := mkStackEntry {
  st_kind : EntryKind F;
  st_target : nat;
  st_iid : Z;
  st_meta : M;
}.
Arguments mkStackEntry {F M}. Arguments st_kind {F M}. Arguments st_target {F M}.
Arguments st_iid {F M}. Arguments st_meta {F M}.

Section Stack.
  Context {F M : Type}.

Definition instance_with_meta (frame : F) (index : nat) (iid : Z) (meta : M) : StackEntry F M :=
  mkStackEntry (EInstance frame) index iid meta.

(** The frame of an entry, through a reference to its referent. *)
Definition frame_at (stack : list (StackEntry F M)) (idx : nat) : Res F :=
  match stack !! idx with
  | None => Abort
  | Some e =>
      match stack !! st_target e with
      | Some (mkStackEntry (EInstance f) _ _ _) => Ret f
      | _ => Abort
      end
  end.

(** [*frame_at_mut(stack, idx) = f]. *)
Definition set_frame (stack : list (StackEntry F M)) (idx : nat) (f : F) : Res (list (StackEntry F M)) :=
  match stack !! idx with
  | None => Abort
  | Some e =>
      match stack !! st_target e with
      | Some (mkStackEntry (EInstance _) t i m) =>
          Ret (<[st_target e := mkStackEntry (EInstance f) t i m]> stack)
      | _ => Abort
      end
  end.
End Stack.

(** ** The gas bank *)

Record TaskGasState (K : Type) : Type := mkGas {
  meters : OrdMap K Z;
  live_gas : Z;
  host_budget : Z;
  root_active : option K;
  current_active : option K;
}.
Arguments mkGas {K}. Arguments meters {K}. Arguments live_gas {K}. Arguments host_budget {K}.
Arguments root_active {K}. Arguments current_active {K}.

Section Gas.
  Context {K : Type} `{OrdKey K}.

Definition gas_new (root : option K) (initial_gas : Z) : TaskGasState K :=
  mkGas (match root with Some k => fst (om_insert k initial_gas []) | None => [] end)
    initial_gas initial_gas root root.

Definition set_live (g : TaskGasState K) (v : Z) : TaskGasState K :=
  mkGas (meters g) v (host_budget g) (root_active g) (current_active g).

(** Bank the old scope's balance, load the new one's. *)
Definition reconcile (g : TaskGasState K) (new : option K) : TaskGasState K :=
  if decide (current_active g = new) then
    mkGas (meters g) (live_gas g) (host_budget g) (root_active g) new
  else
    let '(ms, hb) := match current_active g with
                     | Some k => (fst (om_insert k (live_gas g) (meters g)), host_budget g)
                     | None => (meters g, live_gas g)
                     end in
    let live := match new with Some k => default 0 (om_get k ms) | None => hb end in
    mkGas ms live hb (root_active g) new.

Definition root_remaining (g : TaskGasState K) : Z :=
  if decide (current_active g = root_active g) then live_gas g
  else match root_active g with
       | Some k => default 0 (om_get k (meters g))
       | None => host_budget g
       end.
End Gas.

(** ** The personality interface *)

Record TaskCtx (F M K : Type) : Type := mkCtx {
  ctx_lane : Z;
  ctx_stack : list (StackEntry F M);
  ctx_gas : TaskGasState K;
  ctx_next_iid : Z;
}.
Arguments mkCtx {F M K}. Arguments ctx_lane {F M K}. Arguments ctx_stack {F M K}.
Arguments ctx_gas {F M K}. Arguments ctx_next_iid {F M K}.

(** [W] is the kernel-global state the hooks share between tasks. *)
Definition Hook (W F M K : Type) : Type :=
  W -> TaskCtx F M K -> ExitInfo -> Res (W * Result (TaskCtx F M K * Flow) Z).

Class GuestPersonality (W F M K : Type) : Type := {
  build_root_frame : W -> list Z -> Z -> list Z -> Res (Result (F * M) Z);
  active_meter : list (StackEntry F M) -> nat -> Res (option K);
  run_one_entry : Z -> F -> Z -> Res (Result (ExitInfo * F) Z);
  set_exit_state : F -> list Z -> Z -> F;
  on_halt : Hook W F M K;
  on_ecall : Z -> Hook W F M K;
  on_exit : Hook W F M K;
}.

Section Ctx.
  Context {F M K : Type} `{OrdKey K}.

(** [stack.len() - 1]; hooks run on a non-empty stack. *)
Definition top_idx (c : TaskCtx F M K) : nat := pred (length (ctx_stack c)).

Definition outcome (c : TaskCtx F M K) (reason arg rv : Z) (head : list Z) : LoopOutcome :=
  mkLoopOutcome reason arg rv (root_remaining (ctx_gas c)) head.

Definition with_stack (c : TaskCtx F M K) (s : list (StackEntry F M)) : TaskCtx F M K :=
  mkCtx (ctx_lane c) s (ctx_gas c) (ctx_next_iid c).
Definition with_gas (c : TaskCtx F M K) (g : TaskGasState K) : TaskCtx F M K :=
  mkCtx (ctx_lane c) (ctx_stack c) g (ctx_next_iid c).

(** The hook a personality gets if it defines none. *)
Definition on_exit_default {W : Type} : Hook W F M K := fun w c info =>
  Ret (w, Ok (c, FlowDone (outcome c (ei_reason info) (ei_arg info) (nth 7 (ei_regs info) 0) (replicate HEAD_LEN 0)))).
End Ctx.

(** ** Tasks *)

Record KernelTask (F M K : Type) : Type := mkTask { task_id : Z; task_ctx : TaskCtx F M K }.
Arguments mkTask {F M K}. Arguments task_id {F M K}. Arguments task_ctx {F M K}.

Section Task.
  Context {W F M K : Type} `{OrdKey K} {P : GuestPersonality W F M K}.

Definition task_new (w : W) (id lane : Z) (root : list Z) (endpoint_idx : Z) (args : list Z) (initial_gas : Z) :
  Res (Result (KernelTask F M K) Z) :=
  let* (frame, meta) := build_root_frame w root endpoint_idx args in
  let stack := [instance_with_meta frame 0 0 meta] in
  let! root_active := active_meter stack 0 in
  Ret (Ok (mkTask id (mkCtx lane stack (gas_new root_active initial_gas) 1))).

Definition dispatch (w : W) (c : TaskCtx F M K) (info : ExitInfo) : Res (W * Result (TaskCtx F M K * Flow) Z) :=
  if ei_reason info =? EXIT_HALT then on_halt w c info
  else if (ei_reason info =? EXIT_HOST_CALL) || (ei_reason info =? EXIT_ECALL) then
    let op := if ei_reason info =? EXIT_HOST_CALL then ei_arg info else wrap 32 (nth 11 (ei_regs info) 0) in
    on_ecall op w c info
  else on_exit w c info.

(** Phase 1: reconcile, run the top frame, mirror its exit state. *)
Definition run_top_entry (c : TaskCtx F M K) : Res (Result (TaskCtx F M K * ExitInfo) Z) :=
  let top := top_idx c in
  let! new_active := active_meter (ctx_stack c) top in
  let c1 := with_gas c (reconcile (ctx_gas c) new_active) in
  let! frame := frame_at (ctx_stack c1) top in
  let* (info, frame') := run_one_entry (ctx_lane c1) frame (live_gas (ctx_gas c1)) in
  let! stack' := set_frame (ctx_stack c1) top (set_exit_state frame' (ei_regs info) (ei_pc info)) in
  Ret (Ok (mkCtx (ctx_lane c1) stack' (set_live (ctx_gas c1) (ei_gas_remaining info)) (ctx_next_iid c1), info)).

Definition poll_once (w : W) (t : KernelTask F M K) : Res (W * Result (KernelTask F M K * TaskPoll) Z) :=
  let! r := run_top_entry (task_ctx t) in
  match r with
  | Err e => Ret (w, Err e)
  | Ok (c, info) =>
      let! (w', r) := dispatch w c info in
      match r with
      | Err e => Ret (w', Err e)
      | Ok (c', Resume) => Ret (w', Ok (mkTask (task_id t) c', Pending))
      | Ok (c', FlowDone o) => Ret (w', Ok (mkTask (task_id t) c', PollDone o))
      end
  end.

(** The loop of [run_to_completion]; [None] when [fuel] polls were not enough. *)
Fixpoint run_to_completion (fuel : nat) (w : W) (t : KernelTask F M K) : option (Res (W * Result LoopOutcome Z)) :=
  match fuel with
  | O => None
  | S n =>
      match poll_once w t with
      | Abort => Some Abort
      | Ret (w', Err e) => Some (Ret (w', Err e))
      | Ret (w', Ok (_, PollDone o)) => Some (Ret (w', Ok o))
      | Ret (w', Ok (t', Pending)) => run_to_completion n w' t'
      end
  end.

Definition run_top_on_lane (fuel : nat) (w : W) (lane : Z) (root : list Z) (endpoint_idx : Z) (args : list Z)
    (initial_gas : Z) : option (Res (W * Result LoopOutcome Z)) :=
  match task_new w 0 lane root endpoint_idx args initial_gas with
  | Abort => Some Abort
  | Ret (Err e) => Some (Ret (w, Err e))
  | Ret (Ok t) => run_to_completion fuel w t
  end.

(** ** The scheduler *)

Record KernelScheduler : Type := mkScheduler {
  sc_lane : Z;
  next_task_id : Z;
  tasks : OrdMap Z (KernelTask F M K);
  completed : OrdMap Z LoopOutcome;
  ready : list Z;
}.

Definition scheduler_new (lane : Z) : KernelScheduler := mkScheduler lane 0 [] [] [].

Definition submit_invoke (w : W) (s : KernelScheduler) (root : list Z) (endpoint_idx : Z) (args : list Z)
    (initial_gas : Z) : Res (KernelScheduler * Result Z Z) :=
  let id := next_task_id s in
  let next := wrap 64 (id + 1) in
  let! r := task_new w id (sc_lane s) root endpoint_idx args initial_gas in
  match r with
  | Err e => Ret (mkScheduler (sc_lane s) next (tasks s) (completed s) (ready s), Err e)
  | Ok t => Ret (mkScheduler (sc_lane s) next (fst (om_insert id t (tasks s))) (completed s) (ready s ++ [id]), Ok id)
  end.

(** [if let Some(outcome) = self.completed.remove(&target)], else go on. *)
Definition take_completed (w : W) (s : KernelScheduler) (target : Z)
    (rest : option (Res (W * KernelScheduler * Result LoopOutcome Z))) :
  option (Res (W * KernelScheduler * Result LoopOutcome Z)) :=
  let '(done_, out) := om_remove target (completed s) in
  match out with
  | Some o => Some (Ret (w, mkScheduler (sc_lane s) (next_task_id s) (tasks s) done_ (ready s), Ok o))
  | None => rest
  end.

(** The [while let Some(id) = self.ready.pop_front()] loop. *)
Fixpoint schedule (fuel : nat) (w : W) (s : KernelScheduler) (target : Z) :
  option (Res (W * KernelScheduler * Result LoopOutcome Z)) :=
  match fuel with
  | O => None
  | S n =>
      match ready s with
      | [] => Some (Ret (w, s, Err ERR_TASK_BOOKKEEPING))
      | id :: rest =>
          let '(ts, task) := om_remove id (tasks s) in
          match task with
          | None => Some (Ret (w, mkScheduler (sc_lane s) (next_task_id s) ts (completed s) rest, Err ERR_TASK_BOOKKEEPING))
          | Some t =>
              match poll_once w t with
              | Abort => Some Abort
              | Ret (w', Err e) =>
                  Some (Ret (w', mkScheduler (sc_lane s) (next_task_id s) ts (completed s) rest, Err e))
              | Ret (w', Ok (_, PollDone o)) =>
                  if id =? target then
                    Some (Ret (w', mkScheduler (sc_lane s) (next_task_id s) ts (completed s) rest, Ok o))
                  else
                    let s' := mkScheduler (sc_lane s) (next_task_id s) ts (fst (om_insert id o (completed s))) rest in
                    take_completed w' s' target (schedule n w' s' target)
              | Ret (w', Ok (t', Pending)) =>
                  let s' := mkScheduler (sc_lane s) (next_task_id s) (fst (om_insert id t' ts)) (completed s) (rest ++ [id]) in
                  take_completed w' s' target (schedule n w' s' target)
              end
          end
      end
  end.

Definition run_until_result (fuel : nat) (w : W) (s : KernelScheduler) (target : Z) :
  option (Res (W * KernelScheduler * Result LoopOutcome Z)) :=
  take_completed w s target (schedule fuel w s target).
End Task.
