(* ===== verification/TaskFacts.v ===== *)
(** Theorems about the task skeleton: the gas bank keeps one balance per scope,
    and the cooperative scheduler brings every task to the result it reaches on
    its own. *)

From Stdlib Require Import ZArith Lia List Bool Sorted.
From stdpp Require Import base list numbers tactics.
From S2P Require Import Prelude MachineInt OrdMap Ssz Task.
Open Scope Z_scope.

(** ** The gas bank *)

Section Gas.
  Context {K : Type} `{OrdKey K}.

(** The balance of a scope: the live gas for the running one, the bank for all
    others. *)
Definition balance (g : TaskGasState K) (s : option K) : Z :=
  if decide (s = current_active g) then live_gas g
  else match s with Some k => default 0 (om_get k (meters g)) | None => host_budget g end.

Definition upd (f : option K -> Z) (s : option K) (v : Z) (s' : option K) : Z := if decide (s' = s) then v else f s'.

Lemma balance_reconcile g new s : om_ok (meters g) -> balance (reconcile g new) s = balance g s.
Proof.
  intros Ho. unfold balance, reconcile. destruct (decide (current_active g = new)) as [<-|Hne]; [done|].
  destruct (current_active g) as [k|] eqn:Ec; cbn [meters live_gas host_budget current_active];
    destruct (decide (s = new)) as [->|Hs].
  - rewrite decide_False by done. destruct new as [k'|]; [|done].
    rewrite om_get_insert by done. rewrite decide_False by congruence. done.
  - destruct s as [k'|]; [|by rewrite decide_False]. rewrite om_get_insert by done.
    destruct (decide (k' = k)) as [->|Hk]; [by rewrite decide_True|by rewrite decide_False by congruence].
  - rewrite decide_False by done. by destruct new.
  - destruct s as [k'|]; [by rewrite decide_False|by rewrite decide_True].
Qed.

Lemma reconcile_ok g new : om_ok (meters g) -> om_ok (meters (reconcile g new)).
Proof.
  intros Ho. unfold reconcile. case_decide; [done|]. destruct (current_active g); cbn; [by apply om_insert_ok|done].
Qed.

Lemma balance_set_live g v s : balance (set_live g v) s = upd (balance g) (current_active g) v s.
Proof. unfold balance, set_live, upd. cbn. by case_decide. Qed.

(** What happens to a bank between two polls: the running scope changes, or the
    running frame leaves a new live balance. *)
Inductive GasOp : Type := GasSwitch (new : option K) | GasRun (left : Z).

Definition gas_step (op : GasOp) (g : TaskGasState K) : TaskGasState K :=
  match op with GasSwitch new => reconcile g new | GasRun v => set_live g v end.
Definition ledger_step (op : GasOp) (a : (option K -> Z) * option K) : (option K -> Z) * option K :=
  match op with GasSwitch new => (fst a, new) | GasRun v => (upd (fst a) (snd a) v, snd a) end.

Lemma gas_step_refines op g a :
  om_ok (meters g) -> (forall s, balance g s = fst a s) -> current_active g = snd a ->
  om_ok (meters (gas_step op g)) /\ (forall s, balance (gas_step op g) s = fst (ledger_step op a) s) /\
  current_active (gas_step op g) = snd (ledger_step op a) /\ root_active (gas_step op g) = root_active g.
Proof.
  intros Ho Hb Hc. destruct op as [new|v]; cbn [gas_step ledger_step fst snd].
  - split; [by apply reconcile_ok|]. split; [intros s; by rewrite balance_reconcile|].
    unfold reconcile. case_decide; [done|]. by destruct (current_active g).
  - split; [done|]. split; [|done]. intros s. rewrite balance_set_live, <- Hc. unfold upd. case_decide; [done|apply Hb].
Qed.

Lemma root_remaining_balance g : root_remaining g = balance g (root_active g).
Proof.
  unfold root_remaining, balance. destruct (decide (current_active g = root_active g)) as [->|Hne]; [by rewrite decide_True|].
  by rewrite decide_False by congruence.
Qed.

(** C9: the gas bank refines one balance per scope. Through any sequence of
    scope switches and ring-3 runs, the live register, the meter table and the
    host budget together hold exactly the balances of a ledger in which a
    switch moves no gas and a run touches only the scope it ran in; what the
    task reports to the host is the root scope's balance in that ledger. *)
Theorem gas_bank_refines_ledger ops root initial :
  let g := fold_left (fun g op => gas_step op g) ops (gas_new root initial) in
  let a := fold_left (fun a op => ledger_step op a) ops (balance (gas_new root initial), root) in
  (forall s, balance g s = fst a s) /\ current_active g = snd a /\ root_remaining g = fst a root.
Proof.
  assert (forall g a, om_ok (meters g) -> (forall s, balance g s = fst a s) -> current_active g = snd a ->
            root_active g = root ->
            let g' := fold_left (fun g op => gas_step op g) ops g in
            let a' := fold_left (fun a op => ledger_step op a) ops a in
            (forall s, balance g' s = fst a' s) /\ current_active g' = snd a' /\ root_remaining g' = fst a' root) as Hgen.
  { induction ops as [|op ops IH]; intros g a Ho Hb Hc Hr; cbn [fold_left].
    - split; [done|]. split; [done|]. by rewrite root_remaining_balance, Hr.
    - destruct (gas_step_refines op g a Ho Hb Hc) as (H1 & H2 & H3 & H4). apply IH; [done..|congruence]. }
  apply Hgen; [|done..]. unfold gas_new. destruct root; [apply om_insert_ok, om_ok_nil|apply om_ok_nil].
Qed.
End Gas.

(** ** The scheduler *)

Section Schedule.
  Context {W F M K : Type} `{OrdKey K} {P : GuestPersonality W F M K}.
Implicit Types t : KernelTask F M K.
Implicit Types s : @KernelScheduler F M K.

  (** What the tasks may assume of the state they share. *)
  Variable I : W -> Prop.

(** A poll of [t] gives [r] in every shared state. *)
Definition polls t (r : KernelTask F M K * TaskPoll) : Prop :=
  forall w, I w -> exists w', poll_once w t = Ret (w', Ok r) /\ I w'.

(** [t] can be polled [n] times without an error. *)
Fixpoint survives (n : nat) (t : KernelTask F M K) : Prop :=
  match n with
  | O => True
  | S m => exists t' p, polls t (t', p) /\ (p = Pending -> survives m t')
  end.

(** [t] ends with [o] after [n] polls that do not end it. *)
Inductive completes : KernelTask F M K -> nat -> LoopOutcome -> Prop :=
| CompletesDone t t' o : polls t (t', PollDone o) -> completes t 0 o
| CompletesStep t t' n o : polls t (t', Pending) -> completes t' n o -> completes t (S n) o.

Lemma completes_alone t n o w :
  completes t n o -> I w -> exists w', run_to_completion (S n) w t = Some (Ret (w', Ok o)) /\ I w'.
Proof.
  intros Hc. revert w. induction Hc as [t t' o Hp|t t' n o Hp _ IH]; intros w Hw.
  - destruct (Hp w Hw) as (w' & E & Hw'). exists w'. cbn [run_to_completion]. by rewrite E.
  - destruct (Hp w Hw) as (w' & E & Hw'). destruct (IH w' Hw') as (w2 & E2 & Hw2). exists w2. split; [|done].
    cbn [run_to_completion]. by rewrite E.
Qed.

(** The ready queue lists each resident task once. *)
Definition sched_ok s : Prop :=
  om_ok (tasks s) /\ om_ok (completed s) /\ NoDup (ready s) /\
  forall id, id ∈ ready s <-> is_Some (om_get id (tasks s)).

Lemma survives_weaken n t : survives (S n) t -> survives n t.
Proof.
  revert t. induction n as [|n IH]; intros t; [done|]. intros (t' & p & Hp & Hn). exists t', p. split; [done|].
  intros Hpend. by apply IH, Hn.
Qed.

(** A task leaves the queue with its entry; one that is still pending comes back
    at the end. *)
Lemma sched_ok_finish s id rest o :
  sched_ok s -> ready s = id :: rest ->
  sched_ok (mkScheduler (sc_lane s) (next_task_id s) (fst (om_remove id (tasks s))) (fst (om_insert id o (completed s))) rest).
Proof.
  intros (Ht & Hc & Hn & Hr) E. rewrite E in *. apply list.NoDup_cons in Hn as [Hni Hn]. unfold sched_ok. cbn.
  split; [by apply om_remove_ok|]. split; [by apply om_insert_ok|]. split; [done|]. intros j.
  rewrite om_get_remove by done. specialize (Hr j). rewrite elem_of_cons in Hr. case_decide as Ej.
  - subst j. split; [done|]. by intros [].
  - rewrite <- Hr. naive_solver.
Qed.

Lemma sched_ok_requeue s id rest t' :
  sched_ok s -> ready s = id :: rest ->
  sched_ok (mkScheduler (sc_lane s) (next_task_id s) (fst (om_insert id t' (fst (om_remove id (tasks s))))) (completed s)
              (rest ++ [id])).
Proof.
  intros (Ht & Hc & Hn & Hr) E. rewrite E in *. apply list.NoDup_cons in Hn as [Hni Hn]. unfold sched_ok. cbn.
  split; [by apply om_insert_ok, om_remove_ok|]. split; [done|]. split.
  { apply list.NoDup_app. split; [done|]. split; [|by apply NoDup_singleton]. intros j Hj. rewrite list_elem_of_singleton. by intros ->. }
  intros j. rewrite om_get_insert, om_get_remove by (done || by apply om_remove_ok). specialize (Hr j).
  rewrite elem_of_cons in Hr. rewrite elem_of_app, list_elem_of_singleton. case_decide as Ej.
  - subst j. split; [by eexists|by right].
  - rewrite <- Hr. naive_solver.
Qed.

(** The tasks of [ids] can be polled [n] times. *)
Definition all_survive (n : nat) s (ids : list Z) : Prop :=
  forall id t, id ∈ ids -> om_get id (tasks s) = Some t -> survives n t.

Lemma all_survive_ext n s s' ids :
  (forall id, id ∈ ids -> om_get id (tasks s') = om_get id (tasks s)) ->
  all_survive n s ids -> all_survive n s' ids.
Proof. intros He Ha id t Hid. rewrite He by done. by apply Ha. Qed.

Lemma tasks_requeue s id t' j :
  sched_ok s -> om_get j (fst (om_insert id t' (fst (om_remove id (tasks s))))) =
                if decide (j = id) then Some t' else om_get j (tasks s).
Proof.
  intros (Ht & _). rewrite om_get_insert, om_get_remove by (done || by apply om_remove_ok). by repeat case_decide.
Qed.

Lemma head_task s id rest :
  sched_ok s -> ready s = id :: rest -> exists t, om_get id (tasks s) = Some t /\ om_remove id (tasks s) = (fst (om_remove id (tasks s)), Some t).
Proof.
  intros (_ & _ & _ & Hr) E. destruct (proj1 (Hr id)) as [t Ht]; [rewrite E; by left|]. exists t. split; [done|].
  rewrite <- Ht, <- (om_remove_old id (tasks s)). by destruct (om_remove id (tasks s)).
Qed.

(** One turn of the head: it ends, or it goes to the back of the queue. *)
Lemma schedule_turn n w s target id rest t :
  sched_ok s -> I w -> ready s = id :: rest -> id <> target -> om_get id (tasks s) = Some t -> survives (S n) t ->
  om_get target (completed s) = None ->
  exists w' s', I w' /\ sched_ok s' /\ om_get target (completed s') = None /\
    (ready s' = rest \/ ready s' = rest ++ [id]) /\
    (forall j, j <> id -> om_get j (tasks s') = om_get j (tasks s)) /\
    (forall t', id ∈ ready s' -> om_get id (tasks s') = Some t' -> survives n t') /\
    forall fuel, schedule (S fuel) w s target = schedule fuel w' s' target.
Proof.
  intros Hs Hw E Hne Ht (t' & p & Hp & Hsv) Hcomp. destruct (Hp w Hw) as (w' & Epoll & Hw').
  destruct (head_task s id rest Hs E) as (t0 & Ht0 & Erem). rewrite Ht in Ht0. injection Ht0 as <-.
  pose proof Hs as (Hto & Hco & Hnd & _). exists w'. destruct p as [|o].
  - eexists. split; [done|]. split; [by apply (sched_ok_requeue s id rest t')|]. cbn [ready completed tasks].
    split; [done|]. split; [by right|]. split; [intros j Hj; rewrite tasks_requeue by done; by rewrite decide_False|].
    split.
    { intros t2 _. rewrite tasks_requeue by done. rewrite decide_True by done. intros [= <-]. by apply Hsv. }
    intros fuel. cbn [schedule]. rewrite E, Erem, Epoll. unfold take_completed. cbn [completed].
    pose proof (om_remove_old target (completed s)) as Ho. rewrite Hcomp in Ho.
    destruct (om_remove target (completed s)). cbn in Ho. by subst.
  - eexists. split; [done|]. split; [by apply (sched_ok_finish s id rest o)|]. cbn [ready completed tasks].
    assert (om_get target (fst (om_insert id o (completed s))) = None) as Hc2.
    { rewrite om_get_insert by done. by rewrite decide_False by congruence. }
    split; [done|]. split; [by left|]. split; [intros j Hj; rewrite om_get_remove by done; by rewrite decide_False|].
    split.
    { intros t2 Hin. rewrite E in Hnd. apply list.NoDup_cons in Hnd as [Hni _]. done. }
    intros fuel. cbn [schedule]. rewrite E, Erem, Epoll. destruct (Z.eqb_spec id target); [done|].
    unfold take_completed. cbn [completed].
    pose proof (om_remove_old target (fst (om_insert id o (completed s)))) as Ho. rewrite Hc2 in Ho.
    destruct (om_remove target (fst (om_insert id o (completed s)))). cbn in Ho. by subst.
Qed.

(** With the target behind [pre] in the queue and [n] polls from its end, the
    loop returns its outcome. *)
Definition reaches target (n : nat) o (pre : list Z) : Prop := forall t post w s L fuel,
  completes t n o -> sched_ok s -> I w -> ready s = pre ++ target :: post -> (length (ready s) <= L)%nat ->
  om_get target (tasks s) = Some t -> om_get target (completed s) = None ->
  all_survive (S n) s pre -> all_survive n s post ->
  (n * L + length pre < fuel)%nat ->
  exists w' s', schedule fuel w s target = Some (Ret (w', s', Ok o)) /\ I w'.

(** The head takes its turn and the target moves up. *)
Lemma reaches_skip target n o id pre : reaches target n o pre -> reaches target n o (id :: pre).
Proof.
  intros IH t post w s L fuel Hc Hs Hw Er HL Ht Hcomp Hpre Hpost Hf. destruct fuel as [|fuel]; [lia|].
  assert (id <> target /\ (id ∉ pre) /\ (id ∉ post)) as (Hne & Hnp & Hnq).
  { destruct Hs as (_ & _ & Hnd & _). rewrite Er in Hnd. cbn [app] in Hnd. apply list.NoDup_cons in Hnd as [Hni _].
    rewrite elem_of_app, elem_of_cons in Hni. naive_solver. }
  destruct (head_task s id (pre ++ target :: post) Hs Er) as (ti & Hti & _).
  destruct (schedule_turn n w s target id (pre ++ target :: post) ti) as
    (w' & s' & Hw' & Hs' & Hcomp' & Hready & Hsame & Hsv & Hstep); [done..|apply (Hpre id); [by left|done]|done|].
  rewrite Hstep. rewrite Er in HL. cbn [length app] in HL, Hf. rewrite length_app in HL. cbn [length] in HL.
  assert (exists post', ready s' = pre ++ target :: post' /\ (length post' <= S (length post))%nat /\
            (forall j, j ∈ post' -> (j = id /\ id ∈ ready s') \/ (j <> id /\ j ∈ post))) as (post' & Er' & Hl' & Hin').
  { destruct Hready as [E|E].
    - exists post. split; [done|]. split; [lia|]. intros j Hj. right. split; [by intros ->|done].
    - exists (post ++ [id]). split; [by rewrite E, <- app_assoc|]. split; [rewrite length_app; cbn; lia|].
      intros j. rewrite elem_of_app, list_elem_of_singleton. destruct (decide (j = id)) as [->|]; [|naive_solver].
      left. split; [done|]. rewrite E, elem_of_app, list_elem_of_singleton. by right. }
  eapply (IH t post' w' s' L); try done.
  - rewrite Er', length_app. cbn [length]. lia.
  - by rewrite Hsame.
  - eapply all_survive_ext; [intros j Hj; apply Hsame; by intros ->|]. intros j tj Hj. apply Hpre. by right.
  - intros j tj Hj Hg. destruct (Hin' j Hj) as [[-> Hin]|[Hji Hin]]; [by apply Hsv|].
    rewrite Hsame in Hg by done. by apply (Hpost j).
  - lia.
Qed.

Lemma schedule_reaches target n o pre : reaches target n o pre.
Proof.
  revert pre. induction n as [|n IHn]; intros pre; (induction pre as [|id pre IHp]; [|by apply reaches_skip]);
    intros t post w s L fuel Hc Hs Hw Er HL Ht Hcomp Hpre Hpost Hf; (destruct fuel as [|fuel]; [lia|]);
    destruct (head_task s target post Hs Er) as (t0 & Ht0 & Erem); rewrite Ht in Ht0; injection Ht0 as <-;
    cbn [schedule]; rewrite Er; cbn [app]; rewrite Erem.
  - inversion Hc as [? t' ? Hp|]; subst. destruct (Hp w Hw) as (w' & -> & Hw'). rewrite Z.eqb_refl. by do 2 eexists.
  - inversion Hc as [|? t' ? ? Hp Hc']; subst. destruct (Hp w Hw) as (w' & -> & Hw'). unfold take_completed. cbn [completed].
    pose proof (om_remove_old target (completed s)) as Ho. rewrite Hcomp in Ho.
    destruct (om_remove target (completed s)). cbn in Ho. subst. rewrite Er in HL. cbn [length app] in HL.
    eapply (IHn post t' [] w' _ L); [done|by apply (sched_ok_requeue s target post t')|done|done|..].
    + cbn [ready]. rewrite length_app. cbn. lia.
    + cbn [tasks]. rewrite tasks_requeue by done. by rewrite decide_True.
    + done.
    + eapply all_survive_ext; [|exact Hpost]. intros j Hj. cbn [tasks]. rewrite tasks_requeue by done.
      rewrite decide_False; [done|]. intros ->. destruct Hs as (_ & _ & Hnd & _). rewrite Er in Hnd.
      by apply list.NoDup_cons in Hnd as [? _].
    + intros j t2 Hj. by apply not_elem_of_nil in Hj.
    + lia.
Qed.

Lemma survives_le n m t : (m <= n)%nat -> survives n t -> survives m t.
Proof. induction 1; [done|]. intros Hs. by apply IHle, survives_weaken. Qed.

(** Enough rounds of the queue bring the target to its outcome. *)
Lemma run_until_completes s w target t n m o :
  sched_ok s -> I w -> om_get target (tasks s) = Some t -> om_get target (completed s) = None ->
  completes t m o -> (m < n)%nat -> all_survive n s (ready s) ->
  exists w' s', run_until_result (n * length (ready s)) w s target = Some (Ret (w', s', Ok o)).
Proof.
  intros Hs Hw Ht Hcomp Hc Hm Hsv.
  pose proof Hs as (_ & _ & _ & Hr). assert (target ∈ ready s) as Hin by (apply Hr; by eexists).
  apply list_elem_of_split in Hin as (pre & post & Er).
  destruct (schedule_reaches target m o pre t post w s (length (ready s)) (n * length (ready s))%nat)
    as (w' & s' & E & _); [done|done|done|done|done|done|done| | | |].
  - intros j tj Hj Hg. apply (survives_le n); [lia|]. apply (Hsv j); [|done]. rewrite Er, elem_of_app. by left.
  - intros j tj Hj Hg. apply (survives_le n); [lia|]. apply (Hsv j); [|done]. rewrite Er, elem_of_app, elem_of_cons. right. by right.
  - assert (length pre < length (ready s))%nat by (rewrite Er, length_app; cbn; lia). nia.
  - exists w', s'. unfold run_until_result, take_completed.
    pose proof (om_remove_old target (completed s)) as Ho. rewrite Hcomp in Ho.
    destruct (om_remove target (completed s)). cbn in Ho. by subst.
Qed.

(** C32: the cooperative scheduler is fair and keeps tasks apart. If every queued
    task can be polled without an error and the target ends after [n] more
    polls on its own, then asking the scheduler for the target returns, within
    [n + 1] rounds of the queue, exactly the outcome the target reaches when it
    is run alone, whatever the other tasks do. *)
Theorem scheduler_fair s w target t n o :
  sched_ok s -> I w -> om_get target (tasks s) = Some t -> om_get target (completed s) = None ->
  completes t n o -> all_survive (S n) s (ready s) ->
  (exists w', run_to_completion (S n) w t = Some (Ret (w', Ok o))) /\
  exists w' s', run_until_result (S n * length (ready s)) w s target = Some (Ret (w', s', Ok o)).
Proof.
  intros Hs Hw Ht Hcomp Hc Hsv. split; [destruct (completes_alone t n o w Hc Hw) as (w' & E & _); by exists w'|].
  apply (run_until_completes s w target t (S n) n o); auto with lia.
Qed.
End Schedule.

(** ** Instances *)

(** A personality whose frame is a countdown, used to instantiate the theorem. *)
#[local] Instance countdown : GuestPersonality unit nat unit Z := {|
  build_root_frame := fun _ _ n _ => Ret (Ok (Z.to_nat n, tt));
  active_meter := fun _ _ => Ret None;
  run_one_entry := fun _ f g => Ret (Ok (mkExitInfo (match f with O => EXIT_HALT | _ => EXIT_PAGE_FAULT end) 0 (g - 1) [] 0, pred f));
  set_exit_state := fun f _ _ => f;
  on_halt := fun w c _ => Ret (w, Ok (c, FlowDone (outcome c 0 0 0 [])));
  on_ecall := fun _ w c _ => Ret (w, Ok (c, Resume));
  on_exit := fun w c _ => Ret (w, Ok (c, Resume));
|}.

Definition countdown_task (id : Z) (n : nat) : KernelTask nat unit Z :=
  mkTask id (mkCtx 0 [instance_with_meta n 0 0 tt] (gas_new None 100) 1).

Definition two_tasks : @KernelScheduler nat unit Z :=
  mkScheduler 0 2 [(0, countdown_task 0 5); (1, countdown_task 1 1)] [] [0; 1].

Lemma two_tasks_ok : sched_ok two_tasks.
Proof.
  split; [|split; [|split]].
  - repeat constructor.
  - constructor.
  - apply (bool_decide_unpack (NoDup [0; 1])). by vm_compute.
  - intros id. rewrite om_get_is_Some by repeat constructor. by rewrite list_elem_of_In.
Qed.

Lemma scheduler_fair_witness :
  exists w' s', run_until_result 4 tt two_tasks 1 =
                Some (Ret (w', s', Ok (mkLoopOutcome 0 0 0 98 []))).
Proof.
  apply (scheduler_fair (fun _ => True) two_tasks tt 1 (countdown_task 1 1) 1); try done.
  - exact two_tasks_ok.
  - eapply CompletesStep; [intros [] _; exists tt; split; [reflexivity|done]|].
    eapply CompletesDone. intros [] _. exists tt. split; [reflexivity|done].
  - intros id t Hid Hg.
    assert (t = countdown_task 0 5 \/ t = countdown_task 1 1) as [-> | ->].
    { apply om_get_In in Hg. cbn in Hg. naive_solver. }
    + do 2 eexists. split; [intros [] _; exists tt; split; [reflexivity|done]|]. intros _.
      do 2 eexists. split; [intros [] _; exists tt; split; [reflexivity|done]|]. done.
    + do 2 eexists. split; [intros [] _; exists tt; split; [reflexivity|done]|]. intros _.
      do 2 eexists. split; [intros [] _; exists tt; split; [reflexivity|done]|]. done.
Defined.
