(* ===== verification/Frame.v ===== *)
(** Kernel frames of the Javm personality: the resident instance a frame runs,
    its slots, the gas sources it declares, its memory and the runtime it is
    entered with. Source: [src/rust/javm-guest-x86/src/call_loop.rs], with
    [run_one_entry] of [src/nub/nub-arch-x86/src/task.rs]. *)

From Stdlib Require Import ZArith Lia List Bool.
From stdpp Require Import base list numbers tactics.
From S2P Require Import Prelude MachineInt GasConst Mat OrdMap Program Merkle Ssz SszFacts SszContainer Radix CapData CapSlot CapImage Cap Cache CacheFacts CachedCap Task.
Open Scope Z_scope.

(** ** Constants *)

Definition OP_REPLY : Z := 0.
Definition OP_HOST_YIELD : Z := 16.
Definition OP_DERIVE_SPAWN : Z := 18.
Definition OP_IMAGE_HASH_CHAIN : Z := 20.
Definition OP_HOST_CALL : Z := 26.
Definition OP_CALL_RESUME : Z := 27.
Definition OP_DROP_RESUME : Z := 28.
Definition STATUS_OK : Z := 0.
Definition STATUS_YIELDED : Z := 1.
Definition MAX_DEPTH : nat := Z.to_nat 32768.
Definition SCRATCHPAD_SLOT : Z := 0.

Definition ERR_INSTANCE_NOT_FOUND : Z := 21.
Definition ERR_INSTANCE_KIND : Z := 22.
Definition ERR_IMAGE_NOT_FOUND : Z := 23.
Definition ERR_IMAGE_KIND : Z := 24.
Definition ERR_ENDPOINT_OOB : Z := 25.
Definition ERR_DERIVE_SLOT_OOB : Z := 31.
Definition ERR_HOST_CALL_SLOT_EMPTY : Z := 40.
Definition ERR_JIT_FAILED : Z := 50.
Definition ERR_DEPTH_LIMIT : Z := 51.
Definition ERR_MAP_BAD_KIND : Z := 60.
Definition ERR_YIELD_UNHANDLED : Z := 70.
Definition ERR_YIELD_BAD_SENDER : Z := 71.
Definition ERR_GAS_SLOT_EMPTY : Z := 72.
Definition ERR_GAS_SLOT_INVALID : Z := 73.
Definition ERR_PENDING_ORIGIN_INVARIANT : Z := 74.

(** ** The machine below the kernel *)

(** Page tables, compiled code and ring 3 are not modelled: [Rt] is
    [FrameRuntime] and [enter_frame] runs the guest on it until its next exit,
    faulting pages into the memory, the page states and the read-only units it
    is given. *)
Class Machine (Rt : Type) : Type := {
  build_frame_runtime :
    forall (lane : Z) (image : CapHash) (code_bytes : list Z) (code_base code_pa data_base mem_size : Z)
           (ranges : list MatRange), option Rt;
  enter_frame :
    forall (lane : Z) (rt : Rt) (gas pc : Z) (regs : list Z) (mem : DataCap) (mat_state ro_units : list Z),
      ExitInfo * Rt * DataCap * list Z * list Z;
  rearm_cow : Rt -> list Z -> Rt;
  code_pa_of : CapHash -> option Z;
}.

(** ** Frames *)

Record FrameOrigin : Type := mkOrigin { fo_owner : nat; fo_slot : Key }.

Record KernelFrame (Rt Ci : Type) : Type := mkFrame {
  k_instance : ResidentInstance Rt Ci;
  k_origin : option FrameOrigin;
  k_pending : OrdMap Key unit;
  k_pinned : list Key;
  k_mat_state : list Z;
  k_ro_units : list Z;
  k_runtime : option Rt;
}.
Arguments mkFrame {Rt Ci}. Arguments k_instance {Rt Ci}. Arguments k_origin {Rt Ci}.
Arguments k_pending {Rt Ci}. Arguments k_pinned {Rt Ci}. Arguments k_mat_state {Rt Ci}.
Arguments k_ro_units {Rt Ci}. Arguments k_runtime {Rt Ci}.

(** The gas sources of a frame: its usable meters and the one in use. *)
Record FrameGas : Type := mkFrameGas { fg_meters : list Key; fg_active : option nat }.

Definition host_budgeted : FrameGas := mkFrameGas [] None.
Definition declared (ms : list Key) : FrameGas := mkFrameGas ms (Some 0%nat).
Definition active_key (g : FrameGas) : option Key :=
  match fg_active g with Some i => fg_meters g !! i | None => None end.
Definition primary_key (g : FrameGas) : option Key := head (fg_meters g).
Definition advance (g : FrameGas) : FrameGas * bool :=
  match fg_active g with
  | None => (g, false)
  | Some i => if (S i <? length (fg_meters g))%nat then (mkFrameGas (fg_meters g) (Some (S i)), true) else (g, false)
  end.
Definition reset_to_primary (g : FrameGas) : FrameGas :=
  match fg_meters g with [] => g | ms => mkFrameGas ms (Some 0%nat) end.

Section Frame.
  Context {D : Digest} {K : KernelHash} {Rt Ci : Type} {Mc : Machine Rt}.

  (** The published blobs; they do not change while a task runs. *)
  Variable CACHE : Directory (CachedCap Rt Ci).

Definition blob (h : CapHash) : option Cap := option_map cc_cap (get_blob CACHE h).

(** ** Field updates *)

Definition set_regs (f : KernelFrame Rt Ci) (i : nat) (v : Z) : KernelFrame Rt Ci :=
  let inst := k_instance f in
  mkFrame (mkInstanceCap (in_image_hash_chain inst) (in_image_hash inst) (in_root_cnode inst) (in_mem inst)
             (<[i := v]> (in_regs inst)) (in_pc inst) (in_gas_remaining inst))
    (k_origin f) (k_pending f) (k_pinned f) (k_mat_state f) (k_ro_units f) (k_runtime f).

Definition set_pc (f : KernelFrame Rt Ci) (pc : Z) : KernelFrame Rt Ci :=
  let inst := k_instance f in
  mkFrame (mkInstanceCap (in_image_hash_chain inst) (in_image_hash inst) (in_root_cnode inst) (in_mem inst)
             (in_regs inst) pc (in_gas_remaining inst))
    (k_origin f) (k_pending f) (k_pinned f) (k_mat_state f) (k_ro_units f) (k_runtime f).

Definition set_pending (f : KernelFrame Rt Ci) (p : OrdMap Key unit) : KernelFrame Rt Ci :=
  mkFrame (k_instance f) (k_origin f) p (k_pinned f) (k_mat_state f) (k_ro_units f) (k_runtime f).

Definition set_runtime (f : KernelFrame Rt Ci) (rt : option Rt) : KernelFrame Rt Ci :=
  mkFrame (k_instance f) (k_origin f) (k_pending f) (k_pinned f) (k_mat_state f) (k_ro_units f) rt.

(** [frame.instance.regs[i]]. *)
Definition reg (f : KernelFrame Rt Ci) (i : nat) : Z := nth i (in_regs (k_instance f)) 0.

(** [Key::from((regs[i] & 0xFF) as u8)]. *)
Definition slot_reg (f : KernelFrame Rt Ci) (i : nat) : Key := key_from_u8 (Z.land (reg f i) 0xFF).

(** ** Slots *)

Definition slot_is_pending (f : KernelFrame Rt Ci) (slot : Key) : bool :=
  match om_get slot (k_pending f) with Some _ => true | None => false end.

(** The pinned slots are sorted, so the binary search is membership. *)
Definition slot_write_blocked (f : KernelFrame Rt Ci) (slot : Key) : bool :=
  binary_contains slot (k_pinned f) || slot_is_pending f slot.

Definition with_root_cnode (f : KernelFrame Rt Ci) : Res (ResidentCNode Rt Ci) :=
  match in_root_cnode (k_instance f) with
  | COwned (mkCachedCap _ (CacheCNode cnode)) => Ret cnode
  | _ => Abort
  end.

Definition set_root_cnode (f : KernelFrame Rt Ci) (cnode : ResidentCNode Rt Ci) : KernelFrame Rt Ci :=
  let inst := k_instance f in
  let root := match in_root_cnode inst with
              | COwned (mkCachedCap cap _) => COwned (mkCachedCap cap (CacheCNode cnode))
              | t => t
              end in
  mkFrame (mkInstanceCap (in_image_hash_chain inst) (in_image_hash inst) root (in_mem inst)
             (in_regs inst) (in_pc inst) (in_gas_remaining inst))
    (k_origin f) (k_pending f) (k_pinned f) (k_mat_state f) (k_ro_units f) (k_runtime f).

(** [frame_cnode_set] and [frame_cnode_set_key]. *)
Definition frame_cnode_set (f : KernelFrame Rt Ci) (slot : Key) (t : option (Target Rt Ci)) : Res (KernelFrame Rt Ci) :=
  let! cn := with_root_cnode f in Ret (set_root_cnode f (fst (set_key cn slot t))).

Definition frame_cnode_take_key (f : KernelFrame Rt Ci) (slot : Key) :
  Res (KernelFrame Rt Ci * option (Target Rt Ci)) :=
  let! cn := with_root_cnode f in
  let '(cn', old) := take_key cn slot in Ret (set_root_cnode f cn', old).

Definition with_cnode_peek (f : KernelFrame Rt Ci) (slot : Key) : Res (option (Target Rt Ci)) :=
  let! cn := with_root_cnode f in Ret (peek_key cn slot).

(** Guest access to a reserved slot traps. *)
Definition with_cnode_peek_guest (f : KernelFrame Rt Ci) (slot : Key) : Res (Result (option (Target Rt Ci)) Z) :=
  if slot_is_pending f slot then Ret (Err EXIT_TRAP)
  else let! t := with_cnode_peek f slot in Ret (Ok t).

(** The wire cap a target names. *)
Definition resolve (t : Target Rt Ci) : option Cap :=
  match t with CHash h => blob h | COwned cc => Some (cc_cap cc) end.

Definition read_instance_cap (f : KernelFrame Rt Ci) (slot : Key) : Res (option (InstanceCap Cap)) :=
  let! t := with_cnode_peek f slot in
  Ret (match t with
       | None => None
       | Some t => match resolve t with Some (Cap_Instance i) => Some i | _ => None end
       end).

Definition read_instance_cap_guest (f : KernelFrame Rt Ci) (slot : Key) : Res (Result (option (InstanceCap Cap)) Z) :=
  if slot_is_pending f slot then Ret (Err EXIT_TRAP)
  else let! i := read_instance_cap f slot in Ret (Ok i).

(** ** Gas sources *)

Definition gas_meter_key_from_ref (t : Target Rt Ci) : Result Key Z :=
  match resolve t with
  | Some (Cap_Instance i) => match gas_meter_key i with Some k => Ok k | None => Err ERR_GAS_SLOT_INVALID end
  | _ => Err ERR_GAS_SLOT_INVALID
  end.

Fixpoint resolve_meters (f : KernelFrame Rt Ci) (slots ms : list Key) : Res (Result (list Key) Z) :=
  match slots with
  | [] => Ret (Ok ms)
  | slot :: r =>
      if slot_is_pending f slot then Ret (Err ERR_GAS_SLOT_INVALID)
      else
        let! t := with_cnode_peek f slot in
        match t with
        | None => resolve_meters f r ms
        | Some t =>
            match gas_meter_key_from_ref t with
            | Err e => Ret (Err e)
            | Ok m => resolve_meters f r (if existsb (fun k => bool_decide (k = m)) ms then ms else ms ++ [m])
            end
        end
  end.

Definition frame_image (f : KernelFrame Rt Ci) : option Cap := blob (in_image_hash (k_instance f)).

Definition resolve_frame_gas (f : KernelFrame Rt Ci) : Res (Result (option FrameGas) Z) :=
  match frame_image f with
  | None => Ret (Err ERR_IMAGE_NOT_FOUND)
  | Some (Cap_Image i) =>
      match ic_gas_slots i with
      | [] => Ret (Ok None)
      | slots =>
          let* ms := resolve_meters f slots [] in
          Ret (match ms with [] => Err ERR_GAS_SLOT_EMPTY | _ => Ok (Some (declared ms)) end)
      end
  | Some _ => Ret (Err ERR_IMAGE_KIND)
  end.

(** ** Catch-sets *)

Definition snapshot_catch_set (f : KernelFrame Rt Ci) : Res (Result (list Key) Z) :=
  match frame_image f with
  | Some (Cap_Image i) =>
      match ic_yield_receiver_slot i with
      | None => Ret (Ok [])
      | Some slot =>
          let! r := read_instance_cap_guest f slot in
          match r with
          | Err _ => Ret (Err EXIT_TRAP)
          | Ok None => Ret (Ok [])
          | Ok (Some inst) =>
              let! keys := yield_receiver_keys inst in
              Ret (Ok (sorted_set (default [] keys)))
          end
      end
  | _ => Ret (Ok [])
  end.

Definition read_scratchpad_head (f : KernelFrame Rt Ci) : Res (list Z) :=
  if Z.of_nat HEAD_LEN <=? content_len (in_mem (k_instance f))
  then copy_into (in_mem (k_instance f)) 0 (Z.of_nat HEAD_LEN)
  else Ret (replicate HEAD_LEN 0).

(** ** Instance memory *)

(** [MEM_CACHE]: the composed memory of each image, by image hash. *)
Definition MemCache : Type := OrdMap CapHash DataCap.

Definition place_mapping (img : ImageCap) (mem : DataCap) (m : MemoryMapping) : DataCap :=
  match mm_source m with
  | [] => mem
  | src_slot :: _ =>
      match List.find (fun e => bool_decide (se_slot e = src_slot)) (ic_pinned img ++ ic_initial img) with
      | None => mem
      | Some e =>
          match blob (se_cap_hash e) with
          | Some (Cap_Data d) => place_shared mem (saturating_sub (mm_start m) DATA_BASE) d
          | _ => mem
          end
      end
  end.

Definition compose_mem_top (img : ImageCap) : Z :=
  match map (fun m => wrap 64 (mm_start m + mm_size m)) (ic_mappings img) with
  | [] => DATA_BASE
  | x :: r => fold_left Z.max r x
  end.

Definition compose_instance_mem (img : ImageCap) : DataCap :=
  fold_left (place_mapping img) (ic_mappings img)
    (data_from_bytes_sized [] (saturating_sub (compose_mem_top img) DATA_BASE)).

Definition build_instance_mem (w : MemCache) (image_hash : CapHash) (img : ImageCap) : MemCache * DataCap :=
  match om_get image_hash w with
  | Some clean => (w, clean)
  | None => let mem := compose_instance_mem img in (fst (om_insert image_hash mem w), mem)
  end.

Definition evict_mem_cache : MemCache := [].

(** ** Building a frame *)

Definition materialize_root_cnode (root : CapHashOrRef Cap) : Result (ResidentCNode Rt Ci) Z :=
  match root with
  | CHash h =>
      if bool_decide (h = zero_chunk) then Ok cnode_new
      else match blob h with
           | None => Err ERR_INSTANCE_NOT_FOUND
           | Some (Cap_CNode cn) => Ok (copy_wire_cnode_into_cached cn cnode_new)
           | Some _ => Err ERR_INSTANCE_KIND
           end
  | COwned (Cap_CNode cn) => Ok (copy_wire_cnode_into_cached cn cnode_new)
  | COwned _ => Err ERR_INSTANCE_KIND
  end.

(** Pinned slots overwrite, initial slots fill. *)
Definition overlay_pinned (img : ImageCap) (cn : ResidentCNode Rt Ci) : ResidentCNode Rt Ci :=
  fold_left (fun cn e => fst (set_key cn (se_slot e) (Some (CHash (se_cap_hash e))))) (ic_pinned img) cn.
Definition fill_initial (img : ImageCap) (cn : ResidentCNode Rt Ci) : ResidentCNode Rt Ci :=
  fold_left (fun cn e => match get_key cn (se_slot e) with
                         | None => fst (set_key cn (se_slot e) (Some (CHash (se_cap_hash e))))
                         | Some _ => cn
                         end) (ic_initial img) cn.

(** [regs[7 + i] = args[i]]. *)
Fixpoint put_args (regs : list Z) (i : nat) (args : list Z) : list Z :=
  match args with [] => regs | v :: r => put_args (<[i := v]> regs) (S i) r end.

Definition build_frame_inner (cap : InstanceCap Cap) (cached_root : option (ResidentCNode Rt Ci))
    (origin : option FrameOrigin) (endpoint_idx : Z) (args : list Z) : Result (KernelFrame Rt Ci) Z :=
  match blob (in_image_hash cap) with
  | None => Err ERR_IMAGE_NOT_FOUND
  | Some (Cap_Image img) =>
      let target := key_from_u8 (Z.land endpoint_idx 0xFF) in
      match List.find (fun e => bool_decide (fst e = target)) (ic_endpoints img) with
      | None => Err ERR_ENDPOINT_OOB
      | Some (_, ep) =>
          let regs := put_args (ep_initial_regs ep) 7 args in
          let? cnode := match cached_root with
                        | Some cnode => Ok cnode
                        | None => materialize_root_cnode (in_root_cnode cap)
                        end in
          let cnode := fill_initial img (overlay_pinned img cnode) in
          let pages := Z.to_nat (content_len (in_mem cap) / PAGE_SIZE) in
          Ok (mkFrame (mkInstanceCap (in_image_hash_chain cap) (in_image_hash cap) (COwned (cached_cnode cnode))
                         (in_mem cap) regs (ep_entry_pc ep) 0)
                origin [] (map se_slot (ic_pinned img)) (replicate pages 0) [] None)
      end
  | Some _ => Err ERR_IMAGE_KIND
  end.

Definition build_frame_from_owned (cap : Cap) (cached_root : option (ResidentCNode Rt Ci)) (origin : FrameOrigin)
    (endpoint_idx : Z) (args : list Z) : Result (KernelFrame Rt Ci) Z :=
  match cap with
  | Cap_Instance inst => build_frame_inner inst cached_root (Some origin) endpoint_idx args
  | _ => Err ERR_INSTANCE_KIND
  end.

Definition build_frame_from_published (instance_hash : CapHash) (endpoint_idx : Z) (args : list Z) :
  Result (KernelFrame Rt Ci) Z :=
  match blob instance_hash with
  | None => Err ERR_INSTANCE_NOT_FOUND
  | Some (Cap_Instance inst) => build_frame_inner inst None None endpoint_idx args
  | Some _ => Err ERR_INSTANCE_KIND
  end.

(** ** Folding a frame back *)

Definition take_resident_root_cnode (t : Target Rt Ci) :
  Result (CapHashOrRef Cap * option (ResidentCNode Rt Ci)) Z :=
  match t with
  | CHash h => Ok (CHash h, None)
  | COwned (mkCachedCap cap cache) =>
      match cache with
      | CacheCNode cnode => Ok (CHash zero_chunk, Some cnode)
      | CacheNone => match cap with
                     | Cap_CNode cn => Ok (COwned (Cap_CNode cn), None)
                     | _ => Err ERR_INSTANCE_KIND
                     end
      | _ => Err ERR_INSTANCE_KIND
      end
  end.

Definition resident_instance_to_cached_cap (inst : ResidentInstance Rt Ci) (runtime : option Rt) :
  Result (CachedCap Rt Ci) Z :=
  let? (wire, resident) := take_resident_root_cnode (in_root_cnode inst) in
  let cap := Cap_Instance (mkInstanceCap (in_image_hash_chain inst) (in_image_hash inst) wire (in_mem inst)
                             (in_regs inst) (in_pc inst) (in_gas_remaining inst)) in
  Ok (mkCachedCap cap (match runtime, resident with
                       | None, None => CacheNone
                       | _, _ => CacheInstance runtime resident
                       end)).

(** ** Entering a frame *)

(** The read-only ranges of the pinned mappings. *)
Definition pinned_ranges (img : ImageCap) : list MatRange :=
  concat (map (fun m =>
    if match mm_source m with [] => true | _ => false end || negb (mapping_is_pinned img (wrap 32 (mm_start m))) then []
    else
      let span := wrap 32 (next_multiple_of (wrap 32 (mm_size m)) PAGE_SIZE) in
      if span =? 0 then []
      else [mkMatRange (wrap 32 (mm_start m)) (saturating_add 32 (wrap 32 (mm_start m)) span) (PageKind_as_u8 PinnedCapRo)])
    (ic_mappings img)).

Definition build_runtime (lane : Z) (f : KernelFrame Rt Ci) : Result Rt Z :=
  match frame_image f with
  | None => Err ERR_IMAGE_NOT_FOUND
  | Some (Cap_Image img) =>
      match code_mapping img with
      | None => Err ERR_IMAGE_KIND
      | Some (code_base, code_bytes) =>
          match code_pa_of (in_image_hash (k_instance f)) with
          | None => Err ERR_MAP_BAD_KIND
          | Some code_pa =>
              let extent := wrap 32 (content_len (in_mem (k_instance f))) in
              let mem_size := saturating_add 32 DATA_BASE extent in
              let pages := extent / PAGE_SIZE in
              let ranges := pinned_ranges img ++
                            (if 0 <? pages then [mkMatRange DATA_BASE mem_size (PageKind_as_u8 UnpinnedCapCow)] else []) in
              match build_frame_runtime lane (in_image_hash (k_instance f)) code_bytes code_base code_pa DATA_BASE
                      mem_size ranges with
              | Some rt => Ok rt
              | None => Err ERR_JIT_FAILED
              end
          end
      end
  | Some _ => Err ERR_IMAGE_KIND
  end.

(** The runtime is built on the first entry and reused after. *)
Definition javm_run_one_entry (lane : Z) (f : KernelFrame Rt Ci) (gas : Z) :
  Res (Result (ExitInfo * KernelFrame Rt Ci) Z) :=
  match (match k_runtime f with Some rt => Ok rt | None => build_runtime lane f end) with
  | Err e => Ret (Err e)
  | Ok rt =>
      let inst := k_instance f in
      let '(info, rt', mem', mat', ro') :=
        enter_frame lane rt gas (wrap 32 (in_pc inst)) (in_regs inst) (in_mem inst) (k_mat_state f) (k_ro_units f) in
      Ret (Ok (info,
        mkFrame (mkInstanceCap (in_image_hash_chain inst) (in_image_hash inst) (in_root_cnode inst) mem'
                   (in_regs inst) (in_pc inst) (in_gas_remaining inst))
          (k_origin f) (k_pending f) (k_pinned f) mat' ro' (Some rt')))
  end.

(** [*p.regs = info.regs; *p.pc = info.pc]. *)
Definition javm_set_exit_state (f : KernelFrame Rt Ci) (regs : list Z) (pc : Z) : KernelFrame Rt Ci :=
  let inst := k_instance f in
  mkFrame (mkInstanceCap (in_image_hash_chain inst) (in_image_hash inst) (in_root_cnode inst) (in_mem inst)
             regs pc (in_gas_remaining inst))
    (k_origin f) (k_pending f) (k_pinned f) (k_mat_state f) (k_ro_units f) (k_runtime f).

(** ** Call cost *)

Definition call_frame_cost_for (image_hash : CapHash) : Result Z Z :=
  match blob image_hash with
  | None => Err ERR_IMAGE_NOT_FOUND
  | Some (Cap_Image img) =>
      let cluster := Z.shiftl 1 CLUSTER_SHIFT in
      let ro_units :=
        fold_left (fun u m => if mapping_is_pinned img (wrap 32 (mm_start m))
                              then saturating_add 64 u (div_ceil (mm_size m) cluster) else u)
          (ic_mappings img) (div_ceil (zlen (ic_code img)) cluster) in
      let cost := call_frame_cost (Z.min (zlen (ic_code img)) (2 ^ 32 - 1)) (Z.min ro_units (2 ^ 32 - 1)) in
      Ok (Z.min cost (2 ^ 63 - 1))
  | Some _ => Err ERR_IMAGE_KIND
  end.

Definition host_call_frame_cost (f : KernelFrame Rt Ci) : Res (Result (option Z) Z) :=
  let slot := slot_reg f 7 in
  if slot_is_pending f slot then Ret (Ok None)
  else
    let! t := with_cnode_peek f slot in
    Ret (let? image_hash :=
           match t with
           | None => Err ERR_HOST_CALL_SLOT_EMPTY
           | Some t => match resolve t with
                       | Some (Cap_Instance i) => Ok (in_image_hash i)
                       | Some _ => Err ERR_INSTANCE_KIND
                       | None => Err ERR_INSTANCE_NOT_FOUND
                       end
           end in
         let? cost := call_frame_cost_for image_hash in Ok (Some cost)).
End Frame.
