(* ===== verification/CallLoop.v ===== *)
(** The Javm personality: calls, returns, yields and gas exhaustion on the
    in-kernel call stack. Source: [src/rust/javm-guest-x86/src/call_loop.rs]. *)

From Stdlib Require Import ZArith Lia List Bool.
From stdpp Require Import base list numbers tactics.
From S2P Require Import Prelude MachineInt GasConst Mat OrdMap Program Merkle Ssz SszFacts SszContainer Radix CapData CapSlot CapImage Cap Cache CacheFacts CachedCap Task Frame.
Open Scope Z_scope.

Record JavmEntryMeta : Type := mkMeta {
  owner : option nat;
  owner_catch_set : list Key;
  entry_gas : FrameGas;
}.

Inductive YieldOutcome : Type :=
| YInline
| YTrap
| YRoute (key sender_slot : Key).

Section CallLoop.
  Context {D : Digest} {K : KernelHash} {Rt Ci : Type} {Mc : Machine Rt}.
  Variable CACHE : Directory (CachedCap Rt Ci).

Notation Frame := (KernelFrame Rt Ci).
Notation Entry := (StackEntry (KernelFrame Rt Ci) JavmEntryMeta).
Notation Stack := (list (StackEntry (KernelFrame Rt Ci) JavmEntryMeta)).
Notation Ctx := (TaskCtx (KernelFrame Rt Ci) JavmEntryMeta Key).

Definition scratch_key : Key := key_from_u8 SCRATCHPAD_SLOT.

(** A change of the frame an entry runs. *)
Definition update_frame (stack : Stack) (idx : nat) (u : Frame -> Res Frame) : Res Stack :=
  let! f := frame_at stack idx in let! f' := u f in set_frame stack idx f'.

Definition set_meta (stack : Stack) (idx : nat) (m : JavmEntryMeta) : Res Stack :=
  match stack !! idx with
  | None => Abort
  | Some e => Ret (<[idx := mkStackEntry (st_kind e) (st_target e) (st_iid e) m]> stack)
  end.

Definition javm_active_meter (stack : Stack) (idx : nat) : Res (option Key) :=
  match stack !! idx with None => Abort | Some e => Ret (active_key (entry_gas (st_meta e))) end.

(** ** Yield routing *)

(** The walk along owner edges: the first owner whose edge catches [key]. *)
Fixpoint find_catcher (fuel : nat) (stack : Stack) (node : nat) (key : Key) : Res (option nat) :=
  match fuel with
  | O => Abort
  | S n =>
      match stack !! node with
      | None => Abort
      | Some e =>
          match owner (st_meta e) with
          | None => Ret None
          | Some o => if binary_contains key (owner_catch_set (st_meta e)) then Ret (Some o)
                      else find_catcher n stack o key
          end
      end
  end.

(** [None] when nobody catches. Owner edges go down the stack, so its length
    is enough fuel. *)
Definition route_yield (stack : Stack) (top : nat) (key : Key) (payload : option (InstanceCap Cap)) : Res (option Stack) :=
  match stack !! top with
  | None => Abort
  | Some e =>
      let! catcher := find_catcher (S (length stack)) stack (st_target e) key in
      match catcher with
      | None => Ret None
      | Some o =>
          match stack !! o with
          | None => Abort
          | Some oe =>
              let! stack' := update_frame stack o (fun f =>
                let! f := match payload with
                          | Some inst => frame_cnode_set f scratch_key (Some (COwned (cached (Cap_Instance inst))))
                          | None => Ret f
                          end in
                Ret (set_regs f 8 STATUS_YIELDED)) in
              Ret (Some (stack' ++ [mkStackEntry EReference o (st_iid oe)
                                      (mkMeta (owner (st_meta oe)) [] (entry_gas (st_meta oe)))]))
          end
      end
  end.

(** Try the frame's next meter, then route [kernel:oog] with the primary gas
    handle. *)
Definition try_oog_yield (stack : Stack) (top : nat) (reattempt_pc : Z) : Res (option Stack) :=
  let! active := javm_active_meter stack top in
  match active with
  | None => Ret None
  | Some _ =>
      let! stack := update_frame stack top (fun f => Ret (set_pc f reattempt_pc)) in
      match stack !! top with
      | None => Abort
      | Some e =>
          let meta := st_meta e in
          let '(g, moved) := advance (entry_gas meta) in
          if moved then let! s := set_meta stack top (mkMeta (owner meta) (owner_catch_set meta) g) in Ret (Some s)
          else match primary_key (entry_gas meta) with
               | None => Ret None
               | Some meter =>
                   let! stack := set_meta stack top
                                   (mkMeta (owner meta) (owner_catch_set meta) (reset_to_primary (entry_gas meta))) in
                   let! payload := gas_handle meter in
                   route_yield stack top YK_OOG (Some payload)
               end
      end
  end.

(** ** Leaving a frame *)

Definition entry_origin (e : Entry) : option FrameOrigin :=
  match st_kind e with EInstance f => k_origin f | EReference => None end.

Fixpoint release_origins (stack : Stack) (start : nat) (origins : list FrameOrigin) : Res Stack :=
  match origins with
  | [] => Ret stack
  | o :: r =>
      if (fo_owner o <? start)%nat then
        let! stack' := update_frame stack (fo_owner o)
                         (fun f => Ret (set_pending f (fst (om_remove (fo_slot o) (k_pending f))))) in
        release_origins stack' start r
      else release_origins stack start r
  end.

Definition release_pending_origins_for_dropped (stack : Stack) (start : nat) : Res Stack :=
  release_origins stack start (omap entry_origin (drop start stack)).

Definition restore_instance_to_origin (stack : Stack) (o : FrameOrigin) (cap : CachedCap Rt Ci) : Res (Result Stack Z) :=
  let! f := frame_at stack (fo_owner o) in
  if slot_is_pending f (fo_slot o) then
    let! stack' := update_frame stack (fo_owner o) (fun f =>
      frame_cnode_set (set_pending f (fst (om_remove (fo_slot o) (k_pending f)))) (fo_slot o) (Some (COwned cap))) in
    Ret (Ok stack')
  else Ret (Err ERR_PENDING_ORIGIN_INVARIANT).

(** The popped instance, folded for its origin slot. *)
Definition fold_back (f : Frame) : Result (option (FrameOrigin * CachedCap Rt Ci)) Z :=
  match k_origin f with
  | None => Ok None
  | Some o =>
      let inst := k_instance f in
      let runtime := option_map (fun rt => rearm_cow rt (map fst (dc_overlay (in_mem inst)))) (k_runtime f) in
      let? cap := resident_instance_to_cached_cap
                    (mkInstanceCap (in_image_hash_chain inst) (in_image_hash inst) (in_root_cnode inst) (in_mem inst)
                       (in_regs inst) (in_pc inst) 0) runtime in
      Ok (Some (o, cap))
  end.

(** [true] when the stack drained. *)
Definition pop_and_reflect (stack : Stack) (return_value : Z) : Res (Result (Stack * bool) Z) :=
  match stack !! pred (length stack) with
  | Some (mkStackEntry (EInstance popped) _ _ _) =>
      let stack := take (pred (length stack)) stack in
      match k_pending popped with
      | _ :: _ => Ret (Err ERR_PENDING_ORIGIN_INVARIANT)
      | [] =>
          match stack with
          | [] => Ret (Ok ([], true))
          | _ =>
              let! (popped, scratch) := frame_cnode_take_key popped scratch_key in
              match fold_back popped with
              | Err e => Ret (Err e)
              | Ok owned_back =>
                  let! stack := update_frame stack (pred (length stack)) (fun f =>
                    let f := set_regs (set_regs f 7 return_value) 8 STATUS_OK in
                    match scratch with Some cap => frame_cnode_set f scratch_key (Some cap) | None => Ret f end) in
                  match owned_back with
                  | None => Ret (Ok (stack, false))
                  | Some (o, cap) =>
                      let* stack := restore_instance_to_origin stack o cap in Ret (Ok (stack, false))
                  end
              end
          end
      end
  | _ => Abort
  end.

Definition unwind_to_handler (stack : Stack) (top : nat) (return_value : Z) : Res (Result (Stack * bool) Z) :=
  match stack !! top with
  | None => Abort
  | Some e =>
      let h_inst := st_target e in
      let! stack := release_pending_origins_for_dropped stack (S h_inst) in
      pop_and_reflect (take (S h_inst) stack) return_value
  end.

(** ** Operations on a frame *)

(** [true] traps the guest. *)
Definition dispatch_derive_spawn (w : MemCache) (f : Frame) : Res (MemCache * Result (Frame * bool) Z) :=
  let image_slot := slot_reg f 7 in
  let dst_slot := slot_reg f 9 in
  if slot_write_blocked f dst_slot then Ret (w, Ok (f, true))
  else
    let! t := with_cnode_peek_guest f image_slot in
    match t with
    | Err _ => Ret (w, Ok (f, true))
    | Ok t =>
        let image_hash := match t with Some (CHash h) => h | _ => in_image_hash (k_instance f) end in
        let child_chain := khash (in_image_hash_chain (k_instance f) ++ image_hash) in
        match blob CACHE image_hash with
        | None => Ret (w, Err ERR_IMAGE_NOT_FOUND)
        | Some (Cap_Image img) =>
            let '(w', child_mem) := build_instance_mem CACHE w image_hash img in
            let cap := Cap_Instance (mkInstanceCap child_chain image_hash (CHash zero_chunk) child_mem
                                       (replicate NUM_REGS 0) 0 0) in
            let! f' := frame_cnode_set f dst_slot (Some (COwned (cached cap))) in
            Ret (w', Ok (f', false))
        | Some _ => Ret (w, Err ERR_IMAGE_KIND)
        end
    end.

(** The type identity of a target; [None] for caps that have none. *)
Definition type_identity (t : option (Target Rt Ci)) : Res (Result (option CapHash) Z) :=
  match t with
  | Some (CHash h) =>
      match blob CACHE h with
      | None => Ret (Err ERR_INSTANCE_NOT_FOUND)
      | Some (Cap_Instance i) => Ret (Ok (Some (in_image_hash_chain i)))
      | Some (Cap_Image _) => Ret (Ok (Some h))
      | Some _ => Ret (Ok None)
      end
  | Some (COwned cc) =>
      match cc_cap cc with
      | Cap_Instance i => Ret (Ok (Some (in_image_hash_chain i)))
      | Cap_Image i => let! h := cap_hash (Cap_Image i) in Ret (Ok (Some h))
      | _ => Ret (Ok None)
      end
  | None => Ret (Ok None)
  end.

Definition dispatch_image_hash_chain (f : Frame) : Res (Result (Frame * bool) Z) :=
  let src_slot := slot_reg f 7 in
  let dst_slot := slot_reg f 8 in
  if slot_write_blocked f dst_slot then Ret (Ok (f, true))
  else
    let! t := with_cnode_peek_guest f src_slot in
    match t with
    | Err _ => Ret (Ok (f, true))
    | Ok t =>
        let* chain := type_identity t in
        match chain with
        | None => Ret (Ok (f, true))
        | Some chain =>
            let! f' := frame_cnode_set f dst_slot (Some (COwned (cached (Cap_Data (data_from_bytes chain))))) in
            Ret (Ok (f', false))
        end
    end.

Definition mint_unit_handle (f : Frame) (handle : InstanceCap Cap) : Res (Frame * YieldOutcome) :=
  let dst := slot_reg f 9 in
  if slot_write_blocked f dst then Ret (f, YTrap)
  else let! f' := frame_cnode_set f dst (Some (COwned (cached (Cap_Instance handle)))) in Ret (f', YInline).

Definition mint_yield (f : Frame) : Res (Frame * YieldOutcome) :=
  let new_key := slot_reg f 8 in
  let sender_dst := slot_reg f 9 in
  let receiver_dst := slot_reg f 10 in
  if slot_write_blocked f sender_dst || slot_write_blocked f receiver_dst then Ret (f, YTrap)
  else
    let! sender := yield_sender new_key in
    let! f1 := frame_cnode_set f sender_dst (Some (COwned (cached (Cap_Instance sender)))) in
    let! f2 := frame_cnode_set f1 receiver_dst (Some (COwned (cached (Cap_Instance (yield_receiver [new_key]))))) in
    Ret (f2, YInline).

Definition merge_receivers (f : Frame) : Res (Result (Frame * YieldOutcome) Z) :=
  let a_slot := slot_reg f 8 in
  let b_slot := slot_reg f 9 in
  let dst := slot_reg f 10 in
  if slot_write_blocked f dst then Ret (Ok (f, YTrap))
  else
    let! a := read_instance_cap_guest CACHE f a_slot in
    match a with
    | Err _ => Ret (Ok (f, YTrap))
    | Ok None => Ret (Err ERR_YIELD_BAD_SENDER)
    | Ok (Some a) =>
        let! b := read_instance_cap_guest CACHE f b_slot in
        match b with
        | Err _ => Ret (Ok (f, YTrap))
        | Ok None => Ret (Err ERR_YIELD_BAD_SENDER)
        | Ok (Some b) =>
            let! m := merge_yield_receivers a b in
            match m with
            | None => Ret (Ok (f, YTrap))
            | Some m => let! f' := frame_cnode_set f dst (Some (COwned (cached (Cap_Instance m)))) in Ret (Ok (f', YInline))
            end
        end
    end.

(** Set a meter's balance, live or banked; the old balance goes to the guest. *)
Definition set_gas_meter (g : TaskGasState Key) (meter_key : Key) (value : Z) : TaskGasState Key * Z :=
  if decide (current_active g = Some meter_key) then (set_live g value, live_gas g)
  else
    let '(ms, old) := om_insert meter_key value (meters g) in
    (mkGas ms (live_gas g) (host_budget g) (root_active g) (current_active g), default 0 old).

Definition dispatch_host_yield (f : Frame) (g : TaskGasState Key) :
  Res (Result (Frame * TaskGasState Key * YieldOutcome) Z) :=
  let sender_slot := slot_reg f 7 in
  let! s := read_instance_cap_guest CACHE f sender_slot in
  match s with
  | Err _ | Ok None => Ret (Ok (f, g, YTrap))
  | Ok (Some inst) =>
      match yield_sender_key inst with
      | None => Ret (Ok (f, g, YTrap))
      | Some k =>
          if negb (is_kernel_yield_key k) then Ret (Ok (f, g, YRoute k sender_slot))
          else if bool_decide (k = YK_MINT_YIELD) then let! (f', o) := mint_yield f in Ret (Ok (f', g, o))
          else if bool_decide (k = YK_MERGE_YIELD_RECEIVER) then
            let* (f', o) := merge_receivers f in Ret (Ok (f', g, o))
          else if bool_decide (k = YK_MINT_GAS) then
            let! h := gas_handle (slot_reg f 8) in let! (f', o) := mint_unit_handle f h in Ret (Ok (f', g, o))
          else if bool_decide (k = YK_MINT_QUOTA) then
            let! h := quota_handle (slot_reg f 8) in let! (f', o) := mint_unit_handle f h in Ret (Ok (f', g, o))
          else if bool_decide (k = YK_SET_GAS_METER) then
            let '(g', previous) := set_gas_meter g (slot_reg f 8) (sext 64 (reg f 9)) in
            Ret (Ok (set_regs f 7 (wrap 64 previous), g', YInline))
          else Ret (Ok (f, g, YRoute k sender_slot))
      end
  end.

(** ** Calling *)

(** The hash slots a callee copies from its caller. *)
Definition inherited (cn : ResidentCNode Rt Ci) : list (Key * MissingOr (Target Rt Ci)) :=
  List.filter (fun e => negb (bool_decide (fst e = scratch_key)) &&
                        match snd e with Materialized (COwned _) => false | _ => true end) cn.

Definition inherit (child : ResidentCNode Rt Ci) (es : list (Key * MissingOr (Target Rt Ci))) : ResidentCNode Rt Ci :=
  fold_left (fun cn e => match om_get (fst e) cn with
                         | None => fst (om_insert (fst e) (snd e) cn)
                         | Some _ => cn
                         end) es child.

(** The frame a target is moved into. *)
Definition callee_frame (t : Target Rt Ci) (origin : FrameOrigin) (endpoint_idx : Z) (args : list Z) : Result Frame Z :=
  match t with
  | COwned (mkCachedCap cap cache) =>
      let '(rt, root) := match cache with CacheInstance rt root => (rt, root) | _ => (None, None) end in
      let? child := build_frame_from_owned CACHE cap root origin endpoint_idx args in
      Ok (match rt with Some _ => set_runtime child rt | None => child end)
  | CHash h =>
      match blob CACHE h with
      | None => Err ERR_INSTANCE_NOT_FOUND
      | Some (Cap_Instance inst) => build_frame_inner CACHE inst None (Some origin) endpoint_idx args
      | Some _ => Err ERR_INSTANCE_KIND
      end
  end.

(** [None] traps the guest. *)
Definition dispatch_host_call (parent : Frame) (logical_owner : nat) : Res (Result (option (Frame * Frame)) Z) :=
  let instance_slot := slot_reg parent 7 in
  let endpoint_idx := Z.land (reg parent 8) 0xFF in
  let args := [reg parent 9; reg parent 10; 0; 0] in
  if slot_is_pending parent instance_slot then Ret (Ok None)
  else
    let! (parent, target) := frame_cnode_take_key parent instance_slot in
    match target with
    | None => Ret (Err ERR_HOST_CALL_SLOT_EMPTY)
    | Some t =>
        let* child := Ret (callee_frame t (mkOrigin logical_owner instance_slot) endpoint_idx args) in
        let parent := set_pending parent (fst (om_insert instance_slot tt (k_pending parent))) in
        let! pcn := with_root_cnode parent in
        let! ccn := with_root_cnode child in
        Ret (Ok (Some (parent, set_root_cnode child (inherit ccn (inherited pcn)))))
    end.

(** ** Exit hooks *)

Definition no_head : list Z := replicate HEAD_LEN 0.

Definition finish (c : Ctx) (reason arg rv : Z) (head : list Z) : Res (Result (Ctx * Flow) Z) :=
  Ret (Ok (c, FlowDone (outcome c reason arg rv head))).
Definition trap (c : Ctx) (info : ExitInfo) : Res (Result (Ctx * Flow) Z) :=
  finish c EXIT_TRAP 0 (nth 7 (ei_regs info) 0) no_head.
Definition resume (c : Ctx) : Res (Result (Ctx * Flow) Z) := Ret (Ok (c, Resume)).

(** HALT and REPLY: return to the caller, or unwind a handler that neither
    resumed nor dropped its yielder. *)
Definition leave (c : Ctx) (info : ExitInfo) : Res (Result (Ctx * Flow) Z) :=
  let top := top_idx c in
  let rv := nth 7 (ei_regs info) 0 in
  match ctx_stack c !! top with
  | None => Abort
  | Some e =>
      let! head := if (st_target e =? 0)%nat
                   then let! f := frame_at (ctx_stack c) top in read_scratchpad_head f
                   else Ret no_head in
      let* (stack, drained) := if (st_target e =? top)%nat then pop_and_reflect (ctx_stack c) rv
                               else unwind_to_handler (ctx_stack c) top rv in
      let c' := with_stack c stack in
      if (drained : bool) then finish c' (ei_reason info) (ei_arg info) rv head else resume c'
  end.

Definition javm_on_halt : Hook MemCache Frame JavmEntryMeta Key := fun w c info =>
  let! r := leave c info in Ret (w, r).

Definition ecall_derive_spawn (w : MemCache) (c : Ctx) (info : ExitInfo) : Res (MemCache * Result (Ctx * Flow) Z) :=
  let! f := frame_at (ctx_stack c) (top_idx c) in
  let! (w', r) := dispatch_derive_spawn w f in
  match r with
  | Err e => Ret (w', Err e)
  | Ok (f', trapped) =>
      let! stack := set_frame (ctx_stack c) (top_idx c) f' in
      let! r := if (trapped : bool) then trap (with_stack c stack) info else resume (with_stack c stack) in
      Ret (w', r)
  end.

Definition ecall_image_hash_chain (c : Ctx) (info : ExitInfo) : Res (Result (Ctx * Flow) Z) :=
  let! f := frame_at (ctx_stack c) (top_idx c) in
  let* (f', trapped) := dispatch_image_hash_chain f in
  let! stack := set_frame (ctx_stack c) (top_idx c) f' in
  if (trapped : bool) then trap (with_stack c stack) info else resume (with_stack c stack).

Definition ecall_host_yield (c : Ctx) (info : ExitInfo) : Res (Result (Ctx * Flow) Z) :=
  let top := top_idx c in
  let! f := frame_at (ctx_stack c) top in
  let* (f', g, o) := dispatch_host_yield f (ctx_gas c) in
  let! stack := set_frame (ctx_stack c) top f' in
  let c1 := with_gas (with_stack c stack) g in
  match o with
  | YInline => resume c1
  | YTrap => trap c1 info
  | YRoute key sender_slot =>
      let! f1 := frame_at (ctx_stack c1) top in
      let! payload := read_instance_cap CACHE f1 sender_slot in
      let! routed := route_yield (ctx_stack c1) top key payload in
      match routed with
      | Some stack' => resume (with_stack c1 stack')
      | None => finish c1 EXIT_TRAP ERR_YIELD_UNHANDLED (nth 7 (ei_regs info) 0) no_head
      end
  end.

(** The handler's scratchpad goes to the yielder below it. *)
Definition ecall_call_resume (c : Ctx) (info : ExitInfo) : Res (Result (Ctx * Flow) Z) :=
  let top := top_idx c in
  match ctx_stack c !! top with
  | None => Abort
  | Some e =>
      if (st_target e =? top)%nat then trap c info
      else
        let! handler := frame_at (ctx_stack c) top in
        let! (handler', response) := frame_cnode_take_key handler scratch_key in
        let! stack := set_frame (ctx_stack c) top handler' in
        let stack := take top stack in
        let! stack := update_frame stack (pred (length stack)) (fun y =>
          let! y := match response with Some cap => frame_cnode_set y scratch_key (Some cap) | None => Ret y end in
          Ret (set_regs y 8 STATUS_OK)) in
        resume (with_stack c stack)
  end.

Definition ecall_drop_resume (c : Ctx) (info : ExitInfo) : Res (Result (Ctx * Flow) Z) :=
  let top := top_idx c in
  match ctx_stack c !! top with
  | None => Abort
  | Some e =>
      if (st_target e =? top)%nat then trap c info
      else
        let! stack := release_pending_origins_for_dropped (ctx_stack c) (S (st_target e)) in
        resume (with_stack c (take (S (st_target e)) stack))
  end.

(** The caller's scratchpad moves into the callee. *)
Definition move_scratchpad (parent child : Frame) : Res (Frame * Frame) :=
  let! (parent', scratch) := frame_cnode_take_key parent scratch_key in
  match scratch with
  | None => Ret (parent', child)
  | Some cap => let! child' := frame_cnode_set child scratch_key (Some cap) in Ret (parent', child')
  end.

Definition ecall_host_call (c : Ctx) (info : ExitInfo) (pending : bool) : Res (Result (Ctx * Flow) Z) :=
  let top := top_idx c in
  if pending then trap c info
  else
    match ctx_stack c !! top with
    | None => Abort
    | Some e =>
        let logical_owner := st_target e in
        let! parent := frame_at (ctx_stack c) top in
        let! catch_result := snapshot_catch_set CACHE parent in
        match catch_result with
        | Err err => if err =? EXIT_TRAP then trap c info else Ret (Err err)
        | Ok catch_set =>
            let* r := dispatch_host_call parent logical_owner in
            match r with
            | None => trap c info
            | Some (parent, child) =>
                let! (parent, child) := move_scratchpad parent child in
                let! stack := set_frame (ctx_stack c) top parent in
                let child_idx := length stack in
                let* own_gas := resolve_frame_gas CACHE child in
                let meta := mkMeta (Some logical_owner) catch_set (default (entry_gas (st_meta e)) own_gas) in
                let stack := stack ++ [instance_with_meta child child_idx (ctx_next_iid c) meta] in
                resume (mkCtx (ctx_lane c) stack (ctx_gas c) (wrap 64 (ctx_next_iid c + 1)))
            end
        end
    end.

(** The cost of an ecall, and whether its call slot is reserved. *)
Definition ecall_cost (c : Ctx) (op : Z) (info : ExitInfo) : Res (Result (Z * bool) Z) :=
  let base := ecall_dynamic_cost (ei_reason info =? EXIT_HOST_CALL) in
  if op =? OP_HOST_CALL then
    if (MAX_DEPTH <=? length (ctx_stack c))%nat then Ret (Err ERR_DEPTH_LIMIT)
    else
      let! parent := frame_at (ctx_stack c) (top_idx c) in
      let* cost := host_call_frame_cost CACHE parent in
      Ret (Ok (match cost with Some x => (base + x, false) | None => (base, true) end))
  else Ret (Ok (base, false)).

Definition ecall_dispatch (w : MemCache) (c : Ctx) (op : Z) (info : ExitInfo) (pending : bool) :
  Res (MemCache * Result (Ctx * Flow) Z) :=
  if op =? OP_DERIVE_SPAWN then ecall_derive_spawn w c info
  else
    let! r :=
      if op =? OP_REPLY then leave c info
      else if op =? OP_IMAGE_HASH_CHAIN then ecall_image_hash_chain c info
      else if op =? OP_HOST_YIELD then ecall_host_yield c info
      else if op =? OP_CALL_RESUME then ecall_call_resume c info
      else if op =? OP_DROP_RESUME then ecall_drop_resume c info
      else if op =? OP_HOST_CALL then ecall_host_call c info pending
      else finish c (ei_reason info) (ei_arg info) (nth 7 (ei_regs info) 0) no_head in
    Ret (w, r).

(** Out of gas: retry on another meter or route [kernel:oog], else report. *)
Definition out_of_gas (c : Ctx) (pc reason arg : Z) (info : ExitInfo) : Res (Result (Ctx * Flow) Z) :=
  let! routed := try_oog_yield (ctx_stack c) (top_idx c) pc in
  match routed with
  | Some stack => resume (with_stack c stack)
  | None => finish c reason arg (nth 7 (ei_regs info) 0) no_head
  end.

Definition javm_on_ecall (op : Z) : Hook MemCache Frame JavmEntryMeta Key := fun w c info =>
  let! r := ecall_cost c op info in
  match r with
  | Err e => Ret (w, Err e)
  | Ok (total_cost, pending) =>
      if live_gas (ctx_gas c) <? total_cost then
        let! r := out_of_gas c (saturating_sub (ei_pc info) 4) EXIT_OOG 0 info in Ret (w, r)
      else
        let c := with_gas c (set_live (ctx_gas c) (live_gas (ctx_gas c) - total_cost)) in
        ecall_dispatch w c op info pending
  end.

Definition javm_on_exit : Hook MemCache Frame JavmEntryMeta Key := fun w c info =>
  let! r := if ei_reason info =? EXIT_OOG then out_of_gas c (ei_pc info) (ei_reason info) (ei_arg info) info
            else finish c (ei_reason info) (ei_arg info) (nth 7 (ei_regs info) 0) no_head in
  Ret (w, r).

Definition javm_build_root_frame (root : list Z) (endpoint_idx : Z) (args : list Z) :
  Res (Result (Frame * JavmEntryMeta) Z) :=
  let* frame := Ret (build_frame_from_published CACHE root endpoint_idx args) in
  let* gas := resolve_frame_gas CACHE frame in
  Ret (Ok (frame, mkMeta None [] (default host_budgeted gas))).

Definition Javm : GuestPersonality MemCache Frame JavmEntryMeta Key := {|
  build_root_frame := fun _ => javm_build_root_frame;
  active_meter := javm_active_meter;
  run_one_entry := javm_run_one_entry CACHE;
  set_exit_state := javm_set_exit_state;
  on_halt := javm_on_halt;
  on_ecall := javm_on_ecall;
  on_exit := javm_on_exit;
|}.
End CallLoop.
