(* ===== verification/StackInv.v ===== *)
(** The invariant of the in-kernel call stack: every reference names an
    instance entry below it, every running instance is reserved in exactly one
    slot of its owner, and every frame has a resident root cnode. The steps the
    call loop is made of keep it. *)

From Stdlib Require Import ZArith Lia List Bool Sorted.
From stdpp Require Import base list numbers tactics.
From S2P Require Import Prelude MachineInt OrdMap Merkle Ssz CapData CapSlot CapImage Cap Cache CachedCap Task Frame CallLoop.
Open Scope Z_scope.

(** ** Frames *)

Section Frames.
  Context {D : Digest} {K : KernelHash} {Rt Ci : Type} {Mc : Machine Rt}.
Implicit Types f g : KernelFrame Rt Ci.

Definition frame_ok f : Prop :=
  (exists cap cn, in_root_cnode (k_instance f) = COwned (mkCachedCap cap (CacheCNode cn))) /\ om_ok (k_pending f).

Definition pends f (slot : Key) : Prop := slot_is_pending f slot = true.

(** What a frame operation may not change. *)
Definition frame_sim f g : Prop :=
  k_origin g = k_origin f /\ k_pending g = k_pending f /\ (frame_ok f -> frame_ok g).

Lemma frame_sim_refl f : frame_sim f f.
Proof. by unfold frame_sim. Qed.

Lemma frame_sim_trans f g h : frame_sim f g -> frame_sim g h -> frame_sim f h.
Proof. intros (A1 & A2 & A3) (B1 & B2 & B3). split; [congruence|]. split; [congruence|auto]. Qed.

Lemma sim_set_regs f i v : frame_sim f (set_regs f i v).
Proof. by unfold frame_sim, frame_ok. Qed.
Lemma sim_set_pc f pc : frame_sim f (set_pc f pc).
Proof. by unfold frame_sim, frame_ok. Qed.
Lemma sim_exit_state f regs pc : frame_sim f (javm_set_exit_state f regs pc).
Proof. by unfold frame_sim, frame_ok. Qed.

Lemma sim_set_root f cn : frame_sim f (set_root_cnode f cn).
Proof.
  split; [done|]. split; [done|]. intros [(cap & cn0 & E) Hp]. split; [|done]. cbn. rewrite E. by do 2 eexists.
Qed.

Lemma root_cnode_ok f : frame_ok f -> exists cn, with_root_cnode f = Ret cn.
Proof. intros [(cap & cn & E) _]. unfold with_root_cnode. rewrite E. by eexists. Qed.

Lemma cnode_set_sim f slot t : frame_ok f -> exists g, frame_cnode_set f slot t = Ret g /\ frame_sim f g.
Proof.
  intros Hf. destruct (root_cnode_ok f Hf) as [cn E]. unfold frame_cnode_set. rewrite E. cbn [res_bind].
  eexists. split; [done|apply sim_set_root].
Qed.

Lemma cnode_take_sim f slot : frame_ok f -> exists g old, frame_cnode_take_key f slot = Ret (g, old) /\ frame_sim f g.
Proof.
  intros Hf. destruct (root_cnode_ok f Hf) as [cn E]. unfold frame_cnode_take_key. rewrite E. cbn [res_bind].
  destruct (take_key cn slot) as [cn' old]. do 2 eexists. split; [done|apply sim_set_root].
Qed.

(** A slot reads back what was written to it. *)
Lemma root_set f cn cn' : with_root_cnode f = Ret cn -> with_root_cnode (set_root_cnode f cn') = Ret cn'.
Proof.
  unfold with_root_cnode, set_root_cnode. cbn [k_instance in_root_cnode].
  by destruct (in_root_cnode (k_instance f)) as [|[cap []]].
Qed.

Lemma set_key_fst {O : Type} (cn : CNodeCap O) slot t :
  fst (set_key cn slot (Some t)) = fst (om_insert slot (Materialized t) cn).
Proof. unfold set_key. by destruct (om_insert slot (Materialized t) cn). Qed.

Lemma cnode_set_peek f slot t g : frame_cnode_set f slot (Some t) = Ret g -> with_cnode_peek g slot = Ret (Some t).
Proof.
  unfold frame_cnode_set. destruct (with_root_cnode f) as [cn|] eqn:E; [|done]. cbn [res_bind]. intros [= <-].
  unfold with_cnode_peek. rewrite (root_set _ _ _ E). cbn [res_bind]. unfold Target, ResidentCNode in *.
  rewrite set_key_fst. unfold peek_key.
  by rewrite om_get_inserted.
Qed.

Lemma pends_insert f slot k :
  om_ok (k_pending f) -> pends (set_pending f (fst (om_insert slot tt (k_pending f)))) k <-> k = slot \/ pends f k.
Proof.
  intros Ho. unfold pends, slot_is_pending. cbn. rewrite om_get_insert by done. case_decide; [naive_solver|].
  split; [by right|]. by intros [|].
Qed.

Lemma pends_remove f slot k :
  om_ok (k_pending f) -> pends (set_pending f (fst (om_remove slot (k_pending f)))) k <-> k <> slot /\ pends f k.
Proof.
  intros Ho. unfold pends, slot_is_pending. cbn. rewrite om_get_remove by done. case_decide; [naive_solver|].
  naive_solver.
Qed.
End Frames.

Create HintDb callstack.
#[export] Hint Resolve frame_sim_refl sim_set_regs sim_set_pc sim_exit_state sim_set_root : callstack.

(** ** The invariant *)

(** Whether the task's root scope is a meter rather than the host's budget. *)
Class Metering : Type := metered : bool.

(** Handles hold meter keys of at most eight bytes; the meter in use exists;
    only an unmetered task spends the host's budget. *)
Definition gas_ok {Mt : Metering} (g : FrameGas) : Prop :=
  Forall (fun k : Key => zlen k <= MAX_KEY_LEN) (fg_meters g) /\
  match fg_active g with Some i => (i < length (fg_meters g))%nat | None => fg_meters g = [] /\ metered = false end.

(** Snapshots of catch-sets are searched by bisection, so they are in order. *)
Definition meta_ok {Mt : Metering} (m : JavmEntryMeta) : Prop :=
  gas_ok (entry_gas m) /\ StronglySorted key_lt (owner_catch_set m).

Section Inv.
  Context {D : Digest} {K : KernelHash} {Rt Ci : Type} {Mc : Machine Rt} {Mt : Metering}.
Notation Frame := (KernelFrame Rt Ci).
Notation Entry := (StackEntry (KernelFrame Rt Ci) JavmEntryMeta).
Notation Stack := (list (StackEntry (KernelFrame Rt Ci) JavmEntryMeta)).
Implicit Types s : Stack.

(** Entry [i] is an instance entry that runs [f]. *)
Definition inst s (i : nat) (f : Frame) : Prop := exists e, s !! i = Some e /\ st_kind e = EInstance f.

(** An instance entry names itself; all but the first were moved out of a slot
    of the frame run by the entry below. *)
Definition entry_ok s (i : nat) (e : Entry) : Prop :=
  meta_ok (st_meta e) /\
  match st_kind e with
  | EInstance f =>
      st_target e = i /\ frame_ok f /\
      match i with
      | O => owner (st_meta e) = None /\ k_origin f = None
      | S j => exists o slot pe, owner (st_meta e) = Some o /\ k_origin f = Some (mkOrigin o slot) /\
                                 s !! j = Some pe /\ st_target pe = o
      end
  | EReference => (st_target e < i)%nat /\ exists f, inst s (st_target e) f
  end.

(** [ex] lists reservations whose instance is on its way in or out. *)
Record stack_inv s (ex : list FrameOrigin) : Prop := {
  si_entry i e : s !! i = Some e -> entry_ok s i e;
  si_pending i f slot : inst s i f ->
    pends f slot <-> (exists j g, inst s j g /\ k_origin g = Some (mkOrigin i slot)) \/ mkOrigin i slot ∈ ex;
  si_unique i j f g o : inst s i f -> inst s j g -> k_origin f = Some o -> k_origin g = Some o -> i = j;
  si_fresh i f o : inst s i f -> k_origin f = Some o -> o ∉ ex;
  si_owners o : o ∈ ex -> exists f, inst s (fo_owner o) f;
  si_nodup : NoDup ex;
}.

Definition stack_ok s : Prop := s <> [] /\ stack_inv s [].

Lemma inst_fun s i f g : inst s i f -> inst s i g -> f = g.
Proof. intros (e & E & Hk) (e' & E' & Hk'). rewrite E in E'. injection E' as <-. congruence. Qed.

(** The target of any entry is an instance entry at or below it. *)
Lemma target_inst s ex i e :
  stack_inv s ex -> s !! i = Some e -> (st_target e <= i)%nat /\ exists f, inst s (st_target e) f.
Proof.
  intros Hs E. destruct (si_entry _ _ Hs i e E) as [_ Ho]. destruct (st_kind e) as [f|] eqn:Ek.
  - destruct Ho as (Ht & _). rewrite Ht. split; [done|]. exists f. by exists e.
  - destruct Ho as (Ht & Hf). split; [lia|done].
Qed.

Lemma inst_target s ex i f : stack_inv s ex -> inst s i f -> exists e, s !! i = Some e /\ st_target e = i /\ st_kind e = EInstance f.
Proof.
  intros Hs (e & E & Hk). exists e. destruct (si_entry _ _ Hs i e E) as [_ Ho]. rewrite Hk in Ho. by destruct Ho.
Qed.

Lemma inst_frame_ok s ex i f : stack_inv s ex -> inst s i f -> frame_ok f.
Proof. intros Hs (e & E & Hk). destruct (si_entry _ _ Hs i e E) as [_ Ho]. rewrite Hk in Ho. by destruct Ho as (_ & ? & _). Qed.

Lemma frame_at_inst s ex i e :
  stack_inv s ex -> s !! i = Some e -> exists f, frame_at s i = Ret f /\ inst s (st_target e) f.
Proof.
  intros Hs E. destruct (target_inst s ex i e Hs E) as (_ & f & Hf). exists f. split; [|done].
  unfold frame_at. rewrite E. destruct Hf as ([k t iid m] & E' & Hk). rewrite E'. cbn in Hk. by subst.
Qed.

Lemma frame_at_target s i e f : s !! i = Some e -> frame_at s i = Ret f -> inst s (st_target e) f.
Proof.
  unfold frame_at. intros ->. destruct (s !! st_target e) as [[[g|] t iid m]|] eqn:E; [|done..].
  intros [= ->]. by eexists.
Qed.

Lemma inst_frame_at s ex i f : stack_inv s ex -> inst s i f -> frame_at s i = Ret f.
Proof.
  intros Hs Hf. destruct (inst_target s ex i f Hs Hf) as (e & E & Ht & Hk).
  unfold frame_at. rewrite E, Ht, E. destruct e. cbn in Hk. by subst.
Qed.

(** ** Changing what entries run, not how they are linked *)

Definition entry_sim (e e' : Entry) : Prop :=
  st_target e' = st_target e /\ owner (st_meta e') = owner (st_meta e) /\
  (meta_ok (st_meta e) -> meta_ok (st_meta e')) /\
  match st_kind e, st_kind e' with
  | EInstance f, EInstance g => frame_sim f g
  | EReference, EReference => True
  | _, _ => False
  end.

Definition stack_sim : Stack -> Stack -> Prop := Forall2 entry_sim.

Lemma entry_sim_refl e : entry_sim e e.
Proof. unfold entry_sim. destruct (st_kind e); auto with callstack. Qed.

Lemma stack_sim_refl s : stack_sim s s.
Proof. induction s; constructor; [apply entry_sim_refl|done]. Qed.

Lemma stack_sim_trans s1 s2 s3 : stack_sim s1 s2 -> stack_sim s2 s3 -> stack_sim s1 s3.
Proof.
  intros H. revert s3. induction H as [|a b s1 s2 Hab _ IH]; intros s3 H3; inversion H3 as [|? c ? ? Hbc H3']; subst; [constructor|].
  constructor; [|by apply IH]. destruct Hab as (A1 & A2 & A3 & A4), Hbc as (B1 & B2 & B3 & B4).
  split; [congruence|]. split; [congruence|]. split; [auto|].
  destruct (st_kind a), (st_kind b), (st_kind c); try done. by eapply frame_sim_trans.
Qed.

Lemma sim_inst_r s s' i f : stack_sim s s' -> inst s i f -> exists g, inst s' i g /\ frame_sim f g.
Proof.
  intros Hs (e & E & Hk). destruct (Forall2_lookup_l _ _ _ _ _ Hs E) as (e' & E' & _ & _ & _ & Hx).
  rewrite Hk in Hx. destruct (st_kind e') as [g|] eqn:Ek; [|done]. exists g. split; [by exists e'|done].
Qed.

Lemma sim_inst_l s s' i g : stack_sim s s' -> inst s' i g -> exists f, inst s i f /\ frame_sim f g.
Proof.
  intros Hs (e' & E' & Hk). destruct (Forall2_lookup_r _ _ _ _ _ Hs E') as (e & E & _ & _ & _ & Hx).
  rewrite Hk in Hx. destruct (st_kind e) as [f|] eqn:Ek; [|done]. exists f. split; [by exists e|done].
Qed.

Lemma stack_inv_sim s s' ex : stack_sim s s' -> stack_inv s ex -> stack_inv s' ex.
Proof.
  intros Hsim Hs. split.
  - intros i e' E'. destruct (Forall2_lookup_r _ _ _ _ _ Hsim E') as (e & E & Ht & Ho & Hg & Hk).
    destruct (si_entry _ _ Hs i e E) as [G Hok]. split; [auto|]. rewrite Ht, Ho.
    destruct (st_kind e) as [f|], (st_kind e') as [g|]; try done.
    + destruct Hok as (H1 & H2 & H3), Hk as (K1 & K2 & K3). split; [done|]. split; [auto|]. rewrite K1.
      destruct i as [|j]; [done|]. destruct H3 as (o & slot & pe & Q1 & Q2 & Q3 & Q4).
      destruct (Forall2_lookup_l _ _ _ _ _ Hsim Q3) as (pe' & Q3' & Q4' & _). exists o, slot, pe'. split_and!; [done..|congruence].
    + destruct Hok as (H1 & f & Hf). split; [done|]. destruct (sim_inst_r _ _ _ _ Hsim Hf) as (g & Hg' & _). by exists g.
  - intros i g slot Hg. destruct (sim_inst_l _ _ _ _ Hsim Hg) as (f & Hf & _ & Hp & _).
    unfold pends, slot_is_pending. rewrite Hp. fold (slot_is_pending f slot). fold (pends f slot).
    rewrite (si_pending _ _ Hs i f slot Hf). split; (intros [(j & h & Hh & Ho)|]; [left|by right]).
    + destruct (sim_inst_r _ _ _ _ Hsim Hh) as (h' & Hh' & Ho' & _). exists j, h'. split; [done|congruence].
    + destruct (sim_inst_l _ _ _ _ Hsim Hh) as (h' & Hh' & Ho' & _). exists j, h'. split; [done|congruence].
  - intros i j f g o Hf Hg Hof Hog. destruct (sim_inst_l _ _ _ _ Hsim Hf) as (f' & Hf' & E1 & _).
    destruct (sim_inst_l _ _ _ _ Hsim Hg) as (g' & Hg' & E2 & _).
    apply (si_unique _ _ Hs i j f' g' o); [done..|congruence|congruence].
  - intros i f o Hf Ho. destruct (sim_inst_l _ _ _ _ Hsim Hf) as (f' & Hf' & E1 & _).
    apply (si_fresh _ _ Hs i f' o); [done|congruence].
  - intros o Ho. destruct (si_owners _ _ Hs o Ho) as [f Hf].
    destruct (sim_inst_r _ _ _ _ Hsim Hf) as (g & Hg & _). by exists g.
  - apply (si_nodup _ _ Hs).
Qed.

(** ** Writing a frame *)

(** Entry [i] runs [g] from now on. *)
Definition put_frame s (i : nat) (g : Frame) : Stack :=
  match s !! i with
  | Some e => <[i := mkStackEntry (EInstance g) (st_target e) (st_iid e) (st_meta e)]> s
  | None => s
  end.

Lemma put_frame_lookup s i g f j :
  inst s i f -> put_frame s i g !! j =
    if decide (j = i) then option_map (fun e => mkStackEntry (EInstance g) (st_target e) (st_iid e) (st_meta e)) (s !! i)
    else s !! j.
Proof.
  intros (e & E & _). unfold put_frame. rewrite E. case_decide as Hj.
  - subst j. rewrite list_lookup_insert_eq; [done|]. by eapply lookup_lt_Some.
  - by rewrite list_lookup_insert_ne.
Qed.

Lemma put_frame_inst s i g f j h :
  inst s i f -> inst (put_frame s i g) j h <-> (j = i /\ h = g) \/ (j <> i /\ inst s j h).
Proof.
  intros Hi. unfold inst at 1. setoid_rewrite (put_frame_lookup s i g f j Hi). case_decide as Hj.
  - subst j. destruct Hi as (e & E & Hk). rewrite E. cbn. split.
    + intros (e' & [= <-] & [= <-]). by left.
    + intros [[_ ->]|[]]; [by eexists|done].
  - split; [by right|]. by intros [[]|[]].
Qed.

Lemma put_frame_twice s i f g h : inst s i f -> put_frame (put_frame s i g) i h = put_frame s i h.
Proof.
  intros (e & E & _). unfold put_frame at 2 3. rewrite E. unfold put_frame.
  rewrite list_lookup_insert_eq by (by eapply lookup_lt_Some). by rewrite list_insert_insert_eq.
Qed.

Lemma set_frame_put s ex i e g :
  stack_inv s ex -> s !! i = Some e -> set_frame s i g = Ret (put_frame s (st_target e) g).
Proof.
  intros Hs E. destruct (target_inst s ex i e Hs E) as (_ & f & [k t iid m] & E' & Hk).
  unfold set_frame, put_frame. rewrite E, E'. cbn in Hk. by subst k.
Qed.

Lemma put_frame_sim s i f g : inst s i f -> frame_sim f g -> stack_sim s (put_frame s i g).
Proof.
  intros Hi Hg. apply Forall2_same_length_lookup_2.
  - unfold put_frame. destruct (s !! i); [by rewrite length_insert|done].
  - intros j e e' E. rewrite (put_frame_lookup s i g f j Hi). case_decide as Hj.
    + subst j. destruct Hi as (e0 & E0 & Hk). rewrite E in E0. injection E0 as <-. rewrite E. intros [= <-].
      split; [done|]. split; [done|]. split; [done|]. cbn. by rewrite Hk.
    + rewrite E. intros [= <-]. apply entry_sim_refl.
Qed.

Lemma update_frame_sim s ex i e u :
  stack_inv s ex -> s !! i = Some e ->
  (forall f, inst s (st_target e) f -> frame_ok f -> exists g, u f = Ret g /\ frame_sim f g) ->
  exists s', update_frame s i u = Ret s' /\ stack_sim s s'.
Proof.
  intros Hs E Hu. destruct (frame_at_inst s ex i e Hs E) as (f & Ef & Hf).
  destruct (Hu f Hf (inst_frame_ok _ _ _ _ Hs Hf)) as (g & Eg & Hg). unfold update_frame. rewrite Ef. cbn [res_bind].
  rewrite Eg. cbn [res_bind]. rewrite (set_frame_put s ex i e g Hs E). eexists. split; [done|]. by eapply put_frame_sim.
Qed.

Lemma set_meta_sim s i e m :
  s !! i = Some e -> owner m = owner (st_meta e) ->
  (meta_ok (st_meta e) -> meta_ok m) ->
  exists s', set_meta s i m = Ret s' /\ stack_sim s s' /\
    s' = <[i := mkStackEntry (st_kind e) (st_target e) (st_iid e) m]> s.
Proof.
  intros E Ho Hg. unfold set_meta. rewrite E. eexists. split; [done|]. split; [|done].
  apply Forall2_same_length_lookup_2; [by rewrite length_insert|]. intros j a b Ea Eb.
  destruct (decide (j = i)) as [->|Hne].
  - rewrite list_lookup_insert_eq in Eb by (by eapply lookup_lt_Some). rewrite E in Ea. simplify_eq.
    split; [done|]. split; [done|]. split; [done|]. cbn. destruct (st_kind a); auto with callstack.
  - rewrite list_lookup_insert_ne in Eb by done. simplify_eq. apply entry_sim_refl.
Qed.

(** ** Reservations *)

(** A frame's reservations change, and [ex] with them. *)
Lemma inv_repend s ex ex' i f g :
  stack_inv s ex -> inst s i f -> k_origin g = k_origin f -> frame_ok g ->
  (forall slot, pends g slot <-> (exists j h, inst s j h /\ k_origin h = Some (mkOrigin i slot)) \/ mkOrigin i slot ∈ ex') ->
  (forall o, fo_owner o <> i -> o ∈ ex' <-> o ∈ ex) ->
  (forall j h o, inst s j h -> k_origin h = Some o -> o ∉ ex') -> NoDup ex' ->
  stack_inv (put_frame s i g) ex'.
Proof.
  intros Hs Hi Ho Hg Hp Hex Hfr Hnd.
  assert (forall j h o, inst (put_frame s i g) j h -> k_origin h = Some o -> exists h', inst s j h' /\ k_origin h' = Some o) as Hold.
  { intros j h o Hh Eo. apply (put_frame_inst s i g f j h Hi) in Hh as [[-> ->]|[_ Hh]]; [exists f; split; [done|congruence]|by exists h]. }
  assert (forall j h o, inst s j h -> k_origin h = Some o -> exists h', inst (put_frame s i g) j h' /\ k_origin h' = Some o) as Hnew.
  { intros j h o Hh Eo. destruct (decide (j = i)) as [->|Hne].
    - exists g. split; [apply (put_frame_inst s i g f i g Hi); by left|]. rewrite (inst_fun _ _ _ _ Hi Hh) in Ho. congruence.
    - exists h. split; [apply (put_frame_inst s i g f j h Hi); by right|done]. }
  split.
  - intros j e. rewrite (put_frame_lookup s i g f j Hi). destruct Hi as (e0 & E0 & Hk).
    assert (forall j0 e1, s !! j0 = Some e1 -> exists e2, put_frame s i g !! j0 = Some e2 /\ st_target e2 = st_target e1) as Ht.
    { intros j0 e1 E1. rewrite (put_frame_lookup s i g f j0) by (by exists e0). case_decide; [|by exists e1].
      subst. rewrite E1. by eexists. }
    case_decide as Hj; intros E.
    + subst j. rewrite E0 in E. injection E as <-. destruct (si_entry _ _ Hs i e0 E0) as [G Hok]. split; [done|]. cbn.
      rewrite Hk in Hok. destruct Hok as (H1 & _ & H3). split; [done|]. split; [done|]. rewrite Ho.
      destruct i as [|j]; [done|]. destruct H3 as (o & slot & pe & Q1 & Q2 & Q3 & Q4).
      destruct (Ht j pe Q3) as (pe' & Q3' & Q4'). exists o, slot, pe'. split_and!; [done..|congruence].
    + destruct (si_entry _ _ Hs j e E) as [G Hok]. split; [done|]. destruct (st_kind e) as [h|].
      * destruct Hok as (H1 & H2 & H3). split; [done|]. split; [done|]. destruct j as [|j]; [done|].
        destruct H3 as (o & slot & pe & Q1 & Q2 & Q3 & Q4). destruct (Ht j pe Q3) as (pe' & Q3' & Q4').
        exists o, slot, pe'. split_and!; [done..|congruence].
      * destruct Hok as (H1 & h & Hh). split; [done|]. destruct (decide (st_target e = i)) as [Et|Hne].
        -- exists g. apply (put_frame_inst s i g f); [by exists e0|]. by left.
        -- exists h. apply (put_frame_inst s i g f); [by exists e0|]. by right.
  - intros j h slot Hh. pose proof Hh as Hh'. apply (put_frame_inst s i g f j h Hi) in Hh' as [[-> ->]|[Hne Hh']].
    + rewrite Hp. split; (intros [(j & h & Q1 & Q2)|]; [left|by right]).
      * destruct (Hnew j h _ Q1 Q2) as (h' & ? & ?). by exists j, h'.
      * destruct (Hold j h _ Q1 Q2) as (h' & ? & ?). by exists j, h'.
    + rewrite (si_pending _ _ Hs j h slot Hh'), <- (Hex (mkOrigin j slot)) by done.
      split; (intros [(j' & h' & Q1 & Q2)|]; [left|by right]).
      * destruct (Hnew j' h' _ Q1 Q2) as (h2 & ? & ?). by exists j', h2.
      * destruct (Hold j' h' _ Q1 Q2) as (h2 & ? & ?). by exists j', h2.
  - intros a b fa fb o Ha Hb Oa Ob. destruct (Hold a fa o Ha Oa) as (fa' & ? & ?), (Hold b fb o Hb Ob) as (fb' & ? & ?).
    by eapply (si_unique _ _ Hs a b fa' fb' o).
  - intros j h o Hh Eo. destruct (Hold j h o Hh Eo) as (h' & ? & ?). by eapply Hfr.
  - intros o Hin. destruct (decide (fo_owner o = i)) as [->|Hne].
    + exists g. apply (put_frame_inst s i g f); [done|]. by left.
    + destruct (si_owners _ _ Hs o) as [h Hh]; [by apply Hex|]. exists h. apply (put_frame_inst s i g f); [done|]. by right.
  - done.
Qed.

Lemma inv_reserve s ex i f slot :
  stack_inv s ex -> inst s i f -> ~ pends f slot ->
  stack_inv (put_frame s i (set_pending f (fst (om_insert slot tt (k_pending f))))) (mkOrigin i slot :: ex).
Proof.
  intros Hs Hi Hn. destruct (inst_frame_ok _ _ _ _ Hs Hi) as [Hr Hp].
  eapply inv_repend; [done..| | | |intros j h o Hh Eo|].
  - split; [done|]. by apply om_insert_ok.
  - intros k. rewrite pends_insert by done. rewrite (si_pending _ _ Hs i f k Hi), elem_of_cons. naive_solver.
  - intros o Ho. rewrite elem_of_cons. split; [intros [->|]; done|by right].
  - rewrite elem_of_cons. intros [->|Hin]; [|by eapply (si_fresh _ _ Hs)].
    apply Hn, (si_pending _ _ Hs i f slot Hi). left. by exists j, h.
  - apply list.NoDup_cons. split; [|apply (si_nodup _ _ Hs)]. intros Hin. apply Hn, (si_pending _ _ Hs i f slot Hi). by right.
Qed.

Lemma inv_release s ex i f slot :
  stack_inv s (mkOrigin i slot :: ex) -> inst s i f ->
  stack_inv (put_frame s i (set_pending f (fst (om_remove slot (k_pending f))))) ex.
Proof.
  intros Hs Hi. destruct (inst_frame_ok _ _ _ _ Hs Hi) as [Hr Hp].
  pose proof (si_nodup _ _ Hs) as Hnd. apply list.NoDup_cons in Hnd as [Hni Hnd].
  eapply inv_repend; [done..| | | |intros j h o Hh Eo|done].
  - split; [done|]. by apply om_remove_ok.
  - intros k. rewrite pends_remove by done. rewrite (si_pending _ _ Hs i f k Hi), elem_of_cons. split.
    + intros [Hne [?|[[= ->]|?]]]; [by left|done|by right].
    + intros [(j & h & Hh & Eo)|Hin]; split.
      * intros ->. apply (si_fresh _ _ Hs j h _ Hh Eo). by left.
      * left. by exists j, h.
      * by intros ->.
      * by right; right.
  - intros o Ho. rewrite elem_of_cons. split; [by right|intros [->|]; done].
  - intros Hin. apply (si_fresh _ _ Hs j h o Hh Eo). by right.
Qed.

(** ** Pushing and popping *)

Lemma inst_app s1 s2 j h : inst s1 j h -> inst (s1 ++ s2) j h.
Proof. intros (e & E & Hk). exists e. split; [by apply lookup_app_l_Some|done]. Qed.

Lemma inst_snoc s e j h :
  inst (s ++ [e]) j h <-> inst s j h \/ (j = length s /\ st_kind e = EInstance h).
Proof.
  split.
  - intros (e' & E & Hk). apply lookup_app_Some in E as [E|[Hl E]]; [left; by exists e'|].
    apply list_lookup_singleton_Some in E as [E <-]. right. split; [lia|done].
  - intros [H|[-> Hk]]; [by apply inst_app|]. exists e. split; [|done]. by rewrite lookup_app_r, Nat.sub_diag by lia.
Qed.

Lemma entry_ok_app s e e' i : entry_ok s i e' -> entry_ok (s ++ [e]) i e'.
Proof.
  intros [G Hok]. split; [done|]. destruct (st_kind e') as [f|].
  - destruct Hok as (H1 & H2 & H3). split; [done|]. split; [done|]. destruct i as [|j]; [done|].
    destruct H3 as (o & slot & pe & Q1 & Q2 & Q3 & Q4). exists o, slot, pe. split_and!; [done..|by apply lookup_app_l_Some|done].
  - destruct Hok as (H1 & f & Hf). split; [done|]. exists f. by apply inst_app.
Qed.

(** An instance runs above its owner. *)
Lemma owner_below s ex j h o :
  stack_inv s ex -> inst s j h -> k_origin h = Some o -> (fo_owner o < j)%nat /\ exists f, inst s (fo_owner o) f.
Proof.
  intros Hs (e & E & Hk) Eo. destruct (si_entry _ _ Hs j e E) as [_ Hok]. rewrite Hk in Hok.
  destruct Hok as (_ & _ & H3). destruct j as [|j]; [destruct H3; congruence|].
  destruct H3 as (o' & slot' & pe' & Q1 & Q2 & Q3 & Q4). rewrite Q2 in Eo. injection Eo as <-. cbn.
  destruct (target_inst _ _ _ _ Hs Q3) as [Hle Hf]. rewrite Q4 in *. split; [lia|done].
Qed.

Lemma inst_lt s j h : inst s j h -> (j < length s)%nat.
Proof. intros (e & E & _). by eapply lookup_lt_Some. Qed.

(** A running instance takes over its reservation. *)
Lemma inv_push_inst s ex o f iid m pe :
  stack_inv s (o :: ex) -> list.last s = Some pe -> st_target pe = fo_owner o ->
  k_origin f = Some o -> frame_ok f -> (forall slot, ~ pends f slot) -> owner m = Some (fo_owner o) ->
  meta_ok m ->
  stack_inv (s ++ [instance_with_meta f (length s) iid m]) ex.
Proof.
  intros Hs Hpe Ht Ho Hf Hnp Hm Hg. pose proof (si_nodup _ _ Hs) as Hnd. apply list.NoDup_cons in Hnd as [Hni Hnd].
  assert (exists n, length s = S n /\ s !! n = Some pe) as (n & Hn & En).
  { rewrite list.last_lookup in Hpe. exists (pred (length s)). split; [|done]. apply lookup_lt_Some in Hpe. lia. }
  pose proof (inst_lt s) as Hlt.
  split.
  - intros i e E. apply lookup_app_Some in E as [E|[Hl E]]; [by apply entry_ok_app, (si_entry _ _ Hs)|].
    apply list_lookup_singleton_Some in E as [Ei <-]. assert (i = length s) as -> by lia. split; [done|]. cbn.
    split; [done|]. split; [done|]. rewrite Hn. destruct o as [ow slot]. exists ow, slot, pe. cbn in *.
    split_and!; [done|done| |done]. by apply lookup_app_l_Some.
  - intros i g slot Hi. apply inst_snoc in Hi as [Hi|[-> [= <-]]].
    + rewrite (si_pending _ _ Hs i g slot Hi), elem_of_cons. setoid_rewrite inst_snoc. split.
      * intros [(j & h & Hh & Eo)|[E|Hin]]; [left; exists j, h; auto| |by right].
        left. exists (length s), f. split; [by right|congruence].
      * intros [(j & h & [Hh|[-> [= <-]]] & Eo)|Hin]; [left; by exists j, h| |by right; right].
        right. left. congruence.
    + split; [intros Hp; by apply Hnp in Hp|]. setoid_rewrite inst_snoc. intros [(j & h & [Hh|[-> [= <-]]] & Eo)|Hin]; exfalso.
      * destruct (owner_below _ _ _ _ _ Hs Hh Eo) as [Hlo _]. apply Hlt in Hh. cbn in Hlo. lia.
      * destruct (si_owners _ _ Hs o) as [h Hh]; [by left|]. apply Hlt in Hh. rewrite Ho in Eo. injection Eo as ->. cbn in Hh. lia.
      * destruct (si_owners _ _ Hs (mkOrigin (length s) slot)) as [h Hh]; [by right|]. apply Hlt in Hh. cbn in Hh. lia.
  - intros i j g h o' Hi Hj Og Oh. apply inst_snoc in Hi as [Hi|[-> [= <-]]]; apply inst_snoc in Hj as [Hj|[-> [= <-]]]; [| | |done].
    + by eapply (si_unique _ _ Hs).
    + exfalso. apply (si_fresh _ _ Hs i g o' Hi Og), elem_of_cons. left. congruence.
    + exfalso. apply (si_fresh _ _ Hs j h o' Hj Oh), elem_of_cons. left. congruence.
  - intros i g o' Hi Og. apply inst_snoc in Hi as [Hi|[-> [= <-]]].
    + intros Hin. apply (si_fresh _ _ Hs i g o' Hi Og). by right.
    + rewrite Ho in Og. by injection Og as <-.
  - intros o' Hin. destruct (si_owners _ _ Hs o') as [h Hh]; [by right|]. exists h. by apply inst_app.
  - done.
Qed.

(** A yield activation runs the catcher's frame again. *)
Lemma inv_push_ref s ex t f iid m :
  stack_inv s ex -> inst s t f -> meta_ok m ->
  stack_inv (s ++ [mkStackEntry EReference t iid m]) ex.
Proof.
  intros Hs Hf Hg.
  assert (forall j h, inst (s ++ [mkStackEntry EReference t iid m]) j h <-> inst s j h) as Hi.
  { intros j h. rewrite inst_snoc. split; [by intros [|[_ [=]]]|by left]. }
  split.
  - intros i e E. apply lookup_app_Some in E as [E|[Hl E]]; [by apply entry_ok_app, (si_entry _ _ Hs)|].
    apply list_lookup_singleton_Some in E as [Ei <-]. split; [done|]. cbn. split; [|exists f; by apply Hi].
    destruct Hf as (e & E & _). apply lookup_lt_Some in E. lia.
  - intros i g slot Hg'. apply Hi in Hg'. rewrite (si_pending _ _ Hs i g slot Hg'). by setoid_rewrite Hi.
  - intros i j a b o Ha Hb. apply (si_unique _ _ Hs); by apply Hi.
  - intros i g o Ha. apply (si_fresh _ _ Hs i g). by apply Hi.
  - intros o Hin. destruct (si_owners _ _ Hs o Hin) as [h Hh]. exists h. by apply Hi.
  - apply (si_nodup _ _ Hs).
Qed.

(** ** Truncating *)

Definition keep (start : nat) (o : FrameOrigin) : option FrameOrigin :=
  if (fo_owner o <? start)%nat then Some o else None.

(** The reservations of the entries above [n] in frames below it. *)
Definition dropped (n : nat) s : list FrameOrigin := omap (keep n) (omap entry_origin (drop n s)).

Lemma keep_Some n o o' : keep n o = Some o' <-> o' = o /\ (fo_owner o < n)%nat.
Proof. unfold keep. destruct (Nat.ltb_spec (fo_owner o) n); naive_solver lia. Qed.

Lemma entry_origin_inst (e : Entry) o : entry_origin e = Some o <-> exists f, st_kind e = EInstance f /\ k_origin f = Some o.
Proof. unfold entry_origin. destruct (st_kind e); naive_solver. Qed.

Lemma dropped_elem n s o :
  o ∈ dropped n s <-> exists j h, (n <= j)%nat /\ inst s j h /\ k_origin h = Some o /\ (fo_owner o < n)%nat.
Proof.
  unfold dropped. rewrite list_elem_of_omap. split.
  - intros (o' & Hin & Hk). apply keep_Some in Hk as [-> Hlt]. apply list_elem_of_omap in Hin as (e & Hin & He).
    apply list_elem_of_lookup_1 in Hin as [k E]. rewrite lookup_drop in E. apply entry_origin_inst in He as (f & Hf & Ho).
    exists (n + k)%nat, f. split; [lia|]. split; [by exists e|done].
  - intros (j & h & Hle & (e & E & Hk) & Ho & Hlt). exists o. split; [|by apply keep_Some].
    apply list_elem_of_omap. exists e. split; [|apply entry_origin_inst; by exists h].
    apply list_elem_of_lookup_2 with (j - n)%nat. rewrite lookup_drop. by replace (n + (j - n))%nat with j by lia.
Qed.

Lemma omap_NoDup {A B : Type} (f : A -> option B) l :
  (forall i j a b x, l !! i = Some a -> l !! j = Some b -> f a = Some x -> f b = Some x -> i = j) -> NoDup (omap f l).
Proof.
  induction l as [|a l IH]; intros Hu; cbn; [apply list.NoDup_nil; done|].
  assert (NoDup (omap f l)) as Hnd.
  { apply IH. intros i j b c x Ei Ej Hb Hc. specialize (Hu (S i) (S j) b c x Ei Ej Hb Hc). lia. }
  destruct (f a) as [x|] eqn:E; [|done]. apply list.NoDup_cons. split; [|done].
  intros Hin. apply list_elem_of_omap in Hin as (b & Hb & Hx). apply list_elem_of_lookup_1 in Hb as [j Ej].
  by specialize (Hu 0%nat (S j) a b x eq_refl Ej E Hx).
Qed.

Lemma inst_take n s j h : inst (take n s) j h <-> (j < n)%nat /\ inst s j h.
Proof.
  unfold inst. destruct (decide (j < n)%nat) as [Hlt|Hge].
  - rewrite lookup_take_lt by done. naive_solver.
  - rewrite lookup_take_ge by lia. naive_solver.
Qed.

Lemma dropped_NoDup n s : stack_inv s [] -> NoDup (dropped n s).
Proof.
  intros Hs.
  assert (NoDup (omap entry_origin (drop n s))) as Hnd.
  { apply omap_NoDup. intros i j a b x Ei Ej Ha Hb. rewrite lookup_drop in Ei, Ej.
    apply entry_origin_inst in Ha as (fa & Ka & Oa), Hb as (fb & Kb & Ob).
    assert (n + i = n + j)%nat; [|lia]. eapply (si_unique _ _ Hs _ _ fa fb x); [by exists a|by exists b|done|done]. }
  unfold dropped. apply omap_NoDup. intros i j a b x Ei Ej Ha Hb. apply keep_Some in Ha as [-> _], Hb as [Hab _]. subst b.
  by eapply NoDup_lookup.
Qed.

Lemma inv_take n s : stack_inv s [] -> stack_inv (take n s) (dropped n s).
Proof.
  intros Hs. split.
  - intros i e E. apply lookup_take_Some in E as [E Hi]. destruct (si_entry _ _ Hs i e E) as [G Hok]. split; [done|].
    destruct (st_kind e) as [f|].
    + destruct Hok as (H1 & H2 & H3). split; [done|]. split; [done|]. destruct i as [|j]; [done|].
      destruct H3 as (o & slot & pe & Q1 & Q2 & Q3 & Q4). exists o, slot, pe. split_and!; [done..| |done].
      apply lookup_take_Some. split; [done|lia].
    + destruct Hok as (H1 & f & Hf). split; [done|]. exists f. apply inst_take. split; [lia|done].
  - intros i f slot Hi. apply inst_take in Hi as [Hi Hf]. rewrite (si_pending _ _ Hs i f slot Hf), dropped_elem.
    setoid_rewrite inst_take. split.
    + intros [(j & h & Hh & Eo)|Hin]; [|by apply not_elem_of_nil in Hin].
      destruct (decide (j < n)%nat); [left; by exists j, h|right]. exists j, h. split; [lia|done].
    + intros [(j & h & [_ Hh] & Eo)|(j & h & _ & Hh & Eo & _)]; left; by exists j, h.
  - intros i j f g o Hf Hg. apply inst_take in Hf as [_ Hf], Hg as [_ Hg]. by apply (si_unique _ _ Hs).
  - intros i f o Hf Ho Hin. apply inst_take in Hf as [Hi Hf]. apply dropped_elem in Hin as (j & h & Hle & Hh & Eo & _).
    assert (i = j) by (by eapply (si_unique _ _ Hs)). lia.
  - intros o Hin. apply dropped_elem in Hin as (j & h & Hle & Hh & Eo & Hlt).
    destruct (owner_below _ _ _ _ _ Hs Hh Eo) as (_ & f & Hf). exists f. by apply inst_take.
  - by apply dropped_NoDup.
Qed.

(** Releasing what was dropped. *)
Lemma update_frame_app s1 s2 i u s1' :
  update_frame s1 i u = Ret s1' -> update_frame (s1 ++ s2) i u = Ret (s1' ++ s2).
Proof.
  unfold update_frame, frame_at, set_frame. destruct (s1 !! i) as [e|] eqn:E; [|done].
  rewrite (lookup_app_l_Some _ s2 _ _ E).
  destruct (s1 !! st_target e) as [[[f|] t iid m]|] eqn:Et; [|done..]. rewrite (lookup_app_l_Some _ s2 _ _ Et).
  cbn [res_bind]. destruct (u f) as [g|]; [|done]. cbn [res_bind]. intros [= <-].
  rewrite insert_app_l; [done|]. by eapply lookup_lt_Some.
Qed.

Lemma release_app start os : forall s1 s2 s1',
  release_origins s1 start os = Ret s1' -> release_origins (s1 ++ s2) start os = Ret (s1' ++ s2).
Proof.
  induction os as [|o os IH]; intros s1 s2 s1'; cbn [release_origins]; [by intros [= <-]|].
  destruct (fo_owner o <? start)%nat; [|by apply IH].
  destruct (update_frame s1 _ _) as [s'|] eqn:E; [|done]. rewrite (update_frame_app _ s2 _ _ _ E). by apply IH.
Qed.

Lemma length_put_frame s i g : length (put_frame s i g) = length s.
Proof. unfold put_frame. destruct (s !! i); [by rewrite length_insert|done]. Qed.

(** Only reservations differ. *)
Definition released_sim : Stack -> Stack -> Prop := Forall2 (fun e e' =>
  st_target e' = st_target e /\ st_meta e' = st_meta e /\
  match st_kind e, st_kind e' with
  | EInstance f, EInstance g => k_instance g = k_instance f /\ k_origin g = k_origin f
  | EReference, EReference => True
  | _, _ => False
  end).

Lemma released_refl s : released_sim s s.
Proof. induction s as [|e s]; constructor; [|done]. split; [done|]. split; [done|]. by destruct (st_kind e). Qed.

Lemma released_trans s1 s2 s3 : released_sim s1 s2 -> released_sim s2 s3 -> released_sim s1 s3.
Proof.
  intros H. revert s3. induction H as [|a b s1 s2 Hab _ IH]; intros s3 H3; inversion H3 as [|? c ? ? Hbc H3']; subst; [constructor|].
  constructor; [|by apply IH]. destruct Hab as (A1 & A2 & A3), Hbc as (B1 & B2 & B3). split; [congruence|]. split; [congruence|].
  destruct (st_kind a), (st_kind b), (st_kind c); try done. destruct A3, B3. split; congruence.
Qed.

Lemma put_pending_released s i f p : inst s i f -> released_sim s (put_frame s i (set_pending f p)).
Proof.
  intros Hi. apply Forall2_same_length_lookup_2; [by rewrite length_put_frame|].
  intros j e e' E. rewrite (put_frame_lookup s i _ f j Hi). destruct Hi as (e0 & E0 & Hk). case_decide as Hj.
  - subst j. rewrite E in E0. injection E0 as <-. rewrite E. intros [= <-]. split; [done|]. split; [done|]. cbn. by rewrite Hk.
  - rewrite E. intros [= <-]. split; [done|]. split; [done|]. by destruct (st_kind e).
Qed.

Lemma inv_release_all start os : forall s,
  stack_inv s (omap (keep start) os) ->
  exists s', release_origins s start os = Ret s' /\ stack_inv s' [] /\ released_sim s s'.
Proof.
  induction os as [|o os IH]; intros s Hs; cbn [release_origins omap list_omap] in *; [exists s; auto using released_refl|].
  unfold keep in Hs at 1. destruct (fo_owner o <? start)%nat; [|by apply IH].
  destruct (si_owners _ _ Hs o) as [f Hf]; [by left|].
  pose proof (inst_target _ _ _ _ Hs Hf) as (e & E & Ht & _). destruct o as [ow slot]. cbn [fo_owner fo_slot] in *.
  unfold update_frame. rewrite (inst_frame_at _ _ _ _ Hs Hf). cbn [res_bind]. rewrite (set_frame_put _ _ _ e _ Hs E), Ht.
  cbn [res_bind]. destruct (IH _ (inv_release _ _ _ _ _ Hs Hf)) as (s' & Es & Hi & Hl). exists s'. split; [done|].
  split; [done|]. eapply released_trans; [by apply put_pending_released|done].
Qed.

Lemma truncate_inv s n :
  stack_inv s [] -> (n <= length s)%nat ->
  exists s', release_pending_origins_for_dropped s n = Ret s' /\ stack_inv (take n s') [] /\
    released_sim (take n s) (take n s').
Proof.
  intros Hs Hn. destruct (inv_release_all n (omap entry_origin (drop n s)) (take n s) (inv_take n s Hs)) as (s' & E & Hi & Hl).
  pose proof (Forall2_length Hl) as Hlen. rewrite length_take in Hlen. exists (s' ++ drop n s). unfold release_pending_origins_for_dropped.
  rewrite <- (take_drop n s) at 1. rewrite (release_app _ _ _ (drop n s) _ E). split; [done|].
  by rewrite take_app_length' by lia.
Qed.
End Inv.
