(* ===== verification/CallLoopFacts.v ===== *)
(** Theorems about the Javm call loop: the call stack stays well formed, a call
    and its return give the instance back to its slot, a yield reaches the
    nearest owner that catches it, and gas exhaustion tries every declared meter
    before it is reported. *)

From Stdlib Require Import ZArith Lia List Bool Sorted.
From stdpp Require Import base list numbers tactics relations gmap.
From S2P Require Import Prelude MachineInt GasConst Mat OrdMap Program Merkle Ssz SszFacts SszContainer Radix CapData CapSlot CapImage Cap CapFacts Cache CacheFacts CachedCap Task TaskFacts Frame CallLoop StackInv.
Open Scope Z_scope.

Section Loop.
  Context {D : Digest} {K : KernelHash} {Rt Ci : Type} {Mc : Machine Rt} {Mt : Metering}.
  Variable CACHE : Directory (CachedCap Rt Ci).
Notation Frame := (KernelFrame Rt Ci).
Notation Entry := (StackEntry (KernelFrame Rt Ci) JavmEntryMeta).
Notation Stack := (list (StackEntry (KernelFrame Rt Ci) JavmEntryMeta)).
Notation Ctx := (TaskCtx (KernelFrame Rt Ci) JavmEntryMeta Key).
Implicit Types s : Stack.
Implicit Types f : Frame.
Implicit Types c : Ctx.

Lemma stack_ok_top s : stack_ok s -> exists e, s !! pred (length s) = Some e.
Proof.
  intros [Hne _]. apply lookup_lt_is_Some_2. destruct s; [done|]. cbn. lia.
Qed.

Lemma stack_ok_sim s s' : stack_sim s s' -> stack_ok s -> stack_ok s'.
Proof.
  intros Hsim [Hne Hs]. split; [|by eapply stack_inv_sim]. intros ->. by inversion Hsim; subst.
Qed.

(** ** Returning *)

Lemma fold_back_ok f :
  frame_ok f -> exists r, fold_back f = Ok r /\ match r with Some (o, _) => k_origin f = Some o | None => k_origin f = None end.
Proof.
  intros [(cap & cn & E) _]. unfold fold_back. destruct (k_origin f) as [o|]; [|by exists None].
  unfold resident_instance_to_cached_cap. cbn [in_root_cnode]. rewrite E. cbn. by eexists.
Qed.

(** Removing the top of the stack leaves its reservation behind. *)
Lemma inv_pop s e :
  stack_inv s [] -> list.last s = Some e ->
  stack_inv (take (pred (length s)) s) (match entry_origin e with Some o => [o] | None => [] end).
Proof.
  intros Hs He. rewrite list.last_lookup in He. pose proof (lookup_lt_Some _ _ _ He) as Hlt.
  pose proof (inv_take (pred (length s)) s Hs) as Ht.
  assert (drop (pred (length s)) s = [e]) as Ed.
  { apply list_eq. intros [|i]; rewrite lookup_drop; [by rewrite Nat.add_0_r|]. cbn. apply lookup_ge_None_2. lia. }
  unfold dropped in Ht. rewrite Ed in Ht. cbn in Ht. destruct (entry_origin e) as [o|] eqn:Eo; [|done].
  cbn in Ht. unfold keep in Ht. apply entry_origin_inst in Eo as (f & Hk & Ho).
  destruct (owner_below s [] (pred (length s)) f o Hs) as [Hlo _]; [by exists e|done|].
  destruct (Nat.ltb_spec (fo_owner o) (pred (length s))); [done|lia].
Qed.

Lemma restore_ok s o cap :
  stack_inv s [o] -> exists s', restore_instance_to_origin s o cap = Ret (Ok s') /\ stack_inv s' [] /\ length s' = length s.
Proof.
  intros Hs. destruct (si_owners _ _ Hs o) as [f Hf]; [by left|]. destruct o as [ow slot]. cbn [fo_owner] in Hf.
  pose proof (inst_target _ _ _ _ Hs Hf) as (e & E & Ht & _).
  assert (pends f slot) as Hp by (apply (si_pending _ _ Hs ow f slot Hf); right; by left).
  unfold restore_instance_to_origin, update_frame. cbn [fo_owner fo_slot]. rewrite (inst_frame_at _ _ _ _ Hs Hf).
  cbn [res_bind]. rewrite Hp. set (f' := set_pending f _).
  assert (stack_inv (put_frame s ow f') []) as Hs' by (by apply inv_release).
  assert (inst (put_frame s ow f') ow f') as Hf' by (apply (put_frame_inst s ow f' f); [done|]; by left).
  destruct (cnode_set_sim f' slot (Some (COwned cap)) (inst_frame_ok _ _ _ _ Hs' Hf')) as (g & -> & Hg).
  cbn [res_bind]. rewrite (set_frame_put _ _ _ e _ Hs E), Ht. cbn [res_bind]. eexists. split; [done|].
  split; [|apply length_put_frame].
  rewrite <- (put_frame_twice s ow f f' g Hf).
  by eapply stack_inv_sim; [apply (put_frame_sim _ ow f' g)|].
Qed.

(** The top frame has no instance running above it. *)
Lemma top_no_pending s f : stack_inv s [] -> inst s (pred (length s)) f -> k_pending f = [].
Proof.
  intros Hs Hf. destruct (k_pending f) as [|[slot []] p] eqn:Ep; [done|]. exfalso.
  assert (pends f slot) as Hx by (unfold pends, slot_is_pending; rewrite Ep; cbn [om_get]; by rewrite cmp_refl).
  apply (si_pending _ _ Hs _ f slot Hf) in Hx as [(j & h & Hh & Eo)|Hx]; [|by apply not_elem_of_nil in Hx].
  destruct (owner_below _ _ _ _ _ Hs Hh Eo) as [Hlo _]. apply inst_lt in Hh. cbn in Hlo. lia.
Qed.

(** The caller sees the return value, the status and the scratchpad. *)
Definition reflect (rv : Z) (scratch : option (Target Rt Ci)) f : Res Frame :=
  let f := set_regs (set_regs f 7 rv) 8 STATUS_OK in
  match scratch with Some cap => frame_cnode_set f scratch_key (Some cap) | None => Ret f end.

Lemma reflect_sim rv scratch f : frame_ok f -> exists g, reflect rv scratch f = Ret g /\ frame_sim f g.
Proof.
  intros Hf. unfold reflect. assert (frame_sim f (set_regs (set_regs f 7 rv) 8 STATUS_OK)) as Hr.
  { eapply frame_sim_trans; apply sim_set_regs. }
  destruct scratch as [cap|]; [|by eexists].
  destruct (cnode_set_sim (set_regs (set_regs f 7 rv) 8 STATUS_OK) scratch_key (Some cap)) as (g & E & Hg); [by apply Hr|].
  exists g. split; [done|]. by eapply frame_sim_trans.
Qed.

Lemma length_sim s s' : stack_sim s s' -> length s' = length s.
Proof. intros H. symmetry. by eapply Forall2_length. Qed.

(** Giving the popped instance back. *)
Lemma give_back_ok s ex r :
  stack_inv s ex -> ex = match r with Some (o, _) => [o] | None => [] end -> s <> [] ->
  exists s', match r with
             | None => Ret (Ok (s, false))
             | Some (o, cap) => let* s' := restore_instance_to_origin s o cap in Ret (Ok (s', false))
             end = Ret (Ok (s', false)) /\ stack_ok s'.
Proof.
  intros Hs -> Hne. destruct r as [[o cap]|]; [|by exists s].
  destruct (restore_ok s o cap Hs) as (s3 & -> & Hs3 & Hl3). exists s3. split; [done|]. split; [|done].
  intros ->. by destruct s.
Qed.

Lemma pop_total s e f rv :
  stack_ok s -> list.last s = Some e -> st_kind e = EInstance f ->
  exists s' d, pop_and_reflect s rv = Ret (Ok (s', d)) /\ (d = false -> stack_ok s') /\ (d = true <-> length s = 1%nat).
Proof.
  intros [Hne Hs] He Hk. pose proof (inv_pop s e Hs He) as Hp. pose proof He as He'. rewrite list.last_lookup in He'.
  assert (inst s (pred (length s)) f) as Hf by (by exists e).
  pose proof (inst_frame_ok _ _ _ _ Hs Hf) as Hfok.
  assert (length (take (pred (length s)) s) = pred (length s)) as Hlt by (rewrite length_take; lia).
  unfold pop_and_reflect. rewrite He'. destruct e as [k t iid m]. cbn in Hk. subst k. rewrite (top_no_pending s f Hs Hf).
  unfold entry_origin in Hp. cbn [st_kind] in Hp.
  set (s1 := take (pred (length s)) s) in *. destruct s1 as [|e0 s0] eqn:Et.
  { exists [], true. split; [done|]. split; [done|]. split; [intros _|done]. destruct s; [done|]. cbn in *. lia. }
  rewrite <- Et in *.
  destruct (cnode_take_sim f scratch_key Hfok) as (f1 & scratch & -> & Hf1 & Hf1p & Hf1ok).
  cbn [res_bind]. destruct (fold_back_ok f1 (Hf1ok Hfok)) as (r & -> & Hr).
  destruct (lookup_lt_is_Some_2 s1 (pred (length s1))) as [pe Epe]; [rewrite Et; cbn; lia|].
  destruct (update_frame_sim s1 _ (pred (length s1)) pe (reflect rv scratch) Hp Epe) as (s2 & Eu & Hsim).
  { intros g _. apply reflect_sim. }
  change (update_frame s1 _ _) with (update_frame s1 (pred (length s1)) (reflect rv scratch)). rewrite Eu. cbn [res_bind].
  destruct (give_back_ok s2 _ r (stack_inv_sim _ _ _ Hsim Hp)) as (s3 & -> & Hs3).
  { rewrite Hf1 in Hr. destruct r as [[o cap]|]; by rewrite Hr. }
  { intros ->. apply length_sim in Hsim. by rewrite Et in Hsim. }
  exists s3, false. split; [done|]. split; [done|]. split; [done|]. intros Hl. rewrite Hl, Et in Hlt. done.
Qed.

Lemma unwind_total s e rv :
  stack_ok s -> s !! pred (length s) = Some e ->
  exists s' d, unwind_to_handler s (pred (length s)) rv = Ret (Ok (s', d)) /\ (d = false -> stack_ok s') /\
               (d = true <-> st_target e = 0%nat).
Proof.
  intros [Hne Hs] E. destruct (target_inst s [] _ e Hs E) as (Hle & f & e0 & E0 & Hk). pose proof (lookup_lt_Some _ _ _ E0) as Hlt.
  destruct (truncate_inv s (S (st_target e)) Hs) as (s' & Er & Hi & Hl); [lia|].
  unfold unwind_to_handler. rewrite E, Er. cbn [res_bind].
  assert (length (take (S (st_target e)) s') = S (st_target e)) as Hlen.
  { rewrite <- (Forall2_length Hl), length_take. lia. }
  destruct (Forall2_lookup_l _ _ _ (st_target e) e0 Hl) as (e' & E' & _ & _ & Hk'); [apply lookup_take_Some; split; [done|lia]|].
  rewrite Hk in Hk'. destruct (st_kind e') as [f'|] eqn:Ek; [|done].
  destruct (pop_total (take (S (st_target e)) s') e' f' rv) as (s2 & d & Hp & H1 & H2); [|by rewrite list.last_lookup, Hlen|done|].
  - split; [|done]. intros Hnil. by rewrite Hnil in Hlen.
  - exists s2, d. split; [done|]. split; [done|]. rewrite H2, Hlen. lia.
Qed.

(** ** Routing *)

(** [o] owns the first edge, walking up from [n], whose snapshot has [key]. *)
Inductive nearest s (key : Key) : nat -> nat -> Prop :=
| NearestHere n e o : s !! n = Some e -> owner (st_meta e) = Some o -> In key (owner_catch_set (st_meta e)) -> nearest s key n o
| NearestUp n e o o' : s !! n = Some e -> owner (st_meta e) = Some o -> ~ In key (owner_catch_set (st_meta e)) ->
    nearest s key o o' -> nearest s key n o'.

(** No owner of [n], however far, catches [key]. *)
Inductive uncaught s (key : Key) : nat -> Prop :=
| UncaughtRoot n e : s !! n = Some e -> owner (st_meta e) = None -> uncaught s key n
| UncaughtUp n e o : s !! n = Some e -> owner (st_meta e) = Some o -> ~ In key (owner_catch_set (st_meta e)) ->
    uncaught s key o -> uncaught s key n.

Lemma find_catcher_spec s ex key fuel : forall n f,
  stack_inv s ex -> inst s n f -> (n < fuel)%nat ->
  (exists o g, find_catcher fuel s n key = Ret (Some o) /\ nearest s key n o /\ inst s o g /\ (o < n)%nat) \/
  (find_catcher fuel s n key = Ret None /\ uncaught s key n).
Proof.
  induction fuel as [|fuel IH]; intros n f Hs Hf Hlt; [lia|]. destruct Hf as (e & E & Hk). cbn [find_catcher]. rewrite E.
  destruct (si_entry _ _ Hs n e E) as [[_ Hsort] Hok]. rewrite Hk in Hok. destruct Hok as (_ & _ & Ho).
  pose proof (binary_contains_spec key _ Hsort) as HIn. destruct n as [|j].
  - destruct Ho as [Ho _]. rewrite Ho. right. split; [done|]. by eapply UncaughtRoot.
  - destruct Ho as (o & slot & pe & Ho & _ & Epe & Ht). rewrite Ho. destruct (target_inst _ _ _ _ Hs Epe) as (Hle & g & Hg).
    rewrite Ht in *. destruct (binary_contains _ _) eqn:Ex.
    + left. exists o, g. split; [done|]. split; [|split; [done|lia]]. eapply NearestHere; [done|done|]. by apply HIn.
    + assert (~ In key (owner_catch_set (st_meta e))) as Hni by (rewrite <- HIn; congruence).
      destruct (IH o g Hs Hg) as [(o' & g' & H1 & H2 & H3 & H4)|[H1 H2]]; [lia|left|right].
      * exists o', g'. split; [done|]. split; [by eapply NearestUp|]. split; [done|lia].
      * split; [done|]. by eapply UncaughtUp.
Qed.

(** What a catcher's frame becomes. *)
Definition caught (payload : option (InstanceCap Cap)) f : Res Frame :=
  let! f := match payload with
            | Some i => frame_cnode_set f scratch_key (Some (COwned (cached (Cap_Instance i))))
            | None => Ret f
            end in
  Ret (set_regs f 8 STATUS_YIELDED).

Lemma caught_sim payload f : frame_ok f -> exists g, caught payload f = Ret g /\ frame_sim f g.
Proof.
  intros Hf. unfold caught. destruct payload as [i|]; [|eexists; split; [done|apply sim_set_regs]].
  destruct (cnode_set_sim f scratch_key (Some (COwned (cached (Cap_Instance i)))) Hf) as (g & -> & Hg).
  eexists. split; [done|]. eapply frame_sim_trans; [done|apply sim_set_regs].
Qed.

Lemma caught_payload p f g : caught (Some p) f = Ret g -> with_cnode_peek g scratch_key = Ret (Some (COwned (cached (Cap_Instance p)))).
Proof.
  unfold caught. destruct (frame_cnode_set f scratch_key _) as [f1|] eqn:E1; [|done].
  intros [= <-]. exact (cnode_set_peek f scratch_key _ f1 E1).
Qed.

Lemma route_total s top e key payload :
  stack_ok s -> s !! top = Some e ->
  (route_yield s top key payload = Ret None /\ uncaught s key (st_target e)) \/
  (exists o oe f g, nearest s key (st_target e) o /\ s !! o = Some oe /\ inst s o f /\ caught payload f = Ret g /\
     (o < st_target e)%nat /\
     let s' := put_frame s o g ++ [mkStackEntry EReference o (st_iid oe) (mkMeta (owner (st_meta oe)) [] (entry_gas (st_meta oe)))] in
     route_yield s top key payload = Ret (Some s') /\ stack_ok s').
Proof.
  intros [Hne Hs] E. destruct (target_inst _ _ _ _ Hs E) as (_ & f & Hf). unfold route_yield. rewrite E.
  destruct (find_catcher_spec s [] key (S (length s)) (st_target e) f Hs Hf) as [(o & g & -> & H2 & H3 & H4)|[-> H2]].
  { apply inst_lt in Hf. lia. }
  2: { by left. }
  right. cbn [res_bind]. pose proof (inst_target _ _ _ _ Hs H3) as (oe & Eo & Hto & _). rewrite Eo.
  destruct (caught_sim payload g (inst_frame_ok _ _ _ _ Hs H3)) as (g' & Ec & Hg').
  exists o, oe, g, g'. split; [done|]. split; [done|]. split; [done|]. split; [done|]. split; [done|]. cbn zeta.
  change (update_frame s o _) with (update_frame s o (caught payload)). unfold update_frame.
  rewrite (inst_frame_at _ _ _ _ Hs H3). cbn [res_bind]. rewrite Ec. cbn [res_bind].
  rewrite (set_frame_put _ _ _ oe _ Hs Eo), Hto. cbn [res_bind]. split; [done|]. split; [by destruct (put_frame s o g')|].
  eapply inv_push_ref.
  - eapply stack_inv_sim; [by apply (put_frame_sim s o g g')|done].
  - apply (put_frame_inst s o g' g); [done|]. by left.
  - split; [apply (si_entry _ _ Hs o oe Eo)|constructor].
Qed.

(** A catcher's frame before and after a yield is handed to it: the status
    register, the scratchpad slot when there is a payload, and nothing else. *)
Record handed_over (payload : option (InstanceCap Cap)) f (g : Frame) : Prop := {
  ho_regs : in_regs (k_instance g) = <[8%nat := STATUS_YIELDED]> (in_regs (k_instance f));
  ho_payload p : payload = Some p -> with_cnode_peek g scratch_key = Ret (Some (COwned (cached (Cap_Instance p))));
  ho_slots cn k : with_root_cnode f = Ret cn -> om_ok cn -> payload = None \/ k <> scratch_key ->
    with_cnode_peek g k = Ret (peek_key cn k);
  ho_code : in_pc (k_instance g) = in_pc (k_instance f) /\ in_image_hash (k_instance g) = in_image_hash (k_instance f) /\
    in_image_hash_chain (k_instance g) = in_image_hash_chain (k_instance f);
  ho_mem : in_mem (k_instance g) = in_mem (k_instance f) /\ k_mat_state g = k_mat_state f /\ k_ro_units g = k_ro_units f /\
    k_runtime g = k_runtime f;
  ho_links : k_origin g = k_origin f /\ k_pending g = k_pending f /\ k_pinned g = k_pinned f }.

Lemma caught_handed payload f g : caught payload f = Ret g -> handed_over payload f g.
Proof.
  intros E. assert (forall p, payload = Some p -> with_cnode_peek g scratch_key = Ret (Some (COwned (cached (Cap_Instance p))))) as Hpay.
  { intros p ->. by apply (caught_payload p f). }
  unfold caught in E. destruct payload as [p|].
  - destruct (frame_cnode_set f scratch_key _) as [f1|] eqn:E1; [|done]. injection E as <-.
    unfold frame_cnode_set in E1. destruct (with_root_cnode f) as [cn|] eqn:Ecn; [|done]. injection E1 as <-. split; try done.
    intros cn' k Ecn' Ho [|Hk]; [done|]. rewrite Ecn in Ecn'. injection Ecn' as <-. unfold with_cnode_peek.
    change (with_root_cnode (set_regs ?x _ _)) with (with_root_cnode x). rewrite (root_set _ _ _ Ecn). cbn [res_bind].
    rewrite set_key_fst. unfold peek_key. by rewrite om_get_insert, decide_False.
  - injection E as <-. split; try done. intros cn k Ecn _ _. unfold with_cnode_peek.
    change (with_root_cnode (set_regs ?x _ _)) with (with_root_cnode x). by rewrite Ecn.
Qed.

(** The activation of a catcher that a yield pushes. *)
Definition activation (o : nat) (oe : Entry) : Entry :=
  mkStackEntry EReference o (st_iid oe) (mkMeta (owner (st_meta oe)) [] (entry_gas (st_meta oe))).

(** C26: a yield goes to the nearest owner that catches it. Routing walks the
    owner edges up from the yielding instance: if no edge's snapshot has the
    key it changes nothing; otherwise it pushes one activation of the owner of
    the first edge that does. Of that owner's frame the status register now says
    it was yielded to and the scratchpad slot holds the payload, if there is one;
    its other registers and slots, its pc, memory and reservations, and every
    other entry of the stack are as they were. *)
Theorem route_yield_nearest s top e key payload :
  stack_ok s -> s !! top = Some e ->
  (route_yield s top key payload = Ret None /\ uncaught s key (st_target e)) \/
  (exists o oe f g, nearest s key (st_target e) o /\ s !! o = Some oe /\ inst s o f /\ handed_over payload f g /\
     route_yield s top key payload = Ret (Some (put_frame s o g ++ [activation o oe])) /\
     stack_ok (put_frame s o g ++ [activation o oe])).
Proof.
  intros Hs E. destruct (route_total s top e key payload Hs E) as [?|(o & oe & f & g & H1 & H2 & H3 & H4 & H5 & H6 & H7)]; [by left|].
  right. exists o, oe, f, g. split; [done|]. split; [done|]. split; [done|]. split; [by apply caught_handed|]. by split.
Qed.

(** ** Gas exhaustion *)

(** The links yields follow. *)
Definition edge (e : Entry) : nat * option nat * list Key := (st_target e, owner (st_meta e), owner_catch_set (st_meta e)).
Definition same_edges s s' : Prop := forall n : nat, option_map edge (s !! n) = option_map edge (s' !! n).

Lemma edges_lookup s s' n e' : same_edges s s' -> s' !! n = Some e' -> exists e, s !! n = Some e /\ edge e = edge e'.
Proof. intros Hs E. specialize (Hs n). rewrite E in Hs. destruct (s !! n) as [e|]; [|done]. exists e. split; [done|]. cbn [option_map] in Hs. congruence. Qed.

Lemma nearest_edges s s' key n o : same_edges s s' -> nearest s' key n o -> nearest s key n o.
Proof.
  intros Hs. induction 1 as [n e' o E' Ho Hin|n e' o o' E' Ho Hni _ IH];
    destruct (edges_lookup _ _ _ _ Hs E') as (e & E & [= _ Eo Ec]).
  - eapply NearestHere; [done|congruence|congruence].
  - eapply NearestUp; [done|rewrite Eo; done|congruence|done].
Qed.

Lemma uncaught_edges s s' key n : same_edges s s' -> uncaught s' key n -> uncaught s key n.
Proof.
  intros Hs. induction 1 as [n e' E' Ho|n e' o E' Ho Hni _ IH]; destruct (edges_lookup _ _ _ _ Hs E') as (e & E & [= _ Eo Ec]).
  - eapply UncaughtRoot; [done|congruence].
  - eapply UncaughtUp; [done|rewrite Eo; done|congruence|done].
Qed.

Lemma edges_trans s1 s2 s3 : same_edges s1 s2 -> same_edges s2 s3 -> same_edges s1 s3.
Proof. intros H1 H2 n. by rewrite H1. Qed.

Lemma put_frame_edges s i f g : inst s i f -> same_edges s (put_frame s i g).
Proof.
  intros Hi n. rewrite (put_frame_lookup s i g f n Hi). case_decide; [|done]. subst. by destruct (s !! i).
Qed.

Definition with_scope (g : FrameGas) (e : Entry) : Entry :=
  mkStackEntry (st_kind e) (st_target e) (st_iid e) (mkMeta (owner (st_meta e)) (owner_catch_set (st_meta e)) g).

(** The stack with the frame [f] of entry [t] back at [pc] and the entry on top
    on the gas scope [g]. *)
Definition retried s (t : nat) f (pc : Z) (g : FrameGas) : Stack :=
  alter (with_scope g) (pred (length s)) (put_frame s t (set_pc f pc)).

Lemma length_retried s t f pc g : length (retried s t f pc g) = length s.
Proof. unfold retried. by rewrite length_alter, length_put_frame. Qed.

Lemma put_frame_alter s t f g sc n :
  inst s t f -> put_frame (alter (with_scope sc) n s) t g = alter (with_scope sc) n (put_frame s t g).
Proof.
  intros (e & E & Hk). apply list_eq. intros k. unfold put_frame. rewrite E. destruct (decide (n = t)) as [->|Hn].
  - rewrite list_lookup_alter_eq, E. cbn [fmap option_fmap option_map]. destruct (decide (k = t)) as [->|Hkt].
    + rewrite list_lookup_insert_eq by (rewrite length_alter; by eapply lookup_lt_Some).
      rewrite list_lookup_alter_eq, list_lookup_insert_eq by (by eapply lookup_lt_Some). done.
    + by rewrite list_lookup_insert_ne, !list_lookup_alter_ne, list_lookup_insert_ne by done.
  - rewrite list_lookup_alter_ne, E by done. destruct (decide (k = t)) as [->|Hkt].
    + rewrite list_lookup_insert_eq by (rewrite length_alter; by eapply lookup_lt_Some).
      by rewrite list_lookup_alter_ne, list_lookup_insert_eq by (done || by eapply lookup_lt_Some).
    + rewrite list_lookup_insert_ne by done. destruct (decide (k = n)) as [->|]; [rewrite !list_lookup_alter_eq|rewrite !list_lookup_alter_ne by done];
        by rewrite list_lookup_insert_ne.
Qed.

Lemma retried_inst s t f pc g : inst s t f -> inst (retried s t f pc g) t (set_pc f pc).
Proof.
  intros Hf. assert (inst (put_frame s t (set_pc f pc)) t (set_pc f pc)) as (e & E & Hk) by (apply (put_frame_inst s t _ f); [done|]; by left).
  unfold retried, inst. destruct (decide (pred (length s) = t)) as [->|Hn].
  - rewrite list_lookup_alter_eq, E. by eexists.
  - rewrite list_lookup_alter_ne, E by done. by eexists.
Qed.

Lemma retried_twice s t f pc g g' : inst s t f -> retried (retried s t f pc g) t (set_pc f pc) pc g' = retried s t f pc g'.
Proof.
  intros Hf. unfold retried at 1. rewrite length_retried. unfold retried.
  assert (inst (put_frame s t (set_pc f pc)) t (set_pc f pc)) as Hi by (apply (put_frame_inst s t _ f); [done|]; by left).
  rewrite (put_frame_alter _ t (set_pc f pc)) by done. change (set_pc (set_pc f pc) pc) with (set_pc f pc).
  rewrite (put_frame_twice s t f) by done. apply list_eq. intros n.
  destruct (decide (n = pred (length s))) as [->|Hn]; [rewrite !list_lookup_alter_eq|by rewrite !list_lookup_alter_ne].
  by destruct (_ !! _).
Qed.
(** Both branches start by rewinding the frame and end by writing the gas
    scope. *)
Lemma oog_rewind s e f pc g :
  stack_ok s -> s !! pred (length s) = Some e -> inst s (st_target e) f -> (gas_ok (entry_gas (st_meta e)) -> gas_ok g) ->
  let s1 := put_frame s (st_target e) (set_pc f pc) in
  let s2 := retried s (st_target e) f pc g in
  update_frame s (pred (length s)) (fun f => Ret (set_pc f pc)) = Ret s1 /\
  (exists e1, s1 !! pred (length s) = Some e1 /\ st_meta e1 = st_meta e) /\
  set_meta s1 (pred (length s)) (mkMeta (owner (st_meta e)) (owner_catch_set (st_meta e)) g) = Ret s2 /\
  stack_ok s2 /\ same_edges s s2 /\
  exists e2, s2 !! pred (length s) = Some e2 /\ entry_gas (st_meta e2) = g /\ st_target e2 = st_target e.
Proof.
  intros Hs E Hf Hg s1 s2. pose proof Hs as [Hne Hi].
  destruct (frame_at_inst _ _ _ _ Hi E) as (f' & Ef & Hf'). rewrite (inst_fun _ _ _ _ Hf' Hf) in Ef.
  assert (stack_sim s s1) as Hsim by (apply (put_frame_sim s _ f); [done|apply sim_set_pc]).
  pose proof (put_frame_edges s (st_target e) f (set_pc f pc) Hf) as He. fold s1 in He.
  destruct (Forall2_lookup_l _ _ _ _ _ Hsim E) as (e1 & E1 & T1 & O1 & _).
  assert (st_meta e1 = st_meta e) as M1.
  { unfold s1 in E1. rewrite (put_frame_lookup s _ _ f _ Hf) in E1. case_decide as Ht; [|congruence].
    rewrite <- Ht, E in E1. by injection E1 as <-. }
  set (m := mkMeta (owner (st_meta e)) (owner_catch_set (st_meta e)) g).
  assert (meta_ok (st_meta e1) -> meta_ok m) as Hm by (rewrite M1; intros [? ?]; split; [auto|done]).
  destruct (set_meta_sim s1 _ e1 m E1) as (s2' & E2 & Hsim2 & Es2); [by rewrite M1|done|].
  assert (s2' = s2) as ->.
  { rewrite Es2. unfold s2, retried. fold s1. apply list_eq. intros n. destruct (decide (n = pred (length s))) as [->|Hn].
    - rewrite list_lookup_insert_eq by (by eapply lookup_lt_Some). rewrite list_lookup_alter_eq, E1. cbn. unfold with_scope. by rewrite M1.
    - by rewrite list_lookup_insert_ne, list_lookup_alter_ne. }
  split; [unfold update_frame; rewrite Ef; cbn [res_bind]; exact (set_frame_put _ _ _ _ _ Hi E)|].
  split; [by exists e1|]. split; [exact E2|]. split; [eapply stack_ok_sim; [|done]; by eapply stack_sim_trans|].
  assert (s2 !! pred (length s) = Some (with_scope g e1)) as E2' by (unfold s2, retried; by rewrite list_lookup_alter_eq; fold s1; rewrite E1).
  split; [|by eexists]. eapply edges_trans; [exact He|]. intros n. destruct (decide (n = pred (length s))) as [->|Hn].
  - by rewrite E1, E2'.
  - unfold s2, retried. by rewrite list_lookup_alter_ne.
Qed.

(** The next meter. *)
Lemma oog_advance s e f pc ms i :
  stack_ok s -> s !! pred (length s) = Some e -> inst s (st_target e) f ->
  entry_gas (st_meta e) = mkFrameGas ms (Some i) -> (S i < length ms)%nat ->
  try_oog_yield s (pred (length s)) pc = Ret (Some (retried s (st_target e) f pc (mkFrameGas ms (Some (S i))))).
Proof.
  intros Hs E Hf Hg Hi. destruct (oog_rewind s e f pc (mkFrameGas ms (Some (S i))) Hs E Hf) as (H1 & (e1 & H2 & H3) & H4 & _).
  { rewrite Hg. by intros [Hm _]. }
  unfold try_oog_yield, javm_active_meter. rewrite E. cbn [res_bind]. unfold active_key. rewrite Hg. cbn [fg_active fg_meters].
  destruct (lookup_lt_is_Some_2 ms i) as [k ->]; [lia|]. rewrite H1. cbn [res_bind]. rewrite H2, H3. unfold advance. rewrite Hg.
  cbn [fg_active fg_meters]. destruct (Nat.ltb_spec (S i) (length ms)); [|lia]. by rewrite H4.
Qed.

(** The last meter: back to the first, then a yield. *)
Lemma oog_exhausted s e f pc ms i :
  stack_ok s -> s !! pred (length s) = Some e -> inst s (st_target e) f ->
  entry_gas (st_meta e) = mkFrameGas ms (Some i) -> S i = length ms ->
  exists m0 h, head ms = Some m0 /\ gas_handle m0 = Ret h /\
    try_oog_yield s (pred (length s)) pc =
      route_yield (retried s (st_target e) f pc (mkFrameGas ms (Some 0%nat))) (pred (length s)) YK_OOG (Some h).
Proof.
  intros Hs E Hf Hg Hi. pose proof Hs as [_ Hinv]. destruct (si_entry _ _ Hinv _ _ E) as [[[Hm _] _] _]. rewrite Hg in Hm. cbn in Hm.
  destruct ms as [|m0 ms]; [done|]. apply Forall_cons_iff in Hm as [Hm0 _].
  destruct (oog_rewind s e f pc (mkFrameGas (m0 :: ms) (Some 0%nat)) Hs E Hf) as (H1 & (e1 & H2 & H3) & H4 & _).
  { rewrite Hg. intros [Hx _]. split; [done|cbn; lia]. }
  assert (exists h, gas_handle (O := Cap) m0 = Ret h) as [h Hh].
  { unfold gas_handle, unit_handle, key_to_regs. destruct (Z.leb_spec (zlen m0) MAX_KEY_LEN); [by eexists|lia]. }
  exists m0, h. split; [done|]. split; [done|].
  unfold try_oog_yield, javm_active_meter. rewrite E. cbn [res_bind]. unfold active_key. rewrite Hg. cbn [fg_active fg_meters].
  destruct (lookup_lt_is_Some_2 (m0 :: ms) i) as [k ->]; [lia|]. rewrite H1. cbn [res_bind]. rewrite H2, H3. unfold advance. rewrite Hg.
  cbn [fg_active fg_meters]. destruct (Nat.ltb_spec (S i) (length (m0 :: ms))); [lia|]. cbn [primary_key fg_meters head reset_to_primary].
  rewrite H4. cbn [res_bind]. by rewrite Hh.
Qed.

(** [n] gas exhaustions in a row. *)
Fixpoint oog_rounds (n : nat) s (pc : Z) : Res (option Stack) :=
  match n with
  | O => Ret (Some s)
  | S m => let! r := try_oog_yield s (pred (length s)) pc in
           match r with Some s' => oog_rounds m s' pc | None => Ret None end
  end.

(** From the second exhaustion on the frame is already at [pc]. *)
Definition after_rounds (k : nat) s (t : nat) f (pc : Z) (ms : list Key) (i : nat) : Stack :=
  match k with O => s | S _ => retried s t f pc (mkFrameGas ms (Some (i + k)%nat)) end.

Lemma oog_meters k : forall s e f pc ms i,
  stack_ok s -> s !! pred (length s) = Some e -> inst s (st_target e) f ->
  entry_gas (st_meta e) = mkFrameGas ms (Some i) -> (i + k < length ms)%nat ->
  let sk := after_rounds k s (st_target e) f pc ms i in
  (forall n, oog_rounds (k + n) s pc = oog_rounds n sk pc) /\ stack_ok sk /\ length sk = length s /\ same_edges s sk /\
  (exists fk, inst sk (st_target e) fk /\ forall g, retried sk (st_target e) fk pc g = retried s (st_target e) f pc g) /\
  exists ek, sk !! pred (length s) = Some ek /\ entry_gas (st_meta ek) = mkFrameGas ms (Some (i + k)%nat) /\ st_target ek = st_target e.
Proof.
  induction k as [|k IH]; intros s e f pc ms i Hs E Hf Hg Hi sk.
  - unfold sk. cbn [after_rounds]. rewrite Nat.add_0_r. do 4 (split; [done|]). split; [by exists f|by exists e].
  - destruct (IH s e f pc ms i Hs E Hf Hg) as (K1 & K2 & K3 & K4 & (fk & K5 & K6) & (ek & K7 & K8 & K9)); [lia|].
    set (sp := after_rounds k s (st_target e) f pc ms i) in *. rewrite <- K3 in K7. rewrite <- K9 in K5.
    pose proof (oog_advance sp ek fk pc ms _ K2 K7 K5 K8 ltac:(lia)) as Ea. rewrite K9, K6 in Ea.
    destruct (oog_rewind s e f pc (mkFrameGas ms (Some (i + S k)%nat)) Hs E Hf) as (_ & _ & _ & R1 & R2 & R3); [rewrite Hg; intros [? _]; split; [done|cbn; lia]|].
    unfold sk. cbn [after_rounds]. split; [|split; [done|split; [apply length_retried|split; [done|split; [|done]]]]].
    + intros n. replace (S k + n)%nat with (k + S n)%nat by lia. rewrite K1. cbn [oog_rounds]. rewrite Ea. cbn [res_bind].
      by replace (S (i + k)) with (i + S k)%nat by lia.
    + exists (set_pc f pc). split; [by apply retried_inst|]. intros g. by apply retried_twice.
Qed.

(** C24: running out of gas tries every declared meter, then asks. From any
    meter of a frame's list, each exhaustion puts the frame back at its retry
    point and moves the entry on top to the next declared meter, in order, and
    changes nothing else of the stack; after the last one the entry is back on
    the primary meter and [kernel:oog] has been delivered, with the primary
    meter's gas handle, to the nearest owner that catches it; only if no owner
    does is the exhaustion reported to the host. *)
Theorem oog_consults_every_meter s e f pc ms i :
  stack_ok s -> s !! pred (length s) = Some e -> inst s (st_target e) f ->
  entry_gas (st_meta e) = mkFrameGas ms (Some i) -> (i < length ms)%nat ->
  (forall k, (0 < k)%nat -> (i + k < length ms)%nat ->
     oog_rounds k s pc = Ret (Some (retried s (st_target e) f pc (mkFrameGas ms (Some (i + k)%nat)))) /\
     stack_ok (retried s (st_target e) f pc (mkFrameGas ms (Some (i + k)%nat)))) /\
  let s1 := retried s (st_target e) f pc (mkFrameGas ms (Some 0%nat)) in
  (oog_rounds (length ms - i) s pc = Ret None /\ uncaught s YK_OOG (st_target e)) \/
  exists o oe fo g m0 h, nearest s YK_OOG (st_target e) o /\ s1 !! o = Some oe /\ inst s1 o fo /\
    head ms = Some m0 /\ gas_handle m0 = Ret h /\ handed_over (Some h) fo g /\
    oog_rounds (length ms - i) s pc = Ret (Some (put_frame s1 o g ++ [activation o oe])) /\
    stack_ok (put_frame s1 o g ++ [activation o oe]).
Proof.
  intros Hs E Hf Hg Hi. split.
  { intros [|k] H0 Hk; [lia|]. destruct (oog_meters (S k) s e f pc ms i Hs E Hf Hg Hk) as (K1 & K2 & _).
    split; [|exact K2]. specialize (K1 0%nat). by rewrite Nat.add_0_r in K1. }
  intros s1. destruct (oog_meters (length ms - 1 - i) s e f pc ms i Hs E Hf Hg) as (K1 & K2 & K3 & K4 & (fk & K5 & K6) & (ek & K7 & K8 & K9)); [lia|].
  replace (length ms - i)%nat with (length ms - 1 - i + 1)%nat by lia. rewrite K1. cbn [oog_rounds].
  set (sk := after_rounds _ _ _ _ _ _ _) in *. rewrite <- K3 in K7. rewrite <- K9 in K5.
  destruct (oog_exhausted sk ek fk pc ms _ K2 K7 K5 K8) as (m0 & h & Q1 & Q2 & Q3); [lia|]. rewrite K9, K6 in Q3. fold s1 in Q3. rewrite Q3.
  destruct (oog_rewind s e f pc (mkFrameGas ms (Some 0%nat)) Hs E Hf) as (_ & _ & _ & R1 & R2 & (e1 & R3 & _ & R4)).
  { rewrite Hg. intros [? _]. split; [done|cbn; lia]. }
  fold s1 in R1, R2, R3. rewrite K3. rewrite <- R4.
  destruct (route_total s1 _ e1 YK_OOG (Some h) R1 R3) as [[-> Hu]|(o & oe & fo & g & T1 & T2 & T3 & T4 & T5 & T6 & T7)].
  - left. split; [done|]. by eapply uncaught_edges.
  - right. rewrite T6. exists o, oe, fo, g, m0, h. split; [by eapply nearest_edges|]. do 4 (split; [done|]).
    split; [by apply caught_handed|]. by split.
Qed.

(** ** Frame operations keep what the stack relies on *)

Definition INV : Z := ERR_PENDING_ORIGIN_INVARIANT.

(** No bookkeeping error, and a frame that only differs in its slots. *)
Definition op_safe {A : Type} (f : Frame) (frame_of : A -> Frame) (r : Res (Result A Z)) : Prop :=
  match r with Ret (Ok a) => frame_sim f (frame_of a) | Ret (Err e) => e <> INV | Abort => True end.

Lemma set_bind_safe {A : Type} f slot t (frame_of : A -> Frame) (k : Frame -> Res (Result A Z)) :
  (forall g, frame_sim f g -> op_safe f frame_of (k g)) -> op_safe f frame_of (res_bind (frame_cnode_set f slot t) k).
Proof.
  intros Hk. unfold frame_cnode_set. destruct (with_root_cnode f) as [cn|]; [|done]. cbn [res_bind].
  apply Hk, sim_set_root.
Qed.

Lemma derive_spawn_safe w f :
  match dispatch_derive_spawn CACHE w f with
  | Ret (_, r) => op_safe f fst (Ret r)
  | Abort => True
  end.
Proof.
  unfold dispatch_derive_spawn. destruct (slot_write_blocked f _); [apply frame_sim_refl|].
  destruct (with_cnode_peek_guest f _) as [[t|]|]; [|apply frame_sim_refl|done]. cbn [res_bind].
  destruct (blob CACHE _) as [[| img | |]|]; [done| |done..].
  destruct (build_instance_mem _ _ _ _) as [w' mem]. unfold frame_cnode_set. destruct (with_root_cnode f) as [cn|]; [|done].
  apply sim_set_root.
Qed.

Lemma image_hash_chain_safe f : op_safe f fst (dispatch_image_hash_chain CACHE f).
Proof.
  unfold dispatch_image_hash_chain. destruct (slot_write_blocked f _); [apply frame_sim_refl|].
  destruct (with_cnode_peek_guest f _) as [[t|]|]; [|apply frame_sim_refl|done]. cbn [res_bind].
  assert (match type_identity CACHE t with Ret (Err e) => e <> INV | _ => True end) as Ht.
  { unfold type_identity. destruct t as [[h|cc]|]; [|destruct (cc_cap cc); try done; by destruct (cap_hash _)|done].
    by destruct (blob CACHE h) as [[]|]. }
  destruct (type_identity CACHE t) as [[[chain|]|e]|]; cbn [try_bind res_bind]; [|apply frame_sim_refl|done|done].
  apply set_bind_safe. by intros.
Qed.

Lemma mint_safe f h g : op_safe f (fun x => fst (fst x)) (let! (f', o) := mint_unit_handle f h in Ret (Ok (f', g : TaskGasState Key, o))).
Proof.
  unfold mint_unit_handle. destruct (slot_write_blocked f _); [apply frame_sim_refl|].
  unfold frame_cnode_set. destruct (with_root_cnode f); [|done]. apply sim_set_root.
Qed.

Lemma mint_yield_safe f g : op_safe f (fun x => fst (fst x)) (let! (f', o) := mint_yield f in Ret (Ok (f', g : TaskGasState Key, o))).
Proof.
  unfold mint_yield. destruct (_ || _); [apply frame_sim_refl|]. destruct (yield_sender _); [|done]. cbn [res_bind].
  unfold frame_cnode_set at 1. destruct (with_root_cnode f) as [cn|]; [|done]. cbn [res_bind]. set (f1 := set_root_cnode f _).
  unfold frame_cnode_set. destruct (with_root_cnode f1); [|done]. cbn. eapply frame_sim_trans; apply sim_set_root.
Qed.

Lemma merge_safe f g : op_safe f (fun x => fst (fst x)) (let* (f', o) := merge_receivers CACHE f in Ret (Ok (f', g : TaskGasState Key, o))).
Proof.
  unfold merge_receivers. destruct (slot_write_blocked f _); [apply frame_sim_refl|].
  destruct (read_instance_cap_guest CACHE f _) as [[[a|]|]|]; [|done|apply frame_sim_refl|done]. cbn [res_bind].
  destruct (read_instance_cap_guest CACHE f (slot_reg f 9)) as [[[b|]|]|]; [|done|apply frame_sim_refl|done]. cbn [res_bind].
  destruct (merge_yield_receivers a b) as [[m|]|]; [|apply frame_sim_refl|done]. cbn [res_bind].
  unfold frame_cnode_set. destruct (with_root_cnode f); [|done]. apply sim_set_root.
Qed.

Lemma host_yield_safe f g : op_safe f (fun x => fst (fst x)) (dispatch_host_yield CACHE f g).
Proof.
  unfold dispatch_host_yield. destruct (read_instance_cap_guest CACHE f _) as [[[i|]|]|]; [|apply frame_sim_refl..|done].
  cbn [res_bind]. destruct (yield_sender_key i) as [k|]; [|apply frame_sim_refl].
  destruct (negb _); [apply frame_sim_refl|]. case_bool_decide; [apply mint_yield_safe|]. case_bool_decide; [apply merge_safe|].
  case_bool_decide; [destruct (gas_handle _); [apply mint_safe|done]|].
  case_bool_decide; [destruct (quota_handle _); [apply mint_safe|done]|].
  case_bool_decide; [|apply frame_sim_refl]. destruct (set_gas_meter g _ _). apply sim_set_regs.
Qed.

(** ** Building a callee *)

Lemma build_frame_inner_ok cap root o ep args :
  match build_frame_inner CACHE cap root o ep args with
  | Ok f => frame_ok f /\ k_origin f = o /\ k_pending f = []
  | Err e => e <> INV
  end.
Proof.
  unfold build_frame_inner. destruct (blob CACHE _) as [[|img| |]|]; [done| |done..]. destruct (List.find _ _) as [[k ep']|]; [|done].
  assert (match (match root with Some cn => Ok cn | None => materialize_root_cnode CACHE (in_root_cnode cap) end) with
          | Err e => e <> INV | Ok _ => True end) as Hr.
  { destruct root; [done|]. unfold materialize_root_cnode. destruct (in_root_cnode cap) as [h|[]]; [|done..].
    case_bool_decide; [done|]. by destruct (blob CACHE h) as [[]|]. }
  destruct (match root with Some _ => _ | None => _ end) as [cn|e]; [|done]. cbn [result_bind]. split; [|done].
  split; [by do 2 eexists|apply om_ok_nil].
Qed.

Lemma callee_frame_ok t o ep args :
  match callee_frame CACHE t o ep args with
  | Ok f => frame_ok f /\ k_origin f = Some o /\ k_pending f = []
  | Err e => e <> INV
  end.
Proof.
  unfold callee_frame. destruct t as [h|[cap cache]].
  - destruct (blob CACHE h) as [[i| | |]|]; try done. apply build_frame_inner_ok.
  - destruct (match cache with CacheInstance rt root => _ | _ => _ end) as [rt root]. unfold build_frame_from_owned.
    destruct cap as [i| | |]; [|done..]. pose proof (build_frame_inner_ok i root (Some o) ep args) as Hb.
    destruct (build_frame_inner CACHE i root (Some o) ep args) as [f|e]; [|done]. cbn [result_bind]. by destruct rt.
Qed.

Lemma resolve_meters_ok f slots : forall ms,
  Forall (fun k : Key => zlen k <= MAX_KEY_LEN) ms ->
  match resolve_meters CACHE f slots ms with
  | Ret (Ok ms') => Forall (fun k : Key => zlen k <= MAX_KEY_LEN) ms'
  | Ret (Err e) => e <> INV
  | Abort => True
  end.
Proof.
  induction slots as [|slot r IH]; intros ms Hms; cbn [resolve_meters]; [done|]. destruct (slot_is_pending f slot); [done|].
  destruct (with_cnode_peek f slot) as [[t|]|]; [|by apply IH|done]. cbn [res_bind].
  unfold gas_meter_key_from_ref. destruct (resolve CACHE t) as [[i| | |]|]; try done.
  unfold gas_meter_key, unit_handle_key. case_bool_decide; [|done]. apply IH. destruct (existsb _ ms); [done|].
  apply Forall_app. split; [done|]. constructor; [|constructor]. unfold key_from_regs, zlen. rewrite length_take.
  unfold MAX_KEY_LEN. lia.
Qed.

Lemma resolve_frame_gas_ok f :
  match resolve_frame_gas CACHE f with
  | Ret (Ok (Some g)) => gas_ok g /\ fg_active g <> None
  | Ret (Err e) => e <> INV
  | _ => True
  end.
Proof.
  unfold resolve_frame_gas. destruct (frame_image CACHE f) as [[|img| |]|]; [done| |done..]. destruct (ic_gas_slots img) as [|sl slots]; [done|].
  pose proof (resolve_meters_ok f (sl :: slots) [] ltac:(constructor)) as Hm.
  destruct (resolve_meters CACHE f (sl :: slots) []) as [[ms|e]|]; cbn [try_bind res_bind]; [|done|done].
  destruct ms as [|m ms]; [done|]. split; [|done]. split; [done|]. cbn. lia.
Qed.

Lemma snapshot_safe f :
  match snapshot_catch_set CACHE f with Ret (Err e) => e <> INV | Ret (Ok keys) => StronglySorted key_lt keys | Abort => True end.
Proof.
  unfold snapshot_catch_set. destruct (frame_image CACHE f) as [[|img| |]|]; try constructor. destruct (ic_yield_receiver_slot img); [|constructor].
  destruct (read_instance_cap_guest CACHE f _) as [[[i|]|]|]; [|constructor|done..]. cbn [res_bind].
  destruct (yield_receiver_keys i); [apply sorted_set_sorted|done].
Qed.

(** ** Hooks *)

Definition hook_safe (r : Res (Result (Ctx * Flow) Z)) : Prop :=
  match r with
  | Ret (Ok (c, Resume)) => stack_ok (ctx_stack c)
  | Ret (Err e) => e <> INV
  | _ => True
  end.

Lemma leave_safe c info : stack_ok (ctx_stack c) -> hook_safe (leave c info).
Proof.
  intros Hs. unfold leave, top_idx. destruct (stack_ok_top _ Hs) as [e E]. rewrite E.
  match goal with |- hook_safe (res_bind ?h _) => destruct h as [head|]; [|done] end. cbn [res_bind].
  destruct (Nat.eqb_spec (st_target e) (pred (length (ctx_stack c)))) as [Ht|Ht].
  - destruct Hs as [Hne Hi]. destruct (si_entry _ _ Hi _ _ E) as [_ Hok]. destruct (st_kind e) as [f|] eqn:Ek; [|lia].
    destruct (pop_total (ctx_stack c) e f (nth 7 (ei_regs info) 0)) as (s' & d & -> & H1 & _); [done|by rewrite list.last_lookup|done|].
    cbn [try_bind res_bind]. destruct d; [done|]. by apply H1.
  - destruct (unwind_total (ctx_stack c) e (nth 7 (ei_regs info) 0) Hs E) as (s' & d & -> & H1 & _).
    cbn [try_bind res_bind]. destruct d; [done|]. by apply H1.
Qed.

(** A frame operation on the running frame. *)
Lemma frame_op_safe {A : Type} c (frame_of : A -> Frame) (op : Frame -> Res (Result A Z)) k :
  stack_ok (ctx_stack c) ->
  (forall f, op_safe f frame_of (op f)) ->
  (forall a s', stack_ok s' -> length s' = length (ctx_stack c) -> hook_safe (k a s')) ->
  hook_safe (let! f := frame_at (ctx_stack c) (top_idx c) in
             let* a := op f in
             let! s' := set_frame (ctx_stack c) (top_idx c) (frame_of a) in k a s').
Proof.
  intros Hs Hop Hk. destruct (stack_ok_top _ Hs) as [e E]. pose proof Hs as [_ Hi].
  destruct (frame_at_inst _ _ _ _ Hi E) as (f & Ef & Hf). unfold top_idx. rewrite Ef. cbn [res_bind].
  specialize (Hop f). destruct (op f) as [[a|err]|]; [|done..]. cbn [try_bind res_bind].
  rewrite (set_frame_put _ _ _ _ _ Hi E). cbn [res_bind]. apply Hk; [|apply length_put_frame].
  eapply stack_ok_sim; [by apply (put_frame_sim _ _ f)|done].
Qed.

Lemma image_hash_chain_hook c info : stack_ok (ctx_stack c) -> hook_safe (ecall_image_hash_chain CACHE c info).
Proof.
  intros Hs. pose proof (frame_op_safe c fst (dispatch_image_hash_chain CACHE)
    (fun a s' => if snd a then trap (with_stack c s') info else resume (with_stack c s')) Hs) as H.
  unfold ecall_image_hash_chain. destruct (frame_at (ctx_stack c) (top_idx c)) as [f|]; [|done]. cbn [res_bind] in *.
  destruct (dispatch_image_hash_chain CACHE f) as [[[f' b]|]|] eqn:Ed; cbn [try_bind res_bind fst snd] in *; try done.
  - apply H; [apply image_hash_chain_safe|]. intros [f2 []] s' Hs' _; done.
  - apply H; [apply image_hash_chain_safe|]. intros [f2 []] s' Hs' _; done.
Qed.

Lemma derive_spawn_hook w c info :
  stack_ok (ctx_stack c) ->
  match ecall_derive_spawn CACHE w c info with Ret (_, r) => hook_safe (Ret r) | Abort => True end.
Proof.
  intros Hs. unfold ecall_derive_spawn, top_idx. destruct (stack_ok_top _ Hs) as [e E]. pose proof Hs as [_ Hi].
  destruct (frame_at_inst _ _ _ _ Hi E) as (f & -> & Hf). cbn [res_bind].
  pose proof (derive_spawn_safe w f) as Hd. destruct (dispatch_derive_spawn CACHE w f) as [[w' [[f' b]|err]]|]; [|done..].
  cbn [res_bind]. rewrite (set_frame_put _ _ _ _ _ Hi E). cbn [res_bind]. destruct b; [done|]. cbn.
  eapply stack_ok_sim; [by apply (put_frame_sim _ _ f)|done].
Qed.

Lemma host_yield_hook c info : stack_ok (ctx_stack c) -> hook_safe (ecall_host_yield CACHE c info).
Proof.
  intros Hs. unfold ecall_host_yield, top_idx. destruct (stack_ok_top _ Hs) as [e E]. pose proof Hs as [_ Hi].
  destruct (frame_at_inst _ _ _ _ Hi E) as (f & -> & Hf). cbn [res_bind].
  pose proof (host_yield_safe f (ctx_gas c)) as Hd.
  destruct (dispatch_host_yield CACHE f (ctx_gas c)) as [[[[f' g] o]|err]|]; [|done..]. cbn [try_bind res_bind] in *.
  rewrite (set_frame_put _ _ _ _ _ Hi E). cbn [res_bind].
  set (s1 := put_frame (ctx_stack c) (st_target e) f').
  assert (stack_ok s1) as Hs1 by (eapply stack_ok_sim; [by apply (put_frame_sim _ _ f)|done]).
  destruct o as [| |key slot]; [done|done|]. cbn [ctx_stack with_gas with_stack].
  destruct (frame_at s1 _) as [f1|]; [|done]. cbn [res_bind]. destruct (read_instance_cap CACHE f1 slot) as [payload|]; [|done].
  cbn [res_bind]. destruct (stack_ok_top _ Hs1) as [e1 E1].
  assert (length s1 = length (ctx_stack c)) as Hl by apply length_put_frame. rewrite Hl in E1.
  destruct (route_total s1 _ e1 key payload Hs1 E1) as [[-> _]|(o & oe & f2 & g2 & _ & _ & _ & _ & _ & -> & H7)]; done.
Qed.

Lemma call_resume_hook c info : stack_ok (ctx_stack c) -> hook_safe (ecall_call_resume c info).
Proof.
  intros Hs. unfold ecall_call_resume, top_idx. destruct (stack_ok_top _ Hs) as [e E]. pose proof Hs as [_ Hi]. rewrite E.
  destruct (Nat.eqb_spec (st_target e) (pred (length (ctx_stack c)))) as [Ht|Ht]; [done|].
  destruct (frame_at_inst _ _ _ _ Hi E) as (f & -> & Hf). cbn [res_bind].
  destruct (cnode_take_sim f scratch_key (inst_frame_ok _ _ _ _ Hi Hf)) as (f' & resp & -> & Hsim). cbn [res_bind].
  rewrite (set_frame_put _ _ _ _ _ Hi E). cbn [res_bind]. set (s1 := put_frame (ctx_stack c) (st_target e) f').
  assert (stack_ok s1) as [_ Hi1] by (eapply stack_ok_sim; [by apply (put_frame_sim _ _ f)|done]).
  assert (length s1 = length (ctx_stack c)) as Hl by apply length_put_frame.
  destruct (target_inst _ _ _ _ Hi E) as [Hle _].
  destruct (lookup_lt_is_Some_2 s1 (pred (length s1))) as [e1 E1]; [destruct Hs as [Hne _]; destruct (ctx_stack c); cbn in *; [done|lia]|].
  assert (entry_origin e1 = None) as Ho.
  { destruct (si_entry _ _ Hi1 _ _ E1) as [_ Hok]. unfold entry_origin. destruct (st_kind e1) as [g|] eqn:Ek; [|done].
    exfalso. destruct Hok as (Ht1 & _). apply Ht. rewrite <- Hl, <- Ht1. unfold s1 in E1.
    rewrite (put_frame_lookup _ _ _ f _ Hf) in E1. rewrite length_put_frame in E1. case_decide; [lia|].
    rewrite E in E1. by injection E1 as ->. }
  pose proof (inv_pop s1 e1 Hi1) as Hp. rewrite list.last_lookup, Ho in Hp. specialize (Hp E1). rewrite <- Hl.
  set (s2 := take (pred (length s1)) s1) in *.
  assert (length s2 = pred (length s1)) as Hl2 by (unfold s2; rewrite length_take; lia).
  destruct (lookup_lt_is_Some_2 s2 (pred (length s2))) as [ye Ey]; [rewrite Hl2, Hl; lia|].
  match goal with |- context [update_frame s2 _ ?u] => destruct (update_frame_sim s2 _ _ ye u Hp Ey) as (s3 & -> & Hsim3) end.
  { intros y _ Hy. destruct resp as [cap|]; [|eexists; split; [done|apply sim_set_regs]].
    destruct (cnode_set_sim y scratch_key (Some cap) Hy) as (y' & -> & Hy'). eexists. split; [done|].
    eapply frame_sim_trans; [done|apply sim_set_regs]. }
  cbn. split; [|by eapply stack_inv_sim]. intros ->. apply length_sim in Hsim3. cbn in Hsim3. lia.
Qed.

Lemma drop_resume_hook c info : stack_ok (ctx_stack c) -> hook_safe (ecall_drop_resume c info).
Proof.
  intros Hs. unfold ecall_drop_resume, top_idx. destruct (stack_ok_top _ Hs) as [e E]. pose proof Hs as [_ Hi]. rewrite E.
  destruct (Nat.eqb_spec (st_target e) (pred (length (ctx_stack c)))) as [Ht|Ht]; [done|].
  destruct (target_inst _ _ _ _ Hi E) as (Hle & f & Hf). pose proof (inst_lt _ _ _ Hf) as Hlt.
  destruct (truncate_inv (ctx_stack c) (S (st_target e)) Hi) as (s' & -> & Hi' & Hl); [lia|]. cbn. split; [|done].
  intros Hnil. apply Forall2_length in Hl. rewrite Hnil, length_take in Hl. cbn [length] in Hl. lia.
Qed.

(** A call reserves the slot and gives the callee its frame. *)
Lemma dispatch_host_call_ok f lo :
  frame_ok f ->
  match dispatch_host_call CACHE f lo with
  | Ret (Ok None) => True
  | Ret (Ok (Some (p, child))) =>
      let slot := slot_reg f 7 in
      ~ pends f slot /\ frame_sim (set_pending f (fst (om_insert slot tt (k_pending f)))) p /\
      frame_ok child /\ k_origin child = Some (mkOrigin lo slot) /\ k_pending child = []
  | Ret (Err e) => e <> INV
  | Abort => False
  end.
Proof.
  intros Hf. unfold dispatch_host_call. set (slot := slot_reg f 7). destruct (slot_is_pending f slot) eqn:Ep; [done|].
  destruct (cnode_take_sim f slot Hf) as (f1 & old & -> & Ho & Hp & Hok). cbn [res_bind]. destruct old as [t|]; [|done].
  pose proof (callee_frame_ok t (mkOrigin lo slot) (Z.land (reg f 8) 255) [reg f 9; reg f 10; 0; 0]) as Hc.
  destruct (callee_frame CACHE t _ _ _) as [child|e]; [|done]. cbn [try_bind res_bind]. destruct Hc as (Hc1 & Hc2 & Hc3).
  assert (frame_ok (set_pending f1 (fst (om_insert slot tt (k_pending f1))))) as Hf2.
  { destruct (Hok Hf) as [Hr Hpo]. split; [done|]. by apply om_insert_ok. }
  destruct (root_cnode_ok _ Hf2) as [pcn ->]. destruct (root_cnode_ok _ Hc1) as [ccn ->]. cbn [res_bind].
  split; [unfold pends; congruence|]. split; [split; [done|split; [cbn; by rewrite Hp|done]]|].
  destruct (sim_set_root child (inherit ccn (inherited pcn))) as (S1 & S2 & S3). split; [auto|]. split; congruence.
Qed.

Lemma move_scratchpad_ok (p child : Frame) :
  frame_ok p -> frame_ok child -> exists p' child', move_scratchpad p child = Ret (p', child') /\ frame_sim p p' /\ frame_sim child child'.
Proof.
  intros Hp Hc. unfold move_scratchpad. destruct (cnode_take_sim p scratch_key Hp) as (p' & old & -> & Hs). cbn [res_bind].
  destruct old as [cap|]; [|exists p', child; auto using frame_sim_refl].
  destruct (cnode_set_sim child scratch_key (Some cap) Hc) as (child' & -> & Hc'). by exists p', child'.
Qed.

(** Pushing the callee on the caller's stack. *)
Lemma push_callee s e f slot p' child iid catch g :
  stack_ok s -> s !! pred (length s) = Some e -> inst s (st_target e) f -> ~ pends f slot ->
  frame_sim (set_pending f (fst (om_insert slot tt (k_pending f)))) p' ->
  frame_ok child -> k_origin child = Some (mkOrigin (st_target e) slot) -> k_pending child = [] -> gas_ok g -> StronglySorted key_lt catch ->
  stack_ok (put_frame s (st_target e) p' ++
            [instance_with_meta child (length (put_frame s (st_target e) p')) iid (mkMeta (Some (st_target e)) catch g)]).
Proof.
  intros [Hne Hi] E Hf Hn Hsim Hc Ho Hp Hg Hcs. set (f2 := set_pending f _) in *.
  pose proof (inv_reserve s [] (st_target e) f slot Hi Hf Hn) as Hr. fold f2 in Hr.
  assert (inst (put_frame s (st_target e) f2) (st_target e) f2) as Hf2 by (apply (put_frame_inst s _ f2 f); [done|]; by left).
  assert (stack_inv (put_frame s (st_target e) p') [mkOrigin (st_target e) slot]) as Hr'.
  { rewrite <- (put_frame_twice s (st_target e) f f2 p' Hf). by eapply stack_inv_sim; [apply (put_frame_sim _ _ f2)|]. }
  split; [intros Hnil; apply (f_equal length) in Hnil; rewrite length_app in Hnil; cbn in Hnil; lia|].
  assert (exists pe, list.last (put_frame s (st_target e) p') = Some pe /\ st_target pe = st_target e) as (pe & Hpe & Htp).
  { rewrite list.last_lookup, length_put_frame, (put_frame_lookup s _ _ f _ Hf). case_decide as Hd; [|by exists e].
    rewrite <- Hd, E. by eexists. }
  eapply inv_push_inst; [exact Hr'|exact Hpe|done|done|done| |done|by split].
  intros k. unfold pends, slot_is_pending. by rewrite Hp.
Qed.

Lemma host_call_hook c info pending : stack_ok (ctx_stack c) -> hook_safe (ecall_host_call CACHE c info pending).
Proof.
  intros Hs. unfold ecall_host_call, top_idx. destruct pending; [done|]. destruct (stack_ok_top _ Hs) as [e E]. pose proof Hs as [_ Hi].
  rewrite E. destruct (frame_at_inst _ _ _ _ Hi E) as (f & -> & Hf). cbn [res_bind].
  pose proof (snapshot_safe f) as Hsn. destruct (snapshot_catch_set CACHE f) as [[catch|err]|]; [|cbn; by destruct (err =? EXIT_TRAP)|done].
  cbn [res_bind]. pose proof (inst_frame_ok _ _ _ _ Hi Hf) as Hfok.
  pose proof (dispatch_host_call_ok f (st_target e) Hfok) as Hd.
  destruct (dispatch_host_call CACHE f (st_target e)) as [[[[p child]|]|err]|]; [|done..]. cbn [try_bind res_bind].
  destruct Hd as (Hn & Hsim & Hc & Ho & Hp).
  assert (frame_ok p) as Hpok.
  { apply Hsim. destruct Hfok as [Hr Hpo]. split; [done|]. by apply om_insert_ok. }
  destruct (move_scratchpad_ok p child Hpok Hc) as (p' & child' & -> & Hsp & Hsc). cbn [res_bind].
  rewrite (set_frame_put _ _ _ _ _ Hi E). cbn [res_bind].
  pose proof (resolve_frame_gas_ok child') as Hg. destruct (resolve_frame_gas CACHE child') as [[og|err]|]; [|done..].
  cbn [try_bind res_bind]. destruct Hsc as (C1 & C2 & C3). cbn [hook_safe resume ctx_stack].
  apply (push_callee (ctx_stack c) e f (slot_reg f 7) p' child'); [done|done|done|done|by eapply frame_sim_trans|auto|congruence|congruence| |exact Hsn].
  destruct og as [g|]; [by destruct Hg|]. apply (si_entry _ _ Hi _ _ E).
Qed.

Lemma out_of_gas_hook c pc reason arg info :
  stack_ok (ctx_stack c) -> hook_safe (out_of_gas c pc reason arg info) /\ out_of_gas c pc reason arg info <> Abort.
Proof.
  intros Hs. unfold out_of_gas, top_idx. destruct (stack_ok_top _ Hs) as [e E]. pose proof Hs as [_ Hi].
  destruct (si_entry _ _ Hi _ _ E) as [[[Hm Hga] _] _]. destruct (target_inst _ _ _ _ Hi E) as (_ & f & Hf).
  destruct (entry_gas (st_meta e)) as [ms [i|]] eqn:Eg; cbn in Hga.
  - destruct (oog_rewind _ e f pc (mkFrameGas ms (Some 0%nat)) Hs E Hf) as (_ & _ & _ & Hs1 & _ & (e1 & E1 & _)).
    { rewrite Eg. intros [? _]. split; [done|cbn; lia]. }
    destruct (decide (S i = length ms)) as [Hl|Hl].
    + destruct (oog_exhausted _ e f pc ms i Hs E Hf Eg Hl) as (m0 & h & _ & _ & ->). set (s1 := retried _ _ _ _ _) in *.
      destruct (route_total s1 _ e1 YK_OOG (Some h) Hs1 E1) as [[-> _]|(o & oe & f2 & g2 & _ & _ & _ & _ & _ & -> & H7)]; done.
    + rewrite (oog_advance _ e f pc ms i Hs E Hf Eg) by lia. split; [|done].
      apply (oog_rewind _ e f pc (mkFrameGas ms (Some (S i))) Hs E Hf). rewrite Eg. intros [? _]. split; [done|cbn; lia].
  - unfold try_oog_yield, javm_active_meter. rewrite E. cbn [res_bind]. unfold active_key. rewrite Eg. done.
Qed.

Definition world_safe (r : Res (MemCache * Result (Ctx * Flow) Z)) : Prop :=
  match r with Ret (_, r) => hook_safe (Ret r) | Abort => True end.

Lemma lift_safe w r : hook_safe r -> world_safe (let! r := r in Ret (w, r)).
Proof. by destruct r. Qed.

Lemma on_ecall_safe op w c info : stack_ok (ctx_stack c) -> world_safe (javm_on_ecall CACHE op w c info).
Proof.
  intros Hs. unfold javm_on_ecall.
  assert (match ecall_cost CACHE c op info with Ret (Err e) => e <> INV | _ => True end) as Hc.
  { unfold ecall_cost. destruct (op =? OP_HOST_CALL); [|done]. destruct (_ <=? _)%nat; [done|].
    destruct (frame_at _ _) as [f|]; [|done]. cbn [res_bind]. unfold host_call_frame_cost.
    destruct (slot_is_pending f _); [done|]. destruct (with_cnode_peek f _) as [t|]; [|done]. cbn [res_bind].
    assert (forall h, match call_frame_cost_for CACHE h with Err e => e <> INV | Ok _ => True end) as Hcost.
    { intros h. unfold call_frame_cost_for. by destruct (blob CACHE h) as [[]|]. }
    destruct t as [t|]; [|done]. destruct (resolve CACHE t) as [[i| | |]|]; try done. cbn [result_bind].
    specialize (Hcost (in_image_hash i)). by destruct (call_frame_cost_for CACHE (in_image_hash i)). }
  destruct (ecall_cost CACHE c op info) as [[[total pending]|e]|]; [|done..]. cbn [res_bind].
  destruct (live_gas (ctx_gas c) <? total); [by apply lift_safe, out_of_gas_hook|].
  set (c' := with_gas c _). assert (stack_ok (ctx_stack c')) as Hs' by done. unfold ecall_dispatch.
  destruct (op =? OP_DERIVE_SPAWN); [by apply derive_spawn_hook|]. apply lift_safe.
  destruct (op =? OP_REPLY); [by apply leave_safe|].
  destruct (op =? OP_IMAGE_HASH_CHAIN); [by apply image_hash_chain_hook|].
  destruct (op =? OP_HOST_YIELD); [by apply host_yield_hook|].
  destruct (op =? OP_CALL_RESUME); [by apply call_resume_hook|].
  destruct (op =? OP_DROP_RESUME); [by apply drop_resume_hook|].
  destruct (op =? OP_HOST_CALL); [by apply host_call_hook|done].
Qed.

Lemma dispatch_safe w c info : stack_ok (ctx_stack c) -> world_safe (dispatch (P := Javm CACHE) w c info).
Proof.
  intros Hs. unfold dispatch. cbn [on_halt on_ecall on_exit Javm]. destruct (ei_reason info =? EXIT_HALT).
  { by apply lift_safe, leave_safe. }
  destruct (_ || _); [by apply on_ecall_safe|]. apply lift_safe. destruct (ei_reason info =? EXIT_OOG); [|done].
  by apply out_of_gas_hook.
Qed.

Lemma run_top_safe c :
  stack_ok (ctx_stack c) ->
  match run_top_entry (P := Javm CACHE) c with
  | Ret (Ok (c', _)) => stack_ok (ctx_stack c')
  | Ret (Err e) => e <> INV
  | Abort => False
  end.
Proof.
  intros Hs. unfold run_top_entry, top_idx. cbn [active_meter run_one_entry set_exit_state Javm].
  destruct (stack_ok_top _ Hs) as [e E]. pose proof Hs as [_ Hi]. unfold javm_active_meter. rewrite E. cbn [res_bind ctx_stack with_gas].
  destruct (frame_at_inst _ _ _ _ Hi E) as (f & -> & Hf). cbn [res_bind]. unfold javm_run_one_entry.
  assert (match (match k_runtime f with Some rt => Ok rt | None => build_runtime CACHE (ctx_lane c) f end) with
          | Err e => e <> INV | Ok _ => True end) as Hr.
  { destruct (k_runtime f); [done|]. unfold build_runtime. destruct (frame_image CACHE f) as [[|img| |]|]; try done.
    destruct (code_mapping img) as [[]|]; [|done]. destruct (code_pa_of _); [|done]. by destruct (build_frame_runtime _ _ _ _ _ _ _ _). }
  cbn [ctx_lane with_gas]. destruct (match k_runtime f with Some _ => _ | None => _ end) as [rt|err]; [|done].
  destruct (enter_frame _ _ _ _ _ _ _ _) as [[[[info rt'] mem'] mat'] ro']. cbn [try_bind res_bind].
  rewrite (set_frame_put _ _ _ _ _ Hi E). cbn [res_bind ctx_stack]. eapply stack_ok_sim; [|exact Hs].
  apply (put_frame_sim _ _ f); [done|]. by unfold frame_sim, frame_ok.
Qed.

Lemma poll_safe w t :
  stack_ok (ctx_stack (task_ctx t)) ->
  match poll_once (P := Javm CACHE) w t with
  | Ret (_, Ok (t', Pending)) => stack_ok (ctx_stack (task_ctx t'))
  | Ret (_, Err e) => e <> INV
  | _ => True
  end.
Proof.
  intros Hs. unfold poll_once. pose proof (run_top_safe _ Hs) as Hr.
  destruct (run_top_entry (P := Javm CACHE) (task_ctx t)) as [[[c info]|e]|]; [|done..]. cbn [res_bind].
  pose proof (dispatch_safe w c info Hr) as Hd.
  destruct (dispatch (P := Javm CACHE) w c info) as [[w' [[c' [|o]]|e]]|]; done.
Qed.
End Loop.

(** ** Whole tasks *)

Section Tasks.
  Context {D : Digest} {K : KernelHash} {Rt Ci : Type} {Mc : Machine Rt}.
  Variable CACHE : Directory (CachedCap Rt Ci).
Notation Task := (KernelTask (KernelFrame Rt Ci) JavmEntryMeta Key).

Definition poll_step (t t' : Task) : Prop :=
  exists w w', poll_once (P := Javm CACHE) w t = Ret (w', Ok (t', Pending)).

(** Whether the root scope of a task is a meter. *)
Definition root_metered (t : Task) : Metering := bool_decide (is_Some (root_active (ctx_gas (task_ctx t)))).

Lemma task_new_ok w id lane root ep args gas (t : Task) :
  task_new (P := Javm CACHE) w id lane root ep args gas = Ret (Ok t) ->
  stack_ok (Mt := root_metered t) (ctx_stack (task_ctx t)).
Proof.
  unfold task_new. cbn [build_root_frame active_meter Javm]. unfold javm_build_root_frame, build_frame_from_published.
  destruct (blob CACHE root) as [[i| | |]|]; cbn [try_bind res_bind]; try done.
  pose proof (build_frame_inner_ok CACHE i None None ep args) as Hb.
  destruct (build_frame_inner CACHE i None None ep args) as [f|e]; cbn [try_bind res_bind]; [|done]. destruct Hb as (Hf & Ho & Hp).
  pose proof (fun Mt => resolve_frame_gas_ok (Mt := Mt) CACHE f) as Hg.
  destruct (resolve_frame_gas CACHE f) as [[og|e]|]; cbn [try_bind res_bind]; [|done..]. intros [= <-].
  assert (inst [instance_with_meta f 0 0 (mkMeta None [] (default host_budgeted og))] 0 f) as Hi0 by (by eexists).
  assert (forall j h, inst [instance_with_meta f 0 0 (mkMeta None [] (default host_budgeted og))] j h -> j = 0%nat /\ h = f) as Hone.
  { intros [|j] h (e & E & Hk); [|done]. cbn in E. injection E as <-. cbn in Hk. by injection Hk as ->. }
  split; [done|]. split.
  - intros [|j] e E; [|done]. injection E as <-. split; [|by cbn].
    split; [|constructor]. destruct og as [g|]; [by apply (Hg (root_metered _))|]. split; [constructor|done].
  - intros j h slot Hj. destruct (Hone j h Hj) as [-> ->]. unfold pends, slot_is_pending. rewrite Hp. split; [done|].
    intros [(k & g & Hk & Eo)|Hin]; [destruct (Hone k g Hk) as [_ ->]; congruence|by apply not_elem_of_nil in Hin].
  - intros a b fa fb o Ha Hb. by destruct (Hone a fa Ha) as [-> _], (Hone b fb Hb) as [-> _].
  - intros j h o Hj. by destruct (Hone j h Hj) as [_ ->]; rewrite Ho.
  - intros o Hin. by apply not_elem_of_nil in Hin.
  - by apply list.NoDup_nil.
Qed.

(** C2: the in-kernel call stack is safe. From the start of any invocation,
    whatever the guest code does between its exits and whatever is shared with
    other tasks: every reference entry names an instance entry below it; every
    instance that runs is reserved in exactly one slot of the frame that owns
    it, and every reservation has its instance; no frame loses its resident
    cnode. The kernel's own bookkeeping error is never raised, and a task whose
    root is metered never spends the host's budget. *)
Theorem call_stack_safe w id lane root ep args gas (t0 t : Task) :
  task_new (P := Javm CACHE) w id lane root ep args gas = Ret (Ok t0) -> rtc poll_step t0 t ->
  stack_ok (Mt := root_metered t0) (ctx_stack (task_ctx t)) /\
  (forall w1 w2 e, poll_once (P := Javm CACHE) w1 t = Ret (w2, Err e) -> e <> ERR_PENDING_ORIGIN_INVARIANT) /\
  (is_Some (root_active (ctx_gas (task_ctx t0))) ->
   forall i e, ctx_stack (task_ctx t) !! i = Some e -> is_Some (active_key (entry_gas (st_meta e)))).
Proof.
  intros H0 Hr. assert (stack_ok (Mt := root_metered t0) (ctx_stack (task_ctx t))) as Hs.
  { pose proof (task_new_ok _ _ _ _ _ _ _ _ H0) as Hi. clear H0. set (Mt := root_metered t0) in *. clearbody Mt.
    induction Hr as [|a b c (w1 & w2 & E) _ IH]; [done|]. apply IH. pose proof (poll_safe CACHE w1 a Hi) as Hp. by rewrite E in Hp. }
  split; [done|]. split.
  - intros w1 w2 e E. pose proof (poll_safe CACHE w1 t Hs) as Hp. by rewrite E in Hp.
  - intros Hm i e E. destruct Hs as [_ Hs]. destruct (si_entry _ _ Hs _ _ E) as [[[_ Hg] _] _]. unfold active_key.
    destruct (fg_active (entry_gas (st_meta e))) as [j|]; [by apply lookup_lt_is_Some_2|].
    destruct Hg as [_ Hg]. unfold metered, root_metered in Hg. by rewrite bool_decide_true in Hg.
Qed.
End Tasks.

(** ** A small system *)

(** A machine that halts at once, an image whose initial slot 5 holds an
    instance of itself, and that instance. *)
#[export] Instance halting_machine : Machine unit := {|
  build_frame_runtime := fun _ _ _ _ _ _ _ _ => Some tt;
  enter_frame := fun _ rt gas pc regs mem mat ro => (mkExitInfo EXIT_HALT 0 gas regs pc, rt, mem, mat, ro);
  rearm_cow := fun rt _ => rt;
  code_pa_of := fun _ => Some 0;
|}.

Definition sample_image : ImageCap :=
  mkImageCap [1] [([0], mkEndpointDef 0 0 [] 0 (replicate NUM_REGS 0))] [] [] [mkImageSlotEntry [5] [2]] None [] [].
Definition sample_instance : InstanceCap Cap :=
  mkInstanceCap [9] [1] (CHash zero_chunk) (mkDataCap slab_empty []) (replicate NUM_REGS 0) 0 0.
Definition sample_cache : Directory (CachedCap unit unit) :=
  mkDirectory {[ [1] := cached (Cap_Image sample_image); [2] := cached (Cap_Instance sample_instance) ]} ∅ ∅ 1.

#[local] Existing Instance sum_digest.
#[local] Existing Instance label_hash.

Definition sample_task : Res (Result (KernelTask (KernelFrame unit unit) JavmEntryMeta Key) Z) :=
  task_new (P := Javm sample_cache) [] 0 0 [2] 0 [5; 0; 0; 0] 1000.

Lemma call_stack_safe_witness :
  match sample_task with
  | Ret (Ok t) => stack_ok (Mt := root_metered t) (ctx_stack (task_ctx t))
  | _ => False
  end.
Proof.
  destruct sample_task as [[t|e]|] eqn:E.
  - exact (proj1 (call_stack_safe sample_cache [] 0 0 [2] 0 [5; 0; 0; 0] 1000 t t E (rtc_refl _ t))).
  - vm_compute in E. discriminate E.
  - vm_compute in E. discriminate E.
Defined.

(** A frame below one that runs on two meters; the lower one catches
    [kernel:oog]. *)
Definition sample_frame (origin : option FrameOrigin) (pending : OrdMap Key unit) : KernelFrame unit unit :=
  mkFrame (mkInstanceCap [9] [1] (COwned (cached_cnode [])) (mkDataCap slab_empty []) (replicate NUM_REGS 0) 0 0)
    origin pending [] [] [] None.

Definition sample_stack : list (StackEntry (KernelFrame unit unit) JavmEntryMeta) :=
  [instance_with_meta (sample_frame None [([5], tt)]) 0 0 (mkMeta None [] host_budgeted);
   instance_with_meta (sample_frame (Some (mkOrigin 0 [5])) []) 1 1
     (mkMeta (Some 0%nat) [YK_OOG] (mkFrameGas [[1]; [2]] (Some 0%nat)))].

#[local] Instance unmetered : Metering := false.

Lemma sample_stack_ok : stack_ok sample_stack.
Proof.
  assert (forall j (h : KernelFrame unit unit), inst sample_stack j h ->
            (j = 0%nat /\ h = sample_frame None [([5], tt)]) \/ (j = 1%nat /\ h = sample_frame (Some (mkOrigin 0 [5])) [])) as Hi.
  { intros [|[|j]] h (e & E & Hk); cbn in E; [injection E as <-|injection E as <-|done]; cbn in Hk; injection Hk as <-; auto. }
  assert (forall o p, om_ok p -> frame_ok (sample_frame o p)) as Hf by (intros o p Hp; split; [by do 2 eexists|done]).
  split; [done|]. split.
  - intros [|[|i]] e E; cbn in E; [injection E as <-|injection E as <-|done].
    + split; [split; [split; [constructor|done]|constructor]|]. cbn. split; [done|]. split; [apply Hf; repeat constructor|done].
    + split; [split; [split; [repeat constructor; by vm_compute|cbn; lia]|repeat constructor]|]. cbn. split; [done|]. split; [apply Hf, om_ok_nil|].
      by exists 0%nat, [5], (instance_with_meta (sample_frame None [([5], tt)]) 0 0 (mkMeta None [] host_budgeted)).
  - intros i f slot Hif. destruct (Hi i f Hif) as [[-> ->]|[-> ->]]; unfold pends, slot_is_pending.
    + cbn [sample_frame k_pending om_get]. split.
      * destruct (cmp slot [5]) eqn:C; [|done..]. apply cmp_eq in C as ->. intros _. left. exists 1%nat, (sample_frame (Some (mkOrigin 0 [5])) []).
        split; [by eexists|done].
      * intros [(j & h & Hh & Ho)|Hin]; [|by apply not_elem_of_nil in Hin].
        destruct (Hi j h Hh) as [[-> ->]|[-> ->]]; [done|]. injection Ho as <-. by rewrite cmp_refl.
    + split; [done|]. intros [(j & h & Hh & Ho)|Hin]; [|by apply not_elem_of_nil in Hin].
      by destruct (Hi j h Hh) as [[-> ->]|[-> ->]].
  - intros i j f g o Hif Hjg Ho1 Ho2. destruct (Hi i f Hif) as [[-> ->]|[-> ->]], (Hi j g Hjg) as [[-> ->]|[-> ->]]; done.
  - intros i f o _ _ Hin. by apply not_elem_of_nil in Hin.
  - intros o Hin. by apply not_elem_of_nil in Hin.
  - by apply list.NoDup_nil.
Qed.

Lemma route_yield_nearest_witness :
  exists s', route_yield sample_stack 1 YK_OOG None = Ret (Some s') /\ stack_ok s' /\ length s' = 3%nat.
Proof.
  destruct (route_yield_nearest sample_stack 1 _ YK_OOG None sample_stack_ok eq_refl)
    as [[_ Hu]|(o & oe & f & g & _ & _ & _ & _ & H1 & H2)].
  - exfalso. inversion Hu as [? ? E Ho|? ? ? E Ho Hn]; cbn in E; injection E as <-; [done|]. apply Hn. by left.
  - eexists. split; [exact H1|]. split; [exact H2|]. by rewrite length_app, length_put_frame.
Defined.

Lemma oog_consults_every_meter_witness :
  exists s', oog_rounds 2 sample_stack 0 = Ret (Some s') /\ length s' = 3%nat.
Proof.
  destruct (oog_consults_every_meter sample_stack _ (sample_frame (Some (mkOrigin 0 [5])) []) 0 [[1]; [2]] 0 sample_stack_ok eq_refl
    (ex_intro _ _ (conj eq_refl eq_refl)) eq_refl ltac:(cbn; lia)) as
    [_ [[H _]|(o & oe & fo & g & m0 & h & _ & _ & _ & _ & _ & _ & H & _)]].
  - exfalso. vm_compute in H. discriminate H.
  - eexists. split; [exact H|]. by rewrite length_app, length_put_frame, length_retried.
Defined.
