(* ===== verification/CallReturn.v ===== *)
(** A call and its return: the instance moves from its slot into a frame and
    comes back updated, and nothing else of the caller changes but the
    registers and the scratchpad that carry the result. *)

From Stdlib Require Import ZArith Lia List Bool.
From stdpp Require Import base list numbers tactics.
From S2P Require Import Prelude MachineInt OrdMap Merkle Ssz CapData CapSlot CapImage Cap CapFacts Cache CachedCap Task TaskFacts Frame CallLoop StackInv CallLoopFacts.
Open Scope Z_scope.

Section Return.
  Context {D : Digest} {K : KernelHash} {Rt Ci : Type} {Mc : Machine Rt} {Mt : Metering}.
  Variable CACHE : Directory (CachedCap Rt Ci).
Notation Frame := (KernelFrame Rt Ci).
Notation Stack := (list (StackEntry (KernelFrame Rt Ci) JavmEntryMeta)).
Notation Ctx := (TaskCtx (KernelFrame Rt Ci) JavmEntryMeta Key).
Implicit Types f g : Frame.
Implicit Types cn : ResidentCNode Rt Ci.

(** ** Slots, one at a time *)

Definition del cn (k : Key) : ResidentCNode Rt Ci := fst (om_remove k cn).
Definition put cn (k : Key) (t : Target Rt Ci) : ResidentCNode Rt Ci := fst (om_insert k (Materialized t) cn).

Lemma take_key_eq cn k : take_key cn k = (del cn k, peek_key cn k).
Proof.
  unfold take_key, set_key, del, peek_key. rewrite <- (om_remove_old k cn). by destruct (om_remove k cn).
Qed.

Lemma take_eq f cn k : with_root_cnode f = Ret cn -> frame_cnode_take_key f k = Ret (set_root_cnode f (del cn k), peek_key cn k).
Proof. intros E. unfold frame_cnode_take_key. rewrite E. cbn [res_bind]. by rewrite take_key_eq. Qed.

Lemma set_eq f cn k t : with_root_cnode f = Ret cn -> frame_cnode_set f k (Some t) = Ret (set_root_cnode f (put cn k t)).
Proof.
  intros E. unfold frame_cnode_set. rewrite E. cbn [res_bind]. do 2 f_equal. exact (set_key_fst cn k t).
Qed.

Lemma peek_put cn k t j : om_ok cn -> peek_key (put cn k t) j = if decide (j = k) then Some t else peek_key cn j.
Proof. intros Ho. unfold peek_key, put. rewrite om_get_insert by done. by case_decide. Qed.

Lemma peek_del cn k j : om_ok cn -> peek_key (del cn k) j = if decide (j = k) then None else peek_key cn j.
Proof. intros Ho. unfold peek_key, del. rewrite om_get_remove by done. by case_decide. Qed.

Lemma put_ok cn k t : om_ok cn -> om_ok (put cn k t).
Proof. apply om_insert_ok. Qed.
Lemma del_ok cn k : om_ok cn -> om_ok (del cn k).
Proof. apply om_remove_ok. Qed.

(** The caller after its instance and its scratchpad moved out. *)
Definition calling f cn (slot : Key) : Frame :=
  set_root_cnode (set_pending (set_root_cnode f (del cn slot)) (fst (om_insert slot tt (k_pending f)))) (del (del cn slot) scratch_key).

(** ** What a call pushes *)

Lemma move_scratchpad_eq p pcn (child : Frame) :
  with_root_cnode p = Ret pcn -> frame_ok child ->
  exists child', move_scratchpad p child = Ret (set_root_cnode p (del pcn scratch_key), child') /\ frame_sim child child'.
Proof.
  intros E Hc. unfold move_scratchpad. rewrite (take_eq p pcn scratch_key E). cbn [res_bind].
  destruct (peek_key pcn scratch_key) as [cap|]; [|exists child; auto using frame_sim_refl].
  match goal with |- context [frame_cnode_set child scratch_key ?x] =>
    destruct (cnode_set_sim child scratch_key x Hc) as (child' & -> & Hs) end. by exists child'.
Qed.

Lemma host_call_shape (c : Ctx) info e f cn c1 :
  stack_ok (ctx_stack c) -> ctx_stack c !! pred (length (ctx_stack c)) = Some e -> inst (ctx_stack c) (st_target e) f ->
  with_root_cnode f = Ret cn ->
  ecall_host_call CACHE c info false = Ret (Ok (c1, Resume)) ->
  exists child iid m,
    ctx_stack c1 = put_frame (ctx_stack c) (st_target e) (calling f cn (slot_reg f 7)) ++
                   [instance_with_meta child (length (ctx_stack c)) iid m] /\
    ~ pends f (slot_reg f 7) /\ frame_ok child /\ k_origin child = Some (mkOrigin (st_target e) (slot_reg f 7)) /\
    k_pending child = [] /\ owner m = Some (st_target e) /\ gas_ok (entry_gas m).
Proof.
  intros Hs E Hf Hcn H. pose proof Hs as [_ Hi]. unfold ecall_host_call, top_idx in H. rewrite E in H.
  destruct (frame_at_inst _ _ _ _ Hi E) as (f' & Ef & Hf'). rewrite (inst_fun _ _ _ _ Hf' Hf) in *. rewrite Ef in H. cbn [res_bind] in H.
  destruct (snapshot_catch_set CACHE f) as [[catch|err]|]; cbn [res_bind] in H; [|by destruct (err =? EXIT_TRAP)|done].
  unfold dispatch_host_call in H. set (slot := slot_reg f 7) in *. destruct (slot_is_pending f slot) eqn:Ep; [done|].
  rewrite (take_eq f cn slot Hcn) in H. cbn [res_bind] in H. destruct (peek_key cn slot) as [t|]; [|done].
  pose proof (callee_frame_ok CACHE t (mkOrigin (st_target e) slot) (Z.land (reg f 8) 255) [reg f 9; reg f 10; 0; 0]) as Hc.
  destruct (callee_frame CACHE t _ _ _) as [child|err]; [|done]. cbn [try_bind res_bind] in H. destruct Hc as (C1 & C2 & C3).
  assert (with_root_cnode (set_pending (set_root_cnode f (del cn slot)) (fst (om_insert slot tt (k_pending f)))) = Ret (del cn slot)) as Er.
  { exact (root_set f cn (del cn slot) Hcn). }
  change (k_pending (set_root_cnode f (del cn slot))) with (k_pending f) in H. rewrite Er in H. destruct (root_cnode_ok _ C1) as [ccn Ec]. rewrite Ec in H. cbn [res_bind] in H.
  set (child1 := set_root_cnode child _) in H.
  assert (frame_sim child child1) as S1 by apply sim_set_root.
  cbn [try_bind res_bind] in H. destruct (move_scratchpad_eq _ _ child1 Er) as (child2 & E2 & S2); [by apply S1|].
  rewrite E2 in H. cbn [res_bind] in H. rewrite (set_frame_put _ _ _ _ _ Hi E) in H. cbn [res_bind] in H.
  pose proof (resolve_frame_gas_ok CACHE child2) as Hg. destruct (resolve_frame_gas CACHE child2) as [[og|err]|]; [|done..].
  cbn [try_bind res_bind] in H. injection H as <-. cbn [ctx_stack]. rewrite length_put_frame. destruct (frame_sim_trans _ _ _ S1 S2) as (T1 & T2 & T3).
  do 3 eexists. split; [done|]. split; [unfold pends; congruence|]. split; [auto|]. split; [congruence|]. split; [congruence|].
  split; [done|]. cbn. destruct og as [g|]; [by destruct Hg|]. apply (si_entry _ _ Hi _ _ E).
Qed.

(** ** What a return gives back *)

Lemma put_frame_at (s : Stack) ex i e f g :
  stack_inv s ex -> s !! i = Some e -> inst s (st_target e) f ->
  frame_at (put_frame s (st_target e) g) i = Ret g /\
  forall h, set_frame (put_frame s (st_target e) g) i h = Ret (put_frame s (st_target e) h).
Proof.
  intros Hs E Hf. pose proof (inst_target _ _ _ _ Hs Hf) as (te & Et & Htt & Hk).
  assert (exists e', put_frame s (st_target e) g !! i = Some e' /\ st_target e' = st_target e) as (e' & E' & Ht').
  { rewrite (put_frame_lookup s _ g f i Hf). case_decide as Hd; [|by exists e]. rewrite <- Hd, E. by eexists. }
  assert (put_frame s (st_target e) g !! st_target e = Some (mkStackEntry (EInstance g) (st_target te) (st_iid te) (st_meta te))) as El.
  { rewrite (put_frame_lookup s _ g f _ Hf). rewrite decide_True by done. by rewrite Et. }
  unfold frame_at, set_frame. rewrite E', Ht', El. split; [done|]. intros h. f_equal.
  rewrite <- (put_frame_twice s (st_target e) f g h Hf). unfold put_frame at 2. by rewrite El.
Qed.

Lemma update_put (s : Stack) ex i e f g h u :
  stack_inv s ex -> s !! i = Some e -> inst s (st_target e) f -> u g = Ret h ->
  update_frame (put_frame s (st_target e) g) i u = Ret (put_frame s (st_target e) h).
Proof.
  intros Hs E Hf Hu. destruct (put_frame_at s ex i e f g Hs E Hf) as [H1 H2]. unfold update_frame. rewrite H1.
  cbn [res_bind]. rewrite Hu. apply H2.
Qed.

Lemma put_frame_snoc (s : Stack) f g iid m :
  put_frame (s ++ [instance_with_meta f (length s) iid m]) (length s) g = s ++ [instance_with_meta g (length s) iid m].
Proof.
  unfold put_frame. rewrite lookup_app_r, Nat.sub_diag by lia. cbn [lookup list_lookup].
  rewrite insert_app_r_alt by lia. by rewrite Nat.sub_diag.
Qed.

(** The instance a frame folds into when it returns, its page table armed again
    and its scratchpad taken out. *)
Definition folded f (rcn : ResidentCNode Rt Ci) : CachedCap Rt Ci :=
  let inst := k_instance f in
  mkCachedCap (Cap_Instance (mkInstanceCap (in_image_hash_chain inst) (in_image_hash inst) (CHash zero_chunk)
                               (in_mem inst) (in_regs inst) (in_pc inst) 0))
    (CacheInstance (option_map (fun rt => rearm_cow rt (map fst (dc_overlay (in_mem inst)))) (k_runtime f))
       (Some (del rcn scratch_key))).

Lemma fold_back_eq f rcn o :
  with_root_cnode f = Ret rcn -> k_origin f = Some o ->
  fold_back (set_root_cnode f (del rcn scratch_key)) = Ok (Some (o, folded f rcn)).
Proof.
  intros Hr Ho. unfold fold_back. change (k_origin (set_root_cnode f (del rcn scratch_key))) with (k_origin f). rewrite Ho.
  unfold with_root_cnode in Hr. unfold resident_instance_to_cached_cap, folded. cbn [set_root_cnode k_instance in_root_cnode k_runtime in_mem].
  destruct (in_root_cnode (k_instance f)) as [|[cap []]]; try done. cbn. by destruct (k_runtime f).
Qed.

(** The slots of the caller after the return. *)
Definition returned_cnode cn slot (rcn : ResidentCNode Rt Ci) f : ResidentCNode Rt Ci :=
  let cn2 := del (del cn slot) scratch_key in
  put (match peek_key rcn scratch_key with Some cap => put cn2 scratch_key cap | None => cn2 end) slot (COwned (folded f rcn)).

Lemma returned_slots cn slot rcn f :
  om_ok cn ->
  peek_key (returned_cnode cn slot rcn f) slot = Some (COwned (folded f rcn)) /\
  (slot <> scratch_key -> peek_key (returned_cnode cn slot rcn f) scratch_key = peek_key rcn scratch_key) /\
  (forall k, k <> slot -> k <> scratch_key -> peek_key (returned_cnode cn slot rcn f) k = peek_key cn k).
Proof.
  intros Ho. unfold returned_cnode. pose proof (del_ok cn slot Ho) as Ho1. pose proof (del_ok _ scratch_key Ho1) as Ho2.
  destruct (peek_key rcn scratch_key) as [cap|].
  - pose proof (put_ok _ scratch_key cap Ho2) as Ho3. split; [by rewrite peek_put, decide_True|]. split.
    + intros Hne. rewrite !peek_put by done. rewrite decide_False, decide_True by done. done.
    + intros k H1 H2. rewrite !peek_put, !peek_del by done. by rewrite !decide_False.
  - split; [by rewrite peek_put, decide_True|]. split.
    + intros Hne. rewrite peek_put, peek_del by done. rewrite decide_False, decide_True by done. done.
    + intros k H1 H2. rewrite peek_put, !peek_del by done. by rewrite !decide_False.
Qed.

(** The caller's frame once everything is back. *)
Definition returned f cn slot (rcn : ResidentCNode Rt Ci) child rv : Frame :=
  set_root_cnode (set_pending (set_regs (set_regs (calling f cn slot) 7 rv) 8 STATUS_OK) (k_pending f)) (returned_cnode cn slot rcn child).

Lemma set_root_twice f cn1 cn2 : set_root_cnode (set_root_cnode f cn1) cn2 = set_root_cnode f cn2.
Proof. unfold set_root_cnode. cbn. by destruct (in_root_cnode (k_instance f)) as [|[]]. Qed.

Lemma set_root_same f cn : with_root_cnode f = Ret cn -> set_root_cnode f cn = f.
Proof.
  unfold with_root_cnode. destruct f as [[ch ih root mem regs pc g] o p pi ma ro rt]. cbn. destruct root as [|[cap []]]; try done.
  by intros [= ->].
Qed.

Lemma calling_root f cn slot : with_root_cnode f = Ret cn -> with_root_cnode (calling f cn slot) = Ret (del (del cn slot) scratch_key).
Proof. intros E. apply (root_set _ (del cn slot)). exact (root_set f cn (del cn slot) E). Qed.

(** The caller sees the results, then gets its instance back. *)
Lemma return_frame f cn slot rcn child rv :
  frame_ok f -> with_root_cnode f = Ret cn -> ~ pends f slot ->
  exists p3, reflect rv (peek_key rcn scratch_key) (calling f cn slot) = Ret p3 /\ pends p3 slot /\
    frame_cnode_set (set_pending p3 (fst (om_remove slot (k_pending p3)))) slot (Some (COwned (folded child rcn))) =
    Ret (returned f cn slot rcn child rv).
Proof.
  intros Hf Hcn Hn. destruct Hf as [_ Hp]. pose proof (calling_root f cn slot Hcn) as Hr.
  assert (om_get slot (k_pending f) = None) as Hg.
  { unfold pends, slot_is_pending in Hn. by destruct (om_get slot (k_pending f)). }
  set (pr := set_regs (set_regs (calling f cn slot) 7 rv) 8 STATUS_OK).
  set (cn3 := match peek_key rcn scratch_key with
              | Some cap => put (del (del cn slot) scratch_key) scratch_key cap
              | None => del (del cn slot) scratch_key end).
  assert (reflect rv (peek_key rcn scratch_key) (calling f cn slot) = Ret (set_root_cnode pr cn3)) as Er.
  { unfold reflect. fold pr. unfold cn3. destruct (peek_key rcn scratch_key) as [cap|]; [exact (set_eq pr _ scratch_key cap Hr)|].
    f_equal. symmetry. exact (set_root_same pr _ Hr). }
  exists (set_root_cnode pr cn3). split; [done|].
  change (k_pending (set_root_cnode pr cn3)) with (fst (om_insert slot tt (k_pending f))). split.
  { unfold pends, slot_is_pending. change (k_pending (set_root_cnode pr cn3)) with (fst (om_insert slot tt (k_pending f))).
    by rewrite om_get_inserted. }
  rewrite om_remove_insert by done.
  assert (with_root_cnode (set_pending (set_root_cnode pr cn3) (k_pending f)) = Ret cn3) as Hr3 by exact (root_set pr _ cn3 Hr).
  etrans; [exact (set_eq _ _ slot (COwned (folded child rcn)) Hr3)|]. f_equal.
  change (set_pending (set_root_cnode pr cn3) (k_pending f)) with (set_root_cnode (set_pending pr (k_pending f)) cn3).
  apply set_root_twice.
Qed.

(** C4: a call and its return round-trip the callee. After a call, however the
    callee's frame evolves while it runs, its return leaves the stack exactly as
    it was below, except for the caller's frame: the slot the instance was taken
    from holds it again, with its final memory, registers and cnode; the caller
    reads the return value and an ok status in its result registers; the
    scratchpad cap travels back; every other slot, register and reservation of
    the caller is untouched. *)
Theorem call_return_roundtrip (c : Ctx) info e f cn c1 child child' rcn rv :
  stack_ok (ctx_stack c) -> ctx_stack c !! pred (length (ctx_stack c)) = Some e -> inst (ctx_stack c) (st_target e) f ->
  with_root_cnode f = Ret cn -> om_ok cn ->
  ecall_host_call CACHE c info false = Ret (Ok (c1, Resume)) ->
  inst (ctx_stack c1) (length (ctx_stack c)) child -> frame_sim child child' -> with_root_cnode child' = Ret rcn ->
  let slot := slot_reg f 7 in
  exists g gcn,
    pop_and_reflect (put_frame (ctx_stack c1) (length (ctx_stack c)) child') rv =
      Ret (Ok (put_frame (ctx_stack c) (st_target e) g, false)) /\
    k_pending g = k_pending f /\ k_origin g = k_origin f /\ in_mem (k_instance g) = in_mem (k_instance f) /\
    in_regs (k_instance g) = <[8%nat := STATUS_OK]> (<[7%nat := rv]> (in_regs (k_instance f))) /\
    with_root_cnode g = Ret gcn /\ peek_key gcn slot = Some (COwned (folded child' rcn)) /\
    (slot <> scratch_key -> peek_key gcn scratch_key = peek_key rcn scratch_key) /\
    (forall k, k <> slot -> k <> scratch_key -> peek_key gcn k = peek_key cn k).
Proof.
  intros Hs E Hf Hcn Hok Hcall Hch Hsim Hrcn slot. pose proof Hs as [Hne Hi]. pose proof (inst_frame_ok _ _ _ _ Hi Hf) as Hfok.
  destruct (host_call_shape c info e f cn c1 Hs E Hf Hcn Hcall) as (ch & iid & m & Es & Hn & _ & Ho & Hp & _ & _). fold slot in Es, Hn, Ho.
  rewrite Es in Hch |- *. set (s1 := put_frame (ctx_stack c) (st_target e) (calling f cn slot)) in *.
  assert (length s1 = length (ctx_stack c)) as Hl1 by apply length_put_frame. rewrite <- Hl1 in *.
  apply inst_snoc in Hch as [Hch|[_ [= ->]]]; [apply inst_lt in Hch; lia|]. rewrite put_frame_snoc.
  destruct Hsim as (S1 & S2 & _). rewrite Ho in S1. rewrite Hp in S2.
  exists (returned f cn slot rcn child' rv), (returned_cnode cn slot rcn child').
  destruct (return_frame f cn slot rcn child' rv Hfok Hcn Hn) as (p3 & R1 & R2 & R3).
  split.
  { unfold pop_and_reflect. rewrite length_app. cbn [length]. rewrite Nat.add_1_r. cbn [pred].
    rewrite lookup_app_r, Nat.sub_diag by lia. cbn [lookup list_lookup instance_with_meta]. rewrite S2, take_app_length.
    assert (s1 <> []) as Hne1 by (destruct s1, (ctx_stack c); done). destruct s1 as [|e0 s0] eqn:Es1; [done|]. rewrite <- Es1 in *.
    rewrite (take_eq child' rcn scratch_key Hrcn). cbn [res_bind]. rewrite (fold_back_eq child' rcn _ Hrcn S1).
    change (update_frame s1 _ _) with (update_frame s1 (pred (length s1)) (reflect rv (peek_key rcn scratch_key))).
    pose proof (update_put _ _ _ e f _ p3 _ Hi E Hf R1) as Hu1. fold s1 in Hu1. rewrite Hu1. cbn [res_bind].
    pose proof (inst_target _ _ _ _ Hi Hf) as (te & Et & Htt & _). unfold restore_instance_to_origin. cbn [fo_owner fo_slot].
    rewrite <- Htt in Hf. destruct (put_frame_at _ _ _ te f p3 Hi Et Hf) as [Hat _]. rewrite Htt in Hat. rewrite Hat. cbn [res_bind].
    rewrite R2. pose proof (update_put _ _ _ te f p3 (returned f cn slot rcn child' rv) (fun h => frame_cnode_set
      (set_pending h (fst (om_remove slot (k_pending h)))) slot (Some (COwned (folded child' rcn)))) Hi Et Hf R3) as Hu.
    rewrite Htt in Hu. rewrite Hu. done. }
  split; [done|]. split; [done|]. split; [done|]. split; [done|].
  split; [apply (root_set _ (del (del cn slot) scratch_key)); exact (calling_root f cn slot Hcn)|].
  by apply returned_slots.
Qed.
End Return.

(** ** A call and its return, run *)

#[local] Existing Instance sum_digest.
#[local] Existing Instance label_hash.
#[local] Instance unmetered : Metering := false.

Definition caller_frame : KernelFrame unit unit :=
  mkFrame (mkInstanceCap [9] [1] (COwned (cached_cnode [([5], Materialized (CHash [2]))])) (mkDataCap slab_empty [])
             (put_args (replicate NUM_REGS 0) 7 [5; 0; 0; 0]) 0 0) None [] [] [] [] None.

Definition caller_ctx : TaskCtx (KernelFrame unit unit) JavmEntryMeta Key :=
  mkCtx 0 [instance_with_meta caller_frame 0 0 (mkMeta None [] host_budgeted)] (gas_new None 1000) 1.

Lemma caller_ok : stack_ok (ctx_stack caller_ctx).
Proof.
  assert (forall j (h : KernelFrame unit unit), inst (ctx_stack caller_ctx) j h -> j = 0%nat /\ h = caller_frame) as Hi.
  { intros [|j] h (e & E & Hk); cbn in E; [|done]. injection E as <-. cbn in Hk. by injection Hk as <-. }
  split; [done|]. split.
  - intros [|i] e E; cbn in E; [|done]. injection E as <-. split; [split; [split; [constructor|done]|constructor]|]. cbn.
    split; [done|]. split; [split; [by do 2 eexists|apply om_ok_nil]|done].
  - intros i f slot Hif. destruct (Hi i f Hif) as [-> ->]. split; [done|].
    intros [(j & h & Hh & Ho)|Hin]; [by destruct (Hi j h Hh) as [_ ->]|by apply not_elem_of_nil in Hin].
  - intros i j f g o Hif Hjg. by destruct (Hi i f Hif) as [-> _], (Hi j g Hjg) as [-> _].
  - intros i f o _ _ Hin. by apply not_elem_of_nil in Hin.
  - intros o Hin. by apply not_elem_of_nil in Hin.
  - by apply list.NoDup_nil.
Qed.

Lemma call_return_roundtrip_witness :
  exists c1 child g,
    ecall_host_call sample_cache caller_ctx (mkExitInfo EXIT_HOST_CALL 26 0 [] 0) false = Ret (Ok (c1, Resume)) /\
    inst (ctx_stack c1) 1 child /\
    pop_and_reflect (put_frame (ctx_stack c1) 1 (set_regs child 3 77)) 42 =
      Ret (Ok (put_frame (ctx_stack caller_ctx) 0 g, false)) /\
    nth 7 (in_regs (k_instance g)) 0 = 42.
Proof.
  destruct (ecall_host_call sample_cache caller_ctx (mkExitInfo EXIT_HOST_CALL 26 0 [] 0) false) as [[[c1 fl]|e]|] eqn:E;
    [|vm_compute in E; discriminate E|vm_compute in E; discriminate E].
  destruct fl; [|vm_compute in E; discriminate E].
  assert (exists child, inst (ctx_stack c1) 1 child /\ exists rcn, with_root_cnode child = Ret rcn) as (child & Hch & rcn & Hr).
  { vm_compute in E. injection E as <-. eexists. split; [by eexists|]. by eexists. }
  assert (om_ok ([([5], Materialized (CHash [2]))] : ResidentCNode unit unit)) as Hok by (repeat constructor).
  destruct (call_return_roundtrip sample_cache caller_ctx _ _ caller_frame _ c1 child (set_regs child 3 77) rcn 42
              caller_ok eq_refl (ex_intro _ _ (conj eq_refl eq_refl)) eq_refl Hok E Hch (sim_set_regs child 3 77) Hr)
    as (g & gcn & H1 & _ & _ & _ & H2 & _).
  exists c1, child, g. split; [reflexivity|]. split; [exact Hch|]. split; [exact H1|]. rewrite H2. reflexivity.
Defined.
