(* ===== verification/CallOps.v ===== *)
(** Further theorems about the Javm personality: meters set from the guest,
    read-only slots, the memory memo, and tasks that share a lane. *)

From Stdlib Require Import ZArith Lia List Bool.
From stdpp Require Import base list numbers tactics gmap.
From S2P Require Import Prelude MachineInt OrdMap Program Merkle Ssz CapData CapSlot CapImage Cap CapFacts Cache CachedCap Task TaskFacts Frame CallLoop StackInv CallLoopFacts CallReturn.
Open Scope Z_scope.

(** ** Meters *)

(** Setting a meter from the guest is exact. The balance the guest gets back
    is the one the meter had, live or banked; afterwards that meter has the new
    balance and every other scope, the host's included, keeps its own. *)
Theorem set_gas_meter_exact (g : TaskGasState Key) k v :
  om_ok (meters g) ->
  let '(g', previous) := set_gas_meter g k v in
  om_ok (meters g') /\ previous = balance g (Some k) /\ forall s, balance g' s = upd (balance g) (Some k) v s.
Proof.
  intros Ho. unfold set_gas_meter, balance, upd. case_decide as Hc.
  - cbn. split; [done|]. split; [by rewrite decide_True|]. intros s. rewrite Hc. by case_decide.
  - pose proof (om_insert_old k v (meters g) Ho) as Hold. pose proof (om_insert_ok k v (meters g) Ho) as Hok.
    pose proof (fun j => om_get_insert k v (meters g) j Ho) as Hget.
    destruct (om_insert k v (meters g)) as [ms old]. cbn in *. split; [done|].
    split; [rewrite decide_False by congruence; by rewrite Hold|]. intros s.
    destruct (decide (s = current_active g)) as [->|Hs]; [by rewrite decide_False|].
    destruct s as [j|]; [|by rewrite decide_False]. rewrite Hget. destruct (decide (j = k)) as [->|Hj].
    + by rewrite decide_True.
    + by rewrite decide_False by congruence.
Qed.

Lemma set_gas_meter_exact_witness :
  snd (set_gas_meter (gas_new (Some [1]) 50) [1] 80) = 50.
Proof.
  pose proof (set_gas_meter_exact (gas_new (Some [1]) 50) [1] 80) as H.
  destruct (set_gas_meter (gas_new (Some [1]) 50) [1] 80) as [g p] eqn:E.
  destruct H as (_ & H & _); [repeat constructor|]. exact H.
Defined.

Section Ops.
  Context {D : Digest} {K : KernelHash} {Rt Ci : Type} {Mc : Machine Rt}.
  Variable CACHE : Directory (CachedCap Rt Ci).
Notation Frame := (KernelFrame Rt Ci).
Notation Task := (KernelTask (KernelFrame Rt Ci) JavmEntryMeta Key).
Implicit Types f : Frame.

(** ** Read-only and reserved slots *)










(** ** The memory memo *)

(** Every memoised image agrees with composing it now. *)
Definition memo_ok (w : MemCache) : Prop :=
  om_ok w /\ forall h m img, om_get h w = Some m -> blob CACHE h = Some (Cap_Image img) -> m = compose_instance_mem CACHE img.

Lemma memo_nil : memo_ok evict_mem_cache.
Proof. split; [apply om_ok_nil|done]. Qed.

Lemma build_mem_memo w h img :
  memo_ok w -> blob CACHE h = Some (Cap_Image img) ->
  snd (build_instance_mem CACHE w h img) = compose_instance_mem CACHE img /\ memo_ok (fst (build_instance_mem CACHE w h img)).
Proof.
  intros [Ho Hm] Hb. unfold build_instance_mem. destruct (om_get h w) as [m|] eqn:E; [by split; [apply (Hm h)|]|].
  cbn. split; [done|]. split; [by apply om_insert_ok|]. intros h' m img'. rewrite om_get_insert by done.
  case_decide; [|by apply Hm]. subst. intros [= <-]. rewrite Hb. by intros [= <-].
Qed.

(** What a step does to the rest of the system does not depend on the memo it
    starts from, and the memo it leaves agrees with the blobs. *)
Definition memo_blind {A} (step : MemCache -> Res (MemCache * A)) : Prop :=
  (forall w, memo_ok w -> step w = Abort) \/
  exists a, forall w, memo_ok w -> exists w', step w = Ret (w', a) /\ memo_ok w'.

Lemma blind_abort {A} : memo_blind (fun _ => @Abort (MemCache * A)).
Proof. by left. Qed.

Lemma blind_ret {A} (a : A) : memo_blind (fun w => Ret (w, a)).
Proof. right. exists a. intros w Hw. by exists w. Qed.

Lemma blind_lift {A B} (r : Res A) (k : A -> B) : memo_blind (fun w => let! a := r in Ret (w, k a)).
Proof. destruct r; [apply blind_ret|apply blind_abort]. Qed.

Lemma blind_bind {A B} (step : MemCache -> Res (MemCache * A)) (k : MemCache -> A -> Res (MemCache * B)) :
  memo_blind step -> (forall a, memo_blind (fun w => k w a)) -> memo_blind (fun w => let! (w', a) := step w in k w' a).
Proof.
  intros [Ha|(a & Ha)] Hk; [left; intros w Hw; by rewrite Ha|].
  destruct (Hk a) as [Hb|(b & Hb)]; [left|right; exists b]; intros w Hw; destruct (Ha w Hw) as (w' & -> & Hw').
  - by apply Hb.
  - by apply Hb.
Qed.

Lemma blind_build {A} h img (k : MemCache -> DataCap -> Res (MemCache * A)) :
  blob CACHE h = Some (Cap_Image img) -> (forall m, memo_blind (fun w => k w m)) ->
  memo_blind (fun w => let '(w', m) := build_instance_mem CACHE w h img in k w' m).
Proof.
  intros Hb Hk. apply (blind_bind (fun w => Ret (build_instance_mem CACHE w h img))); [|done].
  right. exists (compose_instance_mem CACHE img). intros w Hw. destruct (build_mem_memo w h img Hw Hb) as [E Hm].
  eexists. split; [by rewrite <- E, <- surjective_pairing|done].
Qed.

Lemma derive_spawn_blind f : memo_blind (fun w => dispatch_derive_spawn CACHE w f).
Proof.
  unfold dispatch_derive_spawn. destruct (slot_write_blocked f _); [apply blind_ret|].
  destruct (with_cnode_peek_guest f _) as [[t|]|]; cbn [res_bind]; [|apply blind_ret|apply blind_abort].
  destruct (blob CACHE _) as [[|img| |]|] eqn:Hb; try apply blind_ret.
  apply blind_build; [done|]. intros m. apply (blind_lift _ (fun f' => Ok (f', false))).
Qed.

Lemma ecall_blind c op info pending : memo_blind (fun w => ecall_dispatch CACHE w c op info pending).
Proof.
  unfold ecall_dispatch. destruct (op =? OP_DERIVE_SPAWN); [|apply (blind_lift _ id)].
  unfold ecall_derive_spawn. destruct (frame_at (ctx_stack c) (top_idx c)) as [f|]; [|apply blind_abort]. cbn [res_bind].
  apply blind_bind; [apply derive_spawn_blind|]. intros [[f' trapped]|e]; [|apply blind_ret].
  destruct (set_frame _ _ _) as [s|]; [|apply blind_abort]. cbn [res_bind]. apply (blind_lift _ id).
Qed.

Lemma on_ecall_blind op c info : memo_blind (fun w => javm_on_ecall CACHE op w c info).
Proof.
  unfold javm_on_ecall. destruct (ecall_cost CACHE c op info) as [[[cost pending]|e]|]; cbn [res_bind]; [|apply blind_ret|apply blind_abort].
  destruct (_ <? _); [apply (blind_lift _ id)|apply ecall_blind].
Qed.

Lemma poll_blind (t : Task) : memo_blind (fun w => poll_once (P := Javm CACHE) w t).
Proof.
  unfold poll_once. destruct (run_top_entry (P := Javm CACHE) (task_ctx t)) as [[[c info]|e]|]; cbn [res_bind];
    [|apply blind_ret|apply blind_abort].
  apply blind_bind.
  - unfold dispatch. cbn [on_halt on_ecall on_exit Javm]. destruct (_ =? EXIT_HALT); [apply (blind_lift _ id)|].
    destruct (_ || _); [apply on_ecall_blind|apply (blind_lift _ id)].
  - intros [[c' []]|e]; apply blind_ret.
Qed.

(** ** Tasks that share a lane *)

(** Run alone for [n] polls, [t] is still going or has ended without an error. *)
Definition no_error_alone (n : nat) (t : Task) : Prop :=
  match run_to_completion (P := Javm CACHE) n evict_mem_cache t with
  | None | Some (Ret (_, Ok _)) => True
  | _ => False
  end.

(** How a run ended, without the memo it leaves. *)
Definition ends (r : option (Res (MemCache * Result LoopOutcome Z))) : option (Res (Result LoopOutcome Z)) :=
  match r with None => None | Some Abort => Some Abort | Some (Ret (_, o)) => Some (Ret o) end.

Lemma poll_alone (t : Task) w r :
  memo_ok w -> (exists w', poll_once (P := Javm CACHE) w t = Ret (w', Ok r)) -> polls (P := Javm CACHE) memo_ok t r.
Proof.
  intros Hw (w' & E). destruct (poll_blind t) as [Ha|(a & Ha)]; [by rewrite Ha in E|].
  destruct (Ha w Hw) as (v & Ev & _). rewrite E in Ev. injection Ev as -> <-. exact Ha.
Qed.

Lemma alone_survives n (t : Task) w :
  memo_ok w -> (forall e, ends (run_to_completion (P := Javm CACHE) n w t) <> Some (Ret (Err e))) ->
  ends (run_to_completion (P := Javm CACHE) n w t) <> Some Abort -> survives (P := Javm CACHE) memo_ok n t.
Proof.
  revert t w. induction n as [|n IH]; intros t w Hw He Ha; [done|]. cbn [run_to_completion] in He, Ha.
  destruct (poll_blind t) as [Hb|(r & Hr)]; [by rewrite Hb in Ha|]. destruct (Hr w Hw) as (w' & E & Hw').
  rewrite E in He, Ha. destruct r as [[t' p]|e]; [|by destruct (He e)]. exists t', p.
  split; [by apply (poll_alone t w); [|exists w']|]. intros ->. by apply (IH t' w').
Qed.

Lemma alone_completes n (t : Task) w o :
  memo_ok w -> ends (run_to_completion (P := Javm CACHE) n w t) = Some (Ret (Ok o)) ->
  exists m, (m < n)%nat /\ completes (P := Javm CACHE) memo_ok t m o.
Proof.
  revert t w. induction n as [|n IH]; intros t w Hw He; [done|]. cbn [run_to_completion] in He.
  destruct (poll_blind t) as [Hb|(r & Hr)]; [by rewrite Hb in He|]. destruct (Hr w Hw) as (w' & E & Hw'). rewrite E in He.
  assert (forall r', r = Ok r' -> polls (P := Javm CACHE) memo_ok t r') as Hp.
  { intros r' ->. apply (poll_alone t w); [done|by exists w']. }
  destruct r as [[t' []]|e]; [| |done].
  - destruct (IH t' w' Hw' He) as (m & Hm & Hc). exists (S m). split; [lia|]. eapply CompletesStep; [by apply Hp|done].
  - injection He as <-. exists O. split; [lia|]. eapply CompletesDone. by apply Hp.
Qed.

(** C10: tasks on one lane are isolated. Two tasks share the lane's memory memo
    and nothing else. If no queued task fails when it is run alone for [n]
    polls, and the target, run alone from an empty memo, ends with [o] within
    [n] polls, then the scheduler returns that same outcome for it within [n]
    rounds of the queue: what the other tasks did in between does not show. *)
Theorem javm_tasks_isolated (s : KernelScheduler) w target t n o w1 :
  sched_ok s -> memo_ok w -> om_get target (tasks s) = Some t -> om_get target (completed s) = None ->
  run_to_completion (P := Javm CACHE) n evict_mem_cache t = Some (Ret (w1, Ok o)) ->
  (forall id t', om_get id (tasks s) = Some t' -> no_error_alone n t') ->
  exists w' s', run_until_result (P := Javm CACHE) (n * length (ready s)) w s target = Some (Ret (w', s', Ok o)).
Proof.
  intros Hs Hw Ht Hc Hrun Hothers.
  destruct (alone_completes n t evict_mem_cache o memo_nil) as (m & Hm & Hcm); [by rewrite Hrun|].
  apply (run_until_completes memo_ok s w target t n m o); [done..|]. intros id t' _ Ht'.
  specialize (Hothers id t' Ht'). unfold no_error_alone in Hothers.
  apply (alone_survives n t' evict_mem_cache memo_nil);
    destruct (run_to_completion n evict_mem_cache t') as [[[v [o'|e]]|]|]; cbn; done.
Qed.
End Ops.

(** ** The theorems on a small system *)

#[local] Existing Instance sum_digest.
#[local] Existing Instance label_hash.

(** The caller of [CallReturn] with slot 5, where the callee lives, pinned. *)
Definition pinned_caller : KernelFrame unit unit :=
  mkFrame (k_instance caller_frame) None [] [[5]] [] [] None.


(** [host_call] is the operation that does not respect pinning. With slot 5
    pinned by the caller's image, a call through it still takes the capability
    out of the slot; the slot is empty while the callee runs. *)
Theorem host_call_empties_pinned_slot :
  slot_write_blocked pinned_caller [5] = true /\ with_cnode_peek pinned_caller [5] = Ret (Some (CHash [2])) /\
  exists p child, dispatch_host_call sample_cache pinned_caller 0 = Ret (Ok (Some (p, child))) /\
    with_cnode_peek p [5] = Ret None.
Proof. split; [reflexivity|]. split; [reflexivity|]. do 2 eexists. split; reflexivity. Qed.

Definition sample_value : KernelTask (KernelFrame unit unit) JavmEntryMeta Key :=
  match sample_task with Ret (Ok t) => t | _ => mkTask 0 caller_ctx end.

Definition shared_lane : @KernelScheduler (KernelFrame unit unit) JavmEntryMeta Key :=
  mkScheduler 0 2 [(0, sample_value); (1, mkTask 1 caller_ctx)] [] [0; 1].

Lemma shared_lane_ok : sched_ok shared_lane.
Proof.
  split; [|split; [|split]].
  - repeat constructor.
  - constructor.
  - apply (bool_decide_unpack (NoDup [0; 1])). by vm_compute.
  - intros id. rewrite om_get_is_Some by repeat constructor. by rewrite list_elem_of_In.
Qed.

Lemma javm_tasks_isolated_witness :
  exists o w1, run_to_completion (P := Javm sample_cache) 1 evict_mem_cache sample_value = Some (Ret (w1, Ok o)) /\
    exists w' s', run_until_result (P := Javm sample_cache) 2 evict_mem_cache shared_lane 0 = Some (Ret (w', s', Ok o)).
Proof.
  do 2 eexists. split; [vm_compute; reflexivity|].
  eapply (javm_tasks_isolated sample_cache shared_lane evict_mem_cache 0 sample_value 1).
  - exact shared_lane_ok.
  - apply memo_nil.
  - reflexivity.
  - reflexivity.
  - vm_compute. reflexivity.
  - intros id t' H. apply om_get_In in H as [[= <- <-]|[[= <- <-]|[]]]; exact Logic.I.
Defined.

(** An image that maps its initial slot 6, and the directory before and after
    the bytes of that slot are published. *)
Definition mapped_image : ImageCap :=
  mkImageCap [1] [] [mkMemoryMapping DATA_BASE CAP_PAGE_SIZE [[6]]] [] [mkImageSlotEntry [6] [3]] None [] [].
Definition before_publish : Directory (CachedCap unit unit) :=
  mkDirectory {[ [1] := cached (Cap_Image mapped_image) ]} ∅ ∅ 1.
Definition after_publish : Directory (CachedCap unit unit) :=
  mkDirectory {[ [1] := cached (Cap_Image mapped_image); [3] := cached (Cap_Data (data_from_bytes_sized [77] CAP_PAGE_SIZE)) ]} ∅ ∅ 1.

(** The memo can go stale: an image spawned before the data it names is
    published keeps its zero memory afterwards. *)
Lemma memo_goes_stale :
  let w := fst (build_instance_mem before_publish evict_mem_cache [1] mapped_image) in
  copy_into (snd (build_instance_mem after_publish w [1] mapped_image)) 0 1 = Ret [0] /\
  copy_into (compose_instance_mem after_publish mapped_image) 0 1 = Ret [77].
Proof. by vm_compute. Qed.
