(* ===== verification/Elf.v ===== *)
(** The linker's ELF reader: section headers, symbols, the guest memory layout
    and relocations. Source: [src/nub/nub-linker/src/elf.rs], [lib.rs].

    Sizes and addresses are [u64] values and wrap; a slice out of range panics.
    Allocations are assumed to succeed and the texts of error messages are left
    out. *)

From Stdlib Require Import ZArith Lia List Bool Ascii String.
From stdpp Require Import base list numbers.
From S2P Require Import Prelude MachineInt OrdMap BTreeMap Program Merkle Ssz Cap.
Open Scope Z_scope.

Inductive LinkError : Type :=
| ElfParse
| UnsupportedInstruction (offset : Z)
| UnsupportedRelocation
| RegisterMapping (reg : Z)
| LinkCodeTooLarge (size : Z)
| InvalidSection
| LinkInvalidProgram (e : InvalidProgram).

Inductive RelocType : Type :=
| Abs32 | Abs64 | CallPlt | PcrelHi20 | PcrelLo12I | PcrelLo12S | Add32 | Sub32.

Definition from_raw (r : Z) : option RelocType :=
  match r with
  | 1 => Some Abs32
  | 2 => Some Abs64
  | 19 => Some CallPlt
  | 23 => Some PcrelHi20
  | 24 => Some PcrelLo12I
  | 25 => Some PcrelLo12S
  | 35 => Some Add32
  | 39 => Some Sub32
  | _ => None
  end.

(** A [HashMap<u64, u64>] holds the entries of an ordered map and is traversed
    in an order nothing is known about. Each map has a hasher state of its own,
    [seed], so that equal maps may be traversed differently. *)
Class HashIter : Type := {
  hash_iter : Z -> OrdMap Z Z -> list (Z * Z);
  hash_iter_perm : forall seed m, hash_iter seed m ≡ₚ m;
}.

Record LinkedElf : Type := mkLinkedElf {
  code_sections : list (Z * Z * list Z);
  le_ro_data : list Z;
  le_rw_data : list Z;
  stack_size : Z;
  le_heap_pages : Z;
  hi20_targets : OrdMap Z Z;
  lo12_targets : OrdMap Z Z;
  lo12_to_hi20 : OrdMap Z Z;
  call_targets : OrdMap Z Z;
  abs_code_ptrs : list (Z * Z * Z);
  abs_data_ptrs : list (Z * Z * Z);
  sub32_relocs : list (Z * Z);
  rw_base : Z;
  code_ranges : list (Z * Z);
}.

(** ** Reading fields *)

(** [uN::from_le_bytes(data[off..off + n].try_into().unwrap())]. *)
Definition field (data : list Z) (off n : Z) : Res Z :=
  let! s := slice data off (wrapping_add 64 off n) in Ret (from_le_bytes s).

Definition offset_by (base i step : Z) : Z := wrapping_add 64 base (wrap 64 (i * step)).

(** [file_off + size <= data.len()], then the slice. *)
Definition section_fits (data : list Z) (file_off size : Z) : bool :=
  wrapping_add 64 file_off size <=? zlen data.
Definition section_bytes (data : list Z) (file_off size : Z) : Res (list Z) :=
  slice data file_off (wrapping_add 64 file_off size).

Definition in_range (lo hi b : Z) : bool := (lo <=? b) && (b <=? hi).

(** [std::str::from_utf8] accepts. *)
Fixpoint utf8_ok (bs : list Z) : bool :=
  match bs with
  | [] => true
  | a :: r =>
      if a <? 0x80 then utf8_ok r
      else
        match r with
        | b :: r1 =>
            if in_range 0xC2 0xDF a then in_range 0x80 0xBF b && utf8_ok r1
            else
              match r1 with
              | c :: r2 =>
                  if in_range 0xE0 0xEF a then
                    in_range (if a =? 0xE0 then 0xA0 else 0x80) (if a =? 0xED then 0x9F else 0xBF) b &&
                    in_range 0x80 0xBF c && utf8_ok r2
                  else
                    match r2 with
                    | d :: r3 =>
                        in_range 0xF0 0xF4 a &&
                        in_range (if a =? 0xF0 then 0x90 else 0x80) (if a =? 0xF4 then 0x8F else 0xBF) b &&
                        in_range 0x80 0xBF c && in_range 0x80 0xBF d && utf8_ok r3
                    | [] => false
                    end
              | [] => false
              end
        | [] => false
        end
  end.

(** [position(|b| b == 0).unwrap_or(0)]. *)
Fixpoint until_nul (bs : list Z) : option (list Z) :=
  match bs with
  | [] => None
  | b :: r => if b =? 0 then Some [] else option_map (cons b) (until_nul r)
  end.

(** A string table entry; the empty name when it is out of range, unterminated
    or not UTF-8. *)
Definition get_name (strtab : list Z) (name_off : Z) : list Z :=
  if zlen strtab <=? name_off then []
  else
    let s := default [] (until_nul (drop (Z.to_nat name_off) strtab)) in
    if utf8_ok s then s else [].

Definition starts_with (s p : list Z) : bool := bool_decide (take (length p) s = p).

(** ** Headers *)

Record SectionInfo : Type := mkSectionInfo {
  si_name_off : Z; si_type : Z; si_flags : Z; si_addr : Z; si_file_off : Z; si_size : Z; si_link : Z;
}.

Definition read_section (data : list Z) (sh : Z) : Res SectionInfo :=
  let! name_off := field data sh 4 in
  let! sh_type := field data (wrapping_add 64 sh 4) 4 in
  let! flags := field data (wrapping_add 64 sh 8) 8 in
  let! addr := field data (wrapping_add 64 sh 16) 8 in
  let! file_off := field data (wrapping_add 64 sh 24) 8 in
  let! size := field data (wrapping_add 64 sh 32) 8 in
  let! link := field data (wrapping_add 64 sh 40) 4 in
  let! _ := field data (wrapping_add 64 sh 44) 4 in
  Ret (mkSectionInfo name_off sh_type flags addr file_off size link).

Record Header : Type := mkHeader { e_shoff : Z; e_shentsize : Z; e_shnum : Z; strtab : list Z }.

Definition is_elf (data : list Z) : bool :=
  (64 <=? zlen data) && bool_decide (take 4 data = [0x7F; 0x45; 0x4C; 0x46]).

Definition read_header (data : list Z) : Res Header :=
  let! shoff := field data 40 8 in
  let! shentsize := field data 58 2 in
  let! shnum := field data 60 2 in
  let! shstrndx := field data 62 2 in
  let sh := offset_by shoff shstrndx shentsize in
  let! off := field data (wrapping_add 64 sh 24) 8 in
  let! sz := field data (wrapping_add 64 sh 32) 8 in
  let! tab := section_bytes data off sz in
  Ret (mkHeader shoff shentsize shnum tab).

(** The loop over section headers; it stops at the first one past the end. *)
Fixpoint read_sections (data : list Z) (h : Header) (i : Z) (n : nat) : Res (list SectionInfo) :=
  match n with
  | O => Ret []
  | S n' =>
      let sh := offset_by (e_shoff h) i (e_shentsize h) in
      if zlen data <? wrapping_add 64 sh (e_shentsize h) then Ret []
      else
        let! s := read_section data sh in
        let! r := read_sections data h (i + 1) n' in Ret (s :: r)
  end.

(** [sort_by_key] on an address: a stable insertion sort. *)
Fixpoint insert_by_addr {A : Type} (x : Z * A) (l : list (Z * A)) : list (Z * A) :=
  match l with
  | [] => [x]
  | y :: r => if fst y <? fst x then y :: insert_by_addr x r else x :: l
  end.
Definition sort_by_addr {A : Type} (l : list (Z * A)) : list (Z * A) := foldr insert_by_addr [] l.

(** The headers [find_all_section_bytes] reads have no type field. *)
Fixpoint find_sections (data : list Z) (h : Header) (name : list Z) (i : Z) (n : nat) : Res (list (Z * list Z)) :=
  match n with
  | O => Ret []
  | S n' =>
      let sh := offset_by (e_shoff h) i (e_shentsize h) in
      if zlen data <? wrapping_add 64 sh (e_shentsize h) then Ret []
      else
        let! name_off := field data sh 4 in
        let! addr := field data (wrapping_add 64 sh 16) 8 in
        let! file_off := field data (wrapping_add 64 sh 24) 8 in
        let! size := field data (wrapping_add 64 sh 32) 8 in
        let! hit := (if bool_decide (get_name (strtab h) name_off = name) && section_fits data file_off size
                     then let! b := section_bytes data file_off size in Ret [(addr, b)] else Ret []) in
        let! r := find_sections data h name (i + 1) n' in
        Ret (hit ++ r)
  end.

Definition find_all_section_bytes (data name : list Z) : Res (Result (list (list Z)) LinkError) :=
  if negb (is_elf data) then Ret (Err ElfParse)
  else
    let! class := expect (data !! 4%nat) in
    if negb (class =? 2) then Ret (Err ElfParse)
    else
      let! h := read_header data in
      let! hits := find_sections data h name 0 (Z.to_nat (e_shnum h)) in
      Ret (Ok (map snd (sort_by_addr hits))).

(** ** Sections by role *)

Record Roles : Type := mkRoles {
  r_code : list (Z * Z * list Z);
  r_ro : list (Z * Z * list Z);
  r_rw : list (Z * Z * option (list Z));
  r_rela : list SectionInfo;
  r_symtab : option SectionInfo;
}.

Definition roles_empty : Roles := mkRoles [] [] [] [] None.

(** Is the name one of a read-only data section? *)
Definition is_ro_name (name : list Z) : bool :=
  starts_with name (bytes_of ".rodata"%string) || bool_decide (name = bytes_of ".srodata"%string) ||
  starts_with name (bytes_of ".data.rel.ro"%string).

Definition flag (s : SectionInfo) (bit : Z) : bool := negb (Z.land (si_flags s) bit =? 0).

(** The body of the classification loop. *)
Definition classify (data tab : list Z) (r : Roles) (s : SectionInfo) : Res Roles :=
  let r := if si_type s =? 2 then mkRoles (r_code r) (r_ro r) (r_rw r) (r_rela r) (Some s) else r in
  let r := if si_type s =? 4 then mkRoles (r_code r) (r_ro r) (r_rw r) (r_rela r ++ [s]) (r_symtab r) else r in
  let fits := section_fits data (si_file_off s) (si_size s) in
  if negb (flag s 2) || (si_type s =? 0) then Ret r
  else if flag s 4 && fits then
    let! b := section_bytes data (si_file_off s) (si_size s) in
    Ret (mkRoles (r_code r ++ [(si_file_off s, si_addr s, b)]) (r_ro r) (r_rw r) (r_rela r) (r_symtab r))
  else if negb (flag s 4) && is_ro_name (get_name tab (si_name_off s)) then
    if fits then
      let! b := section_bytes data (si_file_off s) (si_size s) in
      Ret (mkRoles (r_code r) (r_ro r ++ [(si_addr s, si_size s, b)]) (r_rw r) (r_rela r) (r_symtab r))
    else Ret r
  else if flag s 1 then
    if si_type s =? 8 then
      Ret (mkRoles (r_code r) (r_ro r) (r_rw r ++ [(si_addr s, si_size s, None)]) (r_rela r) (r_symtab r))
    else if fits then
      let! b := section_bytes data (si_file_off s) (si_size s) in
      Ret (mkRoles (r_code r) (r_ro r) (r_rw r ++ [(si_addr s, si_size s, Some b)]) (r_rela r) (r_symtab r))
    else Ret r
  else Ret r.

Definition classify_all (data tab : list Z) (ss : list SectionInfo) : Res Roles :=
  fold_left (fun acc s => let! r := acc in classify data tab r s) ss (Ret roles_empty).

(** ** Symbols *)

Fixpoint read_symbols (data sym_strtab : list Z) (base j : Z) (n : nat) : Res (list (list Z * Z)) :=
  match n with
  | O => Ret []
  | S n' =>
      let off := offset_by base j 24 in
      if zlen data <? wrapping_add 64 off 24 then Ret []
      else
        let! st_name := field data off 4 in
        let! st_value := field data (wrapping_add 64 off 8) 8 in
        let! r := read_symbols data sym_strtab base (j + 1) n' in
        Ret ((get_name sym_strtab st_name, st_value) :: r)
  end.

Definition symbols_by_idx (data : list Z) (ss : list SectionInfo) (symtab : option SectionInfo) :
  Res (list (list Z * Z)) :=
  match symtab with
  | None => Ret []
  | Some s =>
      let! strs := expect (ss !! Z.to_nat (si_link s)) in
      let! tab := section_bytes data (si_file_off strs) (si_size strs) in
      read_symbols data tab (si_file_off s) 0 (Z.to_nat (si_size s / 24))
  end.

(** ** Memory layout *)

Definition list_min (l : list Z) : option Z :=
  match l with [] => None | x :: r => Some (fold_left Z.min r x) end.
Definition list_max (l : list Z) : option Z :=
  match l with [] => None | x :: r => Some (fold_left Z.max r x) end.

Definition layout_stack (ro : list (Z * Z * list Z)) : Z :=
  let ro_min := default 0 (list_min (map (fun s => fst (fst s)) ro)) in
  if 0 <? ro_min then ro_min / ABI_PAGE_SIZE * ABI_PAGE_SIZE else 4 * ABI_PAGE_SIZE.

(** [blob[off..off + sz].copy_from_slice(d)] when it fits. *)
Definition place_bytes (blob : list Z) (off sz : Z) (d : list Z) : Res (list Z) :=
  let e := wrapping_add 64 off sz in
  if e <=? zlen blob then
    if (off <=? e) && (zlen d =? e - off) then Ret (splice blob (Z.to_nat off) d) else Abort
  else Ret blob.

Definition layout_ro (ro : list (Z * Z * list Z)) (stack : Z) : Res (list Z) :=
  let ro_max := default 0 (list_max (map (fun s => wrapping_add 64 (fst (fst s)) (snd (fst s))) ro)) in
  let size := if stack <? ro_max then ro_max - stack else 0 in
  fold_left (fun acc s =>
      let! blob := acc in
      let '(addr, sz, d) := s in place_bytes blob (wrapping_sub 64 addr stack) sz d)
    ro (Ret (replicate (Z.to_nat size) 0)).

(** The base address of the read-write blob and the blob. *)
Definition layout_rw (rw : list (Z * Z * option (list Z))) (rw_pvm_base : Z) : Res (Z * list Z) :=
  match list_min (map (fun s => fst (fst s)) rw) with
  | None => Ret (rw_pvm_base, [])
  | Some rw_min =>
      let rw_max := default 0 (list_max (map (fun s => wrapping_add 64 (fst (fst s)) (snd (fst s))) rw)) in
      let base := Z.min rw_pvm_base rw_min in
      let! blob := fold_left (fun acc s =>
          let! blob := acc in
          let '(addr, sz, d) := s in
          match d with
          | Some d => place_bytes blob (wrapping_sub 64 addr base) sz d
          | None => Ret blob
          end) rw (Ret (replicate (Z.to_nat (wrapping_sub 64 rw_max base)) 0)) in
      Ret (base, blob)
  end.

(** ** Relocations *)

Record Relocs : Type := mkRelocs {
  rl_hi20 : OrdMap Z Z;
  rl_call : OrdMap Z Z;
  rl_lo12 : list (Z * Z);
  rl_abs_code : list (Z * Z * Z);
  rl_abs_data : list (Z * Z * Z);
  rl_sub32 : list (Z * Z);
}.

Definition in_ranges (ranges : list (Z * Z)) (a : Z) : bool :=
  existsb (fun r => (fst r <=? a) && (a <? snd r)) ranges.

Definition add_code_ptr (l : Relocs) (p : Z * Z * Z) : Relocs :=
  mkRelocs (rl_hi20 l) (rl_call l) (rl_lo12 l) (rl_abs_code l ++ [p]) (rl_abs_data l) (rl_sub32 l).
Definition add_data_ptr (l : Relocs) (p : Z * Z * Z) : Relocs :=
  mkRelocs (rl_hi20 l) (rl_call l) (rl_lo12 l) (rl_abs_code l) (rl_abs_data l ++ [p]) (rl_sub32 l).

Definition add_reloc (ranges : list (Z * Z)) (l : Relocs) (t : RelocType) (r_offset target sym_value : Z) : Relocs :=
  let is_code := in_ranges ranges target in
  match t with
  | Abs32 => if is_code then add_code_ptr l (r_offset, target, 4) else add_data_ptr l (r_offset, target, 4)
  | Abs64 => if is_code then add_code_ptr l (r_offset, target, 8) else add_data_ptr l (r_offset, target, 8)
  | Add32 => if is_code then add_code_ptr l (r_offset, target, 4) else l
  | Sub32 => mkRelocs (rl_hi20 l) (rl_call l) (rl_lo12 l) (rl_abs_code l) (rl_abs_data l) (rl_sub32 l ++ [(r_offset, target)])
  | CallPlt => mkRelocs (rl_hi20 l) (fst (om_insert r_offset target (rl_call l))) (rl_lo12 l) (rl_abs_code l) (rl_abs_data l) (rl_sub32 l)
  | PcrelHi20 => mkRelocs (fst (om_insert r_offset target (rl_hi20 l))) (rl_call l) (rl_lo12 l) (rl_abs_code l) (rl_abs_data l) (rl_sub32 l)
  | PcrelLo12I | PcrelLo12S =>
      mkRelocs (rl_hi20 l) (rl_call l) (rl_lo12 l ++ [(r_offset, sym_value)]) (rl_abs_code l) (rl_abs_data l) (rl_sub32 l)
  end.

(** The entries of one relocation section. *)
Fixpoint read_relocs (data : list Z) (ranges : list (Z * Z)) (syms : list (list Z * Z)) (base j : Z) (n : nat)
    (l : Relocs) : Res Relocs :=
  match n with
  | O => Ret l
  | S n' =>
      let off := offset_by base j 24 in
      if zlen data <? wrapping_add 64 off 24 then Ret l
      else
        let! r_offset := field data off 8 in
        let! r_info := field data (wrapping_add 64 off 8) 8 in
        let! r_addend := field data (wrapping_add 64 off 16) 8 in
        let l' := match from_raw (Z.land r_info 0xFFFFFFFF) with
                  | None => l
                  | Some t =>
                      let sym_value := default 0 (snd <$> (syms !! Z.to_nat (Z.shiftr r_info 32))) in
                      add_reloc ranges l t r_offset (wrapping_add 64 sym_value r_addend) sym_value
                  end in
        read_relocs data ranges syms base (j + 1) n' l'
  end.

(** A low part takes its target from the high part it names. *)
Definition pair_lo12 (hi20 : OrdMap Z Z) (m : OrdMap Z Z * OrdMap Z Z) (e : Z * Z) : OrdMap Z Z * OrdMap Z Z :=
  match om_get (snd e) hi20 with
  | Some data_addr => (fst (om_insert (fst e) data_addr (fst m)), fst (om_insert (fst e) (snd e) (snd m)))
  | None => m
  end.

Definition parse_linked_elf (data : list Z) : Res (Result LinkedElf LinkError) :=
  if negb (is_elf data) then Ret (Err ElfParse)
  else
    let! class := expect (data !! 4%nat) in
    if negb (class =? 2) then Ret (Err ElfParse)
    else
      let! h := read_header data in
      let! ss := read_sections data h 0 (Z.to_nat (e_shnum h)) in
      let! r := classify_all data (strtab h) ss in
      let! syms := symbols_by_idx data ss (r_symtab r) in
      let stack := layout_stack (r_ro r) in
      let! ro := layout_ro (r_ro r) stack in
      let rw_pvm_base := wrapping_add 64 stack (div_ceil (zlen ro) ABI_PAGE_SIZE * ABI_PAGE_SIZE) in
      let! (base, rw) := layout_rw (r_rw r) rw_pvm_base in
      let ranges := map (fun s => (snd (fst s), wrapping_add 64 (snd (fst s)) (zlen (snd s)))) (r_code r) in
      let! l := fold_left (fun acc s => let! l := acc in
                    read_relocs data ranges syms (si_file_off s) 0 (Z.to_nat (si_size s / 24)) l)
                  (r_rela r) (Ret (mkRelocs [] [] [] [] [] [])) in
      let '(lo12, lo12_hi) := fold_left (pair_lo12 (rl_hi20 l)) (rl_lo12 l) ([], []) in
      Ret (Ok (mkLinkedElf (r_code r) ro rw (wrap 32 stack) 16 (rl_hi20 l) lo12 lo12_hi (rl_call l)
                 (rl_abs_code l) (rl_abs_data l) (rl_sub32 l) base ranges)).
