(* ===== verification/Link.v ===== *)
(** The linker: from an ELF file to a program blob. Relocation of code and data
    references, the host-call markers, injection of block boundaries, validation
    and emission. Source: [src/nub/nub-linker/src/link.rs]. *)

From Stdlib Require Import ZArith Lia List Bool String.
From stdpp Require Import base list numbers.
From S2P Require Import Prelude MachineInt OrdMap BTreeMap Program Merkle Ssz Cap Elf.
Open Scope Z_scope.

Definition OP_AUIPC : Z := 0x17.
Definition OP_LUI : Z := 0x37.
Definition OP_SYSTEM : Z := 0x73.
Definition OP_CUSTOM_0 : Z := 0x0B.
Definition OP_CUSTOM_1 : Z := 0x2B.
Definition OP_JAL : Z := 0x6F.
Definition OP_JALR : Z := 0x67.
Definition NOP_BYTES : list Z := [0x13; 0; 0; 0].
Definition CSR_ECALL_JAR : Z := 0x800.
Definition CSR_ECALLI : Z := 0x801.

(** ** Words in a byte buffer *)

Definition half_at (code : list Z) (i : Z) : Res Z := let! s := slice code i (i + 2) in Ret (from_le_bytes s).
Definition word_at (code : list Z) (i : Z) : Res Z := let! s := slice code i (i + 4) in Ret (from_le_bytes s).

(** [code[i..i + n].copy_from_slice(bs)]. *)
Definition put_at (code : list Z) (i : Z) (bs : list Z) : Res (list Z) :=
  if (0 <=? i) && (i + zlen bs <=? zlen code) then Ret (splice code (Z.to_nat i) bs) else Abort.

Definition opcode_of (w : Z) : Z := Z.land w 0x7F.
Definition is_full_length (w : Z) : bool := Z.land w 3 =? 3.
Definition is_standard_ecall (w : Z) : bool := w =? 0x73.

(** [((x as i32) << (32 - n)) >> (32 - n)]. *)
Definition sign_bits (n x : Z) : Z := sext n x.

Definition encode_custom0_ecall_jar : Z := Z.lor (Z.shiftl 1 12) OP_CUSTOM_0.
Definition encode_custom0_ecalli (imm : Z) : Z :=
  Z.lor (Z.lor (wrap 32 (Z.shiftl (Z.land (wrap 32 imm) 0xFFF) 20)) (Z.shiftl 2 12)) OP_CUSTOM_0.
Definition encode_custom0_fallthrough : Z := Z.lor (Z.shiftl 4 12) OP_CUSTOM_0.

(** ** Immediates *)

Definition patch_imm_i (w imm : Z) : Z :=
  Z.lor (Z.land w 0x000FFFFF) (wrap 32 (Z.shiftl (Z.land (wrap 32 imm) 0xFFF) 20)).

Definition patch_imm_s (w imm : Z) : Z :=
  let imm12 := Z.land (wrap 32 imm) 0xFFF in
  let hi7 := Z.land (Z.shiftr imm12 5) 0x7F in
  let lo5 := Z.land imm12 0x1F in
  Z.lor (Z.lor (Z.land w 0x01FFF07F) (wrap 32 (Z.shiftl hi7 25))) (wrap 32 (Z.shiftl lo5 7)).

Definition imm_j (w : Z) : Z :=
  let b20 := Z.land (Z.shiftr w 31) 1 in
  let b10_1 := Z.land (Z.shiftr w 21) 0x3FF in
  let b11 := Z.land (Z.shiftr w 20) 1 in
  let b19_12 := Z.land (Z.shiftr w 12) 0xFF in
  sign_bits 21 (Z.lor (Z.lor (Z.lor (Z.shiftl b20 20) (Z.shiftl b19_12 12)) (Z.shiftl b11 11)) (Z.shiftl b10_1 1)).

Definition imm_b (w : Z) : Z :=
  let b12 := Z.land (Z.shiftr w 31) 1 in
  let b11 := Z.land (Z.shiftr w 7) 1 in
  let b10_5 := Z.land (Z.shiftr w 25) 0x3F in
  let b4_1 := Z.land (Z.shiftr w 8) 0xF in
  sign_bits 13 (Z.lor (Z.lor (Z.lor (Z.shiftl b12 12) (Z.shiftl b11 11)) (Z.shiftl b10_5 5)) (Z.shiftl b4_1 1)).

Definition encode_b_imm (opcode_and_regs imm : Z) : Z :=
  let v := wrap 32 imm in
  let b12 := Z.land (Z.shiftr v 12) 1 in
  let b11 := Z.land (Z.shiftr v 11) 1 in
  let b10_5 := Z.land (Z.shiftr v 5) 0x3F in
  let b4_1 := Z.land (Z.shiftr v 1) 0xF in
  let cleared := Z.land opcode_and_regs 0x01FFF07F in
  Z.lor (Z.lor (Z.lor (Z.lor cleared (wrap 32 (Z.shiftl b12 31))) (wrap 32 (Z.shiftl b10_5 25)))
           (wrap 32 (Z.shiftl b4_1 8))) (wrap 32 (Z.shiftl b11 7)).

(** The re-encoding of a [jal] keeps only its destination register. *)
Definition encode_j_imm (w imm : Z) : Z :=
  let rd := Z.land (Z.shiftr w 7) 0x1F in
  let v := wrap 32 imm in
  let b20 := Z.land (Z.shiftr v 20) 1 in
  let b10_1 := Z.land (Z.shiftr v 1) 0x3FF in
  let b11 := Z.land (Z.shiftr v 11) 1 in
  let b19_12 := Z.land (Z.shiftr v 12) 0xFF in
  let imm_field := Z.lor (Z.lor (Z.lor (wrap 32 (Z.shiftl b20 31)) (wrap 32 (Z.shiftl b10_1 21)))
                            (wrap 32 (Z.shiftl b11 20))) (wrap 32 (Z.shiftl b19_12 12)) in
  Z.lor (Z.lor imm_field (wrap 32 (Z.shiftl rd 7))) OP_JAL.

Definition decompress_cj_imm (h : Z) : Z :=
  let b11 := Z.land (Z.shiftr h 12) 1 in
  let b4 := Z.land (Z.shiftr h 11) 1 in
  let b9_8 := Z.land (Z.shiftr h 9) 3 in
  let b10 := Z.land (Z.shiftr h 8) 1 in
  let b6 := Z.land (Z.shiftr h 7) 1 in
  let b7 := Z.land (Z.shiftr h 6) 1 in
  let b3_1 := Z.land (Z.shiftr h 3) 7 in
  let b5 := Z.land (Z.shiftr h 2) 1 in
  sign_bits 12 (Z.lor (Z.lor (Z.lor (Z.lor (Z.lor (Z.lor (Z.lor (Z.shiftl b11 11) (Z.shiftl b10 10)) (Z.shiftl b9_8 8))
    (Z.shiftl b7 7)) (Z.shiftl b6 6)) (Z.shiftl b5 5)) (Z.shiftl b4 4)) (Z.shiftl b3_1 1)).

Definition decompress_cb_imm (h : Z) : Z :=
  let b8 := Z.land (Z.shiftr h 12) 1 in
  let b4_3 := Z.land (Z.shiftr h 10) 3 in
  let b7_6 := Z.land (Z.shiftr h 5) 3 in
  let b2_1 := Z.land (Z.shiftr h 3) 3 in
  let b5 := Z.land (Z.shiftr h 2) 1 in
  sign_bits 9 (Z.lor (Z.lor (Z.lor (Z.lor (Z.shiftl b8 8) (Z.shiftl b7_6 6)) (Z.shiftl b5 5)) (Z.shiftl b4_3 3)) (Z.shiftl b2_1 1)).

Definition encode_cb_imm (h imm : Z) : option Z :=
  if negb ((- 2 ^ 8 <=? imm) && (imm <? 2 ^ 8)) then None
  else if negb (Z.land imm 1 =? 0) then None
  else
    let v := wrap 32 imm in
    let b8 := Z.land (Z.shiftr v 8) 1 in
    let b7_6 := Z.land (Z.shiftr v 6) 3 in
    let b5 := Z.land (Z.shiftr v 5) 1 in
    let b4_3 := Z.land (Z.shiftr v 3) 3 in
    let b2_1 := Z.land (Z.shiftr v 1) 3 in
    let preserved := Z.land h 0xE383 in
    let new_imm := Z.lor (Z.lor (Z.lor (Z.lor (Z.shiftl b8 12) (Z.shiftl b4_3 10)) (Z.shiftl b7_6 5)) (Z.shiftl b2_1 3)) (Z.shiftl b5 2) in
    Some (wrap 16 (Z.lor preserved new_imm)).

Definition encode_cj_imm (h imm : Z) : option Z :=
  if negb ((- 2 ^ 11 <=? imm) && (imm <? 2 ^ 11)) then None
  else if negb (Z.land imm 1 =? 0) then None
  else
    let v := wrap 32 imm in
    let b11 := Z.land (Z.shiftr v 11) 1 in
    let b10 := Z.land (Z.shiftr v 10) 1 in
    let b9_8 := Z.land (Z.shiftr v 8) 3 in
    let b7 := Z.land (Z.shiftr v 7) 1 in
    let b6 := Z.land (Z.shiftr v 6) 1 in
    let b5 := Z.land (Z.shiftr v 5) 1 in
    let b4 := Z.land (Z.shiftr v 4) 1 in
    let b3_1 := Z.land (Z.shiftr v 1) 7 in
    let preserved := Z.land h 0xE003 in
    let new_imm := Z.lor (Z.lor (Z.lor (Z.lor (Z.lor (Z.lor (Z.lor (Z.shiftl b11 12) (Z.shiftl b4 11)) (Z.shiftl b9_8 9))
                     (Z.shiftl b10 8)) (Z.shiftl b6 7)) (Z.shiftl b7 6)) (Z.shiftl b3_1 3)) (Z.shiftl b5 2) in
    Some (wrap 16 (Z.lor preserved new_imm)).

(** ** Relocation of instructions *)

(** The opcodes whose low part is an I-type or an S-type immediate. *)
Definition is_lo12_i (b : Z) : bool := let o := Z.land b 0x7F in (o =? 0x03) || (o =? 0x13) || (o =? 0x67).
Definition is_lo12_s (b : Z) : bool := Z.land b 0x7F =? 0x23.

(** The common body of [patch_lo12_abs] and of the second loop of
    [fixup_code_pcrel]: patch the word at [off] by the kind of its opcode. *)
Definition patch_lo12 (code : list Z) (off imm : Z) : Res (list Z) :=
  let! b := expect (if 0 <=? off then code !! Z.to_nat off else None) in
  if is_lo12_i b then let! w := word_at code off in put_at code off (to_le_bytes 4 (patch_imm_i w imm))
  else if is_lo12_s b then let! w := word_at code off in put_at code off (to_le_bytes 4 (patch_imm_s w imm))
  else Ret code.

Definition patch_lo12_abs (code : list Z) (off eff : Z) : Res (list Z) := patch_lo12 code off (sign_bits 12 eff).

Definition expect_auipc (code : list Z) (off : Z) : Res (Result unit LinkError) :=
  if zlen code <? off + 4 then Ret (Err InvalidSection)
  else
    let! w := word_at code off in
    if negb (opcode_of w =? OP_AUIPC) then Ret (Err InvalidSection) else Ret (Ok tt).

(** [(v.wrapping_add(0x800) & 0xFFFF_F000) | (rd << 7) | op], [rd] that of [w]. *)
Definition hi20_word (w v op : Z) : Z :=
  let rd := Z.land (Z.shiftr w 7) 0x1F in
  Z.lor (Z.lor (Z.land (wrapping_add 32 v 0x800) 0xFFFFF000) (Z.shiftl rd 7)) op.

Definition fold_auipc_to_lui (code : list Z) (off eff : Z) : Res (Result (list Z) LinkError) :=
  if zlen code <? off + 4 then Ret (Err InvalidSection)
  else
    let! w := word_at code off in
    if negb (opcode_of w =? OP_AUIPC) then Ret (Err InvalidSection)
    else let! c := put_at code off (to_le_bytes 4 (hi20_word w eff OP_LUI)) in Ret (Ok c).

(** A loop whose body may panic or return early with an error. *)
Definition try_fold {A B E : Type} (f : A -> B -> Res (Result A E)) (a : A) (l : list B) : Res (Result A E) :=
  fold_left (fun acc b => let* a := acc in f a b) l (Ret (Ok a)).

Definition remap (offset_map : BTreeMap Z) (o : Z) : Res (Result Z LinkError) :=
  Ret (match bt_get o offset_map with Some x => Ok x | None => Err InvalidSection end).

Definition fixup_auipc (offset_map : BTreeMap Z) (code : list Z) (e : Z * Z) : Res (Result (list Z) LinkError) :=
  let* na := remap offset_map (fst e) in
  let* nt := remap offset_map (snd e) in
  if zlen code <? na + 4 then Ret (Ok code)
  else
    let! w := word_at code na in
    if negb (opcode_of w =? OP_AUIPC) then Ret (Err InvalidSection)
    else let! c := put_at code na (to_le_bytes 4 (hi20_word w (wrap 32 (nt - na)) OP_AUIPC)) in Ret (Ok c).

Definition fixup_lo12 (offset_map : BTreeMap Z) (code : list Z) (e : Z * Z * Z) : Res (Result (list Z) LinkError) :=
  let '(lo12_off, auipc_off, target_off) := e in
  let* nl := remap offset_map lo12_off in
  let* na := remap offset_map auipc_off in
  let* nt := remap offset_map target_off in
  if zlen code <? nl + 4 then Ret (Ok code)
  else let! c := patch_lo12 code nl (sign_bits 12 (nt - na)) in Ret (Ok c).

Definition fixup_code_pcrel (code : list Z) (offset_map code_auipc : BTreeMap Z) (code_lo12 : list (Z * Z * Z)) :
  Res (Result (list Z) LinkError) :=
  let* c := try_fold (fixup_auipc offset_map) code code_auipc in
  try_fold (fixup_lo12 offset_map) c code_lo12.

(** ** Host-call markers *)

Definition funct3_of (w : Z) : Z := Z.land (Z.shiftr w 12) 7.
Definition is_marker (w : Z) : bool :=
  let csr := Z.land (Z.shiftr w 20) 0xFFF in
  (opcode_of w =? OP_SYSTEM) && (funct3_of w =? 1) && ((csr =? CSR_ECALL_JAR) || (csr =? CSR_ECALLI)).
Definition marker_call (w : Z) : Z :=
  if Z.land (Z.shiftr w 20) 0xFFF =? CSR_ECALL_JAR then encode_custom0_ecall_jar else encode_custom0_ecalli 0.

(** The scan of the code from an instruction boundary on. *)
Fixpoint rewrite_ecall_markers (code : list Z) : list Z :=
  match code with
  | b0 :: b1 :: r =>
      if negb (is_full_length (from_le_bytes [b0; b1])) then b0 :: b1 :: rewrite_ecall_markers r
      else
        match r with
        | b2 :: b3 :: r' =>
            let word := from_le_bytes [b0; b1; b2; b3] in
            if is_marker word then
              match r' with
              | c0 :: c1 :: c2 :: c3 :: r'' =>
                  let nxt := from_le_bytes [c0; c1; c2; c3] in
                  if is_full_length nxt && is_standard_ecall nxt
                  then NOP_BYTES ++ to_le_bytes 4 (marker_call word) ++ rewrite_ecall_markers r''
                  else NOP_BYTES ++ rewrite_ecall_markers r'
              | _ => NOP_BYTES ++ rewrite_ecall_markers r'
              end
            else if (opcode_of word =? OP_SYSTEM) && (funct3_of word =? 0) && is_standard_ecall word
            then to_le_bytes 4 (encode_custom0_ecalli 0) ++ rewrite_ecall_markers r'
            else b0 :: b1 :: b2 :: b3 :: rewrite_ecall_markers r'
        | _ => code
        end
  | _ => code
  end.

(** ** Validation *)

Record RegFields : Type := mkRegFields { rf_rd : bool; rf_rs1 : bool; rf_rs2 : bool }.
Definition REG_NONE : RegFields := mkRegFields false false false.

Definition reg_fields_for (opcode : Z) : RegFields :=
  match opcode with
  | 0x33 | 0x3B => mkRegFields true true true
  | 0x03 => mkRegFields true true false
  | 0x13 | 0x1B | 0x67 => mkRegFields true true false
  | 0x23 => mkRegFields false true true
  | 0x63 => mkRegFields false true true
  | 0x37 | 0x17 => mkRegFields true false false
  | 0x6F => mkRegFields true false false
  | 0x0F => REG_NONE
  | 0x0B => mkRegFields true true false
  | _ => REG_NONE
  end.

(** The closure [check]: is the register one the linker emits? *)
Definition emitted_reg (r : Z) : bool := negb ((r =? 3) || (r =? 4) || (16 <=? r)).

Definition forbidden_opcode (opcode : Z) : bool :=
  (opcode =? OP_CUSTOM_1) || (opcode =? OP_SYSTEM) || (opcode =? 0x2F) || (opcode =? 0x07) ||
  (opcode =? 0x27) || (opcode =? 0x53).

(** The body of the loop on a four-byte instruction. *)
Definition validate_word (w : Z) : Result unit LinkError :=
  let opcode := opcode_of w in
  if forbidden_opcode opcode then Err InvalidSection
  else
    let rf := reg_fields_for opcode in
    let rd := Z.land (Z.shiftr w 7) 0x1F in
    let rs1 := Z.land (Z.shiftr w 15) 0x1F in
    let rs2 := Z.land (Z.shiftr w 20) 0x1F in
    if rf_rd rf && negb (emitted_reg rd) then Err InvalidSection
    else if rf_rs1 rf && negb (emitted_reg rs1) then Err InvalidSection
    else if rf_rs2 rf && negb (emitted_reg rs2) then Err InvalidSection
    else Ok tt.

Fixpoint validate_pvm2 (code : list Z) : Result unit LinkError :=
  match code with
  | b0 :: b1 :: r =>
      let lo16 := from_le_bytes [b0; b1] in
      if negb (is_full_length lo16) then
        if lo16 =? 0x9002 then Err InvalidSection else validate_pvm2 r
      else
        match r with
        | b2 :: b3 :: r' => let? _ := validate_word (from_le_bytes [b0; b1; b2; b3]) in validate_pvm2 r'
        | _ => Ok tt
        end
  | _ => Ok tt
  end.

(** ** Endpoint descriptors *)

Definition DESCRIPTOR_SIZE : Z := 16.
Definition ENDPOINTS_SECTION : list Z := bytes_of ".nub.endpoints"%string.

(** [s.chunks(n)]: the last chunk may be short. *)
Fixpoint chunks_from (fuel : nat) (n : Z) (s : list Z) : list (list Z) :=
  match fuel, s with
  | S fuel', _ :: _ => take (Z.to_nat n) s :: chunks_from fuel' n (drop (Z.to_nat n) s)
  | _, _ => []
  end.
Definition chunks (n : Z) (s : list Z) : list (list Z) := chunks_from (length s) n s.

Definition byte_at (s : list Z) (i : nat) : Res Z := expect (s !! i).

Definition read_descriptor (base_vaddr code_len : Z) (m : BTreeMap Endpoint) (chunk : list Z) :
  Res (Result (BTreeMap Endpoint) LinkError) :=
  let! fn_ptr := field chunk 0 8 in
  let! index := byte_at chunk 8 in
  let! arg_regs := byte_at chunk 9 in
  let! meta := byte_at chunk 10 in
  if (fn_ptr <? base_vaddr) || (wrapping_add 64 base_vaddr code_len <=? fn_ptr) then Ret (Err InvalidSection)
  else
    let '(m', old) := bt_insert index (mkEndpoint (fn_ptr - base_vaddr) arg_regs meta []) m in
    match old with Some _ => Ret (Err InvalidSection) | None => Ret (Ok m') end.

Definition read_section_descriptors (base_vaddr code_len : Z) (m : BTreeMap Endpoint) (s : list Z) :
  Res (Result (BTreeMap Endpoint) LinkError) :=
  if negb (zlen s mod DESCRIPTOR_SIZE =? 0) then Ret (Err InvalidSection)
  else try_fold (read_descriptor base_vaddr code_len) m (chunks DESCRIPTOR_SIZE s).

Definition read_endpoint_descriptors (elf_data : list Z) (base_vaddr code_len : Z) :
  Res (Result (BTreeMap Endpoint) LinkError) :=
  let* sections := find_all_section_bytes elf_data ENDPOINTS_SECTION in
  let* m := try_fold (read_section_descriptors base_vaddr code_len) [] sections in
  match m with [] => Ret (Err InvalidSection) | _ => Ret (Ok m) end.

(** ** Injection of block boundaries *)

(** Whether a two-byte instruction ends a block, and its jump displacement. *)
Definition classify_half (lo : Z) : bool * option Z :=
  let op := Z.land lo 3 in
  let f3 := Z.land (Z.shiftr lo 13) 7 in
  if lo =? 0 then (true, None)
  else if (op =? 1) && (f3 =? 5) then (true, Some (decompress_cj_imm lo))
  else if (op =? 1) && ((f3 =? 6) || (f3 =? 7)) then (true, Some (decompress_cb_imm lo))
  else if (op =? 2) && (f3 =? 4) then
    let bit12 := Z.land (Z.shiftr lo 12) 1 in
    let rdrs1 := Z.land (Z.shiftr lo 7) 0x1F in
    let rs2 := Z.land (Z.shiftr lo 2) 0x1F in
    ((rs2 =? 0) && ((bit12 =? 1) || negb (rdrs1 =? 0)), None)
  else (false, None).

Definition classify_word (w : Z) : bool * option Z :=
  let opcode := opcode_of w in
  if opcode =? OP_JAL then (true, Some (imm_j w))
  else if opcode =? OP_JALR then (true, None)
  else if opcode =? 0x63 then (true, Some (imm_b w))
  else if opcode =? OP_CUSTOM_0 then (true, None)
  else (false, None).

Record Scan : Type := mkScan {
  inst_starts : list Z;
  post_terminator : list Z;
  static_edges : list (Z * Z);
}.

Definition scan_step (n pc len : Z) (k : bool * option Z) (s : Scan) : Scan :=
  let next_pc := pc + len in
  mkScan (inst_starts s)
    (if fst k && (next_pc <? n) then next_pc :: post_terminator s else post_terminator s)
    (match snd k with
     | Some imm => if (0 <=? pc + imm) && (pc + imm <? n) then static_edges s ++ [(pc, pc + imm)] else static_edges s
     | None => static_edges s
     end).

(** Pass 1, from the instruction boundary [pc] on; [rest] is the code there. *)
Fixpoint scan (n pc : Z) (rest : list Z) (s : Scan) : Res Scan :=
  match rest with
  | [] => Ret s
  | [_] => Abort
  | b0 :: b1 :: r =>
      let s := mkScan (inst_starts s ++ [pc]) (post_terminator s) (static_edges s) in
      let lo := from_le_bytes [b0; b1] in
      if negb (is_full_length lo) then scan n (pc + 2) r (scan_step n pc 2 (classify_half lo) s)
      else
        match r with
        | b2 :: b3 :: r' => scan n (pc + 4) r' (scan_step n pc 4 (classify_word (from_le_bytes [b0; b1; b2; b3])) s)
        | _ => Ret s
        end
  end.

Definition contains (l : list Z) (x : Z) : bool := existsb (Z.eqb x) l.

(** Pass 2: a [BTreeSet] of the targets that need a boundary. *)
Definition needs_inject (n : Z) (s : Scan) (extra_targets : list Z) : list Z :=
  let needed t := negb (contains (post_terminator s) t) && contains (inst_starts s) t in
  let add m t := if needed t then fst (bt_insert t tt m) else m in
  let from_edges := fold_left (fun m e => add m (snd e)) (static_edges s) [] in
  map fst (fold_left (fun m t => if t <? n then add m t else m) extra_targets from_edges).

Definition fallthrough_bytes : list Z := to_le_bytes 4 encode_custom0_fallthrough.

(** The inner loop of pass 3: emit a boundary for every entry at [old_pc]. *)
Fixpoint take_injects (old_pc : Z) (it : list Z) (new_code : list Z) : list Z * list Z :=
  match it with
  | inject_pc :: it' =>
      if inject_pc =? old_pc then take_injects old_pc it' (new_code ++ fallthrough_bytes) else (it, new_code)
  | [] => (it, new_code)
  end.

(** Pass 3, from the instruction starts that are left. *)
Fixpoint inject (code : list Z) (starts it new_code : list Z) (offset_map : BTreeMap Z) : Res (list Z * BTreeMap Z) :=
  match starts with
  | [] => Ret (new_code, offset_map)
  | old_pc :: starts' =>
      let '(it, new_code) := take_injects old_pc it new_code in
      let offset_map := fst (bt_insert old_pc (zlen new_code) offset_map) in
      let next_pc := match starts' with p :: _ => p | [] => zlen code end in
      let! bytes := slice code old_pc next_pc in
      inject code starts' it (new_code ++ bytes) offset_map
  end.

(** [(old_pc as i64 + imm as i64) as usize]. *)
Definition edge_target (pc imm : Z) : Z := wrap 64 (pc + imm).

(** Pass 4 on a two-byte jump or branch: [enc] re-encodes its displacement. *)
Definition retarget_half (enc : Z -> Z -> option Z) (m : BTreeMap Z) (old_pc new_pc lo old_imm : Z) (code : list Z) :
  Res (Result (list Z) LinkError) :=
  match bt_get (edge_target old_pc old_imm) m with
  | None => Ret (Err InvalidSection)
  | Some new_target =>
      let new_imm := new_target - new_pc in
      if new_imm =? old_imm then Ret (Ok code)
      else
        match enc lo (sext 32 new_imm) with
        | None => Ret (Err InvalidSection)
        | Some h => let! c := put_at code new_pc (to_le_bytes 2 h) in Ret (Ok c)
        end
  end.

(** Pass 4 on a four-byte jump or branch with a displacement of [bits] bits;
    one whose target has no new place is left as it is. *)
Definition retarget_word (enc : Z -> Z -> Z) (bits : Z) (m : BTreeMap Z) (old_pc new_pc w old_imm : Z) (code : list Z) :
  Res (Result (list Z) LinkError) :=
  match bt_get (edge_target old_pc old_imm) m with
  | None => Ret (Ok code)
  | Some new_target =>
      let new_imm := new_target - new_pc in
      if negb ((- 2 ^ bits <=? new_imm) && (new_imm <? 2 ^ bits)) then Ret (Err InvalidSection)
      else let! c := put_at code new_pc (to_le_bytes 4 (enc w (sext 32 new_imm))) in Ret (Ok c)
  end.

(** The body of pass 4 for the instruction that was at [old_pc]. *)
Definition retarget (m : BTreeMap Z) (code : list Z) (old_pc : Z) : Res (Result (list Z) LinkError) :=
  let! new_pc := expect (bt_get old_pc m) in
  let! lo := half_at code new_pc in
  if negb (is_full_length lo) then
    let op := Z.land lo 3 in
    let f3 := Z.land (Z.shiftr lo 13) 7 in
    if (op =? 1) && (f3 =? 5) then
      retarget_half encode_cj_imm m old_pc new_pc lo (decompress_cj_imm lo) code
    else if (op =? 1) && ((f3 =? 6) || (f3 =? 7)) then
      retarget_half encode_cb_imm m old_pc new_pc lo (decompress_cb_imm lo) code
    else Ret (Ok code)
  else
    let! w := word_at code new_pc in
    if opcode_of w =? OP_JAL then retarget_word encode_j_imm 20 m old_pc new_pc w (imm_j w) code
    else if opcode_of w =? 0x63 then retarget_word encode_b_imm 12 m old_pc new_pc w (imm_b w) code
    else Ret (Ok code).

Definition identity_map (starts : list Z) : BTreeMap Z :=
  fold_left (fun m p => fst (bt_insert p p m)) starts [].

(** The new code and the map from old to new instruction starts. *)
Definition align_branch_targets (code extra_targets : list Z) : Res (Result (list Z * BTreeMap Z) LinkError) :=
  let n := zlen code in
  let! s := scan n 0 code (mkScan [] [0] []) in
  match needs_inject n s extra_targets with
  | [] => Ret (Ok (code, identity_map (inst_starts s)))
  | it =>
      let! (new_code, offset_map) := inject code (inst_starts s) it [] [] in
      let* new_code := try_fold (retarget offset_map) new_code (inst_starts s) in
      Ret (Ok (new_code, offset_map))
  end.

(** ** Linking *)

Definition code_span (secs : list (Z * list Z)) (base_vaddr : Z) : Z :=
  fold_left (fun e s => let end_ := saturating_add 64 (fst s) (zlen (snd s)) in if e <? end_ then end_ else e)
    secs base_vaddr - base_vaddr.

(** Step 1: the base address and the concatenated code. *)
Definition concat_code (secs : list (Z * Z * list Z)) : Res (Result (Z * list Z) LinkError) :=
  match sort_by_addr (map (fun s => (snd (fst s), snd s)) secs) with
  | [] => Ret (Err InvalidSection)
  | ((base_vaddr, _) :: _) as sorted =>
      let! code := fold_left (fun acc s => let! c := acc in put_at c (fst s - base_vaddr) (snd s)) sorted
                     (Ret (replicate (Z.to_nat (code_span sorted base_vaddr)) 0)) in
      Ret (Ok (base_vaddr, code))
  end.

Definition vaddr_to_offset (base_vaddr code_len v : Z) : option Z :=
  if v <? base_vaddr then None else if code_len <=? v - base_vaddr then None else Some (v - base_vaddr).

Definition ok_or {A E : Type} (o : option A) (e : E) : Res (Result A E) :=
  Ret (match o with Some a => Ok a | None => Err e end).

(** The code references that stay relative to the program counter: [auipc]
    offset to target offset, and the low parts with anchor and target. *)
Record Pcrel : Type := mkPcrel { code_auipc : BTreeMap Z; code_lo12 : list (Z * Z * Z) }.

Definition add_auipc (p : Pcrel) (o t : Z) : Pcrel := mkPcrel (fst (bt_insert o t (code_auipc p))) (code_lo12 p).
Definition add_lo12 (p : Pcrel) (e : Z * Z * Z) : Pcrel := mkPcrel (code_auipc p) (code_lo12 p ++ [e]).

Definition data_target (target : Z) : Z := Z.land (wrapping_add 64 target DATA_BASE) 0xFFFFFFFF.

Section Relocate.
Context (base_vaddr code_len : Z) (is_code_addr : Z -> bool).

Definition place_of (v : Z) : option Z := vaddr_to_offset base_vaddr code_len v.

Definition resolve_call (code : list Z) (p : Pcrel) (e : Z * Z) : Res (Result Pcrel LinkError) :=
  let '(call_v, target) := e in
  let* auipc_off := ok_or (place_of call_v) InvalidSection in
  let* target_off := ok_or (place_of target) InvalidSection in
  let* _ := expect_auipc code auipc_off in
  let p := add_auipc p auipc_off target_off in
  match place_of (wrapping_add 64 call_v 4) with
  | Some jalr_off => Ret (Ok (add_lo12 p (jalr_off, auipc_off, target_off)))
  | None => Ret (Ok p)
  end.

Definition resolve_hi20 (st : list Z * Pcrel) (e : Z * Z) : Res (Result (list Z * Pcrel) LinkError) :=
  let '(code, p) := st in
  let '(hi20_v, target) := e in
  let* auipc_off := ok_or (place_of hi20_v) InvalidSection in
  if is_code_addr target then
    let* target_off := ok_or (place_of target) InvalidSection in
    let* _ := expect_auipc code auipc_off in
    Ret (Ok (code, add_auipc p auipc_off target_off))
  else
    let* code := fold_auipc_to_lui code auipc_off (data_target target) in
    Ret (Ok (code, p)).

Definition resolve_lo12 (lo12_hi : OrdMap Z Z) (st : list Z * Pcrel) (e : Z * Z) : Res (list Z * Pcrel) :=
  let '(code, p) := st in
  let '(lo_v, target) := e in
  match place_of lo_v with
  | None => Ret st
  | Some lo_off =>
      if zlen code <? lo_off + 4 then Ret st
      else if is_code_addr target then
        match om_get lo_v lo12_hi with
        | Some hi20_v =>
            match place_of hi20_v, place_of target with
            | Some auipc_off, Some target_off => Ret (code, add_lo12 p (lo_off, auipc_off, target_off))
            | _, _ => Ret st
            end
        | None => Ret st
        end
      else let! code := patch_lo12_abs code lo_off (data_target target) in Ret (code, p)
  end.

End Relocate.

(** The target offset of a descriptor, before injection. *)
Definition endpoint_entry (base_vaddr : Z) (chunk : list Z) : option Z :=
  if zlen chunk <? 8 then None
  else
    let fn_ptr := from_le_bytes (take 8 chunk) in
    if fn_ptr <? base_vaddr then None else Some (fn_ptr - base_vaddr).

Definition endpoint_entries_pre (elf_data : list Z) (base_vaddr : Z) : Res (list Z) :=
  let! r := find_all_section_bytes elf_data ENDPOINTS_SECTION in
  Ret (match r with
       | Ok sections => omap (endpoint_entry base_vaddr) (concat (map (chunks 16) sections))
       | Err _ => []
       end).

Definition rodata_targets_pre (base_vaddr : Z) (is_code_addr : Z -> bool) (ptrs : list (Z * Z * Z)) : list Z :=
  omap (fun p => let rv_target := snd (fst p) in
                 if is_code_addr rv_target then Some (wrapping_sub 64 rv_target base_vaddr) else None) ptrs.

Definition translate_code_addr (base_vaddr : Z) (offset_map : BTreeMap Z) (rv_target : Z) : Z :=
  let pre := wrapping_sub 64 rv_target base_vaddr in
  wrapping_add 32 CODE_BASE (wrap 32 (default pre (bt_get pre offset_map))).

Section Pointers.
Context (elf : LinkedElf) (translate : Z -> Z).

Definition is_code_addr (addr : Z) : bool := in_ranges (code_ranges elf) addr.
Definition ro_base : Z := stack_size elf.

(** Step 5b: one recorded code pointer. *)
Definition rewrite_code_ptr (ro : list Z) (p : Z * Z * Z) : Res (list Z) :=
  let '(data_vaddr, rv_target, size) := p in
  if contains (map fst (sub32_relocs elf)) data_vaddr then Ret ro
  else if negb (is_code_addr rv_target) then Ret ro
  else if data_vaddr <? ro_base then Ret ro
  else
    let off := data_vaddr - ro_base in
    match size with
    | 4 => place_bytes ro off 4 (to_le_bytes 4 (translate rv_target))
    | 8 => place_bytes ro off 8 (to_le_bytes 8 (translate rv_target))
    | _ => Ret ro
    end.

(** Step 5b: every aligned eight bytes that read as a code address; [rest] is
    the data from [off] on. *)
Fixpoint rewrite_lookalikes (off : Z) (rest : list Z) : list Z :=
  match rest with
  | b0 :: b1 :: b2 :: b3 :: b4 :: b5 :: b6 :: b7 :: r =>
      let val := from_le_bytes [b0; b1; b2; b3; b4; b5; b6; b7] in
      (if is_code_addr val && negb (contains (map (fun p => fst (fst p)) (abs_code_ptrs elf)) (wrapping_add 64 ro_base off))
       then to_le_bytes 8 (translate val) else [b0; b1; b2; b3; b4; b5; b6; b7]) ++
      rewrite_lookalikes (off + 8) r
  | _ => rest
  end.

Definition rewrite_code_ptrs (ro : list Z) : Res (list Z) :=
  let! ro := fold_left (fun acc p => let! ro := acc in rewrite_code_ptr ro p) (abs_code_ptrs elf) (Ret ro) in
  Ret (rewrite_lookalikes 0 ro).

(** Step 5c: one pointer from data into data. *)
Definition relocate_data_ptr (st : list Z * list Z) (p : Z * Z * Z) : Res (Result (list Z * list Z) LinkError) :=
  let '(ro, rw) := st in
  let '(data_vaddr, target, n) := p in
  let bytes := slice (to_le_bytes 8 (wrapping_add 64 target DATA_BASE)) 0 n in
  let ro_off := data_vaddr - ro_base in
  let rw_off := data_vaddr - rw_base elf in
  if (ro_base <=? data_vaddr) && (wrapping_add 64 ro_off n <=? zlen ro) then
    let! bytes := bytes in
    let! ro := place_bytes ro ro_off n bytes in Ret (Ok (ro, rw))
  else if (rw_base elf <=? data_vaddr) && (wrapping_add 64 rw_off n <=? zlen rw) then
    let! bytes := bytes in
    let! rw := place_bytes rw rw_off n bytes in Ret (Ok (ro, rw))
  else Ret (Err InvalidSection).

End Pointers.

(** Step 6: the entry follows its instruction. *)
Definition remap_endpoint (offset_map : BTreeMap Z) (e : Endpoint) : Endpoint :=
  match bt_get (entry_pc e) offset_map with
  | Some new => mkEndpoint new (arg_registers e) (arg_meta e) (initial_regs e)
  | None => e
  end.

Definition seed_sp (top : Z) (e : Endpoint) : Endpoint :=
  mkEndpoint (entry_pc e) (arg_registers e) (arg_meta e) (fst (bt_insert SP_REG top (initial_regs e))).

(** [for def in endpoints.values_mut()]. *)
Definition map_values {V : Type} (f : V -> V) (m : BTreeMap V) : BTreeMap V := map (fun kv => (fst kv, f (snd kv))) m.

Definition region_geometry (elf : LinkedElf) (ro rw : list Z) : Regions :=
  mkRegions (stack_size elf / ABI_PAGE_SIZE)
    (div_ceil (wrap 32 (zlen ro)) ABI_PAGE_SIZE) (div_ceil (wrap 32 (zlen rw)) ABI_PAGE_SIZE) (le_heap_pages elf).

(** Steps 2 and 3: the code with data references absolute and host calls
    rewritten, and the references that stay relative. *)
Definition relocate_code `{HashIter} (elf : LinkedElf) (base_vaddr : Z) (code : list Z) :
  Res (Result (list Z * Pcrel) LinkError) :=
  let n := zlen code in
  let isc := is_code_addr elf in
  let* p := try_fold (resolve_call base_vaddr n code) (mkPcrel [] []) (hash_iter 0 (call_targets elf)) in
  let* st := try_fold (resolve_hi20 base_vaddr n isc) (code, p) (hash_iter 1 (hi20_targets elf)) in
  let! (code, p) := fold_left (fun acc e => let! st := acc in resolve_lo12 base_vaddr n isc (lo12_to_hi20 elf) st e)
                      (hash_iter 2 (lo12_targets elf)) (Ret st) in
  Ret (Ok (rewrite_ecall_markers code, p)).

(** Steps 4 to 5: boundaries, displacements and validation. *)
Definition finish_code (code extra : list Z) (p : Pcrel) : Res (Result (list Z * BTreeMap Z) LinkError) :=
  let* (code, offset_map) := align_branch_targets code extra in
  let* code := fixup_code_pcrel code offset_map (code_auipc p) (code_lo12 p) in
  match validate_pvm2 code with
  | Err e => Ret (Err e)
  | Ok _ => Ret (Ok (code, offset_map))
  end.

Definition link_elf `{HashIter} (elf_data : list Z) : Res (Result ProgramBlob LinkError) :=
  let* elf := parse_linked_elf elf_data in
  let* (base_vaddr, code) := concat_code (code_sections elf) in
  let* (code, p) := relocate_code elf base_vaddr code in
  let! entries := endpoint_entries_pre elf_data base_vaddr in
  let extra := entries ++ rodata_targets_pre base_vaddr (is_code_addr elf) (abs_code_ptrs elf) ++
               map snd (code_auipc p) in
  let* (code, offset_map) := finish_code code extra p in
  let! ro := rewrite_code_ptrs elf (translate_code_addr base_vaddr offset_map) (le_ro_data elf) in
  let* (ro, rw) := try_fold (relocate_data_ptr elf) (ro, le_rw_data elf) (abs_data_ptrs elf) in
  let* eps := read_endpoint_descriptors elf_data base_vaddr (zlen code) in
  let eps := map_values (remap_endpoint offset_map) eps in
  let regions := region_geometry elf ro rw in
  let eps := map_values (seed_sp (stack_top regions)) eps in
  match blob_new code regions ro rw eps with
  | Ok b => Ret (Ok b)
  | Err e => Ret (Err (LinkInvalidProgram e))
  end.
