(* ===== verification/LinkBits.v ===== *)
(** Instruction words as the linker patches them: what the decoder makes of a
    re-encoded jump, branch or immediate, and how the linker's view of a word
    (does it end a block, where does it jump) compares with the decoder's.
    Source: the encoders and the classification in
    [src/nub/nub-linker/src/link.rs]. *)

From Stdlib Require Import ZArith Lia List Bool.
From stdpp Require Import base list numbers.
From S2P Require Import Prelude MachineInt Engine Instruction InstructionFacts Rvc Encode Predecode Link.
Open Scope Z_scope.

(** ** Jumps of decoded instructions *)

(** The displacement of a direct jump or branch. *)
Definition disp (i : Inst) : option Z :=
  match i with
  | Jal _ d | Beq _ _ d | Bne _ _ d | Blt _ _ d | Bge _ _ d | Bltu _ _ d | Bgeu _ _ d => Some d
  | _ => None
  end.

Definition set_disp (i : Inst) (d : Z) : Inst :=
  match i with
  | Jal rd _ => Jal rd d
  | Beq a b _ => Beq a b d
  | Bne a b _ => Bne a b d
  | Blt a b _ => Blt a b d
  | Bge a b _ => Bge a b d
  | Bltu a b _ => Bltu a b d
  | Bgeu a b _ => Bgeu a b d
  | _ => i
  end.

(** A reserved instruction panics whatever its bits are. *)
Definition erase (i : Inst) : Inst := match i with Reserved _ => Reserved 0 | _ => i end.

(** What [decode] makes of a whole word and of a halfword. *)
Definition dec32 (w : Z) : Inst := reserve_if_reserved_reg (decode_32 w) w.
Definition dec16 (h : Z) : Inst := reserve_if_reserved_reg (decompress h) h.

Lemma erase_reserve i j r s :
  erase i = erase j -> uses_reserved_reg i = uses_reserved_reg j ->
  erase (reserve_if_reserved_reg i r) = erase (reserve_if_reserved_reg j s).
Proof. intros E U. unfold reserve_if_reserved_reg. rewrite U. by destruct (uses_reserved_reg j). Qed.

Lemma set_disp_reserve i d r :
  erase (set_disp (reserve_if_reserved_reg i r) d) = erase (reserve_if_reserved_reg (set_disp i d) r).
Proof.
  unfold reserve_if_reserved_reg.
  assert (uses_reserved_reg (set_disp i d) = uses_reserved_reg i) as -> by by destruct i.
  by destruct (uses_reserved_reg i).
Qed.

Lemma set_disp_twice i d e : set_disp (set_disp i e) d = set_disp i d.
Proof. by destruct i. Qed.

(** ** Words as fields *)

Lemma word_of w :
  is_u 32 w ->
  exists opc a f3 b t, 0 <= opc < 128 /\ 0 <= a < 32 /\ 0 <= f3 < 8 /\ 0 <= b < 32 /\ 0 <= t < 4096 /\
    w = word opc a f3 b t.
Proof.
  unfold is_u, word. intros H.
  exists (w mod 128), (w / 128 mod 32), (w / 4096 mod 8), (w / 32768 mod 32), (w / 1048576). pows. dlia.
Qed.

Lemma land_shifted x m k : 0 <= k -> Z.land x (Z.shiftl m k) = Z.shiftl (Z.land (Z.shiftr x k) m) k.
Proof.
  intros Hk. apply Z.bits_inj'. intros n Hn. rewrite Z.land_spec, !Z.shiftl_spec by lia.
  destruct (Z.lt_ge_cases n k).
  - rewrite !(Z.testbit_neg_r _ (n - k)) by lia. by rewrite andb_false_r.
  - rewrite Z.land_spec, Z.shiftr_spec by lia. by replace (n - k + k) with n by lia.
Qed.

(** An or that fills a gap between the low [k] bits and the bits from [j] on. *)
Lemma lor_gap k j u z :
  0 <= k <= j -> u mod 2 ^ j < 2 ^ k -> z mod 2 ^ k = 0 -> 0 <= z < 2 ^ j -> Z.lor u z = u + z.
Proof.
  intros Hk Hu Hz Hr. pose proof (Z.mod_pos_bound u (2 ^ j) ltac:(lia)) as Hb.
  pose proof (Z_div_mod_eq_full u (2 ^ j)) as Eu.
  set (y := u mod 2 ^ j) in *. set (x := 2 ^ j * (u / 2 ^ j)) in *.
  assert (x mod 2 ^ j = 0) as Hx by (unfold x; rewrite Z.mul_comm; apply Z_mod_mult).
  rewrite Eu. clearbody x y. clear Eu.
  assert (2 ^ k <= 2 ^ j) by (apply Z.pow_le_mono_r; lia).
  assert (0 < 2 ^ k) by lia.
  assert (exists q, z = 2 ^ k * q) as [q ->] by (exists (z / 2 ^ k); apply Z_div_exact_full_2; lia).
  assert (2 ^ j = 2 ^ k * 2 ^ (j - k)) as Ej by (rewrite <- Z.pow_add_r by lia; f_equal; lia).
  assert (0 < 2 ^ (j - k)) by lia.
  rewrite <- (lor_disjoint j x y) by (done || lia). rewrite <- Z.lor_assoc, (Z.lor_comm y).
  rewrite (lor_disjoint k (2 ^ k * q) y) by (rewrite 1?Z.mul_comm, 1?Z_mod_mult; lia).
  assert (q < 2 ^ (j - k)) by (apply (Z.mul_lt_mono_pos_l (2 ^ k)); lia).
  assert (0 <= q) by (apply (Z.mul_le_mono_pos_l _ _ (2 ^ k)); lia).
  assert (2 ^ k * (q + 1) <= 2 ^ k * 2 ^ (j - k)) by (apply Z.mul_le_mono_nonneg_l; lia).
  assert (0 <= 2 ^ k * q) by nia.
  rewrite !(lor_disjoint j) by (done || lia). lia.
Qed.

(** The innermost [Z.lor], with [lor_gap]. *)
Ltac gap_at k j := match goal with
  | |- context [Z.lor ?x ?y] =>
      lazymatch x with context [Z.lor _ _] => fail | _ => idtac end;
      rewrite (lor_gap k j x y) by (pows; dlia)
  end.

Section Fields.
  Context (opc a f3 b t : Z).
  Context (Hopc : 0 <= opc < 128) (Ha : 0 <= a < 32) (Hf3 : 0 <= f3 < 8) (Hb : 0 <= b < 32) (Ht : 0 <= t < 4096).
  #[local] Abbreviation w := (word opc a f3 b t).

Lemma opcode_word : opcode_of w = opc.
Proof using Hopc Ha Hf3 Hb Ht. unfold opcode_of, word. masks. pows. dlia. Qed.

(** The mask of the fields an S-type or B-type immediate leaves alone. *)
Lemma land_store_mask : Z.land w 0x01FFF07F = word opc 0 f3 b (t mod 32).
Proof using Hopc Ha Hf3 Hb Ht.
  change 0x01FFF07F with (Z.lor (Z.shiftl 0x1FFF 12) 0x7F).
  rewrite Z.land_lor_distr_r, land_shifted by lia.
  masks. rewrite Z.shiftr_div_pow2, Z.shiftl_mul_pow2 by lia. unfold word.
  lor_at 12. pows. dlia.
Qed.

Lemma patch_imm_i_word imm : patch_imm_i w imm = word opc a f3 b (imm mod 4096).
Proof using Hopc Ha Hf3 Hb Ht.
  unfold patch_imm_i, word. masks. unfold wrap at 2. rewrite !wrap_shiftl by (pows; dlia).
  rewrite Z.lor_comm. lor_at 20. unfold wrap. pows. dlia.
Qed.

Lemma patch_imm_s_word imm :
  patch_imm_s w imm = word opc (imm mod 32) f3 b (32 * (imm / 32 mod 128) + t mod 32).
Proof using Hopc Ha Hf3 Hb Ht.
  unfold patch_imm_s. rewrite land_store_mask. cbv zeta. masks. rewrite !Z.shiftr_div_pow2 by lia.
  unfold wrap at 2 4. rewrite !wrap_shiftl by (pows; dlia).
  rewrite (Z.lor_comm (word _ _ _ _ _)). unfold word. lor_at 25.
  gap_at 7 12. pows. dlia.
Qed.

Lemma encode_b_word imm :
  encode_b_imm w imm =
  word opc (2 * (imm / 2 mod 16) + imm / 2048 mod 2) f3 b
    (2048 * (imm / 4096 mod 2) + 32 * (imm / 32 mod 64) + t mod 32).
Proof using Hopc Ha Hf3 Hb Ht.
  unfold encode_b_imm. rewrite land_store_mask. cbv zeta. masks. rewrite !Z.shiftr_div_pow2 by lia.
  replace (wrap 32 imm / 2 ^ 12 mod 2 ^ 1) with (imm / 4096 mod 2) by (unfold wrap; pows; dlia).
  replace (wrap 32 imm / 2 ^ 11 mod 2 ^ 1) with (imm / 2048 mod 2) by (unfold wrap; pows; dlia).
  replace (wrap 32 imm / 2 ^ 5 mod 2 ^ 6) with (imm / 32 mod 64) by (unfold wrap; pows; dlia).
  replace (wrap 32 imm / 2 ^ 1 mod 2 ^ 4) with (imm / 2 mod 16) by (unfold wrap; pows; dlia).
  rewrite !wrap_shiftl by (pows; dlia).
  rewrite (Z.lor_comm (word _ _ _ _ _)). unfold word. lor_at 31.
  gap_at 25 31. gap_at 8 12. gap_at 7 8. pows. dlia.
Qed.

(** A jump keeps its destination only. *)
Lemma encode_j_word imm :
  encode_j_imm w imm =
  word OP_JAL a (imm / 4096 mod 8) (imm / 32768 mod 32)
    (2048 * (imm / 1048576 mod 2) + 2 * (imm / 2 mod 1024) + imm / 2048 mod 2).
Proof using Hopc Ha Hf3 Hb Ht.
  unfold encode_j_imm. rewrite word_rd by done. cbv zeta. masks. rewrite !Z.shiftr_div_pow2 by lia.
  replace (wrap 32 imm / 2 ^ 20 mod 2 ^ 1) with (imm / 1048576 mod 2) by (unfold wrap; pows; dlia).
  replace (wrap 32 imm / 2 ^ 1 mod 2 ^ 10) with (imm / 2 mod 1024) by (unfold wrap; pows; dlia).
  replace (wrap 32 imm / 2 ^ 11 mod 2 ^ 1) with (imm / 2048 mod 2) by (unfold wrap; pows; dlia).
  replace (wrap 32 imm / 2 ^ 12 mod 2 ^ 8) with (imm / 4096 mod 256) by (unfold wrap; pows; dlia).
  rewrite !wrap_shiftl by (pows; dlia). unfold OP_JAL.
  lor_at 31. lor_at 21. lor_at 20. lor_at 12. lor_at 7. unfold word. pows. dlia.
Qed.

(** The upper twenty bits of [v], rounded for a signed low part. *)
Lemma hi20_word_word v op :
  0 <= op < 128 -> hi20_word w v op = op + 128 * a + 4096 * ((v + 2048) / 4096 mod 1048576).
Proof using Hopc Ha Hf3 Hb Ht.
  intros. unfold hi20_word. rewrite word_rd by done. cbv zeta.
  rewrite land_hi20. masks. rewrite Z.shiftr_div_pow2, !Z.shiftl_mul_pow2 by lia.
  lor_at 12. lor_at 7. unfold wrapping_add, wrap. pows. dlia.
Qed.
End Fields.

(** ** Re-encoded jumps and branches *)

Lemma link_imm_j w : imm_j w = Instruction.imm_j w.
Proof. unfold imm_j, Instruction.imm_j. cbv zeta. by rewrite sx32_sext by lia. Qed.
Lemma link_imm_b w : imm_b w = Instruction.imm_b w.
Proof. unfold imm_b, Instruction.imm_b. cbv zeta. by rewrite sx32_sext by lia. Qed.

Lemma word_imm_j opc a f3 b t :
  0 <= opc < 128 -> 0 <= a < 32 -> 0 <= f3 < 8 -> 0 <= b < 32 -> 0 <= t < 4096 ->
  imm_j (word opc a f3 b t) =
  sext 21 (1048576 * (t / 2048) + 4096 * (f3 + 8 * b) + 2048 * (t mod 2) + 2 * (t / 2 mod 1024)).
Proof.
  intros. unfold imm_j, sign_bits. cbv zeta. f_equal. unfold word.
  masks. rewrite !Z.shiftr_div_pow2, !Z.shiftl_mul_pow2 by lia.
  lor_at 20. lor_at 12. lor_at 11. pows. dlia.
Qed.

Lemma sext_of w x y : 1 <= w -> is_i w x -> y mod 2 ^ w = x mod 2 ^ w -> sext w y = x.
Proof.
  intros Hw Hx E. rewrite <- (sext_wrap w y), <- (sext_id w x) by done. unfold wrap. rewrite E.
  by rewrite <- (sext_wrap w x) by done.
Qed.

(** The side conditions of the [word] lemmas and of encoded displacements. *)
Ltac in_fields := unfold OP_JAL; first [lia | pows; dlia].

Lemma decode_32_jal a f3 b t :
  0 <= a < 32 -> 0 <= f3 < 8 -> 0 <= b < 32 -> 0 <= t < 4096 ->
  decode_32 (word OP_JAL a f3 b t) = Jal a (imm_j (word OP_JAL a f3 b t)).
Proof.
  intros. rewrite link_imm_j. unfold decode_32.
  rewrite word_len, word_major, word_rd, word_f3 by in_fields. done.
Qed.

(** A re-encoded [jal] is the same jump with the new displacement. *)
Lemma encode_j_imm_dec w d :
  is_u 32 w -> opcode_of w = OP_JAL -> - 2 ^ 20 <= d < 2 ^ 20 -> d mod 2 = 0 ->
  erase (dec32 (encode_j_imm w d)) = erase (set_disp (dec32 w) d) /\
  is_u 32 (encode_j_imm w d) /\ opcode_of (encode_j_imm w d) = OP_JAL /\ disp (decode_32 w) = Some (imm_j w).
Proof.
  intros Hw Ho Hd He. destruct (word_of w Hw) as (opc & a & f3 & b & t & Hopc & Ha & Hf3 & Hb & Ht & ->).
  rewrite opcode_word in Ho by done. subst opc. rewrite encode_j_word by done.
  assert (decode_32 (word OP_JAL a (d / 4096 mod 8) (d / 32768 mod 32)
    (2048 * (d / 1048576 mod 2) + 2 * (d / 2 mod 1024) + d / 2048 mod 2)) = Jal a d) as E.
  { rewrite decode_32_jal, word_imm_j by in_fields. f_equal. apply sext_of; [lia|unfold is_i; lia|]. pows. dlia. }
  rewrite opcode_word by in_fields. rewrite (decode_32_jal a f3 b t) by done. split; [|split; [|done]].
  - unfold dec32. rewrite set_disp_reserve. apply erase_reserve; rewrite E, (decode_32_jal a f3 b t) by done; done.
  - apply word_u32; in_fields.
Qed.

Lemma decode_32_branch a f3 b t :
  0 <= a < 32 -> 0 <= f3 < 8 -> 0 <= b < 32 -> 0 <= t < 4096 ->
  decode_32 (word 0x63 a f3 b t) =
  decode_branch b (t mod 32) f3 (imm_b (word 0x63 a f3 b t)) (word 0x63 a f3 b t).
Proof.
  intros. rewrite link_imm_b. unfold decode_32.
  rewrite word_len, word_major, word_rd, word_f3, word_rs1, word_rs2 by in_fields. done.
Qed.

Lemma decode_branch_disp rs1 rs2 f3 d e w w' :
  erase (decode_branch rs1 rs2 f3 d w') = erase (set_disp (decode_branch rs1 rs2 f3 e w) d) /\
  uses_reserved_reg (decode_branch rs1 rs2 f3 d w') = uses_reserved_reg (set_disp (decode_branch rs1 rs2 f3 e w) d) /\
  (disp (decode_branch rs1 rs2 f3 e w) = Some e \/ disp (decode_branch rs1 rs2 f3 e w) = None) /\
  is_terminator (decode_branch rs1 rs2 f3 e w) = true.
Proof. unfold decode_branch. repeat case_match; cbn; auto. Qed.

(** A re-encoded branch is the same branch with the new displacement. *)
Lemma encode_b_imm_dec w d :
  is_u 32 w -> opcode_of w = 0x63 -> - 2 ^ 12 <= d < 2 ^ 12 -> d mod 2 = 0 ->
  erase (dec32 (encode_b_imm w d)) = erase (set_disp (dec32 w) d) /\
  is_u 32 (encode_b_imm w d) /\ opcode_of (encode_b_imm w d) = 0x63 /\
  (disp (decode_32 w) = Some (imm_b w) \/ disp (decode_32 w) = None).
Proof.
  intros Hw Ho Hd He. destruct (word_of w Hw) as (opc & a & f3 & b & t & Hopc & Ha & Hf3 & Hb & Ht & ->).
  rewrite opcode_word in Ho by done. subst opc. rewrite encode_b_word by done.
  set (a' := 2 * (d / 2 mod 16) + d / 2048 mod 2). assert (0 <= a' < 32) as Ha' by (unfold a'; dlia).
  set (t' := 2048 * (d / 4096 mod 2) + 32 * (d / 32 mod 64) + t mod 32).
  assert (0 <= t' < 4096) as Ht' by (unfold t'; dlia).
  assert (imm_b (word 0x63 a' f3 b t') = d) as Ed.
  { rewrite link_imm_b, word_imm_b by in_fields. apply sext_of; [lia|unfold is_i; lia|].
    unfold a', t'. pows. dlia. }
  assert (t' mod 32 = t mod 32) as Et by (unfold t'; dlia).
  destruct (decode_branch_disp b (t mod 32) f3 d (imm_b (word 0x63 a f3 b t))
    (word 0x63 a f3 b t) (word 0x63 a' f3 b t')) as (E & U & Hdisp & _).
  rewrite opcode_word by done. rewrite (decode_32_branch a f3 b t) by done.
  split; [|split; [by apply word_u32|done]].
  unfold dec32. rewrite set_disp_reserve.
  apply erase_reserve; rewrite !decode_32_branch, Ed, Et by done; done.
Qed.

(** ** Re-encoded halfwords *)

Definition is_cj (h : Z) : bool := (Z.land h 3 =? 1) && (Z.land (Z.shiftr h 13) 7 =? 5).
Definition is_cb (h : Z) : bool :=
  (Z.land h 3 =? 1) && ((Z.land (Z.shiftr h 13) 7 =? 6) || (Z.land (Z.shiftr h 13) 7 =? 7)).

(** A halfword and the parts of it a new displacement keeps. *)
Definition half_agrees (h : Z) : bool :=
  (if is_cj h then (Z.land h 0xE003 =? 0xA001) && rvc_eqb (dec16 h) (Jal 0 (decompress_cj_imm h)) else true) &&
  (if is_cb h
   then let k := Z.land h 0xE383 in
        is_cb k && (Z.land k 0xE383 =? k) &&
        rvc_eqb (dec16 h) (set_disp (dec16 k) (decompress_cb_imm h))
   else true).

Lemma half_agrees_all : all_words 16 0 half_agrees = true.
Proof. vm_compute. reflexivity. Qed.

Definition cj_agrees (x : Z) : bool :=
  let d := sext 12 x in
  match encode_cj_imm 0xA001 d with
  | Some h => (0 <=? h) && (h <? 2 ^ 16) && is_cj h && rvc_eqb (dec16 h) (Jal 0 d)
  | None => negb (d mod 2 =? 0)
  end.

Lemma cj_agrees_all : all_words 12 0 cj_agrees = true.
Proof. vm_compute. reflexivity. Qed.

(** [x] holds the displacement (9 bits), the register (3) and the condition. *)
Definition cb_agrees (x : Z) : bool :=
  let d := sext 9 (Z.land x 0x1FF) in
  let k := Z.lor (Z.lor 0xC001 (Z.shiftl (Z.shiftr x 12) 13)) (Z.shiftl (Z.land (Z.shiftr x 9) 7) 7) in
  match encode_cb_imm k d with
  | Some h => (0 <=? h) && (h <? 2 ^ 16) && is_cb h && rvc_eqb (dec16 h) (set_disp (dec16 k) d)
  | None => negb (d mod 2 =? 0)
  end.

Lemma cb_agrees_all : all_words 13 0 cb_agrees = true.
Proof. vm_compute. reflexivity. Qed.

(** The sixteen kept parts, by condition and register. *)
Definition cb_kept_agrees (h : Z) : bool :=
  if is_cb h
  then Z.land h 0xE383 =? Z.lor (Z.lor 0xC001 (Z.shiftl (Z.land (Z.shiftr h 13) 1) 13)) (Z.shiftl (Z.land (Z.shiftr h 7) 7) 7)
  else true.

Lemma cb_kept_agrees_all : all_words 16 0 cb_kept_agrees = true.
Proof. vm_compute. reflexivity. Qed.

Lemma cj_not_full h : is_cj h = true -> is_full_length h = false.
Proof. unfold is_cj, is_full_length. intros H. apply andb_true_iff in H as [H _]. apply Z.eqb_eq in H. by rewrite H. Qed.
Lemma cb_not_full h : is_cb h = true -> is_full_length h = false.
Proof. unfold is_cb, is_full_length. intros H. apply andb_true_iff in H as [H _]. apply Z.eqb_eq in H. by rewrite H. Qed.

Lemma encode_cj_imm_dec h d h' :
  is_u 16 h -> is_cj h = true -> encode_cj_imm h d = Some h' ->
  dec16 h' = set_disp (dec16 h) d /\ is_u 16 h' /\ is_cj h' = true.
Proof.
  intros Hh C E. pose proof (all_words_spec 16 _ h half_agrees_all Hh) as A. unfold half_agrees in A.
  rewrite C in A. apply andb_true_iff in A as [A _]. apply andb_true_iff in A as [K A].
  apply rvc_eqb_eq in A. apply Z.eqb_eq in K. rewrite A. cbn [set_disp].
  assert (encode_cj_imm 0xA001 d = Some h') as E'.
  { rewrite <- E. unfold encode_cj_imm. rewrite K. done. }
  assert (- 2 ^ 11 <= d < 2 ^ 11) as Hd.
  { unfold encode_cj_imm in E. destruct (_ && _) eqn:R in E; [|done]. lia. }
  pose proof (all_words_spec 12 _ (wrap 12 d) cj_agrees_all (wrap_range 12 d ltac:(lia))) as B.
  unfold cj_agrees in B. rewrite sext_wrap, sext_id, E' in B by (unfold is_i; lia).
  rewrite !andb_true_iff in B. destruct B as [[[? ?] ?] B]. apply rvc_eqb_eq in B.
  split; [done|]. split; [unfold is_u; lia|done].
Qed.

Lemma encode_cb_imm_dec h d h' :
  is_u 16 h -> is_cb h = true -> encode_cb_imm h d = Some h' ->
  dec16 h' = set_disp (dec16 h) d /\ is_u 16 h' /\ is_cb h' = true.
Proof.
  intros Hh C E. pose proof (all_words_spec 16 _ h half_agrees_all Hh) as A. unfold half_agrees in A.
  rewrite C in A. apply andb_true_iff in A as [_ A]. cbv zeta in A. rewrite !andb_true_iff in A.
  destruct A as [[_ K] A]. apply rvc_eqb_eq in A. apply Z.eqb_eq in K.
  pose proof (all_words_spec 16 _ h cb_kept_agrees_all Hh) as F. unfold cb_kept_agrees in F.
  rewrite C in F. apply Z.eqb_eq in F.
  assert (encode_cb_imm (Z.land h 0xE383) d = Some h') as E'.
  { rewrite <- E. unfold encode_cb_imm. rewrite K. done. }
  assert (- 2 ^ 8 <= d < 2 ^ 8) as Hd.
  { unfold encode_cb_imm in E. destruct (_ && _) eqn:R in E; [|done]. lia. }
  set (c := Z.land (Z.shiftr h 13) 1) in *. set (r := Z.land (Z.shiftr h 7) 7) in *.
  assert (0 <= c < 2) as Hc by (unfold c; masks; dlia).
  assert (0 <= r < 8) as Hr by (unfold r; masks; pows; dlia).
  pose proof (all_words_spec 13 _ (4096 * c + 512 * r + wrap 9 d) cb_agrees_all) as B.
  pose proof (wrap_range 9 d ltac:(lia)) as Hw. unfold is_u in Hw.
  specialize (B ltac:(unfold is_u; lia)). unfold cb_agrees in B.
  replace (Z.land (4096 * c + 512 * r + wrap 9 d) 0x1FF) with (wrap 9 d) in B by (masks; pows; dlia).
  replace (Z.shiftr (4096 * c + 512 * r + wrap 9 d) 12) with c in B
    by (rewrite Z.shiftr_div_pow2 by lia; pows; dlia).
  replace (Z.land (Z.shiftr (4096 * c + 512 * r + wrap 9 d) 9) 7) with r in B
    by (masks; rewrite Z.shiftr_div_pow2 by lia; pows; dlia).
  rewrite sext_wrap, sext_id in B by (unfold is_i; lia). rewrite <- F, E' in B.
  rewrite !andb_true_iff in B. destruct B as [[[? ?] ?] B]. apply rvc_eqb_eq in B.
  rewrite B, A, set_disp_twice. split; [done|]. split; [unfold is_u; lia|done].
Qed.

(** The displacement the linker reads is the decoder's. *)
Definition half_disp_agrees (h : Z) : bool :=
  let reads d := match disp (dec16 h) with Some e => d =? e | None => false end in
  implb (is_cj h) (reads (decompress_cj_imm h)) && implb (is_cb h) (reads (decompress_cb_imm h)).

Lemma half_disp_agrees_all : all_words 16 0 half_disp_agrees = true.
Proof. vm_compute. reflexivity. Qed.

Lemma half_disp h :
  is_u 16 h ->
  (is_cj h = true -> disp (dec16 h) = Some (decompress_cj_imm h)) /\
  (is_cb h = true -> disp (dec16 h) = Some (decompress_cb_imm h)).
Proof.
  intros Hh. pose proof (all_words_spec 16 _ h half_disp_agrees_all Hh) as A. unfold half_disp_agrees in A.
  apply andb_true_iff in A as [J B]. split.
  - intros Hj. rewrite Hj in J. destruct (disp (dec16 h)); [|done]. by apply Z.eqb_eq in J as ->.
  - intros Hb. rewrite Hb in B. destruct (disp (dec16 h)); [|done]. by apply Z.eqb_eq in B as ->.
Qed.

(** ** The linker's classification *)

(** What the linker takes for a terminator is one, and it sees every direct
    jump the decoder sees. *)
Definition class_agrees (h : Z) : bool :=
  is_full_length h ||
  (implb (fst (classify_half h)) (is_terminator (dec16 h)) &&
   match disp (dec16 h), snd (classify_half h) with
   | Some d, Some e => (d =? e)
   | Some _, None => false
   | None, _ => true
   end &&
   implb (match disp (dec16 h) with Some _ => true | None => false end) (is_cj h || is_cb h)).

Lemma class_agrees_all : all_words 16 0 class_agrees = true.
Proof. vm_compute. reflexivity. Qed.

Lemma classify_half_dec h :
  is_u 16 h -> is_full_length h = false ->
  (fst (classify_half h) = true -> is_terminator (dec16 h) = true) /\
  (forall d, disp (dec16 h) = Some d -> snd (classify_half h) = Some d) /\
  (is_cj h = false -> is_cb h = false -> disp (dec16 h) = None).
Proof.
  intros Hh F. pose proof (all_words_spec 16 _ h class_agrees_all Hh) as A. unfold class_agrees in A.
  rewrite F in A. cbn [orb] in A. rewrite !andb_true_iff in A. destruct A as [[T D] J]. split; [|split].
  - intros Ht. by rewrite Ht in T.
  - intros d Hd. rewrite Hd in D. destruct (snd (classify_half h)); [|done]. by apply Z.eqb_eq in D as <-.
  - intros Hj Hb. rewrite Hj, Hb in J. by destruct (disp (dec16 h)).
Qed.

Lemma major_of w : is_u 32 w -> Z.land (Z.shiftr w 2) 0x1F = opcode_of w / 4 /\ Z.land w 3 = opcode_of w mod 4.
Proof.
  intros Hw. destruct (word_of w Hw) as (opc & a & f3 & b & t & Hopc & Ha & Hf3 & Hb & Ht & ->).
  by rewrite word_major, word_len, opcode_word by done.
Qed.

(** Away from the opcodes the linker classifies, nothing jumps. *)
Lemma decode_32_other w :
  is_u 32 w -> opcode_of w <> OP_JAL -> opcode_of w <> 0x63 -> disp (decode_32 w) = None.
Proof.
  intros Hw Hj Hb. destruct (major_of w Hw) as [M L]. unfold decode_32. rewrite L, M.
  destruct (Z.eqb_spec (opcode_of w mod 4) 3) as [H3|]; [|done]. cbn [negb].
  assert ((opcode_of w / 4 =? Instruction.OP_JAL) = false) as ->.
  { apply Z.eqb_neq. unfold Instruction.OP_JAL, OP_JAL in *. dlia. }
  assert ((opcode_of w / 4 =? OP_BRANCH) = false) as ->.
  { apply Z.eqb_neq. unfold OP_BRANCH. dlia. }
  unfold decode_load, decode_store, decode_op_imm, decode_op_imm_32, decode_op, decode_op_32, decode_misc_mem, decode_custom_0.
  repeat case_match; done.
Qed.

Lemma reserve_terminator i r : is_terminator i = true -> is_terminator (reserve_if_reserved_reg i r) = true.
Proof. unfold reserve_if_reserved_reg. by destruct (uses_reserved_reg i). Qed.

Lemma reserve_disp i r d : disp (reserve_if_reserved_reg i r) = Some d -> disp i = Some d.
Proof. unfold reserve_if_reserved_reg. by destruct (uses_reserved_reg i). Qed.

(** Jumps through a register and host operations end a block. *)
Lemma decode_32_indirect w :
  is_u 32 w -> opcode_of w = OP_JALR \/ opcode_of w = OP_CUSTOM_0 -> is_terminator (decode_32 w) = true.
Proof.
  intros Hw Ho. destruct (major_of w Hw) as [M L]. unfold decode_32. rewrite L, M.
  destruct Ho as [-> | ->]; cbn -[Z.land Z.shiftr].
  - by destruct (_ =? 0).
  - unfold decode_custom_0. repeat case_match; done.
Qed.

Lemma classify_word_dec w :
  is_u 32 w ->
  (fst (classify_word w) = true -> is_terminator (dec32 w) = true) /\
  (forall d, disp (dec32 w) = Some d -> snd (classify_word w) = Some d).
Proof.
  intros Hw. unfold classify_word.
  destruct (Z.eqb_spec (opcode_of w) OP_JAL) as [Hj|Hj].
  { destruct (encode_j_imm_dec w 0 Hw Hj ltac:(lia) eq_refl) as (_ & _ & _ & D). split.
    - intros _. apply reserve_terminator. by destruct (decode_32 w).
    - intros d Hd. apply reserve_disp in Hd. by rewrite <- D, <- Hd. }
  destruct (Z.eqb_spec (opcode_of w) 0x63) as [Hb|Hb].
  { rewrite Hb. cbn. destruct (encode_b_imm_dec w 0 Hw Hb ltac:(lia) eq_refl) as (_ & _ & _ & D). split.
    - intros _. apply reserve_terminator.
      destruct (word_of w Hw) as (opc & a & f3 & b & t & ? & ? & ? & ? & ? & ->).
      rewrite opcode_word in Hb by done. subst opc. rewrite decode_32_branch by done. by apply decode_branch_disp.
    - intros d Hd. apply reserve_disp in Hd. destruct D; congruence. }
  pose proof (decode_32_other w Hw Hj Hb) as D. split.
  - intros H. apply reserve_terminator, (decode_32_indirect w Hw).
    destruct (Z.eqb_spec (opcode_of w) OP_JALR); [by left|].
    destruct (Z.eqb_spec (opcode_of w) OP_CUSTOM_0); [by right|done].
  - intros d Hd. apply reserve_disp in Hd. congruence.
Qed.

(** ** Patched immediates *)

Lemma hi20_word_ok w v op :
  is_u 32 w -> 0 <= op < 128 -> is_u 32 (hi20_word w v op) /\ opcode_of (hi20_word w v op) = op.
Proof.
  intros Hw Hop. destruct (word_of w Hw) as (opc & a & f3 & b & t & Hopc & Ha & Hf3 & Hb & Ht & ->).
  rewrite hi20_word_word by done. split; [unfold is_u|unfold opcode_of; masks]; pows; dlia.
Qed.

Lemma patch_imm_i_ok w imm : is_u 32 w -> is_u 32 (patch_imm_i w imm) /\ opcode_of (patch_imm_i w imm) = opcode_of w.
Proof.
  intros Hw. destruct (word_of w Hw) as (opc & a & f3 & b & t & Hopc & Ha & Hf3 & Hb & Ht & ->).
  rewrite patch_imm_i_word by done. rewrite !opcode_word by dlia. split; [apply word_u32; dlia|done].
Qed.

Lemma patch_imm_s_ok w imm : is_u 32 w -> is_u 32 (patch_imm_s w imm) /\ opcode_of (patch_imm_s w imm) = opcode_of w.
Proof.
  intros Hw. destruct (word_of w Hw) as (opc & a & f3 & b & t & Hopc & Ha & Hf3 & Hb & Ht & ->).
  rewrite patch_imm_s_word by done. rewrite !opcode_word by dlia. split; [apply word_u32; dlia|done].
Qed.
