(* ===== verification/LinkAlign.v ===== *)
(** The alignment pass: what the code looks like after block boundaries have
    been injected and jumps re-encoded. The code is cut into instructions, each
    with its old and its new place; the passes of [align_branch_targets] are
    described on that list. Source: [src/nub/nub-linker/src/link.rs],
    [align_branch_targets]. *)

From Stdlib Require Import ZArith Lia List Bool Sorted.
From stdpp Require Import base list numbers.
From S2P Require Import Prelude MachineInt Engine Instruction InstructionFacts BTreeMap Ssz SszFacts Predecode Elf Link LinkBits.
Open Scope Z_scope.

(** ** Cutting code into instructions *)

(** Induction along instruction boundaries. *)
Lemma code_ind (P : list Z -> Prop) :
  P [] -> (forall b, P [b]) ->
  (forall b0 b1 r, is_full_length (from_le_bytes [b0; b1]) = false -> P r -> P (b0 :: b1 :: r)) ->
  (forall b0 b1 r, is_full_length (from_le_bytes [b0; b1]) = true -> (length r < 2)%nat -> P (b0 :: b1 :: r)) ->
  (forall b0 b1 b2 b3 r, is_full_length (from_le_bytes [b0; b1]) = true -> P r -> P (b0 :: b1 :: b2 :: b3 :: r)) ->
  forall l, P l.
Proof.
  intros H0 H1 H2 Ht H4 l. remember (length l) as n eqn:En. revert l En.
  induction n as [n IH] using lt_wf_ind. intros [|b0 [|b1 r]] ->; [done..|].
  destruct (is_full_length (from_le_bytes [b0; b1])) eqn:F.
  - destruct r as [|b2 [|b3 r]]; [apply Ht; cbn; lia || done..|].
    apply H4; [done|]. eapply IH; [|reflexivity]. cbn. lia.
  - apply H2; [done|]. eapply IH; [|reflexivity]. cbn. lia.
Qed.

(** The instructions of the code with their offsets; a last one may be cut
    short by the end of the code. *)
Fixpoint placed (pc : Z) (code : list Z) : list (Z * list Z) :=
  match code with
  | b0 :: b1 :: r =>
      if negb (is_full_length (from_le_bytes [b0; b1])) then (pc, [b0; b1]) :: placed (pc + 2) r
      else
        match r with
        | b2 :: b3 :: r' => (pc, [b0; b1; b2; b3]) :: placed (pc + 4) r'
        | _ => [(pc, code)]
        end
  | [] => []
  | _ => [(pc, code)]
  end.

(** What the linker sees in one instruction. *)
Definition classify_piece (c : list Z) : bool * option Z :=
  match c with
  | [b0; b1] => if is_full_length (from_le_bytes [b0; b1]) then (false, None) else classify_half (from_le_bytes [b0; b1])
  | [b0; b1; b2; b3] => classify_word (from_le_bytes [b0; b1; b2; b3])
  | _ => (false, None)
  end.

(** A complete instruction. *)
Definition whole (c : list Z) : Prop := exists i, decode c = Some (i, zlen c).

Lemma half_length b0 b1 b2 b3 :
  Z.land (from_le_bytes [b0; b1; b2; b3]) 3 = Z.land (from_le_bytes [b0; b1]) 3.
Proof.
  cbn [from_le_bytes]. change 3 with (2 ^ 2 - 1). rewrite !land_ones' by lia. change (2 ^ 2) with 4. dlia.
Qed.

Lemma whole_2 b0 b1 : is_full_length (from_le_bytes [b0; b1]) = false -> whole [b0; b1].
Proof. intros F. eexists. cbn [decode]. unfold is_full_length in F. by rewrite F. Qed.
Lemma whole_4 b0 b1 b2 b3 : is_full_length (from_le_bytes [b0; b1]) = true -> whole [b0; b1; b2; b3].
Proof. intros F. eexists. cbn [decode]. unfold is_full_length in F. by rewrite F. Qed.

Lemma placed_concat pc code : concat (map snd (placed pc code)) = code.
Proof.
  revert pc. induction code as [|b|b0 b1 r F IH|b0 b1 r F Hr|b0 b1 b2 b3 r F IH] using code_ind; intros pc;
    cbn [placed]; rewrite ?F; cbn; rewrite ?IH; try done.
  destruct r as [|b2 [|b3 r]]; [by rewrite ?app_nil_r..|cbn in Hr; lia].
Qed.

(** Offsets follow one another. *)
Fixpoint consecutive (pc : Z) (ps : list (Z * list Z)) : Prop :=
  match ps with
  | [] => True
  | (p, c) :: r => p = pc /\ c <> [] /\ consecutive (pc + zlen c) r
  end.

Lemma placed_consecutive pc code : consecutive pc (placed pc code).
Proof.
  revert pc. induction code as [|b|b0 b1 r F IH|b0 b1 r F Hr|b0 b1 b2 b3 r F IH] using code_ind; intros pc;
    cbn [placed]; rewrite ?F; cbn [negb consecutive]; try done.
  destruct r as [|b2 [|b3 r]]; [done..|cbn in Hr; lia].
Qed.

(** All but a last instruction are complete. *)
Lemma placed_whole pc code l p c r :
  placed pc code = l ++ (p, c) :: r -> (r <> [] -> whole c) /\ (whole c \/ decode c = None).
Proof.
  revert pc l. induction code as [|b|b0 b1 r' F IH|b0 b1 r' F Hr|b0 b1 b2 b3 r' F IH] using code_ind;
    intros pc l; cbn [placed]; rewrite ?F; cbn [negb].
  - by destruct l.
  - destruct l as [|? [|]]; intros [= <- <- <-]. split; [done|by right].
  - destruct l; intros [= <- E]; [subst|by eapply IH]. pose proof (whole_2 b0 b1 F). auto.
  - assert (decode (b0 :: b1 :: r') = None) as D.
    { cbn [decode]. unfold is_full_length in F. rewrite F. destruct r' as [|? [|]]; [done..|cbn in Hr; lia]. }
    destruct r' as [|b2 [|b3 r']]; [| |cbn in Hr; lia];
      (destruct l as [|? [|]]; intros [= <- <- <-]; split; [done|by right]).
  - destruct l; intros [= <- E]; [subst|by eapply IH]. pose proof (whole_4 b0 b1 b2 b3 F). auto.
Qed.

(** ** Pass 1 *)

(** What one instruction adds to the end points and to the edges. *)
Definition post_of (n : Z) (e : Z * list Z) : list Z :=
  let next := fst e + zlen (snd e) in if fst (classify_piece (snd e)) && (next <? n) then [next] else [].
Definition edges_of (n : Z) (e : Z * list Z) : list (Z * Z) :=
  match snd (classify_piece (snd e)) with
  | Some d => if (0 <=? fst e + d) && (fst e + d <? n) then [(fst e, fst e + d)] else []
  | None => []
  end.

(** What the scan has recorded when it has gone over [ps]. *)
Record scanned (n : Z) (ps : list (Z * list Z)) (s s' : Scan) : Prop := {
  sc_starts : inst_starts s' = inst_starts s ++ map fst ps;
  sc_post : forall x, In x (post_terminator s') <-> In x (post_terminator s) \/ In x (flat_map (post_of n) ps);
  sc_edges : static_edges s' = static_edges s ++ flat_map (edges_of n) ps;
}.

Lemma scanned_nil n s : scanned n [] s s.
Proof. split; cbn; [by rewrite app_nil_r|naive_solver|by rewrite app_nil_r]. Qed.

Lemma scanned_step n pc c ps s s' :
  scanned n ps (scan_step n pc (zlen c) (classify_piece c)
    (mkScan (inst_starts s ++ [pc]) (post_terminator s) (static_edges s))) s' ->
  scanned n ((pc, c) :: ps) s s'.
Proof.
  intros [St Po Ed]. split; cbn [scan_step inst_starts post_terminator static_edges] in *.
  - rewrite St, <- app_assoc. done.
  - intros x. rewrite Po. cbn [flat_map]. rewrite in_app_iff. unfold post_of at 2. cbn [fst snd].
    destruct (_ && _); cbn [In]; tauto.
  - rewrite Ed. clear St Po Ed. cbn [flat_map]. unfold edges_of at 2. cbn [fst snd].
    destruct (snd (classify_piece c)); [|done]. destruct (_ && _); [by rewrite <- app_assoc|done].
Qed.

Lemma scan_spec n pc rest s s' : scan n pc rest s = Ret s' -> scanned n (placed pc rest) s s'.
Proof.
  revert pc s. induction rest as [|b|b0 b1 r F IH|b0 b1 r F Hr|b0 b1 b2 b3 r F IH] using code_ind; intros pc s;
    cbn [scan placed]; rewrite ?F; cbn [negb].
  - intros [= <-]. apply scanned_nil.
  - done.
  - intros H. apply IH in H. apply scanned_step. cbn [classify_piece]. by rewrite F.
  - assert (classify_piece (b0 :: b1 :: r) = (false, None)) as K.
    { destruct r as [|b2 [|b3 r]]; [cbn [classify_piece]; by rewrite F|done|cbn in Hr; lia]. }
    destruct r as [|b2 [|b3 r]]; [| |cbn in Hr; lia]; intros [= <-];
      apply scanned_step; rewrite K; apply scanned_nil.
  - intros H. apply IH in H. by apply scanned_step.
Qed.

(** ** Pass 2 *)

Lemma contains_In l x : contains l x = true <-> In x l.
Proof.
  unfold contains. rewrite existsb_exists. split.
  - intros (y & ? & E). by apply Z.eqb_eq in E as ->.
  - intros. exists x. by rewrite Z.eqb_refl.
Qed.

Lemma bt_insert_keys {V : Type} k (v : V) m x :
  In x (map fst (fst (bt_insert k v m))) <-> x = k \/ In x (map fst m).
Proof.
  induction m as [|[k' v'] m IH]; cbn [bt_insert]; [cbn; naive_solver|].
  destruct (Z.ltb_spec k k'); [cbn; naive_solver|]. destruct (Z.eqb_spec k k') as [->|]; [cbn; naive_solver|].
  destruct (bt_insert k v m) as [m'' o]. cbn in *. rewrite IH. tauto.
Qed.

(** A set filled by a loop. *)
Lemma fold_add {A : Type} (f : A -> bool) (g : A -> Z) (l : list A) (m : BTreeMap unit) :
  let m' := fold_left (fun m a => if f a then fst (bt_insert (g a) tt m) else m) l m in
  (bt_ok m -> bt_ok m') /\
  forall x, In x (map fst m') <-> In x (map fst m) \/ exists a, In a l /\ f a = true /\ g a = x.
Proof.
  revert m. induction l as [|a l IH]; intros m m'; [cbn; naive_solver|].
  destruct (IH (if f a then fst (bt_insert (g a) tt m) else m)) as [Hok Hk]. split.
  - intros. apply Hok. destruct (f a); [by apply bt_insert_ok|done].
  - intros x. etrans; [apply Hk|]. destruct (f a) eqn:Fa; [rewrite bt_insert_keys|]; cbn [In].
    + split; [intros [[->|?]|(b & ? & ? & ?)]|intros [?|(b & [->|?] & ? & <-)]]; eauto 6.
    + split; [intros [?|(b & ? & ? & ?)]|intros [?|(b & [->|?] & ? & <-)]]; eauto 6. congruence.
Qed.

Lemma fold_left_ext {A B : Type} (f g : A -> B -> A) l a :
  (forall a b, f a b = g a b) -> fold_left f l a = fold_left g l a.
Proof. intros E. revert a. induction l as [|b l IH]; intros a; cbn; [done|]. by rewrite E, IH. Qed.

(** The boundaries to inject: in order, and exactly the targets that start an
    instruction and do not follow a terminator. *)
Lemma needs_inject_spec n s extra :
  StronglySorted Z.lt (needs_inject n s extra) /\
  forall x, In x (needs_inject n s extra) <->
    (In x (map snd (static_edges s)) \/ In x extra /\ x < n) /\
    ~ In x (post_terminator s) /\ In x (inst_starts s).
Proof.
  unfold needs_inject.
  set (needed t := negb (contains (post_terminator s) t) && contains (inst_starts s) t).
  assert (forall x, needed x = true <-> ~ In x (post_terminator s) /\ In x (inst_starts s)) as Hn.
  { intros x. unfold needed. rewrite andb_true_iff, negb_true_iff, <- not_true_iff_false, !contains_In. done. }
  destruct (fold_add (fun e : Z * Z => needed (snd e)) snd (static_edges s) []) as [Ok1 K1].
  set (m1 := fold_left (fun (m : BTreeMap unit) (e : Z * Z) => if needed (snd e) then fst (bt_insert (snd e) tt m) else m)
               (static_edges s) []) in *.
  destruct (fold_add (fun t => (t <? n) && needed t) id extra m1) as [Ok2 K2].
  rewrite (fold_left_ext _ (fun m a => if (a <? n) && needed a then fst (bt_insert (id a) tt m) else m) extra m1)
    by (intros m a; by destruct (a <? n)).
  split; [apply Ok2, Ok1; constructor|]. intros x. rewrite K2, K1. cbn [map In].
  split.
  - intros [[[]|(e & He & Hx & <-)]|(t & Ht & Hx & <-)].
    + apply Hn in Hx. split; [left; by apply in_map|done].
    + apply andb_true_iff in Hx as [Hx Hy]. apply Z.ltb_lt in Hx. apply Hn in Hy. auto.
  - intros [[He|[Ht Hx]] Hy].
    + apply in_map_iff in He as (e & <- & He). apply Hn in Hy. left. right. eauto.
    + apply Hn in Hy. apply Z.ltb_lt in Hx. right. exists x. rewrite Hx. auto.
Qed.

(** ** Pass 3 *)

(** An instruction with its old and new offset, and whether a boundary was put
    before it. *)
Record Slot : Type := mkSlot { s_old : Z; s_new : Z; s_inj : bool; s_bytes : list Z }.

Definition gap (b : bool) : list Z := if b then fallthrough_bytes else [].
Definition flat (sl : list Slot) : list Z := concat (map (fun s => gap (s_inj s) ++ s_bytes s) sl).

Fixpoint layout (inj : Z -> bool) (n : Z) (ps : list (Z * list Z)) : list Slot :=
  match ps with
  | [] => []
  | (p, c) :: r => let n' := n + zlen (gap (inj p)) in mkSlot p n' (inj p) c :: layout inj (n' + zlen c) r
  end.

Definition map_of (sl : list Slot) (m : BTreeMap Z) : BTreeMap Z :=
  fold_left (fun m s => fst (bt_insert (s_old s) (s_new s) m)) sl m.

Lemma zlen_pos {A : Type} (l : list A) : l <> [] -> 0 < zlen l.
Proof. unfold zlen. destruct l; [done|]. cbn. lia. Qed.

Lemma consecutive_above pc ps p c : consecutive pc ps -> In (p, c) ps -> pc <= p /\ c <> [] /\ pc + zlen c <= p + zlen c.
Proof.
  revert pc. induction ps as [|[p' c'] r IH]; intros pc; [done|]. intros (-> & Hc & H) [[= <- <-]|Hin]; [split; [|split]; lia || done|].
  destruct (IH _ H Hin) as (? & ? & ?). pose proof (zlen_nonneg c'). repeat split; [lia|done|lia].
Qed.

Lemma consecutive_fst_above pc ps x : consecutive pc ps -> In x (map fst ps) -> pc <= x.
Proof. intros H Hin. apply in_map_iff in Hin as ([p c] & <- & Hin). by eapply consecutive_above in Hin as [? _]. Qed.

Lemma take_injects_spec b o it new :
  StronglySorted Z.lt it -> Forall (fun x => o <= x) it -> (b = true <-> In o it) ->
  exists it', take_injects o it new = (it', new ++ gap b) /\ StronglySorted Z.lt it' /\
    forall x, In x it' <-> In x it /\ x <> o.
Proof.
  intros S F Hb. destruct it as [|x it].
  { exists []. destruct b; [by destruct Hb as [Hb _]; destruct Hb|]. cbn [take_injects gap]. rewrite app_nil_r.
    split; [done|]. split; [done|]. cbn. tauto. }
  inversion S as [|? ? S' Fx]; subst. inversion F as [|? ? Hx F']; subst. rewrite Forall_forall in Fx.
  cbn [take_injects]. destruct (Z.eqb_spec x o) as [->|Hne].
  - assert (b = true) as -> by (apply Hb; by left). exists it. split; [|split; [done|]].
    + destruct it as [|y it]; [done|]. cbn [take_injects]. specialize (Fx y (or_introl eq_refl)).
      destruct (Z.eqb_spec y o); [lia|done].
    + intros y. cbn [In]. split; [intros Hy; specialize (Fx y Hy); split; [auto|lia]|naive_solver].
  - assert (~ In o (x :: it)) as Hno.
    { intros [?|Ho]; [done|]. specialize (Fx o Ho). lia. }
    destruct b; [by destruct Hno; apply Hb|]. exists (x :: it). cbn [gap]. rewrite app_nil_r. split; [done|]. split; [done|].
    intros y. split; [intros Hy; split; [done|by intros ->]|tauto].
Qed.

(** Pass 3 lays the instructions out. *)
Lemma inject_spec inj ps : forall P it new m,
  consecutive (zlen P) ps -> StronglySorted Z.lt it ->
  (forall x, In x it -> In x (map fst ps)) -> (forall x, In x (map fst ps) -> inj x = true <-> In x it) ->
  inject (P ++ concat (map snd ps)) (map fst ps) it new m =
    Ret (new ++ flat (layout inj (zlen new) ps), map_of (layout inj (zlen new) ps) m).
Proof.
  induction ps as [|[p c] r IH]; intros P it new m C S Hsub Hinj.
  { cbn. by rewrite app_nil_r. }
  destruct C as (-> & Hc & C). pose proof (zlen_pos c Hc) as Hl.
  cbn [map inject fst snd layout concat].
  destruct (take_injects_spec (inj (zlen P)) (zlen P) it new) as (it' & -> & S' & Hit').
  { done. }
  { apply Forall_forall. intros x Hx. apply Hsub in Hx as [<-|Hx]; [done|].
    apply (consecutive_fst_above _ _ _ C) in Hx. lia. }
  { apply Hinj. by left. }
  replace (match map fst r with [] => zlen (P ++ c ++ concat (map snd r)) | q :: _ => q end)
    with (zlen P + zlen c).
  2: { destruct r as [|[q d] r]; cbn [map fst concat].
       - rewrite app_nil_r, zlen_app. done.
       - by destruct C as (-> & _). }
  rewrite slice_app by done. cbn [res_bind].
  rewrite app_assoc. rewrite IH.
  - rewrite !zlen_app. cbn [map_of fold_left s_old s_new]. unfold flat. cbn [map concat s_inj s_bytes].
    by rewrite <- !app_assoc.
  - by rewrite zlen_app.
  - done.
  - intros x Hx. apply Hit' in Hx as [Hx Hne]. by apply Hsub in Hx as [<-|Hx].
  - intros x Hx. pose proof (consecutive_fst_above _ _ _ C Hx). rewrite Hit', Hinj by by right.
    split; [intros; split; [done|lia]|tauto].
Qed.

(** ** Reading and patching one instruction *)

Lemma half_at_app P b0 b1 r : half_at (P ++ b0 :: b1 :: r) (zlen P) = Ret (from_le_bytes [b0; b1]).
Proof. unfold half_at. change (b0 :: b1 :: r) with ([b0; b1] ++ r). by rewrite slice_app. Qed.

Lemma word_at_app P b0 b1 b2 b3 r :
  word_at (P ++ b0 :: b1 :: b2 :: b3 :: r) (zlen P) = Ret (from_le_bytes [b0; b1; b2; b3]).
Proof. unfold word_at. change (b0 :: b1 :: b2 :: b3 :: r) with ([b0; b1; b2; b3] ++ r). by rewrite slice_app. Qed.

Lemma put_at_app P c c' r : zlen c' = zlen c -> put_at (P ++ c ++ r) (zlen P) c' = Ret (P ++ c' ++ r).
Proof.
  intros E. unfold put_at. rewrite !zlen_app, E. pose proof (zlen_nonneg P). pose proof (zlen_nonneg r).
  destruct (Z.leb_spec 0 (zlen P)); [|lia]. destruct (Z.leb_spec (zlen P + zlen c) (zlen P + (zlen c + zlen r))); [|lia].
  cbn [andb]. unfold splice. f_equal. replace (Z.to_nat (zlen P)) with (length P) by (unfold zlen; lia).
  assert (length c' = length c) as -> by (unfold zlen in E; lia).
  rewrite take_app_length, <- drop_drop, drop_app_length, drop_app_length. done.
Qed.

Lemma whole_inv c :
  whole c ->
  (exists b0 b1, c = [b0; b1] /\ is_full_length (from_le_bytes [b0; b1]) = false) \/
  (exists b0 b1 b2 b3, c = [b0; b1; b2; b3] /\ is_full_length (from_le_bytes [b0; b1]) = true).
Proof.
  intros [i H]. unfold decode in H. destruct c as [|b0 [|b1 r]]; [done..|].
  fold (is_full_length (from_le_bytes [b0; b1])) in H.
  destruct (is_full_length (from_le_bytes [b0; b1])) eqn:F; cbn [negb] in H.
  - destruct r as [|b2 [|b3 r]]; [done..|]. injection H as _ H. destruct r; [|unfold zlen in H; cbn [length] in H; lia]. right. eauto 8.
  - injection H as _ H. destruct r; [|unfold zlen in H; cbn [length] in H; lia]. left. eauto.
Qed.

Lemma decode_half b0 b1 :
  is_full_length (from_le_bytes [b0; b1]) = false -> decode [b0; b1] = Some (dec16 (from_le_bytes [b0; b1]), 2).
Proof. intros F. unfold decode. fold (is_full_length (from_le_bytes [b0; b1])). by rewrite F. Qed.

Lemma decode_word b0 b1 b2 b3 :
  is_full_length (from_le_bytes [b0; b1; b2; b3]) = true ->
  decode [b0; b1; b2; b3] = Some (dec32 (from_le_bytes [b0; b1; b2; b3]), 4).
Proof.
  intros F. unfold is_full_length in F. rewrite half_length in F. unfold decode. by rewrite F.
Qed.

Lemma decode_half_of h :
  is_u 16 h -> is_full_length h = false ->
  decode (to_le_bytes 2 h) = Some (dec16 h, 2) /\ classify_piece (to_le_bytes 2 h) = classify_half h.
Proof.
  intros Hh F. pose proof (from_to_le_bytes 2 h) as E. rewrite wrap_small in E by done.
  cbn [to_le_bytes] in *. split; [rewrite decode_half; rewrite E; done|].
  cbn [classify_piece]. by rewrite E, F.
Qed.

Lemma decode_word_of w :
  is_u 32 w -> is_full_length w = true ->
  decode (to_le_bytes 4 w) = Some (dec32 w, 4) /\ classify_piece (to_le_bytes 4 w) = classify_word w.
Proof.
  intros Hw F. pose proof (from_to_le_bytes 4 w) as E. rewrite wrap_small in E by done.
  cbn [to_le_bytes] in *. split; [rewrite decode_word; rewrite E; done|].
  cbn [classify_piece]. by rewrite E.
Qed.

(** A complete instruction is decoded whatever follows it. *)
Lemma decode_app c r i l : decode c = Some (i, l) -> decode (c ++ r) = Some (i, l).
Proof.
  destruct c as [|b0 [|b1 c]]; [done..|]. cbn [app decode]. destruct (negb _); [done|].
  by destruct c as [|b2 [|b3 c]].
Qed.

(** ** Pass 4 *)

(** Where the jump of an instruction moved from [o] to [n] goes. *)
Definition place_disp (m : BTreeMap Z) (o n : Z) (i : Inst) : Inst :=
  match disp i with
  | Some d => match bt_get (edge_target o d) m with Some t => set_disp i (t - n) | None => i end
  | None => i
  end.

(** [c'] is the instruction [c] moved from [o] to [n]. *)
Record moved (m : BTreeMap Z) (o n : Z) (c c' : list Z) : Prop := {
  mv_len : zlen c' = zlen c;
  mv_bytes : Forall (is_u 8) c';
  mv_class : fst (classify_piece c') = fst (classify_piece c);
  mv_fixed : snd (classify_piece c) = None -> c' = c;
  mv_inst : exists i i', decode c = Some (i, zlen c) /\ decode c' = Some (i', zlen c) /\
    erase i' = erase (place_disp m o n i);
}.

(** New offsets are even and fit an [i32]. *)
Definition map_small (m : BTreeMap Z) : Prop :=
  forall k v, bt_get k m = Some v -> 0 <= v < 2 ^ 31 /\ v mod 2 = 0.

Lemma set_disp_same i d : disp i = Some d -> set_disp i d = i.
Proof. destruct i; cbn; congruence. Qed.

(** An instruction left as it is. *)
Lemma moved_refl m o n c i :
  Forall (is_u 8) c -> decode c = Some (i, zlen c) -> place_disp m o n i = i -> moved m o n c c.
Proof. intros B D E. split; [done..|]. exists i, i. by rewrite E. Qed.

Section Retarget.
  Context (m : BTreeMap Z) (Hm : map_small m) (o n : Z) (Hn : 0 <= n < 2 ^ 31) (He : n mod 2 = 0).

Lemma new_disp k t : bt_get k m = Some t -> sext 32 (t - n) = t - n /\ (t - n) mod 2 = 0.
Proof using Hm Hn He. intros E. destruct (Hm k t E). split; [apply sext_id; [lia|unfold is_i; lia]|dlia]. Qed.

Lemma moved_half enc lo d h' c :
  is_u 16 lo -> is_full_length lo = false -> is_full_length h' = false -> c = to_le_bytes 2 lo ->
  (forall x, enc lo x = Some h' -> dec16 h' = set_disp (dec16 lo) x /\ is_u 16 h') ->
  fst (classify_half h') = fst (classify_half lo) ->
  disp (dec16 lo) = Some d ->
  forall t, bt_get (edge_target o d) m = Some t -> enc lo (sext 32 (t - n)) = Some h' ->
  moved m o n c (to_le_bytes 2 h').
Proof using Hm Hn He.
  intros Hlo F F' -> He' Hcl Hd t Ht E. destruct (new_disp _ _ Ht) as [Es _]. rewrite Es in E.
  destruct (He' _ E) as [D Hh']. destruct (decode_half_of lo Hlo F) as [Dc Cc].
  destruct (decode_half_of h' Hh' F') as [Dc' Cc']. split.
  - done.
  - apply to_le_bytes_bytes.
  - by rewrite Cc, Cc'.
  - rewrite Cc. destruct (classify_half_dec lo Hlo F) as (_ & Hs & _). by rewrite (Hs d Hd).
  - exists (dec16 lo), (dec16 h'). rewrite zlen_le_bytes. split; [done|]. split; [done|].
    unfold place_disp. by rewrite Hd, Ht, D.
Qed.

Lemma moved_word w w' d c :
  is_u 32 w -> is_full_length w = true -> is_u 32 w' -> is_full_length w' = true -> c = to_le_bytes 4 w ->
  fst (classify_word w') = fst (classify_word w) -> snd (classify_word w) <> None ->
  (forall d', disp (dec32 w) = Some d' -> d' = d) ->
  forall t, bt_get (edge_target o d) m = Some t -> erase (dec32 w') = erase (set_disp (dec32 w) (t - n)) ->
  moved m o n c (to_le_bytes 4 w').
Proof using Type.
  intros Hw F Hw' F' -> Hcl Hj Hd t Ht E. destruct (decode_word_of w Hw F) as [Dc Cc].
  destruct (decode_word_of w' Hw' F') as [Dc' Cc']. split.
  - done.
  - apply to_le_bytes_bytes.
  - by rewrite Cc, Cc'.
  - by rewrite Cc.
  - exists (dec32 w), (dec32 w'). rewrite zlen_le_bytes. split; [done|]. split; [done|].
    rewrite E. unfold place_disp. destruct (disp (dec32 w)) as [d'|] eqn:D.
    + by rewrite (Hd d' eq_refl), Ht.
    + by destruct (dec32 w).
Qed.
End Retarget.

Lemma classify_jump h : is_cj h = true \/ is_cb h = true -> fst (classify_half h) = true.
Proof.
  unfold is_cj, is_cb, classify_half. cbv zeta. destruct (h =? 0); [done|].
  destruct (Z.land h 3 =? 1); cbn [andb]; [|by intros []].
  destruct (_ =? 5); [done|]. intros [|H]; [done|]. by rewrite H.
Qed.

(** The result of a fallible step, on success. *)
Definition succeeds {A E : Type} (r : Res (Result A E)) (P : A -> Prop) : Prop :=
  forall a, r = Ret (Ok a) -> P a.

Section RetargetAt.
  Context (m : BTreeMap Z) (Hm : map_small m) (o : Z) (P S : list Z).
  #[local] Abbreviation n := (zlen P).
  Context (Hn : 0 <= n < 2 ^ 31) (He : n mod 2 = 0).

Definition moves (c : list Z) (code' : list Z) : Prop := exists c', code' = P ++ c' ++ S /\ moved m o n c c'.

Lemma moves_refl c i : Forall (is_u 8) c -> decode c = Some (i, zlen c) -> place_disp m o n i = i -> moves c (P ++ c ++ S).
Proof using Type. intros. exists c. split; [done|]. by eapply moved_refl. Qed.

Lemma retarget_half_moves enc lo d c :
  c = to_le_bytes 2 lo -> is_u 16 lo -> is_full_length lo = false -> disp (dec16 lo) = Some d ->
  (forall x h', enc lo x = Some h' ->
     dec16 h' = set_disp (dec16 lo) x /\ is_u 16 h' /\ is_full_length h' = false /\
     fst (classify_half h') = fst (classify_half lo)) ->
  succeeds (retarget_half enc m o n lo d (P ++ c ++ S)) (moves c).
Proof using Hm Hn He.
  intros Ec Hlo F Hd Henc code' H. unfold retarget_half in H.
  destruct (bt_get (edge_target o d) m) as [t|] eqn:Ht; [|done].
  destruct (Z.eqb_spec (t - n) d) as [E|E].
  - injection H as <-. destruct (decode_half_of lo Hlo F) as [D _].
    apply (moves_refl c (dec16 lo)); [rewrite Ec; apply to_le_bytes_bytes|by rewrite Ec, zlen_le_bytes|].
    unfold place_disp. rewrite Hd, Ht, E. by apply set_disp_same.
  - destruct (enc lo (sext 32 (t - n))) as [h'|] eqn:Eh; [|done].
    destruct (Henc _ _ Eh) as (_ & _ & F' & Hcl).
    rewrite put_at_app in H by (by rewrite Ec, !zlen_le_bytes). injection H as <-. exists (to_le_bytes 2 h'). split; [done|].
    eapply (moved_half m Hm o n Hn He enc lo d); try done. intros x Ex. by destruct (Henc _ _ Ex) as (? & ? & _).
Qed.

Lemma retarget_word_moves enc bits w d c :
  c = to_le_bytes 4 w -> is_u 32 w -> is_full_length w = true -> 0 <= bits <= 20 -> snd (classify_word w) <> None ->
  (forall d', disp (dec32 w) = Some d' -> d' = d) ->
  (forall x, - 2 ^ bits <= x < 2 ^ bits -> x mod 2 = 0 ->
     erase (dec32 (enc w x)) = erase (set_disp (dec32 w) x) /\ is_u 32 (enc w x) /\ opcode_of (enc w x) = opcode_of w) ->
  succeeds (retarget_word enc bits m o n w d (P ++ c ++ S)) (moves c).
Proof using Hm Hn He.
  intros Ec Hw F Hbits Hj Hd Henc code' H. unfold retarget_word in H.
  destruct (bt_get (edge_target o d) m) as [t|] eqn:Ht.
  - destruct (_ && _) eqn:R in H; [|done]. cbn [negb] in H.
    destruct (new_disp m Hm n Hn He _ _ Ht) as [Es Ee]. rewrite Es in H.
    destruct (Henc (t - n) ltac:(lia) Ee) as (D & Hw' & Ho).
    rewrite put_at_app in H by (by rewrite Ec, !zlen_le_bytes). injection H as <-.
    exists (to_le_bytes 4 (enc w (t - n))). split; [done|]. eapply (moved_word m o n w _ d); try done.
    + unfold is_full_length in *. destruct (major_of _ Hw) as [_ L]. destruct (major_of _ Hw') as [_ L'].
      by rewrite L', Ho, <- L.
    + unfold classify_word. rewrite Ho. by repeat destruct (_ =? _).
  - injection H as <-. destruct (decode_word_of w Hw F) as [D _].
    apply (moves_refl c (dec32 w)); [rewrite Ec; apply to_le_bytes_bytes|by rewrite Ec, zlen_le_bytes|].
    unfold place_disp. destruct (disp (dec32 w)) as [d'|]; [|done]. by rewrite (Hd d' eq_refl), Ht.
Qed.
End RetargetAt.

Lemma retarget_moves m o P S c :
  map_small m -> whole c -> Forall (is_u 8) c -> bt_get o m = Some (zlen P) ->
  succeeds (retarget m (P ++ c ++ S) o) (moves m o P S c).
Proof.
  intros Hm W B Ho. destruct (Hm _ _ Ho) as [Hn He].
  pose proof (to_from_le_bytes c B) as Ec. pose proof (from_le_bytes_range c B) as Hr.
  unfold retarget. rewrite Ho. cbn [expect res_bind].
  destruct (whole_inv c W) as [(b0 & b1 & -> & F)|(b0 & b1 & b2 & b3 & -> & F)]; cbn [app].
  - rewrite half_at_app. cbn [res_bind]. rewrite F. cbn [negb].
    change (P ++ b0 :: b1 :: S) with (P ++ [b0; b1] ++ S). set (lo := from_le_bytes [b0; b1]) in *.
    change (is_u 16 lo) in Hr. destruct (half_disp lo Hr) as [Dj Db].
    fold (is_cj lo). fold (is_cb lo). destruct (is_cj lo) eqn:J; [|destruct (is_cb lo) eqn:Bc].
    + eapply retarget_half_moves; try done; [by apply Dj|]. intros x h' E.
      destruct (encode_cj_imm_dec lo x h' Hr J E) as (? & ? & ?). split_and!; try done; [by apply cj_not_full|].
      by rewrite !classify_jump by auto.
    + eapply retarget_half_moves; try done; [by apply Db|]. intros x h' E.
      destruct (encode_cb_imm_dec lo x h' Hr Bc E) as (? & ? & ?). split_and!; try done; [by apply cb_not_full|].
      by rewrite !classify_jump by auto.
    + intros a [= <-]. apply (moves_refl m o P S [b0; b1] (dec16 lo)); [done|by apply decode_half|].
      destruct (classify_half_dec lo Hr F) as (_ & _ & N). unfold place_disp. by rewrite N.
  - rewrite half_at_app. cbn [res_bind]. rewrite F. cbn [negb]. rewrite word_at_app. cbn [res_bind].
    change (P ++ b0 :: b1 :: b2 :: b3 :: S) with (P ++ [b0; b1; b2; b3] ++ S).
    set (w := from_le_bytes [b0; b1; b2; b3]) in *. change (is_u 32 w) in Hr.
    assert (is_full_length w = true) as Fw by (unfold is_full_length, w in *; by rewrite half_length).
    destruct (classify_word_dec w Hr) as [_ Dw]. unfold classify_word in Dw.
    destruct (Z.eqb_spec (opcode_of w) OP_JAL) as [J|J]; [|destruct (Z.eqb_spec (opcode_of w) 0x63) as [Bc|Bc]].
    + eapply retarget_word_moves; try done; [unfold classify_word; by rewrite J|intros d' Hd; apply Dw in Hd; injection Hd as Hd; done|].
      intros x Hx Ex. destruct (encode_j_imm_dec w x Hr J Hx Ex) as (? & ? & ? & _). by rewrite J.
    + eapply retarget_word_moves; try done.
      * unfold classify_word. by rewrite Bc.
      * intros d' Hd. apply Dw in Hd. rewrite Bc in Hd. by injection Hd as <-.
      * intros x Hx Ex. destruct (encode_b_imm_dec w x Hr Bc Hx Ex) as (? & ? & ? & _). by rewrite Bc.
    + intros a [= <-]. apply (moves_refl m o P S [b0; b1; b2; b3] (dec32 w)); [done|by apply decode_word|].
      unfold place_disp. destruct (disp (dec32 w)) as [d|] eqn:Hd; [|done]. apply reserve_disp in Hd.
      by rewrite (decode_32_other w Hr J Bc) in Hd.
Qed.

(** ** Loops that may fail *)

Lemma try_fold_from {A B E : Type} (f : A -> B -> Res (Result A E)) l (acc : Res (Result A E)) :
  fold_left (fun acc b => let* a := acc in f a b) l acc = let* a := acc in try_fold f a l.
Proof.
  revert acc. induction l as [|b l IH]; intros acc; cbn [fold_left].
  - by destruct acc as [[a|e]|].
  - rewrite IH. destruct acc as [[a|e]|]; [|done..]. symmetry. exact (IH (f a b)).
Qed.

Lemma try_fold_cons {A B E : Type} (f : A -> B -> Res (Result A E)) a b l :
  try_fold f a (b :: l) = let* a' := f a b in try_fold f a' l.
Proof. unfold try_fold at 1. cbn [fold_left]. by rewrite try_fold_from. Qed.

Lemma try_bind_ok {A B E : Type} (c : Res (Result A E)) (f : A -> Res (Result B E)) b :
  try_bind c f = Ret (Ok b) -> exists a, c = Ret (Ok a) /\ f a = Ret (Ok b).
Proof. destruct c as [[a|e]|]; cbn; try done. eauto. Qed.

Lemma res_bind_ret {A B : Type} (c : Res A) (f : A -> Res B) b :
  res_bind c f = Ret b -> exists a, c = Ret a /\ f a = Ret b.
Proof. destruct c; cbn; try done. eauto. Qed.

(** An invariant of a loop that may fail. *)
Lemma try_fold_ind {A B E : Type} (f : A -> B -> Res (Result A E)) (I : A -> Prop) l a a' :
  (forall a b a', In b l -> I a -> f a b = Ret (Ok a') -> I a') ->
  I a -> try_fold f a l = Ret (Ok a') -> I a'.
Proof.
  revert a. induction l as [|b l IH]; intros a Hf Ha.
  - intros H. by injection H as <-.
  - rewrite try_fold_cons. intros H. apply try_bind_ok in H as (a1 & H1 & H). eapply (IH a1); [| |done].
    + intros a2 b' a3 ?. apply Hf. by right.
    + eapply Hf; [by left|done..].
Qed.

(** ** The slots of the new code *)

(** New offsets follow from the bytes laid out before them. *)
Fixpoint chain (n : Z) (sl : list Slot) : Prop :=
  match sl with
  | [] => True
  | s :: r => s_new s = n + zlen (gap (s_inj s)) /\ chain (s_new s + zlen (s_bytes s)) r
  end.

Lemma layout_chain inj n ps : chain n (layout inj n ps).
Proof. revert n. induction ps as [|[p c] r IH]; intros n; cbn [layout chain]; [done|]. split; [done|apply IH]. Qed.

Record moved_slot (m : BTreeMap Z) (s s' : Slot) : Prop := {
  ms_old : s_old s' = s_old s;
  ms_new : s_new s' = s_new s;
  ms_inj : s_inj s' = s_inj s;
  ms_bytes : moved m (s_old s) (s_new s) (s_bytes s) (s_bytes s');
}.

Lemma flat_cons s sl : flat (s :: sl) = gap (s_inj s) ++ s_bytes s ++ flat sl.
Proof. unfold flat. cbn [map concat]. by rewrite <- app_assoc. Qed.

Lemma flat_app l k : flat (l ++ k) = flat l ++ flat k.
Proof. unfold flat. by rewrite map_app, concat_app. Qed.

(** An instruction cut short makes the pass panic. *)
Lemma retarget_cut m o P c a :
  decode c = None -> bt_get o m = Some (zlen P) -> retarget m (P ++ c) o <> Ret (Ok a).
Proof.
  intros D Ho. unfold retarget. rewrite Ho. cbn [expect res_bind].
  assert (forall k, slice (P ++ c) (zlen P) (zlen P + k) = Abort \/ k <= zlen c) as Hs.
  { intros k. unfold slice. rewrite zlen_app. destruct (Z.leb_spec (zlen P + k) (zlen P + zlen c)); [right; lia|].
    left. by rewrite andb_false_r. }
  unfold half_at. destruct c as [|b0 [|b1 c]].
  - destruct (Hs 2) as [->|H]; [done|unfold zlen in H; cbn [length] in H; lia].
  - destruct (Hs 2) as [->|H]; [done|unfold zlen in H; cbn [length] in H; lia].
  - change (P ++ b0 :: b1 :: c) with (P ++ [b0; b1] ++ c) at 1. rewrite slice_app by done. cbn [res_bind].
    cbn [decode] in D. fold (is_full_length (from_le_bytes [b0; b1])) in D.
    destruct (is_full_length (from_le_bytes [b0; b1])); [|done]. cbn [negb] in *. unfold word_at.
    destruct (Hs 4) as [->|H]; [done|]. destruct c as [|b2 [|b3 c]]; [unfold zlen in H; cbn [length] in H; lia..|done].
Qed.

(** Pass 4 moves every instruction. *)
Lemma retarget_all m sl : forall P,
  map_small m -> chain (zlen P) sl -> Forall (fun s => Forall (is_u 8) (s_bytes s)) sl ->
  Forall (fun s => bt_get (s_old s) m = Some (s_new s)) sl ->
  (forall l s r, sl = l ++ s :: r -> (r <> [] -> whole (s_bytes s)) /\ (whole (s_bytes s) \/ decode (s_bytes s) = None)) ->
  succeeds (try_fold (retarget m) (P ++ flat sl) (map s_old sl))
    (fun code' => exists sl', code' = P ++ flat sl' /\ Forall2 (moved_slot m) sl sl').
Proof.
  induction sl as [|s r IH]; intros P Hm C B M W code' H.
  { injection H as <-. exists []. by split; [|constructor]. }
  destruct C as [Hnew C]. inversion B as [|? ? Bs Br]; subst. inversion M as [|? ? Ms Mr]; subst.
  rewrite flat_cons in H. cbn [map] in H. rewrite try_fold_cons in H. apply try_bind_ok in H as (c1 & H1 & H).
  rewrite app_assoc in H1. assert (s_new s = zlen (P ++ gap (s_inj s))) as En by by rewrite zlen_app.
  rewrite En in Ms. destruct (W [] s r eq_refl) as [Wr [Ws|Wn]].
  2: { destruct r; [|by destruct Wr as [? ?]; [|congruence]].
       cbn in H1. rewrite app_nil_r in H1. by apply retarget_cut in H1. }
  destruct (retarget_moves m _ _ _ _ Hm Ws Bs Ms c1 H1) as (c' & -> & Mv).
  rewrite app_assoc in H. destruct (IH ((P ++ gap (s_inj s)) ++ c')) with (a := code') as (sl' & -> & F2); try done.
  - rewrite zlen_app, <- En, (mv_len _ _ _ _ _ Mv). done.
  - intros l s' r' ->. apply (W (s :: l) s' r'). done.
  - exists (mkSlot (s_old s) (s_new s) (s_inj s) c' :: sl'). split; [by rewrite flat_cons, <- !app_assoc|].
    constructor; [|done]. split; [done..|]. by rewrite En.
Qed.

(** ** Offsets *)

Lemma whole_even c : whole c -> zlen c mod 2 = 0.
Proof. intros W. by destruct (whole_inv c W) as [(? & ? & -> & _)|(? & ? & ? & ? & -> & _)]. Qed.

Lemma layout_old inj n ps : map s_old (layout inj n ps) = map fst ps.
Proof. revert n. induction ps as [|[p c] r IH]; intros n; cbn; [done|]. by rewrite IH. Qed.

Lemma layout_bytes inj n ps : map s_bytes (layout inj n ps) = map snd ps.
Proof. revert n. induction ps as [|[p c] r IH]; intros n; cbn; [done|]. by rewrite IH. Qed.

(** A slot of the layout comes from an instruction. *)
Lemma layout_split inj n ps l s r :
  layout inj n ps = l ++ s :: r ->
  exists l' r', ps = l' ++ (s_old s, s_bytes s) :: r' /\ length l' = length l /\ map s_old r = map fst r' /\ s_inj s = inj (s_old s).
Proof.
  revert n l. induction ps as [|[p c] ps IH]; intros n l; cbn [layout]; [by destruct l|].
  destruct l as [|s' l]; intros [= <- E].
  - exists [], ps. split_and!; try done. rewrite <- E. apply layout_old.
  - destruct (IH _ _ E) as (l' & r' & -> & Hl & Hr & Hi). exists ((p, c) :: l'), r'. cbn. by rewrite Hl.
Qed.

Lemma layout_even inj n ps :
  n mod 2 = 0 -> (forall l e r, ps = l ++ e :: r -> r <> [] -> whole (snd e)) ->
  Forall (fun s => s_new s mod 2 = 0) (layout inj n ps).
Proof.
  revert n. induction ps as [|[p c] r IH]; intros n Hn W; cbn [layout]; [constructor|].
  assert ((n + zlen (gap (inj p))) mod 2 = 0) as H1.
  { destruct (inj p); [change (zlen (gap true)) with 4|change (zlen (gap false)) with 0]; dlia. }
  constructor; [done|]. destruct r as [|e r]; [constructor|]. apply IH.
  - pose proof (whole_even c (W [] (p, c) (e :: r) eq_refl ltac:(done))). dlia.
  - intros l e' r' E. apply (W ((p, c) :: l) e' r'). by rewrite E.
Qed.

Lemma chain_bounds n sl s : chain n sl -> In s sl -> n <= s_new s /\ s_new s + zlen (s_bytes s) <= n + zlen (flat sl).
Proof.
  revert n. induction sl as [|s' r IH]; intros n; [done|]. intros [Hs C]. rewrite flat_cons, !zlen_app.
  pose proof (zlen_nonneg (gap (s_inj s'))). pose proof (zlen_nonneg (s_bytes s')). pose proof (zlen_nonneg (flat r)).
  intros [<-|Hin]; [lia|]. destruct (IH _ C Hin). lia.
Qed.

(** Where a slot's bytes are. *)
Lemma chain_split n l s r : chain n (l ++ s :: r) -> s_new s = n + zlen (flat l) + zlen (gap (s_inj s)).
Proof.
  revert n. induction l as [|s' l IH]; intros n; cbn [app].
  - intros [-> _]. change (zlen (flat [])) with 0. lia.
  - intros [Hs C]. apply IH in C. rewrite flat_cons, !zlen_app. lia.
Qed.

Lemma chain_next n l s t r :
  chain n (l ++ s :: t :: r) -> s_new t = s_new s + zlen (s_bytes s) + zlen (gap (s_inj t)).
Proof. revert n. induction l as [|s' l IH]; intros n; cbn [app]; intros [_ C]; [by destruct C as [-> _]|by eapply IH]. Qed.

Lemma consecutive_nodup pc ps : consecutive pc ps -> NoDup (map fst ps).
Proof.
  revert pc. induction ps as [|[p c] r IH]; intros pc; cbn; [constructor|]. intros (-> & Hc & C). constructor; [|by eapply IH].
  intros Hin. apply list_elem_of_In in Hin. apply (consecutive_fst_above _ _ _ C) in Hin. pose proof (zlen_pos c Hc). lia.
Qed.

Lemma map_of_get sl m k v :
  NoDup (map s_old sl) -> bt_get k m = None ->
  bt_get k (map_of sl m) = Some v <-> exists s, In s sl /\ s_old s = k /\ s_new s = v.
Proof.
  assert (forall sl m, ~ In k (map s_old sl) -> bt_get k (map_of sl m) = bt_get k m) as Hout.
  { clear sl m. induction sl as [|s r IH]; intros m Hk; [done|]. cbn [map_of fold_left]. cbn [map In] in Hk.
    etrans; [apply IH; tauto|]. rewrite bt_get_insert. destruct (Z.eqb_spec k (s_old s)); [naive_solver|done]. }
  revert m. induction sl as [|s r IH]; intros m N Hk.
  { cbn. rewrite Hk. naive_solver. }
  cbn [map] in N. apply list.NoDup_cons in N as [Ns Nr]. cbn [map_of fold_left].
  destruct (Z.eqb_spec k (s_old s)) as [->|Hne].
  - etrans; [rewrite (Hout r) by (by rewrite <- list_elem_of_In); rewrite bt_get_insert, Z.eqb_refl; reflexivity|].
    split; [intros [= <-]; exists s; by split; [left|]|].
    intros (s' & [<-|Hin] & E & <-); [done|]. destruct Ns. rewrite <- E. apply list_elem_of_In. by apply in_map.
  - etrans; [apply IH; [done|rewrite bt_get_insert; by destruct (Z.eqb_spec k (s_old s))]|].
    split; intros (s' & Hin & E & <-); [exists s'; by split; [right|]|]. destruct Hin as [<-|Hin]; [by destruct Hne|eauto].
Qed.

(** ** The whole pass *)

(** A slot after the pass: moved, or the incomplete end of the code. *)
Record carried (m : BTreeMap Z) (s s' : Slot) : Prop := {
  ca_old : s_old s' = s_old s;
  ca_new : s_new s' = s_new s;
  ca_inj : s_inj s' = s_inj s;
  ca_bytes : moved m (s_old s) (s_new s) (s_bytes s) (s_bytes s') \/
    s_bytes s' = s_bytes s /\ decode (s_bytes s) = None;
}.

(** A target the code or the caller names, and an offset after a terminator. *)
Definition is_target (code extra : list Z) (x : Z) : Prop :=
  In x extra \/ exists p c d, In (p, c) (placed 0 code) /\ snd (classify_piece c) = Some d /\ x = p + d.
Definition is_post (code : list Z) (x : Z) : Prop :=
  x = 0 \/ exists p c, In (p, c) (placed 0 code) /\ fst (classify_piece c) = true /\ x = p + zlen c.

Record aligned (code extra code' : list Z) (m : BTreeMap Z) (inj : Z -> bool) (sl : list Slot) : Prop := {
  al_code : code' = flat sl;
  al_slots : Forall2 (carried m) (layout inj 0 (placed 0 code)) sl;
  al_map : m = map_of (layout inj 0 (placed 0 code)) [];
  al_inj : forall x, In x (map fst (placed 0 code)) -> is_target code extra x -> inj x = true \/ is_post code x;
  al_post : inj 0 = false;
}.

Lemma placed_In_split pc code p c :
  In (p, c) (placed pc code) -> whole c \/ decode c = None.
Proof. intros H. apply in_split in H as (l & r & E). by apply placed_whole in E as [_ ?]. Qed.

Lemma placed_below pc code p c : In (p, c) (placed pc code) -> pc <= p /\ p + zlen c <= pc + zlen code.
Proof.
  intros H. pose proof (placed_concat pc code) as E. pose proof (placed_consecutive pc code) as C.
  destruct (consecutive_above _ _ _ _ C H) as [Hp _]. split; [done|]. rewrite <- E at 1. clear E Hp.
  revert C H. generalize (placed pc code). intros ps. revert pc. induction ps as [|[q d] r IH]; intros pc; [done|].
  intros (-> & _ & C) [[= <- <-]|H]; cbn [map concat snd]; rewrite zlen_app.
  - pose proof (zlen_nonneg (concat (map snd r))). lia.
  - specialize (IH _ C H). lia.
Qed.

(** The scan of a whole program. *)
Lemma scan_program code s extra :
  scan (zlen code) 0 code (mkScan [] [0] []) = Ret s ->
  inst_starts s = map fst (placed 0 code) /\
  (forall x, In x (map fst (placed 0 code)) -> is_target code extra x ->
     In x (needs_inject (zlen code) s extra) \/ is_post code x) /\
  (forall x, In x (needs_inject (zlen code) s extra) -> In x (map fst (placed 0 code)) /\ x <> 0).
Proof.
  intros H. apply scan_spec in H as [St Po Ed]. cbn [inst_starts post_terminator static_edges app] in *.
  destruct (needs_inject_spec (zlen code) s extra) as [_ K]. split; [done|]. split.
  - intros x Hx Ht. rewrite K, St. pose proof Hx as Hb. apply in_map_iff in Hb as ([p c] & Hp & Hin). cbn in Hp. subst p.
    destruct (placed_below _ _ _ _ Hin) as [Hx0 Hxn].
    assert (0 < zlen c).
    { apply zlen_pos. by apply (consecutive_above _ _ _ _ (placed_consecutive 0 code)) in Hin as (_ & ? & _). }
    destruct (contains (post_terminator s) x) eqn:Hc.
    + right. apply contains_In, Po in Hc as [[<-|[]]|Hc]; [by left|]. right. apply in_flat_map in Hc as ([q d] & Hq & Hin').
      unfold post_of in Hin'. destruct (_ && _) eqn:T in Hin'; [|done]. apply andb_true_iff in T as [T _].
      destruct Hin' as [<-|[]]. eauto.
    + left. split; [|split; [|done]].
      2: { intros Hi. apply contains_In in Hi. congruence. }
      destruct Ht as [Ht|(q & d & e & Hq & Hd & ->)]; [right; split; [done|lia]|left].
      rewrite Ed. apply in_map_iff. exists (q, q + e). split; [done|]. apply in_flat_map. exists (q, d). split; [done|].
      unfold edges_of. cbn [fst snd]. rewrite Hd. destruct (Z.leb_spec 0 (q + e)), (Z.ltb_spec (q + e) (zlen code)); try lia.
      by left.
  - intros x Hx. apply K in Hx as (_ & Hp & Hs). rewrite <- St. split; [done|]. intros ->. apply Hp, Po. left. by left.
Qed.

Lemma disp_range c i l d :
  Forall (is_u 8) c -> decode c = Some (i, l) -> disp i = Some d -> - 2 ^ 20 <= d < 2 ^ 20 /\ d mod 2 = 0.
Proof.
  intros B D Hd. pose proof (decode_inst_wf _ _ _ B D) as W. unfold inst_wf in W. apply andb_true_iff in W as [_ W].
  destruct i; try done; cbn in Hd, W; injection Hd as ->; apply andb_true_iff in W as [W E];
    apply Z.eqb_eq in E; unfold in_i in W; lia.
Qed.

Lemma put_at_length code i bs code' : put_at code i bs = Ret code' -> zlen code' = zlen code.
Proof.
  unfold put_at. destruct (_ && _) eqn:E; [|done]. intros [= <-]. unfold zlen in *. rewrite length_splice by lia. done.
Qed.

Lemma retarget_length m code o code' : retarget m code o = Ret (Ok code') -> zlen code' = zlen code.
Proof.
  assert (forall i bs, (let! c := put_at code i bs in Ret (Ok c)) = Ret (Ok (E := LinkError) code') -> zlen code' = zlen code) as Hp.
  { intros i bs H. apply res_bind_ret in H as (c & H & [= ->]). by eapply put_at_length. }
  assert (Ret (Ok code) = Ret (Ok (E := LinkError) code') -> zlen code' = zlen code) as Hi by (intros [= ->]; done).
  unfold retarget, retarget_half, retarget_word. intros H.
  apply res_bind_ret in H as (n & _ & H). apply res_bind_ret in H as (lo & _ & H).
  destruct (negb _).
  - repeat case_match; try done; eauto.
  - apply res_bind_ret in H as (w & _ & H). repeat case_match; try done; eauto.
Qed.

Section AlignSpec.
  Context (code extra : list Z) (HB : Forall (is_u 8) code).
  #[local] Abbreviation ps := (placed 0 code).

Lemma placed_bytes p c : In (p, c) ps -> Forall (is_u 8) c.
Proof using HB.
  intros H. rewrite <- (placed_concat 0 code) in HB. apply Forall_forall. intros x Hx.
  rewrite Forall_forall in HB. apply HB, in_concat. exists c. split; [|done]. apply in_map_iff. by exists (p, c).
Qed.

Lemma layout_In inj s : In s (layout inj 0 ps) -> In (s_old s, s_bytes s) ps.
Proof using Type.
  intros H. apply in_split in H as (l & r & E). apply layout_split in E as (l' & r' & -> & _).
  apply in_app_iff. right. by left.
Qed.

Lemma layout_get inj k v :
  bt_get k (map_of (layout inj 0 ps) []) = Some v <->
  exists s, In s (layout inj 0 ps) /\ s_old s = k /\ s_new s = v.
Proof using Type.
  apply map_of_get; [|done]. rewrite layout_old. eapply consecutive_nodup, placed_consecutive.
Qed.

Lemma layout_key inj k v : bt_get k (map_of (layout inj 0 ps) []) = Some v -> 0 <= k < zlen code.
Proof using Type.
  intros H. apply layout_get in H as (s & Hs & <- & _). apply layout_In in Hs.
  pose proof (placed_below _ _ _ _ Hs). apply (consecutive_above _ _ _ _ (placed_consecutive 0 code)) in Hs as (? & Hc & _).
  pose proof (zlen_pos _ Hc). lia.
Qed.

Lemma layout_small inj : zlen (flat (layout inj 0 ps)) < 2 ^ 31 -> map_small (map_of (layout inj 0 ps) []).
Proof using Type.
  intros Hlen k v H. apply layout_get in H as (s & Hs & _ & <-).
  pose proof (layout_even inj 0 ps eq_refl) as Ev. rewrite Forall_forall in Ev. split.
  - destruct (chain_bounds _ _ _ (layout_chain inj 0 ps) Hs). apply layout_In in Hs.
    apply (consecutive_above _ _ _ _ (placed_consecutive 0 code)) in Hs as (_ & Hc & _). pose proof (zlen_pos _ Hc). lia.
  - apply Ev; [|done]. intros l [p c] r E. by apply placed_whole in E as [? _].
Qed.

(** Within reach, a wrapped target is the target. *)
Lemma edge_target_get inj o d :
  zlen code < 2 ^ 31 -> 0 <= o < 2 ^ 31 -> - 2 ^ 20 <= d < 2 ^ 20 ->
  bt_get (edge_target o d) (map_of (layout inj 0 ps) []) = bt_get (o + d) (map_of (layout inj 0 ps) []).
Proof using Type.
  intros Hl Ho Hd. unfold edge_target. destruct (Z.lt_ge_cases (o + d) 0) as [Hneg|Hpos].
  - destruct (bt_get (wrap 64 (o + d)) _) eqn:E1.
    { apply layout_key in E1. unfold wrap in E1. dlia. }
    destruct (bt_get (o + d) _) eqn:E2; [|done]. apply layout_key in E2. lia.
  - by rewrite wrap_small by (unfold is_u; lia).
Qed.

Lemma layout_unmoved : flat (layout (fun _ => false) 0 ps) = code.
Proof using Type.
  rewrite <- (placed_concat 0 code) at 2. generalize 0 at 1. generalize ps. intros l. induction l as [|[p c] r IH]; intros n; [done|].
  cbn [layout]. rewrite flat_cons. cbn [s_inj s_bytes gap app map concat snd]. by rewrite IH.
Qed.

Lemma consecutive_identity n l m :
  consecutive n l ->
  fold_left (fun m p => fst (bt_insert p p m)) (map fst l) m = map_of (layout (fun _ => false) n l) m.
Proof using Type.
  revert n m. induction l as [|[p c] r IH]; intros n m; [done|]. intros (-> & _ & C). cbn [map layout fst map_of fold_left s_old s_new gap].
  change (zlen []) with 0. rewrite Z.add_0_r. by apply IH.
Qed.

Lemma unmoved_new n l s : consecutive n l -> In s (layout (fun _ => false) n l) -> s_new s = s_old s.
Proof using Type.
  revert n. induction l as [|[p c] r IH]; intros n C; [done|].
  destruct C as (-> & _ & C). cbn [layout gap]. change (zlen []) with 0. rewrite Z.add_0_r. intros [<-|H]; [done|]. by eapply IH.
Qed.

(** Without injection nothing changes. *)
Lemma carried_identity s :
  let sl := layout (fun _ => false) 0 ps in
  zlen code < 2 ^ 31 -> In s sl -> carried (map_of sl []) s s.
Proof using HB.
  intros sl Hl Hs. split; [done..|]. pose proof (layout_In _ _ Hs) as Hp.
  pose proof (placed_bytes _ _ Hp) as B. destruct (placed_In_split _ _ _ _ Hp) as [[i D]|D]; [left|by right].
  eapply moved_refl; [done..|]. unfold place_disp. destruct (disp i) as [d|] eqn:Hd; [|done].
  pose proof (placed_consecutive 0 code) as C. destruct (disp_range _ _ _ _ B D Hd) as [Hr _].
  pose proof (placed_below _ _ _ _ Hp). pose proof (zlen_nonneg (s_bytes s)).
  unfold sl. rewrite edge_target_get by lia.
  destruct (bt_get _ _) as [t|] eqn:Ht; [|done]. apply layout_get in Ht as (s' & Hs' & Eo & <-).
  rewrite (unmoved_new 0 ps s C Hs), (unmoved_new 0 ps s' C Hs'), Eo. apply set_disp_same. rewrite Hd. f_equal. lia.
Qed.

Lemma align_spec code' m :
  zlen code < 2 ^ 31 -> zlen code' < 2 ^ 31 ->
  align_branch_targets code extra = Ret (Ok (code', m)) -> exists inj sl, aligned code extra code' m inj sl.
Proof using HB.
  intros Hl Hl' H. unfold align_branch_targets in H. apply res_bind_ret in H as (s & Hs & H).
  destruct (scan_program code s extra Hs) as (St & Tg & Nz).
  destruct (needs_inject_spec (zlen code) s extra) as [Sorted _].
  destruct (needs_inject (zlen code) s extra) as [|x it] eqn:En.
  - injection H as <- <-. exists (fun _ => false), (layout (fun _ => false) 0 ps). split.
    + by rewrite layout_unmoved.
    + rewrite St. unfold identity_map. rewrite (consecutive_identity 0) by apply placed_consecutive.
      apply Forall_Forall2_diag, Forall_forall. intros s' Hin. by apply carried_identity.
    + rewrite St. apply consecutive_identity, placed_consecutive.
    + intros y Hy Ht. destruct (Tg y Hy Ht) as [[]|?]. by right.
    + done.
  - rewrite St in H. pose proof (inject_spec (contains (x :: it)) ps [] (x :: it) [] []) as I.
    cbn [app] in I. rewrite placed_concat in I. rewrite I in H; clear I.
    2: apply placed_consecutive. 2: done. 2: by intros y Hy; apply Nz. 2: by intros; rewrite contains_In.
    change (zlen []) with 0 in H. cbn [res_bind] in H. set (sl0 := layout (contains (x :: it)) 0 ps) in *.
    apply try_bind_ok in H as (c & H & [= -> <-]).
    assert (zlen code' = zlen (flat sl0)) as El.
    { eapply (try_fold_ind _ (fun c => zlen c = zlen (flat sl0))); [|done|exact H].
      intros a b a' _ <- Hr. by eapply retarget_length. }
    assert (map_small (map_of sl0 [])) as Hsm by (apply layout_small; fold sl0; lia).
    replace (map fst ps) with (map s_old sl0) in H by apply layout_old.
    destruct (retarget_all (map_of sl0 []) sl0 []) with (a := code') as (sl & -> & F2); try done.
    + apply layout_chain.
    + apply Forall_forall. intros s' Hin. eapply placed_bytes, layout_In, Hin.
    + apply Forall_forall. intros s' Hin. apply layout_get. eauto.
    + intros l s' r E. apply layout_split in E as (l' & r' & E & _ & Hr & _). apply placed_whole in E as [E1 E2].
      split; [|done]. intros Hne. apply E1. intros ->. by destruct r.
    + exists (contains (x :: it)), sl. split; [done| |done| |].
      * eapply Forall2_impl; [|exact F2]. intros s1 s2 [? ? ? ?]. split; auto.
      * intros y Hy Ht. destruct (Tg y Hy Ht); [left; by apply contains_In|by right].
      * apply not_true_iff_false. intros E. apply contains_In, Nz in E as [_ E]. done.
Qed.
End AlignSpec.
