(* ===== verification/LinkFacts.v ===== *)
(** Correctness of the linker's code passes: alignment preserves control flow,
    every jump target the linker knows of starts a block of the linked code,
    the pairs of instructions that stay relative to the program counter reach
    their targets, and validated code keeps to the instructions and registers
    the linker emits. Source: [src/nub/nub-linker/src/link.rs]. *)

From Stdlib Require Import ZArith Lia List Bool.
From stdpp Require Import base list numbers.
From S2P Require Import Prelude MachineInt Engine Instruction InstructionFacts GasCost GasSim Encode BTreeMap Ssz SszFacts Predecode Program Elf Link LinkBits LinkAlign.
Open Scope Z_scope.

(** Byte sequences, decided. *)
Lemma bytes_check l : forallb (fun b => (0 <=? b) && (b <? 256)) l = true -> Forall (is_u 8) l.
Proof. rewrite forallb_forall, Forall_forall. intros H x Hx. apply H in Hx. unfold is_u. lia. Qed.

(** ** Instructions of the old and the new code *)

Lemma drop_zlen (a b : list Z) n : n = zlen a -> drop (Z.to_nat n) (a ++ b) = b.
Proof. intros ->. unfold zlen. rewrite Nat2Z.id. apply drop_app_length. Qed.

Lemma placed_split code l o c r :
  placed 0 code = l ++ (o, c) :: r ->
  o = zlen (concat (map snd l)) /\ drop (Z.to_nat o) code = c ++ concat (map snd r) /\
  match r with (o2, _) :: _ => o2 = o + zlen c | [] => zlen code = o + zlen c end.
Proof.
  intros E. pose proof (placed_consecutive 0 code) as C. rewrite E in C.
  assert (forall pc, consecutive pc (l ++ (o, c) :: r) ->
    o = pc + zlen (concat (map snd l)) /\ match r with (o2, _) :: _ => o2 = o + zlen c | [] => True end) as H.
  { clear C E. induction l as [|[q d] l IH]; intros pc; cbn [app consecutive map concat snd].
    - intros (-> & _ & C). change (zlen []) with 0. split; [lia|]. destruct r as [|[o2 c2] r]; [done|]. by destruct C as [-> _].
    - intros (-> & _ & C). rewrite zlen_app. destruct (IH _ C) as [? ?]. split; [lia|done]. }
  destruct (H 0 C) as [Ho Hr]. rewrite Z.add_0_l in Ho. split; [done|].
  pose proof (placed_concat 0 code) as Ec. rewrite E, map_app, concat_app in Ec. cbn [map concat snd] in Ec. split.
  - rewrite <- Ec. by apply drop_zlen.
  - destruct r as [|[o2 c2] r]; [|done]. rewrite <- Ec. cbn. rewrite app_nil_r, zlen_app. lia.
Qed.

Lemma carried_len m s s' : carried m s s' -> zlen (s_bytes s') = zlen (s_bytes s).
Proof. intros [_ _ _ [M|[-> _]]]; [by apply mv_len in M|done]. Qed.

Lemma carried_chain m sl sl' n : Forall2 (carried m) sl sl' -> chain n sl -> chain n sl'.
Proof.
  intros F. revert n. induction F as [|s s' l l' H F IH]; intros n; [done|]. intros [Hs C]. cbn [chain].
  rewrite (ca_new _ _ _ H), (ca_inj _ _ _ H), (carried_len _ _ _ H). split; [done|]. by apply IH.
Qed.

(** The slot of an instruction, between what is before and after it. *)
Record slot_of (code code' : list Z) (m : BTreeMap Z) (o o' : Z) (c c' : list Z) : Prop := {
  so_in : In (o, c) (placed 0 code);
  so_old : exists r, drop (Z.to_nat o) code = c ++ r /\ (decode c = None -> r = []);
  so_new : exists r, drop (Z.to_nat o') code' = c' ++ r;
  so_carried : moved m o o' c c' \/ c' = c /\ decode c = None;
  so_next : o + zlen c < zlen code -> exists n', bt_get (o + zlen c) m = Some n' /\
    (n' = o' + zlen c \/
     n' = o' + zlen c + 4 /\ exists r, drop (Z.to_nat (o' + zlen c)) code' = fallthrough_bytes ++ r);
}.

Lemma aligned_slot code extra code' m inj sl o o' :
  aligned code extra code' m inj sl -> bt_get o m = Some o' -> exists c c', slot_of code code' m o o' c c'.
Proof.
  intros [Ec F Em _ _] H. rewrite Em in H. pose proof H as G. apply layout_get in G as (s & Hs & <- & <-).
  apply in_split in Hs as (l0 & r0 & El). pose proof F as F'. rewrite El in F'.
  apply Forall2_app_inv_l in F' as (l & k & Fl & Fk & Ek). apply Forall2_cons_inv_l in Fk as (s' & r & Hc & Fr & ->).
  pose proof (carried_chain _ _ _ 0 F (layout_chain _ _ _)) as Ch. rewrite Ek in Ch, Ec.
  pose proof El as El'. apply layout_split in El' as (pl & pr & Ep & _ & Hlen & _). destruct (placed_split _ _ _ _ _ Ep) as (_ & Hd & Hn).
  pose proof (chain_split _ _ _ _ Ch) as Hnew. rewrite (ca_new _ _ _ Hc) in Hnew.
  rewrite flat_app, flat_cons in Ec.
  exists (s_bytes s), (s_bytes s'). split.
  - rewrite Ep. apply in_app_iff. right. by left.
  - exists (concat (map snd pr)). split; [done|]. intros Dn. destruct pr as [|e pr]; [done|].
    apply placed_whole in Ep as [W _]. destruct W as [i W]; [done|congruence].
  - exists (flat r). rewrite Ec, app_assoc. apply drop_zlen. rewrite zlen_app. lia.
  - apply (ca_bytes _ _ _ Hc).
  - intros Hlt. destruct pr as [|[o2 c2] pr]; [lia|]. subst o2. destruct r0 as [|s2 r0]; [done|]. injection Hlen as E2 _. cbn in E2.
    apply Forall2_cons_inv_l in Fr as (s2' & r' & Hc2 & _ & ->). exists (s_new s2). split.
    + rewrite Em. apply layout_get. exists s2. split; [|done]. rewrite El. apply in_app_iff. right. right. by left.
    + apply chain_next in Ch. rewrite (ca_new _ _ _ Hc2), (ca_new _ _ _ Hc), (carried_len _ _ _ Hc) in Ch.
      destruct (s_inj s2') eqn:I; [right|left; change (zlen (gap false)) with 0 in Ch; lia].
      change (zlen (gap true)) with 4 in Ch. split; [done|]. exists (s_bytes s2' ++ flat r').
      assert (code' = (flat l ++ gap (s_inj s') ++ s_bytes s') ++ fallthrough_bytes ++ s_bytes s2' ++ flat r') as ->
        by (by rewrite Ec, flat_cons, I, <- !app_assoc).
      apply drop_zlen. rewrite !zlen_app, (carried_len _ _ _ Hc). lia.
Qed.

(** ** Alignment preserves control flow *)

(** The instruction at [o], now at [o'], with its jump redirected. *)
Definition redirect (m : BTreeMap Z) (o o' : Z) (i : Inst) : Inst :=
  match disp i with
  | Some d => match bt_get (o + d) m with Some t => set_disp i (t - o') | None => i end
  | None => i
  end.

Lemma decode_fallthrough r : decode (fallthrough_bytes ++ r) = Some (Fallthrough, 4).
Proof. by apply decode_app. Qed.

(** C17: alignment keeps the control flow of a program. The first instruction stays
    first. An instruction at [o] is found at its new place [o'] with the same
    length and registers; if it jumps to an instruction, it jumps to that
    instruction's new place. The instruction after it is the next one, directly
    or across an injected [Fallthrough]. *)
Theorem align_preserves_control_flow code extra code' m :
  Forall (is_u 8) code -> zlen code < 2 ^ 31 -> zlen code' < 2 ^ 31 ->
  align_branch_targets code extra = Ret (Ok (code', m)) ->
  (code <> [] -> bt_get 0 m = Some 0) /\
  forall o o' i len, bt_get o m = Some o' -> decode (drop (Z.to_nat o) code) = Some (i, len) ->
    (exists i', decode (drop (Z.to_nat o') code') = Some (i', len) /\ erase i' = erase (redirect m o o' i)) /\
    (o + len < zlen code -> exists n', bt_get (o + len) m = Some n' /\
       (n' = o' + len \/ n' = o' + len + 4 /\ decode (drop (Z.to_nat (o' + len)) code') = Some (Fallthrough, 4))).
Proof.
  intros HB Hl Hl' H. destruct (align_spec code extra HB code' m Hl Hl' H) as (inj & sl & A). split.
  { intros Hne. rewrite (al_map _ _ _ _ _ _ A). apply layout_get. pose proof (placed_concat 0 code) as E.
    pose proof (placed_consecutive 0 code) as C. destruct (placed 0 code) as [|[p c] r]; [by subst|].
    destruct C as (-> & _ & _). eexists. split; [by left|]. cbn [s_old s_new]. by rewrite (al_post _ _ _ _ _ _ A). }
  intros o o' i len Ho Hd. destruct (aligned_slot _ _ _ _ _ _ _ _ A Ho) as (c & c' & [Hin (r & Hr & Hend) [r' Hr'] Hc Hn]).
  rewrite Hr in Hd. destruct Hc as [[Hlen Hby Hcl _ (j & j' & Dc & Dc' & Ej)]|[-> Dn]].
  - rewrite (decode_app _ r _ _ Dc) in Hd. injection Hd as <- <-. split.
    + exists j'. rewrite Hr'. split; [by apply decode_app|]. rewrite Ej. unfold place_disp, redirect.
      destruct (disp j) as [d|] eqn:Hd; [|done].
      destruct (disp_range _ _ _ _ (placed_bytes code HB _ _ Hin) Dc Hd) as [Hrg _].
      pose proof (placed_below _ _ _ _ Hin). pose proof (zlen_nonneg c).
      rewrite (al_map _ _ _ _ _ _ A), edge_target_get by lia. done.
    + intros Hlt. destruct (Hn Hlt) as (n' & Hn' & Hcase). exists n'. split; [done|].
      destruct Hcase as [->|[-> [r2 Hr2]]]; [by left|right]. split; [done|]. rewrite Hr2. apply decode_fallthrough.
  - rewrite (Hend Dn), app_nil_r in Hd. congruence.
Qed.

(** [jal x0, 8; nop; nop]: the target, the second [nop], needs a boundary. *)
Definition sample_jump : list Z := to_le_bytes 4 0x0080006F ++ NOP_BYTES ++ NOP_BYTES.
Definition sample_aligned : list Z := to_le_bytes 4 0x00C0006F ++ NOP_BYTES ++ fallthrough_bytes ++ NOP_BYTES.

Lemma align_preserves_control_flow_witness :
  bt_get 8 [(0, 0); (4, 4); (8, 12)] = Some 12 /\
  exists i', decode (drop (Z.to_nat 0) sample_aligned) = Some (i', 4) /\ erase i' = Jal 0 12.
Proof.
  split; [reflexivity|].
  destruct (align_preserves_control_flow sample_jump [] sample_aligned [(0, 0); (4, 4); (8, 12)]) as [_ H].
  - apply bytes_check. reflexivity.
  - reflexivity.
  - reflexivity.
  - vm_compute. reflexivity.
  - exact (proj1 (H 0 0 (Jal 0 8) 4 eq_refl eq_refl)).
Defined.

(** ** Fixups keep the instructions in place *)

(** A slot whose immediate may have been patched. *)
Record kept (s s' : Slot) : Prop := {
  k_old : s_old s' = s_old s;
  k_new : s_new s' = s_new s;
  k_inj : s_inj s' = s_inj s;
  k_len : zlen (s_bytes s') = zlen (s_bytes s);
  k_class : fst (classify_piece (s_bytes s')) = fst (classify_piece (s_bytes s));
  k_bytes : Forall (is_u 8) (s_bytes s) -> Forall (is_u 8) (s_bytes s');
  k_whole : whole (s_bytes s) -> whole (s_bytes s');
  k_cut : decode (s_bytes s) = None -> decode (s_bytes s') = None;
}.

Lemma kept_refl s : kept s s.
Proof. by split. Qed.

Lemma kept_trans s t u : kept s t -> kept t u -> kept s u.
Proof. intros [] []. split; (congruence || auto). Qed.

Lemma kept_chain sl sl' n : Forall2 kept sl sl' -> chain n sl -> chain n sl'.
Proof.
  intros F. revert n. induction F as [|s s' l l' H F IH]; intros n; [done|]. intros [Hs C]. cbn [chain].
  rewrite (k_new _ _ H), (k_inj _ _ H), (k_len _ _ H). split; [done|]. by apply IH.
Qed.

Lemma kept_all_refl sl : Forall2 kept sl sl.
Proof. induction sl; constructor; auto using kept_refl. Qed.

Lemma kept_all_trans a b c : Forall2 kept a b -> Forall2 kept b c -> Forall2 kept a c.
Proof.
  intros F. revert c. induction F as [|s t l l' H F IH]; intros c G.
  - apply Forall2_nil_inv_l in G as ->. constructor.
  - apply Forall2_cons_inv_l in G as (u & k & Hu & Hk & ->). constructor; [by eapply kept_trans|by apply IH].
Qed.

Lemma kept_old sl sl' : Forall2 kept sl sl' -> map s_old sl' = map s_old sl.
Proof. induction 1 as [|a b x y H F IH]; [done|]. cbn. by rewrite (k_old _ _ H), IH. Qed.

Lemma kept_bytes sl sl' :
  Forall2 kept sl sl' -> Forall (fun s => Forall (is_u 8) (s_bytes s)) sl -> Forall (fun s => Forall (is_u 8) (s_bytes s)) sl'.
Proof. induction 1 as [|a b x y H F IH]; [done|]. intros B. inversion B; subst. constructor; [by apply (k_bytes _ _ H)|auto]. Qed.

(** The opcode decides what the linker sees in a word. *)
Lemma classify_word_opcode w w' : opcode_of w' = opcode_of w -> fst (classify_word w') = fst (classify_word w).
Proof. intros E. unfold classify_word. rewrite E. by repeat destruct (_ =? _). Qed.

(** A complete slot whose word is replaced by one of the same opcode. *)
Lemma kept_word s w w' :
  s_bytes s = to_le_bytes 4 w -> is_u 32 w -> is_full_length w = true -> is_u 32 w' -> opcode_of w' = opcode_of w ->
  kept s (mkSlot (s_old s) (s_new s) (s_inj s) (to_le_bytes 4 w')).
Proof.
  intros E Hw F Hw' Ho. assert (is_full_length w' = true) as F'.
  { unfold is_full_length in *. destruct (major_of w Hw) as [_ L]. destruct (major_of w' Hw') as [_ L'].
    by rewrite L', Ho, <- L. }
  destruct (decode_word_of w Hw F) as [D C]. destruct (decode_word_of w' Hw' F') as [D' C'].
  split; cbn [s_old s_new s_inj s_bytes]; try done.
  - by rewrite E.
  - rewrite E, C, C'. by apply classify_word_opcode.
  - intros _. apply to_le_bytes_bytes.
  - intros _. exists (dec32 w'). by rewrite zlen_le_bytes.
  - rewrite E, D. done.
Qed.

(** ** Slots by old offset *)

Definition bytes_at (sl : list Slot) (o : Z) : option (list Z) :=
  s_bytes <$> List.find (fun s => s_old s =? o) sl.

Definition set_bytes (o : Z) (bs : list Z) (sl : list Slot) : list Slot :=
  map (fun s => if s_old s =? o then mkSlot (s_old s) (s_new s) (s_inj s) bs else s) sl.

Lemma bytes_at_set o bs sl o' :
  bytes_at (set_bytes o bs sl) o' = if o' =? o then (fun _ => bs) <$> bytes_at sl o' else bytes_at sl o'.
Proof.
  unfold bytes_at. induction sl as [|s r IH]; cbn [set_bytes map List.find]; [by destruct (o' =? o)|].
  destruct (Z.eqb_spec (s_old s) o) as [E|E]; cbn [s_old].
  - destruct (Z.eqb_spec (s_old s) o') as [E'|E']; [|apply IH]. destruct (Z.eqb_spec o' o); [done|lia].
  - destruct (Z.eqb_spec (s_old s) o') as [E'|E']; [|apply IH]. destruct (Z.eqb_spec o' o); [lia|done].
Qed.

Lemma set_bytes_other o bs sl : ~ In o (map s_old sl) -> set_bytes o bs sl = sl.
Proof.
  induction sl as [|s r IH]; cbn [map In set_bytes]; [done|]. intros H. destruct (Z.eqb_spec (s_old s) o); [naive_solver|].
  f_equal. apply IH. tauto.
Qed.

Lemma set_bytes_split o bs l s r :
  NoDup (map s_old (l ++ s :: r)) -> s_old s = o ->
  set_bytes o bs (l ++ s :: r) = l ++ mkSlot (s_old s) (s_new s) (s_inj s) bs :: r.
Proof.
  intros N E. rewrite map_app in N. cbn [map] in N. apply list.NoDup_app in N as (_ & Hl & N).
  apply list.NoDup_cons in N as [Hr _]. unfold set_bytes. rewrite map_app. cbn [map].
  destruct (Z.eqb_spec (s_old s) o); [|done]. f_equal; [|f_equal].
  - apply set_bytes_other. intros Hin. apply list_elem_of_In in Hin. apply (Hl o Hin). rewrite <- E. by left.
  - apply set_bytes_other. intros Hin. apply Hr. rewrite E. by apply list_elem_of_In.
Qed.

Lemma bytes_at_split o l s r : NoDup (map s_old (l ++ s :: r)) -> s_old s = o -> bytes_at (l ++ s :: r) o = Some (s_bytes s).
Proof.
  intros N E. unfold bytes_at. rewrite map_app in N. cbn [map] in N. apply list.NoDup_app in N as (_ & Hl & _).
  induction l as [|s' l IH]; cbn [app List.find].
  - destruct (Z.eqb_spec (s_old s) o); done.
  - destruct (Z.eqb_spec (s_old s') o) as [E'|E'].
    + exfalso. apply (Hl (s_old s')); [by left|]. rewrite E', <- E. by left.
    + apply IH. intros x Hx. apply Hl. by right.
Qed.

(** A full-length word read at a slot is the slot's instruction. *)
Lemma slot_word P c R w :
  whole c \/ decode c = None /\ R = [] -> Forall (is_u 8) c ->
  word_at (P ++ c ++ R) (zlen P) = Ret w -> is_full_length w = true -> c = to_le_bytes 4 w /\ is_u 32 w.
Proof.
  intros W B H F. assert (4 <= zlen c + zlen R) as Hlen.
  { unfold word_at, slice in H. rewrite !zlen_app in H. destruct (_ && _) eqn:E in H; [|done]. lia. }
  destruct W as [W|[D ->]].
  - destruct (whole_inv c W) as [(b0 & b1 & -> & F')|(b0 & b1 & b2 & b3 & -> & F')].
    + destruct R as [|x [|y R]]; [unfold zlen in Hlen; cbn [length] in Hlen; lia..|].
      cbn [app] in H. rewrite word_at_app in H. assert (w = from_le_bytes [b0; b1; x; y]) as -> by congruence.
      unfold is_full_length in *. rewrite half_length in F. congruence.
    + cbn [app] in H. rewrite word_at_app in H. assert (w = from_le_bytes [b0; b1; b2; b3]) as -> by congruence. split.
      * symmetry. by apply (to_from_le_bytes [b0; b1; b2; b3]).
      * by apply (from_le_bytes_range [b0; b1; b2; b3]).
  - pose proof (decode_cases c) as K. rewrite D in K. unfold zlen in Hlen. cbn [length] in Hlen. lia.
Qed.

(** The low part of a word, patched by the kind of its opcode. *)
Definition patched (w imm : Z) : Z :=
  if is_lo12_i w then patch_imm_i w imm else if is_lo12_s w then patch_imm_s w imm else w.

Lemma patched_ok w imm : is_u 32 w -> is_u 32 (patched w imm) /\ opcode_of (patched w imm) = opcode_of w.
Proof.
  intros Hw. unfold patched. destruct (is_lo12_i w); [by apply patch_imm_i_ok|].
  destruct (is_lo12_s w); [by apply patch_imm_s_ok|done].
Qed.

Lemma first_byte_opcode b r : Z.land (from_le_bytes (b :: r)) 0x7F = Z.land b 0x7F.
Proof. cbn [from_le_bytes]. masks. pows. dlia. Qed.

(** Patching at a slot: the whole word, or nothing. *)
Lemma patch_lo12_slot P c R imm code1 :
  whole c \/ decode c = None /\ R = [] -> Forall (is_u 8) c ->
  patch_lo12 (P ++ c ++ R) (zlen P) imm = Ret code1 ->
  (code1 = P ++ c ++ R /\ forall w, c = to_le_bytes 4 w -> is_u 32 w -> is_lo12_i w || is_lo12_s w = false) \/
  exists w, c = to_le_bytes 4 w /\ is_u 32 w /\ is_full_length w = true /\ is_lo12_i w || is_lo12_s w = true /\
    code1 = P ++ to_le_bytes 4 (patched w imm) ++ R.
Proof.
  intros W B H. unfold patch_lo12 in H. apply res_bind_ret in H as (b & Hb & H).
  destruct (Z.leb_spec 0 (zlen P)) as [_|Hneg]; [|pose proof (zlen_nonneg P); lia].
  assert (exists c2, c = b :: c2) as [c2 Ec].
  { unfold zlen in Hb. rewrite Nat2Z.id, lookup_app_r, Nat.sub_diag in Hb by lia. destruct c as [|b' c2].
    - destruct W as [[i W]|[_ ->]]; done.
    - cbn in Hb. injection Hb as ->. eauto. }
  assert (forall w, c = to_le_bytes 4 w -> is_u 32 w -> Z.land w 0x7F = Z.land b 0x7F) as Hbw.
  { intros w Ew Hw. pose proof (from_to_le_bytes 4 w) as E. rewrite <- Ew, Ec, wrap_small in E by done.
    rewrite <- E. apply first_byte_opcode. }
  assert (forall w, word_at (P ++ c ++ R) (zlen P) = Ret w -> is_lo12_i b || is_lo12_s b = true ->
    c = to_le_bytes 4 w /\ is_u 32 w /\ is_full_length w = true) as Hwd.
  { intros w Hw Hk. assert (Z.land w 0x7F = Z.land b 0x7F) as Eo.
    { unfold word_at, slice in Hw. destruct (_ && _) eqn:G in Hw; [|done]. injection Hw as Hw. rewrite <- Hw.
      unfold zlen. rewrite Nat2Z.id, drop_app_length, Ec.
      replace (Z.to_nat _) with 4%nat by lia. apply first_byte_opcode. }
    assert (is_full_length w = true) as Fw.
    { unfold is_full_length. replace (Z.land w 3) with (Z.land (Z.land w 0x7F) 3) by by rewrite <- Z.land_assoc.
      rewrite Eo. unfold is_lo12_i, is_lo12_s in Hk. cbv zeta in Hk. rewrite !orb_true_iff, !Z.eqb_eq in Hk.
      by destruct Hk as [[[-> | ->]| ->]| ->]. }
    by destruct (slot_word _ _ _ w W B Hw Fw). }
  assert (forall w, Z.land w 0x7F = Z.land b 0x7F -> is_lo12_i w = is_lo12_i b /\ is_lo12_s w = is_lo12_s b) as Hk.
  { intros w Ew. unfold is_lo12_i, is_lo12_s. by rewrite Ew. }
  destruct (is_lo12_i b || is_lo12_s b) eqn:K.
  - right. assert (exists w, word_at (P ++ c ++ R) (zlen P) = Ret w /\
      put_at (P ++ c ++ R) (zlen P) (to_le_bytes 4 (if is_lo12_i b then patch_imm_i w imm else patch_imm_s w imm)) = Ret code1)
      as (w & Hw & Hput).
    { destruct (is_lo12_i b); [by apply res_bind_ret in H|]. cbn [orb] in K. rewrite K in H. by apply res_bind_ret in H. }
    destruct (Hwd w Hw eq_refl) as (Ew & Hu & Fw). destruct (Hk w (Hbw w Ew Hu)) as [Ki Ks].
    exists w. rewrite Ki, Ks, K. split_and!; try done.
    rewrite put_at_app in Hput by (by rewrite Ew, !zlen_le_bytes). injection Hput as <-.
    unfold patched. rewrite Ki, Ks. destruct (is_lo12_i b); [done|]. cbn [orb] in K. by rewrite K.
  - left. apply orb_false_iff in K as [K1 K2]. rewrite K1, K2 in H. injection H as <-. split; [done|].
    intros w Ew Hu. destruct (Hk w (Hbw w Ew Hu)) as [-> ->]. by rewrite K1, K2.
Qed.

(** The slots of aligned code. *)
Record slots_ok (m : BTreeMap Z) (sl : list Slot) : Prop := {
  sk_chain : chain 0 sl;
  sk_nodup : NoDup (map s_old sl);
  sk_map : forall o o', bt_get o m = Some o' -> exists s, In s sl /\ s_old s = o /\ s_new s = o';
  sk_bytes : Forall (fun s => Forall (is_u 8) (s_bytes s)) sl;
  sk_whole : forall l s r, sl = l ++ s :: r ->
    (r <> [] -> whole (s_bytes s)) /\ (whole (s_bytes s) \/ decode (s_bytes s) = None);
}.

Section Fixups.
  Context (m : BTreeMap Z) (sl0 : list Slot) (OK : slots_ok m sl0).

(** The slot an entry of the map names, in code patched so far. *)
Lemma kept_slot sl o o' :
  Forall2 kept sl0 sl -> bt_get o m = Some o' ->
  exists l s r, sl = l ++ s :: r /\ s_old s = o /\ s_new s = o' /\ NoDup (map s_old sl) /\
    flat sl = (flat l ++ gap (s_inj s)) ++ s_bytes s ++ flat r /\ zlen (flat l ++ gap (s_inj s)) = o' /\
    Forall (is_u 8) (s_bytes s) /\ (whole (s_bytes s) \/ decode (s_bytes s) = None /\ flat r = []).
Proof using OK.
  intros F Ho. destruct OK as [Ch Nd Mp By Wh]. destruct (Mp o o' Ho) as (s0 & Hin & <- & <-). apply in_split in Hin as (l0 & r0 & E).
  pose proof (kept_chain _ _ 0 F Ch) as C. rewrite E in F. pose proof F as F'.
  apply Forall2_app_inv_l in F' as (l & k & Fl & Fk & ->). apply Forall2_cons_inv_l in Fk as (s & r & Hs & Fr & ->).
  exists l, s, r. pose proof (chain_split _ _ _ _ C) as Hn. destruct (Wh _ _ _ E) as [W1 W2]. split_and!; try done.
  - apply (k_old _ _ Hs).
  - apply (k_new _ _ Hs).
  - by rewrite (kept_old _ _ F), <- E.
  - by rewrite flat_app, flat_cons, <- !app_assoc.
  - rewrite zlen_app. rewrite (k_new _ _ Hs) in Hn. lia.
  - apply (k_bytes _ _ Hs). rewrite Forall_forall in By. apply By. rewrite E. apply in_app_iff. right. by left.
  - destruct W2 as [W2|W2]; [left; by apply (k_whole _ _ Hs)|]. destruct r0 as [|t r0].
    + right. split; [by apply (k_cut _ _ Hs)|]. by apply Forall2_nil_inv_l in Fr as ->.
    + destruct W1 as [i W1]; [done|congruence].
Qed.

Lemma set_bytes_kept sl o o' w w' :
  Forall2 kept sl0 sl -> bt_get o m = Some o' -> bytes_at sl o = Some (to_le_bytes 4 w) ->
  is_u 32 w -> is_full_length w = true -> is_u 32 w' -> opcode_of w' = opcode_of w ->
  Forall2 kept sl (set_bytes o (to_le_bytes 4 w') sl) /\
  put_at (flat sl) o' (to_le_bytes 4 w') = Ret (flat (set_bytes o (to_le_bytes 4 w') sl)).
Proof using OK.
  intros F Ho Hb Hw Fw Hw' Hop. destruct (kept_slot sl o o' F Ho) as (l & s & r & -> & Es & En & N & Ef & Hz & _ & _).
  rewrite (bytes_at_split o l s r N Es) in Hb. injection Hb as Hb. rewrite (set_bytes_split o _ l s r N Es). split.
  - apply Forall2_app; [apply kept_all_refl|]. constructor; [|apply kept_all_refl]. by apply (kept_word s w w').
  - rewrite Ef, <- Hz, put_at_app by by rewrite Hb, !zlen_le_bytes.
    by rewrite flat_app, flat_cons, <- !app_assoc.
Qed.

(** One [auipc] re-encoded. *)
Lemma fixup_auipc_step sl a t code1 :
  Forall2 kept sl0 sl -> fixup_auipc m (flat sl) (a, t) = Ret (Ok code1) ->
  exists na nt, bt_get a m = Some na /\ bt_get t m = Some nt /\
    (code1 = flat sl /\ zlen (flat sl) < na + 4 \/
     exists w, bytes_at sl a = Some (to_le_bytes 4 w) /\ is_u 32 w /\ opcode_of w = OP_AUIPC /\
       let sl1 := set_bytes a (to_le_bytes 4 (hi20_word w (wrap 32 (nt - na)) OP_AUIPC)) sl in
       code1 = flat sl1 /\ Forall2 kept sl sl1).
Proof using OK.
  intros F H. unfold fixup_auipc, remap in H. cbn [fst snd] in H.
  destruct (bt_get a m) as [na|] eqn:Ha; [|done]. destruct (bt_get t m) as [nt|] eqn:Ht; [|done].
  exists na, nt. split; [done|]. split; [done|]. cbn [try_bind res_bind] in H.
  destruct (Z.ltb_spec (zlen (flat sl)) (na + 4)); [left; injection H as <-; split; [done|lia]|right].
  apply res_bind_ret in H as (w & Hwd & H). destruct (Z.eqb_spec (opcode_of w) OP_AUIPC) as [Ho|]; [|done]. cbn [negb] in H.
  destruct (kept_slot sl a na F Ha) as (l & s & r & E & Es & En & N & Ef & Hz & B & W). exists w.
  rewrite Ef, <- Hz in Hwd. assert (is_full_length w = true) as Fw.
  { unfold is_full_length. replace (Z.land w 3) with (Z.land (opcode_of w) 3); [by rewrite Ho|].
    unfold opcode_of. by rewrite <- Z.land_assoc. }
  destruct (slot_word _ _ _ w W B Hwd Fw) as [Eb Hw].
  assert (bytes_at sl a = Some (to_le_bytes 4 w)) as Hat by (subst sl; rewrite (bytes_at_split a l s r N Es); by f_equal).
  destruct (hi20_word_ok w (wrap 32 (nt - na)) OP_AUIPC Hw ltac:(unfold OP_AUIPC; lia)) as [Hw' Ho'].
  destruct (set_bytes_kept sl a na w _ F Ha Hat Hw Fw Hw' ltac:(congruence)) as [K Hput].
  split; [done|]. split; [done|]. split; [done|]. rewrite Hput in H. injection H as <-. done.
Qed.

(** One low part re-encoded. *)
Lemma fixup_lo12_step sl lo a t code1 :
  Forall2 kept sl0 sl -> fixup_lo12 m (flat sl) (lo, a, t) = Ret (Ok code1) ->
  exists nl na nt, bt_get lo m = Some nl /\ bt_get a m = Some na /\ bt_get t m = Some nt /\
    (code1 = flat sl /\
     (zlen (flat sl) < nl + 4 \/
      forall w, bytes_at sl lo = Some (to_le_bytes 4 w) -> is_u 32 w -> is_lo12_i w || is_lo12_s w = false) \/
     exists w, bytes_at sl lo = Some (to_le_bytes 4 w) /\ is_u 32 w /\ is_lo12_i w || is_lo12_s w = true /\
       let sl1 := set_bytes lo (to_le_bytes 4 (patched w (sext 12 (nt - na)))) sl in
       code1 = flat sl1 /\ Forall2 kept sl sl1).
Proof using OK.
  intros F H. unfold fixup_lo12, remap in H.
  destruct (bt_get lo m) as [nl|] eqn:Hl; [|done]. destruct (bt_get a m) as [na|] eqn:Ha; [|done].
  destruct (bt_get t m) as [nt|] eqn:Ht; [|done]. exists nl, na, nt. split_and!; try done.
  cbn [try_bind res_bind] in H.
  destruct (Z.ltb_spec (zlen (flat sl)) (nl + 4)); [left; injection H as <-; auto|].
  apply res_bind_ret in H as (c1 & H & [= ->]).
  destruct (kept_slot sl lo nl F Hl) as (l & s & r & E & Es & En & N & Ef & Hz & B & W).
  assert (bytes_at sl lo = Some (s_bytes s)) as Hat by (subst sl; by apply bytes_at_split).
  rewrite Ef, <- Hz in H. destruct (patch_lo12_slot _ _ _ _ _ W B H) as [[-> Hno]|(w & Ew & Hw & Fw & Hk & ->)].
  - left. split; [done|]. right. intros w Hw. apply Hno. congruence.
  - right. exists w. rewrite <- Ew. split_and!; try done. destruct (patched_ok w (sext 12 (nt - na)) Hw) as [Hw' Ho'].
    rewrite Ew in Hat. destruct (set_bytes_kept sl lo nl w _ F Hl Hat Hw Fw Hw' Ho') as [K Hput].
    split; [|done]. rewrite Ef, <- Hz, put_at_app in Hput by by rewrite Ew, !zlen_le_bytes. by injection Hput.
Qed.

Definition at_slots (code : list Z) : Prop := exists sl, code = flat sl /\ Forall2 kept sl0 sl.

Lemma fixup_auipc_at_slots c e c' : at_slots c -> fixup_auipc m c e = Ret (Ok c') -> at_slots c'.
Proof using OK.
  intros (sl & -> & F) H. destruct e as [a t].
  destruct (fixup_auipc_step sl a t c' F H) as (na & nt & _ & _ & [[-> _]|(w & _ & _ & _ & -> & K)]);
    eexists; split; eauto using kept_all_trans.
Qed.

Lemma fixup_lo12_at_slots c e c' : at_slots c -> fixup_lo12 m c e = Ret (Ok c') -> at_slots c'.
Proof using OK.
  intros (sl & -> & F) H. destruct e as [[lo a] t].
  destruct (fixup_lo12_step sl lo a t c' F H) as (nl & na & nt & _ & _ & _ & [[-> _]|(w & _ & _ & _ & -> & K)]);
    eexists; split; eauto using kept_all_trans.
Qed.

Lemma fixup_at_slots au lo c' : fixup_code_pcrel (flat sl0) m au lo = Ret (Ok c') -> at_slots c'.
Proof using OK.
  intros H. apply try_bind_ok in H as (c & H1 & H2).
  eapply try_fold_ind; [|eapply try_fold_ind; [| |exact H1]|exact H2].
  - intros a b a' _. apply fixup_lo12_at_slots.
  - intros a b a' _. apply fixup_auipc_at_slots.
  - exists sl0. split; [done|apply kept_all_refl].
Qed.
End Fixups.

(** ** Streams of instructions *)

(** The predecoder finds the instructions the code is made of. *)
Lemma tiles_reach code cs : forall at_ l stop c R,
  0 <= at_ -> stop <= zlen code -> (stop < zlen code -> decode (drop (Z.to_nat stop) code) = None) ->
  tiles code at_ l stop -> drop (Z.to_nat at_) code = concat cs ++ c ++ R ->
  Forall whole cs -> whole c ->
  exists l1 x l2, l = l1 ++ x :: l2 /\ pc x = at_ + zlen (concat cs) /\
    Forall2 (fun d y => decode d = Some (inst y, zlen d)) cs l1.
Proof.
  induction cs as [|d cs IH]; intros at_ l stop c R Ha Hs Hstop T Hd W Wc.
  - cbn [concat app] in Hd. destruct l as [|x l].
    + cbn in T. subst stop. destruct Wc as [i Wc]. pose proof (decode_app _ R _ _ Wc) as D. rewrite <- Hd in D.
      destruct (Z.lt_ge_cases at_ (zlen code)) as [Hlt|Hge]; [rewrite Hstop in D by done; done|].
      rewrite drop_ge in D by (unfold zlen in Hge; lia). done.
    + destruct T as (Hp & _). exists [], x, l. split_and!; [done|change (zlen (concat [])) with 0; lia|constructor].
  - inversion W as [|? ? [i Wd] W']; subst. cbn [concat] in Hd. rewrite <- app_assoc in Hd.
    pose proof (decode_app _ (concat cs ++ c ++ R) _ _ Wd) as D. rewrite <- Hd in D. destruct l as [|y l].
    + cbn in T. subst stop. destruct (Z.lt_ge_cases at_ (zlen code)) as [Hlt|Hge]; [rewrite Hstop in D by done; done|].
      rewrite drop_ge in D by (unfold zlen in Hge; lia). done.
    + destruct T as (Hp & Hb & Dy & _ & T). rewrite Dy in D. injection D as Ei En.
      assert (next_pc y = at_ + zlen d) as Eny by lia.
      destruct (IH (next_pc y) l stop c R) as (l1 & x & l2 & -> & Hx & F); try done; [lia| |].
      { rewrite Eny. pose proof (zlen_nonneg d). rewrite Z2Nat.inj_add, <- drop_drop, Hd by lia.
        unfold zlen. by rewrite Nat2Z.id, drop_app_length. }
      exists (y :: l1), x, l2. cbn [concat]. rewrite zlen_app. split_and!; [done|lia|]. constructor; [|done].
      rewrite Wd. by rewrite Ei.
Qed.

Lemma tiles_inside code at_ l stop :
  0 <= at_ -> tiles code at_ l stop -> forall x, In x l -> 0 <= pc x /\ pc x < next_pc x <= zlen code.
Proof.
  revert at_. induction l as [|y l IH]; intros at_ Ha T x; [done|]. destruct T as (Hp & Hb & _ & _ & T).
  intros [<-|Hin]; [unfold zlen; lia|]. by apply (IH (next_pc y)); [lia|..].
Qed.

Lemma predecode_stream code :
  zlen code < 2 ^ 32 ->
  exists stop, tiles code 0 (insts (predecode code)) stop /\ stop <= zlen code /\
    (stop < zlen code -> decode (drop (Z.to_nat stop) code) = None).
Proof.
  intros Hl. unfold predecode, predecode_rv_with_mem_cycles.
  destruct (decode_all (length code) code 0 None) as [l e] eqn:E.
  destruct (decode_all_spec (length code) code 0 None l e Hl ltac:(lia) ltac:(lia) E) as (stop & T & Hs & Hbad & _).
  exists stop. cbn [compute_block_costs insts]. split; [by apply mark_starts_tiles|]. split; [done|].
  intros Hlt. by apply Hbad.
Qed.

(** [x] is the address of a block of the predecoded code. *)
Definition starts_block (code : list Z) (x : Z) : Prop :=
  exists y, In y (insts (predecode code)) /\ pc y = x /\ is_gas_block_start y = true.

(** An instruction that is first, or follows a terminator, starts a block. *)
Lemma block_start_after code cs c R :
  zlen code < 2 ^ 32 -> code = concat cs ++ c ++ R -> Forall whole cs -> whole c ->
  cs = [] \/ (exists cs' d i, cs = cs' ++ [d] /\ decode d = Some (i, zlen d) /\ is_terminator i = true) ->
  starts_block code (zlen (concat cs)).
Proof.
  intros Hl E W Wc Hpre. destruct (predecode_stream code Hl) as (stop & T & Hs & Hstop).
  destruct (tiles_reach code cs 0 _ stop c R ltac:(lia) Hs Hstop T E W Wc) as (l1 & x & l2 & El & Hx & F).
  exists x. split_and!; [rewrite El; apply in_app_iff; right; by left|lia|].
  rewrite (po_start _ _ _ (predecode_is_ok code DEFAULT_MEM_CYCLES Hl) (length l1) x).
  2: { change (predecode_rv_with_mem_cycles code DEFAULT_MEM_CYCLES) with (predecode code). rewrite El. by apply list_lookup_middle. }
  apply orb_true_intro. left. change (predecode_rv_with_mem_cycles code DEFAULT_MEM_CYCLES) with (predecode code).
  destruct Hpre as [->|(cs' & d & i & -> & D & Ht)].
  - by apply Forall2_nil_inv_l in F as ->.
  - apply Forall2_app_inv_l in F as (l1' & k & F1 & F2 & ->). apply Forall2_cons_inv_l in F2 as (y & k' & Dy & F2 & ->).
    apply Forall2_nil_inv_l in F2 as ->. rewrite length_app. cbn [length]. rewrite Nat.add_1_r. cbn [after_terminator].
    rewrite El, <- app_assoc. cbn [app]. rewrite list_lookup_middle by done. congruence.
Qed.

(** What the linker takes for a terminator ends a block. *)
Lemma class_terminator c i :
  Forall (is_u 8) c -> decode c = Some (i, zlen c) -> fst (classify_piece c) = true -> is_terminator i = true.
Proof.
  intros B D K. destruct (whole_inv c (ex_intro _ i D)) as [(b0 & b1 & -> & F)|(b0 & b1 & b2 & b3 & -> & F)].
  - rewrite decode_half in D by done. injection D as <-. cbn [classify_piece] in K. rewrite F in K.
    apply classify_half_dec; [|done..]. by apply (from_le_bytes_range [b0; b1]).
  - rewrite decode_word in D by (unfold is_full_length in *; by rewrite half_length). injection D as <-.
    apply classify_word_dec; [|done]. by apply (from_le_bytes_range [b0; b1; b2; b3]).
Qed.

(** ** Targets of the linked code start blocks *)

Lemma carried_kept m s s' : carried m s s' -> kept s s'.
Proof.
  intros [Ho Hn Hi [M|[E D]]].
  - destruct (mv_inst _ _ _ _ _ M) as (i & i' & D & D' & _).
    split; try done; [apply (mv_len _ _ _ _ _ M)|apply (mv_class _ _ _ _ _ M)|intros _; apply (mv_bytes _ _ _ _ _ M)| |congruence].
    intros _. exists i'. by rewrite (mv_len _ _ _ _ _ M).
  - split; rewrite ?E; done.
Qed.

Definition piece (s : Slot) : Z * list Z := (s_old s, s_bytes s).

Lemma layout_pieces inj n ps : map piece (layout inj n ps) = ps.
Proof. revert n. induction ps as [|[p c] r IH]; intros n; cbn; [done|]. by rewrite IH. Qed.

(** The instruction that ends where another begins is the one before it. *)
Lemma consecutive_prev pc l x c r p d :
  consecutive pc (l ++ (x, c) :: r) -> In (p, d) (l ++ (x, c) :: r) -> p + zlen d = x -> exists l', l = l' ++ [(p, d)].
Proof.
  revert pc. induction l as [|[q e] l IH]; intros pc C Hin Hx.
  - destruct (consecutive_above _ _ _ _ C Hin) as (? & Hd & _). destruct C as (-> & _ & _). pose proof (zlen_pos _ Hd). lia.
  - cbn [app] in C, Hin. destruct C as (-> & He & C). destruct Hin as [[= <- <-]|Hin].
    + destruct l as [|[q2 e2] l]; [by exists []|]. destruct C as (-> & He2 & C).
      assert (In x (map fst (l ++ (x, c) :: r))) as Hm.
      { rewrite map_app. apply in_app_iff. right. by left. }
      apply (consecutive_fst_above _ _ _ C) in Hm. pose proof (zlen_pos _ He2). lia.
    + destruct (IH _ C Hin Hx) as [l' ->]. by exists ((pc, e) :: l').
Qed.

(** The instructions of slots, injected ones included. *)
Definition stream (sl : list Slot) : list (list Z) :=
  concat (map (fun s => (if s_inj s then [fallthrough_bytes] else []) ++ [s_bytes s]) sl).

Lemma stream_flat sl : concat (stream sl) = flat sl.
Proof.
  induction sl as [|s r IH]; [done|]. unfold stream in *. cbn [map concat]. rewrite concat_app, IH, flat_cons.
  destruct (s_inj s); cbn [gap concat app]; by rewrite ?app_nil_r, <- ?app_assoc.
Qed.

Lemma fallthrough_whole : whole fallthrough_bytes.
Proof. by exists Fallthrough. Qed.

Lemma stream_whole sl : Forall (fun s => whole (s_bytes s)) sl -> Forall whole (stream sl).
Proof.
  induction 1 as [|s r H _ IH]; [constructor|]. unfold stream in *. cbn [map concat]. apply Forall_app. split; [|done].
  destruct (s_inj s); repeat constructor; auto using fallthrough_whole.
Qed.

(** A direct jump of the code, or a target the caller names. *)
Definition jump_target (code extra : list Z) (m : BTreeMap Z) (x : Z) : Prop :=
  In x extra \/
  exists o o' i len d, bt_get o m = Some o' /\ decode (drop (Z.to_nat o) code) = Some (i, len) /\ disp i = Some d /\ x = o + d.

Lemma classify_disp c i d :
  Forall (is_u 8) c -> decode c = Some (i, zlen c) -> disp i = Some d -> snd (classify_piece c) = Some d.
Proof.
  intros B D Hd. destruct (whole_inv c (ex_intro _ i D)) as [(b0 & b1 & -> & F)|(b0 & b1 & b2 & b3 & -> & F)].
  - rewrite decode_half in D by done. injection D as <-. cbn [classify_piece]. rewrite F.
    apply classify_half_dec; [|done..]. by apply (from_le_bytes_range [b0; b1]).
  - rewrite decode_word in D by (unfold is_full_length in *; by rewrite half_length). injection D as <-.
    apply classify_word_dec; [|done]. by apply (from_le_bytes_range [b0; b1; b2; b3]).
Qed.

Section Linked.
  Context (code extra code1 : list Z) (m : BTreeMap Z) (inj : Z -> bool) (sl : list Slot).
  Context (HB : Forall (is_u 8) code) (A : aligned code extra code1 m inj sl).
  #[local] Abbreviation sl0 := (layout inj 0 (placed 0 code)).

Lemma jump_target_is_target x : jump_target code extra m x -> is_target code extra x.
Proof using HB A.
  intros [H|(o & o' & i & len & d & Ho & Hd & Hi & ->)]; [by left|right].
  destruct (aligned_slot _ _ _ _ _ _ _ _ A Ho) as (c & c' & [Hin (r & Hr & Hend) _ _ _]).
  exists o, c, d. split; [done|]. split; [|done]. rewrite Hr in Hd.
  destruct (placed_In_split _ _ _ _ Hin) as [[j W]|W].
  - rewrite (decode_app _ r _ _ W) in Hd. injection Hd as -> <-. eapply classify_disp; [|done..]. by eapply placed_bytes.
  - rewrite (Hend W), app_nil_r in Hd. congruence.
Qed.

Lemma slots_kept : Forall2 kept sl0 sl.
Proof using A. eapply Forall2_impl; [|apply (al_slots _ _ _ _ _ _ A)]. intros s s'. apply carried_kept. Qed.

Lemma layout_cut l s r : sl0 = l ++ s :: r -> (r <> [] -> whole (s_bytes s)) /\ (whole (s_bytes s) \/ decode (s_bytes s) = None).
Proof using Type.
  intros E. pose proof (layout_pieces inj 0 (placed 0 code)) as P. rewrite E, map_app in P. cbn [map] in P. symmetry in P.
  apply placed_whole in P as [W1 W2]. split; [|done]. intros Hr. apply W1. by destruct r.
Qed.

Lemma layout_piece_bytes s : In s sl0 -> Forall (is_u 8) (s_bytes s).
Proof using HB. intros Hin. by eapply placed_bytes, layout_In. Qed.

(** An offset after a terminator has that instruction just before it. *)
Lemma post_prev l s r :
  sl0 = l ++ s :: r -> is_post code (s_old s) ->
  l = [] \/ exists l' t, l = l' ++ [t] /\ fst (classify_piece (s_bytes t)) = true.
Proof using Type.
  intros E H. pose proof (layout_pieces inj 0 (placed 0 code)) as P. rewrite E, map_app in P. cbn [map] in P.
  pose proof (placed_consecutive 0 code) as C. rewrite <- P in C. destruct H as [H0|(p & c & Hin & K & Hx)].
  - left. destruct l as [|t l]; [done|]. cbn [map app] in C. destruct C as (_ & Hc & C).
    assert (In (s_old s) (map fst (map piece l ++ piece s :: map piece r))) as Hm.
    { rewrite map_app. apply in_app_iff. right. by left. }
    apply (consecutive_fst_above _ _ _ C) in Hm. pose proof (zlen_pos _ Hc). cbn in *. lia.
  - right. rewrite <- P in Hin. destruct (consecutive_prev _ _ _ _ _ p c C Hin ltac:(done)) as [l' El].
    apply map_eq_app in El as (l1 & l2 & -> & _ & El). destruct l2 as [|t [|]]; try done.
    injection El as <- <-. by exists l1, t.
Qed.

Lemma kept_start_at sl2 l0 s0 r0 :
  sl0 = l0 ++ s0 :: r0 -> whole (s_bytes s0) -> Forall2 kept sl0 sl2 -> zlen (flat sl2) < 2 ^ 32 ->
  s_inj s0 = true \/ l0 = [] \/ (exists l' t, l0 = l' ++ [t] /\ fst (classify_piece (s_bytes t)) = true) ->
  starts_block (flat sl2) (s_new s0).
Proof using HB.
  intros E W0 F Hl Hpre. pose proof (kept_chain _ _ 0 F (layout_chain _ _ _)) as Ch.
  assert (Forall (fun s => whole (s_bytes s)) l0) as Wl.
  { apply Forall_forall. intros t Ht. apply in_split in Ht as (a & b & ->).
    destruct (layout_cut a t (b ++ s0 :: r0)) as [W _]; [by rewrite E, <- app_assoc|]. apply W. by destruct b. }
  assert (Forall (fun s => Forall (is_u 8) (s_bytes s)) l0) as Bl.
  { apply Forall_forall. intros t Ht. apply layout_piece_bytes. rewrite E. apply in_app_iff. by left. }
  rewrite E in F. apply Forall2_app_inv_l in F as (l & k & Fl & Fk & ->).
  apply Forall2_cons_inv_l in Fk as (s & r & Hs & _ & ->). apply chain_split in Ch.
  assert (Forall (fun s => whole (s_bytes s)) l) as Wl2.
  { clear - Fl Wl. induction Fl as [|a b x y H F IH]; [constructor|]. inversion Wl; subst. constructor; [by apply (k_whole _ _ H)|auto]. }
  set (cs := stream l ++ (if s_inj s then [fallthrough_bytes] else [])).
  assert (concat cs = flat l ++ gap (s_inj s)) as Ec.
  { unfold cs. rewrite concat_app, stream_flat. by destruct (s_inj s). }
  replace (s_new s0) with (zlen (concat cs)) by (rewrite Ec, zlen_app; rewrite (k_new _ _ Hs) in Ch; lia).
  eapply (block_start_after _ cs (s_bytes s) (flat r)); [done|by rewrite flat_app, flat_cons, Ec, <- app_assoc| |by apply (k_whole _ _ Hs)|].
  { unfold cs. apply Forall_app. split; [by apply stream_whole|]. destruct (s_inj s); repeat constructor; apply fallthrough_whole. }
  unfold cs. rewrite <- (k_inj _ _ Hs) in Hpre. destruct (s_inj s); [right; by exists (stream l), fallthrough_bytes, Fallthrough|].
  rewrite app_nil_r. destruct Hpre as [|[->|(l' & t & -> & K)]]; [done|left; by apply Forall2_nil_inv_l in Fl as ->|right].
  apply Forall2_app_inv_l in Fl as (l1 & k & F1 & F2 & ->). apply Forall2_cons_inv_l in F2 as (t2 & k' & Ht & F2 & ->).
  apply Forall2_nil_inv_l in F2 as ->. apply Forall_app in Wl2 as [_ Wt]. inversion Wt as [|? ? [i Wi] _]; subst.
  apply Forall_app in Bl as [_ Bt]. inversion Bt as [|? ? Bt' _]; subst.
  exists (stream l1 ++ (if s_inj t2 then [fallthrough_bytes] else [])), (s_bytes t2), i. split_and!; [|done|].
  - unfold stream. rewrite map_app, concat_app. cbn [map concat]. by rewrite app_nil_r, <- !app_assoc.
  - eapply class_terminator; [by apply (k_bytes _ _ Ht)|done|]. by rewrite (k_class _ _ Ht).
Qed.

(** Where blocks start in code with patched slots. *)
Lemma kept_block_start sl2 x x' :
  Forall2 kept sl0 sl2 -> zlen (flat sl2) < 2 ^ 32 -> bt_get x m = Some x' -> is_target code extra x ->
  decode (drop (Z.to_nat x) code) <> None -> starts_block (flat sl2) x'.
Proof using HB A.
  intros F Hl Hg Ht Hd. rewrite (al_map _ _ _ _ _ _ A) in Hg. apply layout_get in Hg as (s0 & Hs0 & <- & <-).
  assert (In (s_old s0) (map fst (placed 0 code))) as Hst by (apply in_map_iff; exists (piece s0); split; [done|by apply layout_In in Hs0]).
  pose proof (al_inj _ _ _ _ _ _ A _ Hst Ht) as Hcase. apply in_split in Hs0 as (l0 & r0 & E).
  assert (s_inj s0 = inj (s_old s0)) as Ei by (apply layout_split in E as (? & ? & _ & _ & _ & ?); done).
  apply (kept_start_at sl2 l0 s0 r0 E); [|done..|].
  - destruct (layout_cut _ _ _ E) as [_ [|Dn]]; [done|]. destruct Hd. pose proof (layout_pieces inj 0 (placed 0 code)) as P.
    rewrite E, map_app in P. cbn [map] in P. symmetry in P. destruct (placed_split _ _ _ _ _ P) as (_ & -> & _).
    assert (r0 = []) as ->; [|by rewrite app_nil_r]. destruct r0 as [|t r0]; [done|].
    destruct (layout_cut _ _ _ E) as [[i W] _]; [done|congruence].
  - destruct Hcase as [Hi|Hp]; [left; congruence|right]. by eapply post_prev.
Qed.
End Linked.

(** ** Lengths and bytes through the passes *)

Lemma put_word_length code i bs code' :
  (let! c := put_at code i bs in Ret (Ok c)) = Ret (Ok (E := LinkError) code') -> zlen code' = zlen code.
Proof. intros H. apply res_bind_ret in H as (c & H & [= ->]). by eapply put_at_length. Qed.

Lemma patch_lo12_length code off imm code' : patch_lo12 code off imm = Ret code' -> zlen code' = zlen code.
Proof.
  unfold patch_lo12. intros H. apply res_bind_ret in H as (b & _ & H). repeat case_match; [| |by injection H as <-];
    apply res_bind_ret in H as (w & _ & H); by eapply put_at_length.
Qed.

Lemma fixup_length m au lo code code' : fixup_code_pcrel code m au lo = Ret (Ok code') -> zlen code' = zlen code.
Proof.
  intros H. apply try_bind_ok in H as (c & H1 & H2).
  assert (zlen c = zlen code) as E.
  { eapply (try_fold_ind _ (fun c => zlen c = zlen code)); [|done|exact H1]. intros a [x y] a' _ <- H.
    unfold fixup_auipc, remap in H. repeat (apply try_bind_ok in H as (? & _ & H)).
    destruct (_ <? _); [by injection H as <-|]. apply res_bind_ret in H as (w & _ & H).
    destruct (negb _); [done|]. by eapply put_word_length. }
  rewrite <- E. eapply (try_fold_ind _ (fun c' => zlen c' = zlen c)); [|reflexivity|exact H2]. intros a [[x y] z] a' _ <- H.
  unfold fixup_lo12 in H. repeat (apply try_bind_ok in H as (? & _ & H)).
  destruct (_ <? _); [by injection H as <-|]. apply res_bind_ret in H as (d & H & [= ->]). by eapply patch_lo12_length.
Qed.

Lemma aligned_slots_ok code extra code1 m inj sl :
  Forall (is_u 8) code -> aligned code extra code1 m inj sl -> slots_ok m sl.
Proof.
  intros HB A. pose proof (slots_kept _ _ _ _ _ _ A) as K. split.
  - eapply kept_chain; [exact K|]. apply layout_chain.
  - rewrite (kept_old _ _ K), layout_old. eapply consecutive_nodup, placed_consecutive.
  - intros o o' Ho. rewrite (al_map _ _ _ _ _ _ A) in Ho. apply layout_get in Ho as (s & Hs & <- & <-).
    apply in_split in Hs as (l & r & E). rewrite E in K. apply Forall2_app_inv_l in K as (l' & k & _ & Fk & Ek).
    apply Forall2_cons_inv_l in Fk as (s' & r' & Hs & _ & ->). exists s'. rewrite Ek, (k_old _ _ Hs), (k_new _ _ Hs).
    split; [apply in_app_iff; right; by left|done].
  - eapply kept_bytes; [exact K|]. apply Forall_forall. intros s. by apply layout_piece_bytes.
  - intros l s r E. rewrite E in K. apply Forall2_app_inv_r in K as (l' & k & _ & Fk & Ek).
    apply Forall2_cons_inv_r in Fk as (s' & r' & Hs & Fr & ->). destruct (layout_cut code inj _ _ _ Ek) as [W1 W2]. split.
    + intros Hr. apply (k_whole _ _ Hs), W1. intros ->. by apply Forall2_nil_inv_l in Fr.
    + destruct W2; [left; by apply (k_whole _ _ Hs)|right; by apply (k_cut _ _ Hs)].
Qed.

(** The code [finish_code] hands out, in slots. *)
Lemma finish_slots code extra p code2 m :
  Forall (is_u 8) code -> zlen code < 2 ^ 31 -> zlen code2 < 2 ^ 31 -> finish_code code extra p = Ret (Ok (code2, m)) ->
  exists code1 inj sl sl2, aligned code extra code1 m inj sl /\ code2 = flat sl2 /\
    Forall2 kept (layout inj 0 (placed 0 code)) sl2 /\ validate_pvm2 code2 = Ok tt.
Proof.
  intros HB Hl Hl2 H. unfold finish_code in H. apply try_bind_ok in H as ([code1 m1] & H1 & H).
  apply try_bind_ok in H as (c2 & H2 & H). destruct (validate_pvm2 c2) as [[]|] eqn:V; [|done]. injection H as -> ->.
  pose proof (fixup_length _ _ _ _ _ H2) as El.
  destruct (align_spec code extra HB code1 m Hl ltac:(lia) H1) as (inj & sl & A).
  pose proof (slots_kept _ _ _ _ _ _ A) as K. rewrite (al_code _ _ _ _ _ _ A) in H2.
  destruct (fixup_at_slots m sl (aligned_slots_ok _ _ _ _ _ _ HB A) _ _ _ H2) as (sl2 & -> & K2).
  exists code1, inj, sl, sl2. split_and!; try done. by eapply kept_all_trans.
Qed.

(** Every target the alignment is told of or finds as the destination of a
    direct jump or branch, and which is the place of a complete instruction,
    starts a block after injection, the re-encoding of relative pairs and
    validation. *)
Lemma finish_targets_start_blocks code extra p code' m x x' :
  Forall (is_u 8) code -> zlen code < 2 ^ 31 -> zlen code' < 2 ^ 31 ->
  finish_code code extra p = Ret (Ok (code', m)) ->
  jump_target code extra m x -> bt_get x m = Some x' -> decode (drop (Z.to_nat x) code) <> None ->
  starts_block code' x'.
Proof.
  intros HB Hl Hl' H Ht Hx Hd.
  destruct (finish_slots code extra p code' m HB Hl Hl' H) as (code1 & inj & sl & sl2 & A & -> & K & _).
  eapply (kept_block_start code extra code1 m inj sl); try done; [lia|]. by eapply jump_target_is_target.
Qed.

(** ** Validation *)

(** An accepted instruction. *)
Definition validated (c : list Z) : Prop :=
  match c with
  | [b0; b1] => from_le_bytes [b0; b1] <> 0x9002
  | [b0; b1; b2; b3] => validate_word (from_le_bytes [b0; b1; b2; b3]) = Ok tt
  | _ => False
  end.

Lemma validate_step c R : whole c -> validate_pvm2 (c ++ R) = Ok tt -> validated c /\ validate_pvm2 R = Ok tt.
Proof.
  intros W H. destruct (whole_inv c W) as [(b0 & b1 & -> & F)|(b0 & b1 & b2 & b3 & -> & F)];
    cbn [app validate_pvm2] in H; rewrite F in H; cbn [negb] in H.
  - destruct (Z.eqb_spec (from_le_bytes [b0; b1]) 0x9002); done.
  - cbn [validated]. by destruct (validate_word _) as [[]|].
Qed.

(** The registers of an accepted word. *)
Lemma validate_word_regs w :
  validate_word w = Ok tt ->
  forbidden_opcode (opcode_of w) = false /\ Forall (fun r => emitted_reg r = true) (word_regs w).
Proof.
  unfold validate_word. cbv zeta. destruct (forbidden_opcode (opcode_of w)); [done|]. intros H. split; [done|].
  unfold word_regs. fold (opcode_of w). cbv zeta.
  destruct (emitted_reg (Z.land (Z.shiftr w 7) 31)) eqn:E1, (emitted_reg (Z.land (Z.shiftr w 15) 31)) eqn:E2,
    (emitted_reg (Z.land (Z.shiftr w 20) 31)) eqn:E3; cbn [negb] in H; rewrite ?andb_true_r, ?andb_false_r in H;
    unfold reg_fields_for in H; repeat case_match; try done; repeat constructor; done.
Qed.

Lemma reg_fields_word w r : In r (reg_fields (dec32 w)) -> In r (word_regs w).
Proof.
  unfold dec32, reserve_if_reserved_reg. destruct (uses_reserved_reg (decode_32 w)); [done|]. intros Hr.
  destruct (decode_32_names w) as [[H|H]|H].
  - by destruct (decode_32 w).
  - congruence.
  - rewrite H. apply in_or_app. by left.
Qed.

(** An instruction of the code as its bytes and what follows. *)
Lemma decode_split bs i l :
  decode bs = Some (i, l) -> exists c r, bs = c ++ r /\ decode c = Some (i, l) /\ l = zlen c.
Proof.
  destruct bs as [|b0 [|b1 r]]; [done..|]. intros H. pose proof H as D. unfold decode in D.
  fold (is_full_length (from_le_bytes [b0; b1])) in D. destruct (is_full_length (from_le_bytes [b0; b1])) eqn:F; cbn [negb] in D.
  - destruct r as [|b2 [|b3 r]]; [done..|]. injection D as <- <-. exists [b0; b1; b2; b3], r. split; [done|]. split; [|done].
    rewrite decode_word; [done|]. unfold is_full_length in *. by rewrite half_length.
  - injection D as <- <-. exists [b0; b1], r. split; [done|]. split; [|done]. by apply decode_half.
Qed.

Lemma tiles_validated code at_ l stop :
  0 <= at_ -> tiles code at_ l stop -> validate_pvm2 (drop (Z.to_nat at_) code) = Ok tt ->
  Forall (fun x => exists c r, drop (Z.to_nat (pc x)) code = c ++ r /\
    decode c = Some (inst x, zlen c) /\ zlen c = next_pc x - pc x /\ validated c) l.
Proof.
  revert at_. induction l as [|x l IH]; intros at_ Ha T V; [constructor|]. destruct T as (Hp & Hb & D & _ & T).
  destruct (decode_split _ _ _ D) as (c & r & E & Dc & Hl). rewrite E in V. rewrite Hl in Dc.
  destruct (validate_step c r (ex_intro _ _ Dc) V) as [Vc Vr]. constructor.
  - rewrite Hp. exists c, r. split_and!; try done.
  - apply (IH (next_pc x)); [lia|done|]. replace (next_pc x) with (at_ + zlen c) by lia. pose proof (zlen_nonneg c).
    rewrite Z2Nat.inj_add, <- drop_drop, E by lia. unfold zlen. by rewrite Nat2Z.id, drop_app_length.
Qed.

(** Fused multiply-add and vector arithmetic: opcodes the validation lets
    through. *)
Definition unchecked_opcodes : list Z := [0x43; 0x47; 0x4B; 0x4F; 0x57].

Lemma unchecked_reserved w : In (opcode_of w) unchecked_opcodes -> dec32 w = Reserved w.
Proof.
  unfold opcode_of. intros H. assert (Z.land w 3 = Z.land (Z.land w 0x7F) 3) as E3 by (by rewrite <- Z.land_assoc).
  assert (Z.land (Z.shiftr w 2) 0x1F = Z.shiftr (Z.land w 0x7F) 2) as Em by (by rewrite Z.shiftr_land).
  unfold dec32, decode_32. rewrite E3, Em.
  destruct H as [<-|[<-|[<-|[<-|[<-|[]]]]]]; reflexivity.
Qed.

(** C21: validation is sound for the code that runs. Of the instructions the
    predecoder finds in accepted code, one of four bytes names only registers
    the linker emits ([x0..x2] and [x5..x15]) and its opcode is none of SYSTEM
    (0x73), AMO (0x2F), LOAD-FP (0x07), STORE-FP (0x27), OP-FP (0x53) and
    custom-1 (0x2B); one of two bytes is not [c.ebreak]. The fused multiply-add
    opcodes (0x43, 0x47, 0x4B, 0x4F) and vector arithmetic (0x57) are not
    rejected, but what is accepted of them is a reserved instruction to the
    engine. *)
Theorem validate_pvm2_sound code x :
  zlen code < 2 ^ 32 -> validate_pvm2 code = Ok tt -> In x (insts (predecode code)) ->
  (next_pc x = pc x + 4 ->
     Forall (fun r => r < 16 /\ r <> 3 /\ r <> 4) (reg_fields (inst x)) /\
     exists w, word_at code (pc x) = Ret w /\ inst x = dec32 w /\
       ~ In (opcode_of w) [0x73; 0x2F; 0x07; 0x27; 0x53; 0x2B] /\
       (In (opcode_of w) unchecked_opcodes -> inst x = Reserved w)) /\
  (next_pc x = pc x + 2 -> exists h, half_at code (pc x) = Ret h /\ inst x = dec16 h /\ h <> 0x9002).
Proof.
  intros Hl V Hin. destruct (predecode_stream code Hl) as (stop & T & _).
  pose proof (tiles_validated code 0 _ stop ltac:(lia) T V) as F. rewrite Forall_forall in F.
  destruct (F x Hin) as (c & r & E & D & Hlen & Vc). destruct (tiles_inside code 0 _ stop ltac:(lia) T x Hin) as [Hp0 Hp1].
  assert (exists P, code = P ++ c ++ r /\ pc x = zlen P) as (P & Ec & Ep).
  { exists (take (Z.to_nat (pc x)) code). rewrite <- E, take_drop. split; [done|]. unfold zlen in *. rewrite length_take. lia. }
  destruct (whole_inv c (ex_intro _ _ D)) as [(b0 & b1 & -> & G)|(b0 & b1 & b2 & b3 & -> & G)]; (split; intros Hn;
    [try (exfalso; unfold zlen in Hlen; cbn [length] in Hlen; lia)|try (exfalso; unfold zlen in Hlen; cbn [length] in Hlen; lia)]).
  - rewrite decode_half in D by done. injection D as Di. exists (from_le_bytes [b0; b1]). split; [|done].
    rewrite Ep, Ec. apply half_at_app.
  - rewrite decode_word in D by (unfold is_full_length in *; by rewrite half_length). injection D as Di.
    change (dec32 (from_le_bytes [b0; b1; b2; b3]) = inst x) in Di. destruct (validate_word_regs _ Vc) as [Ho Hr]. split.
    + apply Forall_forall. intros q Hq. rewrite Forall_forall in Hr.
      assert (emitted_reg q = true) as Eq by (apply Hr, reg_fields_word; by rewrite Di). unfold emitted_reg in Eq. lia.
    + exists (from_le_bytes [b0; b1; b2; b3]). split; [rewrite Ep, Ec; apply word_at_app|]. split; [done|]. split.
      * intros Hf. unfold forbidden_opcode, OP_CUSTOM_1, OP_SYSTEM in Ho. cbn [In] in Hf. lia.
      * intros Hu. rewrite <- Di. by apply unchecked_reserved.
Qed.

Lemma validate_pvm2_sound_witness :
  exists w, word_at sample_aligned 12 = Ret w /\ ~ In (opcode_of w) [0x73; 0x2F; 0x07; 0x27; 0x53; 0x2B].
Proof.
  destruct (validate_pvm2_sound sample_aligned
    (nth 3 (insts (predecode sample_aligned)) (nth 0 (insts (predecode sample_aligned)) (mkPre Trap 0 0 false (rv_gas_meta Trap))))) as [H _].
  - reflexivity.
  - vm_compute. reflexivity.
  - apply nth_In. vm_compute. lia.
  - destruct H as (_ & w & Hw & _ & Hf & _); [vm_compute; reflexivity|]. exists w. split; [|exact Hf].
    etrans; [|exact Hw]. vm_compute. reflexivity.
Defined.

(** [fmadd.d x1, x1, x1, x1] passes the validation. *)
Lemma validate_accepts_fmadd : validate_pvm2 (to_le_bytes 4 0x0A10F0C3) = Ok tt.
Proof. vm_compute. reflexivity. Qed.

(** Validation does not keep compressed instructions away from [x3] and [x4].
    The check assumes two-byte encodings name only [x8..x15], but [c.li] has a
    five-bit register field: [c.li x3, 0] is accepted, and runs. *)
Theorem validate_accepts_compressed_x3 :
  validate_pvm2 (to_le_bytes 2 0x4181) = Ok tt /\ decode (to_le_bytes 2 0x4181) = Some (Addi 3 0 0, 2) /\
  emitted_reg 3 = false.
Proof. by vm_compute. Qed.
