(* ===== verification/LinkReloc.v ===== *)
(** Relocation: the pairs of instructions that form an address. A pair kept
    relative to the program counter reaches its target in the emitted code; a
    pair made absolute reaches its data at [DATA_BASE]. Source:
    [src/nub/nub-linker/src/link.rs]. *)

From Stdlib Require Import ZArith Lia List Bool.
From stdpp Require Import base list numbers.
From S2P Require Import Prelude MachineInt Engine Instruction InstructionFacts Encode BTreeMap Ssz SszFacts Predecode Program Elf Link LinkBits LinkAlign LinkFacts.
Open Scope Z_scope.

(** ** Loops *)

(** What one round establishes and the others keep holds in the end. *)
Lemma try_fold_reach {A B E : Type} (f : A -> B -> Res (Result A E)) (I Q : A -> Prop) l e0 a a' :
  (forall a b a', In b l -> I a -> f a b = Ret (Ok a') -> I a') ->
  (forall a a', I a -> f a e0 = Ret (Ok a') -> Q a') ->
  (forall a b a', In b l -> I a -> Q a -> f a b = Ret (Ok a') -> Q a') ->
  In e0 l -> I a -> try_fold f a l = Ret (Ok a') -> Q a'.
Proof.
  revert a. induction l as [|b l IH]; intros a HI H0 HQ Hin Ha H; [done|].
  rewrite try_fold_cons in H. apply try_bind_ok in H as (a1 & H1 & H).
  pose proof (HI a b a1 (or_introl eq_refl) Ha H1) as Ha1. destruct Hin as [->|Hin].
  - apply (try_fold_ind f (fun a => I a /\ Q a) l a1 a'); [|split; [done|by apply (H0 a)]|done].
    intros a2 b2 a3 Hb [? ?] Hf. split; [apply (HI a2 b2)|apply (HQ a2 b2)]; auto using in_cons.
  - apply (IH a1); try done; intros a2 b2 a3 Hb; [apply HI|apply HQ]; by right.
Qed.

(** ** Words the fixups look at *)

Lemma word_bytes_inj w w' : is_u 32 w -> is_u 32 w' -> to_le_bytes 4 w = to_le_bytes 4 w' -> w = w'.
Proof.
  intros Hw Hw' E. pose proof (from_to_le_bytes 4 w) as F. rewrite E, from_to_le_bytes in F.
  by rewrite !wrap_small in F.
Qed.

Definition is_lo12 (w : Z) : bool := is_lo12_i w || is_lo12_s w.

(** The low part of a word, as the decoder reads it. *)
Definition low_part (w : Z) : Z := if is_lo12_i w then imm_i w else imm_s w.

Lemma lo12_opcode w w' : opcode_of w' = opcode_of w -> is_lo12_i w' = is_lo12_i w /\ is_lo12_s w' = is_lo12_s w.
Proof. unfold is_lo12_i, is_lo12_s, opcode_of. cbv zeta. by intros ->. Qed.

Lemma lo12_not_auipc w : is_lo12 w = true -> opcode_of w <> OP_AUIPC.
Proof. unfold is_lo12, is_lo12_i, is_lo12_s, opcode_of. cbv zeta. by intros H E; rewrite E in H. Qed.

Lemma imm_i_patch w d : is_u 32 w -> imm_i (patch_imm_i w d) = sext 12 d.
Proof.
  intros Hw. destruct (word_of w Hw) as (opc & a & f3 & b & t & Hopc & Ha & Hf3 & Hb & Ht & ->).
  rewrite patch_imm_i_word, word_imm_i by dlia. by rewrite <- (sext_wrap 12 d).
Qed.

Lemma imm_s_patch w d : is_u 32 w -> imm_s (patch_imm_s w d) = sext 12 d.
Proof.
  intros Hw. destruct (word_of w Hw) as (opc & a & f3 & b & t & Hopc & Ha & Hf3 & Hb & Ht & ->).
  rewrite patch_imm_s_word, word_imm_s by dlia. rewrite <- (sext_wrap 12 d) by lia. f_equal. unfold wrap. pows. dlia.
Qed.

(** A patched word carries the low part it was given. *)
Lemma low_part_patched w d : is_u 32 w -> is_lo12 w = true -> low_part (patched w (sext 12 d)) = sext 12 d.
Proof.
  intros Hw K. destruct (patched_ok w (sext 12 d) Hw) as [_ Ho]. destruct (lo12_opcode _ _ Ho) as [Ei _].
  unfold low_part. rewrite Ei. unfold patched. unfold is_lo12 in K. destruct (is_lo12_i w).
  - by rewrite imm_i_patch, sext_sext by (done || lia).
  - cbn [orb] in K. rewrite K. by rewrite imm_s_patch, sext_sext by (done || lia).
Qed.

(** ** The sum of a pair *)

(** The upper part of a word, as [lui] and [auipc] read it. *)
Definition high_part (w : Z) : Z := sext 32 (Z.land w 0xFFFFF000).

Lemma pair_sum w v op :
  is_u 32 w -> 0 <= op < 128 -> wrap 32 (high_part (hi20_word w v op) + sext 12 v) = wrap 32 v.
Proof.
  intros Hw Hop. destruct (word_of w Hw) as (opc & a & f3 & b & t & Hopc & Ha & Hf3 & Hb & Ht & ->).
  rewrite hi20_word_word by done. unfold high_part. rewrite land_hi20. masks.
  rewrite Z.shiftr_div_pow2, Z.shiftl_mul_pow2 by lia. unfold wrap, sext.
  change (2 ^ (32 - 1)) with 2147483648. change (2 ^ (12 - 1)) with 2048. pows.
  set (h := (v + 2048) / 4096 mod 1048576).
  replace ((op + 128 * a + 4096 * h) / 4096 mod 1048576 * 4096) with (4096 * h) by (unfold h; dlia).
  assert (0 <= h < 1048576) by (unfold h; dlia).
  destruct (Z.ltb_spec ((4096 * h) mod 4294967296) 2147483648), (Z.ltb_spec (v mod 4096) 2048); unfold h in *; dlia.
Qed.

Lemma sext_wrap_above v w x : 1 <= v <= w -> sext v (wrap w x) = sext v x.
Proof.
  intros H. rewrite <- (sext_wrap v (wrap w x)), <- (sext_wrap v x) by lia. f_equal. unfold wrap.
  apply Z.mod_mod_divide. exists (2 ^ (w - v)). rewrite <- Z.pow_add_r by lia. f_equal. lia.
Qed.

(** The same for a pair that starts at [at_] and leads to [to]. *)
Lemma pair_sum_rel w at_ to op :
  is_u 32 w -> 0 <= op < 128 ->
  wrap 32 (at_ + high_part (hi20_word w (wrap 32 (to - at_)) op) + sext 12 (to - at_)) = wrap 32 to.
Proof.
  intros Hw Hop. pose proof (pair_sum w (wrap 32 (to - at_)) op Hw Hop) as E. rewrite (sext_wrap_above 12 32) in E by lia.
  generalize dependent (high_part (hi20_word w (wrap 32 (to - at_)) op)). intros h E.
  unfold wrap in *. pows. generalize dependent (sext 12 (to - at_)). intros s E. dlia.
Qed.

(** ** The two loops of [fixup_code_pcrel] *)

Section Pairs.
  Context (m : BTreeMap Z) (sl0 : list Slot) (OK : slots_ok m sl0).

(** The word at old offset [o], in code patched so far. *)
Definition word_is (o : Z) (J : Z -> Prop) (c : list Z) : Prop :=
  exists sl w, c = flat sl /\ Forall2 kept sl0 sl /\ bytes_at sl o = Some (to_le_bytes 4 w) /\ is_u 32 w /\ J w.

Lemma word_is_impl o (J K : Z -> Prop) c : (forall w, is_u 32 w -> J w -> K w) -> word_is o J c -> word_is o K c.
Proof using Type. intros H (sl & w & ? & ? & ? & ? & ?). exists sl, w. auto 7. Qed.

(** A word in a slot is inside the code. *)
Lemma word_fits sl o o' w :
  Forall2 kept sl0 sl -> bt_get o m = Some o' -> bytes_at sl o = Some (to_le_bytes 4 w) ->
  o' + 4 <= zlen (flat sl) /\ word_at (flat sl) o' = Ret (wrap 32 w).
Proof using OK.
  intros F Ho Hb. destruct (kept_slot m sl0 OK sl o o' F Ho) as (l & s & r & E & Es & _ & N & Ef & Hz & _).
  rewrite E in Hb, N. rewrite (bytes_at_split o l s r N Es) in Hb.
  assert (s_bytes s = to_le_bytes 4 w) as Hb' by congruence. rewrite Hb' in Ef. split.
  - rewrite Ef. rewrite zlen_app, Hz, zlen_app, zlen_le_bytes. pose proof (zlen_nonneg (flat r)). lia.
  - rewrite Ef, <- Hz. unfold word_at. rewrite slice_app by done. cbn [res_bind]. by rewrite from_to_le_bytes.
Qed.

Lemma auipc_word o J a t c c' :
  word_is o J c -> fixup_auipc m c (a, t) = Ret (Ok c') ->
  exists na nt, bt_get a m = Some na /\ bt_get t m = Some nt /\
  word_is o (fun w' => exists w, is_u 32 w /\ J w /\
    (w' = w /\ (a <> o \/ opcode_of w <> OP_AUIPC) \/
     a = o /\ w' = hi20_word w (wrap 32 (nt - na)) OP_AUIPC)) c'.
Proof using OK.
  intros (sl & w & -> & F & Hb & Hw & Jw) H.
  destruct (fixup_auipc_step m sl0 OK sl a t c' F H) as (na & nt & Ha & Ht & Hcase). exists na, nt. split; [done|]. split; [done|].
  destruct Hcase as [[-> Hs]|(w1 & Hb1 & Hw1 & Ho1 & -> & K)].
  - exists sl, w. split_and!; try done. exists w. split; [done|]. split; [done|]. left. split; [done|].
    destruct (Z.eq_dec a o) as [->|]; [|by left]. exfalso. destruct (word_fits sl o na w F Ha Hb). lia.
  - destruct (Z.eq_dec a o) as [->|Hne].
    + rewrite Hb in Hb1. assert (to_le_bytes 4 w = to_le_bytes 4 w1) as E by congruence. apply word_bytes_inj in E as <-; [|done..].
      destruct (hi20_word_ok w (wrap 32 (nt - na)) OP_AUIPC Hw ltac:(unfold OP_AUIPC; lia)) as [Hw' _].
      exists (set_bytes o (to_le_bytes 4 (hi20_word w (wrap 32 (nt - na)) OP_AUIPC)) sl), (hi20_word w (wrap 32 (nt - na)) OP_AUIPC).
      split_and!; [done|by eapply kept_all_trans| |done|exists w; auto].
      rewrite bytes_at_set, Z.eqb_refl, Hb. done.
    + exists (set_bytes a (to_le_bytes 4 (hi20_word w1 (wrap 32 (nt - na)) OP_AUIPC)) sl), w.
      split_and!; [done|by eapply kept_all_trans| |done|exists w; auto 6].
      rewrite bytes_at_set. destruct (Z.eqb_spec o a); [by subst|done].
Qed.

Lemma lo12_word o J lo a t c c' :
  word_is o J c -> fixup_lo12 m c (lo, a, t) = Ret (Ok c') ->
  exists nl na nt, bt_get lo m = Some nl /\ bt_get a m = Some na /\ bt_get t m = Some nt /\
  word_is o (fun w' => exists w, is_u 32 w /\ J w /\
    (w' = w /\ (lo <> o \/ is_lo12 w = false) \/
     lo = o /\ is_lo12 w = true /\ w' = patched w (sext 12 (nt - na)))) c'.
Proof using OK.
  intros (sl & w & -> & F & Hb & Hw & Jw) H.
  destruct (fixup_lo12_step m sl0 OK sl lo a t c' F H) as (nl & na & nt & Hl & Ha & Ht & Hcase). exists nl, na, nt. split_and!; try done.
  destruct Hcase as [[-> Hs]|(w1 & Hb1 & Hw1 & Hk & -> & K)].
  - exists sl, w. split_and!; try done. exists w. split; [done|]. split; [done|]. left. split; [done|].
    destruct (Z.eq_dec lo o) as [->|]; [right|by left]. destruct Hs as [Hs|Hs]; [|by apply Hs].
    destruct (word_fits sl o nl w F Hl Hb). lia.
  - destruct (Z.eq_dec lo o) as [->|Hne].
    + rewrite Hb in Hb1. assert (to_le_bytes 4 w = to_le_bytes 4 w1) as E by congruence. apply word_bytes_inj in E as <-; [|done..].
      destruct (patched_ok w (sext 12 (nt - na)) Hw) as [Hw' _].
      exists (set_bytes o (to_le_bytes 4 (patched w (sext 12 (nt - na)))) sl), (patched w (sext 12 (nt - na))).
      split_and!; [done|by eapply kept_all_trans| |done|exists w; auto 7].
      rewrite bytes_at_set, Z.eqb_refl, Hb. done.
    + exists (set_bytes lo (to_le_bytes 4 (patched w1 (sext 12 (nt - na)))) sl), w.
      split_and!; [done|by eapply kept_all_trans| |done|exists w; auto 6].
      rewrite bytes_at_set. destruct (Z.eqb_spec o lo); [by subst|done].
Qed.

Definition rd_of (w : Z) : Z := Z.land (Z.shiftr w 7) 0x1F.

Lemma hi20_word_rd w v op : is_u 32 w -> 0 <= op < 128 -> rd_of (hi20_word w v op) = rd_of w.
Proof using Type.
  intros Hw Hop. destruct (word_of w Hw) as (opc & a & f3 & b & t & Hopc & Ha & Hf3 & Hb & Ht & ->).
  unfold rd_of. rewrite hi20_word_word, word_rd by done. masks. rewrite Z.shiftr_div_pow2 by lia. pows. dlia.
Qed.

(** An [auipc] with destination [rd], and one that holds the upper part of [v]. *)
Definition auipc_to (rd w : Z) : Prop := opcode_of w = OP_AUIPC /\ rd_of w = rd.
Definition auipc_of (rd v w : Z) : Prop := exists w0, is_u 32 w0 /\ rd_of w0 = rd /\ w = hi20_word w0 v OP_AUIPC.

Lemma auipc_of_to rd v w : auipc_of rd v w -> auipc_to rd w.
Proof using Type.
  intros (w0 & Hw & <- & ->). assert (0 <= OP_AUIPC < 128) by (unfold OP_AUIPC; lia).
  split; [by apply hi20_word_ok|by apply hi20_word_rd].
Qed.

Lemma auipc_loop rd a t na nt aus c c' :
  (forall t', In (a, t') aus -> t' = t) -> In (a, t) aus -> bt_get a m = Some na -> bt_get t m = Some nt ->
  word_is a (auipc_to rd) c -> try_fold (fixup_auipc m) c aus = Ret (Ok c') ->
  word_is a (auipc_of rd (wrap 32 (nt - na))) c'.
Proof using OK.
  intros Hu Hin Ha Ht. apply (try_fold_reach _ (word_is a (auipc_to rd)) (word_is a (auipc_of rd (wrap 32 (nt - na)))) aus (a, t)); [| | |done].
  - intros c1 [a2 t2] c2 _ Hc H. destruct (auipc_word a _ a2 t2 c1 c2 Hc H) as (na2 & nt2 & _ & _ & W).
    eapply word_is_impl; [|exact W]. intros w' _ (w & Hw & Jw & [[-> _]|[_ ->]]); [done|].
    eapply auipc_of_to. exists w. split_and!; [done|apply Jw|done].
  - intros c1 c2 Hc H. destruct (auipc_word a _ a t c1 c2 Hc H) as (na2 & nt2 & Ha2 & Ht2 & W).
    eapply word_is_impl; [|exact W]. intros w' _ (w & Hw & [Ho Hr] & [[_ [|]]|[_ ->]]); try done.
    exists w. split_and!; try done. congruence.
  - intros c1 [a2 t2] c2 Hi _ Hc H. destruct (auipc_word a _ a2 t2 c1 c2 Hc H) as (na2 & nt2 & Ha2 & Ht2 & W).
    eapply word_is_impl; [|exact W]. intros w' _ (w & Hw & Jw & [[-> _]|[-> ->]]); [done|].
    rewrite (Hu t2 Hi) in Ht2. exists w. split_and!; [done|by apply auipc_of_to in Jw as [_ ?]|congruence].
Qed.

Lemma lo12_loop lo a t na nt los c c' op :
  (forall a' t', In (lo, a', t') los -> a' = a /\ t' = t) -> In (lo, a, t) los -> bt_get a m = Some na -> bt_get t m = Some nt ->
  word_is lo (fun w => is_lo12 w = true /\ opcode_of w = op) c -> try_fold (fixup_lo12 m) c los = Ret (Ok c') ->
  word_is lo (fun w => is_lo12 w = true /\ opcode_of w = op /\ low_part w = sext 12 (nt - na)) c'.
Proof using OK.
  intros Hu Hin Ha Ht.
  assert (forall w d, is_u 32 w -> is_lo12 w = true /\ opcode_of w = op ->
    is_lo12 (patched w (sext 12 d)) = true /\ opcode_of (patched w (sext 12 d)) = op /\ low_part (patched w (sext 12 d)) = sext 12 d) as HP.
  { intros w d Hw [K Ho]. destruct (patched_ok w (sext 12 d) Hw) as [_ Ho']. destruct (lo12_opcode _ _ Ho') as [E1 E2].
    split_and!; [unfold is_lo12 in *; by rewrite E1, E2|congruence|by apply low_part_patched]. }
  apply (try_fold_reach _ (word_is lo (fun w => is_lo12 w = true /\ opcode_of w = op))
    (word_is lo (fun w => is_lo12 w = true /\ opcode_of w = op /\ low_part w = sext 12 (nt - na))) los (lo, a, t)); [| | |done].
  - intros c1 [[lo2 a2] t2] c2 _ Hc H. destruct (lo12_word lo _ lo2 a2 t2 c1 c2 Hc H) as (nl2 & na2 & nt2 & _ & _ & _ & W).
    eapply word_is_impl; [|exact W]. intros w' _ (w & Hw & Jw & [[-> _]|(_ & _ & ->)]); [done|].
    by destruct (HP w (nt2 - na2) Hw Jw) as (? & ? & _).
  - intros c1 c2 Hc H. destruct (lo12_word lo _ lo a t c1 c2 Hc H) as (nl2 & na2 & nt2 & _ & Ha2 & Ht2 & W).
    eapply word_is_impl; [|exact W]. intros w' _ (w & Hw & Jw & [[-> [|K]]|(_ & _ & ->)]); [done|by destruct Jw; congruence|].
    assert (na2 = na) as -> by congruence. assert (nt2 = nt) as -> by congruence. by apply HP.
  - intros c1 [[lo2 a2] t2] c2 Hi _ Hc H. destruct (lo12_word lo _ lo2 a2 t2 c1 c2 Hc H) as (nl2 & na2 & nt2 & _ & Ha2 & Ht2 & W).
    eapply word_is_impl; [|exact W]. intros w' _ (w & Hw & (K & Ho & Hl) & [[-> _]|(-> & _ & ->)]); [done|].
    destruct (Hu a2 t2 Hi) as [-> ->]. assert (na2 = na) as -> by congruence. assert (nt2 = nt) as -> by congruence. by apply HP.
Qed.

(** Neither loop touches the other's words. *)
Lemma auipc_loop_other o (J : Z -> Prop) aus c c' :
  (forall w, J w -> opcode_of w <> OP_AUIPC) -> word_is o J c -> try_fold (fixup_auipc m) c aus = Ret (Ok c') -> word_is o J c'.
Proof using OK.
  intros HJ. apply try_fold_ind. intros c1 [a t] c2 _ Hc H. destruct Hc as (sl & w & -> & F & Hb & Hw & Jw).
  destruct (fixup_auipc_step m sl0 OK sl a t c2 F H) as (na2 & nt2 & _ & _ & [[-> _]|(w1 & Hb1 & Hw1 & Ho1 & -> & K)]).
  { by exists sl, w. }
  eexists _, w. split; [reflexivity|]. split; [by eapply kept_all_trans|]. split; [|done]. rewrite bytes_at_set.
  destruct (Z.eqb_spec o a) as [->|]; [|done]. rewrite Hb in Hb1.
  assert (to_le_bytes 4 w = to_le_bytes 4 w1) as E by congruence. apply word_bytes_inj in E as <-; [|done..]. by destruct (HJ w Jw).
Qed.

Lemma lo12_loop_other o (J : Z -> Prop) los c c' :
  (forall w, J w -> is_lo12 w = false) -> word_is o J c -> try_fold (fixup_lo12 m) c los = Ret (Ok c') -> word_is o J c'.
Proof using OK.
  intros HJ. apply try_fold_ind. intros c1 [[lo a] t] c2 _ Hc H.
  destruct (lo12_word o J lo a t c1 c2 Hc H) as (nl & na & nt & _ & _ & _ & W).
  eapply word_is_impl; [|exact W]. intros w' _ (w & Hw & Jw & [[-> _]|(_ & K & _)]); [done|]. by rewrite (HJ w Jw) in K.
Qed.

Lemma fixup_pair lo a t na nt aus los rd op c' :
  fixup_code_pcrel (flat sl0) m aus los = Ret (Ok c') ->
  (forall t', In (a, t') aus -> t' = t) -> In (a, t) aus ->
  (forall a' t', In (lo, a', t') los -> a' = a /\ t' = t) -> In (lo, a, t) los ->
  bt_get a m = Some na -> bt_get t m = Some nt ->
  word_is a (auipc_to rd) (flat sl0) -> word_is lo (fun w => is_lo12 w = true /\ opcode_of w = op) (flat sl0) ->
  word_is a (auipc_of rd (wrap 32 (nt - na))) c' /\
  word_is lo (fun w => is_lo12 w = true /\ opcode_of w = op /\ low_part w = sext 12 (nt - na)) c'.
Proof using OK.
  intros H Ua Ia Ul Il Ha Ht Wa Wl. apply try_bind_ok in H as (c & H1 & H2). split.
  - eapply lo12_loop_other; [|eapply auipc_loop; [exact Ua|done..]|exact H2].
    intros w Jw. apply auipc_of_to in Jw as [Ho _]. unfold is_lo12, is_lo12_i, is_lo12_s. unfold opcode_of in Ho. cbv zeta. by rewrite Ho.
  - eapply lo12_loop; [exact Ul|done..| |exact H2]. eapply auipc_loop_other; [|exact Wl|exact H1].
    intros w [K _]. by apply lo12_not_auipc.
Qed.
End Pairs.

(** ** Kept pairs reach their targets *)

(** A word the passes do not move is found again. *)
Lemma aligned_word code extra code1 m inj sl o o' w :
  Forall (is_u 8) code -> aligned code extra code1 m inj sl -> bt_get o m = Some o' ->
  word_at code o = Ret w -> is_full_length w = true -> snd (classify_word w) = None ->
  is_u 32 w /\ word_is sl o (eq w) (flat sl).
Proof.
  intros HB A Ho Hw Fw Cw. pose proof (aligned_slots_ok _ _ _ _ _ _ HB A) as OK.
  rewrite (al_map _ _ _ _ _ _ A) in Ho. apply layout_get in Ho as (s0 & Hs0 & <- & _).
  pose proof (layout_piece_bytes code inj HB s0 Hs0) as B. apply in_split in Hs0 as (l0 & r0 & E).
  pose proof (layout_pieces inj 0 (placed 0 code)) as P. rewrite E, map_app in P. cbn [map] in P. symmetry in P.
  destruct (placed_split _ _ _ _ _ P) as (Hz & _ & _). destruct (layout_cut code inj _ _ _ E) as [W1 W2].
  pose proof (placed_concat 0 code) as Ec. rewrite P, map_app, concat_app in Ec. cbn [map concat snd piece] in Ec.
  rewrite <- Ec in Hw at 1. rewrite Hz in Hw.
  assert (whole (s_bytes s0) \/ decode (s_bytes s0) = None /\ concat (map snd (map piece r0)) = []) as W.
  { destruct W2 as [|W2]; [by left|]. destruct r0 as [|t r0]; [by right|]. destruct W1 as [i W1]; [done|congruence]. }
  destruct (slot_word _ _ _ w W B Hw Fw) as [Eb Hu]. split; [done|]. pose proof (al_slots _ _ _ _ _ _ A) as F. rewrite E in F.
  apply Forall2_app_inv_l in F as (l & k & _ & Fk & Esl). apply Forall2_cons_inv_l in Fk as (s & r & Hs & _ & ->).
  exists sl, w. split; [done|]. split; [apply kept_all_refl|]. split; [|done].
  pose proof (sk_nodup _ _ OK) as N. rewrite Esl in N |- *.
  rewrite (bytes_at_split _ l s r N (ca_old _ _ _ Hs)). f_equal. destruct (decode_word_of w Hu Fw) as [Dw Kw].
  destruct (ca_bytes _ _ _ Hs) as [M|[-> _]]; [|done]. rewrite <- Eb. apply (mv_fixed _ _ _ _ _ M). by rewrite Eb, Kw.
Qed.

Lemma bt_ok_get {V : Type} k (v : V) m : bt_ok m -> In (k, v) m -> bt_get k m = Some v.
Proof.
  induction m as [|[k' v'] m IH]; intros S; [done|]. destruct (bt_ok_inv _ _ _ S) as [S' F]. cbn [bt_get].
  intros [[= -> ->]|Hin]; [by rewrite Z.eqb_refl|]. rewrite Forall_forall in F. specialize (F _ Hin). cbn in F.
  destruct (Z.eqb_spec k k'); [lia|]. by apply IH.
Qed.

(** The fixups of pass 1 found the places they name. *)
Lemma fixup_auipc_placed m aus c c' a t :
  try_fold (fixup_auipc m) c aus = Ret (Ok c') -> In (a, t) aus -> exists na nt, bt_get a m = Some na /\ bt_get t m = Some nt.
Proof.
  intros H Hin. apply (try_fold_reach (fixup_auipc m) (fun _ => True)
    (fun _ => exists na nt, bt_get a m = Some na /\ bt_get t m = Some nt) aus (a, t) c c'); try done.
  intros c1 c2 _ H1. unfold fixup_auipc, remap in H1. cbn [fst snd] in H1.
  destruct (bt_get a m) as [na|]; [|done]. destruct (bt_get t m) as [nt|]; [|done]. by exists na, nt.
Qed.

Lemma fixup_lo12_placed m los c c' lo a t :
  try_fold (fixup_lo12 m) c los = Ret (Ok c') -> In (lo, a, t) los -> exists nl, bt_get lo m = Some nl.
Proof.
  intros H Hin. apply (try_fold_reach (fixup_lo12 m) (fun _ => True)
    (fun _ => exists nl, bt_get lo m = Some nl) los (lo, a, t) c c'); try done.
  intros c1 c2 _ H1. unfold fixup_lo12, remap in H1. destruct (bt_get lo m) as [nl|]; [by exists nl|done].
Qed.

Lemma lo12_class w : is_lo12 w = true -> is_full_length w = true /\ snd (classify_word w) = None.
Proof.
  intros K. unfold is_lo12, is_lo12_i, is_lo12_s in K. cbv zeta in K. rewrite !orb_true_iff, !Z.eqb_eq in K.
  split; [unfold is_full_length; replace (Z.land w 3) with (Z.land (Z.land w 0x7F) 3) by by rewrite <- Z.land_assoc
         |unfold classify_word, opcode_of]; by destruct K as [[[-> | ->]| ->]| ->].
Qed.

Lemma auipc_class w : opcode_of w = OP_AUIPC -> is_full_length w = true /\ snd (classify_word w) = None.
Proof.
  intros K. split; [|unfold classify_word; by rewrite K].
  unfold is_full_length. replace (Z.land w 3) with (Z.land (opcode_of w) 3); [by rewrite K|]. unfold opcode_of. by rewrite <- Z.land_assoc.
Qed.

Lemma word_is_at m sl0 o o' J c :
  slots_ok m sl0 -> bt_get o m = Some o' -> word_is sl0 o J c -> exists w, word_at c o' = Ret w /\ is_u 32 w /\ J w.
Proof.
  intros OK Ho (sl & w & -> & F & Hb & Hw & Jw). exists w. destruct (word_fits m sl0 OK sl o o' w F Ho Hb) as [_ E].
  by rewrite wrap_small in E.
Qed.

(** C20: a pair of instructions that forms the address of code relative to the
    program counter reaches its target in the emitted code. The [auipc] keeps
    its register, the instruction with the low part its opcode, and the places
    of [auipc], upper and lower part add up, modulo 2^32, to the new place of
    the target, wherever injection has moved the three. *)
Theorem pcrel_pairs_reach_targets code extra p code' m lo a t wa wl :
  Forall (is_u 8) code -> zlen code < 2 ^ 31 -> zlen code' < 2 ^ 31 ->
  finish_code code extra p = Ret (Ok (code', m)) ->
  bt_ok (code_auipc p) -> bt_get a (code_auipc p) = Some t -> In (lo, a, t) (code_lo12 p) ->
  (forall a' t', In (lo, a', t') (code_lo12 p) -> a' = a /\ t' = t) ->
  word_at code a = Ret wa -> opcode_of wa = OP_AUIPC -> word_at code lo = Ret wl -> is_lo12 wl = true ->
  exists na nl nt wa' wl', bt_get a m = Some na /\ bt_get lo m = Some nl /\ bt_get t m = Some nt /\
    word_at code' na = Ret wa' /\ opcode_of wa' = OP_AUIPC /\ rd_of wa' = rd_of wa /\
    word_at code' nl = Ret wl' /\ opcode_of wl' = opcode_of wl /\
    wrap 32 (na + high_part wa' + low_part wl') = wrap 32 nt.
Proof.
  intros HB Hl Hl' H Sa Ga Il Ul Hwa Ha Hwl Hlo. unfold finish_code in H. apply try_bind_ok in H as ([code1 m1] & H1 & H).
  apply try_bind_ok in H as (c2 & H2 & H). destruct (validate_pvm2 c2) as [[]|]; [|done]. injection H as -> ->.
  pose proof (fixup_length _ _ _ _ _ H2) as El.
  destruct (align_spec code extra HB code1 m Hl ltac:(lia) H1) as (inj & sl & A).
  pose proof (aligned_slots_ok _ _ _ _ _ _ HB A) as OK. rewrite (al_code _ _ _ _ _ _ A) in H2.
  pose proof (bt_get_In _ _ _ Ga) as Ia. pose proof H2 as H2'. apply try_bind_ok in H2' as (c1 & Hau & Hlos).
  destruct (fixup_auipc_placed _ _ _ _ _ _ Hau Ia) as (na & nt & Na & Nt).
  destruct (fixup_lo12_placed _ _ _ _ _ _ _ Hlos Il) as (nl & Nl).
  destruct (auipc_class wa Ha) as [F1 C1]. destruct (lo12_class wl Hlo) as [F2 C2].
  destruct (aligned_word _ _ _ _ _ _ _ _ _ HB A Na Hwa F1 C1) as [_ Wa].
  destruct (aligned_word _ _ _ _ _ _ _ _ _ HB A Nl Hwl F2 C2) as [_ Wl].
  destruct (fixup_pair m sl OK lo a t na nt _ _ (rd_of wa) (opcode_of wl) code' H2) as [Ra Rl]; try done.
  - intros t' Hin. apply (bt_ok_get _ _ _ Sa) in Hin. congruence.
  - eapply word_is_impl; [|exact Wa]. by intros w _ <-.
  - eapply word_is_impl; [|exact Wl]. by intros w _ <-.
  - destruct (word_is_at m sl a na _ _ OK Na Ra) as (wa' & Ea & _ & Ja).
    destruct (word_is_at m sl lo nl _ _ OK Nl Rl) as (wl' & El2 & _ & Jo & Jl & Js).
    pose proof (auipc_of_to _ _ _ Ja) as [Oa Rda]. destruct Ja as (w0 & Hw0 & _ & Ew).
    exists na, nl, nt, wa', wl'. split_and!; try done. rewrite Js, Ew. apply pair_sum_rel; [done|unfold OP_AUIPC; lia].
Qed.

(** [auipc x5, 0; jalr x0, 12(x5); nop; nop]: a tail call of the second [nop]. *)
Definition sample_call : list Z := to_le_bytes 4 0x297 ++ to_le_bytes 4 0x00C28067 ++ NOP_BYTES ++ NOP_BYTES.
Definition sample_pcrel : Pcrel := mkPcrel [(0, 12)] [(4, 0, 12)].
Definition sample_call_linked : list Z :=
  to_le_bytes 4 0x297 ++ to_le_bytes 4 0x01028067 ++ NOP_BYTES ++ fallthrough_bytes ++ NOP_BYTES.

Lemma pcrel_pairs_reach_targets_witness :
  exists na nt wa' wl', bt_get 12 [(0, 0); (4, 4); (8, 8); (12, 16)] = Some nt /\
    word_at sample_call_linked 4 = Ret wl' /\ wrap 32 (na + high_part wa' + low_part wl') = wrap 32 nt.
Proof.
  destruct (pcrel_pairs_reach_targets sample_call [12] sample_pcrel sample_call_linked [(0, 0); (4, 4); (8, 8); (12, 16)]
    4 0 12 0x297 0x00C28067) as (na & nl & nt & wa' & wl' & _ & Hl & Ht & _ & _ & _ & Hw & _ & E).
  - apply bytes_check. reflexivity.
  - reflexivity.
  - reflexivity.
  - vm_compute. reflexivity.
  - repeat constructor.
  - reflexivity.
  - by left.
  - intros a' t' [[= <- <-]|[]]. done.
  - reflexivity.
  - reflexivity.
  - reflexivity.
  - reflexivity.
  - exists na, nt, wa', wl'. split; [done|]. split; [|done]. injection Hl as <-. exact Hw.
Defined.

(** ** Absolute pairs reach their data *)

Lemma word_at_put code i bs j c w :
  put_at code i bs = Ret c -> j + 4 <= i \/ i + zlen bs <= j -> word_at code j = Ret w -> word_at c j = Ret w.
Proof.
  unfold put_at. destruct (_ && _) eqn:R; [|done]. intros [= <-] Hd Hw. unfold word_at, slice in *.
  assert (zlen (splice code (Z.to_nat i) bs) = zlen code) as El by (unfold zlen in *; rewrite length_splice by lia; done).
  rewrite El. destruct ((0 <=? j) && _ && _) eqn:G; [|done]. rewrite <- Hw. cbn [res_bind]. do 2 f_equal. apply list_eq. intros k.
  destruct (Nat.lt_ge_cases k (Z.to_nat (j + 4 - j))); [|by rewrite !lookup_take_ge by lia].
  rewrite !lookup_take_lt, !lookup_drop, splice_lookup by (unfold zlen in *; lia). unfold zlen in *.
  case_bool_decide; [lia|done].
Qed.

Lemma word_at_put_same code i w c : put_at code i (to_le_bytes 4 w) = Ret c -> is_u 32 w -> word_at c i = Ret w.
Proof.
  unfold put_at. destruct (_ && _) eqn:R; [|done]. intros H Hw.
  assert (c = splice code (Z.to_nat i) (to_le_bytes 4 w)) as -> by congruence. clear H. change (zlen (to_le_bytes 4 w)) with 4 in R. unfold word_at, slice.
  assert (zlen (splice code (Z.to_nat i) (to_le_bytes 4 w)) = zlen code) as El.
  { unfold zlen in *. rewrite length_splice; [done|]. rewrite length_to_le_bytes. lia. }
  rewrite El. destruct ((0 <=? i) && _ && _) eqn:G; [|lia]. cbn [res_bind]. f_equal. replace (Z.to_nat (i + 4 - i)) with 4%nat by lia.
  pose proof (take_drop_splice code (Z.to_nat i) (to_le_bytes 4 w)) as T. rewrite length_to_le_bytes in T.
  rewrite T by (unfold zlen in *; lia). etrans; [apply (from_to_le_bytes 4)|]. by apply wrap_small.
Qed.

(** Patching a word that carries a low part. *)
Lemma patch_lo12_word code off w e c :
  patch_lo12_abs code off e = Ret c -> word_at code off = Ret w -> is_lo12 w = true -> is_u 32 w ->
  put_at code off (to_le_bytes 4 (patched w (sext 12 e))) = Ret c /\ word_at c off = Ret (patched w (sext 12 e)).
Proof.
  intros H Hw Hk Hu. assert (put_at code off (to_le_bytes 4 (patched w (sext 12 e))) = Ret c) as Hp.
  { unfold patch_lo12_abs, patch_lo12, sign_bits in H. apply res_bind_ret in H as (b & Hb & H).
    assert (Z.land w 0x7F = Z.land b 0x7F) as Eo.
    { unfold word_at, slice in Hw. destruct (_ && _) eqn:G in Hw; [|done]. injection Hw as <-.
      destruct (Z.leb_spec 0 off); [|lia]. destruct (code !! Z.to_nat off) as [b'|] eqn:L; [|done].
      cbn [expect] in Hb. injection Hb as ->. rewrite (drop_S _ _ _ L). replace (Z.to_nat _) with 4%nat by lia.
      apply first_byte_opcode. }
    assert (is_lo12_i w = is_lo12_i b /\ is_lo12_s w = is_lo12_s b) as [Ei Es] by (unfold is_lo12_i, is_lo12_s; by rewrite Eo).
    unfold patched. rewrite Ei, Es. unfold is_lo12 in Hk. rewrite Ei, Es in Hk. rewrite Hw in H. cbn [res_bind] in H.
    destruct (is_lo12_i b); [done|]. cbn [orb] in Hk. by rewrite Hk in *. }
  split; [done|]. eapply word_at_put_same; [exact Hp|]. by apply patched_ok.
Qed.

(** A reference to data becomes absolute. Folding the [auipc] of a pair to
    [lui] and patching its low part for a data address leaves the rest of both
    words alone, and the two parts add up, modulo 2^32, to the address shifted
    to where data is mapped, [DATA_BASE]. *)
Theorem data_pair_reaches_data code hi lo target c1 c2 w wl :
  fold_auipc_to_lui code hi (data_target target) = Ret (Ok c1) -> patch_lo12_abs c1 lo (data_target target) = Ret c2 ->
  hi + 4 <= lo \/ lo + 4 <= hi -> Forall (is_u 8) code ->
  word_at code hi = Ret w -> word_at code lo = Ret wl -> is_lo12 wl = true ->
  exists wh wl', word_at c2 hi = Ret wh /\ opcode_of wh = OP_LUI /\ rd_of wh = rd_of w /\
    word_at c2 lo = Ret wl' /\ opcode_of wl' = opcode_of wl /\
    wrap 32 (high_part wh + low_part wl') = wrap 32 (target + DATA_BASE).
Proof.
  intros Hf Hp Hd HB Hw Hwl Hk. unfold fold_auipc_to_lui in Hf. destruct (_ <? _); [done|]. rewrite Hw in Hf. cbn [res_bind] in Hf.
  destruct (negb _); [done|]. apply res_bind_ret in Hf as (c & Hput & [= <-]).
  assert (forall o v, word_at code o = Ret v -> is_u 32 v) as Hu.
  { intros o v Hv. unfold word_at, slice in Hv. destruct (_ && _) eqn:G in Hv; [|done]. injection Hv as <-.
    pose proof (from_le_bytes_range (take (Z.to_nat (o + 4 - o)) (drop (Z.to_nat o) code)) ltac:(auto using Forall_take, Forall_drop)) as R.
    unfold is_u in *. rewrite length_take, length_drop in R. unfold zlen in G.
    replace (8 * Z.of_nat _) with 32 in R by lia. done. }
  set (e := data_target target) in *. assert (wrap 32 e = wrap 32 (target + DATA_BASE)) as Ee.
  { unfold e, data_target, wrapping_add. change 0xFFFFFFFF with (2 ^ 32 - 1). rewrite land_ones' by lia. unfold wrap. pows. dlia. }
  destruct (hi20_word_ok w e OP_LUI (Hu _ _ Hw) ltac:(unfold OP_LUI; lia)) as [Hwh Hoh].
  pose proof (word_at_put_same _ _ _ _ Hput Hwh) as Hh.
  assert (word_at c lo = Ret wl) as Hl by (eapply word_at_put; [exact Hput| |done]; rewrite zlen_le_bytes; lia).
  destruct (patch_lo12_word c lo wl e c2 Hp Hl Hk (Hu _ _ Hwl)) as (Hp2 & Hl2).
  destruct (patched_ok wl (sext 12 e) (Hu _ _ Hwl)) as [Hup Hop].
  exists (hi20_word w e OP_LUI), (patched wl (sext 12 e)). split_and!; try done.
  - eapply word_at_put; [exact Hp2| |done]. rewrite zlen_le_bytes. lia.
  - apply hi20_word_rd; [by eapply Hu|unfold OP_LUI; lia].
  - rewrite low_part_patched by (done || by eapply Hu). rewrite pair_sum; [done|by eapply Hu|unfold OP_LUI; lia].
Qed.

Lemma data_pair_reaches_data_witness :
  exists wh wl', word_at (to_le_bytes 4 0x100012B7 ++ to_le_bytes 4 0xFFC28293) 0 = Ret wh /\
    wrap 32 (high_part wh + low_part wl') = wrap 32 (0xFFC + DATA_BASE).
Proof.
  destruct (data_pair_reaches_data (to_le_bytes 4 0x297 ++ to_le_bytes 4 0x00028293) 0 4 0xFFC
    (to_le_bytes 4 0x100012B7 ++ to_le_bytes 4 0x00028293) (to_le_bytes 4 0x100012B7 ++ to_le_bytes 4 0xFFC28293)
    0x297 0x00028293) as (wh & wl' & Hh & _ & _ & _ & _ & E).
  - vm_compute. reflexivity.
  - vm_compute. reflexivity.
  - lia.
  - apply bytes_check. reflexivity.
  - reflexivity.
  - reflexivity.
  - reflexivity.
  - exists wh, wl'. by split.
Defined.
