(* ===== verification/LinkElf.v ===== *)
(** From an ELF file to a program: the passes of [link_elf] put together. The
    endpoints of a linked program are those its descriptors declare, and every
    target the linker collects starts a block of the emitted code. Source: [src/nub/nub-linker/src/link.rs], [elf.rs]. *)

From Stdlib Require Import ZArith Lia List Bool Ascii String.
From stdpp Require Import base list numbers.
From S2P Require Import Prelude MachineInt Engine Instruction InstructionFacts OrdMap BTreeMap Ssz SszFacts Predecode Program Merkle Cap Elf Link LinkBits LinkAlign LinkFacts.
Open Scope Z_scope.

(** ** Bytes *)

#[local] Abbreviation bytes := (Forall (is_u 8)).

Lemma slice_bytes l a b s : bytes l -> slice l a b = Ret s -> bytes s.
Proof. intros B. unfold slice. destruct (_ && _); [|done]. intros [= <-]. auto using Forall_take, Forall_drop. Qed.

Lemma put_at_bytes code i bs c : bytes code -> bytes bs -> put_at code i bs = Ret c -> bytes c.
Proof. intros B B'. unfold put_at. destruct (_ && _); [|done]. intros [= <-]. by apply splice_bytes. Qed.

(** A loop that may panic. *)
Lemma res_fold_ind {A B : Type} (f : A -> B -> Res A) (I : A -> Prop) l a a' :
  (forall a b a', In b l -> I a -> f a b = Ret a' -> I a') ->
  I a -> fold_left (fun acc b => let! a := acc in f a b) l (Ret a) = Ret a' -> I a'.
Proof.
  assert (forall l, fold_left (fun acc b => let! a := acc in f a b) l Abort = Abort) as HA by (intros k; induction k; done).
  revert a. induction l as [|b l IH]; intros a Hf Ha; cbn [fold_left].
  - by intros [= <-].
  - cbn [res_bind]. destruct (f a b) as [a1|] eqn:E; [|by rewrite HA]. apply IH.
    + intros a2 b2 a3 Hb. apply Hf. by right.
    + eapply Hf; [by left|done..].
Qed.

Lemma classify_bytes data tab r s r' :
  bytes data -> Forall (fun x => bytes (snd x)) (r_code r) -> classify data tab r s = Ret r' ->
  Forall (fun x => bytes (snd x)) (r_code r').
Proof.
  intros B F H. unfold classify in H.
  set (r1 := if si_type s =? 2 then _ else r) in H. set (r2 := if si_type s =? 4 then _ else r1) in H.
  assert (r_code r2 = r_code r) as E by (unfold r2, r1; by repeat destruct (_ =? _)).
  destruct (negb (flag s 2) || _); [injection H as <-; by rewrite E|].
  destruct (flag s 4 && _).
  - apply res_bind_ret in H as (b & Hb & [= <-]). cbn [r_code]. rewrite E. apply Forall_app. split; [done|].
    repeat constructor. by eapply slice_bytes.
  - repeat case_match; try (injection H as <-; by rewrite ?E);
      apply res_bind_ret in H as (b & _ & H'); injection H' as <-; cbn [r_code]; by rewrite E.
Qed.

Lemma parse_code_bytes data elf :
  bytes data -> parse_linked_elf data = Ret (Ok elf) -> Forall (fun x => bytes (snd x)) (code_sections elf).
Proof.
  intros B H. unfold parse_linked_elf in H. destruct (negb (is_elf data)); [done|].
  apply res_bind_ret in H as (cl & _ & H). destruct (negb _); [done|].
  apply res_bind_ret in H as (h & _ & H). apply res_bind_ret in H as (ss & _ & H). apply res_bind_ret in H as (r & Hr & H).
  assert (Forall (fun x => bytes (snd x)) (r_code r)) as F.
  { apply (res_fold_ind (classify data (strtab h)) (fun r => Forall (fun x => bytes (snd x)) (r_code r)) ss roles_empty r); [|constructor|exact Hr].
    intros r1 s r2 _. by apply classify_bytes. }
  apply res_bind_ret in H as (sy & _ & H). apply res_bind_ret in H as (ro & _ & H). apply res_bind_ret in H as ([base rw] & _ & H).
  apply res_bind_ret in H as (l & _ & H). destruct (fold_left (pair_lo12 _) _ _) as [x y]. by injection H as <-.
Qed.

Lemma insert_by_addr_In {A : Type} (x y : Z * A) l : In y (insert_by_addr x l) -> y = x \/ In y l.
Proof.
  induction l as [|z l IH]; cbn [insert_by_addr]; [intros [->|[]]; auto|]. destruct (_ <? _); cbn [In]; [intros [?|H]; auto; apply IH in H; tauto|].
  intros [?|[?|?]]; auto.
Qed.

Lemma sort_by_addr_In {A : Type} (y : Z * A) l : In y (sort_by_addr l) -> In y l.
Proof. induction l as [|x l IH]; cbn; [done|]. intros H. apply insert_by_addr_In in H as [->|H]; auto. Qed.

Lemma concat_code_bytes secs base code :
  Forall (fun x => bytes (snd x)) secs -> concat_code secs = Ret (Ok (base, code)) -> bytes code.
Proof.
  intros F H. unfold concat_code in H. destruct (sort_by_addr _) as [|[v d] r] eqn:E; [done|].
  apply res_bind_ret in H as (c & Hc & [= _ <-]). 
  eapply (res_fold_ind (fun c s => put_at c (fst s - v) (snd s)) bytes ((v, d) :: r)); [| |exact Hc]; [|apply Forall_replicate; done].
  intros a s a' Hin Ha Hp. eapply put_at_bytes; [done| |exact Hp]. rewrite <- E in Hin. apply sort_by_addr_In in Hin.
  apply in_map_iff in Hin as (x & <- & Hx). rewrite Forall_forall in F. by apply F.
Qed.

(** ** Relocated code *)

Lemma patch_lo12_bytes code off imm c : bytes code -> patch_lo12 code off imm = Ret c -> bytes c.
Proof.
  intros B H. unfold patch_lo12 in H. apply res_bind_ret in H as (b & _ & H). repeat case_match; [| |by injection H as <-];
    apply res_bind_ret in H as (w & _ & H); (eapply put_at_bytes; [done| |exact H]; apply to_le_bytes_bytes).
Qed.

Lemma resolve_hi20_bytes base n isc st e st' :
  bytes (fst st) -> resolve_hi20 base n isc st e = Ret (Ok st') -> bytes (fst st').
Proof.
  intros B H. unfold resolve_hi20 in H. destruct st as [code p], e as [v t]. apply try_bind_ok in H as (o & _ & H).
  destruct (isc t).
  - apply try_bind_ok in H as (? & _ & H). apply try_bind_ok in H as (? & _ & H). by injection H as <-.
  - apply try_bind_ok in H as (c & Hc & H). injection H as <-. unfold fold_auipc_to_lui in Hc. destruct (_ <? _); [done|].
    apply res_bind_ret in Hc as (w & _ & Hc). destruct (negb _); [done|]. apply res_bind_ret in Hc as (c1 & Hp & [= <-]).
    eapply put_at_bytes; [done| |exact Hp]. apply to_le_bytes_bytes.
Qed.

Lemma resolve_lo12_bytes base n isc hi st e st' :
  bytes (fst st) -> resolve_lo12 base n isc hi st e = Ret st' -> bytes (fst st').
Proof.
  intros B H. unfold resolve_lo12 in H. destruct st as [code p], e as [v t]. repeat case_match; try (by injection H as <-).
  apply res_bind_ret in H as (c & Hc & H). injection H as <-. by eapply patch_lo12_bytes.
Qed.

Lemma rewrite_ecall_markers_bytes code : bytes code -> bytes (rewrite_ecall_markers code).
Proof.
  assert (forall n code, (length code <= n)%nat -> bytes code -> bytes (rewrite_ecall_markers code)) as H.
  { clear. induction n as [|n IH]; intros code Hn B; [by destruct code; [constructor|cbn in Hn; lia]|].
    assert (bytes NOP_BYTES) as BN by (apply bytes_check; reflexivity).
    destruct code as [|b0 [|b1 r]]; [done..|]. inversion B as [|? ? B0 B']; subst. inversion B' as [|? ? B1 Br]; subst.
    cbn [rewrite_ecall_markers]. cbn [length] in Hn. destruct (negb _); [do 2 (constructor; [done|]); apply IH; [lia|done]|].
    destruct r as [|b2 [|b3 r']]; [done..|]. inversion Br as [|? ? B2 Br']; subst. inversion Br' as [|? ? B3 Br'']; subst. cbn [length] in Hn.
    assert (bytes (rewrite_ecall_markers r')) as R by (apply IH; [lia|done]).
    destruct (is_marker _); [|destruct (_ && _); [apply Forall_app; split; [apply to_le_bytes_bytes|done]|by do 4 (constructor; [done|])]].
    destruct r' as [|c0 [|c1 [|c2 [|c3 r'']]]]; try (apply Forall_app; done).
    destruct (_ && _); [|apply Forall_app; done]. rewrite !Forall_app. split_and!; [done|apply to_le_bytes_bytes|].
    apply IH; [cbn [length] in Hn; lia|]. by do 4 apply Forall_inv_tail in Br''. }
  by apply (H (length code)).
Qed.

Lemma relocate_code_bytes `{HashIter} elf base code code' p :
  bytes code -> relocate_code elf base code = Ret (Ok (code', p)) -> bytes code'.
Proof.
  intros B H0. unfold relocate_code in H0. apply try_bind_ok in H0 as (p0 & _ & H0). apply try_bind_ok in H0 as (st & Hs & H0).
  apply res_bind_ret in H0 as ([c q] & Hc & H0). injection H0 as <- _. apply rewrite_ecall_markers_bytes.
  assert (bytes (fst st)) as Bs.
  { eapply (try_fold_ind _ (fun st => bytes (fst st))); [| |exact Hs]; [|exact B]. intros a e a' _. apply resolve_hi20_bytes. }
  change (bytes (fst (c, q))).
  eapply (res_fold_ind (resolve_lo12 base (zlen code) (is_code_addr elf) (lo12_to_hi20 elf)) (fun st => bytes (fst st)));
    [| |exact Hc]; [|exact Bs]. intros a e a' _. apply resolve_lo12_bytes.
Qed.

(** ** Alignment does not shrink code *)

Lemma layout_longer inj n ps : zlen (concat (map snd ps)) <= zlen (flat (layout inj n ps)).
Proof.
  revert n. induction ps as [|[p c] r IH]; intros n; [done|]. cbn [layout map concat snd]. rewrite flat_cons, !zlen_app.
  cbn [s_inj s_bytes]. specialize (IH (n + zlen (gap (inj p)) + zlen c)). pose proof (zlen_nonneg (gap (inj p))). lia.
Qed.

Lemma align_longer code extra code' m : align_branch_targets code extra = Ret (Ok (code', m)) -> zlen code <= zlen code'.
Proof.
  intros H. unfold align_branch_targets in H. apply res_bind_ret in H as (s & Hs & H).
  destruct (scan_program code s extra Hs) as (St & _ & Nz). destruct (needs_inject_spec (zlen code) s extra) as [Sorted _].
  destruct (needs_inject (zlen code) s extra) as [|x it]; [injection H as <- _; lia|].
  rewrite St in H. pose proof (inject_spec (contains (x :: it)) (placed 0 code) [] (x :: it) [] []) as I.
  cbn [app] in I. rewrite placed_concat in I. rewrite I in H; clear I.
  2: apply placed_consecutive. 2: done. 2: by intros y Hy; apply Nz. 2: by intros; rewrite contains_In.
  cbn [res_bind] in H. apply try_bind_ok in H as (c & H & [= -> _]).
  pose proof (layout_longer (contains (x :: it)) 0 (placed 0 code)) as L. rewrite placed_concat in L. etrans; [exact L|].
  apply Z.eq_le_incl. symmetry. eapply (try_fold_ind _ (fun c => zlen c = zlen (flat (layout (contains (x :: it)) 0 (placed 0 code))))); [| |exact H]; [|done].
  intros a b a' _ <- Hr. by eapply retarget_length.
Qed.

Lemma finish_longer code extra p code' m : finish_code code extra p = Ret (Ok (code', m)) -> zlen code <= zlen code'.
Proof.
  intros H. unfold finish_code in H. apply try_bind_ok in H as ([c1 m1] & H1 & H). apply try_bind_ok in H as (c2 & H2 & H).
  destruct (validate_pvm2 c2); [|done]. injection H as -> _. rewrite (fixup_length _ _ _ _ _ H2). by eapply align_longer.
Qed.

(** ** Descriptors *)

(** Descriptor [j] of a section: a function pointer in the first eight bytes,
    then the index, the argument count and a metadata byte. *)
Definition describes (s : list Z) (j : nat) (k fp ar me : Z) : Prop :=
  (16 * j + 16 <= length s)%nat /\ fp = from_le_bytes (take 8 (drop (16 * j) s)) /\
  s !! (16 * j + 8)%nat = Some k /\ s !! (16 * j + 9)%nat = Some ar /\ s !! (16 * j + 10)%nat = Some me.

Definition described (secs : list (list Z)) (k fp ar me : Z) : Prop :=
  exists s j, In s secs /\ describes s j k fp ar me.

Definition chunk_describes (c : list Z) (k fp ar me : Z) : Prop :=
  fp = from_le_bytes (take 8 c) /\ c !! 8%nat = Some k /\ c !! 9%nat = Some ar /\ c !! 10%nat = Some me.

Lemma chunks_from_In fuel s c : (length s <= fuel)%nat ->
  In c (chunks_from fuel 16 s) <-> exists j, (16 * j < length s)%nat /\ c = take 16 (drop (16 * j) s).
Proof.
  revert s. induction fuel as [|fuel IH]; intros s Hl; [destruct s; [|cbn in Hl; lia]; cbn; split; [done|intros (j & ? & _); lia]|].
  destruct s as [|x s]; [cbn; split; [done|intros (j & ? & _); lia]|]. cbn [chunks_from In].
  change (Z.to_nat 16) with 16%nat. rewrite IH by (rewrite length_drop; cbn [length] in *; lia). split.
  - intros [<-|(j & Hj & ->)]; [exists 0%nat; cbn [length]; split; [lia|done]|].
    exists (S j). rewrite length_drop in Hj. split; [lia|]. rewrite drop_drop. do 2 f_equal. lia.
  - intros (j & Hj & ->). destruct j as [|j]; [by left|]. right. exists j. rewrite length_drop. split; [lia|].
    rewrite drop_drop. do 2 f_equal. lia.
Qed.

Lemma chunk_describes_at s j k fp ar me :
  (16 * j + 16 <= length s)%nat ->
  chunk_describes (take 16 (drop (16 * j) s)) k fp ar me <-> describes s j k fp ar me.
Proof.
  intros Hj. unfold chunk_describes, describes. rewrite take_take, Nat.min_l by lia.
  rewrite !lookup_take_lt, !lookup_drop by lia. naive_solver.
Qed.

Lemma section_chunks s k fp ar me : zlen s mod 16 = 0 ->
  (exists c, In c (chunks 16 s) /\ chunk_describes c k fp ar me) <-> exists j, describes s j k fp ar me.
Proof.
  intros Hm. unfold chunks. split.
  - intros (c & (j & Hj & ->)%chunks_from_In & Hc); [|done]. exists j. apply chunk_describes_at; [|done].
    unfold zlen in Hm. dlia.
  - intros (j & Hd). pose proof (proj1 Hd) as Hj. exists (take 16 (drop (16 * j) s)). split.
    + apply chunks_from_In; [done|]. exists j. split; [lia|done].
    + by apply chunk_describes_at.
Qed.

(** ** Reading the descriptors *)

(** The endpoint a descriptor declares, before injection. *)
Definition declared_endpoint (base fp ar me : Z) : Endpoint := mkEndpoint (fp - base) ar me [].

Lemma read_descriptor_spec base n m c m' :
  bt_ok m -> read_descriptor base n m c = Ret (Ok m') ->
  bt_ok m' /\ exists k fp ar me, chunk_describes c k fp ar me /\ base <= fp /\ (8 <= length c)%nat /\ bt_get k m = None /\
    forall k', bt_get k' m' = if k' =? k then Some (declared_endpoint base fp ar me) else bt_get k' m.
Proof.
  intros O H. unfold read_descriptor, field in H. apply res_bind_ret in H as (fp & Hf & H).
  apply res_bind_ret in Hf as (s & Hs & [= <-]). apply res_bind_ret in H as (ix & Hix & H).
  apply res_bind_ret in H as (ar & Har & H). apply res_bind_ret in H as (me & Hme & H).
  apply expect_Ret in Hix, Har, Hme. unfold slice in Hs. change (wrapping_add 64 0 8) with 8 in Hs.
  destruct (_ && _) eqn:G in Hs; [|done]. injection Hs as <-. change (Z.to_nat (8 - 0)) with 8%nat in H. change (Z.to_nat 0) with 0%nat in H.
  rewrite drop_0 in H. destruct (_ || _) eqn:R; [done|]. apply orb_false_iff in R as [R%Z.ltb_ge _].
  pose proof (bt_insert_old ix (declared_endpoint base (from_le_bytes (take 8 c)) ar me) m O) as Ho.
  pose proof (bt_insert_ok ix (declared_endpoint base (from_le_bytes (take 8 c)) ar me) m O) as Hok.
  pose proof (fun k' => bt_get_insert ix (declared_endpoint base (from_le_bytes (take 8 c)) ar me) m k') as Hg.
  unfold declared_endpoint in *. destruct (bt_insert _ _ m) as [m1 [|]]; [done|]. injection H as <-. cbn [fst snd] in *.
  split; [done|]. exists ix, (from_le_bytes (take 8 c)), ar, me. split; [done|]. split; [done|].
  split; [unfold zlen in G; lia|]. split; [done|]. intros k'. by rewrite Hg.
Qed.

(** [m] has the entries of [m0] and those the chunks describe. *)
Definition reads (base : Z) (cs : list (list Z)) (m0 m : BTreeMap Endpoint) : Prop :=
  bt_ok m /\ Forall (fun c => (8 <= length c)%nat /\ base <= from_le_bytes (take 8 c)) cs /\
  forall k e, bt_get k m = Some e <->
    bt_get k m0 = Some e \/ exists c fp ar me, In c cs /\ chunk_describes c k fp ar me /\ e = declared_endpoint base fp ar me.

Lemma reads_app base cs1 cs2 m0 m1 m2 : reads base cs1 m0 m1 -> reads base cs2 m1 m2 -> reads base (cs1 ++ cs2) m0 m2.
Proof.
  intros (_ & F1 & H1) (O & F2 & H2). split; [done|]. split; [by apply Forall_app|]. intros k e. rewrite H2, H1.
  setoid_rewrite in_app_iff. naive_solver.
Qed.

Lemma read_chunks_spec base n cs m m' :
  bt_ok m -> try_fold (read_descriptor base n) m cs = Ret (Ok m') -> reads base cs m m'.
Proof.
  revert m. induction cs as [|c cs IH]; intros m O H.
  - injection H as <-. split; [done|]. split; [constructor|]. intros k e. split; [by left|]. intros [?|(c & ? & ? & ? & [] & _)]. done.
  - rewrite try_fold_cons in H. apply try_bind_ok in H as (m1 & H1 & H).
    destruct (read_descriptor_spec base n m c m1 O H1) as (O1 & k0 & fp & ar & me & D & Hfp & Hlen & Hn & Hg).
    apply (reads_app base [c] cs m m1); [|by apply IH]. split; [done|]. destruct D as (-> & D1 & D2 & D3).
    split; [by repeat constructor|]. intros k e. rewrite Hg. destruct (Z.eqb_spec k k0) as [->|N].
    + rewrite Hn. split.
      * intros [= <-]. right. exists c, (from_le_bytes (take 8 c)), ar, me. split; [by left|done].
      * intros [?|(c' & f' & a' & m2 & [<-|[]] & (-> & E1 & E2 & E3) & ->)]; [done|]. congruence.
    + split; [by left|]. intros [?|(c' & f' & a' & m2 & [<-|[]] & (-> & E1 & E2 & E3) & ->)]; [done|]. congruence.
Qed.

Lemma read_sections_spec base n secs m m' :
  bt_ok m -> try_fold (read_section_descriptors base n) m secs = Ret (Ok m') ->
  Forall (fun s => zlen s mod 16 = 0) secs /\ reads base (concat (map (chunks 16) secs)) m m'.
Proof.
  revert m. induction secs as [|s secs IH]; intros m O H.
  - injection H as <-. split; [constructor|]. split; [done|]. split; [constructor|]. intros k e. split; [by left|].
    intros [?|(c & ? & ? & ? & [] & _)]. done.
  - rewrite try_fold_cons in H. apply try_bind_ok in H as (m1 & H1 & H). unfold read_section_descriptors in H1.
    destruct (Z.eqb_spec (zlen s mod DESCRIPTOR_SIZE) 0) as [Hm|]; [|done]. cbn [negb] in H1.
    pose proof (read_chunks_spec base n _ m m1 O H1) as R. destruct (IH m1 (proj1 R) H) as [Hs R2].
    split; [by constructor|]. cbn [map concat]. by apply (reads_app _ _ _ m m1).
Qed.

Lemma described_chunk secs k fp ar me : Forall (fun s => zlen s mod 16 = 0) secs ->
  (exists c, In c (concat (map (chunks 16) secs)) /\ chunk_describes c k fp ar me) <-> described secs k fp ar me.
Proof.
  intros F. rewrite Forall_forall in F. setoid_rewrite in_concat. setoid_rewrite in_map_iff. split.
  - intros (c & (l & (s & <- & Hs) & Hc) & D). destruct (proj1 (section_chunks s k fp ar me (F s Hs))) as [j Hj]; [by exists c|].
    by exists s, j.
  - intros (s & j & Hs & Hj). destruct (proj2 (section_chunks s k fp ar me (F s Hs))) as (c & Hc & D); [by exists j|].
    exists c. split; [|done]. exists (chunks 16 s). split; [by exists s|done].
Qed.

(** The endpoints read are those the descriptors declare, and the alignment is
    told of each. *)
Lemma read_endpoints_spec data base n eps :
  read_endpoint_descriptors data base n = Ret (Ok eps) ->
  exists secs, find_all_section_bytes data ENDPOINTS_SECTION = Ret (Ok secs) /\
    (forall k e, bt_get k eps = Some e <-> exists fp ar me, described secs k fp ar me /\ e = declared_endpoint base fp ar me) /\
    forall k fp ar me, described secs k fp ar me ->
      base <= fp /\ In (fp - base) (omap (endpoint_entry base) (concat (map (chunks 16) secs))).
Proof.
  intros H. unfold read_endpoint_descriptors in H. apply try_bind_ok in H as (secs & Hs & H).
  apply try_bind_ok in H as (m & Hm & H). assert (m = eps) as <- by (destruct m; congruence). clear H.
  apply read_sections_spec in Hm as [F (_ & Fc & R)]; [|constructor].
  pose proof (fun k fp ar me => described_chunk secs k fp ar me F) as Dc. rewrite Forall_forall in Fc.
  exists secs. split; [done|]. split.
  - intros k e. rewrite R. setoid_rewrite <- Dc. cbn [bt_get]. split; [|naive_solver].
    intros [?|(c & fp & ar & me & ? & ? & ->)]; [done|]. exists fp, ar, me. split; [by exists c|done].
  - intros k fp ar me (c & Hc & -> & _)%Dc. destruct (Fc c Hc) as [Hl Hb]. split; [done|].
    apply list_elem_of_In, list_elem_of_omap. exists c. split; [by apply list_elem_of_In|]. unfold endpoint_entry.
    rewrite (proj2 (Z.ltb_ge (zlen c) 8)), (proj2 (Z.ltb_ge (from_le_bytes (take 8 c)) base)) by (unfold zlen; lia). done.
Qed.

Lemma bt_get_map_values {V : Type} (f : V -> V) m k : bt_get k (map_values f m) = option_map f (bt_get k m).
Proof. unfold map_values. induction m as [|[j v] m IH]; [done|]. cbn. destruct (k =? j); [done|apply IH]. Qed.

(** ** The passes of a link *)

(** What the alignment is told. *)
Definition named_targets (base : Z) (elf : LinkedElf) (secs : list (list Z)) (p : Pcrel) : list Z :=
  omap (endpoint_entry base) (concat (map (chunks 16) secs)) ++
  rodata_targets_pre base (is_code_addr elf) (abs_code_ptrs elf) ++ map snd (code_auipc p).

(** The passes that gave [b]: the parsed file, its code before and after the
    relocations, with the references that stay relative, the descriptor
    sections, and where the alignment moved each instruction. *)
Record linked `{HashIter} (data : list Z) (b : ProgramBlob) (elf : LinkedElf) (base : Z) (c0 c : list Z) (p : Pcrel)
    (secs : list (list Z)) (m : BTreeMap Z) : Prop := {
  lk_parse : parse_linked_elf data = Ret (Ok elf);
  lk_concat : concat_code (code_sections elf) = Ret (Ok (base, c0));
  lk_relocate : relocate_code elf base c0 = Ret (Ok (c, p));
  lk_sections : find_all_section_bytes data ENDPOINTS_SECTION = Ret (Ok secs);
  lk_finish : finish_code c (named_targets base elf secs p) p = Ret (Ok (Program.code b, m)) }.

Lemma link_elf_inv `{HashIter} data b :
  Forall (is_u 8) data -> link_elf data = Ret (Ok b) ->
  exists elf base c0 c p secs m eps, linked data b elf base c0 c p secs m /\
    bytes c /\ zlen c < 2 ^ 31 /\ zlen (Program.code b) < 2 ^ 31 /\
    read_endpoint_descriptors data base (zlen (Program.code b)) = Ret (Ok eps) /\
    endpoints b = map_values (seed_sp (stack_top (regions b))) (map_values (remap_endpoint m) eps).
Proof.
  intros B H0. unfold link_elf in H0. apply try_bind_ok in H0 as (elf & Hp & H0). apply try_bind_ok in H0 as ([base c0] & Hc & H0).
  apply try_bind_ok in H0 as ([c p] & Hr & H0). apply res_bind_ret in H0 as (entries & He & H0).
  apply try_bind_ok in H0 as ([code' m] & Hf & H0).
  apply res_bind_ret in H0 as (ro1 & _ & H0). apply try_bind_ok in H0 as ([ro rw] & _ & H0).
  apply try_bind_ok in H0 as (eps & Hd & H0). destruct (blob_new _ _ _ _ _) as [b'|] eqn:Hb; [|done]. injection H0 as ->.
  unfold blob_new in Hb. destruct (validate _) as [u|] eqn:V; [|done]. cbn [result_bind] in Hb. injection Hb as <-.
  assert (zlen code' < 2 ^ 31) as Hl.
  { unfold validate in V. cbn [Program.code] in V. destruct (Z.ltb_spec MAX_CODE_SIZE (vlen code')) as [|Hle]; [done|].
    unfold MAX_CODE_SIZE, DATA_BASE, CODE_BASE in Hle. unfold zlen, vlen in *. lia. }
  pose proof (finish_longer _ _ _ _ _ Hf).
  pose proof (relocate_code_bytes _ _ _ _ _ (concat_code_bytes _ _ _ (parse_code_bytes _ _ B Hp) Hc) Hr) as Bc.
  destruct (read_endpoints_spec _ _ _ _ Hd) as (secs & Hs & _). unfold endpoint_entries_pre in He. rewrite Hs in He. injection He as <-.
  exists elf, base, c0, c, p, secs, m, eps. cbn [endpoints regions Program.code]. split; [by split|].
  split; [done|]. split; [lia|]. by split_and!.
Qed.

(** Where the alignment moved an offset. *)
Definition new_place (m : BTreeMap Z) (x : Z) : Z := default x (bt_get x m).

(** ** Theorems *)

(** C18: the endpoints of a linked program are exactly those its descriptors
    declare. Endpoint [k] is there if and only if a descriptor of the endpoint
    sections has index [k]; its entry is the place of the function the
    descriptor points at, moved as the alignment moved it, its argument bytes
    are the descriptor's, and its stack pointer is the top of the stack. If a
    complete instruction is at the place, a block of the emitted code starts at
    the entry, so that the run's check of its first program counter succeeds.
    This holds in whatever order the hash maps of the linker are traversed. *)
Theorem link_elf_endpoints `{HashIter} data b :
  Forall (is_u 8) data -> link_elf data = Ret (Ok b) ->
  exists elf base c0 c p secs m, linked data b elf base c0 c p secs m /\
    (forall k e, bt_get k (endpoints b) = Some e <-> exists fp ar me, described secs k fp ar me /\
       e = mkEndpoint (new_place m (fp - base)) ar me [(SP_REG, stack_top (regions b))]) /\
    forall k fp ar me, described secs k fp ar me ->
      base <= fp /\
      (is_Some (bt_get (fp - base) m) -> decode (drop (Z.to_nat (fp - base)) c) <> None ->
       starts_block (Program.code b) (new_place m (fp - base))).
Proof.
  intros B H0. destruct (link_elf_inv data b B H0) as (elf & base & c0 & c & p & secs & m & eps & Lk & Bc & Hc & Hb & Hd & Ee).
  exists elf, base, c0, c, p, secs, m. split; [done|].
  destruct (read_endpoints_spec _ _ _ _ Hd) as (secs' & Hs & Hk & Hi). rewrite (lk_sections _ _ _ _ _ _ _ _ _ Lk) in Hs. injection Hs as <-. split.
  - intros k e. rewrite Ee, !bt_get_map_values. setoid_rewrite <- (and_comm (e = _)). split.
    + destruct (bt_get k eps) as [e0|] eqn:E0; [|done]. intros [= <-]. apply Hk in E0 as (fp & ar & me & Hdesc & ->).
      exists fp, ar, me. split; [|done]. unfold remap_endpoint, new_place, declared_endpoint. cbn [entry_pc]. by destruct (bt_get _ m).
    + intros (fp & ar & me & -> & Hdesc). rewrite (proj2 (Hk k (declared_endpoint base fp ar me))) by (by exists fp, ar, me).
      cbn. unfold remap_endpoint, new_place, declared_endpoint. cbn [entry_pc]. by destruct (bt_get _ m).
  - intros k fp ar me Hdesc. destruct (Hi _ _ _ _ Hdesc) as [Hbase Hin]. split; [done|]. intros [x' G] Hdec. unfold new_place. rewrite G. cbn [default].
    eapply finish_targets_start_blocks; [exact Bc|exact Hc|exact Hb|exact (lk_finish _ _ _ _ _ _ _ _ _ Lk)| |exact G|exact Hdec].
    left. apply in_app_iff. by left.
Qed.

(** The targets of a link: functions of the endpoint descriptors, code
    addresses of the pointer relocations, targets of the kept [auipc]
    references, and destinations of direct jumps and branches. *)
Definition link_target (elf : LinkedElf) (base : Z) (c : list Z) (p : Pcrel) (secs : list (list Z)) (m : BTreeMap Z) (x : Z) : Prop :=
  (exists k fp ar me, described secs k fp ar me /\ x = fp - base) \/
  (exists v t size, In (v, t, size) (abs_code_ptrs elf) /\ is_code_addr elf t = true /\ x = wrapping_sub 64 t base) \/
  (exists a, In (a, x) (code_auipc p)) \/
  (exists o o' i len d, bt_get o m = Some o' /\ decode (drop (Z.to_nat o) c) = Some (i, len) /\ disp i = Some d /\ x = o + d).

(** C19: every target the linker collects starts a block of the code it emits:
    endpoint functions, code addresses of the file's pointer relocations,
    targets of the kept [auipc] references and destinations of direct jumps
    and branches. For each that is the place of a complete instruction, the
    predecoder marks the instruction's new place as the start of a gas block,
    after injection, the re-encoding of relative pairs and validation. (A
    target inside an instruction has no place, and addresses only found by
    their looks in read-only data are not collected.) *)
Theorem linked_targets_start_blocks `{HashIter} data b :
  Forall (is_u 8) data -> link_elf data = Ret (Ok b) ->
  exists elf base c0 c p secs m, linked data b elf base c0 c p secs m /\
    forall x x', link_target elf base c p secs m x -> bt_get x m = Some x' -> decode (drop (Z.to_nat x) c) <> None ->
      starts_block (Program.code b) x'.
Proof.
  intros B H0. destruct (link_elf_inv data b B H0) as (elf & base & c0 & c & p & secs & m & eps & Lk & Bc & Hc & Hb & Hd & _).
  exists elf, base, c0, c, p, secs, m. split; [done|]. intros x x' T G Hdec.
  eapply finish_targets_start_blocks; [exact Bc|exact Hc|exact Hb|exact (lk_finish _ _ _ _ _ _ _ _ _ Lk)| |exact G|exact Hdec].
  unfold jump_target, named_targets. rewrite !in_app_iff. destruct T as [(k & fp & ar & me & Hdesc & ->)|[(v & t & size & Hin & Hcode & ->)|[(a & Hin)|T]]].
  - destruct (read_endpoints_spec _ _ _ _ Hd) as (secs' & Hs & _ & Hi). rewrite (lk_sections _ _ _ _ _ _ _ _ _ Lk) in Hs. injection Hs as <-.
    left. left. by apply (Hi k fp ar me).
  - left. right. left. unfold rodata_targets_pre. apply list_elem_of_In, list_elem_of_omap. exists (v, t, size).
    split; [by apply list_elem_of_In|]. cbn [fst snd]. by rewrite Hcode.
  - left. right. right. by apply (in_map snd) in Hin.
  - by right.
Qed.

(** Maps traversed in key order. *)
Definition in_key_order : HashIter := {| hash_iter := fun _ m => m; hash_iter_perm := fun _ m => Permutation_refl m |}.

(** An ELF file with code [nop; nop; j .] at 0x1000 and one endpoint at the
    second [nop]. *)
Definition sample_elf : list Z :=
  [127; 69; 76; 70; 2; 1; 1; 0; 0; 0; 0; 0; 0; 0; 0; 0; 2; 0; 243; 0; 1; 0; 0; 0; 0; 0; 0; 0; 0; 0; 0; 0; 0;
   0; 0; 0; 0; 0; 0; 0; 128; 0; 0; 0; 0; 0; 0; 0; 0; 0; 0; 0; 64; 0; 0; 0; 0; 0; 64; 0; 4; 0; 3; 0; 19; 0; 0;
   0; 19; 0; 0; 0; 111; 0; 0; 0; 4; 16; 0; 0; 0; 0; 0; 0; 7; 2; 0; 0; 0; 0; 0; 0; 0; 46; 116; 101; 120; 116;
   0; 46; 110; 117; 98; 46; 101; 110; 100; 112; 111; 105; 110; 116; 115; 0; 46; 115; 104; 115; 116; 114; 116;
   97; 98; 0; 0; 0; 0; 0; 0; 0; 0; 0; 0; 0; 0; 0; 0; 0; 0; 0; 0; 0; 0; 0; 0; 0; 0; 0; 0; 0; 0; 0; 0; 0; 0; 0;
   0; 0; 0; 0; 0; 0; 0; 0; 0; 0; 0; 0; 0; 0; 0; 0; 0; 0; 0; 0; 1; 0; 0; 0; 0; 0; 0; 0; 0; 0; 0; 0; 0; 0; 0; 0;
   1; 0; 0; 0; 1; 0; 0; 0; 6; 0; 0; 0; 0; 0; 0; 0; 0; 16; 0; 0; 0; 0; 0; 0; 64; 0; 0; 0; 0; 0; 0; 0; 12; 0; 0;
   0; 0; 0; 0; 0; 0; 0; 0; 0; 0; 0; 0; 0; 1; 0; 0; 0; 0; 0; 0; 0; 0; 0; 0; 0; 0; 0; 0; 0; 7; 0; 0; 0; 1; 0; 0;
   0; 0; 0; 0; 0; 0; 0; 0; 0; 0; 80; 0; 0; 0; 0; 0; 0; 76; 0; 0; 0; 0; 0; 0; 0; 16; 0; 0; 0; 0; 0; 0; 0; 0; 0;
   0; 0; 0; 0; 0; 0; 1; 0; 0; 0; 0; 0; 0; 0; 0; 0; 0; 0; 0; 0; 0; 0; 22; 0; 0; 0; 3; 0; 0; 0; 0; 0; 0; 0; 0;
   0; 0; 0; 0; 0; 0; 0; 0; 0; 0; 0; 92; 0; 0; 0; 0; 0; 0; 0; 32; 0; 0; 0; 0; 0; 0; 0; 0; 0; 0; 0; 0; 0; 0; 0;
   1; 0; 0; 0; 0; 0; 0; 0; 0; 0; 0; 0; 0; 0; 0; 0].

(** The linked program: a boundary before the endpoint and one before the
    target of the jump, the jump itself. *)
Definition sample_program : ProgramBlob :=
  mkBlob (NOP_BYTES ++ fallthrough_bytes ++ NOP_BYTES ++ fallthrough_bytes ++ to_le_bytes 4 0x6F) (mkRegions 4 0 0 16) [] []
    [(7, mkEndpoint 8 2 0 [(SP_REG, 0x10004000)])].

(** The passes on the sample are functions of the file. *)
Lemma sample_linked elf base c0 c p secs m :
  linked (H := in_key_order) sample_elf sample_program elf base c0 c p secs m ->
  base = 0x1000 /\ c = NOP_BYTES ++ NOP_BYTES ++ to_le_bytes 4 0x6F /\
  secs = [[4; 16; 0; 0; 0; 0; 0; 0; 7; 2; 0; 0; 0; 0; 0; 0]] /\ m = [(0, 0); (4, 8); (8, 16)].
Proof.
  intros [Hp Hc Hr Hs Hf]. vm_compute in Hp. injection Hp as <-. vm_compute in Hc. injection Hc as <- <-.
  vm_compute in Hr. injection Hr as <- <-. vm_compute in Hs. injection Hs as <-. vm_compute in Hf. injection Hf as <-.
  by split_and!.
Qed.

Lemma sample_described : described [[4; 16; 0; 0; 0; 0; 0; 0; 7; 2; 0; 0; 0; 0; 0; 0]] 7 0x1004 2 0.
Proof. eexists _, 0%nat. split; [by left|]. split; [cbn; lia|]. by split_and!. Qed.

Lemma link_elf_endpoints_witness :
  bt_get 7 (endpoints sample_program) = Some (mkEndpoint 8 2 0 [(SP_REG, 0x10004000)]) /\
  starts_block (Program.code sample_program) 8.
Proof.
  destruct (link_elf_endpoints (H := in_key_order) sample_elf sample_program) as (elf & base & c0 & c & p & secs & m & Lk & He & Hb).
  - apply bytes_check. vm_compute. reflexivity.
  - vm_compute. reflexivity.
  - apply sample_linked in Lk as (-> & -> & -> & ->). split.
    + apply He. exists 0x1004, 2, 0. split; [apply sample_described|reflexivity].
    + apply (Hb 7 0x1004 2 0 sample_described); [by eexists|vm_compute; discriminate].
Defined.

(** The endpoint at the second [nop] and the target of the jump. *)
Lemma linked_targets_start_blocks_witness :
  starts_block (Program.code sample_program) 8 /\ starts_block (Program.code sample_program) 16.
Proof.
  destruct (linked_targets_start_blocks (H := in_key_order) sample_elf sample_program) as (elf & base & c0 & c & p & secs & m & Lk & Hb).
  - apply bytes_check. vm_compute. reflexivity.
  - vm_compute. reflexivity.
  - apply sample_linked in Lk as (-> & -> & -> & ->). split.
    + apply (Hb 4); [left; exists 7, 0x1004, 2, 0; split; [apply sample_described|reflexivity]|reflexivity|vm_compute; discriminate].
    + apply (Hb 8); [right; right; right; exists 8, 16, (Jal 0 0), 4, 0; split_and!; reflexivity|reflexivity|vm_compute; discriminate].
Defined.
