(* ===== verification/Mmu.v ===== *)
(** * Address translation of the processor

    A reference definition of four-level paging (long mode, 4 KiB tables of 512
    entries), as the Intel and AMD manuals describe it: what the page tables
    built by the kernel and by the host mean. [rd pa i] is entry [i] of the table
    at physical address [pa]. *)

From S2P Require Import Prelude MachineInt.

Definition PTE_P (e : Z) : bool := Z.testbit e 0.
Definition PTE_RW (e : Z) : bool := Z.testbit e 1.
Definition PTE_US (e : Z) : bool := Z.testbit e 2.
Definition PTE_PS (e : Z) : bool := Z.testbit e 7.
Definition PTE_NX (e : Z) : bool := Z.testbit e 63.

(** Bits 12 to 51. *)
Definition ADDR_MASK : Z := 0x000FFFFFFFFFF000.
Definition PTE_ADDR (e : Z) : Z := Z.land e ADDR_MASK.

(** The index of [va] in a table whose entries cover [2 ^ shift] bytes. *)
Definition va_idx (shift va : Z) : Z := Z.land (Z.shiftr va shift) 0x1FF.

(** What a translation allows: the frame of the 4 KiB page and the rights that
    every level grants. *)
Record Xlat := mkXlat { x_pa : Z; x_write : bool; x_user : bool; x_exec : bool }.

#[export] Instance Xlat_eq_dec : EqDecision Xlat.
Proof. solve_decision. Defined.

(** Rights gathered so far, met with those of one more entry. *)
Definition meet (w u x : bool) (e : Z) : bool * bool * bool := (w && PTE_RW e, u && PTE_US e, x && negb (PTE_NX e)).

Section Walk.
  Variable rd : Z -> Z -> option Z.

(** The frame a large entry at this level gives to the page of [va]. *)
Definition large_frame (shift e va : Z) : Z :=
  Z.lor (Z.shiftl (Z.shiftr (PTE_ADDR e) shift) shift) (Z.land (Z.shiftl (Z.shiftr va 12) 12) (2 ^ shift - 1)).

(** Levels 3, 2 and 1 below the root; [levels] lists the shifts that remain. A
    set PS bit ends the walk above the last level; at the root it is reserved. *)
Fixpoint walk_from (levels : list Z) (table va : Z) (r : bool * bool * bool) : option Xlat :=
  match levels with
  | [] => None
  | shift :: levels' =>
      match rd table (va_idx shift va) with
      | None => None
      | Some e =>
          if negb (PTE_P e) then None
          else
            let '(w, u, x) := r in
            let '(w, u, x) := meet w u x e in
            match levels' with
            | [] => Some (mkXlat (PTE_ADDR e) w u x)
            | _ =>
                if PTE_PS e then if shift =? 39 then None else Some (mkXlat (large_frame shift e va) w u x)
                else walk_from levels' (PTE_ADDR e) va (w, u, x)
            end
      end
  end.

Definition translate (cr3 va : Z) : option Xlat := walk_from [39; 30; 21; 12] (PTE_ADDR cr3) va (true, true, true).

(** A data access in user mode. *)
Definition user_ok (is_write : bool) (x : Xlat) : bool := x_user x && (negb is_write || x_write x).

Definition user_access (cr3 va : Z) (is_write : bool) : bool :=
  match translate cr3 va with Some x => user_ok is_write x | None => false end.
End Walk.
