(* ===== verification/Paging.v ===== *)
(** * Page tables of the guest kernel

    Models [nub/nub-arch-x86/src/paging.rs]: the tables of a frame, the templates
    an image shares between frames, and the two operations of the fault handler
    on a live table. Tables live in the kernel heap, by virtual address; the
    allocator is a parameter, given as the list of its future answers. *)

From stdpp Require Import gmap.
From S2P Require Import Prelude MachineInt Mmu.

#[local] Open Scope Z_scope.

Definition PAGE_BYTES : Z := 4096.
Definition KERNEL_BASE_GPA : Z := 0x1000.

(** The bounds of the kernel's address space: [scratch_base_gva()] and
    [scratch_base_gpa()] of the guest library, and the linker symbol
    [_kernel_start]. *)
Class KernelLayout : Type := { scratch_gva : Z; scratch_gpa : Z; kernel_base_va : Z }.

(** ** Flags *)

Definition flag_P : Z := Z.shiftl 1 0.
Definition flag_RW : Z := Z.shiftl 1 1.
Definition flag_US : Z := Z.shiftl 1 2.
Definition flag_G : Z := Z.shiftl 1 8.
Definition flag_NX : Z := Z.shiftl 1 63.
Definition PS : Z := Z.shiftl 1 7.
Definition PA_MASK : Z := 0x000FFFFFFFFFF000.
Definition inner_flags : Z := Z.lor (Z.lor flag_P flag_RW) flag_US.

Record Perm := mkPerm { pm_writable : bool; pm_user : bool; pm_executable : bool; pm_global : bool }.

Definition user_rw : Perm := mkPerm true true false false.
Definition user_rx : Perm := mkPerm false true true false.
Definition user_ro : Perm := mkPerm false true false false.
Definition user_rx_global : Perm := mkPerm false true true true.
Definition user_ro_global : Perm := mkPerm false true false true.

Definition pte_flags (p : Perm) : Z :=
  let bits := flag_P in
  let bits := if pm_writable p then Z.lor bits flag_RW else bits in
  let bits := if pm_user p then Z.lor bits flag_US else bits in
  let bits := if pm_global p then Z.lor bits flag_G else bits in
  if negb (pm_executable p) then Z.lor bits flag_NX else bits.

(** ** The kernel heap *)

(** [tables]: the live tables, by kernel address; [free]: what the next calls of
    [alloc_zeroed] return, [None] for a failure. *)
Record Heap := mkHeap { tables : gmap Z (list Z); free : list (option Z) }.

Definition ENTRIES : nat := 512.

Definition alloc_table (h : Heap) : Heap * option Z :=
  match free h with
  | [] => (h, None)
  | None :: f => (mkHeap (tables h) f, None)
  | Some va :: f => (mkHeap (<[va := replicate ENTRIES 0]> (tables h)) f, Some va)
  end.

Definition dealloc_all (h : Heap) (owned : list Z) : Heap :=
  mkHeap (fold_left (fun m va => delete va m) owned (tables h)) (free h).

(** [table[idx]] through a pointer: an address that is no live table is outside
    the model ([Abort]). *)
Definition get_entry (h : Heap) (va idx : Z) : Res Z :=
  let! t := expect (tables h !! va) in expect (t !! Z.to_nat idx).

Definition set_entry (h : Heap) (va idx e : Z) : Res Heap :=
  let! t := expect (tables h !! va) in
  let! _ := expect (t !! Z.to_nat idx) in
  Ret (mkHeap (<[va := <[Z.to_nat idx := e]> t]> (tables h)) (free h)).

(** [opt?] where the function returns an [Option] and the state is kept. *)
Notation "'let^' x := c 'else' d 'in' e" := (match c with Some x => e | None => Ret d end)
  (at level 10, x pattern, c at level 100, d at level 100, e at level 200) : rust_scope.

Section Paging.
  Context {L : KernelLayout}.

Definition va_to_pa (va : Z) : option Z :=
  if scratch_gva <=? va then Some (wrap 64 (scratch_gpa + (va - scratch_gva)))
  else if kernel_base_va <=? va then Some (wrap 64 (KERNEL_BASE_GPA + (va - kernel_base_va)))
  else None.

Definition pa_to_va (pa : Z) : option Z :=
  if scratch_gpa <=? pa then Some (wrap 64 (scratch_gva + (pa - scratch_gpa)))
  else if KERNEL_BASE_GPA <=? pa then Some (wrap 64 (kernel_base_va + (pa - KERNEL_BASE_GPA)))
  else None.

(** [((va >> shift) & 0x1FF) as usize]. *)
Definition index_at (shift va : Z) : Z := Z.land (Z.shiftr va shift) 0x1FF.

Definition leaf_pte (pa : Z) (perm : Perm) : Z := Z.lor (Z.land pa PA_MASK) (pte_flags perm).
Definition inner_pte (pa : Z) : Z := Z.lor (Z.land pa PA_MASK) inner_flags.

(** ** Templates *)

Record TemplatePT := mkTemplate { tp_pd : Z; tp_owned : list Z }.

Definition TemplatePT_new (h : Heap) : Heap * option TemplatePT :=
  match alloc_table h with
  | (h, Some pd) => (h, Some (mkTemplate pd [pd]))
  | (h, None) => (h, None)
  end.

Definition map_leaf (h : Heap) (t : TemplatePT) (offset pa : Z) (perm : Perm) : Res (Heap * TemplatePT * option unit) :=
  if negb (offset mod PAGE_BYTES =? 0) || negb (offset <? Z.shiftl 1 30) then Abort
  else
    let idx2 := index_at 21 offset in
    let idx1 := index_at 12 offset in
    let! e := get_entry h (tp_pd t) idx2 in
    let! (h, t, pt) :=
      if negb (Z.land e flag_P =? 0) then Ret (h, t, pa_to_va (Z.land e PA_MASK))
      else
        match alloc_table h with
        | (h, None) => Ret (h, t, None)
        | (h, Some new_pt) =>
            let t := mkTemplate (tp_pd t) (tp_owned t ++ [new_pt]) in
            match va_to_pa new_pt with
            | None => Ret (h, t, None)
            | Some pa => let! h := set_entry h (tp_pd t) idx2 (inner_pte pa) in Ret (h, t, Some new_pt)
            end
        end in
    let^ pt := pt else (h, t, None) in
    let! h := set_entry h pt idx1 (leaf_pte pa perm) in
    Ret (h, t, Some tt).

Definition pd_pa (t : TemplatePT) : option Z := va_to_pa (tp_pd t).

Definition TemplatePT_drop (h : Heap) (t : TemplatePT) : Heap := dealloc_all h (tp_owned t).

Record Pml4SlotTemplate := mkSlotTemplate { st_pdpt : Z }.

Definition Pml4SlotTemplate_new (h : Heap) (ctx_va ctx_pd_pa meta_va meta_pd_pa stack_va stack_pd_pa : Z) :
  Res (Heap * option Pml4SlotTemplate) :=
  let '(h, r) := alloc_table h in
  let^ pdpt := r else (h, None) in
  let! h := set_entry h pdpt (index_at 30 ctx_va) (inner_pte ctx_pd_pa) in
  let! h := set_entry h pdpt (index_at 30 meta_va) (inner_pte meta_pd_pa) in
  let! h := set_entry h pdpt (index_at 30 stack_va) (inner_pte stack_pd_pa) in
  Ret (h, Some (mkSlotTemplate pdpt)).

(** Early returns drop the template; [mem::forget] keeps it on success. *)
Definition leak_global_pd (h : Heap) (va page_pa : Z) : Res (Heap * option Z) :=
  let '(h, r) := TemplatePT_new h in
  let^ pd := r else (h, None) in
  let! (h, pd, r) := map_leaf h pd (Z.land va (Z.shiftl 1 30 - 1)) page_pa user_rw in
  match r with
  | None => Ret (TemplatePT_drop h pd, None)
  | Some _ => match pd_pa pd with Some pa => Ret (h, Some pa) | None => Ret (TemplatePT_drop h pd, None) end
  end.

Definition pdpt_pa (t : Pml4SlotTemplate) : option Z := va_to_pa (st_pdpt t).

Definition Pml4SlotTemplate_drop (h : Heap) (t : Pml4SlotTemplate) : Heap := dealloc_all h [st_pdpt t].

(** ** The page table of a frame *)

Record PageTable := mkPageTable { pt_pml4 : Z; pt_owned : list Z }.

(** [cr3] is what the control register holds; the tables it names are those of
    the heap. A table allocated before the early return is not freed. *)
Definition PageTable_new (cr3 : Z) (h : Heap) : Res (Heap * option PageTable) :=
  let '(h, r) := alloc_table h in
  let^ pml4_ptr := r else (h, None) in
  let^ src_va := pa_to_va (Z.land cr3 PA_MASK) else (h, None) in
  let! src := expect (tables h !! src_va) in
  let h := mkHeap (<[pml4_ptr := src]> (tables h)) (free h) in
  let! e := get_entry h pml4_ptr 0 in
  let! _ := debug_assert (Z.land e flag_P =? 0) in
  Ret (h, Some (mkPageTable pml4_ptr [pml4_ptr])).

Definition pt_cr3 (pt : PageTable) : option Z := va_to_pa (pt_pml4 pt).

(** [ensure_inner]: the entry is the [idx]-th of the table at [va]. *)
Definition ensure_inner (h : Heap) (owned : list Z) (va idx : Z) : Res (Heap * list Z * option Z) :=
  let! e := get_entry h va idx in
  if negb (Z.land e flag_P =? 0) then
    if negb (Z.land e PS =? 0) then Ret (h, owned, None)
    else
      let pa := Z.land e PA_MASK in
      let! h := set_entry h va idx (Z.lor e inner_flags) in
      Ret (h, owned, pa_to_va pa)
  else
    let '(h, r) := alloc_table h in
    let^ new_table := r else (h, owned, None) in
    let owned := owned ++ [new_table] in
    let^ pa := va_to_pa new_table else (h, owned, None) in
    let! h := set_entry h va idx (inner_pte pa) in
    Ret (h, owned, Some new_table).

(** [ensure_inner_recorded] of the fault handler: the new table is recorded only
    once its physical address is known. *)
Definition ensure_inner_recorded (h : Heap) (owned : list Z) (va idx : Z) : Res (Heap * list Z * option Z) :=
  let! e := get_entry h va idx in
  if negb (Z.land e flag_P =? 0) then
    if negb (Z.land e PS =? 0) then Ret (h, owned, None)
    else
      let pa := Z.land e PA_MASK in
      let! h := set_entry h va idx (Z.lor e inner_flags) in
      Ret (h, owned, pa_to_va pa)
  else
    let '(h, r) := alloc_table h in
    let^ new_table := r else (h, owned, None) in
    let^ pa := va_to_pa new_table else (h, owned, None) in
    let owned := owned ++ [new_table] in
    let! h := set_entry h va idx (inner_pte pa) in
    Ret (h, owned, Some new_table).

(** The three levels above the leaf, for either way of allocating tables. *)
Definition walk_alloc (ensure : Heap -> list Z -> Z -> Z -> Res (Heap * list Z * option Z))
    (h : Heap) (owned : list Z) (pml4 va pa : Z) (perm : Perm) : Res (Heap * list Z * option unit) :=
  let! (h, owned, r) := ensure h owned pml4 (index_at 39 va) in
  let^ pdpt := r else (h, owned, None) in
  let! (h, owned, r) := ensure h owned pdpt (index_at 30 va) in
  let^ pd := r else (h, owned, None) in
  let! (h, owned, r) := ensure h owned pd (index_at 21 va) in
  let^ pt := r else (h, owned, None) in
  let! h := set_entry h pt (index_at 12 va) (leaf_pte pa perm) in
  Ret (h, owned, Some tt).

Definition map_one (h : Heap) (pt : PageTable) (va pa : Z) (perm : Perm) : Res (Heap * PageTable * option unit) :=
  let! (h, owned, r) := walk_alloc ensure_inner h (pt_owned pt) (pt_pml4 pt) va pa perm in
  Ret (h, mkPageTable (pt_pml4 pt) owned, r).

(** The loop of [map]; [n] bounds its rounds. *)
Fixpoint map_loop (n : nat) (h : Heap) (pt : PageTable) (va pa e : Z) (perm : Perm) : Res (Heap * PageTable * option unit) :=
  match n with
  | O => Ret (h, pt, Some tt)
  | S n' =>
      if va <? e then
        let! (h, pt, r) := map_one h pt va pa perm in
        match r with
        | None => Ret (h, pt, None)
        | Some _ => map_loop n' h pt (wrapping_add 64 va PAGE_BYTES) (wrapping_add 64 pa PAGE_BYTES) e perm
        end
      else Ret (h, pt, Some tt)
  end.

Definition map (h : Heap) (pt : PageTable) (virt phys len : Z) (perm : Perm) : Res (Heap * PageTable * option unit) :=
  if negb (virt mod PAGE_BYTES =? 0) || negb (phys mod PAGE_BYTES =? 0) || negb (len mod PAGE_BYTES =? 0) then Abort
  else map_loop (Z.to_nat (len / PAGE_BYTES)) h pt virt phys (wrapping_add 64 virt len) perm.

Definition install_borrowed_pdpt (h : Heap) (pt : PageTable) (va pdpt_pa : Z) : Res (Heap * option unit) :=
  if negb (va mod Z.shiftl 1 39 =? 0) then Abort
  else
    let! e := get_entry h (pt_pml4 pt) (index_at 39 va) in
    let! _ := debug_assert (Z.land e flag_P =? 0) in
    let! h := set_entry h (pt_pml4 pt) (index_at 39 va) (inner_pte pdpt_pa) in
    Ret (h, Some tt).

Definition PageTable_drop (h : Heap) (pt : PageTable) : Heap := dealloc_all h (pt_owned pt).

(** ** Operations of the fault handler *)

Definition pt_map_leaf (h : Heap) (pml4_va virt phys : Z) (perm : Perm) (owned : list Z) :
  Res (Heap * list Z * option unit) := walk_alloc ensure_inner_recorded h owned pml4_va virt phys perm.

(** One step down a present path, for [pt_set_leaf_w]. *)
Definition descend (h : Heap) (table_va idx : Z) : Res (option Z) :=
  let! t := expect (tables h !! table_va) in
  match t !! Z.to_nat idx with
  | None => Ret None
  | Some e =>
      if (Z.land e flag_P =? 0) || negb (Z.land e PS =? 0) then Ret None else Ret (pa_to_va (Z.land e PA_MASK))
  end.

Definition pt_set_leaf_w (h : Heap) (pml4_va virt : Z) (writable : bool) : Res (Heap * bool) :=
  let! pdpt := descend h pml4_va (index_at 39 virt) in
  let^ pdpt_va := pdpt else (h, false) in
  let! pd := descend h pdpt_va (index_at 30 virt) in
  let^ pd_va := pd else (h, false) in
  let! pt := descend h pd_va (index_at 21 virt) in
  let^ pt_va := pt else (h, false) in
  let! leaf := get_entry h pt_va (index_at 12 virt) in
  if Z.land leaf flag_P =? 0 then Ret (h, false)
  else
    let! h := set_entry h pt_va (index_at 12 virt)
                (if writable then Z.lor leaf flag_RW else Z.land leaf (not_u 64 flag_RW)) in
    Ret (h, true).

(** What the processor reads: the table at a physical address is the one the
    kernel has at the corresponding virtual address. *)
Definition phys_entry (h : Heap) (pa idx : Z) : option Z :=
  match pa_to_va pa with
  | Some va => match tables h !! va with Some t => t !! Z.to_nat idx | None => None end
  | None => None
  end.
End Paging.
