(* ===== verification/PagingFacts.v ===== *)
(** * Page tables of the guest kernel: theorems

    The invariant of a frame's tables (a tree of tables the frame owns, apart
    from what it borrows), and what mapping a page does to the translation the
    processor computes. *)

From stdpp Require Import gmap.
From S2P Require Import Prelude MachineInt Mmu Paging.

#[local] Open Scope Z_scope.

(** ** Entries bit by bit *)

Lemma land_flag e k : 0 <= k -> (Z.land e (Z.shiftl 1 k) =? 0) = negb (Z.testbit e k).
Proof.
  intros Hk. rewrite Z.shiftl_1_l. destruct (Z.testbit e k) eqn:E; cbn [negb].
  - apply Z.eqb_neq. intros H. apply (f_equal (fun x => Z.testbit x k)) in H.
    rewrite Z.land_spec, E, Z.pow2_bits_true, Z.bits_0 in H by lia. done.
  - apply Z.eqb_eq. apply Z.bits_inj'. intros n Hn. rewrite Z.land_spec, Z.bits_0.
    destruct (Z.eq_dec n k) as [->|]; [by rewrite E|]. rewrite Z.pow2_bits_false by lia. apply andb_false_r.
Qed.

Lemma land_P e : (Z.land e flag_P =? 0) = negb (PTE_P e).
Proof. by apply land_flag. Qed.
Lemma land_PS e : (Z.land e PS =? 0) = negb (PTE_PS e).
Proof. by apply land_flag. Qed.

(** A frame address: page-aligned, 52 bits. *)
Definition frame_addr (pa : Z) : Prop := 0 <= pa < 2 ^ 52 /\ pa mod PAGE_BYTES = 0.

Lemma mask_bits n : 0 <= n -> Z.testbit PA_MASK n = (12 <=? n) && (n <? 52).
Proof.
  intros Hn. replace PA_MASK with (Z.shiftl (Z.ones 40) 12) by reflexivity. rewrite Z.shiftl_spec by lia.
  destruct (Z.leb_spec 12 n); [|by rewrite Z.testbit_neg_r by lia].
  destruct (Z.ltb_spec n 52); [apply Z.ones_spec_low|apply Z.ones_spec_high]; lia.
Qed.

Lemma frame_addr_bits pa n : frame_addr pa -> 0 <= n -> n < 12 \/ 52 <= n -> Z.testbit pa n = false.
Proof.
  intros [Hr Ha] Hn [H|H].
  - unfold PAGE_BYTES in Ha. rewrite <- (Z.mod_pow2_bits_low pa 12 n) by lia. change (2 ^ 12) with 4096. by rewrite Ha, Z.bits_0.
  - rewrite <- (Z.mod_small pa (2 ^ 52)) by lia. apply Z.mod_pow2_bits_high. lia.
Qed.

Lemma frame_addr_mask pa : frame_addr pa -> Z.land pa PA_MASK = pa.
Proof.
  intros F. apply Z.bits_inj'. intros n Hn. rewrite Z.land_spec, mask_bits by done.
  destruct (Z.leb_spec 12 n), (Z.ltb_spec n 52); cbn [andb]; rewrite ?andb_true_r, ?andb_false_r; try done;
    symmetry; apply (frame_addr_bits pa); auto; lia.
Qed.

Lemma masked_frame pa : frame_addr (Z.land pa PA_MASK).
Proof.
  assert (N : Z.land pa PA_MASK = Z.shiftl (Z.land (Z.shiftr pa 12) (Z.ones 40)) 12).
  { apply Z.bits_inj'. intros n Hn. rewrite Z.land_spec, mask_bits, Z.shiftl_spec by done.
    destruct (Z.leb_spec 12 n); [|by rewrite andb_false_r, Z.testbit_neg_r by lia].
    rewrite Z.land_spec, Z.shiftr_spec by lia. replace (n - 12 + 12) with n by lia. f_equal. cbn [andb].
    destruct (Z.ltb_spec n 52); [rewrite Z.ones_spec_low|rewrite Z.ones_spec_high]; try done; lia. }
  rewrite N, Z.shiftl_mul_pow2, Z.land_ones by lia.
  pose proof (Z.mod_pos_bound (Z.shiftr pa 12) (2 ^ 40) ltac:(lia)). unfold frame_addr, PAGE_BYTES. split; [lia|].
  change (2 ^ 12) with 4096. apply Z.mod_mul. lia.
Qed.

Lemma frame_u64 pa : frame_addr pa -> is_u 64 pa.
Proof. unfold frame_addr, is_u. intros [? _]. lia. Qed.

(** The bits of an entry made of a frame and flags outside bits 12 to 51. *)
Lemma pte_bit f flags n : frame_addr f -> 0 <= n -> n < 12 \/ 52 <= n -> Z.testbit (Z.lor f flags) n = Z.testbit flags n.
Proof. intros F Hn H. rewrite Z.lor_spec, (frame_addr_bits f) by done. done. Qed.

Lemma pte_addr f flags : frame_addr f -> Z.land flags PA_MASK = 0 -> PTE_ADDR (Z.lor f flags) = f.
Proof.
  intros F H. unfold PTE_ADDR. change ADDR_MASK with PA_MASK. rewrite Z.land_lor_distr_l, H, Z.lor_0_r. by apply frame_addr_mask.
Qed.

(** What the processor sees in an entry that leads to a table. *)
Lemma inner_pte_spec pa : frame_addr pa ->
  PTE_P (inner_pte pa) = true /\ PTE_RW (inner_pte pa) = true /\ PTE_US (inner_pte pa) = true /\
  PTE_PS (inner_pte pa) = false /\ PTE_NX (inner_pte pa) = false /\ PTE_ADDR (inner_pte pa) = pa /\
  Z.lor (inner_pte pa) inner_flags = inner_pte pa /\ is_u 64 (inner_pte pa).
Proof.
  intros F. unfold inner_pte. rewrite frame_addr_mask by done.
  unfold PTE_P, PTE_RW, PTE_US, PTE_PS, PTE_NX. rewrite !pte_bit, pte_addr by (done || lia).
  split_and!; try done.
  - by rewrite <- Z.lor_assoc, Z.lor_diag.
  - apply lor_range; [done|by apply frame_u64|done].
Qed.

(** What the processor sees in a leaf. *)
Lemma leaf_pte_spec pa perm :
  let e := leaf_pte pa perm in
  PTE_P e = true /\ PTE_RW e = pm_writable perm /\ PTE_US e = pm_user perm /\ PTE_PS e = false /\
  PTE_NX e = negb (pm_executable perm) /\ PTE_ADDR e = Z.land pa PA_MASK /\ is_u 64 e.
Proof.
  cbv zeta. unfold leaf_pte. pose proof (masked_frame pa) as F.
  unfold PTE_P, PTE_RW, PTE_US, PTE_PS, PTE_NX. rewrite !pte_bit, pte_addr by (done || lia || by destruct perm as [[] [] [] []]).
  split_and!; try by destruct perm as [[] [] [] []].
  apply lor_range; [done|by apply frame_u64|by destruct perm as [[] [] [] []]].
Qed.

Section Facts.
  Context {L : KernelLayout}.

(** ** The two address spaces of the kernel *)

(** The bounds are page-aligned and fit their widths. *)
Record layout_ok : Prop := {
  lo_base : 0 <= kernel_base_va /\ kernel_base_va mod PAGE_BYTES = 0;
  lo_gva : scratch_gva <= 2 ^ 64;
  lo_gpa : scratch_gpa <= 2 ^ 52 }.

(** A page of the kernel half, where the heap is. *)
Definition kernel_page (va : Z) : Prop :=
  kernel_base_va <= va < scratch_gva /\ va mod PAGE_BYTES = 0 /\ KERNEL_BASE_GPA + (va - kernel_base_va) < scratch_gpa.

(** An address whose physical address is a frame that leads back to it. *)
Definition addr_ok (va : Z) : Prop := exists pa, va_to_pa va = Some pa /\ frame_addr pa /\ pa_to_va pa = Some va.

Lemma kernel_page_addr va : layout_ok -> kernel_page va -> addr_ok va.
Proof.
  intros [[B0 Ba] Bg Bp] [[H1 H2] [Ha Hp]]. unfold KERNEL_BASE_GPA, PAGE_BYTES in *.
  exists (KERNEL_BASE_GPA + (va - kernel_base_va)). unfold va_to_pa, pa_to_va, KERNEL_BASE_GPA, frame_addr, PAGE_BYTES.
  destruct (Z.leb_spec scratch_gva va); [lia|]. destruct (Z.leb_spec kernel_base_va va); [|lia].
  destruct (Z.leb_spec scratch_gpa (4096 + (va - kernel_base_va))); [lia|].
  destruct (Z.leb_spec 4096 (4096 + (va - kernel_base_va))); [|lia].
  rewrite !wrap_small by (unfold is_u; lia). split; [done|split; [split; [lia|dlia]|f_equal; lia]].
Qed.

(** ** Paths *)

Definition hget (h : Heap) (t i : Z) : option Z :=
  match tables h !! t with Some l => l !! Z.to_nat i | None => None end.

(** The table an entry leads to. *)
Definition next_table (e : Z) : option Z := if PTE_P e && negb (PTE_PS e) then pa_to_va (PTE_ADDR e) else None.

Definition step (h : Heap) (t i : Z) : option Z := match hget h t i with Some e => next_table e | None => None end.

Fixpoint at_path (h : Heap) (t : Z) (p : list Z) : option Z :=
  match p with
  | [] => Some t
  | i :: p' => match step h t i with Some t' => at_path h t' p' | None => None end
  end.

Definition is_idx (i : Z) : Prop := 0 <= i < 512.

(** The paths of the guest's tables: those below slot 0 of the root. *)
Definition gpath (p : list Z) : Prop :=
  (length p <= 3)%nat /\ Forall is_idx p /\ match p with [] => True | i :: _ => i = 0 end.

Lemma at_path_app h t p q :
  at_path h t (p ++ q) = match at_path h t p with Some u => at_path h u q | None => None end.
Proof. revert t. induction p as [|i p IH]; intros t; [done|]. cbn. destruct (step h t i); [apply IH|done]. Qed.

Lemma at_path_snoc h t p i : at_path h t (p ++ [i]) = match at_path h t p with Some u => step h u i | None => None end.
Proof. rewrite at_path_app. destruct (at_path h t p); [|done]. cbn. by destruct (step h z i). Qed.

Lemma gpath_init p i : gpath (p ++ [i]) -> gpath p.
Proof.
  intros (H1 & H2 & H3). rewrite length_app in H1. cbn in H1. apply Forall_app in H2 as [H2 _].
  split_and!; [lia|done|]. by destruct p.
Qed.

Lemma gpath_idx p i : gpath (p ++ [i]) -> is_idx i.
Proof. intros (_ & H & _). apply Forall_app in H as [_ H]. by apply Forall_inv in H. Qed.

(** ** The invariant of a frame's page table *)

Definition future (h : Heap) (va : Z) : Prop := Some va ∈ free h.

Record pt_ok (h : Heap) (pml4 : Z) (owned : list Z) : Prop := {
  po_nodup : NoDup owned;
  po_root : pml4 ∈ owned;
  po_live : forall t, t ∈ owned -> addr_ok t /\ exists l, tables h !! t = Some l /\ length l = ENTRIES /\ Forall (is_u 64) l;
  po_reach : forall p t, gpath p -> at_path h pml4 p = Some t -> t ∈ owned;
  po_inj : forall p q t, gpath p -> gpath q -> at_path h pml4 p = Some t -> at_path h pml4 q = Some t -> p = q;
  po_inner : forall p t i e, gpath (p ++ [i]) -> at_path h pml4 p = Some t -> hget h t i = Some e -> PTE_P e = true ->
    Z.lor e inner_flags = e /\ PTE_PS e = false /\ PTE_NX e = false /\ is_Some (pa_to_va (PTE_ADDR e));
  po_fresh : NoDup (omap id (free h)) /\ forall va, future h va -> addr_ok va /\ tables h !! va = None;
  po_foreign : forall i p t, is_idx i -> i <> 0 -> (length p <= 2)%nat -> Forall is_idx p -> at_path h pml4 (i :: p) = Some t ->
    ~ (t ∈ owned) /\ ~ future h t }.

(** *** Writing an entry *)

Lemma get_entry_hget h t i e : get_entry h t i = Ret e <-> hget h t i = Some e.
Proof. unfold get_entry, hget. destruct (tables h !! t); cbn; [apply expect_Ret|done]. Qed.

(** The heap with one entry replaced. *)
Definition put (h : Heap) (t i e : Z) : Heap :=
  match tables h !! t with
  | Some l => mkHeap (<[t := <[Z.to_nat i := e]> l]> (tables h)) (free h)
  | None => h
  end.

Lemma set_entry_put h t i e e0 : hget h t i = Some e0 -> set_entry h t i e = Ret (put h t i e).
Proof. unfold set_entry, put, hget. destruct (tables h !! t) as [l|]; [|done]. cbn. by intros ->. Qed.

Lemma hget_put h t i e e0 u j : hget h t i = Some e0 -> 0 <= i -> 0 <= j ->
  hget (put h t i e) u j = if bool_decide (u = t /\ j = i) then Some e else hget h u j.
Proof.
  unfold hget, put. intros H Hi Hj. destruct (tables h !! t) as [l|] eqn:E; [|done]. cbn [tables].
  destruct (Z.eq_dec u t) as [->|Hu].
  - rewrite lookup_insert_eq. destruct (Z.eq_dec j i) as [->|].
    + rewrite bool_decide_true, list_lookup_insert_eq by eauto using lookup_lt_Some. done.
    + rewrite bool_decide_false, list_lookup_insert_ne by (lia || naive_solver). by rewrite E.
  - rewrite lookup_insert_ne, bool_decide_false by naive_solver. done.
Qed.

Lemma put_tables h t i e u : u <> t -> tables (put h t i e) !! u = tables h !! u.
Proof. unfold put. intros. destruct (tables h !! t); [|done]. cbn. by rewrite lookup_insert_ne. Qed.

Lemma put_free h t i e : free (put h t i e) = free h.
Proof. unfold put. by destruct (tables h !! t). Qed.

Lemma step_put h t i e e0 u j : hget h t i = Some e0 -> 0 <= i -> 0 <= j ->
  step (put h t i e) u j = if bool_decide (u = t /\ j = i) then next_table e else step h u j.
Proof. intros. unfold step. erewrite hget_put by done. by case_bool_decide. Qed.

Lemma pt_live_get h pml4 owned t i : pt_ok h pml4 owned -> t ∈ owned -> is_idx i -> exists e, hget h t i = Some e /\ is_u 64 e.
Proof.
  intros [] Ht Hi. destruct (po_live0 t Ht) as (_ & l & El & Len & F). unfold hget. rewrite El.
  destruct (lookup_lt_is_Some_2 l (Z.to_nat i)) as [e E]; [unfold is_idx, ENTRIES in *; lia|].
  exists e. split; [done|]. by apply (Forall_lookup_1 _ _ _ _ F E).
Qed.

(** Paths that do not go through the entry are as before. *)
Lemma at_path_put h pml4 owned p t i e q :
  pt_ok h pml4 owned -> gpath p -> at_path h pml4 p = Some t -> is_idx i -> gpath q ->
  (forall q', q <> p ++ i :: q') -> at_path (put h t i e) pml4 q = at_path h pml4 q.
Proof.
  intros P Gp Ap Ii. destruct (pt_live_get h pml4 owned t i P) as (e0 & E0 & _); [by eapply po_reach|done|].
  induction q as [|j q IH] using rev_ind; [done|]. intros Gq Nq. rewrite !at_path_snoc.
  pose proof (gpath_init _ _ Gq) as Gq0. pose proof (gpath_idx _ _ Gq) as Ij. unfold is_idx in *.
  rewrite IH; [|done|]; last first. { intros q' ->. apply (Nq (q' ++ [j])). by rewrite <- app_assoc. }
  destruct (at_path h pml4 q) as [u|] eqn:Eu; [|done]. erewrite step_put by (done || lia).
  case_bool_decide as C; [|done]. destruct C as [-> ->]. exfalso. apply (Nq []).
  by rewrite (po_inj _ _ _ P p q t) by done.
Qed.

Lemma at_path_put_foreign h pml4 owned p t i e j q :
  pt_ok h pml4 owned -> gpath p -> at_path h pml4 p = Some t -> is_idx i -> (t = pml4 -> i = 0) ->
  is_idx j -> j <> 0 -> Forall is_idx q -> (length q <= 3)%nat ->
  at_path (put h t i e) pml4 (j :: q) = at_path h pml4 (j :: q).
Proof.
  intros P Gp Ap Ii Ri Ij Nj. assert (Ht : t ∈ owned) by (by eapply po_reach).
  destruct (pt_live_get h pml4 owned t i P Ht Ii) as (e0 & E0 & _). unfold is_idx in *.
  induction q as [|k q IH] using rev_ind; intros Fq Lq.
  - cbn [at_path]. erewrite step_put by (done || lia). rewrite bool_decide_false; [done|]. intros [-> ->]. by apply Nj, Ri.
  - rewrite length_app in Lq. cbn in Lq. apply Forall_app in Fq as [Fq Fk]. apply Forall_inv in Fk. rewrite !app_comm_cons, !at_path_snoc.
    rewrite IH by (done || lia). destruct (at_path h pml4 (j :: q)) as [u|] eqn:Eu; [|done].
    erewrite step_put by (done || lia). rewrite bool_decide_false; [done|]. intros [-> _].
    destruct (po_foreign _ _ _ P j q t) as [N _]; [done|done|lia|done|done|]. by apply N.
Qed.

(** ** Translation in terms of paths *)

Lemma phys_entry_hget h pa t i : pa_to_va pa = Some t -> phys_entry h pa i = hget h t i.
Proof. unfold phys_entry, hget. by intros ->. Qed.

(** The walk of [is] from [t] reads the same entries in both heaps. *)
Fixpoint same_reads (h h' : Heap) (t : Z) (l : list Z) : Prop :=
  match l with
  | [] => True
  | i :: l' => hget h' t i = hget h t i /\ forall t', step h t i = Some t' -> same_reads h h' t' l'
  end.

Lemma walk_ext h h' levels pa t va r :
  pa_to_va pa = Some t -> same_reads h h' t ((fun s => va_idx s va) <$> levels) ->
  walk_from (phys_entry h') levels pa va r = walk_from (phys_entry h) levels pa va r.
Proof.
  revert pa t r. induction levels as [|s ls IH]; intros pa t r Ht; [done|]. cbn [fmap list_fmap same_reads walk_from].
  intros [E N]. rewrite !(phys_entry_hget _ _ t), E by done. destruct (hget h t (va_idx s va)) as [e|] eqn:Ee; [|done].
  destruct (PTE_P e) eqn:EP; cbn [negb]; [|done]. destruct r as [[w u] x]. destruct (meet w u x e) as [[w' u'] x'].
  destruct ls as [|s' ls]; [done|]. destruct (PTE_PS e) eqn:ES; [done|].
  destruct (pa_to_va (PTE_ADDR e)) as [t'|] eqn:Et.
  - apply (IH _ t'); [done|]. apply N. unfold step, next_table. by rewrite Ee, EP, ES.
  - cbn [walk_from]. unfold phys_entry. by rewrite Et.
Qed.

Definition xlat_of (e : Z) : option Xlat :=
  if PTE_P e then Some (mkXlat (PTE_ADDR e) (PTE_RW e) (PTE_US e) (negb (PTE_NX e))) else None.

(** The entry of the last level, reached through the tables on the path. *)
Definition leaf_at (h : Heap) (pml4 : Z) (p : list Z) (i : Z) : option Z :=
  match at_path h pml4 p with Some t => hget h t i | None => None end.

Lemma inner_rights e : Z.lor e inner_flags = e -> PTE_NX e = false -> meet true true true e = (true, true, true).
Proof.
  intros E N. unfold meet. rewrite N.
  assert (B : forall k, 0 <= k -> Z.testbit inner_flags k = true -> Z.testbit e k = true).
  { intros k Hk T. by rewrite <- E, Z.lor_spec, T, orb_true_r. }
  unfold PTE_RW, PTE_US. by rewrite !B by (done || lia).
Qed.

Lemma walk_inner h s s' ls pa t va :
  pa_to_va pa = Some t ->
  (forall e, hget h t (va_idx s va) = Some e -> PTE_P e = true ->
     Z.lor e inner_flags = e /\ PTE_PS e = false /\ PTE_NX e = false) ->
  walk_from (phys_entry h) (s :: s' :: ls) pa va (true, true, true) =
    match hget h t (va_idx s va) with
    | Some e => if PTE_P e then walk_from (phys_entry h) (s' :: ls) (PTE_ADDR e) va (true, true, true) else None
    | None => None
    end.
Proof.
  intros Ht H. set (rest := s' :: ls). assert (Er : rest <> []) by done. cbn [walk_from].
  rewrite (phys_entry_hget _ _ t) by done.
  destruct (hget h t (va_idx s va)) as [e|]; [|done]. destruct (PTE_P e) eqn:EP; cbn [negb]; [|done].
  destruct (H e) as (E1 & E2 & E3); [done..|]. rewrite inner_rights, E2 by done. by destruct rest.
Qed.

Lemma va_idx_range s va : is_idx (va_idx s va).
Proof. unfold va_idx, is_idx. change 0x1FF with (Z.ones 9). rewrite Z.land_ones by lia. by apply Z.mod_pos_bound. Qed.

(** The translation of a frame's table. *)
Definition xlate (h : Heap) (pml4 va : Z) : option Xlat :=
  match va_to_pa pml4 with Some cr3 => translate (phys_entry h) cr3 va | None => None end.

Lemma root_cr3 h pml4 owned : pt_ok h pml4 owned ->
  exists cr3, va_to_pa pml4 = Some cr3 /\ PTE_ADDR cr3 = cr3 /\ pa_to_va cr3 = Some pml4.
Proof.
  intros P. destruct (po_live _ _ _ P pml4) as [(cr3 & E & F & B) _]; [apply P|].
  exists cr3. split_and!; [done| |done]. by apply frame_addr_mask.
Qed.

(** One level of the walk below slot 0. *)
Lemma walk_guest h pml4 owned va p s s' ls pa t :
  pt_ok h pml4 owned -> gpath (p ++ [va_idx s va]) -> at_path h pml4 p = Some t -> pa_to_va pa = Some t ->
  (exists t' pa', step h t (va_idx s va) = Some t' /\ pa_to_va pa' = Some t' /\
     walk_from (phys_entry h) (s :: s' :: ls) pa va (true, true, true) =
     walk_from (phys_entry h) (s' :: ls) pa' va (true, true, true)) \/
  (step h t (va_idx s va) = None /\ walk_from (phys_entry h) (s :: s' :: ls) pa va (true, true, true) = None).
Proof.
  intros P G A B. rewrite (walk_inner h s s' ls pa t va B).
  - unfold step, next_table. destruct (hget h t (va_idx s va)) as [e|] eqn:E; [|by right].
    destruct (PTE_P e) eqn:EP; [|by right]. left.
    destruct (po_inner _ _ _ P p t _ e G A E EP) as (_ & -> & _ & [t' Et]). exists t', (PTE_ADDR e). cbn. by rewrite Et.
  - intros e E EP. by destruct (po_inner _ _ _ P p t _ e G A E EP) as (? & ? & ? & _).
Qed.

Lemma gpath_guest va : va_idx 39 va = 0 -> gpath [0; va_idx 30 va; va_idx 21 va].
Proof. intros. split_and!; [cbn; lia| |done]. repeat constructor; (apply va_idx_range || done). Qed.

(** Below slot 0 a translation is the leaf at the end of a path. *)
Lemma xlate_guest h pml4 owned va : pt_ok h pml4 owned -> va_idx 39 va = 0 ->
  xlate h pml4 va =
    match leaf_at h pml4 [0; va_idx 30 va; va_idx 21 va] (va_idx 12 va) with Some e => xlat_of e | None => None end.
Proof.
  intros P H0. destruct (root_cr3 _ _ _ P) as (cr3 & Ec & Em & Eb). unfold xlate, translate. rewrite Ec, Em.
  pose proof (gpath_guest va H0) as G3. pose proof (gpath_init [0; _] _ G3) as G2. pose proof (gpath_init [0] _ G2) as G1.
  unfold leaf_at. cbn [at_path]. rewrite <- H0 in G1, G2, G3 |- * at 1.
  destruct (walk_guest h pml4 owned va [] 39 30 [21; 12] cr3 pml4) as [(t3 & pa3 & S3 & B3 & ->)|[-> ->]]; [done..| |done].
  rewrite S3. assert (A1 : at_path h pml4 [va_idx 39 va] = Some t3) by (cbn; by rewrite S3).
  destruct (walk_guest h pml4 owned va [va_idx 39 va] 30 21 [12] pa3 t3) as [(t2 & pa2 & S2 & B2 & ->)|[-> ->]]; [done..| |done].
  rewrite S2. assert (A2 : at_path h pml4 [va_idx 39 va; va_idx 30 va] = Some t2) by (cbn; by rewrite S3, S2).
  destruct (walk_guest h pml4 owned va [va_idx 39 va; va_idx 30 va] 21 12 [] pa2 t2) as [(t1 & pa1 & S1 & B1 & ->)|[-> ->]]; [done..| |done].
  rewrite S1. cbn [walk_from]. rewrite (phys_entry_hget _ _ t1) by done.
  destruct (hget h t1 (va_idx 12 va)) as [e|]; [|done]. unfold xlat_of. by destruct (PTE_P e).
Qed.

Lemma at_path_ext h h' t0 p :
  (forall q j q' u, p = q ++ j :: q' -> at_path h t0 q = Some u -> hget h' u j = hget h u j) ->
  at_path h' t0 p = at_path h t0 p.
Proof.
  revert t0. induction p as [|i p IH]; intros t0 H; [done|]. cbn [at_path]. unfold step.
  rewrite (H [] i p t0) by done. destruct (hget h t0 i) as [e|] eqn:E; [|done].
  destruct (next_table e) as [t'|] eqn:N; [|done]. apply IH. intros q j q' u -> A. apply (H (i :: q) j q'); [done|].
  cbn [at_path]. unfold step. by rewrite E, N.
Qed.

(** A translation outside slot 0 reads only the root and tables of others. *)
Lemma xlate_foreign h h' pml4 owned va :
  pt_ok h pml4 owned -> va_idx 39 va <> 0 ->
  (forall i, is_idx i -> i <> 0 -> hget h' pml4 i = hget h pml4 i) ->
  (forall t, ~ (t ∈ owned) -> ~ future h t -> tables h' !! t = tables h !! t) ->
  xlate h' pml4 va = xlate h pml4 va.
Proof.
  intros P N R F. destruct (root_cr3 _ _ _ P) as (cr3 & Ec & Em & Eb). unfold xlate, translate. rewrite Ec, Em.
  apply (walk_ext h h' _ cr3 pml4); [done|]. cbn [fmap list_fmap same_reads].
  pose proof (va_idx_range 39 va) as I4.
  assert (D : forall p t i, (length p <= 2)%nat -> Forall is_idx p -> at_path h pml4 (va_idx 39 va :: p) = Some t -> hget h' t i = hget h t i).
  { intros p t i Hp Fp A. unfold hget. destruct (po_foreign _ _ _ P _ p t I4 N Hp Fp A). by rewrite F. }
  split; [by apply R|]. intros t3 S3. assert (A3 : at_path h pml4 [va_idx 39 va] = Some t3) by (cbn; by rewrite S3).
  split; [apply (D [] t3); [cbn; lia|repeat constructor; apply va_idx_range|done]|]. intros t2 S2.
  assert (A2 : at_path h pml4 [va_idx 39 va; va_idx 30 va] = Some t2) by (cbn; by rewrite S3, S2).
  split; [apply (D [va_idx 30 va] t2); [cbn; lia|repeat constructor; apply va_idx_range|done]|]. intros t1 S1.
  assert (A1 : at_path h pml4 [va_idx 39 va; va_idx 30 va; va_idx 21 va] = Some t1) by (cbn; by rewrite S3, S2, S1).
  split; [apply (D [va_idx 30 va; va_idx 21 va] t1); [cbn; lia|repeat constructor; apply va_idx_range|done]|]. done.
Qed.

(** ** Growing the tables *)

(** Tables are added from the allocator; nothing else changes, for the processor
    or for other owners. *)
Record grows (pml4 : Z) (h : Heap) (owned : list Z) (h' : Heap) (owned' : list Z) : Prop := {
  g_owned : exists new, owned' = owned ++ new /\ forall t, t ∈ new -> future h t;
  g_frame : forall t, ~ (t ∈ owned) -> ~ future h t -> tables h' !! t = tables h !! t;
  g_future : forall t, future h' t -> future h t;
  g_paths : forall q u, gpath q -> at_path h pml4 q = Some u -> at_path h' pml4 q = Some u;
  g_xlate : forall va, xlate h' pml4 va = xlate h pml4 va }.

Lemma heap_grows_refl pml4 h owned : grows pml4 h owned h owned.
Proof. constructor; try done. exists []. split; [by rewrite app_nil_r|]. intros t H. by apply elem_of_nil in H. Qed.

Lemma heap_grows_trans pml4 h1 o1 h2 o2 h3 o3 : grows pml4 h1 o1 h2 o2 -> grows pml4 h2 o2 h3 o3 -> grows pml4 h1 o1 h3 o3.
Proof.
  intros [(n1 & -> & N1) F1 U1 P1 X1] [(n2 & -> & N2) F2 U2 P2 X2]. constructor.
  - exists (n1 ++ n2). split; [by rewrite app_assoc|]. intros t [H|H]%elem_of_app; auto.
  - intros t H1 H2. rewrite F2, F1; auto. intros [H|H]%elem_of_app; auto.
  - auto.
  - eauto.
  - intros va. by rewrite X2, X1.
Qed.

(** *** Heaps that differ only where this table does not look *)

(** The tables of others that this page table leads to. *)
Definition foreign (h : Heap) (pml4 t : Z) : Prop :=
  exists i p, is_idx i /\ i <> 0 /\ (length p <= 2)%nat /\ Forall is_idx p /\ at_path h pml4 (i :: p) = Some t.

Definition agree (pml4 : Z) (owned : list Z) (h h' : Heap) : Prop :=
  forall t, t ∈ owned \/ foreign h pml4 t -> tables h' !! t = tables h !! t.

Lemma gpath_prefix p i q : gpath (p ++ i :: q) -> gpath p.
Proof.
  intros (G1 & G2 & G3). rewrite length_app in G1. apply Forall_app in G2 as [G2 _]. split_and!; [lia|done|by destruct p].
Qed.

Lemma agree_gpath h h' pml4 owned q : pt_ok h pml4 owned -> agree pml4 owned h h' -> gpath q -> at_path h' pml4 q = at_path h pml4 q.
Proof.
  intros P A G. apply at_path_ext. intros q0 j q' u -> E. unfold hget. rewrite A; [done|]. left.
  apply (po_reach _ _ _ P q0); [by eapply gpath_prefix|done].
Qed.

Lemma agree_foreign h h' pml4 owned i p : pt_ok h pml4 owned -> agree pml4 owned h h' ->
  is_idx i -> i <> 0 -> (length p <= 3)%nat -> Forall is_idx p -> at_path h' pml4 (i :: p) = at_path h pml4 (i :: p).
Proof.
  intros P A Ii Ni Lp Fp. apply at_path_ext. intros q0 j q' u Eq E. unfold hget. rewrite A; [done|].
  destruct q0 as [|i0 q0]; [injection E as <-; left; apply P|]. right. injection Eq as <- ->. rewrite length_app in Lp. cbn in Lp.
  apply Forall_app in Fp as [Fp _]. exists i, q0. split_and!; (done || lia).
Qed.

Lemma agree_xlate h h' pml4 owned va : pt_ok h pml4 owned -> agree pml4 owned h h' -> xlate h' pml4 va = xlate h pml4 va.
Proof.
  intros P A. destruct (root_cr3 _ _ _ P) as (cr3 & Ec & Em & Eb). unfold xlate, translate. rewrite Ec, Em.
  apply (walk_ext h h' _ cr3 pml4); [done|]. cbn [fmap list_fmap same_reads].
  assert (D : forall p t i, at_path h pml4 p = Some t -> (length p <= 3)%nat -> Forall is_idx p -> hget h' t i = hget h t i).
  { intros p t i E Lp Fp. unfold hget. rewrite A; [done|]. destruct p as [|j p]; [injection E as <-; left; apply P|].
    apply Forall_cons_1 in Fp as [Ij Fp]. destruct (Z.eq_dec j 0) as [->|Nj].
    - left. apply (po_reach _ _ _ P (0 :: p)); [|done]. split_and!; [done|by constructor|done].
    - right. cbn in Lp. exists j, p. split_and!; (done || lia). }
  set (a := va_idx 39 va). set (b := va_idx 30 va). set (c := va_idx 21 va).
  assert (F3 : Forall is_idx [a; b; c]) by (repeat constructor; apply va_idx_range).
  split; [apply (D []); [done|cbn; lia|done]|]. intros t3 S3. assert (A3 : at_path h pml4 [a] = Some t3) by (cbn; by rewrite S3).
  split; [apply (D [a]); [done|cbn; lia|by apply (Forall_take _ 1) in F3]|]. intros t2 S2.
  assert (A2 : at_path h pml4 [a; b] = Some t2) by (cbn; by rewrite S3, S2).
  split; [apply (D [a; b]); [done|cbn; lia|by apply (Forall_take _ 2) in F3]|]. intros t1 S1.
  assert (A1 : at_path h pml4 [a; b; c] = Some t1) by (cbn; by rewrite S3, S2, S1).
  split; [by apply (D [a; b; c])|done].
Qed.

Lemma agree_pt_ok h h' pml4 owned : pt_ok h pml4 owned -> agree pml4 owned h h' ->
  (forall t, future h' t -> future h t) -> NoDup (omap id (free h')) -> (forall t, future h' t -> tables h' !! t = None) ->
  pt_ok h' pml4 owned.
Proof.
  intros P A U Nf Df.
  constructor; [apply P|apply P|..].
  - intros t Ht. rewrite A by auto. by apply P.
  - intros p t G. rewrite (agree_gpath h h' pml4 owned) by done. by apply P.
  - intros p q t Gp Gq. rewrite !(agree_gpath h h' pml4 owned) by done. by apply P.
  - intros p t i e G. pose proof (gpath_init _ _ G) as G0. rewrite (agree_gpath h h' pml4 owned) by done. intros Ap E.
    apply (po_inner _ _ _ P p t i e G Ap). revert E. unfold hget. rewrite A; [done|]. left. by apply (po_reach _ _ _ P p).
  - split; [done|]. intros va H. split; [|by apply Df]. by apply (po_fresh _ _ _ P), U.
  - intros i p t Ii Ni Lp Fp. rewrite (agree_foreign h h' pml4 owned) by (done || lia). intros E.
    destruct (po_foreign _ _ _ P i p t) as [? N]; [done..|]. split; [done|]. intros F. by apply N, U.
Qed.

(** What the allocator returns is fresh and zeroed. *)
Lemma alloc_spec h pml4 owned va f : pt_ok h pml4 owned -> free h = Some va :: f ->
  let h1 := mkHeap (<[va := replicate ENTRIES 0]> (tables h)) f in
  addr_ok va /\ ~ (va ∈ owned) /\ future h va /\ ~ future h1 va /\ agree pml4 owned h h1 /\ pt_ok h1 pml4 owned.
Proof.
  intros P E h1. destruct (po_fresh _ _ _ P) as [Nf Ff]. rewrite E in Nf. cbn in Nf. apply list.NoDup_cons in Nf as [Nva Nf].
  assert (Uv : future h va) by (unfold future; rewrite E; left). destruct (Ff va Uv) as [Aok Dead].
  assert (Nown : ~ (va ∈ owned)). { intros H. destruct (po_live _ _ _ P va H) as (_ & l & El & _). congruence. }
  assert (Nu : ~ future h1 va). { intros H. apply Nva. apply list_elem_of_omap. by exists (Some va). }
  assert (A : agree pml4 owned h h1).
  { intros t H. cbn. rewrite lookup_insert_ne; [done|]. intros <-. destruct H as [|(j & q & Ij & Nj & Lq & Fq & H)]; [done|].
    by destruct (po_foreign _ _ _ P j q va) as [_ N]. }
  assert (U : forall t, future h1 t -> future h t) by (intros t H; unfold future; rewrite E; by right).
  split_and!; try done. apply (agree_pt_ok h h1); try done. intros t H. cbn. rewrite lookup_insert_ne; [by apply Ff, U|by intros <-].
Qed.

(** *** Linking a fresh table *)

Section Link.
  Context (h : Heap) (pml4 : Z) (owned : list Z) (p : list Z) (t i va pa : Z).
  Hypothesis P : pt_ok h pml4 owned.
  Hypothesis G : gpath (p ++ [i]).
  Hypothesis A : at_path h pml4 p = Some t.
  Hypothesis E : exists e, hget h t i = Some e /\ PTE_P e = false.
  Hypothesis V : addr_ok va /\ ~ (va ∈ owned) /\ ~ future h va /\ tables h !! va = Some (replicate ENTRIES 0).
  Hypothesis B : va_to_pa va = Some pa.
  Hypothesis Fv : forall j q u, is_idx j -> j <> 0 -> (length q <= 2)%nat -> Forall is_idx q -> at_path h pml4 (j :: q) = Some u -> u <> va.

Let h' := put h t i (inner_pte pa).

Lemma link_pa : frame_addr pa /\ pa_to_va pa = Some va.
Proof. destruct V as [(pa' & E1 & E2 & E3) _]. assert (pa' = pa) as -> by congruence. done. Qed.

Lemma link_t : t ∈ owned.
Proof. apply (po_reach _ _ _ P p); [by eapply gpath_init|done]. Qed.

Lemma link_ne : va <> t.
Proof. intros ->. destruct V as (_ & N & _). apply N, link_t. Qed.

Lemma link_hget u j : is_idx j -> hget h' u j = if bool_decide (u = t /\ j = i) then Some (inner_pte pa) else hget h u j.
Proof. intros Ij. destruct E as (e & E0 & _). pose proof (gpath_idx _ _ G). unfold is_idx in *. by eapply hget_put; (done || lia). Qed.

Lemma link_zero j : is_idx j -> hget h' va j = Some 0.
Proof.
  intros Ij. rewrite link_hget, bool_decide_false by (done || (intros [? _]; by apply link_ne)).
  unfold hget. destruct V as (_ & _ & _ & ->). apply lookup_replicate. unfold is_idx, ENTRIES in *. split; [done|lia].
Qed.

Lemma link_step_new : step h' t i = Some va.
Proof.
  unfold step. rewrite link_hget, bool_decide_true by (done || by eapply gpath_idx). unfold next_table.
  destruct link_pa as [F R]. destruct (inner_pte_spec pa F) as (-> & _ & _ & -> & _ & -> & _). done.
Qed.

Lemma link_dead j q : is_idx j -> at_path h' va (j :: q) = None.
Proof. intros Ij. cbn [at_path]. unfold step. by rewrite link_zero. Qed.

Lemma link_old q : gpath q -> (forall q', q <> p ++ i :: q') -> at_path h' pml4 q = at_path h pml4 q.
Proof. intros Gq N. apply (at_path_put h pml4 owned p); [done|by eapply gpath_init|done|by eapply gpath_idx|done|done]. Qed.

Lemma link_parent : at_path h' pml4 p = Some t.
Proof.
  rewrite link_old; [done|by eapply gpath_init|]. intros q' H. apply (f_equal length) in H. rewrite length_app in H. cbn in H. lia.
Qed.

(** The paths of the new heap: the old ones and the one to the new table. *)
Lemma link_path q u : gpath q -> at_path h' pml4 q = Some u ->
  (q = p ++ [i] /\ u = va) \/ (at_path h pml4 q = Some u /\ forall q', q <> p ++ i :: q').
Proof.
  intros Gq. destruct (decide ((p ++ [i]) `prefix_of` q)) as [(q' & ->)|N].
  - intros H. left. rewrite !at_path_app, link_parent in H. cbn [at_path] in H. rewrite link_step_new in H.
    destruct q' as [|j q']; [injection H as <-; by rewrite app_nil_r|]. rewrite link_dead in H; [done|].
    destruct Gq as (_ & Fq & _). apply Forall_app in Fq as [_ Fq]. by apply Forall_inv in Fq.
  - assert (Nq : forall q', q <> p ++ i :: q'). { intros q' ->. apply N. exists q'. by rewrite <- app_assoc. }
    intros H. right. by rewrite link_old in H.
Qed.

Lemma link_kept q u : gpath q -> at_path h pml4 q = Some u -> at_path h' pml4 q = Some u.
Proof.
  intros Gq H. destruct (decide ((p ++ [i]) `prefix_of` q)) as [(q' & ->)|N].
  - exfalso. rewrite !at_path_app, A in H. cbn [at_path] in H. unfold step, next_table in H.
    destruct E as (e & Ee & Pe). by rewrite Ee, Pe in H.
  - rewrite link_old; [done|done|]. intros q' ->. apply N. exists q'. by rewrite <- app_assoc.
Qed.

Lemma link_root : t = pml4 -> i = 0.
Proof.
  intros ->. assert (p = []) as Ep. { apply (po_inj _ _ _ P p [] pml4); [by eapply gpath_init| |done|done]. repeat split; try done; cbn; lia. }
  destruct G as (_ & _ & G3). by rewrite Ep in G3.
Qed.

Lemma link_foreign j q : is_idx j -> j <> 0 -> (length q <= 3)%nat -> Forall is_idx q ->
  at_path h' pml4 (j :: q) = at_path h pml4 (j :: q).
Proof. intros. apply (at_path_put_foreign h pml4 owned p); try done; [by eapply gpath_init|by eapply gpath_idx|apply link_root]. Qed.

Lemma link_absent : step h t i = None.
Proof. unfold step, next_table. destruct E as (e & Ee & Pe). by rewrite Ee, Pe. Qed.

Lemma link_live u l : tables h !! u = Some l -> length l = ENTRIES -> Forall (is_u 64) l ->
  exists l', tables h' !! u = Some l' /\ length l' = ENTRIES /\ Forall (is_u 64) l'.
Proof.
  intros El Ln Fl. unfold h', put. destruct (tables h !! t) as [l0|] eqn:E0; [|eauto]. cbn [tables].
  destruct (Z.eq_dec u t) as [->|]; [|rewrite lookup_insert_ne by done; eauto]. rewrite lookup_insert_eq.
  assert (l0 = l) as -> by congruence. eexists. split; [done|]. rewrite length_insert. split; [done|].
  apply Forall_insert; [done|]. apply inner_pte_spec, link_pa.
Qed.

Lemma link_pt_ok : pt_ok h' pml4 (owned ++ [va]).
Proof.
  destruct V as (Va & Nv & Nf & Zv). constructor.
  - apply list.NoDup_app. split_and!; [apply P| |apply list.NoDup_singleton]. intros x Hx Hv. apply list_elem_of_singleton in Hv as ->. done.
  - apply elem_of_app. left. apply P.
  - intros u Hu. apply elem_of_app in Hu as [Hu|Hu].
    + destruct (po_live _ _ _ P u Hu) as (Au & l & El & Ln & Fl). split; [done|]. by eapply link_live.
    + apply list_elem_of_singleton in Hu as ->. split; [done|].
      apply (link_live va _ Zv); [by rewrite length_replicate|]. by apply Forall_replicate.
  - intros q u Gq H. apply elem_of_app. destruct (link_path q u Gq H) as [[_ ->]|[H' _]]; [right; by left|left].
    by apply (po_reach _ _ _ P q).
  - intros q1 q2 u G1 G2 H1 H2.
    assert (X : forall q, gpath q -> at_path h pml4 q <> Some va). { intros q Gq Hq. apply Nv. by apply (po_reach _ _ _ P q). }
    destruct (link_path q1 u G1 H1) as [[-> ->]|[H1' _]], (link_path q2 _ G2 H2) as [[-> Ev]|[H2' _]]; try done; subst.
    + by apply X in H2'.
    + by apply X in H1'.
    + by apply (po_inj _ _ _ P q1 q2 u).
  - intros q u j e Gq H He Pe. pose proof (gpath_idx _ _ Gq) as Ij. pose proof (gpath_init _ _ Gq) as Gq0.
    rewrite link_hget in He by done. case_bool_decide as C.
    + injection He as <-. destruct link_pa as [F R]. destruct (inner_pte_spec pa F) as (_ & _ & _ & ? & ? & Ea & ? & _).
      rewrite Ea, R. by split_and!.
    + destruct (link_path q u Gq0 H) as [[_ ->]|[H' _]].
      * exfalso. unfold hget in He. rewrite Zv, lookup_replicate_2 in He; [by injection He as <-|]. unfold is_idx, ENTRIES in *; lia.
      * by apply (po_inner _ _ _ P q u j e).
  - unfold future, h'. rewrite put_free. split; [apply P|]. intros u Hu. destruct (proj2 (po_fresh _ _ _ P) u Hu) as [Au Du].
    split; [done|]. rewrite put_tables; [done|]. intros ->. destruct (po_live _ _ _ P t link_t) as (_ & l & El & _). congruence.
  - intros j q u Ij Nj Lq Fq H. unfold future, h'. rewrite put_free. rewrite link_foreign in H by (done || lia).
    destruct (po_foreign _ _ _ P j q u) as [N1 N2]; [done..|]. split; [|done].
    intros [Hu|Hu]%elem_of_app; [done|]. apply list_elem_of_singleton in Hu. by eapply Fv.
Qed.

Lemma link_xlate v : xlate h' pml4 v = xlate h pml4 v.
Proof.
  destruct (Z.eq_dec (va_idx 39 v) 0) as [Z0|Nz].
  - rewrite (xlate_guest h' _ _ v link_pt_ok Z0), (xlate_guest h _ _ v P Z0). unfold leaf_at.
    pose proof (gpath_guest v Z0) as G3. pose proof (va_idx_range 12 v) as I1.
    destruct (at_path h' pml4 [0; va_idx 30 v; va_idx 21 v]) as [u|] eqn:Hu.
    + destruct (link_path _ u G3 Hu) as [[Eq ->]|[Hu' _]].
      * by rewrite link_zero, Eq, at_path_snoc, A, link_absent by done.
      * rewrite Hu', link_hget by done. rewrite bool_decide_false; [done|]. intros [-> _].
        assert (Eq : [0; va_idx 30 v; va_idx 21 v] = p) by (apply (po_inj _ _ _ P _ p t); [done|by eapply gpath_init|done|done]).
        rewrite <- Eq in G. destruct G as (Lg & _). cbn in Lg. lia.
    + destruct (at_path h pml4 [0; va_idx 30 v; va_idx 21 v]) as [u|] eqn:Hu'; [|done].
      apply link_kept in Hu'; [congruence|done].
  - apply (xlate_foreign _ _ _ _ v P Nz).
    + intros j Ij Nj. rewrite link_hget by done. rewrite bool_decide_false; [done|]. intros [Ht ->]. by apply Nj, link_root.
    + intros u Hu _. apply put_tables. intros ->. apply Hu, link_t.
Qed.
End Link.

(** ** The operations *)

(** The next [n] allocations succeed. *)
Definition enough (n : nat) (h : Heap) : Prop := (n <= length (free h))%nat /\ Forall is_Some (take n (free h)).

Lemma enough_tail n h x f ts : enough (S n) h -> free h = x :: f -> enough n (mkHeap ts f).
Proof. unfold enough. intros [H1 H2] E. rewrite E in *. cbn in *. apply Forall_cons_1 in H2 as [_ H2]. split; [lia|done]. Qed.

Lemma enough_less n h : enough (S n) h -> enough n h.
Proof. intros [H1 H2]. split; [lia|]. apply (Forall_take _ n) in H2. by rewrite take_take, Nat.min_l in H2 by lia. Qed.

Lemma enough_put n h t i e : enough n h -> enough n (put h t i e).
Proof. unfold enough. by rewrite put_free. Qed.

(** What [ensure_inner] and [ensure_inner_recorded] do at the end of a path. *)
Definition ensures (ensure : Heap -> list Z -> Z -> Z -> Res (Heap * list Z * option Z)) : Prop :=
  forall h pml4 owned p t i, pt_ok h pml4 owned -> gpath (p ++ [i]) -> at_path h pml4 p = Some t ->
  exists h' owned' r, ensure h owned t i = Ret (h', owned', r) /\ pt_ok h' pml4 owned' /\ grows pml4 h owned h' owned' /\
    (forall n, enough (S n) h -> enough n h' /\ is_Some r) /\
    forall t', r = Some t' -> at_path h' pml4 (p ++ [i]) = Some t'.

Lemma put_same h t i e : hget h t i = Some e -> put h t i e = h.
Proof.
  unfold hget, put. destruct (tables h !! t) as [l|] eqn:E; [|done]. intros H.
  rewrite list_insert_id, insert_id by done. by destruct h.
Qed.

(** The case of an entry that is already present. *)
Lemma ensure_present h pml4 owned p t i e :
  pt_ok h pml4 owned -> gpath (p ++ [i]) -> at_path h pml4 p = Some t -> hget h t i = Some e -> PTE_P e = true ->
  Z.land e PS = 0 /\ set_entry h t i (Z.lor e inner_flags) = Ret h /\
  exists t', pa_to_va (Z.land e PA_MASK) = Some t' /\ at_path h pml4 (p ++ [i]) = Some t'.
Proof.
  intros P G A E Pe. destruct (po_inner _ _ _ P p t i e G A E Pe) as (Ei & Es & _ & [t' Et]).
  split; [apply Z.eqb_eq; by rewrite land_PS, Es|]. rewrite Ei. split; [by erewrite set_entry_put, put_same|].
  exists t'. split; [done|]. rewrite at_path_snoc, A. unfold step, next_table. by rewrite E, Pe, Es.
Qed.

(** The case of a fresh table. *)
Lemma ensure_fresh h pml4 owned p t i e va f pa :
  pt_ok h pml4 owned -> gpath (p ++ [i]) -> at_path h pml4 p = Some t -> hget h t i = Some e -> PTE_P e = false ->
  free h = Some va :: f -> va_to_pa va = Some pa ->
  let h1 := mkHeap (<[va := replicate ENTRIES 0]> (tables h)) f in
  let h' := put h1 t i (inner_pte pa) in
  set_entry h1 t i (inner_pte pa) = Ret h' /\ pt_ok h' pml4 (owned ++ [va]) /\ grows pml4 h owned h' (owned ++ [va]) /\
  at_path h' pml4 (p ++ [i]) = Some va.
Proof.
  intros P G A E Pe Ef Epa h1 h'. destruct (alloc_spec h pml4 owned va f P Ef) as (Va & Nv & Uv & Nu & Ag & P1). fold h1 in Nu, Ag, P1.
  assert (Ht : t ∈ owned) by (apply (po_reach _ _ _ P p); [by eapply gpath_init|done]).
  assert (E1 : hget h1 t i = Some e). { revert E. unfold hget. by rewrite Ag by auto. }
  assert (A1 : at_path h1 pml4 p = Some t) by (rewrite (agree_gpath h h1 pml4 owned); eauto using gpath_init).
  assert (X : exists e, hget h1 t i = Some e /\ PTE_P e = false) by eauto.
  assert (V : addr_ok va /\ ~ (va ∈ owned) /\ ~ future h1 va /\ tables h1 !! va = Some (replicate ENTRIES 0))
    by (split_and!; try done; cbn; by rewrite lookup_insert_eq).
  assert (Fv : forall j q u, is_idx j -> j <> 0 -> (length q <= 2)%nat -> Forall is_idx q -> at_path h1 pml4 (j :: q) = Some u -> u <> va).
  { intros j q u Ij Nj Lq Fq H ->. rewrite (agree_foreign h h1 pml4 owned) in H by (done || lia).
    by destruct (po_foreign _ _ _ P j q va) as [_ N]. }
  split; [by erewrite set_entry_put|]. split; [by eapply link_pt_ok|]. split; [constructor|].
  - exists [va]. split; [done|]. by intros u ->%list_elem_of_singleton.
  - intros u Nu' Nf'. unfold h'. rewrite put_tables by (by intros ->). cbn. by rewrite lookup_insert_ne by (by intros <-).
  - intros u. unfold future, h'. rewrite put_free, Ef. cbn. by right.
  - intros q u Gq H. eapply link_kept; try done. by rewrite (agree_gpath h h1 pml4 owned).
  - intros v. unfold h'. erewrite link_xlate by done. by apply (agree_xlate _ _ _ owned).
  - rewrite at_path_snoc. unfold h'. erewrite link_parent by done. by eapply link_step_new.
Qed.

Lemma grows_dry pml4 h owned f x : pt_ok h pml4 owned -> free h = x :: f -> x = None ->
  pt_ok (mkHeap (tables h) f) pml4 owned /\ grows pml4 h owned (mkHeap (tables h) f) owned.
Proof.
  intros P E ->. set (h1 := mkHeap (tables h) f). assert (Ag : agree pml4 owned h h1) by done.
  assert (U : forall t, future h1 t -> future h t) by (intros t H; unfold future; rewrite E; by right).
  assert (P1 : pt_ok h1 pml4 owned).
  { destruct (po_fresh _ _ _ P) as [Nf Ff]. rewrite E in Nf. apply (agree_pt_ok h); try done. intros t H. by apply Ff, U. }
  split; [done|]. constructor; try done.
  - exists []. split; [by rewrite app_nil_r|]. intros t H. by apply elem_of_nil in H.
  - intros q u Gq H. by rewrite (agree_gpath h h1 pml4 owned).
Qed.

Lemma ensure_inner_ok : ensures ensure_inner.
Proof.
  intros h pml4 owned p t i P G A.
  destruct (pt_live_get h pml4 owned t i P) as (e & E & _);
    [apply (po_reach _ _ _ P p); [by eapply gpath_init|done]|by eapply gpath_idx|].
  unfold ensure_inner. rewrite (proj2 (get_entry_hget h t i e) E). cbn [res_bind]. rewrite land_P, negb_involutive.
  destruct (PTE_P e) eqn:Pe.
  - destruct (ensure_present h pml4 owned p t i e P G A E Pe) as (-> & -> & t' & -> & At). cbn.
    exists h, owned, (Some t'). split_and!; try done; [apply heap_grows_refl|split; [by apply enough_less|done]|naive_solver].
  - unfold alloc_table. destruct (free h) as [|[va|] f] eqn:Ef.
    + exists h, owned, None. split_and!; try done; [apply heap_grows_refl|]. intros n [H _]. rewrite Ef in H. cbn in H. lia.
    + destruct (po_fresh _ _ _ P) as [_ Ff]. destruct (Ff va) as [(pa & Epa & _) _]; [unfold future; rewrite Ef; by left|].
      rewrite Epa. destruct (ensure_fresh h pml4 owned p t i e va f pa P G A E Pe Ef Epa) as (-> & P' & Gr & At). cbn.
      eexists _, _, _. split; [done|]. split_and!; try done; [|naive_solver].
      intros n H. split; [|done]. by eapply enough_put, enough_tail.
    + destruct (grows_dry pml4 h owned f None P Ef eq_refl) as [P' Gr].
      eexists _, _, None. split; [done|]. split_and!; try done. intros n [_ H]. rewrite Ef in H. cbn in H.
      apply Forall_cons_1 in H as [[? H] _]. done.
Qed.

(** The handler's variant differs only where an allocation has no physical
    address, which a heap in the kernel half excludes. *)
Lemma ensure_recorded_eq h pml4 owned t i : pt_ok h pml4 owned -> ensure_inner_recorded h owned t i = ensure_inner h owned t i.
Proof.
  intros P. unfold ensure_inner_recorded, ensure_inner. destruct (get_entry h t i) as [e|]; [|done]. cbn [res_bind].
  destruct (negb (Z.land e flag_P =? 0)); [done|]. unfold alloc_table. destruct (free h) as [|[va|] f] eqn:Ef; [done| |done].
  destruct (po_fresh _ _ _ P) as [_ Ff]. destruct (Ff va) as [(pa & -> & _) _]; [unfold future; rewrite Ef; by left|done].
Qed.

Lemma ensure_inner_recorded_ok : ensures ensure_inner_recorded.
Proof. intros h pml4 owned p t i P. rewrite (ensure_recorded_eq h pml4 owned t i P). by apply ensure_inner_ok. Qed.

(** *** Writing a leaf *)

(** Two addresses on one page. *)
Definition vpn (va : Z) : list Z := [va_idx 39 va; va_idx 30 va; va_idx 21 va; va_idx 12 va].

Section Leaf.
  Context (h : Heap) (pml4 : Z) (owned : list Z) (va t e : Z).
  Hypothesis P : pt_ok h pml4 owned.
  Hypothesis Z0 : va_idx 39 va = 0.
  Hypothesis A : at_path h pml4 [0; va_idx 30 va; va_idx 21 va] = Some t.
  Hypothesis U : is_u 64 e.

Let p := [0; va_idx 30 va; va_idx 21 va].
Let i := va_idx 12 va.
Let h' := put h t i e.

Lemma leaf_t : t ∈ owned.
Proof. apply (po_reach _ _ _ P p); [by apply gpath_guest|done]. Qed.

Lemma leaf_old : exists e0, hget h t i = Some e0.
Proof. destruct (pt_live_get h pml4 owned t i P leaf_t (va_idx_range _ _)) as (e0 & ? & _). eauto. Qed.

Lemma leaf_hget u j : is_idx j -> hget h' u j = if bool_decide (u = t /\ j = i) then Some e else hget h u j.
Proof. intros Ij. destruct leaf_old as [e0 E0]. pose proof (va_idx_range 12 va). unfold is_idx in *. eapply hget_put; (done || lia). Qed.

Lemma leaf_gpath q : gpath q -> at_path h' pml4 q = at_path h pml4 q.
Proof.
  intros Gq. apply (at_path_put h pml4 owned p); try done; [by apply gpath_guest|apply va_idx_range|].
  intros q' ->. destruct Gq as [Lq _]. rewrite length_app in Lq. cbn in Lq. lia.
Qed.

Lemma leaf_short q : gpath q -> at_path h pml4 q = Some t -> length q = 3%nat.
Proof. intros Gq H. by rewrite (po_inj _ _ _ P q p t) by (done || by apply gpath_guest). Qed.

Lemma leaf_root : t <> pml4.
Proof.
  intros Et. assert (L0 : length (@nil Z) = 3%nat); [|done]. apply leaf_short; [|by rewrite Et].
  repeat split; try done; cbn; lia.
Qed.

Lemma leaf_foreign j q : is_idx j -> j <> 0 -> (length q <= 3)%nat -> Forall is_idx q ->
  at_path h' pml4 (j :: q) = at_path h pml4 (j :: q).
Proof.
  intros. apply (at_path_put_foreign h pml4 owned p); try done; [by apply gpath_guest|apply va_idx_range|]. intros Et. by destruct leaf_root.
Qed.

Lemma leaf_pt_ok : pt_ok h' pml4 owned.
Proof.
  constructor; [apply P|apply P|..].
  - intros u Hu. destruct (po_live _ _ _ P u Hu) as (Au & l & El & Ln & Fl). split; [done|].
    unfold h', put. destruct (tables h !! t) as [l0|] eqn:E0; [|eauto]. cbn [tables].
    destruct (Z.eq_dec u t) as [->|]; [|rewrite lookup_insert_ne by done; eauto]. rewrite lookup_insert_eq.
    assert (l0 = l) as -> by congruence. eexists. rewrite length_insert. split_and!; [done|done|]. by apply Forall_insert.
  - intros q u Gq. rewrite leaf_gpath by done. by apply P.
  - intros q1 q2 u G1 G2. rewrite !leaf_gpath by done. by apply P.
  - intros q u j x Gq. pose proof (gpath_init _ _ Gq) as G0. rewrite leaf_gpath by done. intros H Hx.
    rewrite leaf_hget in Hx by (by eapply gpath_idx). case_bool_decide as C; [|by apply (po_inner _ _ _ P q u j x)].
    destruct C as [-> _]. pose proof (leaf_short q G0 H) as Lq. destruct Gq as [Ln _]. rewrite length_app, Lq in Ln. cbn in Ln. lia.
  - unfold future, h'. rewrite put_free. split; [apply P|]. intros u Hu. destruct (proj2 (po_fresh _ _ _ P) u Hu) as [Au Du].
    split; [done|]. rewrite put_tables; [done|]. intros ->. destruct (po_live _ _ _ P t leaf_t) as (_ & l & El & _). congruence.
  - intros j q u Ij Nj Lq Fq. unfold future, h'. rewrite put_free. rewrite leaf_foreign by (done || lia). by apply P.
Qed.

Lemma leaf_xlate v : xlate h' pml4 v = if bool_decide (vpn v = vpn va) then xlat_of e else xlate h pml4 v.
Proof.
  destruct (Z.eq_dec (va_idx 39 v) 0) as [Zv|Nz].
  - rewrite (xlate_guest h' _ _ v leaf_pt_ok Zv), (xlate_guest h _ _ v P Zv). unfold leaf_at.
    pose proof (gpath_guest v Zv) as G3. rewrite leaf_gpath by done. unfold vpn. rewrite Zv, Z0.
    destruct (at_path h pml4 [0; va_idx 30 v; va_idx 21 v]) as [u|] eqn:Hu.
    + rewrite leaf_hget by apply va_idx_range. destruct (decide (u = t)) as [->|Nu].
      * assert (Eq : [0; va_idx 30 v; va_idx 21 v] = p) by (apply (po_inj _ _ _ P _ p t); (done || by apply gpath_guest)).
        injection Eq as E3 E2. subst i. rewrite E3, E2.
        destruct (decide (va_idx 12 v = va_idx 12 va)) as [->|N]; [by rewrite !bool_decide_true|].
        rewrite !bool_decide_false; [done| |naive_solver]. by intros [=].
      * rewrite !bool_decide_false; [done| |naive_solver]. intros [= E1 E2 E3]. rewrite E1, E2 in Hu. congruence.
    + rewrite bool_decide_false; [done|]. intros [= E1 E2 E3]. rewrite E1, E2 in Hu. congruence.
  - rewrite bool_decide_false by (intros [=]; congruence). apply (xlate_foreign _ _ _ _ v P Nz).
    + intros j Ij Nj. rewrite leaf_hget by done. rewrite bool_decide_false; [done|]. intros [Ht _]. by apply leaf_root.
    + intros u Hu _. apply put_tables. intros ->. apply Hu, leaf_t.
Qed.
End Leaf.
End Facts.
