(* ===== verification/PagingMap.v ===== *)
(** * Page tables of the guest kernel: what the operations do

    Mapping a page changes the translation of that page and of nothing else, in
    any address space; the fault handler's variant agrees with the builder's; a
    leaf's write bit can be toggled alone. *)

From stdpp Require Import gmap.
From S2P Require Import Prelude MachineInt Mmu Paging PagingFacts.

#[local] Open Scope Z_scope.

Section Map.
  Context {L : KernelLayout}.

(** The translation a leaf for [pa] and [perm] gives. *)
Definition leaf_xlat (pa : Z) (perm : Perm) : Xlat :=
  mkXlat (Z.land pa PA_MASK) (pm_writable perm) (pm_user perm) (pm_executable perm).

Lemma xlat_of_leaf pa perm : xlat_of (leaf_pte pa perm) = Some (leaf_xlat pa perm).
Proof.
  unfold xlat_of, leaf_xlat. destruct (leaf_pte_spec pa perm) as (-> & -> & -> & _ & -> & -> & _). by rewrite negb_involutive.
Qed.

(** A step of the builder that keeps every other translation. *)
Record mapped (pml4 : Z) (h : Heap) (owned : list Z) (h' : Heap) (owned' : list Z) : Prop := {
  m_ok : pt_ok h' pml4 owned';
  m_owned : exists new, owned' = owned ++ new /\ forall t, t ∈ new -> future h t;
  m_frame : forall t, ~ (t ∈ owned) -> ~ future h t -> tables h' !! t = tables h !! t;
  m_future : forall t, future h' t -> future h t }.

Lemma grows_mapped pml4 h owned h' owned' : grows pml4 h owned h' owned' -> pt_ok h' pml4 owned' -> mapped pml4 h owned h' owned'.
Proof. intros [] P. by constructor. Qed.

Lemma mapped_refl pml4 h owned : pt_ok h pml4 owned -> mapped pml4 h owned h owned.
Proof. intros. by apply grows_mapped; [apply heap_grows_refl|]. Qed.

Lemma mapped_trans pml4 h1 o1 h2 o2 h3 o3 : mapped pml4 h1 o1 h2 o2 -> mapped pml4 h2 o2 h3 o3 -> mapped pml4 h1 o1 h3 o3.
Proof.
  intros [P1 (n1 & -> & N1) F1 U1] [P2 (n2 & -> & N2) F2 U2]. constructor.
  - done.
  - exists (n1 ++ n2). split; [by rewrite app_assoc|]. intros t [H|H]%elem_of_app; auto.
  - intros t H1 H2. rewrite F2, F1; auto. intros [H|H]%elem_of_app; auto.
  - auto.
Qed.

(** The outcome of mapping one page: the new leaf, or an allocation failure that
    no translation shows. *)
Definition maps_page (pml4 va pa : Z) (perm : Perm) (h : Heap) (owned : list Z) (res : Res (Heap * list Z * option unit)) : Prop :=
  exists h' owned' r, res = Ret (h', owned', r) /\ mapped pml4 h owned h' owned' /\
    (forall n, enough (3 + n) h -> enough n h' /\ r = Some tt) /\
    forall v, xlate h' pml4 v =
      if bool_decide (r = Some tt /\ vpn v = vpn va) then Some (leaf_xlat pa perm) else xlate h pml4 v.

Lemma maps_none pml4 va pa perm h owned h' owned' :
  pt_ok h' pml4 owned' -> grows pml4 h owned h' owned' -> (forall n, ~ enough (3 + n) h) ->
  maps_page pml4 va pa perm h owned (Ret (h', owned', None)).
Proof.
  intros P G N. exists h', owned', None. split; [done|]. split; [by apply grows_mapped|]. split; [intros n H; by apply N in H|].
  intros v. rewrite bool_decide_false by naive_solver. by apply G.
Qed.

Lemma walk_alloc_ok ensure h pml4 owned va pa perm :
  ensures ensure -> pt_ok h pml4 owned -> va_idx 39 va = 0 ->
  maps_page pml4 va pa perm h owned (walk_alloc ensure h owned pml4 va pa perm).
Proof.
  intros En P Z0. pose proof (gpath_guest va Z0) as G3. pose proof (gpath_init [0; _] _ G3) as G2. pose proof (gpath_init [0] _ G2) as G1.
  unfold walk_alloc. change index_at with va_idx. rewrite Z0.
  destruct (En h pml4 owned [] pml4 0 P G1 eq_refl) as (h1 & o1 & r1 & -> & P1 & Gr1 & En1 & A1). cbn [res_bind].
  destruct r1 as [t3|]; [|apply maps_none; [done..|]; intros n H; by destruct (En1 _ H) as [_ []]]. cbn [res_bind].
  destruct (En h1 pml4 o1 [0] t3 _ P1 G2 (A1 _ eq_refl)) as (h2 & o2 & r2 & -> & P2 & Gr2 & En2 & A2). cbn [res_bind].
  pose proof (heap_grows_trans _ _ _ _ _ _ _ Gr1 Gr2) as Gr12.
  destruct r2 as [t2|]; [|apply maps_none; [done..|]; intros n H; by destruct (En2 _ (proj1 (En1 _ H))) as [_ []]]. cbn [res_bind].
  destruct (En h2 pml4 o2 [0; va_idx 30 va] t2 _ P2 G3 (A2 _ eq_refl)) as (h3 & o3 & r3 & -> & P3 & Gr3 & En3 & A3). cbn [res_bind].
  pose proof (heap_grows_trans _ _ _ _ _ _ _ Gr12 Gr3) as Gr.
  destruct r3 as [t1|]; [|apply maps_none; [done..|]; intros n H; by destruct (En3 _ (proj1 (En2 _ (proj1 (En1 _ H))))) as [_ []]]. cbn [res_bind].
  pose proof (A3 _ eq_refl) as At. cbn [app] in At. destruct (leaf_pte_spec pa perm) as (_ & _ & _ & _ & _ & _ & Ue).
  destruct (leaf_old h3 pml4 o3 va t1 P3 Z0 At) as [e0 E0]. rewrite (set_entry_put _ _ _ _ e0 E0). cbn [res_bind].
  exists (put h3 t1 (va_idx 12 va) (leaf_pte pa perm)), o3, (Some tt). split; [done|]. split_and!.
  - apply (mapped_trans _ _ _ h3 o3); [by apply grows_mapped|]. constructor.
    + by apply leaf_pt_ok.
    + exists []. split; [by rewrite app_nil_r|]. intros t H. by apply elem_of_nil in H.
    + intros t Nt _. apply put_tables. intros ->. apply Nt. by eapply leaf_t.
    + intros t. unfold future. by rewrite put_free.
  - intros n H. split; [|done]. apply enough_put. apply En3, En2, En1, H.
  - intros v. rewrite (leaf_xlate h3 pml4 o3 va t1) by done. rewrite xlat_of_leaf.
    rewrite (g_xlate _ _ _ _ _ Gr v).
    destruct (decide (vpn v = vpn va)) as [Ev|Nv]; [by rewrite !bool_decide_true|]. by rewrite !bool_decide_false by (by try intros [_ ?]).
Qed.

(** A page table whose tables the step does not own is untouched by it. *)
Lemma mapped_other pml4 h owned h' owned' pml4' o2 :
  mapped pml4 h owned h' owned' -> pt_ok h pml4' o2 -> (forall t, t ∈ o2 \/ foreign h pml4' t -> ~ (t ∈ owned)) ->
  pt_ok h' pml4' o2 /\ forall v, xlate h' pml4' v = xlate h pml4' v.
Proof.
  intros [P' _ F U] P D.
  assert (A : agree pml4' o2 h h').
  { intros t H. apply F; [by apply D|]. intros Ft. destruct H as [H|(i & p & Ii & Ni & Lp & Fp & H)].
    - destruct (po_live _ _ _ P t H) as (_ & l & El & _). destruct (proj2 (po_fresh _ _ _ P) t Ft) as [_ Dt]. congruence.
    - by destruct (po_foreign _ _ _ P i p t) as [_ N]. }
  split; [|intros v; by apply (agree_xlate _ _ _ o2)].
  destruct (po_fresh _ _ _ P') as [Nf Ff]. apply (agree_pt_ok h); try done. intros t Ht. by apply Ff.
Qed.

(** *** Toggling the write bit *)

Lemma set_bit_frame e n : 0 <= n -> n < 12 -> Z.land (Z.lor e (Z.shiftl 1 n)) PA_MASK = Z.land e PA_MASK.
Proof.
  intros H0 H1. rewrite Z.land_lor_distr_l. replace (Z.land (Z.shiftl 1 n) PA_MASK) with 0; [apply Z.lor_0_r|].
  symmetry. apply Z.bits_inj'. intros k Hk. rewrite Z.land_spec, mask_bits, Z.bits_0, Z.shiftl_1_l, Z.pow2_bits_eqb by lia.
  destruct (Z.eqb_spec n k); [|done]. destruct (Z.leb_spec 12 k); [lia|done].
Qed.

Definition with_w (x : Xlat) (w : bool) : Xlat := mkXlat (x_pa x) w (x_user x) (x_exec x).

Definition toggled (e : Z) (w : bool) : Z := if w then Z.lor e flag_RW else Z.land e (not_u 64 flag_RW).

Lemma toggled_bit e w n : is_u 64 e -> 0 <= n -> Z.testbit (toggled e w) n = if bool_decide (n = 1) then w else Z.testbit e n.
Proof.
  intros Ue Hn. assert (B1 : forall k, 0 <= k -> Z.testbit flag_RW k = bool_decide (k = 1)).
  { intros k Hk. unfold flag_RW. rewrite Z.shiftl_1_l, Z.pow2_bits_eqb by lia. case_bool_decide; [subst; done|]. apply Z.eqb_neq. lia. }
  destruct w; cbn [toggled].
  - rewrite Z.lor_spec, B1 by done. case_bool_decide; [apply orb_true_r|apply orb_false_r].
  - rewrite Z.land_spec. unfold not_u, wrap. destruct (Z.lt_ge_cases n 64).
    + rewrite Z.mod_pow2_bits_low, Z.lnot_spec, B1 by lia. case_bool_decide; [apply andb_false_r|apply andb_true_r].
    + rewrite bool_decide_false by lia. replace (Z.testbit e n) with false; [done|].
      symmetry. rewrite <- (wrap_small 64 e Ue). apply Z.mod_pow2_bits_high. lia.
Qed.

Lemma toggled_u64 e w : is_u 64 e -> is_u 64 (toggled e w).
Proof.
  intros Ue. destruct w; cbn [toggled].
  - by apply lor_range.
  - by apply land_range.
Qed.

Lemma toggled_xlat e w x : is_u 64 e -> xlat_of e = Some x -> xlat_of (toggled e w) = Some (with_w x w).
Proof.
  intros Ue. unfold xlat_of, PTE_P, PTE_RW, PTE_US, PTE_NX. rewrite !toggled_bit by (done || lia).
  rewrite !bool_decide_false by lia. destruct (Z.testbit e 0); [|done]. intros [= <-]. unfold with_w. cbn [x_pa x_user x_exec].
  rewrite bool_decide_true by done. do 2 f_equal. unfold PTE_ADDR. apply Z.bits_inj'. intros n Hn. change ADDR_MASK with PA_MASK.
  rewrite !Z.land_spec, toggled_bit, mask_bits by done. case_bool_decide as C; [|done]. subst. by rewrite !andb_false_r.
Qed.

Lemma descend_step h pml4 owned t i : pt_ok h pml4 owned -> t ∈ owned -> is_idx i -> descend h t i = Ret (step h t i).
Proof.
  intros P Ht Ii. destruct (pt_live_get h pml4 owned t i P Ht Ii) as (e & E & _). unfold descend, step. rewrite E. unfold hget in E.
  destruct (tables h !! t) as [l|]; [|done]. cbn [expect res_bind]. rewrite E, land_P, land_PS, negb_involutive. unfold next_table.
  destruct (PTE_P e); [|done]. by destruct (PTE_PS e).
Qed.

Lemma xlate_vpn h pml4 owned v va : pt_ok h pml4 owned -> va_idx 39 va = 0 -> vpn v = vpn va -> xlate h pml4 v = xlate h pml4 va.
Proof.
  intros P Z0 C. unfold vpn in C. injection C as C4 C3 C2 C1. rewrite Z0 in C4.
  by rewrite (xlate_guest h pml4 owned v P C4), (xlate_guest h pml4 owned va P Z0), C3, C2, C1.
Qed.

(** The outcome of toggling: the write right of a mapped page changes, and the
    result tells whether there is one. *)
Definition toggles (h : Heap) (pml4 : Z) (owned : list Z) (va : Z) (w : bool) (h' : Heap) (b : bool) : Prop :=
  mapped pml4 h owned h' owned /\ free h' = free h /\ b = bool_decide (is_Some (xlate h pml4 va)) /\
  forall v, xlate h' pml4 v =
    if bool_decide (vpn v = vpn va) then option_map (fun x => with_w x w) (xlate h pml4 va) else xlate h pml4 v.

Lemma toggles_none h pml4 owned va w : pt_ok h pml4 owned -> va_idx 39 va = 0 -> xlate h pml4 va = None ->
  toggles h pml4 owned va w h false.
Proof.
  intros P Z0 N. split; [by apply mapped_refl|]. split; [done|]. rewrite N. split; [done|]. intros v.
  case_bool_decide as C; [|done]. cbn. by rewrite (xlate_vpn h pml4 owned v va).
Qed.

Lemma set_leaf_w_ok h pml4 owned va w : pt_ok h pml4 owned -> va_idx 39 va = 0 ->
  exists h' b, pt_set_leaf_w h pml4 va w = Ret (h', b) /\ toggles h pml4 owned va w h' b.
Proof.
  intros P Z0. pose proof (gpath_guest va Z0) as G3. pose proof (gpath_init [0; _] _ G3) as G2. pose proof (gpath_init [0] _ G2) as G1.
  pose proof (xlate_guest h pml4 owned va P Z0) as X. unfold leaf_at in X. cbn [at_path] in X.
  pose proof (toggles_none h pml4 owned va w P Z0) as No.
  unfold pt_set_leaf_w. change index_at with va_idx. rewrite Z0.
  rewrite (descend_step h pml4 owned) by (done || apply P). cbn [res_bind].
  destruct (step h pml4 0) as [t3|] eqn:S3; [|by eauto].
  assert (A1 : at_path h pml4 [0] = Some t3) by (cbn; by rewrite S3).
  rewrite (descend_step h pml4 owned) by (done || apply va_idx_range || by apply (po_reach _ _ _ P [0])). cbn [res_bind].
  destruct (step h t3 (va_idx 30 va)) as [t2|] eqn:S2; [|by eauto].
  assert (A2 : at_path h pml4 [0; va_idx 30 va] = Some t2) by (cbn; by rewrite S3, S2).
  rewrite (descend_step h pml4 owned) by (done || apply va_idx_range || by apply (po_reach _ _ _ P [0; va_idx 30 va])). cbn [res_bind].
  destruct (step h t2 (va_idx 21 va)) as [t1|] eqn:S1; [|by eauto].
  assert (A3 : at_path h pml4 [0; va_idx 30 va; va_idx 21 va] = Some t1) by (cbn; by rewrite S3, S2, S1).
  pose proof (leaf_t h pml4 owned va t1 P Z0 A3) as Ht.
  destruct (pt_live_get h pml4 owned t1 (va_idx 12 va) P Ht (va_idx_range _ _)) as (e & E & Ue).
  rewrite (proj2 (get_entry_hget _ _ _ _) E). cbn [res_bind]. rewrite E in X. rewrite land_P.
  destruct (PTE_P e) eqn:Pe; cbn [negb]; [|exists h, false; split; [done|]; apply No; rewrite X; unfold xlat_of; by rewrite Pe].
  fold (toggled e w). rewrite (set_entry_put _ _ _ _ e E). cbn [res_bind].
  exists (put h t1 (va_idx 12 va) (toggled e w)), true. split; [done|].
  assert (exists x, xlat_of e = Some x) as [x Ex] by (unfold xlat_of; rewrite Pe; eauto).
  split; [constructor|split; [apply put_free|]].
  - apply leaf_pt_ok; try done. by apply toggled_u64.
  - exists []. split; [by rewrite app_nil_r|]. intros t H. by apply elem_of_nil in H.
  - intros t Nt _. apply put_tables. by intros ->.
  - intros t. unfold future. by rewrite put_free.
  - rewrite X, Ex. split; [done|]. intros v. rewrite (leaf_xlate h pml4 owned va t1) by (done || by apply toggled_u64).
    case_bool_decide; [|done]. by rewrite (toggled_xlat e w x).
Qed.

(** ** Building the address space of a frame *)

Lemma walk_ext_root h h' s ls pa t pa' t' va r :
  pa_to_va pa = Some t -> pa_to_va pa' = Some t' -> hget h' t' (va_idx s va) = hget h t (va_idx s va) ->
  (forall u, step h t (va_idx s va) = Some u -> same_reads h h' u ((fun s => va_idx s va) <$> ls)) ->
  walk_from (phys_entry h') (s :: ls) pa' va r = walk_from (phys_entry h) (s :: ls) pa va r.
Proof.
  intros Ht Ht' E N. cbn [walk_from]. rewrite (phys_entry_hget _ _ t'), (phys_entry_hget _ _ t), E by done.
  destruct (hget h t (va_idx s va)) as [e|] eqn:Ee; [|done].
  destruct (PTE_P e) eqn:EP; cbn [negb]; [|done]. destruct r as [[w u] x]. destruct (meet w u x e) as [[w' u'] x'].
  destruct ls as [|s' ls]; [done|]. destruct (PTE_PS e) eqn:ES; [done|].
  destruct (pa_to_va (PTE_ADDR e)) as [t1|] eqn:Et.
  - apply (walk_ext h h' _ _ t1); [done|]. apply N. unfold step, next_table. by rewrite Ee, EP, ES.
  - cbn [walk_from]. unfold phys_entry. by rewrite Et.
Qed.

(** The tables below [t] keep what a walk reads. *)
Lemma same_reads_below h h' t l :
  (forall p u, (length p < length l)%nat -> p = take (length p) l -> at_path h t p = Some u -> tables h' !! u = tables h !! u) ->
  same_reads h h' t l.
Proof.
  revert t. induction l as [|i l IH]; intros t H; [done|]. cbn [same_reads]. split.
  - unfold hget. rewrite (H [] t); [done|cbn; lia|done|done].
  - intros t' St. apply IH. intros p u Lp Ep Ap. apply (H (i :: p)); [cbn; lia|cbn; by f_equal|]. cbn [at_path]. by rewrite St.
Qed.

(** The state of the kernel a new page table starts from: the root in use, whose
    guest slot is empty and whose tables the allocator does not hand out. *)
Record kernel_ok (h : Heap) (cr3 src : Z) : Prop := {
  ko_src : pa_to_va (Z.land cr3 PA_MASK) = Some src;
  ko_table : exists l, tables h !! src = Some l /\ length l = ENTRIES /\ Forall (is_u 64) l;
  ko_guest : exists e, hget h src 0 = Some e /\ PTE_P e = false;
  ko_fresh : NoDup (omap id (free h)) /\ forall va, future h va -> addr_ok va /\ tables h !! va = None;
  ko_foreign : forall i p t, is_idx i -> i <> 0 -> (length p <= 2)%nat -> Forall is_idx p -> at_path h src (i :: p) = Some t -> ~ future h t }.

Section New.
  Context (h : Heap) (cr3 src pml4 : Z) (f : list (option Z)) (l : list Z).
  Hypothesis K : kernel_ok h cr3 src.
  Hypothesis F : free h = Some pml4 :: f.
  Hypothesis T : tables h !! src = Some l.

Let h' := mkHeap (<[pml4 := l]> (<[pml4 := replicate ENTRIES 0]> (tables h))) f.

Lemma new_future : future h pml4.
Proof. unfold future. rewrite F. by left. Qed.

Lemma new_fresh : ~ future h' pml4.
Proof.
  intros H. destruct (ko_fresh _ _ _ K) as [N _]. rewrite F in N. cbn in N. apply list.NoDup_cons in N as [N _]. apply N.
  apply list_elem_of_omap. by exists (Some pml4).
Qed.

Lemma new_tables u : u <> pml4 -> tables h' !! u = tables h !! u.
Proof. intros. cbn. by rewrite !lookup_insert_ne. Qed.

Lemma new_root i : hget h' pml4 i = hget h src i.
Proof. unfold hget. cbn. by rewrite lookup_insert_eq, T. Qed.

Lemma new_result : PageTable_new cr3 h = Ret (h', Some (mkPageTable pml4 [pml4])).
Proof.
  unfold PageTable_new, alloc_table. rewrite F, (ko_src _ _ _ K). cbn [tables free].
  assert (src <> pml4). { intros Es. destruct (proj2 (ko_fresh _ _ _ K) pml4 new_future) as [_ D]. congruence. }
  rewrite lookup_insert_ne, T by done. cbn [expect res_bind].
  destruct (ko_guest _ _ _ K) as (e & Ee & Pe). rewrite <- new_root in Ee.
  apply get_entry_hget in Ee. fold h'. rewrite Ee. cbn [res_bind].
  by rewrite debug_assert_true by (by rewrite land_P, Pe).
Qed.

Lemma new_foreign i p : is_idx i -> i <> 0 -> (length p <= 3)%nat -> Forall is_idx p ->
  at_path h' pml4 (i :: p) = at_path h src (i :: p).
Proof.
  intros Ii Ni Lp Fp. cbn [at_path]. unfold step at 1 2. rewrite new_root. destruct (hget h src i) as [e|] eqn:E; [|done].
  destruct (next_table e) as [t'|] eqn:N; [|done]. apply at_path_ext. intros q j q' u -> A. unfold hget. rewrite new_tables; [done|].
  intros ->. rewrite length_app in Lp. cbn in Lp. apply Forall_app in Fp as [Fq _].
  apply (ko_foreign _ _ _ K i q pml4); [done|done|lia|done| |apply new_future]. cbn [at_path]. unfold step. by rewrite E, N.
Qed.

Lemma new_empty q : gpath q -> q <> [] -> at_path h' pml4 q = None.
Proof.
  intros (_ & _ & G) N. destruct q as [|i q]; [done|]. subst i. cbn [at_path]. unfold step. rewrite new_root.
  destruct (ko_guest _ _ _ K) as (e & -> & Pe). unfold next_table. by rewrite Pe.
Qed.

Lemma new_only q u : gpath q -> at_path h' pml4 q = Some u -> q = [] /\ u = pml4.
Proof. intros G H. destruct q; [by injection H as <-|]. by rewrite new_empty in H. Qed.

Lemma new_pt_ok : pt_ok h' pml4 [pml4].
Proof.
  destruct (proj2 (ko_fresh _ _ _ K) pml4 new_future) as [Aok _].
  destruct (ko_table _ _ _ K) as (l' & El & Ln & Fl). assert (l' = l) as -> by congruence. constructor.
  - apply list.NoDup_singleton.
  - by apply list_elem_of_singleton.
  - intros t Ht. apply list_elem_of_singleton in Ht as ->. split; [done|]. exists l. split_and!; try done. cbn. by rewrite lookup_insert_eq.
  - intros q u G H. destruct (new_only q u G H) as [_ ->]. by apply list_elem_of_singleton.
  - intros q1 q2 u G1 G2 H1 H2. destruct (new_only q1 u G1 H1) as [-> _]. by destruct (new_only q2 u G2 H2) as [-> _].
  - intros q u i e G H He Pe. destruct (new_only q u (gpath_init _ _ G) H) as [-> ->]. destruct G as (_ & _ & G). cbn in G. subst i.
    rewrite new_root in He. destruct (ko_guest _ _ _ K) as (e' & E' & Pe'). congruence.
  - destruct (ko_fresh _ _ _ K) as [N D]. rewrite F in N. cbn in N. apply list.NoDup_cons in N as [_ N]. split; [done|].
    intros v Hv. assert (future h v) as Hv' by (unfold future; rewrite F; by right). destruct (D v Hv') as [Av Dv]. split; [done|].
    rewrite new_tables; [done|]. intros Ev. apply new_fresh. by rewrite <- Ev.
  - intros i q t Ii Ni Lq Fq H. rewrite new_foreign in H by (done || lia).
    pose proof (ko_foreign _ _ _ K i q t Ii Ni Lq Fq H) as N. split.
    + intros Ht. apply list_elem_of_singleton in Ht. apply N. rewrite Ht. apply new_future.
    + intros Ht. apply N. unfold future. rewrite F. by right.
Qed.

Lemma new_xlate v : xlate h' pml4 v = if bool_decide (va_idx 39 v = 0) then None else translate (phys_entry h) cr3 v.
Proof.
  case_bool_decide as C.
  - rewrite (xlate_guest _ _ _ v new_pt_ok C). unfold leaf_at. by rewrite new_empty by (done || by apply gpath_guest).
  - destruct (root_cr3 _ _ _ new_pt_ok) as (c & Ec & Em & Eb). unfold xlate, translate. rewrite Ec, Em. unfold PTE_ADDR. change ADDR_MASK with PA_MASK.
    apply (walk_ext_root h h' 39 [30; 21; 12] _ src _ pml4); [apply K|done|by rewrite new_root|].
    intros u St. apply same_reads_below. intros p w Lp Ep Ap. apply new_tables. intros Ew. subst w.
    apply (ko_foreign _ _ _ K (va_idx 39 v) p pml4); [apply va_idx_range|done|cbn in Lp; lia| | |apply new_future].
    + rewrite Ep. apply Forall_take. repeat constructor; apply va_idx_range.
    + cbn [at_path]. by rewrite St.
Qed.
End New.

(** *** Borrowing a subtree *)

Section Install.
  Context (h : Heap) (pml4 : Z) (owned : list Z) (k pa pdpt : Z).
  Hypothesis P : pt_ok h pml4 owned.
  Hypothesis Ik : is_idx k.
  Hypothesis Nk : k <> 0.
  Hypothesis Fp : frame_addr pa.
  Hypothesis Bp : pa_to_va pa = Some pdpt.
  Hypothesis Sub : forall q t, (length q <= 2)%nat -> Forall is_idx q -> at_path h pdpt q = Some t -> ~ (t ∈ owned) /\ ~ future h t.

Let h' := put h pml4 k (inner_pte pa).

Lemma inst_hget u j : is_idx j -> hget h' u j = if bool_decide (u = pml4 /\ j = k) then Some (inner_pte pa) else hget h u j.
Proof.
  intros Ij. destruct (pt_live_get h pml4 owned pml4 k P) as (e & E & _); [apply P|done|]. unfold is_idx in *. eapply hget_put; (done || lia).
Qed.

Lemma inst_gpath q : gpath q -> at_path h' pml4 q = at_path h pml4 q.
Proof.
  intros G. apply at_path_ext. intros q0 j q' u -> A. pose proof (gpath_prefix _ _ _ G) as G0.
  rewrite inst_hget; [|destruct G as (_ & G & _); apply Forall_app in G as [_ G]; by apply Forall_inv in G].
  rewrite bool_decide_false; [done|]. intros [-> ->].
  assert (q0 = []) as -> by (apply (po_inj _ _ _ P q0 [] pml4); [done|repeat split; cbn; (lia || done)|done|done]).
  by destruct G as (_ & _ & G).
Qed.

Lemma inst_below q t : (length q <= 3)%nat -> Forall is_idx q -> at_path h' pdpt q = Some t -> at_path h pdpt q = Some t.
Proof.
  intros Lq Fq <-. symmetry. apply at_path_ext. intros q0 j q' u -> A. rewrite length_app in Lq. cbn in Lq.
  apply Forall_app in Fq as [Fq Fj]. apply Forall_inv in Fj. rewrite inst_hget by done. rewrite bool_decide_false; [done|]. intros [-> _].
  destruct (Sub q0 pml4) as [N _]; [lia|done|done|]. apply N, P.
Qed.

Lemma inst_step : step h' pml4 k = Some pdpt.
Proof.
  unfold step. rewrite inst_hget, bool_decide_true by done. unfold next_table.
  by destruct (inner_pte_spec pa Fp) as (-> & _ & _ & -> & _ & -> & _).
Qed.

Lemma inst_foreign j q t : is_idx j -> j <> 0 -> (length q <= 3)%nat -> Forall is_idx q -> at_path h' pml4 (j :: q) = Some t ->
  if bool_decide (j = k) then at_path h pdpt q = Some t else at_path h pml4 (j :: q) = Some t.
Proof.
  intros Ij Nj Lq Fq H. case_bool_decide as C.
  - subst j. cbn [at_path] in H. rewrite inst_step in H. by apply inst_below.
  - rewrite <- H. symmetry. apply at_path_ext. intros q0 i q' u Eq A.
    assert (Ii : is_idx i). { destruct q0 as [|? q0]; injection Eq as -> ->; [done|]. apply Forall_app in Fq as [_ Fi]. by apply Forall_inv in Fi. }
    rewrite inst_hget by done. rewrite bool_decide_false; [done|]. intros [-> ->].
    destruct q0 as [|j0 q0]; [by injection Eq as ->|]. injection Eq as <- ->. rewrite length_app in Lq. cbn in Lq. apply Forall_app in Fq as [Fq _].
    destruct (po_foreign _ _ _ P j q0 pml4) as [N _]; [done|done|lia|done|done|]. apply N, P.
Qed.

Lemma inst_pt_ok : pt_ok h' pml4 owned.
Proof.
  constructor; [apply P|apply P|..].
  - intros u Hu. destruct (po_live _ _ _ P u Hu) as (Au & l & El & Ln & Fl). split; [done|].
    unfold h', put. destruct (tables h !! pml4) as [l0|] eqn:E0; [|eauto]. cbn [tables].
    destruct (Z.eq_dec u pml4) as [->|]; [|rewrite lookup_insert_ne by done; eauto]. rewrite lookup_insert_eq.
    assert (l0 = l) as -> by congruence. eexists. rewrite length_insert. split_and!; [done|done|]. apply Forall_insert; [done|].
    by apply inner_pte_spec.
  - intros q u Gq. rewrite inst_gpath by done. by apply P.
  - intros q1 q2 u G1 G2. rewrite !inst_gpath by done. by apply P.
  - intros q u j x Gq. pose proof (gpath_init _ _ Gq) as G0. rewrite inst_gpath by done. intros H Hx.
    rewrite inst_hget in Hx by (by eapply gpath_idx). case_bool_decide as C; [|by apply (po_inner _ _ _ P q u j x)].
    destruct C as [-> ->]. assert (q = []) as -> by (apply (po_inj _ _ _ P q [] pml4); [done|repeat split; cbn; (lia || done)|done|done]).
    by destruct Gq as (_ & _ & Gq).
  - unfold future, h'. rewrite put_free. split; [apply P|]. intros u Hu. destruct (proj2 (po_fresh _ _ _ P) u Hu) as [Au Du].
    split; [done|]. rewrite put_tables; [done|]. intros Eu.
    destruct (po_live _ _ _ P pml4) as (_ & l & El & _); [apply P|]. congruence.
  - intros j q u Ij Nj Lq Fq H. unfold future, h'. rewrite put_free. apply inst_foreign in H; [|done|done|lia|done].
    case_bool_decide; [by apply (Sub q)|by apply (po_foreign _ _ _ P j q)].
Qed.

Lemma inst_xlate v : xlate h' pml4 v =
  if bool_decide (va_idx 39 v = k) then walk_from (phys_entry h) [30; 21; 12] pa v (true, true, true) else xlate h pml4 v.
Proof.
  destruct (root_cr3 _ _ _ P) as (c & Ec & Em & Eb). case_bool_decide as C.
  - unfold xlate, translate. rewrite Ec, Em, (walk_inner h' 39 30 [21; 12] c pml4 v Eb).
    + rewrite C, inst_hget, bool_decide_true by done. destruct (inner_pte_spec pa Fp) as (-> & _ & _ & _ & _ & -> & _).
      apply (walk_ext h h' _ pa pdpt); [done|]. apply same_reads_below. intros p u Lp Ep Ap. apply put_tables. intros Eu. subst u.
      destruct (Sub p pml4) as [N _]; [cbn in Lp; lia| |done|apply N, P]. rewrite Ep. apply Forall_take. repeat constructor; apply va_idx_range.
    + intros e. rewrite C, inst_hget, bool_decide_true by done. intros [= <-] _.
      destruct (inner_pte_spec pa Fp) as (_ & _ & _ & ? & ? & _ & ? & _). done.
  - destruct (Z.eq_dec (va_idx 39 v) 0) as [Z0|Nz].
    + rewrite (xlate_guest _ _ _ v inst_pt_ok Z0), (xlate_guest h _ _ v P Z0). unfold leaf_at. rewrite inst_gpath by (by apply gpath_guest).
      destruct (at_path h pml4 [0; va_idx 30 v; va_idx 21 v]) as [u|] eqn:A; [|done].
      rewrite inst_hget by apply va_idx_range. rewrite bool_decide_false; [done|]. intros [-> _].
      assert (E : [0; va_idx 30 v; va_idx 21 v] = []); [|done].
      apply (po_inj _ _ _ P _ _ pml4); [by apply gpath_guest|repeat split; cbn; (lia || done)|done|done].
    + unfold xlate, translate. rewrite Ec, Em. apply (walk_ext_root h h' 39 [30; 21; 12] c pml4 c pml4); [done|done| |].
      * rewrite inst_hget, bool_decide_false by (apply va_idx_range || naive_solver). done.
      * intros u St. apply same_reads_below. intros p w Lp Ep Ap. apply put_tables. intros Ew. subst w.
        destruct (po_foreign _ _ _ P (va_idx 39 v) p pml4) as [N _]; [apply va_idx_range|done|cbn in Lp; lia| | |apply N, P].
        -- rewrite Ep. apply Forall_take. repeat constructor; apply va_idx_range.
        -- cbn [at_path]. by rewrite St.
Qed.
End Install.

(** C15: Mapping a page in one address space changes that page and nothing else.
    With enough free frames [pt_map_leaf] succeeds; the processor then translates
    every address of the page to the given frame with the given permissions, every
    other address of the space as before, and every address of any other space
    that shares no table with it as before; both spaces stay well formed (their
    tables are distinct, owned and reached by one path each). *)
Theorem map_leaf_isolates h pml4 owned pml4' owned2 va pa perm n :
  pt_ok h pml4 owned -> va_idx 39 va = 0 -> enough (3 + n) h ->
  pt_ok h pml4' owned2 -> (forall t, t ∈ owned2 \/ foreign h pml4' t -> ~ (t ∈ owned)) ->
  exists h' owned', pt_map_leaf h pml4 va pa perm owned = Ret (h', owned', Some tt) /\
    pt_ok h' pml4 owned' /\ pt_ok h' pml4' owned2 /\ enough n h' /\
    (forall v, xlate h' pml4 v = if bool_decide (vpn v = vpn va) then Some (leaf_xlat pa perm) else xlate h pml4 v) /\
    forall v, xlate h' pml4' v = xlate h pml4' v.
Proof.
  intros P Z0 En P2 D. destruct (walk_alloc_ok ensure_inner_recorded h pml4 owned va pa perm ensure_inner_recorded_ok P Z0) as (h' & o' & r & E & M & Ok & X).
  destruct (Ok n En) as [En' ->]. destruct (mapped_other pml4 h owned h' o' pml4' owned2 M P2 D) as [P2' X2].
  exists h', o'. split; [exact E|]. split; [apply M|]. split; [done|]. split; [done|]. split; [|done].
  intros v. rewrite X. by destruct (decide (vpn v = vpn va)) as [Ev|Nv]; [rewrite !bool_decide_true|rewrite !bool_decide_false by naive_solver].
Qed.
End Map.
