(* ===== verification/Fault.v ===== *)
(** * Demand paging of a running frame

    Models the fault handler of [nub/nub-arch-x86/src/jit_run.rs]: the lane state
    it reads, the materialization of the pages of an access, copy-on-write into
    the frame's memory, and the re-arming of a page table that is kept for the
    next call. The memory of a personality is the class [FrameMem] of
    [personality.rs]. *)

From stdpp Require Import gmap.
From S2P Require Import Prelude MachineInt OrdMap GasConst Mat Mmu Paging.

#[local] Open Scope Z_scope.

(** ** Memory of a frame *)

(** The kernel heap and the data pages in it, by address. *)
Record World := mkWorld { w_heap : Heap; w_pages : gmap Z (list Z) }.

Inductive PageSource := SrcPa (pa : Z) | SrcZero | SrcMissing.

Class FrameMem (M CowPage : Type) : Type := {
  page_source : M -> Z -> PageSource;
  overlay_has : M -> Z -> bool;
  alloc_cow_page : World -> list Z -> Res (World * option (CowPage * Z));
  commit_overlay_page : M -> Z -> CowPage -> M }.

(** ** Lane state *)

(** The published state of a lane; the pointers are flags here (set when not
    null) and what they point at is [Faulting] below. *)
Record LaneJitState := mkLane {
  active_cr3 : Z;
  jit_code_base : Z;
  jit_code_len : Z;
  exit_label_va : Z;
  trap_table : list (Z * Z * Z);
  mat_ranges : list MatRange;
  mat_zero_pa : Z;
  mat_state_set : bool;
  mat_data_base : Z;
  mat_mem_top : Z;
  mat_code_base : Z;
  mat_code_top : Z;
  mat_code_pa : Z;
  ro_units_set : bool;
  overlay_sink_set : bool;
  active_pt_pml4_kva : Z;
  owned_vec_set : bool }.

(** What the handler reads and writes: the heap, the tables the page table owns,
    the page states, the read-only units, the frame's memory, the saved gas
    register and the addresses flushed from the TLB. *)
Record Faulting (M : Type) := mkFaulting {
  f_world : World;
  f_owned : list Z;
  f_mat : list Z;
  f_ro : list Z;
  f_mem : M;
  f_r15 : Z;
  f_flushed : list Z }.
Arguments mkFaulting {M}. Arguments f_world {M}. Arguments f_owned {M}. Arguments f_mat {M}.
Arguments f_ro {M}. Arguments f_mem {M}. Arguments f_r15 {M}. Arguments f_flushed {M}.

(** The fields of [JitContext] the handler writes. *)
Record JitExit := mkJitExit { je_reason : Z; je_arg : Z; je_pc : Z }.

(** The pc and the width of an entry; the search gives indices of the table. *)
Definition trap_entry (tt : list (Z * Z * Z)) (i : nat) : Z * Z :=
  match tt !! i with Some (_, pc, width) => (pc, width) | None => (0, 0) end.

(** The entry at or before the offset. *)
Definition trap_lookup (s : LaneJitState) (offset : Z) : Z * Z :=
  match binary_search_by (fun '(no, _, _) => no ?= offset) (trap_table s) with
  | Ok idx => trap_entry (trap_table s) idx
  | Err O => (0, 0)
  | Err (S idx) => trap_entry (trap_table s) idx
  end.

Definition mat_range_for (s : LaneJitState) (page_va : Z) : option MatRange :=
  List.find (fun r => (mr_start r <=? page_va) && (page_va <? mr_end r)) (mat_ranges s).

Definition page_kind (s : LaneJitState) (page_va : Z) : PageKind :=
  match mat_range_for s page_va with
  | Some r => default PinnedCapRo (PageKind_from_u8 (mr_kind r))
  | None => EphemeralZero
  end.

(** The lane whose published root is the current one; the hint is tried first. *)
Definition current_cr3_jit_state (cr3 hint : Z) (lanes : list LaneJitState) : option LaneJitState :=
  let scan := List.find (fun s => active_cr3 s =? cr3) lanes in
  match (if (0 <=? hint) && (hint <? Z.of_nat (length lanes)) then lanes !! Z.to_nat hint else None) with
  | Some s => if active_cr3 s =? cr3 then Some s else scan
  | None => scan
  end.

Inductive RoSrc := Contig (base_pa : Z) | FromMem.

Section Fault.
  Context {L : KernelLayout} {M CowPage : Type} {FM : FrameMem M CowPage}.
  Variable s : LaneJitState.

Definition page_no (page_va : Z) : Z := (page_va - mat_data_base s) / PAGE_BYTES.

Definition mem_source_pa (m : M) (page_va : Z) : option Z :=
  if negb (overlay_sink_set s) then None
  else
    match page_source m (page_no page_va) with
    | SrcPa pa => Some pa
    | SrcZero => if mat_zero_pa s =? 0 then None else Some (mat_zero_pa s)
    | SrcMissing => None
    end.

Definition overlay_has_page (m : M) (page_va : Z) : bool :=
  if negb (overlay_sink_set s) then false else overlay_has m (wrap 32 (page_no page_va)).

Definition with_heap (f : Faulting M) (h : Heap) (owned : list Z) : Faulting M :=
  mkFaulting (mkWorld h (w_pages (f_world f))) owned (f_mat f) (f_ro f) (f_mem f) (f_r15 f) (f_flushed f).

Definition with_ro (f : Faulting M) (ro : list Z) : Faulting M :=
  mkFaulting (f_world f) (f_owned f) (f_mat f) ro (f_mem f) (f_r15 f) (f_flushed f).

(** [pt_map_leaf] on the running frame's table. *)
Definition map_guest (f : Faulting M) (va pa : Z) (perm : Perm) : Res (Faulting M * option unit) :=
  let! (h, owned, r) := pt_map_leaf (w_heap (f_world f)) (active_pt_pml4_kva s) va pa perm (f_owned f) in
  Ret (with_heap f h owned, r).

Definition invlpg (f : Faulting M) (va : Z) : Faulting M :=
  mkFaulting (f_world f) (f_owned f) (f_mat f) (f_ro f) (f_mem f) (f_r15 f) (f_flushed f ++ [va]).

Definition cow_into_fresh (f : Faulting M) (page_va src_pa : Z) (flush : bool) : Res (Faulting M * bool) :=
  let^ src_kva := pa_to_va src_pa else (f, false) in
  let! src := expect (w_pages (f_world f) !! src_kva) in
  let! (w, r) := alloc_cow_page (f_world f) src in
  let f := mkFaulting w (f_owned f) (f_mat f) (f_ro f) (f_mem f) (f_r15 f) (f_flushed f) in
  let^ (page, new_pa) := r else (f, false) in
  let! (f, r) := map_guest f page_va new_pa user_rw in
  let^ _ := r else (f, false) in
  let f := if flush then invlpg f page_va else f in
  let mem := if overlay_sink_set s then commit_overlay_page (f_mem f) (wrap 32 (page_no page_va)) page else f_mem f in
  Ret (mkFaulting (f_world f) (f_owned f) (f_mat f) (f_ro f) mem (f_r15 f) (f_flushed f), true).

(** [binary_search] in a sorted vector and the insertion at its result. *)
Definition insert_unit (ub : Z) (l : list Z) : option (list Z) :=
  match binary_search_by (fun u => u ?= ub) l with
  | Ok _ => None
  | Err pos => Some (take pos l ++ ub :: drop pos l)
  end.

(** The loop that maps a unit, [n] rounds at most. *)
Fixpoint map_unit (n : nat) (f : Faulting M) (src : RoSrc) (r_start q hi : Z) : Res (Faulting M * option unit) :=
  match n with
  | O => Ret (f, Some tt)
  | S n' =>
      if q <? hi then
        let^ page_pa := (match src with
                         | Contig base_pa => Some (wrap 64 (base_pa + (q - r_start)))
                         | FromMem => mem_source_pa (f_mem f) q
                         end) else (f, None) in
        let! (f, r) := map_guest f q page_pa user_ro in
        let^ _ := r else (f, None) in
        map_unit n' f src r_start (q + PAGE_BYTES) hi
      else Ret (f, Some tt)
  end.

(** Pages in a 2 MiB cluster. *)
Definition UNIT_PAGES : nat := 512.

Definition materialize_ro_unit (f : Faulting M) (pv r_start r_end : Z) (src : RoSrc) : Res (Faulting M * option Z) :=
  let ub := unit_base (wrap 32 pv) (wrap 32 r_start) in
  match insert_unit ub (f_ro f) with
  | None => Ret (f, Some 0)
  | Some units =>
      let f := with_ro f units in
      let cluster_lo := Z.shiftl (Z.shiftr pv CLUSTER_SHIFT) CLUSTER_SHIFT in
      let cluster_hi := cluster_lo + Z.shiftl 1 CLUSTER_SHIFT in
      let lo := Z.max r_start cluster_lo in
      let hi := Z.min r_end cluster_hi in
      let! (f, r) := map_unit UNIT_PAGES f src r_start lo hi in
      Ret (f, option_map (fun _ => 0) r)
  end.

Definition in_code (pv : Z) : bool :=
  (mat_code_base s <? mat_code_top s) && (mat_code_base s <=? pv) && (pv <? mat_code_top s).
Definition in_data (pv : Z) : bool :=
  (mat_data_base s <? mat_mem_top s) && (mat_data_base s <=? pv) && (pv <? mat_mem_top s).

(** The first loop: every page lies in the region of the first and allows the
    access. *)
Definition accessible (base_in_code is_write : bool) (p : Z) : bool :=
  if base_in_code then negb is_write && in_code p
  else in_data p && negb (is_write && bool_decide (page_kind s p = PinnedCapRo)).

(** The read-only source a page belongs to. *)
Definition ro_range (p : Z) : option (Z * Z * RoSrc) :=
  if in_code p then Some (mat_code_base s, mat_code_top s, Contig (mat_code_pa s))
  else
    match mat_range_for s p with
    | Some r => if mr_kind r =? PageKind_as_u8 PinnedCapRo then Some (mr_start r, mr_end r, FromMem) else None
    | None => None
    end.

(** Entering a page state: page in, or copy on write. *)
Definition enter_state (f : Faulting M) (pv : Z) (cur next : PageState) : Res (Faulting M * bool) :=
  match next with
  | PresentRo =>
      if bool_decide (cur = NotPresent) then
        let^ src_pa := mem_source_pa (f_mem f) pv else (f, false) in
        let! (f, r) := map_guest f pv src_pa user_ro in
        Ret (f, match r with Some _ => true | None => false end)
      else Ret (f, true)
  | PresentRw =>
      if bool_decide (cur <> PresentRw) then
        let! (f, flipped) :=
          if overlay_has_page (f_mem f) pv then
            let! (h, b) := pt_set_leaf_w (w_heap (f_world f)) (active_pt_pml4_kva s) pv true in
            Ret (with_heap f h (f_owned f), b)
          else Ret (f, false) in
        if (flipped : bool) then Ret (invlpg f pv, true)
        else
          let flush := bool_decide (cur = PresentRo) in
          let^ src_pa := mem_source_pa (f_mem f) pv else (f, false) in
          cow_into_fresh f pv src_pa flush
      else Ret (f, true)
  | NotPresent => Ret (f, true)
  end.

(** One page of the second loop: the charge, or [None] for an early return. *)
Definition materialize_page (f : Faulting M) (p : Z) (is_write : bool) : Res (Faulting M * option Z) :=
  match ro_range p with
  | Some (r_start, r_end, src) => materialize_ro_unit f p r_start r_end src
  | None =>
      let idx := Z.to_nat (page_no p) in
      let! cur := expect ((if mat_state_set s then f_mat f else []) !! idx) in
      let cur := PageState_from_u8 cur in
      let^ r := mat_range_for s p else (f, None) in
      let kind := default PinnedCapRo (PageKind_from_u8 (mr_kind r)) in
      match charge_for cur kind is_write with
      | Err _ => Ret (f, None)
      | Ok (charge, next) =>
          let! (f, ok) := enter_state f p cur next in
          if negb ok then Ret (f, None)
          else
            let mat := <[idx := PageState_as_u8 next]> (f_mat f) in
            Ret (mkFaulting (f_world f) (f_owned f) mat (f_ro f) (f_mem f) (f_r15 f) (f_flushed f), Some charge)
      end
  end.

Fixpoint materialize_pages (f : Faulting M) (pages : list Z) (is_write : bool) (total : Z) : Res (Faulting M * option Z) :=
  match pages with
  | [] => Ret (f, Some total)
  | p :: pages' =>
      let! (f, r) := materialize_page f p is_write in
      let^ c := r else (f, None) in
      materialize_pages f pages' is_write (saturating_add 64 total c)
  end.

(** Without a published set of units a local one is used. *)
Definition try_materialize (f : Faulting M) (gva width : Z) (is_write : bool) : Res (Faulting M * bool) :=
  if (active_pt_pml4_kva s =? 0) || negb (owned_vec_set s) then Ret (f, false)
  else
    let set := as_slice (access_pages (wrap 32 gva) width) in
    let! base := expect (head set) in
    let base_in_code := in_code base in
    if negb base_in_code && negb (in_data base) then Ret (f, false)
    else if negb (forallb (accessible base_in_code is_write) set) then Ret (f, false)
    else
      let scratch := f_ro f in
      let! (f, r) := materialize_pages (if ro_units_set s then f else with_ro f []) set is_write 0 in
      let f := if ro_units_set s then f else with_ro f scratch in
      let^ total := r else (f, false) in
      Ret (mkFaulting (f_world f) (f_owned f) (f_mat f) (f_ro f) (f_mem f)
             (wrapping_sub 64 (f_r15 f) total) (f_flushed f), true).

(** [jit_pf_handler] once the lane is found: the saved instruction pointer and
    error code, the faulting address; the result is the state, the exit fields,
    the instruction pointer to resume at, and whether the fault was handled. *)
Definition jit_pf_handler (f : Faulting M) (jc : JitExit) (saved_rip error_code gva : Z) :
  Res (Faulting M * JitExit * Z * bool) :=
  if (jit_code_len s =? 0) || (saved_rip <? jit_code_base s)
     || (wrapping_add 64 (jit_code_base s) (jit_code_len s) <=? saved_rip) then Ret (f, jc, saved_rip, false)
  else
    let '(pvm_pc, width) := trap_lookup s (wrap 32 (saved_rip - jit_code_base s)) in
    let is_write := negb (Z.land error_code 0x2 =? 0) in
    let! (f, ok) := if negb (width =? 0) then try_materialize f gva width is_write else Ret (f, false) in
    if (ok : bool) then Ret (f, jc, saved_rip, true)
    else Ret (f, mkJitExit 3 (wrap 32 gva) pvm_pc, exit_label_va s, true).

(** [rearm_cow]: the leaves of the private pages lose their write bit. *)
Definition rearm_cow (h : Heap) (pml4 : Z) (overlay : list Z) : Res Heap :=
  fold_left (fun acc idx =>
    let! h := acc in
    let! (h, _) := pt_set_leaf_w h pml4 (wrap 64 (mat_data_base s + idx * PAGE_BYTES)) false in
    Ret h) overlay (Ret h).
End Fault.
