(* ===== verification/FaultFacts.v ===== *)
(** * Demand paging: theorems

    The invariant of a running frame's page table, page states and memory, kept
    by the fault handler, and what one guest access does: it ends, charges what
    the interpreter charges, and never makes a shared page writable. *)

From stdpp Require Import gmap.
From S2P Require Import Prelude MachineInt Engine GasConst Mat Mem Mmu Paging PagingFacts PagingMap Fault.
From S2P Require Import Prelude MachineInt OrdMap Engine GasConst Mat Mem Mmu Paging PagingFacts PagingMap Fault.
#[local] Open Scope Z_scope.

(** ** Guest pages *)

Definition gp (p : Z) : Prop := 0 <= p < 2 ^ 39 /\ p mod PAGE_BYTES = 0.

Lemma va_idx_arith sh va : 0 <= sh -> va_idx sh va = (va / 2 ^ sh) mod 512.
Proof. intros. unfold va_idx. change 0x1FF with (Z.ones 9). by rewrite Z.land_ones, Z.shiftr_div_pow2 by lia. Qed.

Lemma gp_slot p : 0 <= p < 2 ^ 39 -> va_idx 39 p = 0.
Proof. intros. rewrite va_idx_arith by lia. by rewrite Z.div_small by lia. Qed.

Lemma vpn_inj p q : gp p -> gp q -> vpn p = vpn q -> p = q.
Proof.
  unfold gp, PAGE_BYTES. intros [Hp Ap] [Hq Aq]. unfold vpn. rewrite !va_idx_arith by lia. intros [= _ E3 E2 E1].
  change (2 ^ 39) with 549755813888 in *. change (2 ^ 30) with 1073741824 in *. change (2 ^ 21) with 2097152 in *. change (2 ^ 12) with 4096 in *.
  dlia.
Qed.

Section Laws.
  Context {L : KernelLayout} {M CowPage : Type} {FM : FrameMem M CowPage}.

(** ** What a frame's memory promises the handler *)

(** The [n] pages of the memory are there: each has a source, and the source's
    bytes are a page of the heap. *)
Definition src_ready (w : World) (zero : Z) (src : PageSource) : Prop :=
  exists pa kva bytes, (src = SrcPa pa \/ (src = SrcZero /\ pa = zero)) /\ pa_to_va pa = Some kva /\
    w_pages w !! kva = Some bytes /\ Z.of_nat (length bytes) = PAGE_BYTES.

Definition mem_ready (w : World) (zero : Z) (m : M) (n : Z) : Prop := forall i, 0 <= i < n -> src_ready w zero (page_source m i).

(** A committed copy becomes the page's source, and only that page's. *)
Definition commits (size : M -> Z) (pg : CowPage) (pa : Z) : Prop :=
  forall m i, 0 <= i < size m ->
    let m' := commit_overlay_page m i pg in
    size m' = size m /\ page_source m' i = SrcPa pa /\ overlay_has m' i = true /\
    forall j, 0 <= j -> j <> i -> page_source m' j = page_source m j /\ overlay_has m' j = overlay_has m j.

Class FrameMemLaws : Type := {
  fm_pages : M -> Z;
  fm_alloc : forall w src va f, free (w_heap w) = Some va :: f -> addr_ok va -> Z.of_nat (length src) = PAGE_BYTES ->
    exists pg pa, va_to_pa va = Some pa /\ commits fm_pages pg pa /\
      alloc_cow_page w src = Ret (mkWorld (mkHeap (tables (w_heap w)) f) (<[va := src]> (w_pages w)), Some (pg, pa)) }.
End Laws.
Arguments FrameMemLaws {L} M {CowPage FM}.

(** ** The invariant *)

Section Inv.
  Context {L : KernelLayout} {M CowPage : Type} {FM : FrameMem M CowPage} {FL : FrameMemLaws M}.
  Variable s : LaneJitState.

Definition npages : Z := (mat_mem_top s - mat_data_base s) / PAGE_BYTES.

(** What [enter_frame] publishes: aligned regions in the 32-bit space, code below
    data, every data page in a range, and each pinned range taken first. *)
Record lane_ok : Prop := {
  lk_set : active_pt_pml4_kva s <> 0 /\ owned_vec_set s = true /\ overlay_sink_set s = true /\ mat_state_set s = true /\ ro_units_set s = true;
  lk_data : 0 <= mat_data_base s <= mat_mem_top s /\ mat_mem_top s <= 2 ^ 32 /\
            mat_data_base s mod PAGE_BYTES = 0 /\ mat_mem_top s mod PAGE_BYTES = 0;
  lk_code : 0 < mat_code_base s /\ mat_code_top s <= mat_data_base s /\
            mat_code_base s mod PAGE_BYTES = 0 /\ mat_code_top s mod PAGE_BYTES = 0;
  lk_zero : mat_zero_pa s <> 0;
  lk_cover : forall p, in_data s p = true -> exists r k, mat_range_for s p = Some r /\ PageKind_from_u8 (mr_kind r) = Some k;
  lk_pinned : forall r, In r (mat_ranges s) -> mr_kind r = PageKind_as_u8 PinnedCapRo ->
    mr_start r mod PAGE_BYTES = 0 /\ mr_end r mod PAGE_BYTES = 0 /\ mat_data_base s <= mr_start r /\ mr_end r <= mat_mem_top s /\
    forall q, mr_start r <= q < mr_end r -> mat_range_for s q = Some r }.

Definition heap_of (f : Faulting M) : Heap := w_heap (f_world f).

(** The translation of a guest page. *)
Definition view (f : Faulting M) (p : Z) : option Xlat := xlate (heap_of f) (active_pt_pml4_kva s) p.

Definition state_of (f : Faulting M) (p : Z) : PageState :=
  PageState_from_u8 (default 0 (f_mat f !! Z.to_nat (page_no s p))).

(** A page the guest may write. *)
Definition rw_page (p : Z) : Prop := in_data s p = true /\ page_kind s p <> PinnedCapRo.

Record fault_inv (f : Faulting M) : Prop := {
  fi_pt : pt_ok (heap_of f) (active_pt_pml4_kva s) (f_owned f);
  fi_fresh : forall va, future (heap_of f) va -> w_pages (f_world f) !! va = None;
  fi_mem : fm_pages (f_mem f) = npages /\ mem_ready (f_world f) (mat_zero_pa s) (f_mem f) npages;
  fi_overlay : forall i, 0 <= i < npages -> overlay_has (f_mem f) i = true -> exists pa, page_source (f_mem f) i = SrcPa pa;
  fi_mat : Z.of_nat (length (f_mat f)) = npages;
  fi_unmapped : forall p, gp p -> in_code s p = false -> in_data s p = false -> view f p = None;
  fi_user : forall p x, gp p -> view f p = Some x -> x_user x = true /\ x_exec x = false;
  fi_ro : forall p x, gp p -> ~ rw_page p -> view f p = Some x -> x_write x = false;
  fi_state : forall p, gp p -> rw_page p ->
    match view f p with
    | None => state_of f p = NotPresent
    | Some x => if x_write x then state_of f p = PresentRw else state_of f p <> PresentRw
    end;
  fi_units : forall p rs re src, gp p -> ro_range s p = Some (rs, re, src) -> In (unit_base p rs) (f_ro f) -> is_Some (view f p);
  fi_private : forall p x, gp p -> rw_page p -> view f p = Some x -> 
    (x_write x = true -> overlay_has (f_mem f) (page_no s p) = true) /\
    (overlay_has (f_mem f) (page_no s p) = true -> exists pa, page_source (f_mem f) (page_no s p) = SrcPa pa /\ x_pa x = Z.land pa PA_MASK) }.

(** ** Page arithmetic *)

Hypothesis LK : lane_ok.

Lemma in_data_iff p : in_data s p = true <-> mat_data_base s <= p < mat_mem_top s.
Proof. unfold in_data. rewrite !andb_true_iff, !Z.leb_le, !Z.ltb_lt. lia. Qed.

Lemma in_code_iff p : in_code s p = true <-> mat_code_base s <= p < mat_code_top s.
Proof. unfold in_code. rewrite !andb_true_iff, !Z.leb_le, !Z.ltb_lt. lia. Qed.

Lemma data_not_code p : in_data s p = true -> in_code s p = false.
Proof.
  rewrite in_data_iff. intros H. apply not_true_iff_false. rewrite in_code_iff. destruct LK as [_ _ Lc _ _ _]. lia.
Qed.

Lemma page_no_range p : in_data s p = true -> 0 <= page_no s p < npages.
Proof.
  rewrite in_data_iff. intros H. unfold page_no, npages. destruct LK as [_ (Ld1 & Ld2 & Ld3 & Ld4) _ _ _ _]. unfold PAGE_BYTES in *. dlia.
Qed.

Lemma page_no_u32 p : in_data s p = true -> wrap 32 (page_no s p) = page_no s p.
Proof.
  intros H. pose proof (page_no_range p H) as R. apply wrap_small. destruct LK as [_ (Ld1 & Ld2 & Ld3 & Ld4) _ _ _ _].
  unfold is_u, npages, PAGE_BYTES in *. dlia.
Qed.

Lemma page_no_inj p q : gp p -> gp q -> in_data s p = true -> in_data s q = true -> page_no s p = page_no s q -> p = q.
Proof.
  unfold gp. rewrite !in_data_iff. intros [_ Ap] [_ Aq] Hp Hq. unfold page_no.
  destruct LK as [_ (Ld1 & Ld2 & Ld3 & Ld4) _ _ _ _]. unfold PAGE_BYTES in *. dlia.
Qed.

(** A data page is either pinned, with its range as read-only source, or
    writable. *)
Lemma data_cases p : in_data s p = true ->
  (exists r, mat_range_for s p = Some r /\ In r (mat_ranges s) /\ mr_start r <= p < mr_end r /\ mr_kind r = PageKind_as_u8 PinnedCapRo /\
     ro_range s p = Some (mr_start r, mr_end r, FromMem) /\ page_kind s p = PinnedCapRo) \/
  (rw_page p /\ ro_range s p = None /\ exists r k, mat_range_for s p = Some r /\ PageKind_from_u8 (mr_kind r) = Some k /\ k <> PinnedCapRo).
Proof.
  intros H. destruct (lk_cover LK p H) as (r & k & Er & Ek).
  assert (In r (mat_ranges s) /\ mr_start r <= p < mr_end r) as [I B].
  { unfold mat_range_for in Er. apply List.find_some in Er as [I B]. apply andb_true_iff in B as [B1 B2]. split; [done|lia]. }
  unfold rw_page, ro_range, page_kind. rewrite (data_not_code p H), Er, Ek. change (default PinnedCapRo (Some k)) with k.
  destruct (Z.eqb_spec (mr_kind r) (PageKind_as_u8 PinnedCapRo)) as [E0|N0].
  - left. exists r. rewrite E0 in Ek. injection Ek as <-. split_and!; (done || lia).
  - right. assert (Nk : k <> PinnedCapRo).
    { intros ->. apply N0. unfold PageKind_from_u8 in Ek. destruct (mr_kind r) as [|q|q]; try done. repeat (destruct q as [q|q|]; try done). }
    split; [done|]. split; [done|]. by exists r, k.
Qed.

(** ** Mapping a guest page *)

Lemma map_guest_ok f p pa perm n : fault_inv f -> gp p -> enough (3 + n) (heap_of f) ->
  exists h' owned', map_guest s f p pa perm = Ret (with_heap f h' owned', Some tt) /\
    pt_ok h' (active_pt_pml4_kva s) owned' /\ enough n h' /\ (forall va, future h' va -> future (heap_of f) va) /\
    forall q, gp q -> xlate h' (active_pt_pml4_kva s) q = if bool_decide (q = p) then Some (leaf_xlat pa perm) else view f q.
Proof.
  intros I G En. unfold map_guest, pt_map_leaf.
  destruct (walk_alloc_ok ensure_inner_recorded (heap_of f) (active_pt_pml4_kva s) (f_owned f) p pa perm ensure_inner_recorded_ok
              (fi_pt _ I) (gp_slot p (proj1 G))) as (h' & o' & r & E & Mp & Ee & X).
  unfold heap_of in E. rewrite E. cbn [res_bind]. destruct (Ee n En) as [En' ->]. exists h', o'. split; [done|].
  split; [apply Mp|]. split; [done|]. split; [apply Mp|]. intros q Gq. rewrite X. unfold view.
  destruct (decide (q = p)) as [->|N]; [by rewrite !bool_decide_true|].
  rewrite (bool_decide_false (q = p)), bool_decide_false; [done| |done]. intros [_ Ev]. apply N. by apply vpn_inj.
Qed.

(** The permissions a page grants the guest. *)
Definition allowed (f : Faulting M) (is_write : bool) (p : Z) : bool :=
  match view f p with Some x => user_ok is_write x | None => false end.

(** [f'] grants at least what [f] grants. *)
Definition grants_more (f f' : Faulting M) : Prop := forall w q, gp q -> allowed f w q = true -> allowed f' w q = true.

(** Mapping a page that is not writable, read-only. *)
Lemma map_ro_ok f p pa n : fault_inv f -> gp p -> ~ rw_page p -> in_code s p = true \/ in_data s p = true ->
  enough (3 + n) (heap_of f) ->
  exists f', map_guest s f p pa user_ro = Ret (f', Some tt) /\ fault_inv f' /\ enough n (heap_of f') /\
    f_mat f' = f_mat f /\ f_ro f' = f_ro f /\ f_mem f' = f_mem f /\ f_r15 f' = f_r15 f /\ f_world f' = mkWorld (heap_of f') (w_pages (f_world f)) /\
    forall q, gp q -> view f' q = if bool_decide (q = p) then Some (leaf_xlat pa user_ro) else view f q.
Proof.
  intros I G Nr Reg En. destruct (map_guest_ok f p pa user_ro n I G En) as (h' & o' & E & P' & En' & U & X).
  exists (with_heap f h' o'). split; [done|]. assert (V : forall q, gp q -> view (with_heap f h' o') q = if bool_decide (q = p) then Some (leaf_xlat pa user_ro) else view f q) by done.
  split; [|by split_and!]. destruct I. constructor; try done.
  - intros va F. by apply fi_fresh0, U.
  - intros q Gq Nc Nd. rewrite V by done. rewrite bool_decide_false; [by apply fi_unmapped0|]. intros ->. destruct Reg; congruence.
  - intros q x Gq. rewrite V by done. case_bool_decide; [|by apply fi_user0]. by intros [= <-].
  - intros q x Gq Nq. rewrite V by done. case_bool_decide; [|by apply fi_ro0]. by intros [= <-].
  - intros q Gq Rq. rewrite V by done. rewrite bool_decide_false by (by intros ->). by apply fi_state0.
  - intros q rs re src Gq Eq Iq. rewrite V by done. case_bool_decide; [done|]. by eapply fi_units0.
  - intros q x Gq Rq. rewrite V by done. rewrite bool_decide_false by (by intros ->). by apply fi_private0.
Qed.

Lemma ro_grants f f' p pa : fault_inv f -> gp p -> ~ rw_page p ->
  (forall q, gp q -> view f' q = if bool_decide (q = p) then Some (leaf_xlat pa user_ro) else view f q) -> grants_more f f'.
Proof.
  intros I G Nr V w q Gq. unfold allowed. rewrite V by done. case_bool_decide as C; [|done]. subst q.
  destruct (view f p) as [x|] eqn:Ex; [|done]. pose proof (fi_ro _ I p x G Nr Ex) as W. unfold user_ok. rewrite W. cbn.
  destruct w; [|done]. by rewrite andb_false_r.
Qed.

(** *** A read-only unit *)

Lemma map_unit_ro n f u src r_start q hi :
  map_unit s n (with_ro f u) src r_start q hi = let! (f', r) := map_unit s n f src r_start q hi in Ret (with_ro f' u, r).
Proof.
  revert f q. induction n as [|n IH]; intros f q; [done|]. cbn [map_unit]. destruct (q <? hi); [|done].
  change (f_mem (with_ro f u)) with (f_mem f).
  destruct (match src with Contig base_pa => _ | FromMem => _ end) as [pa|]; [|done].
  unfold map_guest. change (f_world (with_ro f u)) with (f_world f). change (f_owned (with_ro f u)) with (f_owned f).
  destruct (pt_map_leaf _ _ _ _ _ _) as [[[h o] r]|]; [|done]. cbn [res_bind].
  destruct r; [|done]. change (with_heap (with_ro f u) h o) with (with_ro (with_heap f h o) u). apply IH.
Qed.

(** The pages [q, hi) of a unit, all read-only and with a source. *)
Definition unit_pages (src : RoSrc) (q hi : Z) : Prop :=
  q mod PAGE_BYTES = 0 /\ hi mod PAGE_BYTES = 0 /\ 0 <= q /\ hi <= 2 ^ 39 /\
  forall p, gp p -> q <= p < hi -> ~ rw_page p /\ (in_code s p = true \/ in_data s p = true) /\ (src = FromMem -> in_data s p = true).

Lemma src_of f p : fault_inv f -> in_data s p = true -> exists pa kva bytes, mem_source_pa s (f_mem f) p = Some pa /\
  pa_to_va pa = Some kva /\ w_pages (f_world f) !! kva = Some bytes /\ Z.of_nat (length bytes) = PAGE_BYTES /\
  (overlay_has (f_mem f) (page_no s p) = true -> page_source (f_mem f) (page_no s p) <> SrcZero -> page_source (f_mem f) (page_no s p) = SrcPa pa).
Proof.
  intros I D. destruct (proj2 (fi_mem _ I) (page_no s p) (page_no_range p D)) as (pa & kva & bytes & Sp & Bk & Wp & Ln).
  exists pa, kva, bytes. split; [|split_and!; try done; intros _ Nz; by destruct Sp as [?|[? _]]].
  unfold mem_source_pa. destruct (lk_set LK) as (_ & _ & -> & _). cbn [negb].
  destruct Sp as [->|[-> ->]]; [done|]. destruct (Z.eqb_spec (mat_zero_pa s) 0) as [Z0|]; [|done]. by destruct (lk_zero LK).
Qed.

Lemma map_unit_ok n f src r_start q hi k :
  fault_inv f -> unit_pages src q hi -> hi - q <= Z.of_nat n * PAGE_BYTES -> enough (3 * n + k) (heap_of f) ->
  exists f', map_unit s n f src r_start q hi = Ret (f', Some tt) /\ fault_inv f' /\ enough k (heap_of f') /\
    f_mat f' = f_mat f /\ f_ro f' = f_ro f /\ f_mem f' = f_mem f /\ f_r15 f' = f_r15 f /\ grants_more f f' /\
    forall p, gp p -> if (q <=? p) && (p <? hi) then is_Some (view f' p) else view f' p = view f p.
Proof.
  revert f q. induction n as [|n IH]; intros f q I U Hn En.
  - exists f. cbn [map_unit]. split_and!; try done; [by intros ? ? ?|]. intros p Gp.
    destruct (Z.leb_spec q p), (Z.ltb_spec p hi); cbn [andb]; try done. lia.
  - cbn [map_unit]. destruct (Z.ltb_spec q hi) as [Hq|Hq]; last first.
    { exists f. split_and!; try done.
      - destruct En as [E1 E2]. split; [lia|]. apply (Forall_take _ k) in E2. by rewrite take_take, Nat.min_l in E2 by lia.
      - by intros ? ? ?.
      - intros p Gp. destruct (Z.leb_spec q p), (Z.ltb_spec p hi); cbn [andb]; try done. lia. }
    pose proof U as (Aq & Ah & Q0 & Hh & Up). assert (Gq : gp q) by (split; [lia|done]).
    destruct (Up q Gq ltac:(lia)) as (Nr & Reg & Dm).
    assert (exists pa, (match src with Contig base_pa => Some (wrap 64 (base_pa + (q - r_start))) | FromMem => mem_source_pa s (f_mem f) q end) = Some pa) as [pa ->].
    { destruct src; [eauto|]. destruct (src_of f q I (Dm eq_refl)) as (pa & ? & ? & -> & _). eauto. }
    destruct (map_ro_ok f q pa (3 * n + k) I Gq Nr Reg) as (f1 & E1 & I1 & En1 & M1 & R1 & Me1 & G1 & _ & V1);
      [by replace (3 + (3 * n + k))%nat with (3 * S n + k)%nat by lia|].
    rewrite E1. cbn [res_bind]. unfold PAGE_BYTES in *.
    destruct (IH f1 (q + 4096)) as (f' & E' & I' & En' & M' & R' & Me' & G' & Gr' & V'); [done| |lia|done|].
    { unfold unit_pages, PAGE_BYTES. split_and!; [dlia|done|lia|lia|]. intros p Gp Hp. apply Up; [done|lia]. }
    exists f'. split; [done|]. split_and!; try congruence; try done.
    + intros w p Gp A. apply Gr'; [done|]. by eapply (ro_grants f f1 q pa).
    + intros p Gp. specialize (V' p Gp). rewrite V1 in V' by done. destruct Gp as [Rp Ap]. unfold PAGE_BYTES in Ap.
      destruct (Z.leb_spec q p), (Z.ltb_spec p hi), (Z.leb_spec (q + 4096) p); cbn [andb] in *; try done; try lia.
      * assert (p = q) as -> by dlia. rewrite bool_decide_true in V' by done. by rewrite V'.
      * rewrite bool_decide_false in V' by lia. done.
      * rewrite bool_decide_false in V' by lia. done.
      * rewrite bool_decide_false in V' by lia. done.
Qed.

Lemma insert_unit_spec ub l :
  match insert_unit ub l with None => In ub l | Some l' => forall x, In x l' <-> x = ub \/ In x l end.
Proof.
  unfold insert_unit. destruct (binary_search_by _ l) as [i|p] eqn:E.
  - apply binary_search_by_Ok in E as (x & Ex & ->%Z.compare_eq). by eapply list_elem_of_In, list_elem_of_lookup_2.
  - intros x. rewrite in_app_iff. cbn [In]. rewrite <- (firstn_skipn p l) at 3. rewrite in_app_iff. naive_solver.
Qed.

(** The region of a read-only page. *)
Lemma ro_region p rs re src : ro_range s p = Some (rs, re, src) -> in_code s p = true \/ in_data s p = true ->
  rs <= p < re /\ 0 <= rs /\ re <= 2 ^ 32 /\ rs mod PAGE_BYTES = 0 /\ re mod PAGE_BYTES = 0 /\
  (forall q, rs <= q < re -> ro_range s q = Some (rs, re, src) /\ ~ rw_page q /\
     (in_code s q = true \/ in_data s q = true) /\ (src = FromMem -> in_data s q = true)).
Proof.
  intros E Reg. destruct LK as [_ (D1 & D2 & D3 & D4) (C1 & C2 & C3 & C4) _ _ Pin]. destruct (in_code s p) eqn:C.
  - unfold ro_range in E. rewrite C in E. injection E as <- <- <-. pose proof (proj1 (in_code_iff p) C). split_and!; try done; try lia.
    intros q Hq. assert (Cq : in_code s q = true) by (by apply in_code_iff).
    split_and!; [unfold ro_range; by rewrite Cq| |by left|done]. intros [Dq _]. apply data_not_code in Dq. congruence.
  - destruct Reg as [|D]; [done|]. destruct (data_cases p D) as [(r & Er & Ir & Br & Kr & Ero & _)|(_ & N & _)]; [|congruence].
    rewrite Ero in E. injection E as <- <- <-. destruct (Pin r Ir Kr) as (A1 & A2 & B1 & B2 & All). split_and!; try done; try lia.
    intros q Hq. assert (Dq : in_data s q = true) by (apply in_data_iff; lia). pose proof (All q Hq) as Eq.
    split_and!; [| |by right|done].
    + unfold ro_range. by rewrite (data_not_code q Dq), Eq, Kr.
    + intros [_ Nk]. apply Nk. unfold page_kind. by rewrite Eq, Kr.
Qed.

Lemma ro_unit_same p p' rs re src rs' re' src' :
  ro_range s p = Some (rs, re, src) -> ro_range s p' = Some (rs', re', src') ->
  in_code s p = true \/ in_data s p = true -> in_code s p' = true \/ in_data s p' = true ->
  unit_base p rs = unit_base p' rs' -> rs' = rs /\ re' = re /\ cluster_of p' = cluster_of p.
Proof.
  intros E E' R R' U. destruct (ro_region p rs re src E R) as (B & B0 & B1 & _ & _ & All).
  destruct (ro_region p' rs' re' src' E' R') as (B' & B0' & B1' & _ & _ & All').
  assert (Dis : (rs = rs' /\ re = re') \/ re <= rs' \/ re' <= rs).
  { destruct (Z.le_gt_cases re rs'); [auto|]. destruct (Z.le_gt_cases re' rs); [auto|]. left.
    destruct (All (Z.max rs rs') ltac:(lia)) as [H1 _]. destruct (All' (Z.max rs rs') ltac:(lia)) as [H2 _].
    rewrite H1 in H2. injection H2 as -> -> _. done. }
  apply (unit_base_names_cap_and_cluster p p' rs re rs' re') in U as [-> C]; unfold is_u; lia.
Qed.

(** [materialize_ro_unit]: the page is mapped, nothing is charged, and nothing
    that was granted is lost. *)
Lemma materialize_ro_ok f p rs re src k :
  fault_inv f -> gp p -> ro_range s p = Some (rs, re, src) -> in_code s p = true \/ in_data s p = true ->
  enough (3 * UNIT_PAGES + k) (heap_of f) ->
  exists f', materialize_ro_unit s f p rs re src = Ret (f', Some 0) /\ fault_inv f' /\ enough k (heap_of f') /\
    f_mat f' = f_mat f /\ f_mem f' = f_mem f /\ f_r15 f' = f_r15 f /\ grants_more f f' /\ is_Some (view f' p).
Proof.
  intros I G E Reg En. destruct (ro_region p rs re src E Reg) as (B & B0 & B1 & A1 & A2 & All). unfold materialize_ro_unit.
  rewrite !wrap_small by (unfold is_u; lia). pose proof (insert_unit_spec (unit_base p rs) (f_ro f)) as Iu.
  destruct (insert_unit (unit_base p rs) (f_ro f)) as [units|]; last first.
  { exists f. split_and!; try done; [|by intros ? ? ?|by eapply fi_units].
    destruct En as [E1 E2]. split; [lia|]. apply (Forall_take _ k) in E2. by rewrite take_take, Nat.min_l in E2 by lia. }
  set (lo := Z.max rs _). set (hi := Z.min re _).
  assert (Ecl : Z.shiftl (Z.shiftr p CLUSTER_SHIFT) CLUSTER_SHIFT = p - p mod 2097152).
  { unfold CLUSTER_SHIFT. rewrite Z.shiftl_mul_pow2, Z.shiftr_div_pow2 by lia. change (2 ^ 21) with 2097152. dlia. }
  assert (Elo : lo = Z.max rs (p - p mod 2097152)) by (subst lo; by rewrite Ecl).
  assert (Ehi : hi = Z.min re (p - p mod 2097152 + 2097152)) by (subst hi; by rewrite Ecl).
  assert (U : unit_pages src lo hi).
  { unfold PAGE_BYTES in *. split_and!; [unfold PAGE_BYTES; dlia|unfold PAGE_BYTES; dlia|dlia|lia|]. intros q Gq Hq. apply All. lia. }
  rewrite map_unit_ro. destruct (map_unit_ok UNIT_PAGES f src rs lo hi k I U) as (f' & -> & I' & En' & M' & R' & Me' & G15 & Gr & V');
    [unfold UNIT_PAGES, PAGE_BYTES; lia|done|].
  exists (with_ro f' units). split; [done|].
  assert (Vp : is_Some (view f' p)). { specialize (V' p G). rewrite (proj2 (Z.leb_le lo p)), (proj2 (Z.ltb_lt p hi)) in V' by dlia. done. }
  split; [|by split_and!]. destruct I'. constructor; try done.
  intros q rs' re' src' Gq Eq Iq. change (view (with_ro f' units) q) with (view f' q). apply Iu in Iq as [Eu|Iq].
  - assert (Rq : in_code s q = true \/ in_data s q = true).
    { unfold ro_range in Eq. destruct (in_code s q); [by left|right]. destruct (mat_range_for s q) as [r|] eqn:Er; [|done].
      unfold mat_range_for in Er. apply List.find_some in Er as [Ir Br]. destruct (Z.eqb_spec (mr_kind r) (PageKind_as_u8 PinnedCapRo)) as [Kr|]; [|done].
      destruct (lk_pinned LK r Ir Kr) as (_ & _ & ? & ? & _). apply in_data_iff. lia. }
    destruct (ro_unit_same p q rs re src rs' re' src' E Eq Reg Rq (eq_sym Eu)) as (-> & -> & Cl).
    destruct (ro_region q rs re src' Eq Rq) as (Bq & _). specialize (V' q Gq).
    unfold cluster_of, CLUSTER_SHIFT in Cl. rewrite !Z.shiftr_div_pow2 in Cl by lia. change (2 ^ 21) with 2097152 in Cl.
    rewrite (proj2 (Z.leb_le lo q)), (proj2 (Z.ltb_lt q hi)) in V' by dlia. done.
  - apply (fi_units0 q rs' re' src'); [done|done|]. by rewrite R'.
Qed.

(** ** A writable page changes state *)

Lemma inv_update f f' p x' st :
  fault_inv f -> gp p -> rw_page p ->
  pt_ok (heap_of f') (active_pt_pml4_kva s) (f_owned f') ->
  (forall va, future (heap_of f') va -> w_pages (f_world f') !! va = None) ->
  fm_pages (f_mem f') = npages /\ mem_ready (f_world f') (mat_zero_pa s) (f_mem f') npages ->
  (forall j, 0 <= j -> j <> page_no s p ->
     page_source (f_mem f') j = page_source (f_mem f) j /\ overlay_has (f_mem f') j = overlay_has (f_mem f) j) ->
  f_mat f' = <[Z.to_nat (page_no s p) := PageState_as_u8 st]> (f_mat f) -> f_ro f' = f_ro f ->
  (forall q, gp q -> view f' q = if bool_decide (q = p) then Some x' else view f q) ->
  x_user x' = true /\ x_exec x' = false -> (if x_write x' then st = PresentRw else st <> PresentRw) ->
  (x_write x' = true -> overlay_has (f_mem f') (page_no s p) = true) ->
  (overlay_has (f_mem f') (page_no s p) = true -> exists pa, page_source (f_mem f') (page_no s p) = SrcPa pa /\ x_pa x' = Z.land pa PA_MASK) ->
  fault_inv f'.
Proof.
  intros I G R P' Fr Me Oth Ma Ro V Us St Pw Pa. pose proof R as [Dp _]. pose proof (page_no_range p Dp) as Np.
  assert (So : forall q, gp q -> in_data s q = true -> q <> p -> state_of f' q = state_of f q).
  { intros q Gq Dq Nq. unfold state_of. rewrite Ma, list_lookup_insert_ne; [done|]. intros E. apply Nq.
    apply page_no_inj; try done. pose proof (page_no_range q Dq). lia. }
  constructor; try done.
  - intros j Hj H. destruct (Z.eq_dec j (page_no s p)) as [->|Nj]; [destruct (Pa H) as (pa & E & _); eauto|].
    destruct (Oth j) as [E1 E2]; [lia|done|]. rewrite E1. apply (fi_overlay _ I j Hj). by rewrite <- E2.
  - rewrite Ma, length_insert. by apply I.
  - intros q Gq Nc Nd. rewrite V by done. rewrite bool_decide_false; [by apply I|]. intros ->. congruence.
  - intros q x Gq. rewrite V by done. case_bool_decide; [|by apply I]. by intros [= <-].
  - intros q x Gq Nq. rewrite V by done. rewrite bool_decide_false by (by intros ->). by apply I.
  - intros q Gq Rq. rewrite V by done. case_bool_decide as C; [|rewrite So by (done || apply Rq); by apply I].
    subst q. assert (Es : state_of f' p = st).
    { unfold state_of. rewrite Ma, list_lookup_insert_eq by (pose proof (fi_mat _ I); lia). cbn. apply PageState_u8_roundtrip. }
    rewrite Es. by destruct (x_write x').
  - intros q rs re src Gq Eq Iq. rewrite V by done. case_bool_decide; [done|]. rewrite Ro in Iq. by eapply I.
  - intros q x Gq Rq. rewrite V by done. case_bool_decide as C; [subst q; by intros [= <-]|].
    assert (N : page_no s q <> page_no s p) by (intros E; apply C; apply page_no_inj; (done || apply Rq)).
    destruct (Oth (page_no s q)) as [-> ->]; [by apply page_no_range, Rq|done|]. by apply I.
Qed.

(** The frame with a new state for page [p], as the loop writes it. *)
Definition with_state (f : Faulting M) (p : Z) (st : PageState) : Faulting M :=
  mkFaulting (f_world f) (f_owned f) (<[Z.to_nat (page_no s p) := PageState_as_u8 st]> (f_mat f)) (f_ro f) (f_mem f) (f_r15 f) (f_flushed f).

(** Taking a page from the allocator. *)
Lemma pop_free h pml4 owned va fr : pt_ok h pml4 owned -> free h = Some va :: fr ->
  let h1 := mkHeap (tables h) fr in
  pt_ok h1 pml4 owned /\ addr_ok va /\ future h va /\ ~ future h1 va /\ (forall t, future h1 t -> future h t).
Proof.
  intros P E h1. destruct (po_fresh _ _ _ P) as [Nf Ff]. rewrite E in Nf. cbn in Nf. apply list.NoDup_cons in Nf as [Nva Nf].
  assert (Uv : future h va) by (unfold future; rewrite E; left). destruct (Ff va Uv) as [Aok Dead].
  assert (U : forall t, future h1 t -> future h t) by (intros t H; unfold future; rewrite E; by right).
  split_and!; try done; [|intros H; apply Nva; apply list_elem_of_omap; by exists (Some va)].
  apply (agree_pt_ok h h1); try done. intros t H. by apply Ff, U.
Qed.

Lemma charge_rw cur k w : k <> PinnedCapRo -> charge_for cur k w =
  Ok (if w && bool_decide (cur <> PresentRw) then COW_COST else 0,
      if w then PresentRw else match cur with NotPresent => PresentRo | c => c end).
Proof. intros N. unfold charge_for. rewrite (bool_decide_false (k = _)), andb_false_r by done. by destruct cur, w. Qed.

(** Pages in on a read, read-only. *)
Lemma page_in_ok f p k : fault_inv f -> gp p -> rw_page p -> state_of f p = NotPresent -> enough (3 + k) (heap_of f) ->
  exists f', enter_state s f p NotPresent PresentRo = Ret (f', true) /\ fault_inv (with_state f' p PresentRo) /\ enough k (heap_of f') /\
    f_r15 f' = f_r15 f /\ f_mat f' = f_mat f /\ (exists x, view f' p = Some x /\ x_user x = true) /\ (forall q, gp q -> q <> p -> view f' q = view f q).
Proof.
  intros I G R Sn En. pose proof R as [Dp _]. unfold enter_state. rewrite bool_decide_true by done.
  destruct (src_of f p I Dp) as (pa & kva & bytes & -> & Bk & Wp & Ln & Ov).
  destruct (map_guest_ok f p pa user_ro k I G En) as (h' & o' & -> & P' & En' & U & X). cbn [res_bind].
  exists (with_heap f h' o'). split; [done|].
  assert (V : forall q, gp q -> view (with_heap f h' o') q = if bool_decide (q = p) then Some (leaf_xlat pa user_ro) else view f q) by done.
  split; [|split_and!; try done].
  - apply (inv_update f _ p (leaf_xlat pa user_ro) PresentRo); try done.
    + intros va F. by apply (fi_fresh _ I), U.
    + apply I.
    + intros H. exists pa. split; [|done]. apply Ov; [done|].
      destruct (fi_overlay _ I (page_no s p) (page_no_range p Dp) H) as (pa0 & E0). by rewrite E0.
  - exists (leaf_xlat pa user_ro). split; [|done]. by rewrite V, bool_decide_true.
  - intros q Gq Nq. by rewrite V, bool_decide_false.
Qed.

(** The frame after the allocator handed out the page [va] with [bytes] in it. *)
Definition popped (f : Faulting M) (va : Z) (fr : list (option Z)) (bytes : list Z) : Faulting M :=
  mkFaulting (mkWorld (mkHeap (tables (heap_of f)) fr) (<[va := bytes]> (w_pages (f_world f))))
    (f_owned f) (f_mat f) (f_ro f) (f_mem f) (f_r15 f) (f_flushed f).

Lemma src_ready_more w va bytes zero src h : w_pages w !! va = None -> src_ready w zero src ->
  src_ready (mkWorld h (<[va := bytes]> (w_pages w))) zero src.
Proof.
  intros D (pa & kva & b & Sp & Bk & Wp & Ln). exists pa, kva, b. split_and!; try done. cbn.
  rewrite lookup_insert_ne; [done|]. intros <-. congruence.
Qed.

Lemma popped_view f va fr bytes q : view (popped f va fr bytes) q = view f q.
Proof. reflexivity. Qed.

Lemma popped_inv f va fr bytes : fault_inv f -> free (heap_of f) = Some va :: fr -> fault_inv (popped f va fr bytes).
Proof.
  intros I Ef. destruct (pop_free _ _ _ va fr (fi_pt _ I) Ef) as (P1 & Av & Uv & Nv & U1).
  pose proof (fi_fresh _ I va Uv) as Dv. pose proof (popped_view f va fr bytes) as V. destruct I.
  constructor; try done; try (intros q; rewrite V; by auto); try (intros q x; rewrite V; by auto).
  - intros t F. cbn. rewrite lookup_insert_ne by (by intros <-). by apply fi_fresh0, U1.
  - split; [apply fi_mem0|]. intros i Hi. by apply src_ready_more, fi_mem0.
Qed.

(** Copies on a write: the page becomes private and writable. *)
Lemma cow_ok f p flush k : fault_inv f -> gp p -> rw_page p -> enough (4 + k) (heap_of f) ->
  exists pa f', mem_source_pa s (f_mem f) p = Some pa /\ cow_into_fresh s f p pa flush = Ret (f', true) /\
    fault_inv (with_state f' p PresentRw) /\ enough k (heap_of f') /\ f_r15 f' = f_r15 f /\ f_mat f' = f_mat f /\
    (exists x, view f' p = Some x /\ x_user x = true /\ x_write x = true) /\ (forall q, gp q -> q <> p -> view f' q = view f q).
Proof.
  intros I G R En. pose proof R as [Dp _]. pose proof (page_no_range p Dp) as Np.
  destruct (src_of f p I Dp) as (pa & kva & bytes & Es & Bk & Wp & Ln & _). exists pa.
  assert (exists va fr, free (heap_of f) = Some va :: fr) as (va & fr & Ef).
  { destruct En as [E1 E2]. destruct (free (heap_of f)) as [|[va|] fr]; [cbn in E1; lia|eauto|]. apply Forall_inv in E2. by destruct E2. }
  destruct (pop_free _ _ _ va fr (fi_pt _ I) Ef) as (P1 & Av & Uv & Nv & U1).
  destruct (fm_alloc (f_world f) bytes va fr Ef Av Ln) as (pg & npa & Epa & Cm & Al).
  pose proof (popped_inv f va fr bytes I Ef) as I1. pose proof (popped_view f va fr bytes) as V1.
  unfold cow_into_fresh. rewrite Bk, Wp. cbn [expect res_bind]. rewrite Al. cbn [res_bind].
  change (map_guest s _ p npa user_rw) with (map_guest s (popped f va fr bytes) p npa user_rw). set (f1 := popped f va fr bytes) in *.
  destruct (map_guest_ok f1 p npa user_rw k I1 G) as (h' & o' & -> & P' & En' & U & X).
  { exact (enough_tail _ _ _ _ _ En Ef). }
  cbn [res_bind]. destruct (lk_set LK) as (_ & _ & -> & _). rewrite page_no_u32 by done.
  destruct (Cm (f_mem f) (page_no s p)) as (C1 & C2 & C3 & C4); [rewrite (proj1 (fi_mem _ I)); done|].
  eexists. split; [done|]. split; [reflexivity|].
  set (f2 := mkFaulting _ _ _ _ _ _ _).
  assert (V : forall q, gp q -> view f2 q = if bool_decide (q = p) then Some (leaf_xlat npa user_rw) else view f q).
  { intros q Gq. transitivity (xlate h' (active_pt_pml4_kva s) q); [by destruct flush|]. by rewrite X, V1. }
  assert (Hh : heap_of f2 = h') by (by destruct flush).
  assert (Em : f_mem f2 = commit_overlay_page (f_mem f) (page_no s p) pg) by (by destruct flush).
  split; [|split_and!; try (by destruct flush); try congruence].
  - apply (inv_update f _ p (leaf_xlat npa user_rw) PresentRw); try done; cbn -[PageState_as_u8 f2].
    + by destruct flush.
    + intros t F. change (heap_of (with_state f2 p PresentRw)) with (heap_of f2) in F. rewrite Hh in F.
      apply U in F. transitivity (w_pages (f_world f1) !! t); [by destruct flush|]. by apply I1.
    + change (f_mem (with_state f2 p PresentRw)) with (f_mem f2). rewrite Em.
      split; [by rewrite C1, (proj1 (fi_mem _ I))|]. intros i Hi.
      destruct (Z.eq_dec i (page_no s p)) as [Ei|Ni].
      * rewrite Ei, C2. destruct Av as (pa' & E1 & _ & E2). assert (pa' = npa) as -> by congruence.
        exists npa, va, bytes. split_and!; [by left|done| |done]; transitivity (<[va := bytes]> (w_pages (f_world f)) !! va); [by destruct flush|apply lookup_insert_eq].
      * destruct (C4 i ltac:(lia) Ni) as [-> _]. destruct (proj2 (fi_mem _ I1) i Hi) as (a1 & a2 & a3 & H1 & H2 & H3 & H4).
        exists a1, a2, a3. split_and!; try done. by destruct flush.
    + intros j Hj Nj. change (f_mem (with_state f2 p PresentRw)) with (f_mem f2). rewrite Em. by apply C4.
    + by destruct flush.
    + by destruct flush.
    + intros _. by rewrite Em.
    + intros _. rewrite Em. by exists npa.
  - exists (leaf_xlat npa user_rw). by rewrite V, bool_decide_true.
  - intros q Gq Nq. by rewrite V, bool_decide_false.
Qed.

Lemma rehomed_inv f h' : fault_inv f -> pt_ok h' (active_pt_pml4_kva s) (f_owned f) ->
  (forall va, future h' va -> future (heap_of f) va) -> (forall q, gp q -> xlate h' (active_pt_pml4_kva s) q = view f q) ->
  fault_inv (with_heap f h' (f_owned f)).
Proof.
  intros I P U X. assert (V : forall q, gp q -> view (with_heap f h' (f_owned f)) q = view f q) by done. destruct I.
  constructor; try done.
  - intros va F. by apply fi_fresh0, U.
  - intros q Gq. rewrite V by done. by apply fi_unmapped0.
  - intros q x Gq. rewrite V by done. by apply fi_user0.
  - intros q x Gq. rewrite V by done. by apply fi_ro0.
  - intros q Gq. rewrite V by done. by apply fi_state0.
  - intros q rs re src Gq. rewrite V by done. by apply fi_units0.
  - intros q x Gq. rewrite V by done. by apply fi_private0.
Qed.

Lemma enough_more n m h : (n <= m)%nat -> enough m h -> enough n h.
Proof. intros L1 [E1 E2]. split; [lia|]. apply (Forall_take _ n) in E2. by rewrite take_take, Nat.min_l in E2 by lia. Qed.

(** Enters the writable state: the leaf of a page that is already private is made
    writable, any other page is copied. *)
Lemma page_rw_ok f p k : fault_inv f -> gp p -> rw_page p -> state_of f p <> PresentRw -> enough (4 + k) (heap_of f) ->
  exists f', enter_state s f p (state_of f p) PresentRw = Ret (f', true) /\ fault_inv (with_state f' p PresentRw) /\ enough k (heap_of f') /\
    f_r15 f' = f_r15 f /\ f_mat f' = f_mat f /\ (exists x, view f' p = Some x /\ x_user x = true /\ x_write x = true) /\
    (forall q, gp q -> q <> p -> view f' q = view f q).
Proof.
  intros I G R Sn En. pose proof R as [Dp _]. unfold enter_state. rewrite bool_decide_true by done.
  unfold overlay_has_page. destruct (lk_set LK) as (_ & _ & Ov & _). rewrite Ov, page_no_u32 by done. cbn [negb].
  set (flush := bool_decide (state_of f p = PresentRo)).
  destruct (overlay_has (f_mem f) (page_no s p)) eqn:Oh; cbn [res_bind]; last first.
  { destruct (cow_ok f p flush k I G R En) as (pa & f' & -> & E' & Rest). exists f'. by split. }
  destruct (set_leaf_w_ok (heap_of f) (active_pt_pml4_kva s) (f_owned f) p true (fi_pt _ I) (gp_slot p (proj1 G))) as (h' & b & E & Mp & Fr & Eb & X).
  unfold heap_of in E. rewrite E. cbn [res_bind].
  assert (X' : forall q, gp q -> xlate h' (active_pt_pml4_kva s) q = if bool_decide (q = p) then option_map (fun x => with_w x true) (view f p) else view f q).
  { intros q Gq. rewrite X. destruct (decide (q = p)) as [->|N]; [by rewrite !bool_decide_true|].
    rewrite (bool_decide_false (q = p)), bool_decide_false; [done| |done]. intros Ev. apply N. by apply vpn_inj. }
  assert (U : forall va, future h' va -> future (heap_of f) va) by (intros va; unfold future; by rewrite Fr).
  destruct (view f p) as [x|] eqn:Ex.
  - change (xlate (heap_of f) (active_pt_pml4_kva s) p) with (view f p) in Eb. rewrite Ex, bool_decide_true in Eb by done. subst b.
    destruct (fi_private _ I p x G R Ex) as [_ Pr]. destruct (Pr Oh) as (pa & Esrc & Epa).
    exists (invlpg (with_heap f h' (f_owned f)) p). split; [done|].
    split; [|split_and!; try done].
    + apply (inv_update f _ p (with_w x true) PresentRw); try done; [apply Mp|intros va F; by apply (fi_fresh _ I), U|apply I|exact (fi_user _ I p x G Ex)].
    + apply (enough_more k (4 + k)); [lia|]. unfold enough in *. change (heap_of _) with h'. by rewrite Fr.
    + exists (with_w x true). split; [|split; [apply (fi_user _ I p x G Ex)|done]]. transitivity (xlate h' (active_pt_pml4_kva s) p); [done|]. by rewrite X', bool_decide_true.
    + intros q Gq Nq. transitivity (xlate h' (active_pt_pml4_kva s) q); [done|]. by rewrite X', bool_decide_false.
  - change (xlate (heap_of f) (active_pt_pml4_kva s) p) with (view f p) in Eb. rewrite Ex, bool_decide_false in Eb by (by intros [? ?]). subst b.
    assert (X2 : forall q, gp q -> xlate h' (active_pt_pml4_kva s) q = view f q).
    { intros q Gq. rewrite X' by done. case_bool_decide as C; [|done]. subst q. by rewrite Ex. }
    set (f1 := with_heap f h' (f_owned f)). assert (I1 : fault_inv f1) by (apply rehomed_inv; [done|apply Mp|done|done]).
    destruct (cow_ok f1 p flush k I1 G R) as (pa & f' & Es & E' & I' & En' & G' & M' & V' & O').
    { unfold enough in *. change (heap_of f1) with h'. by rewrite Fr. }
    change (f_mem f1) with (f_mem f) in *. rewrite Es. exists f'. split_and!; try done.
    intros q Gq Nq. rewrite O' by done. by apply X2.
Qed.

(** ** The pages of one access *)

(** The state a touch leaves a writable page in, and what it charges. *)
Definition touched (w : bool) (cur : PageState) : PageState :=
  if w then PresentRw else match cur with NotPresent => PresentRo | c => c end.
Definition page_charge (f : Faulting M) (w : bool) (p : Z) : Z :=
  if w && in_data s p && bool_decide (page_kind s p <> PinnedCapRo) && bool_decide (state_of f p <> PresentRw) then COW_COST else 0.

(** What handling page [p] leaves of the rest. *)
Definition page_done (f : Faulting M) (w : bool) (p : Z) (f' : Faulting M) : Prop :=
  fault_inv f' /\ allowed f' w p = true /\ grants_more f f' /\ f_r15 f' = f_r15 f /\
  forall q, gp q -> rw_page q -> state_of f' q = if bool_decide (q = p) then touched w (state_of f q) else state_of f q.

Lemma rw_done f p w f' : fault_inv f -> gp p -> rw_page p -> fault_inv (with_state f' p (touched w (state_of f p))) ->
  f_r15 f' = f_r15 f -> f_mat f' = f_mat f -> allowed f' w p = true -> allowed f' false p = true ->
  (forall q, gp q -> q <> p -> view f' q = view f q) -> (allowed f true p = true -> allowed f' true p = true) ->
  page_done f w p (with_state f' p (touched w (state_of f p))).
Proof.
  intros I G R I' G15 Ma Aw Ar Oth Keep. pose proof R as [Dp _]. split; [done|]. split; [done|]. split; [|split; [done|]].
  - intros b q Gq A. destruct (decide (q = p)) as [->|N]; [destruct b; [by apply Keep|done]|].
    unfold allowed in *. change (view (with_state f' p _) q) with (view f' q). by rewrite Oth.
  - intros q Gq Rq. unfold state_of at 1. change (f_mat (with_state f' p _)) with (<[Z.to_nat (page_no s p) := PageState_as_u8 (touched w (state_of f p))]> (f_mat f')).
    pose proof (page_no_range p Dp) as Rp. pose proof (page_no_range q (proj1 Rq)) as Rq'. rewrite Ma. case_bool_decide as C.
    + subst q. rewrite list_lookup_insert_eq by (pose proof (fi_mat _ I); lia). apply PageState_u8_roundtrip.
    + rewrite list_lookup_insert_ne; [done|]. intros E. apply C. apply page_no_inj; try done; [apply Rq|]. lia.
Qed.

Lemma mat_at f p : fault_inv f -> in_data s p = true -> exists b, f_mat f !! Z.to_nat (page_no s p) = Some b /\ state_of f p = PageState_from_u8 b.
Proof.
  intros I D. pose proof (page_no_range p D) as R. pose proof (fi_mat _ I).
  destruct (f_mat f !! Z.to_nat (page_no s p)) as [b|] eqn:E; [|apply lookup_ge_None in E; lia].
  exists b. split; [done|]. unfold state_of. by rewrite E.
Qed.

Lemma same_state f p : fault_inv f -> in_data s p = true -> state_of f p <> NotPresent -> with_state f p (state_of f p) = f.
Proof.
  intros I D N. destruct (mat_at f p I D) as (b & E & Es). unfold with_state. rewrite Es in *.
  assert (PageState_as_u8 (PageState_from_u8 b) = b) as ->.
  { destruct b as [|q|q]; try done. repeat (destruct q as [q|q|]; try done). }
  rewrite list_insert_id by done. by destruct f.
Qed.

Lemma enter_state_ok f p w k : fault_inv f -> gp p -> rw_page p -> enough (4 + k) (heap_of f) ->
  exists f', enter_state s f p (state_of f p) (touched w (state_of f p)) = Ret (f', true) /\
    page_done f w p (with_state f' p (touched w (state_of f p))) /\ enough k (heap_of f') /\ f_mat f' = f_mat f /\ f_r15 f' = f_r15 f.
Proof.
  intros I G R En. pose proof R as [Dp _]. pose proof (fi_state _ I p G R) as St.
  assert (Same : state_of f p <> NotPresent -> touched w (state_of f p) = state_of f p -> allowed f w p = true ->
    exists f', Ret (f, true) = Ret (f', true) /\ page_done f w p (with_state f' p (touched w (state_of f p))) /\ enough k (heap_of f') /\ f_mat f' = f_mat f /\ f_r15 f' = f_r15 f).
  { intros N T A. exists f. rewrite T, same_state by done. split; [done|]. split; [|split; [apply (enough_more _ (4 + k)); (lia || done)|done]].
    split; [done|]. split; [done|]. split; [by intros ? ? ?|]. split; [done|].
    intros q Gq Rq. case_bool_decide as C; [|done]. subst q. by rewrite T. }
  destruct w.
  - destruct (decide (state_of f p = PresentRw)) as [E|N].
    + cbn [touched] in *. unfold enter_state. rewrite E, bool_decide_false by (by intros ?). rewrite E in Same.
      apply Same; try done. unfold allowed. rewrite E in St. destruct (view f p) as [x|] eqn:Ex; [|done].
      unfold user_ok. destruct (fi_user _ I p x G Ex) as [-> _]. by destruct (x_write x).
    + destruct (page_rw_ok f p k I G R N En) as (f' & E & I' & En' & G' & M' & (x & Ex & Ux & Wx) & O').
      exists f'. split; [done|]. split; [|by split_and!]. assert (A : forall b, allowed f' b p = true).
      { intros b. unfold allowed. rewrite Ex. unfold user_ok. by rewrite Ux, Wx, orb_true_r. }
      apply rw_done; auto.
  - destruct (state_of f p) eqn:E; cbn [touched] in *.
    + destruct (page_in_ok f p k I G R E) as (f' & E' & I' & En' & G' & M' & (x & Ex & Ux) & O'); [apply (enough_more _ (4 + k)); (lia || done)|].
      exists f'. split; [done|]. split; [|by split_and!]. assert (A : allowed f' false p = true) by (unfold allowed; rewrite Ex; unfold user_ok; by rewrite Ux).
      pose proof (rw_done f p false f' I G R) as D. rewrite E in D. cbn [touched] in D. apply D; try done.
      unfold allowed. destruct (view f p) as [y|]; [|done]. destruct (x_write y) eqn:Wy; [congruence|]. unfold user_ok. rewrite Wy. cbn. by rewrite andb_false_r.
    + unfold enter_state. rewrite bool_decide_false by done. apply Same; try done. unfold allowed.
      destruct (view f p) as [x|] eqn:Ex; [|congruence]. unfold user_ok. by destruct (fi_user _ I p x G Ex) as [-> _].
    + unfold enter_state. rewrite bool_decide_false by (by intros ?). apply Same; try done. unfold allowed.
      destruct (view f p) as [x|] eqn:Ex; [|congruence]. unfold user_ok. by destruct (fi_user _ I p x G Ex) as [-> _].
Qed.

(** A page the access may touch. *)
Definition may_touch (w : bool) (p : Z) : Prop :=
  (in_code s p = true /\ w = false) \/ (in_data s p = true /\ (w = true -> page_kind s p <> PinnedCapRo)).

(** Frames for one page at most. *)
Definition PAGE_FRAMES : nat := 3 * UNIT_PAGES + 4.

Lemma ro_done f p w rs re src k : fault_inv f -> gp p -> ro_range s p = Some (rs, re, src) -> may_touch w p ->
  enough (PAGE_FRAMES + k) (heap_of f) ->
  exists f', materialize_ro_unit s f p rs re src = Ret (f', Some 0) /\ page_done f w p f' /\ page_charge f w p = 0 /\ enough k (heap_of f').
Proof.
  intros I G E T En. assert (Reg : in_code s p = true \/ in_data s p = true) by (destruct T as [[? _]|[? _]]; auto).
  destruct (ro_region p rs re src E Reg) as (B & _ & _ & _ & _ & All). destruct (All p B) as (_ & Nr & _).
  assert (w = false) as ->.
  { destruct T as [[_ ?]|[D K]]; [done|]. destruct w; [|done]. exfalso. apply Nr. split; auto. }
  destruct (materialize_ro_ok f p rs re src k I G E Reg) as (f' & E' & I' & En' & M' & _ & G' & Gr & [x Ex]);
    [apply (enough_more _ (PAGE_FRAMES + k)); [unfold PAGE_FRAMES; lia|done]|].
  exists f'. split; [done|]. split; [|done]. split; [done|]. split; [|split; [done|split; [done|]]].
  - unfold allowed. rewrite Ex. unfold user_ok. by destruct (fi_user _ I' p x G Ex) as [-> _].
  - intros q Gq Rq. rewrite bool_decide_false by (by intros ->). unfold state_of. by rewrite M'.
Qed.

Lemma materialize_page_ok f p w k : fault_inv f -> gp p -> may_touch w p -> enough (PAGE_FRAMES + k) (heap_of f) ->
  exists f', materialize_page s f p w = Ret (f', Some (page_charge f w p)) /\ page_done f w p f' /\ enough k (heap_of f').
Proof.
  intros I G T En. unfold materialize_page. destruct (ro_range s p) as [[[rs re] src]|] eqn:E.
  { destruct (ro_done f p w rs re src k I G E T En) as (f' & -> & D & -> & En'). by exists f'. }
  assert (Dp : in_data s p = true).
  { destruct T as [[C _]|[D _]]; [|done]. unfold ro_range in E. by rewrite C in E. }
  destruct (data_cases p Dp) as [(r & _ & _ & _ & _ & E' & _)|(R & _ & r & kd & Er & Ek & Nk)]; [congruence|].
  destruct (lk_set LK) as (_ & _ & _ & -> & _). destruct (mat_at f p I Dp) as (b & Eb & Es). rewrite Eb. cbn [expect res_bind].
  rewrite Er, Ek, <- Es. change (default PinnedCapRo (Some kd)) with kd. rewrite charge_rw by done.
  destruct (enter_state_ok f p w k I G R) as (f' & E' & D' & En' & M' & _); [apply (enough_more _ (PAGE_FRAMES + k)); [unfold PAGE_FRAMES; lia|done]|].
  fold (touched w (state_of f p)). rewrite E'. cbn [res_bind negb].
  assert (page_charge f w p = if w && bool_decide (state_of f p <> PresentRw) then COW_COST else 0) as ->.
  { unfold page_charge. destruct R as [_ Nr]. rewrite Dp, andb_true_r, (bool_decide_true (page_kind s p <> _)), andb_true_r by done. done. }
  by exists (with_state f' p (touched w (state_of f p))).
Qed.

Lemma charge_after f f' w p q : page_done f w p f' -> gp q -> q <> p -> page_charge f' w q = page_charge f w q.
Proof.
  intros (_ & _ & _ & _ & St) G N. unfold page_charge. destruct (in_data s q) eqn:D; [|by rewrite !andb_false_r].
  destruct (decide (page_kind s q = PinnedCapRo)) as [K|K]; [rewrite (bool_decide_false (page_kind s q <> _)) by (intros H; by apply H); by rewrite !andb_false_r|].
  by rewrite (St q G (conj D K)), (bool_decide_false (q = p)).
Qed.

Definition charges (f : Faulting M) (w : bool) (ps : list Z) : Z := foldr (fun p acc => page_charge f w p + acc) 0 ps.

Lemma charges_cons f w p ps : charges f w (p :: ps) = page_charge f w p + charges f w ps.
Proof. done. Qed.

Lemma page_charge_range f w p : 0 <= page_charge f w p <= COW_COST.
Proof. unfold page_charge. destruct (_ && _); vm_compute; split; discriminate. Qed.

Lemma charges_after f f' w p ps : page_done f w p f' -> Forall gp ps -> ~ (p ∈ ps) -> charges f' w ps = charges f w ps.
Proof.
  intros D. induction ps as [|q ps IH]; intros G N; [done|]. apply Forall_cons_1 in G as [Gq G]. apply not_elem_of_cons in N as [Nq N].
  rewrite !charges_cons, (charge_after f f' w p q D Gq), IH by done. done.
Qed.

Lemma materialize_pages_ok ps f w total k : fault_inv f -> Forall gp ps -> NoDup ps -> Forall (may_touch w) ps ->
  0 <= total -> total + COW_COST * Z.of_nat (length ps) < 2 ^ 64 -> enough (PAGE_FRAMES * length ps + k) (heap_of f) ->
  exists f', materialize_pages s f ps w total = Ret (f', Some (total + charges f w ps)) /\
    fault_inv f' /\ Forall (fun p => allowed f' w p = true) ps /\ grants_more f f' /\ f_r15 f' = f_r15 f /\ enough k (heap_of f') /\
    forall q, gp q -> rw_page q -> state_of f' q = if bool_decide (q ∈ ps) then touched w (state_of f q) else state_of f q.
Proof.
  revert f total. induction ps as [|p ps IH]; intros f total I G Nd T H0 Ht En.
  { exists f. cbn. rewrite Z.add_0_r. split_and!; try done. by intros ? ? ?. }
  apply Forall_cons_1 in G as [Gp G]. apply list.NoDup_cons in Nd as [Np Nd]. apply Forall_cons_1 in T as [Tp T]. cbn [materialize_pages].
  destruct (materialize_page_ok f p w (PAGE_FRAMES * length ps + k) I Gp Tp) as (f1 & -> & D1 & En1).
  { cbn [length] in En. by replace (PAGE_FRAMES + (PAGE_FRAMES * length ps + k))%nat with (PAGE_FRAMES * S (length ps) + k)%nat by lia. }
  cbn [res_bind]. pose proof (page_charge_range f w p) as Rc. cbn [length] in Ht.
  assert (saturating_add 64 total (page_charge f w p) = total + page_charge f w p) as ->.
  { unfold saturating_add. rewrite Z.min_l; [done|]. unfold COW_COST in *. lia. }
  pose proof D1 as (I1 & A1 & Gr1 & E1 & S1).
  destruct (IH f1 (total + page_charge f w p) I1 G Nd T) as (f' & E' & I' & A' & Gr' & E15 & En' & S'); [lia|lia|done|].
  exists f'. rewrite E', (charges_after f f1 w p ps D1 G Np). split; [by rewrite charges_cons, Z.add_assoc|]. split_and!; try done; try congruence.
  - constructor; [by apply Gr'|done].
  - intros b q Gq A. by apply Gr', Gr1.
  - intros q Gq Rq. rewrite S', S1 by done. destruct (decide (q = p)) as [->|N].
    + rewrite (bool_decide_false (p ∈ ps)), !bool_decide_true by (done || left). done.
    + rewrite (bool_decide_false (q = p)) by done. destruct (decide (q ∈ ps)) as [Iq|Niq].
      * rewrite !bool_decide_true by (done || by right). done.
      * rewrite !bool_decide_false by (done || by rewrite elem_of_cons; intros [?|?]). done.
Qed.

(** ** One fault *)

(** The pages of an access, in the order the handler walks them. *)
Definition pages_of (addr width : Z) : list Z := as_slice (access_pages addr width).

Definition touchable (w : bool) (ps : list Z) : bool :=
  match ps with [] => false | b :: _ => (in_code s b || in_data s b) && forallb (accessible s (in_code s b) w) ps end.

Lemma pages_of_ok addr width : is_u 32 addr -> 1 <= width <= 8 ->
  Forall gp (pages_of addr width) /\ NoDup (pages_of addr width) /\ (length (pages_of addr width) <= 2)%nat /\
  exists ps, pages_of addr width = addr - addr mod 4096 :: ps.
Proof.
  intros Ha Hw. unfold pages_of. rewrite access_pages_arith by done. unfold is_u in Ha. change (2 ^ 32) with 4294967296 in *.
  assert (Gb : gp (addr - addr mod 4096)) by (unfold gp, PAGE_BYTES; split; [dlia|dlia]).
  destruct (4096 <? _).
  - split_and!; [| |cbn; lia|by eexists].
    + repeat constructor; [apply Gb|apply Gb|..]; unfold PAGE_BYTES; dlia.
    + apply list.NoDup_cons. split; [|apply list.NoDup_singleton]. rewrite list_elem_of_singleton. dlia.
  - split_and!; [by constructor|apply list.NoDup_singleton|cbn; lia|by eexists].
Qed.

Lemma touchable_may w ps : touchable w ps = true -> Forall (may_touch w) ps.
Proof.
  destruct ps as [|b ps]; [done|]. cbn [touchable]. intros [_ A]%andb_true_iff. apply Forall_forall. intros p Hp.
  apply forallb_forall with (x := p) in A; [|done]. unfold accessible in A. destruct (in_code s b).
  - apply andb_true_iff in A as [Hw C]. left. by destruct w.
  - apply andb_true_iff in A as [D K]. right. split; [done|]. intros ->. cbn in K. apply negb_true_iff, bool_decide_eq_false in K. done.
Qed.

Definition with_r15 (f : Faulting M) (g : Z) : Faulting M :=
  mkFaulting (f_world f) (f_owned f) (f_mat f) (f_ro f) (f_mem f) g (f_flushed f).

Lemma with_r15_inv f g : fault_inv f -> fault_inv (with_r15 f g).
Proof. intros []. by constructor. Qed.

(** What a handled fault leaves. *)
Definition handled (f : Faulting M) (w : bool) (ps : list Z) (f' : Faulting M) : Prop :=
  fault_inv f' /\ Forall (fun p => allowed f' w p = true) ps /\ grants_more f f' /\
  f_r15 f' = wrapping_sub 64 (f_r15 f) (charges f w ps) /\
  forall q, gp q -> rw_page q -> state_of f' q = if bool_decide (q ∈ ps) then touched w (state_of f q) else state_of f q.

Lemma try_materialize_ok f gva width w k :
  fault_inv f -> 1 <= width <= 8 -> enough (PAGE_FRAMES * 2 + k) (heap_of f) ->
  let ps := pages_of (wrap 32 gva) width in
  if touchable w ps
  then exists f', try_materialize s f gva width w = Ret (f', true) /\ handled f w ps f' /\ enough k (heap_of f')
  else try_materialize s f gva width w = Ret (f, false).
Proof.
  intros I Hw En ps. unfold try_materialize. destruct (lk_set LK) as (Np & -> & _ & _ & ->).
  rewrite (proj2 (Z.eqb_neq _ _)) by done. cbn [negb orb]. change (as_slice (access_pages (wrap 32 gva) width)) with ps.
  destruct (pages_of_ok (wrap 32 gva) width (wrap_range 32 gva ltac:(lia)) Hw) as (G & Nd & Le & rest & Eps). fold ps in G, Nd, Le, Eps.
  pose proof (touchable_may w ps) as Tm. rewrite Eps in *. set (b := wrap 32 gva - wrap 32 gva mod 4096) in *. cbn [head expect res_bind touchable].
  cbn [touchable] in Tm. destruct (in_code s b || in_data s b) eqn:Reg; cbn [andb]; last first.
  { apply orb_false_iff in Reg as [-> ->]. done. }
  assert (negb (in_code s b) && negb (in_data s b) = false) as -> by (by destruct (in_code s b), (in_data s b)).
  cbn [andb] in Tm. destruct (forallb _ (b :: rest)); cbn [negb]; [|done].
  destruct (materialize_pages_ok (b :: rest) f w 0 k I G Nd (Tm eq_refl)) as (f' & -> & I' & A' & Gr & E15 & En' & St);
    [done|unfold COW_COST; lia|apply (enough_more _ (PAGE_FRAMES * 2 + k)); [nia|done]|].
  cbn [res_bind]. rewrite Z.add_0_l. eexists. split; [reflexivity|]. split; [|done].
  change (mkFaulting _ _ _ _ _ _ _) with (with_r15 f' (wrapping_sub 64 (f_r15 f') (charges f w (b :: rest)))).
  split; [by apply with_r15_inv|]. split_and!; try done. cbn. by rewrite E15.
Qed.

(** ** A frame that has not run *)

Lemma fault_inv_init f : pt_ok (heap_of f) (active_pt_pml4_kva s) (f_owned f) -> (forall p, gp p -> view f p = None) ->
  (forall va, future (heap_of f) va -> w_pages (f_world f) !! va = None) ->
  fm_pages (f_mem f) = npages -> mem_ready (f_world f) (mat_zero_pa s) (f_mem f) npages ->
  (forall i, overlay_has (f_mem f) i = false) -> f_mat f = replicate (Z.to_nat npages) 0 -> f_ro f = [] -> fault_inv f.
Proof.
  intros P V Fr Pg Me Ov Ma Ro. assert (0 <= npages). { unfold npages. destruct LK as [_ (? & _) _ _ _ _]. apply Z.div_pos; unfold PAGE_BYTES; lia. }
  constructor; try done.
  - intros i _. by rewrite Ov.
  - rewrite Ma, length_replicate. lia.
  - intros p Gp _ _. by apply V.
  - intros p x Gp. by rewrite V.
  - intros p x Gp _. by rewrite V.
  - intros p Gp _. rewrite V by done. unfold state_of. rewrite Ma.
    destruct (replicate _ _ !! _) as [b|] eqn:E; [|done]. by apply lookup_replicate in E as [-> _].
  - intros p rs re src Gp _. rewrite Ro. by intros [].
  - intros p x Gp _. by rewrite V.
Qed.
End Inv.
