(* ===== verification/FaultParity.v ===== *)
(** * Demand paging and the interpreter agree

    One guest access on the x86 engine, with the faults it takes, against the
    load and store arms of the interpreter. *)

From stdpp Require Import gmap.
From S2P Require Import Prelude MachineInt OrdMap Engine GasConst Mat Mem Interp.
From S2P Require Import Mmu Paging PagingFacts PagingMap Fault FaultFacts.

#[local] Open Scope Z_scope.

(** A load or a store of the guest: its address, width and stored value, and
    the address of its recompiled instruction. *)
Record Access := mkAccess { a_write : bool; a_addr : Z; a_width : Z; a_value : Z; a_rip : Z }.

Section Access.
  Context {L : KernelLayout} {M CowPage : Type} {FM : FrameMem M CowPage} {FL : FrameMemLaws M}.
  Variable s : LaneJitState.

(** ** The processor *)

(** The pages an access of [width] bytes at [addr] reaches. *)
Definition hw_pages (addr width : Z) : list Z :=
  let b := addr - addr mod 4096 in if 4096 <? addr mod 4096 + width then [b; b + 4096] else [b].

(** The address of the first byte that may not be accessed. *)
Definition hw_fault (f : Faulting M) (w : bool) (addr width : Z) : option Z :=
  option_map (Z.max addr) (List.find (fun p => negb (allowed s f w p)) (hw_pages addr width)).

(** The error code of a user-mode fault: page present, write, user. *)
Definition hw_error (f : Faulting M) (w : bool) (gva : Z) : Z :=
  match view s f (gva - gva mod 4096) with Some _ => 1 | None => 0 end + (if w then 2 else 0) + 4.

(** The access is retried as long as the handler resumes its instruction, and
    left when it resumes elsewhere; a fault the handler declines ends the
    kernel. *)
Fixpoint hw_access (fuel : nat) (f : Faulting M) (jc : JitExit) (a : Access) : Res (Faulting M * option JitExit) :=
  match hw_fault f (a_write a) (a_addr a) (a_width a) with
  | None => Ret (f, None)
  | Some gva =>
      match fuel with
      | O => Abort
      | S fuel' =>
          let! (f, jc, rip, b) := jit_pf_handler s f jc (a_rip a) (hw_error f (a_write a) gva) gva in
          if negb b then Abort
          else if rip =? a_rip a then hw_access fuel' f jc a else Ret (f, Some jc)
      end
  end.

(** An instruction pointer in the compiled code of the lane. *)
Definition in_window (rip : Z) : bool :=
  negb ((jit_code_len s =? 0) || (rip <? jit_code_base s)
        || (wrapping_add 64 (jit_code_base s) (jit_code_len s) <=? rip)).

(** The table entry of a recompiled instruction. *)
Definition trap_of (rip : Z) : Z * Z := trap_lookup s (wrap 32 (rip - jit_code_base s)).

(** An access of a recompiled instruction: one the trap table knows, with its
    width, and not the exit itself. *)
Definition access_wf (a : Access) : Prop :=
  is_u 32 (a_addr a) /\ In (a_width a) [1; 2; 4; 8] /\ in_window (a_rip a) = true /\
  snd (trap_of (a_rip a)) = a_width a /\ a_rip a <> exit_label_va s.

Lemma access_width a : access_wf a -> 1 <= a_width a <= 8.
Proof. intros (_ & Hw & _). cbn in Hw. lia. Qed.

(** A fault of such an access is materialised or leaves through the exit. *)
Lemma hw_handler f jc a gva : access_wf a ->
  jit_pf_handler s f jc (a_rip a) (hw_error f (a_write a) gva) gva =
  let! (f, ok) := try_materialize s f gva (a_width a) (a_write a) in
  Ret (if (ok : bool) then (f, jc, a_rip a, true)
       else (f, mkJitExit 3 (wrap 32 gva) (fst (trap_of (a_rip a))), exit_label_va s, true)).
Proof.
  intros Wf. pose proof (access_width a Wf) as Hw. destruct Wf as (_ & _ & Win & Tr & _).
  unfold jit_pf_handler. unfold in_window in Win. apply negb_true_iff in Win. rewrite Win.
  fold (trap_of (a_rip a)). destruct (trap_of (a_rip a)) as [pc wd]. cbn [fst snd] in *. subst wd.
  assert (negb (Z.land (hw_error f (a_write a) gva) 2 =? 0) = a_write a) as ->
    by (unfold hw_error; by destruct (view s f _), (a_write a)).
  rewrite (proj2 (Z.eqb_neq (a_width a) 0)) by lia. cbn [negb].
  by destruct (try_materialize s f gva (a_width a) (a_write a)) as [[f' []]|].
Qed.

(** ** What one access does *)

Hypothesis LK : lane_ok s.
Hypothesis D0 : 0 < mat_data_base s.
Hypothesis Gap : mat_code_top s < mat_data_base s.

(** [f'] is [f] after an access of the pages [ps]. *)
Definition accessed (f : Faulting M) (w : bool) (ps : list Z) (f' : Faulting M) : Prop :=
  fault_inv s f' /\ f_r15 f' = f_r15 f - charges s f w ps /\
  forall q, gp q -> rw_page s q -> (state_of s f' q = PresentRw <-> (w = true /\ q ∈ ps) \/ state_of s f q = PresentRw).

Lemma touched_rw w st : touched w st = PresentRw <-> w = true \/ st = PresentRw.
Proof. destruct w, st; cbn; naive_solver. Qed.

(** An access the page table already allows costs nothing. *)
Lemma allowed_free f w p : fault_inv s f -> gp p -> allowed s f w p = true ->
  may_touch s w p /\ page_charge s f w p = 0 /\ (w = true -> rw_page s p -> state_of s f p = PresentRw).
Proof.
  intros I G A. unfold allowed in A. destruct (view s f p) as [x|] eqn:Ex; [|done].
  unfold user_ok in A. apply andb_true_iff in A as [_ W].
  assert (Rw : w = true -> rw_page s p -> state_of s f p = PresentRw).
  { intros -> R. cbn in W. pose proof (fi_state s _ I p G R) as St. by rewrite Ex, W in St. }
  assert (Nr : w = true -> rw_page s p).
  { intros ->. cbn in W. destruct (decide (rw_page s p)) as [|N]; [done|]. pose proof (fi_ro s _ I p x G N Ex). congruence. }
  split_and!; [| |done].
  - destruct (in_code s p) eqn:C; [left|right].
    + split; [done|]. destruct w; [|done]. destruct (Nr eq_refl) as [D _]. rewrite (data_not_code s LK p D) in C. done.
    + destruct (in_data s p) eqn:D; [split; [done|]; intros H; apply (Nr H)|].
      rewrite (fi_unmapped s _ I p G C D) in Ex. done.
  - unfold page_charge. destruct w; [|done]. rewrite (Rw eq_refl (Nr eq_refl)), (bool_decide_false (PresentRw <> PresentRw)) by (intros H; by apply H).
    by rewrite andb_false_r.
Qed.

Lemma may_touch_region w p : may_touch s w p -> in_code s p = true \/ in_data s p = true.
Proof. intros [[? _]|[? _]]; auto. Qed.

Lemma region_below p : gp p -> in_code s p = true \/ in_data s p = true -> 0 < p < 2 ^ 32.
Proof.
  intros G. rewrite in_code_iff, in_data_iff. destruct LK as [_ (D1 & D2 & _) (C1 & C2 & _) _ _ _]. lia.
Qed.

(** Two adjacent pages of the frame lie in one region. *)
Lemma adjacent_region b : gp b -> in_code s b = true \/ in_data s b = true -> in_code s (b + 4096) = true \/ in_data s (b + 4096) = true ->
  in_code s (b + 4096) = in_code s b.
Proof.
  intros G H1 H2. apply eq_true_iff_eq. rewrite !in_code_iff, !in_data_iff in *.
  destruct LK as [_ (D1 & D2 & D3 & D4) (C1 & C2 & C3 & C4) _ _ _]. destruct G as [_ Ab]. unfold PAGE_BYTES in *. dlia.
Qed.

Lemma touchable_one w p : touchable s w [p] = true <-> may_touch s w p.
Proof.
  split; [intros H; by apply touchable_may in H; apply Forall_inv in H|]. intros T. cbn [touchable forallb]. unfold accessible.
  destruct (in_code s p) eqn:C; cbn [orb andb].
  - destruct T as [[_ ->]|[D _]]; [done|]. rewrite (data_not_code s LK p D) in C. done.
  - destruct T as [[? _]|[D K]]; [congruence|]. rewrite D. cbn. destruct w; [|done]. cbn. by rewrite bool_decide_false by auto.
Qed.

Lemma touchable_two w b p : (in_code s p = in_code s b) -> touchable s w [b; p] = true <-> may_touch s w b /\ may_touch s w p.
Proof.
  intros E. rewrite <- !touchable_one. cbn [touchable forallb]. rewrite E. unfold accessible.
  destruct (in_code s b) eqn:C; cbn [orb andb]; rewrite ?andb_true_r.
  - rewrite E. destruct w; cbn; [naive_solver|]. naive_solver.
  - rewrite !andb_true_iff. destruct (in_data s p); naive_solver.
Qed.

Lemma charges_range (f : Faulting M) w ps : 0 <= charges s f w ps <= COW_COST * Z.of_nat (length ps).
Proof.
  induction ps as [|p ps IH]; [cbn; lia|]. rewrite charges_cons. pose proof (page_charge_range s f w p). cbn [length]. lia.
Qed.

Lemma handled_accessed f w ps f' : handled s f w ps f' -> COW_COST * Z.of_nat (length ps) <= f_r15 f < 2 ^ 64 -> accessed f w ps f'.
Proof.
  intros (I & _ & _ & E & St) Hg. split; [done|]. pose proof (charges_range f w ps). split.
  - rewrite E. unfold wrapping_sub. apply wrap_small. unfold is_u. lia.
  - intros q Gq Rq. rewrite St by done. case_bool_decide; [rewrite touched_rw|]; naive_solver.
Qed.

Lemma free_accessed f w ps : fault_inv s f -> Forall gp ps -> Forall (fun p => allowed s f w p = true) ps -> accessed f w ps f.
Proof.
  intros I G A. assert (charges s f w ps = 0) as E.
  { induction ps as [|p ps IH]; [done|]. apply Forall_cons_1 in G as [Gp G], A as [Ap A]. rewrite charges_cons, IH by done.
    by destruct (allowed_free f w p I Gp Ap) as (_ & -> & _). }
  split; [done|]. split; [rewrite E; lia|]. intros q Gq Rq. split; [auto|]. intros [[Hw Iq]|?]; [|done].
  rewrite Forall_forall in A. destruct (allowed_free f w q I Gq) as (_ & _ & H); [by apply A, list_elem_of_In|auto].
Qed.

(** The access is left with a page fault. *)
Definition refused (f : Faulting M) (a : Access) (r : Res (Faulting M * option JitExit)) : Prop :=
  exists arg, r = Ret (f, Some (mkJitExit 3 arg (fst (trap_of (a_rip a))))).

Lemma refused_at f jc a gva :
  access_wf a -> hw_fault f (a_write a) (a_addr a) (a_width a) = Some gva ->
  try_materialize s f gva (a_width a) (a_write a) = Ret (f, false) -> refused f a (hw_access 1 f jc a).
Proof.
  intros Wf Hf T. cbn [hw_access]. rewrite Hf, (hw_handler f jc a gva Wf), T. cbn [res_bind negb].
  destruct Wf as (_ & _ & _ & _ & Ne). rewrite (proj2 (Z.eqb_neq _ _)) by auto. by eexists.
Qed.

Lemma repaired_at f jc a gva f' :
  access_wf a -> hw_fault f (a_write a) (a_addr a) (a_width a) = Some gva ->
  try_materialize s f gva (a_width a) (a_write a) = Ret (f', true) ->
  hw_fault f' (a_write a) (a_addr a) (a_width a) = None -> hw_access 1 f jc a = Ret (f', None).
Proof.
  intros Wf Hf T Hn. cbn [hw_access]. rewrite Hf, (hw_handler f jc a gva Wf), T. cbn [res_bind negb].
  by rewrite Z.eqb_refl, Hn.
Qed.

Lemma unfaulted f jc a : hw_fault f (a_write a) (a_addr a) (a_width a) = None -> hw_access 1 f jc a = Ret (f, None).
Proof. intros H. cbn [hw_access]. by rewrite H. Qed.

(** An access within one page. *)
Lemma hw_one f jc a b k : let w := a_write a in let addr := a_addr a in let width := a_width a in
  access_wf a -> fault_inv s f -> gp b -> hw_pages addr width = [b] -> pages_of addr width = [b] ->
  b <= addr -> COW_COST * 2 <= f_r15 f < 2 ^ 64 -> enough (PAGE_FRAMES * 2 + k) (heap_of f) ->
  if touchable s w [b]
  then exists f', hw_access 1 f jc a = Ret (f', None) /\ accessed f w [b] f' /\ enough k (heap_of f')
  else refused f a (hw_access 1 f jc a).
Proof.
  intros w addr width Wf I Gb Hp Ps Hb Hg En. pose proof (access_width a Wf) as Hw. pose proof (proj1 Wf) as Ha.
  fold addr in Ha. fold width in Hw.
  pose proof (try_materialize_ok s LK f addr width w k I Hw En) as T. rewrite wrap_small in T by done. rewrite Ps in T. cbv zeta in T.
  assert (Hf : forall f', hw_fault f' w addr width = if allowed s f' w b then None else Some addr).
  { intros f'. unfold hw_fault. rewrite Hp. cbn [List.find]. destruct (allowed s f' w b); cbn [negb option_map]; [done|]. by rewrite Z.max_l. }
  pose proof (Hf f) as Hf0. destruct (allowed s f w b) eqn:A.
  - rewrite (proj2 (touchable_one w b)) by (by apply allowed_free with f). exists f. split; [by apply unfaulted|].
    split; [|apply (enough_more _ (PAGE_FRAMES * 2 + k)); (lia || done)].
    by apply free_accessed; [|apply list.Forall_singleton|apply list.Forall_singleton].
  - destruct (touchable s w [b]); [|by eapply refused_at].
    destruct T as (f' & T & Hd & En'). exists f'. pose proof Hd as (_ & Al & _). apply Forall_inv in Al.
    split; [apply (repaired_at f jc a addr); [done..|]; fold w addr width; by rewrite Hf, Al|]. split; [|done].
    apply handled_accessed; [done|]. unfold COW_COST in *. cbn [length]. lia.
Qed.

Lemma second_page addr b : gp b -> is_u 32 addr -> b <= addr -> let b2 := wrap 32 (b + 4096) in
  gp b2 /\ gp (b + 4096) /\ b2 mod 4096 = 0 /\ (forall p, p = b2 \/ p = b + 4096 -> in_code s p = true \/ in_data s p = true -> b2 = b + 4096).
Proof.
  cbv zeta. unfold gp, is_u, PAGE_BYTES, wrap. intros [R A] Ha Hb. change (2 ^ 32) with 4294967296 in *. change (2 ^ 39) with 549755813888 in *.
  split; [dlia|]. split; [dlia|]. split; [dlia|]. intros p Hp Reg.
  assert (Gp : gp p) by (unfold gp, PAGE_BYTES; change (2 ^ 39) with 549755813888; dlia).
  pose proof (region_below p Gp Reg) as B. change (2 ^ 32) with 4294967296 in B. dlia.
Qed.

Lemma accessed_more f w b b2 f' : fault_inv s f -> gp b -> allowed s f w b = true -> accessed f w [b2] f' -> accessed f w [b; b2] f'.
Proof.
  intros I G A (I' & E & St). destruct (allowed_free f w b I G A) as (_ & C & R). split; [done|]. split.
  - rewrite charges_cons, C. rewrite E. lia.
  - intros q Gq Rq. rewrite St by done. split.
    + intros [[Hw Hq]|?]; [left; split; [done|by right]|auto].
    + intros [[Hw Hq]|?]; [|auto]. apply elem_of_cons in Hq as [->|Hq]; auto.
Qed.

(** An access that reaches into the next page. *)
Lemma hw_two f jc a b k : let w := a_write a in let addr := a_addr a in let width := a_width a in let b2 := wrap 32 (b + 4096) in
  access_wf a -> fault_inv s f -> gp b -> hw_pages addr width = [b; b + 4096] -> pages_of addr width = [b; b2] ->
  b <= addr < b + 4096 -> COW_COST * 2 <= f_r15 f < 2 ^ 64 -> enough (PAGE_FRAMES * 2 + k) (heap_of f) ->
  if touchable s w [b; b2]
  then exists f', hw_access 1 f jc a = Ret (f', None) /\ accessed f w [b; b2] f' /\ enough k (heap_of f')
  else refused f a (hw_access 1 f jc a).
Proof.
  intros w addr width b2 Wf I Gb Hp Ps Hb Hg En. pose proof (access_width a Wf) as Hw. pose proof (proj1 Wf) as Ha.
  fold addr in Ha. fold width in Hw.
  destruct (second_page addr b Gb Ha (proj1 Hb)) as (G2 & G2' & A2 & E2). fold b2 in G2, A2, E2.
  pose proof (try_materialize_ok s LK f addr width w k I Hw En) as T. rewrite wrap_small in T by done. rewrite Ps in T.
  pose proof (try_materialize_ok s LK f (b + 4096) width w k I Hw En) as T2. fold b2 in T2.
  assert (pages_of b2 width = [b2]) as Ps2.
  { unfold pages_of. rewrite access_pages_arith by (done || by apply wrap_range). rewrite A2, Z.sub_0_r. destruct (Z.ltb_spec 4096 (0 + width)); [lia|done]. }
  rewrite Ps2 in T2. cbv zeta in T, T2.
  assert (Hf : forall f', hw_fault f' w addr width = if allowed s f' w b then if allowed s f' w (b + 4096) then None else Some (b + 4096) else Some addr).
  { intros f'. unfold hw_fault. rewrite Hp. cbn [List.find]. destruct (allowed s f' w b); cbn [negb option_map]; [|by rewrite Z.max_l by lia].
    destruct (allowed s f' w (b + 4096)); cbn [negb option_map]; [done|]. by rewrite Z.max_r by lia. }
  pose proof (Hf f) as Hf0. destruct (allowed s f w b) eqn:A; last first.
  { destruct (touchable s w [b; b2]) eqn:Tc; [|by eapply refused_at].
    destruct T as (f' & T & Hd & En'). exists f'. pose proof Hd as (_ & Al & _). apply Forall_cons_1 in Al as [A1 Al]. apply Forall_inv in Al.
    pose proof (touchable_may s w _ Tc) as Tm. apply Forall_cons_1 in Tm as [_ Tm]. apply Forall_inv, may_touch_region, (E2 b2) in Tm; [|by left].
    split; [apply (repaired_at f jc a addr); [done..|]; fold w addr width; by rewrite Hf, A1, <- Tm, Al|]. split; [|done].
    apply handled_accessed; [done|]. unfold COW_COST in *. cbn [length]. lia. }
  destruct (allowed_free f w b I Gb A) as (T1 & _). pose proof (may_touch_region w b T1) as Reg1.
  assert (Two : may_touch s w b2 -> b2 = b + 4096 /\ touchable s w [b; b2] = true).
  { intros M2. pose proof (may_touch_region w b2 M2) as Reg2. pose proof (E2 b2 (or_introl eq_refl) Reg2) as Eb.
    split; [done|]. apply touchable_two; [|done]. rewrite Eb in *. by apply adjacent_region. }
  destruct (allowed s f w (b + 4096)) eqn:Aw.
  - destruct (allowed_free f w (b + 4096) I G2' Aw) as (M2 & _).
    pose proof (E2 (b + 4096) (or_intror eq_refl) (may_touch_region w _ M2)) as Eb. rewrite <- Eb in M2, Aw.
    destruct (Two M2) as [_ ->]. exists f. split; [by apply unfaulted|]. split; [|apply (enough_more _ (PAGE_FRAMES * 2 + k)); (lia || done)].
    apply free_accessed; [done|by apply list.Forall_cons_2; [|apply list.Forall_singleton]|by apply list.Forall_cons_2; [|apply list.Forall_singleton]].
  - destruct (touchable s w [b2]) eqn:Tc.
    + destruct (Two (proj1 (touchable_one w b2) Tc)) as [Eb ->]. destruct T2 as (f' & T2 & Hd & En'). exists f'.
      pose proof Hd as (_ & Al & Gr & _). apply Forall_inv in Al.
      split; [apply (repaired_at f jc a (b + 4096)); [done..|]; fold w addr width; by rewrite Hf, (Gr w b Gb A), <- Eb, Al|]. split; [|done].
      apply accessed_more; try done. apply handled_accessed; [done|]. unfold COW_COST in *. cbn [length]. lia.
    + destruct (touchable s w [b; b2]) eqn:Tc2; [exfalso|by eapply refused_at].
      pose proof (touchable_may s w _ Tc2) as Tm. apply Forall_cons_1 in Tm as [_ Tm]. apply Forall_inv, touchable_one in Tm. congruence.
Qed.

Lemma hw_access_ok f jc a k : access_wf a -> fault_inv s f -> COW_COST * 2 <= f_r15 f < 2 ^ 64 ->
  enough (PAGE_FRAMES * 2 + k) (heap_of f) ->
  let ps := pages_of (a_addr a) (a_width a) in
  if touchable s (a_write a) ps
  then exists f', hw_access 1 f jc a = Ret (f', None) /\ accessed f (a_write a) ps f' /\ enough k (heap_of f')
  else refused f a (hw_access 1 f jc a).
Proof.
  intros Wf I Hg En ps. subst ps. pose proof (access_width a Wf) as Hw. pose proof (proj1 Wf) as Ha.
  pose proof (Z.mod_pos_bound (a_addr a) 4096 ltac:(lia)) as Mb.
  destruct (pages_of_ok (a_addr a) (a_width a) Ha Hw) as (G & _). set (b := a_addr a - a_addr a mod 4096) in *.
  assert (E : pages_of (a_addr a) (a_width a) = if 4096 <? a_addr a mod 4096 + a_width a then [b; wrap 32 (b + 4096)] else [b]) by (by apply access_pages_arith).
  assert (Eh : hw_pages (a_addr a) (a_width a) = if 4096 <? a_addr a mod 4096 + a_width a then [b; b + 4096] else [b]) by done.
  destruct (4096 <? _); rewrite E in *; apply Forall_cons_1 in G as [Gb _].
  - apply hw_two; (done || lia).
  - apply hw_one; (done || lia).
Qed.

(** ** The interpreter's memory *)

(** The interpreter's memory has the frame's regions and permissions. *)
Record shaped (m : CopyingMemory) : Prop := {
  mi_base : base m = mat_data_base s;
  mi_len : flat_len m = mat_mem_top s - mat_data_base s;
  mi_code : code_base m = mat_code_base s /\ code_top m = mat_code_top s;
  mi_perms : forall p, gp p -> in_data s p = true ->
    perms m !! Z.to_nat (page_no s p) = Some (if bool_decide (page_kind s p = PinnedCapRo) then perm_RO else perm_RW);
  mi_plen : Z.of_nat (length (perms m)) = npages s;
  mi_mat : Z.of_nat (length (mat_state m)) = npages s }.

(** The pages that are writable in it. *)
Definition mem_rw (m : CopyingMemory) (p : Z) : Prop :=
  PageState_from_u8 (default 0 (mat_state m !! Z.to_nat (page_no s p))) = PresentRw.

(** The same pages are writable in both engines. *)
Definition mirrors (m : CopyingMemory) (f : Faulting M) : Prop :=
  shaped m /\ forall p, gp p -> rw_page s p -> (mem_rw m p <-> state_of s f p = PresentRw).

Lemma page_index_data m p : shaped m -> gp p -> p < 2 ^ 32 -> page_index m p = if in_data s p then Some (Z.to_nat (page_no s p)) else None.
Proof.
  intros Mi [Rp _] Hp. unfold page_index, off. rewrite (mi_base _ Mi), (mi_len _ Mi). destruct LK as [_ (D1 & D2 & _) _ _ _ _].
  unfold wrapping_sub. destruct (in_data s p) eqn:D.
  - apply in_data_iff in D. rewrite wrap_small by (unfold is_u; lia). by rewrite (proj2 (Z.ltb_lt _ _)) by lia.
  - assert (N : ~ (mat_data_base s <= p < mat_mem_top s)) by (rewrite <- in_data_iff; congruence).
    rewrite (proj2 (Z.ltb_ge _ _)); [done|]. unfold wrap. change (2 ^ 32) with 4294967296 in *. dlia.
Qed.

(** The pages the interpreter lets an access touch. *)
Definition data_ok (w : bool) (p : Z) : bool := in_data s p && negb (w && bool_decide (page_kind s p = PinnedCapRo)).

Lemma accessible_all_eq m ps w : shaped m -> Forall gp ps -> Forall (fun p => p < 2 ^ 32) ps ->
  accessible_all m ps w = Ret (forallb (data_ok w) ps).
Proof.
  intros Mi G B. induction ps as [|p ps IH]; [done|]. apply Forall_cons_1 in G as [Gp G], B as [Bp B].
  cbn [accessible_all forallb]. rewrite (page_index_data m p Mi Gp Bp). unfold data_ok at 1. destruct (in_data s p) eqn:D; [|done].
  rewrite (mi_perms _ Mi p Gp D). cbn [expect res_bind andb]. rewrite IH by done.
  case_bool_decide; destruct w; done.
Qed.

Lemma shaped_mat m st : shaped m -> length st = length (mat_state m) -> shaped (with_mat m st).
Proof. intros [] E. constructor; try done. cbn. by rewrite E. Qed.

(** One page of the second loop. *)
Lemma materialize_one m (f : Faulting M) p w : shaped m -> gp p -> data_ok w p = true -> (rw_page s p -> mem_rw m p <-> state_of s f p = PresentRw) ->
  exists st, length st = length (mat_state m) /\
    (forall q, gp q -> rw_page s q -> mem_rw (with_mat m st) q <-> (w = true /\ q = p) \/ mem_rw m q) /\
    forall ps tot, materialize_all m (p :: ps) w tot = materialize_all (with_mat m st) ps w (tot + page_charge s f w p).
Proof.
  intros Sh G Ok Rw. unfold data_ok in Ok. apply andb_true_iff in Ok as [D K]. pose proof (region_below p G (or_intror D)) as B.
  pose proof (page_no_range s LK p D) as Rp. pose proof (mi_mat _ Sh) as Lm. cbn [materialize_all].
  rewrite (page_index_data m p Sh G (proj2 B)), D. cbn [expect res_bind]. rewrite (mi_perms _ Sh p G D). cbn [expect res_bind].
  unfold page_charge. rewrite D, andb_true_r. destruct (decide (page_kind s p = PinnedCapRo)) as [Ek|Nk].
  - rewrite !bool_decide_true in * by done. exists (mat_state m). destruct w; [done|]. split; [done|]. split; [intros q _ _; destruct m; naive_solver|].
    intros ps tot. cbn. rewrite Z.add_0_r. by destruct m.
  - rewrite !(bool_decide_false (page_kind s p = _)), (bool_decide_true (page_kind s p <> _)), andb_true_r by done. cbn [negb Z.eqb perm_RW perm_RO].
    assert (R : rw_page s p) by done.
    destruct (mat_state m !! Z.to_nat (page_no s p)) as [b|] eqn:Eb; [|apply lookup_ge_None in Eb; lia].
    specialize (Rw R). unfold mem_rw in Rw. rewrite Eb in Rw. cbn [default from_option id] in Rw.
    set (cur := PageState_from_u8 b) in *. exists (<[Z.to_nat (page_no s p) := PageState_as_u8 (touched w cur)]> (mat_state m)).
    split; [apply length_insert|]. split.
    + intros q Gq Rq. unfold mem_rw. change (mat_state (with_mat m ?x)) with x. destruct (decide (q = p)) as [->|N].
      * rewrite list_lookup_insert_eq by lia. cbn [default from_option id]. rewrite PageState_u8_roundtrip, touched_rw, Eb. cbn. naive_solver.
      * rewrite list_lookup_insert_ne; [naive_solver|]. intros E. apply N. apply (page_no_inj s LK); try done; [apply Rq|].
        pose proof (page_no_range s LK q (proj1 Rq)). lia.
    + intros ps tot. cbn [expect res_bind]. fold cur. rewrite charge_rw by done. cbn [expect_ok res_bind]. fold (touched w cur).
      f_equal. f_equal. f_equal. f_equal. destruct (decide (cur = PresentRw)) as [E|N].
      * pose proof (proj1 Rw E). rewrite (bool_decide_false (cur <> PresentRw)), (bool_decide_false (state_of s f p <> PresentRw)) by auto. done.
      * rewrite (bool_decide_true (cur <> PresentRw)), (bool_decide_true (state_of s f p <> PresentRw)) by (rewrite <- ?Rw; done). done.
Qed.

Lemma materialize_all_eq ps m (f : Faulting M) w tot :
  shaped m -> Forall gp ps -> NoDup ps -> forallb (data_ok w) ps = true ->
  (forall p, p ∈ ps -> rw_page s p -> mem_rw m p <-> state_of s f p = PresentRw) ->
  exists st, length st = length (mat_state m) /\ materialize_all m ps w tot = Ret (with_mat m st, tot + charges s f w ps) /\
    forall q, gp q -> rw_page s q -> mem_rw (with_mat m st) q <-> (w = true /\ q ∈ ps) \/ mem_rw m q.
Proof.
  revert m tot. induction ps as [|p ps IH]; intros m tot Sh G Nd Ok Rw.
  { exists (mat_state m). cbn. rewrite Z.add_0_r. split; [done|]. split; [by destruct m|]. intros q _ _. rewrite elem_of_nil. destruct m. cbn. naive_solver. }
  apply Forall_cons_1 in G as [Gp G]. apply list.NoDup_cons in Nd as [Np Nd]. cbn [forallb] in Ok. apply andb_true_iff in Ok as [Op Ok].
  destruct (materialize_one m f p w Sh Gp Op) as (st1 & L1 & R1 & E1); [apply Rw; left|].
  destruct (IH (with_mat m st1) (tot + page_charge s f w p)) as (st & Ls & Es & Rs); [by apply shaped_mat|done|done|done| |].
  { intros q Hq Rq. rewrite R1, <- Rw by (done || by right || by eapply Forall_forall in G; [|apply list_elem_of_In]).
    split; [|auto]. intros [[_ ->]|?]; done. }
  exists st. split; [by rewrite Ls|]. split; [rewrite E1, Es, charges_cons, Z.add_assoc; by destruct m|].
  intros q Gq Rq. change (mem_rw (with_mat m st) q) with (mem_rw (with_mat (with_mat m st1) st) q). rewrite Rs, R1, elem_of_cons by done. naive_solver.
Qed.

Lemma charges_read (f : Faulting M) ps : charges s f false ps = 0.
Proof. induction ps as [|p ps IH]; [done|]. rewrite charges_cons, IH. done. Qed.

Definition declared (addr : Z) : bool := let b := addr - addr mod 4096 in in_code s b || in_data s b.

(** What the interpreter's touch does, in terms of the frame's pages. *)
Lemma touch_eq m (f : Faulting M) w addr width : mirrors m f -> is_u 32 addr -> 1 <= width <= 8 -> COW_COST * 2 <= f_r15 f ->
  if touchable s w (pages_of addr width)
  then exists st, length st = length (mat_state m) /\
    touch m addr width w (mkGas (f_r15 f)) = Ret (with_mat m st, mkGas (f_r15 f - charges s f w (pages_of addr width)), Ok tt) /\
    forall q, gp q -> rw_page s q -> mem_rw (with_mat m st) q <-> (w = true /\ q ∈ pages_of addr width) \/ state_of s f q = PresentRw
  else touch m addr width w (mkGas (f_r15 f)) = Ret (m, mkGas (f_r15 f), if declared addr then Err touch_fault else Ok tt).
Proof.
  intros [Sh Rw] Ha Hw Hg. destruct (pages_of_ok addr width Ha Hw) as (G & Nd & Le & rest & Eps). unfold touch. fold (pages_of addr width).
  assert (B : Forall (fun p => p < 2 ^ 32) (pages_of addr width)).
  { unfold pages_of. rewrite access_pages_arith by done. unfold is_u in Ha. pose proof (Z.mod_pos_bound addr 4096 ltac:(lia)).
    destruct (4096 <? _); repeat constructor; try lia. apply Z.mod_pos_bound. lia. }
  pose proof (charges_range f w (pages_of addr width)) as Cr.
  unfold declared. rewrite Eps in *. set (b := addr - addr mod 4096) in *. cbn [head expect res_bind touchable].
  pose proof G as G'. apply Forall_cons_1 in G' as [Gb _]. pose proof B as B'. apply Forall_cons_1 in B' as [Bb _].
  rewrite (page_index_data m b Sh Gb Bb). destruct (in_data s b) eqn:D.
  - rewrite (data_not_code s LK b D). cbn [orb andb]. rewrite (mi_perms _ Sh b Gb D). cbn [expect res_bind].
    assert (negb ((if bool_decide (page_kind s b = PinnedCapRo) then perm_RO else perm_RW) =? perm_NONE) = true) as -> by (by case_bool_decide).
    unfold touch_data. rewrite (accessible_all_eq m _ w Sh G B). cbn [res_bind].
    change (forallb (data_ok w) (b :: rest)) with (forallb (accessible s false w) (b :: rest)).
    destruct (forallb (accessible s false w) (b :: rest)) eqn:A; cbn [negb]; [|done].
    destruct (materialize_all_eq (b :: rest) m f w 0 Sh G Nd A) as (st & L1 & -> & R1).
    { intros p Hp Rp. apply Rw; [|done]. eapply Forall_forall in G; [done|by apply list_elem_of_In]. }
    cbn [res_bind]. exists st. split; [done|]. rewrite Z.add_0_l. split.
    + unfold charge_expect, charge, checked_sub. cbn [remaining]. rewrite (proj2 (Z.leb_le _ _)); [done|]. unfold COW_COST in *. lia.
    + intros q Gq Rq. rewrite R1, Rw by done. done.
  - rewrite orb_false_r. assert (is_code_page m b = in_code s b) as -> by (unfold is_code_page, in_code; by destruct (mi_code _ Sh) as [-> ->]).
    cbn [res_bind]. destruct (in_code s b) eqn:C; cbn [andb]; [|done]. unfold touch_code.
    assert (Ec : forallb (is_code_page m) (b :: rest) = forallb (in_code s) (b :: rest)) by (unfold is_code_page, in_code; by destruct (mi_code _ Sh) as [-> ->]).
    destruct w; [done|].
    change (forallb (accessible s true false) (b :: rest)) with (forallb (in_code s) (b :: rest)). rewrite Ec.
    destruct (forallb (in_code s) (b :: rest)); [|done]. exists (mat_state m). split; [done|].
    rewrite charges_read, Z.sub_0_r. split; [by destruct m|]. intros q Gq Rq. transitivity (mem_rw m q); [by destruct m|]. rewrite Rw by done. naive_solver.
Qed.

(** *** The load and store arms *)

(** The program's bytes, and the page-rounded code region they fill. *)
Variable code : list Z.
Hypothesis Code : mat_code_top s =
  mat_code_base s + wrap 32 (next_multiple_of (wrap 32 (Z.of_nat (length code))) PAGE_SIZE).

(** The width-typed operations of the arms. *)
Definition loader (width : Z) : CopyingMemory -> list Z -> Z -> Z -> option Z :=
  if width =? 1 then load_u8 else if width =? 2 then load_u16 else if width =? 4 then load_u32 else load_u64.
Definition storer (width : Z) : CopyingMemory -> Z -> Z -> CopyingMemory * bool :=
  if width =? 1 then write_u8 else if width =? 2 then write_u16_le else if width =? 4 then write_u32_le else write_u64_le.

(** The machine before the instruction: its address in [a0], its value in [a1]. *)
Definition access_state (m : CopyingMemory) (g : GasCounter) (a : Access) : State PanickingHandler CopyingMemory :=
  mkState (reg_write (reg_write regs_new 10 (a_addr a)) 11 (a_value a)) m g panicking_handler.

(** The interpreter's load or store arm, and the exit it takes, if any. *)
Definition interp_access (m : CopyingMemory) (g : GasCounter) (a : Access) : Res (CopyingMemory * GasCounter * option ExitReason) :=
  let st := access_state m g a in
  let! (st, ctl) :=
    if a_write a then exec_store st 0 (a_width a) (storer (a_width a)) 10 11 0
    else exec_load code (mat_code_base s) st 0 (a_width a) (loader (a_width a)) id 12 10 0 in
  Ret (st_mem st, st_gas st, match ctl with Stop r => Some r | _ => None end).

Lemma loader_eq width m addr : In width [1; 2; 4; 8] ->
  loader width m code (mat_code_base s) addr =
  match read_le m (Z.to_nat width) addr with
  | Some v => Some v
  | None => option_map (wrap (8 * width)) (read_code code (mat_code_base s) addr width)
  end.
Proof. intros [<-|[<-|[<-|[<-|[]]]]]; done. Qed.

Lemma storer_eq width m addr v : In width [1; 2; 4; 8] -> storer width m addr v = write_le m (Z.to_nat width) addr v.
Proof. intros [<-|[<-|[<-|[<-|[]]]]]; done. Qed.

Lemma access_addr m g a : is_u 32 (a_addr a) -> compute_addr (st_regs (access_state m g a)) 10 0 = a_addr a.
Proof.
  intros Ha. unfold compute_addr. change (reg_read _ 10) with (a_addr a). unfold wrapping_add.
  by rewrite (wrap_small 32 (a_addr a)), Z.add_0_r, wrap_small.
Qed.

(** An access whose pages lie in an aligned region lies in it. *)
Lemma region_bytes addr width lo hi :
  is_u 32 addr -> 1 <= width <= 8 -> 0 < lo -> hi <= 2 ^ 32 -> hi mod 4096 = 0 ->
  Forall (fun p => lo <= p < hi) (pages_of addr width) -> lo <= addr /\ addr + width <= hi.
Proof.
  intros Ha Hw Hlo Hhi Al. unfold pages_of. rewrite access_pages_arith by done. unfold is_u in Ha.
  pose proof (Z.mod_pos_bound addr 4096 ltac:(lia)) as Mb. change (2 ^ 32) with 4294967296 in *.
  destruct (Z.ltb_spec 4096 (addr mod 4096 + width)) as [Two|One]; intros F; apply Forall_cons_1 in F as [F1 F].
  - apply Forall_inv in F. unfold wrap in F. change (2 ^ 32) with 4294967296 in F. dlia.
  - dlia.
Qed.

Lemma touchable_data w addr width : is_u 32 addr -> 1 <= width <= 8 ->
  touchable s w (pages_of addr width) = true -> in_data s (addr - addr mod 4096) = true ->
  mat_data_base s <= addr /\ addr + width <= mat_mem_top s.
Proof.
  intros Ha Hw Tc D. destruct (pages_of_ok addr width Ha Hw) as (_ & _ & _ & rest & Eps). destruct LK as [_ (D1 & D2 & D3 & D4) _ _ _ _].
  apply region_bytes; try done. rewrite Eps in *. cbn [touchable] in Tc. apply andb_true_iff in Tc as [_ Tc].
  rewrite (data_not_code s LK _ D) in Tc. apply Forall_forall. intros p Hp. rewrite forallb_forall in Tc. specialize (Tc p Hp).
  unfold accessible in Tc. apply andb_true_iff in Tc as [Dp _]. by apply in_data_iff.
Qed.

Lemma touchable_code addr width : is_u 32 addr -> 1 <= width <= 8 ->
  touchable s false (pages_of addr width) = true -> in_code s (addr - addr mod 4096) = true ->
  mat_code_base s <= addr /\ addr + width <= mat_code_top s.
Proof.
  intros Ha Hw Tc C. destruct (pages_of_ok addr width Ha Hw) as (_ & _ & _ & rest & Eps). destruct LK as [_ (D1 & D2 & _) (C1 & C2 & C3 & C4) _ _ _].
  apply region_bytes; try (done || lia). rewrite Eps in *. cbn [touchable] in Tc. apply andb_true_iff in Tc as [_ Tc].
  rewrite C in Tc. apply Forall_forall. intros p Hp. rewrite forallb_forall in Tc. specialize (Tc p Hp). by apply in_code_iff.
Qed.

Lemma touchable_declared w addr width : is_u 32 addr -> 1 <= width <= 8 ->
  touchable s w (pages_of addr width) = true -> declared addr = true.
Proof.
  intros Ha Hw Tc. destruct (pages_of_ok addr width Ha Hw) as (_ & _ & _ & rest & Eps). rewrite Eps in Tc. cbn [touchable] in Tc.
  by apply andb_true_iff in Tc as [? _].
Qed.

(** The flat buffer serves exactly the bytes of the data region. *)
Lemma off_fits m addr width : shaped m -> is_u 32 addr -> 1 <= width ->
  (off m addr + width <=? flat_len m) = (mat_data_base s <=? addr) && (addr + width <=? mat_mem_top s).
Proof.
  intros Sh Ha Hw. unfold off, wrapping_sub, is_u in *. rewrite (mi_base _ Sh), (mi_len _ Sh). destruct LK as [_ (D1 & D2 & _) _ _ _ _].
  apply eq_true_iff_eq. rewrite andb_true_iff, !Z.leb_le. unfold wrap. change (2 ^ 32) with 4294967296 in *.
  destruct (Z.le_gt_cases (mat_data_base s) addr).
  - rewrite Z.mod_small by lia. lia.
  - replace (_ mod _) with (addr - mat_data_base s + 4294967296); [lia|]. rewrite <- (Z.mod_add _ 1) by lia. rewrite Z.mod_small by lia. lia.
Qed.

(** The code fallback serves exactly the bytes of the code region. *)
Lemma read_code_fits addr width : is_u 32 addr -> 1 <= width <= 8 ->
  is_Some (read_code code (mat_code_base s) addr width) <-> mat_code_base s <= addr /\ addr + width <= mat_code_top s.
Proof.
  intros Ha Hw. unfold read_code, checked_sub. destruct (Z.leb_spec (mat_code_base s) addr); [|split; [intros [? [=]]|lia]].
  rewrite Code. set (r := wrap 32 _). destruct (Z.ltb_spec r (addr - mat_code_base s + width)); split; try (done || lia).
Qed.

(** A load the touch lets pass succeeds exactly on the declared regions. *)
Lemma loader_some m addr width : shaped m -> is_u 32 addr -> In width [1; 2; 4; 8] ->
  (touchable s false (pages_of addr width) = true -> is_Some (loader width m code (mat_code_base s) addr)) /\
  (declared addr = false -> loader width m code (mat_code_base s) addr = None).
Proof.
  intros Sh Ha In_. assert (Hw : 1 <= width <= 8) by (cbn in In_; lia). rewrite loader_eq by done. unfold read_le.
  rewrite Z2Nat.id, (off_fits m addr width Sh Ha) by lia. split.
  - intros Tc. pose proof (touchable_declared false addr width Ha Hw Tc) as Dc. apply orb_true_iff in Dc as [C|D].
    + apply (touchable_code addr width Ha Hw Tc), (read_code_fits addr width Ha Hw) in C as [v ->]. by destruct (_ && _).
    + apply touchable_data with (w := false) (width := width) in D as [D1 D2]; [|done..].
      rewrite (proj2 (Z.leb_le _ _) D1), (proj2 (Z.leb_le _ _) D2). by eexists.
  - intros Dc. apply orb_false_iff in Dc as [C D]. assert (Nd : ~ (mat_data_base s <= addr - addr mod 4096 < mat_mem_top s)) by (rewrite <- in_data_iff; congruence).
    assert (Nc : ~ (mat_code_base s <= addr - addr mod 4096 < mat_code_top s)) by (rewrite <- in_code_iff; congruence).
    destruct LK as [_ (D1 & D2 & D3 & D4) (C1 & C2 & C3 & C4) _ _ _]. unfold PAGE_BYTES in *.
    pose proof (Z.mod_pos_bound addr 4096 ltac:(lia)) as Mb.
    destruct ((mat_data_base s <=? addr) && _) eqn:E; [apply andb_true_iff in E as [E1%Z.leb_le E2%Z.leb_le]; exfalso; apply Nd; dlia|].
    destruct (read_code _ _ _ _) as [v|] eqn:Er; [|done]. exfalso. apply Nc.
    destruct (proj1 (read_code_fits addr width Ha Hw)) as [R1 R2]; [by eexists|dlia].
Qed.

Lemma perm_at m addr : shaped m -> is_u 32 addr ->
  cm_perm_of m addr = if in_data s (addr - addr mod 4096) then
    if bool_decide (page_kind s (addr - addr mod 4096) = PinnedCapRo) then perm_RO else perm_RW else perm_NONE.
Proof.
  intros Sh Ha. set (b := addr - addr mod 4096). pose proof (Z.mod_pos_bound addr 4096 ltac:(lia)) as Mb.
  unfold cm_perm_of, off, wrapping_sub. rewrite (mi_base _ Sh). destruct LK as [_ (D1 & D2 & D3 & D4) _ _ _ _]. unfold is_u, PAGE_BYTES in *.
  change PAGE_SIZE with 4096. change (2 ^ 32) with 4294967296 in *.
  assert (Gb : gp b) by (unfold gp, b, PAGE_BYTES; change (2 ^ 39) with 549755813888; split; dlia).
  destruct (in_data s b) eqn:D.
  - pose proof (mi_perms _ Sh b Gb D) as P. apply in_data_iff in D. unfold page_no, PAGE_BYTES in P.
    replace (wrap 32 (addr - mat_data_base s) / 4096) with ((b - mat_data_base s) / 4096); [by rewrite P|].
    unfold wrap. change (2 ^ 32) with 4294967296. unfold b in *. rewrite (Z.mod_small (addr - mat_data_base s) 4294967296) by lia. dlia.
  - assert (N : ~ (mat_data_base s <= b < mat_mem_top s)) by (rewrite <- in_data_iff; congruence).
    rewrite lookup_ge_None_2; [done|]. apply Nat2Z.inj_le. rewrite (mi_plen _ Sh), Z2Nat.id by (unfold wrap; change (2 ^ 32) with 4294967296; dlia).
    unfold npages, wrap, PAGE_BYTES. change (2 ^ 32) with 4294967296. unfold b in *. dlia.
Qed.

Lemma last_page addr width : is_u 32 addr -> 1 <= width <= 8 -> addr + width <= 2 ^ 32 ->
  let l := addr + width - 1 in In (l - l mod 4096) (pages_of addr width).
Proof.
  intros Ha Hw Hl l. unfold pages_of. rewrite access_pages_arith by done. unfold is_u in Ha. change (2 ^ 32) with 4294967296 in *.
  destruct (Z.ltb_spec 4096 (addr mod 4096 + width)) as [Two|One]; [right|]; left; [|unfold l; dlia].
  unfold wrap, l. change (2 ^ 32) with 4294967296. dlia.
Qed.

(** A store the touch lets pass succeeds exactly on the declared regions. *)
Lemma store_passes m addr width v : shaped m -> is_u 32 addr -> In width [1; 2; 4; 8] ->
  (touchable s true (pages_of addr width) = true -> store_writable m addr width = true /\
     exists bytes, length bytes = length (flat_mem m) /\ storer width m addr v = (with_flat m bytes, true)) /\
  (declared addr = false -> store_writable m addr width = false).
Proof.
  intros Sh Ha In_. assert (Hw : 1 <= width <= 8) by (cbn in In_; lia).
  unfold store_writable, perm_of. cbn [CopyingMemory_Memory]. rewrite (perm_at m addr Sh Ha). split.
  - intros Tc. pose proof (touchable_may s true _ Tc) as Tm. rewrite Forall_forall in Tm.
    assert (Rw : forall p, In p (pages_of addr width) -> in_data s p = true /\ page_kind s p <> PinnedCapRo).
    { intros p Hp. destruct (Tm p Hp) as [[_ ?]|[D K]]; [done|]. auto. }
    destruct (pages_of_ok addr width Ha Hw) as (_ & _ & _ & rest & Eps).
    destruct (Rw (addr - addr mod 4096)) as [D K]; [rewrite Eps; by left|]. rewrite D, bool_decide_false by done.
    destruct (touchable_data true addr width Ha Hw Tc D) as [B1 B2]. destruct LK as [_ (D1 & D2 & _) _ _ _ _].
    assert (Hl : addr + width <= 2 ^ 32) by lia. unfold is_u in Ha.
    unfold wrapping_add. rewrite (wrap_small 32) by (unfold is_u; lia). replace (addr + (width - 1)) with (addr + width - 1) by lia.
    destruct (Rw _ (last_page addr width Ha Hw Hl)) as [Dl Kl]. rewrite perm_at, Dl, bool_decide_false by (done || (unfold is_u; lia)).
    split; [done|]. rewrite storer_eq by done. unfold write_le. rewrite Z2Nat.id, (off_fits m addr width Sh Ha) by lia.
    rewrite (proj2 (Z.leb_le _ _) B1), (proj2 (Z.leb_le _ _) B2). cbn [andb]. eexists. split; [|done].
    pose proof (off_fits m addr width Sh Ha (proj1 Hw)) as Of. rewrite (proj2 (Z.leb_le _ _) B1), (proj2 (Z.leb_le _ _) B2) in Of.
    apply Z.leb_le in Of. unfold flat_len in Of. assert (0 <= off m addr) by (unfold off, wrapping_sub, wrap; dlia).
    rewrite length_splice; rewrite ?length_to_le_bytes; lia.
  - intros Dc. apply orb_false_iff in Dc as [_ ->]. done.
Qed.

(** What the arm does, in terms of the frame's pages. *)
Lemma interp_eq m (f : Faulting M) a : mirrors m f -> access_wf a -> COW_COST * 2 <= f_r15 f ->
  let w := a_write a in let ps := pages_of (a_addr a) (a_width a) in
  if touchable s w ps
  then exists m', interp_access m (mkGas (f_r15 f)) a = Ret (m', mkGas (f_r15 f - charges s f w ps), None) /\ shaped m' /\
    forall q, gp q -> rw_page s q -> mem_rw m' q <-> (w = true /\ q ∈ ps) \/ state_of s f q = PresentRw
  else interp_access m (mkGas (f_r15 f)) a = Ret (m, mkGas (f_r15 f), Some (ExitPageFault (Z.land (a_addr a) (not_u 32 0xFFF)))).
Proof.
  intros Mi Wf Hg w ps. pose proof (access_width a Wf) as Hw. destruct Wf as (Ha & In_ & _).
  pose proof (touch_eq m f w (a_addr a) (a_width a) Mi Ha Hw Hg) as T. fold ps in T. destruct Mi as [Sh _].
  unfold interp_access, exec_load, exec_store. rewrite (access_addr m _ a Ha).
  unfold touch_read, touch_write. cbn [CopyingMemory_Memory access_state st_mem st_gas st_regs st_handler]. unfold cm_touch_read, cm_touch_write.
  destruct (touchable s w ps) eqn:Tc.
  - destruct T as (st & Ls & Et & Rs). pose proof (shaped_mat m st Sh Ls) as Sh'. subst w. destruct (a_write a).
    + rewrite Et. cbn [res_bind]. destruct (proj1 (store_passes (with_mat m st) (a_addr a) (a_width a) (wrap (8 * a_width a) (reg_read (st_regs (access_state m (mkGas (f_r15 f)) a)) 11)) Sh' Ha In_) Tc) as (-> & bytes & Lb & Ew).
      unfold access_state in Ew. cbn [st_regs] in Ew. cbn [negb]. rewrite Ew. cbn [res_bind st_mem st_gas]. eexists. split; [done|]. split; [|done].
      destruct Sh'. constructor; try done. unfold flat_len in *. cbn [with_flat flat_mem]. by rewrite Lb.
    + rewrite Et. cbn [res_bind]. destruct (proj1 (loader_some (with_mat m st) (a_addr a) (a_width a) Sh' Ha In_) Tc) as [v ->].
      cbn [res_bind st_mem st_gas set_regs]. by eexists.
  - subst w. destruct (a_write a); rewrite T; cbn [res_bind]; destruct (declared (a_addr a)) eqn:Dc; cbn [res_bind page_fault st_mem st_gas set_regs]; try done.
    + rewrite (proj2 (store_passes m (a_addr a) (a_width a) 0 Sh Ha In_) Dc). done.
    + rewrite (proj2 (loader_some m (a_addr a) (a_width a) Sh Ha In_) Dc). done.
Qed.

(** ** Sequences of accesses *)

(** How the engines leave an access: both go on, or both exit with a page
    fault (code 3), the x86 engine at the guest pc of its instruction. *)
Definition same_exit (a : Access) (x : option JitExit) (r : option ExitReason) : Prop :=
  match x, r with
  | None, None => True
  | Some jc, Some (ExitPageFault _) => je_reason jc = 3 /\ je_pc jc = fst (trap_of (a_rip a))
  | _, _ => False
  end.

(** One guest access on the x86 engine, with its faults and retries, against
    the interpreter's arm of the same access. *)
Lemma access_step m f jc a k :
  access_wf a -> fault_inv s f -> mirrors m f -> COW_COST * 2 <= f_r15 f < 2 ^ 64 ->
  enough (PAGE_FRAMES * 2 + k) (heap_of f) ->
  exists f' m' x r,
    hw_access 1 f jc a = Ret (f', x) /\ interp_access m (mkGas (f_r15 f)) a = Ret (m', mkGas (f_r15 f'), r) /\
    same_exit a x r /\ fault_inv s f' /\ mirrors m' f' /\
    f_r15 f - COW_COST * 2 <= f_r15 f' <= f_r15 f /\ enough k (heap_of f').
Proof.
  intros Wf I Mi Hg En. pose proof (access_width a Wf) as Hw. pose proof (proj1 Wf) as Ha.
  pose proof (hw_access_ok f jc a k Wf I Hg En) as H. pose proof (interp_eq m f a Mi Wf (proj1 Hg)) as T. cbv zeta in H, T.
  destruct (pages_of_ok (a_addr a) (a_width a) Ha Hw) as (_ & _ & Le & _).
  destruct (touchable s (a_write a) (pages_of (a_addr a) (a_width a))) eqn:Tc.
  - destruct H as (f' & Eh & (I' & E15 & St) & En'), T as (m' & Et & Sh' & Rs). exists f', m', None, None.
    pose proof (charges_range f (a_write a) (pages_of (a_addr a) (a_width a))) as Cr. rewrite E15. do 4 (split; [done|]).
    split; [|split; [unfold COW_COST in *; lia|done]]. split; [done|]. intros q Gq Rq. rewrite Rs, St by done. done.
  - destruct H as [arg H]. eexists f, m, _, _. split; [exact H|]. split; [exact T|]. do 3 (split; [done|]).
    split; [unfold COW_COST; lia|]. apply (enough_more _ (PAGE_FRAMES * 2 + k)); (lia || done).
Qed.

(** The accesses up to the first one that is left with an exit, counted. *)
Fixpoint hw_accesses (f : Faulting M) (jc : JitExit) (l : list Access) : Res (Faulting M * nat * option JitExit) :=
  match l with
  | [] => Ret (f, O, None)
  | a :: l' =>
      let! (f, x) := hw_access 1 f jc a in
      match x with
      | None => let! (f, n, x) := hw_accesses f jc l' in Ret (f, S n, x)
      | Some _ => Ret (f, O, x)
      end
  end.

Fixpoint interp_accesses (m : CopyingMemory) (g : GasCounter) (l : list Access) : Res (CopyingMemory * GasCounter * nat * option ExitReason) :=
  match l with
  | [] => Ret (m, g, O, None)
  | a :: l' =>
      let! (m, g, r) := interp_access m g a in
      match r with
      | None => let! (m, g, n, r) := interp_accesses m g l' in Ret (m, g, S n, r)
      | Some _ => Ret (m, g, O, r)
      end
  end.

(** The exits agree for the access that took them. *)
Definition same_exits (l : list Access) (n : nat) (x : option JitExit) (r : option ExitReason) : Prop :=
  match l !! n with
  | Some a => same_exit a x r
  | None => x = None /\ r = None
  end.

Lemma accesses_step l : forall m f jc, Forall access_wf l -> fault_inv s f -> mirrors m f ->
  COW_COST * 2 * Z.of_nat (length l) <= f_r15 f < 2 ^ 64 -> enough (PAGE_FRAMES * 2 * length l) (heap_of f) ->
  exists f' m' n x r, hw_accesses f jc l = Ret (f', n, x) /\ interp_accesses m (mkGas (f_r15 f)) l = Ret (m', mkGas (f_r15 f'), n, r) /\
    same_exits l n x r /\ fault_inv s f' /\ mirrors m' f'.
Proof.
  induction l as [|a l IH]; intros m f jc Wf I Mi Hg En.
  { by exists f, m, O, None, None. }
  apply Forall_cons_1 in Wf as [Wa Wf]. cbn [length] in *.
  destruct (access_step m f jc a (PAGE_FRAMES * 2 * length l) Wa I Mi) as (f1 & m1 & x & r & E1 & T1 & X1 & I1 & Mi1 & G1 & En1);
    [unfold COW_COST in *; lia|by replace (_ + _)%nat with (PAGE_FRAMES * 2 * S (length l))%nat by lia|].
  cbn [hw_accesses interp_accesses]. rewrite E1, T1. cbn [res_bind].
  destruct x as [jx|], r as [e|]; try done; [by exists f1, m1, O, (Some jx), (Some e)|].
  destruct (IH m1 f1 jc Wf I1 Mi1) as (f2 & m2 & n & x & r & E2 & T2 & X2 & I2 & Mi2); [unfold COW_COST in *; lia|done|].
  rewrite E2, T2. cbn [res_bind]. by exists f2, m2, (S n), x, r.
Qed.
End Access.
