(* ===== verification/Flat.v ===== *)
(** * The flat personality

    Models [nub/nub-flat-guest-x86/src]: the frame memory over a shared image,
    the frame of a program and the ranges of its address space, and the policy
    hooks, and from [nub/nub-arch-x86/src/jit_run.rs] how a frame's runtime is
    built and published to the fault handler. *)

From stdpp Require Import gmap.
From S2P Require Import Prelude MachineInt Engine GasConst Mat BTreeMap Program OrdMap Task Mmu Paging Fault.

#[local] Open Scope Z_scope.

(** ** mem.rs *)

Definition PAGE : nat := Z.to_nat PAGE_BYTES.

(** The contents of the pages of an image, the last one padded. *)
Fixpoint split_at (n : nat) (image : list Z) : list (list Z) :=
  match n with
  | O => []
  | S n' =>
      match image with
      | [] => []
      | _ => resize (take PAGE image) PAGE_BYTES 0 :: split_at n' (drop PAGE image)
      end
  end.

Definition Page_split (image : list Z) : list (list Z) := split_at (length image) image.

(** A boxed page is its address; the bytes are in the heap. *)
Record FlatMem := mkFlatMem { fl_data : list Z; fl_overlay : list (option Z) }.

Definition FlatMem_new (data_pages : list Z) : FlatMem := mkFlatMem data_pages (replicate (length data_pages) None).

Definition FlatMem_pages (m : FlatMem) : Z := Z.of_nat (length (fl_overlay m)).

(** The page that [idx] reads from: this frame's copy, else the shared one. *)
Definition flat_page (m : FlatMem) (idx : Z) : option Z :=
  match fl_overlay m !! Z.to_nat idx with
  | Some (Some p) => Some p
  | _ => fl_data m !! Z.to_nat idx
  end.

Definition page_bytes (w : World) (m : FlatMem) (idx : Z) : option (list Z) :=
  match flat_page m idx with Some p => w_pages w !! p | None => None end.

Section FlatMem.
  Context {L : KernelLayout}.

Definition flat_page_source (m : FlatMem) (idx : Z) : PageSource :=
  match flat_page m idx with
  | None => SrcMissing
  | Some p => match va_to_pa p with Some pa => SrcPa pa | None => SrcMissing end
  end.

Definition flat_overlay_has (m : FlatMem) (idx : Z) : bool :=
  match fl_overlay m !! Z.to_nat idx with Some (Some _) => true | _ => false end.

(** [Box::new] panics when the allocator is empty. *)
Definition flat_alloc_cow_page (w : World) (src : list Z) : Res (World * option (Z * Z)) :=
  match free (w_heap w) with
  | Some va :: f =>
      let h := mkHeap (tables (w_heap w)) f in
      match va_to_pa va with
      | Some pa => Ret (mkWorld h (<[va := src]> (w_pages w)), Some (va, pa))
      | None => Ret (mkWorld h (w_pages w), None)
      end
  | _ => Abort
  end.

Definition flat_commit (m : FlatMem) (idx : Z) (page : Z) : FlatMem :=
  mkFlatMem (fl_data m) (<[Z.to_nat idx := Some page]> (fl_overlay m)).

#[export] Instance FlatMem_FrameMem : FrameMem FlatMem Z := {
  page_source := flat_page_source;
  overlay_has := flat_overlay_has;
  alloc_cow_page := flat_alloc_cow_page;
  commit_overlay_page := flat_commit }.
End FlatMem.

(** ** store.rs *)

(** A published program: the blob, the addresses of the pages of its image, and
    the physical address of its page-rounded code. *)
Record PublishedProgram := mkPublished { pub_blob : ProgramBlob; data_pages : list Z; pub_code_pa : Z }.

(** The length of the page-rounded copy of the code. *)
Definition pub_code_len (p : PublishedProgram) : Z :=
  next_multiple_of (Z.max (Z.of_nat (length (code (pub_blob p)))) 1) PAGE_BYTES.

(** ** jit_run.rs: the runtime of a frame *)

Definition META_PML4_BASE : Z := Z.shiftl 1 39.
Definition CTX_VA_M : Z := META_PML4_BASE.
Definition META_BASE_M : Z := META_PML4_BASE + Z.shiftl 1 30.
Definition STACK_VA_M : Z := META_PML4_BASE + Z.shiftl 2 30.

(** What the compile cache holds of a program; the lane's subtree of fixed pages
    is the physical address of its root, absent when it cannot be built. *)
Record CompiledImage := mkCompiled {
  ci_jit_size : Z;
  ci_dispatch_offset : Z;
  ci_jit_offset : Z;
  ci_tramp_offset : Z;
  ci_exit_label_offset : Z;
  ci_trap_table : list (Z * Z * Z);
  ci_template_pdpt_pa : option Z }.

Record FrameRuntime := mkRuntime {
  fr_pt : PageTable;
  fr_jit_va : Z;
  fr_jit_size : Z;
  fr_dispatch_va : Z;
  fr_exit_label_va : Z;
  fr_trap_table : list (Z * Z * Z);
  fr_tramp_va : Z;
  fr_new_cr3 : Z;
  fr_mat_ranges : list MatRange;
  fr_data_base : Z;
  fr_mem_top : Z;
  fr_code_base : Z;
  fr_code_top : Z;
  fr_code_pa : Z }.

Section Runtime.
  Context {L : KernelLayout}.

Definition build_frame_runtime (h : Paging.Heap) (cr3 : Z) (cached : CompiledImage) (code_len code_base code_pa data_base mem_size : Z)
    (mat_ranges : list MatRange) : Res (Paging.Heap * option FrameRuntime) :=
  if ci_jit_size cached =? 0 then Ret (h, None)
  else
    let dispatch_va := META_BASE_M + ci_dispatch_offset cached in
    let jit_va := META_BASE_M + ci_jit_offset cached in
    let tramp_va := META_BASE_M + ci_tramp_offset cached in
    let mem_bytes := next_multiple_of (saturating_sub mem_size data_base) PAGE_BYTES in
    let! (h, r) := PageTable_new cr3 h in
    let^ pt := r else (h, None) in
    let mem_top := wrap 32 (data_base + mem_bytes) in
    let code_bytes_rounded := next_multiple_of code_len PAGE_BYTES in
    let code_top := saturating_add 32 code_base (wrap 32 code_bytes_rounded) in
    let^ pdpt_pa := ci_template_pdpt_pa cached else (PageTable_drop h pt, None) in
    let! (h, _) := install_borrowed_pdpt h pt META_PML4_BASE pdpt_pa in
    let^ new_cr3 := pt_cr3 pt else (PageTable_drop h pt, None) in
    Ret (h, Some (mkRuntime pt jit_va (ci_jit_size cached) dispatch_va (jit_va + ci_exit_label_offset cached)
                    (ci_trap_table cached) tramp_va new_cr3 mat_ranges data_base mem_top code_base code_top code_pa)).

(** The lane state [enter_frame] publishes before it drops to ring 3. *)
Definition publish (zero_pa : Z) (rt : FrameRuntime) : LaneJitState :=
  mkLane (fr_new_cr3 rt) (fr_jit_va rt) (fr_jit_size rt) (fr_exit_label_va rt) (fr_trap_table rt) (fr_mat_ranges rt) zero_pa true
    (fr_data_base rt) (fr_mem_top rt) (fr_code_base rt) (fr_code_top rt) (fr_code_pa rt) true true (pt_pml4 (fr_pt rt)) true.

(** The register file of the context page at entry: the persisted slots, then
    the two spilled ones at zero. *)
Definition entry_regs_file (initial_regs : list Z) : list Z := take 13 initial_regs ++ [0; 0].

(** The mapping the handler starts from. *)
Definition entered {M : Type} (w : World) (rt : FrameRuntime) (mat ro : list Z) (mem : M) (gas : Z) : Faulting M :=
  mkFaulting w (pt_owned (fr_pt rt)) mat ro mem gas [].
End Runtime.

(** ** frame.rs *)

Definition NUM_REGS : nat := 13.
Definition ERR_PROGRAM_NOT_FOUND : Z := 0x1000.
Definition ERR_NO_SUCH_ENDPOINT : Z := 0x1001.
Definition ERR_CODE_PA : Z := 0x1002.
Definition ERR_JIT_FAILED : Z := 0x1003.
Definition ERR_UNSUPPORTED_ECALL : Z := 0x1004.

Record FlatFrame := mkFlatFrame {
  ff_program : PublishedProgram;
  ff_pc : Z;
  ff_regs : list Z;
  ff_mem : FlatMem;
  ff_mat_state : list Z;
  ff_ro_units : list Z;
  ff_runtime : option FrameRuntime }.

(** A register index past the file is skipped; the four arguments are not. *)
Definition seed_flat (regs : list Z) (l : BTreeMap Z) : list Z :=
  fold_left (fun regs kv => <[Z.to_nat (fst kv) := snd kv]> regs) l regs.

Definition FlatFrame_new (p : PublishedProgram) (endpoint : Z) (args : list Z) : Result FlatFrame Z :=
  match bt_get endpoint (endpoints (pub_blob p)) with
  | None => Err ERR_NO_SUCH_ENDPOINT
  | Some ep =>
      let regs := seed_flat (replicate NUM_REGS 0) (initial_regs ep) in
      let regs := splice regs 7 args in
      let mem := FlatMem_new (data_pages p) in
      Ok (mkFlatFrame p (entry_pc ep) regs mem (replicate (Z.to_nat (FlatMem_pages mem)) 0) [] None)
  end.

(** The read-only regions first, then one range for all the data. *)
Definition flat_extent (m : FlatMem) : Z := wrap 32 (FlatMem_pages m * PAGE_BYTES).
Definition flat_mem_size (m : FlatMem) : Z := saturating_add 32 DATA_BASE (flat_extent m).
Definition flat_ranges (blob : ProgramBlob) (m : FlatMem) : list MatRange :=
  List.map (fun r => mkMatRange (wrap 32 (region_start r)) (wrap 32 (region_start r + region_size r)) (PageKind_as_u8 PinnedCapRo))
    (List.filter (fun r => is_read_only (kind r)) (regions_iter (regions blob))) ++
  (if 0 <? flat_extent m then [mkMatRange DATA_BASE (flat_mem_size m) (PageKind_as_u8 UnpinnedCapCow)] else []).

Definition build_runtime {L : KernelLayout} (h : Paging.Heap) (cr3 : Z) (cached : CompiledImage) (f : FlatFrame) :
    Res (Paging.Heap * Result FrameRuntime Z) :=
  let p := ff_program f in
  if pub_code_pa p =? 0 then Ret (h, Err ERR_CODE_PA)
  else
    let! (h, r) := build_frame_runtime h cr3 cached (pub_code_len p) CODE_BASE (pub_code_pa p) DATA_BASE
                     (flat_mem_size (ff_mem f)) (flat_ranges (pub_blob p) (ff_mem f)) in
    Ret (h, match r with Some rt => Ok rt | None => Err ERR_JIT_FAILED end).

(** ** personality.rs *)

(** [type MeterKey = ()]. *)
#[export] Instance ord_unit : OrdKey unit.
Proof. refine {| cmp := fun _ _ => Eq |}; [by intros [] []|done|done]. Defined.

Section Personality.
  (** The published programs by content hash, the ring-3 cycle of a frame, and the
      first data page of a frame as memory holds it. *)
  Context (ring3 : Z -> FlatFrame -> Z -> Res (Result (ExitInfo * FlatFrame) Z)) (page0 : FlatFrame -> option (list Z)).

Definition FlatStore : Type := OrdMap (list Z) PublishedProgram.

Definition OP_HALT : Z := 0.

Definition flat_build_root_frame (store : FlatStore) (root : list Z) (endpoint_idx : Z) (args : list Z) :
    Res (Result (FlatFrame * unit) Z) :=
  Ret (match om_get root store with
       | None => Err ERR_PROGRAM_NOT_FOUND
       | Some program =>
           if endpoint_idx <? 256 then
             match FlatFrame_new program endpoint_idx args with Ok f => Ok (f, tt) | Err e => Err e end
           else Err ERR_NO_SUCH_ENDPOINT
       end).

(** [frame_at]: a reference entry has no frame of its own here. *)
Definition own_frame (stack : list (StackEntry FlatFrame unit)) (idx : nat) : option FlatFrame :=
  match stack !! idx with
  | Some e => match st_kind e with EInstance f => Some f | EReference => None end
  | None => None
  end.

(** [head[..n].copy_from_slice(&page[..n])] over zeros. *)
Definition flat_scratchpad_head (c : TaskCtx FlatFrame unit unit) : list Z :=
  match own_frame (ctx_stack c) (top_idx c) with
  | Some f => match page0 f with Some page => take HEAD_LEN page ++ replicate (HEAD_LEN - length page) 0 | None => replicate HEAD_LEN 0 end
  | None => replicate HEAD_LEN 0
  end.

Definition flat_on_halt : Hook FlatStore FlatFrame unit unit := fun w c info =>
  Ret (w, Ok (c, FlowDone (outcome c (ei_reason info) (ei_arg info) (nth 7 (ei_regs info) 0) (flat_scratchpad_head c)))).

Definition flat_on_ecall (op : Z) : Hook FlatStore FlatFrame unit unit := fun w c info =>
  if negb (op =? OP_HALT) then Ret (w, Err ERR_UNSUPPORTED_ECALL)
  else
    let is_ecalli := ei_reason info =? EXIT_HOST_CALL in
    let cost := ecall_dynamic_cost is_ecalli in
    if live_gas (ctx_gas c) <? cost then
      Ret (w, Ok (c, FlowDone (outcome c EXIT_OOG 0 (nth 7 (ei_regs info) 0) (replicate HEAD_LEN 0))))
    else
      let c := with_gas c (set_live (ctx_gas c) (live_gas (ctx_gas c) - cost)) in
      Ret (w, Ok (c, FlowDone (outcome c (ei_reason info) (ei_arg info) (nth 7 (ei_regs info) 0) (flat_scratchpad_head c)))).

Definition flat_set_exit_state (f : FlatFrame) (regs : list Z) (pc : Z) : FlatFrame :=
  mkFlatFrame (ff_program f) pc regs (ff_mem f) (ff_mat_state f) (ff_ro_units f) (ff_runtime f).

#[export] Instance Flat : GuestPersonality FlatStore FlatFrame unit unit := {
  build_root_frame := flat_build_root_frame;
  active_meter := fun _ _ => Ret None;
  run_one_entry := ring3;
  set_exit_state := flat_set_exit_state;
  on_halt := flat_on_halt;
  on_ecall := flat_on_ecall;
  on_exit := on_exit_default }.
End Personality.
