(* ===== verification/FlatFacts.v ===== *)
(** * The flat personality: theorems

    A frame of a published program starts with the address space the interpreter
    starts with, and from then on every access of the guest is performed,
    refused and charged alike by the page tables with the page-fault handler and
    by the load and store arms of the interpreter. *)

From Stdlib Require Import Sorted.
From stdpp Require Import gmap.
From S2P Require Import Prelude MachineInt OrdMap Engine GasConst Mat Mem Interp BTreeMap Program Local Task.
From S2P Require Import Mmu Paging PagingFacts PagingMap Fault FaultFacts FaultParity Flat.

#[local] Open Scope Z_scope.

(** ** The memory of a frame *)

#[export] Instance FlatMem_laws {L : KernelLayout} : FrameMemLaws FlatMem.
Proof.
  refine {| fm_pages := FlatMem_pages |}.
  intros w src va f Ef (pa & Epa & _ & _) _. exists va, pa. split; [done|]. split.
  - intros m i Hi m'. unfold FlatMem_pages in *. cbn in *. unfold flat_page_source, flat_page, flat_overlay_has. subst m'. cbn [commit_overlay_page FlatMem_FrameMem flat_commit fl_overlay fl_data].
    assert (Li : (Z.to_nat i < length (fl_overlay m))%nat) by lia.
    rewrite length_insert, !list_lookup_insert_eq by done. rewrite Epa. split_and!; try done.
    intros j Hj Nj. by rewrite !list_lookup_insert_ne by lia.
  - cbn. unfold flat_alloc_cow_page. by rewrite Ef, Epa.
Defined.

Lemma FlatMem_new_pages data : FlatMem_pages (FlatMem_new data) = Z.of_nat (length data).
Proof. unfold FlatMem_pages. cbn. by rewrite length_replicate. Qed.

Lemma flat_new_page data i : flat_page (FlatMem_new data) i = data !! Z.to_nat i.
Proof.
  unfold flat_page. cbn [FlatMem_new fl_overlay fl_data]. destruct (replicate _ _ !! _) as [[p|]|] eqn:E; try done.
  apply lookup_replicate in E as [E _]. done.
Qed.

Lemma flat_new_overlay {L : KernelLayout} data i : overlay_has (FlatMem_new data) i = false.
Proof.
  cbn. unfold flat_overlay_has. cbn [FlatMem_new fl_overlay]. destruct (replicate _ _ !! _) as [[p|]|] eqn:E; try done.
  apply lookup_replicate in E as [E _]. done.
Qed.

(** *** The pages of an image *)

Lemma PAGE_pos : (0 < PAGE)%nat.
Proof. apply Nat.ltb_lt. vm_compute. reflexivity. Qed.

Lemma PAGE_Z : Z.of_nat PAGE = 4096.
Proof. vm_compute. reflexivity. Qed.

Lemma split_at_lookup n image i k : (k <= n)%nat -> length image = (k * PAGE)%nat -> (i < k)%nat ->
  split_at n image !! i = Some (take PAGE (drop (i * PAGE) image)).
Proof.
  pose proof PAGE_pos as P. revert image i k. induction n as [|n IH]; intros image i k Hn Hl Hi; [lia|]. cbn [split_at].
  destruct image as [|x l] eqn:E; [destruct k; [lia|]; cbn in Hl; lia|]. rewrite <- E in *. clear E x l. destruct k as [|k]; [lia|]. cbn [Nat.mul] in Hl.
  destruct i as [|i].
  - cbn [lookup list_lookup Nat.mul]. rewrite drop_0. unfold resize. fold PAGE.
    by rewrite take_take, Nat.min_id, length_take, Nat.min_l, Nat.sub_diag, app_nil_r by lia.
  - cbn [lookup list_lookup Nat.mul]. rewrite (IH _ i k); rewrite ?length_drop; try lia. by rewrite drop_drop.
Qed.

Lemma Page_split_lookup image k i : length image = (k * PAGE)%nat -> (i < k)%nat ->
  Page_split image !! i = Some (take PAGE (drop (i * PAGE) image)).
Proof. intros Hl Hi. apply (split_at_lookup _ _ _ k); [|done|done]. pose proof PAGE_pos. nia. Qed.

Lemma Page_split_length image k : length image = (k * PAGE)%nat -> length (Page_split image) = k.
Proof.
  unfold Page_split. pose proof PAGE_pos as P. assert (H : forall n image k, (k <= n)%nat -> length image = (k * PAGE)%nat -> length (split_at n image) = k).
  { clear image k. induction n as [|n IH]; intros image k Hn Hl; [cbn; lia|]. cbn [split_at].
    destruct image as [|x l] eqn:E; [destruct k; [done|]; cbn in Hl; lia|]. rewrite <- E in *.
    destruct k as [|k]; [subst image; cbn in Hl; lia|]. clear E x l. cbn [length Nat.mul] in *. rewrite (IH _ k); rewrite ?length_drop; lia. }
  intros Hl. apply H; [nia|done].
Qed.

(** The pages of a program in the heap, with the bytes of its image. *)
Definition published {L : KernelLayout} (w : World) (p : PublishedProgram) (image : list Z) : Prop :=
  length (data_pages p) = length (Page_split image) /\
  forall i kva, data_pages p !! i = Some kva -> addr_ok kva /\ w_pages w !! kva = Page_split image !! i.

(** ** The address space of a frame *)

(** The trap table in the order the recompiler emits it. *)
Definition trap_lt (x y : Z * Z * Z) : Prop := fst (fst x) < fst (fst y).

(** What building a runtime starts from: a kernel with a root in use, whose
    guest and lane slots are empty, and a free page for the new one; compiled
    code with its trap table; and the lane's subtree of fixed pages. *)
Record kernel_ready {L : KernelLayout} (w : World) (cr3 src pml4 : Z) (fr : list (option Z)) (cached : CompiledImage) (pdpt_pa pdpt : Z) : Prop := {
  kr_ok : kernel_ok (w_heap w) cr3 src;
  kr_free : free (w_heap w) = Some pml4 :: fr;
  kr_root : pml4 <> 0;
  kr_lane : exists e, hget (w_heap w) src 1 = Some e /\ PTE_P e = false;
  kr_jit : 0 < ci_jit_size cached < 2 ^ 32 /\ 0 <= ci_jit_offset cached < 2 ^ 32;
  kr_traps : StronglySorted trap_lt (ci_trap_table cached);
  kr_template : ci_template_pdpt_pa cached = Some pdpt_pa /\ frame_addr pdpt_pa /\ pa_to_va pdpt_pa = Some pdpt;
  kr_subtree : forall q t, (length q <= 2)%nat -> Forall is_idx q -> at_path (w_heap w) pdpt q = Some t -> ~ future (w_heap w) t;
  kr_pages : forall va, future (w_heap w) va -> w_pages w !! va = None }.

Section Ready.
  Context {L : KernelLayout} (w : World) (cr3 src pml4 : Z) (fr : list (option Z)) (cached : CompiledImage) (pdpt_pa pdpt : Z).
  Hypothesis K : kernel_ready w cr3 src pml4 fr cached pdpt_pa pdpt.

Definition new_heap : Paging.Heap :=
  mkHeap (<[pml4 := default [] (tables (w_heap w) !! src)]> (<[pml4 := replicate ENTRIES 0]> (tables (w_heap w)))) fr.
Definition built_heap : Paging.Heap := put new_heap pml4 1 (inner_pte pdpt_pa).

Lemma src_table : tables (w_heap w) !! src = Some (default [] (tables (w_heap w) !! src)).
Proof. destruct (ko_table _ _ _ (kr_ok _ _ _ _ _ _ _ _ K)) as (l & -> & _). done. Qed.

Lemma new_heap_ok : pt_ok new_heap pml4 [pml4].
Proof. exact (new_pt_ok _ _ _ _ _ _ (kr_ok _ _ _ _ _ _ _ _ K) (kr_free _ _ _ _ _ _ _ _ K) src_table). Qed.

Lemma pml4_future : future (w_heap w) pml4.
Proof. unfold future. rewrite (kr_free _ _ _ _ _ _ _ _ K). by left. Qed.

Lemma new_subtree q t : (length q <= 2)%nat -> Forall is_idx q -> at_path new_heap pdpt q = Some t -> ~ (t ∈ [pml4]) /\ ~ future new_heap t.
Proof.
  intros Lq Fq H.
  assert (at_path new_heap pdpt q = at_path (w_heap w) pdpt q) as E.
  { apply at_path_ext. intros q0 j q' u -> A. unfold hget. cbn [new_heap tables]. rewrite length_app in Lq. apply Forall_app in Fq as [Fq _].
    rewrite !lookup_insert_ne; [done|..]; intros <-; apply (kr_subtree _ _ _ _ _ _ _ _ K q0 pml4); (lia || done || apply pml4_future). }
  rewrite E in H. pose proof (kr_subtree _ _ _ _ _ _ _ _ K q t Lq Fq H) as N. split.
  - intros Ht. apply list_elem_of_singleton in Ht. apply N. rewrite Ht. apply pml4_future.
  - intros Ht. apply N. unfold future. rewrite (kr_free _ _ _ _ _ _ _ _ K). by right.
Qed.

Lemma built_ok : pt_ok built_heap pml4 [pml4].
Proof.
  destruct (kr_template _ _ _ _ _ _ _ _ K) as (_ & Fp & Bp).
  apply (inst_pt_ok new_heap pml4 [pml4] 1 pdpt_pa pdpt new_heap_ok); (done || apply new_subtree).
Qed.

(** Nothing of the guest is mapped yet. *)
Lemma built_view p : gp p -> xlate built_heap pml4 p = None.
Proof.
  intros G. destruct (kr_template _ _ _ _ _ _ _ _ K) as (_ & Fp & Bp).
  rewrite (inst_xlate new_heap pml4 [pml4] 1 pdpt_pa pdpt new_heap_ok) by (done || apply new_subtree).
  destruct G as [G _]. rewrite bool_decide_false by (rewrite gp_slot by done; done).
  etransitivity; [apply (new_xlate _ _ _ _ _ _ (kr_ok _ _ _ _ _ _ _ _ K) (kr_free _ _ _ _ _ _ _ _ K) src_table)|].
  by rewrite bool_decide_true by by apply gp_slot.
Qed.

Lemma built_result code_len cb cpa db ms ranges :
  exists rt c, va_to_pa pml4 = Some c /\
  build_frame_runtime (w_heap w) cr3 cached code_len cb cpa db ms ranges = Ret (built_heap, Some rt) /\
  fr_pt rt = mkPageTable pml4 [pml4] /\ fr_new_cr3 rt = c /\ fr_mat_ranges rt = ranges /\ fr_data_base rt = db /\
  fr_mem_top rt = wrap 32 (db + next_multiple_of (saturating_sub ms db) PAGE_BYTES) /\
  fr_code_base rt = cb /\ fr_code_top rt = saturating_add 32 cb (wrap 32 (next_multiple_of code_len PAGE_BYTES)) /\ fr_code_pa rt = cpa /\
  fr_trap_table rt = ci_trap_table cached /\ fr_jit_va rt = META_BASE_M + ci_jit_offset cached /\ fr_jit_size rt = ci_jit_size cached /\
  fr_exit_label_va rt = META_BASE_M + ci_jit_offset cached + ci_exit_label_offset cached.
Proof.
  destruct (kr_template _ _ _ _ _ _ _ _ K) as (Et & Fp & Bp).
  destruct (po_live _ _ _ new_heap_ok pml4) as ((c & Ec & _) & _); [by left|].
  unfold build_frame_runtime. rewrite (proj2 (Z.eqb_neq (ci_jit_size cached) 0)) by (destruct (kr_jit _ _ _ _ _ _ _ _ K); lia).
  rewrite (new_result _ _ _ _ _ _ (kr_ok _ _ _ _ _ _ _ _ K) (kr_free _ _ _ _ _ _ _ _ K) src_table). cbn [res_bind].
  rewrite Et. unfold install_borrowed_pdpt. cbn [pt_pml4]. change (negb _) with false. cbn match. change (index_at 39 META_PML4_BASE) with 1.
  destruct (kr_lane _ _ _ _ _ _ _ _ K) as (e0 & E0 & P0).
  assert (hget new_heap pml4 1 = Some e0) as E0' by (rewrite <- E0; apply (new_root _ _ _ _ _ src_table)).
  fold new_heap. rewrite (proj2 (get_entry_hget _ _ _ _) E0'). cbn [res_bind]. rewrite debug_assert_true by (by rewrite land_P, P0). cbn [res_bind].
  rewrite (set_entry_put _ _ _ _ e0 E0'). cbn [res_bind]. unfold pt_cr3. cbn [pt_pml4]. rewrite Ec.
  eexists _, c. split; [done|]. split; [reflexivity|]. done.
Qed.
End Ready.

(** ** The lane of a program *)

(** A published program whose frames can be entered; the room below the data
    region leaves an unmapped page above the code. *)
Record enterable {L : KernelLayout} (w : World) (p : PublishedProgram) (args : list Z) (zero_pa : Z) : Prop := {
  en_run : runnable (pub_blob p) args;
  en_pages : page_sum (regions (pub_blob p)) < 0xF0000;
  en_code : 0 < vlen (code (pub_blob p));
  en_room : next_multiple_of (vlen (code (pub_blob p))) PAGE_BYTES < MAX_CODE_SIZE;
  en_pub : published w p (image_of (pub_blob p));
  en_pa : pub_code_pa p <> 0 /\ zero_pa <> 0 }.

Section Lane.
  Context {L : KernelLayout} (w : World) (p : PublishedProgram) (args : list Z) (zero_pa : Z) (s : LaneJitState).
  Hypothesis E : enterable w p args zero_pa.

Let rs := regions (pub_blob p).
Let m0 := FlatMem_new (data_pages p).
Let rounded := next_multiple_of (vlen (code (pub_blob p))) PAGE_BYTES.

Lemma en_regions : regions_wf rs.
Proof. apply (bw_regions _ (ra_wf _ _ (en_run _ _ _ _ E))). Qed.

Lemma rounded_ok : 0 < rounded < MAX_CODE_SIZE /\ rounded mod 4096 = 0 /\ next_multiple_of (pub_code_len p) PAGE_BYTES = rounded.
Proof.
  pose proof (en_code _ _ _ _ E) as C. pose proof (en_room _ _ _ _ E) as R. fold rounded in R. unfold pub_code_len.
  fold (vlen (code (pub_blob p))). rewrite Z.max_l by lia. fold rounded. unfold rounded, next_multiple_of, div_ceil in *.
  change PAGE_BYTES with 4096 in *. split_and!; try dlia.
Qed.

Lemma flat_pages : FlatMem_pages m0 = page_sum rs.
Proof.
  destruct (en_run _ _ _ _ E) as [W V S _ _]. pose proof (image_of_length _ W V) as Li. pose proof en_regions as [].
  unfold m0. rewrite FlatMem_new_pages. destruct (en_pub _ _ _ _ E) as [-> _].
  rewrite (Page_split_length _ (Z.to_nat (page_sum rs))).
  - unfold page_sum, is_u in *. lia.
  - apply Nat2Z.inj. rewrite Nat2Z.inj_mul, PAGE_Z. unfold vlen in Li. fold rs in Li. rewrite Li. unfold page_sum, is_u in *. lia.
Qed.

Lemma flat_size : flat_extent m0 = page_sum rs * 4096 /\ flat_mem_size m0 = DATA_BASE + page_sum rs * 4096.
Proof.
  pose proof (en_pages _ _ _ _ E) as B. fold rs in B. pose proof en_regions as []. unfold flat_mem_size, flat_extent. rewrite flat_pages.
  change PAGE_BYTES with 4096. rewrite wrap_small by (unfold page_sum, is_u in *; lia). split; [done|].
  unfold saturating_add. apply Z.min_l. unfold page_sum, is_u, DATA_BASE in *. lia.
Qed.

(** What the lane publishes for the program. *)
Record lane_of : Prop := {
  lo_set : active_pt_pml4_kva s <> 0 /\ owned_vec_set s = true /\ overlay_sink_set s = true /\ mat_state_set s = true /\ ro_units_set s = true;
  lo_data : mat_data_base s = DATA_BASE /\ mat_mem_top s = DATA_BASE + page_sum rs * 4096;
  lo_code : mat_code_base s = CODE_BASE /\ mat_code_top s = CODE_BASE + rounded;
  lo_zero : mat_zero_pa s = zero_pa;
  lo_ranges : mat_ranges s = flat_ranges (pub_blob p) m0 }.

Hypothesis S : lane_of.

Lemma lane_in_data q : in_data s q = true <-> DATA_BASE <= q < DATA_BASE + page_sum rs * 4096.
Proof. unfold in_data. destruct (lo_data S) as [-> ->]. rewrite !andb_true_iff, !Z.leb_le, !Z.ltb_lt. lia. Qed.

(** The read-only range comes first. *)
Lemma lane_ranges : mat_ranges s =
  (if ro_pages rs =? 0 then [] else [mkMatRange (DATA_BASE + stack_pages rs * 4096) (DATA_BASE + (stack_pages rs + ro_pages rs) * 4096) (PageKind_as_u8 PinnedCapRo)]) ++
  (if 0 <? page_sum rs then [mkMatRange DATA_BASE (DATA_BASE + page_sum rs * 4096) (PageKind_as_u8 UnpinnedCapCow)] else []).
Proof.
  pose proof (en_pages _ _ _ _ E) as B. fold rs in B. pose proof en_regions as Wr.
  rewrite (lo_ranges S). unfold flat_ranges. fold rs. rewrite ro_regions by (done || lia). destruct flat_size as [-> ->].
  f_equal.
  - destruct (Z.eqb_spec (ro_pages rs) 0); [done|]. destruct Wr. cbn [List.map]. unfold region_start, region_size. cbn [base_page page_count].
    unfold page_sum, is_u, DATA_BASE, ABI_PAGE_SIZE in *. rewrite !wrap_small by (unfold is_u; lia). do 2 f_equal; lia.
  - destruct (Z.ltb_spec 0 (page_sum rs * 4096)), (Z.ltb_spec 0 (page_sum rs)); (done || lia).
Qed.

Lemma lane_range q : in_data s q = true -> mat_range_for s q =
  Some (if in_ro rs q then mkMatRange (DATA_BASE + stack_pages rs * 4096) (DATA_BASE + (stack_pages rs + ro_pages rs) * 4096) (PageKind_as_u8 PinnedCapRo)
        else mkMatRange DATA_BASE (DATA_BASE + page_sum rs * 4096) (PageKind_as_u8 UnpinnedCapCow)).
Proof.
  rewrite lane_in_data. intros H. unfold mat_range_for. rewrite lane_ranges. rewrite (proj2 (Z.ltb_lt 0 (page_sum rs))) by lia.
  destruct en_regions. unfold in_ro, page_sum, is_u in *. destruct (Z.eqb_spec (ro_pages rs) 0) as [Z0|]; cbn [app List.find mr_start mr_end].
  - rewrite Z0. rewrite (proj2 (Z.leb_le DATA_BASE q)), (proj2 (Z.ltb_lt q _)) by lia. cbn [andb].
    destruct (Z.leb_spec (DATA_BASE + stack_pages rs * 4096) q), (Z.ltb_spec q (DATA_BASE + (stack_pages rs + 0) * 4096)); (done || lia).
  - destruct (_ && _); [done|]. by rewrite (proj2 (Z.leb_le DATA_BASE q)), (proj2 (Z.ltb_lt q _)) by lia.
Qed.

Lemma lane_kind q : in_data s q = true -> page_kind s q = if in_ro rs q then PinnedCapRo else UnpinnedCapCow.
Proof. intros D. unfold page_kind. rewrite lane_range by done. by destruct (in_ro rs q). Qed.

Lemma in_ro_data q : in_ro rs q = true -> in_data s q = true.
Proof.
  unfold in_ro. rewrite andb_true_iff, Z.leb_le, Z.ltb_lt, lane_in_data. destruct en_regions. unfold page_sum, is_u in *. lia.
Qed.

Lemma lane_lane_ok : lane_ok s.
Proof.
  pose proof (en_pages _ _ _ _ E) as B. fold rs in B. destruct rounded_ok as (R1 & R2 & _). pose proof en_regions as Wr.
  constructor; [apply S|..].
  - destruct (lo_data S) as [-> ->]. destruct Wr. unfold page_sum, is_u, DATA_BASE in *. change PAGE_BYTES with 4096. split_and!; dlia.
  - destruct (lo_code S) as [-> ->], (lo_data S) as [-> _]. unfold MAX_CODE_SIZE, CODE_BASE, DATA_BASE in *. change PAGE_BYTES with 4096. split_and!; dlia.
  - rewrite (lo_zero S). apply (en_pa _ _ _ _ E).
  - intros q D. rewrite lane_range by done. by destruct (in_ro rs q); eexists _, _.
  - intros r. rewrite lane_ranges. intros Hr Hk. apply in_app_iff in Hr as [Hr|Hr].
    + destruct (Z.eqb_spec (ro_pages rs) 0); [done|]. destruct Hr as [<-|[]]. cbn [mr_start mr_end]. destruct (lo_data S) as [-> ->].
      change PAGE_BYTES with 4096. split_and!; try (destruct Wr; unfold page_sum, is_u, DATA_BASE in *; dlia).
      intros q Hq. assert (Ro : in_ro rs q = true) by (unfold in_ro; rewrite andb_true_iff, Z.leb_le, Z.ltb_lt; lia).
      rewrite lane_range by (by apply in_ro_data). by rewrite Ro.
    + destruct (0 <? page_sum rs); [|done]. destruct Hr as [<-|[]]. done.
Qed.

Lemma lane_npages : npages s = page_sum rs.
Proof. unfold npages. destruct (lo_data S) as [-> ->]. change PAGE_BYTES with 4096. replace (_ - _) with (page_sum rs * 4096) by lia. by apply Z.div_mul. Qed.

(** The interpreter's memory of the same blob. *)
Lemma lane_shaped : shaped s (prepared_memory (pub_blob p)).
Proof.
  pose proof (en_pages _ _ _ _ E) as B. fold rs in B. destruct rounded_ok as (R1 & R2 & _). pose proof en_regions as Wr.
  destruct (en_run _ _ _ _ E) as [W V S0 _ _]. pose proof (image_of_length _ W V) as Li. fold rs in Li.
  constructor.
  - by destruct (lo_data S) as [-> _].
  - destruct (lo_data S) as [-> ->]. unfold flat_len. cbn. unfold vlen in Li. lia.
  - destruct (lo_code S) as [-> ->]. split; [done|]. cbn. pose proof (en_code _ _ _ _ E).
    rewrite (wrap_small 32 (vlen (code (pub_blob p)))), wrap_small; change PAGE_SIZE with PAGE_BYTES; fold rounded.
    + unfold saturating_add. apply Z.min_l. unfold MAX_CODE_SIZE, CODE_BASE, DATA_BASE in *. lia.
    + unfold is_u, MAX_CODE_SIZE, CODE_BASE, DATA_BASE in *. lia.
    + assert (vlen (code (pub_blob p)) <= rounded). { unfold rounded, next_multiple_of, div_ceil. change PAGE_BYTES with 4096. dlia. }
      unfold is_u, MAX_CODE_SIZE, CODE_BASE, DATA_BASE in *. lia.
  - intros q G D. cbn [perms prepared_memory set_code_region]. rewrite (lane_kind q D).
    rewrite data_memory_lookup by (destruct Wr; unfold is_u in *; fold rs; lia). fold rs.
    pose proof (page_no_range s lane_lane_ok q D) as Rq. rewrite lane_npages in Rq.
    rewrite bool_decide_true by (unfold page_sum in Rq; lia). f_equal.
    assert (in_ro rs q = bool_decide (Z.to_nat (stack_pages rs) <= Z.to_nat (page_no s q) < Z.to_nat (stack_pages rs + ro_pages rs))%nat) as ->.
    { apply eq_true_iff_eq. unfold in_ro. rewrite andb_true_iff, Z.leb_le, Z.ltb_lt, bool_decide_eq_true. destruct G as [_ G]. apply lane_in_data in D.
      unfold page_no. destruct (lo_data S) as [-> _]. destruct Wr. unfold is_u, DATA_BASE in *. change PAGE_BYTES with 4096 in *. dlia. }
    by destruct (bool_decide (_ <= _ < _)%nat).
  - cbn [perms prepared_memory set_code_region]. rewrite data_memory_perms by (destruct Wr; unfold is_u in *; fold rs; lia).
    rewrite lane_npages. fold rs. destruct Wr. unfold page_sum, is_u in *. lia.
  - cbn. rewrite length_replicate, lane_npages. fold rs. destruct Wr. unfold page_sum, is_u in *. lia.
Qed.
End Lane.

(** ** A frame that is entered *)

Lemma default_replicate n i : default 0 (replicate n 0 !! i) = 0.
Proof. destruct (replicate n 0 !! i) as [x|] eqn:E; [|done]. by apply lookup_replicate in E as [-> _]. Qed.

(** The lane runs the compiled code of [cached]. *)
Definition runs (cached : CompiledImage) (s : LaneJitState) : Prop :=
  trap_table s = ci_trap_table cached /\ jit_code_base s = META_BASE_M + ci_jit_offset cached /\ jit_code_len s = ci_jit_size cached /\
  exit_label_va s = META_BASE_M + ci_jit_offset cached + ci_exit_label_offset cached.

(** An access of the compiled code: its instruction has an entry in the trap
    table with its width, and is not the exit. *)
Definition recompiled (cached : CompiledImage) (a : Access) : Prop :=
  is_u 32 (a_addr a) /\ In (a_width a) [1; 2; 4; 8] /\
  exists o pc, a_rip a = META_BASE_M + ci_jit_offset cached + o /\ 0 <= o < ci_jit_size cached /\
    In (o, pc, a_width a) (ci_trap_table cached) /\ o <> ci_exit_label_offset cached.

Lemma traps_ordered o l : StronglySorted trap_lt l -> ordered_by (fun '(no, _, _) => no ?= o) l.
Proof.
  intros S i j [[n1 p1] w1] [[n2 p2] w2] Hi Hj Lt. assert (n1 < n2).
  { revert i j Hi Hj Lt. induction S as [|x l S IH F]; intros i j Hi Hj Lt; [done|]. destruct j as [|j]; [lia|]. destruct i as [|i].
    - injection Hi as ->. rewrite Forall_forall in F. apply (F (n2, p2, w2)), list_elem_of_In, (list_elem_of_lookup_2 l j _ Hj).
    - apply (IH i j Hi Hj). lia. }
  rewrite Z.compare_lt_iff, Z.compare_gt_iff. lia.
Qed.

(** The search finds the entry of an instruction in a table in order. *)
Lemma trap_lookup_entry s o pc width : StronglySorted trap_lt (trap_table s) -> In (o, pc, width) (trap_table s) ->
  trap_lookup s o = (pc, width).
Proof.
  intros S I. pose proof (traps_ordered o _ S) as O. apply list_elem_of_In, list_elem_of_lookup_1 in I as [k Hk].
  unfold trap_lookup. pose proof (binary_search_by_spec _ _ O) as B. destruct (binary_search_by _ _) as [i|q]; last first.
  { destruct (B k _ Hk). apply Z.compare_refl. }
  destruct B as ([[n p] v] & Hi & ->%Z.compare_eq). unfold trap_entry. rewrite Hi.
  destruct (Nat.lt_trichotomy i k) as [C|[->|C]]; [| |].
  - destruct (O _ _ _ _ Hi Hk C) as [E|E]; by rewrite Z.compare_refl in E.
  - congruence.
  - destruct (O _ _ _ _ Hk Hi C) as [E|E]; by rewrite Z.compare_refl in E.
Qed.

Lemma recompiled_wf cached s a : 0 < ci_jit_size cached < 2 ^ 32 /\ 0 <= ci_jit_offset cached < 2 ^ 32 ->
  StronglySorted trap_lt (ci_trap_table cached) -> runs cached s -> recompiled cached a -> access_wf s a.
Proof.
  intros [J1 J2] S (Rt & Rb & Rl & Re) (Ha & Hw & o & pc & Er & Ho & I & Ne). change META_BASE_M with 0x8040000000 in *.
  split; [done|]. split; [done|]. unfold in_window, trap_of. rewrite Rb, Rl, Re, Er. split; [|split].
  - unfold wrapping_add. rewrite wrap_small by (unfold is_u; lia). rewrite negb_true_iff, !orb_false_iff. lia.
  - replace (_ - _) with o by lia. rewrite wrap_small by (unfold is_u; lia). rewrite <- Rt in S, I.
    by rewrite (trap_lookup_entry s o pc (a_width a)).
  - lia.
Qed.

Section Entered.
  Context {L : KernelLayout} (w : World) (cr3 src pml4 : Z) (fr : list (option Z)) (cached : CompiledImage) (pdpt_pa pdpt : Z).
  Context (p : PublishedProgram) (args : list Z) (zero_pa : Z).
  Hypothesis K : kernel_ready w cr3 src pml4 fr cached pdpt_pa pdpt.
  Hypothesis E : enterable w p args zero_pa.

Let m0 := FlatMem_new (data_pages p).
Let w1 := mkWorld (built_heap w src pml4 fr pdpt_pa) (w_pages w).

(** The pages of the program back the frame's memory. *)
Lemma flat_ready : mem_ready w1 zero_pa m0 (page_sum (regions (pub_blob p))).
Proof.
  intros i Hi. destruct (en_pub _ _ _ _ E) as [Ln Pg]. pose proof (flat_pages w p args zero_pa E) as Fp. unfold FlatMem_pages in Fp.
  cbn [FlatMem_new fl_overlay] in Fp. rewrite length_replicate in Fp.
  destruct (data_pages p !! Z.to_nat i) as [kva|] eqn:Ek; [|apply lookup_ge_None in Ek; lia].
  destruct (Pg _ _ Ek) as ((pa & E1 & E2 & E3) & Ew). destruct (en_run _ _ _ _ E) as [W V _ _ _]. pose proof (image_of_length _ W V) as Li.
  assert (Lk : length (image_of (pub_blob p)) = (length (data_pages p) * PAGE)%nat).
  { apply Nat2Z.inj. rewrite Nat2Z.inj_mul, PAGE_Z. unfold vlen in Li. lia. }
  rewrite (Page_split_lookup _ (length (data_pages p))) in Ew by (done || lia).
  exists pa, kva, (take PAGE (drop (Z.to_nat i * PAGE) (image_of (pub_blob p)))). change (page_source m0 i) with (flat_page_source m0 i). unfold flat_page_source, m0.
  rewrite flat_new_page, Ek, E1. split; [by left|]. split; [done|]. split; [done|].
  rewrite length_take, length_drop, Lk. change PAGE_BYTES with 4096. rewrite <- PAGE_Z. f_equal. apply Nat.min_l. nia.
Qed.

(** Entering a frame: the runtime is built, and what the handler starts from
    satisfies its invariant and mirrors the interpreter's memory. *)
Lemma entered_ok endpoint ep gas : bt_get endpoint (endpoints (pub_blob p)) = Some ep ->
  exists f rt, FlatFrame_new p endpoint args = Ok f /\ build_runtime (w_heap w) cr3 cached f = Ret (w_heap w1, Ok rt) /\
    let s := publish zero_pa rt in let f0 := entered w1 rt (ff_mat_state f) (ff_ro_units f) (ff_mem f) gas in
    lane_ok s /\ 0 < mat_data_base s /\ mat_code_top s < mat_data_base s /\ fault_inv s f0 /\ mirrors s (prepared_memory (pub_blob p)) f0 /\
    mat_code_base s = CODE_BASE /\
    mat_code_top s = CODE_BASE + wrap 32 (next_multiple_of (wrap 32 (Z.of_nat (length (code (pub_blob p))))) PAGE_SIZE) /\
    runs cached s /\ lane_of p zero_pa s.
Proof.
  intros Hep. destruct (rounded_ok w p args zero_pa E) as (R1 & R2 & R3). pose proof (flat_pages w p args zero_pa E) as Fp.
  destruct (flat_size w p args zero_pa E) as [_ Fs]. fold m0 in Fp, Fs. set (rs := regions (pub_blob p)) in *.
  pose proof (en_pages _ _ _ _ E) as B. fold rs in B. pose proof (en_regions w p args zero_pa E) as Wr. fold rs in Wr. destruct Wr.
  destruct (built_result w cr3 src pml4 fr cached pdpt_pa pdpt K (pub_code_len p) CODE_BASE (pub_code_pa p) DATA_BASE (flat_mem_size m0)
    (flat_ranges (pub_blob p) m0)) as (rt & c & Ec & Eb & Hpt & Hc & Hr & Hd & Ht & Hcb & Hct & Hcp & Hrun).
  unfold FlatFrame_new. rewrite Hep. eexists _, rt. split; [reflexivity|]. cbn [ff_mem ff_mat_state ff_ro_units ff_program]. fold m0. split.
  { unfold build_runtime. cbn [ff_program ff_mem]. rewrite (proj2 (Z.eqb_neq _ _) (proj1 (en_pa _ _ _ _ E))). fold m0. by rewrite Eb. }
  assert (S : lane_of p zero_pa (publish zero_pa rt)).
  { constructor; cbn [publish active_pt_pml4_kva owned_vec_set overlay_sink_set mat_state_set ro_units_set mat_data_base mat_mem_top
      mat_code_base mat_code_top mat_zero_pa mat_ranges]; [|..|done|by rewrite Hr].
    - rewrite Hpt. split; [apply K|done].
    - rewrite Hd, Ht, Fs. split; [done|]. fold rs. assert (0 <= page_sum rs) by (unfold page_sum, is_u in *; lia).
      unfold saturating_sub, next_multiple_of, div_ceil, DATA_BASE. change PAGE_BYTES with 4096. rewrite Z.max_r by lia. rewrite wrap_small; unfold is_u; dlia.
    - rewrite Hcb, Hct, R3. split; [done|]. unfold MAX_CODE_SIZE, CODE_BASE, DATA_BASE, saturating_add in *. rewrite wrap_small by (unfold is_u; lia).
      apply Z.min_l. lia. }
  pose proof (lane_lane_ok w p args zero_pa _ E S) as LK. cbv zeta. split; [done|].
  destruct (lo_data _ _ _ S) as [Ed _]. rewrite Ed. split; [done|]. destruct (lo_code _ _ _ S) as [_ ->].
  split; [unfold MAX_CODE_SIZE, CODE_BASE, DATA_BASE in *; lia|].
  assert (Np : npages (publish zero_pa rt) = page_sum rs) by (by eapply lane_npages).
  split.
  - apply fault_inv_init; try done.
    + cbn. rewrite Hpt. by eapply built_ok.
    + intros q G. unfold view. cbn. rewrite Hpt. by eapply built_view.
    + intros va Hv. apply (kr_pages _ _ _ _ _ _ _ _ K). cbn in Hv. unfold future in *. unfold built_heap in Hv. rewrite put_free in Hv.
      rewrite (kr_free _ _ _ _ _ _ _ _ K). by right.
    + change (fm_pages ?x) with (FlatMem_pages x). cbn [f_mem entered]. by rewrite Np.
    + rewrite Np. apply flat_ready.
    + intros i. apply flat_new_overlay.
    + cbn [f_mat entered]. by rewrite Np, Fp.
  - split; [|split; [|split; [|split; [exact Hrun|exact S]]]]; [|by destruct (lo_code _ _ _ S)|].
    2: { f_equal. fold (vlen (code (pub_blob p))). pose proof (en_code _ _ _ _ E).
         change PAGE_SIZE with PAGE_BYTES. rewrite (wrap_small 32 (vlen _)), wrap_small; [done|..];
           unfold is_u, next_multiple_of, div_ceil, MAX_CODE_SIZE, CODE_BASE, DATA_BASE in *; change PAGE_BYTES with 4096 in *; dlia. }
    split; [by apply (lane_shaped w p args zero_pa)|]. intros q G [D _]. unfold mem_rw, state_of. cbn [mat_state prepared_memory set_code_region data_memory f_mat entered].
    by rewrite !default_replicate.
Qed.

(** C13: An x86 frame of a published program starts from the address space of the
    interpreter and keeps to it. For a program whose data stays below 4 GiB and
    whose code leaves a page free below the data, whatever the sequence of loads
    and stores of its compiled code (any addresses and values), the page tables
    with the page-fault handler and the load and store arms of the interpreter
    perform the same number of accesses before the first page fault, leave it
    alike (the x86 engine with exit code 3 and the guest pc of the instruction),
    and leave the same gas, given gas and frames for the copies: never
    panicking, never declining a fault, and taking at most one fault per
    access. *)
Theorem flat_accesses_agree endpoint ep gas jc l : bt_get endpoint (endpoints (pub_blob p)) = Some ep -> Forall (recompiled cached) l ->
  COW_COST * 2 * Z.of_nat (length l) <= gas < 2 ^ 64 -> enough (PAGE_FRAMES * 2 * length l) (mkHeap ∅ fr) ->
  exists f rt prep inst, FlatFrame_new p endpoint args = Ok f /\ build_runtime (w_heap w) cr3 cached f = Ret (w_heap w1, Ok rt) /\
    prepare (pub_blob p) endpoint args = Ret (Ok prep) /\ instance_new (spec_of prep) = Ret inst /\
    let s := publish zero_pa rt in let f0 := entered w1 rt (ff_mat_state f) (ff_ro_units f) (ff_mem f) gas in
    exists f' m' n x r, hw_accesses s f0 jc l = Ret (f', n, x) /\
      interp_accesses s (inst_code inst) (inst_mem inst) (Engine.mkGas gas) l = Ret (m', Engine.mkGas (f_r15 f'), n, r) /\
      same_exits s l n x r.
Proof.
  intros Hep Wl Hg En. destruct (entered_ok endpoint ep gas Hep) as (f & rt & Ef & Eb & LK & D0 & Gap & I & Mi & Cb & Ct & Rn & _).
  destruct (runnable_prepare _ _ _ _ (en_run _ _ _ _ E) Hep) as (prep & Ep & Ei & _).
  exists f, rt, prep, (prepared_instance (pub_blob p) ep args). split_and!; try done. cbv zeta.
  assert (Forall (access_wf (publish zero_pa rt)) l) as Wf.
  { eapply Forall_impl; [|exact Wl]. intros a. apply recompiled_wf; [apply K|apply K|exact Rn]. }
  edestruct (accesses_step (publish zero_pa rt) LK D0 Gap (code (pub_blob p))) as (f' & m' & n & x & r & Eh & Et & X & _);
    [by rewrite Ct, Cb|exact Wf|exact I|exact Mi|exact Hg| |by exists f', m', n, x, r].
  cbn. destruct En as [En1 En2]. split; cbn; unfold built_heap; by rewrite put_free.
Qed.
End Entered.

(** ** The registers of a frame *)

Lemma seed_flat_take (l : BTreeMap Z) : forall regs r, take NUM_REGS (r_gpr r) = regs -> length (r_gpr r) = 15%nat ->
  take NUM_REGS (r_gpr (seed_regs r l)) = seed_flat regs l /\ length (r_gpr (seed_regs r l)) = 15%nat.
Proof.
  unfold seed_regs, seed_flat. induction l as [|[i v] l IH]; intros regs r Hr Hl; [done|]. cbn [fold_left fst snd]. apply IH; cbn [regs_write r_gpr].
  - rewrite <- Hr. apply list_eq. intros j. destruct (decide (j < NUM_REGS)%nat) as [Hj|Hj].
    + rewrite lookup_take_lt by done. destruct (decide (j = Z.to_nat i)) as [->|N].
      * rewrite !list_lookup_insert_eq; [done|rewrite length_take; unfold NUM_REGS in *; lia|unfold NUM_REGS in *; lia].
      * by rewrite !list_lookup_insert_ne, lookup_take_lt by done.
    + rewrite !lookup_ge_None_2; [done|rewrite length_insert|]; rewrite length_take; lia.
  - by rewrite length_insert.
Qed.

(** The persisted registers are the interpreter's first thirteen; the two spilled
    ones start at zero whatever the endpoint seeds them with. *)
Lemma flat_entry_regs p endpoint ep args f : FlatFrame_new p endpoint args = Ok f -> bt_get endpoint (endpoints (pub_blob p)) = Some ep -> length args = 4%nat ->
  entry_regs_file (ff_regs f) = take 13 (r_gpr (entry_regs ep args)) ++ [0; 0].
Proof.
  unfold FlatFrame_new. intros H Hep La. rewrite Hep in H. injection H as <-. cbn [ff_regs]. unfold entry_regs_file, entry_regs, seed_args. cbn [r_gpr].
  destruct (seed_flat_take (initial_regs ep) (replicate NUM_REGS 0) (set_pc regs_new (Program.entry_pc ep))) as [E Ln]; [done|done|].
  change (seed_flat (replicate NUM_REGS 0)) with (seed_flat [0; 0; 0; 0; 0; 0; 0; 0; 0; 0; 0; 0; 0]) in E. rewrite <- E. f_equal. set (g := r_gpr _) in *. unfold splice, NUM_REGS. rewrite La. do 4 (destruct args as [|? args]; [done|]). destruct args; [|done].
  do 15 (destruct g as [|? g]; [done|]). by destruct g.
Qed.

(** A program whose memory reaches 4 GiB: the top wraps to zero, so no page of
    its data is the frame's. *)
Lemma full_window_top p f h cr3 cached h' rt zero_pa {L : KernelLayout} : ff_program f = p -> FlatMem_pages (ff_mem f) = 0xF0000 ->
  build_runtime h cr3 cached f = Ret (h', Ok rt) -> flat_mem_size (ff_mem f) = 0xFFFFFFFF /\ forall q, in_data (publish zero_pa rt) q = false.
Proof.
  intros Ep Hp. assert (Fs : flat_mem_size (ff_mem f) = 0xFFFFFFFF) by (unfold flat_mem_size, flat_extent; by rewrite Hp).
  unfold build_runtime, build_frame_runtime. rewrite Fs. change (wrap 32 (DATA_BASE + _)) with 0.
  intros H. split; [done|]. intros q. assert (fr_data_base rt = DATA_BASE /\ fr_mem_top rt = 0) as [Ed Et].
  { destruct (_ =? 0); [done|]. destruct (ci_jit_size cached =? 0); [done|]. cbn [res_bind] in H.
    destruct (PageTable_new cr3 h) as [[h1 [pt|]]|]; cbn [res_bind] in H; try done.
    destruct (ci_template_pdpt_pa cached) as [pa|]; cbn [res_bind] in H; [|done].
    destruct (install_borrowed_pdpt h1 pt META_PML4_BASE pa) as [[h2 u]|]; cbn [res_bind] in H; [|done].
    destruct (pt_cr3 pt) as [c|]; cbn [res_bind] in H; [|done]. by injection H as _ <-. }
  unfold in_data. cbn [publish mat_data_base mat_mem_top]. by rewrite Ed, Et.
Qed.

(** ** The handler of a lane *)

Section Handler.
  Context {L : KernelLayout} {M CowPage : Type} {FM : FrameMem M CowPage} {FL : FrameMemLaws M} (s : LaneJitState).

(** The widths of the recompiled accesses. *)
Definition trap_widths : Prop := Forall (fun '(_, _, width) => 0 <= width <= 8) (trap_table s).

Lemma trap_width offset : trap_widths -> 0 <= snd (trap_lookup s offset) <= 8.
Proof.
  intros H. unfold trap_widths in H. rewrite Forall_forall in H.
  assert (T : forall i, 0 <= snd (trap_entry (trap_table s) i) <= 8).
  { intros i. unfold trap_entry. destruct (trap_table s !! i) as [[[no pc] width]|] eqn:Ei; [|cbn; lia].
    apply (H (no, pc, width)), list_elem_of_In, (list_elem_of_lookup_2 _ _ _ Ei). }
  unfold trap_lookup. destruct (binary_search_by _ _) as [i|[|i]]; [apply T|cbn; lia|apply T].
Qed.

(** C14: The page-fault handler of the x86 engine is total and safe, as long as
    the allocator has frames for two pages. Whatever the faulting instruction
    pointer, error code and address, it never panics, keeps the frame's
    invariant (code and read-only pages are never writable, nothing outside the
    declared regions is mapped, a writable page is a private copy and is the one
    the frame's memory holds) and revokes nothing the guest could do before. It
    declines exactly the faults outside the lane's compiled code. Of the others
    it repairs exactly those of a known access whose every page lies in the
    region of the first and allows it: the instruction retries with all its
    pages granted and the first-touch gas taken. Every other fault changes
    nothing and leaves through the exit with code 3, the faulting address and
    the guest pc of the instruction. *)
Theorem pf_handler_sound f jc rip err gva k : lane_ok s -> trap_widths -> fault_inv s f -> enough (PAGE_FRAMES * 2 + k) (heap_of f) ->
  let '(pc, width) := trap_of s rip in
  let is_write := negb (Z.land err 2 =? 0) in
  let pages := pages_of (wrap 32 gva) width in
  if negb (in_window s rip) then jit_pf_handler s f jc rip err gva = Ret (f, jc, rip, false)
  else if negb (width =? 0) && touchable s is_write pages then
    exists f', jit_pf_handler s f jc rip err gva = Ret (f', jc, rip, true) /\ fault_inv s f' /\ grants_more s f f' /\
      Forall (fun p => allowed s f' is_write p = true) pages /\
      f_r15 f' = wrapping_sub 64 (f_r15 f) (charges s f is_write pages) /\ enough k (heap_of f')
  else jit_pf_handler s f jc rip err gva = Ret (f, mkJitExit 3 (wrap 32 gva) pc, exit_label_va s, true).
Proof.
  intros LK Tw I En. unfold jit_pf_handler, in_window, trap_of.
  pose proof (trap_width (wrap 32 (rip - jit_code_base s)) Tw) as Rw. destruct (trap_lookup s _) as [pc wd]. cbn [snd] in Rw.
  set (is_write := negb (Z.land err 2 =? 0)). set (pages := pages_of (wrap 32 gva) wd). rewrite negb_involutive. destruct (_ || _); [done|].
  destruct (Z.eqb_spec wd 0) as [Z0|Nz]; cbn [negb res_bind andb]; [done|].
  pose proof (try_materialize_ok s LK f gva wd is_write k I ltac:(lia) En) as T. cbv zeta in T. fold pages in T.
  destruct (touchable s is_write pages); [|by rewrite T].
  destruct T as (f' & -> & (I' & A' & G' & E15 & _) & En'). cbn [res_bind]. by exists f'.
Qed.
End Handler.

(** ** A concrete kernel *)

Module Demo.
Definition layout : KernelLayout := {| scratch_gva := 2 ^ 50; scratch_gpa := 2 ^ 50; kernel_base_va := 0 |}.
#[local] Existing Instance layout.

(** The frames from [0x10000] up are free. *)
Definition frame (i : nat) : Z := 0x10000 + 4096 * Z.of_nat i.
Definition frames (a n : nat) : list (option Z) := List.map (fun i => Some (frame i)) (seq a n).

Definition empty : list Z := replicate ENTRIES 0.
Definition world (n : nat) : World :=
  mkWorld (mkHeap (<[0x1000 := empty]> (<[0x3000 := empty]> ∅)) (frames 0 n))
    (<[0x5000 := replicate PAGE 0]> (<[0x6000 := resize [0xAB] 4096 0]> ∅)).
Definition compiled : CompiledImage := mkCompiled 64 0 0 0 32 [(0, 0, 4); (8, 4, 8)] (Some 0x4000).
Definition program : PublishedProgram := mkPublished adder_blob [0x5000; 0x6000] 0x7000.

Lemma frames_future a n va : Some va ∈ frames a n -> exists i, va = frame i /\ (a <= i < a + n)%nat.
Proof. intros H. apply list_elem_of_In, in_map_iff in H as (i & [= <-] & Hi). apply in_seq in Hi. by exists i. Qed.

Lemma frames_nodup a n : NoDup (omap id (frames a n)).
Proof.
  assert (omap id (frames a n) = frame <$> seq a n) as ->.
  { revert a. induction n as [|n IH]; intros a; [done|]. cbn. f_equal. apply IH. }
  apply list.NoDup_fmap; [|apply NoDup_seq]. intros i j. unfold frame. lia.
Qed.

Lemma empty_lookup i e : empty !! i = Some e -> e = 0.
Proof. by intros [-> _]%lookup_replicate. Qed.

Lemma world_hget n t i e : hget (w_heap (world n)) t i = Some e -> e = 0.
Proof.
  unfold hget. cbn [world w_heap tables]. destruct (Z.eq_dec t 0x1000) as [->|]; [rewrite lookup_insert_eq; apply empty_lookup|].
  rewrite lookup_insert_ne by done. destruct (Z.eq_dec t 0x3000) as [->|]; [rewrite lookup_insert_eq; apply empty_lookup|].
  by rewrite lookup_insert_ne, lookup_empty by done.
Qed.

Lemma world_path n t q u : at_path (w_heap (world n)) t q = Some u -> q = [] /\ u = t.
Proof.
  destruct q as [|i q]; [intros [= ->]; done|]. cbn [at_path]. unfold step. destruct (hget _ t i) as [e|] eqn:H; [|done].
  apply world_hget in H as ->. done.
Qed.

Lemma world_fresh n t : t < 0x10000 -> ~ future (w_heap (world n)) t.
Proof. intros Ht H. apply frames_future in H as (i & -> & _). unfold frame in Ht. lia. Qed.

Lemma world_frames n : Z.of_nat n <= 1000001 -> NoDup (omap id (free (w_heap (world n)))) /\
  forall va, future (w_heap (world n)) va -> addr_ok va /\ tables (w_heap (world n)) !! va = None.
Proof.
  intros Hn. split; [apply frames_nodup|]. intros va (i & -> & Hi)%frames_future. split.
  - apply kernel_page_addr; [done|]. unfold kernel_page, frame. cbn. change PAGE_BYTES with 4096. unfold KERNEL_BASE_GPA. split_and!; dlia.
  - cbn [world w_heap tables]. rewrite !lookup_insert_ne; [done|..]; unfold frame; lia.
Qed.

Lemma kernel n : Z.of_nat n <= 1000000 -> kernel_ready (world (S n)) 0x2000 0x1000 0x10000 (frames 1 n) compiled 0x4000 0x3000.
Proof.
  intros Hn. constructor; try done.
  2: by exists 0.
  2: by repeat constructor.
  - constructor; try done.
    + exists empty. cbn [world w_heap tables]. rewrite lookup_insert_eq. split; [done|]. split; [done|]. by apply Forall_replicate.
    + exists 0. done.
    + apply world_frames. lia.
    + intros i p t _ _ _ _ H%world_path. destruct H as [H _]. done.
  - intros q t _ _ H%world_path. destruct H as [_ ->]. by apply world_fresh.
  - intros va (i & -> & Hi)%frames_future. cbn [world w_pages]. rewrite !lookup_insert_ne; [done|..]; unfold frame; lia.
Qed.

Lemma world_pt_ok n t : Z.of_nat n <= 1000001 -> t = 0x1000 \/ t = 0x3000 -> pt_ok (w_heap (world n)) t [t].
Proof.
  intros Hn Ht. constructor.
  - apply list.NoDup_singleton.
  - by left.
  - intros u ->%list_elem_of_singleton. split.
    + apply kernel_page_addr; [done|]. by destruct Ht as [-> | ->].
    + exists empty. split; [|split; [done|by apply Forall_replicate]]. by destruct Ht as [-> | ->].
  - intros q u _ [_ ->]%world_path. by left.
  - by intros q1 q2 u _ _ [-> _]%world_path [-> _]%world_path.
  - by intros q u i e _ _ ->%world_hget.
  - by apply world_frames.
  - by intros i q u _ _ _ _ [H _]%world_path.
Qed.

Lemma program_enterable n : enterable (world n) program [3; 4; 0; 0] 0x9000.
Proof.
  constructor; try done.
  - apply adder_runnable.
  - split; [vm_compute; reflexivity|]. intros i kva. assert (A : forall va, 0x1000 <= va < 0x10000 -> va mod 4096 = 0 -> addr_ok va).
    { intros va Hv Av. apply kernel_page_addr; [done|]. unfold kernel_page. cbn. unfold KERNEL_BASE_GPA. change PAGE_BYTES with 4096. split_and!; lia. }
    destruct i as [|[|i]]; cbn [program data_pages lookup list_lookup]; [..|done]; intros [= <-]; (split; [by apply A|]).
    all: vm_compute; reflexivity.
Qed.

(** A load of the stack page, a store of it, and a store to the read-only page. *)
Definition accesses : list Access :=
  [mkAccess false 0x10000010 4 0 META_BASE_M; mkAccess true 0x10000FFC 4 7 META_BASE_M;
   mkAccess true 0x10001000 8 7 (META_BASE_M + 8)].

Lemma accesses_recompiled : Forall (recompiled compiled) accesses.
Proof.
  repeat apply list.Forall_cons_2; [..|apply list.Forall_nil_2];
    (split; [done|]; split; [cbn; tauto|]).
  - exists 0, 0. split; [done|]. split; [done|]. split; [by left|done].
  - exists 0, 0. split; [done|]. split; [done|]. split; [by left|done].
  - exists 8, 4. split; [done|]. split; [done|]. split; [by right; left|done].
Qed.

Definition needed : nat := PAGE_FRAMES * 2 * length accesses.

Lemma needed_small : Z.of_nat needed <= 1000000.
Proof. vm_compute. discriminate. Qed.

Lemma enough_frames a n k : (k <= n)%nat -> enough k (mkHeap ∅ (frames a n)).
Proof.
  intros Hk. split; cbn [free]; [unfold frames; rewrite length_map, length_seq; done|]. apply Forall_take. unfold frames.
  apply Forall_forall. intros x (i & <- & _)%in_map_iff. done.
Qed.
End Demo.

#[local] Existing Instance Demo.layout.

Lemma flat_accesses_agree_witness :
  exists f rt prep inst f' m' n x r, FlatFrame_new Demo.program 0 [3; 4; 0; 0] = Ok f /\
    prepare adder_blob 0 [3; 4; 0; 0] = Ret (Ok prep) /\ instance_new (spec_of prep) = Ret inst /\
    let w1 := mkWorld (built_heap (Demo.world (S Demo.needed)) 0x1000 0x10000 (Demo.frames 1 Demo.needed) 0x4000)
                (w_pages (Demo.world (S Demo.needed))) in
    let s := publish 0x9000 rt in
    hw_accesses s (entered w1 rt (ff_mat_state f) (ff_ro_units f) (ff_mem f) 10000) (mkJitExit 0 0 0) Demo.accesses = Ret (f', n, x) /\
    interp_accesses s (inst_code inst) (inst_mem inst) (Engine.mkGas 10000) Demo.accesses = Ret (m', Engine.mkGas (f_r15 f'), n, r) /\
    same_exits s Demo.accesses n x r.
Proof.
  destruct (flat_accesses_agree _ _ _ _ _ _ _ _ _ _ _ (Demo.kernel Demo.needed Demo.needed_small) (Demo.program_enterable _)
    0 adder_endpoint 10000 (mkJitExit 0 0 0) Demo.accesses) as (f & rt & prep & inst & Ef & _ & Ep & Ei & f' & m' & n & x & r & Eh & Et & X);
    [reflexivity|apply Demo.accesses_recompiled|done|apply Demo.enough_frames, Nat.le_refl|].
  exists f, rt, prep, inst, f', m', n, x, r. split; [exact Ef|]. split; [exact Ep|]. split; [exact Ei|]. split; [exact Eh|]. split; [exact Et|exact X].
Defined.

(** The store to the stack page, faulting from the compiled code, is repaired. *)
Lemma pf_handler_sound_witness :
  exists s f f', jit_pf_handler s f (mkJitExit 0 0 0) META_BASE_M 2 0x10000FFC = Ret (f', mkJitExit 0 0 0, META_BASE_M, true) /\ fault_inv s f'.
Proof.
  destruct (entered_ok _ _ _ _ _ _ _ _ _ _ _ (Demo.kernel Demo.needed Demo.needed_small) (Demo.program_enterable _) 0 adder_endpoint 10000 eq_refl)
    as (f & rt & _ & _ & LK & _ & _ & I & _ & _ & _ & Rn & Ln).
  match type of I with fault_inv _ ?f0 => set (g := f0) in * end.
  assert (Tw : trap_widths (publish 0x9000 rt)) by (unfold trap_widths; rewrite (proj1 Rn); by repeat constructor).
  pose proof (pf_handler_sound (publish 0x9000 rt) g (mkJitExit 0 0 0) META_BASE_M 2 0x10000FFC 0 LK Tw I) as H.
  assert (Tr : trap_of (publish 0x9000 rt) META_BASE_M = (0, 4)).
  { unfold trap_of, trap_lookup. destruct Rn as (-> & -> & _). reflexivity. }
  assert (Wn : in_window (publish 0x9000 rt) META_BASE_M = true).
  { unfold in_window. destruct Rn as (_ & -> & -> & _). reflexivity. }
  rewrite Tr, Wn in H. cbn [negb] in H.
  change (pages_of (wrap 32 0x10000FFC) 4) with [0x10000000] in H.
  pose proof (Demo.program_enterable 0) as En.
  assert (Dt : in_data (publish 0x9000 rt) 0x10000000 = true) by (by apply (lane_in_data _ _ _ Ln)).
  assert (Tc : touchable (publish 0x9000 rt) (negb (Z.land 2 2 =? 0)) [0x10000000] = true).
  { apply touchable_one; [done|]. right. split; [done|]. intros _. rewrite (lane_kind _ _ _ _ _ En Ln _ Dt). done. }
  rewrite Tc in H. cbn [andb Z.eqb negb] in H. destruct H as (f' & H & I' & _); [|by eexists _, g, f'].
  unfold g, heap_of. cbn [f_world entered w_heap]. unfold built_heap, enough. rewrite put_free. apply (Demo.enough_frames 1 Demo.needed), Nat.leb_le. vm_compute. reflexivity.
Defined.

Lemma map_leaf_isolates_witness :
  exists h' owned', pt_map_leaf (w_heap (Demo.world 4)) 0x1000 0x10000FFC 0x8000 user_rw [0x1000] = Ret (h', owned', Some tt) /\
    xlate h' 0x1000 0x10000FFC = Some (leaf_xlat 0x8000 user_rw) /\ xlate h' 0x3000 0x10000FFC = xlate (w_heap (Demo.world 4)) 0x3000 0x10000FFC.
Proof.
  destruct (map_leaf_isolates (w_heap (Demo.world 4)) 0x1000 [0x1000] 0x3000 [0x3000] 0x10000FFC 0x8000 user_rw 1) as (h' & o' & E & _ & _ & _ & X & X2).
  - apply Demo.world_pt_ok; [done|by left].
  - done.
  - apply (Demo.enough_frames 0 4). lia.
  - apply Demo.world_pt_ok; [done|by right].
  - intros t [->%list_elem_of_singleton|(i & q & _ & _ & _ & _ & [H _]%Demo.world_path)]; [by intros ?%list_elem_of_singleton|done].
  - exists h', o'. split; [exact E|]. split; [by rewrite X|apply X2].
Defined.
