(* ===== verification/Asm.v ===== *)
(** * The x86-64 assembler

    Models [nub/nub-recompiler-x86/src/asm.rs]: registers and condition codes, the
    instruction buffer, every emitter, labels with their fixups, and finalisation.
    An emitter is a function on [Assembler]; one that looks a label up can panic.
    The code buffer is kept in reverse ([rcode]); a write past the allocation,
    which the source guards by debug assertions only, is recorded in [overrun]. *)

From S2P Require Import Prelude MachineInt.

(** ** Registers and condition codes *)

Inductive Reg :=
  | RAX | RCX | RDX | RBX | RSP | RBP | RSI | RDI
  | R8 | R9 | R10 | R11 | R12 | R13 | R14 | R15.

#[export] Instance Reg_eq : EqDecision Reg.
Proof. solve_decision. Defined.

Definition reg_no (r : Reg) : Z :=
  match r with
  | RAX => 0 | RCX => 1 | RDX => 2 | RBX => 3 | RSP => 4 | RBP => 5 | RSI => 6 | RDI => 7
  | R8 => 8 | R9 => 9 | R10 => 10 | R11 => 11 | R12 => 12 | R13 => 13 | R14 => 14 | R15 => 15
  end.

Definition lo (r : Reg) : Z := Z.land (reg_no r) 7.
Definition hi (r : Reg) : Z := Z.shiftr (reg_no r) 3.
Definition needs_rex (r : Reg) : bool := 8 <=? reg_no r.

Definition reg_eqb (a b : Reg) : bool := bool_decide (a = b).

Inductive Cc :=
  | Cc_O | Cc_NO | Cc_B | Cc_AE | Cc_E | Cc_NE | Cc_BE | Cc_A
  | Cc_S | Cc_NS | Cc_P | Cc_NP | Cc_L | Cc_GE | Cc_LE | Cc_G.

Definition cc_no (c : Cc) : Z :=
  match c with
  | Cc_O => 0 | Cc_NO => 1 | Cc_B => 2 | Cc_AE => 3 | Cc_E => 4 | Cc_NE => 5 | Cc_BE => 6 | Cc_A => 7
  | Cc_S => 8 | Cc_NS => 9 | Cc_P => 10 | Cc_NP => 11 | Cc_L => 12 | Cc_GE => 13 | Cc_LE => 14 | Cc_G => 15
  end.

(** ** The instruction buffer: bytes accumulated in a [u128] *)

Record InstBuf := mkInstBuf { ib_out : Z; ib_length : Z }.

Definition InstBuf_new : InstBuf := mkInstBuf 0 0.

Definition ib_or (ib : InstBuf) (v bits : Z) : InstBuf :=
  mkInstBuf (Z.lor (ib_out ib) (wrap 128 (Z.shiftl v (ib_length ib)))) (ib_length ib + bits).
Definition ib_push (byte : Z) (ib : InstBuf) : InstBuf := ib_or ib byte 8.
Definition ib_push_u32 (v : Z) (ib : InstBuf) : InstBuf := ib_or ib v 32.
Definition ib_push_u64 (v : Z) (ib : InstBuf) : InstBuf := ib_or ib v 64.
Definition ib_push_i32 (v : Z) (ib : InstBuf) : InstBuf := ib_push_u32 (wrap 32 v) ib.
Definition ib_len (ib : InstBuf) : Z := Z.shiftr (ib_length ib) 3.

(** ** The assembler *)

(** The capacities a [Vec] gets: for a fresh request, and when a vector of the
    given capacity must hold a number of elements. *)
Class VecPolicy : Type := { fresh_cap : Z -> Z; grown_cap : Z -> Z -> Z }.

Record Fixup := mkFixup { fx_offset : Z; fx_label : Z }.

Record Assembler := mkAsm {
  rcode : list Z;
  write_pos : Z;
  capacity : Z;
  labels : list Z;
  labels_len : Z;
  fixups : list Fixup;
  jit_va_base : Z;
  overrun : bool }.

Definition LABEL_UNBOUND : Z := 0.

(** The bytes written so far. *)
Definition code_bytes (a : Assembler) : list Z := rev (rcode a).

Definition set_code (a : Assembler) (rc : list Z) (pos : Z) (over : bool) : Assembler :=
  mkAsm rc pos (capacity a) (labels a) (labels_len a) (fixups a) (jit_va_base a) over.
Definition set_labels (a : Assembler) (l : list Z) (n : Z) : Assembler :=
  mkAsm (rcode a) (write_pos a) (capacity a) l n (fixups a) (jit_va_base a) (overrun a).
Definition set_fixups (a : Assembler) (l : list Fixup) : Assembler :=
  mkAsm (rcode a) (write_pos a) (capacity a) (labels a) (labels_len a) l (jit_va_base a) (overrun a).

Section Alloc.
  Context {VP : VecPolicy}.

Definition with_capacity (code_capacity : Z) (label_capacity : nat) : Assembler :=
  mkAsm [] 0 (fresh_cap code_capacity) (replicate label_capacity LABEL_UNBOUND) 0 [] 0 false.

(** [grow]: the vector is given the length [write_pos], and [reserve] does nothing
    when the capacity is already sufficient. *)
Definition grow (additional : Z) (a : Assembler) : Assembler :=
  let cap := if write_pos a + additional <=? capacity a then capacity a else grown_cap (capacity a) (write_pos a + additional) in
  mkAsm (rcode a) (write_pos a) cap (labels a) (labels_len a) (fixups a) (jit_va_base a) (overrun a).

Definition ensure_capacity (n : Z) (a : Assembler) : Assembler :=
  if capacity a <? write_pos a + n then grow n a else a.
End Alloc.

Definition set_jit_va_base (va : Z) (a : Assembler) : Assembler :=
  mkAsm (rcode a) (write_pos a) (capacity a) (labels a) (labels_len a) (fixups a) va (overrun a).

(** *** Labels *)

Definition new_label (a : Assembler) : Assembler * Z :=
  let id := wrap 32 (labels_len a) in
  let n := labels_len a + 1 in
  let l := if Z.of_nat (length (labels a)) <? n then labels a ++ [LABEL_UNBOUND] else labels a in
  (set_labels a l n, id).

Definition bulk_create_labels (count : nat) (a : Assembler) : Assembler :=
  let n := labels_len a + Z.of_nat count in
  let l := if Z.of_nat (length (labels a)) <? n
           then labels a ++ replicate (Z.to_nat n - length (labels a)) LABEL_UNBOUND else labels a in
  set_labels a l n.

Definition get_label (a : Assembler) (label : Z) : Res Z := expect (labels a !! Z.to_nat label).

Definition bind_label (label : Z) (a : Assembler) : Res Assembler :=
  let! _ := get_label a label in
  Ret (set_labels a (<[Z.to_nat label := wrap 32 (write_pos a + 1)]> (labels a)) (labels_len a)).

Definition offset (a : Assembler) : Z := write_pos a.

(** *** Bytes *)

(** [n] bytes appended by a write that reaches [reach] bytes. *)
Definition put_bytes (bs : list Z) (reach : Z) (a : Assembler) : Assembler :=
  set_code a (rev_append bs (rcode a)) (write_pos a + Z.of_nat (length bs))
    (overrun a || (capacity a <? write_pos a + reach)).

Definition emit (b : Z) (a : Assembler) : Assembler := put_bytes [b] 1 a.
Definition emit3 (x y z : Z) (a : Assembler) : Assembler := put_bytes [x; y; z] 3 a.
Definition emit_u32 (v : Z) (a : Assembler) : Assembler := put_bytes (to_le_bytes 4 v) 4 a.
Definition emit_i32 (v : Z) (a : Assembler) : Assembler := put_bytes (to_le_bytes 4 (wrap 32 v)) 4 a.

(** Both halves of the buffer are written; the cursor moves by its length. *)
Definition flush_instbuf (ib : InstBuf) (a : Assembler) : Assembler :=
  put_bytes (take (Z.to_nat (ib_len ib)) (to_le_bytes 16 (ib_out ib))) 16 a.

(** Overwriting four bytes. *)
Definition patch_i32 (off value : Z) (a : Assembler) : Assembler :=
  set_code a (rev (splice (rev (rcode a)) (Z.to_nat off) (to_le_bytes 4 (wrap 32 value)))) (write_pos a) (overrun a).

Definition emit_label_fixup (label : Z) (a : Assembler) : Res Assembler :=
  let! bound := get_label a label in
  if negb (bound =? LABEL_UNBOUND) then
    let target := bound - 1 in
    let rel := target - (write_pos a + 4) in
    Ret (emit_i32 rel a)
  else Ret (emit_u32 0 (set_fixups a (fixups a ++ [mkFixup (write_pos a) label]))).

(** ** Encodings *)

(** [0x48 | (r << 2) | b] and [0x40 | (r << 2) | b]. *)
Definition rex_w (r b : Z) : Z := Z.lor (Z.lor 0x48 (Z.shiftl r 2)) b.
Definition rex_0 (r b : Z) : Z := Z.lor (Z.lor 0x40 (Z.shiftl r 2)) b.
(** [0xC0 | (reg << 3) | rm]. *)
Definition modrm_rr (reg rm : Z) : Z := Z.lor (Z.lor 0xC0 (Z.shiftl reg 3)) rm.

Definition rex_opt_b (rm : Reg) (a : Assembler) : Assembler :=
  if needs_rex rm then emit (Z.lor 0x40 (hi rm)) a else a.

(** [(-128..=127).contains(&v)] *)
Definition fits_i8 (v : Z) : bool := (-128 <=? v) && (v <=? 127).

Definition modrm_disp_ib (reg : Z) (base : Reg) (disp : Z) (ib : InstBuf) : InstBuf :=
  let bl := lo base in
  let needs_sib := bl =? 4 in
  let at_ (m : Z) (ib : InstBuf) :=
    if needs_sib then ib_push 0x24 (ib_push (Z.lor (Z.lor m (Z.shiftl reg 3)) 4) ib)
    else ib_push (Z.lor (Z.lor m (Z.shiftl reg 3)) bl) ib in
  if (disp =? 0) && negb (bl =? 5) then at_ 0 ib
  else if fits_i8 disp then ib_push (wrap 8 disp) (at_ 0x40 ib)
  else ib_push_i32 disp (at_ 0x80 ib).

(** *** MOV *)

Definition mov_rr (dst src : Reg) (a : Assembler) : Assembler :=
  if reg_eqb dst src then a else emit3 (rex_w (hi src) (hi dst)) 0x89 (modrm_rr (lo src) (lo dst)) a.

Definition mov_ri64 (dst : Reg) (imm : Z) (a : Assembler) : Assembler :=
  let ib := InstBuf_new in
  let ib :=
    if imm =? 0 then
      let r := hi dst in
      let ib := if negb (r =? 0) then ib_push (rex_0 r r) ib else ib in
      ib_push (modrm_rr (lo dst) (lo dst)) (ib_push 0x31 ib)
    else if imm <=? 0xFFFFFFFF then
      let ib := if needs_rex dst then ib_push (Z.lor 0x40 (hi dst)) ib else ib in
      ib_push_u32 (wrap 32 imm) (ib_push (0xB8 + lo dst) ib)
    else if (- 2 ^ 31 <=? sext 64 imm) && (sext 64 imm <=? 2 ^ 31 - 1) then
      ib_push_i32 (sext 32 imm) (ib_push (Z.lor 0xC0 (lo dst)) (ib_push 0xC7 (ib_push (Z.lor 0x48 (hi dst)) ib)))
    else ib_push_u64 imm (ib_push (0xB8 + lo dst) (ib_push (Z.lor 0x48 (hi dst)) ib)) in
  flush_instbuf ib a.

Definition mov_ri32 (dst : Reg) (imm : Z) (a : Assembler) : Assembler :=
  let ib := if needs_rex dst then ib_push (Z.lor 0x40 (hi dst)) InstBuf_new else InstBuf_new in
  flush_instbuf (ib_push_u32 imm (ib_push (0xB8 + lo dst) ib)) a.

Definition mov_load64 (dst base : Reg) (disp : Z) (a : Assembler) : Assembler :=
  flush_instbuf (modrm_disp_ib (lo dst) base disp (ib_push 0x8B (ib_push (rex_w (hi dst) (hi base)) InstBuf_new))) a.

Definition movsxd_load_sib4 (dst base index : Reg) (a : Assembler) : Assembler :=
  let ib := ib_push (Z.lor (rex_w (hi dst) (hi base)) (Z.shiftl (hi index) 1)) InstBuf_new in
  let ib := ib_push (Z.lor (Z.shiftl (lo dst) 3) 4) (ib_push 0x63 ib) in
  flush_instbuf (ib_push (Z.lor (Z.lor 0x80 (Z.shiftl (lo index) 3)) (lo base)) ib) a.

(** A REX prefix when either extension bit is set. *)
Definition opt_rex (r b : Z) (ib : InstBuf) : InstBuf :=
  if negb (r =? 0) || negb (b =? 0) then ib_push (rex_0 r b) ib else ib.

Definition mov_store32 (base : Reg) (disp : Z) (src : Reg) (a : Assembler) : Assembler :=
  flush_instbuf (modrm_disp_ib (lo src) base disp (ib_push 0x89 (opt_rex (hi src) (hi base) InstBuf_new))) a.

Definition mov_store64 (base : Reg) (disp : Z) (src : Reg) (a : Assembler) : Assembler :=
  flush_instbuf (modrm_disp_ib (lo src) base disp (ib_push 0x89 (ib_push (rex_w (hi src) (hi base)) InstBuf_new))) a.

(** *** Arithmetic on registers and immediates *)

Definition alu_rr64 (op : Z) (dst src : Reg) (a : Assembler) : Assembler :=
  flush_instbuf (ib_push (modrm_rr (lo src) (lo dst)) (ib_push op (ib_push (rex_w (hi src) (hi dst)) InstBuf_new))) a.

Definition alu_rr32 (op : Z) (dst src : Reg) (a : Assembler) : Assembler :=
  let r := hi src in
  let b := hi dst in
  if negb (r =? 0) || negb (b =? 0) then
    flush_instbuf (ib_push (modrm_rr (lo src) (lo dst)) (ib_push op (ib_push (rex_0 r b) InstBuf_new))) a
  else flush_instbuf (ib_push (modrm_rr (lo src) (lo dst)) (ib_push op InstBuf_new)) a.

Definition add_rr : Reg -> Reg -> Assembler -> Assembler := alu_rr64 0x01.
Definition sub_rr : Reg -> Reg -> Assembler -> Assembler := alu_rr64 0x29.
Definition and_rr : Reg -> Reg -> Assembler -> Assembler := alu_rr64 0x21.
Definition or_rr : Reg -> Reg -> Assembler -> Assembler := alu_rr64 0x09.
Definition xor_rr : Reg -> Reg -> Assembler -> Assembler := alu_rr64 0x31.
Definition cmp_rr : Reg -> Reg -> Assembler -> Assembler := alu_rr64 0x39.
Definition test_rr : Reg -> Reg -> Assembler -> Assembler := alu_rr64 0x85.
Definition test_rr32 : Reg -> Reg -> Assembler -> Assembler := alu_rr32 0x85.
Definition add_rr32 : Reg -> Reg -> Assembler -> Assembler := alu_rr32 0x01.
Definition sub_rr32 : Reg -> Reg -> Assembler -> Assembler := alu_rr32 0x29.

(** The opcode, ModRM and immediate of the two immediate forms. *)
Definition alu_imm_ib (ext : Z) (dst : Reg) (imm : Z) (ib : InstBuf) : InstBuf :=
  if fits_i8 imm then ib_push (wrap 8 imm) (ib_push (modrm_rr ext (lo dst)) (ib_push 0x83 ib))
  else ib_push_i32 imm (ib_push (modrm_rr ext (lo dst)) (ib_push 0x81 ib)).

Definition alu_ri64 (ext : Z) (dst : Reg) (imm : Z) (a : Assembler) : Assembler :=
  flush_instbuf (alu_imm_ib ext dst imm (ib_push (Z.lor 0x48 (hi dst)) InstBuf_new)) a.

Definition alu_ri32 (ext : Z) (dst : Reg) (imm : Z) (a : Assembler) : Assembler :=
  let ib := if needs_rex dst then ib_push (Z.lor 0x40 (hi dst)) InstBuf_new else InstBuf_new in
  flush_instbuf (alu_imm_ib ext dst imm ib) a.

Definition add_ri : Reg -> Z -> Assembler -> Assembler := alu_ri64 0.
Definition sub_ri : Reg -> Z -> Assembler -> Assembler := alu_ri64 5.
Definition and_ri : Reg -> Z -> Assembler -> Assembler := alu_ri64 4.
Definition or_ri : Reg -> Z -> Assembler -> Assembler := alu_ri64 1.
Definition xor_ri : Reg -> Z -> Assembler -> Assembler := alu_ri64 6.
Definition cmp_ri : Reg -> Z -> Assembler -> Assembler := alu_ri64 7.
Definition add_ri32 : Reg -> Z -> Assembler -> Assembler := alu_ri32 0.
Definition sub_ri32 : Reg -> Z -> Assembler -> Assembler := alu_ri32 5.
Definition cmp_ri32 : Reg -> Z -> Assembler -> Assembler := alu_ri32 7.

(** *** Memory operands that are a register *)

Definition modrm_baseless (reg : Z) (idx : Reg) (a : Assembler) : Assembler :=
  let r := Z.land reg 7 in
  if lo idx =? 4 then emit 0x24 (emit (Z.lor (Z.shiftl r 3) 4) a)
  else if lo idx =? 5 then emit 0 (emit (Z.lor (Z.lor 0x40 (Z.shiftl r 3)) 5) a)
  else emit (Z.lor (Z.shiftl r 3) (lo idx)) a.

(** [if rex != 0x40 { emit(rex) }] *)
Definition emit_rex_if (rex : Z) (a : Assembler) : Assembler := if negb (rex =? 0x40) then emit rex a else a.

Definition movzx_load8_at_index (dst idx : Reg) (a : Assembler) : Assembler :=
  modrm_baseless (lo dst) idx (emit 0xB6 (emit 0x0F (emit (rex_w (hi dst) (hi idx)) a))).

Definition movzx_load16_at_index (dst idx : Reg) (a : Assembler) : Assembler :=
  modrm_baseless (lo dst) idx (emit 0xB7 (emit 0x0F (emit_rex_if (rex_0 (hi dst) (hi idx)) a))).

Definition mov_load32_at_index (dst idx : Reg) (a : Assembler) : Assembler :=
  modrm_baseless (lo dst) idx (emit 0x8B (emit_rex_if (rex_0 (hi dst) (hi idx)) a)).

Definition mov_load64_at_index (dst idx : Reg) (a : Assembler) : Assembler :=
  modrm_baseless (lo dst) idx (emit 0x8B (emit (rex_w (hi dst) (hi idx)) a)).

Definition mov_store8_at_index (idx src : Reg) (a : Assembler) : Assembler :=
  let rex := rex_0 (hi src) (hi idx) in
  let a := if negb (rex =? 0x40) || (4 <=? lo src) then emit rex a else a in
  modrm_baseless (lo src) idx (emit 0x88 a).

Definition mov_store16_at_index (idx src : Reg) (a : Assembler) : Assembler :=
  modrm_baseless (lo src) idx (emit 0x89 (emit_rex_if (rex_0 (hi src) (hi idx)) (emit 0x66 a))).

Definition mov_store32_at_index (idx src : Reg) (a : Assembler) : Assembler :=
  modrm_baseless (lo src) idx (emit 0x89 (emit_rex_if (rex_0 (hi src) (hi idx)) a)).

Definition mov_store64_at_index (idx src : Reg) (a : Assembler) : Assembler :=
  modrm_baseless (lo src) idx (emit 0x89 (emit (rex_w (hi src) (hi idx)) a)).

(** *** RIP-relative operands *)

Definition emit_rip_rel_disp32 (target_va trailing_bytes : Z) (a : Assembler) : Assembler :=
  let post_inst_rip := wrap 64 (jit_va_base a + write_pos a + 4 + trailing_bytes) in
  let disp := sext 64 (target_va - post_inst_rip) in
  emit_i32 (sext 32 disp) a.

Definition modrm_rip_rel (reg : Z) (a : Assembler) : Assembler := emit (Z.lor (Z.shiftl (Z.land reg 7) 3) 5) a.

Definition mov_load32_rip_rel (dst : Reg) (target_va : Z) (a : Assembler) : Assembler :=
  let a := if negb (hi dst =? 0) then emit (rex_0 (hi dst) 0) a else a in
  emit_rip_rel_disp32 target_va 0 (modrm_rip_rel (lo dst) (emit 0x8B a)).

Definition mov_load64_rip_rel (dst : Reg) (target_va : Z) (a : Assembler) : Assembler :=
  emit_rip_rel_disp32 target_va 0 (modrm_rip_rel (lo dst) (emit 0x8B (emit (rex_w (hi dst) 0) a))).

Definition mov_store32_rip_rel (target_va : Z) (src : Reg) (a : Assembler) : Assembler :=
  let a := if negb (hi src =? 0) then emit (rex_0 (hi src) 0) a else a in
  emit_rip_rel_disp32 target_va 0 (modrm_rip_rel (lo src) (emit 0x89 a)).

Definition mov_store64_rip_rel (target_va : Z) (src : Reg) (a : Assembler) : Assembler :=
  emit_rip_rel_disp32 target_va 0 (modrm_rip_rel (lo src) (emit 0x89 (emit (rex_w (hi src) 0) a))).

Definition mov_store32_rip_rel_imm (target_va imm : Z) (a : Assembler) : Assembler :=
  emit_i32 imm (emit_rip_rel_disp32 target_va 4 (modrm_rip_rel 0 (emit 0xC7 a))).

Definition add_r64_mem_rip_rel (dst : Reg) (target_va : Z) (a : Assembler) : Assembler :=
  emit_rip_rel_disp32 target_va 0 (modrm_rip_rel (lo dst) (emit 0x03 (emit (rex_w (hi dst) 0) a))).

Definition cmp_r64_mem_rip_rel (dst : Reg) (target_va : Z) (a : Assembler) : Assembler :=
  emit_rip_rel_disp32 target_va 0 (modrm_rip_rel (lo dst) (emit 0x3B (emit (rex_w (hi dst) 0) a))).

(** *** Patchable gas instructions *)

Definition sub_r64_imm32_patchable (dst : Reg) (imm : Z) (a : Assembler) : Assembler :=
  emit_i32 imm (emit (Z.lor 0xE8 (lo dst)) (emit 0x81 (emit (Z.lor 0x48 (hi dst)) a))).

Definition cmp_r64_imm32_patchable (dst : Reg) (imm : Z) (a : Assembler) : Assembler :=
  emit_i32 imm (emit (Z.lor 0xF8 (lo dst)) (emit 0x81 (emit (Z.lor 0x48 (hi dst)) a))).

(** *** Multiplication and division *)

Definition imul_rr (dst src : Reg) (a : Assembler) : Assembler :=
  flush_instbuf (ib_push (modrm_rr (lo dst) (lo src)) (ib_push 0xAF (ib_push 0x0F (ib_push (rex_w (hi dst) (hi src)) InstBuf_new)))) a.

Definition imul_rr32 (dst src : Reg) (a : Assembler) : Assembler :=
  flush_instbuf (ib_push (modrm_rr (lo dst) (lo src)) (ib_push 0xAF (ib_push 0x0F (opt_rex (hi dst) (hi src) InstBuf_new)))) a.

Definition mul_rdx_rax (src : Reg) : Assembler -> Assembler := emit3 (Z.lor 0x48 (hi src)) 0xF7 (Z.lor 0xE0 (lo src)).
Definition imul_rdx_rax (src : Reg) : Assembler -> Assembler := emit3 (Z.lor 0x48 (hi src)) 0xF7 (Z.lor 0xE8 (lo src)).
Definition div64 (src : Reg) : Assembler -> Assembler := emit3 (Z.lor 0x48 (hi src)) 0xF7 (Z.lor 0xF0 (lo src)).
Definition idiv64 (src : Reg) : Assembler -> Assembler := emit3 (Z.lor 0x48 (hi src)) 0xF7 (Z.lor 0xF8 (lo src)).

Definition div32 (src : Reg) (a : Assembler) : Assembler :=
  if needs_rex src then emit3 0x41 0xF7 (Z.lor 0xF0 (lo src)) a
  else flush_instbuf (ib_push (Z.lor 0xF0 (lo src)) (ib_push 0xF7 InstBuf_new)) a.

Definition idiv32 (src : Reg) (a : Assembler) : Assembler :=
  if needs_rex src then emit3 0x41 0xF7 (Z.lor 0xF8 (lo src)) a
  else flush_instbuf (ib_push (Z.lor 0xF8 (lo src)) (ib_push 0xF7 InstBuf_new)) a.

Definition cqo (a : Assembler) : Assembler := emit 0x99 (emit 0x48 a).
Definition cdq (a : Assembler) : Assembler := emit 0x99 a.

Definition neg64 (dst : Reg) : Assembler -> Assembler := emit3 (Z.lor 0x48 (hi dst)) 0xF7 (Z.lor 0xD8 (lo dst)).
Definition not64 (dst : Reg) : Assembler -> Assembler := emit3 (Z.lor 0x48 (hi dst)) 0xF7 (Z.lor 0xD0 (lo dst)).

(** *** Shifts *)

Definition opt_rex_b (r : Reg) : InstBuf := if needs_rex r then ib_push (Z.lor 0x40 (hi r)) InstBuf_new else InstBuf_new.

Definition shift_ri64 (ext : Z) (dst : Reg) (imm : Z) (a : Assembler) : Assembler :=
  flush_instbuf (ib_push imm (ib_push (modrm_rr ext (lo dst)) (ib_push 0xC1 (ib_push (Z.lor 0x48 (hi dst)) InstBuf_new)))) a.
Definition shift_cl64 (ext : Z) (dst : Reg) (a : Assembler) : Assembler :=
  flush_instbuf (ib_push (modrm_rr ext (lo dst)) (ib_push 0xD3 (ib_push (Z.lor 0x48 (hi dst)) InstBuf_new))) a.
Definition shift_ri32 (ext : Z) (dst : Reg) (imm : Z) (a : Assembler) : Assembler :=
  flush_instbuf (ib_push imm (ib_push (modrm_rr ext (lo dst)) (ib_push 0xC1 (opt_rex_b dst)))) a.
Definition shift_cl32 (ext : Z) (dst : Reg) (a : Assembler) : Assembler :=
  flush_instbuf (ib_push (modrm_rr ext (lo dst)) (ib_push 0xD3 (opt_rex_b dst))) a.

Definition shl_ri64 : Reg -> Z -> Assembler -> Assembler := shift_ri64 4.
Definition shr_ri64 : Reg -> Z -> Assembler -> Assembler := shift_ri64 5.
Definition sar_ri64 : Reg -> Z -> Assembler -> Assembler := shift_ri64 7.
Definition shl_cl64 : Reg -> Assembler -> Assembler := shift_cl64 4.
Definition ror_ri64 : Reg -> Z -> Assembler -> Assembler := shift_ri64 1.
Definition shl_ri32 : Reg -> Z -> Assembler -> Assembler := shift_ri32 4.
Definition shr_ri32 : Reg -> Z -> Assembler -> Assembler := shift_ri32 5.
Definition sar_ri32 : Reg -> Z -> Assembler -> Assembler := shift_ri32 7.
Definition ror_ri32 : Reg -> Z -> Assembler -> Assembler := shift_ri32 1.

(** *** Extensions, conditional moves and bit counts *)

(** A two-byte opcode of two registers with REX.W. *)
Definition op0f_64 (op : Z) (dst src : Reg) (a : Assembler) : Assembler :=
  flush_instbuf (ib_push (modrm_rr (lo dst) (lo src)) (ib_push op (ib_push 0x0F (ib_push (rex_w (hi dst) (hi src)) InstBuf_new)))) a.

Definition movsxd (dst src : Reg) (a : Assembler) : Assembler :=
  flush_instbuf (ib_push (modrm_rr (lo dst) (lo src)) (ib_push 0x63 (ib_push (rex_w (hi dst) (hi src)) InstBuf_new))) a.
Definition movsx_8_64 : Reg -> Reg -> Assembler -> Assembler := op0f_64 0xBE.
Definition movsx_16_64 : Reg -> Reg -> Assembler -> Assembler := op0f_64 0xBF.

Definition movzx_16_64 (dst src : Reg) (a : Assembler) : Assembler :=
  flush_instbuf (ib_push (modrm_rr (lo dst) (lo src)) (ib_push 0xB7 (ib_push 0x0F (opt_rex (hi dst) (hi src) InstBuf_new)))) a.

Definition movzx_32_64 (dst src : Reg) (a : Assembler) : Assembler :=
  flush_instbuf (ib_push (modrm_rr (lo src) (lo dst)) (ib_push 0x89 (opt_rex (hi src) (hi dst) InstBuf_new))) a.

Definition setcc (cc : Cc) (dst : Reg) (a : Assembler) : Assembler :=
  let ib := if needs_rex dst || reg_eqb dst RSP || reg_eqb dst RBP || reg_eqb dst RSI || reg_eqb dst RDI
            then ib_push (Z.lor 0x40 (hi dst)) InstBuf_new else InstBuf_new in
  flush_instbuf (ib_push (Z.lor 0xC0 (lo dst)) (ib_push (0x90 + cc_no cc) (ib_push 0x0F ib))) a.

Definition cmovcc (cc : Cc) : Reg -> Reg -> Assembler -> Assembler := op0f_64 (0x40 + cc_no cc).

(** [F3 REX.W 0F op] and [F3 0F op]. *)
Definition cnt_64 (op : Z) (dst src : Reg) (a : Assembler) : Assembler :=
  let ib := ib_push (rex_w (hi dst) (hi src)) (ib_push 0xF3 InstBuf_new) in
  flush_instbuf (ib_push (modrm_rr (lo dst) (lo src)) (ib_push op (ib_push 0x0F ib))) a.
Definition cnt_32 (op : Z) (dst src : Reg) (a : Assembler) : Assembler :=
  let ib := ib_push 0xF3 InstBuf_new in
  let rex := Z.lor (Z.shiftl (hi dst) 2) (hi src) in
  let ib := if negb (rex =? 0) then ib_push (Z.lor 0x40 rex) ib else ib in
  flush_instbuf (ib_push (modrm_rr (lo dst) (lo src)) (ib_push op (ib_push 0x0F ib))) a.

Definition popcnt64 : Reg -> Reg -> Assembler -> Assembler := cnt_64 0xB8.
Definition lzcnt64 : Reg -> Reg -> Assembler -> Assembler := cnt_64 0xBD.
Definition tzcnt64 : Reg -> Reg -> Assembler -> Assembler := cnt_64 0xBC.
Definition popcnt32 : Reg -> Reg -> Assembler -> Assembler := cnt_32 0xB8.
Definition lzcnt32 : Reg -> Reg -> Assembler -> Assembler := cnt_32 0xBD.
Definition tzcnt32 : Reg -> Reg -> Assembler -> Assembler := cnt_32 0xBC.

Definition bswap64 (dst : Reg) : Assembler -> Assembler := emit3 (Z.lor 0x48 (hi dst)) 0x0F (0xC8 + lo dst).

(** *** Stack, jumps, LEA *)

Definition push (reg : Reg) (a : Assembler) : Assembler := emit (0x50 + lo reg) (rex_opt_b reg a).
Definition pop (reg : Reg) (a : Assembler) : Assembler := emit (0x58 + lo reg) (rex_opt_b reg a).

(** The displacement of a short jump to a bound label, if it is in range. *)
Definition short_rel (a : Assembler) (bound : Z) : option Z :=
  if negb (bound =? LABEL_UNBOUND) then
    let target := bound - 1 in
    let rel := target - (write_pos a + 2) in
    if fits_i8 rel then Some rel else None
  else None.

Definition jmp_label (label : Z) (a : Assembler) : Res Assembler :=
  let! bound := get_label a label in
  match short_rel a bound with
  | Some rel => Ret (emit (wrap 8 rel) (emit 0xEB a))
  | None => emit_label_fixup label (emit 0xE9 a)
  end.

Definition jcc_label (cc : Cc) (label : Z) (a : Assembler) : Res Assembler :=
  let! bound := get_label a label in
  match short_rel a bound with
  | Some rel => Ret (emit (wrap 8 rel) (emit (0x70 + cc_no cc) a))
  | None => emit_label_fixup label (emit (0x80 + cc_no cc) (emit 0x0F a))
  end.

Definition jmp_reg (reg : Reg) (a : Assembler) : Assembler :=
  emit (Z.lor 0xE0 (lo reg)) (emit 0xFF (rex_opt_b reg a)).

Definition ret (a : Assembler) : Assembler := emit 0xC3 a.

Definition lea (dst base : Reg) (disp : Z) (a : Assembler) : Assembler :=
  flush_instbuf (modrm_disp_ib (lo dst) base disp (ib_push 0x8D (ib_push (rex_w (hi dst) (hi base)) InstBuf_new))) a.

Definition lea_32 (dst base : Reg) (disp : Z) (a : Assembler) : Assembler :=
  flush_instbuf (modrm_disp_ib (lo dst) base disp (ib_push 0x8D (opt_rex (hi dst) (hi base) InstBuf_new))) a.

Definition lea_sib_scaled_32 (dst base index : Reg) (scale_log2 : Z) (a : Assembler) : Assembler :=
  let rex := Z.lor (rex_0 (hi dst) (hi base)) (Z.shiftl (hi index) 1) in
  let ib := if negb (rex =? 0x40) then ib_push rex InstBuf_new else InstBuf_new in
  let ib := ib_push 0x8D ib in
  let scale_bits := wrap 8 (Z.shiftl scale_log2 6) in
  let sib := Z.lor (Z.lor scale_bits (Z.shiftl (lo index) 3)) (lo base) in
  let ib :=
    if lo base =? 5 then ib_push 0 (ib_push sib (ib_push (Z.lor 0x44 (Z.shiftl (lo dst) 3)) ib))
    else ib_push sib (ib_push (Z.lor (Z.shiftl (lo dst) 3) 4) ib) in
  flush_instbuf ib a.

Definition nop (a : Assembler) : Assembler := emit 0x90 a.

(** ** Finalisation *)

Definition label_offset (a : Assembler) (label : Z) : Res (option Z) :=
  let! off := get_label a label in
  Ret (if off =? LABEL_UNBOUND then None else Some (off - 1)).

Definition fixups_len (a : Assembler) : nat := length (fixups a).

Definition redirect_fixup (idx : nat) (new_label : Z) (a : Assembler) : Res Assembler :=
  let! f := expect (fixups a !! idx) in
  Ret (set_fixups a (<[idx := mkFixup (fx_offset f) new_label]> (fixups a))).

(** An unbound label at this point is a panic. *)
Definition resolve_fixup (a : Assembler) (f : Fixup) : Res Assembler :=
  let! stored := get_label a (fx_label f) in
  if stored =? LABEL_UNBOUND then Abort
  else
    let target := stored - 1 in
    let rel := target - (fx_offset f + 4) in
    Ret (patch_i32 (fx_offset f) rel a).

Fixpoint resolve_all (a : Assembler) (l : list Fixup) : Res Assembler :=
  match l with
  | [] => Ret a
  | f :: l' => let! a := resolve_fixup a f in resolve_all a l'
  end.

Definition resolve_fixups (a : Assembler) : Res Assembler := resolve_all a (fixups a).

Definition finalize (a : Assembler) : Res (list Z) :=
  let! a := resolve_fixups a in Ret (code_bytes a).
