(* ===== verification/X86.v ===== *)
(** * The processor: a specification

    The part of the x86-64 instruction set the recompiler emits: decoding of
    machine code and the effect of each instruction on registers, flags and
    memory, after the architecture manual. Flags an instruction leaves undefined,
    and those no emitted code reads, are [None]; an instruction that reads such a
    flag is stuck. Nothing here models code of the repository. *)

From S2P Require Import Prelude MachineInt Asm.

(** ** Instructions *)

Inductive Alu := ADD | OR | AND | SUB | XOR | CMP | TEST.
Inductive Sh := ROL | ROR | SHL | SHR | SAR.
Inductive Cnt := POPCNT | LZCNT | TZCNT.

(** A memory operand: base, scaled index and displacement, or relative to the
    next instruction. *)
Inductive MemOp :=
  | MBase (base : Reg) (index : option (Reg * Z)) (disp : Z)
  | MRip (disp : Z).

Inductive Ins :=
  | IAlu (k : Alu) (w : Z) (dst src : Reg)
  | IAluImm (k : Alu) (w : Z) (dst : Reg) (imm : Z)
  | IAluMem (k : Alu) (dst : Reg) (m : MemOp)
  | IMov (w : Z) (dst src : Reg)
  | IMovImm (dst : Reg) (imm : Z)
  | ILoad (w : Z) (dst : Reg) (m : MemOp)
  | ILoadSx32 (dst : Reg) (m : MemOp)
  | IStore (w : Z) (m : MemOp) (src : Reg)
  | IStoreImm (m : MemOp) (imm : Z)
  | IMovsx (from : Z) (dst src : Reg)
  | IMovzx16 (dst src : Reg)
  | ISetcc (cc : Cc) (dst : Reg)
  | ICmov (cc : Cc) (dst src : Reg)
  | IImul (w : Z) (dst src : Reg)
  | IMul (signed : bool) (src : Reg)
  | IDiv (signed : bool) (w : Z) (src : Reg)
  | ISignA (w : Z)
  | INeg (dst : Reg)
  | INot (dst : Reg)
  | IShImm (k : Sh) (w : Z) (dst : Reg) (imm : Z)
  | IShCl (k : Sh) (w : Z) (dst : Reg)
  | ICnt (k : Cnt) (w : Z) (dst src : Reg)
  | IBswap (dst : Reg)
  | IPush (r : Reg)
  | IPop (r : Reg)
  | ILea (w : Z) (dst : Reg) (m : MemOp)
  | IJmp (rel : Z)
  | IJcc (cc : Cc) (rel : Z)
  | IJmpReg (r : Reg)
  | IRet
  | INop.

(** ** Decoding *)

Definition all_regs : list Reg := [RAX; RCX; RDX; RBX; RSP; RBP; RSI; RDI; R8; R9; R10; R11; R12; R13; R14; R15].
Definition reg_of (n : Z) : option Reg := all_regs !! Z.to_nat n.
Definition all_ccs : list Cc :=
  [Cc_O; Cc_NO; Cc_B; Cc_AE; Cc_E; Cc_NE; Cc_BE; Cc_A; Cc_S; Cc_NS; Cc_P; Cc_NP; Cc_L; Cc_GE; Cc_LE; Cc_G].
Definition cc_of (n : Z) : option Cc := all_ccs !! Z.to_nat n.

(** A little-endian field of [n] bytes, sign-extended, and what follows. *)
Definition field (n : nat) (bs : list Z) : option (Z * list Z) :=
  if (length bs <? n)%nat then None else Some (sext (8 * Z.of_nat n) (from_le_bytes (take n bs)), drop n bs).

Inductive Rm := RmReg (r : Reg) | RmMem (m : MemOp).

(** The prefixes: operand size, repeat, and the REX bits. *)
Record Pre := mkPre { p66 : bool; pF3 : bool; p_rex : bool; p_w : bool; p_r : Z; p_x : Z; p_b : Z }.

Definition obind {A B : Type} (o : option A) (f : A -> option B) : option B := match o with Some x => f x | None => None end.
Notation "'get' x := o 'in' e" := (obind o (fun x => e)) (at level 10, x pattern, o at level 100, e at level 200).

(** The displacement that [md] asks for. *)
Definition disp_of (md : Z) (bs : list Z) : option (Z * list Z) :=
  if md =? 0 then Some (0, bs) else if md =? 1 then field 1 bs else field 4 bs.

(** ModRM with its SIB byte and displacement: the register field and the other
    operand. Forms without a base register are not emitted. *)
Definition modrm (p : Pre) (bs : list Z) : option (Z * Rm * list Z) :=
  match bs with
  | [] => None
  | b :: bs =>
      let md := Z.shiftr b 6 in
      let reg := 8 * p_r p + Z.land (Z.shiftr b 3) 7 in
      let rm := Z.land b 7 in
      if md =? 3 then get r := reg_of (8 * p_b p + rm) in Some (reg, RmReg r, bs)
      else if rm =? 4 then
        match bs with
        | [] => None
        | s :: bs =>
            let idx := 8 * p_x p + Z.land (Z.shiftr s 3) 7 in
            if (Z.land s 7 =? 5) && (md =? 0) then None
            else
              get base := reg_of (8 * p_b p + Z.land s 7) in
              get index := (if idx =? 4 then Some None else get r := reg_of idx in Some (Some (r, Z.shiftl 1 (Z.shiftr s 6)))) in
              get (d, bs) := disp_of md bs in
              Some (reg, RmMem (MBase base index d), bs)
        end
      else if (rm =? 5) && (md =? 0) then get (d, bs) := field 4 bs in Some (reg, RmMem (MRip d), bs)
      else
        get base := reg_of (8 * p_b p + rm) in
        get (d, bs) := disp_of md bs in
        Some (reg, RmMem (MBase base None d), bs)
  end.

Definition prefixes (bs : list Z) : Pre * list Z :=
  let '(o, bs) := match bs with b :: bs' => if b =? 0x66 then (true, bs') else (false, bs) | [] => (false, bs) end in
  let '(f, bs) := match bs with b :: bs' => if b =? 0xF3 then (true, bs') else (false, bs) | [] => (false, bs) end in
  match bs with
  | b :: bs' =>
      if Z.shiftr b 4 =? 4
      then (mkPre o f true (Z.testbit b 3) (b2z (Z.testbit b 2)) (b2z (Z.testbit b 1)) (b2z (Z.testbit b 0)), bs')
      else (mkPre o f false false 0 0 0, bs)
  | [] => (mkPre o f false false 0 0 0, bs)
  end.

Definition width_of (p : Pre) : Z := if p_w p then 64 else 32.

(** A byte register: without REX the numbers 4 to 7 are the legacy high bytes,
    which are not modelled. *)
Definition byte_reg (p : Pre) (r : Reg) : option Reg := if negb (p_rex p) && (4 <=? reg_no r) then None else Some r.

(** The opcodes [op r/m, r]. *)
Definition alu_of (op : Z) : option Alu :=
  if op =? 0x01 then Some ADD else if op =? 0x09 then Some OR else if op =? 0x21 then Some AND
  else if op =? 0x29 then Some SUB else if op =? 0x31 then Some XOR else if op =? 0x39 then Some CMP
  else if op =? 0x85 then Some TEST else None.

(** The register field of the immediate group. *)
Definition alu_ext (e : Z) : option Alu :=
  if e =? 0 then Some ADD else if e =? 1 then Some OR else if e =? 4 then Some AND
  else if e =? 5 then Some SUB else if e =? 6 then Some XOR else if e =? 7 then Some CMP else None.

Definition sh_ext (e : Z) : option Sh :=
  if e =? 0 then Some ROL else if e =? 1 then Some ROR else if e =? 4 then Some SHL
  else if e =? 5 then Some SHR else if e =? 7 then Some SAR else None.

(** Opcodes after [0F]. *)
Definition decode_0f (p : Pre) (op : Z) (bs : list Z) : option (Ins * list Z) :=
  if Z.shiftr op 4 =? 8 then get cc := cc_of (Z.land op 15) in get (d, bs) := field 4 bs in Some (IJcc cc d, bs)
  else if Z.shiftr op 3 =? 0x19 then
    get r := reg_of (8 * p_b p + Z.land op 7) in if p_w p then Some (IBswap r, bs) else None
  else
    get (reg, rm, bs) := modrm p bs in
    if Z.shiftr op 4 =? 9 then
      match rm with
      | RmReg r => get cc := cc_of (Z.land op 15) in get r := byte_reg p r in Some (ISetcc cc r, bs)
      | RmMem _ => None
      end
    else
      get dst := reg_of reg in
      match rm with
      | RmMem m =>
          if (op =? 0xB6) && p_w p then Some (ILoad 8 dst m, bs)
          else if op =? 0xB7 then Some (ILoad 16 dst m, bs) else None
      | RmReg src =>
          if pF3 p then
            if op =? 0xB8 then Some (ICnt POPCNT (width_of p) dst src, bs)
            else if op =? 0xBC then Some (ICnt TZCNT (width_of p) dst src, bs)
            else if op =? 0xBD then Some (ICnt LZCNT (width_of p) dst src, bs) else None
          else if op =? 0xAF then Some (IImul (width_of p) dst src, bs)
          else if op =? 0xB7 then Some (IMovzx16 dst src, bs)
          else if negb (p_w p) then None
          else if op =? 0xBE then Some (IMovsx 8 dst src, bs)
          else if op =? 0xBF then Some (IMovsx 16 dst src, bs)
          else if Z.shiftr op 4 =? 4 then get cc := cc_of (Z.land op 15) in Some (ICmov cc dst src, bs)
          else None
      end.

(** The group [F7]. *)
Definition decode_f7 (p : Pre) (e : Z) (r : Reg) : option Ins :=
  if e =? 6 then Some (IDiv false (width_of p) r)
  else if e =? 7 then Some (IDiv true (width_of p) r)
  else if negb (p_w p) then None
  else if e =? 2 then Some (INot r)
  else if e =? 3 then Some (INeg r)
  else if e =? 4 then Some (IMul false r)
  else if e =? 5 then Some (IMul true r)
  else None.

(** Opcodes with a ModRM byte. *)
Definition decode_modrm (p : Pre) (op : Z) (bs : list Z) : option (Ins * list Z) :=
  get (reg, rm, bs) := modrm p bs in
  let e := Z.land reg 7 in
  match rm with
  | RmReg r =>
      if op =? 0x89 then get src := reg_of reg in Some (IMov (width_of p) r src, bs)
      else if op =? 0x63 then get dst := reg_of reg in if p_w p then Some (IMovsx 32 dst r, bs) else None
      else if op =? 0x83 then get k := alu_ext e in get (i, bs) := field 1 bs in Some (IAluImm k (width_of p) r i, bs)
      else if op =? 0x81 then get k := alu_ext e in get (i, bs) := field 4 bs in Some (IAluImm k (width_of p) r i, bs)
      else if op =? 0xC7 then
        if p_w p && (e =? 0) then get (i, bs) := field 4 bs in Some (IMovImm r (wrap 64 i), bs) else None
      else if op =? 0xC1 then get k := sh_ext e in get (i, bs) := field 1 bs in Some (IShImm k (width_of p) r i, bs)
      else if op =? 0xD3 then get k := sh_ext e in Some (IShCl k (width_of p) r, bs)
      else if op =? 0xF7 then get i := decode_f7 p e r in Some (i, bs)
      else if op =? 0xFF then if e =? 4 then Some (IJmpReg r, bs) else None
      else get k := alu_of op in get src := reg_of reg in Some (IAlu k (width_of p) r src, bs)
  | RmMem m =>
      if (op =? 0xC7) && (e =? 0) && negb (p_w p) then get (i, bs) := field 4 bs in Some (IStoreImm m i, bs)
      else
        get r := reg_of reg in
        if op =? 0x8B then Some (ILoad (width_of p) r m, bs)
        else if op =? 0x89 then Some (IStore (if p66 p then 16 else width_of p) m r, bs)
        else if op =? 0x88 then get r := byte_reg p r in Some (IStore 8 m r, bs)
        else if op =? 0x8D then Some (ILea (width_of p) r m, bs)
        else if negb (p_w p) then None
        else if op =? 0x63 then Some (ILoadSx32 r m, bs)
        else if op =? 0x03 then Some (IAluMem ADD r m, bs)
        else if op =? 0x3B then Some (IAluMem CMP r m, bs)
        else None
  end.

(** The instruction at the head of the bytes, and the bytes after it. *)
Definition decode (bs : list Z) : option (Ins * list Z) :=
  let '(p, bs) := prefixes bs in
  match bs with
  | [] => None
  | op :: bs =>
      if op =? 0x0F then match bs with [] => None | op2 :: bs => decode_0f p op2 bs end
      else if Z.shiftr op 3 =? 0xA then get r := reg_of (8 * p_b p + Z.land op 7) in Some (IPush r, bs)
      else if Z.shiftr op 3 =? 0xB then get r := reg_of (8 * p_b p + Z.land op 7) in Some (IPop r, bs)
      else if Z.shiftr op 3 =? 0x17 then
        get r := reg_of (8 * p_b p + Z.land op 7) in
        if p_w p then get (i, bs) := field 8 bs in Some (IMovImm r (wrap 64 i), bs)
        else get (i, bs) := field 4 bs in Some (IMovImm r (wrap 32 i), bs)
      else if Z.shiftr op 4 =? 7 then get cc := cc_of (Z.land op 15) in get (d, bs) := field 1 bs in Some (IJcc cc d, bs)
      else if op =? 0xEB then get (d, bs) := field 1 bs in Some (IJmp d, bs)
      else if op =? 0xE9 then get (d, bs) := field 4 bs in Some (IJmp d, bs)
      else if op =? 0x99 then Some (ISignA (width_of p), bs)
      else if op =? 0xC3 then Some (IRet, bs)
      else if op =? 0x90 then Some (INop, bs)
      else decode_modrm p op bs
  end.

(** ** State *)

Record Flags := mkFlags { f_cf : option bool; f_zf : option bool; f_sf : option bool; f_of : option bool }.
Definition no_flags : Flags := mkFlags None None None None.

Record Cpu := mkCpu { gpr : Reg -> Z; rip : Z; flags : Flags; mem : Z -> Z }.

Definition upd (f : Reg -> Z) (r : Reg) (v : Z) : Reg -> Z := fun q => if reg_eqb q r then v else f q.
Definition set_reg (c : Cpu) (r : Reg) (v : Z) : Cpu := mkCpu (upd (gpr c) r v) (rip c) (flags c) (mem c).
Definition set_rip (c : Cpu) (v : Z) : Cpu := mkCpu (gpr c) v (flags c) (mem c).
Definition set_flags (c : Cpu) (f : Flags) : Cpu := mkCpu (gpr c) (rip c) f (mem c).
Definition set_mem (c : Cpu) (m : Z -> Z) : Cpu := mkCpu (gpr c) (rip c) (flags c) m.

(** Little-endian accesses of [n] bytes. *)
Definition mread (m : Z -> Z) (n : nat) (a : Z) : Z := from_le_bytes (List.map (fun i => m (wrap 64 (a + Z.of_nat i))) (seq 0 n)).
Definition mwrite (m : Z -> Z) (n : nat) (a v : Z) : Z -> Z :=
  fun x => let i := wrap 64 (x - a) in if i <? Z.of_nat n then wrap 8 (Z.shiftr v (8 * i)) else m x.

(** What the processor does with an instruction. *)
Inductive Out :=
  | XNext (c : Cpu)
  | XFault (addr width : Z) (write : bool)
  | XDivide
  | XStuck.

(** ** Arithmetic *)

Definition rdw (c : Cpu) (w : Z) (r : Reg) : Z := wrap w (gpr c r).

(** Results of 32-bit operations clear the upper half. *)
Definition alu_result (k : Alu) (w a b : Z) : Z :=
  match k with
  | ADD => wrap w (a + b)
  | SUB | CMP => wrap w (a - b)
  | AND | TEST => Z.land a b
  | OR => Z.lor a b
  | XOR => Z.lxor a b
  end.

Definition alu_flags (k : Alu) (w a b : Z) : Flags :=
  let r := alu_result k w a b in
  let zf := Some (r =? 0) in
  let sf := Some (Z.testbit r (w - 1)) in
  match k with
  | ADD => mkFlags (Some (2 ^ w <=? a + b)) zf sf (Some (negb (sext w a + sext w b =? sext w r)))
  | SUB | CMP => mkFlags (Some (a <? b)) zf sf (Some (negb (sext w a - sext w b =? sext w r)))
  | AND | OR | XOR | TEST => mkFlags (Some false) zf sf (Some false)
  end.

Definition writes (k : Alu) : bool := match k with CMP | TEST => false | _ => true end.

Definition do_alu (k : Alu) (w : Z) (dst : Reg) (b : Z) (c : Cpu) : Cpu :=
  let a := rdw c w dst in
  let c' := set_flags c (alu_flags k w a b) in
  if writes k then set_reg c' dst (alu_result k w a b) else c'.

(** Conditions; the parity flag is not kept. *)
Definition omap2 (f : bool -> bool -> bool) (a b : option bool) : option bool :=
  match a, b with Some x, Some y => Some (f x y) | _, _ => None end.

Definition cond (cc : Cc) (f : Flags) : option bool :=
  let lt := omap2 xorb (f_sf f) (f_of f) in
  match cc with
  | Cc_O => f_of f
  | Cc_NO => negb <$> f_of f
  | Cc_B => f_cf f
  | Cc_AE => negb <$> f_cf f
  | Cc_E => f_zf f
  | Cc_NE => negb <$> f_zf f
  | Cc_BE => omap2 orb (f_cf f) (f_zf f)
  | Cc_A => negb <$> omap2 orb (f_cf f) (f_zf f)
  | Cc_S => f_sf f
  | Cc_NS => negb <$> f_sf f
  | Cc_P | Cc_NP => None
  | Cc_L => lt
  | Cc_GE => negb <$> lt
  | Cc_LE => omap2 orb lt (f_zf f)
  | Cc_G => negb <$> omap2 orb lt (f_zf f)
  end.

(** Shifts and rotations by a count masked to the width; the flags of a non-zero
    count are not kept. *)
Definition sh_result (k : Sh) (w a n : Z) : Z :=
  let n := n mod w in
  match k with
  | SHL => wrap w (Z.shiftl a n)
  | SHR => Z.shiftr a n
  | SAR => wrap w (Z.shiftr (sext w a) n)
  | ROL => rotate_left w a n
  | ROR => rotate_right w a n
  end.

Definition do_sh (k : Sh) (w : Z) (dst : Reg) (n : Z) (c : Cpu) : Cpu :=
  let c' := set_reg c dst (sh_result k w (rdw c w dst) n) in
  if n mod w =? 0 then c' else set_flags c' no_flags.

Definition cnt_result (k : Cnt) (w a : Z) : Z :=
  match k with POPCNT => count_ones a | LZCNT => leading_zeros w a | TZCNT => trailing_zeros w a end.

(** [RDX:RAX] divided by the operand; a quotient out of range is an exception. *)
Definition do_div (signed : bool) (w : Z) (b : Z) (c : Cpu) : option Cpu :=
  let n := rdw c w RDX * 2 ^ w + rdw c w RAX in
  if b =? 0 then None
  else
    let n := if signed then sext (2 * w) n else n in
    let b := if signed then sext w b else b in
    let q := if signed then Z.quot n b else n / b in
    let r := if signed then Z.rem n b else n mod b in
    let ok := if signed then (- 2 ^ (w - 1) <=? q) && (q <? 2 ^ (w - 1)) else q <? 2 ^ w in
    if ok then Some (set_flags (set_reg (set_reg c RAX (wrap w q)) RDX (wrap w r)) no_flags) else None.

Definition do_mul (signed : bool) (b : Z) (c : Cpu) : Cpu :=
  let p := if signed then sext 64 (gpr c RAX) * sext 64 b else gpr c RAX * b in
  set_flags (set_reg (set_reg c RAX (wrap 64 p)) RDX (wrap 64 (Z.shiftr p 64))) no_flags.

(** ** Execution *)

Section Exec.
  (** Whether an access of a width in bits is permitted. *)
  Context (access : bool -> Z -> Z -> bool).

Definition ea (c : Cpu) (next : Z) (m : MemOp) : Z :=
  match m with
  | MBase base index d =>
      wrap 64 (gpr c base + match index with Some (r, s) => gpr c r * s | None => 0 end + d)
  | MRip d => wrap 64 (next + d)
  end.

Definition load (c : Cpu) (next w : Z) (m : MemOp) (k : Z -> Out) : Out :=
  let a := ea c next m in
  if access false a w then k (mread (mem c) (Z.to_nat (w / 8)) a) else XFault a w false.

Definition store (c : Cpu) (next w : Z) (m : MemOp) (v : Z) : Out :=
  let a := ea c next m in
  if access true a w then XNext (set_mem c (mwrite (mem c) (Z.to_nat (w / 8)) a v)) else XFault a w true.

(** The stack is always accessible in its own page, which [access] describes. *)
Definition do_push (c : Cpu) (v : Z) : Out :=
  let a := wrap 64 (gpr c RSP - 8) in
  if access true a 64 then XNext (set_reg (set_mem c (mwrite (mem c) 8 a v)) RSP a) else XFault a 64 true.

Definition do_pop (c : Cpu) (k : Z -> Cpu -> Out) : Out :=
  let a := gpr c RSP in
  if access false a 64 then k (mread (mem c) 8 a) (set_reg c RSP (wrap 64 (a + 8))) else XFault a 64 false.

Definition on_cond (cc : Cc) (c : Cpu) (k : bool -> Out) : Out :=
  match cond cc (flags c) with Some b => k b | None => XStuck end.

(** [c] has [rip] already at [next]. *)
Definition exec (i : Ins) (next : Z) (c : Cpu) : Out :=
  match i with
  | IAlu k w dst src => XNext (do_alu k w dst (rdw c w src) c)
  | IAluImm k w dst imm => XNext (do_alu k w dst (wrap w imm) c)
  | IAluMem k dst m => load c next 64 m (fun v => XNext (do_alu k 64 dst v c))
  | IMov w dst src => XNext (set_reg c dst (rdw c w src))
  | IMovImm dst imm => XNext (set_reg c dst imm)
  | ILoad w dst m => load c next w m (fun v => XNext (set_reg c dst v))
  | ILoadSx32 dst m => load c next 32 m (fun v => XNext (set_reg c dst (wrap 64 (sext 32 v))))
  | IStore w m src => store c next w m (rdw c w src)
  | IStoreImm m imm => store c next 32 m (wrap 32 imm)
  | IMovsx f dst src => XNext (set_reg c dst (wrap 64 (sext f (gpr c src))))
  | IMovzx16 dst src => XNext (set_reg c dst (rdw c 16 src))
  | ISetcc cc dst => on_cond cc c (fun b => XNext (set_reg c dst (Z.lor (Z.land (gpr c dst) (not_u 64 0xFF)) (b2z b))))
  | ICmov cc dst src => on_cond cc c (fun b => XNext (if b then set_reg c dst (gpr c src) else c))
  | IImul w dst src => XNext (set_flags (set_reg c dst (wrap w (rdw c w dst * rdw c w src))) no_flags)
  | IMul signed src => XNext (do_mul signed (gpr c src) c)
  | IDiv signed w src => match do_div signed w (rdw c w src) c with Some c => XNext c | None => XDivide end
  | ISignA w => XNext (set_reg c RDX (wrap w (Z.shiftr (sext w (gpr c RAX)) w)))
  | INeg dst => XNext (set_flags (set_reg c dst (wrap 64 (- gpr c dst))) no_flags)
  | INot dst => XNext (set_reg c dst (not_u 64 (gpr c dst)))
  | IShImm k w dst imm => XNext (do_sh k w dst imm c)
  | IShCl k w dst => XNext (do_sh k w dst (gpr c RCX) c)
  | ICnt k w dst src => XNext (set_flags (set_reg c dst (cnt_result k w (rdw c w src))) no_flags)
  | IBswap dst => XNext (set_reg c dst (swap_bytes 8 (gpr c dst)))
  | IPush r => do_push c (gpr c r)
  | IPop r => do_pop c (fun v c => XNext (set_reg c r v))
  | ILea w dst m => XNext (set_reg c dst (wrap w (ea c next m)))
  | IJmp rel => XNext (set_rip c (wrap 64 (next + rel)))
  | IJcc cc rel => on_cond cc c (fun b => XNext (if b then set_rip c (wrap 64 (next + rel)) else c))
  | IJmpReg r => XNext (set_rip c (gpr c r))
  | IRet => do_pop c (fun v c => XNext (set_rip c v))
  | INop => XNext c
  end.

(** One instruction of code loaded at [base]. *)
Definition step (base : Z) (code : list Z) (c : Cpu) : Out :=
  let pos := rip c - base in
  if (pos <? 0) || (Z.of_nat (length code) <=? pos) then XStuck
  else
    let bs := drop (Z.to_nat pos) code in
    match decode bs with
    | Some (i, rest) =>
        let next := rip c + Z.of_nat (length bs - length rest) in
        exec i next (set_rip c next)
    | None => XStuck
    end.

(** [fuel] instructions, or fewer when the processor stops. *)
Fixpoint steps (fuel : nat) (base : Z) (code : list Z) (c : Cpu) : Out :=
  match fuel with
  | O => XNext c
  | S fuel' => match step base code c with XNext c => steps fuel' base code c | o => o end
  end.

(** Straight-line code: no instruction reads or writes the instruction pointer. *)
Definition rip_free (m : MemOp) : bool := match m with MBase _ _ _ => true | MRip _ => false end.
Definition linear (i : Ins) : bool :=
  match i with
  | IJmp _ | IJcc _ _ | IJmpReg _ | IRet => false
  | IAluMem _ _ m | ILoad _ _ m | ILoadSx32 _ m | IStore _ m _ | IStoreImm m _ | ILea _ _ m => rip_free m
  | _ => true
  end.

Fixpoint exec_list (l : list Ins) (c : Cpu) : Out :=
  match l with
  | [] => XNext c
  | i :: l' => if linear i then match exec i 0 c with XNext c => exec_list l' c | o => o end else XStuck
  end.
End Exec.
