(* ===== verification/AsmFacts.v ===== *)
(** * The assembler against the processor

    What each emitter of [Asm] appends decodes, in the specification of the
    processor, to the instruction it is named after. [adds f l] says so: [f]
    appends bytes that are the encoding of the instructions [l], whatever comes
    after them. *)

From S2P Require Import Prelude MachineInt Asm X86.

(** ** Decoding reads no further than the instruction *)

Lemma field_app n bs rest x r : field n bs = Some (x, r) -> field n (bs ++ rest) = Some (x, r ++ rest).
Proof.
  unfold field. rewrite length_app. destruct (Nat.ltb_spec (length bs) n); [done|].
  destruct (Nat.ltb_spec (length bs + length rest) n); [lia|]. intros E. injection E as <- <-.
  by rewrite take_app_le, drop_app_le by lia.
Qed.

Lemma disp_app md bs rest x r : disp_of md bs = Some (x, r) -> disp_of md (bs ++ rest) = Some (x, r ++ rest).
Proof.
  unfold disp_of. destruct (md =? 0); [by intros [= <- <-]|]. destruct (md =? 1); apply field_app.
Qed.
(** A reader on longer input, read by read; [known] extends the reads it goes through. *)
Ltac longer E known :=
  repeat (cbn [obind app] in *; match type of E with
  | None = Some _ => discriminate E
  | Some _ = Some _ => injection E as E; subst; reflexivity
  | obind ?o _ = _ => known o E
  | obind ?o _ = _ => destruct o as [?|]; [|discriminate E]
  | (if ?c then _ else _) = _ => destruct c
  | match ?m with _ => _ end = _ => destruct m
  end).
Ltac known_field o E :=
  lazymatch o with
  | field _ _ => let F := fresh in destruct o as [[]|] eqn:F; [erewrite (field_app _ _ _ _ _ F)|discriminate E]
  | disp_of _ _ => let F := fresh in destruct o as [[]|] eqn:F; [erewrite (disp_app _ _ _ _ _ F)|discriminate E]
  end.
Lemma modrm_app p bs rest x r : modrm p bs = Some (x, r) -> modrm p (bs ++ rest) = Some (x, r ++ rest).
Proof. intros E. destruct bs as [|b bs]; [discriminate E|]. unfold modrm in *. longer E known_field. Qed.
Ltac known_modrm o E :=
  lazymatch o with
  | modrm _ _ => let F := fresh in destruct o as [[[? ?] ?]|] eqn:F; [erewrite (modrm_app _ _ _ _ _ F)|discriminate E]
  | _ => known_field o E
  end.
Lemma decode_0f_app p op bs rest x r : decode_0f p op bs = Some (x, r) -> decode_0f p op (bs ++ rest) = Some (x, r ++ rest).
Proof. intros E. unfold decode_0f in *. longer E known_modrm. Qed.

Lemma decode_modrm_app p op bs rest x r : decode_modrm p op bs = Some (x, r) -> decode_modrm p op (bs ++ rest) = Some (x, r ++ rest).
Proof. intros E. unfold decode_modrm in *. longer E known_modrm. Qed.

Lemma prefixes_app bs rest p o r : prefixes bs = (p, o :: r) -> prefixes (bs ++ rest) = (p, o :: r ++ rest).
Proof.
  intros E. unfold prefixes in *. destruct bs as [|b bs]; [discriminate E|]. cbn [app].
  destruct (b =? 0x66).
  - destruct bs as [|b1 bs]; [discriminate E|]. cbn [app]. destruct (b1 =? 0xF3).
    + destruct bs as [|b2 bs]; [discriminate E|]. cbn [app]. destruct (Z.shiftr b2 4 =? 4); injection E as <- E; by subst.
    + destruct (Z.shiftr b1 4 =? 4); injection E as <- E; by subst.
  - destruct (b =? 0xF3).
    + destruct bs as [|b2 bs]; [discriminate E|]. cbn [app]. destruct (Z.shiftr b2 4 =? 4); injection E as <- E; by subst.
    + destruct (Z.shiftr b 4 =? 4); injection E as <- E; by subst.
Qed.

Lemma ins_decode_app bs rest x r : decode bs = Some (x, r) -> decode (bs ++ rest) = Some (x, r ++ rest).
Proof.
  intros E. unfold decode in *. destruct (prefixes bs) as [p [|op l]] eqn:Ep; [discriminate E|].
  rewrite (prefixes_app _ rest _ _ _ Ep). cbn [app].
  destruct (op =? 0x0F).
  - destruct l as [|op2 l]; [discriminate E|]. by apply decode_0f_app.
  - longer E known_modrm. by apply decode_modrm_app.
Qed.

(** ** Byte sequences as instructions *)

Inductive parses : list Z -> list Ins -> Prop :=
  | parses_nil : parses [] []
  | parses_cons bs i bs' l :
      bs <> [] -> (forall rest, decode (bs ++ rest) = Some (i, rest)) -> parses bs' l -> parses (bs ++ bs') (i :: l).

Lemma parses_app bs l bs' l' : parses bs l -> parses bs' l' -> parses (bs ++ bs') (l ++ l').
Proof.
  intros H H'. induction H as [|b i bs1 l1 Hn Hd _ IH]; [done|].
  rewrite <- app_assoc. by apply (parses_cons b i (bs1 ++ bs') (l1 ++ l')).
Qed.

Lemma parses_one bs i : (forall rest, decode (bs ++ rest) = Some (i, rest)) -> parses bs [i].
Proof.
  intros Hd. rewrite <- (app_nil_r bs). constructor; [|done|constructor]. intros ->. discriminate (Hd []).
Qed.

Lemma parses_decode bs i : decode bs = Some (i, []) -> parses bs [i].
Proof. intros E. apply parses_one. intros rest. by rewrite (ins_decode_app _ rest _ _ E). Qed.

(** [f] appends the encoding of [l] and leaves labels and fixups alone. *)
Definition adds (f : Assembler -> Assembler) (l : list Ins) : Prop :=
  forall a, exists bs, rcode (f a) = rev_append bs (rcode a) /\ labels (f a) = labels a /\ fixups (f a) = fixups a /\ parses bs l.

Lemma adds_nil : adds (fun a => a) [].
Proof. intros a. exists []. repeat split. constructor. Qed.

Lemma adds_put bs reach l : parses bs l -> adds (put_bytes bs reach) l.
Proof. intros P a. by exists bs. Qed.

Lemma adds_comp f g l l' : adds f l -> adds g l' -> adds (fun a => g (f a)) (l ++ l').
Proof.
  intros F G a. destruct (F a) as (bs & E & El & Ex & P). destruct (G (f a)) as (bs' & E' & El' & Ex' & P').
  exists (bs ++ bs'). rewrite E', E, !rev_append_rev, rev_app_distr, <- app_assoc. repeat split; [congruence..|].
  by apply parses_app.
Qed.

(** ** The instruction buffer holds bytes *)

Definition ib_is (ib : InstBuf) (bs : list Z) : Prop :=
  ib_length ib = 8 * Z.of_nat (length bs) /\ ib_out ib = from_le_bytes bs /\ Forall (is_u 8) bs /\ (length bs <= 16)%nat.

Lemma ib_new : ib_is InstBuf_new [].
Proof. repeat split; [constructor|cbn; lia]. Qed.

Lemma from_le_bytes_app a b : from_le_bytes (a ++ b) = from_le_bytes a + 2 ^ (8 * Z.of_nat (length a)) * from_le_bytes b.
Proof.
  induction a as [|x a IH]; [cbn; lia|]. cbn [app from_le_bytes length]. rewrite IH.
  replace (8 * Z.of_nat (S (length a))) with (8 + 8 * Z.of_nat (length a)) by lia.
  rewrite Z.pow_add_r by lia. change (2 ^ 8) with 256. lia.
Qed.

Lemma ib_or_is ib bs v l n :
  ib_is ib bs -> v = from_le_bytes l -> n = 8 * Z.of_nat (length l) -> Forall (is_u 8) l -> (length bs + length l <= 16)%nat ->
  ib_is (ib_or ib v n) (bs ++ l).
Proof.
  intros (El & Eo & Hb & Hn) -> -> Hl Hlen. unfold ib_or, ib_is. cbn [ib_length ib_out]. rewrite El, Eo, length_app.
  repeat split; [lia| |by apply Forall_app|lia].
  pose proof (from_le_bytes_range bs Hb) as Rb. pose proof (from_le_bytes_range l Hl) as Rl.
  rewrite from_le_bytes_app, Z.shiftl_mul_pow2 by lia. rewrite Z.mul_comm.
  rewrite wrap_small.
  - rewrite Z.lor_comm, (lor_disjoint (8 * Z.of_nat (length bs))) by (lia || done || (rewrite Z.mul_comm; apply Z_mod_mult)). lia.
  - unfold is_u in *. assert (2 ^ (8 * Z.of_nat (length bs)) * 2 ^ (8 * Z.of_nat (length l)) <= 2 ^ 128).
    { rewrite <- Z.pow_add_r by lia. apply Z.pow_le_mono_r; lia. }
    nia.
Qed.

Lemma to_le_bytes_take n m v : (n <= m)%nat -> take n (to_le_bytes m v) = to_le_bytes n v.
Proof.
  revert m v. induction n as [|n IH]; intros m v H; [done|]. destruct m as [|m]; [lia|].
  cbn [to_le_bytes take]. by rewrite IH by lia.
Qed.

Lemma adds_flush ib bs l : ib_is ib bs -> parses bs l -> adds (flush_instbuf ib) l.
Proof.
  intros (El & Eo & Hb & Hn) P. unfold flush_instbuf. apply adds_put.
  replace (take _ _) with bs; [done|]. unfold ib_len. rewrite El, Eo, Z.shiftr_div_pow2 by lia.
  replace (Z.to_nat (8 * Z.of_nat (length bs) / 2 ^ 3)) with (length bs) by dlia.
  by rewrite to_le_bytes_take, to_from_le_bytes by (done || lia).
Qed.

Lemma ib_push_is ib bs b : ib_is ib bs -> is_u 8 b -> (length bs < 16)%nat -> ib_is (ib_push b ib) (bs ++ [b]).
Proof. intros H Hb Hn. apply (ib_or_is ib bs b [b] 8); [done|cbn; lia|done|by apply List.Forall_cons|cbn; lia]. Qed.

Lemma ib_push_le ib bs v n : 
  ib_is ib bs -> is_u (8 * Z.of_nat n) v -> (length bs + n <= 16)%nat -> ib_is (ib_or ib v (8 * Z.of_nat n)) (bs ++ to_le_bytes n v).
Proof.
  intros H Hv Hn. apply ib_or_is; [done| | |apply to_le_bytes_bytes|].
  - by rewrite from_to_le_bytes, wrap_small.
  - by rewrite length_to_le_bytes.
  - rewrite length_to_le_bytes. lia.
Qed.

Lemma ib_push_u32_is ib bs v : ib_is ib bs -> is_u 32 v -> (length bs + 4 <= 16)%nat -> ib_is (ib_push_u32 v ib) (bs ++ to_le_bytes 4 v).
Proof. intros. by apply (ib_push_le ib bs v 4). Qed.
Lemma ib_push_u64_is ib bs v : ib_is ib bs -> is_u 64 v -> (length bs + 8 <= 16)%nat -> ib_is (ib_push_u64 v ib) (bs ++ to_le_bytes 8 v).
Proof. intros. by apply (ib_push_le ib bs v 8). Qed.
Lemma ib_push_i32_is ib bs v : ib_is ib bs -> (length bs + 4 <= 16)%nat -> ib_is (ib_push_i32 v ib) (bs ++ to_le_bytes 4 (wrap 32 v)).
Proof. intros. apply ib_push_u32_is; [done|by apply wrap_range|done]. Qed.

(** An immediate field is read back, sign-extended. *)
Lemma field_le n v rest : field n (to_le_bytes n v ++ rest) = Some (sext (8 * Z.of_nat n) (wrap (8 * Z.of_nat n) v), rest).
Proof.
  unfold field. rewrite length_app, length_to_le_bytes. destruct (Nat.ltb_spec (n + length rest) n); [lia|].
  rewrite (take_app_length' _ _ n), (drop_app_length' _ _ n) by (by rewrite length_to_le_bytes). by rewrite from_to_le_bytes.
Qed.

Lemma field_i32 v rest : is_i 32 v -> field 4 (to_le_bytes 4 (wrap 32 v) ++ rest) = Some (v, rest).
Proof.
  intros H. rewrite field_le. change (8 * Z.of_nat 4) with 32. by rewrite !sext_wrap, sext_id by (done || lia).
Qed.

Lemma field_i8 v rest : fits_i8 v = true -> field 1 (wrap 8 v :: rest) = Some (v, rest).
Proof.
  intros H. unfold fits_i8 in H. apply andb_true_iff in H as [H1%Z.leb_le H2%Z.leb_le].
  assert (wrap 8 v :: rest = to_le_bytes 1 v ++ rest) as -> by done.
  rewrite field_le. change (8 * Z.of_nat 1) with 8. rewrite sext_wrap, sext_id by (unfold is_i; lia). done.
Qed.

(** ** Bytes of an encoding *)

Lemma rex_w_byte a b : is_u 8 (rex_w (hi a) (hi b)).
Proof. destruct a, b; vm_compute; split; congruence. Qed.
Lemma rex_0_byte a b : is_u 8 (rex_0 (hi a) (hi b)).
Proof. destruct a, b; vm_compute; split; congruence. Qed.
Lemma modrm_byte a b : is_u 8 (modrm_rr (lo a) (lo b)).
Proof. destruct a, b; vm_compute; split; congruence. Qed.
Lemma wrap_byte v : is_u 8 (wrap 8 v).
Proof. by apply wrap_range. Qed.

Lemma rex_bits_byte a b : is_u 8 (Z.lor 0x40 (Z.lor (Z.shiftl (hi a) 2) (hi b))).
Proof. destruct a, b; vm_compute; split; congruence. Qed.
Lemma cc_byte k cc : 0 <= k <= 240 -> is_u 8 (k + cc_no cc).
Proof. intros H. change (is_u 8 (k + cc_no cc)) with (0 <= k + cc_no cc < 256). destruct cc; cbn; lia. Qed.

Create HintDb bytes.
#[export] Hint Resolve rex_bits_byte : bytes.
#[export] Hint Extern 0 (is_u 8 (_ + cc_no _)) => apply cc_byte; lia : bytes.
#[export] Hint Resolve rex_w_byte rex_0_byte modrm_byte wrap_byte : bytes.

(** The bytes of a buffer, then of the decoded instruction, whatever the registers. *)
Ltac a_byte :=
  first [ solve [auto with bytes nocore]
        | solve [split; [discriminate|reflexivity]]
        | unfold is_u; repeat match goal with r : Reg |- _ => destruct r | r : Cc |- _ => destruct r end; vm_compute; split; congruence ].
Ltac buffer :=
  repeat lazymatch goal with
    | |- ib_is InstBuf_new _ => apply ib_new
    | |- ib_is (ib_push_i32 _ _) _ => apply ib_push_i32_is
    | |- ib_is (ib_push_u32 _ _) _ => apply ib_push_u32_is
    | |- ib_is (ib_push_u64 _ _) _ => apply ib_push_u64_is
    | |- ib_is (ib_push _ _) _ => apply ib_push_is
    | H : ib_is ?ib _ |- ib_is ?ib _ => exact H
    end;
  try (rewrite ?length_app; cbn [length]; rewrite ?length_to_le_bytes; lia); try lazymatch goal with |- is_u 8 _ => first [assumption | a_byte] end.

(** ** Emitters *)

#[export] Instance Alu_eq : EqDecision Alu.
Proof. solve_decision. Defined.
#[export] Instance Sh_eq : EqDecision Sh.
Proof. solve_decision. Defined.
#[export] Instance Cnt_eq : EqDecision Cnt.
Proof. solve_decision. Defined.
#[export] Instance Cc_eq : EqDecision Cc.
Proof. solve_decision. Defined.
#[export] Instance MemOp_eq : EqDecision MemOp.
Proof. solve_decision. Defined.
#[export] Instance Ins_eq : EqDecision Ins.
Proof. solve_decision. Defined.

#[export] Instance all_Reg (P : Reg -> Prop) `{forall r, Decision (P r)} : Decision (forall r, P r).
Proof.
  refine (cast_if (decide (Forall P all_regs))).
  - abstract (intros r; apply (proj1 (List.Forall_forall P all_regs) f r); destruct r; cbn; tauto).
  - abstract (intros H'; apply n, List.Forall_forall; auto).
Defined.
#[export] Instance all_Cc (P : Cc -> Prop) `{forall r, Decision (P r)} : Decision (forall r, P r).
Proof.
  refine (cast_if (decide (Forall P all_ccs))).
  - abstract (intros r; apply (proj1 (List.Forall_forall P all_ccs) f r); destruct r; cbn; tauto).
  - abstract (intros H'; apply n, List.Forall_forall; auto).
Defined.

(** A decidable statement about all registers is computed. *)
Ltac by_regs :=
  repeat match goal with H : context [?r] |- _ => is_var r; match type of r with Reg => revert H end end;
  repeat match goal with r : Reg |- _ => revert r | r : Cc |- _ => revert r end;
  apply (bool_decide_unpack _); vm_compute; exact I.

(** Decoding around an immediate, by cases on the registers. *)
Ltac dec :=
  intros; rewrite <- ?app_assoc; cbn [app];
  repeat match goal with r : Reg |- _ => destruct r end;
  first [reflexivity | match goal with H : _ = true |- _ => discriminate H | H : _ = false |- _ => discriminate H end].
(** One instruction from a buffer. *)
Ltac one := eapply adds_flush; [buffer|apply parses_decode; cbn [app]; by_regs].

Lemma adds_mov_rr d s : d <> s -> adds (mov_rr d s) [IMov 64 d s].
Proof.
  intros H. unfold mov_rr, reg_eqb. rewrite bool_decide_false by done. apply adds_put, parses_decode. clear H. by_regs.
Qed.

Lemma adds_add d s : adds (add_rr d s) [IAlu ADD 64 d s].
Proof. unfold add_rr, alu_rr64. one. Qed.
Lemma adds_sub d s : adds (sub_rr d s) [IAlu SUB 64 d s].
Proof. unfold sub_rr, alu_rr64. one. Qed.
Lemma adds_and d s : adds (and_rr d s) [IAlu AND 64 d s].
Proof. unfold and_rr, alu_rr64. one. Qed.
Lemma adds_or d s : adds (or_rr d s) [IAlu OR 64 d s].
Proof. unfold or_rr, alu_rr64. one. Qed.
Lemma adds_xor d s : adds (xor_rr d s) [IAlu XOR 64 d s].
Proof. unfold xor_rr, alu_rr64. one. Qed.
Lemma adds_cmp d s : adds (cmp_rr d s) [IAlu CMP 64 d s].
Proof. unfold cmp_rr, alu_rr64. one. Qed.
Lemma adds_test d s : adds (test_rr d s) [IAlu TEST 64 d s].
Proof. unfold test_rr, alu_rr64. one. Qed.
Lemma adds_add32 d s : adds (add_rr32 d s) [IAlu ADD 32 d s].
Proof. unfold add_rr32, alu_rr32. destruct (_ || _) eqn:E; one. Qed.
Lemma adds_sub32 d s : adds (sub_rr32 d s) [IAlu SUB 32 d s].
Proof. unfold sub_rr32, alu_rr32. destruct (_ || _) eqn:E; one. Qed.

Lemma adds_imul d s : adds (imul_rr d s) [IImul 64 d s].
Proof. unfold imul_rr. one. Qed.
Lemma adds_imul32 d s : adds (imul_rr32 d s) [IImul 32 d s].
Proof. unfold imul_rr32, opt_rex. destruct (_ || _) eqn:E; one. Qed.
Lemma adds_mul s : adds (mul_rdx_rax s) [IMul false s].
Proof. apply adds_put, parses_decode; by_regs. Qed.
Lemma adds_imul1 s : adds (imul_rdx_rax s) [IMul true s].
Proof. apply adds_put, parses_decode; by_regs. Qed.
Lemma adds_neg d : adds (neg64 d) [INeg d].
Proof. apply adds_put, parses_decode; by_regs. Qed.
Lemma adds_not d : adds (not64 d) [INot d].
Proof. apply adds_put, parses_decode; by_regs. Qed.
Lemma adds_bswap d : adds (bswap64 d) [IBswap d].
Proof. apply adds_put, parses_decode; by_regs. Qed.

Lemma adds_movsxd d s : adds (movsxd d s) [IMovsx 32 d s].
Proof. unfold movsxd. one. Qed.
Lemma adds_movsx8 d s : adds (movsx_8_64 d s) [IMovsx 8 d s].
Proof. unfold movsx_8_64, op0f_64. one. Qed.
Lemma adds_movsx16 d s : adds (movsx_16_64 d s) [IMovsx 16 d s].
Proof. unfold movsx_16_64, op0f_64. one. Qed.
Lemma adds_movzx16 d s : adds (movzx_16_64 d s) [IMovzx16 d s].
Proof. unfold movzx_16_64, opt_rex. destruct (_ || _) eqn:E; one. Qed.
Lemma adds_movzx32 d s : adds (movzx_32_64 d s) [IMov 32 d s].
Proof. unfold movzx_32_64, opt_rex. destruct (_ || _) eqn:E; one. Qed.
Lemma adds_cnt64 d s : adds (popcnt64 d s) [ICnt POPCNT 64 d s] /\ adds (lzcnt64 d s) [ICnt LZCNT 64 d s] /\ adds (tzcnt64 d s) [ICnt TZCNT 64 d s].
Proof. unfold popcnt64, lzcnt64, tzcnt64, cnt_64. repeat split; one. Qed.
Lemma adds_cnt32 d s : adds (popcnt32 d s) [ICnt POPCNT 32 d s] /\ adds (lzcnt32 d s) [ICnt LZCNT 32 d s] /\ adds (tzcnt32 d s) [ICnt TZCNT 32 d s].
Proof. unfold popcnt32, lzcnt32, tzcnt32, cnt_32. destruct (negb _) eqn:E; repeat split; one. Qed.

Lemma adds_setcc cc d : adds (setcc cc d) [ISetcc cc d].
Proof. unfold setcc. destruct (_ || _) eqn:E; one. Qed.
Lemma adds_cmov cc d s : adds (cmovcc cc d s) [ICmov cc d s].
Proof. unfold cmovcc, op0f_64. one. Qed.

(** *** Immediates *)

(** The instruction is a function of the field that ends it. *)
Lemma parses_field bs n v f :
  (forall rest, decode (bs ++ to_le_bytes n v ++ rest) = obind (field n (to_le_bytes n v ++ rest)) (fun '(i, r) => Some (f i, r))) ->
  parses (bs ++ to_le_bytes n v) [f (sext (8 * Z.of_nat n) (wrap (8 * Z.of_nat n) v))].
Proof. intros H. apply parses_one. intros rest. rewrite <- app_assoc, H, field_le. done. Qed.

(** The same with its value given. *)
Lemma parses_imm bs n v f i :
  (forall rest, decode (bs ++ to_le_bytes n v ++ rest) = obind (field n (to_le_bytes n v ++ rest)) (fun '(i, r) => Some (f i, r))) ->
  f (sext (8 * Z.of_nat n) (wrap (8 * Z.of_nat n) v)) = i -> parses (bs ++ to_le_bytes n v) [i].
Proof. intros H <-. by apply parses_field. Qed.

Lemma sext_wrap_le w v x : 1 <= w <= v -> sext w (wrap v x) = sext w x.
Proof.
  intros H. rewrite <- (sext_wrap w (wrap v x)), <- (sext_wrap w x) by lia. f_equal. unfold wrap.
  replace v with (w + (v - w)) by lia. rewrite Z.pow_add_r, Z.rem_mul_r by lia.
  rewrite (Z.mul_comm (2 ^ w)), Z_mod_plus_full, Z.mod_mod by lia. done.
Qed.

Definition movi (d : Reg) (imm : Z) : list Ins := if imm =? 0 then [IAlu XOR 32 d d] else [IMovImm d imm].

Lemma adds_mov_ri64 d imm : is_u 64 imm -> adds (mov_ri64 d imm) (movi d imm).
Proof.
  intros H. unfold mov_ri64, movi. destruct (Z.eqb_spec imm 0) as [->|N].
  - destruct (negb _) eqn:E; one.
  - destruct (Z.leb_spec imm 0xFFFFFFFF) as [L|L].
    + assert (is_u 32 imm) as U by (unfold is_u in *; lia). rewrite wrap_small by done.
      destruct (needs_rex d) eqn:E; (eapply adds_flush; [buffer; done|]).
      all: apply (parses_imm _ _ _ (fun i => IMovImm d (wrap 32 i))); [dec|].
      all: rewrite wrap_sext, !wrap_small by (done || lia || by rewrite wrap_small); done.
    + destruct ((- 2 ^ 31 <=? sext 64 imm) && (sext 64 imm <=? 2 ^ 31 - 1)) eqn:E.
      * apply andb_true_iff in E as [E1%Z.leb_le E2%Z.leb_le]. eapply adds_flush; [buffer|].
        apply (parses_imm _ _ _ (fun i => IMovImm d (wrap 64 i))); [dec|]. f_equal.
        change (8 * Z.of_nat 4) with 32. rewrite !sext_wrap, (sext_id 32 (sext 32 imm)) by (lia || apply sext_range; lia).
        rewrite <- (wrap_small 64 imm) at 1 by done. rewrite <- (wrap_sext 64 imm) by lia.
        rewrite sext_wrap_le, sext_id, wrap_sext, wrap_small by (done || lia || (unfold is_i; lia)). done.
      * clear E. eapply adds_flush; [buffer; done|]. apply (parses_imm _ _ _ (fun i => IMovImm d (wrap 64 i))); [dec|].
        by rewrite wrap_sext, !wrap_small by (done || lia || by rewrite wrap_small).
Qed.

Lemma adds_mov_ri32 d imm : is_u 32 imm -> adds (mov_ri32 d imm) [IMovImm d imm].
Proof.
  intros U. unfold mov_ri32. destruct (needs_rex d) eqn:E; (eapply adds_flush; [buffer; done|]).
  all: apply (parses_imm _ _ _ (fun i => IMovImm d (wrap 32 i))); [dec|].
  all: by rewrite wrap_sext, !wrap_small by (done || lia || by rewrite wrap_small).
Qed.

Lemma adds_alu_imm_ib (w : Z) ext k d imm ib bs :
  is_i 32 imm -> ib_is ib bs -> (length bs <= 2)%nat -> is_u 8 (modrm_rr ext (lo d)) ->
  (forall i rest, decode (bs ++ [0x83; modrm_rr ext (lo d)] ++ i :: rest) =
    obind (field 1 (i :: rest)) (fun '(i, r) => Some (IAluImm k w d i, r))) ->
  (forall v rest, decode (bs ++ [0x81; modrm_rr ext (lo d)] ++ to_le_bytes 4 v ++ rest) =
    obind (field 4 (to_le_bytes 4 v ++ rest)) (fun '(i, r) => Some (IAluImm k w d i, r))) ->
  adds (flush_instbuf (alu_imm_ib ext d imm ib)) [IAluImm k w d imm].
Proof.
  intros Hi Hb Hl Hm D1 D4. unfold alu_imm_ib. destruct (fits_i8 imm) eqn:F.
  - eapply adds_flush; [buffer|].
    apply parses_one. intros rest. rewrite <- !app_assoc. cbn [app]. pose proof (D1 (wrap 8 imm) rest) as D. cbn [app] in D.
    rewrite D, field_i8 by done. done.
  - eapply adds_flush; [buffer|].
    apply parses_one. intros rest. rewrite <- !app_assoc. cbn [app]. pose proof (D4 (wrap 32 imm) rest) as D. cbn [app] in D.
    rewrite D, field_i32 by done. done.
Qed.

Lemma ib_one b : is_u 8 b -> ib_is (ib_push b InstBuf_new) [b].
Proof. intros H. by apply (ib_push_is InstBuf_new []); [apply ib_new| |cbn; lia]. Qed.

Lemma adds_alu_ri64 ext k d imm :
  alu_ext ext = Some k -> In ext [0; 1; 4; 5; 6; 7] -> is_i 32 imm -> adds (alu_ri64 ext d imm) [IAluImm k 64 d imm].
Proof.
  intros Ek He Hi. unfold alu_ri64. cbn in He. apply (adds_alu_imm_ib 64) with (bs := [Z.lor 0x48 (hi d)]); [done|apply ib_one; a_byte|cbn; lia|..].
  all: destruct He as [<- | [<- | [<- | [<- | [<- | [<- | []]]]]]]; injection Ek as <-; lazymatch goal with |- is_u 8 _ => a_byte | _ => dec end.
Qed.

Lemma adds_alu_ri32 ext k d imm :
  alu_ext ext = Some k -> In ext [0; 1; 4; 5; 6; 7] -> is_i 32 imm -> adds (alu_ri32 ext d imm) [IAluImm k 32 d imm].
Proof.
  intros Ek He Hi. unfold alu_ri32. cbn in He. destruct (needs_rex d) eqn:E.
  - apply (adds_alu_imm_ib 32) with (bs := [Z.lor 0x40 (hi d)]); [done|apply ib_one; a_byte|cbn; lia|..].
    all: destruct He as [<- | [<- | [<- | [<- | [<- | [<- | []]]]]]]; injection Ek as <-; lazymatch goal with |- is_u 8 _ => a_byte | _ => dec end.
  - apply (adds_alu_imm_ib 32) with (bs := []); [done|buffer|cbn; lia|..].
    all: destruct He as [<- | [<- | [<- | [<- | [<- | [<- | []]]]]]]; injection Ek as <-; lazymatch goal with |- is_u 8 _ => a_byte | _ => dec end.
Qed.

(** *** Shifts *)

Lemma shift_byte n : 0 <= n < 64 -> is_u 8 n.
Proof. unfold is_u. lia. Qed.

(** The count as the processor reads it back. *)
Lemma field_count n rest : 0 <= n < 64 -> field 1 (n :: rest) = Some (n, rest).
Proof.
  intros H. rewrite <- (wrap_small 8 n) at 1 by (by apply shift_byte). apply field_i8. unfold fits_i8.
  rewrite andb_true_iff, !Z.leb_le. lia.
Qed.

(** Around a count. *)
Lemma parses_count bs n f :
  0 <= n < 64 -> (forall i rest, decode (bs ++ i :: rest) = obind (field 1 (i :: rest)) (fun '(i, r) => Some (f i, r))) ->
  parses (bs ++ [n]) [f n].
Proof. intros Hn D. apply parses_one. intros rest. rewrite <- app_assoc. cbn [app]. by rewrite D, field_count by done. Qed.

Ltac sh_cases He Ek := destruct He as [<- | [<- | [<- | [<- | [<- | []]]]]]; injection Ek as <-.

Lemma adds_shift_ri64 ext k d n :
  sh_ext ext = Some k -> In ext [0; 1; 4; 5; 7] -> 0 <= n < 64 -> adds (shift_ri64 ext d n) [IShImm k 64 d n].
Proof.
  intros Ek He Hn. unfold shift_ri64. pose proof (shift_byte n Hn). sh_cases He Ek.
  all: eapply adds_flush; [buffer|]; apply (parses_count _ n (IShImm _ 64 d)); [done|dec].
Qed.
Lemma adds_shift_ri32 ext k d n :
  sh_ext ext = Some k -> In ext [0; 1; 4; 5; 7] -> 0 <= n < 64 -> adds (shift_ri32 ext d n) [IShImm k 32 d n].
Proof.
  intros Ek He Hn. unfold shift_ri32, opt_rex_b. pose proof (shift_byte n Hn). sh_cases He Ek.
  all: destruct (needs_rex d) eqn:E.
  all: eapply adds_flush; [buffer|]; apply (parses_count _ n (IShImm _ 32 d)); [done|dec].
Qed.
Lemma adds_shift_cl64 ext k d : sh_ext ext = Some k -> In ext [0; 1; 4; 5; 7] -> adds (shift_cl64 ext d) [IShCl k 64 d].
Proof. intros Ek He. unfold shift_cl64. sh_cases He Ek; one. Qed.
Lemma adds_shift_cl32 ext k d : sh_ext ext = Some k -> In ext [0; 1; 4; 5; 7] -> adds (shift_cl32 ext d) [IShCl k 32 d].
Proof. intros Ek He. unfold shift_cl32, opt_rex_b. sh_cases He Ek; destruct (needs_rex d) eqn:E; one. Qed.

(** *** Stack and memory *)

(** Emitters that write byte by byte. *)
Lemma adds_bytes f bs l :
  (forall a, rcode (f a) = rev_append bs (rcode a) /\ labels (f a) = labels a /\ fixups (f a) = fixups a) -> parses bs l -> adds f l.
Proof. intros H P a. destruct (H a) as (? & ? & ?). by exists bs. Qed.

Lemma adds_push r : adds (push r) [IPush r].
Proof.
  unfold push, rex_opt_b. destruct (needs_rex r) eqn:E.
  - apply (adds_bytes _ [Z.lor 0x40 (hi r); 0x50 + lo r]); [done|]. apply parses_decode. by_regs.
  - apply (adds_bytes _ [0x50 + lo r]); [done|]. apply parses_decode. by_regs.
Qed.
Lemma adds_pop r : adds (pop r) [IPop r].
Proof.
  unfold pop, rex_opt_b. destruct (needs_rex r) eqn:E.
  - apply (adds_bytes _ [Z.lor 0x40 (hi r); 0x58 + lo r]); [done|]. apply parses_decode. by_regs.
  - apply (adds_bytes _ [0x58 + lo r]); [done|]. apply parses_decode. by_regs.
Qed.
Lemma adds_load_sp d : adds (mov_load64 d RSP 0) [ILoad 64 d (MBase RSP None 0)].
Proof.
  unfold mov_load64. change (modrm_disp_ib (lo d) RSP 0) with (fun ib => ib_push 0x24 (ib_push (Z.lor (Z.lor 0 (Z.shiftl (lo d) 3)) 4) ib)).
  cbv beta. one.
Qed.

(** The forms with a base register: displacements of no, one and four bytes. *)
Lemma adds_disp r base disp ib bs f :
  is_i 32 disp -> ib_is ib bs -> (length bs <= 3)%nat ->
  (forall rest, lo base <> 5 -> decode (bs ++ (if lo base =? 4 then [Z.lor (Z.lor 0 (Z.shiftl r 3)) 4; 0x24] else [Z.lor (Z.lor 0 (Z.shiftl r 3)) (lo base)]) ++ rest)
    = Some (f 0, rest)) ->
  (forall i rest, decode (bs ++ (if lo base =? 4 then [Z.lor (Z.lor 0x40 (Z.shiftl r 3)) 4; 0x24] else [Z.lor (Z.lor 0x40 (Z.shiftl r 3)) (lo base)]) ++ i :: rest)
    = obind (field 1 (i :: rest)) (fun '(i, q) => Some (f i, q))) ->
  (forall v rest, decode (bs ++ (if lo base =? 4 then [Z.lor (Z.lor 0x80 (Z.shiftl r 3)) 4; 0x24] else [Z.lor (Z.lor 0x80 (Z.shiftl r 3)) (lo base)]) ++ to_le_bytes 4 v ++ rest)
    = obind (field 4 (to_le_bytes 4 v ++ rest)) (fun '(i, q) => Some (f i, q))) ->
  is_u 3 r -> adds (flush_instbuf (modrm_disp_ib r base disp ib)) [f disp].
Proof.
  intros Hd Hb Hl D0 D1 D4 Hr. unfold modrm_disp_ib.
  assert (forall m, In m [0; 0x40; 0x80] -> is_u 8 (Z.lor (Z.lor m (Z.shiftl r 3)) 4) /\ is_u 8 (Z.lor (Z.lor m (Z.shiftl r 3)) (lo base))) as B.
  { intros m Hm. pose proof (all_words_spec 3 (fun r => forallb (fun m => forallb (fun b =>
      (Z.lor (Z.lor m (Z.shiftl r 3)) (lo b) <? 256)) all_regs) [0; 0x40; 0x80]) r eq_refl Hr) as A.
    rewrite forallb_forall in A. specialize (A m Hm). rewrite forallb_forall in A.
    assert (forall b, In b all_regs) as Q by (intros []; cbn; tauto).
    assert (forall b, 0 <= Z.lor (Z.lor m (Z.shiftl r 3)) (lo b)) as P.
    { intros b. rewrite !Z.lor_nonneg, Z.shiftl_nonneg. unfold is_u in Hr. cbn in Hm.
      assert (0 <= lo b) by (destruct b; vm_compute; congruence). lia. }
    pose proof (A RSP (Q RSP)) as A1. pose proof (A base (Q base)) as A2. rewrite Z.ltb_lt in A1, A2.
    unfold is_u. change (2 ^ 8) with 256. split; split; [apply (P RSP)|exact A1|apply P|exact A2]. }
  destruct ((disp =? 0) && negb (lo base =? 5)) eqn:E0; [|destruct (fits_i8 disp) eqn:E1].
  all: destruct (lo base =? 4) eqn:E4; (eapply adds_flush; [buffer; apply B; cbn; tauto|]); apply parses_one; intros rest; rewrite <- !app_assoc; cbn [app].
  1,2: apply andb_true_iff in E0 as [->%Z.eqb_eq E0]; apply negb_true_iff, Z.eqb_neq in E0; by apply D0.
  1,2: pose proof (D1 (wrap 8 disp) rest) as D; cbn [app] in D; by rewrite D, field_i8 by done.
  all: pose proof (D4 (wrap 32 disp) rest) as D; cbn [app] in D; by rewrite D, field_i32 by done.
Qed.
