(* ===== verification/Codegen.v ===== *)
(** * The recompiler

    Models [nub/nub-recompiler-x86/src/codegen.rs]: one streaming pass that decodes
    guest bytes, detects gas blocks, feeds the gas simulator and emits x86-64
    code through [Asm], with its peephole fusions, the spill path of [x3] and
    [x4], the deferred forward branches, and the exit sequences. The compiler
    is a record threaded by the monad [Cg]; a Rust panic is [Abort]. *)

From S2P Require Import Prelude MachineInt Engine GasConst Instruction GasSim GasCost Asm.

(** ** Constants *)

(** The host register of each slot. *)
Definition REG_MAP : list Reg := [RBP; RBX; R12; R13; R14; RSI; RDI; R8; R9; R10; R11; RAX; RCX].
Definition SCRATCH : Reg := RDX.
Definition GAS : Reg := R15.

Definition rv_slot_or_ff (x : Z) : Z := default 0xFF (REG_SLOT_LUT !! Z.to_nat (Z.land x 31)).

(** The offsets of [JitContext], a [repr(C)] record. *)
Definition CTX_VA : Z := Z.shiftl 1 39.
Definition CTX_REGS : Z := CTX_VA.
Definition CTX_GAS : Z := CTX_VA + 120.
Definition CTX_EXIT_REASON : Z := CTX_VA + 128.
Definition CTX_EXIT_ARG : Z := CTX_VA + 132.
Definition CTX_ENTRY_PC : Z := CTX_VA + 144.
Definition CTX_PC : Z := CTX_VA + 148.
Definition CTX_DISPATCH_TABLE : Z := CTX_VA + 152.
Definition CTX_CODE_BASE : Z := CTX_VA + 160.
Definition CTX_HOST_RSP_BASE : Z := CTX_VA + 192.

Definition EXIT_PANIC : Z := 1.
Definition EXIT_OOG : Z := 2.
Definition EXIT_HOST_CALL : Z := 4.
Definition EXIT_ECALL : Z := 6.
Definition EXIT_TRAP : Z := 7.

(** ** State *)

Record CompileResult := mkResult {
  native_code : list Z;
  dispatch_entries : list (Z * Z);
  trap_table : list (Z * Z * Z);
  exit_label_offset : Z;
  panic_offset : Z;
  overran : bool }.

Record HelperFns := mkHelpers {
  mem_read_u8 : Z; mem_read_u16 : Z; mem_read_u32 : Z; mem_read_u64 : Z;
  mem_write_u8 : Z; mem_write_u16 : Z; mem_write_u32 : Z; mem_write_u64 : Z }.

Inductive RegDef :=
  | Unknown
  | Const (c : Z)
  | Shifted (src : nat) (shift : Z)
  | ScaledAdd (base idx : nat) (shift : Z).

Record PendingGas := mkPending { stub_label : Z; block_pc : Z; cmp_offset : Z; sub_offset : Z }.

Record Compiler := mkCompiler {
  asm : Assembler;
  label_base : Z;
  gas_block_pcs : list Z;
  exit_label : Z;
  oog_label : Z;
  panic_label : Z;
  oog_pc_label : Z;
  oog_stubs : list (Z * Z * Z);
  helpers : HelperFns;
  reg_defs : list RegDef;
  reg_defs_active : Z;
  last_add_cf : option (nat * nat * nat);
  trap_entries : list (Z * Z * Z);
  mem_cycles : Z;
  gas_sim : GasSimulator;
  gas_reserve_accum : Z;
  suppress_gas : bool;
  code_base : Z;
  code_len : Z;
  rv_streaming : bool;
  rv_pending_fwd_branches : list (Z * Z * nat);
  rv_valid_pc : list bool }.

Definition with_asm (c : Compiler) (a : Assembler) : Compiler :=
  mkCompiler a (label_base c) (gas_block_pcs c) (exit_label c) (oog_label c) (panic_label c) (oog_pc_label c) (oog_stubs c)
    (helpers c) (reg_defs c) (reg_defs_active c) (last_add_cf c) (trap_entries c) (mem_cycles c) (gas_sim c)
    (gas_reserve_accum c) (suppress_gas c) (code_base c) (code_len c) (rv_streaming c) (rv_pending_fwd_branches c) (rv_valid_pc c).
Definition with_blocks (c : Compiler) (pcs : list Z) (valid : list bool) : Compiler :=
  mkCompiler (asm c) (label_base c) pcs (exit_label c) (oog_label c) (panic_label c) (oog_pc_label c) (oog_stubs c)
    (helpers c) (reg_defs c) (reg_defs_active c) (last_add_cf c) (trap_entries c) (mem_cycles c) (gas_sim c)
    (gas_reserve_accum c) (suppress_gas c) (code_base c) (code_len c) (rv_streaming c) (rv_pending_fwd_branches c) valid.
Definition with_stubs (c : Compiler) (l : list (Z * Z * Z)) : Compiler :=
  mkCompiler (asm c) (label_base c) (gas_block_pcs c) (exit_label c) (oog_label c) (panic_label c) (oog_pc_label c) l
    (helpers c) (reg_defs c) (reg_defs_active c) (last_add_cf c) (trap_entries c) (mem_cycles c) (gas_sim c)
    (gas_reserve_accum c) (suppress_gas c) (code_base c) (code_len c) (rv_streaming c) (rv_pending_fwd_branches c) (rv_valid_pc c).
Definition with_defs (c : Compiler) (d : list RegDef) (active : Z) : Compiler :=
  mkCompiler (asm c) (label_base c) (gas_block_pcs c) (exit_label c) (oog_label c) (panic_label c) (oog_pc_label c) (oog_stubs c)
    (helpers c) d active (last_add_cf c) (trap_entries c) (mem_cycles c) (gas_sim c)
    (gas_reserve_accum c) (suppress_gas c) (code_base c) (code_len c) (rv_streaming c) (rv_pending_fwd_branches c) (rv_valid_pc c).
Definition with_cf (c : Compiler) (o : option (nat * nat * nat)) : Compiler :=
  mkCompiler (asm c) (label_base c) (gas_block_pcs c) (exit_label c) (oog_label c) (panic_label c) (oog_pc_label c) (oog_stubs c)
    (helpers c) (reg_defs c) (reg_defs_active c) o (trap_entries c) (mem_cycles c) (gas_sim c)
    (gas_reserve_accum c) (suppress_gas c) (code_base c) (code_len c) (rv_streaming c) (rv_pending_fwd_branches c) (rv_valid_pc c).
Definition with_traps (c : Compiler) (l : list (Z * Z * Z)) : Compiler :=
  mkCompiler (asm c) (label_base c) (gas_block_pcs c) (exit_label c) (oog_label c) (panic_label c) (oog_pc_label c) (oog_stubs c)
    (helpers c) (reg_defs c) (reg_defs_active c) (last_add_cf c) l (mem_cycles c) (gas_sim c)
    (gas_reserve_accum c) (suppress_gas c) (code_base c) (code_len c) (rv_streaming c) (rv_pending_fwd_branches c) (rv_valid_pc c).
Definition with_gas (c : Compiler) (s : GasSimulator) (r : Z) : Compiler :=
  mkCompiler (asm c) (label_base c) (gas_block_pcs c) (exit_label c) (oog_label c) (panic_label c) (oog_pc_label c) (oog_stubs c)
    (helpers c) (reg_defs c) (reg_defs_active c) (last_add_cf c) (trap_entries c) (mem_cycles c) s
    r (suppress_gas c) (code_base c) (code_len c) (rv_streaming c) (rv_pending_fwd_branches c) (rv_valid_pc c).
Definition with_suppress (c : Compiler) (b : bool) : Compiler :=
  mkCompiler (asm c) (label_base c) (gas_block_pcs c) (exit_label c) (oog_label c) (panic_label c) (oog_pc_label c) (oog_stubs c)
    (helpers c) (reg_defs c) (reg_defs_active c) (last_add_cf c) (trap_entries c) (mem_cycles c) (gas_sim c)
    (gas_reserve_accum c) b (code_base c) (code_len c) (rv_streaming c) (rv_pending_fwd_branches c) (rv_valid_pc c).
Definition with_fwd (c : Compiler) (streaming : bool) (l : list (Z * Z * nat)) : Compiler :=
  mkCompiler (asm c) (label_base c) (gas_block_pcs c) (exit_label c) (oog_label c) (panic_label c) (oog_pc_label c) (oog_stubs c)
    (helpers c) (reg_defs c) (reg_defs_active c) (last_add_cf c) (trap_entries c) (mem_cycles c) (gas_sim c)
    (gas_reserve_accum c) (suppress_gas c) (code_base c) (code_len c) streaming l (rv_valid_pc c).

(** ** The monad *)

Definition Cg (A : Type) : Type := Compiler -> Res (Compiler * A).

Definition cret {A} (x : A) : Cg A := fun c => Ret (c, x).
Definition cbind {A B} (m : Cg A) (k : A -> Cg B) : Cg B :=
  fun c => match m c with Ret (c', x) => k x c' | Abort => Abort end.
Definition cabort {A} : Cg A := fun _ => Abort.

Declare Scope cg_scope.
Notation "'let%' x := m 'in' k" := (cbind m (fun x => k)) (at level 10, x pattern, k at level 200) : cg_scope.
Notation "m ;% k" := (cbind m (fun _ => k)) (at level 199, right associativity) : cg_scope.
#[local] Open Scope cg_scope.

Definition gets {A} (f : Compiler -> A) : Cg A := fun c => Ret (c, f c).
Definition modify (f : Compiler -> Compiler) : Cg unit := fun c => Ret (f c, tt).
Definition when (b : bool) (m : Cg unit) : Cg unit := if b then m else cret tt.
Definition unwrap {A} (o : option A) : Cg A := match o with Some x => cret x | None => cabort end.

(** An emitter of the assembler, and one that resolves a label. *)
Definition put (f : Assembler -> Assembler) : Cg unit := fun c => Ret (with_asm c (f (asm c)), tt).
Definition put_res (f : Assembler -> Res Assembler) : Cg unit :=
  fun c => match f (asm c) with Ret a => Ret (with_asm c a, tt) | Abort => Abort end.
Definition fresh_label : Cg Z := fun c => let (a, l) := new_label (asm c) in Ret (with_asm c a, l).

Fixpoint for_each {A} (l : list A) (f : A -> Cg unit) : Cg unit :=
  match l with [] => cret tt | x :: l' => f x ;% for_each l' f end.

(** ** Construction *)

Section Compile.
  Context {VP : VecPolicy}.

Definition Compiler_new (h : HelperFns) (len : nat) (jit_va mem code_b : Z) : Compiler :=
  let a := set_jit_va_base jit_va (with_capacity (Z.of_nat len * 3 + 8192) (len + 1024)) in
  let (a, _) := new_label a in
  let (a, exit) := new_label a in
  let (a, oog) := new_label a in
  let (a, panic) := new_label a in
  let (a, oog_pc) := new_label a in
  let base := wrap 32 (labels_len a) in
  let a := bulk_create_labels (len + 1) a in
  mkCompiler a base [] exit oog panic oog_pc [] h (replicate 13 Unknown) 0 None [] mem sim_new 0 false
    code_b (wrap 32 (Z.of_nat len)) false [] [].

(** ** Gas *)

Definition feed_gas_rv (kind rs1 rs2 rd : Z) : Cg bool := fun c =>
  let s1 := rv_slot_or_ff rs1 in
  let s2 := rv_slot_or_ff rs2 in
  let d := rv_slot_or_ff rd in
  if suppress_gas c then Ret (c, snd (rv_feed_gas_kind kind s1 s2 d sim_new (mem_cycles c)))
  else
    let accum := saturating_add 32 (gas_reserve_accum c) (rv_kind_reserve kind) in
    let (sim, term) := rv_feed_gas_kind kind s1 s2 d (gas_sim c) (mem_cycles c) in
    Ret (with_gas c sim accum, term).

(** ** Labels *)

(** [u32] addition wraps in the release profile. *)
Definition label_for_pc (c : Compiler) (pc : Z) : Z := wrap 32 (label_base c + pc).

(** [bitmask_ptr] and [bitmask_len] are the buffer and length of [rv_valid_pc]. *)
Definition is_basic_block_start (c : Compiler) (idx : Z) : bool :=
  (idx <? Z.of_nat (length (rv_valid_pc c))) && default false (rv_valid_pc c !! Z.to_nat idx).

(** ** Memory accesses *)

Definition push_trap (pvm_pc w : Z) : Cg unit :=
  modify (fun c => with_traps c (trap_entries c ++ [(wrap 32 (offset (asm c)), pvm_pc, w)])).

Definition emit_mem_read_sized (dst : Reg) (fn_addr width_bytes pvm_pc : Z) : Cg unit :=
  let% h := gets helpers in
  let w := if 0 <? width_bytes then width_bytes
           else if fn_addr =? mem_read_u8 h then 1
           else if fn_addr =? mem_read_u16 h then 2
           else if fn_addr =? mem_read_u32 h then 4 else 8 in
  push_trap pvm_pc w ;%
  match w with
  | 1 => put (movzx_load8_at_index dst SCRATCH)
  | 2 => put (movzx_load16_at_index dst SCRATCH)
  | 4 => put (mov_load32_at_index dst SCRATCH)
  | 8 => put (mov_load64_at_index dst SCRATCH)
  | _ => cabort
  end.

Definition emit_mem_write (val_reg : Reg) (fn_addr pvm_pc : Z) : Cg unit :=
  let% h := gets helpers in
  let w := if fn_addr =? mem_write_u8 h then 1
           else if fn_addr =? mem_write_u16 h then 2
           else if fn_addr =? mem_write_u32 h then 4 else 8 in
  push_trap pvm_pc w ;%
  match w with
  | 1 => put (mov_store8_at_index SCRATCH val_reg)
  | 2 => put (mov_store16_at_index SCRATCH val_reg)
  | 4 => put (mov_store32_at_index SCRATCH val_reg)
  | 8 => put (mov_store64_at_index SCRATCH val_reg)
  | _ => cabort
  end.

(** ** Register definitions *)

Definition def_at (defs : list RegDef) (i : nat) : RegDef := default Unknown (defs !! i).
Definition bit (reg : nat) : Z := Z.shiftl 1 (Z.of_nat reg).

Definition depends_on (d : RegDef) (reg : nat) : bool :=
  match d with
  | Shifted src _ => (src =? reg)%nat
  | ScaledAdd base idx _ => (base =? reg)%nat || (idx =? reg)%nat
  | _ => false
  end.

Definition invalidate_dependents (reg : nat) (c : Compiler) : Compiler :=
  let active := Z.ldiff (reg_defs_active c) (bit reg) in
  let body (s : list RegDef * Z) (i : Z) :=
    let i := Z.to_nat i in
    if depends_on (def_at (fst s) i) reg then (<[i := Unknown]> (fst s), Z.ldiff (snd s) (bit i)) else s in
  let (defs, act) := for_bits 16 active body (reg_defs c, reg_defs_active c) in
  with_defs c defs act.

Definition invalidate_reg (reg : nat) : Cg unit :=
  modify (fun c => invalidate_dependents reg
    (with_defs c (<[reg := Unknown]> (reg_defs c)) (Z.ldiff (reg_defs_active c) (bit reg)))).

Definition invalidate_all_regs : Cg unit := modify (fun c => with_defs c (replicate 13 Unknown) 0).

(** A definition recorded for a register. *)
Definition record_def (slot : nat) (d : RegDef) : Cg unit :=
  modify (fun c => invalidate_dependents slot
    (with_defs c (<[slot := d]> (reg_defs c)) (Z.lor (reg_defs_active c) (bit slot)))).
End Compile.

(** ** Branches, shifts and exits *)

Definition emit_exit (reason arg : Z) : Cg unit :=
  put (mov_store32_rip_rel_imm CTX_EXIT_REASON (sext 32 reason)) ;%
  put (mov_store32_rip_rel_imm CTX_EXIT_ARG (sext 32 arg)) ;%
  let% l := gets exit_label in
  put_res (jmp_label l).

(** A jump to a target that is validated after the pass. *)
Definition defer_branch (target pc : Z) (jump : Z -> Assembler -> Res Assembler) : Cg unit :=
  let% label := gets (fun c => label_for_pc c target) in
  let% fixup_idx := gets (fun c => fixups_len (asm c)) in
  put_res (jump label) ;%
  modify (fun c => with_fwd c (rv_streaming c) (rv_pending_fwd_branches c ++ [(target, pc, fixup_idx)])).

Definition emit_static_branch (target : Z) (condition : bool) (pc : Z) : Cg unit :=
  if negb condition then cret tt
  else
    let% streaming := gets rv_streaming in
    if streaming && (pc <? target) then defer_branch target pc jmp_label
    else
      let% valid := gets (fun c => is_basic_block_start c target) in
      if negb valid then
        put (mov_store32_rip_rel_imm CTX_PC (sext 32 pc)) ;%
        emit_exit EXIT_PANIC 0
      else
        let% label := gets (fun c => label_for_pc c target) in
        put_res (jmp_label label).

Definition emit_branch_reg (a b : Reg) (cc : Cc) (target pc : Z) : Cg unit :=
  let% streaming := gets rv_streaming in
  if streaming && (pc <? target) then
    put (cmp_rr a b) ;%
    defer_branch target pc (jcc_label cc)
  else
    let% valid := gets (fun c => is_basic_block_start c target) in
    if negb valid then
      put (mov_store32_rip_rel_imm CTX_PC (sext 32 pc)) ;%
      put (cmp_rr a b) ;%
      let% l := gets panic_label in
      put_res (jcc_label cc l)
    else
      put (cmp_rr a b) ;%
      let% label := gets (fun c => label_for_pc c target) in
      put_res (jcc_label cc label).

Definition emit_shift_dst_is_rcx (shift_reg : Reg) (shift_op : Z) (is_64 : bool) : Cg unit :=
  put (push RCX) ;%
  put (mov_rr RCX shift_reg) ;%
  put (pop SCRATCH) ;%
  (if is_64 then put (shift_cl64 shift_op SCRATCH) else put (shift_cl32 shift_op SCRATCH)) ;%
  put (mov_rr RCX SCRATCH).

Definition emit_shift_by_reg32 (dst shift_reg : Reg) (shift_op : Z) : Cg unit :=
  if reg_eqb shift_reg RCX then put (shift_cl32 shift_op dst)
  else if reg_eqb dst RCX then emit_shift_dst_is_rcx shift_reg shift_op false
  else
    put (push RCX) ;%
    put (mov_rr RCX shift_reg) ;%
    put (shift_cl32 shift_op dst) ;%
    put (pop RCX).

Definition emit_shift_by_reg64 (dst shift_reg : Reg) (shift_op : Z) : Cg unit :=
  if reg_eqb shift_reg RCX then put (shift_cl64 shift_op dst)
  else if reg_eqb dst RCX then emit_shift_dst_is_rcx shift_reg shift_op true
  else
    put (push RCX) ;%
    put (mov_rr RCX shift_reg) ;%
    put (shift_cl64 shift_op dst) ;%
    put (pop RCX).

(** Each host register with its home in the context. *)
Definition reg_homes : list (Reg * Z) :=
  imap (fun i reg => (reg, CTX_REGS + Z.of_nat i * 8)) REG_MAP.

Section Frames.
  Context {VP : VecPolicy}.

Definition emit_prologue : Cg unit :=
  put (ensure_capacity 512) ;%
  put (push RBX) ;%
  put (push RBP) ;%
  put (push R12) ;%
  put (push R13) ;%
  put (push R14) ;%
  put (push R15) ;%
  put (push SCRATCH) ;%
  put (mov_store64_rip_rel CTX_HOST_RSP_BASE RSP) ;%
  put (mov_load64_rip_rel GAS CTX_GAS) ;%
  put (mov_store32_rip_rel_imm CTX_EXIT_REASON 0) ;%
  put (mov_load32_rip_rel SCRATCH CTX_ENTRY_PC) ;%
  put (mov_load64_rip_rel RAX CTX_DISPATCH_TABLE) ;%
  put (movsxd_load_sib4 RAX RAX SCRATCH) ;%
  put (mov_load64_rip_rel SCRATCH CTX_CODE_BASE) ;%
  put (add_rr RAX SCRATCH) ;%
  put (push RAX) ;%
  for_each reg_homes (fun h => put (mov_load64_rip_rel (fst h) (snd h))) ;%
  put (pop SCRATCH) ;%
  put (jmp_reg SCRATCH).

Definition emit_exit_sequences : Cg unit :=
  let% n := gets (fun c => Z.of_nat (length (oog_stubs c))) in
  put (ensure_capacity (512 + n * 16)) ;%
  let% c := gets id in
  put_res (bind_label (oog_pc_label c)) ;%
  put (mov_store32_rip_rel CTX_PC SCRATCH) ;%
  put_res (bind_label (oog_label c)) ;%
  put (mov_store32_rip_rel_imm CTX_EXIT_REASON EXIT_OOG) ;%
  put_res (jmp_label (exit_label c)) ;%
  modify (fun c => with_stubs c []) ;%
  for_each (oog_stubs c) (fun '(label, pvm_pc, _) =>
    put_res (bind_label label) ;%
    put (mov_ri32 SCRATCH pvm_pc) ;%
    put_res (jmp_label (oog_pc_label c))) ;%
  put_res (bind_label (panic_label c)) ;%
  put (mov_store32_rip_rel_imm CTX_EXIT_REASON EXIT_PANIC) ;%
  put_res (bind_label (exit_label c)) ;%
  put (mov_store64_rip_rel CTX_GAS GAS) ;%
  for_each reg_homes (fun h => put (mov_store64_rip_rel (snd h) (fst h))) ;%
  put (mov_load64_rip_rel RSP CTX_HOST_RSP_BASE) ;%
  put (pop SCRATCH) ;%
  put (pop R15) ;%
  put (pop R14) ;%
  put (pop R13) ;%
  put (pop R12) ;%
  put (pop RBP) ;%
  put (pop RBX) ;%
  put ret.
End Frames.

(** ** Operations *)

Inductive AluImmOp := AluImm_Add | AluImm_And | AluImm_Or | AluImm_Xor | AluImm_Addw.

Inductive AluOp :=
  | Alu_Add | Alu_Sub | Alu_And | Alu_Or | Alu_Xor | Alu_Mul | Alu_Addw | Alu_Subw | Alu_Mulw
  | Alu_Min | Alu_Max | Alu_Minu | Alu_Maxu | Alu_Andn | Alu_Orn | Alu_Xnor.

Inductive ShiftOp := Shl64 | Shr64 | Sar64 | Shl32 | Shr32 | Sar32 | Rol64 | Ror64 | Rol32 | Ror32.

Inductive BitOp := Bit_Clear | Bit_Set | Bit_Invert | Bit_Extract.

Inductive UnaryOp := Clz64 | Clz32 | Ctz64 | Ctz32 | Popcnt64 | Popcnt32 | Un_SextB | Un_SextH | Un_ZextH | Un_Rev8 | Un_OrcB.

(** [matches!(op, AluOp::Add)] *)
Definition is_add (op : AluOp) : bool := match op with Alu_Add => true | _ => false end.

(** ** Lookahead *)

Definition field5 (w k : Z) : Z := Z.land (Z.shiftr w k) 0x1F.

Definition peek_rr4 (w : Z) : option (AluOp * Z * Z * Z * Z) :=
  let some op := Some (op, field5 w 7, field5 w 15, field5 w 20, 4) in
  match Z.land w 0xFE00707F with
  | 0x00000033 => some Alu_Add
  | 0x00004033 => some Alu_Xor
  | 0x00006033 => some Alu_Or
  | 0x00007033 => some Alu_And
  | _ => None
  end.

Definition peek_rr2 (h : Z) : option (AluOp * Z * Z * Z * Z) :=
  if Z.land h 0xF003 =? 0x9002 then
    let rd := field5 h 7 in
    let rs2 := field5 h 2 in
    if negb (rd =? 0) && negb (rs2 =? 0) then Some (Alu_Add, rd, rd, rs2, 2) else None
  else if Z.land h 0xFC03 =? 0x8C01 then
    let rd := Z.land (Z.shiftr h 7) 7 + 8 in
    let rs2 := Z.land (Z.shiftr h 2) 7 + 8 in
    match Z.land (Z.shiftr h 5) 3 with
    | 1 => Some (Alu_Xor, rd, rd, rs2, 2)
    | 2 => Some (Alu_Or, rd, rd, rs2, 2)
    | 3 => Some (Alu_And, rd, rd, rs2, 2)
    | _ => None
    end
  else None.

Definition peek_alu_rr_trailer (rest : list Z) : option (AluOp * Z * Z * Z * Z) :=
  match rest with
  | b0 :: b1 :: tail =>
      if Z.land b0 3 =? 3 then
        match tail with
        | b2 :: b3 :: _ => peek_rr4 (from_le_bytes [b0; b1; b2; b3])
        | _ => None
        end
      else peek_rr2 (from_le_bytes [b0; b1])
  | _ => None
  end.

Definition is_custom0_ecall (w : Z) : bool :=
  let opcode5 := field5 w 2 in
  let f3 := Z.land (Z.shiftr w 12) 7 in
  (opcode5 =? OP_CUSTOM_0) && ((f3 =? 1) || (f3 =? 2)).

(** [imm_i], [imm_s], [imm_b], [imm_j], [creg] and the RVC immediates repeat those of
    the decoder ([Instruction]), which are used here. *)
Definition imm_u (w : Z) : Z := sext 32 (Z.land w 0xFFFFF000).

(** ** Encoders *)

Definition lors (l : list Z) : Z := fold_right Z.lor 0 l.

Definition enc_i (opcode5 f3 rd rs1 imm : Z) : Z :=
  let imm12 := Z.land (wrap 32 imm) 0xFFF in
  lors [wrap 32 (Z.shiftl imm12 20); Z.shiftl rs1 15; Z.shiftl f3 12; Z.shiftl rd 7; Z.shiftl opcode5 2; 3].

Definition enc_s (opcode5 f3 rs1 rs2 imm : Z) : Z :=
  let imm12 := Z.land (wrap 32 imm) 0xFFF in
  lors [Z.shiftl (Z.shiftr imm12 5) 25; Z.shiftl rs2 20; Z.shiftl rs1 15; Z.shiftl f3 12;
        Z.shiftl (Z.land imm12 0x1F) 7; Z.shiftl opcode5 2; 3].

Definition enc_b (opcode5 f3 rs1 rs2 imm : Z) : Z :=
  let imm13 := Z.land (wrap 32 imm) 0x1FFF in
  let b12 := Z.land (Z.shiftr imm13 12) 1 in
  let b11 := Z.land (Z.shiftr imm13 11) 1 in
  let b10_5 := Z.land (Z.shiftr imm13 5) 0x3F in
  let b4_1 := Z.land (Z.shiftr imm13 1) 0xF in
  lors [Z.shiftl b12 31; Z.shiftl b10_5 25; Z.shiftl rs2 20; Z.shiftl rs1 15; Z.shiftl f3 12;
        Z.shiftl b4_1 8; Z.shiftl b11 7; Z.shiftl opcode5 2; 3].

Definition enc_j (opcode5 rd imm : Z) : Z :=
  let imm21 := Z.land (wrap 32 imm) 0x1FFFFF in
  let b20 := Z.land (Z.shiftr imm21 20) 1 in
  let b10_1 := Z.land (Z.shiftr imm21 1) 0x3FF in
  let b11 := Z.land (Z.shiftr imm21 11) 1 in
  let b19_12 := Z.land (Z.shiftr imm21 12) 0xFF in
  lors [Z.shiftl b20 31; Z.shiftl b10_1 21; Z.shiftl b11 20; Z.shiftl b19_12 12; Z.shiftl rd 7; Z.shiftl opcode5 2; 3].

Definition enc_u (opcode5 rd imm : Z) : Z :=
  let imm_u := Z.land (wrap 32 imm) 0xFFFFF000 in
  lors [imm_u; Z.shiftl rd 7; Z.shiftl opcode5 2; 3].

Definition enc_r (opcode5 f3 f7 rd rs1 rs2 : Z) : Z :=
  lors [Z.shiftl f7 25; Z.shiftl rs2 20; Z.shiftl rs1 15; Z.shiftl f3 12; Z.shiftl rd 7; Z.shiftl opcode5 2; 3].

Definition enc_shimm6 (opcode5 f3 shtype6 rd rs1 shamt6 : Z) : Z :=
  lors [Z.shiftl shtype6 26; Z.shiftl shamt6 20; Z.shiftl rs1 15; Z.shiftl f3 12; Z.shiftl rd 7; Z.shiftl opcode5 2; 3].

(** ** Expansion of compressed instructions *)

(** [((h >> k) & m) << s] *)
Definition bits_at (h k m s : Z) : Z := Z.shiftl (Z.land (Z.shiftr h k) m) s.

Definition expand_rvc_q0 (h f3 : Z) : option Z :=
  let rs1c := creg (Z.land (Z.shiftr h 7) 7) in
  let rdrs2c := creg (Z.land (Z.shiftr h 2) 7) in
  let imm_w := lors [bits_at h 10 0x7 3; bits_at h 6 0x1 2; bits_at h 5 0x1 6] in
  let imm_d := lors [bits_at h 10 0x7 3; bits_at h 5 0x3 6] in
  match f3 with
  | 0 =>
      let n := lors [bits_at h 11 0x3 4; bits_at h 7 0xF 6; bits_at h 6 0x1 2; bits_at h 5 0x1 3] in
      if n =? 0 then None else Some (enc_i OP_IMM 0 rdrs2c 2 n)
  | 2 => Some (enc_i OP_LOAD 2 rdrs2c rs1c imm_w)
  | 3 => Some (enc_i OP_LOAD 3 rdrs2c rs1c imm_d)
  | 6 => Some (enc_s OP_STORE 2 rs1c rdrs2c imm_w)
  | 7 => Some (enc_s OP_STORE 3 rs1c rdrs2c imm_d)
  | _ => None
  end.

Definition expand_rvc_q1_misc_alu (h : Z) : option Z :=
  let f6_10 := Z.land (Z.shiftr h 10) 3 in
  let rdrs1c := creg (Z.land (Z.shiftr h 7) 7) in
  match f6_10 with
  | 0 | 1 =>
      let shamt := Z.lor (bits_at h 12 1 5) (Z.land (Z.shiftr h 2) 0x1F) in
      let shtype := if f6_10 =? 0 then 0 else 0x10 in
      Some (enc_shimm6 OP_IMM 5 shtype rdrs1c rdrs1c shamt)
  | 2 => Some (enc_i OP_IMM 7 rdrs1c rdrs1c (decode_ci_imm6 h))
  | 3 =>
      let rs2c := creg (Z.land (Z.shiftr h 2) 7) in
      let bit12 := Z.land (Z.shiftr h 12) 1 in
      let f2 := Z.land (Z.shiftr h 5) 3 in
      match bit12, f2 with
      | 0, 0 => Some (enc_r OP_OP 0 0x20 rdrs1c rdrs1c rs2c)
      | 0, 1 => Some (enc_r OP_OP 4 0 rdrs1c rdrs1c rs2c)
      | 0, 2 => Some (enc_r OP_OP 6 0 rdrs1c rdrs1c rs2c)
      | 0, 3 => Some (enc_r OP_OP 7 0 rdrs1c rdrs1c rs2c)
      | 1, 0 => Some (enc_r OP_OP_32 0 0x20 rdrs1c rdrs1c rs2c)
      | 1, 1 => Some (enc_r OP_OP_32 0 0 rdrs1c rdrs1c rs2c)
      | _, _ => None
      end
  | _ => None
  end.

Definition expand_rvc_q1 (h f3 : Z) : option Z :=
  let rd := field5 h 7 in
  match f3 with
  | 0 => if rd =? 0 then Some (enc_i OP_IMM 0 0 0 0) else Some (enc_i OP_IMM 0 rd rd (decode_ci_imm6 h))
  | 1 => if rd =? 0 then None else Some (enc_i OP_OP_IMM_32 0 rd rd (decode_ci_imm6 h))
  | 2 => if rd =? 0 then None else Some (enc_i OP_IMM 0 rd 0 (decode_ci_imm6 h))
  | 3 =>
      if rd =? 2 then
        let imm := lors [bits_at h 12 1 9; bits_at h 6 1 4; bits_at h 5 1 6; bits_at h 3 0x3 7; bits_at h 2 1 5] in
        let sx := sx32 imm 22 in
        if sx =? 0 then None else Some (enc_i OP_IMM 0 2 2 sx)
      else if rd =? 0 then None
      else
        let imm := Z.lor (bits_at h 12 1 17) (bits_at h 2 0x1F 12) in
        let sx := sx32 imm 14 in
        if sx =? 0 then None else Some (enc_u OP_LUI rd sx)
  | 4 => expand_rvc_q1_misc_alu h
  | 5 => Some (enc_j OP_JAL 0 (decode_cj_imm h))
  | 6 | 7 =>
      let rs1 := creg (Z.land (Z.shiftr h 7) 7) in
      let imm := decode_cb_imm h in
      let f3b := if f3 =? 6 then 0 else 1 in
      Some (enc_b OP_BRANCH f3b rs1 0 imm)
  | _ => None
  end.

Definition expand_rvc_q2 (h f3 : Z) : option Z :=
  let rdrs1 := field5 h 7 in
  let rs2 := field5 h 2 in
  match f3 with
  | 0 =>
      if rdrs1 =? 0 then None
      else
        let shamt := Z.lor (bits_at h 12 1 5) (Z.land (Z.shiftr h 2) 0x1F) in
        Some (enc_shimm6 OP_IMM 1 0 rdrs1 rdrs1 shamt)
  | 2 =>
      if rdrs1 =? 0 then None
      else Some (enc_i OP_LOAD 2 rdrs1 2 (lors [bits_at h 12 1 5; bits_at h 4 0x7 2; bits_at h 2 0x3 6]))
  | 3 =>
      if rdrs1 =? 0 then None
      else Some (enc_i OP_LOAD 3 rdrs1 2 (lors [bits_at h 12 1 5; bits_at h 5 0x3 3; bits_at h 2 0x7 6]))
  | 4 =>
      let bit12 := Z.land (Z.shiftr h 12) 1 in
      if rs2 =? 0 then
        if rdrs1 =? 0 then None
        else Some (enc_i OP_JALR 0 (if bit12 =? 0 then 0 else 1) rdrs1 0)
      else if rdrs1 =? 0 then None
      else Some (enc_r OP_OP 0 0 rdrs1 (if bit12 =? 0 then 0 else rdrs1) rs2)
  | 6 => Some (enc_s OP_STORE 2 2 rs2 (Z.lor (bits_at h 9 0xF 2) (bits_at h 7 0x3 6)))
  | 7 => Some (enc_s OP_STORE 3 2 rs2 (Z.lor (bits_at h 10 0x7 3) (bits_at h 7 0x7 6)))
  | _ => None
  end.

Definition expand_rvc (h : Z) : option Z :=
  if h =? 0 then None
  else
    let f3 := Z.land (Z.shiftr h 13) 7 in
    match Z.land h 3 with
    | 0 => expand_rvc_q0 h f3
    | 1 => expand_rvc_q1 h f3
    | 2 => expand_rvc_q2 h f3
    | _ => None
    end.

(** ** Guest registers *)

Definition rv_slot (x : Z) : option nat :=
  let s := rv_slot_or_ff x in
  if s <=? 12 then Some (Z.to_nat s) else None.

Definition spill_va (x : Z) : Z := CTX_REGS + rv_slot_or_ff x * 8.

(** [REG_MAP[slot]], for a slot below 13. *)
Definition reg_of_slot (slot : nat) : Reg := default SCRATCH (REG_MAP !! slot).

(** [REG_MAP[rv_slot(x).unwrap()]] *)
Definition host_reg (x : Z) : Cg Reg := let% s := unwrap (rv_slot x) in cret (reg_of_slot s).

(** [self.invalidate_reg(rv_slot(rd).unwrap())] *)
Definition invalidate_rd (rd : Z) : Cg unit := let% s := unwrap (rv_slot rd) in invalidate_reg s.

Definition rv_emit_panic_at (pc : Z) : Cg unit :=
  put (mov_store32_rip_rel_imm CTX_PC (sext 32 pc)) ;%
  put (mov_store32_rip_rel_imm CTX_EXIT_REASON EXIT_PANIC) ;%
  let% l := gets exit_label in
  put_res (jmp_label l).

Definition rv_read (rs : Z) (dst_reg : Reg) (pc : Z) : Cg unit :=
  if rs =? 0 then put (mov_ri64 dst_reg 0)
  else if reg_is_spilled rs then put (mov_load64_rip_rel dst_reg (spill_va rs))
  else if reg_is_reserved rs then rv_emit_panic_at pc
  else let% r := host_reg rs in put (mov_rr dst_reg r).

Definition rv_read_into (rs : Z) (scratch : Reg) (pc : Z) : Cg Reg :=
  if rs =? 0 then put (mov_ri64 scratch 0) ;% cret scratch
  else if reg_is_spilled rs then put (mov_load64_rip_rel scratch (spill_va rs)) ;% cret scratch
  else if reg_is_reserved rs then rv_emit_panic_at pc ;% cret scratch
  else host_reg rs.

Definition rv_dst (rd pc : Z) : Cg (option Reg) :=
  if rd =? 0 then cret None
  else if reg_is_reserved rd then rv_emit_panic_at pc ;% cret None
  else let% r := host_reg rd in cret (Some r).

(** [let Some(d) = m else { return };] *)
Notation "'let%?' d := m 'in' k" :=
  (cbind m (fun o => match o with Some d => k | None => cret tt end)) (at level 10, d pattern, k at level 200) : cg_scope.

(** [if rd != 0 { self.invalidate_reg(..) }] *)
Definition invalidate_dst (rd : Z) : Cg unit := when (negb (rd =? 0)) (invalidate_rd rd).

(** The host register of a source, [None] for [x0]. *)
Definition host_opt (x : Z) : Cg (option Reg) :=
  if x =? 0 then cret None else let% r := host_reg x in cret (Some r).

(** The guard of the helpers: a reserved operand panics at [pc]. *)
Definition unless_reserved (b : bool) (pc : Z) (m : Cg unit) : Cg unit :=
  if b then rv_emit_panic_at pc else m.

(** ** Constants, loads and stores *)

Definition rv_lui (rd imm pc : Z) : Cg unit :=
  let%? d := rv_dst rd pc in
  put (mov_ri64 d (wrap 64 imm)) ;%
  invalidate_rd rd.

Definition rv_auipc (rd imm pc : Z) : Cg unit :=
  let%? d := rv_dst rd pc in
  let% base := gets code_base in
  let va := wrapping_add 32 (wrapping_add 32 base pc) (wrap 32 imm) in
  put (mov_ri64 d (wrap 64 (sext 32 va))) ;%
  invalidate_rd rd.

(** [addr = (rs1 + imm) & 0xFFFFFFFF] into the scratch register. *)
Definition rv_addr_to_scratch (rs1 imm pc : Z) : Cg unit :=
  if rs1 =? 0 then put (mov_ri32 SCRATCH (wrap 32 imm))
  else if reg_is_reserved rs1 then rv_emit_panic_at pc
  else
    let% slot := unwrap (rv_slot rs1) in
    let% def := gets (fun c => def_at (reg_defs c) slot) in
    let plain :=
      let base := reg_of_slot slot in
      if negb (imm =? 0) then put (lea_32 SCRATCH base imm) else put (movzx_32_64 SCRATCH base) in
    match def with
    | Const addr => put (mov_ri32 SCRATCH (wrapping_add 32 addr (wrap 32 imm)))
    | ScaledAdd base idx shift =>
        if imm =? 0 then put (lea_sib_scaled_32 SCRATCH (reg_of_slot base) (reg_of_slot idx) shift) else plain
    | _ => plain
    end.

Definition rv_load (rd rs1 imm width : Z) (signed : bool) (pc : Z) : Cg unit :=
  unless_reserved (reg_is_reserved rd || reg_is_reserved rs1) pc
    (rv_addr_to_scratch rs1 imm pc ;%
     let% h := gets helpers in
     let fn_addr := match width with 1 => mem_read_u8 h | 2 => mem_read_u16 h | 4 => mem_read_u32 h | _ => mem_read_u64 h end in
     let% od := rv_dst rd pc in
     let dst := default SCRATCH od in
     emit_mem_read_sized dst fn_addr width pc ;%
     when (signed && (width <? 8) && negb (rd =? 0))
       match width with
       | 1 => put (movsx_8_64 dst dst)
       | 2 => put (movsx_16_64 dst dst)
       | 4 => put (movsxd dst dst)
       | _ => cret tt
       end ;%
     invalidate_dst rd).

Definition rv_store (rs1 rs2 imm width pc : Z) : Cg unit :=
  unless_reserved (reg_is_reserved rs1 || reg_is_reserved rs2) pc
    (let% h := gets helpers in
     let fn_addr := match width with 1 => mem_write_u8 h | 2 => mem_write_u16 h | 4 => mem_write_u32 h | _ => mem_write_u64 h end in
     if rs2 =? 0 then
       rv_addr_to_scratch rs1 imm pc ;%
       put (push RAX) ;%
       put (mov_ri64 RAX 0) ;%
       emit_mem_write RAX fn_addr pc ;%
       put (pop RAX)
     else
       let% val := host_reg rs2 in
       rv_addr_to_scratch rs1 imm pc ;%
       emit_mem_write val fn_addr pc).

(** ** Arithmetic *)

Definition rv_alu_imm (rd rs1 imm : Z) (op : AluImmOp) (pc : Z) : Cg unit :=
  let%? d := rv_dst rd pc in
  if (rs1 =? 0) && match op with AluImm_Add => true | _ => false end then
    put (mov_ri64 d (wrap 64 imm)) ;%
    invalidate_rd rd
  else
    rv_read rs1 d pc ;%
    match op with
    | AluImm_Add => put (add_ri d imm)
    | AluImm_And => put (and_ri d imm)
    | AluImm_Or => put (or_ri d imm)
    | AluImm_Xor => put (xor_ri d imm)
    | AluImm_Addw => put (add_ri32 d imm) ;% put (movsxd d d)
    end ;%
    invalidate_dst rd.

Definition apply_alu_op (op : AluOp) (d s : Reg) : Cg unit :=
  match op with
  | Alu_Add => put (add_rr d s)
  | Alu_Sub => put (sub_rr d s)
  | Alu_And => put (and_rr d s)
  | Alu_Or => put (or_rr d s)
  | Alu_Xor => put (xor_rr d s)
  | Alu_Mul => put (imul_rr d s)
  | Alu_Addw => put (add_rr32 d s) ;% put (movsxd d d)
  | Alu_Subw => put (sub_rr32 d s) ;% put (movsxd d d)
  | Alu_Mulw => put (imul_rr32 d s) ;% put (movsxd d d)
  | Alu_Min => put (cmp_rr d s) ;% put (cmovcc Cc_G d s)
  | Alu_Max => put (cmp_rr d s) ;% put (cmovcc Cc_L d s)
  | Alu_Minu => put (cmp_rr d s) ;% put (cmovcc Cc_A d s)
  | Alu_Maxu => put (cmp_rr d s) ;% put (cmovcc Cc_B d s)
  | Alu_Andn => put (mov_rr SCRATCH s) ;% put (not64 SCRATCH) ;% put (and_rr d SCRATCH)
  | Alu_Orn => put (mov_rr SCRATCH s) ;% put (not64 SCRATCH) ;% put (or_rr d SCRATCH)
  | Alu_Xnor => put (xor_rr d s) ;% put (not64 d)
  end.

Definition set_last_add_cf (o : option (nat * nat * nat)) : Cg unit := modify (fun c => with_cf c o).

Definition opt_reg_eqb (a b : option Reg) : bool := bool_decide (a = b).

(** The second operand of a two-operand sequence that first overwrites [d]: zero or
    the operand itself is moved to the scratch register where [d] would destroy it. *)
Definition snapshot_rs2 (d : Reg) (r1 r2 : option Reg) : Cg Reg :=
  match r2 with
  | None => put (mov_ri64 SCRATCH 0) ;% cret SCRATCH
  | Some r => if reg_eqb d r && negb (opt_reg_eqb r1 r2) then put (mov_rr SCRATCH r) ;% cret SCRATCH else cret r
  end.

(** The general path of [rv_alu_rr]. *)
Definition alu_rr_general (rd rs1 rs2 : Z) (op : AluOp) (d : Reg) (pc : Z) : Cg unit :=
  let% r1 := host_opt rs1 in
  let% r2 := host_opt rs2 in
  let% b_reg := snapshot_rs2 d r1 r2 in
  rv_read rs1 d pc ;%
  apply_alu_op op d b_reg ;%
  invalidate_dst rd ;%
  match rv_slot rd, rv_slot rs1, rv_slot rs2 with
  | Some d_s, Some a_s, Some b_s =>
      when (is_add op && negb (rd =? 0) && negb (rs1 =? 0) && negb (rs2 =? 0)) (set_last_add_cf (Some (d_s, a_s, b_s)))
  | _, _, _ => cret tt
  end.

Definition rv_alu_rr (rd rs1 rs2 : Z) (op : AluOp) (pc : Z) : Cg unit :=
  let%? d := rv_dst rd pc in
  unless_reserved (reg_is_reserved rs1 || reg_is_reserved rs2) pc
    (if is_add op && ((rs1 =? 0) || (rs2 =? 0)) then
       rv_read (if rs1 =? 0 then rs2 else rs1) d pc ;%
       invalidate_rd rd ;%
       set_last_add_cf None
     else if match op with Alu_Sub => true | _ => false end && negb (rs1 =? 0) && negb (rs2 =? 0) && negb (rs1 =? rs2) then
       let% r1_x86 := host_reg rs1 in
       let% r2_x86 := host_reg rs2 in
       if reg_eqb d r2_x86 then
         put (neg64 d) ;%
         put (add_rr d r1_x86) ;%
         invalidate_rd rd ;%
         set_last_add_cf None
       else alu_rr_general rd rs1 rs2 op d pc
     else alu_rr_general rd rs1 rs2 op d pc).

(** ** Comparisons *)

Definition lt_cc (signed : bool) : Cc := if signed then Cc_L else Cc_B.

Definition rv_slt_imm (rd rs1 imm : Z) (signed : bool) (pc : Z) : Cg unit :=
  let%? d := rv_dst rd pc in
  unless_reserved (reg_is_reserved rs1) pc
    (let% r1 := host_opt rs1 in
     let% src := match r1 with
                 | None => put (mov_ri64 SCRATCH 0) ;% cret SCRATCH
                 | Some r => if reg_eqb d r then put (mov_rr SCRATCH r) ;% cret SCRATCH else cret r
                 end in
     put (mov_ri64 d 0) ;%
     put (cmp_ri src imm) ;%
     put (setcc (lt_cc signed) d) ;%
     invalidate_dst rd).

(** The carry flag of a preceding [add] decides [sltu rd, rs1, rs2]. *)
Definition carry_fusable (cf : option (nat * nat * nat)) (rd rs1 rs2 : Z) (signed : bool) : option nat :=
  match cf, rv_slot rs1, rv_slot rs2, rv_slot rd with
  | Some (add_d, add_a, add_b), Some rs1_s, Some rs2_s, Some rd_s =>
      if negb signed && (rs1_s =? add_d)%nat && negb (rs2_s =? add_d)%nat
         && ((rs2_s =? add_a)%nat || (rs2_s =? add_b)%nat) && negb (rd_s =? rs2_s)%nat
      then Some rd_s else None
  | _, _, _, _ => None
  end.

(** [mov d, 0; flags; setcc d] with the destination's definition dropped. *)
Definition set_on (rd : Z) (d : Reg) (flags : Assembler -> Assembler) (cc : Cc) : Cg unit :=
  put (mov_ri64 d 0) ;%
  put flags ;%
  put (setcc cc d) ;%
  invalidate_dst rd.

(** A source that is [d] itself is read from the scratch register. *)
Definition away_from (d r : Reg) : Cg Reg :=
  if reg_eqb d r then put (mov_rr SCRATCH r) ;% cret SCRATCH else cret r.

Definition slt_rr_general (rd rs1 rs2 : Z) (signed : bool) (d : Reg) : Cg unit :=
  let% r1 := host_opt rs1 in
  let% r2 := host_opt rs2 in
  match r1, r2 with
  | Some ra, Some rb =>
      if reg_eqb d ra && reg_eqb d rb then set_on rd d (cmp_rr ra rb) (lt_cc signed)
      else if reg_eqb d ra then put (mov_rr SCRATCH ra) ;% set_on rd d (cmp_rr SCRATCH rb) (lt_cc signed)
      else if reg_eqb d rb then put (mov_rr SCRATCH rb) ;% set_on rd d (cmp_rr ra SCRATCH) (lt_cc signed)
      else set_on rd d (cmp_rr ra rb) (lt_cc signed)
  | None, Some rb =>
      let% src := away_from d rb in
      set_on rd d (test_rr src src) (if signed then Cc_G else Cc_A)
  | Some ra, None =>
      let% src := away_from d ra in
      set_on rd d (cmp_ri src 0) (lt_cc signed)
  | None, None => put (mov_ri64 d 0) ;% invalidate_dst rd
  end.

Definition rv_slt_rr (rd rs1 rs2 : Z) (signed : bool) (pc : Z) : Cg unit :=
  let%? d := rv_dst rd pc in
  unless_reserved (reg_is_reserved rs1 || reg_is_reserved rs2) pc
    (let% cf := gets last_add_cf in
     match carry_fusable cf rd rs1 rs2 signed with
     | Some rd_s =>
         put (mov_ri32 d 0) ;%
         put (setcc Cc_B d) ;%
         invalidate_reg rd_s
     | None =>
         set_last_add_cf None ;%
         slt_rr_general rd rs1 rs2 signed d
     end).

(** ** Shifts *)

Definition rv_shift_imm (rd rs1 shamt : Z) (op : ShiftOp) (pc : Z) : Cg unit :=
  let%? d := rv_dst rd pc in
  rv_read rs1 d pc ;%
  match op with
  | Shl64 => put (shl_ri64 d (Z.land shamt 63))
  | Shr64 => put (shr_ri64 d (Z.land shamt 63))
  | Sar64 => put (sar_ri64 d (Z.land shamt 63))
  | Shl32 => put (shl_ri32 d (Z.land shamt 31)) ;% put (movsxd d d)
  | Shr32 => put (movzx_32_64 d d) ;% put (shr_ri32 d (Z.land shamt 31)) ;% put (movsxd d d)
  | Sar32 => put (sar_ri32 d (Z.land shamt 31)) ;% put (movsxd d d)
  | Ror64 => put (ror_ri64 d (Z.land shamt 63))
  | Ror32 => put (movzx_32_64 d d) ;% put (ror_ri32 d (Z.land shamt 31)) ;% put (movsxd d d)
  | Rol64 | Rol32 => rv_emit_panic_at pc
  end ;%
  invalidate_dst rd.

Definition shift_sub_op (op : ShiftOp) : Z :=
  match op with
  | Shl64 | Shl32 => 4
  | Shr64 | Shr32 => 5
  | Sar64 | Sar32 => 7
  | Rol64 | Rol32 => 0
  | Ror64 | Ror32 => 1
  end.

Definition shift_is_32 (op : ShiftOp) : bool :=
  match op with Shl32 | Shr32 | Sar32 | Rol32 | Ror32 => true | _ => false end.

Definition rv_shift_rr (rd rs1 rs2 : Z) (op : ShiftOp) (pc : Z) : Cg unit :=
  let%? d := rv_dst rd pc in
  unless_reserved (reg_is_reserved rs1 || reg_is_reserved rs2) pc
    (let% r2 := host_opt rs2 in
     let% r1 := host_opt rs1 in
     let% shift_src := snapshot_rs2 d r1 r2 in
     rv_read rs1 d pc ;%
     let sub_op := shift_sub_op op in
     (if shift_is_32 op then
        when match op with Shr32 | Ror32 => true | _ => false end (put (movzx_32_64 d d)) ;%
        emit_shift_by_reg32 d shift_src sub_op ;%
        put (movsxd d d)
      else emit_shift_by_reg64 d shift_src sub_op) ;%
     invalidate_dst rd).

(** ** Multiplication *)

(** The sign correction of [mulhsu]: the high half is the unsigned one, less [b] when
    [a] is negative. *)
Definition mulhsu_correct (b_reg : Reg) : Cg unit :=
  put (push b_reg) ;%
  put (push RAX) ;%
  put (mul_rdx_rax b_reg) ;%
  put (pop RAX) ;%
  let% skip := fresh_label in
  put (test_rr RAX RAX) ;%
  put_res (jcc_label Cc_NS skip) ;%
  put (pop RAX) ;%
  put (sub_rr SCRATCH RAX) ;%
  let% done := fresh_label in
  put_res (jmp_label done) ;%
  put_res (bind_label skip) ;%
  put (add_ri RSP 8) ;%
  put_res (bind_label done).

Definition rv_mulh (rd rs1 rs2 : Z) (a_signed b_signed : bool) (pc : Z) : Cg unit :=
  let%? d := rv_dst rd pc in
  unless_reserved (reg_is_reserved rs1 || reg_is_reserved rs2) pc
    (let save_rax := negb (reg_eqb d RAX) in
     let% r2_mapped := host_opt rs2 in
     let snapshot := opt_reg_eqb r2_mapped (Some RAX) in
     when snapshot (put (mov_rr SCRATCH RAX)) ;%
     when save_rax (put (push RAX)) ;%
     (if rs1 =? 0 then put (mov_ri64 RAX 0)
      else
        let% r1 := host_reg rs1 in
        when (negb (reg_eqb r1 RAX)) (put (mov_rr RAX r1)) ;%
        when (reg_eqb r1 RAX && save_rax) (put (mov_load64 RAX RSP 0))) ;%
     let% b_reg := (if rs2 =? 0 then put (mov_ri64 SCRATCH 0) ;% cret SCRATCH
                    else if snapshot then cret SCRATCH
                    else unwrap r2_mapped) in
     (if a_signed && b_signed then put (imul_rdx_rax b_reg)
      else if negb a_signed && negb b_signed then put (mul_rdx_rax b_reg)
      else mulhsu_correct b_reg) ;%
     (if save_rax then put (mov_rr d SCRATCH) ;% put (pop RAX) else put (mov_rr RAX SCRATCH)) ;%
     invalidate_dst rd).

(** ** Division *)

(** The divisor register, once the registers it needs are saved. *)
Definition div_divisor (rs2 : Z) (r2 : option Reg) (save_rax : bool) : Cg Reg :=
  if rs2 =? 0 then put (mov_ri64 RCX 0) ;% cret RCX
  else if opt_reg_eqb r2 (Some RAX) then
    (if save_rax then put (mov_load64 RCX RSP 8) else put (mov_rr RCX RAX)) ;%
    cret RCX
  else unwrap r2.

(** The dividend into [RAX]. *)
Definition div_dividend (rs1 : Z) (save_rax spilled_rcx : bool) : Cg unit :=
  if rs1 =? 0 then put (mov_ri64 RAX 0)
  else
    let% r1 := host_reg rs1 in
    if reg_eqb r1 RAX then when save_rax (put (mov_load64 RAX RSP (if spilled_rcx then 8 else 0)))
    else put (mov_rr RAX r1).

(** The signed branch for a divisor of minus one. *)
Definition div_neg_one (d b_reg : Reg) (remainder is_32bit : bool) (join : Z) : Cg unit :=
  let% not_neg_one := fresh_label in
  (if is_32bit then put (cmp_ri32 b_reg (-1)) else put (cmp_ri b_reg (-1))) ;%
  put_res (jcc_label Cc_NE not_neg_one) ;%
  (if remainder then put (mov_ri64 d 0)
   else
     when (negb (reg_eqb d RAX)) (put (mov_rr d RAX)) ;%
     put (neg64 d) ;%
     when is_32bit (put (movsxd d d))) ;%
  put_res (jmp_label join) ;%
  put_res (bind_label not_neg_one).

(** The hardware division. *)
Definition div_hw (b_reg : Reg) (signed is_32bit : bool) : Cg unit :=
  if is_32bit then
    if signed then put (movsxd RAX RAX) ;% put cdq ;% put (idiv32 b_reg)
    else put (movzx_32_64 RAX RAX) ;% put (mov_ri64 SCRATCH 0) ;% put (div32 b_reg)
  else if signed then put cqo ;% put (idiv64 b_reg)
  else put (mov_ri64 SCRATCH 0) ;% put (div64 b_reg).

Definition rv_div_rem (rd rs1 rs2 : Z) (signed remainder is_32bit : bool) (pc : Z) : Cg unit :=
  let%? d := rv_dst rd pc in
  unless_reserved (reg_is_reserved rs1 || reg_is_reserved rs2) pc
    (let save_rax := negb (reg_eqb d RAX) in
     when save_rax (put (push RAX)) ;%
     let% r2 := host_opt rs2 in
     let spilled_rcx := (rs2 =? 0) || opt_reg_eqb r2 (Some RAX) in
     when spilled_rcx (put (push RCX)) ;%
     let% b_reg := div_divisor rs2 r2 save_rax in
     div_dividend rs1 save_rax spilled_rcx ;%
     (if is_32bit then put (test_rr32 b_reg b_reg) else put (test_rr b_reg b_reg)) ;%
     let% nonzero := fresh_label in
     let% join := fresh_label in
     put_res (jcc_label Cc_NE nonzero) ;%
     (if remainder then
        when (negb (reg_eqb d RAX)) (put (mov_rr d RAX)) ;%
        when is_32bit (put (movsxd d d))
      else put (mov_ri64 d (2 ^ 64 - 1))) ;%
     put_res (jmp_label join) ;%
     put_res (bind_label nonzero) ;%
     when signed (div_neg_one d b_reg remainder is_32bit join) ;%
     div_hw b_reg signed is_32bit ;%
     let result_reg := if remainder then SCRATCH else RAX in
     when (negb (reg_eqb d result_reg)) (put (mov_rr d result_reg)) ;%
     when is_32bit (put (movsxd d d)) ;%
     put_res (bind_label join) ;%
     when spilled_rcx (put (pop RCX)) ;%
     when save_rax (put (pop RAX)) ;%
     invalidate_dst rd).

(** ** Bit manipulation *)

Definition LO7 : Z := 0x7F7F7F7F7F7F7F7F.
Definition HI : Z := 0x8080808080808080.

Definition emit_orc_b (d src : Reg) : Cg unit :=
  put (mov_rr SCRATCH src) ;%
  put (push SCRATCH) ;%
  put (mov_ri64 d LO7) ;%
  put (and_rr d SCRATCH) ;%
  put (mov_ri64 SCRATCH LO7) ;%
  put (add_rr d SCRATCH) ;%
  put (pop SCRATCH) ;%
  put (or_rr d SCRATCH) ;%
  put (mov_ri64 SCRATCH HI) ;%
  put (and_rr d SCRATCH) ;%
  put (push d) ;%
  put (mov_rr SCRATCH d) ;%
  put (shr_ri64 SCRATCH 7) ;%
  put (sub_rr d SCRATCH) ;%
  put (pop SCRATCH) ;%
  put (or_rr d SCRATCH).

Definition apply_unary (op : UnaryOp) (d src : Reg) : Cg unit :=
  match op with
  | Clz64 => put (lzcnt64 d src)
  | Clz32 => put (lzcnt32 d src)
  | Ctz64 => put (tzcnt64 d src)
  | Ctz32 => put (tzcnt32 d src)
  | Popcnt64 => put (popcnt64 d src)
  | Popcnt32 => put (popcnt32 d src)
  | Un_SextB => put (movsx_8_64 d src)
  | Un_SextH => put (movsx_16_64 d src)
  | Un_ZextH => put (movzx_16_64 d src)
  | Un_Rev8 => when (negb (reg_eqb d src)) (put (mov_rr d src)) ;% put (bswap64 d)
  | Un_OrcB => emit_orc_b d src
  end.

Definition rv_unary (rd rs1 : Z) (op : UnaryOp) (pc : Z) : Cg unit :=
  let%? d := rv_dst rd pc in
  if rs1 =? 0 then
    put (mov_ri64 SCRATCH 0) ;%
    apply_unary op d SCRATCH ;%
    invalidate_dst rd
  else unless_reserved (reg_is_reserved rs1) pc
    (let% src := host_reg rs1 in
     apply_unary op d src ;%
     invalidate_dst rd).

(** [d = rs2], with nothing emitted when it already is. *)
Definition load_rs2 (rs2 : Z) (d : Reg) : Cg unit :=
  if rs2 =? 0 then put (mov_ri64 d 0)
  else let% r2 := host_reg rs2 in when (negb (reg_eqb d r2)) (put (mov_rr d r2)).

Definition rv_shadd (rd rs1 rs2 shift : Z) (uw : bool) (pc : Z) : Cg unit :=
  let%? d := rv_dst rd pc in
  unless_reserved (reg_is_reserved rs1 || reg_is_reserved rs2) pc
    ((if rs1 =? 0 then put (mov_ri64 SCRATCH 0)
      else let% r1 := host_reg rs1 in
           if uw then put (movzx_32_64 SCRATCH r1) else put (mov_rr SCRATCH r1)) ;%
     put (shl_ri64 SCRATCH shift) ;%
     load_rs2 rs2 d ;%
     put (add_rr d SCRATCH) ;%
     invalidate_dst rd).

Definition rv_adduw (rd rs1 rs2 pc : Z) : Cg unit :=
  let%? d := rv_dst rd pc in
  unless_reserved (reg_is_reserved rs1 || reg_is_reserved rs2) pc
    ((if rs1 =? 0 then put (mov_ri64 SCRATCH 0)
      else let% r1 := host_reg rs1 in put (movzx_32_64 SCRATCH r1)) ;%
     load_rs2 rs2 d ;%
     put (add_rr d SCRATCH) ;%
     invalidate_dst rd).

Definition rv_slliuw (rd rs1 shamt pc : Z) : Cg unit :=
  let%? d := rv_dst rd pc in
  if rs1 =? 0 then put (mov_ri64 d 0) ;% invalidate_dst rd
  else unless_reserved (reg_is_reserved rs1) pc
    (let% r1 := host_reg rs1 in
     put (movzx_32_64 d r1) ;%
     put (shl_ri64 d (Z.land shamt 63)) ;%
     invalidate_dst rd).

(** The single-bit operations on [d] with the mask in the scratch register. *)
Definition apply_bit (op : BitOp) (d : Reg) (extract : Cg unit) : Cg unit :=
  match op with
  | Bit_Clear => put (not64 SCRATCH) ;% put (and_rr d SCRATCH)
  | Bit_Set => put (or_rr d SCRATCH)
  | Bit_Invert => put (xor_rr d SCRATCH)
  | Bit_Extract => extract
  end.

Definition rv_bit_rr (rd rs1 rs2 : Z) (op : BitOp) (pc : Z) : Cg unit :=
  let%? d := rv_dst rd pc in
  unless_reserved (reg_is_reserved rs1 || reg_is_reserved rs2) pc
    (put (mov_ri64 SCRATCH 1) ;%
     when (negb (rs2 =? 0))
       (let% r2 := host_reg rs2 in
        if reg_eqb r2 RCX then put (shl_cl64 SCRATCH)
        else
          put (push RCX) ;%
          put (mov_rr RCX r2) ;%
          put (shl_cl64 SCRATCH) ;%
          put (pop RCX)) ;%
     rv_read rs1 d pc ;%
     apply_bit op d (put (test_rr d SCRATCH) ;% put (mov_ri32 d 0) ;% put (setcc Cc_NE d)) ;%
     invalidate_dst rd).

Definition rv_bit_imm (rd rs1 shamt : Z) (op : BitOp) (pc : Z) : Cg unit :=
  let%? d := rv_dst rd pc in
  unless_reserved (reg_is_reserved rs1) pc
    (let s := Z.land shamt 0x3F in
     let extract := put (shr_ri64 d s) ;% put (and_ri d 1) in
     (if s <? 31 then
        let mask_lo := Z.shiftl 1 s in
        rv_read rs1 d pc ;%
        match op with
        | Bit_Clear => put (and_ri d (Z.lnot mask_lo))
        | Bit_Set => put (or_ri d mask_lo)
        | Bit_Invert => put (xor_ri d mask_lo)
        | Bit_Extract => extract
        end
      else
        put (mov_ri64 SCRATCH (Z.shiftl 1 s)) ;%
        rv_read rs1 d pc ;%
        apply_bit op d extract) ;%
     invalidate_dst rd).

(** [eqz] is [cond = Cc::E], otherwise [Cc::NE]. *)
Definition rv_czero (rd rs1 rs2 : Z) (eqz : bool) (pc : Z) : Cg unit :=
  let%? d := rv_dst rd pc in
  unless_reserved (reg_is_reserved rs1 || reg_is_reserved rs2) pc
    (let% slot := unwrap (rv_slot rd) in
     (if rs2 =? 0 then if eqz then put (mov_ri64 d 0) else rv_read rs1 d pc
      else if rs1 =? 0 then put (mov_ri64 d 0)
      else if rs1 =? rs2 then if eqz then rv_read rs1 d pc else put (mov_ri64 d 0)
      else
        let% r1 := host_reg rs1 in
        let% r2 := host_reg rs2 in
        put (test_rr r2 r2) ;%
        if reg_eqb d r1 then
          put (mov_ri32 SCRATCH 0) ;%
          put (cmovcc (if eqz then Cc_E else Cc_NE) d SCRATCH)
        else
          put (mov_ri32 d 0) ;%
          put (cmovcc (if eqz then Cc_NE else Cc_E) d r1)) ;%
     invalidate_reg slot).

(** ** Jumps *)

Definition branch_target (pc imm : Z) : Z := wrap 32 (pc + imm).

Definition rv_jal (rd imm pc next_pc : Z) : Cg unit :=
  unless_reserved (reg_is_reserved rd) pc
    (when (negb (rd =? 0))
       (let% slot := unwrap (rv_slot rd) in
        let% base := gets code_base in
        put (mov_ri64 (reg_of_slot slot) (wrapping_add 32 base next_pc)) ;%
        invalidate_reg slot) ;%
     emit_static_branch (branch_target pc imm) true pc).

(** From the target address in the scratch register to the jump. *)
Definition jalr_dispatch : Cg unit :=
  let% c := gets id in
  when (negb (code_base c =? 0)) (put (sub_ri SCRATCH (sext 32 (code_base c)))) ;%
  put (mov_store32_rip_rel CTX_PC SCRATCH) ;%
  put (cmp_ri32 SCRATCH (sext 32 (code_len c))) ;%
  put_res (jcc_label Cc_AE (panic_label c)) ;%
  put (push RAX) ;%
  put (mov_load64_rip_rel RAX CTX_DISPATCH_TABLE) ;%
  put (movsxd_load_sib4 RAX RAX SCRATCH) ;%
  put (add_r64_mem_rip_rel RAX CTX_CODE_BASE) ;%
  put (mov_rr SCRATCH RAX) ;%
  put (pop RAX) ;%
  put (jmp_reg SCRATCH).

(** The target address of a [jalr] into the scratch register. *)
Definition jalr_target (rs1 imm pc : Z) : Cg unit :=
  rv_read rs1 SCRATCH pc ;%
  when (negb (imm =? 0)) (put (add_ri SCRATCH imm)) ;%
  put (shl_ri64 SCRATCH 32) ;%
  put (shr_ri64 SCRATCH 32).

Definition rv_jalr (rd rs1 imm pc next_pc : Z) : Cg unit :=
  unless_reserved (reg_is_reserved rs1) pc
    (jalr_target rs1 imm pc ;%
     when (negb (rd =? 0))
       (let% slot := unwrap (rv_slot rd) in
        let% base := gets code_base in
        put (mov_ri64 (reg_of_slot slot) (wrapping_add 32 base next_pc)) ;%
        invalidate_reg slot) ;%
     jalr_dispatch).

Definition rv_branch (rs1 rs2 imm : Z) (cc : Cc) (pc : Z) : Cg unit :=
  unless_reserved (reg_is_reserved rs1 || reg_is_reserved rs2) pc
    (let target := branch_target pc imm in
     let% a := rv_read_into rs1 SCRATCH pc in
     let% b := (if reg_eqb a SCRATCH then if rs2 =? 0 then cret SCRATCH else host_reg rs2
                else if rs2 =? 0 then put (mov_ri64 SCRATCH 0) ;% cret SCRATCH
                else host_reg rs2) in
     emit_branch_reg a b cc target pc).

(** ** Custom-0 *)

Definition exit_with (pc reason arg : Z) : Cg unit :=
  put (mov_store32_rip_rel_imm CTX_PC (sext 32 pc)) ;%
  put (mov_store32_rip_rel_imm CTX_EXIT_REASON reason) ;%
  put (mov_store32_rip_rel_imm CTX_EXIT_ARG arg) ;%
  let% l := gets exit_label in
  put_res (jmp_label l).

Definition rv_trap (pc : Z) : Cg unit := exit_with pc EXIT_TRAP 0.
Definition rv_ecall_jar (next_pc : Z) : Cg unit := exit_with next_pc EXIT_ECALL 0.
Definition rv_ecalli (imm next_pc : Z) : Cg unit := exit_with next_pc EXIT_HOST_CALL imm.

(** ** Tracking of definitions *)

Definition track_const (rd imm : Z) : Cg unit :=
  match rv_slot rd with Some slot => record_def slot (Const (wrap 32 imm)) | None => cret tt end.

Definition track_shifted (rd rs1 shamt : Z) : Cg unit :=
  match rv_slot rd, rv_slot rs1 with
  | Some d, Some s => record_def d (Shifted s shamt)
  | _, _ => cret tt
  end.

Definition track_add_scaledadd (rd rs1 rs2 : Z) : Cg unit :=
  match rv_slot rd, rv_slot rs1, rv_slot rs2 with
  | Some d, Some a, Some b =>
      let% defs := gets reg_defs in
      match def_at defs b, def_at defs a with
      | Shifted src shift, _ => record_def d (ScaledAdd a src shift)
      | _, Shifted src shift => record_def d (ScaledAdd b src shift)
      | _, _ => cret tt
      end
  | _, _, _ => cret tt
  end.

Definition record_scaledadd (rd rs1 rs2 shift : Z) : Cg unit :=
  if (rd =? rs1) || (rd =? rs2) then cret tt
  else
    match rv_slot rd, rv_slot rs1, rv_slot rs2 with
    | Some d, Some idx, Some base => record_def d (ScaledAdd base idx shift)
    | _, _, _ => cret tt
    end.

(** ** Dispatch by opcode

    Each dispatcher returns whether the instruction ends the block, whether the tracked
    carry survives, and the bytes consumed beyond the instruction. *)

Definition Outcome : Type := bool * bool * Z.

(** [let term = self.feed_gas_rv(..); (term, cf, 0)] *)
Definition feed_then (kind rs1 rs2 rd : Z) (cf : bool) : Cg Outcome :=
  let% term := feed_gas_rv kind rs1 rs2 rd in cret (term, cf, 0).

Definition reserved_at (pc : Z) : Cg Outcome :=
  rv_emit_panic_at pc ;%
  feed_gas_rv RV_KIND_RESERVED 0 0 0 ;%
  cret (true, false, 0).

Definition load_shape (f3 : Z) : option (Z * bool) :=
  match f3 with
  | 0 => Some (1, true)
  | 1 => Some (2, true)
  | 2 => Some (4, true)
  | 3 => Some (8, false)
  | 4 => Some (1, false)
  | 5 => Some (2, false)
  | 6 => Some (4, false)
  | _ => None
  end.

(** The instruction after an [ld] that is fused with it. *)
Definition ld_fusion (rd rs1 width : Z) (rest : list Z) : option (AluOp * Z * Z * Z * Z) :=
  if (width =? 8) && negb (rd =? 0) && negb (reg_is_reserved rd) && negb (reg_is_reserved rs1) then
    match peek_alu_rr_trailer rest with
    | Some (op, a_rd, a_rs1, a_rs2, consumed) =>
        if negb (a_rd =? 0) && negb (reg_is_reserved a_rd) && ((a_rs1 =? rd) || (a_rs2 =? rd))
           && ((a_rs1 =? 0) || negb (reg_is_reserved a_rs1)) && ((a_rs2 =? 0) || negb (reg_is_reserved a_rs2))
        then Some (op, a_rd, a_rs1, a_rs2, consumed) else None
    | None => None
    end
  else None.

Definition compile_load (rd rs1 f3 w pc : Z) (rest : list Z) : Cg Outcome :=
  let imm := imm_i w in
  match load_shape f3 with
  | None => reserved_at pc
  | Some (width, signed) =>
      match ld_fusion rd rs1 width rest with
      | Some (op, a_rd, a_rs1, a_rs2, consumed) =>
          rv_load rd rs1 imm 8 false pc ;%
          feed_gas_rv RV_KIND_LOAD rs1 0 rd ;%
          let next_pc := wrap 32 (pc + 4) in
          rv_alu_rr a_rd a_rs1 a_rs2 op next_pc ;%
          when (is_add op && negb (a_rd =? a_rs1) && negb (a_rd =? a_rs2)) (track_add_scaledadd a_rd a_rs1 a_rs2) ;%
          feed_gas_rv RV_KIND_ADD a_rs1 a_rs2 a_rd ;%
          cret (false, is_add op, consumed)
      | None =>
          rv_load rd rs1 imm width signed pc ;%
          feed_then RV_KIND_LOAD rs1 0 rd false
      end
  end.

Definition compile_store (rs1 rs2 f3 w pc : Z) : Cg Outcome :=
  let imm := imm_s w in
  let store width := rv_store rs1 rs2 imm width pc ;% feed_then RV_KIND_STORE rs1 rs2 0 false in
  match f3 with
  | 0 => store 1
  | 1 => store 2
  | 2 => store 4
  | 3 => store 8
  | _ => reserved_at pc
  end.

Definition compile_op_imm (rd rs1 f3 w pc : Z) : Cg Outcome :=
  let imm := imm_i w in
  let shtype := Z.land (Z.shiftr w 26) 0x3F in
  let shamt := Z.land (Z.shiftr w 20) 0x3F in
  let rs2_field := field5 w 20 in
  let fin kind := feed_then kind rs1 0 rd false in
  let unary op kind := rv_unary rd rs1 op pc ;% fin kind in
  match f3 with
  | 0 =>
      rv_alu_imm rd rs1 imm AluImm_Add pc ;%
      when (rs1 =? 0) (track_const rd imm) ;%
      fin RV_KIND_ADDI
  | 2 => rv_slt_imm rd rs1 imm true pc ;% fin RV_KIND_ADDI
  | 3 => rv_slt_imm rd rs1 imm false pc ;% fin RV_KIND_ADDI
  | 4 => rv_alu_imm rd rs1 imm AluImm_Xor pc ;% fin RV_KIND_ADDI
  | 6 => rv_alu_imm rd rs1 imm AluImm_Or pc ;% fin RV_KIND_ADDI
  | 7 => rv_alu_imm rd rs1 imm AluImm_And pc ;% fin RV_KIND_ADDI
  | 1 =>
      match shtype with
      | 0x00 =>
          rv_shift_imm rd rs1 shamt Shl64 pc ;%
          when ((1 <=? shamt) && (shamt <=? 3) && negb (rs1 =? rd)) (track_shifted rd rs1 shamt) ;%
          fin RV_KIND_ADDI
      | 0x12 => rv_bit_imm rd rs1 shamt Bit_Clear pc ;% fin RV_KIND_ZBS_IMM
      | 0x0A => rv_bit_imm rd rs1 shamt Bit_Set pc ;% fin RV_KIND_ZBS_IMM
      | 0x1A => rv_bit_imm rd rs1 shamt Bit_Invert pc ;% fin RV_KIND_ZBS_IMM
      | 0x18 =>
          match rs2_field with
          | 0 => unary Clz64 RV_KIND_ZBB_U1
          | 1 => unary Ctz64 RV_KIND_ZBB_CTZ
          | 2 => unary Popcnt64 RV_KIND_ZBB_U1
          | 4 => unary Un_SextB RV_KIND_ZBB_U1
          | 5 => unary Un_SextH RV_KIND_ZBB_U1
          | _ => reserved_at pc
          end
      | _ => reserved_at pc
      end
  | 5 =>
      match shtype with
      | 0x00 => rv_shift_imm rd rs1 shamt Shr64 pc ;% fin RV_KIND_ADDI
      | 0x10 => rv_shift_imm rd rs1 shamt Sar64 pc ;% fin RV_KIND_ADDI
      | 0x12 => rv_bit_imm rd rs1 shamt Bit_Extract pc ;% fin RV_KIND_ZBS_IMM
      | 0x18 => rv_shift_imm rd rs1 shamt Ror64 pc ;% fin RV_KIND_ZBB_RORI
      | 0x0A => match rs2_field with 0x07 => unary Un_OrcB RV_KIND_ZBB_U1 | _ => reserved_at pc end
      | 0x1A => match rs2_field with 0x18 => unary Un_Rev8 RV_KIND_ZBB_U1 | _ => reserved_at pc end
      | _ => reserved_at pc
      end
  | _ => reserved_at pc
  end.

Definition compile_op_imm_32 (rd rs1 f3 w pc : Z) : Cg Outcome :=
  let f7 := Z.land (Z.shiftr w 25) 0x7F in
  let shamt5 := field5 w 20 in
  let fin kind := feed_then kind rs1 0 rd false in
  match f3 with
  | 0 => rv_alu_imm rd rs1 (imm_i w) AluImm_Addw pc ;% fin RV_KIND_ADDIW
  | 1 =>
      match f7 with
      | 0x00 => rv_shift_imm rd rs1 shamt5 Shl32 pc ;% fin RV_KIND_ADDIW
      | 0x04 => rv_slliuw rd rs1 (Z.land (Z.shiftr w 20) 0x3F) pc ;% fin RV_KIND_ZBA_IMM
      | 0x30 =>
          match field5 w 20 with
          | 0 => rv_unary rd rs1 Clz32 pc ;% fin RV_KIND_ZBB_U1
          | 1 => rv_unary rd rs1 Ctz32 pc ;% fin RV_KIND_ZBB_CTZ
          | 2 => rv_unary rd rs1 Popcnt32 pc ;% fin RV_KIND_ZBB_U1
          | _ => reserved_at pc
          end
      | _ => reserved_at pc
      end
  | 5 =>
      match f7 with
      | 0x00 => rv_shift_imm rd rs1 shamt5 Shr32 pc ;% fin RV_KIND_ADDIW
      | 0x20 => rv_shift_imm rd rs1 shamt5 Sar32 pc ;% fin RV_KIND_ADDIW
      | 0x30 => rv_shift_imm rd rs1 shamt5 Ror32 pc ;% fin RV_KIND_ZBB_RORIW
      | _ => reserved_at pc
      end
  | _ => reserved_at pc
  end.

(** The second of the pair: its destination and the slots of the four registers. *)
Definition mul_second (m_rd m_rs1 m_rs2 w2 : Z) (signed : bool) : option (bool * Z * nat * nat * nat * nat) :=
  let u_rd := field5 w2 7 in
  let u_rs1 := field5 w2 15 in
  let u_rs2 := field5 w2 20 in
  if negb (u_rs1 =? m_rs1) || negb (u_rs2 =? m_rs2) || (u_rd =? m_rd) then None
  else if reg_is_reserved m_rd || reg_is_reserved u_rd then None
  else if reg_is_reserved m_rs1 || reg_is_reserved m_rs2 then None
  else
    match rv_slot m_rs1, rv_slot m_rs2, rv_slot m_rd, rv_slot u_rd with
    | Some s1, Some s2, Some l, Some h => Some (signed, u_rd, s1, s2, l, h)
    | _, _, _, _ => None
    end.

(** The [mulh] or [mulhu] that follows a [mul] of the same operands. *)
Definition mul_pair (m_rd m_rs1 m_rs2 : Z) (rest : list Z) : option (bool * Z * nat * nat * nat * nat) :=
  match rest with
  | b0 :: b1 :: b2 :: b3 :: _ =>
      let w2 := from_le_bytes [b0; b1; b2; b3] in
      match Z.land w2 0xFE00707F with
      | 0x02001033 => mul_second m_rd m_rs1 m_rs2 w2 true
      | 0x02003033 => mul_second m_rd m_rs1 m_rs2 w2 false
      | _ => None
      end
  | _ => None
  end.

(** One multiplication for both halves. *)
Definition emit_mul_pair (signed : bool) (a b rd_lo rd_hi : Reg) : Cg unit :=
  let phi11 := reg_of_slot 11 in
  let need_save_phi11 := negb (reg_eqb rd_lo phi11) && negb (reg_eqb rd_hi phi11) in
  when need_save_phi11 (put (push phi11)) ;%
  let% mul_src := (if reg_eqb b phi11 then
                     (if need_save_phi11 then put (mov_load64 SCRATCH RSP 0) else put (mov_rr SCRATCH b)) ;%
                     cret SCRATCH
                   else cret b) in
  when (negb (reg_eqb a phi11)) (put (mov_rr phi11 a)) ;%
  (if signed then put (imul_rdx_rax mul_src) else put (mul_rdx_rax mul_src)) ;%
  when (negb (reg_eqb rd_lo phi11)) (put (mov_rr rd_lo phi11)) ;%
  when (negb (reg_eqb rd_hi RDX)) (put (mov_rr rd_hi RDX)) ;%
  when need_save_phi11 (put (pop phi11)).

Definition try_fuse_mul_pair_bytes (m_rd m_rs1 m_rs2 : Z) (rest : list Z) : Cg (option Z) :=
  match mul_pair m_rd m_rs1 m_rs2 rest with
  | None => cret None
  | Some (signed, u_rd, rs1_slot, rs2_slot, lo_slot, hi_slot) =>
      emit_mul_pair signed (reg_of_slot rs1_slot) (reg_of_slot rs2_slot) (reg_of_slot lo_slot) (reg_of_slot hi_slot) ;%
      invalidate_reg lo_slot ;%
      invalidate_reg hi_slot ;%
      set_last_add_cf None ;%
      feed_gas_rv RV_KIND_MUL m_rs1 m_rs2 m_rd ;%
      feed_gas_rv RV_KIND_MULH m_rs1 m_rs2 u_rd ;%
      cret (Some 4)
  end.

(** The dispatch of [compile_op] on [(f7, f3)]. *)
Definition compile_op_by (rd rs1 rs2 f3 f7 pc : Z) : Cg Outcome :=
  let fin kind := feed_then kind rs1 rs2 rd false in
  let alu op kind := rv_alu_rr rd rs1 rs2 op pc ;% fin kind in
  let shift op kind := rv_shift_rr rd rs1 rs2 op pc ;% fin kind in
  let div signed remainder := rv_div_rem rd rs1 rs2 signed remainder false pc ;% fin RV_KIND_DIV in
  let shadd k := rv_shadd rd rs1 rs2 k false pc ;% record_scaledadd rd rs1 rs2 k ;% fin RV_KIND_ZBA in
  let bitop op := rv_bit_rr rd rs1 rs2 op pc ;% fin RV_KIND_ZBS in
  match f7, f3 with
  | 0x00, 0 =>
      rv_alu_rr rd rs1 rs2 Alu_Add pc ;%
      when (negb (rd =? rs1) && negb (rd =? rs2)) (track_add_scaledadd rd rs1 rs2) ;%
      feed_then RV_KIND_ADD rs1 rs2 rd true
  | 0x20, 0 => alu Alu_Sub RV_KIND_ADD
  | 0x00, 1 => shift Shl64 RV_KIND_SLL
  | 0x00, 2 => rv_slt_rr rd rs1 rs2 true pc ;% fin RV_KIND_SLT
  | 0x00, 3 => rv_slt_rr rd rs1 rs2 false pc ;% feed_then RV_KIND_SLT rs1 rs2 rd true
  | 0x00, 4 => alu Alu_Xor RV_KIND_ADD
  | 0x00, 5 => shift Shr64 RV_KIND_SLL
  | 0x20, 5 => shift Sar64 RV_KIND_SLL
  | 0x00, 6 => alu Alu_Or RV_KIND_ADD
  | 0x00, 7 => alu Alu_And RV_KIND_ADD
  | 0x01, 0 => alu Alu_Mul RV_KIND_MUL
  | 0x01, 1 => rv_mulh rd rs1 rs2 true true pc ;% fin RV_KIND_MULH
  | 0x01, 2 => rv_mulh rd rs1 rs2 true false pc ;% fin RV_KIND_MULHSU
  | 0x01, 3 => rv_mulh rd rs1 rs2 false false pc ;% fin RV_KIND_MULH
  | 0x01, 4 => div true false
  | 0x01, 5 => div false false
  | 0x01, 6 => div true true
  | 0x01, 7 => div false true
  | 0x20, 7 => alu Alu_Andn RV_KIND_ZBB_INV
  | 0x20, 6 => alu Alu_Orn RV_KIND_ZBB_INV
  | 0x20, 4 => alu Alu_Xnor RV_KIND_ZBB_XNOR
  | 0x05, 4 => alu Alu_Min RV_KIND_ZBB_MINMAX
  | 0x05, 5 => alu Alu_Minu RV_KIND_ZBB_MINMAX
  | 0x05, 6 => alu Alu_Max RV_KIND_ZBB_MINMAX
  | 0x05, 7 => alu Alu_Maxu RV_KIND_ZBB_MINMAX
  | 0x30, 1 => shift Rol64 RV_KIND_ZBB_ROT
  | 0x30, 5 => shift Ror64 RV_KIND_ZBB_ROT
  | 0x10, 2 => shadd 1
  | 0x10, 4 => shadd 2
  | 0x10, 6 => shadd 3
  | 0x24, 1 => bitop Bit_Clear
  | 0x14, 1 => bitop Bit_Set
  | 0x34, 1 => bitop Bit_Invert
  | 0x24, 5 => bitop Bit_Extract
  | 0x07, 5 => rv_czero rd rs1 rs2 true pc ;% fin RV_KIND_ZICOND
  | 0x07, 7 => rv_czero rd rs1 rs2 false pc ;% fin RV_KIND_ZICOND
  | 0x04, 4 => if rs2 =? 0 then rv_unary rd rs1 Un_ZextH pc ;% feed_then RV_KIND_ZBB_U1 rs1 0 rd false else reserved_at pc
  | _, _ => reserved_at pc
  end.

Definition compile_op (rd rs1 rs2 f3 f7 pc : Z) (rest : list Z) : Cg Outcome :=
  let% fused := (if (f7 =? 1) && (f3 =? 0) then try_fuse_mul_pair_bytes rd rs1 rs2 rest else cret None) in
  match fused with
  | Some extra => cret (false, false, extra)
  | None => compile_op_by rd rs1 rs2 f3 f7 pc
  end.

Definition compile_op_32 (rd rs1 rs2 f3 f7 pc : Z) : Cg Outcome :=
  let fin kind := feed_then kind rs1 rs2 rd false in
  let alu op kind := rv_alu_rr rd rs1 rs2 op pc ;% fin kind in
  let shift op kind := rv_shift_rr rd rs1 rs2 op pc ;% fin kind in
  let div signed remainder := rv_div_rem rd rs1 rs2 signed remainder true pc ;% fin RV_KIND_DIV in
  match f7, f3 with
  | 0x00, 0 => alu Alu_Addw RV_KIND_ADDW
  | 0x20, 0 => alu Alu_Subw RV_KIND_ADDW
  | 0x00, 1 => shift Shl32 RV_KIND_SLLW
  | 0x00, 5 => shift Shr32 RV_KIND_SLLW
  | 0x20, 5 => shift Sar32 RV_KIND_SLLW
  | 0x01, 0 => alu Alu_Mulw RV_KIND_MULW
  | 0x01, 4 => div true false
  | 0x01, 5 => div false false
  | 0x01, 6 => div true true
  | 0x01, 7 => div false true
  | 0x30, 1 => shift Rol32 RV_KIND_ZBB_ROTW
  | 0x30, 5 => shift Ror32 RV_KIND_ZBB_ROTW
  | 0x04, 0 => rv_adduw rd rs1 rs2 pc ;% fin RV_KIND_ZBA
  | 0x10, 2 => rv_shadd rd rs1 rs2 1 true pc ;% fin RV_KIND_ZBA
  | 0x10, 4 => rv_shadd rd rs1 rs2 2 true pc ;% fin RV_KIND_ZBA
  | 0x10, 6 => rv_shadd rd rs1 rs2 3 true pc ;% fin RV_KIND_ZBA
  | _, _ => reserved_at pc
  end.

(** The other operand of an [add rd, ..] after [lui rd], and what it consumes. *)
Definition lui_fusion (rd : Z) (rest : list Z) : option (Z * Z * Z * Z) :=
  if negb (rd =? 0) && negb (reg_is_reserved rd) then
    match peek_alu_rr_trailer rest with
    | Some (op, a_rd, a_rs1, a_rs2, consumed) =>
        if is_add op && (a_rd =? rd) then
          if a_rs1 =? rd then
            if (a_rs2 =? 0) || negb (reg_is_reserved a_rs2) then Some (a_rs2, a_rs1, a_rs2, consumed) else None
          else if a_rs2 =? rd then
            if (a_rs1 =? 0) || negb (reg_is_reserved a_rs1) then Some (a_rs1, a_rs1, a_rs2, consumed) else None
          else None
        else None
    | None => None
    end
  else None.

Definition compile_lui (rd w pc : Z) (rest : list Z) : Cg Outcome :=
  let imm := imm_u w in
  match lui_fusion rd rest with
  | Some (other, a_rs1, a_rs2, consumed) =>
      (let%? d := rv_dst rd pc in
       if other =? 0 then
         put (mov_ri64 d (wrap 64 imm)) ;%
         track_const rd imm
       else
         let% base := host_reg other in
         put (lea d base imm) ;%
         invalidate_rd rd) ;%
      feed_gas_rv RV_KIND_LUI 0 0 rd ;%
      feed_gas_rv RV_KIND_ADD a_rs1 a_rs2 rd ;%
      cret (false, false, consumed)
  | None =>
      rv_lui rd imm pc ;%
      track_const rd imm ;%
      feed_then RV_KIND_LUI 0 0 rd false
  end.

Definition compile_jal (rd w pc inst_len : Z) : Cg Outcome :=
  rv_jal rd (imm_j w) pc (wrap 32 (pc + inst_len)) ;%
  feed_then RV_KIND_JAL 0 0 rd false.

Definition compile_auipc (rd w pc : Z) : Cg Outcome :=
  rv_auipc rd (imm_u w) pc ;%
  feed_then RV_KIND_LUI 0 0 rd false.

Definition compile_jalr (rd rs1 w pc inst_len : Z) : Cg Outcome :=
  rv_jalr rd rs1 (imm_i w) pc (wrap 32 (pc + inst_len)) ;%
  feed_then RV_KIND_JALR rs1 0 0 false.

Definition branch_cc (f3 : Z) : option Cc :=
  match f3 with
  | 0 => Some Cc_E
  | 1 => Some Cc_NE
  | 4 => Some Cc_L
  | 5 => Some Cc_GE
  | 6 => Some Cc_B
  | 7 => Some Cc_AE
  | _ => None
  end.

Definition compile_branch (rs1 rs2 f3 w pc : Z) : Cg Outcome :=
  match branch_cc f3 with
  | None => reserved_at pc
  | Some cc =>
      rv_branch rs1 rs2 (imm_b w) cc pc ;%
      feed_then RV_KIND_BRANCH rs1 rs2 0 false
  end.

Definition compile_custom_0 (f3 w pc : Z) : Cg Outcome :=
  let next_pc := wrap 32 (pc + 4) in
  match f3 with
  | 0 => rv_trap pc ;% feed_then RV_KIND_TRAP 0 0 0 false
  | 1 => rv_ecall_jar next_pc ;% feed_then RV_KIND_ECALL_JAR 0 0 0 false
  | 2 => rv_ecalli (imm_i w) next_pc ;% feed_then RV_KIND_ECALLI 0 0 0 false
  | 4 => feed_then RV_KIND_FALLTHROUGH 0 0 0 false
  | _ => reserved_at pc
  end.

(** ** The spill path of [x3] and [x4] *)

Definition rv_jal_spilled (rd imm pc next_pc : Z) : Cg unit :=
  let% base := gets code_base in
  let ret := wrapping_add 32 base next_pc in
  put (mov_store32_rip_rel_imm (spill_va rd) (sext 32 ret)) ;%
  put (mov_store32_rip_rel_imm (spill_va rd + 4) 0) ;%
  emit_static_branch (branch_target pc imm) true pc.

Definition rv_jalr_spilled (rd rs1 imm pc next_pc : Z) : Cg unit :=
  jalr_target rs1 imm pc ;%
  when (negb (rd =? 0))
    (let% base := gets code_base in
     let ret := wrapping_add 32 base next_pc in
     if reg_is_spilled rd then
       put (mov_store32_rip_rel_imm (spill_va rd) (sext 32 ret)) ;%
       put (mov_store32_rip_rel_imm (spill_va rd + 4) 0)
     else
       let% slot := unwrap (rv_slot rd) in
       put (mov_ri64 (reg_of_slot slot) ret) ;%
       invalidate_reg slot) ;%
  jalr_dispatch.

Definition emit_cond_branch_to (cc : Cc) (target pc : Z) : Cg unit :=
  let% streaming := gets rv_streaming in
  if streaming && (pc <? target) then defer_branch target pc (jcc_label cc)
  else
    let% valid := gets (fun c => is_basic_block_start c target) in
    if negb valid then
      put (mov_store32_rip_rel_imm CTX_PC (sext 32 pc)) ;%
      let% l := gets panic_label in
      put_res (jcc_label cc l)
    else
      let% label := gets (fun c => label_for_pc c target) in
      put_res (jcc_label cc label).

Definition rv_branch_spilled (rs1 rs2 f3 imm pc : Z) : Cg unit :=
  match branch_cc f3 with
  | None => rv_emit_panic_at pc
  | Some cc =>
      let target := branch_target pc imm in
      let% a := rv_read_into rs1 SCRATCH pc in
      (if reg_is_spilled rs2 then put (cmp_r64_mem_rip_rel a (spill_va rs2))
       else if rs2 =? 0 then put (cmp_ri32 a 0)
       else let% r := host_reg rs2 in put (cmp_rr a r)) ;%
      emit_cond_branch_to cc target pc
  end.

(** The register fields a format uses. *)
Definition spill_fields (opcode : Z) : option (bool * bool * bool) :=
  if (opcode =? OP_LOAD) || (opcode =? OP_IMM) || (opcode =? OP_OP_IMM_32) then Some (true, true, false)
  else if (opcode =? OP_OP) || (opcode =? OP_OP_32) then Some (true, true, true)
  else if opcode =? OP_STORE then Some (false, true, true)
  else if (opcode =? OP_LUI) || (opcode =? OP_AUIPC) then Some (true, false, false)
  else None.

Definition CANDIDATES : list Z := [1; 2; 5; 6; 7; 8; 9; 10; 11; 12; 13; 14; 15].

(** The first candidate that is not blocked. *)
Definition pick (blocked : list Z) : option Z := find (fun c => negb (existsb (Z.eqb c) blocked)) CANDIDATES.

(** Field [k] of a word replaced. *)
Definition set_field (b : bool) (w k v : Z) : Z :=
  if b then Z.lor (Z.ldiff w (Z.shiftl 0x1F k)) (Z.shiftl v k) else w.

Section Spill.
  (** [compile_rv4] on the rewritten word, without lookahead. *)
  Variable redispatch : Z -> Z -> Z -> Cg Outcome.

Definition emit_spilled_via_donors (w pc inst_len : Z) : Cg unit :=
  let rd := field5 w 7 in
  let rs1 := field5 w 15 in
  let rs2 := field5 w 20 in
  match spill_fields (field5 w 2) with
  | None => rv_emit_panic_at pc
  | Some (has_rd, has_rs1, has_rs2) =>
      let block (has : bool) (x : Z) :=
        if has && negb (x =? 0) && negb (reg_is_spilled x) && negb (reg_is_reserved x) then [x] else [] in
      let blocked := block has_rd rd ++ block has_rs1 rs1 ++ block has_rs2 rs2 in
      let appears x := (has_rd && (rd =? x)) || (has_rs1 && (rs1 =? x)) || (has_rs2 && (rs2 =? x)) in
      let need3 := appears 3 in
      let need4 := appears 4 in
      let% donor3 := (if need3 then unwrap (pick blocked) else cret 0) in
      let blocked := if need3 then donor3 :: blocked else blocked in
      let% donor4 := (if need4 then unwrap (pick blocked) else cret 0) in
      let donors := (if need3 then [donor3] else []) ++ (if need4 then [donor4] else []) in
      for_each donors (fun d => let% r := host_reg d in put (push r)) ;%
      let is_src x := (has_rs1 && (rs1 =? x)) || (has_rs2 && (rs2 =? x)) in
      when (need3 && is_src 3) (let% r := host_reg donor3 in put (mov_load64_rip_rel r (spill_va 3))) ;%
      when (need4 && is_src 4) (let% r := host_reg donor4 in put (mov_load64_rip_rel r (spill_va 4))) ;%
      for_each donors invalidate_rd ;%
      let repl r := if r =? 3 then donor3 else if r =? 4 then donor4 else r in
      let wr := set_field has_rd w 7 (repl rd) in
      let wr := set_field has_rs1 wr 15 (repl rs1) in
      let wr := set_field has_rs2 wr 20 (repl rs2) in
      redispatch wr pc inst_len ;%
      when (has_rd && reg_is_spilled rd)
        (let% r := host_reg (if rd =? 3 then donor3 else donor4) in put (mov_store64_rip_rel (spill_va rd) r)) ;%
      for_each donors invalidate_rd ;%
      for_each (rev donors) (fun d => let% r := host_reg d in put (pop r))
  end.

Definition set_suppress (b : bool) : Cg unit := modify (fun c => with_suppress c b).

(** The gas of a spilled instruction is fed once, for its own registers. *)
Definition feed_gas_spilled (w : Z) : Cg bool :=
  let% inst := unwrap (decode (to_le_bytes 4 w)) in
  let meta := rv_gas_meta (fst inst) in
  fun c =>
    let accum := saturating_add 32 (gas_reserve_accum c) (rv_kind_reserve (kind meta)) in
    let (sim, term) := rv_feed_gas_direct meta (gas_sim c) (mem_cycles c) in
    Ret (with_gas c sim accum, term).

Definition compile_rv_spilled (w pc inst_len : Z) : Cg Outcome :=
  let% term := feed_gas_spilled w in
  let opcode := field5 w 2 in
  let f3 := Z.land (Z.shiftr w 12) 7 in
  let rd := field5 w 7 in
  let rs1 := field5 w 15 in
  let rs2 := field5 w 20 in
  let next_pc := wrap 32 (pc + inst_len) in
  set_suppress true ;%
  (if opcode =? OP_JAL then rv_jal_spilled rd (imm_j w) pc next_pc
   else if (opcode =? OP_JALR) && (f3 =? 0) then rv_jalr_spilled rd rs1 (imm_i w) pc next_pc
   else if opcode =? OP_BRANCH then rv_branch_spilled rs1 rs2 f3 (imm_b w) pc
   else if match spill_fields opcode with Some _ => true | None => false end then emit_spilled_via_donors w pc inst_len
   else rv_emit_panic_at pc) ;%
  set_suppress false ;%
  cret (term, false, 0).

Definition compile_rv4_body (w pc inst_len : Z) (rest : list Z) : Cg Outcome :=
  let opcode := field5 w 2 in
  let rd := field5 w 7 in
  let rs1 := field5 w 15 in
  let rs2 := field5 w 20 in
  let f3 := Z.land (Z.shiftr w 12) 7 in
  let f7 := Z.land (Z.shiftr w 25) 0x7F in
  if word_uses_reserved_reg w then reserved_at pc
  else if word_uses_spilled_reg w then compile_rv_spilled w pc inst_len
  else if opcode =? OP_LOAD then compile_load rd rs1 f3 w pc rest
  else if opcode =? OP_STORE then compile_store rs1 rs2 f3 w pc
  else if opcode =? OP_IMM then compile_op_imm rd rs1 f3 w pc
  else if opcode =? OP_OP_IMM_32 then compile_op_imm_32 rd rs1 f3 w pc
  else if opcode =? OP_OP then compile_op rd rs1 rs2 f3 f7 pc rest
  else if opcode =? OP_OP_32 then compile_op_32 rd rs1 rs2 f3 f7 pc
  else if opcode =? OP_LUI then compile_lui rd w pc rest
  else if opcode =? OP_AUIPC then compile_auipc rd w pc
  else if opcode =? OP_JAL then compile_jal rd w pc inst_len
  else if (opcode =? OP_JALR) && (f3 =? 0) then compile_jalr rd rs1 w pc inst_len
  else if opcode =? OP_BRANCH then compile_branch rs1 rs2 f3 w pc
  else if opcode =? OP_CUSTOM_0 then compile_custom_0 f3 w pc
  else if opcode =? OP_MISC_MEM then feed_gas_rv RV_KIND_FENCE 0 0 0 ;% cret (false, false, 0)
  else reserved_at pc.
End Spill.

(** The spill path calls back at most once: the rewritten word names neither [x3] nor [x4]. *)
Fixpoint compile_rv4_at (depth : nat) (w pc inst_len : Z) (rest : list Z) : Cg Outcome :=
  match depth with
  | O => cabort
  | S depth' => compile_rv4_body (fun w pc inst_len => compile_rv4_at depth' w pc inst_len []) w pc inst_len rest
  end.

Definition compile_rv4 : Z -> Z -> Z -> list Z -> Cg Outcome := compile_rv4_at 2.

Definition compile_rvc (h pc : Z) (rest : list Z) : Cg Outcome :=
  match expand_rvc h with
  | Some w => compile_rv4 w pc 2 rest
  | None => reserved_at pc
  end.

(** ** The streaming pass *)

Definition flush_pending_gas (pending : option PendingGas) : Cg unit := fun c =>
  match pending with
  | None => Ret (c, tt)
  | Some p =>
      let cost := flush_and_get_cost (gas_sim c) in
      let gate := saturating_add 32 cost (gas_reserve_accum c) in
      let a := patch_i32 (cmp_offset p) (sext 32 gate) (asm c) in
      let a := patch_i32 (sub_offset p) (sext 32 cost) a in
      Ret (with_stubs (with_asm c a) (oog_stubs c ++ [(stub_label p, block_pc p, cost)]), tt)
  end.

Definition bind_rv_gas_block_start_streaming (pc : Z) (is_ecall : bool) (pending : option PendingGas) : Cg (option PendingGas) :=
  let% label := gets (fun c => label_for_pc c pc) in
  put_res (bind_label label) ;%
  modify (fun c => with_blocks c (gas_block_pcs c ++ [pc]) (<[Z.to_nat pc := true]> (rv_valid_pc c))) ;%
  invalidate_all_regs ;%
  set_last_add_cf None ;%
  flush_pending_gas pending ;%
  modify (fun c => with_gas c (sim_reset (gas_sim c)) 0) ;%
  if is_ecall then cret None
  else
    let% stub := fresh_label in
    put (cmp_r64_imm32_patchable GAS 0) ;%
    let% cmp_off := gets (fun c => offset (asm c) - 4) in
    put_res (jcc_label Cc_L stub) ;%
    put (sub_r64_imm32_patchable GAS 0) ;%
    let% sub_off := gets (fun c => offset (asm c) - 4) in
    cret (Some (mkPending stub pc cmp_off sub_off)).

Section Stream.
  Context {VP : VecPolicy}.

(** One iteration: what is left of the code, whether a block starts here, and the pending
    gate; [None] is the [break]. The bytes are those of the code from [pc] on. *)
Definition stream_step (bytes : list Z) (pc : Z) (gas_start : bool) (pending : option PendingGas)
  : Cg (option (Z * bool) * option PendingGas) :=
  put (ensure_capacity 512) ;%
  match bytes with
  | b0 :: b1 :: tail =>
      let is_4byte := Z.land b0 3 =? 3 in
      match is_4byte, tail with
      | true, b2 :: b3 :: rest =>
          let w := from_le_bytes [b0; b1; b2; b3] in
          let ecall_block := is_custom0_ecall w in
          let% pending := (if gas_start || ecall_block
                           then bind_rv_gas_block_start_streaming pc ecall_block pending else cret pending) in
          let% (term, preserve_cf, extra) := compile_rv4 w pc 4 rest in
          when (negb preserve_cf) (set_last_add_cf None) ;%
          cret (Some (4 + extra, term), pending)
      | true, _ => rv_emit_panic_at pc ;% cret (None, pending)
      | false, _ =>
          let% pending := (if gas_start then bind_rv_gas_block_start_streaming pc false pending else cret pending) in
          let% (term, preserve_cf, extra) := compile_rvc (from_le_bytes [b0; b1]) pc tail in
          when (negb preserve_cf) (set_last_add_cf None) ;%
          cret (Some (2 + extra, term), pending)
      end
  | _ => rv_emit_panic_at pc ;% cret (None, pending)
  end.

(** The loop: every iteration consumes two bytes or more. *)
Fixpoint stream (fuel : nat) (bytes : list Z) (pc : Z) (gas_start : bool) (pending : option PendingGas) : Cg (option PendingGas) :=
  match fuel with
  | O => cret pending
  | S fuel' =>
      match bytes with
      | [] => cret pending
      | _ =>
          let% (next, pending) := stream_step bytes pc gas_start pending in
          match next with
          | None => cret pending
          | Some (consumed, term) => stream fuel' (drop (Z.to_nat consumed) bytes) (wrap 32 (pc + consumed)) term pending
          end
      end
  end.

(** The panic stub of a forward branch whose target is not a block start. *)
Definition resolve_forward (p : Z * Z * nat) : Cg unit :=
  let '(target, branch_pc, fixup_idx) := p in
  let% valid := gets (fun c => is_basic_block_start c target) in
  when (negb valid)
    (let% stub := fresh_label in
     put_res (bind_label stub) ;%
     put (mov_store32_rip_rel_imm CTX_PC (sext 32 branch_pc)) ;%
     let% l := gets panic_label in
     put_res (jmp_label l) ;%
     put_res (redirect_fixup fixup_idx stub)).

(** The dispatch entries of the bound block labels. *)
Fixpoint dispatch_of (c : Compiler) (pcs : list Z) : Res (list (Z * Z)) :=
  match pcs with
  | [] => Ret []
  | pc :: pcs' =>
      let! off := label_offset (asm c) (label_for_pc c pc) in
      let! rest := dispatch_of c pcs' in
      Ret (match off with Some o => (pc, sext 32 o) :: rest | None => rest end)
  end.

Definition finish (c : Compiler) : Res CompileResult :=
  let! entries := dispatch_of c (gas_block_pcs c) in
  let! exit_off := label_offset (asm c) (exit_label c) in
  let! panic_off := label_offset (asm c) (panic_label c) in
  let! panic_off := expect panic_off in
  let! native := finalize (asm c) in
  Ret (mkResult native entries (trap_entries c) (wrap 32 (default 0 exit_off)) (wrap 32 panic_off) (overrun (asm c))).

(** The pass over the code, up to the final flush. *)
Definition compile_blocks (code : list Z) : Cg unit :=
  modify (fun c => with_fwd (with_blocks c (gas_block_pcs c) (replicate (length code) false)) true (rv_pending_fwd_branches c)) ;%
  emit_prologue ;%
  let% pending := stream (length code) code 0 true None in
  flush_pending_gas pending.

Definition compile_state (code : list Z) : Cg unit :=
  compile_blocks code ;%
  let% fwd := gets rv_pending_fwd_branches in
  modify (fun c => with_fwd c false []) ;%
  for_each fwd resolve_forward ;%
  emit_exit_sequences.

Definition compile (c : Compiler) (code : list Z) : Res CompileResult :=
  let! r := compile_state code c in finish (fst r).
End Stream.
