(* ===== verification/CodegenGas.v ===== *)
(** * Gas of the recompiler and of the interpreter

    The recompiler feeds its gas simulator while it emits code; the interpreter
    charges the block costs the predecoder computed. Here every emission helper is
    shown to leave the gas state alone ([quiet]), every dispatcher to feed exactly the
    decoded instruction, fused ones to feed both, and the streaming pass to close the
    same blocks, at the same offsets, with the same costs as the predecoder. *)

From S2P Require Import Prelude MachineInt Engine GasConst Instruction InstructionFacts GasSim GasCost Predecode AluFacts Asm Codegen.

#[local] Open Scope cg_scope.

(** ** What the gas accounting sees *)

Record GasView := mkView {
  v_pcs : list Z;
  v_stubs : list (Z * Z);
  v_sim : GasSimulator;
  v_accum : Z;
  v_suppress : bool;
  v_cycles : Z }.

Definition gview (c : Compiler) : GasView :=
  mkView (gas_block_pcs c) (List.map (fun s => (snd (fst s), snd s)) (oog_stubs c)) (gas_sim c) (gas_reserve_accum c)
    (suppress_gas c) (mem_cycles c).

(** A computation that does not touch it. *)
Definition quiet {A} (m : Cg A) : Prop :=
  forall c c' x, m c = Ret (c', x) -> gview c' = gview c.

Lemma quiet_cret {A} (x : A) : quiet (cret x).
Proof. intros c c' y E. by injection E as <- <-. Qed.

Lemma quiet_cabort {A} : quiet (@cabort A).
Proof. done. Qed.

Lemma quiet_bind {A B} (m : Cg A) (k : A -> Cg B) : quiet m -> (forall x, quiet (k x)) -> quiet (cbind m k).
Proof.
  intros Hm Hk c c' y E. unfold cbind in E. destruct (m c) as [[c1 x]|] eqn:E1; [|done].
  rewrite (Hk x c1 c' y E). by apply (Hm c c1 x).
Qed.

Lemma quiet_gets {A} (f : Compiler -> A) : quiet (gets f).
Proof. intros c c' y E. by injection E as <- <-. Qed.

Lemma quiet_modify f : (forall c, gview (f c) = gview c) -> quiet (modify f).
Proof. intros H c c' y E. injection E as <- <-. apply H. Qed.

Lemma quiet_put f : quiet (put f).
Proof. intros c c' y E. by injection E as <- <-. Qed.

Lemma quiet_put_res f : quiet (put_res f).
Proof. intros c c' y E. unfold put_res in E. destruct (f (asm c)); [|done]. by injection E as <- <-. Qed.

Lemma quiet_fresh_label : quiet fresh_label.
Proof. intros c c' y E. unfold fresh_label in E. destruct (new_label (asm c)). by injection E as <- <-. Qed.

Lemma quiet_when b m : quiet m -> quiet (when b m).
Proof. intros H. destruct b; [done|apply quiet_cret]. Qed.

Lemma quiet_unwrap {A} (o : option A) : quiet (unwrap o).
Proof. destruct o; [apply quiet_cret|apply quiet_cabort]. Qed.

Lemma quiet_for_each {A} (l : list A) f : (forall x, quiet (f x)) -> quiet (for_each l f).
Proof.
  intros H. induction l as [|x l IH]; [apply quiet_cret|].
  cbn [for_each]. apply quiet_bind; [apply H|auto].
Qed.

Lemma gview_dependents reg c : gview (invalidate_dependents reg c) = gview c.
Proof. unfold invalidate_dependents. destruct (for_bits _ _ _ _). done. Qed.

Lemma quiet_invalidate_reg r : quiet (invalidate_reg r).
Proof. apply quiet_modify. intros c. by rewrite gview_dependents. Qed.
Lemma quiet_invalidate_all : quiet invalidate_all_regs.
Proof. by apply quiet_modify. Qed.
Lemma quiet_record_def s d : quiet (record_def s d).
Proof. apply quiet_modify. intros c. by rewrite gview_dependents. Qed.
Lemma quiet_set_cf o : quiet (set_last_add_cf o).
Proof. by apply quiet_modify. Qed.
Lemma quiet_push_trap p w : quiet (push_trap p w).
Proof. by apply quiet_modify. Qed.

Create HintDb quiet discriminated.
#[export] Hint Constants Opaque : quiet.
#[export] Hint Resolve quiet_cret quiet_cabort quiet_gets quiet_put quiet_put_res quiet_fresh_label quiet_unwrap
  quiet_invalidate_reg quiet_invalidate_all quiet_record_def quiet_set_cf quiet_push_trap : quiet.

(** Descends through binds, conditionals and matches. *)
Ltac quiet :=
  repeat first
    [ solve [auto 2 with quiet nocore]
    | lazymatch goal with
      | |- quiet (cbind _ _) => apply quiet_bind; [|intros ?]
      | |- quiet (when _ _) => apply quiet_when
      | |- quiet (for_each _ _) => apply quiet_for_each; intros ?
      | |- quiet (unless_reserved _ _ _) => unfold unless_reserved
      | |- quiet _ => case_match
      end ].

(** ** The helpers *)

Lemma quiet_emit_exit r a : quiet (emit_exit r a).
Proof. unfold emit_exit. quiet. Qed.
Lemma quiet_rv_emit_panic_at pc : quiet (rv_emit_panic_at pc).
Proof. unfold rv_emit_panic_at. quiet. Qed.
Lemma quiet_defer_branch t pc j : quiet (defer_branch t pc j).
Proof. unfold defer_branch. quiet. by apply quiet_modify. Qed.
#[export] Hint Resolve quiet_emit_exit quiet_rv_emit_panic_at quiet_defer_branch : quiet.

Lemma quiet_host_reg x : quiet (host_reg x).
Proof. unfold host_reg. quiet. Qed.
Lemma quiet_invalidate_rd x : quiet (invalidate_rd x).
Proof. unfold invalidate_rd. quiet. Qed.
#[export] Hint Resolve quiet_host_reg quiet_invalidate_rd : quiet.

Lemma quiet_emit_static_branch t b pc : quiet (emit_static_branch t b pc).
Proof. unfold emit_static_branch. quiet. Qed.
Lemma quiet_emit_branch_reg a b cc t pc : quiet (emit_branch_reg a b cc t pc).
Proof. unfold emit_branch_reg. quiet. Qed.
Lemma quiet_emit_cond_branch_to cc t pc : quiet (emit_cond_branch_to cc t pc).
Proof. unfold emit_cond_branch_to. quiet. Qed.
Lemma quiet_emit_mem_read d f w pc : quiet (emit_mem_read_sized d f w pc).
Proof.
  unfold emit_mem_read_sized. apply quiet_bind; [auto with quiet|intros h]. cbv zeta.
  match goal with |- context [push_trap _ ?w] => generalize w end. intros w'. quiet.
Qed.
Lemma quiet_emit_mem_write v f pc : quiet (emit_mem_write v f pc).
Proof. unfold emit_mem_write. quiet. Qed.
Lemma quiet_shift32 d s o : quiet (emit_shift_by_reg32 d s o).
Proof. unfold emit_shift_by_reg32, emit_shift_dst_is_rcx. quiet. Qed.
Lemma quiet_shift64 d s o : quiet (emit_shift_by_reg64 d s o).
Proof. unfold emit_shift_by_reg64, emit_shift_dst_is_rcx. quiet. Qed.
Lemma quiet_rv_read rs d pc : quiet (rv_read rs d pc).
Proof. unfold rv_read. quiet. Qed.
Lemma quiet_rv_read_into rs d pc : quiet (rv_read_into rs d pc).
Proof. unfold rv_read_into. quiet. Qed.
Lemma quiet_rv_dst rd pc : quiet (rv_dst rd pc).
Proof. unfold rv_dst. quiet. Qed.
Lemma quiet_invalidate_dst rd : quiet (invalidate_dst rd).
Proof. unfold invalidate_dst. quiet. Qed.
Lemma quiet_host_opt rd : quiet (host_opt rd).
Proof. unfold host_opt. quiet. Qed.
Lemma quiet_snapshot d r1 r2 : quiet (snapshot_rs2 d r1 r2).
Proof. unfold snapshot_rs2. quiet. Qed.
Lemma quiet_away_from d r : quiet (away_from d r).
Proof. unfold away_from. quiet. Qed.
Lemma quiet_set_on rd d f cc : quiet (set_on rd d f cc).
Proof. unfold set_on. quiet. apply quiet_invalidate_dst. Qed.
Lemma quiet_apply_alu op d s : quiet (apply_alu_op op d s).
Proof. destruct op; cbn; quiet. Qed.
Lemma quiet_load_rs2 rs2 d : quiet (load_rs2 rs2 d).
Proof. unfold load_rs2. quiet. Qed.
Lemma quiet_addr rs1 imm pc : quiet (rv_addr_to_scratch rs1 imm pc).
Proof. unfold rv_addr_to_scratch. cbv zeta. quiet. Qed.
Lemma quiet_orc_b d s : quiet (emit_orc_b d s).
Proof. unfold emit_orc_b. quiet. Qed.
#[export] Hint Resolve quiet_emit_static_branch quiet_emit_branch_reg quiet_emit_cond_branch_to quiet_emit_mem_read
  quiet_emit_mem_write quiet_shift32 quiet_shift64 quiet_rv_read quiet_rv_read_into quiet_rv_dst quiet_invalidate_dst
  quiet_host_opt quiet_snapshot quiet_away_from quiet_set_on quiet_apply_alu quiet_load_rs2
  quiet_addr quiet_orc_b : quiet.

Lemma quiet_rv_lui rd imm pc : quiet (rv_lui rd imm pc).
Proof. unfold rv_lui. quiet. Qed.
Lemma quiet_rv_auipc rd imm pc : quiet (rv_auipc rd imm pc).
Proof. unfold rv_auipc. quiet. Qed.
Lemma quiet_rv_load rd rs1 imm w s pc : quiet (rv_load rd rs1 imm w s pc).
Proof. unfold rv_load. quiet. Qed.
Lemma quiet_rv_store rs1 rs2 imm w pc : quiet (rv_store rs1 rs2 imm w pc).
Proof. unfold rv_store. quiet. Qed.
Lemma quiet_rv_alu_imm rd rs1 imm op pc : quiet (rv_alu_imm rd rs1 imm op pc).
Proof. unfold rv_alu_imm. quiet. Qed.
Lemma quiet_rv_alu_rr rd rs1 rs2 op pc : quiet (rv_alu_rr rd rs1 rs2 op pc).
Proof. unfold rv_alu_rr, alu_rr_general. quiet. Qed.
Lemma quiet_rv_slt_imm rd rs1 imm s pc : quiet (rv_slt_imm rd rs1 imm s pc).
Proof. unfold rv_slt_imm. quiet. Qed.
Lemma quiet_rv_slt_rr rd rs1 rs2 s pc : quiet (rv_slt_rr rd rs1 rs2 s pc).
Proof. unfold rv_slt_rr, slt_rr_general. quiet. Qed.
Lemma quiet_rv_shift_imm rd rs1 sh op pc : quiet (rv_shift_imm rd rs1 sh op pc).
Proof. unfold rv_shift_imm. quiet. Qed.
Lemma quiet_rv_shift_rr rd rs1 rs2 op pc : quiet (rv_shift_rr rd rs1 rs2 op pc).
Proof. unfold rv_shift_rr. cbv zeta. quiet. Qed.
Lemma quiet_rv_mulh rd rs1 rs2 a b pc : quiet (rv_mulh rd rs1 rs2 a b pc).
Proof. unfold rv_mulh, mulhsu_correct. cbv zeta. quiet. Qed.
Lemma quiet_rv_div_rem rd rs1 rs2 s r w pc : quiet (rv_div_rem rd rs1 rs2 s r w pc).
Proof. unfold rv_div_rem, div_divisor, div_dividend, div_neg_one, div_hw. cbv zeta. quiet. Qed.
Lemma quiet_rv_unary rd rs1 op pc : quiet (rv_unary rd rs1 op pc).
Proof. unfold rv_unary, apply_unary. quiet. Qed.
Lemma quiet_rv_shadd rd rs1 rs2 k u pc : quiet (rv_shadd rd rs1 rs2 k u pc).
Proof. unfold rv_shadd. quiet. Qed.
Lemma quiet_rv_adduw rd rs1 rs2 pc : quiet (rv_adduw rd rs1 rs2 pc).
Proof. unfold rv_adduw. quiet. Qed.
Lemma quiet_rv_slliuw rd rs1 k pc : quiet (rv_slliuw rd rs1 k pc).
Proof. unfold rv_slliuw. quiet. Qed.
Lemma quiet_rv_bit_rr rd rs1 rs2 op pc : quiet (rv_bit_rr rd rs1 rs2 op pc).
Proof. unfold rv_bit_rr, apply_bit. quiet. Qed.
Lemma quiet_rv_bit_imm rd rs1 k op pc : quiet (rv_bit_imm rd rs1 k op pc).
Proof. unfold rv_bit_imm, apply_bit. cbv zeta. quiet. Qed.
Lemma quiet_rv_czero rd rs1 rs2 e pc : quiet (rv_czero rd rs1 rs2 e pc).
Proof. unfold rv_czero. quiet. Qed.
Lemma quiet_rv_jal rd imm pc np : quiet (rv_jal rd imm pc np).
Proof. unfold rv_jal. quiet. Qed.
Lemma quiet_rv_jalr rd rs1 imm pc np : quiet (rv_jalr rd rs1 imm pc np).
Proof. unfold rv_jalr, jalr_target, jalr_dispatch. quiet. Qed.
Lemma quiet_rv_branch rs1 rs2 imm cc pc : quiet (rv_branch rs1 rs2 imm cc pc).
Proof. unfold rv_branch. cbv zeta. quiet. Qed.
Lemma quiet_exit_with pc r a : quiet (exit_with pc r a).
Proof. unfold exit_with. quiet. Qed.
Lemma quiet_track_const rd imm : quiet (track_const rd imm).
Proof. unfold track_const. quiet. Qed.
Lemma quiet_track_shifted rd rs1 k : quiet (track_shifted rd rs1 k).
Proof. unfold track_shifted. quiet. Qed.
Lemma quiet_track_add rd rs1 rs2 : quiet (track_add_scaledadd rd rs1 rs2).
Proof. unfold track_add_scaledadd. quiet. Qed.
Lemma quiet_record_scaled rd rs1 rs2 k : quiet (record_scaledadd rd rs1 rs2 k).
Proof. unfold record_scaledadd. quiet. Qed.
Lemma quiet_emit_mul_pair s a b l h : quiet (emit_mul_pair s a b l h).
Proof. unfold emit_mul_pair. cbv zeta. quiet. Qed.
Lemma quiet_jal_spilled rd imm pc np : quiet (rv_jal_spilled rd imm pc np).
Proof. unfold rv_jal_spilled. cbv zeta. quiet. Qed.
Lemma quiet_jalr_spilled rd rs1 imm pc np : quiet (rv_jalr_spilled rd rs1 imm pc np).
Proof. unfold rv_jalr_spilled, jalr_target, jalr_dispatch. cbv zeta. quiet. Qed.
Lemma quiet_branch_spilled rs1 rs2 f3 imm pc : quiet (rv_branch_spilled rs1 rs2 f3 imm pc).
Proof. unfold rv_branch_spilled. cbv zeta. quiet. Qed.
#[export] Hint Resolve quiet_rv_lui quiet_rv_auipc quiet_rv_load quiet_rv_store quiet_rv_alu_imm quiet_rv_alu_rr
  quiet_rv_slt_imm quiet_rv_slt_rr quiet_rv_shift_imm quiet_rv_shift_rr quiet_rv_mulh quiet_rv_div_rem quiet_rv_unary
  quiet_rv_shadd quiet_rv_adduw quiet_rv_slliuw quiet_rv_bit_rr quiet_rv_bit_imm quiet_rv_czero quiet_rv_jal
  quiet_rv_jalr quiet_rv_branch quiet_exit_with quiet_track_const quiet_track_shifted quiet_track_add
  quiet_record_scaled quiet_emit_mul_pair quiet_jal_spilled quiet_jalr_spilled quiet_branch_spilled : quiet.

(** ** Feeding one instruction *)

Definition feed_meta (m : RvGasMeta) (v : GasView) : GasView :=
  if v_suppress v then v
  else mkView (v_pcs v) (v_stubs v) (fst (rv_feed_gas_direct m (v_sim v) (v_cycles v)))
         (saturating_add 32 (v_accum v) (rv_kind_reserve (kind m))) (v_suppress v) (v_cycles v).

Definition feed_inst (i : Inst) (v : GasView) : GasView := feed_meta (rv_gas_meta i) v.

(** The metadata a feed is made of. *)
Definition fed_as (kind rs1 rs2 rd : Z) (i : Inst) : Prop :=
  mkMeta kind (rv_slot_or_ff rs1) (rv_slot_or_ff rs2) (rv_slot_or_ff rd) = rv_gas_meta i.

Lemma feed_gas_rv_spec kind rs1 rs2 rd i c c' t :
  fed_as kind rs1 rs2 rd i -> feed_gas_rv kind rs1 rs2 rd c = Ret (c', t) ->
  gview c' = feed_inst i (gview c) /\ t = is_terminator i.
Proof.
  intros F E. unfold feed_gas_rv in E. cbv zeta in E. unfold feed_inst, feed_meta.
  rewrite <- (terminators_agree i (if suppress_gas c then sim_new else gas_sim c) (mem_cycles c)). rewrite <- F.
  unfold rv_feed_gas_direct. cbn [gview v_suppress GasCost.kind src1_slot src2_slot dst_slot v_sim v_cycles].
  destruct (suppress_gas c) eqn:Es.
  - injection E as <- <-. done.
  - destruct (rv_feed_gas_kind _ _ _ _ _ _) as [sim term]. injection E as <- <-.
    split; [|done]. unfold gview. cbn. by rewrite Es.
Qed.

(** The slot of a five-bit register number. *)
Lemma slot_of_field x : is_u 5 x -> rv_slot_or_ff x = rv_slot_u8 x.
Proof.
  intros Hx. refine (proj1 (Z.eqb_eq _ _) _).
  exact (all_words_spec 5 (fun x => rv_slot_or_ff x =? rv_slot_u8 x) x eq_refl Hx).
Qed.

(** A dispatcher that feeds exactly [i] and consumes nothing more. *)
Definition feeds (m : Cg Outcome) (i : Inst) : Prop :=
  forall c c' t cf e, m c = Ret (c', (t, cf, e)) ->
  gview c' = feed_inst i (gview c) /\ t = is_terminator i /\ e = 0.

Lemma feeds_then kind rs1 rs2 rd cf i : fed_as kind rs1 rs2 rd i -> feeds (feed_then kind rs1 rs2 rd cf) i.
Proof.
  intros F c c' t cf' e E. unfold feed_then, cbind in E.
  destruct (feed_gas_rv _ _ _ _ c) as [[c1 b]|] eqn:E1; [|done]. injection E as <- <- <- <-.
  destruct (feed_gas_rv_spec _ _ _ _ _ _ _ _ F E1). done.
Qed.

Lemma feeds_bind {A} (m : Cg A) k i : quiet m -> (forall x, feeds (k x) i) -> feeds (cbind m k) i.
Proof.
  intros Q F c c' t cf e E. unfold cbind in E. destruct (m c) as [[c1 x]|] eqn:E1; [|done].
  rewrite <- (Q _ _ _ E1). by apply (F x c1 c' t cf e).
Qed.

Lemma feeds_reserved pc raw : feeds (reserved_at pc) (Reserved raw).
Proof.
  apply feeds_bind; [auto with quiet|intros _]. intros c c' t cf e E. unfold cbind in E.
  destruct (feed_gas_rv _ _ _ _ c) as [[c1 b]|] eqn:E1; [|done]. injection E as <- <- <- <-.
  by destruct (feed_gas_rv_spec RV_KIND_RESERVED 0 0 0 (Reserved raw) _ _ _ eq_refl E1).
Qed.

(** The metadata of a concrete instruction. *)
Ltac fed_as := unfold fed_as; rewrite ?slot_of_field by first [assumption | done]; reflexivity.

(** A dispatcher against the decoder: the same cases on the same fields. *)
Ltac feeds :=
  repeat lazymatch goal with
    | |- feeds (reserved_at _) _ => apply feeds_reserved
    | |- feeds (feed_then _ _ _ _ _) _ => apply feeds_then; fed_as
    | |- feeds (cbind _ _) _ => apply feeds_bind; [solve [quiet]|intros ?]
    | |- feeds _ _ => case_match
    end.

Lemma feeds_store rs1 rs2 f3 w pc :
  is_u 5 rs1 -> is_u 5 rs2 -> feeds (compile_store rs1 rs2 f3 w pc) (decode_store w rs1 rs2 f3).
Proof. intros. unfold compile_store, decode_store. feeds. Qed.
Lemma feeds_op_imm rd rs1 f3 w pc :
  is_u 5 rd -> is_u 5 rs1 -> feeds (compile_op_imm rd rs1 f3 w pc) (decode_op_imm w rd rs1 f3).
Proof.
  intros. unfold compile_op_imm, decode_op_imm, rs2_field, field5. cbv zeta.
  generalize (Z.land (Z.shiftr w 20) 31) as r2, (Z.land (Z.shiftr w 20) 63) as sh, (Z.land (Z.shiftr w 26) 63) as ty, (imm_i w) as imm.
  intros. feeds.
Qed.
Lemma feeds_op_imm_32 rd rs1 f3 w pc :
  is_u 5 rd -> is_u 5 rs1 -> feeds (compile_op_imm_32 rd rs1 f3 w pc) (decode_op_imm_32 w rd rs1 f3).
Proof. intros. unfold compile_op_imm_32, decode_op_imm_32, rs2_field, field5. cbv zeta. feeds. Qed.
Lemma feeds_op rd rs1 rs2 f3 f7 w pc :
  is_u 5 rd -> is_u 5 rs1 -> is_u 5 rs2 -> feeds (compile_op_by rd rs1 rs2 f3 f7 pc) (decode_op rd rs1 rs2 f3 f7 w).
Proof. intros. unfold compile_op_by, decode_op. cbv zeta. feeds. Qed.
Lemma feeds_op_32 rd rs1 rs2 f3 f7 w pc :
  is_u 5 rd -> is_u 5 rs1 -> is_u 5 rs2 -> feeds (compile_op_32 rd rs1 rs2 f3 f7 pc) (decode_op_32 rd rs1 rs2 f3 f7 w).
Proof. intros. unfold compile_op_32, decode_op_32. cbv zeta. feeds. Qed.
Lemma feeds_custom_0 f3 w pc : feeds (compile_custom_0 f3 w pc) (decode_custom_0 w f3).
Proof. unfold compile_custom_0, decode_custom_0, rv_trap, rv_ecall_jar, rv_ecalli. cbv zeta. feeds. Qed.
Lemma feeds_branch rs1 rs2 f3 w pc :
  is_u 5 rs1 -> is_u 5 rs2 -> feeds (compile_branch rs1 rs2 f3 w pc) (decode_branch rs1 rs2 f3 (imm_b w) w).
Proof.
  intros. unfold compile_branch, decode_branch. destruct (branch_cc f3) eqn:E; unfold branch_cc in E.
  all: repeat (case_match; try discriminate E); feeds.
Qed.
Lemma feeds_jal rd imm w pc len : is_u 5 rd -> feeds (compile_jal rd w pc len) (Jal rd imm).
Proof. intros. unfold compile_jal. feeds. Qed.
Lemma feeds_jalr rd rs1 imm w pc len : is_u 5 rs1 -> feeds (compile_jalr rd rs1 w pc len) (Jalr rd rs1 imm).
Proof. intros. unfold compile_jalr. feeds. Qed.
Lemma feeds_auipc rd imm w pc : is_u 5 rd -> feeds (compile_auipc rd w pc) (Auipc rd imm).
Proof. intros. unfold compile_auipc. feeds. Qed.
Lemma feeds_fence : feeds (feed_gas_rv RV_KIND_FENCE 0 0 0 ;% cret (false, false, 0)) Fence.
Proof.
  intros c c' t cf e E. unfold cbind in E. destruct (feed_gas_rv _ _ _ _ c) as [[c1 b]|] eqn:E1; [|done].
  injection E as <- <- <- <-. by destruct (feed_gas_rv_spec RV_KIND_FENCE 0 0 0 Fence _ _ _ eq_refl E1).
Qed.

(** ** Fields of a word *)

(** A field inside a mask is determined by the masked word. *)
Lemma field_of_mask w mask v k m :
  0 <= k -> Z.land w mask = v -> Z.land mask (Z.shiftl m k) = Z.shiftl m k ->
  Z.land (Z.shiftr w k) m = Z.shiftr (Z.land v (Z.shiftl m k)) k.
Proof.
  intros Hk <- Hm. rewrite <- Z.land_assoc, Hm, Z.shiftr_land, Z.shiftr_shiftl_l by lia.
  by rewrite Z.sub_diag, Z.shiftl_0_r.
Qed.

Lemma field5_range w k : is_u 5 (field5 w k).
Proof. unfold field5. change 0x1F with (2 ^ 5 - 1). rewrite land_ones' by lia. by apply wrap_range. Qed.

Lemma testbit_31 j : 0 <= j -> Z.testbit 31 j = (j <? 5).
Proof. intros. change 31 with (Z.ones 5). apply Z.testbit_ones_nonneg; lia. Qed.

Lemma set_field_same w k v : 0 <= k -> is_u 5 v -> field5 (set_field true w k v) k = v.
Proof.
  intros Hk Hv. unfold field5, set_field. apply Z.bits_inj'. intros j Hj.
  rewrite Z.land_spec, Z.shiftr_spec, Z.lor_spec, Z.ldiff_spec, !Z.shiftl_spec, testbit_31 by lia.
  replace (j + k - k) with j by lia. rewrite testbit_31 by lia.
  destruct (Z.ltb_spec j 5); cbn; [by rewrite andb_false_r, andb_true_r|].
  rewrite andb_false_r. symmetry. apply (testbit_high 5); [done|lia].
Qed.

Lemma testbit_set_field b w k v j :
  0 <= k -> 0 <= j -> is_u 5 v -> (j < k \/ k + 5 <= j) -> Z.testbit (set_field b w k v) j = Z.testbit w j.
Proof.
  intros Hk Hj Hv Hd. destruct b; [|done]. unfold set_field.
  rewrite Z.lor_spec, Z.ldiff_spec, !Z.shiftl_spec by lia. destruct Hd as [Hd|Hd].
  - rewrite !(Z.testbit_neg_r _ (j - k)) by lia. by rewrite orb_false_r, andb_true_r.
  - rewrite testbit_31 by lia. rewrite (proj2 (Z.ltb_ge _ _)) by lia. rewrite (testbit_high 5 v) by (done || lia).
    by rewrite orb_false_r, andb_true_r.
Qed.

Lemma set_field_other b w k v j :
  0 <= k -> 0 <= j -> is_u 5 v -> (j + 5 <= k \/ k + 5 <= j) -> field5 (set_field b w k v) j = field5 w j.
Proof.
  intros Hk Hj Hv Hd. unfold field5. apply Z.bits_inj'. intros n Hn.
  rewrite !Z.land_spec, !Z.shiftr_spec, testbit_31 by lia.
  destruct (Z.ltb_spec n 5); [|by rewrite !andb_false_r]. rewrite testbit_set_field by (done || lia). done.
Qed.

Lemma set_field_opcode b w k v : 7 <= k -> is_u 5 v -> Z.land (set_field b w k v) 0x7F = Z.land w 0x7F.
Proof.
  intros Hk Hv. apply Z.bits_inj'. intros n Hn. rewrite !Z.land_spec.
  change 0x7F with (Z.ones 7). rewrite Z.testbit_ones_nonneg by lia.
  destruct (Z.ltb_spec n 7); [|by rewrite !andb_false_r]. rewrite testbit_set_field by (done || lia). done.
Qed.

(** ** Lookahead *)

Definition alu_inst (op : AluOp) (rd rs1 rs2 : Z) : Inst :=
  match op with
  | Alu_Add => Add rd rs1 rs2
  | Alu_Xor => Xor rd rs1 rs2
  | Alu_Or => Or rd rs1 rs2
  | Alu_And => And rd rs1 rs2
  | _ => Reserved 0
  end.

Definition fusable (op : AluOp) : Prop := op = Alu_Add \/ op = Alu_Xor \/ op = Alu_Or \/ op = Alu_And.

(** A word with major opcode [OP], from its masked bits. *)
Lemma masked_op w v f3 f7 :
  Z.land w 0xFE00707F = v -> v = 0x33 + 0x1000 * f3 + 0x2000000 * f7 -> is_u 3 f3 -> is_u 7 f7 ->
  Z.land w 3 = 3 /\ field5 w 2 = OP_OP /\ Z.land (Z.shiftr w 12) 7 = f3 /\ Z.land (Z.shiftr w 25) 0x7F = f7.
Proof.
  intros E Hv H3 H7.
  assert (Z.land w 3 = Z.land v 3) as ->.
  { rewrite <- E, <- Z.land_assoc. done. }
  unfold field5. rewrite !(field_of_mask w 0xFE00707F v) by (done || lia).
  change 3 with (Z.ones 2). change (Z.shiftl 31 2) with 0x7C. change (Z.shiftl 7 12) with 0x7000.
  change (Z.shiftl 0x7F 25) with 0xFE000000. clear E.
  assert (all_words 10 0 (fun x => let f3 := Z.land x 7 in let f7 := Z.shiftr x 3 in
    let v := 0x33 + 0x1000 * f3 + 0x2000000 * f7 in
    (Z.land v (Z.ones 2) =? 3) && (Z.shiftr (Z.land v 0x7C) 2 =? OP_OP) && (Z.shiftr (Z.land v 0x7000) 12 =? f3)
    && (Z.shiftr (Z.land v 0xFE000000) 25 =? f7)) = true) as A by (vm_compute; reflexivity).
  pose proof (all_words_spec 10 _ (8 * f7 + f3) A ltac:(unfold is_u in *; lia)) as B. cbv zeta beta in B.
  assert (Z.land (8 * f7 + f3) 7 = f3) as E3.
  { change 7 with (2 ^ 3 - 1) at 1. rewrite land_ones' by lia. unfold is_u in *. dlia. }
  assert (Z.shiftr (8 * f7 + f3) 3 = f7) as E7.
  { rewrite Z.shiftr_div_pow2 by lia. unfold is_u in *. dlia. }
  rewrite E3, E7 in B. subst v. rewrite !andb_true_iff, !Z.eqb_eq in B. tauto.
Qed.

(** What the interpreter decodes a word to. *)
Definition inst_of (w : Z) : Inst := if word_uses_reserved_reg w then Reserved w else decode_32 w.

Lemma land_3 x : Z.land x 3 = x mod 4.
Proof. change 3 with (2 ^ 2 - 1). by rewrite land_ones' by lia. Qed.

Lemma inst_of_word b0 b1 b2 b3 rest :
  Z.land b0 3 = 3 -> decode (b0 :: b1 :: b2 :: b3 :: rest) = Some (inst_of (from_le_bytes [b0; b1; b2; b3]), 4).
Proof.
  intros E. unfold decode. rewrite land_3 in *. cbn [from_le_bytes].
  replace ((b0 + 256 * (b1 + 256 * 0)) mod 4) with 3 by dlia. cbn [Z.eqb Pos.eqb negb].
  by rewrite reserve_word.
Qed.

Lemma inst_of_half b0 b1 rest :
  Z.land b0 3 <> 3 ->
  decode (b0 :: b1 :: rest) = Some (reserve_if_reserved_reg (decompress (from_le_bytes [b0; b1])) (from_le_bytes [b0; b1]), 2).
Proof.
  intros E. unfold decode. rewrite land_3 in *. cbn [from_le_bytes].
  replace ((b0 + 256 * (b1 + 256 * 0)) mod 4) with (b0 mod 4) by dlia.
  by destruct (Z.eqb_spec (b0 mod 4) 3).
Qed.

(** A register operation names its three fields. *)
Lemma decode_32_op w f3 f7 :
  Z.land w 3 = 3 -> field5 w 2 = OP_OP -> Z.land (Z.shiftr w 12) 7 = f3 -> Z.land (Z.shiftr w 25) 0x7F = f7 ->
  decode_32 w = decode_op (field5 w 7) (field5 w 15) (field5 w 20) f3 f7 w /\
  word_uses_reserved_reg w = reg_is_reserved (field5 w 7) || reg_is_reserved (field5 w 15) || reg_is_reserved (field5 w 20).
Proof.
  intros E Eo <- <-. unfold field5 in *. split.
  - unfold decode_32. rewrite E, Eo. reflexivity.
  - unfold word_uses_reserved_reg, word_reg_class_hits. by rewrite (opcode_of_major w OP_OP E Eo).
Qed.

Lemma peek_rr4_spec w op rd rs1 rs2 n :
  peek_rr4 w = Some (op, rd, rs1, rs2, n) ->
  fusable op /\ n = 4 /\ is_u 5 rd /\ is_u 5 rs1 /\ is_u 5 rs2 /\ decode_32 w = alu_inst op rd rs1 rs2 /\
  word_uses_reserved_reg w = reg_is_reserved rd || reg_is_reserved rs1 || reg_is_reserved rs2.
Proof.
  intros E. unfold peek_rr4 in E. cbv zeta in E.
  remember (Z.land w 0xFE00707F) as v eqn:Ev. symmetry in Ev.
  assert (exists f3, is_u 3 f3 /\ v = 0x33 + 0x1000 * f3 + 0x2000000 * 0 /\
    Some (op, rd, rs1, rs2, n) = Some (op, field5 w 7, field5 w 15, field5 w 20, 4) /\ fusable op /\
    decode_op (field5 w 7) (field5 w 15) (field5 w 20) f3 0 w = alu_inst op (field5 w 7) (field5 w 15) (field5 w 20))
    as (f3 & H3 & Hv & Eq & Ho & Hd).
  { repeat (case_match; try discriminate E); injection E as <- <- <- <- <-.
    all: unfold fusable, is_u; first [exists 0; solve [repeat split; first [lia | tauto | done]]
      | exists 4; solve [repeat split; first [lia | tauto | done]] | exists 6; solve [repeat split; first [lia | tauto | done]]
      | exists 7; solve [repeat split; first [lia | tauto | done]]]. }
  injection Eq as -> -> -> ->. destruct (masked_op w v f3 0 Ev Hv H3 ltac:(unfold is_u; lia)) as (A & B & C & D).
  destruct (decode_32_op w f3 0 A B C D) as [X Y]. rewrite X, Y.
  repeat split; try done; apply field5_range.
Qed.

Definition is_alu_inst (i : Inst) (op : AluOp) (rd rs1 rs2 : Z) : bool :=
  match op, i with
  | Alu_Add, Add a b c | Alu_Xor, Xor a b c | Alu_Or, Or a b c | Alu_And, And a b c => (a =? rd) && (b =? rs1) && (c =? rs2)
  | _, _ => false
  end.

Lemma is_alu_inst_spec i op rd rs1 rs2 : is_alu_inst i op rd rs1 rs2 = true -> fusable op /\ i = alu_inst op rd rs1 rs2.
Proof.
  destruct op, i; cbn; try discriminate; rewrite !andb_true_iff, !Z.eqb_eq; intros [[-> ->] ->];
    unfold fusable; tauto.
Qed.

Definition u5 (x : Z) : bool := (0 <=? x) && (x <? 32).

Definition peek2_ok (h : Z) : bool :=
  match peek_rr2 h with
  | Some (op, rd, rs1, rs2, n) => (n =? 2) && is_alu_inst (decompress h) op rd rs1 rs2 && u5 rd && u5 rs1 && u5 rs2
  | None => true
  end.

Lemma peek2_ok_all : all_words 16 0 peek2_ok = true.
Proof. vm_compute. reflexivity. Qed.

Lemma u5_spec x : u5 x = true -> is_u 5 x.
Proof. unfold u5, is_u. rewrite andb_true_iff, Z.leb_le, Z.ltb_lt. done. Qed.

Lemma bytes_half b0 b1 : is_u 8 b0 -> is_u 8 b1 -> is_u 16 (from_le_bytes [b0; b1]).
Proof. unfold is_u. cbn. lia. Qed.

Lemma peek_spec rest op rd rs1 rs2 n :
  Forall (is_u 8) rest -> peek_alu_rr_trailer rest = Some (op, rd, rs1, rs2, n) ->
  fusable op /\ is_u 5 rd /\ is_u 5 rs1 /\ is_u 5 rs2 /\
  (reg_is_reserved rd || reg_is_reserved rs1 || reg_is_reserved rs2 = false ->
   decode rest = Some (alu_inst op rd rs1 rs2, n)).
Proof.
  intros Hb E. destruct rest as [|b0 [|b1 tail]]; [done..|]. cbn [peek_alu_rr_trailer] in E.
  destruct (Z.eqb_spec (Z.land b0 3) 3) as [H3|H3].
  - destruct tail as [|b2 [|b3 tail]]; [done..|].
    destruct (peek_rr4_spec _ _ _ _ _ _ E) as (Ho & -> & Hd & H1 & H2 & Hi & Hr).
    repeat (split; [done|]). intros R. rewrite inst_of_word by done. unfold inst_of. by rewrite Hr, R, Hi.
  - inversion Hb as [|? ? B0 Hb']; subst. inversion Hb' as [|? ? B1 _]; subst.
    pose proof (all_words_spec 16 _ _ peek2_ok_all (bytes_half b0 b1 B0 B1)) as K. unfold peek2_ok in K.
    rewrite E, !andb_true_iff in K. destruct K as [[[[Kn Ki] Kd] K1] K2]. apply Z.eqb_eq in Kn as ->.
    apply is_alu_inst_spec in Ki as [Ho Ki]. repeat (split; [auto using u5_spec|]). intros R.
    rewrite inst_of_half by done. unfold reserve_if_reserved_reg. rewrite Ki.
    destruct Ho as [-> | [-> | [-> | ->]]]; cbn [alu_inst uses_reserved_reg] in *; by rewrite R.
Qed.

(** ** Two instructions fed at once *)

(** The instruction alone, or it and the one that follows, neither ending the block. *)
Definition feeds_one_or_two (m : Cg Outcome) (i : Inst) (rest : list Z) : Prop :=
  forall c c' t cf e, m c = Ret (c', (t, cf, e)) ->
  (gview c' = feed_inst i (gview c) /\ t = is_terminator i /\ e = 0) \/
  (exists i2, decode rest = Some (i2, e) /\ is_terminator i = false /\ is_terminator i2 = false /\ t = false /\
     gview c' = feed_inst i2 (feed_inst i (gview c))).

Lemma feeds_is_one m i rest : feeds m i -> feeds_one_or_two m i rest.
Proof. intros H c c' t cf e E. left. by apply (H c c' t cf e). Qed.

Lemma terminator_alu op rd rs1 rs2 : fusable op -> is_terminator (alu_inst op rd rs1 rs2) = false.
Proof. by intros [-> | [-> | [-> | ->]]]. Qed.

(** A computation that feeds [i] and returns anything. *)
Definition feeds_to {A} (m : Cg A) (i : Inst) : Prop :=
  forall c c' x, m c = Ret (c', x) -> gview c' = feed_inst i (gview c).

Lemma feed_gas_rv_feeds kind rs1 rs2 rd i : fed_as kind rs1 rs2 rd i -> feeds_to (feed_gas_rv kind rs1 rs2 rd) i.
Proof. intros F c c' t E. by destruct (feed_gas_rv_spec _ _ _ _ _ _ _ _ F E). Qed.

Lemma quiet_then {A B} (m : Cg A) (k : A -> Cg B) (c c' : Compiler) x :
  quiet m -> cbind m k c = Ret (c', x) -> exists c1 y, k y c1 = Ret (c', x) /\ gview c1 = gview c.
Proof.
  intros Q E. unfold cbind in E. destruct (m c) as [[c1 y]|] eqn:E1; [|done].
  exists c1, y. split; [done|]. by apply (Q c c1 y).
Qed.

Lemma feeds_then_bind {A B} (m : Cg A) (k : A -> Cg B) i (c c' : Compiler) x :
  feeds_to m i -> cbind m k c = Ret (c', x) -> exists c1 y, k y c1 = Ret (c', x) /\ gview c1 = feed_inst i (gview c).
Proof.
  intros F E. unfold cbind in E. destruct (m c) as [[c1 y]|] eqn:E1; [|done].
  exists c1, y. split; [done|]. by apply (F c c1 y).
Qed.

Lemma fed_alu op rd rs1 rs2 :
  fusable op -> is_u 5 rd -> is_u 5 rs1 -> is_u 5 rs2 -> fed_as RV_KIND_ADD rs1 rs2 rd (alu_inst op rd rs1 rs2).
Proof. intros [-> | [-> | [-> | ->]]] ? ? ?; cbn [alu_inst]; fed_as. Qed.

(** Two feeds with quiet work around them. *)
Lemma feeds_two {A B D F : Type} (m1 : Cg A) (f1 : Cg B) (m2 : Cg D) (f2 : Cg F) (o : Outcome) i1 i2 (c c' : Compiler) x :
  quiet m1 -> feeds_to f1 i1 -> quiet m2 -> feeds_to f2 i2 ->
  (m1 ;% f1 ;% m2 ;% f2 ;% cret o) c = Ret (c', x) ->
  gview c' = feed_inst i2 (feed_inst i1 (gview c)) /\ x = o.
Proof.
  intros Q1 F1 Q2 F2 E.
  destruct (quiet_then _ _ _ _ _ Q1 E) as (c1 & ? & E1 & <-).
  destruct (feeds_then_bind _ _ _ _ _ _ F1 E1) as (c2 & ? & E2 & <-).
  destruct (quiet_then _ _ _ _ _ Q2 E2) as (c3 & ? & E3 & <-).
  destruct (feeds_then_bind _ _ _ _ _ _ F2 E3) as (c4 & ? & E4 & <-).
  by injection E4 as <- <-.
Qed.

Lemma cbind_assoc {A B D} (m : Cg A) (k : A -> Cg B) (h : B -> Cg D) c :
  cbind (cbind m k) h c = cbind m (fun x => cbind (k x) h) c.
Proof. unfold cbind. by destruct (m c) as [[]|]. Qed.

Lemma load_shape_feeds w rd rs1 f3 p :
  is_u 5 rd -> is_u 5 rs1 -> load_shape f3 = Some p ->
  feeds_to (feed_gas_rv RV_KIND_LOAD rs1 0 rd) (decode_load w rd rs1 f3) /\
  is_terminator (decode_load w rd rs1 f3) = false /\
  feeds (feed_then RV_KIND_LOAD rs1 0 rd false) (decode_load w rd rs1 f3).
Proof.
  intros ? ? Es. unfold load_shape, decode_load in *. repeat (case_match; try discriminate Es).
  all: split; [apply feed_gas_rv_feeds; fed_as|]. all: split; [done|feeds].
Qed.

Lemma feeds_load rd rs1 f3 w pc rest :
  is_u 5 rd -> is_u 5 rs1 -> Forall (is_u 8) rest ->
  feeds_one_or_two (compile_load rd rs1 f3 w pc rest) (decode_load w rd rs1 f3) rest.
Proof.
  intros Hd H1 Hb c c' t cf e E. unfold compile_load in E. cbv zeta in E.
  destruct (load_shape f3) as [[width signed]|] eqn:Es.
  2: { left. unfold load_shape, decode_load in *. repeat (case_match; try discriminate Es); exact (feeds_reserved pc w c c' t cf e E). }
  destruct (load_shape_feeds w rd rs1 f3 _ Hd H1 Es) as (F & T & F').
  destruct (ld_fusion rd rs1 width rest) as [[[[[op ard] ars1] ars2] n]|] eqn:Ef.
  - right. unfold ld_fusion in Ef.
    destruct (peek_alu_rr_trailer rest) as [[[[[op' ard'] ars1'] ars2'] n']|] eqn:Ep; [|by destruct (_ && _ && _ && _)].
    destruct (peek_spec _ _ _ _ _ _ Hb Ep) as (Ho & K1 & K2 & K3 & Kd).
    repeat (case_match; try discriminate Ef). injection Ef as -> -> -> -> ->. exists (alu_inst op ard ars1 ars2).
    assert (reg_is_reserved ard || reg_is_reserved ars1 || reg_is_reserved ars2 = false) as R.
    { rewrite !andb_true_iff, !negb_true_iff in *.
      repeat match goal with H : _ /\ _ |- _ => destruct H end.
      repeat match goal with H : (?x =? 0) || negb _ = true |- _ => apply orb_true_iff in H; rewrite negb_true_iff, Z.eqb_eq in H end.
      rewrite !orb_false_iff. repeat split; [done|naive_solver..]. }
    rewrite (Kd R). pose proof (terminator_alu op ard ars1 ars2 Ho) as T2.
    assert (gview c' = feed_inst (alu_inst op ard ars1 ars2) (feed_inst (decode_load w rd rs1 f3) (gview c)) /\
            (t, cf, e) = (false, is_add op, n)) as [G X]; [|by injection X as -> -> ->].
    refine (feeds_two (rv_load rd rs1 (imm_i w) 8 false pc) (feed_gas_rv RV_KIND_LOAD rs1 0 rd)
      (rv_alu_rr ard ars1 ars2 op (wrap 32 (pc + 4)) ;% when (is_add op && negb (ard =? ars1) && negb (ard =? ars2))
         (track_add_scaledadd ard ars1 ars2)) (feed_gas_rv RV_KIND_ADD ars1 ars2 ard) _ _ _ c c' _ _ _ _ _ _).
    + auto with quiet.
    + exact F.
    + quiet.
    + apply feed_gas_rv_feeds. by apply fed_alu.
    + refine (eq_trans _ E). unfold cbind. destruct (rv_load _ _ _ _ _ _ c) as [[c1 ?]|]; [|done].
      destruct (feed_gas_rv _ _ _ _ c1) as [[c2 ?]|]; [|done]. by destruct (rv_alu_rr _ _ _ _ _ c2) as [[c3 ?]|].
  - left. refine (feeds_bind _ _ _ _ _ c c' t cf e E); [auto with quiet|]. intros _. exact F'.
Qed.

Lemma lui_fusion_spec rd rest other a1 a2 n :
  is_u 5 rd -> Forall (is_u 8) rest -> lui_fusion rd rest = Some (other, a1, a2, n) ->
  decode rest = Some (Add rd a1 a2, n) /\ is_u 5 a1 /\ is_u 5 a2.
Proof.
  intros Hd Hb E. unfold lui_fusion in E.
  destruct (negb (rd =? 0) && negb (reg_is_reserved rd)) eqn:Er; [|done].
  destruct (peek_alu_rr_trailer rest) as [[[[[op ard] ars1] ars2] n']|] eqn:Ep; [|done].
  destruct (peek_spec _ _ _ _ _ _ Hb Ep) as (Ho & K1 & K2 & K3 & Kd).
  apply andb_true_iff in Er as [_ Er]. apply negb_true_iff in Er.
  assert (forall x, (x =? 0) || negb (reg_is_reserved x) = true -> reg_is_reserved x = false) as Z0.
  { intros x Hx. apply orb_true_iff in Hx as [Hx|Hx]; [apply Z.eqb_eq in Hx as ->; done|by apply negb_true_iff]. }
  destruct (is_add op && (ard =? rd)) eqn:Ea; [|done]. apply andb_true_iff in Ea as [Ea Ed]. apply Z.eqb_eq in Ed as ->.
  destruct op; try done. cbn [alu_inst] in Kd.
  destruct (Z.eqb_spec ars1 rd) as [->|].
  - destruct ((ars2 =? 0) || negb (reg_is_reserved ars2)) eqn:E2; [|done]. injection E as <- <- <- <-.
    rewrite Kd; [done|]. by rewrite Er, (Z0 _ E2).
  - destruct (Z.eqb_spec ars2 rd) as [->|]; [|done].
    destruct ((ars1 =? 0) || negb (reg_is_reserved ars1)) eqn:E1; [|done]. injection E as <- <- <- <-.
    rewrite Kd; [done|]. by rewrite Er, (Z0 _ E1).
Qed.

Lemma feeds_lui rd w pc rest imm :
  is_u 5 rd -> Forall (is_u 8) rest -> feeds_one_or_two (compile_lui rd w pc rest) (Lui rd imm) rest.
Proof.
  intros Hd Hb c c' t cf e E. unfold compile_lui in E. cbv zeta in E.
  destruct (lui_fusion rd rest) as [[[[other a1] a2] n]|] eqn:Ef.
  - right. destruct (lui_fusion_spec _ _ _ _ _ _ Hd Hb Ef) as (D & H1 & H2). exists (Add rd a1 a2). rewrite D.
    set (m := let%? d := rv_dst rd pc in if other =? 0 then put (mov_ri64 d (wrap 64 (imm_u w))) ;% track_const rd (imm_u w)
      else let% base := host_reg other in put (lea d base (imm_u w)) ;% invalidate_rd rd) in E.
    assert (gview c' = feed_inst (Add rd a1 a2) (feed_inst (Lui rd imm) (gview c)) /\ (t, cf, e) = (false, false, n))
      as [G X]; [|by injection X as -> -> ->].
    refine (feeds_two m (feed_gas_rv RV_KIND_LUI 0 0 rd) (cret tt) (feed_gas_rv RV_KIND_ADD a1 a2 rd) _ _ _ c c' _ _ _ _ _ _).
    + unfold m. quiet.
    + apply feed_gas_rv_feeds. fed_as.
    + auto with quiet.
    + apply feed_gas_rv_feeds. fed_as.
    + refine (eq_trans _ E). unfold cbind. destruct (m c) as [[c1 ?]|]; [|done]. by destruct (feed_gas_rv _ _ _ _ c1) as [[]|].
  - left. refine (feeds_bind _ _ _ _ _ c c' t cf e E); [auto with quiet|]. intros _. feeds.
Qed.

Lemma mul_pair_spec rd rs1 rs2 rest signed u_rd s1 s2 l h :
  mul_pair rd rs1 rs2 rest = Some (signed, u_rd, s1, s2, l, h) ->
  is_u 5 u_rd /\ decode rest = Some (if signed then Mulh u_rd rs1 rs2 else Mulhu u_rd rs1 rs2, 4).
Proof.
  intros E. destruct rest as [|b0 [|b1 [|b2 [|b3 rest]]]]; try done. unfold mul_pair in E. cbv zeta in E.
  set (w2 := from_le_bytes [b0; b1; b2; b3]) in *. remember (Z.land w2 0xFE00707F) as v eqn:Ev. symmetry in Ev.
  set (pair := mul_second rd rs1 rs2 w2) in E.
  assert (exists f3, is_u 3 f3 /\ v = 0x33 + 0x1000 * f3 + 0x2000000 * 1 /\ pair signed = Some (signed, u_rd, s1, s2, l, h) /\
    decode_op (field5 w2 7) (field5 w2 15) (field5 w2 20) f3 1 w2
      = (if signed then Mulh (field5 w2 7) (field5 w2 15) (field5 w2 20) else Mulhu (field5 w2 7) (field5 w2 15) (field5 w2 20)))
    as (f3 & H3 & Hv & Hp & Hd).
  { assert (forall b, pair b = Some (signed, u_rd, s1, s2, l, h) -> b = signed) as Hs.
    { intros b. unfold pair, mul_second. repeat case_match; congruence. }
    repeat (case_match; try discriminate E); pose proof (Hs _ E); subst signed.
    all: first [exists 1; solve [unfold is_u; repeat split; (lia || done)] | exists 3; unfold is_u; repeat split; (lia || done)]. }
  destruct (masked_op w2 v f3 1 Ev Hv H3 ltac:(unfold is_u; lia)) as (A & B & C & D).
  destruct (decode_32_op w2 f3 1 A B C D) as [X Y]. unfold pair, mul_second in Hp. cbv zeta in Hp.
  destruct (negb (field5 w2 15 =? rs1) || negb (field5 w2 20 =? rs2) || (field5 w2 7 =? rd)) eqn:N; [done|].
  rewrite !orb_false_iff, !negb_false_iff, !Z.eqb_eq in N. destruct N as [[<- <-] _].
  destruct (reg_is_reserved rd || reg_is_reserved (field5 w2 7)) eqn:R1; [done|].
  destruct (reg_is_reserved (field5 w2 15) || reg_is_reserved (field5 w2 20)) eqn:R2; [done|].
  assert (u_rd = field5 w2 7) as -> by (repeat (case_match; try discriminate Hp); congruence).
  split; [apply field5_range|]. rewrite inst_of_word.
  - fold w2. unfold inst_of. apply orb_false_iff in R1 as [_ R1]. apply orb_false_iff in R2 as [R2 R3].
    by rewrite Y, R1, R2, R3, X, Hd.
  - rewrite land_3 in *. unfold w2 in A. cbn [from_le_bytes] in A. dlia.
Qed.

Lemma feeds_compile_op rd rs1 rs2 f3 f7 w pc rest :
  is_u 5 rd -> is_u 5 rs1 -> is_u 5 rs2 ->
  feeds_one_or_two (compile_op rd rs1 rs2 f3 f7 pc rest) (decode_op rd rs1 rs2 f3 f7 w) rest.
Proof.
  intros Hd H1 H2 c c' t cf e E. unfold compile_op in E.
  destruct ((f7 =? 1) && (f3 =? 0)) eqn:Em.
  2: { left. exact (feeds_op rd rs1 rs2 f3 f7 w pc Hd H1 H2 c c' t cf e E). }
  apply andb_true_iff in Em as [->%Z.eqb_eq ->%Z.eqb_eq]. unfold try_fuse_mul_pair_bytes in E.
  destruct (mul_pair rd rs1 rs2 rest) as [[[[[[signed u_rd] s1] s2] l] h]|] eqn:Ep.
  2: { left. exact (feeds_op rd rs1 rs2 0 1 w pc Hd H1 H2 c c' t cf e E). }
  right. destruct (mul_pair_spec _ _ _ _ _ _ _ _ _ _ Ep) as [Hu D]. rewrite D.
  exists (if signed then Mulh u_rd rs1 rs2 else Mulhu u_rd rs1 rs2).
  set (m := emit_mul_pair _ _ _ _ _) in E.
  assert (gview c' = feed_inst (if signed then Mulh u_rd rs1 rs2 else Mulhu u_rd rs1 rs2) (feed_inst (Mul rd rs1 rs2) (gview c))
    /\ (t, cf, e) = (false, false, 4)) as [G X].
  2: { injection X as -> -> ->. destruct signed; repeat split; done. }
  refine (feeds_two (m ;% invalidate_reg l ;% invalidate_reg h ;% set_last_add_cf None) (feed_gas_rv RV_KIND_MUL rs1 rs2 rd)
    (cret tt) (feed_gas_rv RV_KIND_MULH rs1 rs2 u_rd) _ _ _ c c' _ _ _ _ _ _).
  - unfold m. quiet.
  - apply feed_gas_rv_feeds. fed_as.
  - auto with quiet.
  - apply feed_gas_rv_feeds. destruct signed; fed_as.
  - refine (eq_trans _ E). unfold cbind. destruct (m c) as [[c1 ?]|]; [|done].
    destruct (invalidate_reg l c1) as [[c2 ?]|]; [|done]. destruct (invalidate_reg h c2) as [[c3 ?]|]; [|done].
    destruct (set_last_add_cf None c3) as [[c4 ?]|]; [|done]. destruct (feed_gas_rv _ _ _ _ c4) as [[c5 ?]|]; [|done].
    unfold cret. by destruct (feed_gas_rv RV_KIND_MULH _ _ _ c5) as [[]|].
Qed.

(** ** The dispatcher *)

(** The recompiler takes every MISC-MEM word for a fence; the decoder knows two. *)
Definition fence_ok (w : Z) : bool := negb (field5 w 2 =? OP_MISC_MEM) || (Z.land (Z.shiftr w 12) 7 <? 2).

Lemma feeds_misc_mem w rest :
  field5 w 2 = OP_MISC_MEM -> fence_ok w = true ->
  feeds_one_or_two (feed_gas_rv RV_KIND_FENCE 0 0 0 ;% cret (false, false, 0)) (decode_misc_mem (Z.land (Z.shiftr w 12) 7)) rest.
Proof.
  intros Eo F. apply feeds_is_one. unfold fence_ok in F. rewrite Eo in F. cbn [negb orb Z.eqb OP_MISC_MEM Pos.eqb] in F.
  apply Z.ltb_lt in F. assert (0 <= Z.land (Z.shiftr w 12) 7).
  { change 7 with (2 ^ 3 - 1). rewrite land_ones' by lia. apply Z.mod_pos_bound. lia. }
  assert (Z.land (Z.shiftr w 12) 7 = 0 \/ Z.land (Z.shiftr w 12) 7 = 1) as [-> | ->] by lia; exact feeds_fence.
Qed.

Lemma feeds_plain redispatch w pc len rest :
  Z.land w 3 = 3 -> word_uses_spilled_reg w = false -> fence_ok w = true -> Forall (is_u 8) rest ->
  feeds_one_or_two (compile_rv4_body redispatch w pc len rest) (inst_of w) rest.
Proof.
  intros H3 Hs Hf Hb. unfold compile_rv4_body, inst_of. cbv zeta.
  destruct (word_uses_reserved_reg w); [apply feeds_is_one, feeds_reserved|]. rewrite Hs.
  unfold decode_32. rewrite H3. cbv zeta. change (negb (3 =? 3)) with false. cbv iota.
  fold (field5 w 2) (field5 w 7) (field5 w 15) (field5 w 20).
  pose proof (field5_range w 7). pose proof (field5_range w 15). pose proof (field5_range w 20).
  destruct (field5 w 2 =? OP_LOAD); [by apply feeds_load|].
  destruct (field5 w 2 =? OP_STORE); [by apply feeds_is_one, feeds_store|].
  destruct (field5 w 2 =? OP_IMM); [by apply feeds_is_one, feeds_op_imm|].
  destruct (field5 w 2 =? OP_OP_IMM_32); [by apply feeds_is_one, feeds_op_imm_32|].
  destruct (field5 w 2 =? OP_OP); [by apply feeds_compile_op|].
  destruct (field5 w 2 =? OP_OP_32); [by apply feeds_is_one, feeds_op_32|].
  destruct (field5 w 2 =? OP_LUI); [by apply feeds_lui|].
  destruct (field5 w 2 =? OP_AUIPC); [by apply feeds_is_one, feeds_auipc|].
  destruct (field5 w 2 =? OP_JAL); [by apply feeds_is_one, feeds_jal|].
  destruct ((field5 w 2 =? OP_JALR) && _); [by apply feeds_is_one, feeds_jalr|].
  destruct (field5 w 2 =? OP_BRANCH); [by apply feeds_is_one, feeds_branch|].
  destruct (Z.eqb_spec (field5 w 2) OP_MISC_MEM) as [Em|_].
  { rewrite Em. change (OP_MISC_MEM =? OP_CUSTOM_0) with false. cbv iota. by apply feeds_misc_mem. }
  destruct (field5 w 2 =? OP_CUSTOM_0); [apply feeds_is_one, feeds_custom_0|apply feeds_is_one, feeds_reserved].
Qed.

(** ** The spill path *)

(** Quiet while the feed is suppressed. *)
Definition hush {A} (m : Cg A) : Prop :=
  forall c c' x, suppress_gas c = true -> m c = Ret (c', x) -> gview c' = gview c.

Lemma quiet_hush {A} (m : Cg A) : quiet m -> hush m.
Proof. intros Q c c' x _. apply Q. Qed.

Lemma gview_suppress c c' : gview c' = gview c -> suppress_gas c' = suppress_gas c.
Proof. intros E. by apply (f_equal v_suppress) in E. Qed.

Lemma hush_bind {A B} (m : Cg A) (k : A -> Cg B) : hush m -> (forall x, hush (k x)) -> hush (cbind m k).
Proof.
  intros Hm Hk c c' y Hs E. unfold cbind in E. destruct (m c) as [[c1 x]|] eqn:E1; [|done].
  pose proof (Hm c c1 x Hs E1) as G. rewrite <- G. apply (Hk x c1 c' y); [|done]. by rewrite (gview_suppress _ _ G).
Qed.

Lemma feed_suppressed i v : v_suppress v = true -> feed_inst i v = v.
Proof. intros E. unfold feed_inst, feed_meta. by rewrite E. Qed.

(** A word without [x3] and [x4] is compiled without a feed. *)
Lemma hush_plain redispatch w pc len :
  Z.land w 3 = 3 -> word_uses_spilled_reg w = false -> fence_ok w = true ->
  hush (compile_rv4_body redispatch w pc len []).
Proof.
  intros H3 Hs Hf c c' [[t cf] e] Hc E.
  destruct (feeds_plain redispatch w pc len [] H3 Hs Hf ltac:(constructor) c c' t cf e E) as [[G _]|(i2 & D & _)]; [|discriminate D].
  rewrite G. by apply feed_suppressed.
Qed.

Lemma pick_spec blocked d : pick blocked = Some d -> In d CANDIDATES.
Proof. unfold pick. intros E. exact (proj1 (find_some _ _ E)). Qed.

Definition host_mapped (x : Z) : bool := (0 <=? x) && (x <? 32) && negb (reg_is_spilled x).

Lemma candidate_mapped d : In d CANDIDATES -> is_u 5 d /\ reg_is_spilled d = false.
Proof.
  intros H. assert (forallb host_mapped CANDIDATES = true) as A by reflexivity.
  rewrite forallb_forall in A. specialize (A d H). unfold host_mapped in A.
  rewrite !andb_true_iff, Z.leb_le, Z.ltb_lt, negb_true_iff in A. unfold is_u. split; [lia|tauto].
Qed.

(** The register fields a format uses, against the raw-word class test. *)
Lemma spill_fields_class w hd h1 h2 pred :
  Z.land w 3 = 3 -> spill_fields (field5 w 2) = Some (hd, h1, h2) ->
  word_reg_class_hits w pred = (hd && pred (field5 w 7)) || (h1 && pred (field5 w 15)) || (h2 && pred (field5 w 20)).
Proof.
  intros H3 E. unfold word_reg_class_hits. fold (field5 w 7) (field5 w 15) (field5 w 20).
  unfold spill_fields in E.
  assert (forall m, field5 w 2 = m -> Z.land w 0x7F = 4 * m + 3) as O by (intros m; by apply opcode_of_major).
  repeat match goal with
  | H : context [field5 w 2 =? ?op] |- _ =>
      destruct (Z.eqb_spec (field5 w 2) op) as [Hm|_]; [rewrite (O _ Hm); injection E as <- <- <-|]
  end; cbn [orb] in *; try discriminate.
  all: cbn; rewrite ?orb_false_r; reflexivity.
Qed.

(** The rewritten word. *)
Definition rewritten (w : Z) (hd h1 h2 : bool) (rd rs1 rs2 : Z) : Z :=
  set_field h2 (set_field h1 (set_field hd w 7 rd) 15 rs1) 20 rs2.

Lemma rewritten_field w hd h1 h2 rd rs1 rs2 :
  is_u 5 rd -> is_u 5 rs1 -> is_u 5 rs2 ->
  let w' := rewritten w hd h1 h2 rd rs1 rs2 in
  Z.land w' 0x7F = Z.land w 0x7F /\ (hd = true -> field5 w' 7 = rd) /\ (h1 = true -> field5 w' 15 = rs1) /\
  (h2 = true -> field5 w' 20 = rs2).
Proof.
  intros Hd H1 H2. cbv zeta. unfold rewritten. repeat split.
  - rewrite !set_field_opcode by (done || lia). done.
  - intros ->. rewrite !set_field_other by (done || lia). by apply set_field_same.
  - intros ->. rewrite set_field_other by (done || lia). by apply set_field_same.
  - intros ->. by apply set_field_same.
Qed.

Lemma opcode_fields w w' :
  Z.land w' 0x7F = Z.land w 0x7F -> Z.land w' 3 = Z.land w 3 /\ field5 w' 2 = field5 w 2.
Proof.
  intros E. unfold field5. split.
  - transitivity (Z.land (Z.land w' 0x7F) 3); [by rewrite <- Z.land_assoc|]. rewrite E. by rewrite <- Z.land_assoc.
  - by rewrite (field_of_mask w' 0x7F _ 2 31), (field_of_mask w 0x7F _ 2 31), E by (done || lia).
Qed.

(** Replacing [x3] and [x4] by mapped registers leaves neither. *)
Lemma rewritten_plain w hd h1 h2 rd rs1 rs2 :
  Z.land w 3 = 3 -> spill_fields (field5 w 2) = Some (hd, h1, h2) ->
  is_u 5 rd -> is_u 5 rs1 -> is_u 5 rs2 ->
  (hd = true -> reg_is_spilled rd = false) -> (h1 = true -> reg_is_spilled rs1 = false) -> (h2 = true -> reg_is_spilled rs2 = false) ->
  let w' := rewritten w hd h1 h2 rd rs1 rs2 in
  Z.land w' 3 = 3 /\ word_uses_spilled_reg w' = false /\ fence_ok w' = true.
Proof.
  intros H3 E Hd H1 H2 Sd S1 S2 w'.
  destruct (rewritten_field w hd h1 h2 rd rs1 rs2 Hd H1 H2) as (O & Fd & F1 & F2). fold w' in O, Fd, F1, F2.
  destruct (opcode_fields w w' O) as [A B]. rewrite <- B in E. rewrite H3 in A. split; [done|]. split.
  - unfold word_uses_spilled_reg. rewrite (spill_fields_class w' hd h1 h2 _ A E).
    rewrite !orb_false_iff. repeat split.
    + destruct hd; [|done]. rewrite Fd by done. auto.
    + destruct h1; [|done]. rewrite F1 by done. auto.
    + destruct h2; [|done]. rewrite F2 by done. auto.
  - unfold fence_ok. destruct (Z.eqb_spec (field5 w' 2) OP_MISC_MEM) as [Em|]; [|done]. rewrite Em in E. discriminate E.
Qed.

Lemma hush_bind_val {A B} (m : Cg A) (k : A -> Cg B) :
  quiet m -> (forall c c' x, m c = Ret (c', x) -> hush (k x)) -> hush (cbind m k).
Proof.
  intros Hm Hk c c' y Hs E. unfold cbind in E. destruct (m c) as [[c1 x]|] eqn:E1; [|done].
  pose proof (Hm c c1 x E1) as G. rewrite <- G. apply (Hk c c1 x E1 c1 c' y); [|done]. by rewrite (gview_suppress _ _ G).
Qed.

(** A donor is a mapped register when one is needed. *)
Lemma donor_mapped (need : bool) blocked c c' d :
  (if need then unwrap (pick blocked) else cret 0) c = Ret (c', d) -> is_u 5 d /\ reg_is_spilled d = false.
Proof.
  destruct need; intros E.
  - destruct (pick blocked) as [x|] eqn:Ep; [|done]. injection E as <- <-. by apply candidate_mapped, (pick_spec blocked).
  - by injection E as <- <-.
Qed.

Lemma not_spilled x : is_u 5 x -> x <> 3 -> x <> 4 -> reg_is_spilled x = false.
Proof.
  intros Hx N3 N4.
  pose proof (all_words_spec 5 (fun x => negb (reg_is_spilled x) || (x =? 3) || (x =? 4)) x eq_refl Hx) as A.
  rewrite !orb_true_iff, !Z.eqb_eq, negb_true_iff in A. tauto.
Qed.

Lemma hush_donors redispatch w pc len :
  (forall w', Z.land w' 3 = 3 -> word_uses_spilled_reg w' = false -> fence_ok w' = true -> hush (redispatch w' pc len)) ->
  Z.land w 3 = 3 -> hush (emit_spilled_via_donors redispatch w pc len).
Proof.
  intros R H3. unfold emit_spilled_via_donors. cbv zeta.
  destruct (spill_fields (field5 w 2)) as [[[hd h1] h2]|] eqn:E; [|apply quiet_hush; auto with quiet].
  apply hush_bind_val; [quiet|]. intros c1 c1' donor3 [U3 D3]%donor_mapped.
  apply hush_bind_val; [quiet|]. intros c2 c2' donor4 [U4 D4]%donor_mapped.
  do 4 (apply hush_bind; [apply quiet_hush; quiet|intros _]).
  set (repl := fun r => if r =? 3 then donor3 else if r =? 4 then donor4 else r).
  assert (forall x, is_u 5 x -> is_u 5 (repl x) /\ reg_is_spilled (repl x) = false) as P.
  { intros x Hx. unfold repl. destruct (Z.eqb_spec x 3); [done|]. destruct (Z.eqb_spec x 4); [done|].
    split; [done|]. by apply not_spilled. }
  destruct (P (field5 w 7) (field5_range _ _)) as [Ud Sd]. destruct (P (field5 w 15) (field5_range _ _)) as [U1 S1].
  destruct (P (field5 w 20) (field5_range _ _)) as [U2 S2].
  destruct (rewritten_plain w hd h1 h2 _ _ _ H3 E Ud U1 U2 ltac:(done) ltac:(done) ltac:(done)) as (A & B & C).
  apply hush_bind; [by apply R|intros _]. apply quiet_hush. quiet.
Qed.

(** What an instruction does to the gas state: it is fed, alone or with the one after it. *)
Definition fed_after (v v' : GasView) (i : Inst) (rest : list Z) (t : bool) (e : Z) : Prop :=
  (v' = feed_inst i v /\ t = is_terminator i /\ e = 0) \/
  (exists i2, decode rest = Some (i2, e) /\ is_terminator i = false /\ is_terminator i2 = false /\ t = false /\
     v' = feed_inst i2 (feed_inst i v)).

Definition view_suppress (v : GasView) (b : bool) : GasView :=
  mkView (v_pcs v) (v_stubs v) (v_sim v) (v_accum v) b (v_cycles v).

Lemma feed_gas_spilled_spec w c c' t :
  is_u 32 w -> Z.land w 3 = 3 -> suppress_gas c = false -> feed_gas_spilled w c = Ret (c', t) ->
  gview c' = feed_inst (inst_of w) (gview c) /\ t = is_terminator (inst_of w).
Proof.
  intros Hw H3 Hs E. unfold feed_gas_spilled in E. destruct (word_filter_agrees w Hw H3) as [D _]. rewrite D in E.
  unfold cbind in E. cbn [unwrap cret fst] in E. fold (inst_of w) in E. cbv zeta in E.
  rewrite <- (terminators_agree (inst_of w) (gas_sim c) (mem_cycles c)).
  destruct (rv_feed_gas_direct _ _ _) as [sim term] eqn:Ef. injection E as <- <-.
  split; [|done]. unfold feed_inst, feed_meta. cbn [gview v_suppress v_sim v_cycles]. rewrite Hs, Ef.
  unfold gview. cbn. by rewrite Hs.
Qed.

Lemma feeds_spilled redispatch w pc len c c' t cf e :
  (forall w', Z.land w' 3 = 3 -> word_uses_spilled_reg w' = false -> fence_ok w' = true -> hush (redispatch w' pc len)) ->
  is_u 32 w -> Z.land w 3 = 3 -> suppress_gas c = false ->
  compile_rv_spilled redispatch w pc len c = Ret (c', (t, cf, e)) ->
  gview c' = feed_inst (inst_of w) (gview c) /\ t = is_terminator (inst_of w) /\ e = 0.
Proof.
  intros R Hw H3 Hs E. unfold compile_rv_spilled in E. cbv zeta in E. unfold cbind at 1 in E.
  destruct (feed_gas_spilled w c) as [[c1 t1]|] eqn:E1; [|done].
  destruct (feed_gas_spilled_spec w c c1 t1 Hw H3 Hs E1) as [<- ->]. unfold cbind at 1 in E. cbn [set_suppress modify] in E.
  match type of E with (cbind ?m _) _ = _ => assert (hush m) as Hm end.
  { case_match; [apply quiet_hush; auto with quiet|]. case_match; [apply quiet_hush; auto with quiet|].
    case_match; [apply quiet_hush; auto with quiet|]. case_match; [by apply hush_donors|apply quiet_hush; auto with quiet]. }
  unfold cbind at 1 in E. destruct (_ (with_suppress c1 true)) as [[c2 u]|] eqn:E2 in E; [|done].
  pose proof (Hm (with_suppress c1 true) c2 u eq_refl E2) as G. injection E as <- <- <- <-. split; [|done].
  assert (gview (with_suppress c2 false) = view_suppress (gview c2) false) as -> by done. rewrite G.
  destruct (feed_gas_spilled_spec w c c1 _ Hw H3 Hs E1) as [G1 _].
  assert (v_suppress (gview c1) = false) as S1.
  { rewrite G1. unfold feed_inst, feed_meta. cbn [gview v_suppress]. by rewrite Hs. }
  unfold view_suppress, gview in *. cbn in *. by rewrite S1.
Qed.

Lemma feeds_rv4 w pc len rest c c' t cf e :
  is_u 32 w -> Z.land w 3 = 3 -> fence_ok w = true -> Forall (is_u 8) rest -> suppress_gas c = false ->
  compile_rv4 w pc len rest c = Ret (c', (t, cf, e)) -> fed_after (gview c) (gview c') (inst_of w) rest t e.
Proof.
  intros Hw H3 Hf Hb Hs E. unfold compile_rv4 in E. cbn [compile_rv4_at] in E.
  destruct (word_uses_spilled_reg w) eqn:Es.
  - unfold compile_rv4_body in E. cbv zeta in E. rewrite Es in E.
    destruct (word_uses_reserved_reg w) eqn:Er.
    + left. unfold inst_of. rewrite Er. exact (feeds_reserved pc w c c' t cf e E).
    + left. refine (feeds_spilled _ w pc len c c' t cf e _ Hw H3 Hs E).
      intros w' A B C. by apply hush_plain.
  - exact (feeds_plain _ w pc len rest H3 Es Hf Hb c c' t cf e E).
Qed.

(** ** Compressed instructions *)

(** Equality of the instructions a halfword can stand for. *)
Definition same_inst (i j : Inst) : bool :=
  match i, j with
  | Addi a b k, Addi a' b' k' | Addiw a b k, Addiw a' b' k' | Andi a b k, Andi a' b' k' | Slli a b k, Slli a' b' k'
  | Srli a b k, Srli a' b' k' | Srai a b k, Srai a' b' k' | Lw a b k, Lw a' b' k' | Ld a b k, Ld a' b' k'
  | Sw a b k, Sw a' b' k' | Sd a b k, Sd a' b' k' | Add a b k, Add a' b' k' | Sub a b k, Sub a' b' k'
  | Xor a b k, Xor a' b' k' | Or a b k, Or a' b' k' | And a b k, And a' b' k' | Addw a b k, Addw a' b' k'
  | Subw a b k, Subw a' b' k' | Jalr a b k, Jalr a' b' k' | Beq a b k, Beq a' b' k' | Bne a b k, Bne a' b' k' =>
      (a =? a') && (b =? b') && (k =? k')
  | Lui a k, Lui a' k' | Jal a k, Jal a' k' => (a =? a') && (k =? k')
  | _, _ => false
  end.

Lemma same_inst_eq i j : same_inst i j = true -> i = j.
Proof.
  destruct i; try discriminate; destruct j; try discriminate; cbn; rewrite !andb_true_iff, !Z.eqb_eq.
  all: intros H; repeat match goal with H : _ /\ _ |- _ => destruct H end; subst; done.
Qed.

Definition rvc_ok (h : Z) : bool :=
  (Z.land h 3 =? 3) ||
  match expand_rvc h with
  | Some w => (0 <=? w) && (w <? 2 ^ 32) && (Z.land w 3 =? 3) && fence_ok w && same_inst (decode_32 w) (decompress h)
  | None => is_Reserved (decompress h)
  end.

Lemma rvc_ok_all : all_words 16 0 rvc_ok = true.
Proof. vm_compute. reflexivity. Qed.

(** C12: The recompiler's expansion of a compressed instruction is the interpreter's. Every
    halfword that is not the start of a 32-bit word either expands to a 32-bit word that
    decodes to exactly what the decompressor gives, or is reserved for both. *)
Theorem expand_rvc_agrees h :
  is_u 16 h -> Z.land h 3 <> 3 ->
  match expand_rvc h with
  | Some w => is_u 32 w /\ decode_32 w = decompress h
  | None => is_Reserved (decompress h) = true
  end.
Proof.
  intros Hh N. pose proof (all_words_spec 16 _ h rvc_ok_all Hh) as A. unfold rvc_ok in A.
  rewrite (proj2 (Z.eqb_neq _ _) N) in A. cbn [orb] in A. destruct (expand_rvc h) as [w|]; [|done].
  rewrite !andb_true_iff, Z.leb_le, Z.ltb_lt in A. destruct A as [[[A _] _] S]. split; [exact A|]. by apply same_inst_eq.
Qed.

Lemma expand_rvc_agrees_witness :
  expand_rvc 0x9082 = Some 0x000080E7 /\ decode_32 0x000080E7 = decompress 0x9082.
Proof.
  split; [vm_compute; reflexivity|].
  exact (proj2 (expand_rvc_agrees 0x9082 ltac:(unfold is_u; lia) ltac:(vm_compute; discriminate))).
Defined.
