(* ===== verification/CodegenBlocks.v ===== *)
(** * The gas blocks of the recompiler

    The streaming pass against the predecoder: both cut the code into the same
    instructions, start blocks at the same offsets and give each block the same cost.
    The only words on which they part are the MISC-MEM words with a [funct3] of two
    or more, which [fences_ok] excludes. *)

From S2P Require Import Prelude MachineInt Engine GasConst Instruction InstructionFacts GasSim GasCost Predecode Asm Codegen.
From S2P Require Import CodegenGas.

#[local] Open Scope cg_scope.

(** ** The pass on gas states *)

(** Closing the open block and opening one at [pc]. *)
Definition close_block (v : GasView) (open : option Z) : GasView :=
  match open with
  | None => v
  | Some p => mkView (v_pcs v) (v_stubs v ++ [(p, flush_and_get_cost (v_sim v))]) (v_sim v) (v_accum v) (v_suppress v) (v_cycles v)
  end.

Definition open_block (pc : Z) (v : GasView) : GasView :=
  mkView (v_pcs v ++ [pc]) (v_stubs v) sim_new 0 (v_suppress v) (v_cycles v).

(** The pass over decoded instructions. *)
Fixpoint pass (start : bool) (open : option Z) (v : GasView) (l : list RvPreDecodedInst) : GasView * option Z :=
  match l with
  | [] => (v, open)
  | x :: l' =>
      let ecall := is_ecall_block (inst x) in
      let '(v, open) :=
        if start || ecall then (open_block (pc x) (close_block v open), if ecall then None else Some (pc x)) else (v, open) in
      pass (is_terminator (inst x)) open (feed_inst (inst x) v) l'
  end.

(** ** Opening a block *)

Lemma flush_closes pending c c' u :
  flush_pending_gas pending c = Ret (c', u) -> gview c' = close_block (gview c) (block_pc <$> pending).
Proof.
  intros E. destruct pending as [p|]; cbn [flush_pending_gas] in E; injection E as <- <-; [|done].
  unfold gview. cbn. by rewrite map_app.
Qed.

Lemma bind_spec pc ecall pending c c' p' :
  bind_rv_gas_block_start_streaming pc ecall pending c = Ret (c', p') ->
  gview c' = open_block pc (close_block (gview c) (block_pc <$> pending)) /\
  block_pc <$> p' = if ecall then None else Some pc.
Proof.
  intros E. unfold bind_rv_gas_block_start_streaming in E.
  destruct (quiet_then _ _ _ _ _ (quiet_gets _) E) as (c1 & l & E1 & <-). clear E.
  destruct (quiet_then _ _ _ _ _ (quiet_put_res _) E1) as (c2 & ? & E2 & <-). clear E1.
  unfold cbind at 1 in E2. cbn [modify] in E2.
  destruct (quiet_then _ _ _ _ _ quiet_invalidate_all E2) as (c3 & ? & E3 & G3). clear E2.
  destruct (quiet_then _ _ _ _ _ (quiet_set_cf _) E3) as (c4 & ? & E4 & G4). clear E3.
  unfold cbind at 1 in E4. destruct (flush_pending_gas pending c4) as [[c5 u]|] eqn:Ef; [|done].
  apply flush_closes in Ef. unfold cbind at 1 in E4. cbn [modify] in E4.
  assert (gview (with_gas c5 (sim_reset (gas_sim c5)) 0) = open_block pc (close_block (gview c2) (block_pc <$> pending))) as <-.
  { assert (gview (with_gas c5 (sim_reset (gas_sim c5)) 0) =
      mkView (v_pcs (gview c5)) (v_stubs (gview c5)) sim_new 0 (v_suppress (gview c5)) (v_cycles (gview c5))) as -> by done.
    rewrite Ef, G4, G3. by destruct pending. }
  destruct ecall; [by injection E4 as <- <-|].
  split.
  - refine (_ : gview c' = _).
    refine (quiet_bind _ _ quiet_fresh_label _ _ _ _ E4). intros stub. quiet.
  - unfold cbind in E4. repeat (case_match; try discriminate E4). by injection E4 as <- <-.
Qed.

(** ** One iteration *)

Section Stream.
  Context {VP : VecPolicy}.

(** The fence condition on the instruction at the head of the bytes. *)
Definition fence_at (bytes : list Z) : bool :=
  match bytes with
  | b0 :: b1 :: b2 :: b3 :: _ => negb (Z.land b0 3 =? 3) || fence_ok (from_le_bytes [b0; b1; b2; b3])
  | _ => true
  end.

(** A view after one instruction, or two. *)
Definition stepped (v v' : GasView) (open open' : option Z) (start : bool) (at_ : Z) (i : Inst) (rest : list Z)
    (consumed len : Z) (t : bool) : Prop :=
  let ecall := is_ecall_block i in
  let v0 := if start || ecall then open_block at_ (close_block v open) else v in
  let o0 := if start || ecall then (if ecall then None else Some at_) else open in
  open' = o0 /\ fed_after v0 v' i rest t (consumed - len).

Lemma from_le_word b0 b1 b2 b3 :
  is_u 8 b0 -> is_u 8 b1 -> is_u 8 b2 -> is_u 8 b3 -> is_u 32 (from_le_bytes [b0; b1; b2; b3]).
Proof. unfold is_u. cbn. lia. Qed.

Lemma ecall_word w :
  Z.land w 3 = 3 -> is_custom0_ecall w = is_ecall_block (inst_of w).
Proof.
  intros H3. unfold is_custom0_ecall, inst_of, word_uses_reserved_reg, word_reg_class_hits. cbv zeta.
  destruct (Z.eqb_spec (field5 w 2) OP_CUSTOM_0) as [E|N].
  - rewrite (opcode_of_major w OP_CUSTOM_0 H3 E). unfold decode_32. rewrite H3. fold (field5 w 2). rewrite E.
    cbn. unfold decode_custom_0. assert (is_u 3 (Z.land (Z.shiftr w 12) 7)) as R.
    { change 7 with (2 ^ 3 - 1). rewrite land_ones' by lia. by apply wrap_range. }
    revert R. generalize (Z.land (Z.shiftr w 12) 7). intros f R.
    assert (f = 0 \/ f = 1 \/ f = 2 \/ f = 3 \/ f = 4 \/ f = 5 \/ f = 6 \/ f = 7) as C by (unfold is_u in R; lia).
    repeat (destruct C as [-> | C]; [reflexivity|]). by subst.
  - cbn [andb]. symmetry. case_match; [done|]. unfold decode_32. rewrite H3. cbv zeta. fold (field5 w 2).
    change (negb (3 =? 3)) with false. cbv iota.
    rewrite (proj2 (Z.eqb_neq (field5 w 2) OP_CUSTOM_0) N).
    repeat match goal with |- context [if ?b then _ else _] => destruct b; [try reflexivity|] end; try reflexivity.
    all: unfold decode_load, decode_store, decode_op_imm, decode_op_imm_32, decode_op, decode_op_32, decode_branch, decode_misc_mem;
      repeat case_match; reflexivity.
Qed.

Lemma fed_after_reserved_raw v v' r r' rest t e :
  fed_after v v' (Reserved r) rest t e -> fed_after v v' (Reserved r') rest t e.
Proof. intros [H|(i2 & D & T & _)]; [by left|done]. Qed.

Lemma feeds_rvc h pc rest c c' t cf e :
  is_u 16 h -> Z.land h 3 <> 3 -> Forall (is_u 8) rest -> suppress_gas c = false ->
  compile_rvc h pc rest c = Ret (c', (t, cf, e)) ->
  fed_after (gview c) (gview c') (reserve_if_reserved_reg (decompress h) h) rest t e.
Proof.
  intros Hh N Hb Hs E. unfold compile_rvc in E.
  pose proof (all_words_spec 16 _ h rvc_ok_all Hh) as A. unfold rvc_ok in A.
  rewrite (proj2 (Z.eqb_neq _ _) N) in A. cbn [orb] in A. destruct (expand_rvc h) as [w|].
  - rewrite !andb_true_iff, Z.leb_le, Z.ltb_lt, Z.eqb_eq in A. destruct A as [[[A H3] F] S].
    apply same_inst_eq in S. pose proof (feeds_rv4 w pc 2 rest c c' t cf e A H3 F Hb Hs E) as X.
    unfold inst_of in X. rewrite <- reserve_word in X. unfold reserve_if_reserved_reg in *. rewrite <- S.
    destruct (uses_reserved_reg (decode_32 w)); [by eapply fed_after_reserved_raw|done].
  - destruct (decompress h) eqn:D; try done. left. exact (feeds_reserved pc _ c c' t cf e E).
Qed.


Lemma suppress_of v c : gview c = v -> suppress_gas c = v_suppress v.
Proof. by intros <-. Qed.

(** No compressed instruction is an environment call. *)
Lemma half_no_ecall : all_words 16 0 (fun h => negb (is_ecall_block (reserve_if_reserved_reg (decompress h) h))) = true.
Proof. vm_compute. reflexivity. Qed.

(** The block hook of an iteration, on views. *)
Lemma hook_spec (start ecall : bool) at_ pending c c1 p1 :
  (if start || ecall then bind_rv_gas_block_start_streaming at_ ecall pending else cret pending) c = Ret (c1, p1) ->
  gview c1 = (if start || ecall then open_block at_ (close_block (gview c) (block_pc <$> pending)) else gview c) /\
  block_pc <$> p1 = (if start || ecall then (if ecall then None else Some at_) else block_pc <$> pending).
Proof.
  destruct (start || ecall); intros E; [by apply bind_spec in E|by injection E as <- <-].
Qed.

Lemma suppress_close v o : v_suppress (close_block v o) = v_suppress v.
Proof. by destruct o. Qed.

(** The tail of an iteration: dispatch, then the carry bookkeeping. *)
Lemma dispatch_tail (m : Cg Outcome) (k : Z) (p1 : option PendingGas) c c' next p' :
  (let% (term, preserve_cf, extra) := m in
   when (negb preserve_cf) (set_last_add_cf None) ;% cret (Some (k + extra, term), p1)) c = Ret (c', (next, p')) ->
  exists c2 t cf e, m c = Ret (c2, (t, cf, e)) /\ gview c' = gview c2 /\ next = Some (k + e, t) /\ p' = p1.
Proof.
  intros E. unfold cbind at 1 in E. destruct (m c) as [[c2 [[t cf] e]]|]; [|done].
  exists c2, t, cf, e. destruct cf; cbn in E; by injection E as <- <- <-.
Qed.

Lemma stream_step_spec bytes at_ start pending c c' next p' i len :
  Forall (is_u 8) bytes -> fence_at bytes = true -> suppress_gas c = false -> decode bytes = Some (i, len) ->
  stream_step bytes at_ start pending c = Ret (c', (next, p')) ->
  exists consumed t, next = Some (consumed, t) /\
    stepped (gview c) (gview c') (block_pc <$> pending) (block_pc <$> p') start at_ i (drop (Z.to_nat len) bytes) consumed len t.
Proof.
  intros Hb Hf Hs D E. destruct bytes as [|b0 [|b1 tail]]; [done..|]. unfold stream_step in E.
  destruct (quiet_then _ _ _ _ _ (quiet_put _) E) as (c0 & ? & E0 & G0). clear E. rewrite <- G0.
  assert (suppress_gas c0 = false) as Hs0 by (by rewrite (gview_suppress _ _ G0)). clear c G0 Hs.
  inversion Hb as [|? ? B0 Hb1]; subst. inversion Hb1 as [|? ? B1 Hb2]; subst. cbv zeta in E0.
  destruct (Z.eqb_spec (Z.land b0 3) 3) as [H3|H3].
  - destruct tail as [|b2 [|b3 rest]]; try (unfold decode in D; rewrite land_3 in *; cbn [from_le_bytes] in D;
      replace ((b0 + 256 * (b1 + 256 * 0)) mod 4) with 3 in D by dlia; discriminate D).
    inversion Hb2 as [|? ? B2 Hb3]; subst. inversion Hb3 as [|? ? B3 Hb4]; subst.
    rewrite inst_of_word in D by done. set (w := from_le_bytes [b0; b1; b2; b3]) in *.
    assert (i = inst_of w) as -> by congruence. assert (len = 4) as -> by congruence.
    assert (Z.land w 3 = 3) as W3 by (rewrite land_3 in *; unfold w; cbn [from_le_bytes]; dlia).
    cbn [fence_at] in Hf. rewrite (proj2 (Z.eqb_eq _ _) H3) in Hf. cbn [negb orb] in Hf.
    unfold cbind at 1 in E0. match type of E0 with context [?m c0] => destruct (m c0) as [[c1 p1]|] eqn:E1; [|done] end.
    apply hook_spec in E1 as [G1 P1]. rewrite (ecall_word w W3) in *.
    destruct (dispatch_tail _ _ _ _ _ _ _ E0) as (c2 & t & cf & e & E2 & G2 & -> & ->).
    exists (4 + e), t. split; [done|]. unfold stepped. cbv zeta. rewrite P1, G2, <- G1. split; [done|].
    replace (4 + e - 4) with e by lia.
    refine (feeds_rv4 w at_ 4 rest c1 c2 t cf e (from_le_word _ _ _ _ B0 B1 B2 B3) W3 Hf Hb4 _ E2).
    rewrite (suppress_of _ _ G1). destruct (_ || _); [cbn [open_block v_suppress]; rewrite suppress_close|]; exact Hs0.
  - rewrite inst_of_half in D by done. set (h := from_le_bytes [b0; b1]) in *.
    assert (i = reserve_if_reserved_reg (decompress h) h) as -> by congruence. assert (len = 2) as -> by congruence.
    assert (Z.land h 3 <> 3) as W3 by (rewrite land_3 in *; unfold h; cbn [from_le_bytes]; dlia).
    assert (is_ecall_block (reserve_if_reserved_reg (decompress h) h) = false) as Ec.
    { pose proof (all_words_spec 16 _ h half_no_ecall (bytes_half b0 b1 B0 B1)) as K. by apply negb_true_iff in K. }
    unfold cbind at 1 in E0. match type of E0 with context [?m c0] => destruct (m c0) as [[c1 p1]|] eqn:E1; [|done] end.
    rewrite <- (orb_false_r start) in E1. apply hook_spec in E1 as [G1 P1].
    destruct (dispatch_tail _ _ _ _ _ _ _ E0) as (c2 & t & cf & e & E2 & G2 & -> & ->).
    exists (2 + e), t. split; [done|]. unfold stepped. cbv zeta. rewrite Ec, P1, G2, <- G1. split; [done|].
    replace (2 + e - 2) with e by lia.
    refine (feeds_rvc h at_ tail c1 c2 t cf e (bytes_half b0 b1 B0 B1) W3 Hb2 _ E2).
    rewrite (suppress_of _ _ G1). destruct (_ || _); [cbn [open_block v_suppress]; rewrite suppress_close|]; exact Hs0.
Qed.

Lemma stream_step_none bytes at_ start pending c c' next p' :
  decode bytes = None -> stream_step bytes at_ start pending c = Ret (c', (next, p')) ->
  gview c' = gview c /\ next = None /\ p' = pending.
Proof.
  intros D E. unfold stream_step in E.
  destruct (quiet_then _ _ _ _ _ (quiet_put _) E) as (c0 & ? & E0 & <-). clear E.
  assert (forall m : Cg unit, quiet m -> (m ;% cret (@None (Z * bool), pending)) c0 = Ret (c', (next, p')) ->
    gview c' = gview c0 /\ next = None /\ p' = pending) as X.
  { intros m Q E. destruct (quiet_then _ _ _ _ _ Q E) as (c1 & ? & E1 & <-). by injection E1 as <- <- <-. }
  destruct bytes as [|b0 [|b1 tail]]; try (apply (X _ (quiet_rv_emit_panic_at at_)); exact E0).
  destruct (Z.eqb_spec (Z.land b0 3) 3) as [H3|H3]; [|by rewrite inst_of_half in D].
  destruct tail as [|b2 [|b3 rest]]; try (apply (X _ (quiet_rv_emit_panic_at at_)); exact E0).
  by rewrite inst_of_word in D.
Qed.

Lemma feed_keeps_suppress i v : v_suppress (feed_inst i v) = v_suppress v.
Proof. unfold feed_inst, feed_meta. by destruct (v_suppress v) eqn:E. Qed.

Lemma stepped_suppress v v' o o' start at_ i rest k len t :
  stepped v v' o o' start at_ i rest k len t -> v_suppress v' = v_suppress v.
Proof.
  intros [_ F]. cbv zeta in F. destruct F as [(-> & _)|(i2 & _ & _ & _ & _ & ->)]; rewrite !feed_keeps_suppress.
  all: destruct (_ || _); [cbn [open_block v_suppress]; by rewrite suppress_close|done].
Qed.

Context (code : list Z) (stop : Z).
Hypothesis Hlen : Z.of_nat (length code) < 2 ^ 32.
Hypothesis Hcode : Forall (is_u 8) code.
Hypothesis Hstop : stop <= Z.of_nat (length code).
Hypothesis Hend : stop < Z.of_nat (length code) -> decode (drop (Z.to_nat stop) code) = None.

(** The fence condition on every instruction of a list. *)
Definition fences_ok (l : list RvPreDecodedInst) : Prop :=
  Forall (fun x => fence_at (drop (Z.to_nat (pc x)) code) = true) l.

Lemma decode_stop : decode (drop (Z.to_nat stop) code) = None.
Proof.
  destruct (Z.lt_ge_cases stop (Z.of_nat (length code))); [auto|]. by rewrite drop_ge by lia.
Qed.

Lemma stream_spec fuel at_ l start pending c c' p' :
  tiles code at_ l stop -> fences_ok l -> 0 <= at_ -> Z.of_nat (length code) - at_ <= Z.of_nat fuel -> suppress_gas c = false ->
  stream fuel (drop (Z.to_nat at_) code) at_ start pending c = Ret (c', p') ->
  (gview c', block_pc <$> p') = pass start (block_pc <$> pending) (gview c) l.
Proof.
  revert at_ l start pending c. induction fuel as [|fuel IH]; intros at_ l start pending c T Fn Ha Hf Hs E.
  { destruct l as [|x l]; [by injection E as <- <-|]. destruct T as (? & ? & _). lia. }
  destruct l as [|x l].
  - cbn in T. subst at_. pose proof decode_stop as D. cbn [stream] in E.
    destruct (drop (Z.to_nat stop) code) as [|b bs]; [by injection E as <- <-|].
    unfold cbind at 1 in E. destruct (stream_step _ _ _ _ c) as [[c1 [next p1]]|] eqn:E1; [|done].
    destruct (stream_step_none _ _ _ _ _ _ _ _ D E1) as (G & -> & ->). injection E as <- <-. cbn. by rewrite G.
  - destruct T as (<- & [Hlt Hle] & D & _ & T). cbn [stream] in E. inversion Fn as [|? ? Fx Fl]; subst.
    destruct (drop (Z.to_nat (pc x)) code) as [|b bs] eqn:Eb; [done|]. rewrite <- Eb in *.
    unfold cbind at 1 in E. destruct (stream_step _ _ _ _ c) as [[c1 [next p1]]|] eqn:E1; [|done].
    destruct (stream_step_spec _ _ _ _ _ _ _ _ _ _ (Forall_drop _ _ _ Hcode) Fx Hs D E1) as (k & t & -> & S).
    assert (suppress_gas c1 = false) as Hs1.
    { pose proof (stepped_suppress _ _ _ _ _ _ _ _ _ _ _ S) as X. cbn in X. by rewrite X. }
    destruct S as [P F]. cbv zeta in F.
    assert (drop (Z.to_nat (next_pc x - pc x)) (drop (Z.to_nat (pc x)) code) = drop (Z.to_nat (next_pc x)) code) as Ed.
    { rewrite drop_drop. f_equal. lia. }
    rewrite Ed in F. cbn [pass].
    destruct F as [(G & -> & Hk)|(i2 & D2 & T1 & T2 & -> & G)].
    + replace k with (next_pc x - pc x) in E by lia. rewrite Ed in E. rewrite wrap_small in E by (unfold is_u; lia).
      replace (pc x + (next_pc x - pc x)) with (next_pc x) in E by lia.
      rewrite (IH _ _ _ _ _ T Fl ltac:(lia) ltac:(lia) Hs1 E), P, G. by destruct (_ || _).
    + destruct l as [|y l]; [cbn in T; by rewrite T, decode_stop in D2|].
      destruct T as (Ey & [Hlt2 Hle2] & Dy & _ & T). rewrite D2 in Dy.
      assert (i2 = inst y) as -> by congruence. assert (k = next_pc y - pc x) as -> by (injection Dy; lia).
      rewrite drop_drop in E. rewrite wrap_small in E by (unfold is_u; lia).
      replace (Z.to_nat (pc x) + Z.to_nat (next_pc y - pc x))%nat with (Z.to_nat (next_pc y)) in E by lia.
      replace (pc x + (next_pc y - pc x)) with (next_pc y) in E by lia.
      inversion Fl as [|? ? _ Fl2]; subst. rewrite <- T2 in E. rewrite (IH _ _ _ _ _ T Fl2 ltac:(lia) ltac:(lia) Hs1 E), P, G.
      assert (is_ecall_block (inst y) = false) as Ec by (by destruct (inst y)).
      cbn [pass]. rewrite T1, Ec. by destruct (start || _).
Qed.
End Stream.

Lemma quiet_prologue {VP : VecPolicy} : quiet emit_prologue.
Proof. unfold emit_prologue. quiet. Qed.

(** ** Against the predecoder *)

(** The costs of the blocks of a marked list, block by block. *)
Fixpoint costs_of (mem_cycles : Z) (m : list RvPreDecodedInst) : list (Z * Z) :=
  match m with
  | [] => []
  | x :: tl =>
      if is_gas_block_start x && negb (is_ecall_block (inst x)) then
        (pc x, flush_and_get_cost (fold_left (fun sim i => fst (rv_feed_gas_direct (gas_meta i) sim mem_cycles))
                                     (x :: run_prefix tl) sim_new)) :: costs_of mem_cycles tl
      else costs_of mem_cycles tl
  end.

Definition starts_of (m : list RvPreDecodedInst) : list Z := List.map pc (List.filter is_gas_block_start m).

Definition start_after (prev : option Inst) : bool := match prev with None => true | Some p => is_terminator p end.

Lemma run_prefix_start x tl : is_gas_block_start x = true -> run_prefix (x :: tl) = [].
Proof. intros E. cbn. by rewrite E. Qed.

Lemma pass_spec prev open v l :
  Forall (fun x => is_gas_block_start x = false) l -> meta_ok l -> v_suppress v = false ->
  let m := mark_starts prev l in
  let '(v', open') := pass (start_after prev) open v l in
  v_pcs v' = v_pcs v ++ starts_of m /\
  v_stubs (close_block v' open') = v_stubs v ++
    match open with
    | Some p => [(p, flush_and_get_cost (fold_left (fun sim i => fst (rv_feed_gas_direct (gas_meta i) sim (v_cycles v))) (run_prefix m) (v_sim v)))]
    | None => []
    end ++ costs_of (v_cycles v) m.
Proof.
  revert prev open v. induction l as [|x l IH]; intros prev open v U M Hs; cbv zeta.
  { cbn. rewrite !app_nil_r. destruct open; cbn; by rewrite ?app_nil_r. }
  inversion U as [|? ? Ux Ul]; subst. inversion M as [|? ? Mx Ml]; subst. cbn [pass mark_starts].
  fold (start_after prev). rewrite Ux, orb_false_r. set (st := start_after prev || is_ecall_block (inst x)).
  set (m' := mark_starts (Some (inst x)) l).
  assert (forall v0 o0, v_suppress v0 = false ->
    let '(v', open') := pass (is_terminator (inst x)) o0 (feed_inst (inst x) v0) l in
    v_pcs v' = v_pcs v0 ++ starts_of m' /\
    v_stubs (close_block v' open') = v_stubs v0 ++
      match o0 with
      | Some p => [(p, flush_and_get_cost (fold_left (fun sim i => fst (rv_feed_gas_direct (gas_meta i) sim (v_cycles v0)))
          (run_prefix m') (fst (rv_feed_gas_direct (gas_meta x) (v_sim v0) (v_cycles v0)))))]
      | None => []
      end ++ costs_of (v_cycles v0) m') as K.
  { intros v0 o0 S0. specialize (IH (Some (inst x)) o0 (feed_inst (inst x) v0) Ul Ml).
    rewrite feed_keeps_suppress in IH. specialize (IH S0). cbv zeta in IH. fold m' in IH. cbn [start_after] in IH.
    rewrite Mx. unfold feed_inst, feed_meta in *. rewrite S0 in *. exact IH. }
  destruct st eqn:Est.
  - specialize (K (open_block (pc x) (close_block v open)) (if is_ecall_block (inst x) then None else Some (pc x))).
    cbn [open_block v_suppress v_pcs v_stubs v_cycles v_sim] in K. rewrite suppress_close in K. specialize (K Hs).
    destruct (pass _ _ _ l) as [v' o']. destruct K as [K1 K2]. rewrite K1, K2. unfold starts_of.
    assert (v_pcs (close_block v open) = v_pcs v) as -> by (by destruct open).
    assert (v_cycles (close_block v open) = v_cycles v) as -> by (by destruct open).
    cbn [List.filter is_gas_block_start set_start List.map pc]. rewrite run_prefix_start by done. cbn [costs_of is_gas_block_start set_start inst andb].
    split; [by rewrite <- app_assoc|].
    destruct (is_ecall_block (inst x)); destruct open; cbn [close_block v_stubs negb]; by rewrite <- ?app_assoc.
  - specialize (K v open Hs). destruct (pass _ _ _ l) as [v' o']. destruct K as [K1 K2]. rewrite K1, K2. unfold starts_of.
    cbn [List.filter is_gas_block_start set_start costs_of andb run_prefix fold_left gas_meta]. done.
Qed.

(** The blocks the interpreter charges at their entry, with their costs. *)
Definition block_table (p : Predecode) : list (Z * Z) :=
  List.map (fun e => (pc (fst e), snd e))
    (List.filter (fun e => is_gas_block_start (fst e) && negb (is_ecall_block (inst (fst e)))) (zip (insts p) (block_costs p))).

Lemma table_of_costs mem_cycles all k m :
  drop k all = m ->
  List.map (fun e => (pc (fst e), snd e))
    (List.filter (fun e => is_gas_block_start (fst e) && negb (is_ecall_block (inst (fst e))))
       (zip m (List.map fst (imap (fun i => block_cost_at all mem_cycles (k + i)) m)))) = costs_of mem_cycles m.
Proof.
  revert k. induction m as [|x m IH]; intros k D; [done|].
  assert (drop (S k) all = m) as D'.
  { replace (S k) with (k + 1)%nat by lia. by rewrite <- drop_drop, D. }
  specialize (IH (S k) D'). cbn [imap List.map zip zip_with List.filter fst snd costs_of].
  rewrite Nat.add_0_r. unfold block_cost_at at 1.
  assert (imap ((fun i => block_cost_at all mem_cycles (k + i)) ∘ S) m = imap (fun i => block_cost_at all mem_cycles (S k + i)) m) as ->.
  { apply imap_ext. intros i y _. cbn. f_equal. lia. }
  destruct (is_gas_block_start x && negb (is_ecall_block (inst x))) eqn:E; [|done].
  apply andb_true_iff in E as [E1 E2]. apply negb_true_iff in E2. rewrite E1, E2. cbn [List.map fst snd]. f_equal; [|done].
  f_equal. unfold rv_gas_cost_for_block. by rewrite block_of_spec, D.
Qed.

Lemma fences_marked code q l : fences_ok code (mark_starts q l) -> fences_ok code l.
Proof.
  unfold fences_ok. revert q. induction l as [|x l IH]; intros q Hf; [constructor|].
  cbn [mark_starts] in Hf. inversion Hf; subst. constructor; [done|]. by apply (IH (Some (inst x))).
Qed.

Section Agree.
  Context {VP : VecPolicy}.

Lemma cbind_modify {A} f (k : unit -> Cg A) c : cbind (modify f) k c = k tt (f c).
Proof. reflexivity. Qed.

Lemma cbind_ret {A B} (m : Cg A) (k : A -> Cg B) c r :
  cbind m k c = Ret r -> exists c1 a, m c = Ret (c1, a) /\ k a c1 = Ret r.
Proof. unfold cbind. destruct (m c) as [[c1 a]|]; [|done]. intros E. by exists c1, a. Qed.

Lemma compile_blocks_inv h jit_va base code n mem_cycles c :
  compile_blocks code (Compiler_new h n jit_va mem_cycles base) = Ret (c, tt) ->
  exists c1 c2 pending, gview c1 = mkView [] [] sim_new 0 false mem_cycles /\
    stream (length code) code 0 true None c1 = Ret (c2, pending) /\
    flush_pending_gas pending c2 = Ret (c, tt).
Proof.
  unfold compile_blocks. rewrite cbind_modify. intros E.
  destruct (quiet_then _ _ _ _ _ quiet_prologue E) as (c1 & ? & E1 & G1). clear E.
  apply cbind_ret in E1 as (c2 & pending & Es & E1).
  exists c1, c2, pending. split; [|by split]. rewrite G1. reflexivity.
Qed.

(** C11: Both engines meter the same blocks. For code in which every word of the MISC-MEM
    opcode that the predecoder reaches has [funct3] 0 or 1 ([fences_ok]), whenever the
    recompiler's pass returns, it started its gas blocks at exactly the offsets the
    predecoder marks, and gave every block the cost the interpreter charges for it; blocks
    of an environment call have no static charge in either. The condition is needed: see
    [misc_mem_blocks_differ]. *)
Theorem gas_blocks_agree h jit_va base code mem_cycles c :
  let p := predecode_rv_with_mem_cycles code mem_cycles in
  Z.of_nat (length code) < 2 ^ 32 -> Forall (is_u 8) code -> fences_ok code (insts p) ->
  compile_blocks code (Compiler_new h (length code) jit_va mem_cycles base) = Ret (c, tt) ->
  gas_block_pcs c = starts_of (insts p) /\
  List.map (fun s => (snd (fst s), snd s)) (oog_stubs c) = block_table p.
Proof.
  intros p Hlen Hcode Hf E. apply compile_blocks_inv in E as (c1 & c2 & pending & G1 & Es & E1). apply flush_closes in E1.
  unfold p, predecode_rv_with_mem_cycles in *. destruct (decode_all (length code) code 0 None) as [l e] eqn:Ed.
  pose proof (decode_all_unmarked (length code) code 0 None) as U. rewrite Ed in U. cbn [fst] in U.
  destruct (decode_all_spec (length code) code 0 None l e Hlen ltac:(lia) ltac:(lia) Ed) as (stop & T & Hstop & Hend & _).
  destruct (compute_block_costs _ _) as [costs reserves] eqn:Ec. cbn [insts] in *.
  pose proof (fences_marked _ _ _ Hf) as Fl.
  pose proof (stream_spec code stop Hlen Hcode (fun X => proj1 (Hend X)) (length code) 0 l true None c1 c2 pending
    T Fl ltac:(lia) ltac:(lia) ltac:(by rewrite (suppress_of _ _ G1)) Es) as S.
  pose proof (pass_spec None None (gview c1) l U (tiles_meta _ _ _ _ T) ltac:(by rewrite G1)) as P. cbv zeta in P.
  cbn [start_after] in P. change (block_pc <$> None) with (@None Z) in S. rewrite <- S in P. destruct P as [P1 P2].
  rewrite G1 in P1, P2. cbn [v_pcs v_stubs v_cycles app] in P1, P2.
  split.
  - transitivity (v_pcs (gview c)); [done|]. rewrite E1, <- P1. by destruct (block_pc <$> pending).
  - transitivity (v_stubs (gview c)); [done|]. rewrite E1, P2. unfold block_table. cbn [insts block_costs].
    unfold compute_block_costs in Ec. injection Ec as <- _.
    exact (eq_sym (table_of_costs mem_cycles (mark_starts None l) 0 (mark_starts None l) eq_refl)).
Qed.
End Agree.

(** Blocks as the pass leaves them, for a branch, a store, a compressed jump and a trap. *)
Definition sample_code : list Z :=
  to_le_bytes 4 0x00628463 ++ to_le_bytes 4 0x00533023 ++ to_le_bytes 2 0xA011 ++ to_le_bytes 2 0x0001 ++ to_le_bytes 4 0x0000000B.

#[export] Instance doubling : VecPolicy := {| fresh_cap := fun n => n; grown_cap := fun cap n => Z.max n (2 * cap) |}.

Lemma gas_blocks_agree_witness :
  exists c, compile_blocks sample_code (Compiler_new (mkHelpers 1 2 3 4 5 6 7 8) 16 (CTX_VA + 0x10000) 25 0) = Ret (c, tt) /\
    gas_block_pcs c = [0; 4; 10] /\
    List.map (fun s => (snd (fst s), snd s)) (oog_stubs c) = block_table (predecode sample_code).
Proof.
  destruct (compile_blocks sample_code (Compiler_new (mkHelpers 1 2 3 4 5 6 7 8) 16 (CTX_VA + 0x10000) 25 0)) as [[c []]|] eqn:E.
  2: { exfalso. vm_compute in E. discriminate E. }
  exists c. split; [done|].
  apply (gas_blocks_agree (mkHelpers 1 2 3 4 5 6 7 8) (CTX_VA + 0x10000) 0 sample_code 25 c).
  - vm_compute. reflexivity.
  - repeat constructor; vm_compute; congruence.
  - repeat constructor.
  - exact E.
Defined.

(** A MISC-MEM word with another [funct3] is a no-op of the running block to the recompiler,
    and a reserved instruction, which ends its block, to the predecoder: with [0x200F] and a
    no-op after it, one engine has one block and the other two. *)
Lemma misc_mem_blocks_differ :
  let code := to_le_bytes 4 0x0000200F ++ to_le_bytes 4 0x00000013 in
  starts_of (insts (predecode code)) = [0; 4] /\
  exists c, compile_blocks code (Compiler_new (mkHelpers 1 2 3 4 5 6 7 8) 8 (CTX_VA + 0x10000) 25 0) = Ret (c, tt) /\
    gas_block_pcs c = [0].
Proof. split; [by vm_compute|]. eexists. split; vm_compute; reflexivity. Qed.
